(* ===== verification/_CoqProject ===== *)
-Q . S2P
Prelude.v
Dll.v
GearTable.v
FastCDC.v
Lru.v
Meta.v
MetaLock.v
MetaAccess.v
Collision.v
Alock.v
Nhit.v
Refcnt.v
AsyncLock.v
Eviction.v
Request.v
CacheLine.v
Traverse.v
EnvList.v
RbTree.v
RbShape.v
RbSpec.v
RbInsert.v
RbSwap.v
RbRemove.v
RbOps.v
SeqCutoff.v
SeqOrder.v
SeqRun.v
Lst.v
UserPart.v
UserClass.v
IoClass.v
LsmtSegment.v
LsmtIndex.v
Files.v
CrcTable.v
Crc32.v
Compressor.v
ZFile.v
ZJump.v
ZRead.v
ZHeader.v
ZBuild.v
ZWrite.v
ZOpen.v
ZRoundtrip.v
LsmtFile.v
LsmtOpen.v
LsmtCommit.v
