(* ===== verification/Prelude.v ===== *)
(** * CORA

    This development models the parts of CORA that decide what data a reader
    sees: the Open CAS cache (OCF) that overlaybd embeds, the content-defined
    chunking of FastCDC, the layered images of overlaybd (LSMT) and its compressed
    files with random access (ZFile).  Paths below are relative to src/overlaybd:
    [ocf] is src/overlaybd/cache/ocf_cache/ocf/src, [lsmt] is src/overlaybd/lsmt,
    [zfile] is src/overlaybd/zfile.

    ** Conventions

    Every definition is executable and named after the function, type or macro it
    translates.  Machine integers are [Z] with their wrap-around written out (the
    functions [u8] to [u64] below).  A stateful function is a computation of the
    monad [M S A], that is S -> option (A * S); [None] stands for a stop of the
    program ([ENV_BUG_ON], assert) and for accesses outside an array or a buffer,
    so that a theorem which says that a function returns [Some] also says that it
    is safe.  Error codes are ordinary results.  Code that is not part of the
    sources is an interface: a class of operations and a class of laws that state
    the documented behaviour ([IFiles] for the files of photon, [UUIDs] for its
    UUIDs, [ISparseFiles] for holes, [IStreamFiles] for reads at the position,
    [Codecs] for LZ4 and zstd); the witnesses use an instance in memory.

    ** The files

    Prelude: the monad, integers, general lemmas.

    The cache (OCF).  A cache line holds the data of a core line.
    - Dll: the theory of the doubly linked lists that the cache threads through
      its arrays of metadata.
    - Lru: the operations of ocf/ocf_lru.c on one list with its hot half.
      [lru_operations_refine]: they refine the operations on the plain list.
    - Meta: the metadata of a line and its status bits
      (ocf/metadata/metadata_*.[ch]).
    - Collision: the hash table with collision lists and the layouts of the device
      (metadata_collision.c), the lookup of engine_common.c.
      [collision_refines_map]: they implement a finite map.
    - MetaLock: the metadata locks and their order, as a step relation over
      threads (ocf/concurrency/ocf_metadata_concurrency.c); MetaAccess: what the
      callers touch inside, and that conflicting accesses never meet
      ([metadata_accesses_exclusive]).
    - Alock: the asynchronous locks of cache lines (utils_alock.c);
      [lock_refines_rwlock] is a refinement of readers-writer locks.
    - AsyncLock: the asynchronous lock of the management (utils_async_lock.c).
    - Refcnt: the reference counters (utils_refcnt.c), with threads interleaved
      at every atomic action.
    - Nhit: the nhit promotion policy (ocf/promotion/nhit): a hash table with a ring
      buffer refines the list of the last insertions.
    - Eviction: the lists of the partitions, population of the free list, and the
      iterators that evict (the rest of ocf_lru.c).  It joins Lru, Meta, Collision
      and the locks.
    - Request: what the engines derive from the map of a request.
    - CacheLine: the changes of the state of a line (utils_cache_line.[ch]) with
      all their statistics; it joins Eviction, Request, Meta and Collision.
    - Traverse: the lookup of all core lines of a request, its counters and its
      check (engine_common.c).  [traverse_answers]: what the engines conclude from
      the counters is true of the cache; [request_checked]: a check passes exactly
      when every mapped entry still names the line of its core line.
    - EnvList: the circular lists of the environment (ocf_env_list.h).
    - RbTree: the red-black trees of utils_rbtree.c, whose nodes carry lists of the
      nodes that compare equal.  RbShape: trees in memory with the way up; RbSpec:
      the groups they stand for; RbInsert, RbSwap and RbRemove: insertion, removal
      and their rebalancing; RbOps: the rest and [rb_tree_refines].
    - SeqCutoff: sequential cutoff (ocf_seq_cutoff.c), on those lists and trees;
      SeqOrder: the order of the streams; SeqRun: its critical sections.
      [seq_cutoff_sections_safe]: any interleaving of them is safe.
    - Lst: the indexed lists of utils_list.[ch] and their sort with a callback.
    - UserPart: user partitions (utils_user_part.[ch]), the management of the IO
      classes (mngt/ocf_mngt_io_class.c, ocf_io_class.c) and how much may be evicted
      from a partition (ocf_space.c).  UserClass: the classes that the partitions
      stand for; IoClass: the start, the configuration ([io_classes_configured]) and
      the limits.

    Chunking.  GearTable holds the table and the masks, FastCDC the scanners of
    FastCDC-c/fastcdc.c and the C++ wrapper.

    Files.  Files holds the interfaces of files, their laws and files in memory.

    Compressed files (ZFile).  A file is cut into blocks, each compressed with a
    checksum; a table of the sizes says where they are.
    - CrcTable, Crc32: the tables and routines of zfile/crc32/crc32c.cpp.
      [crc32c_equiv]: all compute the CRC-32C of the bytes.
    - Compressor: the options and the wrappers of LZ4 and zstd (zfile/compressor.h
      and compressor.cpp).
    - ZFile: headers, the jump table, the reader of blocks and pread, from
      zfile/zfile.cpp; ZJump: the theory of the jump table; ZRead: what a pread
      gives on a file with given blocks; ZHeader: headers as bytes and their digest.
    - ZBuild: compression, opening, decompression and validation; ZWrite: what
      zfile_compress writes; ZOpen: that it can be opened; ZRoundtrip: the round
      trips of the whole, [compress_pread_roundtrip] and [decompress_compress],
      for blocks of 4 to 32 KB whose size is a power of two.

    Images (LSMT).  An image is a stack of layers; a block is in the topmost layer
    that maps it.
    - LsmtSegment: segments, mappings (lsmt/index.h) and what a sorted list of
      mappings denotes ([den]).
    - LsmtIndex: the memory indexes (lsmt/index.cpp): a set, an array, an array
      with a tree of pages, a set over an array; merging, compression, the visit
      of a range.  [MemoryIndexLaws] is the contract of a lookup that LsmtFile uses.
    - LsmtFile: reading and writing a file (class LSMTReadOnlyFile and class
      LSMTFile of lsmt/file.cpp).  [lsmt_refines_disk]: any sequence of writes,
      punched holes and syncs is that of a disk, and the records in the index file
      amount to the index in memory ([rw_inv]).
    - LsmtOpen: headers, loading and checking an index, creating, opening and
      stacking.  [create_write_reopen]: what was written is found again after the
      memory is lost.
    - LsmtCommit: commit, flatten, merge and seal, which copy an image to a new
      layer or turn a writable file into one; each keeps what is read.

    ** Bounds and fuel

    Recursion that follows no structure has fuel, and theorems prove that the fuel
    given is enough; running out of it is [None].
    - Lists of the cache: [lookup_fuel] is the number of collision entries, since
      a list has no cycle; iterations over the 32 lists of a partition have
      [list_fuel] = 33; the iteration over the hash buckets of a request visits
      each bucket at most once.
    - Red-black trees: [fuel_of] is more than the number of nodes in the memory;
      [rb_find_depth]: a search needs no more than twice the logarithm.
    - Scanners of FastCDC: the number of bytes that are left.
    - Reading, writing and punching: one more than the number of bytes, since every
      round consumes some; copying in 32 KB rounds likewise.
    - [merge_fuel]: a call of merge_indexes goes one layer down, so the number of
      layers, or the maximal level, and one; [foreach_segments]: one more than the
      length of the segment; the level index: the number of entries.
    - A pread of a compressed file: one more than the number of its blocks; the
      loops of compression and decompression: one more than the length of the
      input; the table is loaded in pieces of 1 MB, and fuel is their number.
    - Images have at most 255 layers, offsets of 50 bits and lengths of 14 bits, as
      in the code.  Theorems on files bound the sizes by 2^63 bytes of data and
      2^31 bytes of index (the width of the variables that hold them).

    ** Theorems

    In each file the claims are the theorems with a number.  They are of these
    kinds: refinement of an abstract object (map, list, disk, readers-writer
    lock), invariants over all reachable states, exact results of an operation on
    every branch, round trips, equivalence of an optimised structure and the plain
    one, termination and progress of the locks, and error paths.  Where the code
    does not do what it is meant to, a theorem shows it on the model
    ([lock_slow_failure_leaves_waiter], [refcnt_callback_too_early],
    [normalized_chunking_overread], [torn_index_overflows],
    [group_commit_resize], [combo_block_count_wraps], [merge_forgets_size],
    [pread_unaligned_rounds_down], [jump_table_odd_group],
    [promotion_hides_stream], [find_skips_head], [can_update_equal]).

    ** Not modelled

    - Of the cache: the I/O engines, the flow of a request through callbacks, the
      choice of partitions to evict from for a request,
      cleaning policies, the metadata segments on disk, the management, statistics.  The calls from modelled code to the cleaning policy
      are recorded.
    - The LRU locks and page locks taken around a list operation: the operations
      are what runs under them.
    - Of the images: the writes of sparse and of warp files, fstat and data_stat, and
      destruction.  The threads that load layers in parallel run one after the
      other; a writable file is used by one thread.
    - Of the compressed files: the streaming builders, the offloads to QAT, DSA and
      ISA-L, which are compiled in by options.
    - The caches of files, registries, gzip streams, the image service and the
      tools: mostly I/O, coroutines and libraries.  Benchmarks and vendored code. *)

From Stdlib Require Export ZArith Lia.
From stdpp Require Export base numbers option gmap list.

#[global] Open Scope Z_scope.

(** [lia] for goals with division and remainder by constants. *)
Ltac dlia := zify; Z.div_mod_to_equations; lia.

(** ** Machine integers *)

Definition u8 (x : Z) : Z := x mod 2 ^ 8.
Definition u16 (x : Z) : Z := x mod 2 ^ 16.
Definition u32 (x : Z) : Z := x mod 2 ^ 32.
Definition u64 (x : Z) : Z := x mod 2 ^ 64.

(** Two's complement reading of the low 32 bits, the value of an [int]. *)
Definition s32 (x : Z) : Z :=
  let y := x mod 2 ^ 32 in if y <? 2 ^ 31 then y else y - 2 ^ 32.

Lemma u32_small x : 0 <= x < 2 ^ 32 -> u32 x = x.
Proof. apply Z.mod_small. Qed.

Lemma u64_small x : 0 <= x < 2 ^ 64 -> u64 x = x.
Proof. apply Z.mod_small. Qed.

Lemma u32_bound x : 0 <= u32 x < 2 ^ 32.
Proof. apply Z.mod_pos_bound. lia. Qed.

Lemma u64_bound x : 0 <= u64 x < 2 ^ 64.
Proof. apply Z.mod_pos_bound. lia. Qed.

Lemma s32_small x : - 2 ^ 31 <= x < 2 ^ 31 -> s32 x = x.
Proof.
  intros Hx. unfold s32. destruct (decide (0 <= x)) as [Hp|Hn].
  - rewrite Z.mod_small by lia. destruct (Z.ltb_spec x (2 ^ 31)); lia.
  - replace (x mod 2 ^ 32) with (x + 2 ^ 32).
    + destruct (Z.ltb_spec (x + 2 ^ 32) (2 ^ 31)); lia.
    + rewrite <- (Z.mod_small (x + 2 ^ 32) (2 ^ 32)) at 1 by lia.
      rewrite <- (Z.mul_1_l (2 ^ 32)) at 1. by rewrite Z.mod_add by lia.
Qed.

(** ** Constants shared by the components

    [INT_MAX]; the error codes of ocf/inc/ocf_err.h; the lookup results of
    ocf/src/engine/cache_engine.h. *)

Definition INT_MAX : Z := 2 ^ 31 - 1.
Definition OCF_ERR_INVAL : Z := 1000000.
Definition OCF_ERR_AGAIN : Z := 1000001.
Definition OCF_ERR_NO_MEM : Z := 1000004.
Definition OCF_ERR_NO_LOCK : Z := 1000005.
Definition OCF_ERR_UNKNOWN : Z := 1000010.
Definition LOOKUP_HIT : Z := 5.
Definition LOOKUP_MISS : Z := 6.
Definition LOOKUP_REMAPPED : Z := 8.

(** ** State and failure

    [M S A] is a computation over the state [S].  [None] stands for a stop of
    the program: an [ENV_BUG_ON] that fires, or an access outside the array it
    indexes.  A theorem that gives [Some] therefore shows that neither happens
    and that the loops of the computation end. *)

Definition M (S A : Type) : Type := S -> option (A * S).

#[export] Instance M_ret S : MRet (M S) := fun A a s => Some (a, s).
#[export] Instance M_bind S : MBind (M S) := fun A B k m s =>
  match m s with Some (a, s') => k a s' | None => None end.

Section monad.
Context {S : Type}.

Definition bug {A} : M S A := fun _ => None.
Definition BUG_ON (b : bool) : M S unit := if b then bug else mret tt.
Definition gets {A} (f : S -> A) : M S A := fun s => Some (f s, s).
Definition modify (f : S -> S) : M S unit := fun s => Some (tt, f s).
Definition lift {A} (o : option A) : M S A := fun s => (fun a => (a, s)) <$> o.

(** Total-correctness weakest precondition: the computation ends, without a
    stop, in a state that satisfies [Q]. *)
Definition wp {A} (m : M S A) (Q : A -> S -> Prop) (s : S) : Prop :=
  exists a s', m s = Some (a, s') /\ Q a s'.

Lemma wp_ret {A} (a : A) Q s : Q a s -> wp (mret a) Q s.
Proof. intros H. by exists a, s. Qed.

Lemma wp_bind {A B} (m : M S A) (k : A -> M S B) Q s :
  wp m (fun a => wp (k a) Q) s -> wp (m ≫= k) Q s.
Proof.
  intros (a & s1 & Hm & b & s2 & Hk & HQ). exists b, s2. split; [|done].
  unfold mbind, M_bind. by rewrite Hm.
Qed.

Lemma wp_mono {A} (m : M S A) (Q R : A -> S -> Prop) s :
  wp m Q s -> (forall a s', Q a s' -> R a s') -> wp m R s.
Proof. intros (a & s' & Hm & HQ) HR. exists a, s'. auto. Qed.

Lemma wp_gets {A} (f : S -> A) Q s : Q (f s) s -> wp (gets f) Q s.
Proof. intros H. by exists (f s), s. Qed.

Lemma wp_modify (f : S -> S) Q s : Q tt (f s) -> wp (modify f) Q s.
Proof. intros H. by exists tt, (f s). Qed.

Lemma wp_BUG_ON (b : bool) Q s : b = false -> Q tt s -> wp (BUG_ON b) Q s.
Proof. intros -> H. by apply wp_ret. Qed.

Lemma wp_lift {A} (o : option A) a Q s : o = Some a -> Q a s -> wp (lift o) Q s.
Proof. intros -> H. by exists a, s. Qed.

Lemma wp_run {A} (m : M S A) Q s a s' : m s = Some (a, s') -> wp m Q s -> Q a s'.
Proof. intros Hm (b & s1 & Hm' & HQ). by simplify_eq. Qed.
End monad.

Lemma bind_run {S A B} (m : M S A) (k : A -> M S B) st :
  (m ≫= k) st = match m st with Some (a, s') => k a s' | None => None end.
Proof. done. Qed.

#[global] Arguments BUG_ON : simpl never.
#[global] Arguments Nat.div : simpl never.

(** [zoom] runs a computation on a part of the state. *)
Definition zoom {S T A} (get : S -> T) (set : T -> S -> S) (m : M T A) : M S A :=
  fun s => match m (get s) with
           | Some (a, t) => Some (a, set t s)
           | None => None
           end.

Lemma wp_zoom {S T A} (get : S -> T) (set : T -> S -> S) (m : M T A) Q s :
  wp m (fun a t => Q a (set t s)) (get s) -> wp (zoom get set m) Q s.
Proof.
  intros (a & t & Hm & HQ). exists a, (set t s). split; [|done].
  unfold zoom. by rewrite Hm.
Qed.

(** One symbolic step of a monadic program. *)
Ltac wp_step :=
  lazymatch goal with
  | |- wp (mbind _ _) _ _ => apply wp_bind
  | |- wp (mret _) _ _ => apply wp_ret
  | |- wp (gets _) _ _ => apply wp_gets
  | |- wp (modify _) _ _ => apply wp_modify
  | |- wp (BUG_ON _) _ _ => apply wp_BUG_ON; [try reflexivity|]
  | |- wp (zoom _ _ _) _ _ => apply wp_zoom
  end.
Ltac wp_steps := repeat (wp_step; simpl).

(** ** Lists *)

(** First element or a default, last element or a default: the values a list
    head and a list tail hold. *)
Definition hd_or {A} (d : A) (l : list A) : A := default d (head l).
Definition last_or {A} (d : A) (l : list A) : A := default d (last l).

Lemma last_or_snoc {A} (d : A) l x : last_or d (l ++ [x]) = x.
Proof. unfold last_or. by rewrite last_snoc. Qed.

Lemma last_or_cons {A} (d : A) x l : last_or d (x :: l) = last_or x l.
Proof. unfold last_or. rewrite last_cons. by destruct (last l). Qed.

Lemma last_or_app {A} (d : A) l1 l2 : last_or d (l1 ++ l2) = last_or (last_or d l1) l2.
Proof. unfold last_or. rewrite last_app. by destruct (last l2). Qed.

Lemma last_or_any {A} (d d' : A) l : l <> [] -> last_or d l = last_or d' l.
Proof. destruct l as [|x l]; [done|]. intros _. by rewrite !last_or_cons. Qed.

Lemma hd_or_app {A} (d : A) l1 l2 : hd_or d (l1 ++ l2) = hd_or (hd_or d l2) l1.
Proof. by destruct l1. Qed.

Lemma last_or_elem {A} (d : A) l : l <> [] -> last_or d l ∈ l.
Proof.
  intros Hl. destruct l as [|x l] using rev_ind; [done|].
  rewrite last_or_snoc. set_solver.
Qed.

Lemma hd_or_elem {A} (d : A) l : l <> [] -> hd_or d l ∈ l.
Proof. destruct l; [done|]. set_solver. Qed.

(** A duplicate-free list of numbers below [n] has at most [n] elements. *)
Lemma NoDup_range_length (l : list Z) n :
  NoDup l -> (forall x, x ∈ l -> 0 <= x < n) -> Z.of_nat (length l) <= Z.max 0 n.
Proof.
  intros Hnd Hr.
  assert (length (Z.to_nat <$> l) <= length (seq 0 (Z.to_nat n)))%nat as Hle.
  { apply submseteq_length, NoDup_submseteq.
    - apply (NoDup_fmap_2_strong _ _); [|done].
      intros x y Hx Hy. apply Hr in Hx. apply Hr in Hy. lia.
    - intros i (x & -> & Hx)%list_elem_of_fmap. apply Hr in Hx.
      apply elem_of_seq. lia. }
  rewrite length_fmap, length_seq in Hle. lia.
Qed.


(** Removing an element of the concatenation removes it from one half. *)
Lemma split_half {A} (hs cs l1 : list A) x l2 :
  hs ++ cs = l1 ++ x :: l2 ->
  (exists h2, hs = l1 ++ x :: h2 /\ l2 = h2 ++ cs) \/ (exists c1, cs = c1 ++ x :: l2 /\ l1 = hs ++ c1).
Proof.
  revert l1. induction hs as [|h hs IH]; intros l1 Heq; simpl in Heq.
  - right. by exists l1.
  - destruct l1 as [|y l1]; simpl in Heq; injection Heq as -> Heq'.
    + subst l2. left. by exists hs.
    + destruct (IH l1 Heq') as [(h2 & -> & ->)|(c1 & -> & ->)]; [left|right]; eauto.
Qed.

(** The hot and the cold half without [x]. *)
Definition without (x : Z) (l : list Z) : list Z := filter (.≠ x) l.

Lemma without_notin x l : x ∉ l -> without x l = l.
Proof.
  unfold without. induction l as [|y l IH]; [done|]. intros Hx.
  rewrite filter_cons_True by set_solver. f_equal. apply IH. set_solver.
Qed.

Lemma without_mid x l1 l2 : NoDup (l1 ++ x :: l2) -> without x (l1 ++ x :: l2) = l1 ++ l2.
Proof.
  intros (Hnd & Hd & [Hx _]%NoDup_cons)%NoDup_app. unfold without.
  rewrite filter_app, filter_cons_False by auto.
  fold (without x l1) (without x l2). rewrite !without_notin; [done|done|].
  intros Hx1. apply (Hd x); [done|by left].
Qed.

Lemma elem_of_without x y l : y ∈ without x l <-> y ∈ l /\ y <> x.
Proof. unfold without. rewrite list_elem_of_filter. tauto. Qed.

Lemma length_without x l : NoDup l ->
  length (without x l) = (length l - (if bool_decide (x ∈ l) then 1 else 0))%nat.
Proof.
  intros Hnd. case_bool_decide as Hx.
  - apply list_elem_of_split in Hx as (l1 & l2 & ->). rewrite without_mid by done.
    rewrite !length_app. simpl. lia.
  - rewrite without_notin by done. lia.
Qed.

Lemma last_or_without d x hs cs l1 l2 :
  NoDup (hs ++ cs) -> d ∉ hs ++ cs -> x <> d -> hs ++ cs = l1 ++ x :: l2 ->
  last_or d (without x hs) = if last_or d hs =? x then last_or d l1 else last_or d hs.
Proof.
  intros Hnd Hd Hxd Heq.
  destruct (split_half _ _ _ _ _ Heq) as [(h2 & -> & ->)|(c1 & -> & ->)].
  - apply NoDup_app in Hnd as (Hnd & _ & _). rewrite without_mid by done.
    rewrite !last_or_app, last_or_cons. destruct h2 as [|y h2 _] using rev_ind.
    + unfold last_or at 3. simpl. by rewrite Z.eqb_refl.
    + rewrite !last_or_snoc. destruct (Z.eqb_spec y x) as [->|]; [|done].
      apply NoDup_app in Hnd as (_ & _ & [Hx _]%NoDup_cons). set_solver.
  - assert (x ∉ hs) as Hx. { intros Hx. apply NoDup_app in Hnd as (_ & Hnd & _). apply (Hnd x); set_solver. }
    rewrite without_notin by done. destruct (Z.eqb_spec (last_or d hs) x) as [He|]; [|done].
    exfalso. destruct hs as [|y hs _] using rev_ind; [done|]. rewrite last_or_snoc in He. set_solver.
Qed.

(** ** Arrays *)

(** The array of [n] elements that holds [f i] at index [i]. *)
Definition zarray {A} (n : nat) (f : Z -> A) : gmap Z A :=
  list_to_map ((fun i => (Z.of_nat i, f (Z.of_nat i))) <$> seq 0 n).

Lemma zarray_lookup {A} n (f : Z -> A) i a :
  zarray n f !! i = Some a <-> 0 <= i < Z.of_nat n /\ a = f i.
Proof.
  unfold zarray. rewrite <- elem_of_list_to_map.
  - rewrite list_elem_of_fmap. split.
    + intros (k & [= -> ->] & Hk%elem_of_seq). split; [lia|done].
    + intros [Hi ->]. exists (Z.to_nat i). rewrite elem_of_seq, Z2Nat.id by lia. split; [done|lia].
  - rewrite <- list_fmap_compose. apply NoDup_fmap_2; [|apply NoDup_seq].
    intros i1 i2. simpl. lia.
Qed.

Lemma zarray_is_Some {A} n (f : Z -> A) i : is_Some (zarray n f !! i) <-> 0 <= i < Z.of_nat n.
Proof.
  split; [intros [a Ha%zarray_lookup]; tauto|]. intros Hi. exists (f i). by apply zarray_lookup.
Qed.

(** Decide a closed proposition by evaluation. *)
Ltac decide_vm :=
  match goal with |- ?P => apply (bool_decide_eq_true_1 P); vm_compute; reflexivity end.

(** [for (i = from; i < from + n; i++) body(i)] *)
Fixpoint for_range {S} (n : nat) (i : Z) (body : Z -> M S unit) : M S unit :=
  match n with
  | O => mret tt
  | S n => body i;; for_range n (i + 1) body
  end.

Lemma wp_for_range {S} (body : Z -> M S unit) (I : Z -> S -> Prop) n i Q s :
  (forall j s, i <= j < i + Z.of_nat n -> I j s -> wp (body j) (fun _ => I (j + 1)) s) ->
  I i s -> (forall s', I (i + Z.of_nat n) s' -> Q tt s') -> wp (for_range n i body) Q s.
Proof.
  revert i s. induction n as [|n IH]; intros i s Hb Hi HQ; simpl.
  - apply wp_ret, HQ. by rewrite Z.add_0_r.
  - apply wp_bind. eapply wp_mono; [apply Hb; [lia|done]|]. simpl. intros _ s1 H1. apply IH.
    + intros j s2 Hj. apply Hb. lia.
    + done.
    + intros s2 H2. apply HQ. by replace (i + Z.of_nat (Datatypes.S n)) with (i + 1 + Z.of_nat n) by lia.
Qed.

(** Pointwise comparison of two maps built by updates. *)
Ltac map_pointwise :=
  apply map_eq; intros ?i; rewrite ?lookup_alter, ?lookup_insert;
  repeat (case_decide; simplify_eq); rewrite ?lookup_alter, ?lookup_insert;
  repeat (case_decide; simplify_eq); try done.

Lemma is_Some_alter {A} `{Countable K} (m : gmap K A) f x y : is_Some (alter f y m !! x) <-> is_Some (m !! x).
Proof.
  rewrite lookup_alter. case_decide; [|done]. subst. by rewrite fmap_is_Some.
Qed.

Lemma insert_is_Some' {A} `{Countable K} (m : gmap K A) x a y :
  is_Some (m !! x) -> is_Some (<[x := a]> m !! y) <-> is_Some (m !! y).
Proof.
  intros Hx. rewrite lookup_insert. case_decide; [subst|done]. split; [done|]. intros _. by eexists.
Qed.

(** ** Counting *)

(** How many elements satisfy [P]. *)
Definition tally {A} (P : A -> bool) (l : list A) : Z := Z.of_nat (length (filter (fun x => P x = true) l)).

Lemma tally_nil {A} (P : A -> bool) : tally P [] = 0.
Proof. done. Qed.

Lemma tally_cons {A} (P : A -> bool) x l : tally P (x :: l) = (if P x then 1 else 0) + tally P l.
Proof. unfold tally. rewrite filter_cons. destruct (P x); case_decide; try done. cbn [length]. lia. Qed.

Lemma tally_range {A} (P : A -> bool) l : 0 <= tally P l <= Z.of_nat (length l).
Proof. unfold tally. pose proof (length_filter (fun x => P x = true) l). lia. Qed.

Lemma tally_ext {A} (P Q : A -> bool) l : (forall x, x ∈ l -> P x = Q x) -> tally P l = tally Q l.
Proof.
  induction l as [|x l IH]; intros H; [done|]. rewrite !tally_cons, H by (by left).
  rewrite IH; [done|]. intros y Hy. apply H. by right.
Qed.

(** The tally after the predicate changed at one element. *)
Lemma tally_update (P Q : Z -> bool) l x : NoDup l -> x ∈ l -> (forall y, y ∈ l -> y <> x -> Q y = P y) ->
  tally Q l = tally P l - (if P x then 1 else 0) + (if Q x then 1 else 0).
Proof.
  intros Hnd Hx HPQ. apply list_elem_of_split in Hx as (l1 & l2 & ->).
  assert (x ∉ l1 ++ l2) as Hnin.
  { rewrite elem_of_app. apply NoDup_app in Hnd as (_ & Hd & [Hx2 _]%NoDup_cons). intros [H|H]; [|done].
    apply (Hd x H). by left. }
  assert (forall R, tally R (l1 ++ x :: l2) = (if R x then 1 else 0) + tally R (l1 ++ l2)) as Hsplit.
  { intros R. unfold tally. rewrite !filter_app, filter_cons. destruct (R x); case_decide; try done;
      rewrite !length_app; cbn [length]; lia. }
  rewrite !Hsplit, (tally_ext Q P (l1 ++ l2)); [lia|].
  intros y Hy. apply HPQ; [|by intros ->]. apply elem_of_app in Hy as [Hy|Hy]; apply elem_of_app; [by left|right; by right].
Qed.

Lemma tally_pos {A} (P : A -> bool) l x : x ∈ l -> P x = true -> 0 < tally P l.
Proof.
  intros Hx HP. unfold tally. assert (x ∈ filter (fun x => P x = true) l) as Hin by (by apply list_elem_of_filter).
  destruct (filter _ l); [by apply elem_of_nil in Hin|simpl; lia].
Qed.

Lemma tally_perm {A} (P : A -> bool) l l' : l ≡ₚ l' -> tally P l = tally P l'.
Proof. intros Hl. unfold tally. by rewrite Hl. Qed.

Lemma tally_fmap {A B} (P : B -> bool) (f : A -> B) l : tally P (f <$> l) = tally (fun x => P (f x)) l.
Proof. induction l as [|x l IH]; [done|]. rewrite fmap_cons, !tally_cons. by rewrite IH. Qed.

Lemma tally_seqZ (P : Z -> bool) a b : a < b ->
  tally P (seqZ a (b - a)) = (if P a then 1 else 0) + tally P (seqZ (a + 1) (b - (a + 1))).
Proof.
  intros Hab. rewrite seqZ_cons, tally_cons by lia. do 2 f_equal. f_equal; lia.
Qed.
