(* ===== verification/Dll.v ===== *)
(** Intrusive doubly linked lists threaded through an array.

    The LRU lists, the collision lists of the cache, and the collision lists of
    the nhit ring buffer all keep, in each array element, the index of the
    previous and of the next element, with a reserved index for "none".  This
    file gives the shared theory: [seg] says that an array holds a list segment,
    and the update lemmas say what relinking does to it.  [DllNode] is the
    interface an element type implements. *)

From S2P Require Import Prelude.

Class DllNode (A : Type) := {
  n_prev : A -> Z;
  n_next : A -> Z;
  set_prev : Z -> A -> A;
  set_next : Z -> A -> A;
  n_prev_set_prev v a : n_prev (set_prev v a) = v;
  n_next_set_prev v a : n_next (set_prev v a) = n_next a;
  n_prev_set_next v a : n_prev (set_next v a) = n_prev a;
  n_next_set_next v a : n_next (set_next v a) = v;
}.

Section dll.
Context {A : Type} `{DllNode A}.
Implicit Types (m : gmap Z A) (l : list Z).

(** The pair of links of element [x]. *)
Definition links m (x : Z) : option (Z * Z) := (fun a => (n_prev a, n_next a)) <$> m !! x.

(** [seg m p l n]: the elements of [l] are linked in this order, the first
    one has [p] before it and the last one has [n] after it. *)
Fixpoint seg m (p : Z) l (n : Z) : Prop :=
  match l with
  | [] => True
  | x :: l' => links m x = Some (p, hd_or n l') /\ seg m x l' n
  end.

Lemma seg_app m p l1 l2 n :
  seg m p (l1 ++ l2) n <-> seg m p l1 (hd_or n l2) /\ seg m (last_or p l1) l2 n.
Proof.
  revert p. induction l1 as [|x l1 IH]; intros p; simpl; [tauto|].
  rewrite IH, hd_or_app, last_or_cons. tauto.
Qed.

Lemma seg_frame m m' p l n :
  (forall x, x ∈ l -> links m' x = links m x) -> seg m p l n -> seg m' p l n.
Proof.
  revert p. induction l as [|x l IH]; intros p Hf; simpl; [done|].
  intros [Hx Hl]. split; [rewrite Hf; [done|set_solver]|].
  apply IH; [|done]. intros y Hy. apply Hf. set_solver.
Qed.

Lemma seg_dom m p l n x : seg m p l n -> x ∈ l -> is_Some (m !! x).
Proof.
  revert p. induction l as [|y l IH]; intros p; simpl; [set_solver|].
  intros [Hy Hl] Hx. apply elem_of_cons in Hx as [->|Hx]; [|by eapply IH].
  unfold links in Hy. destruct (m !! y); [by eexists|done].
Qed.

Lemma links_Some m x p n :
  links m x = Some (p, n) -> exists a, m !! x = Some a /\ n_prev a = p /\ n_next a = n.
Proof.
  unfold links. destruct (m !! x) as [a|]; simpl; [|done].
  intros [= <- <-]. by exists a.
Qed.

Lemma links_alter_ne m f x y : x <> y -> links (alter f y m) x = links m x.
Proof. intros Hne. unfold links. by rewrite lookup_alter_ne. Qed.

Lemma links_insert_ne m a x y : x <> y -> links (<[y := a]> m) x = links m x.
Proof. intros Hne. unfold links. by rewrite lookup_insert_ne. Qed.

Lemma links_insert m a x : links (<[x := a]> m) x = Some (n_prev a, n_next a).
Proof. unfold links. by rewrite lookup_insert_eq. Qed.

Lemma links_alter_prev m v x p n :
  links m x = Some (p, n) -> links (alter (set_prev v) x m) x = Some (v, n).
Proof.
  intros (a & Ha & <- & <-)%links_Some. unfold links.
  rewrite lookup_alter_eq, Ha. simpl. by rewrite n_prev_set_prev, n_next_set_prev.
Qed.

Lemma links_alter_next m v x p n :
  links m x = Some (p, n) -> links (alter (set_next v) x m) x = Some (p, v).
Proof.
  intros (a & Ha & <- & <-)%links_Some. unfold links.
  rewrite lookup_alter_eq, Ha. simpl. by rewrite n_prev_set_next, n_next_set_next.
Qed.

(** Set the [next] field of the last element of [l], the [prev] field of the
    first one; nothing when there is none. *)
Definition relink_next l v m : gmap Z A :=
  match last l with Some y => alter (set_next v) y m | None => m end.
Definition relink_prev l v m : gmap Z A :=
  match head l with Some y => alter (set_prev v) y m | None => m end.

Lemma seg_relink_prev m p l n v :
  NoDup l -> seg m p l n -> seg (relink_prev l v m) v l n.
Proof.
  destruct l as [|x l]; [done|]. intros [Hx Hnd]%NoDup_cons. simpl. intros [Hl Hs].
  split; [by eapply links_alter_prev|].
  apply (seg_frame m); [|done]. intros y Hy. apply links_alter_ne. set_solver.
Qed.

Lemma seg_relink_next m p l n v :
  NoDup l -> seg m p l n -> seg (relink_next l v m) p l v.
Proof.
  destruct l as [|x l _] using rev_ind; [done|].
  unfold relink_next. rewrite last_snoc, !seg_app. simpl.
  intros (Hnd & Hx & _)%NoDup_app (Hl & Hs & _). split_and!; [| |done].
  - apply (seg_frame m); [|done]. intros y Hy. apply links_alter_ne.
    intros ->. eapply Hx; [done|set_solver].
  - by eapply links_alter_next.
Qed.

Lemma relink_next_links l v m x : last l <> Some x -> links (relink_next l v m) x = links m x.
Proof.
  unfold relink_next. intros Hx. destruct (last l); [|done].
  apply links_alter_ne. congruence.
Qed.

Lemma relink_prev_links l v m x : head l <> Some x -> links (relink_prev l v m) x = links m x.
Proof.
  unfold relink_prev. intros Hx. destruct (head l); [|done].
  apply links_alter_ne. congruence.
Qed.

Lemma relink_next_lookup_ne l v m x : x ∉ l -> relink_next l v m !! x = m !! x.
Proof.
  unfold relink_next. intros Hx. destruct (last l) as [y|] eqn:Hy; [|done].
  apply last_Some in Hy as [l' ->]. apply lookup_alter_ne. set_solver.
Qed.

Lemma relink_prev_lookup_ne l v m x : x ∉ l -> relink_prev l v m !! x = m !! x.
Proof.
  unfold relink_prev. intros Hx. destruct l as [|y l]; [done|].
  apply lookup_alter_ne. set_solver.
Qed.

(** Relinking only touches links: [f] stands for any other field. *)
Lemma relink_field {B} (f : A -> B) l1 l2 v w m x :
  (forall v a, f (set_prev v a) = f a) -> (forall v a, f (set_next v a) = f a) ->
  f <$> relink_prev l2 v (relink_next l1 w m) !! x = f <$> m !! x.
Proof.
  intros Hp Hn. unfold relink_prev, relink_next.
  destruct (head l2) as [y|], (last l1) as [z|];
    rewrite ?lookup_alter; repeat case_decide; simplify_eq;
    rewrite ?option_fmap_alt; destruct (m !! _); simpl; by rewrite ?Hp, ?Hn.
Qed.

Lemma relink_dom l1 l2 v w m x :
  is_Some (relink_prev l2 v (relink_next l1 w m) !! x) <-> is_Some (m !! x).
Proof.
  unfold relink_prev, relink_next.
  destruct (head l2) as [y|], (last l1) as [z|];
    rewrite ?lookup_alter; repeat case_decide; simplify_eq;
    rewrite ?fmap_is_Some; done.
Qed.

Lemma relink_prev_dom l v m x : is_Some (relink_prev l v m !! x) <-> is_Some (m !! x).
Proof. apply (relink_dom [] l v 0). Qed.

(** Unlinking an element from the middle of a list. *)
Lemma seg_unlink m p l1 x l2 n :
  NoDup (l1 ++ x :: l2) -> seg m p (l1 ++ x :: l2) n ->
  seg (relink_prev l2 (last_or p l1) (relink_next l1 (hd_or n l2) m)) p (l1 ++ l2) n.
Proof.
  intros (Hnd1 & Hdis & [Hx Hnd2]%NoDup_cons)%NoDup_app.
  rewrite !seg_app. simpl. intros (H1 & Hxl & H2). split.
  - apply (seg_frame (relink_next l1 (hd_or n l2) m)).
    + intros y Hy. apply relink_prev_links. intros Hh.
      apply (Hdis y Hy). destruct l2; simpl in *; [done|]. set_solver.
    + by eapply seg_relink_next.
  - eapply seg_relink_prev; [done|].
    apply (seg_frame m); [|done]. intros y Hy. apply relink_next_links.
    intros [l' ->]%last_Some. apply (Hdis y); set_solver.
Qed.

(** Pushing a fresh element in front of a list. *)
Lemma seg_push m p l n x a :
  x ∉ l -> NoDup l -> seg m p l n -> n_prev a = p -> n_next a = hd_or n l ->
  seg (<[x := a]> (relink_prev l x m)) p (x :: l) n.
Proof.
  intros Hx Hnd Hs <- Hn. simpl. split; [by rewrite links_insert, Hn|].
  apply (seg_frame (relink_prev l x m)).
  - intros y Hy. apply links_insert_ne. set_solver.
  - by eapply seg_relink_prev.
Qed.

(** What the links of an element of a segment say about its place. *)
Lemma seg_links m p l1 x l2 n :
  seg m p (l1 ++ x :: l2) n -> links m x = Some (last_or p l1, hd_or n l2).
Proof. rewrite seg_app. simpl. tauto. Qed.

(** Two segments that start at the same element and stop at the same mark,
    which neither contains, are the same list. *)
Lemma seg_inj m p l1 l2 nil :
  nil ∉ l1 -> nil ∉ l2 -> hd_or nil l1 = hd_or nil l2 ->
  seg m p l1 nil -> seg m p l2 nil -> l1 = l2.
Proof.
  revert p l2. induction l1 as [|x l1 IH]; intros p [|y l2]; simpl; [done|set_solver..|].
  unfold hd_or at 1 2. simpl. intros Hn1 Hn2 -> [Hx H1] [Hy H2].
  rewrite Hx in Hy. simplify_eq. f_equal. eapply (IH y); set_solver.
Qed.
End dll.

(** A well-formed list between two [nil] marks. *)
Record dll `{DllNode A} (m : gmap Z A) (nil : Z) (l : list Z) : Prop := {
  dll_seg : seg m nil l nil;
  dll_nodup : NoDup l;
  dll_nil : nil ∉ l;
}.

Section dll_lemmas.
Context {A : Type} `{DllNode A}.
Implicit Types (m : gmap Z A) (l : list Z).

Lemma dll_frame m m' nil l :
  (forall x, x ∈ l -> links m' x = links m x) -> dll m nil l -> dll m' nil l.
Proof. intros Hf [Hs Hnd Hn]. split; [by eapply seg_frame|done..]. Qed.

Lemma dll_unlink m nil l1 x l2 :
  dll m nil (l1 ++ x :: l2) ->
  dll (relink_prev l2 (last_or nil l1) (relink_next l1 (hd_or nil l2) m)) nil (l1 ++ l2).
Proof.
  intros [Hs Hnd Hn]. split; [by apply seg_unlink with x| |set_solver].
  apply NoDup_app in Hnd as (? & Hd & [? ?]%NoDup_cons). apply NoDup_app. set_solver.
Qed.

Lemma dll_push m nil l x a :
  dll m nil l -> x ∉ l -> x <> nil -> n_prev a = nil -> n_next a = hd_or nil l ->
  dll (<[x := a]> (relink_prev l x m)) nil (x :: l).
Proof.
  intros [Hs Hnd Hn] Hx Hxn Hp Hnx. split; [by apply seg_push|by constructor|set_solver].
Qed.

Lemma dll_nil_list m nil : dll m nil [].
Proof. split; [done|constructor|set_solver]. Qed.

Lemma dll_dom m nil l x : dll m nil l -> x ∈ l -> is_Some (m !! x).
Proof. intros [Hs _ _]. by eapply seg_dom. Qed.

(** An element with no previous one is the first of its list, an element
    with no next one the last. *)
Lemma dll_prev_nil m nil l1 x l2 :
  dll m nil (l1 ++ x :: l2) -> last_or nil l1 = nil <-> l1 = [].
Proof.
  intros [_ _ Hn]. split; [|by intros ->]. intros Hl. destruct l1 as [|y l1 _] using rev_ind; [done|].
  rewrite last_or_snoc in Hl. set_solver.
Qed.

Lemma dll_next_nil m nil l1 x l2 :
  dll m nil (l1 ++ x :: l2) -> hd_or nil l2 = nil <-> l2 = [].
Proof.
  intros [_ _ Hn]. split; [|by intros ->]. intros Hl. destruct l2 as [|y l2]; [done|].
  unfold hd_or in Hl. simpl in Hl. set_solver.
Qed.
End dll_lemmas.
