(* ===== verification/FastCDC.v ===== *)
(** Content-defined chunking: overlaybd/FastCDC-c/fastcdc.c, and the C++ wrapper
    overlaybd/src/overlaybd/zfile/fastcdc_wrapper.cpp that calls it.

    The globals of fastcdc.c that the scanners read and write are the record
    [globals]; a buffer is a partial function from offsets to bytes, so that a
    read outside it is a stop of the program. *)

From S2P Require Import Prelude GearTable.

(** ** Data *)

Definition SymbolCount : Z := 256.
Definition SeedLength : Z := 64.

Record globals := mkGlobals {
  LEARv2 : list Z;
  g_global_matrix : list Z;
  g_global_matrix_left : list Z;
  expectCS : Z;
  Mask_15 : Z;
  Mask_11 : Z;
  Mask_11_64 : Z;
  Mask_15_64 : Z;
  MinSize : Z;
  MinSize_divide_by_2 : Z;
  MaxSize : Z;
}.

(** Zero-initialised, as C does for objects with static storage. *)
Definition globals0 : globals :=
  mkGlobals (replicate 256 0) (replicate 256 0) (replicate 256 0) 0 0 0 0 0 0 0 0.

Definition set_MinSize (v : Z) (g : globals) : globals :=
  mkGlobals (LEARv2 g) (g_global_matrix g) (g_global_matrix_left g) (expectCS g)
    (Mask_15 g) (Mask_11 g) (Mask_11_64 g) (Mask_15_64 g) v (MinSize_divide_by_2 g) (MaxSize g).

(** ** Initialisation *)

(** A little-endian 32-bit load from the first bytes of a digest, the [memcpy]
    of four bytes into a [uint32_t] on the little-endian hosts of the build. *)
Definition le32 (bs : list Z) : Z :=
  match bs with
  | b0 :: b1 :: b2 :: b3 :: _ =>
    Z.lor b0 (Z.lor (Z.shiftl b1 8) (Z.lor (Z.shiftl b2 16) (Z.shiftl b3 24)))
  | _ => 0
  end.

Section init.
(** OpenSSL's MD5, which is not part of the repository: bytes to digest. *)
Variable MD5 : list Z -> list Z.

Definition fastCDC_init (g : globals) : globals :=
  let seed i := replicate (Z.to_nat SeedLength) i in
  let matrix := (fun i => u32 (le32 (MD5 (seed i)))) <$> seqZ 0 SymbolCount in
  let left := (fun v => u32 (Z.shiftl v 1)) <$> matrix in
  let lear := (fun v => u64 (Z.shiftl v 1)) <$> GEARv2 in
  let min := u32 (8192 `quot` 4) in
  mkGlobals lear matrix left (expectCS g)
    0xf9070353 0xd9000353 0x0000d90003530000 0x0000f90703530000
    min (min `div` 2) (u32 (8192 * 4)).
End init.

(** ** The scanning loops *)

Definition buffer := Z -> option Z.

Definition gear (t : list Z) (b : Z) : option Z := t !! Z.to_nat b.

(** [while (i < stop)] of the one-byte scanners: [inl] is the [return] inside
    the loop, [inr] the values of [i] and [fingerprint] when it is left. *)
Fixpoint gear_loop (fuel : nat) (p : buffer) (mask stop i fp : Z) : option (Z + Z * Z) :=
  if i <? stop then
    match fuel with
    | O => None
    | S fuel =>
      b ← p i; g ← gear GEARv2 b;
      let fp := u64 (u64 (Z.shiftl fp 1) + g) in
      if Z.land fp mask =? 0 then Some (inl i)
      else gear_loop fuel p mask stop (i + 1) fp
    end
  else Some (inr (i, fp)).

(** [while (i < stop)] of the scanners that roll two bytes per iteration. *)
Fixpoint gear_loop2 (fuel : nat) (lear : list Z) (p : buffer) (mask_ls mask stop i fp : Z)
  : option (Z + Z * Z) :=
  if i <? stop then
    match fuel with
    | O => None
    | S fuel =>
      let a := i * 2 in
      b ← p a; g ← gear lear b;
      let fp := u64 (u64 (Z.shiftl fp 2) + g) in
      if Z.land fp mask_ls =? 0 then Some (inl a)
      else
        b' ← p (a + 1); g' ← gear GEARv2 b';
        let fp := u64 (fp + g') in
        if Z.land fp mask =? 0 then Some (inl (a + 1))
        else gear_loop2 fuel lear p mask_ls mask stop (i + 1) fp
    end
  else Some (inr (i, fp)).

Definition loop_fuel (stop i : Z) : nat := Z.to_nat (stop - i).

(** ** The four scanners

    [n] and [i] are of type [int], the size globals of type [uint32_t]: a
    comparison of the two converts [n] to unsigned. *)

Definition cdc_origin_64 (p : buffer) (n : Z) : M globals Z := fun g =>
  let i := s32 (MinSize g) in
  if u32 n <=? MinSize g then Some (n, g) else
  let n := if MaxSize g <? u32 n then s32 (MaxSize g) else n in
  match gear_loop (loop_fuel n i) p FING_GEAR_08KB_64 n i 0 with
  | Some (inl r) => Some (r, g)
  | Some (inr _) => Some (n, g)
  | None => None
  end.

Definition rolling_data_2byes_64 (p : buffer) (n : Z) : M globals Z := fun g =>
  let i := s32 (MinSize_divide_by_2 g) in
  if u32 n <=? MinSize g then Some (n, g) else
  let n := if MaxSize g <? u32 n then s32 (MaxSize g) else n in
  match gear_loop2 (loop_fuel (n `quot` 2) i) (LEARv2 g) p
          FING_GEAR_08KB_ls_64 FING_GEAR_08KB_64 (n `quot` 2) i 0 with
  | Some (inl r) => Some (r, g)
  | Some (inr _) => Some (n, g)
  | None => None
  end.

Definition normalized_chunking_64 (p : buffer) (n : Z) : M globals Z := fun g =>
  let g := set_MinSize (6 * 1024) g in
  let i := s32 (MinSize g) in
  let Mid := 8 * 1024 in
  if u32 n <=? MinSize g then Some (n, g) else
  let '(n, Mid) :=
    if MaxSize g <? u32 n then (s32 (MaxSize g), Mid)
    else if n <? Mid then (n, n) else (n, Mid) in
  match gear_loop (loop_fuel Mid i) p FING_GEAR_32KB_64 Mid i 0 with
  | Some (inl r) => Some (r, g)
  | Some (inr (i, fp)) =>
    match gear_loop (loop_fuel n i) p FING_GEAR_02KB_64 n i fp with
    | Some (inl r) => Some (r, g)
    | Some (inr _) => Some (n, g)
    | None => None
    end
  | None => None
  end.

Definition normalized_chunking_2byes_64 (p : buffer) (n : Z) : M globals Z := fun g =>
  let g := set_MinSize (6 * 1024) g in
  let i := s32 (MinSize g `div` 2) in
  let Mid := 8 * 1024 in
  if u32 n <=? MinSize g then Some (n, g) else
  let '(n, Mid) :=
    if MaxSize g <? u32 n then (s32 (MaxSize g), Mid)
    else if n <? Mid then (n, n) else (n, Mid) in
  match gear_loop2 (loop_fuel (Mid `quot` 2) i) (LEARv2 g) p
          FING_GEAR_32KB_ls_64 FING_GEAR_32KB_64 (Mid `quot` 2) i 0 with
  | Some (inl r) => Some (r, g)
  | Some (inr (i, fp)) =>
    match gear_loop2 (loop_fuel (n `quot` 2) i) (LEARv2 g) p
            FING_GEAR_02KB_ls_64 FING_GEAR_02KB_64 (n `quot` 2) i fp with
    | Some (inl r) => Some (r, g)
    | Some (inr _) => Some (n, g)
    | None => None
    end
  | None => None
  end.

(** ** The wrapper class *)

Record chunker := mkChunker {
  m_min_size : Z;
  m_avg_size : Z;
  m_max_size : Z;
}.


Definition set_sizes (min max avg : Z) (g : globals) : globals :=
  mkGlobals (LEARv2 g) (g_global_matrix g) (g_global_matrix_left g) avg
    (Mask_15 g) (Mask_11 g) (Mask_11_64 g) (Mask_15_64 g) min (MinSize_divide_by_2 g) max.

(** The constructor; [s_initialized] is the static flag of the class. *)
Definition FastCDCChunker (MD5 : list Z -> list Z) (min_size avg_size max_size : Z)
    (st : globals * bool) : chunker * (globals * bool) :=
  let '(g, s_initialized) := st in
  let g := if s_initialized then g else fastCDC_init MD5 g in
  (mkChunker min_size avg_size max_size, (set_sizes min_size max_size avg_size g, true)).

(** [next_chunk]; [None] as [data] is the null pointer. *)
Definition next_chunk (c : chunker) (data : option buffer) (length : Z) : M globals Z := fun g =>
  match data with
  | None => Some (0, g)
  | Some p =>
    if length =? 0 then Some (0, g) else
    let actual_length := if m_max_size c <? length then m_max_size c else length in
    let actual_length := if INT_MAX <? actual_length then INT_MAX else actual_length in
    match normalized_chunking_64 p (s32 actual_length) g with
    | None => None
    | Some (chunk_size, g) =>
      if chunk_size <=? 0 then
        Some (if m_min_size c <? length then m_min_size c else length, g)
      else if chunk_size <? m_min_size c then
        Some (if length <? m_min_size c then length else m_min_size c, g)
      else if m_max_size c <? chunk_size then Some (m_max_size c, g)
      else Some (chunk_size, g)
    end
  end.

(** ** Reference definitions *)

(** The bytes of [p] from [i] to [j] can be read. *)
Definition readable (p : buffer) (i j : Z) : Prop :=
  forall k, i <= k < j -> exists b, p k = Some b /\ 0 <= b < 256.

Definition agree (p p' : buffer) (i j : Z) : Prop := forall k, i <= k <= j -> p k = p' k.

(** The gear fingerprint after [k] bytes. *)
Fixpoint fp_after (p : buffer) (i : Z) (k : nat) (fp : Z) : option Z :=
  match k with
  | O => Some fp
  | S k => b ← p i; g ← gear GEARv2 b; fp_after p (i + 1) k (u64 (u64 (Z.shiftl fp 1) + g))
  end.

(** The fingerprint of the bytes [start .. j] has no bit of [mask]. *)
Definition cut_at (p : buffer) (start mask j : Z) : bool :=
  match fp_after p start (Z.to_nat (j - start + 1)) 0 with
  | Some fp => Z.land fp mask =? 0
  | None => false
  end.

(** [r] is the first offset of [start .. stop - 1] at which [cut] holds, or
    [stop] when there is none. *)
Definition first_cut (cut : Z -> bool) (start stop r : Z) : Prop :=
  start <= r <= stop /\ (forall j, start <= j < r -> cut j = false) /\ (r < stop -> cut r = true).

(** Normalised chunking: the mask with more bits below 8 KB. *)
Definition normalized_cut (p : buffer) (j : Z) : bool :=
  cut_at p 6144 (if j <? 8192 then FING_GEAR_32KB_64 else FING_GEAR_02KB_64) j.

(** ** Lemmas *)

Lemma gear_total b : 0 <= b < 256 -> is_Some (gear GEARv2 b).
Proof.
  intros Hb. apply lookup_lt_is_Some_2.
  change (length GEARv2) with 256%nat. lia.
Qed.

Lemma gear_bound b g : gear GEARv2 b = Some g -> 0 <= g < 2 ^ 64.
Proof.
  intros Hg. assert (Forall (fun g => 0 <= g < 2 ^ 64) GEARv2) as HF.
  { apply Forall_forall. intros x Hx%list_elem_of_In.
    assert (forallb (fun g => (0 <=? g) && (g <? 2 ^ 64)) GEARv2 = true) as Hb by (vm_compute; done).
    rewrite forallb_forall in Hb. apply Hb in Hx. lia. }
  by eapply Forall_lookup_1 in HF.
Qed.

Lemma fp_after_S p i k fp : fp_after p i (S k) fp =
  (b ← p i; g ← gear GEARv2 b; fp_after p (i + 1) k (u64 (u64 (Z.shiftl fp 1) + g))).
Proof. done. Qed.

Lemma fp_after_app p i k1 k2 fp :
  fp_after p i (k1 + k2) fp = fp_after p i k1 fp ≫= fp_after p (i + Z.of_nat k1) k2.
Proof.
  revert i fp. induction k1 as [|k1 IH]; intros i fp; simpl.
  - by rewrite Z.add_0_r.
  - destruct (p i) as [b|]; simpl; [|done]. destruct (gear GEARv2 b); simpl; [|done].
    rewrite IH. by replace (i + 1 + Z.of_nat k1) with (i + Z.of_nat (S k1)) by lia.
Qed.

Lemma fp_after_agree p p' i k fp :
  agree p p' i (i + Z.of_nat k - 1) -> fp_after p i k fp = fp_after p' i k fp.
Proof.
  revert i fp. induction k as [|k IH]; intros i fp Ha; simpl; [done|].
  rewrite (Ha i) by lia. destruct (p' i) as [b|]; simpl; [|done].
  destruct (gear GEARv2 b); simpl; [|done]. apply IH. intros j Hj. apply Ha. lia.
Qed.

Lemma cut_at_agree p p' start mask j :
  start <= j -> agree p p' start j -> cut_at p start mask j = cut_at p' start mask j.
Proof.
  intros Hj Ha. unfold cut_at. rewrite (fp_after_agree p p'); [done|].
  intros k Hk. apply Ha. lia.
Qed.

Lemma first_cut_unique cut start stop r r' :
  first_cut cut start stop r -> first_cut cut start stop r' -> r = r'.
Proof.
  intros (Hr & Hn & Hc) (Hr' & Hn' & Hc').
  destruct (Z.lt_trichotomy r r') as [Hlt|[?|Hlt]]; [|done|].
  - specialize (Hn' r ltac:(lia)). rewrite Hc in Hn' by lia. done.
  - specialize (Hn r' ltac:(lia)). rewrite Hc' in Hn by lia. done.
Qed.

(** What a scanning loop returns: it ends, and finds the first cut. *)
Definition loop_post (p : buffer) (mask stop i fp : Z) (res : Z + Z * Z) : Prop :=
  let cut j := match fp_after p i (Z.to_nat (j - i + 1)) fp with
               | Some f => Z.land f mask =? 0 | None => false end in
  match res with
  | inl r => i <= r < stop /\ (forall j, i <= j < r -> cut j = false) /\ cut r = true
  | inr (j, f) => j = Z.max i stop /\ fp_after p i (Z.to_nat (stop - i)) fp = Some f /\
                  (forall j, i <= j < stop -> cut j = false)
  end.

Lemma gear_loop_spec fuel p mask stop i fp :
  readable p i stop -> stop - i <= Z.of_nat fuel ->
  exists res, gear_loop fuel p mask stop i fp = Some res /\ loop_post p mask stop i fp res.
Proof.
  revert i fp. induction fuel as [|fuel IH]; intros i fp Hr Hf; simpl.
  - destruct (Z.ltb_spec i stop); [lia|]. eexists; split; [done|]. simpl.
    split_and!; [lia| |intros; lia]. by rewrite Z2Nat.nonpos by lia.
  - destruct (Z.ltb_spec i stop) as [Hlt|]; cycle 1.
    { eexists; split; [done|]. simpl. split_and!; [lia| |intros; lia].
      by rewrite Z2Nat.nonpos by lia. }
    destruct (Hr i ltac:(lia)) as (b & Hb & Hbb).
    destruct (gear_total b Hbb) as [g Hg]. rewrite Hb. simpl. rewrite Hg. simpl.
    set (fp1 := u64 (u64 (Z.shiftl fp 1) + g)).
    assert (forall k, fp_after p i (S k) fp = fp_after p (i + 1) k fp1) as Hstep.
    { intros k. rewrite fp_after_S, Hb. simpl. by rewrite Hg. }
    destruct (Z.land fp1 mask =? 0) eqn:Hcut.
    { eexists; split; [done|]. simpl. split_and!; [lia..|intros; lia|].
      replace (Z.to_nat (i - i + 1)) with 1%nat by lia. by rewrite Hstep. }
    destruct (IH (i + 1) fp1) as (res & -> & Hpost); [intros k Hk; apply Hr; lia|lia|].
    exists res. split; [done|]. destruct res as [r|[j f]]; simpl in Hpost |- *.
    + destruct Hpost as (Hri & Hno & Hyes). split_and!; [lia..| |].
      * intros j Hj. destruct (decide (j = i)) as [->|].
        { replace (Z.to_nat (i - i + 1)) with 1%nat by lia. by rewrite Hstep. }
        replace (Z.to_nat (j - i + 1)) with (S (Z.to_nat (j - (i + 1) + 1))) by lia.
        rewrite Hstep. apply Hno. lia.
      * replace (Z.to_nat (r - i + 1)) with (S (Z.to_nat (r - (i + 1) + 1))) by lia.
        by rewrite Hstep.
    + destruct Hpost as (-> & Hfp & Hno). split_and!; [lia| |].
      * replace (Z.to_nat (stop - i)) with (S (Z.to_nat (stop - (i + 1)))) by lia.
        by rewrite Hstep.
      * intros j Hj. destruct (decide (j = i)) as [->|].
        { replace (Z.to_nat (i - i + 1)) with 1%nat by lia. by rewrite Hstep. }
        replace (Z.to_nat (j - i + 1)) with (S (Z.to_nat (j - (i + 1) + 1))) by lia.
        rewrite Hstep. apply Hno. lia.
Qed.

(** The two-byte loop does two steps of the one-byte loop. *)
Lemma roll2_fingerprint fp g :
  u64 (u64 (Z.shiftl fp 2) + u64 (Z.shiftl g 1)) = u64 (Z.shiftl (u64 (u64 (Z.shiftl fp 1) + g)) 1).
Proof.
  unfold u64. rewrite !Z.shiftl_mul_pow2 by lia.
  rewrite <- Zplus_mod, Zmult_mod_idemp_l.
  rewrite Z.mul_add_distr_r, (Zplus_mod (_ mod _ * _)), Zmult_mod_idemp_l, <- Zplus_mod.
  f_equal. lia.
Qed.

Lemma land_shift1_eqb f mask :
  0 <= f < 2 ^ 64 -> 0 <= mask < 2 ^ 63 ->
  (Z.land (u64 (Z.shiftl f 1)) (u64 (Z.shiftl mask 1)) =? 0) = (Z.land f mask =? 0).
Proof.
  intros Hf Hm. rewrite (u64_small (Z.shiftl mask 1)) by (rewrite Z.shiftl_mul_pow2; lia).
  replace (Z.land (u64 (Z.shiftl f 1)) (Z.shiftl mask 1)) with (Z.shiftl (Z.land f mask) 1).
  - rewrite Z.shiftl_mul_pow2 by lia.
    destruct (Z.eqb_spec (Z.land f mask) 0), (Z.eqb_spec (Z.land f mask * 2 ^ 1) 0); lia.
  - apply Z.bits_inj'. intros k Hk. unfold u64.
    rewrite Z.land_spec, <- (Z.land_ones _ 64), Z.land_spec, !Z.shiftl_spec, Z.land_spec by lia.
    destruct (decide (k < 64)).
    + rewrite Z.ones_spec_low by lia. by rewrite andb_true_r.
    + rewrite Z.ones_spec_high, andb_false_r by lia. simpl.
      rewrite (Z.bits_above_log2 mask), andb_false_r; [done|lia|].
      destruct (decide (mask = 0)) as [->|]; [change (Z.log2 0) with 0; lia|].
      apply Z.log2_lt_pow2; [lia|].
      assert (2 ^ 63 <= 2 ^ (k - 1)) by (apply Z.pow_le_mono_r; lia). lia.
Qed.

(** [fastCDC_init] fills [LEARv2] with the shifted gear table. *)
Definition lear_ok (t : list Z) : Prop := t = (fun v => u64 (Z.shiftl v 1)) <$> GEARv2.

Definition half (res : Z + Z * Z) : Z + Z * Z :=
  match res with inl r => inl r | inr (j, f) => inr (j `div` 2, f) end.

Lemma gear_loop2_eq fuel lear p mask stop i fp :
  lear_ok lear -> 0 <= mask < 2 ^ 63 -> readable p (2 * i) (2 * stop) ->
  gear_loop2 fuel lear p (u64 (Z.shiftl mask 1)) mask stop i fp
  = half <$> gear_loop (fuel + fuel) p mask (2 * stop) (2 * i) fp.
Proof.
  intros Hl Hm. revert i fp. induction fuel as [|fuel IH]; intros i fp Hr.
  - simpl. destruct (Z.ltb_spec i stop), (Z.ltb_spec (2 * i) (2 * stop)); try lia; [done|].
    simpl. by rewrite Z.mul_comm, Z.div_mul by lia.
  - rewrite Nat.add_succ_r. simpl.
    destruct (Z.ltb_spec i stop) as [Hlt|], (Z.ltb_spec (2 * i) (2 * stop)); try lia; cycle 1.
    { simpl. by rewrite Z.mul_comm, Z.div_mul by lia. }
    rewrite (Z.mul_comm i 2).
    destruct (Hr (2 * i) ltac:(lia)) as (b & Hb & Hbb).
    destruct (Hr (2 * i + 1) ltac:(lia)) as (b' & Hb' & Hbb').
    destruct (gear_total b Hbb) as [g Hg], (gear_total b' Hbb') as [g' Hg'].
    assert (gear lear b = Some (u64 (Z.shiftl g 1))) as Hlg.
    { unfold gear in *. by rewrite Hl, list_lookup_fmap, Hg. }
    rewrite Hb. simpl. rewrite Hlg, Hg. simpl.
    rewrite roll2_fingerprint, land_shift1_eqb by (done || apply u64_bound).
    destruct (Z.land _ mask =? 0); [done|].
    destruct (Z.ltb_spec (2 * i + 1) (2 * stop)); [|lia].
    rewrite Hb'. simpl. rewrite Hg'. simpl.
    destruct (Z.land _ mask =? 0); [done|].
    replace (2 * i + 1 + 1) with (2 * (i + 1)) by lia.
    rewrite IH; [done|]. intros k Hk. apply Hr. lia.
Qed.

Lemma loop_fuel_double stop i :
  loop_fuel (2 * stop) (2 * i) = (loop_fuel stop i + loop_fuel stop i)%nat.
Proof. unfold loop_fuel. lia. Qed.

Lemma loop_fuel_enough stop i : stop - i <= Z.of_nat (loop_fuel stop i).
Proof. unfold loop_fuel. lia. Qed.

Lemma readable_sub p i j i' j' : readable p i j -> i <= i' -> j' <= j -> readable p i' j'.
Proof. intros Hr ? ? k Hk. apply Hr. lia. Qed.

Create HintDb fastcdc.
#[export] Hint Resolve readable_sub loop_fuel_enough : fastcdc.

(** The one-byte loop from [i] with fingerprint 0 is the search for the first cut. *)
Lemma gear_loop_first p mask stop i :
  readable p i stop -> i <= stop ->
  exists r f, gear_loop (loop_fuel stop i) p mask stop i 0
            = Some (if r <? stop then inl r else inr (stop, f)) /\
    first_cut (cut_at p i mask) i stop r /\
    (r = stop -> fp_after p i (Z.to_nat (stop - i)) 0 = Some f).
Proof.
  intros Hr Hle.
  destruct (gear_loop_spec (loop_fuel stop i) p mask stop i 0) as ([r|[j f]] & -> & Hpost);
    [done|apply loop_fuel_enough| |]; simpl in Hpost.
  - exists r, 0. destruct Hpost as (? & Hno & Hyes).
    destruct (Z.ltb_spec r stop); [|lia]. split_and!; [done| |lia].
    split_and!; [lia..| |done]. intros j Hj. by apply Hno.
  - destruct Hpost as (-> & Hf & Hno). exists stop, f.
    rewrite Z.ltb_irrefl, Z.max_r by lia. split_and!; [done| |done].
    split_and!; [lia..| |lia]. intros j Hj. by apply Hno.
Qed.

(** The two loops of normalised chunking: [Some r] is a [return] inside one of
    them, [None] the end of both. *)
Definition scan1 (p : buffer) (Mid n : Z) : option (option Z) :=
  match gear_loop (loop_fuel Mid 6144) p FING_GEAR_32KB_64 Mid 6144 0 with
  | Some (inl r) => Some (Some r)
  | Some (inr (i, fp)) =>
    match gear_loop (loop_fuel n i) p FING_GEAR_02KB_64 n i fp with
    | Some (inl r) => Some (Some r)
    | Some (inr _) => Some None
    | None => None
    end
  | None => None
  end.

Definition scan2 (lear : list Z) (p : buffer) (Mid n : Z) : option (option Z) :=
  match gear_loop2 (loop_fuel Mid 3072) lear p FING_GEAR_32KB_ls_64 FING_GEAR_32KB_64 Mid 3072 0 with
  | Some (inl r) => Some (Some r)
  | Some (inr (i, fp)) =>
    match gear_loop2 (loop_fuel n i) lear p FING_GEAR_02KB_ls_64 FING_GEAR_02KB_64 n i fp with
    | Some (inl r) => Some (Some r)
    | Some (inr _) => Some None
    | None => None
    end
  | None => None
  end.

Lemma normalized_cut_low p j :
  j < 8192 -> normalized_cut p j = cut_at p 6144 FING_GEAR_32KB_64 j.
Proof. intros Hj. unfold normalized_cut. by destruct (Z.ltb_spec j 8192); [|lia]. Qed.

Lemma normalized_cut_high p Mid j f :
  6144 <= Mid <= j -> 8192 <= j -> fp_after p 6144 (Z.to_nat (Mid - 6144)) 0 = Some f ->
  normalized_cut p j = match fp_after p Mid (Z.to_nat (j - Mid + 1)) f with
                       | Some f' => Z.land f' FING_GEAR_02KB_64 =? 0 | None => false end.
Proof.
  intros Hj H8 Hf. unfold normalized_cut, cut_at. destruct (Z.ltb_spec j 8192); [lia|].
  replace (Z.to_nat (j - 6144 + 1)) with (Z.to_nat (Mid - 6144) + Z.to_nat (j - Mid + 1))%nat by lia.
  rewrite fp_after_app, Hf. simpl.
  by replace (6144 + Z.of_nat (Z.to_nat (Mid - 6144))) with Mid by lia.
Qed.

(** The two loops find the first normalised cut. *)
Lemma scan1_first p Mid n :
  readable p 6144 n -> 6144 <= n -> Mid = Z.min 8192 n ->
  exists r, first_cut (normalized_cut p) 6144 n r /\
            scan1 p Mid n = Some (if r <? n then Some r else None).
Proof.
  intros Hr Hn HMid. unfold scan1.
  destruct (gear_loop_first p FING_GEAR_32KB_64 Mid 6144) as (r & f & -> & (Hb & Hno & Hyes) & Hf);
    [eapply readable_sub; eauto; lia|lia|].
  destruct (Z.ltb_spec r Mid) as [Hlt|].
  { exists r. destruct (Z.ltb_spec r n); [|lia]. split_and!; [|done].
    split_and!; [lia..| |]; intros; rewrite normalized_cut_low by lia; auto with lia. }
  assert (r = Mid) as -> by lia. specialize (Hf eq_refl).
  destruct (gear_loop_spec (loop_fuel n Mid) p FING_GEAR_02KB_64 n Mid f)
    as (res & -> & Hpost); [eapply readable_sub; eauto; lia|apply loop_fuel_enough|].
  assert (forall j, Mid <= j < n -> normalized_cut p j =
    match fp_after p Mid (Z.to_nat (j - Mid + 1)) f with
    | Some f' => Z.land f' FING_GEAR_02KB_64 =? 0 | None => false end) as Hhigh.
  { intros j Hj. apply normalized_cut_high; [lia..|done]. }
  assert (forall j, 6144 <= j < Mid -> normalized_cut p j = false) as Hlow.
  { intros j Hj. rewrite normalized_cut_low by lia. apply Hno. lia. }
  destruct res as [r|[j f']]; simpl in Hpost.
  - destruct Hpost as (Hrb & Hno2 & Hyes2). exists r.
    destruct (Z.ltb_spec r n); [|lia]. split; [|done]. split_and!; [lia..| |].
    + intros j Hj. destruct (decide (j < Mid)); [apply Hlow; lia|].
      rewrite Hhigh by lia. apply Hno2. lia.
    + intros _. by rewrite Hhigh by lia.
  - destruct Hpost as (-> & _ & Hno2). exists n. rewrite Z.ltb_irrefl.
    split; [|done]. split_and!; [lia..| |lia].
    intros j Hj. destruct (decide (j < Mid)); [apply Hlow; lia|].
    rewrite Hhigh by lia. apply Hno2. lia.
Qed.

Lemma gear_loop_inr fuel p mask stop i fp j f :
  gear_loop fuel p mask stop i fp = Some (inr (j, f)) -> j = Z.max i stop.
Proof.
  revert i fp. induction fuel as [|fuel IH]; intros i fp; simpl;
    destruct (Z.ltb_spec i stop); try done; [intros; simplify_eq; lia| |intros; simplify_eq; lia].
  destruct (p i); simpl; [|done]. destruct (gear GEARv2 _); simpl; [|done].
  destruct (Z.land _ _ =? 0); [done|]. intros ->%IH. lia.
Qed.

(** Results of [gear_loop] carried over to the two-byte loop. *)
Lemma gear_loop2_run lear p mask stop i fp :
  lear_ok lear -> 0 <= mask < 2 ^ 63 -> readable p (2 * i) (2 * stop) ->
  gear_loop2 (loop_fuel stop i) lear p (u64 (Z.shiftl mask 1)) mask stop i fp
  = half <$> gear_loop (loop_fuel (2 * stop) (2 * i)) p mask (2 * stop) (2 * i) fp.
Proof. intros. rewrite loop_fuel_double. by apply gear_loop2_eq. Qed.


(** Rolling two bytes at once is the one-byte scan of the even part. *)
Lemma scan2_eq lear p Mid n :
  lear_ok lear -> 3072 <= Mid <= n -> readable p 6144 (2 * n) ->
  scan2 lear p Mid n = scan1 p (2 * Mid) (2 * n).
Proof.
  intros Hl HM Hr. unfold scan2, scan1.
  change FING_GEAR_32KB_ls_64 with (u64 (Z.shiftl FING_GEAR_32KB_64 1)).
  change FING_GEAR_02KB_ls_64 with (u64 (Z.shiftl FING_GEAR_02KB_64 1)).
  rewrite gear_loop2_run; [|done|vm_compute; by split|eapply readable_sub; eauto; lia].
  change (2 * 3072) with 6144.
  destruct (gear_loop _ _ _ _ 6144 0) as [[r|[i fp]]|] eqn:H1; simpl; [done| |done].
  apply gear_loop_inr in H1 as ->. rewrite Z.max_r, (Z.mul_comm 2 Mid), Z.div_mul by lia.
  rewrite gear_loop2_run; [|done|vm_compute; by split|eapply readable_sub; eauto; lia].
  rewrite (Z.mul_comm Mid 2).
  by destruct (gear_loop _ _ _ _ (2 * Mid) fp) as [[r|[i fp']]|].
Qed.

Lemma first_cut_shrink cut start stop stop' r :
  first_cut cut start stop r -> start <= stop' <= stop ->
  first_cut cut start stop' (Z.min r stop').
Proof.
  intros (Hr & Hno & Hyes) Hs. split_and!; [lia..| |].
  - intros j Hj. apply Hno. lia.
  - intros Hlt. rewrite Z.min_l by lia. apply Hyes. lia.
Qed.

(** The length the scanners work on. *)
Definition eff_len (n : Z) (g : globals) : Z := Z.min n (MaxSize g).
Definition even_part (n : Z) : Z := 2 * (n `div` 2).

Lemma normalized_chunking_scan1 p n g :
  6144 < n < 2 ^ 31 -> 8192 <= MaxSize g < 2 ^ 31 ->
  normalized_chunking_64 p n g =
    (fun o => (default (eff_len n g) o, set_MinSize 6144 g))
      <$> scan1 p (Z.min 8192 (eff_len n g)) (eff_len n g).
Proof.
  intros Hn HM. unfold normalized_chunking_64, scan1, eff_len. simpl.
  change (8 * 1024) with 8192. change (6 * 1024) with 6144.
  rewrite (u32_small n), (s32_small 6144), (s32_small (MaxSize g)) by lia.
  destruct (Z.leb_spec n 6144); [lia|].
  destruct (Z.ltb_spec (MaxSize g) n) as [|]; [|destruct (Z.ltb_spec n 8192)];
    [rewrite (Z.min_r n), (Z.min_l 8192) by lia
    |rewrite (Z.min_l n), (Z.min_r 8192) by lia
    |rewrite (Z.min_l n), (Z.min_l 8192) by lia];
    (destruct (gear_loop _ _ _ _ 6144 0) as [[r|[i fp]]|]; [done| |done];
     by destruct (gear_loop _ _ _ _ _ fp) as [[r|[? ?]]|]).
Qed.

Lemma normalized_chunking_scan2 p n g :
  6144 < n < 2 ^ 31 -> 8192 <= MaxSize g < 2 ^ 31 ->
  normalized_chunking_2byes_64 p n g =
    (fun o => (default (eff_len n g) o, set_MinSize 6144 g))
      <$> scan2 (LEARv2 g) p (Z.min 8192 (eff_len n g) `div` 2) (eff_len n g `div` 2).
Proof.
  intros Hn HM. unfold normalized_chunking_2byes_64, scan2, eff_len. simpl.
  change (8 * 1024) with 8192. change (6 * 1024) with 6144. change (6144 `div` 2) with 3072.
  rewrite (u32_small n), (s32_small 3072), (s32_small (MaxSize g)) by lia.
  destruct (Z.leb_spec n 6144); [lia|].
  destruct (Z.ltb_spec (MaxSize g) n) as [|]; [|destruct (Z.ltb_spec n 8192)];
    [rewrite (Z.min_r n), (Z.min_l 8192) by lia
    |rewrite (Z.min_l n), (Z.min_r 8192) by lia
    |rewrite (Z.min_l n), (Z.min_l 8192) by lia];
    rewrite !Z.quot_div_nonneg by lia;
    (destruct (gear_loop2 _ _ _ _ _ _ 3072 0) as [[r|[i fp]]|]; [done| |done];
     by destruct (gear_loop2 _ _ _ _ _ _ _ fp) as [[r|[? ?]]|]).
Qed.

(** The one-byte scanner over the even part, restricted from a longer scan. *)
Lemma first_cut_even cut start n r r' :
  first_cut cut start n r -> first_cut cut start (even_part n) r' -> start <= even_part n ->
  (if r' <? even_part n then r' else n) = (if r <? even_part n then r else n).
Proof.
  intros Hr Hr' Hs. unfold even_part in *.
  assert (r' = Z.min r (2 * (n `div` 2))) as ->.
  { eapply first_cut_unique; [done|]. eapply first_cut_shrink; [done|]. dlia. }
  destruct (Z.ltb_spec r (2 * (n `div` 2))), (Z.ltb_spec (Z.min r (2 * (n `div` 2))) (2 * (n `div` 2))); dlia.
Qed.

Lemma cdc_origin_run p n g :
  0 <= MinSize g -> MinSize g < n < 2 ^ 31 -> MinSize g <= MaxSize g < 2 ^ 31 -> readable p 0 n ->
  exists r, cdc_origin_64 p n g = Some (r, g) /\
            first_cut (cut_at p (MinSize g) FING_GEAR_08KB_64) (MinSize g) (eff_len n g) r.
Proof.
  intros Hmin Hn HM Hp. unfold cdc_origin_64, eff_len.
  rewrite (u32_small n), !s32_small by lia.
  destruct (Z.leb_spec n (MinSize g)); [lia|].
  replace (if MaxSize g <? n then MaxSize g else n) with (Z.min n (MaxSize g))
    by (destruct (Z.ltb_spec (MaxSize g) n); lia).
  destruct (gear_loop_first p FING_GEAR_08KB_64 (Z.min n (MaxSize g)) (MinSize g))
    as (r & f & -> & Hr & _); [eapply readable_sub; eauto; lia|lia|].
  exists r. destruct (Z.ltb_spec r (Z.min n (MaxSize g))); [done|].
  destruct Hr as (Hrb & Hno & Hyes). assert (r = Z.min n (MaxSize g)) as -> by lia. done.
Qed.

Lemma rolling_run p n g :
  0 <= MinSize g -> MinSize g < n < 2 ^ 31 -> MinSize g <= MaxSize g < 2 ^ 31 -> readable p 0 n ->
  MinSize g = 2 * MinSize_divide_by_2 g -> lear_ok (LEARv2 g) ->
  exists r, rolling_data_2byes_64 p n g
              = Some (if r <? even_part (eff_len n g) then r else eff_len n g, g) /\
            first_cut (cut_at p (MinSize g) FING_GEAR_08KB_64) (MinSize g) (even_part (eff_len n g)) r.
Proof.
  intros Hmin Hn HM Hp Hdiv Hl. unfold rolling_data_2byes_64, eff_len.
  rewrite (u32_small n), !s32_small by lia.
  destruct (Z.leb_spec n (MinSize g)); [lia|].
  replace (if MaxSize g <? n then MaxSize g else n) with (Z.min n (MaxSize g))
    by (destruct (Z.ltb_spec (MaxSize g) n); lia).
  set (m := Z.min n (MaxSize g)). rewrite Z.quot_div_nonneg by lia.
  change FING_GEAR_08KB_ls_64 with (u64 (Z.shiftl FING_GEAR_08KB_64 1)). unfold even_part.
  rewrite gear_loop2_run; [|done|vm_compute; by split|eapply readable_sub; eauto; dlia].
  rewrite <- Hdiv.
  destruct (gear_loop_first p FING_GEAR_08KB_64 (2 * (m `div` 2)) (MinSize g))
    as (r & f & Hrun & Hr & _); [eapply readable_sub; eauto; dlia|dlia|].
  rewrite Hrun. exists r.
  by destruct (Z.ltb_spec r (2 * (m `div` 2))).
Qed.

Lemma chunking_run p n g :
  0 <= n < 2 ^ 31 -> 8192 <= MaxSize g < 2 ^ 31 -> readable p 0 n ->
  exists r, normalized_chunking_64 p n g = Some (r, set_MinSize 6144 g) /\
    (n <= 6144 -> r = n) /\
    (6144 < n -> first_cut (normalized_cut p) 6144 (Z.min n (MaxSize g)) r).
Proof.
  intros Hn HM Hp. destruct (decide (6144 < n)) as [Hlt|].
  - rewrite normalized_chunking_scan1 by lia.
    destruct (scan1_first p (Z.min 8192 (eff_len n g)) (eff_len n g)) as (r & Hr & ->);
      [unfold eff_len; eapply readable_sub; eauto; lia|unfold eff_len; lia|done|].
    exists r. split_and!; [|lia|done].
    destruct Hr as (? & _). simpl. destruct (Z.ltb_spec r (eff_len n g)); simpl; [done|].
    by replace r with (eff_len n g) by lia.
  - exists n. split_and!; [|done|lia]. unfold normalized_chunking_64. simpl.
    rewrite u32_small by lia. change (6 * 1024) with 6144.
    by destruct (Z.leb_spec n 6144); [|lia].
Qed.

Lemma next_chunk_run c p length g :
  0 < length -> readable p 0 length -> 0 < m_min_size c <= m_max_size c ->
  8192 <= m_max_size c < 2 ^ 31 -> MaxSize g = m_max_size c ->
  exists r, next_chunk c (Some p) length g = Some (r, set_MinSize 6144 g) /\
    1 <= r <= length /\ r <= m_max_size c /\ (m_min_size c <= r \/ r = length).
Proof.
  intros Hlen Hp Hmin Hmax HM. unfold next_chunk, INT_MAX.
  destruct (Z.eqb_spec length 0); [lia|].
  set (l := if m_max_size c <? length then m_max_size c else length).
  assert (l = Z.min length (m_max_size c)) as Hl
    by (unfold l; destruct (Z.ltb_spec (m_max_size c) length); lia).
  destruct (Z.ltb_spec (2 ^ 31 - 1) l); [lia|]. rewrite s32_small by lia.
  destruct (chunking_run p l g) as (r & -> & Hle & Hgt);
    [lia|lia|eapply readable_sub; eauto; lia|].
  assert (r = l \/ 6144 <= r <= l) as Hr.
  { destruct (decide (6144 < l)) as [Hlt|]; [|left; apply Hle; lia].
    destruct (Hgt Hlt) as (? & _). lia. }
  destruct (Z.leb_spec r 0); [lia|].
  destruct (Z.ltb_spec r (m_min_size c)).
  { eexists; split; [done|]. destruct (Z.ltb_spec length (m_min_size c)); lia. }
  destruct (Z.ltb_spec (m_max_size c) r); [lia|].
  eexists; split; [done|]. lia.
Qed.

(** ** Properties *)

(** C14: Normalised chunking is safe and finds the content-defined boundary.
    With a maximal size of at least 8 KB, the call reads no byte outside the
    [n] bytes it is given, ends, and sets the global minimal size to 6 KB.  A
    buffer of at most 6 KB is one chunk.  Otherwise the chunk ends at the first
    offset from 6 KB on where the gear fingerprint of the bytes since 6 KB has
    no bit of the mask in force at this offset, and at the smaller of [n] and
    the maximal size when there is no such offset. *)
Theorem normalized_chunking_first_cut p n g :
  0 <= n < 2 ^ 31 -> 8192 <= MaxSize g < 2 ^ 31 -> readable p 0 n ->
  exists r, normalized_chunking_64 p n g = Some (r, set_MinSize 6144 g) /\
    (n <= 6144 -> r = n) /\
    (6144 < n -> first_cut (normalized_cut p) 6144 (Z.min n (MaxSize g)) r).
Proof. apply chunking_run. Qed.

(** Chunk boundaries are content-defined.  If a scan of [n] bytes ends at a
    boundary before the size limit, then any other buffer that holds the same
    bytes from 6 KB up to this boundary, whatever follows, is cut at the same
    place: this is what makes equal content in two images deduplicate. *)
Theorem normalized_chunking_content_defined p p' n n' g g' r s :
  0 <= n < 2 ^ 31 -> 0 <= n' < 2 ^ 31 -> readable p 0 n -> readable p' 0 n' ->
  8192 <= MaxSize g < 2 ^ 31 -> 8192 <= MaxSize g' < 2 ^ 31 ->
  normalized_chunking_64 p n g = Some (r, s) ->
  6144 < n -> r < Z.min n (MaxSize g) -> r < Z.min n' (MaxSize g') -> agree p p' 6144 r ->
  normalized_chunking_64 p' n' g' = Some (r, set_MinSize 6144 g').
Proof.
  intros Hn Hn' Hp Hp' HM HM' Hrun Hlt Hr Hr' Ha.
  destruct (chunking_run p n g) as (r1 & Hrun1 & _ & Hcut); [done..|].
  rewrite Hrun in Hrun1. simplify_eq. destruct (Hcut Hlt) as (Hb & Hno & Hyes).
  destruct (chunking_run p' n' g') as (r2 & -> & _ & Hcut'); [done..|].
  do 2 f_equal. eapply first_cut_unique; [apply Hcut'; lia|].
  assert (forall j, 6144 <= j <= r1 -> normalized_cut p' j = normalized_cut p j) as Heq.
  { intros j Hj. unfold normalized_cut. symmetry. apply cut_at_agree; [lia|].
    intros k Hk. apply Ha. lia. }
  split_and!; [lia..| |].
  - intros j Hj. rewrite Heq by lia. by apply Hno.
  - intros _. rewrite Heq by lia. by apply Hyes.
Qed.

(** The scanner that rolls two bytes per iteration is equivalent to the
    one-byte scanner on an even number of bytes; on an odd number it only
    differs by not testing the last byte.  The shifted table [LEARv2] must be
    the one [fastCDC_init] builds. *)
Theorem normalized_2byes_equiv p n g :
  6144 < n < 2 ^ 31 -> 8192 <= MaxSize g < 2 ^ 31 -> readable p 0 n -> lear_ok (LEARv2 g) ->
  exists r, normalized_chunking_64 p n g = Some (r, set_MinSize 6144 g) /\
    normalized_chunking_2byes_64 p n g =
      Some (if r <? even_part (eff_len n g) then r else eff_len n g, set_MinSize 6144 g).
Proof.
  intros Hn HM Hp Hl.
  destruct (chunking_run p n g) as (r & Hrun & _ & Hcut); [lia|done..|].
  exists r. split; [done|]. specialize (Hcut ltac:(lia)).
  rewrite normalized_chunking_scan2 by lia.
  assert (6144 < eff_len n g <= n) as He by (unfold eff_len; lia).
  rewrite scan2_eq; [|done|dlia|eapply readable_sub; eauto; dlia].
  destruct (scan1_first p (2 * (Z.min 8192 (eff_len n g) `div` 2)) (2 * (eff_len n g `div` 2)))
    as (r' & Hr' & ->); [eapply readable_sub; eauto; dlia|dlia..|].
  assert (6144 <= even_part (Z.min n (MaxSize g))) as Hep
    by (unfold even_part, eff_len in *; dlia).
  pose proof (first_cut_even _ _ _ _ _ Hcut Hr' Hep) as Heq.
  fold (eff_len n g) in *. unfold even_part in *. simpl.
  rewrite <- Heq. by destruct (Z.ltb_spec r' (2 * (eff_len n g `div` 2))).
Qed.

(** After [fastCDC_init] the two-byte rolling scanner and the original
    FastCDC scanner cut at the same place, the first offset from the minimal
    size on where the fingerprint has no bit of the 8 KB mask, up to the last
    byte of an odd length, and neither of them leaves the buffer. *)
Theorem rolling_equiv_origin MD5 g0 p n :
  let g := fastCDC_init MD5 g0 in
  2048 < n < 2 ^ 31 -> readable p 0 n ->
  exists r, cdc_origin_64 p n g = Some (r, g) /\
    first_cut (cut_at p 2048 FING_GEAR_08KB_64) 2048 (Z.min n 32768) r /\
    rolling_data_2byes_64 p n g =
      Some (if r <? even_part (Z.min n 32768) then r else Z.min n 32768, g).
Proof.
  intros g Hn Hp.
  assert (MinSize g = 2048) as Hmin by done. assert (MaxSize g = 32768) as Hmax by done.
  destruct (cdc_origin_run p n g) as (r & Hrun & Hcut); [rewrite ?Hmin, ?Hmax; lia..|done|].
  destruct (rolling_run p n g) as (r' & Hrun' & Hcut'); [rewrite ?Hmin, ?Hmax; lia..|done|done|done|].
  exists r. unfold eff_len in *. rewrite Hmin, Hmax in *.
  split_and!; [done|done|]. rewrite Hrun'. do 2 f_equal.
  eapply first_cut_even; [done..|]. unfold even_part. dlia.
Qed.

(** The wrapper always makes progress within its limits.  On a non-empty
    buffer of [length] bytes [next_chunk] reads inside the buffer and returns a
    size between 1 and [length], at most the configured maximum, and at least
    the configured minimum or the whole rest; so a caller that advances by the
    returned size cuts its buffer into chunks whose sizes add up to its length. *)
Theorem next_chunk_bounds c p length g :
  0 < length -> readable p 0 length -> 0 < m_min_size c <= m_max_size c ->
  8192 <= m_max_size c < 2 ^ 31 -> MaxSize g = m_max_size c ->
  exists r, next_chunk c (Some p) length g = Some (r, set_MinSize 6144 g) /\
    1 <= r <= length /\ r <= m_max_size c /\ (m_min_size c <= r \/ r = length).
Proof. apply next_chunk_run. Qed.

(** With a maximal size below 8 KB the scanner leaves its buffer.  [Mid]
    stays at 8 KB when the length is cut down to the maximal size, so the first
    loop reads on to 8 KB: a call with 7100 readable bytes and a maximal size of
    7000 reads the byte after them. *)
Theorem normalized_chunking_overread :
  exists p n g, 6144 < MaxSize g < n /\ readable p 0 n /\ p n = None /\
    normalized_chunking_64 p n g = None.
Proof.
  exists (fun i => if (0 <=? i) && (i <? 7100) then Some 0 else None), 7100,
    (set_sizes 2048 7000 8192 globals0).
  split_and!; [simpl; lia..| |done|by vm_compute].
  intros k Hk. exists 0. destruct (Z.leb_spec 0 k), (Z.ltb_spec k 7100); simpl; done || lia.
Qed.

(** ** Witnesses *)

(** A buffer of [n] bytes that run through a linear sequence. *)
Definition ramp (n : Z) : buffer := fun i =>
  if (0 <=? i) && (i <? n) then Some ((56 * i + 35) `mod` 256) else None.
(** The same bytes up to 6145, other bytes behind. *)
Definition ramp' (n : Z) : buffer := fun i =>
  if (0 <=? i) && (i <? n) then Some (if i <=? 6145 then (56 * i + 35) `mod` 256 else 7) else None.

Definition example_globals : globals :=
  set_sizes 2048 65536 8192 (fastCDC_init (fun _ => []) globals0).

Lemma ramp_readable n : readable (ramp n) 0 n.
Proof.
  intros k Hk. unfold ramp. destruct (Z.leb_spec 0 k), (Z.ltb_spec k n); try lia. simpl.
  eexists. split; [done|]. apply Z.mod_pos_bound. lia.
Qed.

Lemma ramp'_readable n : readable (ramp' n) 0 n.
Proof.
  intros k Hk. unfold ramp'. destruct (Z.leb_spec 0 k), (Z.ltb_spec k n); try lia. simpl.
  eexists. split; [done|]. destruct (k <=? 6145); [apply Z.mod_pos_bound; lia|lia].
Qed.

Lemma ramp_agree n n' : 6145 < n -> 6145 < n' -> agree (ramp n) (ramp' n') 6144 6145.
Proof.
  intros Hn Hn' k Hk. unfold ramp, ramp'.
  destruct (Z.leb_spec 0 k), (Z.ltb_spec k n), (Z.ltb_spec k n'), (Z.leb_spec k 6145); done || lia.
Qed.

Lemma normalized_chunking_first_cut_witness :
  exists r, normalized_chunking_64 (ramp 6200) 6200 example_globals
              = Some (r, set_MinSize 6144 example_globals) /\
    (6200 <= 6144 -> r = 6200) /\
    (6144 < 6200 -> first_cut (normalized_cut (ramp 6200)) 6144 (Z.min 6200 65536) r).
Proof.
  apply (normalized_chunking_first_cut (ramp 6200) 6200 example_globals);
    [lia|simpl; lia|apply ramp_readable].
Defined.

Lemma normalized_chunking_content_defined_witness :
  normalized_chunking_64 (ramp' 9000) 9000 example_globals
    = Some (6145, set_MinSize 6144 example_globals).
Proof.
  apply (normalized_chunking_content_defined (ramp 6200) (ramp' 9000) 6200 9000
           example_globals example_globals 6145 (set_MinSize 6144 example_globals));
    [lia|lia|apply ramp_readable|apply ramp'_readable|simpl; lia|simpl; lia
    |vm_compute; reflexivity|lia|simpl; lia|simpl; lia|apply ramp_agree; lia].
Defined.

Lemma normalized_2byes_equiv_witness :
  exists r, normalized_chunking_64 (ramp 6201) 6201 example_globals
              = Some (r, set_MinSize 6144 example_globals) /\
    normalized_chunking_2byes_64 (ramp 6201) 6201 example_globals =
      Some (if r <? even_part (eff_len 6201 example_globals) then r
            else eff_len 6201 example_globals, set_MinSize 6144 example_globals).
Proof.
  apply (normalized_2byes_equiv (ramp 6201) 6201 example_globals);
    [lia|simpl; lia|apply ramp_readable|reflexivity].
Defined.

Lemma rolling_equiv_origin_witness :
  exists r, cdc_origin_64 (ramp 2101) 2101 (fastCDC_init (fun _ => []) globals0)
              = Some (r, fastCDC_init (fun _ => []) globals0) /\
    first_cut (cut_at (ramp 2101) 2048 FING_GEAR_08KB_64) 2048 (Z.min 2101 32768) r /\
    rolling_data_2byes_64 (ramp 2101) 2101 (fastCDC_init (fun _ => []) globals0) =
      Some (if r <? even_part (Z.min 2101 32768) then r else Z.min 2101 32768,
            fastCDC_init (fun _ => []) globals0).
Proof.
  apply (rolling_equiv_origin (fun _ => []) globals0 (ramp 2101) 2101);
    [lia|apply ramp_readable].
Defined.

Lemma next_chunk_bounds_witness :
  exists r, next_chunk (mkChunker 2048 8192 65536) (Some (ramp 6200)) 6200 example_globals
              = Some (r, set_MinSize 6144 example_globals) /\
    1 <= r <= 6200 /\ r <= 65536 /\ (2048 <= r \/ r = 6200).
Proof.
  apply (next_chunk_bounds (mkChunker 2048 8192 65536) (ramp 6200) 6200 example_globals);
    [lia|apply ramp_readable|simpl; lia|simpl; lia|reflexivity].
Defined.
