(* ===== verification/Lru.v ===== *)
(** The LRU lists of the cache: the list operations of ocf/src/ocf_lru.c
    (lines 19 to 239) over the records of ocf/src/ocf_lru_structs.h.

    Every cache line has one [lru_meta], and a list is reached through a
    reference, since two names for the same list must mean the same list.  A
    list keeps its most recently used half "hot": the number of hot elements and
    the last of them are stored in the list, the hot bit in the element. *)

From S2P Require Import Prelude Dll.

Definition end_marker : Z := 2 ^ 32 - 1.
Definition OCF_LRU_HOT_RATIO : Z := 2.

(** [struct ocf_lru_meta] *)
Record ocf_lru_meta := mkLruMeta { prev : Z; next : Z; hot : bool }.

(** [struct ocf_lru_list] *)
Record ocf_lru_list := mkLruList {
  num_nodes : Z;
  l_head : Z;
  l_tail : Z;
  num_hot : Z;
  last_hot : Z;
  track_hot : bool;
}.

(** [&part->runtime->lru[lru_idx].clean] or [.dirty], by partition id. *)
Definition list_ref : Type := Z * Z * bool.

Record lru_state := mkLru {
  metas : gmap Z ocf_lru_meta;
  lists : gmap list_ref ocf_lru_list;
}.

Definition set_metas f (s : lru_state) : lru_state := mkLru (f (metas s)) (lists s).
Definition set_lists f (s : lru_state) : lru_state := mkLru (metas s) (f (lists s)).

Definition with_prev v (n : ocf_lru_meta) := mkLruMeta v (next n) (hot n).
Definition with_next v (n : ocf_lru_meta) := mkLruMeta (prev n) v (hot n).
Definition with_hot v (n : ocf_lru_meta) := mkLruMeta (prev n) (next n) v.

Definition with_num_nodes v (l : ocf_lru_list) :=
  mkLruList v (l_head l) (l_tail l) (num_hot l) (last_hot l) (track_hot l).
Definition with_head v (l : ocf_lru_list) :=
  mkLruList (num_nodes l) v (l_tail l) (num_hot l) (last_hot l) (track_hot l).
Definition with_tail v (l : ocf_lru_list) :=
  mkLruList (num_nodes l) (l_head l) v (num_hot l) (last_hot l) (track_hot l).
Definition with_num_hot v (l : ocf_lru_list) :=
  mkLruList (num_nodes l) (l_head l) (l_tail l) v (last_hot l) (track_hot l).
Definition with_last_hot v (l : ocf_lru_list) :=
  mkLruList (num_nodes l) (l_head l) (l_tail l) (num_hot l) v (track_hot l).

#[export] Program Instance lru_meta_node : DllNode ocf_lru_meta :=
  {| n_prev := prev; n_next := next; set_prev := with_prev; set_next := with_next |}.
Solve All Obligations with done.

(** ** Access *)

(** [ocf_metadata_get_lru]: the access stops outside the table. *)
Definition ocf_metadata_get_lru (line : Z) : M lru_state ocf_lru_meta := fun s =>
  (fun m => (m, s)) <$> metas s !! line.

(** A write through the pointer that [ocf_metadata_get_lru] returns. *)
Definition upd_lru (line : Z) (f : ocf_lru_meta -> ocf_lru_meta) : M lru_state unit := fun s =>
  match metas s !! line with
  | Some _ => Some (tt, set_metas (alter f line) s)
  | None => None
  end.

Definition get_list (r : list_ref) : M lru_state ocf_lru_list := fun s =>
  (fun l => (l, s)) <$> lists s !! r.

Definition upd_list (r : list_ref) (f : ocf_lru_list -> ocf_lru_list) : M lru_state unit := fun s =>
  match lists s !! r with
  | Some _ => Some (tt, set_lists (alter f r) s)
  | None => None
  end.

(** ** Operations *)

Definition balance_update_last_hot (r : list_ref) (change : Z) : M lru_state Z :=
  list ← get_list r;
  let last_hot_old := last_hot list in
  last_hot_new ←
    (if 0 <? change then
       BUG_ON (negb (change =? 1));;
       if last_hot list =? end_marker then mret (l_head list)
       else
         node ← ocf_metadata_get_lru (last_hot list);
         BUG_ON (next node =? end_marker);;
         mret (next node)
     else if change <? 0 then
       BUG_ON (negb (change =? -1));;
       BUG_ON (last_hot list =? end_marker);;
       node ← ocf_metadata_get_lru (last_hot list);
       mret (prev node)
     else mret (last_hot list));
  upd_list r (with_last_hot last_hot_new);;
  if change =? 0 then mret end_marker
  else mret (if 0 <? change then last_hot_new else last_hot_old).

Definition balance_lru_list (r : list_ref) : M lru_state unit :=
  list ← get_list r;
  let target_hot_count := num_nodes list `div` OCF_LRU_HOT_RATIO in
  let change := s32 (target_hot_count - num_hot list) in
  if negb (track_hot list) then mret tt
  else
    upd_list r (with_num_hot target_hot_count);;
    pivot ← balance_update_last_hot r change;
    if negb (pivot =? end_marker) then upd_lru pivot (with_hot (0 <=? change))
    else mret tt.

Definition add_lru_head_nobalance (r : list_ref) (collision_index : Z) : M lru_state unit :=
  BUG_ON (collision_index =? end_marker);;
  upd_lru collision_index (with_hot false);;
  list ← get_list r;
  if num_nodes list =? 0 then
    upd_list r (with_head collision_index);;
    upd_list r (with_tail collision_index);;
    upd_lru collision_index (with_next end_marker);;
    upd_lru collision_index (with_prev end_marker);;
    upd_list r (with_num_nodes 1)
  else
    let curr_head_index := l_head list in
    BUG_ON (curr_head_index =? end_marker);;
    upd_lru collision_index (with_next curr_head_index);;
    upd_lru collision_index (with_prev end_marker);;
    upd_lru curr_head_index (with_prev collision_index);;
    (if track_hot list then
       upd_lru collision_index (with_hot true);;
       curr_head ← ocf_metadata_get_lru curr_head_index;
       (if negb (hot curr_head) then upd_list r (with_last_hot collision_index) else mret tt);;
       upd_list r (fun l => with_num_hot (u32 (num_hot l + 1)) l)
     else mret tt);;
    upd_list r (with_head collision_index);;
    upd_list r (fun l => with_num_nodes (u32 (num_nodes l + 1)) l).

Definition add_lru_head (r : list_ref) (collision_index : Z) : M lru_state unit :=
  add_lru_head_nobalance r collision_index;;
  balance_lru_list r.

Definition remove_update_ptrs (r : list_ref) (collision_index : Z) : M lru_state unit :=
  node ← ocf_metadata_get_lru collision_index;
  let next_lru_node := next node in
  let prev_lru_node := prev node in
  let is_head := prev node =? end_marker in
  let is_tail := next node =? end_marker in
  (if is_head && is_tail then
     upd_list r (with_head end_marker);;
     upd_list r (with_tail end_marker)
   else if is_head then
     upd_list r (with_head next_lru_node);;
     upd_lru next_lru_node (with_prev end_marker)
   else if is_tail then
     upd_list r (with_tail prev_lru_node);;
     upd_lru prev_lru_node (with_next end_marker)
   else
     upd_lru prev_lru_node (with_next next_lru_node);;
     upd_lru next_lru_node (with_prev prev_lru_node));;
  list ← get_list r;
  if last_hot list =? collision_index then upd_list r (with_last_hot prev_lru_node)
  else mret tt.

Definition remove_lru_list_nobalance (r : list_ref) (collision_index : Z) : M lru_state unit :=
  BUG_ON (collision_index =? end_marker);;
  node ← ocf_metadata_get_lru collision_index;
  list ← get_list r;
  let is_head := l_head list =? collision_index in
  let is_tail := l_tail list =? collision_index in
  BUG_ON (Bool.eqb is_head (negb (prev node =? end_marker)));;
  BUG_ON (Bool.eqb is_tail (negb (next node =? end_marker)));;
  remove_update_ptrs r collision_index;;
  upd_list r (fun l => with_num_nodes (u32 (num_nodes l - 1)) l);;
  node ← ocf_metadata_get_lru collision_index;
  (if hot node then upd_list r (fun l => with_num_hot (u32 (num_hot l - 1)) l) else mret tt);;
  upd_lru collision_index (with_next end_marker);;
  upd_lru collision_index (with_prev end_marker);;
  upd_lru collision_index (with_hot false).

Definition remove_lru_list (r : list_ref) (cline : Z) : M lru_state unit :=
  remove_lru_list_nobalance r cline;;
  balance_lru_list r.

Definition ocf_lru_set_hot (r : list_ref) (cline : Z) : M lru_state unit :=
  remove_lru_list_nobalance r cline;;
  add_lru_head_nobalance r cline;;
  balance_lru_list r.

Definition ocf_lru_init_cline (cline : Z) : M lru_state unit :=
  upd_lru cline (with_hot false);;
  upd_lru cline (with_prev end_marker);;
  upd_lru cline (with_next end_marker).

Definition ocf_lru_move (cline : Z) (src_list dst_list : list_ref) : M lru_state unit :=
  remove_lru_list src_list cline;;
  add_lru_head dst_list cline.

Definition _lru_init (r : list_ref) (track : bool) : M lru_state unit :=
  upd_list r (fun _ => mkLruList 0 end_marker end_marker 0 end_marker track).

(** ** Weakest preconditions of the accesses *)

Lemma wp_get_lru line m Q s :
  metas s !! line = Some m -> Q m s -> wp (ocf_metadata_get_lru line) Q s.
Proof. intros Hm HQ. exists m, s. unfold ocf_metadata_get_lru. by rewrite Hm. Qed.

Lemma wp_upd_lru line f Q s :
  is_Some (metas s !! line) -> Q tt (set_metas (alter f line) s) -> wp (upd_lru line f) Q s.
Proof. intros [m Hm] HQ. exists tt, (set_metas (alter f line) s). unfold upd_lru. by rewrite Hm. Qed.

Lemma wp_get_list r l Q s : lists s !! r = Some l -> Q l s -> wp (get_list r) Q s.
Proof. intros Hl HQ. exists l, s. unfold get_list. by rewrite Hl. Qed.

Lemma wp_upd_list r f Q s :
  is_Some (lists s !! r) -> Q tt (set_lists (alter f r) s) -> wp (upd_list r f) Q s.
Proof. intros [l Hl] HQ. exists tt, (set_lists (alter f r) s). unfold upd_list. by rewrite Hl. Qed.

(** ** Representation *)

Definition hot_of (m : gmap Z ocf_lru_meta) (x : Z) : option bool := hot <$> m !! x.

(** The fields of a list whose hot elements are [hs] and cold ones [cs]. *)
Definition list_fields (track : bool) (hs cs : list Z) : ocf_lru_list :=
  mkLruList (Z.of_nat (length (hs ++ cs))) (hd_or end_marker (hs ++ cs))
    (last_or end_marker (hs ++ cs)) (Z.of_nat (length hs)) (last_or end_marker hs) track.

(** [lru_rep s r track hs cs]: list [r] holds, from head to tail, the hot
    elements [hs] and then the cold elements [cs]. *)
Record lru_rep (s : lru_state) (r : list_ref) (track : bool) (hs cs : list Z) : Prop := {
  rep_list : lists s !! r = Some (list_fields track hs cs);
  rep_dll : dll (metas s) end_marker (hs ++ cs);
  rep_hot x : x ∈ hs -> hot_of (metas s) x = Some true;
  rep_cold x : x ∈ cs -> hot_of (metas s) x = Some false;
  rep_track : track = false -> hs = [];
  rep_len : Z.of_nat (length (hs ++ cs)) < 2 ^ 31;
}.

(** The hot half of a list. *)
Definition hot_target (track : bool) (l : list Z) : nat :=
  if track then (length l / 2)%nat else 0%nat.

(** A balanced list [l]: its first half is hot. *)
Definition lru_list_is (s : lru_state) (r : list_ref) (track : bool) (l : list Z) : Prop :=
  lru_rep s r track (take (hot_target track l) l) (drop (hot_target track l) l).

(** Everything outside the lines [xs] and the list [r] is unchanged. *)
Definition lru_frame (s s' : lru_state) (r : list_ref) (xs : list Z) : Prop :=
  (forall y, y ∉ xs -> metas s' !! y = metas s !! y) /\
  (forall r', r' <> r -> lists s' !! r' = lists s !! r') /\
  (forall y, is_Some (metas s' !! y) <-> is_Some (metas s !! y)).

Lemma lru_frame_trans s1 s2 s3 r xs ys :
  lru_frame s1 s2 r xs -> lru_frame s2 s3 r ys -> xs ⊆ ys -> lru_frame s1 s3 r ys.
Proof.
  unfold lru_frame. intros (A1 & A2 & A3) B Hsub. destruct B as (B1 & B2 & B3). split_and!.
  - intros y Hy. rewrite B1, A1; set_solver.
  - intros r' Hr. rewrite B2, A2; done.
  - intros y. by rewrite B3, A3.
Qed.

Lemma lru_frame_refl s r xs : lru_frame s s r xs.
Proof. done. Qed.

Lemma lru_rep_frame s s' r r' track hs cs xs :
  lru_frame s s' r' xs -> r <> r' -> (forall x, x ∈ hs ++ cs -> x ∉ xs) ->
  lru_rep s r track hs cs -> lru_rep s' r track hs cs.
Proof.
  intros (Hm & Hl & _) Hr Hd [H1 H2 H3 H4 H5 H6]. split; [by rewrite Hl| | | |done..].
  - eapply dll_frame; [|done]. intros x Hx. unfold links. rewrite Hm; [done|by apply Hd].
  - intros x Hx. unfold hot_of. rewrite Hm; [by apply H3|apply Hd; set_solver].
  - intros x Hx. unfold hot_of. rewrite Hm; [by apply H4|apply Hd; set_solver].
Qed.

Lemma links_with_hot (m : gmap Z ocf_lru_meta) b x y : links (alter (with_hot b) y m) x = links m x.
Proof.
  unfold links. rewrite lookup_alter. case_decide; [|done]. subst. by destruct (m !! x).
Qed.

Lemma hot_of_relink (m : gmap Z ocf_lru_meta) l1 l2 v w x :
  hot_of (relink_prev l2 v (relink_next l1 w m)) x = hot_of m x.
Proof. apply relink_field; done. Qed.

Lemma hot_of_alter_ne m f x y : x <> y -> hot_of (alter f y m) x = hot_of m x.
Proof. intros Hne. unfold hot_of. by rewrite lookup_alter_ne. Qed.

Lemma hot_of_alter m f x : hot_of (alter f x m) x = (hot ∘ f) <$> m !! x.
Proof. unfold hot_of. rewrite lookup_alter_eq, <- option_fmap_compose. done. Qed.

(** Rebuilding the representation when the hot border moves by one. *)
Lemma rep_hot_up s r hs c cs :
  lru_rep s r true hs (c :: cs) ->
  lru_rep (mkLru (alter (with_hot true) c (metas s))
             (<[r := list_fields true (hs ++ [c]) cs]> (lists s))) r true (hs ++ [c]) cs.
Proof.
  intros [Hl Hd Hh Hc Ht Hlen].
  assert (hs ++ c :: cs = (hs ++ [c]) ++ cs) as Heq by by rewrite <- app_assoc.
  rewrite Heq in Hd, Hlen. pose proof (dll_nodup _ _ _ Hd) as Hnd.
  rewrite <- app_assoc in Hnd. apply NoDup_app in Hnd as (_ & Hdis & [Hcc _]%NoDup_cons).
  split; simpl; [by rewrite lookup_insert_eq| | | |done..].
  - eapply dll_frame; [|done]. intros x _. apply links_with_hot.
  - intros x [Hx|Hx%list_elem_of_singleton]%elem_of_app.
    + rewrite hot_of_alter_ne; [by apply Hh|]. intros ->. eapply Hdis; set_solver.
    + subst. rewrite hot_of_alter.
      destruct (dll_dom _ _ _ c Hd) as [m ->]; [set_solver|done].
  - intros x Hx. rewrite hot_of_alter_ne; [apply Hc; set_solver|]. intros ->. done.
Qed.

Lemma rep_hot_down s r hs z cs :
  lru_rep s r true (hs ++ [z]) cs ->
  lru_rep (mkLru (alter (with_hot false) z (metas s))
             (<[r := list_fields true hs (z :: cs)]> (lists s))) r true hs (z :: cs).
Proof.
  intros [Hl Hd Hh Hc Ht Hlen].
  assert ((hs ++ [z]) ++ cs = hs ++ z :: cs) as Heq by by rewrite <- app_assoc.
  rewrite Heq in Hd, Hlen. pose proof (dll_nodup _ _ _ Hd) as Hnd.
  apply NoDup_app in Hnd as (_ & Hdis & [Hcc _]%NoDup_cons).
  split; simpl; [by rewrite lookup_insert_eq| | | |done..].
  - eapply dll_frame; [|done]. intros x _. apply links_with_hot.
  - intros x Hx. rewrite hot_of_alter_ne; [apply Hh; set_solver|].
    intros ->. eapply Hdis; set_solver.
  - intros x [->|Hx]%elem_of_cons.
    + rewrite hot_of_alter. destruct (dll_dom _ _ _ z Hd) as [m ->]; [set_solver|done].
    + rewrite hot_of_alter_ne; [by apply Hc|]. intros ->. done.
Qed.

Lemma lru_frame_hot s r b y l v :
  y ∈ l -> lru_frame s (mkLru (alter (with_hot b) y (metas s)) (<[r := v]> (lists s))) r l.
Proof.
  intros Hy. split_and!; simpl.
  - intros x Hx. apply lookup_alter_ne. set_solver.
  - intros r' Hr. by apply lookup_insert_ne.
  - intros x. apply is_Some_alter.
Qed.

(** What follows from the split into hot and cold when sizes fit. *)
Lemma lru_list_is_intro s r track hs cs :
  lru_rep s r track hs cs -> length hs = hot_target track (hs ++ cs) ->
  lru_list_is s r track (hs ++ cs).
Proof.
  intros Hrep Hlen. unfold lru_list_is. rewrite <- Hlen.
  by rewrite take_app_length, drop_app_length.
Qed.

Lemma half_length (l : list Z) : Z.of_nat (length l) `div` 2 = Z.of_nat (length l / 2)%nat.
Proof. by rewrite Nat2Z.inj_div. Qed.

(** The last two steps of [balance_lru_list], after the hot counter is set. *)
Definition shift_hot (r : list_ref) (change : Z) : M lru_state unit :=
  pivot ← balance_update_last_hot r change;
  if negb (pivot =? end_marker) then upd_lru pivot (with_hot (0 <=? change)) else mret tt.

Definition set_num_hot (r : list_ref) (n : nat) (s : lru_state) : lru_state :=
  set_lists (alter (with_num_hot (Z.of_nat n)) r) s.

Lemma set_num_hot_list s r track hs cs n :
  lru_rep s r track hs cs ->
  lists (set_num_hot r n s) !! r = Some (with_num_hot (Z.of_nat n) (list_fields track hs cs)).
Proof. intros Hrep. simpl. by rewrite lookup_alter_eq, (rep_list _ _ _ _ _ Hrep). Qed.

Lemma set_num_hot_last s r track hs cs n v :
  lru_rep s r track hs cs ->
  alter (with_last_hot v) r (lists (set_num_hot r n s)) =
  <[r := with_last_hot v (with_num_hot (Z.of_nat n) (list_fields track hs cs))]> (lists s).
Proof.
  intros Hrep. apply map_eq. intros r'. simpl. destruct (decide (r = r')) as [<-|Hne].
  - by rewrite !lookup_alter_eq, lookup_insert_eq, (rep_list _ _ _ _ _ Hrep).
  - by rewrite !lookup_alter_ne, lookup_insert_ne by done.
Qed.

Lemma rep_not_end s r track hs cs x : lru_rep s r track hs cs -> x ∈ hs ++ cs -> (x =? end_marker) = false.
Proof.
  intros Hrep Hx. apply Z.eqb_neq. intros ->. exact (dll_nil _ _ _ (rep_dll _ _ _ _ _ Hrep) Hx).
Qed.

Lemma shift_hot_0 s r track hs cs :
  lru_rep s r track hs cs ->
  wp (shift_hot r 0) (fun _ s' => s' = s) (set_num_hot r (length hs) s).
Proof.
  intros Hrep. unfold shift_hot, balance_update_last_hot.
  do 2 wp_step. eapply wp_get_list; [by eapply set_num_hot_list|]. simpl. wp_steps.
  apply wp_upd_list; [eexists; by eapply set_num_hot_list|]. wp_steps.
  unfold set_lists at 1. rewrite (set_num_hot_last s r track hs cs) by done.
  pose proof (rep_list _ _ _ _ _ Hrep) as Hl. destruct s as [ms ls].
  rewrite insert_id; [done|]. by simpl in Hl |- *.
Qed.

Lemma shift_hot_up s r hs c cs :
  lru_rep s r true hs (c :: cs) ->
  wp (shift_hot r 1) (fun _ s' => lru_rep s' r true (hs ++ [c]) cs /\ lru_frame s s' r (hs ++ c :: cs))
    (set_num_hot r (S (length hs)) s).
Proof.
  intros Hrep. pose proof (rep_dll _ _ _ _ _ Hrep) as Hd.
  assert ((c =? end_marker) = false) as Hc by (eapply rep_not_end; [done|set_solver]).
  unfold shift_hot, balance_update_last_hot.
  do 2 wp_step. eapply wp_get_list; [by eapply set_num_hot_list|]. wp_steps.
  eapply (wp_mono _ (fun v s' => v = c /\ s' = set_num_hot r (S (length hs)) s)).
  - destruct hs as [|z hs _] using rev_ind; [simpl; by wp_steps|].
    rewrite last_or_snoc, (rep_not_end _ _ _ _ _ z Hrep) by set_solver.
    wp_step. pose proof (dll_seg _ _ _ Hd) as Hs. rewrite <- app_assoc in Hs.
    apply seg_links, links_Some in Hs as (a & Ha & _ & Hn).
    change (next a = c) in Hn.
    eapply wp_get_lru; [done|]. rewrite Hn, Hc. by wp_steps.
  - simpl. intros v s' [-> ->]. wp_step.
    apply wp_upd_list; [eexists; by eapply set_num_hot_list|]. wp_steps. rewrite Hc. simpl.
    apply wp_upd_lru.
    { change (is_Some (metas s !! c)). eapply dll_dom; [done|set_solver]. }
    unfold set_metas, set_lists. cbn [metas lists].
    rewrite (set_num_hot_last s r true hs (c :: cs)) by done. cbn [metas set_num_hot set_lists].
    replace (with_last_hot c _) with (list_fields true (hs ++ [c]) cs).
    + split; [by apply rep_hot_up|apply lru_frame_hot; set_solver].
    + unfold list_fields, with_last_hot, with_num_hot. cbn [num_nodes l_head l_tail num_hot last_hot track_hot].
      rewrite <- app_assoc, last_or_snoc, (length_app hs [c]). simpl. f_equal. lia.
Qed.

Lemma shift_hot_down s r hs z cs :
  lru_rep s r true (hs ++ [z]) cs ->
  wp (shift_hot r (-1)) (fun _ s' => lru_rep s' r true hs (z :: cs) /\ lru_frame s s' r ((hs ++ [z]) ++ cs))
    (set_num_hot r (length hs) s).
Proof.
  intros Hrep. pose proof (rep_dll _ _ _ _ _ Hrep) as Hd.
  assert ((z =? end_marker) = false) as Hz by (eapply rep_not_end; [done|set_solver]).
  unfold shift_hot, balance_update_last_hot.
  do 2 wp_step. eapply wp_get_list; [by eapply set_num_hot_list|]. simpl.
  rewrite last_or_snoc. wp_steps; [done|].
  pose proof (dll_seg _ _ _ Hd) as Hs. rewrite <- app_assoc in Hs.
  apply seg_links, links_Some in Hs as (a & Ha & Hp & _). simpl in Hp.
  eapply wp_get_lru; [done|]. rewrite Hp. wp_steps.
  apply wp_upd_list; [eexists; by eapply set_num_hot_list|]. wp_steps. rewrite Hz. simpl.
  apply wp_upd_lru; [by eexists|]. unfold set_metas, set_lists. cbn [metas lists].
  rewrite (set_num_hot_last s r true (hs ++ [z]) cs) by done. cbn [metas set_num_hot set_lists].
  replace (with_last_hot _ _) with (list_fields true hs (z :: cs)).
  - split; [by apply rep_hot_down|apply lru_frame_hot; set_solver].
  - unfold list_fields, with_last_hot, with_num_hot. cbn [num_nodes l_head l_tail num_hot last_hot track_hot].
    by rewrite <- app_assoc.
Qed.

(** [balance_lru_list] repairs an imbalance of one. *)
Lemma balance_lru_list_spec s r track hs cs :
  lru_rep s r track hs cs ->
  (track = true -> let t := hot_target track (hs ++ cs) in
     t = length hs \/ t = S (length hs) \/ S t = length hs) ->
  wp (balance_lru_list r) (fun _ s' =>
    lru_list_is s' r track (hs ++ cs) /\ lru_frame s s' r (hs ++ cs)) s.
Proof.
  intros Hrep Htgt. pose proof Hrep as [Hl _ _ _ Ht Hlen].
  unfold balance_lru_list. wp_step. eapply wp_get_list; [done|].
  unfold OCF_LRU_HOT_RATIO. cbn [num_nodes num_hot track_hot list_fields]. rewrite half_length.
  destruct track; simpl; cycle 1.
  { wp_step. split; [|apply lru_frame_refl]. apply lru_list_is_intro; [done|].
    by rewrite (Ht eq_refl). }
  specialize (Htgt eq_refl). simpl in Htgt.
  assert (Z.of_nat (length hs) < 2 ^ 31) as Hhlen by (rewrite length_app in Hlen; lia).
  wp_step. apply wp_upd_list; [by eexists|].
  change (set_lists _ s) with (set_num_hot r (length (hs ++ cs) / 2) s).
  change (wp _ ?Q) with (wp (shift_hot r (s32 (Z.of_nat (length (hs ++ cs) / 2) - Z.of_nat (length hs)))) Q).
  destruct Htgt as [Heq|[Heq|Heq]]; rewrite ?Heq.
  - rewrite Z.sub_diag. eapply wp_mono; [by eapply shift_hot_0|]. intros ? s' ->. simpl.
    split; [by apply lru_list_is_intro|apply lru_frame_refl].
  - replace (s32 _) with 1 by (rewrite s32_small; lia).
    destruct cs as [|c cs].
    { exfalso. rewrite app_nil_r in Heq. pose proof (Nat.Div0.div_le_upper_bound (length hs) 2 (length hs)). lia. }
    eapply wp_mono; [by apply shift_hot_up|]. simpl. intros _ s' [H1 H2]. split; [|done].
    rewrite (assoc_L (++) hs [c] cs : hs ++ c :: cs = (hs ++ [c]) ++ cs) in Heq |- *.
    apply lru_list_is_intro; [done|]. simpl. rewrite Heq, length_app. simpl. lia.
  - destruct hs as [|z hs _] using rev_ind; [simpl in Heq; lia|].
    assert (length ((hs ++ [z]) ++ cs) / 2 = length hs)%nat as Heq'
      by (rewrite (length_app hs [z]) in Heq; simpl in Heq; lia).
    rewrite (length_app hs [z]) in Hhlen |- *. rewrite Heq'. simpl in Hhlen |- *.
    replace (s32 _) with (-1) by (rewrite s32_small; lia).
    eapply wp_mono; [by apply shift_hot_down|]. simpl. intros _ s' [H1 H2]. split; [|done].
    rewrite <- (app_assoc hs [z] cs) in Heq' |- *.
    apply lru_list_is_intro; [done|]. simpl. simpl in Heq'. lia.
Qed.

(** Symbolic execution of list operations: the accesses of elements that the
    context knows to exist. *)
Ltac lru_some := cbn [metas lists set_metas set_lists]; rewrite ?is_Some_alter; eauto.
Ltac lru_step :=
  first
    [ wp_step
    | apply wp_upd_lru; [solve [lru_some]|]
    | apply wp_upd_list; [solve [lru_some]|]
    | eapply wp_get_list; [cbn [metas lists set_metas set_lists];
        rewrite ?lookup_alter_eq; solve [reflexivity | eassumption
          | (match goal with H : _ !! _ = Some _ |- _ => rewrite H; reflexivity end)]|]
    | eapply wp_get_lru; [cbn [metas lists set_metas set_lists];
        rewrite ?lookup_alter_eq; solve [reflexivity | eassumption
          | (match goal with H : _ !! _ = Some _ |- _ => rewrite H; reflexivity end)]|] ].
Ltac lru_steps := repeat (lru_step; cbn [num_nodes l_head l_tail num_hot last_hot track_hot
  prev next hot with_prev with_next with_hot with_num_nodes with_head with_tail with_num_hot with_last_hot]).

Lemma lru_state_eq s s' : metas s = metas s' -> lists s = lists s' -> s = s'.
Proof. destruct s, s'. simpl. by intros -> ->. Qed.

(** Name the final state of a symbolic execution. *)
Ltac state_is t :=
  match goal with |- lru_rep ?S _ _ _ _ /\ _ =>
    assert (S = t) as ->; [apply lru_state_eq; cbn [metas lists set_metas set_lists]|]
  end.

Lemma add_nobalance_empty s r track x :
  lru_rep s r track [] [] -> is_Some (metas s !! x) -> x <> end_marker ->
  wp (add_lru_head_nobalance r x) (fun _ s' =>
    lru_rep s' r track [] [x] /\ lru_frame s s' r [x]) s.
Proof.
  intros Hrep [m Hx] Hne. pose proof (rep_list _ _ _ _ _ Hrep) as Hl.
  apply Z.eqb_neq in Hne as Hne'.
  assert (is_Some (metas s !! x)) as Hmx by (by eexists).
  assert (is_Some (lists s !! r)) as Hlr by (by eexists).
  unfold add_lru_head_nobalance. rewrite Hne'. lru_steps. simpl. lru_steps.
  state_is (mkLru (<[x := mkLruMeta end_marker end_marker false]> (metas s))
              (<[r := list_fields track [] [x]]> (lists s))).
  { map_pointwise. by rewrite Hx. }
  { map_pointwise. by rewrite Hl. }
  split.
  - split; simpl; [by rewrite lookup_insert_eq| | | |done|lia].
    + apply (dll_push _ _ []); [apply dll_nil_list|set_solver|done..].
    + set_solver.
    + intros y ->%list_elem_of_singleton. unfold hot_of. by rewrite lookup_insert_eq.
  - split_and!; simpl.
    + intros y Hy. apply lookup_insert_ne. set_solver.
    + intros r' Hr. by apply lookup_insert_ne.
    + intros y. destruct (decide (x = y)) as [<-|]; [|by rewrite lookup_insert_ne].
      rewrite lookup_insert_eq, Hx. split; intros _; by eexists.
Qed.

(** The common part of the frame conditions: a state that differs in the list
    [r] and in lines of [xs]. *)
Lemma lru_frame_intro s ms v r xs :
  (forall y, y ∉ xs -> ms !! y = metas s !! y) ->
  (forall y, is_Some (ms !! y) <-> is_Some (metas s !! y)) ->
  lru_frame s (mkLru ms (<[r := v]> (lists s))) r xs.
Proof. intros H1 H2. split_and!; simpl; [done| |done]. intros r' Hr. by apply lookup_insert_ne. Qed.

(** The links and the hot bits after [x] is put in front of a list. *)
Lemma push_maps s r track hs cs h t x b :
  lru_rep s r track hs cs -> hs ++ cs = h :: t -> is_Some (metas s !! x) ->
  x <> end_marker -> x ∉ hs ++ cs ->
  let ms := <[x := mkLruMeta end_marker h b]> (relink_prev (hs ++ cs) x (metas s)) in
  dll ms end_marker (x :: hs ++ cs) /\
  (forall y, y ∈ hs ++ cs -> hot_of ms y = hot_of (metas s) y) /\ hot_of ms x = Some b /\
  (forall y, y ∉ x :: hs ++ cs -> ms !! y = metas s !! y) /\
  (forall y, is_Some (ms !! y) <-> is_Some (metas s !! y)).
Proof.
  intros Hrep Heq Hx Hne Hnin ms. pose proof (rep_dll _ _ _ _ _ Hrep) as Hd. split_and!.
  - apply dll_push; [done..|]. by rewrite Heq.
  - intros y Hy. unfold hot_of, ms. rewrite lookup_insert_ne by (intros ->; done).
    apply (hot_of_relink _ [] _ _ 0).
  - unfold hot_of, ms. by rewrite lookup_insert_eq.
  - intros y Hy. unfold ms. rewrite lookup_insert_ne by set_solver.
    apply relink_prev_lookup_ne. set_solver.
  - intros y. unfold ms. rewrite insert_is_Some' by (by apply (relink_dom [] _ _ 0)).
    apply (relink_dom [] _ _ 0).
Qed.

(** The state after a push satisfies the representation again. *)
Lemma push_rep s s' r track hs cs hs' cs' h t x b :
  lru_rep s r track hs cs -> hs ++ cs = h :: t -> is_Some (metas s !! x) ->
  x <> end_marker -> x ∉ hs ++ cs -> Z.of_nat (length (hs ++ cs)) + 1 < 2 ^ 31 ->
  b = track -> hs' = (if track then x :: hs else []) -> cs' = (if track then cs else x :: cs) ->
  metas s' = <[x := mkLruMeta end_marker h b]> (alter (with_prev x) h (metas s)) ->
  lists s' = <[r := list_fields track hs' cs']> (lists s) ->
  lru_rep s' r track hs' cs' /\ lru_frame s s' r (x :: hs ++ cs).
Proof.
  intros Hrep Heq Hmx Hne Hnin Hlen1 -> -> -> Hms Hls.
  destruct s' as [ms ls]. simpl in Hms, Hls. subst ms ls.
  pose proof (push_maps s r track hs cs h t x track Hrep Heq Hmx Hne Hnin) as (H1 & H2 & H3 & H4 & H5).
  unfold relink_prev in H1, H2, H3, H4, H5. rewrite Heq in H1, H2, H3, H4, H5. simpl in H1, H2, H3, H4, H5.
  rewrite Heq. destruct Hrep as [Hl Hd Hh Hc Ht Hlen]. split; [|by apply lru_frame_intro].
  rewrite <- Heq in H1, H2. destruct track.
  - split; simpl; [by rewrite lookup_insert_eq|done| | |done|lia].
    + intros y [->|Hy]%elem_of_cons; [done|]. rewrite H2 by set_solver. by apply Hh.
    + intros y Hy. rewrite H2 by set_solver. by apply Hc.
  - rewrite (Ht eq_refl) in *. simpl in *.
    split; simpl; [by rewrite lookup_insert_eq|done|set_solver| |done|lia].
    intros y [->|Hy]%elem_of_cons; [done|]. rewrite H2 by set_solver. by apply Hc.
Qed.

Lemma push_fields_hot hs cs x :
  hs ++ cs <> [] -> Z.of_nat (length (hs ++ cs)) + 1 < 2 ^ 31 ->
  with_num_nodes (u32 (Z.of_nat (length (hs ++ cs)) + 1)) (with_head x
    (with_num_hot (u32 (Z.of_nat (length hs) + 1)) (with_last_hot (last_or x hs)
      (list_fields true hs cs)))) = list_fields true (x :: hs) cs.
Proof.
  intros Hne Hlen. rewrite length_app in Hlen. rewrite !u32_small by (rewrite ?length_app; lia).
  unfold list_fields, with_num_nodes, with_head, with_num_hot, with_last_hot.
  cbn [num_nodes l_head l_tail num_hot last_hot track_hot app].
  rewrite !last_or_cons, !length_cons, (last_or_any x end_marker (hs ++ cs)) by done.
  f_equal; lia.
Qed.

Lemma push_fields_cold cs x :
  cs <> [] -> Z.of_nat (length cs) + 1 < 2 ^ 31 ->
  with_num_nodes (u32 (Z.of_nat (length cs) + 1)) (with_head x (list_fields false [] cs)) =
  list_fields false [] (x :: cs).
Proof.
  intros Hne Hlen. rewrite !u32_small by lia.
  unfold list_fields, with_num_nodes, with_head. cbn [num_nodes l_head l_tail num_hot last_hot track_hot app].
  rewrite last_or_cons, length_cons, (last_or_any x end_marker cs) by done. f_equal; lia.
Qed.

Lemma add_nobalance_cons s r track hs cs x :
  lru_rep s r track hs cs -> hs ++ cs <> [] -> is_Some (metas s !! x) -> x <> end_marker ->
  x ∉ hs ++ cs -> Z.of_nat (length (hs ++ cs)) + 1 < 2 ^ 31 ->
  wp (add_lru_head_nobalance r x) (fun _ s' =>
    (if track then lru_rep s' r track (x :: hs) cs else lru_rep s' r track hs (x :: cs)) /\
    lru_frame s s' r (x :: hs ++ cs)) s.
Proof.
  intros Hrep Hnil Hmx Hne Hnin Hlen1. pose proof Hrep as [Hl Hd Hh Hc Ht Hlen].
  destruct (hs ++ cs) as [|h t] eqn:Heq; [done|].
  assert (is_Some (lists s !! r)) as Hlr by (by eexists).
  assert (is_Some (metas s !! h)) as Hmh by (eapply dll_dom; [done|by left]).
  assert (x <> h) as Hxh by (intros ->; apply Hnin; by left).
  assert ((h =? end_marker) = false) as Hhe
    by (apply (rep_not_end _ _ _ _ _ h Hrep); rewrite Heq; by left).
  assert (h ∈ hs \/ hs = [] /\ cs = h :: t) as Hhcase.
  { destruct hs; simpl in Heq; simplify_eq; set_solver. }
  unfold add_lru_head_nobalance. rewrite (proj2 (Z.eqb_neq x end_marker) Hne).
  assert ((num_nodes (list_fields track hs cs) =? 0) = false) as Hnn.
  { apply Z.eqb_neq. unfold list_fields. cbn [num_nodes]. rewrite Heq, length_cons. lia. }
  assert (l_head (list_fields track hs cs) = h) as Hlh
    by (unfold list_fields; cbn [l_head]; by rewrite Heq).
  destruct Hmx as [m Hm]. destruct Hmh as [mh Hmh].
  assert (is_Some (metas s !! x)) as Hmx by (by eexists).
  assert (is_Some (metas s !! h)) as Hmh' by (by eexists).
  lru_steps. rewrite Hnn, Hlh, Hhe. clear Hlh Hnn. lru_steps.
  destruct track; cbn [track_hot list_fields].
  - lru_steps. eapply wp_get_lru.
    { cbn [metas lists set_metas set_lists]. rewrite lookup_alter_ne, lookup_alter_eq, !lookup_alter_ne, Hmh by done. reflexivity. }
    assert (hs ++ cs <> []) as Hne' by by rewrite Heq.
    rewrite <- Heq in Hlen1, Hnin |- *.
    cbn [hot with_prev]. destruct (hot mh) eqn:Hhot; simpl; lru_steps;
      (eapply (push_rep s _ r true hs cs (x :: hs) cs h t x true); [done..| |]; cbn [metas lists set_metas set_lists];
       [map_pointwise; try (by rewrite Hm); by rewrite Hmh|];
       map_pointwise; rewrite Hl; cbn [fmap option_fmap option_map]; f_equal;
       rewrite <- push_fields_hot by done).
    + destruct Hhcase as [Hin|[-> ->]]; cycle 1.
      { specialize (Hc h ltac:(by left)). unfold hot_of in Hc. rewrite Hmh in Hc. simpl in Hc. congruence. }
      rewrite (last_or_any x end_marker hs) by (intros ->; set_solver). done.
    + destruct Hhcase as [Hin|[-> ->]]; [|done].
      specialize (Hh h Hin). unfold hot_of in Hh. rewrite Hmh in Hh. simpl in Hh. congruence.
  - rewrite (Ht eq_refl) in *. simpl in Heq. subst cs. lru_steps.
    eapply (push_rep s _ r false [] (h :: t) [] (x :: h :: t) h t x false); [done..| |]; cbn [metas lists set_metas set_lists].
    + map_pointwise; try (by rewrite Hm).
    + map_pointwise. rewrite Hl. cbn [fmap option_fmap option_map]. f_equal.
      by rewrite <- (push_fields_cold (h :: t) x) by done.
Qed.

(** ** Removal *)

(** The list fields when [x] has left, before ([b = false]) and after the
    correction of the last hot element. *)
Definition removed_fields (track : bool) (hs cs l1 : list Z) (x : Z) (l2 : list Z) (b : bool) :=
  mkLruList (Z.of_nat (length (hs ++ cs))) (hd_or end_marker (l1 ++ l2))
    (last_or end_marker (l1 ++ l2)) (Z.of_nat (length hs))
    (if b && (last_or end_marker hs =? x) then last_or end_marker l1 else last_or end_marker hs) track.

Lemma remove_update_ptrs_spec s r track hs cs l1 x l2 :
  lru_rep s r track hs cs -> hs ++ cs = l1 ++ x :: l2 ->
  wp (remove_update_ptrs r x) (fun _ s' =>
    metas s' = relink_prev l2 (last_or end_marker l1)
                 (relink_next l1 (hd_or end_marker l2) (metas s)) /\
    lists s' = <[r := removed_fields track hs cs l1 x l2 true]> (lists s)) s.
Proof.
  intros Hrep Heq. pose proof Hrep as [Hl Hd _ _ _ _]. rewrite Heq in Hd.
  assert (is_Some (lists s !! r)) as Hlr by (by eexists).
  pose proof (seg_links _ _ _ _ _ _ (dll_seg _ _ _ Hd)) as (m & Hm & Hp & Hn)%links_Some.
  simpl in Hp, Hn.
  assert (forall y, y ∈ l1 ++ x :: l2 -> is_Some (metas s !! y)) as Hdom by (intros y; by eapply dll_dom).
  assert (forall y, y ∈ l1 ++ x :: l2 -> (y =? end_marker) = false) as Hend.
  { intros y Hy. by apply (rep_not_end _ _ _ _ _ y Hrep); rewrite Heq. }
  unfold remove_update_ptrs. lru_step. eapply wp_get_lru; [done|]. rewrite Hp, Hn. wp_step.
  apply (wp_mono _ (fun _ s' =>
    metas s' = relink_prev l2 (last_or end_marker l1)
                 (relink_next l1 (hd_or end_marker l2) (metas s)) /\
    lists s' = <[r := removed_fields track hs cs l1 x l2 false]> (lists s))).
  - assert (removed_fields track hs cs l1 x l2 false =
      with_head (hd_or end_marker (l1 ++ l2)) (with_tail (last_or end_marker (l1 ++ l2))
        (list_fields track hs cs))) as -> by done.
    assert (list_fields track hs cs =
      with_head (hd_or end_marker (l1 ++ x :: l2)) (with_tail (last_or end_marker (l1 ++ x :: l2))
        (list_fields track hs cs))) as Hlf by (unfold list_fields; cbn; by rewrite Heq).
    rewrite Hlf in Hl. clear Hlf.
    destruct l1 as [|p l1 _] using rev_ind;
      [|assert (is_Some (metas s !! p) /\ (p =? end_marker) = false) as [? Hpe]
          by (split; [apply Hdom|apply Hend]; set_solver)];
      (destruct l2 as [|n l2];
      [|assert (is_Some (metas s !! n) /\ (n =? end_marker) = false) as [? Hne]
          by (split; [apply Hdom|apply Hend]; set_solver)]);
      unfold relink_prev, relink_next; rewrite ?last_snoc, ?last_or_snoc; simpl;
      try rewrite Hpe; try change (hd_or end_marker (n :: l2)) with n; try rewrite Hne;
      simpl; lru_steps; (split; [done|]);
      cbn [metas lists set_metas set_lists];
      first [ symmetry; apply insert_id; rewrite Hl | map_pointwise; rewrite Hl ];
      cbn [fmap option_fmap option_map]; f_equal; unfold with_head, with_tail; cbn;
      rewrite ?app_nil_r, <- ?app_assoc, ?last_or_app, ?last_or_cons, ?hd_or_app; try done.
  - intros _ s' [Hms Hls].
    assert (is_Some (lists s' !! r)) as Hlr' by (rewrite Hls, lookup_insert_eq; by eexists).
    lru_step. eapply wp_get_list; [by rewrite Hls, lookup_insert_eq|].
    unfold removed_fields at 1. cbn [last_hot andb].
    unfold removed_fields. destruct (last_or end_marker hs =? x); lru_steps; cbn [metas lists set_lists]; (split; [done|]); rewrite Hls.
    + map_pointwise.
    + done.
Qed.

(** The links and the hot bits after [x] is taken out and reset. *)
Lemma unlink_maps s r track hs cs l1 x l2 :
  lru_rep s r track hs cs -> hs ++ cs = l1 ++ x :: l2 ->
  let ms := <[x := mkLruMeta end_marker end_marker false]>
    (relink_prev l2 (last_or end_marker l1) (relink_next l1 (hd_or end_marker l2) (metas s))) in
  dll ms end_marker (l1 ++ l2) /\
  (forall y, y ∈ l1 ++ l2 -> hot_of ms y = hot_of (metas s) y) /\
  (forall y, y ∉ hs ++ cs -> ms !! y = metas s !! y) /\
  (forall y, is_Some (ms !! y) <-> is_Some (metas s !! y)).
Proof.
  intros Hrep Heq ms. pose proof (rep_dll _ _ _ _ _ Hrep) as Hd.
  rewrite Heq in Hd |- *. pose proof (dll_nodup _ _ _ Hd) as Hnd.
  assert (x ∉ l1 ++ l2) as Hx.
  { apply NoDup_app in Hnd as (_ & Hdis & [? _]%NoDup_cons).
    intros [H1|H2]%elem_of_app; [|done]. apply (Hdis x H1). by left. }
  split_and!.
  - eapply dll_frame; [|by eapply dll_unlink]. intros y Hy. apply links_insert_ne. intros ->. done.
  - intros y Hy. unfold hot_of, ms. rewrite lookup_insert_ne by (intros ->; done). apply hot_of_relink.
  - intros y Hy. unfold ms. rewrite lookup_insert_ne by set_solver.
    rewrite relink_prev_lookup_ne, relink_next_lookup_ne by set_solver. done.
  - intros y. unfold ms. rewrite insert_is_Some' by (apply relink_dom; eapply dll_dom; [done|set_solver]).
    apply relink_dom.
Qed.

(** The consistency checks at the head of a removal pass. *)
Lemma head_check d l1 x l2 :
  NoDup (l1 ++ x :: l2) -> d ∉ l1 ++ x :: l2 ->
  Bool.eqb (hd_or d (l1 ++ x :: l2) =? x) (negb (last_or d l1 =? d)) = false.
Proof.
  intros Hnd Hd. destruct l1 as [|p l1 _] using rev_ind.
  - unfold hd_or, last_or. simpl. by rewrite !Z.eqb_refl.
  - rewrite last_or_snoc. destruct (Z.eqb_spec p d) as [->|_]; [set_solver|].
    apply eqb_false_iff. intros He%Z.eqb_eq. apply NoDup_app in Hnd as (_ & Hdis & _).
    apply (Hdis x); [|by left]. rewrite <- He. rewrite hd_or_app. apply hd_or_elem.
    by destruct l1.
Qed.

Lemma tail_check d l1 x l2 :
  NoDup (l1 ++ x :: l2) -> d ∉ l1 ++ x :: l2 ->
  Bool.eqb (last_or d (l1 ++ x :: l2) =? x) (negb (hd_or d l2 =? d)) = false.
Proof.
  intros (_ & _ & [Hx _]%NoDup_cons)%NoDup_app Hd. rewrite last_or_app, last_or_cons.
  destruct l2 as [|n l2]; unfold hd_or; simpl.
  - unfold last_or. simpl. by rewrite !Z.eqb_refl.
  - destruct (Z.eqb_spec n d) as [->|_]; [set_solver|].
    apply eqb_false_iff. intros He%Z.eqb_eq. apply Hx.
    pose proof (last_or_elem x (n :: l2) ltac:(done)) as Hin. unfold last_or in *. by rewrite He in Hin.
Qed.

Lemma removed_fields_rep track hs cs l1 x l2 :
  NoDup (hs ++ cs) -> end_marker ∉ hs ++ cs -> x <> end_marker -> hs ++ cs = l1 ++ x :: l2 ->
  Z.of_nat (length (hs ++ cs)) < 2 ^ 31 ->
  let f := with_num_nodes (u32 (Z.of_nat (length (hs ++ cs)) - 1)) (removed_fields track hs cs l1 x l2 true) in
  (if bool_decide (x ∈ hs) then with_num_hot (u32 (Z.of_nat (length hs) - 1)) f else f) =
  list_fields track (without x hs) (without x cs).
Proof.
  intros Hnd He Hxe Heq Hlen. simpl.
  assert (without x hs ++ without x cs = l1 ++ l2) as Hwo.
  { unfold without. rewrite <- filter_app, Heq. apply without_mid. by rewrite <- Heq. }
  assert (NoDup hs) as Hndh by (apply NoDup_app in Hnd; tauto).
  unfold list_fields. rewrite Hwo, (length_without x hs) by done.
  rewrite (last_or_without _ _ _ _ _ _ Hnd He Hxe Heq).
  assert (length (hs ++ cs) = S (length (l1 ++ l2))) as Hl1 by (rewrite Heq, !length_app; simpl; lia).
  rewrite Hl1 in Hlen |- *. rewrite (u32_small (Z.of_nat (S _) - 1)) by lia.
  pose proof (length_app hs cs) as Hlapp.
  unfold removed_fields, with_num_nodes, with_num_hot. cbn.
  case_bool_decide as Hin; cbn; f_equal; try lia.
  assert (0 < length hs)%nat by (destruct hs; [set_solver|simpl; lia]).
  rewrite u32_small by lia. lia.
Qed.

Lemma unlinked_rep s s' r track hs cs l1 x l2 :
  lru_rep s r track hs cs -> hs ++ cs = l1 ++ x :: l2 ->
  metas s' = <[x := mkLruMeta end_marker end_marker false]>
    (relink_prev l2 (last_or end_marker l1) (relink_next l1 (hd_or end_marker l2) (metas s))) ->
  lists s' = <[r := list_fields track (without x hs) (without x cs)]> (lists s) ->
  lru_rep s' r track (without x hs) (without x cs) /\
  metas s' !! x = Some (mkLruMeta end_marker end_marker false) /\
  lru_frame s s' r (hs ++ cs).
Proof.
  intros Hrep Heq Hms Hls. destruct s' as [ms ls]. simpl in Hms, Hls. subst ms ls.
  pose proof (unlink_maps s r track hs cs l1 x l2 Hrep Heq) as (H1 & H2 & H3 & H4).
  destruct Hrep as [Hl Hd Hh Hc Ht Hlen]. pose proof (dll_nodup _ _ _ Hd) as Hnd.
  assert (without x hs ++ without x cs = l1 ++ l2) as Hwo.
  { unfold without. rewrite <- filter_app, Heq. apply without_mid. by rewrite <- Heq. }
  split_and!; [|simpl; by rewrite lookup_insert_eq|by apply lru_frame_intro].
  rewrite <- Hwo in H1, H2. split; simpl; [by rewrite lookup_insert_eq|done| | | |].
  - intros y Hy. rewrite H2 by set_solver. apply Hh. apply elem_of_without in Hy. tauto.
  - intros y Hy. rewrite H2 by set_solver. apply Hc. apply elem_of_without in Hy. tauto.
  - intros Htr. by rewrite (Ht Htr).
  - rewrite Hwo. rewrite Heq in Hlen. rewrite length_app in Hlen |- *. simpl in Hlen. lia.
Qed.

Lemma remove_nobalance_spec s r track hs cs x :
  lru_rep s r track hs cs -> x ∈ hs ++ cs ->
  wp (remove_lru_list_nobalance r x) (fun _ s' =>
    lru_rep s' r track (without x hs) (without x cs) /\
    metas s' !! x = Some (mkLruMeta end_marker end_marker false) /\
    lru_frame s s' r (hs ++ cs)) s.
Proof.
  intros Hrep Hx. pose proof Hrep as [Hl Hd Hh Hc Ht Hlen].
  apply list_elem_of_split in Hx as (l1 & l2 & Heq).
  pose proof (dll_nodup _ _ _ Hd) as Hnd. rewrite Heq in Hd.
  pose proof (seg_links _ _ _ _ _ _ (dll_seg _ _ _ Hd)) as (m & Hm & Hp & Hn)%links_Some.
  simpl in Hp, Hn.
  assert ((x =? end_marker) = false) as Hxe
    by (apply (rep_not_end _ _ _ _ _ x Hrep); rewrite Heq; set_solver).
  unfold remove_lru_list_nobalance. rewrite Hxe. do 2 lru_step.
  lru_step. eapply wp_get_lru; [done|]. lru_step. eapply wp_get_list; [done|]. rewrite Hp, Hn.
  unfold list_fields at 1 2. cbn [l_head l_tail]. rewrite Heq.
  rewrite head_check, tail_check by (rewrite <- ?Heq; done || apply (dll_nil _ _ _ (rep_dll _ _ _ _ _ Hrep))).
  lru_steps. eapply wp_mono; [by apply remove_update_ptrs_spec|]. simpl. intros _ s1 [Hms Hls].
  assert (hot_of (metas s1) x = Some (bool_decide (x ∈ hs))) as Hhot.
  { rewrite Hms, hot_of_relink. case_bool_decide as Hin; [by apply Hh|]. apply Hc.
    assert (x ∈ hs ++ cs) by (rewrite Heq; set_solver). set_solver. }
  assert (exists m1, metas s1 !! x = Some m1 /\ hot m1 = bool_decide (x ∈ hs)) as (m1 & Hm1 & Hhm1).
  { unfold hot_of in Hhot. destruct (metas s1 !! x) as [m1|]; [|done]. simpl in Hhot. exists m1. split; congruence. }
  assert (is_Some (metas s1 !! x)) as Hmx by (by eexists).
  assert (is_Some (lists s1 !! r)) as Hlr by (rewrite Hls, lookup_insert_eq; by eexists).
  lru_steps. rewrite Hhm1.
  rewrite <- Heq.
  assert (x <> end_marker) as Hxe' by (by apply Z.eqb_neq).
  pose proof (removed_fields_rep track hs cs l1 x l2 Hnd (dll_nil _ _ _ (rep_dll _ _ _ _ _ Hrep)) Hxe' Heq Hlen) as Hf.
  destruct (bool_decide (x ∈ hs)); lru_steps;
    (eapply (unlinked_rep s); [done..| |]; cbn [metas lists set_metas set_lists];
     [rewrite <- Hms; map_pointwise; by rewrite Hm1|]);
    rewrite <- Hf, Hls; map_pointwise.
Qed.

(** ** The operations on balanced lists *)

Lemma half_S (n : nat) : (S n / 2 = n / 2 \/ S n / 2 = S (n / 2))%nat.
Proof.
  pose proof (Nat.div_mod_eq n 2). pose proof (Nat.mod_upper_bound n 2 ltac:(lia)).
  pose proof (Nat.div_mod_eq (S n) 2). pose proof (Nat.mod_upper_bound (S n) 2 ltac:(lia)). lia.
Qed.

Lemma list_is_app s r track l : lru_list_is s r track l ->
  exists hs cs, l = hs ++ cs /\ lru_rep s r track hs cs /\ length hs = hot_target track l.
Proof.
  intros Hrep. exists (take (hot_target track l) l), (drop (hot_target track l) l).
  split_and!; [by rewrite take_drop|done|]. rewrite length_take. unfold hot_target.
  destruct track; [|lia]. pose proof (Nat.Div0.div_le_upper_bound (length l) 2 (length l)). lia.
Qed.

Lemma list_is_fields s r track l : lru_list_is s r track l ->
  dll (metas s) end_marker l /\ Z.of_nat (length l) < 2 ^ 31 /\
  exists f, lists s !! r = Some f /\ num_nodes f = Z.of_nat (length l) /\
    l_head f = hd_or end_marker l /\ l_tail f = last_or end_marker l /\
    num_hot f = Z.of_nat (hot_target track l) /\ track_hot f = track.
Proof.
  intros (hs & cs & -> & [Hl Hd _ _ _ Hlen] & Hh)%list_is_app. split_and!; [done..|].
  exists (list_fields track hs cs). rewrite <- Hh. by split_and!.
Qed.

Lemma add_nobalance_spec s r track hs cs x :
  lru_rep s r track hs cs -> is_Some (metas s !! x) -> x <> end_marker ->
  x ∉ hs ++ cs -> Z.of_nat (length (hs ++ cs)) + 1 < 2 ^ 31 ->
  wp (add_lru_head_nobalance r x) (fun _ s' => exists hs' cs',
    lru_rep s' r track hs' cs' /\ hs' ++ cs' = x :: hs ++ cs /\
    (track = true -> length hs' = if bool_decide (hs ++ cs = []) then 0%nat else S (length hs)) /\
    lru_frame s s' r (x :: hs ++ cs)) s.
Proof.
  intros Hrep Hmx Hne Hnin Hlen. case_bool_decide as Hnil.
  - apply app_eq_nil in Hnil as [-> ->].
    eapply wp_mono; [by apply add_nobalance_empty|]. intros _ s' [H1 H2]. by exists [], [x].
  - eapply wp_mono; [by apply add_nobalance_cons|]. intros _ s' [H1 H2].
    destruct track; [by exists (x :: hs), cs|].
    exists hs, (x :: cs). split_and!; [done| |done..].
    by rewrite (rep_track _ _ _ _ _ Hrep).
Qed.

Lemma add_lru_head_list s r track l x :
  lru_list_is s r track l -> is_Some (metas s !! x) -> x <> end_marker -> x ∉ l ->
  Z.of_nat (length l) + 1 < 2 ^ 31 ->
  wp (add_lru_head r x) (fun _ s' =>
    lru_list_is s' r track (x :: l) /\ lru_frame s s' r (x :: l)) s.
Proof.
  intros (hs & cs & -> & Hrep & Hh)%list_is_app Hmx Hne Hnin Hlen.
  unfold add_lru_head. wp_step. eapply wp_mono; [by apply add_nobalance_spec|].
  intros _ s1 (hs' & cs' & Hrep' & Happ & Hlen' & Hf).
  eapply wp_mono; [apply balance_lru_list_spec; [done|]|].
  - intros ->. specialize (Hlen' eq_refl). simpl in *. rewrite Happ, Hlen', Hh. simpl.
    pose proof (half_S (length (hs ++ cs))). case_bool_decide as Hn; [rewrite Hn; simpl; auto|lia].
  - intros _ s2 [H1 H2]. rewrite Happ in H1, H2. split; [done|]. by eapply lru_frame_trans.
Qed.

Lemma remove_lru_list_list s r track l x :
  lru_list_is s r track l -> x ∈ l ->
  wp (remove_lru_list r x) (fun _ s' =>
    lru_list_is s' r track (without x l) /\
    metas s' !! x = Some (mkLruMeta end_marker end_marker false) /\ lru_frame s s' r l) s.
Proof.
  intros (hs & cs & -> & Hrep & Hh)%list_is_app Hx.
  pose proof (dll_nodup _ _ _ (rep_dll _ _ _ _ _ Hrep)) as Hnd.
  unfold remove_lru_list. wp_step. eapply wp_mono; [by apply remove_nobalance_spec|].
  intros _ s1 (Hrep1 & Hm1 & Hf).
  assert (without x hs ++ without x cs = without x (hs ++ cs)) as Hwo by (symmetry; apply filter_app).
  eapply wp_mono; [apply balance_lru_list_spec; [done|]|].
  - intros ->. rewrite Hwo. simpl in *. rewrite !length_without by (done || apply NoDup_app in Hnd; tauto).
    rewrite (bool_decide_eq_true_2 _ Hx), Hh.
    assert (length (hs ++ cs) <> 0)%nat by (intros He%length_zero_iff_nil; rewrite He in Hx; set_solver).
    destruct (length (hs ++ cs)) as [|n]; [done|]. pose proof (half_S n).
    replace (S n - 1)%nat with n by lia. case_bool_decide as Hin; [|lia].
    assert (0 < length hs)%nat by (destruct hs; [set_solver|simpl; lia]). lia.
  - intros _ s2 [H1 H2]. rewrite Hwo in H1, H2. split_and!; [done| |].
    + rewrite (proj1 H2); [done|]. rewrite elem_of_without. tauto.
    + eapply lru_frame_trans; [done| |reflexivity].
      split_and!; [|apply H2..]. intros y Hy. apply H2. rewrite elem_of_without. tauto.
Qed.

Lemma ocf_lru_set_hot_list s r track l x :
  lru_list_is s r track l -> x ∈ l -> x <> end_marker ->
  wp (ocf_lru_set_hot r x) (fun _ s' =>
    lru_list_is s' r track (x :: without x l) /\ lru_frame s s' r l) s.
Proof.
  intros (hs & cs & -> & Hrep & Hh)%list_is_app Hx Hne.
  pose proof (dll_nodup _ _ _ (rep_dll _ _ _ _ _ Hrep)) as Hnd.
  assert (without x hs ++ without x cs = without x (hs ++ cs)) as Hwo by (symmetry; apply filter_app).
  assert (length (hs ++ cs) <> 0)%nat as Hn0 by (intros He%length_zero_iff_nil; rewrite He in Hx; set_solver).
  pose proof (length_without x (hs ++ cs) Hnd) as Hlw. rewrite (bool_decide_eq_true_2 _ Hx) in Hlw.
  unfold ocf_lru_set_hot. wp_step. eapply wp_mono; [by apply remove_nobalance_spec|].
  intros _ s1 (Hrep1 & Hm1 & Hf1). wp_step.
  eapply wp_mono; [apply add_nobalance_spec; [done|by eexists|done|..]; rewrite Hwo|].
  { rewrite elem_of_without. tauto. }
  { pose proof (rep_len _ _ _ _ _ Hrep). lia. }
  rewrite Hwo. intros _ s2 (hs' & cs' & Hrep2 & Happ & Hlen2 & Hf2).
  assert (x :: without x (hs ++ cs) ⊆ hs ++ cs) as Hsub.
  { intros y [->|Hy%elem_of_without]%elem_of_cons; [done|tauto]. }
  assert (forall s3, lru_frame s2 s3 r (x :: without x (hs ++ cs)) -> lru_frame s s3 r (hs ++ cs)) as Hfr.
  { intros s3 Hf3. pose proof (lru_frame_trans _ _ _ _ _ _ Hf2 Hf3 ltac:(done)) as H23.
    eapply lru_frame_trans; [done| |reflexivity]. split_and!; [|apply H23..].
    intros y Hy. apply H23. auto. }
  eapply wp_mono; [apply balance_lru_list_spec; [done|]|].
  - intros ->. specialize (Hlen2 eq_refl). simpl in *. rewrite Happ, Hlen2. simpl. rewrite Hlw.
    assert (NoDup hs) as Hndh by (apply NoDup_app in Hnd; tauto).
    rewrite (length_without x hs Hndh), Hh.
    replace (S (length (hs ++ cs) - 1)) with (length (hs ++ cs)) by lia.
    case_bool_decide as Hnil.
    + rewrite Hnil in Hlw. simpl in Hlw. replace (length (hs ++ cs)) with 1%nat by lia. auto.
    + case_bool_decide as Hin; [|lia].
      assert (0 < length hs)%nat by (destruct hs; [set_solver|simpl; lia]). lia.
  - intros _ s3 [H1 H2]. rewrite Happ in H1, H2. split; [done|by apply Hfr].
Qed.

Lemma ocf_lru_move_list s r1 r2 t1 t2 l1 l2 x :
  lru_list_is s r1 t1 l1 -> lru_list_is s r2 t2 l2 -> r1 <> r2 -> x ∈ l1 -> x <> end_marker ->
  (forall y, y ∈ l1 -> y ∉ l2) -> Z.of_nat (length l2) + 1 < 2 ^ 31 ->
  wp (ocf_lru_move x r1 r2) (fun _ s' =>
    lru_list_is s' r1 t1 (without x l1) /\ lru_list_is s' r2 t2 (x :: l2) /\
    (forall y, y ∉ l1 ++ l2 -> metas s' !! y = metas s !! y) /\
    (forall r, r <> r1 -> r <> r2 -> lists s' !! r = lists s !! r) /\
    (forall y, is_Some (metas s' !! y) <-> is_Some (metas s !! y))) s.
Proof.
  intros H1 H2 Hr Hx Hne Hdis Hlen. unfold ocf_lru_move. wp_step.
  eapply wp_mono; [by apply remove_lru_list_list|]. intros _ s1 (Hl1 & Hm1 & Hf1).
  assert (lru_list_is s1 r2 t2 l2) as Hl2.
  { unfold lru_list_is in *. eapply lru_rep_frame; [done|done| |done].
    rewrite take_drop. intros y Hy Hy'. by eapply Hdis. }
  eapply wp_mono; [apply add_lru_head_list; [done|by eexists|done|by apply Hdis|done]|].
  intros _ s2 (Hl2' & Hf2). split_and!; [|done|..].
  - unfold lru_list_is in *. eapply lru_rep_frame; [done|congruence| |done].
    rewrite take_drop. intros y [Hy Hyx]%elem_of_without. pose proof (Hdis y Hy). set_solver.
  - intros y Hy. rewrite (proj1 Hf2), (proj1 Hf1); set_solver.
  - intros r Hr1 Hr2. rewrite (proj1 (proj2 Hf2)), (proj1 (proj2 Hf1)) by done. done.
  - intros y. rewrite (proj2 (proj2 Hf2)), (proj2 (proj2 Hf1)). done.
Qed.

(** ** All the lists together

    [entries] is the number of cache lines and [track r] says whether list [r]
    keeps a hot half.  The abstract state is one sequence of lines per list, the
    most recently used first. *)

Abbreviation lru_abs := (gmap list_ref (list Z)).

Definition spec_add (r : list_ref) (x : Z) (L : lru_abs) : lru_abs := alter (cons x) r L.
Definition spec_remove (r : list_ref) (x : Z) (L : lru_abs) : lru_abs := alter (without x) r L.
Definition spec_hot (r : list_ref) (x : Z) (L : lru_abs) : lru_abs :=
  alter (fun l => x :: without x l) r L.
Definition spec_move (x : Z) (r1 r2 : list_ref) (L : lru_abs) : lru_abs :=
  spec_add r2 x (spec_remove r1 x L).

(** [x] is on no list. *)
Definition off_lists (L : lru_abs) (x : Z) : Prop := forall r l, L !! r = Some l -> x ∉ l.
Definition on_list (L : lru_abs) (r : list_ref) (x : Z) : Prop := exists l, L !! r = Some l /\ x ∈ l.

Record lru_inv (entries : Z) (track : list_ref -> bool) (s : lru_state) (L : lru_abs) : Prop := {
  inv_list r l : L !! r = Some l -> lru_list_is s r (track r) l;
  inv_dom r : is_Some (lists s !! r) <-> is_Some (L !! r);
  inv_disjoint r1 r2 l1 l2 x : L !! r1 = Some l1 -> L !! r2 = Some l2 -> x ∈ l1 -> x ∈ l2 -> r1 = r2;
  inv_range x : is_Some (metas s !! x) <-> 0 <= x < entries;
  inv_entries : 0 <= entries < 2 ^ 31;
}.

Section inv.
Context {entries : Z} {track : list_ref -> bool}.
#[local] Abbreviation inv := (lru_inv entries track).

Lemma inv_elem s L r l x : inv s L -> L !! r = Some l -> x ∈ l -> 0 <= x < entries.
Proof.
  intros Hi Hl Hx. apply (inv_range _ _ _ _ Hi). pose proof (inv_list _ _ _ _ Hi _ _ Hl) as Hli.
  apply list_is_fields in Hli as [Hd _]. by eapply dll_dom.
Qed.

Lemma inv_not_end s L x : inv s L -> 0 <= x < entries -> x <> end_marker.
Proof. intros Hi Hx ->. pose proof (inv_entries _ _ _ _ Hi). unfold end_marker in Hx. lia. Qed.

(** There is room for a line that is on no list. *)
Lemma inv_room s L r l x :
  inv s L -> L !! r = Some l -> 0 <= x < entries -> x ∉ l -> Z.of_nat (length l) + 1 < 2 ^ 31.
Proof.
  intros Hi Hl Hx Hnin. pose proof (inv_entries _ _ _ _ Hi).
  pose proof (inv_list _ _ _ _ Hi _ _ Hl) as Hli. apply list_is_fields in Hli as [Hd _].
  assert (Z.of_nat (length (x :: l)) <= Z.max 0 entries) as Hle; [|simpl in Hle; lia].
  apply NoDup_range_length.
  - constructor; [done|by eapply dll_nodup].
  - intros y [->|Hy]%elem_of_cons; [done|]. by eapply inv_elem.
Qed.

(** A change of one list preserves the invariant when the lines it uses are
    its own or on no list. *)
Lemma inv_update s s' L r l l' :
  inv s L -> L !! r = Some l -> lru_list_is s' r (track r) l' -> lru_frame s s' r (l ++ l') ->
  (forall x, x ∈ l' -> x ∈ l \/ off_lists L x) -> inv s' (<[r := l']> L).
Proof.
  intros Hi Hl Hl' (Hf1 & Hf2 & Hf3) Hnew. split.
  - intros r' k. rewrite lookup_insert. case_decide as Hr; [intros [= ->]; by subst|]. intros Hk.
    pose proof (inv_list _ _ _ _ Hi _ _ Hk) as Hk'. unfold lru_list_is in *.
    eapply lru_rep_frame; [by split_and!|congruence| |done].
    rewrite take_drop. intros x Hx [Hxl|Hxl]%elem_of_app.
    + apply Hr. by eapply (inv_disjoint _ _ _ _ Hi).
    + destruct (Hnew x Hxl) as [Hx'|Hoff]; [|by eapply Hoff].
      apply Hr. by eapply (inv_disjoint _ _ _ _ Hi).
  - intros r'. destruct (decide (r = r')) as [<-|Hr].
    + rewrite lookup_insert_eq. apply list_is_fields in Hl' as (_ & _ & f & Hf & _).
      rewrite Hf. split; intros _; by eexists.
    + rewrite Hf2 by congruence. rewrite lookup_insert_ne by congruence. apply (inv_dom _ _ _ _ Hi).
  - intros r1 r2 l1 l2 x.
    destruct (decide (r = r1)) as [<-|], (decide (r = r2)) as [<-|];
      rewrite ?lookup_insert_eq, ?lookup_insert_ne by done;
      [done| | |by apply (inv_disjoint _ _ _ _ Hi)].
    + intros [= <-] H2 Hx1 Hx2. destruct (Hnew x Hx1) as [Hx'|Hoff]; [|by destruct (Hoff _ _ H2)].
      by eapply (inv_disjoint _ _ _ _ Hi).
    + intros H1 [= <-] Hx1 Hx2. destruct (Hnew x Hx2) as [Hx'|Hoff]; [|by destruct (Hoff _ _ H1)].
      by eapply (inv_disjoint _ _ _ _ Hi).
  - intros x. rewrite Hf3. apply (inv_range _ _ _ _ Hi).
  - apply (inv_entries _ _ _ _ Hi).
Qed.

Lemma alter_insert (L : lru_abs) f r l : L !! r = Some l -> alter f r L = <[r := f l]> L.
Proof. intros Hl. map_pointwise. by rewrite Hl. Qed.

Lemma add_lru_head_inv s L r x :
  inv s L -> is_Some (L !! r) -> 0 <= x < entries -> off_lists L x ->
  wp (add_lru_head r x) (fun _ s' => inv s' (spec_add r x L)) s.
Proof.
  intros Hi [l Hl] Hx Hoff. pose proof (Hoff _ _ Hl) as Hnin.
  eapply wp_mono; [apply add_lru_head_list|].
  - by eapply inv_list.
  - by apply (inv_range _ _ _ _ Hi).
  - by eapply inv_not_end.
  - done.
  - by eapply inv_room.
  - intros _ s' [Hl' Hf]. unfold spec_add. rewrite (alter_insert _ _ _ l) by done.
    eapply inv_update; [done..| |].
    + destruct Hf as (Hf1 & Hf2). split; [|done]. intros y Hy. apply Hf1. set_solver.
    + intros y [->|Hy]%elem_of_cons; auto.
Qed.

Lemma remove_lru_list_inv s L r x :
  inv s L -> on_list L r x ->
  wp (remove_lru_list r x) (fun _ s' => inv s' (spec_remove r x L) /\
    metas s' !! x = Some (mkLruMeta end_marker end_marker false)) s.
Proof.
  intros Hi (l & Hl & Hx).
  eapply wp_mono; [eapply remove_lru_list_list; [by eapply inv_list|done]|].
  intros _ s' (Hl' & Hm & Hf). split; [|done]. unfold spec_remove. rewrite (alter_insert _ _ _ l) by done.
  eapply inv_update; [done..| |].
  - destruct Hf as (Hf1 & Hf2). split; [|done]. intros y Hy. apply Hf1. set_solver.
  - intros y [Hy _]%elem_of_without. auto.
Qed.

Lemma ocf_lru_set_hot_inv s L r x :
  inv s L -> on_list L r x ->
  wp (ocf_lru_set_hot r x) (fun _ s' => inv s' (spec_hot r x L)) s.
Proof.
  intros Hi (l & Hl & Hx). pose proof (inv_elem _ _ _ _ _ Hi Hl Hx) as Hr.
  eapply wp_mono; [eapply ocf_lru_set_hot_list; [by eapply inv_list|done|by eapply inv_not_end]|].
  intros _ s' (Hl' & Hf). unfold spec_hot. rewrite (alter_insert _ _ _ l) by done.
  eapply inv_update; [done..| |].
  - destruct Hf as (Hf1 & Hf2). split; [|done]. intros y Hy. apply Hf1. set_solver.
  - intros y [->|[Hy _]%elem_of_without]%elem_of_cons; auto.
Qed.

Lemma off_after_remove s L r x : inv s L -> on_list L r x -> off_lists (spec_remove r x L) x.
Proof.
  intros Hi (l & Hl & Hx) r' l'. unfold spec_remove. rewrite (alter_insert _ _ _ l) by done.
  rewrite lookup_insert. case_decide as Hr; [intros [= <-]; rewrite elem_of_without; tauto|].
  intros Hl' Hx'. apply Hr. by eapply (inv_disjoint _ _ _ _ Hi).
Qed.

Lemma ocf_lru_move_inv s L r1 r2 x :
  inv s L -> on_list L r1 x -> is_Some (L !! r2) ->
  wp (ocf_lru_move x r1 r2) (fun _ s' => inv s' (spec_move x r1 r2 L)) s.
Proof.
  intros Hi Hon Hr2. pose proof Hon as (l & Hl & Hx).
  unfold ocf_lru_move. wp_step. eapply wp_mono; [by apply remove_lru_list_inv|].
  intros _ s1 [Hi1 _]. eapply wp_mono; [apply add_lru_head_inv; [done|..]|done].
  - unfold spec_remove. by rewrite is_Some_alter.
  - by eapply (inv_elem s L).
  - by eapply off_after_remove.
Qed.
End inv.

(** ** Sequences of operations *)

(** Lists that were just initialised are empty. *)
Lemma lru_inv_empty entries track s :
  (forall r f, lists s !! r = Some f -> f = mkLruList 0 end_marker end_marker 0 end_marker (track r)) ->
  (forall x, is_Some (metas s !! x) <-> 0 <= x < entries) -> 0 <= entries < 2 ^ 31 ->
  lru_inv entries track s ((fun _ => []) <$> lists s).
Proof.
  intros Hf Hr He. split; [| |intros r1 r2 l1 l2 x|done..].
  - intros r l. rewrite lookup_fmap. destruct (lists s !! r) as [f|] eqn:Hl; [|done].
    intros [= <-]. unfold lru_list_is. rewrite take_nil, drop_nil.
    split; [by rewrite Hl, (Hf _ _ Hl)|apply dll_nil_list|set_solver..|done|done].
  - intros r. rewrite lookup_fmap. by rewrite fmap_is_Some.
  - rewrite lookup_fmap. destruct (lists s !! r1); [|done]. intros [= <-]. set_solver.
Qed.

Inductive lru_op :=
  | OpAdd (r : list_ref) (x : Z)
  | OpRemove (r : list_ref) (x : Z)
  | OpHot (r : list_ref) (x : Z)
  | OpMove (x : Z) (r1 r2 : list_ref).

Definition run_op (o : lru_op) : M lru_state unit :=
  match o with
  | OpAdd r x => add_lru_head r x
  | OpRemove r x => remove_lru_list r x
  | OpHot r x => ocf_lru_set_hot r x
  | OpMove x r1 r2 => ocf_lru_move x r1 r2
  end.

Fixpoint run_ops (os : list lru_op) : M lru_state unit :=
  match os with
  | [] => mret tt
  | o :: os => run_op o;; run_ops os
  end.

Definition off_listsb (L : lru_abs) (x : Z) : bool :=
  forallb (fun rl : list_ref * list Z => bool_decide (x ∉ rl.2)) (map_to_list L).
Definition on_listb (L : lru_abs) (r : list_ref) (x : Z) : bool :=
  match L !! r with Some l => bool_decide (x ∈ l) | None => false end.
Definition has_list (L : lru_abs) (r : list_ref) : bool := bool_decide (is_Some (L !! r)).

(** The abstract effect of an operation, [None] when its caller may not call it. *)
Definition spec_op (entries : Z) (o : lru_op) (L : lru_abs) : option lru_abs :=
  match o with
  | OpAdd r x =>
      if has_list L r && off_listsb L x && (0 <=? x) && (x <? entries) then Some (spec_add r x L) else None
  | OpRemove r x => if on_listb L r x then Some (spec_remove r x L) else None
  | OpHot r x => if on_listb L r x then Some (spec_hot r x L) else None
  | OpMove x r1 r2 =>
      if on_listb L r1 x && has_list L r2 then Some (spec_move x r1 r2 L) else None
  end.

Fixpoint spec_ops (entries : Z) (os : list lru_op) (L : lru_abs) : option lru_abs :=
  match os with
  | [] => Some L
  | o :: os => L' ← spec_op entries o L; spec_ops entries os L'
  end.

Lemma off_listsb_spec L x : off_listsb L x = true -> off_lists L x.
Proof.
  unfold off_listsb. rewrite forallb_forall. intros H r l Hl.
  specialize (H (r, l)). apply bool_decide_eq_true in H; [done|].
  apply list_elem_of_In, elem_of_map_to_list. done.
Qed.

Lemma on_listb_spec L r x : on_listb L r x = true -> on_list L r x.
Proof.
  unfold on_listb, on_list. destruct (L !! r) as [l|]; [|done].
  intros H%bool_decide_eq_true. by exists l.
Qed.

Lemma run_op_inv entries track s L o L' :
  lru_inv entries track s L -> spec_op entries o L = Some L' ->
  wp (run_op o) (fun _ s' => lru_inv entries track s' L') s.
Proof.
  intros Hi. destruct o as [r x|r x|r x|x r1 r2]; simpl; intros Hs;
    match type of Hs with (if ?b then _ else _) = _ => destruct b eqn:Hb; [|done] end;
    injection Hs as <-; rewrite ?andb_true_iff in Hb.
  - destruct Hb as (((H1%bool_decide_eq_true & H2%off_listsb_spec) & H3) & H4).
    apply add_lru_head_inv; [done..|lia|done].
  - apply on_listb_spec in Hb. eapply wp_mono; [by eapply remove_lru_list_inv|]. by intros _ s' [? _].
  - apply on_listb_spec in Hb. by apply ocf_lru_set_hot_inv.
  - destruct Hb as [H1%on_listb_spec H2%bool_decide_eq_true]. by apply ocf_lru_move_inv.
Qed.

Lemma run_ops_inv entries track s L os L' :
  lru_inv entries track s L -> spec_ops entries os L = Some L' ->
  wp (run_ops os) (fun _ s' => lru_inv entries track s' L') s.
Proof.
  revert s L. induction os as [|o os IH]; intros s L Hi Hs; simpl in Hs |- *.
  - apply wp_ret. by simplify_eq.
  - apply bind_Some in Hs as (L1 & H1 & H2). wp_step.
    eapply wp_mono; [by eapply run_op_inv|]. simpl. intros _ s1 Hi1. eapply IH; done.
Qed.

(** What a list with content [l] looks like from outside. *)
Definition list_view (s : lru_state) (r : list_ref) : option (Z * Z * Z * Z * Z * bool) :=
  (fun f => (num_nodes f, l_head f, l_tail f, num_hot f, last_hot f, track_hot f)) <$> lists s !! r.

Definition hot_bit (s : lru_state) (x : Z) : option bool := hot_of (metas s) x.

(** C8: any sequence of insertions, removals, promotions and moves, performed
    on lists in a consistent state and allowed by the abstract lists (a line is
    added only when it is on no list, removed or promoted only when it is on the
    list), runs to its end without any of the consistency checks firing, and
    leaves the linked lists equal to the abstract ones: same order, exact
    counters, head and tail, and the hot half marked. *)
Theorem lru_operations_refine entries track s L os L' :
  lru_inv entries track s L -> spec_ops entries os L = Some L' ->
  exists s', run_ops os s = Some (tt, s') /\ lru_inv entries track s' L'.
Proof.
  intros Hi Hs. destruct (run_ops_inv _ _ _ _ _ _ Hi Hs) as ([] & s' & Hr & Hi'). by exists s'.
Qed.

(** In a consistent state, a list that tracks its hot elements counts
    exactly half of its elements (rounded down) as hot, remembers the last of
    them, and the hot bit of a line on it is set exactly for the lines in this
    first half; a list that does not track them has no hot element. *)
Theorem hot_half entries track s L r l :
  lru_inv entries track s L -> L !! r = Some l ->
  let h := if track r then (length l / 2)%nat else 0%nat in
  list_view s r = Some (Z.of_nat (length l), hd_or end_marker l, last_or end_marker l,
                        Z.of_nat h, last_or end_marker (take h l), track r) /\
  (forall i x, l !! i = Some x -> hot_bit s x = Some (bool_decide (i < h)%nat)).
Proof.
  intros Hi Hl h. pose proof (inv_list _ _ _ _ Hi _ _ Hl) as Hli.
  apply list_is_app in Hli as Hsplit. destruct Hsplit as (hs & cs & Happ & Hrep & Hh).
  assert (h = length hs) as Hhh by (rewrite Hh; unfold h, hot_target; by destruct (track r)).
  rewrite Hhh, Happ. split.
  - unfold list_view. rewrite (rep_list _ _ _ _ _ Hrep). simpl. by rewrite take_app_length.
  - intros i x Hx. case_bool_decide as Hi'.
    + rewrite lookup_app_l in Hx by done. apply (rep_hot _ _ _ _ _ Hrep). by eapply list_elem_of_lookup_2.
    + rewrite lookup_app_r in Hx by lia. apply (rep_cold _ _ _ _ _ Hrep). by eapply list_elem_of_lookup_2.
Qed.

(** ** Witnesses: a cache of eight lines with a free list and a tracked one *)

Definition wit_lists : gmap list_ref ocf_lru_list :=
  {[ (34, 0, true) := mkLruList 0 end_marker end_marker 0 end_marker false;
     (0, 0, true) := mkLruList 0 end_marker end_marker 0 end_marker true ]}.

Definition wit_state : lru_state :=
  mkLru (zarray 8 (fun _ => mkLruMeta 0 0 false)) wit_lists.

Definition wit_track (r : list_ref) : bool := negb (r.1.1 =? 34).

Lemma wit_inv : lru_inv 8 wit_track wit_state ((fun _ => []) <$> wit_lists).
Proof.
  apply lru_inv_empty; [| |lia].
  - intros r f. simpl. unfold wit_lists.
    intros [[<- <-]|[_ [<- <-]%lookup_singleton_Some]]%lookup_insert_Some; done.
  - intros x. apply zarray_is_Some.
Qed.

Definition wit_ops : list lru_op :=
  [OpAdd (34, 0, true) 3; OpAdd (34, 0, true) 5; OpAdd (34, 0, true) 6;
   OpMove 3 (34, 0, true) (0, 0, true); OpMove 6 (34, 0, true) (0, 0, true);
   OpMove 5 (34, 0, true) (0, 0, true); OpHot (0, 0, true) 3; OpRemove (0, 0, true) 6].

Lemma lru_operations_refine_witness :
  exists s', run_ops wit_ops wit_state = Some (tt, s') /\
    lru_inv 8 wit_track s' {[ (34, 0, true) := []; (0, 0, true) := [3; 5] ]}.
Proof. apply (lru_operations_refine 8 wit_track wit_state _ wit_ops _ wit_inv).
  decide_vm.
Defined.

Lemma hot_half_witness :
  exists s', run_ops wit_ops wit_state = Some (tt, s') /\
    list_view s' (0, 0, true) = Some (2, 3, 5, 1, 3, true).
Proof.
  destruct (run_ops_inv 8 wit_track wit_state _ wit_ops
    {[ (34, 0, true) := []; (0, 0, true) := [3; 5] ]} wit_inv
    ltac:(decide_vm))
    as ([] & s' & Hr & Hi').
  exists s'. split; [exact Hr|]. apply (hot_half 8 wit_track s' _ (0, 0, true) [3; 5] Hi').
  vm_compute. reflexivity.
Defined.
