(* ===== verification/Meta.v ===== *)
(** Cache-line metadata: the tables of ocf/src/metadata and their accessors.

    One entry per cache line holds the core line it maps, the sector status
    words, the collision links and the partition; the hash table holds the heads
    of the collision lists.  The status operations are those of metadata_bit.h,
    metadata_status.h and the dispatch on the cache line size of metadata.c.
    A table is a finite map from indices: an access outside it is the
    [ENV_BUG_ON] of [_raw_ram_access] and [_raw_bug_on]. *)

From S2P Require Import Prelude.

Definition KiB : Z := 1024.
Definition OCF_CORE_MAX : Z := 4096.
Definition OCF_CORE_ID_INVALID : Z := OCF_CORE_MAX.
Definition ULLONG_MAX : Z := 2 ^ 64 - 1.
Definition OCF_USER_IO_CLASS_MAX : Z := 33.
Definition PARTITION_DEFAULT : Z := 0.
Definition PARTITION_UNSPECIFIED : Z := u16 (-1).
Definition PARTITION_FREELIST : Z := OCF_USER_IO_CLASS_MAX + 1.

Definition BYTES_TO_SECTORS (x : Z) : Z := Z.shiftr x 9.
Definition OCF_DIV_ROUND_UP (x y : Z) : Z := (x + y - 1) `div` y.

(** What is fixed while the cache is attached: the sizes of the tables, the
    cache line size and the layout of the collision segment on the device. *)
Record config := mkConfig {
  collision_table_entries : Z;
  hash_table_entries : Z;
  line_size : Z;
  layout : Z;
  entries_in_page : Z;
}.

(** [ocf_metadata_config_init] *)
Definition sector_count (cfg : config) : Z := BYTES_TO_SECTORS (line_size cfg).
Definition sector_start (cfg : config) : Z := 0.
Definition sector_end (cfg : config) : Z := sector_count cfg - 1.

Definition ssd_pages (cfg : config) : Z :=
  OCF_DIV_ROUND_UP (collision_table_entries cfg) (entries_in_page cfg).

Record ocf_metadata_map := mkMap {
  core_line : Z;
  core_id : Z;
  valid : Z;
  dirty : Z;
}.

Record ocf_metadata_list_info := mkInfo {
  prev_col : Z;
  next_col : Z;
  partition_id : Z;
}.

Record meta_state := mkMeta {
  maps : gmap Z ocf_metadata_map;
  infos : gmap Z ocf_metadata_list_info;
  hash : gmap Z Z;
}.

Definition set_maps f (s : meta_state) : meta_state := mkMeta (f (maps s)) (infos s) (hash s).
Definition set_infos f (s : meta_state) : meta_state := mkMeta (maps s) (f (infos s)) (hash s).
Definition set_hash f (s : meta_state) : meta_state := mkMeta (maps s) (infos s) (f (hash s)).

(** ** Raw access *)

Definition rd_map (line : Z) : M meta_state ocf_metadata_map := fun s =>
  (fun m => (m, s)) <$> maps s !! line.
Definition rd_info (line : Z) : M meta_state ocf_metadata_list_info := fun s =>
  (fun m => (m, s)) <$> infos s !! line.
Definition upd_map (line : Z) (f : ocf_metadata_map -> ocf_metadata_map) : M meta_state unit := fun s =>
  match maps s !! line with Some _ => Some (tt, set_maps (alter f line) s) | None => None end.
Definition upd_info (line : Z) (f : ocf_metadata_list_info -> ocf_metadata_list_info) :
    M meta_state unit := fun s =>
  match infos s !! line with Some _ => Some (tt, set_infos (alter f line) s) | None => None end.

(** ** Core, partition and hash accessors *)

Definition ocf_metadata_get_core_info (line : Z) : M meta_state (Z * Z) :=
  collision ← rd_map line;
  mret (core_id collision, core_line collision).

Definition ocf_metadata_set_core_info (line core_id' core_sector : Z) : M meta_state unit :=
  upd_map line (fun m => mkMap core_sector (u16 core_id') (valid m) (dirty m)).

Definition ocf_metadata_get_core_id (line : Z) : M meta_state Z :=
  collision ← rd_map line;
  mret (core_id collision).

Definition ocf_metadata_get_partition_id (line : Z) : M meta_state Z :=
  info ← rd_info line;
  mret (partition_id info).

(** The field has eight bits. *)
Definition ocf_metadata_set_partition_id (line part_id : Z) : M meta_state unit :=
  upd_info line (fun i => mkInfo (prev_col i) (next_col i) (u8 part_id)).

Definition ocf_metadata_get_core_and_part_id (line : Z) : M meta_state (Z * Z) :=
  collision ← rd_map line;
  info ← rd_info line;
  mret (core_id collision, partition_id info).

Definition ocf_metadata_get_hash (index : Z) : M meta_state Z := fun s =>
  (fun l => (l, s)) <$> hash s !! index.
Definition ocf_metadata_set_hash (index line : Z) : M meta_state unit := fun s =>
  match hash s !! index with
  | Some _ => Some (tt, set_hash (<[index := line]>) s)
  | None => None
  end.

(** [core_line + core_id * (entries / 32)] in the widths of the code. *)
Definition ocf_metadata_hash_func (cfg : config) (core_line_num core_id' : Z) : Z :=
  let entries := hash_table_entries cfg in
  u64 (core_line_num + u32 (core_id' * (entries `div` 32))) `mod` entries.

(** ** Sector status words *)

Definition _get_mask (start stop : Z) : option Z :=
  if (64 <=? start) || (64 <=? stop) || (stop <? start) then None
  else
    let mask := 2 ^ 64 - 1 in
    let mask := Z.shiftr mask (start + (63 - stop)) in
    Some (u64 (Z.shiftl mask start)).

Definition _get_mask_u128 (start stop : Z) : option Z :=
  if (128 <=? start) || (128 <=? stop) || (stop <? start) then None
  else
    let mask := 2 ^ 128 - 1 in
    let mask := Z.shiftr mask (start + (127 - stop)) in
    Some (Z.shiftl mask start `mod` 2 ^ 128).

(** [_get_mask_##type], assigned to a variable of the type: [w] is its width. *)
Definition get_mask (w start stop : Z) : option Z :=
  if w =? 128 then _get_mask_u128 start stop
  else (fun m => m `mod` 2 ^ w) <$> _get_mask start stop.

(** The two status words: the argument [what] of the macros. *)
Inductive status_word := Dirty | Valid.
#[export] Instance status_word_eq_dec : EqDecision status_word.
Proof. solve_decision. Defined.

Definition get_what (what : status_word) (m : ocf_metadata_map) : Z :=
  match what with Dirty => dirty m | Valid => valid m end.
Definition set_what (what : status_word) (v : Z) (m : ocf_metadata_map) : ocf_metadata_map :=
  match what with
  | Dirty => mkMap (core_line m) (core_id m) (valid m) v
  | Valid => mkMap (core_line m) (core_id m) v (dirty m)
  end.

Definition test_mask (word mask : Z) (all : bool) : bool :=
  if all then mask =? Z.land word mask else negb (Z.land word mask =? 0).

Definition _ocf_metadata_test (what : status_word) (w line start stop : Z) (all : bool) :
    M meta_state bool :=
  mask ← lift (get_mask w start stop);
  m ← rd_map line;
  mret (test_mask (get_what what m) mask all).

Definition _ocf_metadata_test_out (what : status_word) (w line start stop : Z) : M meta_state bool :=
  mask ← lift (get_mask w start stop);
  m ← rd_map line;
  mret (negb (Z.land (get_what what m) (Z.lnot mask) =? 0)).

Definition _ocf_metadata_clear (what : status_word) (w line start stop : Z) : M meta_state bool :=
  mask ← lift (get_mask w start stop);
  upd_map line (fun m => set_what what (Z.land (get_what what m) (Z.lnot mask)) m);;
  m ← rd_map line;
  mret (negb (get_what what m =? 0)).

Definition _ocf_metadata_set (what : status_word) (w line start stop : Z) : M meta_state bool :=
  mask ← lift (get_mask w start stop);
  m ← rd_map line;
  let result := negb (get_what what m =? 0) in
  upd_map line (fun m => set_what what (Z.lor (get_what what m) mask) m);;
  mret result.

Definition _ocf_metadata_test_and_set (what : status_word) (w line start stop : Z) (all : bool) :
    M meta_state bool :=
  mask ← lift (get_mask w start stop);
  m ← rd_map line;
  let test := test_mask (get_what what m) mask all in
  upd_map line (fun m => set_what what (Z.lor (get_what what m) mask) m);;
  mret test.

Definition _ocf_metadata_test_and_clear (what : status_word) (w line start stop : Z) (all : bool) :
    M meta_state bool :=
  mask ← lift (get_mask w start stop);
  m ← rd_map line;
  let test := test_mask (get_what what m) mask all in
  upd_map line (fun m => set_what what (Z.land (get_what what m) (Z.lnot mask)) m);;
  mret test.

Definition _ocf_metadata_check (line : Z) : M meta_state bool :=
  m ← rd_map line;
  mret (Z.land (dirty m) (Z.lnot (valid m)) =? 0).

(** The switch on the cache line size: the width of the status words. *)
Definition word_bits (cfg : config) : option Z :=
  if line_size cfg =? 4 * KiB then Some 8
  else if line_size cfg =? 8 * KiB then Some 16
  else if line_size cfg =? 16 * KiB then Some 32
  else if line_size cfg =? 32 * KiB then Some 64
  else if line_size cfg =? 64 * KiB then Some 128
  else None.

Section dispatch.
Variable cfg : config.

Definition ocf_metadata_test (what : status_word) (line start stop : Z) (all : bool) : M meta_state bool :=
  w ← lift (word_bits cfg); _ocf_metadata_test what w line start stop all.
Definition ocf_metadata_test_out (what : status_word) (line start stop : Z) : M meta_state bool :=
  w ← lift (word_bits cfg); _ocf_metadata_test_out what w line start stop.
Definition ocf_metadata_clear (what : status_word) (line start stop : Z) : M meta_state bool :=
  w ← lift (word_bits cfg); _ocf_metadata_clear what w line start stop.
Definition ocf_metadata_set (what : status_word) (line start stop : Z) : M meta_state bool :=
  w ← lift (word_bits cfg); _ocf_metadata_set what w line start stop.
Definition ocf_metadata_test_and_set (what : status_word) (line start stop : Z) (all : bool) :
    M meta_state bool :=
  w ← lift (word_bits cfg); _ocf_metadata_test_and_set what w line start stop all.
Definition ocf_metadata_test_and_clear (what : status_word) (line start stop : Z) (all : bool) :
    M meta_state bool :=
  w ← lift (word_bits cfg); _ocf_metadata_test_and_clear what w line start stop all.
Definition ocf_metadata_check (line : Z) : M meta_state bool :=
  _ ← lift (word_bits cfg); _ocf_metadata_check line.

(** ** metadata_status.h *)

Definition first8 : Z := u8 (sector_start cfg).
Definition last8 : Z := u8 (sector_end cfg).

Definition metadata_init_status_bits (line : Z) : M meta_state unit :=
  _ ← ocf_metadata_clear Dirty line first8 last8;
  _ ← ocf_metadata_clear Valid line first8 last8;
  mret tt.

Definition metadata_test_dirty_all (line : Z) : M meta_state bool :=
  ocf_metadata_test Dirty line first8 last8 true.
Definition metadata_test_dirty (line : Z) : M meta_state bool :=
  ocf_metadata_test Dirty line first8 last8 false.
Definition metadata_set_dirty (line : Z) : M meta_state unit :=
  _ ← ocf_metadata_set Dirty line first8 last8; mret tt.
Definition metadata_clear_dirty (line : Z) : M meta_state unit :=
  _ ← ocf_metadata_clear Dirty line first8 last8; mret tt.
Definition metadata_test_and_clear_dirty (line : Z) : M meta_state bool :=
  ocf_metadata_test_and_clear Dirty line first8 last8 false.
Definition metadata_test_and_set_dirty (line : Z) : M meta_state bool :=
  ocf_metadata_test_and_set Dirty line first8 last8 false.

Definition metadata_test_dirty_sec (line start stop : Z) : M meta_state bool :=
  ocf_metadata_test Dirty line start stop false.
Definition metadata_test_dirty_all_sec (line start stop : Z) : M meta_state bool :=
  ocf_metadata_test Dirty line start stop true.
Definition metadata_test_dirty_one (line pos : Z) : M meta_state bool :=
  metadata_test_dirty_sec line pos pos.
Definition metadata_test_dirty_out_sec (line start stop : Z) : M meta_state bool :=
  ocf_metadata_test_out Dirty line start stop.
Definition metadata_set_dirty_sec (line start stop : Z) : M meta_state unit :=
  _ ← ocf_metadata_set Dirty line start stop; mret tt.
Definition metadata_clear_dirty_sec (line start stop : Z) : M meta_state unit :=
  _ ← ocf_metadata_clear Dirty line start stop; mret tt.
Definition metadata_set_dirty_sec_one (line pos : Z) : M meta_state unit :=
  _ ← ocf_metadata_set Dirty line pos pos; mret tt.
Definition metadata_clear_dirty_sec_one (line pos : Z) : M meta_state unit :=
  _ ← ocf_metadata_clear Dirty line pos pos; mret tt.
Definition metadata_test_and_clear_dirty_sec (line start stop : Z) : M meta_state bool :=
  ocf_metadata_test_and_clear Dirty line start stop false.

(** Returns [(sec_changed, line_is_clean)]. *)
Definition metadata_clear_dirty_sec_changed (line start stop : Z) : M meta_state (bool * bool) :=
  sec_changed ← ocf_metadata_test Dirty line start stop false;
  r ← ocf_metadata_clear Dirty line start stop;
  mret (sec_changed, negb r).

(** Returns [(sec_changed, line_was_dirty)]. *)
Definition metadata_set_dirty_sec_changed (line start stop : Z) : M meta_state (bool * bool) :=
  t ← ocf_metadata_test Dirty line start stop true;
  line_was_dirty ← ocf_metadata_set Dirty line start stop;
  mret (negb t, line_was_dirty).

Definition metadata_test_valid_any (line : Z) : M meta_state bool :=
  ocf_metadata_test Valid line first8 last8 false.
Definition metadata_test_valid (line : Z) : M meta_state bool :=
  ocf_metadata_test Valid line first8 last8 true.
Definition metadata_set_valid (line : Z) : M meta_state unit :=
  _ ← ocf_metadata_set Valid line first8 last8; mret tt.
Definition metadata_clear_valid (line : Z) : M meta_state unit :=
  _ ← ocf_metadata_clear Valid line first8 last8; mret tt.
Definition metadata_test_and_clear_valid (line : Z) : M meta_state bool :=
  ocf_metadata_test_and_clear Valid line first8 last8 true.
Definition metadata_test_and_set_valid (line : Z) : M meta_state bool :=
  ocf_metadata_test_and_set Valid line first8 last8 true.

Definition metadata_test_valid_sec (line start stop : Z) : M meta_state bool :=
  ocf_metadata_test Valid line start stop true.
Definition metadata_test_valid_any_out_sec (line start stop : Z) : M meta_state bool :=
  ocf_metadata_test_out Valid line start stop.
Definition metadata_test_valid_one (line pos : Z) : M meta_state bool :=
  metadata_test_valid_sec line pos pos.
Definition metadata_set_valid_sec_changed (line start stop : Z) : M meta_state bool :=
  r ← ocf_metadata_set Valid line start stop; mret (negb r).
Definition metadata_clear_valid_sec (line start stop : Z) : M meta_state unit :=
  _ ← ocf_metadata_clear Valid line start stop; mret tt.
Definition metadata_clear_valid_sec_one (line pos : Z) : M meta_state unit :=
  _ ← ocf_metadata_clear Valid line pos pos; mret tt.
Definition metadata_set_valid_sec_one (line pos : Z) : M meta_state unit :=
  _ ← ocf_metadata_set Valid line pos pos; mret tt.

(** Returns the result and [is_valid]. *)
Definition metadata_clear_valid_sec_changed (line start stop : Z) : M meta_state (bool * bool) :=
  was_any_valid ← ocf_metadata_test Valid line first8 last8 false;
  is_valid ← ocf_metadata_clear Valid line start stop;
  mret (was_any_valid && negb is_valid, is_valid).

End dispatch.

(** ** What the operations mean for sectors *)

(** Weakest preconditions of the accesses. *)
Lemma wp_rd_map line m Q s : maps s !! line = Some m -> Q m s -> wp (rd_map line) Q s.
Proof. intros Hm HQ. exists m, s. unfold rd_map. by rewrite Hm. Qed.
Lemma wp_rd_info line m Q s : infos s !! line = Some m -> Q m s -> wp (rd_info line) Q s.
Proof. intros Hm HQ. exists m, s. unfold rd_info. by rewrite Hm. Qed.
Lemma wp_upd_map line f Q s :
  is_Some (maps s !! line) -> Q tt (set_maps (alter f line) s) -> wp (upd_map line f) Q s.
Proof. intros [m Hm] HQ. eexists _, _. split; [|done]. unfold upd_map. by rewrite Hm. Qed.
Lemma wp_upd_info line f Q s :
  is_Some (infos s !! line) -> Q tt (set_infos (alter f line) s) -> wp (upd_info line f) Q s.
Proof. intros [m Hm] HQ. eexists _, _. split; [|done]. unfold upd_info. by rewrite Hm. Qed.
Lemma wp_get_hash i l Q s : hash s !! i = Some l -> Q l s -> wp (ocf_metadata_get_hash i) Q s.
Proof. intros Hm HQ. exists l, s. unfold ocf_metadata_get_hash. by rewrite Hm. Qed.
Lemma wp_set_hash i l Q s :
  is_Some (hash s !! i) -> Q tt (set_hash (<[i := l]>) s) -> wp (ocf_metadata_set_hash i l) Q s.
Proof. intros [m Hm] HQ. eexists _, _. split; [|done]. unfold ocf_metadata_set_hash. by rewrite Hm. Qed.

Definition word_width (w : Z) : Prop := w ∈ [8; 16; 32; 64; 128].

Lemma word_bits_width cfg w : word_bits cfg = Some w -> word_width w.
Proof.
  unfold word_bits, word_width. intros Hw.
  repeat match type of Hw with (if ?b then _ else _) = _ => destruct b end; simplify_eq; set_solver.
Qed.

(** The bits [a .. b] of an [n]-bit word of ones. *)
Lemma shifted_ones_bits n a b i :
  0 <= a <= b -> b < n -> 0 <= i ->
  Z.testbit (Z.shiftl (Z.shiftr (2 ^ n - 1) (a + (n - 1 - b))) a `mod` 2 ^ n) i =
  bool_decide (a <= i <= b).
Proof.
  intros Hab Hbn Hi. replace (2 ^ n - 1) with (Z.ones n) by (rewrite Z.ones_equiv; lia).
  destruct (decide (i < n)) as [Hin|Hin].
  - rewrite Z.mod_pow2_bits_low by lia. destruct (decide (a <= i)).
    + rewrite Z.shiftl_spec, Z.shiftr_spec, Z.testbit_ones_nonneg by lia.
      apply eq_true_iff_eq. rewrite bool_decide_eq_true, Z.ltb_lt. lia.
    + rewrite Z.shiftl_spec_low by lia. symmetry. apply bool_decide_eq_false. lia.
  - rewrite Z.mod_pow2_bits_high by lia. symmetry. apply bool_decide_eq_false. lia.
Qed.

Lemma get_mask_bits w a b :
  word_width w -> 0 <= a <= b -> b < w ->
  exists mask, get_mask w a b = Some mask /\ 0 <= mask < 2 ^ w /\
    forall i, 0 <= i -> Z.testbit mask i = bool_decide (a <= i <= b).
Proof.
  intros Hw Hab Hb. unfold get_mask. destruct (Z.eqb_spec w 128) as [->|Hw8].
  - unfold _get_mask_u128.
    replace ((128 <=? a) || (128 <=? b) || (b <? a)) with false by lia.
    eexists. split; [done|]. split; [apply Z.mod_pos_bound; lia|].
    intros i Hi. by apply (shifted_ones_bits 128).
  - assert (w <= 64) as Hw64 
      by (unfold word_width in Hw; rewrite !elem_of_cons, elem_of_nil in Hw; lia).
    unfold _get_mask. replace ((64 <=? a) || (64 <=? b) || (b <? a)) with false by lia.
    simpl. eexists. split; [done|]. split; [apply Z.mod_pos_bound; lia|].
    intros i Hi. destruct (decide (i < w)).
    + rewrite Z.mod_pow2_bits_low by lia. by apply (shifted_ones_bits 64); [|lia|].
    + rewrite Z.mod_pow2_bits_high by lia. symmetry. apply bool_decide_eq_false. lia.
Qed.

(** Some sector, every sector, of [a .. b] has its bit set. *)
Definition any_sector (word a b : Z) : bool := existsb (Z.testbit word) (seqZ a (b - a + 1)).
Definition all_sectors (word a b : Z) : bool := forallb (Z.testbit word) (seqZ a (b - a + 1)).

Lemma any_sector_true word a b : any_sector word a b = true <-> exists i, a <= i <= b /\ Z.testbit word i = true.
Proof.
  unfold any_sector. rewrite existsb_exists. split.
  - intros (i & Hi%list_elem_of_In & Hb). apply elem_of_seqZ in Hi. exists i. split; [lia|done].
  - intros (i & Hi & Hb). exists i. split; [|done]. apply list_elem_of_In, elem_of_seqZ. lia.
Qed.

Lemma all_sectors_true word a b : all_sectors word a b = true <-> forall i, a <= i <= b -> Z.testbit word i = true.
Proof.
  unfold all_sectors. rewrite forallb_forall. split.
  - intros H i Hi. apply H, list_elem_of_In, elem_of_seqZ. lia.
  - intros H i Hi%list_elem_of_In%elem_of_seqZ. apply H. lia.
Qed.

Definition mask_of (mask a b : Z) : Prop :=
  0 <= mask /\ forall i, 0 <= i -> Z.testbit mask i = bool_decide (a <= i <= b).

Lemma land_mask_bits word mask a b i :
  mask_of mask a b -> 0 <= i -> Z.testbit (Z.land word mask) i = bool_decide (a <= i <= b) && Z.testbit word i.
Proof. intros [_ Hm] Hi. by rewrite Z.land_spec, Hm, andb_comm. Qed.

Lemma nonzero_bit x : 0 <= x -> x <> 0 <-> exists i, 0 <= i /\ Z.testbit x i = true.
Proof.
  intros Hx. split.
  - intros Hne. exists (Z.log2 x). split; [apply Z.log2_nonneg|]. apply Z.bit_log2. lia.
  - intros (i & Hi & Hb) ->. by rewrite Z.bits_0 in Hb.
Qed.

Lemma test_mask_spec word mask a b all :
  0 <= word -> 0 <= a -> mask_of mask a b ->
  test_mask word mask all = if all then all_sectors word a b else any_sector word a b.
Proof.
  intros Hw Ha Hm. destruct all; simpl; apply eq_true_iff_eq.
  - rewrite Z.eqb_eq, all_sectors_true. split.
    + intros He i Hi. assert (Z.testbit mask i = true) as Hb.
      { rewrite (proj2 Hm) by lia. by apply bool_decide_eq_true. }
      rewrite He, (land_mask_bits _ _ a b) in Hb by (done || lia). by apply andb_true_iff in Hb as [_ ?].
    + intros Hall. apply Z.bits_inj'. intros i Hi. rewrite (land_mask_bits _ _ a b), (proj2 Hm) by done.
      case_bool_decide as Hin; [|done]. by rewrite Hall.
  - rewrite negb_true_iff, Z.eqb_neq, nonzero_bit by (by apply Z.land_nonneg; left).
    rewrite any_sector_true. split.
    + intros (i & Hi & Hb). rewrite (land_mask_bits _ _ a b) in Hb by done.
      apply andb_true_iff in Hb as [H1%bool_decide_eq_true H2]. by exists i.
    + intros (i & Hi & Hb). exists i. split; [lia|]. rewrite (land_mask_bits _ _ a b) by (done || lia).
      by rewrite bool_decide_eq_true_2, Hb.
Qed.

Lemma word_nonzero w word :
  0 <= word < 2 ^ w -> 0 <= w -> negb (word =? 0) = any_sector word 0 (w - 1).
Proof.
  intros Hw Hw0. apply eq_true_iff_eq.
  rewrite negb_true_iff, Z.eqb_neq, nonzero_bit, any_sector_true by lia. split.
  - intros (i & Hi & Hb). exists i. split; [|done]. split; [done|].
    destruct (decide (i < w)); [lia|]. rewrite <- (Z.mod_small word (2 ^ w)), Z.mod_pow2_bits_high in Hb; [done|lia|lia].
  - intros (i & Hi & Hb). exists i. split; [lia|done].
Qed.

(** A status word after a range was set or cleared. *)
Definition upd_word (b : bool) (word mask : Z) : Z :=
  if b then Z.lor word mask else Z.land word (Z.lnot mask).

Lemma upd_word_bits b word mask x y i :
  mask_of mask x y -> 0 <= i ->
  Z.testbit (upd_word b word mask) i = if bool_decide (x <= i <= y) then b else Z.testbit word i.
Proof.
  intros [_ Hm] Hi. destruct b; simpl.
  - rewrite Z.lor_spec, Hm by done. case_bool_decide; [by rewrite orb_true_r|by rewrite orb_false_r].
  - rewrite Z.land_spec, Z.lnot_spec, Hm by done. case_bool_decide; [by rewrite andb_false_r|by rewrite andb_true_r].
Qed.

Lemma bits_bound w x : 0 <= w -> 0 <= x -> (forall i, w <= i -> Z.testbit x i = false) -> x < 2 ^ w.
Proof.
  intros Hw Hx Hb. destruct (decide (x = 0)) as [->|]; [lia|].
  apply Z.log2_lt_pow2; [lia|]. destruct (decide (Z.log2 x < w)) as [|Hl]; [done|].
  specialize (Hb (Z.log2 x) ltac:(lia)). rewrite Z.bit_log2 in Hb by lia. done.
Qed.

Lemma upd_word_bound b w word mask :
  0 <= w -> 0 <= word < 2 ^ w -> 0 <= mask < 2 ^ w -> 0 <= upd_word b word mask < 2 ^ w.
Proof.
  intros Hw Hx Hm.
  assert (forall z i, 0 <= z < 2 ^ w -> w <= i -> Z.testbit z i = false) as Hhi.
  { intros z i Hz Hi. rewrite <- (Z.mod_small z (2 ^ w)) by done. apply Z.mod_pow2_bits_high. lia. }
  assert (0 <= upd_word b word mask) as H0.
  { destruct b; simpl; [apply Z.lor_nonneg|apply Z.land_nonneg]; [lia|left; lia]. }
  split; [done|]. apply bits_bound; [done..|]. intros i Hi. destruct b; simpl.
  - by rewrite Z.lor_spec, !Hhi.
  - by rewrite Z.land_spec, Hhi.
Qed.

(** The status words of every line fit their width. *)
Definition words_ok (w : Z) (s : meta_state) : Prop :=
  forall line m, maps s !! line = Some m -> 0 <= valid m < 2 ^ w /\ 0 <= dirty m < 2 ^ w.

Lemma words_ok_get w s line m what :
  words_ok w s -> maps s !! line = Some m -> 0 <= get_what what m < 2 ^ w.
Proof. intros Hw Hm. apply Hw in Hm. destruct what; simpl; tauto. Qed.

(** The state in which the sectors [a .. b] of one line are all set or all clear. *)
Definition sectors_updated (w : Z) (what : status_word) (b : bool) (line x y : Z) (s s' : meta_state) : Prop :=
  words_ok w s' /\ infos s' = infos s /\ hash s' = hash s /\
  exists m word, maps s !! line = Some m /\ maps s' = <[line := set_what what word m]> (maps s) /\
    forall i, 0 <= i ->
      Z.testbit word i = if bool_decide (x <= i <= y) then b else Z.testbit (get_what what m) i.

Lemma sectors_updated_intro w what b line x y s m mask :
  words_ok w s -> 0 <= w -> maps s !! line = Some m -> mask_of mask x y -> mask < 2 ^ w ->
  sectors_updated w what b line x y s
    (set_maps (alter (fun m => set_what what (upd_word b (get_what what m) mask) m) line) s).
Proof.
  intros Hok Hw Hm Hmask Hb. pose proof Hmask as [Hmask0 _].
  pose proof (words_ok_get _ _ _ _ what Hok Hm) as Hword.
  assert (alter (fun m => set_what what (upd_word b (get_what what m) mask) m) line (maps s) =
    <[line := set_what what (upd_word b (get_what what m) mask) m]> (maps s)) as Heq.
  { apply map_eq. intros l. destruct (decide (line = l)) as [<-|].
    - by rewrite lookup_alter_eq, lookup_insert_eq, Hm.
    - by rewrite lookup_alter_ne, lookup_insert_ne. }
  split_and!; [|done..|].
  - intros l m'. simpl. rewrite Heq, lookup_insert. case_decide as Hl; [|apply Hok].
    intros [= <-]. apply Hok in Hm.
    pose proof (upd_word_bound b w (get_what what m) mask Hw Hword ltac:(lia)).
    destruct what; simpl in *; tauto.
  - exists m, (upd_word b (get_what what m) mask). split_and!; [done|done|].
    intros i Hi. by apply upd_word_bits.
Qed.

(** Some sector of the line outside [x .. y] is set. *)
Definition any_out (w word x y : Z) : bool :=
  existsb (fun i => negb (bool_decide (x <= i <= y)) && Z.testbit word i) (seqZ 0 w).

Lemma any_out_true w word x y :
  any_out w word x y = true <-> exists i, 0 <= i < w /\ ~ (x <= i <= y) /\ Z.testbit word i = true.
Proof.
  unfold any_out. rewrite existsb_exists. split.
  - intros (i & Hi%list_elem_of_In%elem_of_seqZ & [H1%negb_true_iff%bool_decide_eq_false H2]%andb_true_iff).
    exists i. split_and!; [lia..|done|done].
  - intros (i & Hi & H1 & H2). exists i. split; [apply list_elem_of_In, elem_of_seqZ; lia|].
    by rewrite bool_decide_eq_false_2, H2.
Qed.

Lemma line_sectors cfg w : word_bits cfg = Some w -> first8 cfg = 0 /\ last8 cfg = w - 1.
Proof.
  unfold word_bits, first8, last8, sector_end, sector_count, sector_start, KiB. intros Hw.
  repeat match type of Hw with (if ?b then _ else _) = _ => destruct b eqn:? end; simplify_eq;
    match goal with H : (line_size cfg =? _) = true |- _ => apply Z.eqb_eq in H; rewrite H end;
    by vm_compute.
Qed.

Section status_spec.
Context (cfg : config) (w : Z) (s : meta_state) (line x y : Z) (m : ocf_metadata_map).
Hypothesis Hw : word_bits cfg = Some w.
Hypothesis Hok : words_ok w s.
Hypothesis Hm : maps s !! line = Some m.
Hypothesis Hxy : 0 <= x <= y.
Hypothesis Hy : y < w.

Lemma w_pos : 0 <= w.
Proof using Hy Hxy. lia. Qed.

Lemma wp_get_mask (A : Type) (k : Z -> M meta_state A) Q :
  (forall mask, mask_of mask x y -> mask < 2 ^ w -> wp (k mask) Q s) ->
  wp (mask ← lift (get_mask w x y); k mask) Q s.
Proof using Hw Hxy Hy.
  intros Hk. pose proof (word_bits_width _ _ Hw) as Hwidth.
  destruct (get_mask_bits w x y Hwidth Hxy Hy) as (mask & Hg & Hb & Hbits).
  apply wp_bind. eapply wp_lift; [done|]. apply Hk; [|lia]. split; [lia|done].
Qed.

Lemma word_range what : 0 <= get_what what m < 2 ^ w.
Proof using Hok Hm. by eapply words_ok_get. Qed.

Lemma ocf_metadata_test_spec what all :
  wp (ocf_metadata_test cfg what line x y all)
    (fun r s' => s' = s /\
       r = if all then all_sectors (get_what what m) x y else any_sector (get_what what m) x y) s.
Proof using Hw Hok Hm Hxy Hy.
  unfold ocf_metadata_test. wp_step. eapply wp_lift; [done|]. apply wp_get_mask.
  intros mask Hmask Hlt. wp_step. eapply wp_rd_map; [done|]. wp_step. split; [done|].
  pose proof (word_range what). apply test_mask_spec; [lia..|done].
Qed.

Lemma ocf_metadata_test_out_spec what :
  wp (ocf_metadata_test_out cfg what line x y)
    (fun r s' => s' = s /\ r = any_out w (get_what what m) x y) s.
Proof using Hw Hok Hm Hxy Hy.
  unfold ocf_metadata_test_out. wp_step. eapply wp_lift; [done|]. apply wp_get_mask.
  intros mask Hmask Hlt. wp_step. eapply wp_rd_map; [done|]. wp_step. split; [done|].
  pose proof (word_range what) as Hr. pose proof w_pos.
  change (Z.land (get_what what m) (Z.lnot mask)) with (upd_word false (get_what what m) mask).
  rewrite (word_nonzero w) by (try apply upd_word_bound; destruct Hmask; lia).
  apply eq_true_iff_eq. rewrite any_sector_true, any_out_true. split.
  - intros (i & Hi & Hb). rewrite (upd_word_bits _ _ _ x y) in Hb by (done || lia).
    case_bool_decide; [done|]. exists i. split_and!; [lia..|done|done].
  - intros (i & Hi & Hn & Hb). exists i. split; [lia|].
    rewrite (upd_word_bits _ _ _ x y) by (done || lia). by rewrite bool_decide_eq_false_2.
Qed.

Lemma ocf_metadata_set_spec what :
  wp (ocf_metadata_set cfg what line x y)
    (fun r s' => r = any_sector (get_what what m) 0 (w - 1) /\
       sectors_updated w what true line x y s s') s.
Proof using Hw Hok Hm Hxy Hy.
  unfold ocf_metadata_set. wp_step. eapply wp_lift; [done|]. apply wp_get_mask.
  intros mask Hmask Hlt. wp_step. eapply wp_rd_map; [done|]. cbv zeta. wp_step.
  apply wp_upd_map; [by eexists|]. wp_step. split.
  - apply word_nonzero; [apply word_range|apply w_pos].
  - by apply (sectors_updated_intro w what true line x y s m mask Hok w_pos).
Qed.

Lemma any_updated what b word :
  (forall i, 0 <= i -> Z.testbit word i = if bool_decide (x <= i <= y) then b else Z.testbit (get_what what m) i) ->
  any_sector word 0 (w - 1) = b || any_out w (get_what what m) x y.
Proof using Hxy Hy.
  intros Hb. apply eq_true_iff_eq. rewrite orb_true_iff, any_sector_true, any_out_true. split.
  - intros (i & Hi & Hbi). rewrite Hb in Hbi by lia. case_bool_decide; [by left|].
    right. exists i. split_and!; [lia..|done|done].
  - intros [->|(i & Hi & Hn & Hbi)].
    + exists x. rewrite Hb, bool_decide_eq_true_2 by lia. split; [lia|done].
    + exists i. rewrite Hb, bool_decide_eq_false_2 by (done || lia). split; [lia|done].
Qed.

Lemma ocf_metadata_clear_spec what :
  wp (ocf_metadata_clear cfg what line x y)
    (fun r s' => r = any_out w (get_what what m) x y /\
       sectors_updated w what false line x y s s') s.
Proof using Hw Hok Hm Hxy Hy.
  unfold ocf_metadata_clear. wp_step. eapply wp_lift; [done|]. apply wp_get_mask.
  intros mask Hmask Hlt. wp_step. apply wp_upd_map; [by eexists|].
  pose proof (sectors_updated_intro w what false line x y s m mask Hok w_pos Hm Hmask Hlt) as Hupd.
  pose proof Hupd as (Hok' & _ & _ & m' & word & Hm' & Hmaps & Hbits).
  rewrite Hm in Hm'. injection Hm' as <-.
  assert (maps (set_maps (alter (fun m => set_what what (Z.land (get_what what m) (Z.lnot mask)) m) line) s) !! line
          = Some (set_what what word m)) as Hget.
  { change (fun m => set_what what (Z.land (get_what what m) (Z.lnot mask)) m)
      with (fun m => set_what what (upd_word false (get_what what m) mask) m).
    by rewrite Hmaps, lookup_insert_eq. }
  wp_step. eapply wp_rd_map; [done|]. wp_step. split; [|done].
  pose proof (any_updated what false word Hbits) as Hany. simpl in Hany. rewrite <- Hany.
  replace (get_what what (set_what what word m)) with word by by destruct what.
  apply word_nonzero; [|apply w_pos].
  pose proof (words_ok_get _ _ _ _ what Hok' Hget) as Hr. by destruct what.
Qed.

(** The operations that report what they changed. *)
Lemma set_dirty_changed_spec :
  wp (metadata_set_dirty_sec_changed cfg line x y) (fun r s' =>
    r = (negb (all_sectors (dirty m) x y), any_sector (dirty m) 0 (w - 1)) /\
    sectors_updated w Dirty true line x y s s') s.
Proof using Hw Hok Hm Hxy Hy.
  unfold metadata_set_dirty_sec_changed. wp_step. eapply wp_mono; [apply ocf_metadata_test_spec|].
  intros r s' [-> ->]. wp_step. eapply wp_mono; [apply ocf_metadata_set_spec|].
  intros r s' [-> Hs]. by wp_step.
Qed.

Lemma clear_dirty_changed_spec :
  wp (metadata_clear_dirty_sec_changed cfg line x y) (fun r s' =>
    r = (any_sector (dirty m) x y, negb (any_out w (dirty m) x y)) /\
    sectors_updated w Dirty false line x y s s') s.
Proof using Hw Hok Hm Hxy Hy.
  unfold metadata_clear_dirty_sec_changed. wp_step. eapply wp_mono; [apply ocf_metadata_test_spec|].
  intros r s' [-> ->]. wp_step. eapply wp_mono; [apply ocf_metadata_clear_spec|].
  intros r s' [-> Hs]. by wp_step.
Qed.

Lemma set_valid_changed_spec :
  wp (metadata_set_valid_sec_changed cfg line x y) (fun r s' =>
    r = negb (any_sector (valid m) 0 (w - 1)) /\ sectors_updated w Valid true line x y s s') s.
Proof using Hw Hok Hm Hxy Hy.
  unfold metadata_set_valid_sec_changed. wp_step. eapply wp_mono; [apply ocf_metadata_set_spec|].
  intros r s' [-> Hs]. by wp_step.
Qed.
End status_spec.

Lemma clear_valid_changed_spec cfg w s line x y m :
  word_bits cfg = Some w -> words_ok w s -> maps s !! line = Some m -> 0 <= x <= y -> y < w ->
  wp (metadata_clear_valid_sec_changed cfg line x y) (fun r s' =>
    r = (any_sector (valid m) 0 (w - 1) && negb (any_out w (valid m) x y), any_out w (valid m) x y) /\
    sectors_updated w Valid false line x y s s') s.
Proof.
  intros Hw Hok Hm Hxy Hy. destruct (line_sectors _ _ Hw) as [H0 H1].
  unfold metadata_clear_valid_sec_changed. rewrite H0, H1. wp_step.
  eapply wp_mono; [eapply (ocf_metadata_test_spec cfg w s line 0 (w - 1)); done || lia|].
  intros r s' [-> ->]. wp_step. eapply wp_mono; [by eapply ocf_metadata_clear_spec|].
  intros r s' [-> Hs]. by wp_step.
Qed.

(** ** Results *)

(** The dirty bookkeeping reports exactly what changed.  Setting the dirty
    sectors [x .. y] of a line returns whether some of them was clean before and
    whether the line had any dirty sector before; clearing them returns whether
    some of them was dirty and whether the line has no dirty sector left.  Both
    change the sectors of this range and nothing else. *)
Theorem dirty_sec_changed cfg w s line x y m :
  word_bits cfg = Some w -> words_ok w s -> maps s !! line = Some m -> 0 <= x <= y -> y < w ->
  (exists s', metadata_set_dirty_sec_changed cfg line x y s =
     Some ((negb (all_sectors (dirty m) x y), any_sector (dirty m) 0 (w - 1)), s') /\
     sectors_updated w Dirty true line x y s s') /\
  (exists s', metadata_clear_dirty_sec_changed cfg line x y s =
     Some ((any_sector (dirty m) x y, negb (any_out w (dirty m) x y)), s') /\
     sectors_updated w Dirty false line x y s s').
Proof.
  intros Hw Hok Hm Hxy Hy. split.
  - destruct (set_dirty_changed_spec cfg w s line x y m Hw Hok Hm Hxy Hy) as (r & s' & Hr & -> & H). by exists s'.
  - destruct (clear_dirty_changed_spec cfg w s line x y m Hw Hok Hm Hxy Hy) as (r & s' & Hr & -> & H). by exists s'.
Qed.

(** The valid bookkeeping.  Setting sectors valid reports [true] exactly when
    the line had no valid sector before; clearing them reports whether the line
    became invalid by this call, and whether it still has a valid sector. *)
Theorem valid_sec_changed cfg w s line x y m :
  word_bits cfg = Some w -> words_ok w s -> maps s !! line = Some m -> 0 <= x <= y -> y < w ->
  (exists s', metadata_set_valid_sec_changed cfg line x y s =
     Some (negb (any_sector (valid m) 0 (w - 1)), s') /\
     sectors_updated w Valid true line x y s s') /\
  (exists s', metadata_clear_valid_sec_changed cfg line x y s =
     Some ((any_sector (valid m) 0 (w - 1) && negb (any_out w (valid m) x y),
            any_out w (valid m) x y), s') /\
     sectors_updated w Valid false line x y s s').
Proof.
  intros Hw Hok Hm Hxy Hy. split.
  - destruct (set_valid_changed_spec cfg w s line x y m Hw Hok Hm Hxy Hy) as (r & s' & Hr & -> & H). by exists s'.
  - destruct (clear_valid_changed_spec cfg w s line x y m Hw Hok Hm Hxy Hy) as (r & s' & Hr & -> & H). by exists s'.
Qed.

(** Every dirty sector of every line is valid, as [ocf_metadata_check] tells. *)
Definition status_safe (cfg : config) (s : meta_state) : Prop :=
  forall line, is_Some (maps s !! line) -> ocf_metadata_check cfg line s = Some (true, s).

(** When a range of sectors may be set ([b = true]) or cleared. *)
Definition may_update (what : status_word) (b : bool) (m : ocf_metadata_map) (x y : Z) : bool :=
  match what, b with
  | Valid, true | Dirty, false => true
  | Dirty, true => all_sectors (valid m) x y
  | Valid, false => negb (any_sector (dirty m) x y)
  end.

Lemma check_true cfg w s line m :
  word_bits cfg = Some w -> words_ok w s -> maps s !! line = Some m ->
  ocf_metadata_check cfg line s = Some (true, s) <->
  (forall i, 0 <= i -> Z.testbit (dirty m) i = true -> Z.testbit (valid m) i = true).
Proof.
  intros Hw Hok Hm. unfold ocf_metadata_check, _ocf_metadata_check, lift. unfold mbind, M_bind. simpl.
  rewrite Hw. simpl. unfold rd_map. rewrite Hm. simpl. pose proof (Hok _ _ Hm) as [_ Hd].
  destruct (Z.eqb_spec (Z.land (dirty m) (Z.lnot (valid m))) 0) as [He|He].
  - split; [|done]. intros _ i Hi Hb.
    assert (Z.testbit (Z.land (dirty m) (Z.lnot (valid m))) i = false) as Hf by (rewrite He; apply Z.bits_0).
    rewrite Z.land_spec, Z.lnot_spec, Hb in Hf by done. by destruct (Z.testbit (valid m) i).
  - split; [done|]. intros Hall. exfalso.
    apply nonzero_bit in He as (i & Hi & Hb); [|apply Z.land_nonneg; lia].
    rewrite Z.land_spec, Z.lnot_spec in Hb by done. apply andb_true_iff in Hb as [Hb1 Hb2].
    by rewrite (Hall i Hi Hb1) in Hb2.
Qed.

Lemma sectors_updated_safe cfg w s s' line x y m what (b : bool) :
  word_bits cfg = Some w -> words_ok w s -> maps s !! line = Some m ->
  status_safe cfg s -> may_update what b m x y = true -> sectors_updated w what b line x y s s' -> status_safe cfg s'.
Proof.
  intros Hw Hok Hm Hsafe Hmay (Hok' & _ & _ & m' & word & Hm' & Hmaps & Hbits).
  rewrite Hm in Hm'. injection Hm' as <-. 
  intros l [ml Hl]. apply (check_true _ w _ _ ml Hw Hok' Hl). intros i Hi.
  rewrite Hmaps, lookup_insert in Hl. case_decide; [subst l|].
  - pose proof (Hsafe line ltac:(by eexists)) as Hc. rewrite (check_true _ w _ _ m Hw Hok Hm) in Hc.
    specialize (Hc i Hi). specialize (Hbits i Hi). injection Hl as <-.
    destruct what, b; simpl in *; rewrite Hbits; case_bool_decide; try done; try tauto.
    + intros _. by apply all_sectors_true with x y.
    + intros Hd. exfalso. apply negb_true_iff in Hmay.
      assert (any_sector (dirty m) x y = true) as Hany by (apply any_sector_true; eauto). congruence.
  - pose proof (Hsafe l ltac:(by eexists)) as Hc. rewrite (check_true _ w _ _ ml Hw Hok Hl) in Hc. by apply Hc.
Qed.

(** Dirty sectors stay valid.  The check that every dirty sector is valid
    keeps its answer for all lines when sectors are marked valid or clean, when
    valid sectors are marked dirty, and when clean sectors are invalidated. *)
Theorem dirty_sectors_stay_valid cfg w s line x y m what (b : bool) :
  word_bits cfg = Some w -> words_ok w s -> maps s !! line = Some m -> 0 <= x <= y -> y < w ->
  status_safe cfg s -> may_update what b m x y = true ->
  exists r s', (if b then ocf_metadata_set cfg what line x y s
                else ocf_metadata_clear cfg what line x y s) = Some (r, s') /\ status_safe cfg s'.
Proof.
  intros Hw Hok Hm Hxy Hy Hsafe Hmay.
  assert (exists r s', (if b then ocf_metadata_set cfg what line x y s
    else ocf_metadata_clear cfg what line x y s) = Some (r, s') /\
    sectors_updated w what b line x y s s') as (r & s' & Hr & Hupd).
  { destruct b; [destruct (ocf_metadata_set_spec cfg w s line x y m Hw Hok Hm Hxy Hy what) as (r & s' & ? & _ & ?)
               |destruct (ocf_metadata_clear_spec cfg w s line x y m Hw Hok Hm Hxy Hy what) as (r & s' & ? & _ & ?)];
      by exists r, s'. }
  exists r, s'. split; [done|]. by eapply sectors_updated_safe.
Qed.

(** ** Witnesses: two lines of 4 KiB *)

Definition wit_cfg : config := mkConfig 2 4 4096 1 100.
Definition wit_meta : meta_state :=
  mkMeta {[ 0 := mkMap 7 1 60 12; 1 := mkMap 0 OCF_CORE_MAX 0 0 ]} (zarray 2 (fun _ => mkInfo 2 2 0))
    (zarray 4 (fun _ => 2)).

Lemma wit_words_ok : words_ok 8 wit_meta.
Proof.
  intros l m Hm. simpl in Hm.
  apply lookup_insert_Some in Hm as [[<- <-]|[_ [<- <-]%lookup_singleton_Some]]; simpl; lia.
Qed.

Lemma wit_safe : status_safe wit_cfg wit_meta.
Proof.
  intros l [m Hm]. simpl in Hm.
  apply lookup_insert_Some in Hm as [[<- <-]|[_ [<- <-]%lookup_singleton_Some]]; by vm_compute.
Qed.

Lemma dirty_sec_changed_witness :
  (exists s', metadata_set_dirty_sec_changed wit_cfg 0 3 4 wit_meta = Some ((true, true), s') /\
     sectors_updated 8 Dirty true 0 3 4 wit_meta s') /\
  (exists s', metadata_clear_dirty_sec_changed wit_cfg 0 3 4 wit_meta = Some ((true, false), s') /\
     sectors_updated 8 Dirty false 0 3 4 wit_meta s').
Proof. apply (dirty_sec_changed wit_cfg 8 wit_meta 0 3 4 (mkMap 7 1 60 12)); [done|apply wit_words_ok|done|lia|lia]. Defined.

Lemma valid_sec_changed_witness :
  (exists s', metadata_set_valid_sec_changed wit_cfg 1 0 7 wit_meta = Some (true, s') /\
     sectors_updated 8 Valid true 1 0 7 wit_meta s') /\
  (exists s', metadata_clear_valid_sec_changed wit_cfg 1 0 7 wit_meta = Some ((false, false), s') /\
     sectors_updated 8 Valid false 1 0 7 wit_meta s').
Proof.
  apply (valid_sec_changed wit_cfg 8 wit_meta 1 0 7 (mkMap 0 OCF_CORE_MAX 0 0));
    [done|apply wit_words_ok|done|lia|lia].
Defined.

Lemma dirty_sectors_stay_valid_witness :
  exists r s', ocf_metadata_set wit_cfg Dirty 0 4 5 wit_meta = Some (r, s') /\ status_safe wit_cfg s'.
Proof.
  apply (dirty_sectors_stay_valid wit_cfg 8 wit_meta 0 4 5 (mkMap 7 1 60 12) Dirty true);
    [done|apply wit_words_ok|done|lia|lia|apply wit_safe|done].
Defined.
