(* ===== verification/MetaLock.v ===== *)
(** The metadata locks: ocf/src/concurrency/ocf_metadata_concurrency.c and the
    inline functions of its header.

    The blocking functions are modelled by the sequence of lock operations they
    perform, which a scheduler can interleave; the try functions work on the
    state of the locks directly.  A request locks the hash buckets of its core
    lines through an iteration in ascending order, whose macros are translated
    one by one. *)

From Stdlib Require Import Sorted.
From S2P Require Import Prelude Meta.

Definition OCF_METADATA_RD : Z := 0.
Definition OCF_METADATA_WR : Z := 1.
Definition OCF_NUM_GLOBAL_META_LOCKS : Z := Z.shiftl 1 2.
Definition OCF_NUM_LRU_LISTS : Z := 32.

(** The locks of [struct ocf_metadata_lock]. *)
Inductive lock_id :=
  | LGlobal (i : Z)
  | LHash (h : Z)
  | LPage (p : Z)
  | LLru (i : Z)
  | LPartition (p : Z).

Inductive lock_mode := RD | WR.

(** One operation on one lock. *)
Inductive lock_op := Down (m : lock_mode) (l : lock_id) | Up (m : lock_mode) (l : lock_id).

#[export] Instance lock_id_eq_dec : EqDecision lock_id.
Proof. solve_decision. Defined.
#[export] Instance lock_mode_eq_dec : EqDecision lock_mode.
Proof. solve_decision. Defined.
#[export] Instance lock_op_eq_dec : EqDecision lock_op.
Proof. solve_decision. Defined.

(** The fields of the request and of the lock that the functions read. *)
Record hash_req := mkHashReq {
  map_hash : Z -> Z;
  core_line_count : Z;
  lock_idx : Z;
}.

(** The operations performed so far, oldest first. *)
Definition emit (o : lock_op) : M (list lock_op) unit := modify (fun t => t ++ [o]).

(** ** The inline functions of the header *)

Definition ocf_metadata_lru_wr_lock (ev_list : Z) : M (list lock_op) unit := emit (Down WR (LLru ev_list)).
Definition ocf_metadata_lru_wr_unlock (ev_list : Z) : M (list lock_op) unit := emit (Up WR (LLru ev_list)).
Definition ocf_metadata_lru_rd_lock (ev_list : Z) : M (list lock_op) unit := emit (Down RD (LLru ev_list)).
Definition ocf_metadata_lru_rd_unlock (ev_list : Z) : M (list lock_op) unit := emit (Up RD (LLru ev_list)).
Definition ocf_metadata_lru_wr_lock_all : M (list lock_op) unit :=
  for_range (Z.to_nat OCF_NUM_LRU_LISTS) 0 ocf_metadata_lru_wr_lock.
Definition ocf_metadata_lru_wr_unlock_all : M (list lock_op) unit :=
  for_range (Z.to_nat OCF_NUM_LRU_LISTS) 0 ocf_metadata_lru_wr_unlock.
Definition ocf_metadata_partition_lock (part_id : Z) : M (list lock_op) unit := emit (Down WR (LPartition part_id)).
Definition ocf_metadata_partition_unlock (part_id : Z) : M (list lock_op) unit := emit (Up WR (LPartition part_id)).

(** ** Global lock *)

Definition ocf_metadata_start_exclusive_access : M (list lock_op) unit :=
  for_range (Z.to_nat OCF_NUM_GLOBAL_META_LOCKS) 0 (fun i => emit (Down WR (LGlobal i))).

(** The loop runs from the last lock to the first. *)
Definition ocf_metadata_end_exclusive_access : M (list lock_op) unit :=
  for_range (Z.to_nat OCF_NUM_GLOBAL_META_LOCKS) 0
    (fun i => emit (Up WR (LGlobal (OCF_NUM_GLOBAL_META_LOCKS - i - 1)))).

Definition ocf_metadata_start_shared_access (lock_idx : Z) : M (list lock_op) unit :=
  emit (Down RD (LGlobal lock_idx)).
Definition ocf_metadata_end_shared_access (lock_idx : Z) : M (list lock_op) unit :=
  emit (Up RD (LGlobal lock_idx)).

(** ** Hash bucket locks *)

Section hash_locks.
(** [metadata_lock->num_hash_entries] is the size of the hash table. *)
Variable cfg : config.
Let num_hash_entries := hash_table_entries cfg.

Definition ocf_hb_id_naked_lock (hash rw : Z) : M (list lock_op) unit :=
  BUG_ON (num_hash_entries <=? hash);;
  if rw =? OCF_METADATA_WR then emit (Down WR (LHash hash))
  else if rw =? OCF_METADATA_RD then emit (Down RD (LHash hash))
  else bug.

Definition ocf_hb_id_naked_unlock (hash rw : Z) : M (list lock_op) unit :=
  BUG_ON (num_hash_entries <=? hash);;
  if rw =? OCF_METADATA_WR then emit (Up WR (LHash hash))
  else if rw =? OCF_METADATA_RD then emit (Up RD (LHash hash))
  else bug.

Definition ocf_hb_cline_naked_unlock_rd (core_id core_line : Z) : M (list lock_op) unit :=
  let hash := ocf_metadata_hash_func cfg core_line core_id in
  ocf_hb_id_naked_unlock hash OCF_METADATA_RD.
Definition ocf_hb_cline_naked_unlock_wr (core_id core_line : Z) : M (list lock_op) unit :=
  let hash := ocf_metadata_hash_func cfg core_line core_id in
  ocf_hb_id_naked_unlock hash OCF_METADATA_WR.

Definition ocf_hb_id_prot_lock_common (lock_idx hash rw : Z) : M (list lock_op) unit :=
  ocf_metadata_start_shared_access lock_idx;;
  ocf_hb_id_naked_lock hash rw.
Definition ocf_hb_id_prot_unlock_common (lock_idx hash rw : Z) : M (list lock_op) unit :=
  ocf_hb_id_naked_unlock hash rw;;
  ocf_metadata_end_shared_access lock_idx.

Definition ocf_hb_cline_prot_lock_wr (lock_idx core_id core_line : Z) : M (list lock_op) unit :=
  let hash := ocf_metadata_hash_func cfg core_line core_id in
  ocf_hb_id_prot_lock_common lock_idx hash OCF_METADATA_WR.
Definition ocf_hb_cline_prot_unlock_wr (lock_idx core_id core_line : Z) : M (list lock_op) unit :=
  let hash := ocf_metadata_hash_func cfg core_line core_id in
  ocf_hb_id_prot_unlock_common lock_idx hash OCF_METADATA_WR.
Definition ocf_hb_cline_prot_lock_rd (lock_idx core_id core_line : Z) : M (list lock_op) unit :=
  let hash := ocf_metadata_hash_func cfg core_line core_id in
  ocf_hb_id_prot_lock_common lock_idx hash OCF_METADATA_RD.
Definition ocf_hb_cline_prot_unlock_rd (lock_idx core_id core_line : Z) : M (list lock_op) unit :=
  let hash := ocf_metadata_hash_func cfg core_line core_id in
  ocf_hb_id_prot_unlock_common lock_idx hash OCF_METADATA_RD.

Definition ocf_hb_id_prot_lock_wr (lock_idx hash : Z) : M (list lock_op) unit :=
  ocf_hb_id_prot_lock_common lock_idx hash OCF_METADATA_WR.

Definition ocf_hb_id_prot_unlock_wr (lock_idx hash : Z) : M (list lock_op) unit :=
  ocf_hb_id_prot_unlock_common lock_idx hash OCF_METADATA_WR.

(** ** The hash buckets of a request *)

Definition _NUM_HASH_ENTRIES : Z := num_hash_entries.
Definition _IS_MONOTONIC (req : hash_req) : bool :=
  u32 (map_hash req 0 + core_line_count req) <=? _NUM_HASH_ENTRIES.
Definition _MIN_HASH (req : hash_req) : Z := if _IS_MONOTONIC req then map_hash req 0 else 0.
Definition _MAX_HASH (req : hash_req) : Z :=
  if _IS_MONOTONIC req then map_hash req (core_line_count req - 1) else _NUM_HASH_ENTRIES - 1.
Definition _HASH_COUNT (req : hash_req) : Z := Z.min (core_line_count req) _NUM_HASH_ENTRIES.
Definition _HAS_GAP (req : hash_req) : bool :=
  _HASH_COUNT req <? u32 (_MAX_HASH req - _MIN_HASH req + 1).
Definition _GAP_VAL (req : hash_req) : Z := u32 (u32 (_MAX_HASH req - _MIN_HASH req + 1) - _HASH_COUNT req).
Definition _GAP_START (req : hash_req) : Z := map_hash req (core_line_count req - 1).
Definition _HASH_NEXT (req : hash_req) (hash : Z) : Z :=
  u32 (hash + 1 + (if _HAS_GAP req && (hash =? _GAP_START req) then _GAP_VAL req else 0)).

(** The buckets [for_each_req_hash_asc] visits from [hash] on; no fuel left is
    a loop that did not end. *)
Fixpoint hash_loop (fuel : nat) (req : hash_req) (hash : Z) : option (list Z) :=
  if hash <=? _MAX_HASH req then
    match fuel with
    | O => None
    | S fuel => l ← hash_loop fuel req (_HASH_NEXT req hash); Some (hash :: l)
    end
  else Some [].

Definition for_each_req_hash_asc (req : hash_req) : option (list Z) :=
  hash_loop (Z.to_nat _NUM_HASH_ENTRIES) req (_MIN_HASH req).

Definition ocf_req_hash_in_range (req : hash_req) (core_id core_line : Z) : bool :=
  let hash := ocf_metadata_hash_func cfg core_line core_id in
  if negb (_HAS_GAP req) then (_MIN_HASH req <=? hash) && (hash <=? _MAX_HASH req)
  else ((_MIN_HASH req <=? hash) && (hash <=? _GAP_START req)) ||
       ((u32 (_GAP_START req + _GAP_VAL req) <? hash) && (hash <=? _MAX_HASH req)).

(** The body of a loop over [for_each_req_hash_asc]. *)
Definition for_hashes (req : hash_req) (body : Z -> M (list lock_op) unit) : M (list lock_op) unit :=
  l ← lift (for_each_req_hash_asc req);
  foldr (fun hash k => body hash;; k) (mret tt) l.

Definition ocf_hb_req_prot_lock_rd (req : hash_req) : M (list lock_op) unit :=
  ocf_metadata_start_shared_access (lock_idx req);;
  for_hashes req (fun hash => ocf_hb_id_naked_lock hash OCF_METADATA_RD).
Definition ocf_hb_req_prot_unlock_rd (req : hash_req) : M (list lock_op) unit :=
  for_hashes req (fun hash => ocf_hb_id_naked_unlock hash OCF_METADATA_RD);;
  ocf_metadata_end_shared_access (lock_idx req).
Definition ocf_hb_req_prot_lock_wr (req : hash_req) : M (list lock_op) unit :=
  ocf_metadata_start_shared_access (lock_idx req);;
  for_hashes req (fun hash => ocf_hb_id_naked_lock hash OCF_METADATA_WR).
Definition ocf_hb_req_prot_lock_upgrade (req : hash_req) : M (list lock_op) unit :=
  for_hashes req (fun hash => ocf_hb_id_naked_unlock hash OCF_METADATA_RD);;
  for_hashes req (fun hash => ocf_hb_id_naked_lock hash OCF_METADATA_WR).
Definition ocf_hb_req_prot_unlock_wr (req : hash_req) : M (list lock_op) unit :=
  for_hashes req (fun hash => ocf_hb_id_naked_unlock hash OCF_METADATA_WR);;
  ocf_metadata_end_shared_access (lock_idx req).
End hash_locks.

Definition ocf_collision_start_shared_access (page : Z) : M (list lock_op) unit := emit (Down RD (LPage page)).
Definition ocf_collision_end_shared_access (page : Z) : M (list lock_op) unit := emit (Up RD (LPage page)).
Definition ocf_collision_start_exclusive_access (page : Z) : M (list lock_op) unit := emit (Down WR (LPage page)).
Definition ocf_collision_end_exclusive_access (page : Z) : M (list lock_op) unit := emit (Up WR (LPage page)).

(** ** The try functions

    [sems] gives the state of each lock: [-1] for a writer, otherwise the number
    of readers. *)

Definition sem_state : Type := lock_id -> Z.
Definition sem_set (l : lock_id) (v : Z) (s : sem_state) : sem_state :=
  fun l' => if decide (l' = l) then v else s l'.

Definition env_rwsem_down_read_trylock (l : lock_id) : M sem_state Z :=
  s ← gets id;
  if s l =? -1 then mret (- OCF_ERR_NO_LOCK) else modify (sem_set l (s l + 1));; mret 0.
Definition env_rwsem_down_write_trylock (l : lock_id) : M sem_state Z :=
  s ← gets id;
  if s l =? 0 then modify (sem_set l (-1));; mret 0 else mret (- OCF_ERR_NO_LOCK).
Definition env_rwsem_up_write (l : lock_id) : M sem_state unit :=
  s ← gets id;
  BUG_ON (negb (s l =? -1));;
  modify (sem_set l 0).

(** The first loop: the error and the index at which the loop stopped. *)
Fixpoint try_exclusive_loop (n : nat) (i : Z) : M sem_state (Z * Z) :=
  match n with
  | O => mret (0, i)
  | S n =>
    error ← env_rwsem_down_write_trylock (LGlobal i);
    if negb (error =? 0) then mret (error, i) else try_exclusive_loop n (i + 1)
  end.

(** [while (i--)] *)
Fixpoint release_loop (i : nat) : M sem_state unit :=
  match i with
  | O => mret tt
  | S i => env_rwsem_up_write (LGlobal (Z.of_nat i));; release_loop i
  end.

Definition ocf_metadata_try_start_exclusive_access : M sem_state Z :=
  '(error, i) ← try_exclusive_loop (Z.to_nat OCF_NUM_GLOBAL_META_LOCKS) 0;
  (if negb (error =? 0) then release_loop (Z.to_nat i) else mret tt);;
  mret error.

Definition ocf_metadata_try_start_shared_access (lock_idx : Z) : M sem_state Z :=
  env_rwsem_down_read_trylock (LGlobal lock_idx).

Section trylock.
Variable cfg : config.

Definition ocf_hb_id_naked_trylock (hash rw : Z) : M sem_state Z :=
  BUG_ON (hash_table_entries cfg <=? hash);;
  if rw =? OCF_METADATA_WR then env_rwsem_down_write_trylock (LHash hash)
  else if rw =? OCF_METADATA_RD then env_rwsem_down_read_trylock (LHash hash)
  else bug.

Definition ocf_hb_cline_naked_trylock_wr (core_id core_line : Z) : M sem_state bool :=
  let hash := ocf_metadata_hash_func cfg core_line core_id in
  r ← ocf_hb_id_naked_trylock hash OCF_METADATA_WR; mret (0 =? r).
Definition ocf_hb_cline_naked_trylock_rd (core_id core_line : Z) : M sem_state bool :=
  let hash := ocf_metadata_hash_func cfg core_line core_id in
  r ← ocf_hb_id_naked_trylock hash OCF_METADATA_RD; mret (0 =? r).
End trylock.

(** ** The iteration over the buckets of a request *)

(** A request whose lines have consecutive hashes modulo the table size, which
    is what [ocf_metadata_hash_func] gives for consecutive core lines. *)
Record hash_req_ok (cfg : config) (req : hash_req) : Prop := {
  hr_entries : 0 < hash_table_entries cfg < 2 ^ 32;
  hr_count : 0 < core_line_count req;
  hr_fits : map_hash req 0 + core_line_count req < 2 ^ 32;
  hr_first : 0 <= map_hash req 0 < hash_table_entries cfg;
  hr_hash i : 0 <= i < core_line_count req ->
    map_hash req i = (map_hash req 0 + i) `mod` hash_table_entries cfg;
  hr_lock_idx : 0 <= lock_idx req < OCF_NUM_GLOBAL_META_LOCKS;
}.

Section buckets.
Context (cfg : config) (req : hash_req).
Hypothesis Hok : hash_req_ok cfg req.
#[local] Abbreviation N := (hash_table_entries cfg).
#[local] Abbreviation h0 := (map_hash req 0).
#[local] Abbreviation c := (core_line_count req).

(** The last line of the request hashes to [h0 + c - 1], at most one turn
    around the table when the request has fewer lines than buckets. *)
Lemma last_hash_wrap : c < N -> N < h0 + c -> map_hash req (c - 1) = h0 + c - 1 - N.
Proof using Hok.
  intros Hc Hw. pose proof (hr_first _ _ Hok). rewrite (hr_hash _ _ Hok) by lia.
  symmetry. apply (Z.mod_unique _ _ 1); lia.
Qed.

Lemma last_hash_mono : h0 + c <= N -> map_hash req (c - 1) = h0 + c - 1.
Proof using Hok.
  intros Hc. pose proof (hr_first _ _ Hok). pose proof (hr_count _ _ Hok).
  rewrite (hr_hash _ _ Hok) by lia. rewrite Z.mod_small; lia.
Qed.

Lemma monotonic : _IS_MONOTONIC cfg req = (h0 + c <=? N).
Proof using Hok.
  pose proof (hr_first _ _ Hok). pose proof (hr_count _ _ Hok). pose proof (hr_fits _ _ Hok).
  unfold _IS_MONOTONIC, _NUM_HASH_ENTRIES. by rewrite u32_small by lia.
Qed.

(** The three shapes of the bucket set: one run, the whole table, or two runs
    around a gap. *)
Lemma range_mono : h0 + c <= N ->
  _MIN_HASH cfg req = h0 /\ _MAX_HASH cfg req = h0 + c - 1 /\ _HAS_GAP cfg req = false.
Proof using Hok.
  intros Hm. pose proof (hr_first _ _ Hok). pose proof (hr_count _ _ Hok). pose proof (hr_entries _ _ Hok).
  unfold _HAS_GAP, _HASH_COUNT, _MAX_HASH, _MIN_HASH. rewrite monotonic.
  rewrite (proj2 (Z.leb_le _ _)) by done. rewrite last_hash_mono by done. unfold _NUM_HASH_ENTRIES.
  split_and!; [done|done|]. rewrite u32_small by lia. apply Z.ltb_ge. lia.
Qed.

Lemma range_wrap : N < h0 + c ->
  _MIN_HASH cfg req = 0 /\ _MAX_HASH cfg req = N - 1 /\ _HAS_GAP cfg req = (c <? N).
Proof using Hok.
  intros Hm. pose proof (hr_first _ _ Hok). pose proof (hr_count _ _ Hok). pose proof (hr_entries _ _ Hok).
  unfold _HAS_GAP, _HASH_COUNT, _MAX_HASH, _MIN_HASH. rewrite monotonic.
  rewrite (proj2 (Z.leb_gt _ _)) by done. unfold _NUM_HASH_ENTRIES.
  split_and!; [done|done|]. rewrite u32_small by lia. apply eq_true_iff_eq. rewrite !Z.ltb_lt. lia.
Qed.

Lemma gap_val : c < N -> N < h0 + c -> _GAP_VAL cfg req = N - c.
Proof using Hok.
  intros Hc Hw. pose proof (hr_count _ _ Hok). pose proof (hr_entries _ _ Hok).
  destruct (range_wrap Hw) as (H1 & H2 & _). unfold _GAP_VAL. rewrite H1, H2.
  unfold _HASH_COUNT, _NUM_HASH_ENTRIES. rewrite (u32_small (_ - _ + _)) by lia.
  rewrite u32_small by lia. lia.
Qed.

(** Without the gap in reach the loop visits consecutive buckets. *)
Lemma hash_loop_run n fuel a :
  a + Z.of_nat n <= _MAX_HASH cfg req + 1 ->
  (forall h, a <= h < a + Z.of_nat n -> _HASH_NEXT cfg req h = h + 1) ->
  hash_loop cfg (n + fuel) req a = (fun l => seqZ a (Z.of_nat n) ++ l) <$> hash_loop cfg fuel req (a + Z.of_nat n).
Proof using.
  revert a. induction n as [|n IH]; intros a Hmax Hnext; simpl.
  - rewrite Z.add_0_r. by destruct (hash_loop cfg fuel req a).
  - rewrite (proj2 (Z.leb_le _ _)) by lia. rewrite Hnext by lia.
    rewrite IH; [|lia|intros h Hh; apply Hnext; lia].
    replace (a + 1 + Z.of_nat n) with (a + Z.of_nat (S n)) by lia.
    destruct (hash_loop cfg fuel req (a + Z.of_nat (S n))) as [l|]; [|done]. simpl.
    rewrite (seqZ_cons a) by lia. by replace (Z.pred (Z.of_nat (S n))) with (Z.of_nat n) by lia.
Qed.

Lemma hash_loop_end fuel : hash_loop cfg fuel req (_MAX_HASH cfg req + 1) = Some [].
Proof using.
  destruct fuel; simpl; by rewrite (proj2 (Z.leb_gt _ _)) by lia.
Qed.

Lemma next_no_gap h : 0 <= h < N -> _HAS_GAP cfg req = false \/ h <> _GAP_START req ->
  _HASH_NEXT cfg req h = h + 1.
Proof using Hok.
  intros Hh Hg. pose proof (hr_entries _ _ Hok). unfold _HASH_NEXT.
  replace (_HAS_GAP cfg req && (h =? _GAP_START req)) with false.
  - rewrite Z.add_0_r. apply u32_small. lia.
  - destruct Hg as [-> | Hne]; [done|]. apply Z.eqb_neq in Hne. rewrite Hne. by rewrite andb_false_r.
Qed.

(** The buckets in ascending order. *)
Definition hash_list : list Z :=
  if h0 + c <=? N then seqZ h0 c
  else if c <? N then seqZ 0 (h0 + c - N) ++ seqZ h0 (N - h0) else seqZ 0 N.

Lemma for_each_hash_list : for_each_req_hash_asc cfg req = Some hash_list.
Proof using Hok.
  pose proof (hr_first _ _ Hok). pose proof (hr_count _ _ Hok). pose proof (hr_entries _ _ Hok).
  unfold for_each_req_hash_asc, hash_list, _NUM_HASH_ENTRIES.
  destruct (Z.leb_spec (h0 + c) N) as [Hm|Hm].
  - destruct (range_mono Hm) as (-> & Hmax & Hgap).
    replace (Z.to_nat N) with (Z.to_nat c + (Z.to_nat N - Z.to_nat c))%nat by lia.
    rewrite hash_loop_run; [|lia|].
    + replace (h0 + Z.of_nat (Z.to_nat c)) with (_MAX_HASH cfg req + 1) by lia.
      rewrite hash_loop_end. simpl. rewrite app_nil_r. do 2 f_equal. lia.
    + intros h Hh. apply next_no_gap; [lia|by left].
  - destruct (range_wrap Hm) as (-> & Hmax & Hgap). destruct (Z.ltb_spec c N) as [Hc|Hc].
    + set (GS := h0 + c - 1 - N). assert (_GAP_START req = GS) as HGS by (by apply last_hash_wrap).
      replace (Z.to_nat N) with (Z.to_nat GS + (S (Z.to_nat (N - h0) + (Z.to_nat N - S (Z.to_nat GS) - Z.to_nat (N - h0)))))%nat by lia.
      rewrite hash_loop_run; [|lia|intros h Hh; apply next_no_gap; [lia|right; lia]].
      replace (0 + Z.of_nat (Z.to_nat GS)) with GS by lia. cbn [hash_loop].
      rewrite (proj2 (Z.leb_le _ _)) by lia.
      replace (_HASH_NEXT cfg req GS) with h0; cycle 1.
      { unfold _HASH_NEXT. rewrite Hgap, HGS, Z.eqb_refl, gap_val by lia. simpl. rewrite u32_small by lia. lia. }
      rewrite hash_loop_run; [|lia|intros h Hh; apply next_no_gap; [lia|right; lia]].
      replace (h0 + Z.of_nat (Z.to_nat (N - h0))) with (_MAX_HASH cfg req + 1) by lia.
      rewrite hash_loop_end. simpl. rewrite app_nil_r. f_equal.
      replace (h0 + c - N) with (GS + 1) by lia.
      rewrite (seqZ_app 0 GS 1), <- app_assoc, (seqZ_cons (0 + GS) 1), (seqZ_nil _ (Z.pred 1)) by lia.
      by replace (Z.of_nat (Z.to_nat GS)) with GS by lia; replace (Z.of_nat (Z.to_nat (N - h0))) with (N - h0) by lia.
    + replace (Z.to_nat N) with (Z.to_nat N + 0)%nat by lia.
      rewrite hash_loop_run; [|lia|].
      * replace (0 + Z.of_nat (Z.to_nat N)) with (_MAX_HASH cfg req + 1) by lia.
        rewrite hash_loop_end. simpl. rewrite app_nil_r. do 2 f_equal. lia.
      * intros h Hh. apply next_no_gap; [lia|left; by rewrite Hgap].
Qed.

(** A bucket is visited exactly when some line of the request hashes to it. *)
Lemma elem_hash_list h : h ∈ hash_list <-> exists i, 0 <= i < c /\ map_hash req i = h.
Proof using Hok.
  pose proof (hr_first _ _ Hok). pose proof (hr_count _ _ Hok). pose proof (hr_entries _ _ Hok).
  unfold hash_list. split.
  - intros Hh. assert (0 <= h < N) as Hr.
    { destruct (Z.leb_spec (h0 + c) N); [|destruct (Z.ltb_spec c N)];
        [apply elem_of_seqZ in Hh; lia| |apply elem_of_seqZ in Hh; lia].
      apply elem_of_app in Hh as [Hh%elem_of_seqZ|Hh%elem_of_seqZ]; lia. }
    destruct (decide (h0 <= h < h0 + c)) as [Hd|Hd].
    + exists (h - h0). split; [lia|]. rewrite (hr_hash _ _ Hok) by lia. rewrite Z.mod_small; lia.
    + exists (h - h0 + N). destruct (Z.leb_spec (h0 + c) N) as [|Hm]; [apply elem_of_seqZ in Hh; lia|].
      assert (0 <= h - h0 + N < c) as Hi.
      { destruct (Z.ltb_spec c N); [|lia].
        apply elem_of_app in Hh as [Hh%elem_of_seqZ|Hh%elem_of_seqZ]; lia. }
      split; [done|]. rewrite (hr_hash _ _ Hok) by done. symmetry. apply (Z.mod_unique _ _ 1); lia.
  - intros (i & Hi & <-). rewrite (hr_hash _ _ Hok) by done.
    pose proof (Z.mod_pos_bound (h0 + i) N ltac:(lia)) as Hb.
    destruct (Z.leb_spec (h0 + c) N) as [Hm|Hm].
    + rewrite Z.mod_small by lia. apply elem_of_seqZ. lia.
    + destruct (Z.ltb_spec c N) as [Hc|Hc]; [|apply elem_of_seqZ; lia].
      destruct (decide (h0 + i < N)) as [Hs|Hs].
      * rewrite Z.mod_small by lia. apply elem_of_app. right. apply elem_of_seqZ. lia.
      * replace ((h0 + i) `mod` N) with (h0 + i - N) by (apply (Z.mod_unique _ _ 1); lia).
        apply elem_of_app. left. apply elem_of_seqZ. lia.
Qed.

Lemma seqZ_sorted a n : StronglySorted Z.lt (seqZ a n).
Proof using.
  destruct (decide (0 <= n)); [|rewrite seqZ_nil by lia; constructor].
  revert a. pattern n. apply natlike_ind; [intros a; rewrite seqZ_nil by lia; constructor| |done].
  intros m Hm IH a. rewrite seqZ_cons by lia. replace (Z.pred (Z.succ m)) with m by lia. constructor; [done|].
  apply Forall_forall. intros x Hx%elem_of_seqZ. lia.
Qed.

Lemma sorted_app (l1 l2 : list Z) :
  StronglySorted Z.lt l1 -> StronglySorted Z.lt l2 -> (forall x y, x ∈ l1 -> y ∈ l2 -> x < y) ->
  StronglySorted Z.lt (l1 ++ l2).
Proof using.
  intros H1 H2 H. induction H1 as [|x l1 H1 IH Hx]; [done|]. simpl. constructor.
  - apply IH. intros y z Hy Hz. apply H; [by right|done].
  - apply Forall_app. split; [done|]. apply Forall_forall. intros y Hy. apply H; [by left|done].
Qed.

Lemma hash_list_sorted : StronglySorted Z.lt hash_list.
Proof using Hok.
  unfold hash_list. destruct (h0 + c <=? N) eqn:?; [apply seqZ_sorted|].
  destruct (c <? N) eqn:?; [|apply seqZ_sorted].
  apply sorted_app; [apply seqZ_sorted..|]. intros x y Hx%elem_of_seqZ Hy%elem_of_seqZ. lia.
Qed.

Lemma in_range_elem cid cl :
  ocf_req_hash_in_range cfg req cid cl = true <-> ocf_metadata_hash_func cfg cl cid ∈ hash_list.
Proof using Hok.
  pose proof (hr_first _ _ Hok). pose proof (hr_count _ _ Hok). pose proof (hr_entries _ _ Hok).
  unfold ocf_req_hash_in_range. set (h := ocf_metadata_hash_func cfg cl cid).
  assert (0 <= h < N) as Hh by (apply Z.mod_pos_bound; lia).
  unfold hash_list. destruct (Z.leb_spec (h0 + c) N) as [Hm|Hm].
  - destruct (range_mono Hm) as (-> & -> & ->). simpl.
    rewrite andb_true_iff, !Z.leb_le, elem_of_seqZ. lia.
  - destruct (range_wrap Hm) as (-> & -> & ->). destruct (Z.ltb_spec c N) as [Hc|Hc]; simpl.
    + unfold _GAP_START. rewrite last_hash_wrap, gap_val by done. rewrite u32_small by lia.
      rewrite orb_true_iff, !andb_true_iff, !Z.leb_le, Z.ltb_lt, elem_of_app, !elem_of_seqZ. lia.
    + rewrite andb_true_iff, !Z.leb_le, elem_of_seqZ. lia.
Qed.
End buckets.

(** ** Threads that take locks in order cannot deadlock *)

(** The order of the locks: global, hash buckets, pages, LRU lists,
    partitions, each by index. *)
Definition lock_class (l : lock_id) : Z * Z :=
  match l with
  | LGlobal i => (0, i) | LHash h => (1, h) | LPage p => (2, p) | LLru i => (3, i) | LPartition p => (4, p)
  end.
Definition lock_lt (l l' : lock_id) : Prop :=
  (lock_class l).1 < (lock_class l').1 \/
  (lock_class l).1 = (lock_class l').1 /\ (lock_class l).2 < (lock_class l').2.

#[export] Instance lock_lt_dec l l' : Decision (lock_lt l l').
Proof. unfold lock_lt. apply _. Defined.

(** A thread: the locks it holds and the operations to come. *)
Record thread := mkThread { held_locks : list (lock_mode * lock_id); todo : list lock_op }.

(** A lock can be taken when nobody holds it in a conflicting mode. *)
Definition compatible (m : lock_mode) (l : lock_id) (ml : lock_mode * lock_id) : Prop :=
  ml.2 <> l \/ (m = RD /\ ml.1 = RD).

Definition can_take (m : lock_mode) (l : lock_id) (ts : list thread) : Prop :=
  forall t ml, t ∈ ts -> ml ∈ held_locks t -> compatible m l ml.

(** Releasing one of the holds of a lock. *)
Fixpoint drop_one (x : lock_mode * lock_id) (l : list (lock_mode * lock_id)) : list (lock_mode * lock_id) :=
  match l with
  | [] => []
  | y :: l => if decide (x = y) then l else y :: drop_one x l
  end.

Inductive pool_step : list thread -> list thread -> Prop :=
  | step_down ts i held m l rest :
      ts !! i = Some (mkThread held (Down m l :: rest)) -> can_take m l ts ->
      pool_step ts (<[i := mkThread ((m, l) :: held) rest]> ts)
  | step_up ts i held m l rest :
      ts !! i = Some (mkThread held (Up m l :: rest)) -> (m, l) ∈ held ->
      pool_step ts (<[i := mkThread (drop_one (m, l) held) rest]> ts).

(** A thread that only takes locks above those it holds, releases what it
    holds, and ends with nothing. *)
Fixpoint in_order (held : list (lock_mode * lock_id)) (ops : list lock_op) : Prop :=
  match ops with
  | [] => held = []
  | Down m l :: ops => (forall ml, ml ∈ held -> lock_lt ml.2 l) /\ in_order ((m, l) :: held) ops
  | Up m l :: ops => (m, l) ∈ held /\ in_order (drop_one (m, l) held) ops
  end.

Definition pool_ok (ts : list thread) : Prop := forall t, t ∈ ts -> in_order (held_locks t) (todo t).

Lemma pool_ok_insert ts i t : pool_ok ts -> in_order (held_locks t) (todo t) -> pool_ok (<[i := t]> ts).
Proof.
  intros Hok Ht t' Ht'. apply list_elem_of_lookup in Ht' as [j Hj].
  apply list_lookup_insert_Some in Hj as [(-> & <- & _)|[_ Hj]]; [done|].
  apply Hok. by eapply list_elem_of_lookup_2.
Qed.

Lemma pool_step_ok ts ts' : pool_ok ts -> pool_step ts ts' -> pool_ok ts'.
Proof.
  intros Hok Hs. destruct Hs as [ts i held m l rest Hi _|ts i held m l rest Hi _].
  - apply pool_ok_insert; [done|]. apply list_elem_of_lookup_2, Hok in Hi as [_ H]. done.
  - apply pool_ok_insert; [done|]. apply list_elem_of_lookup_2, Hok in Hi as [_ H]. done.
Qed.

Lemma pool_steps_ok ts ts' : pool_ok ts -> rtc pool_step ts ts' -> pool_ok ts'.
Proof. intros Hok Hs. induction Hs; [done|]. apply IHHs. by eapply pool_step_ok. Qed.

Definition blocked (ts : list thread) (t : thread) (l : lock_id) : Prop :=
  exists m rest, t ∈ ts /\ todo t = Down m l :: rest /\ ~ can_take m l ts.

#[export] Instance compatible_dec m l ml : Decision (compatible m l ml).
Proof. unfold compatible. apply _. Defined.

Lemma can_take_Forall m l ts :
  can_take m l ts <-> Forall (fun t => Forall (compatible m l) (held_locks t)) ts.
Proof.
  split.
  - intros Hc. apply Forall_forall. intros t Ht. apply Forall_forall. intros ml Hml. by eapply Hc.
  - intros Hf t ml Ht Hml. rewrite Forall_forall in Hf. specialize (Hf t Ht). rewrite Forall_forall in Hf. by apply Hf.
Qed.

(** If nobody can step, whoever holds the lock a thread waits for waits for a
    higher lock itself. *)
Lemma blocked_chain ts t l :
  pool_ok ts -> (forall ts', ~ pool_step ts ts') -> blocked ts t l -> exists t' l', blocked ts t' l' /\ lock_lt l l'.
Proof.
  intros Hok Hno (m & rest & Ht & Htodo & Hcan).
  rewrite can_take_Forall in Hcan. apply not_Forall_Exists in Hcan; [|apply _].
  apply Exists_exists in Hcan as (t' & Ht' & Hf). simpl in Hf. apply not_Forall_Exists in Hf; [|apply _].
  apply Exists_exists in Hf as (ml & Hml & Hn). simpl in Hn.
  assert (ml.2 = l) as Hl by (destruct (decide (ml.2 = l)) as [|H]; [done|]; exfalso; apply Hn; by left).
  pose proof (Hok t' Ht') as Hord. destruct t' as [held ops]. simpl in *.
  destruct ops as [|[m' l'|m' l'] ops]; simpl in Hord.
  - subst held. by apply elem_of_nil in Hml.
  - destruct Hord as [Hlt _]. exists (mkThread held (Down m' l' :: ops)), l'. split.
    + exists m', ops. split_and!; [done|done|]. intros Hc.
      apply list_elem_of_lookup in Ht' as [i Hi]. by eapply Hno, step_down.
    + rewrite <- Hl. by apply Hlt.
  - exfalso. destruct Hord as [Hin _]. apply list_elem_of_lookup in Ht' as [i Hi]. by eapply Hno, step_up.
Qed.

(** The rank of a lock in an order type that is well founded from above on the
    locks the pool mentions. *)
Lemma lock_lt_trans l1 l2 l3 : lock_lt l1 l2 -> lock_lt l2 l3 -> lock_lt l1 l3.
Proof. unfold lock_lt. lia. Qed.
Lemma lock_lt_irrefl l : ~ lock_lt l l.
Proof. unfold lock_lt. lia. Qed.

(** A list of locks in which every lock has a higher one is empty. *)
Lemma no_infinite_chain (ls : list lock_id) :
  (forall l, l ∈ ls -> exists l', l' ∈ ls /\ lock_lt l l') -> ls = [].
Proof.
  intros H. destruct ls as [|l0 ls0]; [done|]. exfalso. set (ls := l0 :: ls0) in *.
  assert (forall n l, l ∈ ls -> exists c, length c = n /\ StronglySorted lock_lt (l :: c) /\ forall x, x ∈ c -> x ∈ ls) as Hc.
  { induction n as [|n IH]; intros l Hl; [exists []; split_and!; [done|by repeat constructor|]; intros x Hx; by apply elem_of_nil in Hx|].
    destruct (H l Hl) as (l' & Hl' & Hlt). destruct (IH l' Hl') as (c & Hlen & Hs & Hin).
    exists (l' :: c). split_and!; [by simpl; rewrite Hlen| |].
    - constructor; [done|]. constructor; [done|]. apply StronglySorted_inv in Hs as [_ Hs].
      eapply Forall_impl; [exact Hs|]. intros x. by apply lock_lt_trans.
    - intros x [->|Hx]%elem_of_cons; [done|by apply Hin]. }
  destruct (Hc (length ls) l0) as (c & Hlen & Hs & Hin); [by left|].
  assert (NoDup (l0 :: c)) as Hnd.
  { clear -Hs. induction Hs as [|x l _ IH Hx]; constructor; [|done]. intros Hin. rewrite Forall_forall in Hx.
    by eapply lock_lt_irrefl, Hx. }
  assert (length (l0 :: c) <= length ls)%nat; [|simpl in *; lia].
  apply submseteq_length, NoDup_submseteq; [done|]. intros x [->|Hx]%elem_of_cons; [by left|by apply Hin].
Qed.

Definition next_lock (t : thread) : option lock_id :=
  match todo t with Down _ l :: _ => Some l | _ => None end.

(** Progress: a pool of ordered threads that cannot step has finished. *)
Lemma pool_progress ts :
  pool_ok ts -> (forall ts', ~ pool_step ts ts') -> forall t, t ∈ ts -> todo t = [].
Proof.
  intros Hok Hno t Ht. destruct t as [held ops]. simpl.
  assert (forall t' l, t' ∈ ts -> next_lock t' = Some l -> blocked ts t' l) as Hbl.
  { intros t' l Ht' Hn. destruct t' as [held' [|[m' l'|m' l'] ops']]; try done. injection Hn as ->.
    exists m', ops'. split_and!; [done|done|]. intros Hc. apply list_elem_of_lookup in Ht' as [i Hi].
    by eapply Hno, step_down. }
  assert (omap next_lock ts = []) as Hnil.
  { apply no_infinite_chain. intros l (t' & Ht' & Hn)%list_elem_of_omap.
    destruct (blocked_chain ts t' l Hok Hno) as (t2 & l2 & Hb & Hlt); [by apply Hbl|].
    exists l2. split; [|done]. apply list_elem_of_omap. exists t2. destruct Hb as (m2 & rest2 & Ht2 & Htodo & _).
    split; [done|]. unfold next_lock. by rewrite Htodo. }
  pose proof (Hok _ Ht) as Hord. destruct ops as [|[m l|m l] ops]; [done| |].
  - exfalso. assert (l ∈ omap next_lock ts) as Hl by (apply list_elem_of_omap; by eexists).
    rewrite Hnil in Hl. by apply elem_of_nil in Hl.
  - exfalso. destruct Hord as [Hin _]. apply list_elem_of_lookup in Ht as [i Hi]. by eapply Hno, step_up.
Qed.

(** Every step shortens what is left to do. *)
Definition pool_size (ts : list thread) : nat := sum_list (length ∘ todo <$> ts).

Lemma pool_size_insert ts i t t' : ts !! i = Some t ->
  (pool_size (<[i := t']> ts) + length (todo t) = pool_size ts + length (todo t'))%nat.
Proof.
  unfold pool_size. revert i. induction ts as [|u ts IH]; intros [|i] Hi; simpl in *; try done.
  - injection Hi as ->. lia.
  - specialize (IH i Hi). unfold fmap in IH. lia.
Qed.

Lemma pool_step_size ts ts' : pool_step ts ts' -> pool_size ts = S (pool_size ts').
Proof.
  intros Hs. destruct Hs as [ts i held m l rest Hi _|ts i held m l rest Hi _].
  - pose proof (pool_size_insert ts i _ (mkThread ((m, l) :: held) rest) Hi). simpl in *. lia.
  - pose proof (pool_size_insert ts i _ (mkThread (drop_one (m, l) held) rest) Hi). simpl in *. lia.
Qed.

(** ** The operations of the lock functions *)

(** [m] performs the operations [ops]. *)
Definition performs (m : M (list lock_op) unit) (ops : list lock_op) : Prop :=
  forall t, m t = Some (tt, t ++ ops).

Lemma performs_emit o : performs (emit o) [o].
Proof. done. Qed.
Lemma performs_ret : performs (mret tt) [].
Proof. intros t. by rewrite app_nil_r. Qed.
Lemma performs_bind m k o1 o2 : performs m o1 -> performs k o2 -> performs (m;; k) (o1 ++ o2).
Proof. intros H1 H2 t. unfold mbind, M_bind. by rewrite H1, H2, app_assoc. Qed.
Lemma performs_bug (b : bool) m ops : b = false -> performs m ops -> performs (BUG_ON b;; m) ops.
Proof. intros -> Hm t. unfold mbind, M_bind, BUG_ON. simpl. apply Hm. Qed.

Lemma performs_range n i f g : (forall j, i <= j < i + Z.of_nat n -> performs (f j) [g j]) ->
  performs (for_range n i f) (g <$> seqZ i (Z.of_nat n)).
Proof.
  revert i. induction n as [|n IH]; intros i Hf; cbn [for_range]; [apply performs_ret|].
  rewrite seqZ_cons by lia. replace (Z.pred (Z.of_nat (S n))) with (Z.of_nat n) by lia. rewrite fmap_cons.
  apply (performs_bind _ _ [_]); [apply Hf; lia|]. apply IH. intros j Hj. apply Hf. lia.
Qed.

Lemma performs_loop (l : list Z) (f : Z -> M (list lock_op) unit) (g : Z -> lock_op) : (forall h, h ∈ l -> performs (f h) [g h]) ->
  performs (foldr (fun h k => f h;; k) (mret tt) l) (g <$> l).
Proof.
  induction l as [|h l IH]; intros Hf; [apply performs_ret|].
  rewrite fmap_cons. apply (performs_bind _ _ [_]); [apply Hf; by left|]. apply IH. intros h' Hh'. apply Hf. by right.
Qed.

Section performs.
Context (cfg : config).

Lemma naked_lock_performs h (m : lock_mode) : h < hash_table_entries cfg ->
  performs (ocf_hb_id_naked_lock cfg h (if decide (m = WR) then OCF_METADATA_WR else OCF_METADATA_RD))
    [Down m (LHash h)].
Proof.
  intros Hh. unfold ocf_hb_id_naked_lock. apply performs_bug; [by apply Z.leb_gt|]. by destruct m.
Qed.
Lemma naked_unlock_performs h (m : lock_mode) : h < hash_table_entries cfg ->
  performs (ocf_hb_id_naked_unlock cfg h (if decide (m = WR) then OCF_METADATA_WR else OCF_METADATA_RD))
    [Up m (LHash h)].
Proof.
  intros Hh. unfold ocf_hb_id_naked_unlock. apply performs_bug; [by apply Z.leb_gt|]. by destruct m.
Qed.

Lemma hash_list_range req h : hash_req_ok cfg req -> h ∈ hash_list cfg req -> 0 <= h < hash_table_entries cfg.
Proof.
  intros Hok (i & Hi & <-)%(elem_hash_list cfg req Hok). rewrite (hr_hash _ _ Hok) by done.
  apply Z.mod_pos_bound. apply (hr_entries _ _ Hok).
Qed.

Lemma for_hashes_performs req f g : hash_req_ok cfg req ->
  (forall h, 0 <= h < hash_table_entries cfg -> performs (f h) [g h]) ->
  performs (for_hashes cfg req f) (g <$> hash_list cfg req).
Proof.
  intros Hok Hf t. unfold for_hashes, lift. rewrite (for_each_hash_list cfg req Hok).
  unfold mbind, M_bind. simpl. apply performs_loop. intros h Hh. apply Hf. by eapply hash_list_range.
Qed.
End performs.

(** ** Lists of operations in order *)

Definition downs (m : lock_mode) (ls : list lock_id) : list lock_op := Down m <$> ls.
Definition ups (m : lock_mode) (ls : list lock_id) : list lock_op := Up m <$> ls.
Definition held_of (m : lock_mode) (ls : list lock_id) : list (lock_mode * lock_id) := (fun l => (m, l)) <$> ls.

Lemma drop_one_perm x l : x ∈ l -> l ≡ₚ x :: drop_one x l.
Proof.
  induction l as [|y l IH]; [by intros ?%elem_of_nil|]. intros Hx. simpl. destruct (decide (x = y)) as [->|Hne]; [done|].
  apply elem_of_cons in Hx as [|Hx]; [done|]. rewrite (IH Hx) at 1. apply perm_swap.
Qed.

#[export] Instance in_order_perm : Proper ((≡ₚ) ==> (=) ==> iff) in_order.
Proof.
  assert (forall ops held held', held ≡ₚ held' -> in_order held ops -> in_order held' ops) as H.
  { induction ops as [|[m l|m l] ops IH]; intros held held' Hp; simpl.
    - intros ->. by apply Permutation_nil.
    - intros [Hlt Ho]. split; [intros ml Hml; apply Hlt; by rewrite Hp|]. eapply IH; [|exact Ho]. by rewrite Hp.
    - intros [Hin Ho]. assert ((m, l) ∈ held') as Hin' by (by rewrite <- Hp).
      split; [done|]. eapply IH; [|exact Ho].
      apply (Permutation_cons_inv (a := (m, l))). rewrite <- !drop_one_perm by done. done. }
  intros h1 h2 Hp o1 o2 <-. split; apply H; by rewrite Hp.
Qed.

Lemma in_order_downs m ls held ops :
  StronglySorted lock_lt ls -> (forall l ml, l ∈ ls -> ml ∈ held -> lock_lt ml.2 l) ->
  in_order (held_of m ls ++ held) ops -> in_order held (downs m ls ++ ops).
Proof.
  intros Hs. revert held. induction Hs as [|l ls Hs IH Hl]; intros held Hlt Ho; [done|].
  simpl. split; [intros ml Hml; apply Hlt; [by left|done]|]. apply IH.
  - intros l' ml Hl' [->|Hml]%elem_of_cons; [|apply Hlt; [by right|done]].
    simpl. rewrite Forall_forall in Hl. by apply Hl.
  - eapply in_order_perm; [|done|exact Ho]. simpl. by rewrite Permutation_middle.
Qed.

Lemma in_order_ups m ls held ops : in_order held ops -> in_order (held_of m ls ++ held) (ups m ls ++ ops).
Proof.
  induction ls as [|l ls IH]; intros Ho; [done|]. simpl. split; [by left|]. rewrite decide_True by done. by apply IH.
Qed.

Lemma in_order_ups_perm m ls held held' ops :
  held ≡ₚ held_of m ls ++ held' -> in_order held' ops -> in_order held (ups m ls ++ ops).
Proof. intros Hp Ho. rewrite Hp. by apply in_order_ups. Qed.

(** ** Sessions: what the callers do under the metadata locks *)

(** A short critical section inside a session. *)
Inductive inner :=
  | IPageRd (p : Z) | IPageWr (p : Z) | ILruWr (i : Z) | ILruRd (i : Z) | ILruAll | IPartition (p : Z).

Definition run_inner (i : inner) : M (list lock_op) unit :=
  match i with
  | IPageRd p => ocf_collision_start_shared_access p;; ocf_collision_end_shared_access p
  | IPageWr p => ocf_collision_start_exclusive_access p;; ocf_collision_end_exclusive_access p
  | ILruWr i => ocf_metadata_lru_wr_lock i;; ocf_metadata_lru_wr_unlock i
  | ILruRd i => ocf_metadata_lru_rd_lock i;; ocf_metadata_lru_rd_unlock i
  | ILruAll => ocf_metadata_lru_wr_lock_all;; ocf_metadata_lru_wr_unlock_all
  | IPartition p => ocf_metadata_partition_lock p;; ocf_metadata_partition_unlock p
  end.

Fixpoint run_inners (b : list inner) : M (list lock_op) unit :=
  match b with [] => mret tt | i :: b => run_inner i;; run_inners b end.

Inductive session :=
  | SExclusive (b : list inner)
  | SReqRd (req : hash_req) (b : list inner)
  | SReqWr (req : hash_req) (b : list inner)
  | SUpgrade (req : hash_req) (b1 b2 : list inner)
  | SClineRd (lock_idx core_id core_line : Z) (b : list inner)
  | SClineWr (lock_idx core_id core_line : Z) (b : list inner)
  | SIdWr (lock_idx hash : Z) (b : list inner).

Definition run_session (cfg : config) (s : session) : M (list lock_op) unit :=
  match s with
  | SExclusive b =>
      ocf_metadata_start_exclusive_access;; run_inners b;; ocf_metadata_end_exclusive_access
  | SReqRd req b => ocf_hb_req_prot_lock_rd cfg req;; run_inners b;; ocf_hb_req_prot_unlock_rd cfg req
  | SReqWr req b => ocf_hb_req_prot_lock_wr cfg req;; run_inners b;; ocf_hb_req_prot_unlock_wr cfg req
  | SUpgrade req b1 b2 =>
      ocf_hb_req_prot_lock_rd cfg req;; run_inners b1;; ocf_hb_req_prot_lock_upgrade cfg req;;
      run_inners b2;; ocf_hb_req_prot_unlock_wr cfg req
  | SClineRd idx cid cl b =>
      ocf_hb_cline_prot_lock_rd cfg idx cid cl;; run_inners b;; ocf_hb_cline_prot_unlock_rd cfg idx cid cl
  | SClineWr idx cid cl b =>
      ocf_hb_cline_prot_lock_wr cfg idx cid cl;; run_inners b;; ocf_hb_cline_prot_unlock_wr cfg idx cid cl
  | SIdWr idx hash b => ocf_hb_id_prot_lock_wr cfg idx hash;; run_inners b;; ocf_hb_id_prot_unlock_wr cfg idx hash
  end.

Definition session_ok (cfg : config) (s : session) : Prop :=
  match s with
  | SExclusive _ => True
  | SReqRd req _ | SReqWr req _ | SUpgrade req _ _ => hash_req_ok cfg req
  | SClineRd idx _ _ _ | SClineWr idx _ _ _ => 0 < hash_table_entries cfg
  | SIdWr idx hash _ => 0 <= hash < hash_table_entries cfg
  end.

(** The lock operations of a session. *)
Definition session_ops (cfg : config) (s : session) : option (list lock_op) := snd <$> run_session cfg s [].

(** Locks below the inner ones. *)
Definition outer_held (held : list (lock_mode * lock_id)) : Prop :=
  forall ml, ml ∈ held -> (lock_class ml.2).1 < 2.

Lemma seqZ_locks_sorted f a n :
  (forall i j, i < j -> lock_lt (f i) (f j)) -> StronglySorted lock_lt (f <$> seqZ a n).
Proof.
  intros Hf. pose proof (seqZ_sorted a n) as Hs. induction Hs as [|x l Hs IH Hx]; [constructor|].
  rewrite fmap_cons. constructor; [done|]. apply Forall_fmap. eapply Forall_impl; [exact Hx|]. intros y. apply Hf.
Qed.

Lemma sorted_fmap f (l : list Z) :
  (forall i j, i < j -> lock_lt (f i) (f j)) -> StronglySorted Z.lt l -> StronglySorted lock_lt (f <$> l).
Proof.
  intros Hf Hs. induction Hs as [|x l Hs IH Hx]; [constructor|].
  rewrite fmap_cons. constructor; [done|]. apply Forall_fmap. eapply Forall_impl; [exact Hx|]. intros y. apply Hf.
Qed.

(** Taking the locks [ls] around [mid]. *)
Lemma in_order_section m ls held mid ops :
  StronglySorted lock_lt ls -> (forall l ml, l ∈ ls -> ml ∈ held -> lock_lt ml.2 l) ->
  in_order (held_of m ls ++ held) (mid ++ ups m ls ++ ops) -> in_order held (downs m ls ++ mid ++ ups m ls ++ ops).
Proof. intros Hs Hlt Ho. by apply in_order_downs. Qed.

Definition inner_mode (i : inner) : lock_mode := match i with IPageRd _ | ILruRd _ => RD | _ => WR end.
Definition inner_locks (i : inner) : list lock_id :=
  match i with
  | IPageRd p | IPageWr p => [LPage p]
  | ILruWr i | ILruRd i => [LLru i]
  | ILruAll => LLru <$> seqZ 0 OCF_NUM_LRU_LISTS
  | IPartition p => [LPartition p]
  end.
Definition inner_ops (i : inner) : list lock_op :=
  downs (inner_mode i) (inner_locks i) ++ ups (inner_mode i) (inner_locks i).

Lemma run_inner_performs i : performs (run_inner i) (inner_ops i).
Proof.
  destruct i; try apply (performs_bind _ _ [_] [_]); try apply performs_emit.
  apply performs_bind.
  - unfold downs, inner_locks. rewrite <- list_fmap_compose.
    apply (performs_range (Z.to_nat OCF_NUM_LRU_LISTS) 0 _ (fun i => Down WR (LLru i))). intros j _. apply performs_emit.
  - unfold ups, inner_locks. rewrite <- list_fmap_compose.
    apply (performs_range (Z.to_nat OCF_NUM_LRU_LISTS) 0 _ (fun i => Up WR (LLru i))). intros j _. apply performs_emit.
Qed.

Lemma run_inners_performs b : performs (run_inners b) (mjoin (inner_ops <$> b)).
Proof.
  induction b as [|i b IH]; [apply performs_ret|]. apply performs_bind; [apply run_inner_performs|done].
Qed.

Lemma inner_locks_sorted i : StronglySorted lock_lt (inner_locks i).
Proof.
  assert (forall l, StronglySorted lock_lt [l]) as H1 by (intros l; by constructor; constructor).
  destruct i; try apply H1. apply (seqZ_locks_sorted LLru 0). unfold lock_lt. simpl. lia.
Qed.

Lemma inner_in_order i held ops : outer_held held -> in_order held ops -> in_order held (inner_ops i ++ ops).
Proof.
  intros Hh Ho. unfold inner_ops. rewrite <- app_assoc.
  apply (in_order_section _ _ _ []); [apply inner_locks_sorted| |by apply in_order_ups].
  intros l ml Hl Hml. apply Hh in Hml. left. assert (2 <= (lock_class l).1); [|lia].
  destruct i; cbn [inner_locks] in Hl; try (apply list_elem_of_singleton in Hl as ->; simpl; lia).
  apply list_elem_of_fmap in Hl as (j & -> & _). simpl. lia.
Qed.

Lemma inners_in_order b held ops :
  outer_held held -> in_order held ops -> in_order held (mjoin (inner_ops <$> b) ++ ops).
Proof.
  intros Hh Ho. induction b as [|i b IH]; [done|]. simpl. rewrite <- app_assoc. by apply inner_in_order.
Qed.

Section sessions.
Context (cfg : config).

(** The operations of a session, with the hash list written out. *)
Definition req_locks (req : hash_req) : list lock_id := LHash <$> hash_list cfg req.

Definition ops_of (s : session) : list lock_op :=
  let body b := mjoin (inner_ops <$> b) in
  match s with
  | SExclusive b =>
      downs WR (LGlobal <$> seqZ 0 OCF_NUM_GLOBAL_META_LOCKS) ++ body b ++
      ups WR ((fun i => LGlobal (OCF_NUM_GLOBAL_META_LOCKS - i - 1)) <$> seqZ 0 OCF_NUM_GLOBAL_META_LOCKS)
  | SReqRd req b =>
      downs RD [LGlobal (lock_idx req)] ++ downs RD (req_locks req) ++ body b ++
      ups RD (req_locks req) ++ ups RD [LGlobal (lock_idx req)]
  | SReqWr req b =>
      downs RD [LGlobal (lock_idx req)] ++ downs WR (req_locks req) ++ body b ++
      ups WR (req_locks req) ++ ups RD [LGlobal (lock_idx req)]
  | SUpgrade req b1 b2 =>
      downs RD [LGlobal (lock_idx req)] ++ downs RD (req_locks req) ++ body b1 ++
      ups RD (req_locks req) ++ downs WR (req_locks req) ++ body b2 ++
      ups WR (req_locks req) ++ ups RD [LGlobal (lock_idx req)]
  | SClineRd idx cid cl b =>
      let l := [LHash (ocf_metadata_hash_func cfg cl cid)] in
      downs RD [LGlobal idx] ++ downs RD l ++ body b ++ ups RD l ++ ups RD [LGlobal idx]
  | SClineWr idx cid cl b =>
      let l := [LHash (ocf_metadata_hash_func cfg cl cid)] in
      downs RD [LGlobal idx] ++ downs WR l ++ body b ++ ups WR l ++ ups RD [LGlobal idx]
  | SIdWr idx hash b =>
      downs RD [LGlobal idx] ++ downs WR [LHash hash] ++ body b ++ ups WR [LHash hash] ++ ups RD [LGlobal idx]
  end.

Lemma for_hashes_downs req m : hash_req_ok cfg req ->
  performs (for_hashes cfg req (fun h => ocf_hb_id_naked_lock cfg h
    (if decide (m = WR) then OCF_METADATA_WR else OCF_METADATA_RD))) (downs m (req_locks req)).
Proof.
  intros Hok. unfold downs, req_locks. rewrite <- list_fmap_compose.
  apply for_hashes_performs; [done|]. intros h Hh. apply naked_lock_performs. lia.
Qed.
Lemma for_hashes_ups req m : hash_req_ok cfg req ->
  performs (for_hashes cfg req (fun h => ocf_hb_id_naked_unlock cfg h
    (if decide (m = WR) then OCF_METADATA_WR else OCF_METADATA_RD))) (ups m (req_locks req)).
Proof.
  intros Hok. unfold ups, req_locks. rewrite <- list_fmap_compose.
  apply for_hashes_performs; [done|]. intros h Hh. apply naked_unlock_performs. lia.
Qed.

Lemma run_session_performs s : session_ok cfg s -> performs (run_session cfg s) (ops_of s).
Proof.
  intros Hok. destruct s as [b|req b|req b|req b1 b2|idx cid cl b|idx cid cl b|idx hash b];
    cbn [session_ok] in Hok; cbn [run_session ops_of].
  - apply performs_bind; [|apply performs_bind; [apply run_inners_performs|]].
    + unfold downs. rewrite <- list_fmap_compose.
      apply (performs_range (Z.to_nat OCF_NUM_GLOBAL_META_LOCKS) 0). intros j _. apply performs_emit.
    + unfold ups. rewrite <- list_fmap_compose.
      apply (performs_range (Z.to_nat OCF_NUM_GLOBAL_META_LOCKS) 0). intros j _. apply performs_emit.
  - rewrite app_assoc. apply performs_bind; [|apply performs_bind; [apply run_inners_performs|]].
    + apply performs_bind; [apply performs_emit|by apply (for_hashes_downs req RD)].
    + apply performs_bind; [by apply (for_hashes_ups req RD)|apply performs_emit].
  - rewrite app_assoc. apply performs_bind; [|apply performs_bind; [apply run_inners_performs|]].
    + apply performs_bind; [apply performs_emit|by apply (for_hashes_downs req WR)].
    + apply performs_bind; [by apply (for_hashes_ups req WR)|apply performs_emit].
  - rewrite app_assoc, (app_assoc (ups RD _)). apply performs_bind; [|apply performs_bind; [apply run_inners_performs|]].
    + apply performs_bind; [apply performs_emit|by apply (for_hashes_downs req RD)].
    + apply performs_bind; [|apply performs_bind; [apply run_inners_performs|]].
      * apply performs_bind; [by apply (for_hashes_ups req RD)|by apply (for_hashes_downs req WR)].
      * apply performs_bind; [by apply (for_hashes_ups req WR)|apply performs_emit].
  - assert (ocf_metadata_hash_func cfg cl cid < hash_table_entries cfg) as Hh
      by (apply Z.mod_pos_bound; done).
    rewrite app_assoc. apply performs_bind; [|apply performs_bind; [apply run_inners_performs|]].
    + apply performs_bind; [apply performs_emit|by apply (naked_lock_performs cfg _ RD)].
    + apply performs_bind; [by apply (naked_unlock_performs cfg _ RD)|apply performs_emit].
  - assert (ocf_metadata_hash_func cfg cl cid < hash_table_entries cfg) as Hh
      by (apply Z.mod_pos_bound; done).
    rewrite app_assoc. apply performs_bind; [|apply performs_bind; [apply run_inners_performs|]].
    + apply performs_bind; [apply performs_emit|by apply (naked_lock_performs cfg _ WR)].
    + apply performs_bind; [by apply (naked_unlock_performs cfg _ WR)|apply performs_emit].  - rewrite app_assoc. apply performs_bind; [|apply performs_bind; [apply run_inners_performs|]].
    + apply performs_bind; [apply performs_emit|apply (naked_lock_performs cfg _ WR); lia].
    + apply performs_bind; [apply (naked_unlock_performs cfg _ WR); lia|apply performs_emit].
Qed.

Lemma req_locks_sorted req : hash_req_ok cfg req -> StronglySorted lock_lt (req_locks req).
Proof.
  intros Hok. apply sorted_fmap; [unfold lock_lt; simpl; lia|by apply hash_list_sorted].
Qed.

Lemma outer_hashes m ls held : outer_held held -> (forall l, l ∈ ls -> (lock_class l).1 < 2) ->
  outer_held (held_of m ls ++ held).
Proof.
  intros Hh Hl ml [(l & -> & Hin)%list_elem_of_fmap|Hin]%elem_of_app; [by apply Hl|by apply Hh].
Qed.

Lemma req_locks_class req l : l ∈ req_locks req -> (lock_class l).1 = 1.
Proof. intros (h & -> & _)%list_elem_of_fmap. done. Qed.

(** A group of hash locks under a shared global lock. *)
Lemma hash_section idx m ls b ops :
  StronglySorted lock_lt ls -> (forall l, l ∈ ls -> (lock_class l).1 = 1) ->
  in_order [(RD, LGlobal idx)] ops ->
  in_order [(RD, LGlobal idx)] (downs m ls ++ mjoin (inner_ops <$> b) ++ ups m ls ++ ops).
Proof.
  intros Hs Hc Ho. apply in_order_section; [done| |].
  - intros l ml Hl ->%list_elem_of_singleton. left. apply Hc in Hl. simpl. lia.
  - apply inners_in_order; [|by apply in_order_ups]. apply outer_hashes.
    + intros ml ->%list_elem_of_singleton. simpl. lia.
    + intros l Hl%Hc. lia.
Qed.

Lemma shared_end idx : in_order [(RD, LGlobal idx)] (ups RD [LGlobal idx]).
Proof. simpl. rewrite decide_True by done. split; [by left|done]. Qed.

Lemma shared_start idx ops : in_order [(RD, LGlobal idx)] ops -> in_order [] (downs RD [LGlobal idx] ++ ops).
Proof. intros Ho. simpl. split; [|done]. by intros ml ?%elem_of_nil. Qed.

Lemma session_in_order s : session_ok cfg s -> in_order [] (ops_of s).
Proof.
  assert (forall l, StronglySorted lock_lt [l]) as H1 by (intros l; by constructor; constructor).
  intros Hok. destruct s as [b|req b|req b|req b1 b2|idx cid cl b|idx cid cl b|idx hash b];
    cbn [session_ok] in Hok; cbn [ops_of].
  - set (ls := LGlobal <$> seqZ 0 OCF_NUM_GLOBAL_META_LOCKS). apply in_order_downs.
    + apply seqZ_locks_sorted. unfold lock_lt. simpl. lia.
    + by intros l ml _ ?%elem_of_nil.
    + rewrite app_nil_r. apply inners_in_order.
      * intros ml (l & -> & (i & -> & _)%list_elem_of_fmap)%list_elem_of_fmap. simpl. lia.
      * rewrite <- (app_nil_r (ups _ _)). apply (in_order_ups_perm _ _ _ []); [|done].
        rewrite app_nil_r. apply fmap_Permutation.
        change ([LGlobal 0; LGlobal 1; LGlobal 2; LGlobal 3] ≡ₚ rev [LGlobal 0; LGlobal 1; LGlobal 2; LGlobal 3]).
        apply Permutation_rev.
  - apply shared_start, hash_section; [by apply req_locks_sorted|apply req_locks_class|apply shared_end].
  - apply shared_start, hash_section; [by apply req_locks_sorted|apply req_locks_class|apply shared_end].
  - apply shared_start, hash_section; [by apply req_locks_sorted|apply req_locks_class|].
    apply hash_section; [by apply req_locks_sorted|apply req_locks_class|apply shared_end].
  - apply shared_start, hash_section; [apply H1|by intros l ->%list_elem_of_singleton|apply shared_end].
  - apply shared_start, hash_section; [apply H1|by intros l ->%list_elem_of_singleton|apply shared_end].
  - apply shared_start, hash_section; [apply H1|by intros l ->%list_elem_of_singleton|apply shared_end].
Qed.
End sessions.

(** Whether some thread can step is decided by looking at the next operations. *)
Lemma pool_step_dec ts : (exists ts', pool_step ts ts') \/ forall ts', ~ pool_step ts ts'.
Proof.
  set (enabled := fun t : thread => match todo t with
    | Down m l :: _ => Forall (fun t => Forall (compatible m l) (held_locks t)) ts
    | Up m l :: _ => (m, l) ∈ held_locks t
    | [] => False
    end).
  assert (forall t, Decision (enabled t)) as Hdec by (intros t; unfold enabled; destruct (todo t) as [|[]]; apply _).
  destruct (decide (Exists enabled ts)) as [He|He]; [left|right].
  - apply Exists_exists in He as (t & Ht & Hen). apply list_elem_of_lookup in Ht as [i Hi].
    destruct t as [held [|[m l|m l] rest]]; [done| |]; unfold enabled in Hen; simpl in Hen.
    + rewrite <- can_take_Forall in Hen. eexists. by eapply step_down.
    + eexists. by eapply step_up.
  - intros ts' Hs. apply He, Exists_exists. destruct Hs as [ts i held m l rest Hi Hc|ts i held m l rest Hi Hc].
    + eexists. split; [by eapply list_elem_of_lookup_2|]. unfold enabled. simpl. by rewrite <- can_take_Forall.
    + eexists. split; [by eapply list_elem_of_lookup_2|]. done.
Qed.

Lemma pool_completes ts : pool_ok ts ->
  exists ts', rtc pool_step ts ts' /\ forall t, t ∈ ts' -> todo t = [] /\ held_locks t = [].
Proof.
  remember (pool_size ts) as n eqn:Hn. revert ts Hn. induction n as [|n IH]; intros ts Hn Hok.
  - exists ts. split; [done|]. intros t Ht. assert (todo t = []) as Ht0.
    { apply pool_progress with ts; [done| |done]. intros ts' Hs%pool_step_size. lia. }
    split; [done|]. specialize (Hok t Ht). by rewrite Ht0 in Hok.
  - destruct (pool_step_dec ts) as [[ts' Hs]|Hno].
    + destruct (IH ts') as (ts'' & Hr & Hd); [apply pool_step_size in Hs; lia|by eapply pool_step_ok|].
      exists ts''. split; [by eapply rtc_l|done].
    + exists ts. split; [done|]. intros t Ht. assert (todo t = []) as Ht0 by (by eapply pool_progress).
      split; [done|]. specialize (Hok t Ht). by rewrite Ht0 in Hok.
Qed.

(** No two threads hold a lock in conflicting modes. *)
Definition pool_exclusive (ts : list thread) : Prop :=
  forall i j t t' ml ml', i <> j -> ts !! i = Some t -> ts !! j = Some t' ->
    ml ∈ held_locks t -> ml' ∈ held_locks t' -> ml.2 = ml'.2 -> ml.1 = RD /\ ml'.1 = RD.

Lemma drop_one_sub x y l : y ∈ drop_one x l -> y ∈ l.
Proof.
  induction l as [|z l IH]; [done|]. simpl. destruct (decide (x = z)); [by right|].
  intros [->|Hy]%elem_of_cons; [by left|right; by apply IH].
Qed.

Lemma pool_step_exclusive ts ts' : pool_exclusive ts -> pool_step ts ts' -> pool_exclusive ts'.
Proof.
  intros Hex Hs. destruct Hs as [ts k held m l rest Hk Hc|ts k held m l rest Hk Hin];
    intros i j t t' ml ml' Hij Hi Hj Hml Hml' Heq;
    apply list_lookup_insert_Some in Hi as [(-> & <- & _)|[Hki Hi]];
    apply list_lookup_insert_Some in Hj as [(-> & <- & _)|[Hkj Hj]]; try done; simpl in *;
    try (by eapply (Hex i j)).
  - apply elem_of_cons in Hml as [->|Hml]; [|by eapply (Hex i j)]. simpl in *.
    destruct (Hc t' ml') as [Hne|[-> H2]]; [by eapply list_elem_of_lookup_2|done|congruence|done].
  - apply elem_of_cons in Hml' as [->|Hml']; [|by eapply (Hex i j)]. simpl in *.
    destruct (Hc t ml) as [Hne|[-> H2]]; [by eapply list_elem_of_lookup_2|done|congruence|done].
  - apply drop_one_sub in Hml. by eapply (Hex i j).
  - apply drop_one_sub in Hml'. by eapply (Hex i j).
Qed.

Lemma pool_steps_exclusive ts ts' : pool_exclusive ts -> rtc pool_step ts ts' -> pool_exclusive ts'.
Proof. intros Hex Hs. induction Hs; [done|]. apply IHHs. by eapply pool_step_exclusive. Qed.

Definition finished (t : thread) : Prop := todo t = [] /\ held_locks t = [].

Lemma sessions_run cfg ss : Forall (session_ok cfg) ss ->
  mapM (session_ops cfg) ss = Some (ops_of cfg <$> ss) /\ pool_ok (mkThread [] <$> (ops_of cfg <$> ss)).
Proof.
  intros Hok. split.
  - apply mapM_Some, Forall2_fmap_r, Forall_Forall2_diag. eapply Forall_impl; [exact Hok|]. intros s Hs.
    unfold session_ops. by rewrite (run_session_performs cfg s Hs).
  - intros t (ops & -> & (s & -> & Hs)%list_elem_of_fmap)%list_elem_of_fmap. simpl.
    apply session_in_order. rewrite Forall_forall in Hok. by apply Hok.
Qed.

(** ** Taking all global locks without waiting *)

Definition globals_set (i k v : Z) (s : sem_state) : sem_state := fun l =>
  match l with LGlobal j => if (i <=? j) && (j <? i + k) then v else s l | _ => s l end.

Lemma try_loop_spec n i s s0 : (forall l, s l = s0 l) ->
  wp (try_exclusive_loop n i) (fun ei s' => exists k, (k <= n)%nat /\ ei.2 = i + Z.of_nat k /\
    (forall l, s' l = globals_set i (Z.of_nat k) (-1) s0 l) /\
    (forall j, i <= j < i + Z.of_nat k -> s0 (LGlobal j) = 0) /\
    (ei.1 = 0 /\ k = n \/
     ei.1 = - OCF_ERR_NO_LOCK /\ (k < n)%nat /\ s0 (LGlobal (i + Z.of_nat k)) <> 0)) s.
Proof.
  assert (forall i s, (forall l, s l = s0 l) -> forall l, s l = globals_set i 0 (-1) s0 l) as H0.
  { intros i' s' Hs l. rewrite Hs. unfold globals_set. destruct l; try done.
    destruct ((i' <=? i0) && (i0 <? i' + 0)) eqn:Hb; [|done]. apply andb_true_iff in Hb. lia. }
  revert i s s0 H0. induction n as [|n IH]; intros i s s0 H0 Hs; cbn [try_exclusive_loop].
  - wp_step. exists 0%nat. simpl. rewrite Z.add_0_r. split_and!; [lia|done|by apply H0|lia|by left].
  - wp_step. unfold env_rwsem_down_write_trylock. do 2 wp_step. unfold id. rewrite Hs.
    destruct (Z.eqb_spec (s0 (LGlobal i)) 0) as [Hz|Hnz].
    + do 3 wp_step. simpl. eapply wp_mono; [apply (IH (i + 1) _ (sem_set (LGlobal i) (-1) s0))|].
      * intros i' s' Hs' l. rewrite Hs'. unfold globals_set. destruct l as [j| | | |]; try done.
        destruct ((i' <=? j) && (j <? i' + 0)) eqn:Hb; [|done]. apply andb_true_iff in Hb. lia.
      * intros l. unfold sem_set. case_decide; [done|apply Hs].
      * intros ei s' (k & Hk & Hi & Hs' & Hall & Hend). exists (S k). split_and!; [lia|lia| | |].
        -- intros l. rewrite Hs'. unfold globals_set, sem_set. destruct l as [j| | | |]; try done.
           destruct (decide (LGlobal j = LGlobal i)) as [[= ->]|Hne].
           ++ replace (i + 1 <=? i) with false by lia. replace (i <=? i) with true by lia.
              by rewrite !(proj2 (Z.ltb_lt i _)) by lia.
           ++ assert (j <> i) by congruence.
              replace ((i + 1 <=? j) && (j <? i + 1 + Z.of_nat k)) with ((i <=? j) && (j <? i + Z.of_nat (S k))); [done|].
              apply eq_true_iff_eq. rewrite !andb_true_iff, !Z.leb_le, !Z.ltb_lt. lia.
        -- intros j Hj. destruct (decide (j = i)) as [->|]; [done|]. specialize (Hall j ltac:(lia)).
           unfold sem_set in Hall. rewrite decide_False in Hall by congruence. done.
        -- replace (i + Z.of_nat (S k)) with (i + 1 + Z.of_nat k) by lia.
           unfold sem_set in Hend. rewrite decide_False in Hend by (intros [=]; lia).
           destruct Hend as [[? ->]|(? & ? & ?)]; [by left|right; split_and!; [done|lia|done]].
    + wp_step. simpl. wp_step. exists 0%nat. simpl. rewrite Z.add_0_r.
      split_and!; [lia|done|by apply H0|lia|]. right. split_and!; [done|lia|done].
Qed.

Lemma release_loop_spec k s : (forall j, 0 <= j < Z.of_nat k -> s (LGlobal j) = -1) ->
  wp (release_loop k) (fun _ s' => forall l, s' l = globals_set 0 (Z.of_nat k) 0 s l) s.
Proof.
  revert s. induction k as [|k IH]; intros s Hs; cbn [release_loop].
  - wp_step. intros [j| | | |]; try done. unfold globals_set.
    destruct ((0 <=? j) && (j <? 0 + Z.of_nat 0)) eqn:Hb; [|done].
    rewrite andb_true_iff, Z.leb_le, Z.ltb_lt in Hb. lia.
  - wp_step. unfold env_rwsem_up_write. do 2 wp_step. unfold id. rewrite Hs by lia. wp_step. wp_step. wp_step.
    eapply wp_mono; [apply IH|].
    + intros j Hj. unfold sem_set. rewrite decide_False by (intros [=]; lia). apply Hs. lia.
    + intros [] s' Hs' l. rewrite Hs'. unfold globals_set, sem_set. destruct l as [j| | | |]; try done.
      destruct (decide (LGlobal j = LGlobal (Z.of_nat k))) as [[= ->]|Hne].
      * rewrite (proj2 (Z.ltb_ge _ _)) by lia. rewrite (proj2 (Z.leb_le 0 _)), (proj2 (Z.ltb_lt _ _)) by lia. done.
      * assert (j <> Z.of_nat k) by congruence.
        replace ((0 <=? j) && (j <? 0 + Z.of_nat k)) with ((0 <=? j) && (j <? 0 + Z.of_nat (S k))); [done|].
        apply eq_true_iff_eq. rewrite !andb_true_iff, !Z.leb_le, !Z.ltb_lt. lia.
Qed.

(** ** Main properties *)

(** A request locks exactly its hash buckets, in order.  The iteration over
    the buckets of a request whose core lines hash to consecutive buckets
    (modulo the size of the table) ends, visits in strictly ascending order
    exactly the buckets its lines hash to, each once, and
    [ocf_req_hash_in_range] tells for any core line whether its bucket is among
    them; no 32-bit computation wraps. *)
Theorem request_buckets cfg req : hash_req_ok cfg req ->
  exists l, for_each_req_hash_asc cfg req = Some l /\ StronglySorted Z.lt l /\
    (forall h, h ∈ l <-> exists i, 0 <= i < core_line_count req /\ map_hash req i = h) /\
    (forall cid cl, ocf_req_hash_in_range cfg req cid cl = true <-> ocf_metadata_hash_func cfg cl cid ∈ l).
Proof.
  intros Hok. exists (hash_list cfg req).
  split_and!; [by apply for_each_hash_list|by apply hash_list_sorted|by apply elem_hash_list|by apply in_range_elem].
Qed.

(** C17: no deadlock.  Any number of threads that lock requests for reading or
    writing, upgrade them, lock single buckets or the whole metadata, with
    critical sections on collision pages, LRU lists and partitions inside: every
    session runs without a failed check, and in every state the threads can
    reach, either all have finished holding nothing or some thread can go on,
    and from there all of them can finish. *)
Theorem metadata_locks_no_deadlock cfg ss : Forall (session_ok cfg) ss ->
  exists opss, mapM (session_ops cfg) ss = Some opss /\
    forall ts, rtc pool_step (mkThread [] <$> opss) ts ->
      (Forall finished ts \/ exists ts', pool_step ts ts') /\
      exists ts', rtc pool_step ts ts' /\ Forall finished ts'.
Proof.
  intros Hok. destruct (sessions_run cfg ss Hok) as [Hm Hp]. exists (ops_of cfg <$> ss). split; [done|].
  intros ts Hr. pose proof (pool_steps_ok _ _ Hp Hr) as Hts.
  destruct (pool_completes ts Hts) as (ts' & Hr' & Hd). split.
  - destruct (pool_step_dec ts) as [|Hno]; [by right|left]. apply Forall_forall. intros t Ht.
    assert (todo t = []) as H0 by (by eapply pool_progress). split; [done|].
    specialize (Hts t Ht). by rewrite H0 in Hts.
  - exists ts'. split; [done|]. by apply Forall_forall.
Qed.

(** The non-blocking exclusive access takes all global locks or none.  It
    succeeds exactly when all of them are free, and then holds all of them for
    writing; otherwise it leaves every lock as it was. *)
Theorem try_exclusive_all_or_nothing s :
  exists r s', ocf_metadata_try_start_exclusive_access s = Some (r, s') /\
    (r = 0 /\ (forall i, 0 <= i < OCF_NUM_GLOBAL_META_LOCKS -> s (LGlobal i) = 0 /\ s' (LGlobal i) = -1) \/
     r = - OCF_ERR_NO_LOCK /\ (forall l, s' l = s l) /\
       exists i, 0 <= i < OCF_NUM_GLOBAL_META_LOCKS /\ s (LGlobal i) <> 0).
Proof.
  assert (wp ocf_metadata_try_start_exclusive_access (fun r s' =>
    r = 0 /\ (forall i, 0 <= i < OCF_NUM_GLOBAL_META_LOCKS -> s (LGlobal i) = 0 /\ s' (LGlobal i) = -1) \/
     r = - OCF_ERR_NO_LOCK /\ (forall l, s' l = s l) /\
       exists i, 0 <= i < OCF_NUM_GLOBAL_META_LOCKS /\ s (LGlobal i) <> 0) s) as (r & s' & H); [|by exists r, s'].
  unfold ocf_metadata_try_start_exclusive_access. wp_step.
  eapply wp_mono; [by apply (try_loop_spec _ 0 s s)|].
  intros [e i] s1 (k & Hk & Hi & Hs1 & Hall & Hend). cbn [fst snd] in *. subst i.
  destruct Hend as [[-> ->]|(-> & Hlt & Hne)].
  - simpl. do 3 wp_step. left. split; [done|]. intros i Hi. split; [apply Hall; done|].
    rewrite Hs1. unfold globals_set. by rewrite (proj2 (Z.leb_le _ _)), (proj2 (Z.ltb_lt _ _)) by (done || apply Hi).
  - replace (negb (- OCF_ERR_NO_LOCK =? 0)) with true by done. wp_step.
    replace (Z.to_nat (0 + Z.of_nat k)) with k by lia.
    eapply wp_mono; [apply release_loop_spec|].
    + intros j Hj. rewrite Hs1. unfold globals_set. by rewrite (proj2 (Z.leb_le _ _)), (proj2 (Z.ltb_lt _ _)) by lia.
    + intros [] s2 Hs2. wp_step. right. split_and!; [done| |exists (0 + Z.of_nat k); split; [lia|done]].
      intros l. rewrite Hs2. unfold globals_set. destruct l as [j| | | |]; try by rewrite Hs1.
      destruct ((0 <=? j) && (j <? 0 + Z.of_nat k)) eqn:Hb.
      * apply andb_true_iff in Hb. rewrite Hall; [done|lia].
      * rewrite Hs1. unfold globals_set. by rewrite Hb.
Qed.

(** A table of five buckets and a request of two lines that hash to 4 and 0. *)
Definition wit_hash_cfg : config := mkConfig 10 5 4096 0 4.
Definition wit_hash_req : hash_req := mkHashReq (fun i => (4 + i) `mod` 5) 2 1.

Lemma wit_hash_req_ok : hash_req_ok wit_hash_cfg wit_hash_req.
Proof. split; try by vm_compute. Qed.

Lemma request_buckets_witness : exists l,
  for_each_req_hash_asc wit_hash_cfg wit_hash_req = Some l /\ StronglySorted Z.lt l /\ l = [0; 4].
Proof.
  destruct (request_buckets wit_hash_cfg wit_hash_req wit_hash_req_ok) as (l & Hl & Hs & _).
  exists l. split_and!; [done|done|]. vm_compute in Hl. by injection Hl.
Defined.

Definition wit_sessions : list session :=
  [SReqWr wit_hash_req [IPageRd 0; ILruAll]; SUpgrade wit_hash_req [] [IPartition 3]; SExclusive [ILruWr 5]; SIdWr 1 3 [IPageRd 2];
   SClineRd 2 0 4 [IPageWr 1]].

Lemma wit_sessions_ok : Forall (session_ok wit_hash_cfg) wit_sessions.
Proof. repeat apply Forall_cons_2; try apply wit_hash_req_ok; done. Qed.

Lemma metadata_locks_no_deadlock_witness : exists opss,
  mapM (session_ops wit_hash_cfg) wit_sessions = Some opss /\
  exists ts', rtc pool_step (mkThread [] <$> opss) ts' /\ Forall finished ts'.
Proof.
  destruct (metadata_locks_no_deadlock wit_hash_cfg wit_sessions wit_sessions_ok) as (opss & Ho & H).
  exists opss. split; [done|]. by apply H.
Defined.
