(* ===== verification/MetaAccess.v ===== *)
(** What the metadata locks protect: the accesses that the callers make inside
    their critical sections, next to the lock operations that the functions of
    ocf_metadata_concurrency.c perform around them (MetaLock).

    Which lock stands for what is not said anywhere but in these functions, so the
    accesses are stated without the locks: a caller inside a session of the whole
    metadata may touch everything, one inside a session of a request touches the
    collision lists of the buckets its core lines hash to, and so on. *)

From S2P Require Import Prelude Meta MetaLock.

(** What a caller touches, for reading or for writing. *)
Inductive access :=
  | AMeta (m : lock_mode)
  | ABucket (m : lock_mode) (h : Z)
  | APage (m : lock_mode) (p : Z)
  | ALru (m : lock_mode) (i : Z)
  | APartition (p : Z).

#[export] Instance access_eq_dec : EqDecision access.
Proof. solve_decision. Defined.

(** Two callers must not make these accesses at once. *)
Definition both_read (m m' : lock_mode) : bool := bool_decide (m = RD /\ m' = RD).
Definition conflict (a b : access) : bool :=
  match a, b with
  | AMeta WR, _ | _, AMeta WR => true
  | ABucket m h, ABucket m' h' => (h =? h') && negb (both_read m m')
  | APage m p, APage m' p' => (p =? p') && negb (both_read m m')
  | ALru m i, ALru m' i' => (i =? i') && negb (both_read m m')
  | APartition p, APartition p' => p =? p'
  | _, _ => false
  end.

(** ** Sessions with their accesses *)

Inductive event := Lock (o : lock_op) | Enter (a : access) | Leave (a : access).

(** The lock operations of a function of MetaLock. *)
Definition lock_code (m : M (list lock_op) unit) : M (list event) unit := fun t =>
  match m [] with Some (_, ops) => Some (tt, t ++ (Lock <$> ops)) | None => None end.

Definition enter (l : list access) : M (list event) unit := modify (fun t => t ++ (Enter <$> l)).
Definition leave (l : list access) : M (list event) unit := modify (fun t => t ++ (Leave <$> l)).

(** [body] runs between [acquire] and [release] and makes the accesses [l]. *)
Definition section (acquire release : M (list lock_op) unit) (l : list access) (body : M (list event) unit) : M (list event) unit :=
  lock_code acquire;; enter l;; body;; leave l;; lock_code release.

Definition access_inner (i : inner) : M (list event) unit :=
  match i with
  | IPageRd p => section (ocf_collision_start_shared_access p) (ocf_collision_end_shared_access p) [APage RD p] (mret tt)
  | IPageWr p => section (ocf_collision_start_exclusive_access p) (ocf_collision_end_exclusive_access p) [APage WR p] (mret tt)
  | ILruWr i => section (ocf_metadata_lru_wr_lock i) (ocf_metadata_lru_wr_unlock i) [ALru WR i] (mret tt)
  | ILruRd i => section (ocf_metadata_lru_rd_lock i) (ocf_metadata_lru_rd_unlock i) [ALru RD i] (mret tt)
  | ILruAll => section ocf_metadata_lru_wr_lock_all ocf_metadata_lru_wr_unlock_all (ALru WR <$> seqZ 0 OCF_NUM_LRU_LISTS) (mret tt)
  | IPartition p => section (ocf_metadata_partition_lock p) (ocf_metadata_partition_unlock p) [APartition p] (mret tt)
  end.

Fixpoint access_inners (b : list inner) : M (list event) unit :=
  match b with [] => mret tt | i :: b => access_inner i;; access_inners b end.

(** The buckets of the core lines of a request. *)
Definition req_accesses (m : lock_mode) (req : hash_req) : list access :=
  AMeta RD :: ((fun i => ABucket m (map_hash req i)) <$> seqZ 0 (core_line_count req)).

Definition access_session (cfg : config) (s : session) : M (list event) unit :=
  let bucket cid cl := ocf_metadata_hash_func cfg cl cid in
  match s with
  | SExclusive b => section ocf_metadata_start_exclusive_access ocf_metadata_end_exclusive_access [AMeta WR] (access_inners b)
  | SReqRd req b => section (ocf_hb_req_prot_lock_rd cfg req) (ocf_hb_req_prot_unlock_rd cfg req) (req_accesses RD req) (access_inners b)
  | SReqWr req b => section (ocf_hb_req_prot_lock_wr cfg req) (ocf_hb_req_prot_unlock_wr cfg req) (req_accesses WR req) (access_inners b)
  | SUpgrade req b1 b2 =>
      lock_code (ocf_hb_req_prot_lock_rd cfg req);; enter (req_accesses RD req);; access_inners b1;; leave (req_accesses RD req);;
      section (ocf_hb_req_prot_lock_upgrade cfg req) (ocf_hb_req_prot_unlock_wr cfg req) (req_accesses WR req) (access_inners b2)
  | SClineRd idx cid cl b => section (ocf_hb_cline_prot_lock_rd cfg idx cid cl) (ocf_hb_cline_prot_unlock_rd cfg idx cid cl)
      [AMeta RD; ABucket RD (bucket cid cl)] (access_inners b)
  | SClineWr idx cid cl b => section (ocf_hb_cline_prot_lock_wr cfg idx cid cl) (ocf_hb_cline_prot_unlock_wr cfg idx cid cl)
      [AMeta RD; ABucket WR (bucket cid cl)] (access_inners b)
  | SIdWr idx hash b => section (ocf_hb_id_prot_lock_wr cfg idx hash) (ocf_hb_id_prot_unlock_wr cfg idx hash)
      [AMeta RD; ABucket WR hash] (access_inners b)
  end.

Definition session_events (cfg : config) (s : session) : option (list event) := snd <$> access_session cfg s [].

(** The index of the shared global lock is one of the four. *)
Definition session_idx_ok (s : session) : Prop :=
  match s with
  | SClineRd idx _ _ _ | SClineWr idx _ _ _ | SIdWr idx _ _ => 0 <= idx < OCF_NUM_GLOBAL_META_LOCKS
  | _ => True
  end.

(** ** Threads *)

(** A thread of the pool with the accesses it is making. *)
Record worker := mkWorker { inside : list access; held : list (lock_mode * lock_id); left : list event }.

Definition lock_of (e : event) : option lock_op := match e with Lock o => Some o | _ => None end.
Definition thread_of (w : worker) : thread := mkThread (held w) (omap lock_of (left w)).

Fixpoint drop_access (a : access) (l : list access) : list access :=
  match l with [] => [] | b :: l => if decide (a = b) then l else b :: drop_access a l end.

(** The lock operations are those of [pool_step]. *)
Inductive worker_step : list worker -> list worker -> Prop :=
  | work_down ws i ins h m l rest : ws !! i = Some (mkWorker ins h (Lock (Down m l) :: rest)) -> can_take m l (thread_of <$> ws) ->
      worker_step ws (<[i := mkWorker ins ((m, l) :: h) rest]> ws)
  | work_up ws i ins h m l rest : ws !! i = Some (mkWorker ins h (Lock (Up m l) :: rest)) -> (m, l) ∈ h ->
      worker_step ws (<[i := mkWorker ins (drop_one (m, l) h) rest]> ws)
  | work_enter ws i ins h a rest : ws !! i = Some (mkWorker ins h (Enter a :: rest)) ->
      worker_step ws (<[i := mkWorker (a :: ins) h rest]> ws)
  | work_leave ws i ins h a rest : ws !! i = Some (mkWorker ins h (Leave a :: rest)) ->
      worker_step ws (<[i := mkWorker (drop_access a ins) h rest]> ws).

(** ** The locks behind an access *)

Definition some_global (h : list (lock_mode * lock_id)) : Prop := exists m i, 0 <= i < OCF_NUM_GLOBAL_META_LOCKS /\ (m, LGlobal i) ∈ h.

Definition covers (h : list (lock_mode * lock_id)) (a : access) : Prop :=
  some_global h /\
  match a with
  | AMeta WR => forall i, 0 <= i < OCF_NUM_GLOBAL_META_LOCKS -> (WR, LGlobal i) ∈ h
  | AMeta RD => True
  | ABucket m b => (m, LHash b) ∈ h
  | APage m p => (m, LPage p) ∈ h
  | ALru m i => (m, LLru i) ∈ h
  | APartition p => (WR, LPartition p) ∈ h
  end.

(** Every access of what is to come is covered as long as it is made. *)
Fixpoint guarded (ins : list access) (h : list (lock_mode * lock_id)) (es : list event) : Prop :=
  (forall a, a ∈ ins -> covers h a) /\
  match es with
  | [] => True
  | Lock (Down m l) :: es => guarded ins ((m, l) :: h) es
  | Lock (Up m l) :: es => guarded ins (drop_one (m, l) h) es
  | Enter a :: es => guarded (a :: ins) h es
  | Leave a :: es => guarded (drop_access a ins) h es
  end.

Definition workers_ok (ws : list worker) : Prop := forall w, w ∈ ws -> guarded (inside w) (held w) (left w).

Lemma worker_step_threads ws ws' : worker_step ws ws' -> rtc pool_step (thread_of <$> ws) (thread_of <$> ws').
Proof.
  intros [ws1 i ins h m l rest Hi Hc|ws1 i ins h m l rest Hi Hin|ws1 i ins h a rest Hi|ws1 i ins h a rest Hi]; rewrite list_fmap_insert.
  - apply rtc_once, (step_down _ _ h m l); [by rewrite list_lookup_fmap, Hi|done].
  - apply rtc_once, (step_up _ _ h m l); [by rewrite list_lookup_fmap, Hi|done].
  - rewrite list_insert_id; [done|]. by rewrite list_lookup_fmap, Hi.
  - rewrite list_insert_id; [done|]. by rewrite list_lookup_fmap, Hi.
Qed.

Lemma worker_step_ok ws ws' : workers_ok ws -> worker_step ws ws' -> workers_ok ws'.
Proof.
  intros Hok Hs. assert (forall ws1 i w w', ws1 !! i = Some w -> workers_ok ws1 -> (guarded (inside w) (held w) (left w) -> guarded (inside w') (held w') (left w')) ->
    workers_ok (<[i := w']> ws1)) as Hins.
  { intros ws1 i w w' Hi Hws Hg w1 Hw1. apply list_elem_of_lookup in Hw1 as [j Hj].
    apply list_lookup_insert_Some in Hj as [(-> & <- & _)|[_ Hj]]; [|by eapply Hws, list_elem_of_lookup_2].
    apply Hg, Hws. by eapply list_elem_of_lookup_2. }
  destruct Hs; (eapply Hins; [done|done|]); by intros [_ Hg].
Qed.

Lemma workers_steps ws ws' : rtc worker_step ws ws' -> workers_ok ws -> workers_ok ws' /\ rtc pool_step (thread_of <$> ws) (thread_of <$> ws').
Proof.
  intros Hr. induction Hr as [ws|ws1 ws2 ws3 Hs Hr IH]; intros Hok; [by split|].
  destruct (IH (worker_step_ok _ _ Hok Hs)) as [Hok3 Hp]. split; [done|]. etransitivity; [by apply worker_step_threads|done].
Qed.

(** Covered accesses of two threads that hold no lock in conflicting modes. *)
Lemma covered_apart h h' a b : (forall ml ml', ml ∈ h -> ml' ∈ h' -> ml.2 = ml'.2 -> ml.1 = RD /\ ml'.1 = RD) ->
  covers h a -> covers h' b -> conflict a b = false.
Proof.
  intros Hex [(m1 & i1 & Hi1 & Hg1) Ha] [(m2 & i2 & Hi2 & Hg2) Hb].
  assert (forall m m' l, (m, l) ∈ h -> (m', l) ∈ h' -> both_read m m' = true) as Hboth.
  { intros m m' l Hl Hl'. apply bool_decide_eq_true. by apply (Hex (m, l) (m', l)). }
  assert (a <> AMeta WR) as Hna by (intros ->; by destruct (Hex (WR, LGlobal i2) (m2, LGlobal i2) (Ha i2 Hi2) Hg2 eq_refl)).
  assert (b <> AMeta WR) as Hnb by (intros ->; by destruct (Hex (m1, LGlobal i1) (WR, LGlobal i1) Hg1 (Hb i1 Hi1) eq_refl)).
  destruct a as [[]| | | |], b as [[]| | | |]; try done; cbn in *;
    match goal with |- context [?x =? ?y] => destruct (Z.eqb_spec x y) as [->|]; [|done] end; cbn; try by erewrite Hboth.
  by destruct (Hex (WR, LPartition p0) (WR, LPartition p0) Ha Hb eq_refl).
Qed.

(** ** The events of a session *)

(** [m] adds the events [es]. *)
Definition emits (m : M (list event) unit) (es : list event) : Prop := forall t, m t = Some (tt, t ++ es).

Lemma emits_ret : emits (mret tt) [].
Proof. intros t. by rewrite app_nil_r. Qed.
Lemma emits_bind m k e1 e2 : emits m e1 -> emits k e2 -> emits (m;; k) (e1 ++ e2).
Proof. intros H1 H2 t. unfold mbind, M_bind. by rewrite H1, H2, app_assoc. Qed.
Lemma emits_lock m ops : performs m ops -> emits (lock_code m) (Lock <$> ops).
Proof. intros H t. unfold lock_code. by rewrite H. Qed.
Lemma emits_enter l : emits (enter l) (Enter <$> l).
Proof. done. Qed.
Lemma emits_leave l : emits (leave l) (Leave <$> l).
Proof. done. Qed.

Definition around (a r : list lock_op) (l : list access) (body : list event) : list event :=
  (Lock <$> a) ++ (Enter <$> l) ++ body ++ (Leave <$> l) ++ (Lock <$> r).

Lemma emits_section acquire release l body a r es : performs acquire a -> performs release r -> emits body es ->
  emits (section acquire release l body) (around a r l es).
Proof.
  intros Ha Hr Hb. unfold section, around. repeat apply emits_bind; [by apply emits_lock|apply emits_enter|done|apply emits_leave|by apply emits_lock].
Qed.

Definition inner_accesses (i : inner) : list access :=
  match i with
  | IPageRd p => [APage RD p] | IPageWr p => [APage WR p] | ILruWr i => [ALru WR i] | ILruRd i => [ALru RD i]
  | ILruAll => ALru WR <$> seqZ 0 OCF_NUM_LRU_LISTS | IPartition p => [APartition p]
  end.
Definition inner_events (i : inner) : list event :=
  around (downs (inner_mode i) (inner_locks i)) (ups (inner_mode i) (inner_locks i)) (inner_accesses i) [].

Lemma access_inner_emits i : emits (access_inner i) (inner_events i).
Proof.
  unfold inner_events. destruct i; (apply emits_section; [| |apply emits_ret]); try apply performs_emit.
  - unfold downs, inner_locks. rewrite <- list_fmap_compose.
    apply (performs_range (Z.to_nat OCF_NUM_LRU_LISTS) 0 _ (fun i => Down WR (LLru i))). intros j _. apply performs_emit.
  - unfold ups, inner_locks. rewrite <- list_fmap_compose.
    apply (performs_range (Z.to_nat OCF_NUM_LRU_LISTS) 0 _ (fun i => Up WR (LLru i))). intros j _. apply performs_emit.
Qed.

Lemma access_inners_emits b : emits (access_inners b) (mjoin (inner_events <$> b)).
Proof. induction b as [|i b IH]; [apply emits_ret|]. apply emits_bind; [apply access_inner_emits|done]. Qed.

(** ** Guarding *)

Lemma covers_sub h h' a : h ⊆ h' -> covers h a -> covers h' a.
Proof.
  intros Hs [(m & i & Hi & Hg) Ha]. split; [exists m, i; auto|]. destruct a as [[]| | | |]; auto.
Qed.

(** [guarded] up to the order in which the accesses and the locks are listed. *)
Definition guards (ins : list access) (h : list (lock_mode * lock_id)) (es : list event) : Prop :=
  forall ins' h', ins' ≡ₚ ins -> h' ≡ₚ h -> guarded ins' h' es.

#[export] Instance guards_perm : Proper ((≡ₚ) ==> (≡ₚ) ==> (=) ==> iff) guards.
Proof.
  intros i1 i2 Hi h1 h2 Hh e1 e2 <-. split; intros Hg i h Hi' Hh'; apply Hg; by rewrite ?Hi', ?Hh', ?Hi, ?Hh.
Qed.

Definition covered (h : list (lock_mode * lock_id)) (l : list access) : Prop := forall a, a ∈ l -> covers h a.

Lemma covered_perm h h' l l' : covered h l -> h' ≡ₚ h -> l' ≡ₚ l -> covered h' l'.
Proof. intros Hc Hh Hl a Ha. rewrite Hl in Ha. apply (covers_sub h); [by rewrite Hh|by apply Hc]. Qed.

Lemma covered_more h h' l : covered h l -> covered (h' ++ h) l.
Proof. intros Hc a Ha. apply (covers_sub h); [set_solver|by apply Hc]. Qed.

Lemma covered_app h l l' : covered h l -> covered h l' -> covered h (l ++ l').
Proof. intros H1 H2 a [Ha|Ha]%elem_of_app; [by apply H1|by apply H2]. Qed.

Lemma drop_access_perm a l : a ∈ l -> l ≡ₚ a :: drop_access a l.
Proof.
  induction l as [|y l IH]; [by intros ?%elem_of_nil|]. intros Hx. simpl. destruct (decide (a = y)) as [->|Hne]; [done|].
  apply elem_of_cons in Hx as [|Hx]; [done|]. rewrite (IH Hx) at 1. apply perm_swap.
Qed.

Lemma guards_downs ins h m ls es : covered h ins -> guards ins (held_of m ls ++ h) es -> guards ins h ((Lock <$> downs m ls) ++ es).
Proof.
  revert h. induction ls as [|l ls IH]; intros h Hc Hg; [done|]. intros ins' h' Hi Hh. split; [by eapply covered_perm|].
  apply (IH ((m, l) :: h)); [by apply (covered_more h [_])| |done|by rewrite Hh].
  assert (held_of m ls ++ (m, l) :: h ≡ₚ held_of m (l :: ls) ++ h) as -> by (symmetry; apply Permutation_middle). exact Hg.
Qed.

Lemma guards_ups ins h m ls es : covered h ins -> guards ins h es -> guards ins (held_of m ls ++ h) ((Lock <$> ups m ls) ++ es).
Proof.
  intros Hc Hg. induction ls as [|l ls IH]; [done|]. intros ins' h' Hi Hh. split.
  - apply (covered_perm (held_of m (l :: ls) ++ h) _ ins); [by apply covered_more|done..].
  - apply IH; [done|]. apply (Permutation_cons_inv (a := (m, l))). rewrite <- drop_one_perm; [exact Hh|]. rewrite Hh. by left.
Qed.

Lemma guards_enter ins h l es : covered h ins -> covered h l -> guards (l ++ ins) h es -> guards ins h ((Enter <$> l) ++ es).
Proof.
  revert ins. induction l as [|a l IH]; intros ins Hc Hl Hg; [done|]. intros ins' h' Hi Hh. split; [by apply (covered_perm h h' ins)|].
  apply (IH (a :: ins)); [|intros b Hb; apply Hl; by right| |by rewrite Hi|done].
  - apply (covered_app h [a]); [|done]. intros b ->%list_elem_of_singleton. apply Hl. by left.
  - assert (l ++ a :: ins ≡ₚ (a :: l) ++ ins) as -> by (symmetry; apply Permutation_middle). exact Hg.
Qed.

Lemma guards_leave ins h l es : covered h (l ++ ins) -> guards ins h es -> guards (l ++ ins) h ((Leave <$> l) ++ es).
Proof.
  intros Hc Hg. induction l as [|a l IH]; [done|]. intros ins' h' Hi Hh. split; [by eapply covered_perm|].
  apply IH; [intros b Hb; apply Hc; by right| |done]. apply (Permutation_cons_inv (a := a)). rewrite <- drop_access_perm; [exact Hi|]. rewrite Hi. by left.
Qed.

Lemma guards_nil ins h : covered h ins -> guards ins h [].
Proof. intros Hc ins' h' Hi Hh. split; [by eapply covered_perm|done]. Qed.

Lemma guards_around ins h m ls l body es : covered h ins -> covered (held_of m ls ++ h) l ->
  (forall es', guards (l ++ ins) (held_of m ls ++ h) es' -> guards (l ++ ins) (held_of m ls ++ h) (body ++ es')) ->
  guards ins h es -> guards ins h (around (downs m ls) (ups m ls) l body ++ es).
Proof.
  intros Hi Hl Hb Hg. unfold around. rewrite <- !app_assoc. apply guards_downs; [done|].
  apply guards_enter; [by apply covered_more|done|]. apply Hb. apply guards_leave; [by apply covered_app, covered_more|]. by apply guards_ups.
Qed.

Lemma inner_covered i h : some_global h -> covered (held_of (inner_mode i) (inner_locks i) ++ h) (inner_accesses i).
Proof.
  intros (m & j & Hj & Hg) a Ha. split; [exists m, j; split; [done|set_solver]|].
  destruct i; cbn [inner_accesses inner_mode inner_locks] in *; try (apply list_elem_of_singleton in Ha as ->; by left).
  apply list_elem_of_fmap in Ha as (k & -> & Hk). apply elem_of_app. left. apply list_elem_of_fmap. exists (LLru k). split; [done|].
  apply list_elem_of_fmap. by exists k.
Qed.

Lemma guards_inners b ins h es : some_global h -> covered h ins -> guards ins h es -> guards ins h (mjoin (inner_events <$> b) ++ es).
Proof.
  intros Hs Hc Hg. induction b as [|i b IH]; [done|]. simpl. rewrite <- app_assoc. apply guards_around; [done|by apply inner_covered|done|done].
Qed.

Section session_events.
Context (cfg : config).

(** The events of a session, with the hash list written out. *)
Definition events_of (s : session) : list event :=
  let body b := mjoin (inner_events <$> b) in
  let shared idx m ls l b := around (downs RD [LGlobal idx] ++ downs m ls) (ups m ls ++ ups RD [LGlobal idx]) l (body b) in
  match s with
  | SExclusive b =>
      around (downs WR (LGlobal <$> seqZ 0 OCF_NUM_GLOBAL_META_LOCKS))
        (ups WR ((fun i => LGlobal (OCF_NUM_GLOBAL_META_LOCKS - i - 1)) <$> seqZ 0 OCF_NUM_GLOBAL_META_LOCKS)) [AMeta WR] (body b)
  | SReqRd req b => shared (lock_idx req) RD (req_locks cfg req) (req_accesses RD req) b
  | SReqWr req b => shared (lock_idx req) WR (req_locks cfg req) (req_accesses WR req) b
  | SUpgrade req b1 b2 =>
      (Lock <$> (downs RD [LGlobal (lock_idx req)] ++ downs RD (req_locks cfg req))) ++ (Enter <$> req_accesses RD req) ++ body b1 ++
      (Leave <$> req_accesses RD req) ++
      around (ups RD (req_locks cfg req) ++ downs WR (req_locks cfg req)) (ups WR (req_locks cfg req) ++ ups RD [LGlobal (lock_idx req)])
        (req_accesses WR req) (body b2)
  | SClineRd idx cid cl b => let h := ocf_metadata_hash_func cfg cl cid in shared idx RD [LHash h] [AMeta RD; ABucket RD h] b
  | SClineWr idx cid cl b => let h := ocf_metadata_hash_func cfg cl cid in shared idx WR [LHash h] [AMeta RD; ABucket WR h] b
  | SIdWr idx hash b => shared idx WR [LHash hash] [AMeta RD; ABucket WR hash] b
  end.

Lemma access_session_emits s : session_ok cfg s -> emits (access_session cfg s) (events_of s).
Proof.
  intros Hok. destruct s as [b|req b|req b|req b1 b2|idx cid cl b|idx cid cl b|idx hash b];
    cbn [session_ok] in Hok; cbn [access_session events_of]; cbv zeta.
  - apply emits_section; [| |apply access_inners_emits].
    + unfold downs. rewrite <- list_fmap_compose. apply (performs_range (Z.to_nat OCF_NUM_GLOBAL_META_LOCKS) 0). intros j _. apply performs_emit.
    + unfold ups. rewrite <- list_fmap_compose. apply (performs_range (Z.to_nat OCF_NUM_GLOBAL_META_LOCKS) 0). intros j _. apply performs_emit.
  - apply emits_section; [| |apply access_inners_emits]; apply performs_bind; try apply performs_emit;
      [by apply (for_hashes_downs cfg req RD)|by apply (for_hashes_ups cfg req RD)].
  - apply emits_section; [| |apply access_inners_emits]; apply performs_bind; try apply performs_emit;
      [by apply (for_hashes_downs cfg req WR)|by apply (for_hashes_ups cfg req WR)].
  - apply emits_bind; [apply emits_lock, performs_bind; [apply performs_emit|by apply (for_hashes_downs cfg req RD)]|].
    apply emits_bind; [apply emits_enter|]. apply emits_bind; [apply access_inners_emits|]. apply emits_bind; [apply emits_leave|].
    apply emits_section; [| |apply access_inners_emits]; apply performs_bind; try apply performs_emit;
      [by apply (for_hashes_ups cfg req RD)|by apply (for_hashes_downs cfg req WR)|by apply (for_hashes_ups cfg req WR)].
  - assert (ocf_metadata_hash_func cfg cl cid < hash_table_entries cfg) as Hh by (apply Z.mod_pos_bound; done).
    apply emits_section; [| |apply access_inners_emits]; apply performs_bind; try apply performs_emit;
      [by apply (naked_lock_performs cfg _ RD)|by apply (naked_unlock_performs cfg _ RD)].
  - assert (ocf_metadata_hash_func cfg cl cid < hash_table_entries cfg) as Hh by (apply Z.mod_pos_bound; done).
    apply emits_section; [| |apply access_inners_emits]; apply performs_bind; try apply performs_emit;
      [by apply (naked_lock_performs cfg _ WR)|by apply (naked_unlock_performs cfg _ WR)].
  - apply emits_section; [| |apply access_inners_emits]; apply performs_bind; try apply performs_emit;
      [apply (naked_lock_performs cfg _ WR); lia|apply (naked_unlock_performs cfg _ WR); lia].
Qed.

Lemma locks_of_ops (ops : list lock_op) : omap lock_of (Lock <$> ops) = ops.
Proof. induction ops as [|o ops IH]; [done|]. exact (f_equal (cons o) IH). Qed.
Lemma locks_of_enter (l : list access) : omap lock_of (Enter <$> l) = [].
Proof. by induction l. Qed.
Lemma locks_of_leave (l : list access) : omap lock_of (Leave <$> l) = [].
Proof. by induction l. Qed.

Lemma locks_around a r l es : omap lock_of (around a r l es) = a ++ omap lock_of es ++ r.
Proof.
  unfold around. by rewrite !omap_app, !locks_of_ops, locks_of_enter, locks_of_leave.
Qed.

Lemma locks_inners b : omap lock_of (mjoin (inner_events <$> b)) = mjoin (inner_ops <$> b).
Proof. induction b as [|i b IH]; [done|]. cbn [fmap list_fmap mjoin list_join]. rewrite omap_app. f_equal; [apply locks_around|exact IH]. Qed.

(** Without the accesses these are the sessions of MetaLock. *)
Lemma locks_session s : omap lock_of (events_of s) = ops_of cfg s.
Proof.
  destruct s; cbn [events_of ops_of]; cbv zeta; rewrite ?omap_app, ?locks_of_ops, ?locks_of_enter, ?locks_of_leave, ?locks_around, ?locks_inners;
    rewrite <- ?app_assoc; done.
Qed.

Lemma global_in idx h : 0 <= idx < OCF_NUM_GLOBAL_META_LOCKS -> (RD, LGlobal idx) ∈ h -> some_global h.
Proof. intros Hi Hin. by exists RD, idx. Qed.

(** The buckets of a session under the shared global lock. *)
Lemma shared_covered idx m ls l : 0 <= idx < OCF_NUM_GLOBAL_META_LOCKS ->
  (forall a, a ∈ l -> a = AMeta RD \/ exists b, a = ABucket m b /\ LHash b ∈ ls) -> covered (held_of m ls ++ [(RD, LGlobal idx)]) l.
Proof.
  intros Hi Hl a Ha. split; [apply (global_in idx); [done|set_solver]|]. destruct (Hl a Ha) as [-> |(b & -> & Hb)]; [done|].
  apply elem_of_app. left. apply list_elem_of_fmap. by exists (LHash b).
Qed.

Lemma req_covered m req : hash_req_ok cfg req -> covered (held_of m (req_locks cfg req) ++ [(RD, LGlobal (lock_idx req))]) (req_accesses m req).
Proof.
  intros Hok. apply shared_covered; [apply (hr_lock_idx _ _ Hok)|]. intros a [-> |(i & -> & Hi%elem_of_seqZ)%list_elem_of_fmap]%elem_of_cons; [by left|].
  right. eexists. split; [done|]. apply list_elem_of_fmap. eexists. split; [done|]. apply (elem_hash_list cfg req Hok). exists i. split; [lia|done].
Qed.

Lemma covered_nil h : covered h [].
Proof. by intros a ?%elem_of_nil. Qed.

(** A section under the shared global lock, after [pre] locks are released. *)
Lemma guards_shared idx m ls l b : 0 <= idx < OCF_NUM_GLOBAL_META_LOCKS -> covered (held_of m ls ++ [(RD, LGlobal idx)]) l ->
  guards [] [(RD, LGlobal idx)] (around (downs m ls) (ups m ls ++ ups RD [LGlobal idx]) l (mjoin (inner_events <$> b))).
Proof.
  intros Hi Hl.
  assert (around (downs m ls) (ups m ls ++ ups RD [LGlobal idx]) l (mjoin (inner_events <$> b)) =
    around (downs m ls) (ups m ls) l (mjoin (inner_events <$> b)) ++ (Lock <$> ups RD [LGlobal idx]) ++ []) as ->.
  { unfold around. by rewrite fmap_app, app_nil_r, <- !app_assoc. }
  apply guards_around; [apply covered_nil|done| |].
  - intros es Hg. apply guards_inners; [apply (global_in idx); [done|set_solver]|apply covered_app; [done|apply covered_nil]|done].
  - apply (guards_ups [] [] RD [LGlobal idx]); [apply covered_nil|]. apply guards_nil, covered_nil.
Qed.

Lemma around_front pre a r l es : around (pre ++ a) r l es = (Lock <$> pre) ++ around a r l es.
Proof. unfold around. by rewrite fmap_app, <- app_assoc. Qed.

Lemma exclusive_guards b : guards [] [] (around (downs WR (LGlobal <$> seqZ 0 OCF_NUM_GLOBAL_META_LOCKS))
  (ups WR ((fun i => LGlobal (OCF_NUM_GLOBAL_META_LOCKS - i - 1)) <$> seqZ 0 OCF_NUM_GLOBAL_META_LOCKS)) [AMeta WR] (mjoin (inner_events <$> b))).
Proof.
  set (ls := LGlobal <$> seqZ 0 OCF_NUM_GLOBAL_META_LOCKS). set (ls' := (fun i => LGlobal (OCF_NUM_GLOBAL_META_LOCKS - i - 1)) <$> seqZ 0 OCF_NUM_GLOBAL_META_LOCKS).
  assert (forall i, 0 <= i < OCF_NUM_GLOBAL_META_LOCKS -> (WR, LGlobal i) ∈ held_of WR ls) as Hall.
  { intros i Hi. apply list_elem_of_fmap. exists (LGlobal i). split; [done|]. apply list_elem_of_fmap. exists i. split; [done|]. apply elem_of_seqZ. lia. }
  assert (covered (held_of WR ls) [AMeta WR]) as Hc.
  { intros a ->%list_elem_of_singleton. split; [exists WR, 0; split; [done|by apply Hall]|exact Hall]. }
  assert (held_of WR ls ≡ₚ held_of WR ls' ++ []) as Hperm.
  { rewrite app_nil_r. apply fmap_Permutation.
    change ([LGlobal 0; LGlobal 1; LGlobal 2; LGlobal 3] ≡ₚ rev [LGlobal 0; LGlobal 1; LGlobal 2; LGlobal 3]). apply Permutation_rev. }
  unfold around. apply guards_downs; [apply covered_nil|]. rewrite app_nil_r. apply guards_enter; [apply covered_nil|done|].
  apply guards_inners; [by apply (Hc (AMeta WR)); left|by apply covered_app, covered_nil|]. apply guards_leave; [by apply covered_app, covered_nil|].
  rewrite Hperm, <- (app_nil_r (Lock <$> _)). apply guards_ups; [apply covered_nil|]. apply guards_nil, covered_nil.
Qed.

Lemma upgrade_guards req b1 b2 : hash_req_ok cfg req -> guards [] [] (events_of (SUpgrade req b1 b2)).
Proof.
  intros Hok. pose proof (hr_lock_idx _ _ Hok) as Hi. cbn [events_of]. cbv zeta. rewrite fmap_app, <- app_assoc.
  apply guards_downs; [apply covered_nil|]. apply guards_downs; [apply covered_nil|].
  assert (covered (held_of RD (req_locks cfg req) ++ [(RD, LGlobal (lock_idx req))]) (req_accesses RD req ++ [])) as Hc.
  { apply covered_app; [by apply req_covered|apply covered_nil]. }
  apply guards_enter; [apply covered_nil|by apply req_covered|]. apply guards_inners; [apply (global_in (lock_idx req)); [done|set_solver]|exact Hc|].
  apply guards_leave; [exact Hc|]. rewrite around_front. apply guards_ups; [apply covered_nil|]. apply guards_shared; [done|by apply req_covered].
Qed.

Lemma session_guards s : session_ok cfg s -> session_idx_ok s -> guards [] [] (events_of s).
Proof.
  assert (forall idx es, guards [] [(RD, LGlobal idx)] es -> guards [] [] ((Lock <$> downs RD [LGlobal idx]) ++ es)) as Hstart.
  { intros idx es Hg. apply guards_downs; [apply covered_nil|exact Hg]. }
  intros Hok Hidx. destruct s as [b|req b|req b|req b1 b2|idx cid cl b|idx cid cl b|idx hash b];
    cbn [session_ok session_idx_ok] in Hok, Hidx.
  - apply exclusive_guards.
  - cbn [events_of]; cbv zeta; rewrite around_front. apply Hstart, guards_shared; [apply (hr_lock_idx _ _ Hok)|by apply req_covered].
  - cbn [events_of]; cbv zeta; rewrite around_front. apply Hstart, guards_shared; [apply (hr_lock_idx _ _ Hok)|by apply req_covered].
  - by apply upgrade_guards.
  - cbn [events_of]; cbv zeta; rewrite around_front. apply Hstart, guards_shared; [done|]. apply shared_covered; [done|]. intros a Ha. set_solver.
  - cbn [events_of]; cbv zeta; rewrite around_front. apply Hstart, guards_shared; [done|]. apply shared_covered; [done|]. intros a Ha. set_solver.
  - cbn [events_of]; cbv zeta; rewrite around_front. apply Hstart, guards_shared; [done|]. apply shared_covered; [done|]. intros a Ha. set_solver.
Qed.
End session_events.

Lemma sessions_events cfg ss : Forall (session_ok cfg) ss -> Forall session_idx_ok ss ->
  mapM (session_events cfg) ss = Some (events_of cfg <$> ss) /\ workers_ok (mkWorker [] [] <$> (events_of cfg <$> ss)).
Proof.
  intros Hok Hidx. split.
  - apply mapM_Some, Forall2_fmap_r, Forall_Forall2_diag. eapply Forall_impl; [exact Hok|]. intros s Hs.
    unfold session_events. by rewrite (access_session_emits cfg s Hs).
  - intros w (es & -> & (s & -> & Hs)%list_elem_of_fmap)%list_elem_of_fmap. rewrite Forall_forall in Hok. rewrite Forall_forall in Hidx.
    apply (session_guards cfg s (Hok s Hs) (Hidx s Hs) [] []); done.
Qed.

(** ** Property *)

(** C28: What the metadata locks exclude.  Any number of threads run sessions of the
    lock functions and make the accesses these stand for: a session of a request
    reads or changes the collision lists of the buckets of its core lines, one of a
    core line those of its bucket, an exclusive one everything, and inside them
    single collision pages, LRU lists and partitions are touched.  The accesses
    leave the lock operations of the sessions as they are, and in no state that the
    threads can reach do two of them make conflicting accesses: nobody is in any
    session while another has exclusive access, and no bucket, page, LRU list or
    partition is changed by one thread while another uses it. *)
Theorem metadata_accesses_exclusive cfg ss : Forall (session_ok cfg) ss -> Forall session_idx_ok ss ->
  exists evss, mapM (session_events cfg) ss = Some evss /\ mapM (session_ops cfg) ss = Some (omap lock_of <$> evss) /\
    forall ws, rtc worker_step (mkWorker [] [] <$> evss) ws ->
      forall i j w w' a b, i <> j -> ws !! i = Some w -> ws !! j = Some w' -> a ∈ inside w -> b ∈ inside w' -> conflict a b = false.
Proof.
  intros Hok Hidx. destruct (sessions_events cfg ss Hok Hidx) as [He Hws]. exists (events_of cfg <$> ss). split_and!; [done| |].
  - rewrite (proj1 (sessions_run cfg ss Hok)). f_equal. rewrite <- list_fmap_compose. apply list_fmap_ext. intros i s _. symmetry. apply locks_session.
  - intros ws Hr i j w w' a b Hij Hi Hj Ha Hb. destruct (workers_steps _ _ Hr Hws) as [Hok' Hp].
    assert (forall k w, ws !! k = Some w -> covered (held w) (inside w)) as Hcov.
    { intros k w0 Hk. pose proof (Hok' w0 (list_elem_of_lookup_2 _ _ _ Hk)) as Hg. by destruct (left w0); destruct Hg as [Hg _]. }
    apply (covered_apart (held w) (held w')); [|by apply (Hcov i)|by apply (Hcov j)].
    assert (pool_exclusive (thread_of <$> ws)) as Hex.
    { eapply pool_steps_exclusive; [|exact Hp]. intros i1 j1 t t' ml ml' _ Hi1 _ Hml _ _.
      rewrite <- !list_fmap_compose in Hi1. apply list_lookup_fmap_Some in Hi1 as (s & -> & _). by apply elem_of_nil in Hml. }
    intros ml ml' Hml Hml' Heq. apply (Hex i j (thread_of w) (thread_of w') ml ml' Hij); try done; by rewrite list_lookup_fmap, ?Hi, ?Hj.
Qed.

(** The sessions of MetaLock, with a second writer of the whole metadata. *)
Lemma metadata_accesses_exclusive_witness : exists evss,
  mapM (session_events wit_hash_cfg) (SExclusive [] :: wit_sessions) = Some evss /\
  forall ws i j w w' a b, rtc worker_step (mkWorker [] [] <$> evss) ws -> i <> j -> ws !! i = Some w -> ws !! j = Some w' ->
    a ∈ inside w -> b ∈ inside w' -> conflict a b = false.
Proof.
  destruct (metadata_accesses_exclusive wit_hash_cfg (SExclusive [] :: wit_sessions)) as (evss & H1 & _ & H2).
  - constructor; [exact I|exact wit_sessions_ok].
  - repeat constructor; discriminate.
  - exists evss. split; [exact H1|]. intros ws i j w w' a b Hr. exact (H2 ws Hr i j w w' a b).
Defined.
