(* ===== verification/Collision.v ===== *)
(** The collision lists of the cache and the layout of the cache device:
    metadata_collision.c, the initialisation of the tables in metadata.c, and the
    lookup of engine_common.c.

    The hash table and the collision lists implement a finite map from core
    lines to cache lines.  The page locks taken around the accesses are not
    modelled: the operations below are what runs while they are held. *)

From S2P Require Import Prelude Dll Meta.

(** ** Layout: logical and physical cache lines *)

Section layout.
Variable cfg : config.

Definition ocf_metadata_map_lg2phy_seq (coll_idx : Z) : Z := coll_idx.
Definition ocf_metadata_map_phy2lg_seq (cache_line : Z) : Z := cache_line.

Definition ocf_metadata_map_lg2phy_striping (coll_idx : Z) : Z :=
  let eip := entries_in_page cfg in
  let pages := ssd_pages cfg in
  let delta := u32 (u32 (eip * pages) - collision_table_entries cfg) in
  let row := coll_idx `mod` eip in
  let offset := if u32 (eip - delta) <? row then u32 (row - u32 (eip - delta)) else 0 in
  u32 (u32 (u32 (row * pages) + coll_idx `div` eip) - offset).

Definition ocf_metadata_map_phy2lg_striping (cache_line : Z) : Z :=
  let pages := ssd_pages cfg in
  let eip := entries_in_page cfg in
  let rem := collision_table_entries cfg `mod` eip in
  let entries_in_last_page := if rem =? 0 then eip else rem in
  let last := u32 (entries_in_last_page * pages) in
  let '(row, coll) :=
    if cache_line <? last then (cache_line `mod` pages, cache_line `div` pages)
    else
      let cache_line := u32 (cache_line - last) in
      (cache_line `mod` (u32 (pages - 1)), u32 (cache_line `div` (u32 (pages - 1)) + entries_in_last_page)) in
  u32 (u32 (row * eip) + coll).

Definition ocf_metadata_layout_striping : Z := 0.
Definition ocf_metadata_layout_seq : Z := 1.

Definition ocf_metadata_map_lg2phy (coll_idx : Z) : option Z :=
  if layout cfg =? ocf_metadata_layout_striping then Some (ocf_metadata_map_lg2phy_striping coll_idx)
  else if layout cfg =? ocf_metadata_layout_seq then Some (ocf_metadata_map_lg2phy_seq coll_idx)
  else None.

Definition ocf_metadata_map_phy2lg (cache_line : Z) : option Z :=
  if layout cfg =? ocf_metadata_layout_striping then Some (ocf_metadata_map_phy2lg_striping cache_line)
  else if layout cfg =? ocf_metadata_layout_seq then Some (ocf_metadata_map_phy2lg_seq cache_line)
  else None.

(** ** Collision lists *)

Definition ocf_metadata_set_collision_info (line next prev : Z) : M meta_state unit :=
  upd_info line (fun i => mkInfo prev next (partition_id i)).
Definition ocf_metadata_set_collision_next (line next : Z) : M meta_state unit :=
  upd_info line (fun i => mkInfo (prev_col i) next (partition_id i)).
Definition ocf_metadata_set_collision_prev (line prev : Z) : M meta_state unit :=
  upd_info line (fun i => mkInfo prev (next_col i) (partition_id i)).

(** Returns [(next, prev)]. *)
Definition ocf_metadata_get_collision_info (line : Z) : M meta_state (Z * Z) :=
  info ← rd_info line;
  mret (next_col info, prev_col info).
Definition ocf_metadata_get_collision_next (line : Z) : M meta_state Z :=
  r ← ocf_metadata_get_collision_info line; mret r.1.
Definition ocf_metadata_get_collision_prev (line : Z) : M meta_state Z :=
  r ← ocf_metadata_get_collision_info line; mret r.2.

Definition ocf_metadata_add_to_collision (core_id core_line hash cache_line : Z) : M meta_state unit :=
  prev_cache_line ← ocf_metadata_get_hash hash;
  let line_entries := collision_table_entries cfg in
  let hash_entries := hash_table_entries cfg in
  BUG_ON (negb (hash <? hash_entries));;
  BUG_ON (negb (cache_line <? line_entries));;
  ocf_metadata_set_core_info cache_line core_id core_line;;
  ocf_metadata_set_collision_info cache_line prev_cache_line line_entries;;
  (if negb (prev_cache_line =? line_entries)
   then ocf_metadata_set_collision_prev prev_cache_line cache_line else mret tt);;
  ocf_metadata_set_hash hash cache_line.

Definition ocf_metadata_remove_from_collision (line part_id : Z) : M meta_state unit :=
  let line_entries := collision_table_entries cfg in
  let hash_entries := hash_table_entries cfg in
  BUG_ON (negb (line <? line_entries));;
  '(next_line, prev_line) ← ocf_metadata_get_collision_info line;
  (if negb (prev_line =? line_entries)
   then ocf_metadata_set_collision_next prev_line next_line else mret tt);;
  (if negb (next_line =? line_entries)
   then ocf_metadata_set_collision_prev next_line prev_line else mret tt);;
  '(core_id, core_sector) ← ocf_metadata_get_core_info line;
  let hash_father := ocf_metadata_hash_func cfg core_sector core_id in
  BUG_ON (negb (hash_father <? hash_entries));;
  head ← ocf_metadata_get_hash hash_father;
  (if head =? line then ocf_metadata_set_hash hash_father next_line else mret tt);;
  ocf_metadata_set_collision_info line line_entries line_entries;;
  ocf_metadata_set_core_info line OCF_CORE_MAX ULLONG_MAX.

Definition ocf_metadata_remove_cache_line (cache_line : Z) : M meta_state unit :=
  partition_id ← ocf_metadata_get_partition_id cache_line;
  ocf_metadata_remove_from_collision cache_line partition_id.

(** ** Initialisation *)

Definition _ocf_init_collision_entry (idx : Z) : M meta_state unit :=
  let invalid_idx := collision_table_entries cfg in
  ocf_metadata_set_collision_info idx invalid_idx invalid_idx;;
  ocf_metadata_set_core_info idx OCF_CORE_MAX ULLONG_MAX;;
  metadata_init_status_bits cfg idx.

Definition ocf_metadata_init_collision : M meta_state unit :=
  for_range (Z.to_nat (collision_table_entries cfg)) 0 _ocf_init_collision_entry.

Definition ocf_metadata_init_hash_table : M meta_state unit :=
  let invalid_idx := collision_table_entries cfg in
  for_range (Z.to_nat (hash_table_entries cfg)) 0 (fun i => ocf_metadata_set_hash i invalid_idx).

(** ** Lookup *)


(** [struct ocf_map_info]: the fields that the lookup fills. *)
Record ocf_map_info := mkMapInfo {
  e_hash : Z;
  e_status : Z;
  e_coll_idx : Z;
  e_core_line : Z;
  e_core_id : Z;
}.

(** The [while] loop: the line that maps the core line, if any. *)
Fixpoint lookup_loop (fuel : nat) (core_id core_line line : Z) : M meta_state (option Z) :=
  if line =? collision_table_entries cfg then mret None
  else
    match fuel with
    | O => bug
    | S fuel =>
      '(curr_core_id, curr_core_line) ← ocf_metadata_get_core_info line;
      if (core_id =? curr_core_id) && (curr_core_line =? core_line) then mret (Some line)
      else
        line ← ocf_metadata_get_collision_next line;
        lookup_loop fuel core_id core_line line
    end.

(** A list has at most as many lines as the table. *)
Definition lookup_fuel : nat := Z.to_nat (collision_table_entries cfg).

Definition ocf_engine_lookup_map_entry (core_id core_line : Z) : M meta_state ocf_map_info :=
  let hash := ocf_metadata_hash_func cfg core_line core_id in
  line ← ocf_metadata_get_hash hash;
  r ← lookup_loop lookup_fuel core_id core_line line;
  mret match r with
       | Some line => mkMapInfo hash LOOKUP_HIT line core_line core_id
       | None => mkMapInfo hash LOOKUP_MISS (collision_table_entries cfg) core_line core_id
       end.

Definition _ocf_engine_check_map_entry (entry : ocf_map_info) (core_id : Z) : M meta_state Z :=
  if e_status entry =? LOOKUP_MISS then mret 0
  else
    BUG_ON (collision_table_entries cfg <=? e_coll_idx entry);;
    '(_core_id, _core_line) ← ocf_metadata_get_core_info (e_coll_idx entry);
    if (core_id =? _core_id) && (_core_line =? e_core_line entry) then mret 0 else mret (-1).

End layout.

#[export] Program Instance list_info_node : DllNode ocf_metadata_list_info :=
  {| n_prev := prev_col; n_next := next_col;
     set_prev := fun v i => mkInfo v (next_col i) (partition_id i);
     set_next := fun v i => mkInfo (prev_col i) v (partition_id i) |}.
Solve All Obligations with done.

(** ** The striping layout is a permutation *)

Section striping.
Context (cfg : config).
#[local] Abbreviation N := (collision_table_entries cfg).
#[local] Abbreviation e := (entries_in_page cfg).
#[local] Abbreviation p := (ssd_pages cfg).

(** The geometry of an attached cache: pages hold at least one entry, there is
    at least one line, and the rounded-up table fits the 32-bit line numbers. *)
Definition layout_ok : Prop := 0 < e /\ 0 < N /\ e * p < 2 ^ 32.

(** The number of entries on the last page. *)
Definition last_page : Z := N - (p - 1) * e.

Lemma geometry : layout_ok -> 0 < p /\ 0 < last_page <= e.
Proof. unfold layout_ok, last_page, ssd_pages, OCF_DIV_ROUND_UP. intros (He & HN & _). Z.to_euclidean_division_equations. nia. Qed.

Definition phys_of (i : Z) : Z :=
  if i `mod` e <? last_page then (i `mod` e) * p + i `div` e
  else last_page * p + (i `mod` e - last_page) * (p - 1) + i `div` e.

Definition logical_of (j : Z) : Z :=
  if j <? last_page * p then (j `mod` p) * e + j `div` p
  else ((j - last_page * p) `mod` (p - 1)) * e + ((j - last_page * p) `div` (p - 1) + last_page).

Lemma div_mod_eq b q r : 0 <= r < b -> (q * b + r) `div` b = q /\ (q * b + r) `mod` b = r.
Proof.
  intros Hr. split; [symmetry; apply (Z.div_unique _ _ _ r)|symmetry; apply (Z.mod_unique _ _ q)]; lia.
Qed.

(** A column and a row below the bounds of a partly filled table. *)
Lemma row_col i : layout_ok -> 0 <= i < N ->
  i = (i `div` e) * e + i `mod` e /\ 0 <= i `mod` e < e /\ 0 <= i `div` e < p /\
  (last_page <= i `mod` e -> i `div` e < p - 1).
Proof.
  intros Hok Hi. pose proof (geometry Hok) as [Hp Hl]. destruct Hok as (He & HN & _). unfold last_page in *.
  pose proof (Z.div_mod i e ltac:(lia)). pose proof (Z.mod_pos_bound i e He).
  assert (0 <= i `div` e) by (apply Z.div_pos; lia). repeat split; nia.
Qed.

Lemma phys_of_range i : layout_ok -> 0 <= i < N -> 0 <= phys_of i < N.
Proof.
  intros Hok Hi. destruct (row_col i Hok Hi) as (Heq & Hr & Hq & Hlast).
  pose proof (geometry Hok) as [Hp Hl]. unfold phys_of.
  assert (N = last_page * p + (e - last_page) * (p - 1)) as HN by (unfold last_page; nia).
  destruct (Z.ltb_spec (i `mod` e) last_page); [nia|]. specialize (Hlast ltac:(lia)). nia.
Qed.

Lemma logical_phys i : layout_ok -> 0 <= i < N -> logical_of (phys_of i) = i.
Proof.
  intros Hok Hi. destruct (row_col i Hok Hi) as (Heq & Hr & Hq & Hlast).
  pose proof (geometry Hok) as [Hp Hl]. unfold phys_of.
  destruct (Z.ltb_spec (i `mod` e) last_page) as [Hlt|Hge]; unfold logical_of.
  - replace (i `mod` e * p + i `div` e <? last_page * p) with true by nia.
    destruct (div_mod_eq p (i `mod` e) (i `div` e) Hq) as [-> ->]. lia.
  - specialize (Hlast Hge).
    replace (_ <? last_page * p) with false by nia.
    replace (last_page * p + (i `mod` e - last_page) * (p - 1) + i `div` e - last_page * p)
      with ((i `mod` e - last_page) * (p - 1) + i `div` e) by lia.
    destruct (div_mod_eq (p - 1) (i `mod` e - last_page) (i `div` e) ltac:(lia)) as [-> ->]. lia.
Qed.

Lemma phys_logical j : layout_ok -> 0 <= j < N -> phys_of (logical_of j) = j /\ 0 <= logical_of j < N.
Proof.
  intros Hok Hj. pose proof (geometry Hok) as [Hp Hl].
  assert (N = last_page * p + (e - last_page) * (p - 1)) as HN by (unfold last_page; nia).
  assert (N = (p - 1) * e + last_page) as HN' by (unfold last_page; nia).
  unfold logical_of. destruct (Z.ltb_spec j (last_page * p)) as [Hlt|Hge].
  - pose proof (Z.mod_pos_bound j p Hp) as Hm. pose proof (Z.div_mod j p ltac:(lia)) as Hdm.
    assert (0 <= j `div` p < last_page) as Hd by (split; [apply Z.div_pos; lia|apply Z.div_lt_upper_bound; lia]).
    unfold phys_of. destruct (div_mod_eq e (j `mod` p) (j `div` p) ltac:(lia)) as [-> ->].
    replace (j `div` p <? last_page) with true by lia. split; [lia|nia].
  - assert (0 < p - 1) as Hp1 by nia. set (k := j - last_page * p) in *.
    pose proof (Z.mod_pos_bound k (p - 1) Hp1) as Hm. pose proof (Z.div_mod k (p - 1) ltac:(lia)) as Hdm.
    assert (0 <= k `div` (p - 1) < e - last_page) as Hd
      by (split; [apply Z.div_pos; lia|apply Z.div_lt_upper_bound; nia]).
    unfold phys_of.
    destruct (div_mod_eq e (k `mod` (p - 1)) (k `div` (p - 1) + last_page) ltac:(lia)) as [-> ->].
    replace (_ <? last_page) with false by lia. split; [|nia].
    unfold k in *. lia.
Qed.

(** In the 32-bit arithmetic of the code. *)
Lemma lg2phy_eq i : layout_ok -> 0 <= i < N -> ocf_metadata_map_lg2phy_striping cfg i = phys_of i.
Proof.
  intros Hok Hi. pose proof (phys_of_range i Hok Hi) as Hrange.
  destruct (row_col i Hok Hi) as (Heq & Hr & Hq & Hlast).
  pose proof (geometry Hok) as [Hp Hl]. pose proof Hok as (He & HN & Hov).
  assert (N < 2 ^ 32) as HN32 by (unfold last_page in Hl; nia).
  assert (i `mod` e * p < 2 ^ 32) as Hov1 by nia.
  assert (0 <= i `mod` e * p) as Hov0 by nia.
  unfold ocf_metadata_map_lg2phy_striping. unfold last_page in *.
  rewrite (u32_small (e * p)) by nia. rewrite (u32_small (e * p - N)) by nia.
  replace (e - (e * p - N)) with (N - (p - 1) * e) by lia.
  rewrite (u32_small (N - (p - 1) * e)) by nia. unfold phys_of, last_page in *.
  rewrite (u32_small (i `mod` e * p)) by lia.
  assert (i `mod` e * p + i `div` e < 2 ^ 32) as Hov2 by nia.
  rewrite (u32_small (i `mod` e * p + i `div` e)) by lia.
  destruct (Z.ltb_spec (i `mod` e) (N - (p - 1) * e)), (Z.ltb_spec (N - (p - 1) * e) (i `mod` e));
    try lia.
  - rewrite u32_small by lia. lia.
  - rewrite (u32_small (i `mod` e - _)) by lia. rewrite u32_small by nia. nia.
  - rewrite u32_small by lia. nia.
Qed.

Lemma phy2lg_eq j : layout_ok -> 0 <= j < N -> ocf_metadata_map_phy2lg_striping cfg j = logical_of j.
Proof.
  intros Hok Hj. destruct (phys_logical j Hok Hj) as [_ Hrange].
  pose proof (geometry Hok) as [Hp Hl]. pose proof Hok as (He & HN & Hov).
  assert (N < 2 ^ 32) as HN32 by (unfold last_page in Hl; nia).
  assert (N = last_page * p + (e - last_page) * (p - 1)) as HN' by (unfold last_page; nia).
  assert ((if N `mod` e =? 0 then e else N `mod` e) = last_page) as Help.
  { unfold last_page in *. destruct (Z.eq_dec (N - (p - 1) * e) e) as [Hf|Hf].
    - replace (N `mod` e) with 0 by (apply (Z.mod_unique _ _ p); lia). simpl. lia.
    - assert (N `mod` e = N - (p - 1) * e) as -> by (symmetry; apply (Z.mod_unique _ _ (p - 1)); lia).
      destruct (Z.eqb_spec (N - (p - 1) * e) 0); lia. }
  unfold ocf_metadata_map_phy2lg_striping. rewrite Help, (u32_small (last_page * p)) by nia.
  unfold logical_of in *. destruct (Z.ltb_spec j (last_page * p)).
  - pose proof (Z.mod_pos_bound j p Hp) as Hm. rewrite (u32_small (j `mod` p * e)) by nia.
    by rewrite u32_small by lia.
  - assert (0 < p - 1) as Hp1 by nia. rewrite (u32_small (j - _)) by lia. rewrite (u32_small (p - 1)) by nia.
    set (k := j - last_page * p) in *.
    pose proof (Z.mod_pos_bound k (p - 1) Hp1) as Hm.
    assert (0 <= k `div` (p - 1) < e - last_page) as Hd
      by (unfold k; split; [apply Z.div_pos; lia|apply Z.div_lt_upper_bound; nia]).
    rewrite (u32_small (k `div` (p - 1) + last_page)) by nia.
    rewrite (u32_small (k `mod` (p - 1) * e)) by nia.
    by rewrite u32_small by lia.
Qed.
End striping.

(** The lines in physical order. *)
Lemma phy2lg_perm cfg :
  layout_ok cfg -> layout cfg = ocf_metadata_layout_striping \/ layout cfg = ocf_metadata_layout_seq ->
  exists g ginv : Z -> Z,
    (forall j, 0 <= j < collision_table_entries cfg ->
       ocf_metadata_map_phy2lg cfg j = Some (g j) /\ 0 <= g j < collision_table_entries cfg /\ ginv (g j) = j) /\
    (forall i, 0 <= i < collision_table_entries cfg -> 0 <= ginv i < collision_table_entries cfg /\ g (ginv i) = i).
Proof.
  intros Hok Hlay. unfold ocf_metadata_map_phy2lg. destruct Hlay as [-> | ->]; simpl; [|by exists id, id].
  exists (logical_of cfg), (phys_of cfg). split.
  - intros j Hj. destruct (phys_logical cfg j Hok Hj) as [Hl Hr]. by rewrite phy2lg_eq.
  - intros i Hi. split; [by apply phys_of_range|by apply logical_phys].
Qed.

(** The metadata layouts are permutations of the cache lines.  For both
    layouts and every cache line of the table, the logical-to-physical mapping
    stays inside the table and [ocf_metadata_map_phy2lg] undoes it, and the same
    holds the other way round; no 32-bit computation wraps. *)
Theorem layout_roundtrip cfg i :
  layout_ok cfg -> 0 <= i < collision_table_entries cfg ->
  layout cfg = ocf_metadata_layout_striping \/ layout cfg = ocf_metadata_layout_seq ->
  (exists j, ocf_metadata_map_lg2phy cfg i = Some j /\ 0 <= j < collision_table_entries cfg /\
             ocf_metadata_map_phy2lg cfg j = Some i) /\
  (exists j, ocf_metadata_map_phy2lg cfg i = Some j /\ 0 <= j < collision_table_entries cfg /\
             ocf_metadata_map_lg2phy cfg j = Some i).
Proof.
  intros Hok Hi Hlay. unfold ocf_metadata_map_lg2phy, ocf_metadata_map_phy2lg.
  destruct Hlay as [-> | ->]; simpl; [|by split; exists i].
  pose proof (phys_of_range cfg i Hok Hi) as Hp. destruct (phys_logical cfg i Hok Hi) as [Hl Hr]. split.
  - exists (phys_of cfg i). by rewrite lg2phy_eq, phy2lg_eq, logical_phys.
  - exists (logical_of cfg i). by rewrite phy2lg_eq, lg2phy_eq, Hl.
Qed.

(** ** The collision lists as a finite map *)

(** [B h] is the list of lines in bucket [h], most recently added first, and
    [K line] the core line that a line maps, for the lines that map one. *)
Record coll_inv (cfg : config) (s : meta_state) (B : gmap Z (list Z)) (K : gmap Z (Z * Z)) : Prop := {
  ci_hash h : is_Some (B !! h) <-> 0 <= h < hash_table_entries cfg;
  ci_list h l : B !! h = Some l -> hash s !! h = Some (hd_or (collision_table_entries cfg) l) /\
    dll (infos s) (collision_table_entries cfg) l;
  ci_bucket h l x : B !! h = Some l -> x ∈ l <->
    exists cid cl, K !! x = Some (cid, cl) /\ ocf_metadata_hash_func cfg cl cid = h;
  ci_mapped x cid cl : K !! x = Some (cid, cl) ->
    (exists m, maps s !! x = Some m /\ core_id m = cid /\ core_line m = cl) /\ 0 <= cid < 2 ^ 16;
  ci_unmapped x : 0 <= x < collision_table_entries cfg -> K !! x = None ->
    (exists m, maps s !! x = Some m /\ core_id m = OCF_CORE_MAX /\ core_line m = ULLONG_MAX);
  ci_inj x y k : K !! x = Some k -> K !! y = Some k -> x = y;
  ci_maps x : is_Some (maps s !! x) <-> 0 <= x < collision_table_entries cfg;
  ci_infos x : is_Some (infos s !! x) <-> 0 <= x < collision_table_entries cfg;
  ci_entries : 0 < hash_table_entries cfg /\ 0 <= collision_table_entries cfg;
}.

Section coll.
Context {cfg : config}.
#[local] Abbreviation N := (collision_table_entries cfg).
#[local] Abbreviation hfun := (ocf_metadata_hash_func cfg).
#[local] Abbreviation inv := (coll_inv cfg).

Lemma hash_range cl cid : 0 < hash_table_entries cfg -> 0 <= hfun cl cid < hash_table_entries cfg.
Proof. intros H. by apply Z.mod_pos_bound. Qed.

Lemma mapped_range s B K x k : inv s B K -> K !! x = Some k -> 0 <= x < N.
Proof.
  intros Hi Hk. destruct k as [cid cl]. apply (ci_mapped _ _ _ _ Hi) in Hk as [(m & Hm & _) _].
  apply (ci_maps _ _ _ _ Hi). by eexists.
Qed.

Lemma bucket_elem s B K h l x : inv s B K -> B !! h = Some l -> x ∈ l -> 0 <= x < N.
Proof.
  intros Hi Hl Hx. apply (ci_bucket _ _ _ _ Hi _ _ x Hl) in Hx as (cid & cl & Hk & _). by eapply mapped_range.
Qed.

Lemma bucket_of s B K x cid cl :
  inv s B K -> K !! x = Some (cid, cl) -> exists l, B !! hfun cl cid = Some l /\ x ∈ l.
Proof.
  intros Hi Hk. pose proof (proj1 (ci_entries _ _ _ _ Hi)) as HH.
  destruct (proj2 (ci_hash _ _ _ _ Hi (hfun cl cid)) (hash_range cl cid HH)) as [l Hl].
  exists l. split; [done|]. apply (ci_bucket _ _ _ _ Hi _ _ x Hl). eauto.
Qed.

Lemma bucket_length s B K h l : inv s B K -> B !! h = Some l -> (length l <= lookup_fuel cfg)%nat.
Proof.
  intros Hi Hl. pose proof (ci_list _ _ _ _ Hi _ _ Hl) as [_ Hd].
  pose proof (ci_entries _ _ _ _ Hi) as [_ HN].
  assert (Z.of_nat (length l) <= Z.max 0 N) as Hle; [|unfold lookup_fuel; lia].
  apply NoDup_range_length; [by eapply dll_nodup|]. intros x Hx. by eapply bucket_elem.
Qed.

(** The links of an element of a bucket. *)
Lemma bucket_info s B K h l1 x l2 :
  inv s B K -> B !! h = Some (l1 ++ x :: l2) ->
  exists i, infos s !! x = Some i /\ prev_col i = last_or N l1 /\ next_col i = hd_or N l2.
Proof.
  intros Hi Hl. pose proof (ci_list _ _ _ _ Hi _ _ Hl) as [_ Hd].
  pose proof (seg_links _ _ _ _ _ _ (dll_seg _ _ _ Hd)) as (i & ? & ? & ?)%links_Some.
  by exists i.
Qed.

(** The search from any point of a bucket. *)
Lemma lookup_loop_spec s B K h l cid cl l1 l2 fuel :
  inv s B K -> B !! h = Some l -> l = l1 ++ l2 -> (length l2 <= fuel)%nat ->
  (forall x, x ∈ l1 -> K !! x <> Some (cid, cl)) ->
  wp (lookup_loop cfg fuel cid cl (hd_or N l2)) (fun r s' => s' = s /\
    match r with
    | Some x => K !! x = Some (cid, cl)
    | None => forall x, x ∈ l -> K !! x <> Some (cid, cl)
    end) s.
Proof.
  intros Hi Hl. revert l1 fuel. induction l2 as [|x l2 IH]; intros l1 fuel Heq Hfuel Hno.
  - rewrite app_nil_r in Heq. subst l1. unfold lookup_loop. destruct fuel; cbn [hd_or default head];
      unfold hd_or; simpl; rewrite Z.eqb_refl; by wp_step.
  - destruct fuel as [|fuel]; [simpl in Hfuel; lia|]. change (hd_or N (x :: l2)) with x.
    assert (x ∈ l) as Hx by (rewrite Heq; set_solver).
    pose proof (bucket_elem _ _ _ _ _ _ Hi Hl Hx) as Hr.
    pose proof (proj1 (ci_bucket _ _ _ _ Hi _ _ x Hl) Hx) as (cid' & cl' & Hk & Hh).
    pose proof (ci_mapped _ _ _ _ Hi _ _ _ Hk) as [(m & Hm & Hcid & Hcl) _].
    simpl. destruct (Z.eqb_spec x N); [lia|]. wp_step. unfold ocf_metadata_get_core_info.
    wp_step. eapply wp_rd_map; [done|]. wp_step. rewrite Hcid, Hcl.
    destruct (Z.eqb_spec cid cid'), (Z.eqb_spec cl' cl); simpl; subst;
      [by wp_step| | |];
      (pose proof (bucket_info _ _ _ _ _ _ _ Hi Hl) as (i & Hinfo & _ & Hn);
       wp_step; unfold ocf_metadata_get_collision_next, ocf_metadata_get_collision_info;
       do 2 wp_step; eapply wp_rd_info; [done|]; do 2 wp_step; simpl; rewrite Hn;
       apply (IH (l1 ++ [x])); [by rewrite <- app_assoc|simpl in Hfuel; lia|];
       intros y [Hy|Hy%list_elem_of_singleton]%elem_of_app; [by apply Hno|subst y; congruence]).
Qed.

(** The lookup answers from the abstract map. *)
Lemma lookup_spec s B K cid cl :
  inv s B K ->
  wp (ocf_engine_lookup_map_entry cfg cid cl) (fun e s' => s' = s /\
    e_hash e = hfun cl cid /\ e_core_line e = cl /\ e_core_id e = cid /\
    ((exists x, K !! x = Some (cid, cl) /\ e_status e = LOOKUP_HIT /\ e_coll_idx e = x) \/
     ((forall x, K !! x <> Some (cid, cl)) /\ e_status e = LOOKUP_MISS /\ e_coll_idx e = N))) s.
Proof.
  intros Hi. pose proof (proj1 (ci_entries _ _ _ _ Hi)) as HH.
  destruct (proj2 (ci_hash _ _ _ _ Hi (hfun cl cid)) (hash_range cl cid HH)) as [l Hl].
  pose proof (ci_list _ _ _ _ Hi _ _ Hl) as [Hh Hd].
  unfold ocf_engine_lookup_map_entry. wp_step. eapply wp_get_hash; [done|]. wp_step.
  eapply wp_mono; [eapply (lookup_loop_spec s B K _ l cid cl [] l); [done..|by eapply bucket_length|set_solver]|].
  intros r s' [-> Hr]. wp_step. split; [done|].
  destruct r as [x|]; simpl; (split_and!; [done..|]); [left; by exists x|right].
  split_and!; [|done..]. intros x Hk. destruct (bucket_of _ _ _ _ _ _ Hi Hk) as (l' & Hl' & Hx).
  simplify_eq. by apply (Hr x).
Qed.

(** What the collision operations leave alone: status words and partitions. *)
Definition coll_frame (s s' : meta_state) : Prop :=
  (forall y, (fun m => (valid m, dirty m)) <$> maps s' !! y = (fun m => (valid m, dirty m)) <$> maps s !! y) /\
  (forall y, partition_id <$> infos s' !! y = partition_id <$> infos s !! y).

Lemma partition_relink (m : gmap Z ocf_metadata_list_info) l1 l2 v u x :
  partition_id <$> relink_prev l2 v (relink_next l1 u m) !! x = partition_id <$> m !! x.
Proof. by apply relink_field. Qed.

Lemma status_alter (f : ocf_metadata_map -> ocf_metadata_map) (m : gmap Z ocf_metadata_map) x y :
  (forall a, (valid (f a), dirty (f a)) = (valid a, dirty a)) ->
  (fun m => (valid m, dirty m)) <$> alter f x m !! y = (fun m => (valid m, dirty m)) <$> m !! y.
Proof.
  intros Hf. rewrite lookup_alter. case_decide; [subst|done].
  destruct (m !! _); simpl; [by rewrite Hf|done].
Qed.

Lemma inv_add s s' B K x cid cl l i m :
  inv s B K -> 0 <= x < N -> K !! x = None -> (forall y, K !! y <> Some (cid, cl)) ->
  0 <= cid < 2 ^ 16 -> B !! hfun cl cid = Some l -> infos s !! x = Some i -> maps s !! x = Some m ->
  maps s' = <[x := mkMap cl cid (valid m) (dirty m)]> (maps s) ->
  infos s' = <[x := mkInfo N (hd_or N l) (partition_id i)]> (relink_prev l x (infos s)) ->
  hash s' = <[hfun cl cid := x]> (hash s) ->
  inv s' (<[hfun cl cid := x :: l]> B) (<[x := (cid, cl)]> K) /\ coll_frame s s'.
Proof.
  intros Hi Hx Hk Huniq Hcid Hl Hix Hmx Hms His Hhs.
  assert (x ∉ l) as Hxl.
  { intros Hin. apply (ci_bucket _ _ _ _ Hi _ _ x Hl) in Hin as (? & ? & ? & _). congruence. }
  pose proof (ci_list _ _ _ _ Hi _ _ Hl) as [Hh Hd].
  assert (is_Some (relink_prev l x (infos s) !! x)) as Hrel
    by (apply relink_prev_dom; by eexists).
  split; [split|split].
  - intros h. rewrite lookup_insert. case_decide; [subst|apply (ci_hash _ _ _ _ Hi)].
    split; [intros _; apply (ci_hash _ _ _ _ Hi); by eexists|by eexists].
  - intros h l'. rewrite Hhs, His, !lookup_insert. case_decide as Heq; [subst h|].
    + intros [= <-]. split; [done|]. apply dll_push; [done..| |done|done]. lia.
    + intros Hl'. pose proof (ci_list _ _ _ _ Hi _ _ Hl') as [Hh' Hd']. split; [done|].
      eapply dll_frame; [|done]. intros y Hy. rewrite links_insert_ne.
      * apply relink_prev_links. intros Hhd. apply Heq.
        assert (y ∈ l) as Hyl by (destruct l; simpl in Hhd; [done|set_solver]).
        apply (ci_bucket _ _ _ _ Hi _ _ y Hl) in Hyl as (? & ? & Hk1 & <-).
        apply (ci_bucket _ _ _ _ Hi _ _ y Hl') in Hy as (? & ? & Hk2 & <-). by simplify_eq.
      * intros ->. apply (ci_bucket _ _ _ _ Hi _ _ x Hl') in Hy as (? & ? & ? & _). congruence.
  - intros h l' y. rewrite lookup_insert. case_decide as Heq; [subst h|].
    + intros [= <-]. rewrite elem_of_cons. rewrite lookup_insert. case_decide as Hxy.
      * subst y. split; [intros _; by exists cid, cl|by left].
      * rewrite (ci_bucket _ _ _ _ Hi _ _ y Hl). split; [intros [->|?]; done|by right].
    + intros Hl'. rewrite (ci_bucket _ _ _ _ Hi _ _ y Hl'), lookup_insert. case_decide as Hxy; [|done].
      subst y. split; [intros (? & ? & ? & _); congruence|]. intros (? & ? & [= <- <-] & ?). done.
  - intros y cid' cl'. rewrite Hms, !lookup_insert. case_decide as Hxy; [|apply (ci_mapped _ _ _ _ Hi)].
    intros [= <- <-]. split; [by eexists|done].
  - intros y Hy. rewrite Hms, !lookup_insert. case_decide as Hxy; [done|]. by apply (ci_unmapped _ _ _ _ Hi).
  - intros y z k. rewrite !lookup_insert. destruct (decide (x = y)), (decide (x = z)); subst; [done| | |apply (ci_inj _ _ _ _ Hi)].
    + intros [= <-] Hz. by apply Huniq in Hz.
    + intros Hy [= <-]. by apply Huniq in Hy.
  - intros y. rewrite Hms, lookup_insert. case_decide; [subst|apply (ci_maps _ _ _ _ Hi)].
    split; [done|by eexists].
  - intros y. rewrite His, lookup_insert. case_decide; [subst; split; [done|by eexists]|].
    rewrite relink_prev_dom. apply (ci_infos _ _ _ _ Hi).
  - apply (ci_entries _ _ _ _ Hi).
  - intros y. rewrite Hms, lookup_insert. case_decide; [subst; by rewrite Hmx|done].
  - intros y. rewrite His, lookup_insert. case_decide; [subst; by rewrite Hix|].
    apply (partition_relink _ [] l x 0).
Qed.

Lemma add_spec s B K cid cl x :
  inv s B K -> 0 <= x < N -> K !! x = None -> (forall y, K !! y <> Some (cid, cl)) -> 0 <= cid < 2 ^ 16 ->
  wp (ocf_metadata_add_to_collision cfg cid cl (hfun cl cid) x) (fun _ s' => exists l,
    B !! hfun cl cid = Some l /\
    inv s' (<[hfun cl cid := x :: l]> B) (<[x := (cid, cl)]> K) /\ coll_frame s s') s.
Proof.
  intros Hi Hx Hk Huniq Hcid. pose proof (proj1 (ci_entries _ _ _ _ Hi)) as HH.
  pose proof (hash_range cl cid HH) as Hhr.
  destruct (proj2 (ci_hash _ _ _ _ Hi (hfun cl cid)) Hhr) as [l Hl].
  pose proof (ci_list _ _ _ _ Hi _ _ Hl) as [Hh Hd].
  destruct (proj2 (ci_infos _ _ _ _ Hi x) Hx) as [i Hix].
  destruct (proj2 (ci_maps _ _ _ _ Hi x) Hx) as [m Hmx].
  assert (u16 cid = cid) as Hu by (apply Z.mod_small; lia).
  unfold ocf_metadata_add_to_collision. wp_step. eapply wp_get_hash; [done|]. cbv zeta. wp_step. wp_step; [lia|].
  wp_step. wp_step; [lia|]. wp_step. apply wp_upd_map; [by eexists|]. rewrite Hu. wp_step.
  apply wp_upd_info; [by eexists|]. wp_step.
  assert (forall s1, maps s1 = <[x := mkMap cl cid (valid m) (dirty m)]> (maps s) ->
    infos s1 = <[x := mkInfo N (hd_or N l) (partition_id i)]> (relink_prev l x (infos s)) ->
    hash s1 = hash s ->
    wp (ocf_metadata_set_hash (hfun cl cid) x) (fun _ s' => exists l, B !! hfun cl cid = Some l /\
      inv s' (<[hfun cl cid := x :: l]> B) (<[x := (cid, cl)]> K) /\ coll_frame s s') s1) as Hfin.
  { intros s1 H1 H2 H3. apply wp_set_hash; [rewrite H3; by eexists|]. exists l. split; [done|].
    eapply inv_add; [done..|]. simpl. by rewrite H3. }
  destruct l as [|h t].
  - unfold hd_or. simpl. rewrite Z.eqb_refl. simpl. wp_step. apply Hfin; simpl; [| |done].
    + map_pointwise. by rewrite Hmx.
    + map_pointwise. by rewrite Hix.
  - change (hd_or N (h :: t)) with h in *. assert (h ∈ h :: t) as Hht by by left.
    pose proof (bucket_elem _ _ _ _ _ _ Hi Hl Hht) as Hhrange.
    replace (h =? N) with false by lia. simpl.
    assert (x <> h) as Hne.
    { intros ->. apply (ci_bucket _ _ _ _ Hi _ _ h Hl) in Hht as (? & ? & ? & _). congruence. }
    apply wp_upd_info; [simpl; rewrite is_Some_alter; by apply (ci_infos _ _ _ _ Hi)|].
    apply Hfin; simpl; [| |done].
    + map_pointwise. by rewrite Hmx.
    + unfold relink_prev. simpl. map_pointwise. by rewrite Hix.
Qed.

Lemma inv_remove s s' B K x cid cl l1 l2 i m :
  inv s B K -> K !! x = Some (cid, cl) -> B !! hfun cl cid = Some (l1 ++ x :: l2) ->
  infos s !! x = Some i -> maps s !! x = Some m ->
  maps s' = <[x := mkMap ULLONG_MAX OCF_CORE_MAX (valid m) (dirty m)]> (maps s) ->
  infos s' = <[x := mkInfo N N (partition_id i)]>
    (relink_prev l2 (last_or N l1) (relink_next l1 (hd_or N l2) (infos s))) ->
  hash s' = <[hfun cl cid := hd_or N (l1 ++ l2)]> (hash s) ->
  inv s' (<[hfun cl cid := l1 ++ l2]> B) (delete x K) /\ coll_frame s s'.
Proof.
  intros Hi Hk Hl Hix Hmx Hms His Hhs.
  pose proof (ci_list _ _ _ _ Hi _ _ Hl) as [Hh Hd].
  pose proof (dll_nodup _ _ _ Hd) as Hnd.
  assert (x ∉ l1 ++ l2) as Hx.
  { apply NoDup_app in Hnd as (_ & Hdis & [? _]%NoDup_cons).
    intros [H1|H2]%elem_of_app; [|done]. apply (Hdis x H1). by left. }
  assert (forall h l y, B !! h = Some l -> y ∈ l -> y ∈ l1 ++ x :: l2 -> h = hfun cl cid) as Hdis.
  { intros h l y Hl' Hy1 Hy2. apply (ci_bucket _ _ _ _ Hi _ _ y Hl') in Hy1 as (? & ? & Hk1 & <-).
    apply (ci_bucket _ _ _ _ Hi _ _ y Hl) in Hy2 as (? & ? & Hk2 & <-). by simplify_eq. }
  split; [split|split].
  - intros h. rewrite lookup_insert. case_decide; [subst|apply (ci_hash _ _ _ _ Hi)].
    split; [intros _; apply (ci_hash _ _ _ _ Hi); by eexists|by eexists].
  - intros h l'. rewrite Hhs, His, !lookup_insert. case_decide as Heq; [subst h|].
    + intros [= <-]. split; [done|]. eapply dll_frame; [|by eapply dll_unlink].
      intros y Hy. apply links_insert_ne. intros ->. done.
    + intros Hl'. pose proof (ci_list _ _ _ _ Hi _ _ Hl') as [Hh' Hd']. split; [done|].
      eapply dll_frame; [|done]. intros y Hy.
      assert (y ∉ l1 ++ x :: l2) as Hyn by (intros Hy2; by apply Heq; rewrite (Hdis _ _ _ Hl' Hy Hy2)).
      rewrite links_insert_ne by set_solver. unfold links.
      rewrite relink_prev_lookup_ne, relink_next_lookup_ne by set_solver. done.
  - intros h l' y. rewrite lookup_insert. case_decide as Heq; [subst h|].
    + intros [= <-]. rewrite lookup_delete. case_decide as Hxy; [subst y; split; [done|by intros (? & ? & ? & _)]|].
      rewrite <- (ci_bucket _ _ _ _ Hi _ _ y Hl). set_solver.
    + intros Hl'. rewrite (ci_bucket _ _ _ _ Hi _ _ y Hl'), lookup_delete. case_decide as Hxy; [subst y|done].
      split; [|by intros (? & ? & ? & _)]. intros (cid' & cl' & Hk' & Hh'). simplify_eq.
  - intros y cid' cl'. rewrite Hms, lookup_delete, lookup_insert. case_decide as Hxy; [done|apply (ci_mapped _ _ _ _ Hi)].
  - intros y Hy. rewrite Hms, lookup_delete, lookup_insert. case_decide as Hxy; [intros _; by eexists|].
    by apply (ci_unmapped _ _ _ _ Hi).
  - intros y z k. rewrite !lookup_delete. do 2 case_decide; try done. apply (ci_inj _ _ _ _ Hi).
  - intros y. rewrite Hms, lookup_insert. case_decide; [subst y|apply (ci_maps _ _ _ _ Hi)].
    split; [intros _; by eapply mapped_range|by eexists].
  - intros y. rewrite His, lookup_insert. case_decide; [subst y; split; [intros _; by eapply mapped_range|by eexists]|].
    rewrite relink_dom. apply (ci_infos _ _ _ _ Hi).
  - apply (ci_entries _ _ _ _ Hi).
  - intros y. rewrite Hms, lookup_insert. case_decide; [subst; by rewrite Hmx|done].
  - intros y. rewrite His, lookup_insert. case_decide; [subst; by rewrite Hix|]. apply partition_relink.
Qed.

(** The relinking part of the removal. *)
Lemma relink_run s B K h l1 x l2 Q :
  inv s B K -> B !! h = Some (l1 ++ x :: l2) ->
  Q tt (set_infos (fun m => relink_prev l2 (last_or N l1) (relink_next l1 (hd_or N l2) m)) s) ->
  wp ((if negb (last_or N l1 =? N) then ocf_metadata_set_collision_next (last_or N l1) (hd_or N l2) else mret tt);;
      if negb (hd_or N l2 =? N) then ocf_metadata_set_collision_prev (hd_or N l2) (last_or N l1) else mret tt) Q s.
Proof.
  intros Hi Hl HQ.
  assert (forall y, y ∈ l1 ++ x :: l2 -> (y =? N) = false /\ is_Some (infos s !! y)) as Hin.
  { intros y Hy. pose proof (bucket_elem _ _ _ _ _ _ Hi Hl Hy) as Hr.
    split; [lia|by apply (ci_infos _ _ _ _ Hi)]. }
  wp_step. destruct l1 as [|p l1 _] using rev_ind.
  - unfold last_or at 1. simpl. rewrite Z.eqb_refl. simpl. wp_step.
    destruct l2 as [|n l2]; [unfold hd_or; simpl; rewrite Z.eqb_refl; simpl; wp_step; by destruct s|].
    change (hd_or N (n :: l2)) with n in *. destruct (Hin n) as [-> Hn]; [set_solver|]. by apply wp_upd_info.
  - rewrite last_or_snoc in *. destruct (Hin p) as [-> Hp]; [set_solver|].
    apply wp_upd_info; [done|]. unfold relink_next in HQ. rewrite last_snoc in HQ.
    destruct l2 as [|n l2]; [unfold hd_or; simpl; rewrite Z.eqb_refl; simpl; wp_step; done|].
    change (hd_or N (n :: l2)) with n in *. destruct (Hin n) as [-> Hn]; [set_solver|].
    apply wp_upd_info; [simpl; by rewrite is_Some_alter|done].
Qed.

Lemma remove_spec s B K cid cl x part_id :
  inv s B K -> K !! x = Some (cid, cl) ->
  wp (ocf_metadata_remove_from_collision cfg x part_id) (fun _ s' => exists l,
    B !! hfun cl cid = Some l /\
    inv s' (<[hfun cl cid := without x l]> B) (delete x K) /\ coll_frame s s') s.
Proof.
  intros Hi Hk. pose proof (mapped_range _ _ _ _ _ Hi Hk) as Hx.
  destruct (bucket_of _ _ _ _ _ _ Hi Hk) as (l & Hl & Hin).
  pose proof (hash_range cl cid (proj1 (ci_entries _ _ _ _ Hi))) as Hhr.
  apply list_elem_of_split in Hin as (l1 & l2 & ->).
  pose proof (ci_list _ _ _ _ Hi _ _ Hl) as [Hh Hd]. pose proof (dll_nodup _ _ _ Hd) as Hnd.
  pose proof (bucket_info _ _ _ _ _ _ _ Hi Hl) as (i & Hix & Hp & Hn).
  pose proof (ci_mapped _ _ _ _ Hi _ _ _ Hk) as [(m & Hmx & Hcid & Hcl) _].
  unfold ocf_metadata_remove_from_collision. cbv zeta. wp_step. wp_step; [lia|]. wp_step.
  unfold ocf_metadata_get_collision_info. wp_step. eapply wp_rd_info; [done|]. wp_step. rewrite Hp, Hn.
  match goal with |- wp (?a ≫= fun _ => ?b ≫= ?k) _ _ =>
    enough (wp ((a ≫= fun _ => b) ≫= k) (fun _ s' => exists l, B !! hfun cl cid = Some l /\
      inv s' (<[hfun cl cid := without x l]> B) (delete x K) /\ coll_frame s s') s) as Hgoal end.
  { destruct Hgoal as (a & s' & Hr & HQ). exists a, s'. split; [|done]. revert Hr.
    unfold mbind, M_bind. destruct (if negb (last_or N l1 =? N) then _ else _) as [[? ?]|]; done. }
  wp_step. eapply relink_run; [done..|]. wp_step. unfold ocf_metadata_get_core_info. wp_step.
  eapply wp_rd_map; [done|]. wp_step. rewrite Hcid, Hcl. wp_step. wp_step; [lia|]. wp_step.
  eapply wp_get_hash; [done|]. wp_step.
  assert (forall s1, maps s1 = maps s ->
    infos s1 = relink_prev l2 (last_or N l1) (relink_next l1 (hd_or N l2) (infos s)) ->
    hash s1 = <[hfun cl cid := hd_or N (l1 ++ l2)]> (hash s) ->
    wp (ocf_metadata_set_collision_info x N N;; ocf_metadata_set_core_info x OCF_CORE_MAX ULLONG_MAX)
      (fun _ s' => exists l, B !! hfun cl cid = Some l /\
        inv s' (<[hfun cl cid := without x l]> B) (delete x K) /\ coll_frame s s') s1) as Hfin.
  { intros s1 H1 H2 H3. wp_step. apply wp_upd_info.
    { rewrite H2, relink_dom. by eexists. }
    apply wp_upd_map; [simpl; rewrite H1; by eexists|].
    exists (l1 ++ x :: l2). split; [done|]. rewrite without_mid by done.
    eapply inv_remove; [done..| | |simpl; by rewrite H3].
    - simpl. rewrite H1. map_pointwise. by rewrite Hmx.
    - simpl. rewrite H2. apply map_eq. intros y. destruct (decide (x = y)) as [<-|Hne].
      + rewrite lookup_alter_eq, lookup_insert_eq.
        pose proof (partition_relink (infos s) l1 l2 (last_or N l1) (hd_or N l2) x) as Hpid.
        rewrite Hix in Hpid. destruct (relink_prev _ _ _ !! x); simpl in *; congruence.
      + by rewrite lookup_alter_ne, lookup_insert_ne. }
  assert ((hd_or N (l1 ++ x :: l2) =? x) = bool_decide (l1 = [])) as ->.
  { destruct l1 as [|y l1]; [apply Z.eqb_refl|]. apply Z.eqb_neq. unfold hd_or. simpl. intros ->.
    simpl in Hnd. apply NoDup_cons in Hnd as [Hnin _]. set_solver. }
  case_bool_decide as Hl1.
  - subst l1. apply wp_set_hash; [simpl; by eexists|]. by apply Hfin.
  - wp_step. apply Hfin; [done..|]. simpl. rewrite insert_id; [done|].
    rewrite Hh. by destruct l1.
Qed.
End coll.

(** ** Initialisation *)

Section init.
Context (cfg : config) (w : Z).
Hypothesis Hw : word_bits cfg = Some w.
#[local] Abbreviation N := (collision_table_entries cfg).

Lemma w_range : 0 < w.
Proof using Hw. pose proof (word_bits_width _ _ Hw) as H. unfold word_width in H. rewrite !elem_of_cons, elem_of_nil in H. lia. Qed.

(** Clearing all the sectors of a word leaves zero. *)
Lemma all_cleared word word' :
  0 <= word' < 2 ^ w -> 0 <= word < 2 ^ w ->
  (forall i, 0 <= i -> Z.testbit word' i = if bool_decide (0 <= i <= w - 1) then false else Z.testbit word i) ->
  word' = 0.
Proof using Hw.
  intros H' Hword Hb. apply Z.bits_inj'. intros i Hi. rewrite Z.bits_0, Hb by done.
  case_bool_decide; [done|]. rewrite <- (Z.mod_small word (2 ^ w)) by done.
  apply Z.mod_pow2_bits_high. pose proof w_range. lia.
Qed.

Lemma init_status_spec s line m :
  words_ok w s -> maps s !! line = Some m ->
  wp (metadata_init_status_bits cfg line) (fun _ s' => words_ok w s' /\ infos s' = infos s /\ hash s' = hash s /\
    maps s' = <[line := mkMap (core_line m) (core_id m) 0 0]> (maps s)) s.
Proof using Hw.
  intros Hok Hm. pose proof w_range as Hpos. destruct (line_sectors _ _ Hw) as [H0 H1].
  unfold metadata_init_status_bits. rewrite H0, H1. wp_step.
  eapply wp_mono; [eapply (ocf_metadata_clear_spec cfg w s line 0 (w - 1) m); done || lia|].
  intros ? s1 (_ & Hok1 & Hi1 & Hh1 & m1 & d & Hm1 & Hmaps1 & Hd). simplify_eq. wp_step.
  assert (maps s1 !! line = Some (set_what Dirty d m)) as Hl1 by (by rewrite Hmaps1, lookup_insert_eq).
  assert (d = 0) as ->.
  { apply (all_cleared (dirty m)); [apply (Hok1 _ _ Hl1)|apply (Hok _ _ Hm)|done]. }
  eapply wp_mono; [eapply (ocf_metadata_clear_spec cfg w s1 line 0 (w - 1)); done || lia|].
  intros ? s2 (_ & Hok2 & Hi2 & Hh2 & m2 & v & Hm2 & Hmaps2 & Hv). rewrite Hl1 in Hm2. injection Hm2 as <-.
  assert (maps s2 !! line = Some (set_what Valid v (set_what Dirty 0 m))) as Hl2 by (by rewrite Hmaps2, lookup_insert_eq).
  assert (v = 0) as ->.
  { apply (all_cleared (valid m)); [apply (Hok2 _ _ Hl2)|apply (Hok _ _ Hm)|done]. }
  wp_step. split_and!; [done|congruence|congruence|]. rewrite Hmaps2, Hmaps1. by rewrite insert_insert_eq.
Qed.

(** Lines below [j] are initialised. *)
Record init_upto (s0 : meta_state) (j : Z) (s : meta_state) : Prop := {
  iu_words : words_ok w s;
  iu_maps x : is_Some (maps s !! x) <-> is_Some (maps s0 !! x);
  iu_infos x : is_Some (infos s !! x) <-> is_Some (infos s0 !! x);
  iu_hash : hash s = hash s0;
  iu_done x : 0 <= x < j -> maps s !! x = Some (mkMap ULLONG_MAX OCF_CORE_MAX 0 0);
}.

Lemma init_entry_spec s0 s j :
  init_upto s0 j s -> 0 <= j -> is_Some (maps s0 !! j) -> is_Some (infos s0 !! j) ->
  wp (_ocf_init_collision_entry cfg j) (fun _ => init_upto s0 (j + 1)) s.
Proof using Hw.
  intros [H1 H2 H3 H4 H5] Hj Hmj Hij. destruct (proj2 (H2 j) Hmj) as [m Hm].
  unfold _ocf_init_collision_entry. cbv zeta. wp_step. apply wp_upd_info; [by apply H3|]. wp_step.
  apply wp_upd_map; [by eexists|].
  eapply wp_mono; [apply init_status_spec|].
  - intros l m'. simpl. rewrite lookup_alter. case_decide; [subst l; rewrite Hm|apply H1].
    intros [= <-]. apply (H1 _ _ Hm).
  - simpl. by rewrite lookup_alter_eq, Hm.
  - simpl. intros _ s' (Hok & Hi & Hh & Hmaps). split; [done| | |congruence|].
    + intros x. rewrite Hmaps, insert_is_Some', is_Some_alter; [done|]. rewrite is_Some_alter. by eexists.
    + intros x. by rewrite Hi, is_Some_alter.
    + intros x Hx. rewrite Hmaps, lookup_insert. case_decide as Hxj; [done|].
      rewrite lookup_alter_ne by done. apply H5. lia.
Qed.
End init.

(** The hash table after its initialisation: every bucket is empty. *)
Lemma init_hash_spec cfg s :
  (forall h, is_Some (hash s !! h) <-> 0 <= h < hash_table_entries cfg) -> 0 < hash_table_entries cfg ->
  wp (ocf_metadata_init_hash_table cfg) (fun _ s' => maps s' = maps s /\ infos s' = infos s /\
    (forall h, is_Some (hash s' !! h) <-> is_Some (hash s !! h)) /\
    (forall h, is_Some (hash s !! h) -> hash s' !! h = Some (collision_table_entries cfg))) s.
Proof.
  intros Hh Hpos. unfold ocf_metadata_init_hash_table.
  apply (wp_for_range _ (fun j s' => maps s' = maps s /\ infos s' = infos s /\
    (forall h, is_Some (hash s' !! h) <-> is_Some (hash s !! h)) /\
    (forall h, 0 <= h < j -> hash s' !! h = Some (collision_table_entries cfg)))).
  - intros j s2 Hj (Ha & Hb & Hc & Hd). apply wp_set_hash; [rewrite Hc; apply Hh; lia|].
    split_and!; [done..| |]; intros h; simpl.
    + rewrite lookup_insert. case_decide; [subst h|apply Hc]. split; [intros _; apply Hh; lia|by eexists].
    + intros Hx. rewrite lookup_insert. case_decide; [done|]. apply Hd. lia.
  - split_and!; [done..|lia].
  - rewrite Z.add_0_l, Z2Nat.id by lia. intros s2 (Ha & Hb & Hc & Hd). split_and!; [done..|].
    intros h Hs%Hh. by apply Hd.
Qed.

Lemma init_collision_spec cfg w s :
  word_bits cfg = Some w -> words_ok w s ->
  (forall x, is_Some (maps s !! x) <-> 0 <= x < collision_table_entries cfg) ->
  (forall x, is_Some (infos s !! x) <-> 0 <= x < collision_table_entries cfg) ->
  (forall h, is_Some (hash s !! h) <-> 0 <= h < hash_table_entries cfg) ->
  0 < hash_table_entries cfg -> 0 <= collision_table_entries cfg ->
  wp (ocf_metadata_init_hash_table cfg;; ocf_metadata_init_collision cfg) (fun _ s' =>
    words_ok w s' /\ coll_inv cfg s' ((fun _ => []) <$> hash s) ∅ /\
    forall x, 0 <= x < collision_table_entries cfg -> maps s' !! x = Some (mkMap ULLONG_MAX OCF_CORE_MAX 0 0)) s.
Proof.
  intros Hw Hok Hm Hi Hh Hpos HN. wp_step. eapply wp_mono; [by apply init_hash_spec|].
  intros [] s1 (Ha & Hb & Hc & Hd). unfold ocf_metadata_init_collision.
  apply (wp_for_range _ (init_upto w s1)).
  - intros j s2 Hj Hu. apply init_entry_spec; [done..|lia| |]; rewrite ?Ha, ?Hb; [apply Hm|apply Hi]; lia.
  - split; [unfold words_ok; by rewrite Ha|done..|]. intros x Hx. lia.
  - rewrite Z.add_0_l, Z2Nat.id by done. intros s2 [H1 H2 H3 H4 H5]. split_and!; [done| |done]. split.
    + intros h. by rewrite lookup_fmap, fmap_is_Some.
    + intros h l. rewrite lookup_fmap. destruct (hash s !! h) eqn:Hhh; [|done]. intros [= <-].
      split; [rewrite H4; apply Hd; by eexists|apply dll_nil_list].
    + intros h l x. rewrite lookup_fmap. destruct (hash s !! h); [|done]. intros [= <-].
      split; [set_solver|by intros (? & ? & ? & _)].
    + intros x cid cl Hx. by rewrite lookup_empty in Hx.
    + intros x Hx _. rewrite H5 by done. by eexists.
    + intros x y k Hx. by rewrite lookup_empty in Hx.
    + intros x. by rewrite H2, Ha.
    + intros x. by rewrite H3, Hb.
    + done.
Qed.

(** ** Results *)

(** The cache lines that [s] maps are those of [K]. *)
Definition mapping_ok (cfg : config) (s : meta_state) (K : gmap Z (Z * Z)) : Prop :=
  exists B, coll_inv cfg s B K.

Inductive map_op :=
  | MapAdd (core_id core_line line : Z)
  | MapRemove (line part_id : Z)
  | MapLookup (core_id core_line : Z).

(** One operation of the mapping; a lookup returns the line it finds. *)
Definition run_map_op (cfg : config) (o : map_op) : M meta_state (option Z) :=
  match o with
  | MapAdd cid cl x =>
      ocf_metadata_add_to_collision cfg cid cl (ocf_metadata_hash_func cfg cl cid) x;; mret None
  | MapRemove x p => ocf_metadata_remove_from_collision cfg x p;; mret None
  | MapLookup cid cl =>
      e ← ocf_engine_lookup_map_entry cfg cid cl;
      mret (if e_status e =? LOOKUP_HIT then Some (e_coll_idx e) else None)
  end.

Fixpoint run_map_ops (cfg : config) (os : list map_op) : M meta_state (list (option Z)) :=
  match os with
  | [] => mret []
  | o :: os => r ← run_map_op cfg o; rs ← run_map_ops cfg os; mret (r :: rs)
  end.

(** The line that [K] gives a core line. *)
Definition find_key (K : gmap Z (Z * Z)) (k : Z * Z) : option Z :=
  fst <$> head (filter (fun p : Z * (Z * Z) => p.2 = k) (map_to_list K)).

(** The abstract operations: a line must be free and a core line not yet mapped
    to be added; a line must be mapped to be removed. *)
Definition spec_map_op (cfg : config) (o : map_op) (K : gmap Z (Z * Z)) : option (option Z * gmap Z (Z * Z)) :=
  match o with
  | MapAdd cid cl x =>
      match K !! x, find_key K (cid, cl) with
      | None, None =>
          if (0 <=? x) && (x <? collision_table_entries cfg) && (0 <=? cid) && (cid <? 2 ^ 16)
          then Some (None, <[x := (cid, cl)]> K) else None
      | _, _ => None
      end
  | MapRemove x _ => match K !! x with Some _ => Some (None, delete x K) | None => None end
  | MapLookup cid cl => Some (find_key K (cid, cl), K)
  end.

Fixpoint spec_map_ops (cfg : config) (os : list map_op) (K : gmap Z (Z * Z)) :
    option (list (option Z) * gmap Z (Z * Z)) :=
  match os with
  | [] => Some ([], K)
  | o :: os =>
      '(r, K1) ← spec_map_op cfg o K;
      '(rs, K2) ← spec_map_ops cfg os K1;
      Some (r :: rs, K2)
  end.

Lemma find_key_Some K k x : find_key K k = Some x -> K !! x = Some k.
Proof.
  unfold find_key. destruct (filter _ _) as [|[y k'] l] eqn:Hf; [done|]. intros [= <-].
  assert ((y, k') ∈ filter (fun p : Z * (Z * Z) => p.2 = k) (map_to_list K)) as Hin by (rewrite Hf; by left).
  apply list_elem_of_filter in Hin as [Heq Hin]. simpl in *. subst k'.
  by apply elem_of_map_to_list in Hin.
Qed.

Lemma find_key_None K k x : find_key K k = None -> K !! x <> Some k.
Proof.
  unfold find_key. destruct (filter _ _) as [|p l] eqn:Hf; [|done]. intros _ Hx.
  assert ((x, k) ∈ filter (fun p : Z * (Z * Z) => p.2 = k) (map_to_list K)) as Hin.
  { apply list_elem_of_filter. split; [done|]. by apply elem_of_map_to_list. }
  rewrite Hf in Hin. set_solver.
Qed.

(** What the mapping depends on: core lines, hash buckets and links. *)
Definition map_same (s s' : meta_state) : Prop :=
  (forall x, (fun m => (core_id m, core_line m)) <$> maps s' !! x = (fun m => (core_id m, core_line m)) <$> maps s !! x) /\
  hash s' = hash s /\
  (forall x, links (infos s') x = links (infos s) x).

Lemma map_same_refl s : map_same s s.
Proof. done. Qed.
Lemma map_same_trans s1 s2 s3 : map_same s1 s2 -> map_same s2 s3 -> map_same s1 s3.
Proof. intros (A1 & A2 & A3) (B1 & B2 & B3). split_and!; [|congruence|]; intros x; [by rewrite B1|by rewrite B3]. Qed.

Lemma links_is_Some `{DllNode A} (m : gmap Z A) x : is_Some (links m x) <-> is_Some (m !! x).
Proof. apply fmap_is_Some. Qed.

Lemma coll_inv_same cfg s s' B K : coll_inv cfg s B K -> map_same s s' -> coll_inv cfg s' B K.
Proof.
  intros [H1 H2 H3 H4 H5 H6 H7 H8 H9] (Hm & Hh & Hl).
  assert (forall x m, maps s !! x = Some m -> exists m', maps s' !! x = Some m' /\ core_id m' = core_id m /\ core_line m' = core_line m) as Hto.
  { intros x m Hx. specialize (Hm x). rewrite Hx in Hm. destruct (maps s' !! x) as [m'|]; [|done].
    simpl in Hm. injection Hm as Hc Hcl. by exists m'. }
  split; try done.
  - intros h l Hhl. rewrite Hh. destruct (H2 h l Hhl) as [? Hd]. split; [done|].
    eapply dll_frame; [|exact Hd]. intros x _. apply Hl.
  - intros x cid cl [(m & Hx & Hc & Hcl) Hr]%H4. split; [|done].
    destruct (Hto x m Hx) as (m' & Hx' & E1 & E2). exists m'. by rewrite E1, E2.
  - intros x Hx Hk. destruct (H5 x Hx Hk) as (m & Hxm & Hc & Hcl).
    destruct (Hto x m Hxm) as (m' & Hx' & E1 & E2). exists m'. by rewrite E1, E2.
  - intros x. rewrite <- H7. rewrite <- (fmap_is_Some (fun m => (core_id m, core_line m))), Hm. apply fmap_is_Some.
  - intros x. rewrite <- H8, <- !links_is_Some. by rewrite Hl.
Qed.

Lemma mapping_ok_same cfg s s' K : mapping_ok cfg s K -> map_same s s' -> mapping_ok cfg s' K.
Proof. intros [B HB] Hs. exists B. by eapply coll_inv_same. Qed.

Lemma coll_frame_refl s : coll_frame s s.
Proof. done. Qed.
Lemma coll_frame_trans s1 s2 s3 : coll_frame s1 s2 -> coll_frame s2 s3 -> coll_frame s1 s3.
Proof. intros [A1 A2] [B1 B2]. split; intros y; [by rewrite B1|by rewrite B2]. Qed.

Lemma run_map_op_spec cfg s K o r K' :
  mapping_ok cfg s K -> spec_map_op cfg o K = Some (r, K') ->
  wp (run_map_op cfg o) (fun r' s' => r' = r /\ mapping_ok cfg s' K' /\ coll_frame s s') s.
Proof.
  intros [B Hi] Hs. destruct o as [cid cl x|x p|cid cl]; simpl in Hs |- *.
  - destruct (K !! x) eqn:Hk; [done|]. destruct (find_key K (cid, cl)) eqn:Hf; [done|].
    destruct ((0 <=? x) && _ && _ && _) eqn:Hb; [|done]. injection Hs as <- <-.
    rewrite !andb_true_iff, !Z.leb_le, !Z.ltb_lt in Hb. wp_step.
    eapply wp_mono; [apply (add_spec s B K); [done|lia|done| |lia]|].
    + intros y. by apply find_key_None.
    + intros _ s' (l & Hl & Hi' & Hfr). wp_step. split_and!; [done|by eexists|done].
  - destruct (K !! x) as [[cid cl]|] eqn:Hk; [|done]. injection Hs as <- <-. wp_step.
    eapply wp_mono; [by eapply remove_spec|]. intros _ s' (l & Hl & Hi' & Hfr). wp_step.
    split_and!; [done|by eexists|done].
  - injection Hs as <- <-. wp_step. eapply wp_mono; [by eapply lookup_spec|].
    intros e s' (-> & _ & _ & _ & [(x & Hk & -> & Hc)|(Hno & -> & _)]); wp_step; simpl;
      (split_and!; [|by exists B|apply coll_frame_refl]).
    + rewrite Hc. destruct (find_key K (cid, cl)) as [y|] eqn:Hf.
      * apply find_key_Some in Hf. f_equal. by eapply (ci_inj _ _ _ _ Hi).
      * by apply (find_key_None _ _ x) in Hf.
    + destruct (find_key K (cid, cl)) as [y|] eqn:Hf; [|done].
      apply find_key_Some in Hf. by apply Hno in Hf.
Qed.

(** C1: The collision table is a correct finite map.  Any sequence of additions
    of unmapped core lines to free cache lines, removals and lookups runs to its
    end without a failed check, every lookup returns exactly the cache line the
    abstract map gives (a miss when there is none), the table still represents
    the abstract map afterwards, and neither the status words nor the partitions
    of the lines change. *)
Theorem collision_refines_map cfg s K os rs K' :
  mapping_ok cfg s K -> spec_map_ops cfg os K = Some (rs, K') ->
  exists s', run_map_ops cfg os s = Some (rs, s') /\ mapping_ok cfg s' K' /\ coll_frame s s'.
Proof.
  intros Hok Hs.
  enough (wp (run_map_ops cfg os) (fun rs' s' => rs' = rs /\ mapping_ok cfg s' K' /\ coll_frame s s') s)
    as (? & s' & Hr & -> & H) by (by exists s').
  revert s K rs Hok Hs. induction os as [|o os IH]; intros s K rs Hok Hs; simpl in Hs |- *.
  - injection Hs as <- <-. wp_step. by split_and!.
  - destruct (spec_map_op cfg o K) as [[r K1]|] eqn:Ho; [|done]. simpl in Hs.
    destruct (spec_map_ops cfg os K1) as [[rs1 K2]|] eqn:Hos; [|done]. injection Hs as <- <-.
    wp_step. eapply wp_mono; [by eapply run_map_op_spec|]. intros r' s1 (-> & Hok1 & Hf1). wp_step.
    eapply wp_mono; [by eapply IH|]. intros rs' s2 (-> & Hok2 & Hf2). wp_step.
    split_and!; [done..|]. by eapply coll_frame_trans.
Qed.

(** Lookup of a request's core line.  In a table that represents [K], the
    lookup ends, changes nothing, and fills the map entry with the bucket, the
    core line and either a hit on the one line that maps it or a miss with the
    invalid line number; a check of the entry right afterwards succeeds. *)
Theorem lookup_finds_mapping cfg s K cid cl :
  mapping_ok cfg s K ->
  exists e, ocf_engine_lookup_map_entry cfg cid cl s = Some (e, s) /\
    e_hash e = ocf_metadata_hash_func cfg cl cid /\ e_core_line e = cl /\ e_core_id e = cid /\
    ((exists x, K !! x = Some (cid, cl) /\ e_status e = LOOKUP_HIT /\ e_coll_idx e = x) \/
     ((forall x, K !! x <> Some (cid, cl)) /\ e_status e = LOOKUP_MISS /\
      e_coll_idx e = collision_table_entries cfg)) /\
    _ocf_engine_check_map_entry cfg e cid s = Some (0, s).
Proof.
  intros [B Hi]. destruct (lookup_spec s B K cid cl Hi) as (e & s' & Hr & -> & H1 & H2 & H3 & H4).
  exists e. split_and!; [done..|]. unfold _ocf_engine_check_map_entry.
  destruct H4 as [(x & Hk & -> & ->)|(_ & -> & _)]; [|done]. simpl.
  pose proof (mapped_range _ _ _ _ _ Hi Hk) as Hx.
  pose proof (ci_mapped _ _ _ _ Hi _ _ _ Hk) as [(m & Hm & Hcid & Hcl) _].
  assert (wp (BUG_ON (collision_table_entries cfg <=? x);;
    '(_core_id, _core_line) ← ocf_metadata_get_core_info x;
    if (cid =? _core_id) && (_core_line =? e_core_line e) then mret 0 else mret (-1))
    (fun r s' => r = 0 /\ s' = s) s) as (? & ? & Hc & -> & ->); [|done].
  wp_step. wp_step; [lia|]. wp_step. unfold ocf_metadata_get_core_info. wp_step.
  eapply wp_rd_map; [done|]. wp_step. rewrite Hcid, Hcl, H2, !Z.eqb_refl. simpl. by wp_step.
Qed.

(** Initialisation.  Running the initialisation of the collision and of the
    hash table over tables of the right sizes, whatever they hold, gives the
    empty mapping, with no valid and no dirty sector in any line. *)
Theorem metadata_init_empty cfg w s :
  word_bits cfg = Some w -> words_ok w s ->
  (forall x, is_Some (maps s !! x) <-> 0 <= x < collision_table_entries cfg) ->
  (forall x, is_Some (infos s !! x) <-> 0 <= x < collision_table_entries cfg) ->
  (forall h, is_Some (hash s !! h) <-> 0 <= h < hash_table_entries cfg) ->
  0 < hash_table_entries cfg -> 0 <= collision_table_entries cfg ->
  exists s', (ocf_metadata_init_hash_table cfg;; ocf_metadata_init_collision cfg) s = Some (tt, s') /\
    mapping_ok cfg s' ∅ /\
    forall x, 0 <= x < collision_table_entries cfg ->
      maps s' !! x = Some (mkMap ULLONG_MAX OCF_CORE_MAX 0 0).
Proof.
  intros Hw Hok Hm Hi Hh Hpos HN.
  destruct (init_collision_spec cfg w s Hw Hok Hm Hi Hh Hpos HN) as ([] & s' & Hr & _ & Hinv & Hz).
  exists s'. split_and!; [done|by eexists|done].
Qed.

(** ** Witnesses *)

(** Ten lines, four entries per page: the last page holds two. *)
Definition wit_coll_cfg : config := mkConfig 10 5 4096 0 4.

Lemma layout_roundtrip_witness :
  (exists j, ocf_metadata_map_lg2phy wit_coll_cfg 7 = Some j /\ 0 <= j < 10 /\
             ocf_metadata_map_phy2lg wit_coll_cfg j = Some 7) /\
  (exists j, ocf_metadata_map_phy2lg wit_coll_cfg 7 = Some j /\ 0 <= j < 10 /\
             ocf_metadata_map_lg2phy wit_coll_cfg j = Some 7).
Proof.
  apply (layout_roundtrip wit_coll_cfg 7); [|simpl; lia|by left].
  split; [done|]. split; [done|]. vm_compute. done.
Defined.

Definition wit_coll_state : meta_state :=
  mkMeta (zarray 10 (fun i => mkMap i i 255 3)) (zarray 10 (fun i => mkInfo i i 0)) (zarray 5 (fun i => i)).

Lemma wit_coll_words : words_ok 8 wit_coll_state.
Proof. intros l m [_ ->]%zarray_lookup. simpl. lia. Qed.

Lemma metadata_init_empty_witness :
  exists s', (ocf_metadata_init_hash_table wit_coll_cfg;; ocf_metadata_init_collision wit_coll_cfg) wit_coll_state
    = Some (tt, s') /\ mapping_ok wit_coll_cfg s' ∅ /\
    forall x, 0 <= x < 10 -> maps s' !! x = Some (mkMap ULLONG_MAX OCF_CORE_MAX 0 0).
Proof.
  apply (metadata_init_empty wit_coll_cfg 8); [done|apply wit_coll_words| | | |done|done];
    intros x; apply zarray_is_Some.
Defined.

(** The initialised state, for the two other witnesses. *)
Lemma wit_coll_ready : exists s, mapping_ok wit_coll_cfg s ∅.
Proof.
  destruct (init_collision_spec wit_coll_cfg 8 wit_coll_state eq_refl wit_coll_words)
    as (? & s' & _ & _ & Hi & _); [..|done|done|by exists s', ((fun _ => []) <$> hash wit_coll_state)];
    intros x; apply zarray_is_Some.
Qed.

Definition wit_map_ops : list map_op :=
  [MapAdd 1 100 3; MapAdd 1 105 4; MapLookup 1 100; MapRemove 3 0; MapLookup 1 100; MapLookup 1 105].

Lemma collision_refines_map_witness :
  exists s s', run_map_ops wit_coll_cfg wit_map_ops s =
    Some ([None; None; Some 3; None; None; Some 4], s') /\ mapping_ok wit_coll_cfg s' {[ 4 := (1, 105) ]} /\
    coll_frame s s'.
Proof.
  destruct wit_coll_ready as [s Hs]. exists s.
  apply (collision_refines_map wit_coll_cfg s ∅ wit_map_ops); [exact Hs|]. decide_vm.
Defined.

Lemma lookup_finds_mapping_witness :
  exists s e, ocf_engine_lookup_map_entry wit_coll_cfg 1 100 s = Some (e, s) /\
    e_hash e = ocf_metadata_hash_func wit_coll_cfg 100 1 /\ e_core_line e = 100 /\ e_core_id e = 1 /\
    ((exists x, (∅ : gmap Z (Z * Z)) !! x = Some (1, 100) /\ e_status e = LOOKUP_HIT /\ e_coll_idx e = x) \/
     ((forall x, (∅ : gmap Z (Z * Z)) !! x <> Some (1, 100)) /\ e_status e = LOOKUP_MISS /\ e_coll_idx e = 10)) /\
    _ocf_engine_check_map_entry wit_coll_cfg e 1 s = Some (0, s).
Proof.
  destruct wit_coll_ready as [s Hs]. exists s.
  apply (lookup_finds_mapping wit_coll_cfg s ∅ 1 100 Hs).
Defined.
