(* ===== verification/Alock.v ===== *)
(** Asynchronous locks of cache lines: ocf/src/utils/utils_alock.c and
    concurrency/ocf_cache_line_concurrency.c.

    An entry is idle, write locked, or read locked a number of times.  A request
    that cannot have an entry waits in the list the entry hashes to, and whoever
    unlocks the entry hands it over.  Requests, waiting lists and the access
    words live in one store, so that the two sides share them as in the code.
    The critical sections under the spin lock of a list are single steps.  The
    completion callback is recorded in [resumed]; the outcomes of the waiter
    allocator, which is not part of the program, are the stream [mem]. *)

From S2P Require Import Prelude.

Definition OCF_CACHE_LINE_ACCESS_WR : Z := INT_MAX.
Definition OCF_CACHE_LINE_ACCESS_IDLE : Z := 0.
Definition OCF_CACHE_LINE_ACCESS_ONE_RD : Z := 1.

Definition OCF_READ : Z := 0.
Definition OCF_WRITE : Z := 1.
Definition OCF_LOCK_ACQUIRED : Z := 0.
Definition OCF_LOCK_NOT_ACQUIRED : Z := 1.


(** [struct ocf_alock_waiter]; a callback is a number, 0 the null pointer. *)
Record ocf_alock_waiter := mkWaiter {
  w_entry : Z;
  w_idx : Z;
  w_req : Z;
  w_cmpl : Z;
  w_rw : Z;
}.

#[export] Instance waiter_eq_dec : EqDecision ocf_alock_waiter.
Proof. solve_decision. Defined.

(** The fields of [struct ocf_request] that locking uses.  The bits of
    [alock_status] and the entries of the map are those that are allocated. *)
Record req_lock := mkReqLock {
  alock_status : gmap Z bool;
  lock_remaining : Z;
  alock_rw : Z;
  core_line_count : Z;
  req_map : gmap Z (Z * Z);
}.

Record ocf_alock := mkAlock {
  num_entries : Z;
  access : gmap Z Z;
  waiters_lsts : gmap Z (list ocf_alock_waiter);
  waiting : Z;
  reqs : gmap Z req_lock;
  resumed : list (Z * Z);
  mem : list bool;
}.

Definition set_access f (s : ocf_alock) :=
  mkAlock (num_entries s) (f (access s)) (waiters_lsts s) (waiting s) (reqs s) (resumed s) (mem s).
Definition set_waiters f (s : ocf_alock) :=
  mkAlock (num_entries s) (access s) (f (waiters_lsts s)) (waiting s) (reqs s) (resumed s) (mem s).
Definition set_waiting f (s : ocf_alock) :=
  mkAlock (num_entries s) (access s) (waiters_lsts s) (f (waiting s)) (reqs s) (resumed s) (mem s).
Definition set_reqs f (s : ocf_alock) :=
  mkAlock (num_entries s) (access s) (waiters_lsts s) (waiting s) (f (reqs s)) (resumed s) (mem s).
Definition set_resumed f (s : ocf_alock) :=
  mkAlock (num_entries s) (access s) (waiters_lsts s) (waiting s) (reqs s) (f (resumed s)) (mem s).
Definition set_mem f (s : ocf_alock) :=
  mkAlock (num_entries s) (access s) (waiters_lsts s) (waiting s) (reqs s) (resumed s) (f (mem s)).

(** ** Access to the store *)

Definition env_atomic_read (entry : Z) : M ocf_alock Z := fun s =>
  (fun v => (v, s)) <$> access s !! entry.
Definition env_atomic_set (entry v : Z) : M ocf_alock unit := fun s =>
  match access s !! entry with Some _ => Some (tt, set_access <[entry := v]> s) | None => None end.
Definition env_atomic_dec (entry : Z) : M ocf_alock unit :=
  v ← env_atomic_read entry; env_atomic_set entry (s32 (v - 1)).
Definition env_atomic_cmpxchg (entry old new_value : Z) : M ocf_alock Z :=
  v ← env_atomic_read entry;
  (if v =? old then env_atomic_set entry new_value else mret tt);;
  mret v.
Definition env_atomic_add_unless (entry i u : Z) : M ocf_alock bool :=
  c ← env_atomic_read entry;
  (if c =? u then mret tt else env_atomic_set entry (s32 (c + i)));;
  mret (negb (c =? u)).

Definition get_req (r : Z) : M ocf_alock req_lock := fun s => (fun q => (q, s)) <$> reqs s !! r.
Definition upd_req (r : Z) (f : req_lock -> req_lock) : M ocf_alock unit := fun s =>
  match reqs s !! r with Some _ => Some (tt, set_reqs (alter f r) s) | None => None end.

Definition with_status f (q : req_lock) :=
  mkReqLock (f (alock_status q)) (lock_remaining q) (alock_rw q) (core_line_count q) (req_map q).
Definition with_remaining f (q : req_lock) :=
  mkReqLock (alock_status q) (f (lock_remaining q)) (alock_rw q) (core_line_count q) (req_map q).
Definition with_rw v (q : req_lock) :=
  mkReqLock (alock_status q) (lock_remaining q) v (core_line_count q) (req_map q).

(** [env_atomic_dec_return] on [lock_remaining]. *)
Definition dec_remaining (r : Z) : M ocf_alock Z :=
  upd_req r (with_remaining (fun v => s32 (v - 1)));;
  q ← get_req r; mret (lock_remaining q).

(** [env_allocator_new]: whether a waiter could be allocated. *)
Definition env_allocator_new : M ocf_alock bool := fun s =>
  match mem s with [] => Some (true, s) | b :: l => Some (b, set_mem (fun _ => l) s) end.

(** ** utils_alock.c *)

Definition ocf_alock_is_index_locked (req index : Z) : M ocf_alock bool :=
  q ← get_req req; lift (alock_status q !! index).

Definition ocf_alock_mark_index_locked (req index : Z) (locked : bool) : M ocf_alock unit :=
  _ ← ocf_alock_is_index_locked req index;
  upd_req req (with_status <[index := locked]>).

Section waitlists.
(** [_WAITERS_LIST_ENTRIES], which depends on the size of a spin lock. *)
Variable list_entries : Z.

Definition _WAITERS_LIST_ITEM (entry : Z) : Z := entry `mod` list_entries.

Definition get_waiters (entry : Z) : M ocf_alock (list ocf_alock_waiter) := fun s =>
  (fun l => (l, s)) <$> waiters_lsts s !! _WAITERS_LIST_ITEM entry.
Definition put_waiters (entry : Z) (l : list ocf_alock_waiter) : M ocf_alock unit :=
  modify (set_waiters <[_WAITERS_LIST_ITEM entry := l]>).

Definition ocf_alock_waitlist_is_empty_locked (entry : Z) : M ocf_alock bool :=
  lst ← get_waiters entry;
  mret (negb (existsb (fun waiter => w_entry waiter =? entry) lst)).

Definition ocf_alock_waitlist_add (entry : Z) (waiter : ocf_alock_waiter) : M ocf_alock unit :=
  lst ← get_waiters entry;
  put_waiters entry (lst ++ [waiter]).

Definition ocf_alock_trylock_entry_wr (entry : Z) : M ocf_alock bool :=
  prev ← env_atomic_cmpxchg entry OCF_CACHE_LINE_ACCESS_IDLE OCF_CACHE_LINE_ACCESS_WR;
  mret (prev =? OCF_CACHE_LINE_ACCESS_IDLE).

Definition ocf_alock_trylock_entry_rd_idle (entry : Z) : M ocf_alock bool :=
  prev ← env_atomic_cmpxchg entry OCF_CACHE_LINE_ACCESS_IDLE OCF_CACHE_LINE_ACCESS_ONE_RD;
  mret (prev =? OCF_CACHE_LINE_ACCESS_IDLE).

Definition ocf_alock_trylock_entry_rd (entry : Z) : M ocf_alock bool :=
  env_atomic_add_unless entry 1 OCF_CACHE_LINE_ACCESS_WR.

Definition ocf_alock_unlock_entry_wr (entry : Z) : M ocf_alock unit :=
  v ← env_atomic_read entry;
  BUG_ON (negb (v =? OCF_CACHE_LINE_ACCESS_WR));;
  env_atomic_set entry OCF_CACHE_LINE_ACCESS_IDLE.

Definition ocf_alock_unlock_entry_rd (entry : Z) : M ocf_alock unit :=
  v ← env_atomic_read entry;
  BUG_ON (v =? 0);;
  BUG_ON (v =? OCF_CACHE_LINE_ACCESS_WR);;
  env_atomic_dec entry.

Definition ocf_alock_trylock_entry_wr2wr (entry : Z) : M ocf_alock bool :=
  v ← env_atomic_read entry;
  BUG_ON (negb (v =? OCF_CACHE_LINE_ACCESS_WR));;
  mret true.

Definition ocf_alock_trylock_entry_wr2rd (entry : Z) : M ocf_alock bool :=
  v ← env_atomic_read entry;
  BUG_ON (negb (v =? OCF_CACHE_LINE_ACCESS_WR));;
  env_atomic_set entry OCF_CACHE_LINE_ACCESS_ONE_RD;;
  mret true.

Definition ocf_alock_trylock_entry_rd2wr (entry : Z) : M ocf_alock bool :=
  v ← env_atomic_read entry;
  BUG_ON (v =? OCF_CACHE_LINE_ACCESS_IDLE);;
  BUG_ON (v =? OCF_CACHE_LINE_ACCESS_WR);;
  v ← env_atomic_cmpxchg entry OCF_CACHE_LINE_ACCESS_ONE_RD OCF_CACHE_LINE_ACCESS_WR;
  mret (v =? OCF_CACHE_LINE_ACCESS_ONE_RD).

Definition ocf_alock_trylock_entry_rd2rd (entry : Z) : M ocf_alock bool :=
  v ← env_atomic_read entry;
  BUG_ON (v =? OCF_CACHE_LINE_ACCESS_IDLE);;
  BUG_ON (v =? OCF_CACHE_LINE_ACCESS_WR);;
  mret true.

Definition ocf_alock_entry_locked (req cmpl : Z) : M ocf_alock unit :=
  v ← dec_remaining req;
  if v =? 0 then
    BUG_ON (cmpl =? 0);;
    modify (set_waiting (fun n => s32 (n - 1)));;
    modify (set_resumed (fun l => l ++ [(cmpl, req)]))
  else mret tt.

Definition ocf_alock_lock_one_wr (entry cmpl req idx : Z) : M ocf_alock bool :=
  BUG_ON (cmpl =? 0);;
  locked ← ocf_alock_trylock_entry_wr entry;
  if locked : bool then
    ocf_alock_mark_index_locked req idx true;;
    ocf_alock_entry_locked req cmpl;;
    mret true
  else
    waiter ← env_allocator_new;
    if negb waiter then mret false
    else
      locked ← ocf_alock_trylock_entry_wr entry;
      waiting ← (if locked : bool then mret false
                 else ocf_alock_waitlist_add entry (mkWaiter entry idx req cmpl OCF_WRITE);; mret true);
      (if negb waiting then
         ocf_alock_mark_index_locked req idx true;;
         ocf_alock_entry_locked req cmpl
       else mret tt);;
      mret true.

Definition ocf_alock_lock_one_rd (entry cmpl req idx : Z) : M ocf_alock bool :=
  BUG_ON (cmpl =? 0);;
  locked ← ocf_alock_trylock_entry_rd_idle entry;
  if locked : bool then
    ocf_alock_mark_index_locked req idx true;;
    ocf_alock_entry_locked req cmpl;;
    mret true
  else
    waiter ← env_allocator_new;
    if negb waiter then mret false
    else
      empty ← ocf_alock_waitlist_is_empty_locked entry;
      locked ← (if empty : bool then ocf_alock_trylock_entry_rd entry else mret false);
      waiting ← (if locked : bool then mret false
                 else ocf_alock_waitlist_add entry (mkWaiter entry idx req cmpl OCF_READ);; mret true);
      (if negb waiting then
         ocf_alock_mark_index_locked req idx true;;
         ocf_alock_entry_locked req cmpl
       else mret tt);;
      mret true.

(** The [list_for_each_safe] loop of the two unlock functions: [done] are the
    waiters passed over, [rest] the ones to come, and a waiter that gets the
    lock leaves the list.  [wr] tells which lock is released. *)
Fixpoint unlock_loop (wr : bool) (entry : Z) (exchanged : bool) (done rest : list ocf_alock_waiter) :
    M ocf_alock bool :=
  match rest with
  | [] => mret exchanged
  | waiter :: next =>
    if negb (entry =? w_entry waiter) then unlock_loop wr entry exchanged (done ++ [waiter]) next
    else
      locked ←
        (if exchanged then
           if w_rw waiter =? OCF_WRITE then
             if wr then ocf_alock_trylock_entry_wr2wr entry else ocf_alock_trylock_entry_rd2wr entry
           else if w_rw waiter =? OCF_READ then
             if wr then ocf_alock_trylock_entry_wr2rd entry else ocf_alock_trylock_entry_rd2rd entry
           else bug
         else
           if w_rw waiter =? OCF_WRITE then ocf_alock_trylock_entry_wr entry
           else if w_rw waiter =? OCF_READ then ocf_alock_trylock_entry_rd entry
           else bug);
      if locked : bool then
        put_waiters entry (done ++ next);;
        ocf_alock_mark_index_locked (w_req waiter) (w_idx waiter) true;;
        ocf_alock_entry_locked (w_req waiter) (w_cmpl waiter);;
        unlock_loop wr entry false done next
      else mret exchanged
  end.

Definition ocf_alock_unlock_one_rd_common (entry : Z) : M ocf_alock unit :=
  lst ← get_waiters entry;
  exchanged ← unlock_loop false entry true [] lst;
  if exchanged : bool then ocf_alock_unlock_entry_rd entry else mret tt.

Definition ocf_alock_unlock_one_wr_common (entry : Z) : M ocf_alock unit :=
  lst ← get_waiters entry;
  exchanged ← unlock_loop true entry true [] lst;
  if exchanged : bool then ocf_alock_unlock_entry_wr entry else mret tt.

Definition ocf_alock_trylock_one_rd (entry : Z) : M ocf_alock bool :=
  ocf_alock_trylock_entry_rd_idle entry.

Definition ocf_alock_unlock_one_rd (entry : Z) : M ocf_alock unit :=
  ocf_alock_unlock_one_rd_common entry.
Definition ocf_alock_unlock_one_wr (entry : Z) : M ocf_alock unit :=
  ocf_alock_unlock_one_wr_common entry.

(** The first waiter of the request leaves the list. *)
Fixpoint remove_waiter (req : Z) (lst : list ocf_alock_waiter) : list ocf_alock_waiter :=
  match lst with
  | [] => []
  | waiter :: lst => if w_req waiter =? req then lst else waiter :: remove_waiter req lst
  end.

Definition ocf_alock_waitlist_remove_entry (req entry i rw : Z) : M ocf_alock unit :=
  locked ← ocf_alock_is_index_locked req i;
  if locked : bool then
    (if rw =? OCF_READ then ocf_alock_unlock_one_rd_common entry
     else ocf_alock_unlock_one_wr_common entry);;
    ocf_alock_mark_index_locked req i false
  else
    lst ← get_waiters entry;
    put_waiters entry (remove_waiter req lst).

Definition ocf_alock_waitlist_is_empty (entry : Z) : M ocf_alock bool :=
  n ← gets num_entries;
  BUG_ON (n <=? entry);;
  ocf_alock_waitlist_is_empty_locked entry.

Definition ocf_cache_line_is_used (entry : Z) : M ocf_alock bool :=
  n ← gets num_entries;
  BUG_ON (n <=? entry);;
  v ← env_atomic_read entry;
  if negb (v =? 0) then mret true
  else
    empty ← ocf_alock_waitlist_is_empty entry;
    mret (negb empty).

Definition ocf_alock_waitlist_count : M ocf_alock Z := gets waiting.

(** ** ocf_cache_line_concurrency.c *)

Definition map_at (req i : Z) : M ocf_alock (Z * Z) :=
  q ← get_req req; lift (req_map q !! i).

Definition ocf_cl_lock_line_needs_lock (req index : Z) : M ocf_alock bool :=
  e ← map_at req index;
  mret (negb (e.1 =? LOOKUP_MISS) && negb (e.1 =? LOOKUP_REMAPPED)).

Definition ocf_cl_lock_line_is_acting (req index : Z) : M ocf_alock bool :=
  e ← map_at req index;
  mret (negb (e.1 =? LOOKUP_MISS)).

Definition ocf_cl_lock_line_get_entry (req index : Z) : M ocf_alock Z :=
  e ← map_at req index; mret e.2.

(** The first loop of [ocf_cl_lock_line_fast]: the value of [ret] and of [i]
    when it ends; [n] iterations remain. *)
Fixpoint lock_fast_loop (n : nat) (req rw i : Z) : M ocf_alock (Z * Z) :=
  match n with
  | O => mret (OCF_LOCK_ACQUIRED, i)
  | S n =>
    needs ← ocf_cl_lock_line_needs_lock req i;
    if negb needs then lock_fast_loop n req rw (i + 1)
    else
      entry ← ocf_cl_lock_line_get_entry req i;
      l ← ocf_alock_is_index_locked req i;
      BUG_ON l;;
      locked ← (if rw =? OCF_WRITE then ocf_alock_trylock_entry_wr entry
                else ocf_alock_trylock_entry_rd_idle entry);
      if locked : bool then
        ocf_alock_mark_index_locked req i true;;
        lock_fast_loop n req rw (i + 1)
      else mret (OCF_LOCK_NOT_ACQUIRED, i)
  end.

(** The loop that discards acquired locks, from index [n - 1] down to 0. *)
Fixpoint unlock_fast_loop (n : nat) (req rw : Z) : M ocf_alock unit :=
  match n with
  | O => mret tt
  | S n' =>
    let i := Z.of_nat n' in
    needs ← ocf_cl_lock_line_needs_lock req i;
    (if negb needs then mret tt
     else
       entry ← ocf_cl_lock_line_get_entry req i;
       l ← ocf_alock_is_index_locked req i;
       if l : bool then
         (if rw =? OCF_WRITE then ocf_alock_unlock_one_wr entry else ocf_alock_unlock_one_rd entry);;
         ocf_alock_mark_index_locked req i false
       else mret tt);;
    unlock_fast_loop n' req rw
  end.

Definition ocf_cl_lock_line_fast (req rw : Z) : M ocf_alock Z :=
  q ← get_req req;
  '(ret, i) ← lock_fast_loop (Z.to_nat (core_line_count q)) req rw 0;
  (if ret =? OCF_LOCK_NOT_ACQUIRED then unlock_fast_loop (Z.to_nat (i + 1)) req rw else mret tt);;
  mret ret.

(** The loop of [ocf_cl_lock_line_slow]: [Some i] when the allocation fails at
    index [i]. *)
Fixpoint lock_slow_loop (n : nat) (req rw cmpl i : Z) : M ocf_alock (option Z) :=
  match n with
  | O => mret None
  | S n =>
    needs ← ocf_cl_lock_line_needs_lock req i;
    if negb needs then
      _ ← dec_remaining req;
      lock_slow_loop n req rw cmpl (i + 1)
    else
      entry ← ocf_cl_lock_line_get_entry req i;
      l ← ocf_alock_is_index_locked req i;
      BUG_ON l;;
      ok ← (if rw =? OCF_WRITE then ocf_alock_lock_one_wr entry cmpl req i
            else ocf_alock_lock_one_rd entry cmpl req i);
      if negb ok then mret (Some i) else lock_slow_loop n req rw cmpl (i + 1)
  end.

(** The error loop: the call passes the index where the entry is expected and
    the entry where the index is expected. *)
Fixpoint lock_slow_err (n : nat) (req rw : Z) : M ocf_alock unit :=
  match n with
  | O => mret tt
  | S n' =>
    let i := Z.of_nat n' in
    needs ← ocf_cl_lock_line_needs_lock req i;
    (if negb needs then mret tt
     else
       entry ← ocf_cl_lock_line_get_entry req i;
       ocf_alock_waitlist_remove_entry req i entry rw);;
    lock_slow_err n' req rw
  end.

Definition ocf_cl_lock_line_slow (req rw cmpl : Z) : M ocf_alock Z :=
  q ← get_req req;
  r ← lock_slow_loop (Z.to_nat (core_line_count q)) req rw cmpl 0;
  match r with
  | None => mret 0
  | Some i => lock_slow_err (Z.to_nat (i + 1)) req rw;; mret (- OCF_ERR_NO_MEM)
  end.

(** [ocf_alock_lock_rd] and [ocf_alock_lock_wr], with the callbacks of the
    cache-line locks. *)
Definition ocf_alock_lock (rw req cmpl : Z) : M ocf_alock Z :=
  q ← get_req req;
  BUG_ON (negb (lock_remaining q =? 0));;
  upd_req req (with_rw rw);;
  lock ← ocf_cl_lock_line_fast req rw;
  if negb (lock =? OCF_LOCK_ACQUIRED) then
    q ← get_req req;
    BUG_ON (negb (lock_remaining q =? 0));;
    BUG_ON (cmpl =? 0);;
    modify (set_waiting (fun n => s32 (n + 1)));;
    upd_req req (with_remaining (fun _ => s32 (core_line_count q)));;
    upd_req req (with_remaining (fun v => s32 (v + 1)));;
    status ← ocf_cl_lock_line_slow req rw cmpl;
    if status =? 0 then
      v ← dec_remaining req;
      if v =? 0 then
        modify (set_waiting (fun n => s32 (n - 1)));;
        mret OCF_LOCK_ACQUIRED
      else mret lock
    else
      upd_req req (with_remaining (fun _ => 0));;
      modify (set_waiting (fun n => s32 (n - 1)));;
      mret status
  else mret lock.

Definition ocf_alock_lock_rd (req cmpl : Z) : M ocf_alock Z := ocf_alock_lock OCF_READ req cmpl.
Definition ocf_alock_lock_wr (req cmpl : Z) : M ocf_alock Z := ocf_alock_lock OCF_WRITE req cmpl.

Definition ocf_cache_line_try_lock_rd (line : Z) : M ocf_alock bool := ocf_alock_trylock_one_rd line.
Definition ocf_cache_line_unlock_rd (line : Z) : M ocf_alock unit := ocf_alock_unlock_one_rd line.
Definition ocf_cache_line_try_lock_wr (line : Z) : M ocf_alock bool := ocf_alock_trylock_entry_wr line.
Definition ocf_cache_line_unlock_wr (line : Z) : M ocf_alock unit := ocf_alock_unlock_one_wr line.

Definition ocf_req_async_lock_rd (req cmpl : Z) : M ocf_alock Z := ocf_alock_lock_rd req cmpl.
Definition ocf_req_async_lock_wr (req cmpl : Z) : M ocf_alock Z := ocf_alock_lock_wr req cmpl.

(** The loop of [ocf_req_unlock_rd] and [ocf_req_unlock_wr]. *)
Definition req_unlock_one (wr : bool) (req i : Z) : M ocf_alock unit :=
  acting ← ocf_cl_lock_line_is_acting req i;
  if negb acting then mret tt
  else
    l ← ocf_alock_is_index_locked req i;
    if negb l then mret tt
    else
      entry ← ocf_cl_lock_line_get_entry req i;
      (if wr then ocf_alock_unlock_one_wr entry else ocf_alock_unlock_one_rd entry);;
      ocf_alock_mark_index_locked req i false.

Definition ocf_req_unlock_rd (req : Z) : M ocf_alock unit :=
  q ← get_req req;
  for_range (Z.to_nat (core_line_count q)) 0 (req_unlock_one false req).
Definition ocf_req_unlock_wr (req : Z) : M ocf_alock unit :=
  q ← get_req req;
  for_range (Z.to_nat (core_line_count q)) 0 (req_unlock_one true req).

Definition ocf_req_unlock (req : Z) : M ocf_alock unit :=
  q ← get_req req;
  if alock_rw q =? OCF_WRITE then ocf_req_unlock_wr req else ocf_req_unlock_rd req.

Definition ocf_cache_line_are_waiters (line : Z) : M ocf_alock bool :=
  empty ← ocf_alock_waitlist_is_empty line; mret (negb empty).

Definition ocf_cache_line_concurrency_suspended_no : M ocf_alock Z := ocf_alock_waitlist_count.

End waitlists.

(** ** Weakest preconditions of the accesses *)

Lemma wp_atomic_read e v Q s : access s !! e = Some v -> Q v s -> wp (env_atomic_read e) Q s.
Proof. intros Hv HQ. exists v, s. unfold env_atomic_read. by rewrite Hv. Qed.
Lemma wp_atomic_set e v Q s :
  is_Some (access s !! e) -> Q tt (set_access <[e := v]> s) -> wp (env_atomic_set e v) Q s.
Proof. intros [u Hu] HQ. eexists _, _. split; [|done]. unfold env_atomic_set. by rewrite Hu. Qed.
Lemma wp_get_req r q Q s : reqs s !! r = Some q -> Q q s -> wp (get_req r) Q s.
Proof. intros Hq HQ. exists q, s. unfold get_req. by rewrite Hq. Qed.
Lemma wp_upd_req r f Q s :
  is_Some (reqs s !! r) -> Q tt (set_reqs (alter f r) s) -> wp (upd_req r f) Q s.
Proof. intros [u Hu] HQ. eexists _, _. split; [|done]. unfold upd_req. by rewrite Hu. Qed.
Lemma wp_get_waiters n e l Q s :
  waiters_lsts s !! _WAITERS_LIST_ITEM n e = Some l -> Q l s -> wp (get_waiters n e) Q s.
Proof. intros Hl HQ. exists l, s. unfold get_waiters. by rewrite Hl. Qed.

Lemma wp_cmpxchg e v old new Q s :
  access s !! e = Some v ->
  Q v (if v =? old then set_access <[e := new]> s else s) -> wp (env_atomic_cmpxchg e old new) Q s.
Proof.
  intros Hv HQ. unfold env_atomic_cmpxchg. wp_step. eapply wp_atomic_read; [done|]. wp_step.
  destruct (v =? old); [apply wp_atomic_set; [by eexists|]|wp_step]; by wp_step.
Qed.
Lemma wp_add_unless e c i u Q s :
  access s !! e = Some c ->
  Q (negb (c =? u)) (if c =? u then s else set_access <[e := s32 (c + i)]> s) ->
  wp (env_atomic_add_unless e i u) Q s.
Proof.
  intros Hv HQ. unfold env_atomic_add_unless. wp_step. eapply wp_atomic_read; [done|]. wp_step.
  destruct (c =? u); [wp_step|apply wp_atomic_set; [by eexists|]]; by wp_step.
Qed.
Lemma wp_mark r i b q x Q s :
  reqs s !! r = Some q -> alock_status q !! i = Some x ->
  Q tt (set_reqs (alter (with_status <[i := b]>) r) s) -> wp (ocf_alock_mark_index_locked r i b) Q s.
Proof.
  intros Hq Hx HQ. unfold ocf_alock_mark_index_locked, ocf_alock_is_index_locked. do 2 wp_step.
  eapply wp_get_req; [done|]. eapply wp_lift; [done|]. apply wp_upd_req; [by eexists|done].
Qed.

(** Reassociation of two binds. *)
Lemma wp_assoc {S A B C} (a : M S A) (b : A -> M S B) (k : B -> M S C) Q s :
  wp ((a ≫= b) ≫= k) Q s -> wp (a ≫= fun x => b x ≫= k) Q s.
Proof.
  intros (x & s' & Hr & HQ). exists x, s'. split; [|exact HQ]. revert Hr.
  unfold mbind, M_bind. by destruct (a s) as [[? ?]|].
Qed.

Lemma alock_eq s s' :
  num_entries s = num_entries s' -> access s = access s' -> waiters_lsts s = waiters_lsts s' ->
  waiting s = waiting s' -> reqs s = reqs s' -> resumed s = resumed s' -> mem s = mem s' -> s = s'.
Proof. destruct s, s'. simpl. by intros -> -> -> -> -> -> ->. Qed.

Lemma set_access_id e v s : access s !! e = Some v -> set_access <[e := v]> s = s.
Proof. intros Hv. apply alock_eq; try done. simpl. by rewrite insert_id. Qed.

Lemma set_access_twice e v u s : set_access <[e := v]> (set_access <[e := u]> s) = set_access <[e := v]> s.
Proof. apply alock_eq; try done. simpl. apply insert_insert_eq. Qed.

(** ** Granting a lock to a waiter *)

(** What [ocf_alock_mark_index_locked] and [ocf_alock_entry_locked] do. *)
Definition grant (w : ocf_alock_waiter) (s : ocf_alock) : ocf_alock :=
  let s1 := set_reqs (alter (fun q => with_remaining (fun v => s32 (v - 1))
              (with_status <[w_idx w := true]> q)) (w_req w)) s in
  match reqs s1 !! w_req w with
  | Some q =>
      if lock_remaining q =? 0
      then set_resumed (fun l => l ++ [(w_cmpl w, w_req w)]) (set_waiting (fun n => s32 (n - 1)) s1)
      else s1
  | None => s1
  end.

Definition grant_all (ws : list ocf_alock_waiter) (s : ocf_alock) : ocf_alock :=
  foldl (fun s w => grant w s) s ws.

Lemma grant_access f w s : grant w (set_access f s) = set_access f (grant w s).
Proof. unfold grant. simpl. destruct (alter _ _ _ !! _) as [q|]; [|done]. by destruct (lock_remaining q =? 0). Qed.
Lemma grant_waiters f w s : grant w (set_waiters f s) = set_waiters f (grant w s).
Proof. unfold grant. simpl. destruct (alter _ _ _ !! _) as [q|]; [|done]. by destruct (lock_remaining q =? 0). Qed.

Lemma grant_fields w s :
  num_entries (grant w s) = num_entries s /\ access (grant w s) = access s /\
  waiters_lsts (grant w s) = waiters_lsts s /\ mem (grant w s) = mem s /\
  reqs (grant w s) = alter (fun q => with_remaining (fun v => s32 (v - 1))
    (with_status <[w_idx w := true]> q)) (w_req w) (reqs s).
Proof. unfold grant. simpl. destruct (alter _ _ _ !! _) as [q|]; [|done]. by destruct (lock_remaining q =? 0). Qed.

(** A waiter that can be granted: its request and its status bit exist, and it
    asks for a read or a write lock with a callback. *)
Definition waiter_ok (s : ocf_alock) (w : ocf_alock_waiter) : Prop :=
  (exists q, reqs s !! w_req w = Some q /\ is_Some (alock_status q !! w_idx w)) /\
  w_cmpl w <> 0 /\ (w_rw w = OCF_READ \/ w_rw w = OCF_WRITE).

Lemma waiter_ok_reqs s s' w : reqs s' = reqs s -> waiter_ok s w -> waiter_ok s' w.
Proof. intros Heq (H1 & H2). split; [by rewrite Heq|done]. Qed.


Lemma wp_mark_granted w Q s :
  waiter_ok s w -> Q tt (grant w s) ->
  wp (ocf_alock_mark_index_locked (w_req w) (w_idx w) true;; ocf_alock_entry_locked (w_req w) (w_cmpl w)) Q s.
Proof.
  intros ((q & Hq & [b Hb]) & Hc & _) HQ. wp_step. unfold ocf_alock_mark_index_locked, ocf_alock_is_index_locked.
  do 2 wp_step. eapply wp_get_req; [done|]. eapply wp_lift; [done|].
  apply wp_upd_req; [by eexists|]. unfold ocf_alock_entry_locked, dec_remaining. wp_step. wp_step.
  apply wp_upd_req; [simpl; rewrite lookup_alter_eq, Hq; by eexists|]. wp_step.
  eapply wp_get_req; [simpl; rewrite !lookup_alter_eq, Hq; reflexivity|]. wp_step. simpl.
  revert HQ. unfold grant. simpl. rewrite lookup_alter_eq, Hq. simpl.
  assert (forall f g (m : gmap Z req_lock), alter f (w_req w) (alter g (w_req w) m) = alter (f ∘ g) (w_req w) m) as Hcomp.
  { intros f g m. map_pointwise. by rewrite <- option_fmap_compose. }
  replace (set_reqs (alter (with_remaining (fun v => s32 (v - 1))) (w_req w))
    (set_reqs (alter (with_status <[w_idx w := true]>) (w_req w)) s)) with
    (set_reqs (alter (fun q => with_remaining (fun v => s32 (v - 1)) (with_status <[w_idx w := true]> q)) (w_req w)) s)
    by (apply alock_eq; try done; simpl; by rewrite Hcomp).
  destruct (s32 (lock_remaining q - 1) =? 0); intros HQ.
  - wp_step. wp_step; [by apply Z.eqb_neq|]. do 3 wp_step. done.
  - by wp_step.
Qed.

Lemma waiter_ok_grant s w w' : waiter_ok s w -> waiter_ok (grant w' s) w.
Proof.
  intros ((q & Hq & Hb) & Hrest). split; [|done].
  destruct (grant_fields w' s) as (_ & _ & _ & _ & ->). rewrite lookup_alter.
  case_decide as Heq; [|by exists q]. rewrite Heq, Hq. simpl. eexists. split; [done|]. simpl.
  rewrite lookup_insert. case_decide; [by eexists|done].
Qed.

(** ** The hand-over of a released entry *)

(** The waiters for [e] at the front of [rest] that read, up to the first one
    that writes, and the list without them. *)
Fixpoint take_readers (e : Z) (rest : list ocf_alock_waiter) :
    list ocf_alock_waiter * list ocf_alock_waiter :=
  match rest with
  | [] => ([], [])
  | w :: rest =>
    if negb (e =? w_entry w) then let '(g, r) := take_readers e rest in (g, w :: r)
    else if w_rw w =? OCF_READ then let '(g, r) := take_readers e rest in (w :: g, r)
    else ([], w :: rest)
  end.

(** The list around the first waiter for [e]. *)
Fixpoint first_waiter (e : Z) (l : list ocf_alock_waiter) :
    option (list ocf_alock_waiter * ocf_alock_waiter * list ocf_alock_waiter) :=
  match l with
  | [] => None
  | w :: l => if e =? w_entry w then Some ([], w, l)
              else '(d, w', r) ← first_waiter e l; Some (w :: d, w', r)
  end.

(** Releasing a write lock ([wr = true]), or one of [n] read locks: the access
    word, the waiters that get the lock, and the waiting list afterwards. *)
Definition handover (wr : bool) (n e : Z) (l : list ocf_alock_waiter) :
    Z * list ocf_alock_waiter * list ocf_alock_waiter :=
  let released := if wr then OCF_CACHE_LINE_ACCESS_IDLE else n - 1 in
  match first_waiter e l with
  | None => (released, [], l)
  | Some (d, w, r) =>
    if w_rw w =? OCF_WRITE then
      if wr || (n =? 1) then (OCF_CACHE_LINE_ACCESS_WR, [w], d ++ r) else (released, [], l)
    else
      let '(g, r') := take_readers e r in
      ((if wr then OCF_CACHE_LINE_ACCESS_ONE_RD else n) + Z.of_nat (length g), w :: g, d ++ r')
  end.

(** The queue of an entry: its waiters in the list it shares, oldest first. *)
Definition queue (e : Z) (l : list ocf_alock_waiter) : list ocf_alock_waiter :=
  filter (fun w => w_entry w = e) l.

Lemma queue_cons_eq e w l : e = w_entry w -> queue e (w :: l) = w :: queue e l.
Proof. intros ->. unfold queue. by rewrite filter_cons_True. Qed.
Lemma queue_cons_ne e w l : e <> w_entry w -> queue e (w :: l) = queue e l.
Proof. intros He. unfold queue. rewrite filter_cons_False; [done|congruence]. Qed.

Section handover.
Context (list_entries : Z).
#[local] Abbreviation item := (_WAITERS_LIST_ITEM list_entries).

(** The final state of a hand-over. *)
Definition handed (e a : Z) (g l : list ocf_alock_waiter) (s : ocf_alock) : ocf_alock :=
  grant_all g (set_waiters <[item e := l]> (set_access <[e := a]> s)).

Lemma waiters_id e l s : waiters_lsts s !! item e = Some l -> set_waiters <[item e := l]> s = s.
Proof. intros Hl. apply alock_eq; try done. simpl. by rewrite insert_id. Qed.

Lemma handed_id e a l s :
  access s !! e = Some a -> waiters_lsts s !! item e = Some l -> handed e a [] l s = s.
Proof. intros Ha Hl. unfold handed. simpl. rewrite set_access_id by done. by apply waiters_id. Qed.

(** Handing over after one more grant. *)
Lemma handed_grant e a a' w g l l' s :
  handed e a g l (grant w (set_waiters <[item e := l']> (set_access <[e := a']> s))) = handed e a (w :: g) l s.
Proof.
  unfold handed. simpl. f_equal. rewrite <- grant_access, <- grant_waiters. f_equal.
  apply alock_eq; try done; simpl; by rewrite insert_insert_eq.
Qed.

(** Once a waiter got the lock, the readers behind it follow until a writer. *)
Lemma unlock_loop_readers wr e n done rest s :
  access s !! e = Some n -> 0 < n -> n + Z.of_nat (length (queue e rest)) < INT_MAX ->
  waiters_lsts s !! item e = Some (done ++ rest) -> (forall w, w ∈ rest -> w_entry w = e -> waiter_ok s w) ->
  wp (unlock_loop list_entries wr e false done rest) (fun ex s' => ex = false /\
    s' = handed e (n + Z.of_nat (length (take_readers e rest).1)) (take_readers e rest).1
           (done ++ (take_readers e rest).2) s) s.
Proof.
  revert n done s. induction rest as [|w rest IH]; intros n dn s Ha Hn Hmax Hl Hok.
  - simpl. wp_step. split; [done|]. rewrite Z.add_0_r. by rewrite handed_id.
  - simpl. destruct (Z.eqb_spec e (w_entry w)) as [He|He]; simpl.
    + rewrite queue_cons_eq in Hmax by done. assert (waiter_ok s w) as Hw by (apply Hok; [by left|done]).
      pose proof Hw as (_ & _ & Hrw).
      destruct (Z.eqb_spec (w_rw w) OCF_WRITE) as [Hwr|Hwr].
      * rewrite Hwr. simpl. wp_step. unfold ocf_alock_trylock_entry_wr. wp_step.
        eapply wp_cmpxchg; [done|]. replace (n =? OCF_CACHE_LINE_ACCESS_IDLE) with false
          by (unfold OCF_CACHE_LINE_ACCESS_IDLE; lia).
        do 2 wp_step. split; [done|]. simpl. rewrite Z.add_0_r. by rewrite handed_id.
      * destruct Hrw as [Hrd|]; [|done]. rewrite Hrd. simpl. wp_step.
        unfold ocf_alock_trylock_entry_rd. simpl in Hmax. eapply wp_add_unless; [done|].
        replace (n =? OCF_CACHE_LINE_ACCESS_WR) with false by (unfold OCF_CACHE_LINE_ACCESS_WR; lia). simpl.
        assert (s32 (n + 1) = n + 1) as -> by (apply s32_small; unfold INT_MAX in Hmax; lia).
        wp_step. unfold put_waiters. wp_step. apply wp_assoc. wp_step.
        apply wp_mark_granted; [by apply (waiter_ok_reqs s)|].
        set (s1 := grant w _).
        destruct (grant_fields w (set_waiters <[item e := dn ++ rest]> (set_access <[e := n + 1]> s)))
          as (_ & Hga & Hgw & _ & _). fold s1 in Hga, Hgw.
        eapply wp_mono; [apply (IH (n + 1) dn s1)|].
        -- rewrite Hga. simpl. by rewrite lookup_insert_eq.
        -- lia.
        -- lia.
        -- rewrite Hgw. simpl. by rewrite lookup_insert_eq.
        -- intros w' Hw' He'. apply waiter_ok_grant. apply (waiter_ok_reqs s); [done|]. apply Hok; [by right|done].
        -- intros ex s' [-> ->]. split; [done|]. destruct (take_readers e rest) as [g r]. simpl.
           unfold s1. rewrite handed_grant. f_equal. lia.
    + eapply wp_mono; [apply (IH n (dn ++ [w]) s)|].
      * done.
      * done.
      * rewrite queue_cons_ne in Hmax by done. lia.
      * by rewrite <- app_assoc.
      * intros w' Hw' He'. apply Hok; [by right|done].
      * intros ex s' [-> ->]. split; [done|]. destruct (take_readers e rest) as [g r]. simpl. by rewrite <- app_assoc.
Qed.

(** Behind a new writer nobody gets the lock. *)
Lemma unlock_loop_stop wr e done rest s :
  access s !! e = Some OCF_CACHE_LINE_ACCESS_WR ->
  (forall w, w ∈ rest -> w_entry w = e -> waiter_ok s w) ->
  wp (unlock_loop list_entries wr e false done rest) (fun ex s' => ex = false /\ s' = s) s.
Proof.
  intros Ha. revert done. induction rest as [|w rest IH]; intros dn Hok; simpl; [by wp_step|].
  destruct (Z.eqb_spec e (w_entry w)) as [He|He]; simpl.
  - assert (waiter_ok s w) as (_ & _ & Hrw) by (apply Hok; [by left|done]). wp_step.
    destruct Hrw as [-> | ->]; simpl.
    + unfold ocf_alock_trylock_entry_rd. eapply wp_add_unless; [done|]. rewrite Z.eqb_refl. simpl. by wp_step.
    + unfold ocf_alock_trylock_entry_wr. wp_step. eapply wp_cmpxchg; [done|]. simpl. do 2 wp_step. by wp_steps.
  - apply IH. intros w' Hw'. apply Hok. by right.
Qed.

(** The final access word of a hand-over starts from what the first waiter got. *)
Lemma unlock_loop_spec wr e n dn rest s :
  let v := if wr : bool then OCF_CACHE_LINE_ACCESS_WR else n in
  access s !! e = Some v -> 0 < n -> n + Z.of_nat (length (queue e rest)) < INT_MAX ->
  waiters_lsts s !! item e = Some (dn ++ rest) -> (forall w, w ∈ rest -> w_entry w = e -> waiter_ok s w) ->
  wp (unlock_loop list_entries wr e true dn rest) (fun ex s' =>
    match handover wr n e rest with
    | (a, [], l) => ex = true /\ s' = s /\ l = rest /\
        a = if wr then OCF_CACHE_LINE_ACCESS_IDLE else n - 1
    | (a, g, l) => ex = false /\ s' = handed e a g (dn ++ l) s
    end) s.
Proof.
  intros v. revert dn s. unfold handover. induction rest as [|w rest IH]; intros dn s Ha Hn Hmax Hl Hok.
  { simpl. by wp_step. }
  simpl.
  destruct (Z.eqb_spec e (w_entry w)) as [He|He]; simpl; cycle 1.
  { rewrite queue_cons_ne in Hmax by done. eapply wp_mono; [apply (IH (dn ++ [w]) s); [done|done|lia|by rewrite <- app_assoc|]|].
    - intros w' Hw'. apply Hok. by right.
    - intros ex s'. simpl. destruct (first_waiter e rest) as [[[d w'] r]|]; simpl;
        [|by intros (-> & -> & _ & _)].
      destruct (w_rw w' =? OCF_WRITE); [destruct (wr || (n =? 1))|destruct (take_readers e r) as [g r']];
        rewrite <- ?app_assoc; simpl; [done| |done]. by intros (-> & -> & _ & _). }
  assert (waiter_ok s w) as Hw by (apply Hok; [by left|done]). pose proof Hw as (_ & _ & Hrw).
  assert (forall a (k : M ocf_alock bool) Q,
    wp k Q (grant w (set_waiters <[item e := dn ++ rest]> (set_access <[e := a]> s))) ->
    wp (put_waiters list_entries e (dn ++ rest);; ocf_alock_mark_index_locked (w_req w) (w_idx w) true;;
        ocf_alock_entry_locked (w_req w) (w_cmpl w);; k) Q (set_access <[e := a]> s)) as Hstep.
  { intros a k Q HQ. unfold put_waiters. do 2 wp_step. apply wp_assoc. wp_step.
    by apply wp_mark_granted; [apply (waiter_ok_reqs s)|]. }
  rewrite queue_cons_eq in Hmax by done. simpl in Hmax.
  assert (forall a, access (grant w (set_waiters <[item e := dn ++ rest]> (set_access <[e := a]> s))) !! e = Some a) as Hacc.
  { intros a. destruct (grant_fields w (set_waiters <[item e := dn ++ rest]> (set_access <[e := a]> s))) as (_ & -> & _).
    simpl. apply lookup_insert_eq. }
  assert (forall a w', w' ∈ rest -> w_entry w' = e ->
    waiter_ok (grant w (set_waiters <[item e := dn ++ rest]> (set_access <[e := a]> s))) w') as Hok'.
  { intros a w' Hw' He'. apply waiter_ok_grant. apply (waiter_ok_reqs s); [done|]. apply Hok; [by right|done]. }
  destruct Hrw as [Hrd|Hwr].
  - rewrite Hrd. simpl. wp_step.
    assert (wp (if wr then ocf_alock_trylock_entry_wr2rd e else ocf_alock_trylock_entry_rd2rd e)
      (fun b s' => b = true /\ s' = set_access <[e := if wr then OCF_CACHE_LINE_ACCESS_ONE_RD else n]> s) s) as Hx.
    { destruct wr; simpl in v; subst v.
      - unfold ocf_alock_trylock_entry_wr2rd. wp_step. eapply wp_atomic_read; [done|]. do 2 wp_step. wp_step.
        apply wp_atomic_set; [by eexists|]. by wp_step.
      - unfold ocf_alock_trylock_entry_rd2rd. wp_step. eapply wp_atomic_read; [done|].
        unfold OCF_CACHE_LINE_ACCESS_IDLE, OCF_CACHE_LINE_ACCESS_WR.
        replace (n =? 0) with false by lia. replace (n =? INT_MAX) with false by lia. wp_steps.
        by rewrite set_access_id. }
    eapply wp_mono; [apply Hx|]. intros b s1 [-> ->]. simpl. apply Hstep.
    eapply wp_mono; [apply (unlock_loop_readers wr e (if wr then OCF_CACHE_LINE_ACCESS_ONE_RD else n))|].
    + apply Hacc.
    + destruct wr; unfold OCF_CACHE_LINE_ACCESS_ONE_RD; lia.
    + destruct wr; unfold OCF_CACHE_LINE_ACCESS_ONE_RD; lia.
    + destruct (grant_fields w (set_waiters <[item e := dn ++ rest]>
        (set_access <[e := if wr then OCF_CACHE_LINE_ACCESS_ONE_RD else n]> s))) as (_ & _ & -> & _).
      simpl. apply lookup_insert_eq.
    + apply Hok'.
    + intros ex s' [-> ->]. destruct (take_readers e rest) as [g r']. simpl. split; [done|]. by rewrite handed_grant.
  - rewrite Hwr. simpl. wp_step.
    destruct (wr || (n =? 1)) eqn:Hcase.
    + assert (wp (if wr then ocf_alock_trylock_entry_wr2wr e else ocf_alock_trylock_entry_rd2wr e)
        (fun b s' => b = true /\ s' = set_access <[e := OCF_CACHE_LINE_ACCESS_WR]> s) s) as Hx.
      { destruct wr; simpl in v; subst v.
        - unfold ocf_alock_trylock_entry_wr2wr. wp_step. eapply wp_atomic_read; [done|]. wp_steps.
          by rewrite set_access_id.
        - simpl in Hcase. apply Z.eqb_eq in Hcase. subst n. unfold ocf_alock_trylock_entry_rd2wr. wp_step.
          eapply wp_atomic_read; [done|]. simpl. wp_steps. eapply wp_cmpxchg; [done|]. simpl. by wp_steps. }
      eapply wp_mono; [apply Hx|]. intros b s1 [-> ->]. simpl. apply Hstep.
      eapply wp_mono; [apply unlock_loop_stop; [apply Hacc|apply Hok']|].
      intros ex s' [-> ->]. split; [done|]. unfold handed. simpl.
      apply (f_equal (grant w)). apply alock_eq; done.
    + apply orb_false_iff in Hcase as [-> Hn1]. simpl in v. subst v.
      unfold ocf_alock_trylock_entry_rd2wr. wp_step. eapply wp_atomic_read; [done|].
      unfold OCF_CACHE_LINE_ACCESS_IDLE, OCF_CACHE_LINE_ACCESS_WR.
      replace (n =? 0) with false by lia. replace (n =? INT_MAX) with false by lia. wp_steps.
      eapply wp_cmpxchg; [done|]. unfold OCF_CACHE_LINE_ACCESS_ONE_RD. rewrite Hn1. wp_steps. rewrite ?Hn1. by wp_steps.
Qed.

Lemma unlock_common_spec (wr : bool) e n l s :
  access s !! e = Some (if wr then OCF_CACHE_LINE_ACCESS_WR else n) -> 0 < n ->
  n + Z.of_nat (length (queue e l)) < INT_MAX ->
  waiters_lsts s !! item e = Some l -> (forall w, w ∈ l -> w_entry w = e -> waiter_ok s w) ->
  wp (if wr then ocf_alock_unlock_one_wr list_entries e else ocf_alock_unlock_one_rd list_entries e)
    (fun _ s' => let '(a, g, l') := handover wr n e l in s' = handed e a g l' s) s.
Proof.
  intros Ha Hn Hmax Hl Hok.
  assert (wp (unlock_loop list_entries wr e true [] l) (fun ex s' =>
    wp (if ex : bool then (if wr then ocf_alock_unlock_entry_wr e else ocf_alock_unlock_entry_rd e) else mret tt)
      (fun _ s' => let '(a, g, l') := handover wr n e l in s' = handed e a g l' s) s') s) as Hloop.
  { eapply wp_mono; [by apply unlock_loop_spec|]. intros ex s'.
    destruct (handover wr n e l) as [[a g] l']. destruct g as [|w g].
    - intros (-> & -> & -> & ->). destruct wr.
      + unfold ocf_alock_unlock_entry_wr. wp_step. eapply wp_atomic_read; [done|]. do 2 wp_step.
        apply wp_atomic_set; [by eexists|]. unfold handed. simpl. symmetry. by apply waiters_id.
      + unfold ocf_alock_unlock_entry_rd. wp_step. eapply wp_atomic_read; [done|].
        unfold OCF_CACHE_LINE_ACCESS_WR. replace (n =? 0) with false by lia. replace (n =? INT_MAX) with false by lia.
        wp_steps. unfold env_atomic_dec. wp_step. eapply wp_atomic_read; [done|]. apply wp_atomic_set; [by eexists|].
        assert (s32 (n - 1) = n - 1) as -> by (apply s32_small; unfold INT_MAX in Hmax; lia).
        unfold handed. simpl. symmetry. by apply waiters_id.
    - intros [-> ->]. by wp_step. }
  destruct wr.
  - unfold ocf_alock_unlock_one_wr, ocf_alock_unlock_one_wr_common. wp_step. eapply wp_get_waiters; [done|]. by wp_step.
  - unfold ocf_alock_unlock_one_rd, ocf_alock_unlock_one_rd_common. wp_step. eapply wp_get_waiters; [done|]. by wp_step.
Qed.
End handover.

(** ** The queues of the entries *)

Lemma first_waiter_spec e l :
  match first_waiter e l with
  | Some (d, w, r) => l = d ++ w :: r /\ queue e d = [] /\ w_entry w = e
  | None => queue e l = []
  end.
Proof.
  induction l as [|w l IH]; [done|]. simpl. destruct (Z.eqb_spec e (w_entry w)) as [He|He]; [done|].
  destruct (first_waiter e l) as [[[d w'] r]|]; simpl; [|by rewrite queue_cons_ne].
  destruct IH as (-> & Hd & Hw). by rewrite queue_cons_ne.
Qed.

(** The length of the run of readers at the front of a queue. *)
Fixpoint reader_run (q : list ocf_alock_waiter) : nat :=
  match q with
  | w :: q => if w_rw w =? OCF_READ then S (reader_run q) else 0%nat
  | [] => 0%nat
  end.

Lemma queue_app e l1 l2 : queue e (l1 ++ l2) = queue e l1 ++ queue e l2.
Proof. apply filter_app. Qed.

Lemma take_readers_spec e l g r :
  take_readers e l = (g, r) ->
  g = take (reader_run (queue e l)) (queue e l) /\ queue e r = drop (reader_run (queue e l)) (queue e l) /\
  (forall e', e' <> e -> queue e' r = queue e' l).
Proof.
  revert g r. induction l as [|w l IH]; intros g r; simpl; [by intros [= <- <-]|].
  destruct (Z.eqb_spec e (w_entry w)) as [He|He]; simpl.
  - rewrite queue_cons_eq by done. simpl. destruct (Z.eqb_spec (w_rw w) OCF_READ).
    + destruct (take_readers e l) as [g' r']. intros [= <- <-].
      destruct (IH g' r' eq_refl) as (-> & Hr & Ho). simpl. split_and!; [done|done|].
      intros e' He'. rewrite Ho by done. symmetry. apply queue_cons_ne. congruence.
    + intros [= <- <-]. simpl. by rewrite queue_cons_eq.
  - rewrite (queue_cons_ne e) by done. destruct (take_readers e l) as [g' r']. intros [= <- <-].
    destruct (IH g' r' eq_refl) as (-> & Hr & Ho). split_and!; [done|by rewrite queue_cons_ne|].
    intros e' He'. destruct (decide (e' = w_entry w)).
    + rewrite !queue_cons_eq by done. by rewrite Ho.
    + rewrite !queue_cons_ne by done. by rewrite Ho.
Qed.

(** The hand-over in terms of the queue alone: the access word afterwards and
    how many waiters at the front of the queue get the lock. *)
Definition handover_queue (wr : bool) (n : Z) (q : list ocf_alock_waiter) : Z * nat :=
  let released := if wr then OCF_CACHE_LINE_ACCESS_IDLE else n - 1 in
  match q with
  | [] => (released, 0%nat)
  | w :: q' =>
      if w_rw w =? OCF_WRITE then
        if wr || (n =? 1) then (OCF_CACHE_LINE_ACCESS_WR, 1%nat) else (released, 0%nat)
      else ((if wr then OCF_CACHE_LINE_ACCESS_ONE_RD else n) + Z.of_nat (reader_run q'), S (reader_run q'))
  end.

Lemma reader_run_length q : (reader_run q <= length q)%nat.
Proof. induction q as [|w q IH]; simpl; [lia|]. destruct (w_rw w =? OCF_READ); lia. Qed.

Lemma handover_spec wr n e l a g l' :
  handover wr n e l = (a, g, l') ->
  let k := (handover_queue wr n (queue e l)).2 in
  a = (handover_queue wr n (queue e l)).1 /\ g = take k (queue e l) /\ queue e l' = drop k (queue e l) /\
  (forall e', e' <> e -> queue e' l' = queue e' l).
Proof.
  unfold handover. pose proof (first_waiter_spec e l) as Hf.
  destruct (first_waiter e l) as [[[d w] r]|]; [|rewrite Hf; intros [= <- <- <-]; by rewrite Hf].
  destruct Hf as (-> & Hd & Hw). rewrite queue_app, Hd, queue_cons_eq by done. simpl.
  assert (forall e' r', e' <> e -> queue e' r' = queue e' r -> queue e' (d ++ r') = queue e' (d ++ w :: r)) as Ho.
  { intros e' r' He' Hr'. rewrite !queue_app, Hr', queue_cons_ne; [done|congruence]. }
  destruct (w_rw w =? OCF_WRITE).
  - destruct (wr || (n =? 1)); intros [= <- <- <-]; simpl.
    + rewrite queue_app, Hd, drop_0. simpl. split_and!; [done..|]. intros e' He'. by apply Ho.
    + rewrite queue_app, Hd, queue_cons_eq by done. by split_and!.
  - destruct (take_readers e r) as [g' r'] eqn:Ht. intros [= <- <- <-].
    destruct (take_readers_spec _ _ _ _ Ht) as (-> & Hr & Hoth). simpl.
    rewrite queue_app, Hd, Hr. simpl. split_and!; [|done|done|].
    + rewrite length_take, Nat.min_l by apply reader_run_length. done.
    + intros e' He'. apply Ho; [done|]. by apply Hoth.
Qed.

(** ** The abstract lock

    Per entry: the access word and the queue. *)

Abbreviation lock_abs := (gmap Z (Z * list ocf_alock_waiter)).

(** How many readers an entry could count after its queue was handed over. *)
Definition room (aq : Z * list ocf_alock_waiter) : Prop :=
  (if aq.1 =? OCF_CACHE_LINE_ACCESS_WR then 1 else aq.1) + Z.of_nat (length aq.2) < INT_MAX.

Record alock_inv (list_entries : Z) (s : ocf_alock) (A : lock_abs) : Prop := {
  ai_entry e a q : A !! e = Some (a, q) ->
    access s !! e = Some a /\ 0 <= a <= OCF_CACHE_LINE_ACCESS_WR /\
    exists l, waiters_lsts s !! _WAITERS_LIST_ITEM list_entries e = Some l /\ queue e l = q;
  ai_range e : is_Some (A !! e) <-> 0 <= e < num_entries s;
  ai_ok e a q w : A !! e = Some (a, q) -> w ∈ q -> waiter_ok s w;
  ai_room e a q : A !! e = Some (a, q) -> room (a, q);
  ai_idle e q : A !! e = Some (OCF_CACHE_LINE_ACCESS_IDLE, q) -> q = [];
}.

Lemma grant_all_fields g s :
  num_entries (grant_all g s) = num_entries s /\ access (grant_all g s) = access s /\
  waiters_lsts (grant_all g s) = waiters_lsts s /\ mem (grant_all g s) = mem s.
Proof.
  revert s. induction g as [|w g IH]; intros s; [done|]. simpl. destruct (IH (grant w s)) as (-> & -> & -> & ->).
  destruct (grant_fields w s) as (-> & -> & -> & -> & _). done.
Qed.

Lemma waiter_ok_grant_all s w g : waiter_ok s w -> waiter_ok (grant_all g s) w.
Proof. revert s. induction g as [|w' g IH]; intros s Hw; [done|]. simpl. apply IH. by apply waiter_ok_grant. Qed.

Section refine.
Context {list_entries : Z}.
#[local] Abbreviation inv := (alock_inv list_entries).
#[local] Abbreviation item := (_WAITERS_LIST_ITEM list_entries).

(** Changing one entry: its access word, its queue, and the waiters granted. *)
Lemma inv_entry s A e a q l a' l' g :
  inv s A -> A !! e = Some (a, q) -> waiters_lsts s !! item e = Some l -> 
  0 <= a' <= OCF_CACHE_LINE_ACCESS_WR -> room (a', queue e l') ->
  (a' = OCF_CACHE_LINE_ACCESS_IDLE -> queue e l' = []) ->
  (forall w, w ∈ queue e l' -> waiter_ok s w) ->
  (forall e', e' <> e -> queue e' l' = queue e' l) ->
  inv (handed list_entries e a' g l' s) (<[e := (a', queue e l')]> A).
Proof.
  intros Hi He Hl Ha' Hroom Hidle Hok Hoth. unfold handed.
  destruct (grant_all_fields g (set_waiters <[item e := l']> (set_access <[e := a']> s))) as (Hn & Hacc & Hw & _).
  split.
  - intros e' a1 q1. rewrite lookup_insert, Hacc, Hw. simpl. case_decide as Hee.
    + subst e'. intros [= <- <-]. rewrite !lookup_insert_eq. split_and!; [done|lia..|by eexists].
    + intros H1. destruct (ai_entry _ _ _ Hi _ _ _ H1) as (H2 & H3 & l1 & H4 & H5).
      rewrite !lookup_insert. case_decide; [done|]. split_and!; [done|lia..|].
      case_decide as Hit; [|by exists l1]. exists l'. split; [done|].
      rewrite Hit, H4 in Hl. injection Hl as ->. rewrite Hoth; [done|congruence].
  - intros e'. rewrite lookup_insert, Hn. simpl. case_decide; [subst|apply (ai_range _ _ _ Hi)].
    split; [intros _; apply (ai_range _ _ _ Hi); by eexists|by eexists].
  - intros e' a1 q1 w. rewrite lookup_insert. intros H1 Hwq. apply waiter_ok_grant_all, (waiter_ok_reqs s); [done|].
    revert H1. case_decide; [intros [= <- <-]; by apply Hok|]. intros H1. by eapply (ai_ok _ _ _ Hi).
  - intros e' a1 q1. rewrite lookup_insert. case_decide; [by intros [= <- <-]|apply (ai_room _ _ _ Hi)].
  - intros e' q1. rewrite lookup_insert. case_decide; [|apply (ai_idle _ _ _ Hi)].
    intros [= H1 <-]. by apply Hidle.
Qed.

(** [s'] differs from [s] by the grants [g] in what requests see. *)
Definition granted (g : list ocf_alock_waiter) (s s' : ocf_alock) : Prop :=
  reqs s' = reqs (grant_all g s) /\ waiting s' = waiting (grant_all g s) /\
  resumed s' = resumed (grant_all g s).

Lemma grant_same w s s' :
  reqs s = reqs s' -> waiting s = waiting s' -> resumed s = resumed s' ->
  reqs (grant w s) = reqs (grant w s') /\ waiting (grant w s) = waiting (grant w s') /\
  resumed (grant w s) = resumed (grant w s').
Proof.
  intros H1 H2 H3. unfold grant. simpl. rewrite H1.
  destruct (alter _ _ _ !! _) as [q|]; [destruct (lock_remaining q =? 0)|]; simpl;
    rewrite ?H1, ?H2, ?H3; by split_and!.
Qed.

Lemma grant_all_same g s s' :
  reqs s = reqs s' -> waiting s = waiting s' -> resumed s = resumed s' -> granted g s (grant_all g s').
Proof.
  revert s s'. induction g as [|w g IH]; intros s s' H1 H2 H3.
  { unfold granted. simpl. by rewrite H1, H2, H3. }
  destruct (grant_same w s s' H1 H2 H3) as (A1 & A2 & A3). unfold granted. simpl. by apply IH.
Qed.

Lemma granted_trans g1 g2 s s1 s2 : granted g1 s s1 -> granted g2 s1 s2 -> granted (g1 ++ g2) s s2.
Proof.
  intros (H1 & H2 & H3) (K1 & K2 & K3). unfold granted, grant_all. rewrite foldl_app.
  fold (grant_all g1 s). fold (grant_all g2 (grant_all g1 s)).
  destruct (grant_all_same g2 (grant_all g1 s) s1) as (L1 & L2 & L3); [done..|].
  by rewrite K1, K2, K3, L1, L2, L3.
Qed.

Inductive lock_call :=
  | CTryWr (e : Z)
  | CTryRd (e : Z)
  | CLock (wr : bool) (e cmpl req idx : Z)
  | CUnlock (wr : bool) (e : Z).

Definition run_call (c : lock_call) : M ocf_alock bool :=
  match c with
  | CTryWr e => ocf_cache_line_try_lock_wr e
  | CTryRd e => ocf_cache_line_try_lock_rd e
  | CLock true e cmpl req idx => ocf_alock_lock_one_wr list_entries e cmpl req idx
  | CLock false e cmpl req idx => ocf_alock_lock_one_rd list_entries e cmpl req idx
  | CUnlock true e => ocf_cache_line_unlock_wr list_entries e;; mret true
  | CUnlock false e => ocf_cache_line_unlock_rd list_entries e;; mret true
  end.

Fixpoint run_calls (cs : list lock_call) : M ocf_alock (list bool) :=
  match cs with
  | [] => mret []
  | c :: cs => r ← run_call c; rs ← run_calls cs; mret (r :: rs)
  end.
End refine.

(** A call on the abstract lock: its result, the waiters that get the lock, and
    the state afterwards; [mem] are the outcomes of the allocator.  [None] when
    the caller may not make the call. *)
Definition waiter_of (wr : bool) (e cmpl req idx : Z) : ocf_alock_waiter :=
  mkWaiter e idx req cmpl (if wr then OCF_WRITE else OCF_READ).

Definition spec_call (c : lock_call) (Am : lock_abs * list bool) :
    option (bool * list ocf_alock_waiter * (lock_abs * list bool)) :=
  let '(A, mem) := Am in
  match c with
  | CTryWr e =>
      '(a, q) ← A !! e;
      if a =? OCF_CACHE_LINE_ACCESS_IDLE
      then Some (true, [], (<[e := (OCF_CACHE_LINE_ACCESS_WR, q)]> A, mem))
      else Some (false, [], (A, mem))
  | CTryRd e =>
      '(a, q) ← A !! e;
      if a =? OCF_CACHE_LINE_ACCESS_IDLE
      then Some (true, [], (<[e := (OCF_CACHE_LINE_ACCESS_ONE_RD, q)]> A, mem))
      else Some (false, [], (A, mem))
  | CLock wr e cmpl req idx =>
      '(a, q) ← A !! e;
      let w := waiter_of wr e cmpl req idx in
      if negb ((if a =? OCF_CACHE_LINE_ACCESS_WR then 1 else a) + Z.of_nat (length q) + 1 <? INT_MAX) then None
      else if a =? OCF_CACHE_LINE_ACCESS_IDLE
      then Some (true, [w], (<[e := (if wr then OCF_CACHE_LINE_ACCESS_WR else OCF_CACHE_LINE_ACCESS_ONE_RD, q)]> A, mem))
      else
        match mem with
        | false :: mem => Some (false, [], (A, mem))
        | _ =>
          if negb wr && bool_decide (q = []) && negb (a =? OCF_CACHE_LINE_ACCESS_WR)
          then Some (true, [w], (<[e := (a + 1, q)]> A, tail mem))
          else Some (true, [], (<[e := (a, q ++ [w])]> A, tail mem))
        end
  | CUnlock wr e =>
      '(a, q) ← A !! e;
      if (if wr then a =? OCF_CACHE_LINE_ACCESS_WR else (0 <? a) && (a <? OCF_CACHE_LINE_ACCESS_WR)) then
        let '(a', k) := handover_queue wr (if wr then 1 else a) q in
        Some (true, take k q, (<[e := (a', drop k q)]> A, mem))
      else None
  end.

Fixpoint spec_calls (cs : list lock_call) (Am : lock_abs * list bool) :
    option (list bool * list ocf_alock_waiter * (lock_abs * list bool)) :=
  match cs with
  | [] => Some ([], [], Am)
  | c :: cs =>
      '(r, g, Am1) ← spec_call c Am;
      '(rs, g', Am2) ← spec_calls cs Am1;
      Some (r :: rs, g ++ g', Am2)
  end.

(** The callers of blocking calls are requests with a status bit and a callback. *)
Definition caller_ok (s : ocf_alock) (c : lock_call) : Prop :=
  match c with CLock wr e cmpl req idx => waiter_ok s (waiter_of wr e cmpl req idx) | _ => True end.

Lemma caller_ok_granted s s' c g : granted g s s' -> caller_ok s c -> caller_ok s' c.
Proof.
  intros (Hr & _) Hc. destruct c as [| |wr e cmpl req idx|]; try done. simpl in *.
  apply (waiter_ok_reqs (grant_all g s)); [done|]. by apply waiter_ok_grant_all.
Qed.

Lemma handed_granted n e a g l s : granted g s (handed n e a g l s).
Proof. unfold handed. by apply grant_all_same. Qed.

Section run.
Context {list_entries : Z}.
#[local] Abbreviation inv := (alock_inv list_entries).
#[local] Abbreviation item := (_WAITERS_LIST_ITEM list_entries).

(** What a call leaves: the abstract lock, the allocator, the grants. *)
Definition call_post (s : ocf_alock) (r : bool) (g : list ocf_alock_waiter) (Am : lock_abs * list bool)
    (r' : bool) (s' : ocf_alock) : Prop :=
  r' = r /\ inv s' Am.1 /\ mem s' = Am.2 /\ granted g s s'.

(** A change of the access word alone. *)
Lemma inv_set_access s A e a q a' :
  inv s A -> A !! e = Some (a, q) -> 0 < a' <= OCF_CACHE_LINE_ACCESS_WR -> room (a', q) ->
  inv (set_access <[e := a']> s) (<[e := (a', q)]> A).
Proof.
  intros Hi He Ha' Hroom. destruct (ai_entry _ _ _ Hi _ _ _ He) as (H1 & H2 & l & Hl & <-).
  replace (set_access <[e := a']> s) with (handed list_entries e a' [] l s).
  - eapply inv_entry; [done..|lia|done| |intros w Hw; by eapply (ai_ok _ _ _ Hi)|done].
    unfold OCF_CACHE_LINE_ACCESS_IDLE. lia.
  - unfold handed. simpl. by apply waiters_id.
Qed.

Lemma try_spec s A e a q v (m : M ocf_alock bool) :
  inv s A -> A !! e = Some (a, q) -> 0 < v <= OCF_CACHE_LINE_ACCESS_WR -> room (v, []) ->
  (forall Q, Q (a =? OCF_CACHE_LINE_ACCESS_IDLE)
     (if a =? OCF_CACHE_LINE_ACCESS_IDLE then set_access <[e := v]> s else s) -> wp m Q s) ->
  wp m (fun r s' => r = (a =? OCF_CACHE_LINE_ACCESS_IDLE) /\ mem s' = mem s /\ granted [] s s' /\
    inv s' (if a =? OCF_CACHE_LINE_ACCESS_IDLE then <[e := (v, q)]> A else A)) s.
Proof.
  intros Hi He Hv Hroom Hm. apply Hm. destruct (Z.eqb_spec a OCF_CACHE_LINE_ACCESS_IDLE) as [->|]; [|done].
  split_and!; [done..|]. eapply inv_set_access; [done..|].
  by rewrite (ai_idle _ _ _ Hi _ _ He).
Qed.

Lemma trylock_wr_run e a s Q : access s !! e = Some a ->
  Q (a =? OCF_CACHE_LINE_ACCESS_IDLE)
    (if a =? OCF_CACHE_LINE_ACCESS_IDLE then set_access <[e := OCF_CACHE_LINE_ACCESS_WR]> s else s) ->
  wp (ocf_alock_trylock_entry_wr e) Q s.
Proof. intros Ha HQ. unfold ocf_alock_trylock_entry_wr. wp_step. eapply wp_cmpxchg; [done|]. by wp_step. Qed.

Lemma trylock_rd_idle_run e a s Q : access s !! e = Some a ->
  Q (a =? OCF_CACHE_LINE_ACCESS_IDLE)
    (if a =? OCF_CACHE_LINE_ACCESS_IDLE then set_access <[e := OCF_CACHE_LINE_ACCESS_ONE_RD]> s else s) ->
  wp (ocf_alock_trylock_entry_rd_idle e) Q s.
Proof. intros Ha HQ. unfold ocf_alock_trylock_entry_rd_idle. wp_step. eapply wp_cmpxchg; [done|]. by wp_step. Qed.

Lemma wp_allocator (Q : bool -> ocf_alock -> Prop) s :
  match mem s with
  | false :: l => Q false (set_mem (fun _ => l) s)
  | _ => Q true (set_mem (fun _ => tail (mem s)) s)
  end -> wp env_allocator_new Q s.
Proof.
  unfold wp, env_allocator_new. destruct (mem s) as [|[] l] eqn:Hm; intros HQ; eexists _, _; (split; [done|]); [|done..].
  simpl in HQ. replace (set_mem (fun _ => []) s) with s in HQ; [done|]. by apply alock_eq.
Qed.

(** Adding a waiter at the end of its queue. *)
Lemma inv_enqueue s A e a q w l :
  inv s A -> A !! e = Some (a, q) -> a <> OCF_CACHE_LINE_ACCESS_IDLE ->
  waiters_lsts s !! item e = Some l -> w_entry w = e -> waiter_ok s w ->
  (if a =? OCF_CACHE_LINE_ACCESS_WR then 1 else a) + Z.of_nat (length q) + 1 < INT_MAX ->
  inv (set_waiters <[item e := l ++ [w]]> s) (<[e := (a, q ++ [w])]> A).
Proof.
  intros Hi He Ha Hl Hw Hok Hmax. destruct (ai_entry _ _ _ Hi _ _ _ He) as (H1 & H2 & l' & Hl' & Hq).
  rewrite Hl in Hl'. injection Hl' as <-.
  assert (queue e (l ++ [w]) = q ++ [w]) as Hq' by by rewrite queue_app, Hq, queue_cons_eq.
  replace (set_waiters <[item e := l ++ [w]]> s) with (handed list_entries e a [] (l ++ [w]) s).
  - rewrite <- Hq'. eapply inv_entry; [done..| | | |].
    + rewrite Hq'. unfold room. simpl. rewrite length_app. simpl. lia.
    + done.
    + rewrite Hq'. intros w' [Hw'| ->%list_elem_of_singleton]%elem_of_app; [|done]. by eapply (ai_ok _ _ _ Hi).
    + intros e' He'. rewrite queue_app, queue_cons_ne by congruence. by rewrite app_nil_r.
  - unfold handed. simpl. by rewrite set_access_id.
Qed.

Lemma mem_tail (s : ocf_alock) (m : list bool) : mem (set_mem (fun _ => m) s) = m.
Proof. done. Qed.

Lemma inv_mem s A f : inv s A -> inv (set_mem f s) A.
Proof. intros [H1 H2 H3 H4 H5]. split; try done. Qed.

(** The last step of a blocking call that did not have to wait. *)
Lemma lock_now wr e cmpl req idx s Q :
  waiter_ok s (waiter_of wr e cmpl req idx) -> Q true (grant (waiter_of wr e cmpl req idx) s) ->
  wp (ocf_alock_mark_index_locked req idx true;; ocf_alock_entry_locked req cmpl;; mret true) Q s.
Proof.
  intros Hok HQ. apply wp_assoc. wp_step. apply (wp_mark_granted (waiter_of wr e cmpl req idx)); [done|]. by wp_step.
Qed.

Lemma inv_grant s A w : inv s A -> inv (grant w s) A.
Proof.
  intros [H1 H2 H3 H4 H5]. destruct (grant_fields w s) as (F1 & F2 & F3 & F4 & _). split.
  - intros e a q. rewrite F2, F3. apply H1.
  - intros e. by rewrite F1.
  - intros e a q w' He Hw'. apply waiter_ok_grant. by eapply H3.
  - done.
  - done.
Qed.

(** The critical section of the two blocking calls: the lock is taken or the
    caller is queued. *)
Lemma enqueue_run wr e cmpl req idx s A a q mem' :
  inv s A -> A !! e = Some (a, q) -> a <> OCF_CACHE_LINE_ACCESS_IDLE ->
  waiter_ok s (waiter_of wr e cmpl req idx) ->
  (if a =? OCF_CACHE_LINE_ACCESS_WR then 1 else a) + Z.of_nat (length q) + 1 < INT_MAX -> mem s = mem' ->
  wp (ocf_alock_waitlist_add list_entries e (waiter_of wr e cmpl req idx)) (fun _ s' =>
    inv s' (<[e := (a, q ++ [waiter_of wr e cmpl req idx])]> A) /\ mem s' = mem' /\ granted [] s s') s.
Proof.
  intros Hi He Ha Hok Hroom Hm. destruct (ai_entry _ _ _ Hi _ _ _ He) as (_ & _ & l & Hl & Hq).
  unfold ocf_alock_waitlist_add. wp_step. eapply wp_get_waiters; [done|]. unfold put_waiters. wp_step.
  split_and!; [|done..]. by eapply inv_enqueue.
Qed.

Lemma lock_one_wr_spec e cmpl req idx s A m r g Am' :
  inv s A -> mem s = m -> caller_ok s (CLock true e cmpl req idx) ->
  spec_call (CLock true e cmpl req idx) (A, m) = Some (r, g, Am') ->
  wp (ocf_alock_lock_one_wr list_entries e cmpl req idx) (call_post s r g Am') s.
Proof.
  intros Hi Hm Hok Hs. simpl in Hs, Hok. destruct (A !! e) as [[a q]|] eqn:He; [|done]. simpl in Hs.
  destruct ((if a =? OCF_CACHE_LINE_ACCESS_WR then 1 else a) + Z.of_nat (length q) + 1 <? INT_MAX) eqn:Hroom;
    [|done]. apply Z.ltb_lt in Hroom. simpl in Hs.
  destruct (ai_entry _ _ _ Hi _ _ _ He) as (Hacc & Hbnd & _).
  pose proof Hok as (_ & Hc & _). simpl in Hc.
  unfold ocf_alock_lock_one_wr. wp_step. wp_step; [by apply Z.eqb_neq|]. wp_step.
  eapply trylock_wr_run; [done|]. destruct (Z.eqb_spec a OCF_CACHE_LINE_ACCESS_IDLE) as [->|Hne].
  - injection Hs as <- <- <-. eapply (lock_now true e); [by apply (waiter_ok_reqs s)|].
    split_and!; [done|..|].
    + simpl. apply inv_grant. eapply inv_set_access; [done..|unfold OCF_CACHE_LINE_ACCESS_WR, INT_MAX; lia|].
      by rewrite (ai_idle _ _ _ Hi _ _ He).
    + destruct (grant_fields (waiter_of true e cmpl req idx) (set_access <[e:=OCF_CACHE_LINE_ACCESS_WR]> s)) as (_ & _ & _ & -> & _). done.
    + by apply (grant_all_same [_]).
  - wp_step. apply wp_allocator. subst m.
    assert (forall s1, inv s1 A -> mem s1 = tail (mem s) -> granted [] s s1 ->
      wp (locked ← ocf_alock_trylock_entry_wr e;
          waiting ← (if locked : bool then mret false
                 else ocf_alock_waitlist_add list_entries e (mkWaiter e idx req cmpl OCF_WRITE);; mret true);
          (if negb waiting then ocf_alock_mark_index_locked req idx true;; ocf_alock_entry_locked req cmpl
           else mret tt);; mret true)
        (call_post s true [] (<[e := (a, q ++ [waiter_of true e cmpl req idx])]> A, tail (mem s))) s1) as Hcrit.
    { intros s1 Hi1 Hm1 Hg1. destruct (ai_entry _ _ _ Hi1 _ _ _ He) as (Hacc1 & _).
      wp_step. eapply trylock_wr_run; [done|]. rewrite (proj2 (Z.eqb_neq _ _) Hne). do 2 wp_step.
      eapply wp_mono; [apply (enqueue_run true e cmpl req idx); [done..|by eapply (caller_ok_granted s s1 (CLock true e cmpl req idx))|done|done]|].
      intros _ s2 (Hi2 & Hm2 & Hg2). wp_steps. split_and!; [done..|]. by apply (granted_trans [] []) with s1. }
    destruct (mem s) as [|[] m] eqn:Hmem; simpl in Hs.
    + injection Hs as <- <- <-. simpl. apply Hcrit; [by apply inv_mem|done|done].
    + injection Hs as <- <- <-. simpl. apply Hcrit; [by apply inv_mem|done|done].
    + injection Hs as <- <- <-. simpl. wp_step. split_and!; [done|by apply inv_mem|done|done].
Qed.

Lemma is_empty_run e l s Q :
  waiters_lsts s !! item e = Some l -> Q (bool_decide (queue e l = [])) s ->
  wp (ocf_alock_waitlist_is_empty_locked list_entries e) Q s.
Proof.
  intros Hl HQ. unfold ocf_alock_waitlist_is_empty_locked. wp_step. eapply wp_get_waiters; [done|]. wp_step.
  replace (negb (existsb (fun w => w_entry w =? e) l)) with (bool_decide (queue e l = [])); [done|].
  clear. induction l as [|w l IH]; [done|]. simpl. destruct (Z.eqb_spec (w_entry w) e) as [He|He]; simpl.
  - by rewrite queue_cons_eq.
  - by rewrite queue_cons_ne.
Qed.

Lemma lock_one_rd_spec e cmpl req idx s A m r g Am' :
  inv s A -> mem s = m -> caller_ok s (CLock false e cmpl req idx) ->
  spec_call (CLock false e cmpl req idx) (A, m) = Some (r, g, Am') ->
  wp (ocf_alock_lock_one_rd list_entries e cmpl req idx) (call_post s r g Am') s.
Proof.
  intros Hi Hm Hok Hs. simpl in Hs, Hok. destruct (A !! e) as [[a q]|] eqn:He; [|done]. simpl in Hs.
  destruct ((if a =? OCF_CACHE_LINE_ACCESS_WR then 1 else a) + Z.of_nat (length q) + 1 <? INT_MAX) eqn:Hroom;
    [|done]. apply Z.ltb_lt in Hroom. simpl in Hs.
  destruct (ai_entry _ _ _ Hi _ _ _ He) as (Hacc & Hbnd & _).
  pose proof Hok as (_ & Hc & _). simpl in Hc.
  unfold ocf_alock_lock_one_rd. wp_step. wp_step; [by apply Z.eqb_neq|]. wp_step.
  eapply trylock_rd_idle_run; [done|]. destruct (Z.eqb_spec a OCF_CACHE_LINE_ACCESS_IDLE) as [->|Hne].
  - injection Hs as <- <- <-. eapply (lock_now false e); [by apply (waiter_ok_reqs s)|].
    split_and!; [done|..|].
    + simpl. apply inv_grant. eapply inv_set_access; [done..|unfold OCF_CACHE_LINE_ACCESS_ONE_RD, OCF_CACHE_LINE_ACCESS_WR, INT_MAX; lia|].
      by rewrite (ai_idle _ _ _ Hi _ _ He).
    + destruct (grant_fields (waiter_of false e cmpl req idx) (set_access <[e:=OCF_CACHE_LINE_ACCESS_ONE_RD]> s)) as (_ & _ & _ & -> & _). done.
    + by apply (grant_all_same [_]).
  - wp_step. apply wp_allocator. subst m.
    assert (forall s1, inv s1 A -> mem s1 = tail (mem s) -> granted [] s s1 ->
      (if bool_decide (q = []) && negb (a =? OCF_CACHE_LINE_ACCESS_WR)
       then Some (true, [waiter_of false e cmpl req idx], (<[e := (a + 1, q)]> A, tail (mem s)))
       else Some (true, [], (<[e := (a, q ++ [waiter_of false e cmpl req idx])]> A, tail (mem s)))) = Some (r, g, Am') ->
      wp (empty ← ocf_alock_waitlist_is_empty_locked list_entries e;
          locked ← (if empty : bool then ocf_alock_trylock_entry_rd e else mret false);
          waiting ← (if locked : bool then mret false
                 else ocf_alock_waitlist_add list_entries e (mkWaiter e idx req cmpl OCF_READ);; mret true);
          (if negb waiting then ocf_alock_mark_index_locked req idx true;; ocf_alock_entry_locked req cmpl
           else mret tt);; mret true) (call_post s r g Am') s1) as Hcrit.
    { intros s1 Hi1 Hm1 Hg1 Hs1. destruct (ai_entry _ _ _ Hi1 _ _ _ He) as (Hacc1 & _ & l1 & Hl1 & Hq1).
      pose proof (caller_ok_granted s s1 (CLock false e cmpl req idx) [] Hg1 Hok) as Hok1. simpl in Hok1.
      wp_step. eapply is_empty_run; [done|]. rewrite Hq1. wp_step.
      assert (forall s2, s2 = s1 -> wp (waiting ← (ocf_alock_waitlist_add list_entries e (mkWaiter e idx req cmpl OCF_READ);; mret true);
        (if negb waiting then ocf_alock_mark_index_locked req idx true;; ocf_alock_entry_locked req cmpl
           else mret tt);; mret true)
        (call_post s true [] (<[e := (a, q ++ [waiter_of false e cmpl req idx])]> A, tail (mem s))) s2) as Hq.
      { intros s2 ->. do 2 wp_step.
        eapply wp_mono; [apply (enqueue_run false e cmpl req idx); done|].
        intros _ s2 (Hi2 & Hm2 & Hg2). wp_steps. split_and!; [done..|]. by apply (granted_trans [] []) with s1. }
      case_bool_decide as Hnil; simpl in Hs1; [|wp_step; injection Hs1 as <- <- <-; by apply Hq].
      unfold ocf_alock_trylock_entry_rd. eapply wp_add_unless; [done|].
      destruct (Z.eqb_spec a OCF_CACHE_LINE_ACCESS_WR) as [Hwr|Hwr]; simpl in Hs1 |- *;
        injection Hs1 as <- <- <-; [by apply Hq|].
      assert (s32 (a + 1) = a + 1) as -> by (apply s32_small; unfold OCF_CACHE_LINE_ACCESS_WR, INT_MAX in *; lia).
      do 3 wp_step. apply (wp_mark_granted (waiter_of false e cmpl req idx)); [by apply (waiter_ok_reqs s1)|]. wp_step.
      split_and!; [done|..|].
      - simpl. apply inv_grant. unfold OCF_CACHE_LINE_ACCESS_IDLE, OCF_CACHE_LINE_ACCESS_WR in *.
        eapply inv_set_access; [done..|unfold OCF_CACHE_LINE_ACCESS_WR; lia|]. unfold room. simpl.
        unfold OCF_CACHE_LINE_ACCESS_WR. destruct (Z.eqb_spec (a + 1) INT_MAX); unfold INT_MAX in *; lia.
      - destruct (grant_fields (waiter_of false e cmpl req idx) (set_access <[e:=a + 1]> s1)) as (_ & _ & _ & -> & _). done.
      - apply (granted_trans [] [_]) with s1; [done|]. by apply (grant_all_same [_]). }
    destruct (mem s) as [|[] m] eqn:Hmem; simpl in Hs.
    + simpl. apply Hcrit; [by apply inv_mem|done|done|done].
    + simpl. apply Hcrit; [by apply inv_mem|done|done|done].
    + injection Hs as <- <- <-. simpl. wp_step. split_and!; [done|by apply inv_mem|done|done].
Qed.

(** The access word after a hand-over is in range, leaves room, and is idle only
    when nobody waits. *)
Lemma handover_queue_facts (wr : bool) n q a' k :
  0 < n < OCF_CACHE_LINE_ACCESS_WR -> n + Z.of_nat (length q) < INT_MAX ->
  handover_queue wr n q = (a', k) ->
  0 <= a' <= OCF_CACHE_LINE_ACCESS_WR /\ room (a', drop k q) /\
  (a' = OCF_CACHE_LINE_ACCESS_IDLE -> drop k q = []).
Proof.
  unfold handover_queue, room, OCF_CACHE_LINE_ACCESS_WR, OCF_CACHE_LINE_ACCESS_IDLE, OCF_CACHE_LINE_ACCESS_ONE_RD.
  intros Hn Hlen. destruct q as [|w q]; simpl in *.
  - destruct wr; intros [= <- <-]; simpl; (split_and!; [lia..| |done]);
      repeat case_match; lia.
  - pose proof (reader_run_length q). destruct (w_rw w =? OCF_WRITE).
    + destruct wr; simpl; [|destruct (Z.eqb_spec n 1)]; intros [= <- <-]; simpl; unfold INT_MAX in *;
        (split_and!; [lia..| |]); rewrite ?drop_0; try done; try lia;
        repeat case_match; lia.
    + intros [= <- <-]. simpl. rewrite length_drop.
      destruct wr; (split_and!; [unfold INT_MAX in *; lia..| |lia]);
        repeat case_match; lia.
Qed.

Lemma unlock_spec wr e s A m r g Am' :
  inv s A -> mem s = m -> spec_call (CUnlock wr e) (A, m) = Some (r, g, Am') ->
  wp (run_call (list_entries := list_entries) (CUnlock wr e)) (call_post s r g Am') s.
Proof.
  intros Hi Hm Hs. simpl in Hs. destruct (A !! e) as [[a q]|] eqn:He; [|done]. simpl in Hs.
  destruct (ai_entry _ _ _ Hi _ _ _ He) as (Hacc & Hbnd & l & Hl & Hq).
  pose proof (ai_room _ _ _ Hi _ _ _ He) as Hroom. unfold room in Hroom. simpl in Hroom.
  destruct (if wr then _ else _) eqn:Hcond; [|done].
  destruct (handover_queue wr (if wr then 1 else a) q) as [a' k] eqn:Hhq. injection Hs as <- <- <-.
  set (n := if wr then 1 else a) in *.
  assert (0 < n < OCF_CACHE_LINE_ACCESS_WR /\ access s !! e = Some (if wr then OCF_CACHE_LINE_ACCESS_WR else n) /\
    n + Z.of_nat (length q) < INT_MAX) as (Hn & Hacc' & Hlen).
  { unfold n. destruct wr.
    - apply Z.eqb_eq in Hcond. subst a. rewrite Z.eqb_refl in Hroom.
      split_and!; [unfold OCF_CACHE_LINE_ACCESS_WR, INT_MAX; lia..|done|lia].
    - apply andb_true_iff in Hcond as [H1%Z.ltb_lt H2%Z.ltb_lt]. rewrite (proj2 (Z.eqb_neq _ _)) in Hroom by lia.
      by split_and!. }
  destruct (handover_queue_facts wr n q a' k Hn Hlen Hhq) as (Hf1 & Hf2 & Hf3).
  pose proof (unlock_common_spec list_entries wr e n l s Hacc') as Hun.
  rewrite Hq in Hun. specialize (Hun ltac:(lia) Hlen Hl).
  assert (forall w, w ∈ l -> w_entry w = e -> waiter_ok s w) as Hok.
  { intros w Hw Hwe. eapply (ai_ok _ _ _ Hi); [done|]. rewrite <- Hq. unfold queue.
    by apply list_elem_of_filter. }
  specialize (Hun Hok). destruct (handover wr n e l) as [[a1 g1] l1] eqn:Hh.
  destruct (handover_spec _ _ _ _ _ _ _ Hh) as (Ha1 & Hg1 & Hl1 & Ho1). rewrite Hq, Hhq in *. simpl in *. subst a1 g1.
  assert (wp (if wr then ocf_alock_unlock_one_wr list_entries e else ocf_alock_unlock_one_rd list_entries e)
    (fun _ s' => call_post s true (take k q) (<[e := (a', drop k q)]> A, m) true s') s) as Hwp.
  { eapply wp_mono; [exact Hun|]. intros _ s' ->. split_and!; [done|..].
    - simpl. rewrite <- Hl1. eapply inv_entry; [done..|by rewrite Hl1|by rewrite Hl1| |done].
      rewrite Hl1. intros w Hw. eapply (ai_ok _ _ _ Hi); [done|]. by eapply (subseteq_drop k).
    - simpl. unfold handed. destruct (grant_all_fields (take k q) (set_waiters <[item e := l1]> (set_access <[e := a']> s))) as (_ & _ & _ & ->). done.
    - apply handed_granted. }
  destruct wr; simpl; unfold ocf_cache_line_unlock_wr, ocf_cache_line_unlock_rd; wp_step;
    (eapply wp_mono; [exact Hwp|]; intros [] s' Hp; by wp_step).
Qed.

Lemma run_call_spec c s A r g Am' :
  inv s A -> caller_ok s c -> spec_call c (A, mem s) = Some (r, g, Am') ->
  wp (run_call (list_entries := list_entries) c) (call_post s r g Am') s.
Proof.
  intros Hi Hok Hs. destruct c as [e|e|[] e cmpl req idx|wr e].
  - simpl in Hs. destruct (A !! e) as [[a q]|] eqn:He; [|done]. simpl in Hs.
    destruct (ai_entry _ _ _ Hi _ _ _ He) as (Hacc & _).
    eapply wp_mono; [apply (try_spec s A e a q OCF_CACHE_LINE_ACCESS_WR (ocf_alock_trylock_entry_wr e) Hi He)|].
    + by vm_compute.
    + by vm_compute.
    + intros Q HQ. by eapply trylock_wr_run.
    + intros r' s' (-> & Hm & Hg & Hi'). destruct (a =? OCF_CACHE_LINE_ACCESS_IDLE); injection Hs as <- <- <-; done.
  - simpl in Hs. destruct (A !! e) as [[a q]|] eqn:He; [|done]. simpl in Hs.
    destruct (ai_entry _ _ _ Hi _ _ _ He) as (Hacc & _).
    eapply wp_mono; [apply (try_spec s A e a q OCF_CACHE_LINE_ACCESS_ONE_RD (ocf_alock_trylock_entry_rd_idle e) Hi He)|].
    + by vm_compute.
    + by vm_compute.
    + intros Q HQ. by eapply trylock_rd_idle_run.
    + intros r' s' (-> & Hm & Hg & Hi'). destruct (a =? OCF_CACHE_LINE_ACCESS_IDLE); injection Hs as <- <- <-; done.
  - by eapply lock_one_wr_spec.
  - by eapply lock_one_rd_spec.
  - by eapply unlock_spec.
Qed.

Lemma run_calls_spec cs s A rs g Am' :
  inv s A -> Forall (caller_ok s) cs -> spec_calls cs (A, mem s) = Some (rs, g, Am') ->
  wp (run_calls (list_entries := list_entries) cs) (fun rs' s' =>
    rs' = rs /\ inv s' Am'.1 /\ mem s' = Am'.2 /\ granted g s s') s.
Proof.
  revert s A rs g. induction cs as [|c cs IH]; intros s A rs g Hi Hok Hs; cbn [spec_calls] in Hs.
  { injection Hs as <- <- <-. simpl. by wp_step. }
  apply Forall_cons in Hok as [Hc Hcs].
  destruct (spec_call c (A, mem s)) as [[[r g1] [A1 m1]]|] eqn:H1; [|done].
  cbn [mbind option_bind] in Hs.
  destruct (spec_calls cs (A1, m1)) as [[[rs2 g2] Am2]|] eqn:H2; [|done]. simpl in Hs.
  injection Hs as <- <- <-. cbn [run_calls]. wp_step.
  eapply wp_mono; [by eapply (run_call_spec c s A r g1 (A1, m1))|]. intros r' s1 (-> & Hi1 & Hm1 & Hg1). simpl in *. wp_step.
  eapply wp_mono; [apply (IH s1 A1 rs2 g2); [done| |by rewrite Hm1]|].
  - eapply Forall_impl; [exact Hcs|]. intros c'. by apply (caller_ok_granted s s1 c' g1).
  - intros rs' s' (-> & Hi' & Hm' & Hg'). wp_step. split_and!; [done..|]. by eapply granted_trans.
Qed.
End run.

(** ** Mutual exclusion *)

(** The locks on [e] a call takes and releases: writers and readers. *)
Definition count_rw (rw e : Z) (g : list ocf_alock_waiter) : Z :=
  Z.of_nat (length (filter (fun w => w_entry w = e /\ w_rw w = rw) g)).

Definition taken (e : Z) (c : lock_call) (r : bool) : Z * Z :=
  match c with
  | CTryWr e' => if (e =? e') && r then (1, 0) else (0, 0)
  | CTryRd e' => if (e =? e') && r then (0, 1) else (0, 0)
  | CLock _ _ _ _ _ => (0, 0)
  | CUnlock wr e' => if e =? e' then if wr then (-1, 0) else (0, -1) else (0, 0)
  end.

(** Who holds [e] after a sequence of calls with results [rs] and grants [g]. *)
Definition held (e : Z) (cs : list lock_call) (rs : list bool) (g : list ocf_alock_waiter) : Z * Z :=
  let sums := foldr (fun cr acc => ((taken e cr.1 cr.2).1 + acc.1, (taken e cr.1 cr.2).2 + acc.2)) (0, 0) (zip cs rs) in
  (sums.1 + count_rw OCF_WRITE e g, sums.2 + count_rw OCF_READ e g).

(** The holders an access word stands for. *)
Definition holders (a : Z) : Z * Z := if a =? OCF_CACHE_LINE_ACCESS_WR then (1, 0) else (0, a).

Lemma count_rw_app rw e g1 g2 : count_rw rw e (g1 ++ g2) = count_rw rw e g1 + count_rw rw e g2.
Proof. unfold count_rw. rewrite filter_app, length_app. lia. Qed.

Lemma count_rw_other rw e e' g : e' <> e -> (forall w, w ∈ g -> w_entry w = e') -> count_rw rw e g = 0.
Proof.
  intros He. unfold count_rw. induction g as [|w g IH]; intros Hg; [done|].
  rewrite filter_cons_False.
  - apply IH. intros w' Hw'. apply Hg. by right.
  - intros [Hw _]. apply He. rewrite <- Hw. symmetry. apply Hg. by left.
Qed.

Lemma count_rw_readers rw e (q : list ocf_alock_waiter) :
  (forall w, w ∈ q -> w_entry w = e) ->
  count_rw rw e (take (reader_run q) q) = if rw =? OCF_READ then Z.of_nat (reader_run q) else 0.
Proof.
  induction q as [|w q IH]; intros Hq; simpl; [by destruct (rw =? OCF_READ)|].
  destruct (Z.eqb_spec (w_rw w) OCF_READ) as [Hw|Hw]; [|by destruct (rw =? OCF_READ)].
  simpl. change (w :: ?l) with ([w] ++ l). rewrite count_rw_app, IH by (intros w' Hw'; apply Hq; by right).
  unfold count_rw. destruct (Z.eqb_spec rw OCF_READ) as [Hr|Hr].
  - rewrite filter_cons_True by (split; [apply Hq; by left|congruence]). simpl. lia.
  - rewrite filter_cons_False; [done|]. intros [_ ?]. congruence.
Qed.

Section exclusion.
Context {list_entries : Z}.
#[local] Abbreviation inv := (alock_inv list_entries).

Lemma inv_queue_entry s A e a q w : inv s A -> A !! e = Some (a, q) -> w ∈ q -> w_entry w = e.
Proof.
  intros Hi He. destruct (ai_entry _ _ _ Hi _ _ _ He) as (_ & _ & l & _ & <-).
  unfold queue. by intros [Hw _]%list_elem_of_filter.
Qed.

(** A hand-over passes the released lock on, or drops it. *)
Lemma held_handover (wr : bool) e n q a' k :
  0 < n < OCF_CACHE_LINE_ACCESS_WR -> n + Z.of_nat (length q) < INT_MAX ->
  (forall w, w ∈ q -> w_entry w = e /\ (w_rw w = OCF_READ \/ w_rw w = OCF_WRITE)) ->
  handover_queue wr n q = (a', k) ->
  (holders a').1 = count_rw OCF_WRITE e (take k q) /\
  (holders a').2 = count_rw OCF_READ e (take k q) + (if wr then 0 else n - 1).
Proof.
  unfold handover_queue, holders. intros Hn Hlen Hq. destruct q as [|w q].
  - intros [= <- <-]. simpl. unfold OCF_CACHE_LINE_ACCESS_IDLE, OCF_CACHE_LINE_ACCESS_WR, INT_MAX in *.
    destruct wr; [done|]. rewrite (proj2 (Z.eqb_neq _ _)) by lia. by cbn.
  - destruct (Hq w ltac:(by left)) as [Hwe Hrw]. pose proof (reader_run_length q). simpl in Hlen.
    assert (forall rw, count_rw rw e [w] = if w_rw w =? rw then 1 else 0) as H1.
    { intros rw. unfold count_rw. destruct (Z.eqb_spec (w_rw w) rw).
      - rewrite filter_cons_True by done. done.
      - rewrite filter_cons_False by tauto. done. }
    assert (forall rw g, count_rw rw e (w :: g) = (if w_rw w =? rw then 1 else 0) + count_rw rw e g) as H2.
    { intros rw g. change (w :: g) with ([w] ++ g). by rewrite count_rw_app, H1. }
    destruct Hrw as [Hw|Hw].
    + rewrite Hw. cbn [OCF_READ OCF_WRITE]. replace (OCF_READ =? OCF_WRITE) with false by done.
      intros [= <- <-]. cbn [take]. rewrite !H2, !count_rw_readers, Hw by (intros w' Hw'; apply Hq; by right).
      unfold OCF_CACHE_LINE_ACCESS_ONE_RD, OCF_CACHE_LINE_ACCESS_WR in *. rewrite (proj2 (Z.eqb_neq _ _)).
      * unfold OCF_READ, OCF_WRITE. simpl. destruct wr; lia.
      * unfold INT_MAX in *. destruct wr; lia.
    + rewrite Hw, Z.eqb_refl. destruct (wr || (n =? 1)) eqn:Hc; intros [= <- <-].
      * cbn [take]. rewrite !H2, Hw, Z.eqb_refl. destruct wr; [done|]. simpl in Hc. apply Z.eqb_eq in Hc. by subst n.
      * apply orb_false_iff in Hc as [-> _]. rewrite (proj2 (Z.eqb_neq _ _)) by lia. by cbn.
Qed.

Definition call_entry (c : lock_call) : Z :=
  match c with CTryWr e | CTryRd e | CLock _ e _ _ _ | CUnlock _ e => e end.

(** A call leaves the other entries alone. *)
Lemma spec_call_other s A c r g Am' e :
  inv s A -> spec_call c (A, mem s) = Some (r, g, Am') -> call_entry c <> e ->
  Am'.1 !! e = A !! e /\ taken e c r = (0, 0) /\ forall w, w ∈ g -> w_entry w = call_entry c.
Proof.
  intros Hi Hs Hne. destruct c as [e'|e'|wr e' cmpl req idx|wr e']; simpl in *;
    (destruct (A !! e') as [[b p]|] eqn:He'; [|done]); simpl in Hs;
    rewrite ?(proj2 (Z.eqb_neq e e')) by congruence; repeat case_match; simplify_eq; simpl;
    rewrite ?lookup_insert_ne by done; (split_and!; [done|done|]); intros w Hw;
    try (by apply elem_of_nil in Hw); try (by apply list_elem_of_singleton in Hw as ->).
  all: try (eapply inv_queue_entry; [done..|]; by eapply subseteq_take).
Qed.

(** Each call changes the holders of an entry by what it takes, releases and
    grants. *)
Lemma held_call s A c r g Am' e a q :
  inv s A -> spec_call c (A, mem s) = Some (r, g, Am') -> A !! e = Some (a, q) ->
  exists a' q', Am'.1 !! e = Some (a', q') /\
    (holders a').1 = (holders a).1 + (taken e c r).1 + count_rw OCF_WRITE e g /\
    (holders a').2 = (holders a).2 + (taken e c r).2 + count_rw OCF_READ e g.
Proof.
  intros Hi Hs He. destruct (decide (call_entry c = e)) as [<-|Hne]; cycle 1.
  { destruct (spec_call_other _ _ _ _ _ _ e Hi Hs Hne) as (H1 & H2 & H3).
    exists a, q. rewrite H1, H2, !(count_rw_other _ e (call_entry c)) by done. split_and!; [done|simpl; lia..]. }
  destruct (ai_entry _ _ _ Hi _ _ _ He) as (_ & Hbnd & _). pose proof (ai_room _ _ _ Hi _ _ _ He) as Hroom.
  assert (forall w rw, w_entry w = call_entry c -> count_rw rw (call_entry c) [w] = if w_rw w =? rw then 1 else 0) as H1.
  { intros w rw Hw. unfold count_rw. destruct (Z.eqb_spec (w_rw w) rw).
    - rewrite filter_cons_True by done. done.
    - rewrite filter_cons_False by tauto. done. }
  destruct c as [e|e|wr e cmpl req idx|wr e]; simpl in *; rewrite He in Hs; simpl in Hs; rewrite ?Z.eqb_refl.
  - destruct (Z.eqb_spec a OCF_CACHE_LINE_ACCESS_IDLE) as [->|]; simplify_eq; simpl; rewrite ?lookup_insert_eq;
      (eexists _, _; split; [done|]);
      first [by vm_compute|unfold count_rw; cbn [fst snd filter list_filter length]; lia].
  - destruct (Z.eqb_spec a OCF_CACHE_LINE_ACCESS_IDLE) as [->|]; simplify_eq; simpl; rewrite ?lookup_insert_eq;
      (eexists _, _; split; [done|]);
      first [by vm_compute|unfold count_rw; cbn [fst snd filter list_filter length]; lia].
  - destruct (negb _) eqn:Hok; [done|]. apply negb_false_iff, Z.ltb_lt in Hok.
    unfold holders. destruct (Z.eqb_spec a OCF_CACHE_LINE_ACCESS_IDLE) as [->|Hidle].
    { simplify_eq. simpl. rewrite lookup_insert_eq, !H1 by done. eexists _, _. split; [done|]. by destruct wr. }
    assert (exists a' q', Am'.1 !! e = Some (a', q') /\
      (a' = a /\ g = [] \/ a <> OCF_CACHE_LINE_ACCESS_WR /\ a' = a + 1 /\ g = [waiter_of false e cmpl req idx]))
      as (a' & q' & H2 & H3).
    { destruct (mem s) as [|[] m]; simplify_eq;
        try (eexists _, _; split; [done|]; by left);
        destruct (negb wr && bool_decide (q = []) && negb (a =? OCF_CACHE_LINE_ACCESS_WR)) eqn:Hb; simplify_eq;
        simpl; rewrite lookup_insert_eq; (eexists _, _; split; [done|]); try (by left);
        apply andb_true_iff in Hb as [Hb ?%negb_true_iff%Z.eqb_neq]; apply andb_true_iff in Hb as [->%negb_true_iff _];
        by right. }
    exists a', q'. split; [done|]. destruct H3 as [[-> ->]|(Hwr & -> & ->)]; [unfold count_rw; simpl; lia|].
    rewrite !H1 by done. simpl. rewrite !(proj2 (Z.eqb_neq _ _)) in * by (unfold OCF_CACHE_LINE_ACCESS_WR in *; lia).
    cbn. lia.
  - destruct (if wr then _ else _) eqn:Hok; [|done].
    destruct (handover_queue wr (if wr then 1 else a) q) as [a' k] eqn:Hh. injection Hs as <- <- <-.
    simpl. rewrite lookup_insert_eq. eexists _, _. split; [done|]. unfold room in Hroom. simpl in Hroom.
    assert (0 < (if wr then 1 else a) < OCF_CACHE_LINE_ACCESS_WR /\
      (if wr then 1 else a) + Z.of_nat (length q) < INT_MAX /\
      holders a = if wr then (1, 0) else (0, a)) as (Hn & Hlen & Hhold).
    { unfold holders. destruct wr.
      - apply Z.eqb_eq in Hok. subst a. rewrite Z.eqb_refl in *. split_and!; [by vm_compute|by vm_compute|lia|done].
      - apply andb_true_iff in Hok as [?%Z.ltb_lt ?%Z.ltb_lt]. rewrite (proj2 (Z.eqb_neq _ _)) in * by lia. by split_and!. }
    destruct (held_handover wr e _ q a' k Hn Hlen) as [Hw Hr]; [|done|].
    { intros w Hw. split; [by eapply inv_queue_entry|]. by destruct (ai_ok _ _ _ Hi _ _ _ _ He Hw) as (_ & _ & ?). }
    rewrite Hw, Hr, Hhold. destruct wr; simpl; lia.
Qed.

Lemma held_calls s A cs rs g Am' e a q :
  inv s A -> Forall (caller_ok s) cs -> spec_calls cs (A, mem s) = Some (rs, g, Am') -> A !! e = Some (a, q) ->
  exists a' q', Am'.1 !! e = Some (a', q') /\
    (holders a').1 = (holders a).1 + (held e cs rs g).1 /\ (holders a').2 = (holders a).2 + (held e cs rs g).2.
Proof.
  revert s A rs g a q. induction cs as [|c cs IH]; intros s A rs g a q Hi Hok Hs He; cbn [spec_calls] in Hs.
  { injection Hs as <- <- <-. exists a, q. unfold held, count_rw. simpl. split_and!; [done|lia..]. }
  apply Forall_cons in Hok as [Hc Hcs].
  destruct (spec_call c (A, mem s)) as [[[r g1] [A1 m1]]|] eqn:H1; [|done]. cbn [mbind option_bind] in Hs.
  destruct (spec_calls cs (A1, m1)) as [[[rs2 g2] Am2]|] eqn:H2; [|done]. simpl in Hs. injection Hs as <- <- <-.
  destruct (run_call_spec c s A r g1 (A1, m1) Hi Hc H1) as (r' & s1 & _ & _ & Hi1 & Hm1 & Hg1). simpl in *.
  destruct (held_call _ _ _ _ _ _ _ _ _ Hi H1 He) as (a1 & q1 & He1 & Hw1 & Hr1). simpl in He1.
  destruct (IH s1 A1 rs2 g2 a1 q1) as (a' & q' & He' & Hw' & Hr'); [done| |by rewrite Hm1|done|].
  { eapply Forall_impl; [exact Hcs|]. intros c'. by apply (caller_ok_granted s s1 c' g1). }
  exists a', q'. split; [done|]. unfold held in *. simpl in *. rewrite !count_rw_app. lia.
Qed.
End exclusion.

(** ** The fast path of a request *)

Section fast.
Context {list_entries : Z}.
#[local] Abbreviation inv := (alock_inv list_entries).

(** The line at index [i] of the request's map that has to be locked. *)
Definition needed (q : req_lock) (i : nat) : option Z :=
  match req_map q !! Z.of_nat i with
  | Some (st, e) => if negb (st =? LOOKUP_MISS) && negb (st =? LOOKUP_REMAPPED) then Some e else None
  | None => None
  end.

Definition lock_word (rw : Z) : Z :=
  if rw =? OCF_WRITE then OCF_CACHE_LINE_ACCESS_WR else OCF_CACHE_LINE_ACCESS_ONE_RD.

(** The state after the needed lines below [k] were locked. *)
Fixpoint lock_lines (rw r : Z) (q : req_lock) (k : nat) (s : ocf_alock) : ocf_alock :=
  match k with
  | O => s
  | S k =>
      let s := lock_lines rw r q k s in
      match needed q k with
      | Some e => set_reqs (alter (with_status <[Z.of_nat k := true]>) r) (set_access <[e := lock_word rw]> s)
      | None => s
      end
  end.

(** The lines below [k] can be locked one after the other. *)
Fixpoint lines_free (rw r : Z) (q : req_lock) (k : nat) (s : ocf_alock) : Prop :=
  match k with
  | O => True
  | S k => lines_free rw r q k s /\
      forall e, needed q k = Some e -> access (lock_lines rw r q k s) !! e = Some OCF_CACHE_LINE_ACCESS_IDLE
  end.

(** A request that may be locked: the statuses of its lines are clear and the
    lines are mapped. *)
Record req_ok (s : ocf_alock) (A : lock_abs) (r : Z) (q : req_lock) : Prop := {
  ro_req : reqs s !! r = Some q;
  ro_count : 0 <= core_line_count q;
  ro_map i : 0 <= i < core_line_count q -> is_Some (req_map q !! i);
  ro_status i e : needed q i = Some e -> alock_status q !! Z.of_nat i = Some false;
  ro_entry i e : needed q i = Some e -> is_Some (A !! e);
}.

Lemma lock_lines_fields rw r q k s :
  num_entries (lock_lines rw r q k s) = num_entries s /\ waiters_lsts (lock_lines rw r q k s) = waiters_lsts s /\
  waiting (lock_lines rw r q k s) = waiting s /\ resumed (lock_lines rw r q k s) = resumed s /\
  mem (lock_lines rw r q k s) = mem s.
Proof. induction k as [|k IH]; simpl; [done|]. by destruct (needed q k). Qed.

(** The request after locking differs in the statuses below [k]. *)
Lemma lock_lines_req rw r q k s : reqs s !! r = Some q ->
  exists st, reqs (lock_lines rw r q k s) !! r = Some (with_status (fun _ => st) q) /\
    (forall i, Z.of_nat k <= i -> st !! i = alock_status q !! i) /\
    (forall i e, (i < k)%nat -> needed q i = Some e -> st !! Z.of_nat i = Some true).
Proof.
  intros Hq. induction k as [|k IH]; simpl.
  { exists (alock_status q). split_and!; [|done|lia]. rewrite Hq. by destruct q. }
  destruct IH as (st & Hr & Hge & Hlt). destruct (needed q k) as [e|] eqn:Hn; simpl.
  - exists (<[Z.of_nat k := true]> st). split_and!.
    + rewrite lookup_alter_eq, Hr. simpl. by destruct q.
    + intros i Hi. rewrite lookup_insert_ne by lia. apply Hge. lia.
    + intros i e' Hi Hi'. rewrite lookup_insert. case_decide; [done|]. apply (Hlt i e'); [lia|done].
  - exists st. split_and!; [done|intros i Hi; apply Hge; lia|].
    intros i e' Hi Hi'. apply (Hlt i e'); [|done]. destruct (decide (i = k)) as [->|]; [congruence|lia].
Qed.

Lemma lock_lines_other rw r r' q k s : r' <> r -> reqs (lock_lines rw r q k s) !! r' = reqs s !! r'.
Proof.
  intros Hne. induction k as [|k IH]; simpl; [done|]. destruct (needed q k); simpl; [|done].
  by rewrite lookup_alter_ne.
Qed.

(** What the accesses of the lines hold while a prefix is locked. *)
Lemma lock_lines_access rw r q k s e :
  lines_free rw r q k s ->
  (exists i, (i < k)%nat /\ needed q i = Some e) /\ access s !! e = Some OCF_CACHE_LINE_ACCESS_IDLE /\
    access (lock_lines rw r q k s) !! e = Some (lock_word rw) \/
  (forall i, (i < k)%nat -> needed q i <> Some e) /\ access (lock_lines rw r q k s) !! e = access s !! e.
Proof.
  induction k as [|k IH]; simpl; [intros _; right; split; [lia|done]|].
  intros [Hf Hk]. specialize (IH Hf). destruct (needed q k) as [e'|] eqn:Hn; simpl.
  - rewrite lookup_insert. case_decide as Hee.
    + subst e'. left. split; [exists k; split; [lia|done]|]. split; [|done].
      specialize (Hk e eq_refl). destruct IH as [(_ & _ & H)|(_ & H)]; [|congruence].
      rewrite H in Hk. exfalso. revert Hk. unfold lock_word. destruct (rw =? OCF_WRITE); vm_compute; congruence.
    + destruct IH as [((i & Hi & Hi') & H1 & H2)|(H1 & H2)]; [left|right].
      * split_and!; [exists i; split; [lia|done]|done|done].
      * split; [|done]. intros i Hi. destruct (decide (i = k)) as [->|]; [congruence|apply H1; lia].
  - destruct IH as [((i & Hi & Hi') & H1 & H2)|(H1 & H2)]; [left|right].
    + split_and!; [exists i; split; [lia|done]|done|done].
    + split; [|done]. intros i Hi. destruct (decide (i = k)) as [->|]; [congruence|apply H1; lia].
Qed.

Lemma wp_is_locked r q i b Q s :
  reqs s !! r = Some q -> alock_status q !! i = Some b -> Q b s -> wp (ocf_alock_is_index_locked r i) Q s.
Proof. intros Hq Hb HQ. unfold ocf_alock_is_index_locked. wp_step. eapply wp_get_req; [done|]. by eapply wp_lift. Qed.

Lemma wp_map_at r q i x Q s :
  reqs s !! r = Some q -> req_map q !! i = Some x -> Q x s -> wp (map_at r i) Q s.
Proof. intros Hq Hb HQ. unfold map_at. wp_step. eapply wp_get_req; [done|]. by eapply wp_lift. Qed.

Lemma wp_needs_lock r q st i Q s :
  reqs s !! r = Some (with_status (fun _ => st) q) -> is_Some (req_map q !! Z.of_nat i) ->
  Q (if needed q i is Some _ then true else false) s -> wp (ocf_cl_lock_line_needs_lock r (Z.of_nat i)) Q s.
Proof.
  intros Hq [[x y] Hx] HQ. unfold ocf_cl_lock_line_needs_lock. wp_step. eapply wp_map_at; [done|done|]. wp_step.
  unfold needed in HQ. rewrite Hx in HQ. simpl in *. by destruct (negb (x =? LOOKUP_MISS) && negb (x =? LOOKUP_REMAPPED)).
Qed.

Lemma wp_get_entry r q st i e Q s :
  reqs s !! r = Some (with_status (fun _ => st) q) -> needed q i = Some e ->
  Q e s -> wp (ocf_cl_lock_line_get_entry r (Z.of_nat i)) Q s.
Proof.
  intros Hq Hn HQ. unfold needed in Hn. destruct (req_map q !! Z.of_nat i) as [[x y]|] eqn:Hx; [|done].
  unfold ocf_cl_lock_line_get_entry. wp_step. eapply wp_map_at; [done|done|]. wp_step. simpl.
  destruct (_ && _); [|done]. by injection Hn as ->.
Qed.

Lemma lock_fast_loop_spec rw r q s A n i :
  inv s A -> req_ok s A r q -> Z.of_nat (i + n) = core_line_count q -> lines_free rw r q i s ->
  wp (lock_fast_loop n r rw (Z.of_nat i)) (fun ri s' =>
    exists j, ri.2 = Z.of_nat j /\ (j <= i + n)%nat /\ s' = lock_lines rw r q j s /\ lines_free rw r q j s /\
      (ri.1 = OCF_LOCK_ACQUIRED /\ j = (i + n)%nat \/
       ri.1 = OCF_LOCK_NOT_ACQUIRED /\ (j < i + n)%nat /\
         exists e, needed q j = Some e /\ access s' !! e <> Some OCF_CACHE_LINE_ACCESS_IDLE))
    (lock_lines rw r q i s).
Proof.
  intros Hi Hr. revert i. induction n as [|n IH]; intros i Hin Hf; cbn [lock_fast_loop].
  { wp_step. exists i. split_and!; [done|lia|done|done|]. left. split; [done|lia]. }
  destruct (lock_lines_req rw r q i s (ro_req _ _ _ _ Hr)) as (st & Hst & Hge & _).
  pose proof (ro_map _ _ _ _ Hr (Z.of_nat i) ltac:(lia)) as Hmap.
  wp_step. eapply wp_needs_lock; [done|done|]. destruct (needed q i) as [e|] eqn:Hn; simpl.
  - wp_step. eapply wp_get_entry; [done|done|]. wp_step.
    eapply (wp_is_locked r (with_status (fun _ => st) q)); [done| |].
    { simpl. rewrite Hge by done. by eapply ro_status. }
    do 2 wp_step. wp_step.
    assert (is_Some (access (lock_lines rw r q i s) !! e)) as [a Ha].
    { destruct (lock_lines_access rw r q i s e Hf) as [(_ & _ & H)|(_ & H)]; [by eexists|]. rewrite H.
      destruct (ro_entry _ _ _ _ Hr i e Hn) as [[a p] Ha]. destruct (ai_entry _ _ _ Hi _ _ _ Ha) as (? & _). by eexists. }
    assert (forall Q, Q (a =? OCF_CACHE_LINE_ACCESS_IDLE) (if a =? OCF_CACHE_LINE_ACCESS_IDLE
      then set_access <[e := lock_word rw]> (lock_lines rw r q i s) else lock_lines rw r q i s) ->
      wp (if rw =? OCF_WRITE then ocf_alock_trylock_entry_wr e else ocf_alock_trylock_entry_rd_idle e) Q
        (lock_lines rw r q i s)) as Htry.
    { intros Q HQ. unfold lock_word in HQ. destruct (rw =? OCF_WRITE); [by eapply trylock_wr_run|by eapply trylock_rd_idle_run]. }
    apply Htry. destruct (Z.eqb_spec a OCF_CACHE_LINE_ACCESS_IDLE) as [->|Hne].
    + wp_step. eapply (wp_mark r (Z.of_nat i) true (with_status (fun _ => st) q)); [done| |].
      { simpl. rewrite Hge by done. by eapply ro_status. }
      replace (Z.of_nat i + 1) with (Z.of_nat (S i)) by lia.
      eapply wp_mono; [|intros ri s' H; exact H].
      replace (set_reqs _ _) with (lock_lines rw r q (S i) s) by (simpl; by rewrite Hn).
      eapply wp_mono; [apply IH; [lia|]|].
      { simpl. split; [done|]. rewrite Hn. by intros ? [= <-]. }
      intros ri s' (j & H1 & H2 & H3 & H4 & H5). exists j. split_and!; [done|lia|done|done|].
      destruct H5 as [[? ?]|(? & ? & ?)]; [left|right]; (split_and!; [done|lia|..]; done) || (split; [done|lia]).
    + wp_step. exists i. simpl. split_and!; [done|lia|done|done|]. right. split_and!; [done|lia|].
      exists e. split; [done|]. rewrite Ha. congruence.
  - replace (Z.of_nat i + 1) with (Z.of_nat (S i)) by lia.
    replace (lock_lines rw r q i s) with (lock_lines rw r q (S i) s) at 1 by (simpl; by rewrite Hn).
    eapply wp_mono; [apply IH; [lia|]|].
    { simpl. split; [done|]. by rewrite Hn. }
    intros ri s' (j & H1 & H2 & H3 & H4 & H5). exists j. split_and!; [done|lia|done|done|].
    destruct H5 as [[? ?]|(? & ? & ?)]; [left|right]; (split_and!; [done|lia|..]; done) || (split; [done|lia]).
Qed.

(** Releasing an entry nobody waits for. *)
Lemma unlock_alone_spec rw e l s :
  access s !! e = Some (lock_word rw) -> waiters_lsts s !! _WAITERS_LIST_ITEM list_entries e = Some l ->
  queue e l = [] ->
  wp (if rw =? OCF_WRITE then ocf_alock_unlock_one_wr list_entries e else ocf_alock_unlock_one_rd list_entries e)
    (fun _ s' => s' = set_access <[e := OCF_CACHE_LINE_ACCESS_IDLE]> s) s.
Proof.
  intros Ha Hl Hq. eapply wp_mono; [apply (unlock_common_spec list_entries (rw =? OCF_WRITE) e 1 l s)|].
  - rewrite Ha. unfold lock_word. by destruct (rw =? OCF_WRITE).
  - done.
  - by rewrite Hq.
  - done.
  - intros w Hw Hwe. exfalso. assert (w ∈ queue e l) as H by (apply list_elem_of_filter; done).
    rewrite Hq in H. by apply elem_of_nil in H.
  - intros [] s'. unfold handover. pose proof (first_waiter_spec e l) as Hf.
    destruct (first_waiter e l) as [[[d w] r']|].
    + destruct Hf as (-> & Hd & Hw). rewrite queue_app, Hd, queue_cons_eq in Hq by done. done.
    + intros ->. unfold handed. simpl. rewrite (waiters_id list_entries) by done. by destruct (rw =? OCF_WRITE).
Qed.

(** Discarding the locks of a prefix restores the state. *)
Lemma unlock_fast_loop_spec rw r q s A k :
  inv s A -> req_ok s A r q -> Z.of_nat k <= core_line_count q -> lines_free rw r q k s ->
  wp (unlock_fast_loop list_entries k r rw) (fun _ s' => s' = s) (lock_lines rw r q k s).
Proof.
  intros Hi Hr. induction k as [|k IH]; intros Hk Hf; cbn [unlock_fast_loop]; [by wp_step|].
  destruct (lock_lines_req rw r q (S k) s (ro_req _ _ _ _ Hr)) as (st & Hst & _ & Hlt).
  pose proof (ro_map _ _ _ _ Hr (Z.of_nat k) ltac:(lia)) as Hmap. destruct Hf as [Hf Hfk].
  wp_step. eapply wp_needs_lock; [done|done|]. wp_step. destruct (needed q k) as [e|] eqn:Hn; simpl; cycle 1.
  { wp_step. rewrite Hn. apply IH; [lia|done]. }
  wp_step. eapply wp_get_entry; [done|done|]. wp_step.
  eapply (wp_is_locked r (with_status (fun _ => st) q)); [done|by apply (Hlt k e); [lia|]|].
  rewrite Hn. wp_step. set (s1 := lock_lines rw r q k s).
  destruct (ro_entry _ _ _ _ Hr k e Hn) as [[a p] He].
  destruct (ai_entry _ _ _ Hi _ _ _ He) as (Ha & _ & l & Hl & Hq).
  pose proof (Hfk e eq_refl) as Ha1. fold s1 in Ha1.
  assert (p = []) as ->.
  { destruct (lock_lines_access rw r q k s e Hf) as [(_ & H & _)|(_ & H)].
    - rewrite Ha in H. injection H as ->. by eapply (ai_idle _ _ _ Hi).
    - fold s1 in H. rewrite Ha1, Ha in H. injection H as <-. by eapply (ai_idle _ _ _ Hi). }
  eapply wp_mono; [apply (unlock_alone_spec rw e l)|].
  - simpl. by rewrite lookup_insert_eq.
  - simpl. unfold s1. destruct (lock_lines_fields rw r q k s) as (_ & -> & _). done.
  - done.
  - intros _ s' ->. destruct (lock_lines_req rw r q k s (ro_req _ _ _ _ Hr)) as (st1 & Hst1 & Hge1 & _).
    fold s1 in Hst1.
    eapply (wp_mark r (Z.of_nat k) false); [simpl; by rewrite lookup_alter_eq, Hst1| |].
    { simpl. by rewrite lookup_insert_eq. }
    match goal with |- wp _ _ ?s2 => replace s2 with s1 end; [apply IH; [lia|done]|].
    apply alock_eq; try done; simpl.
    + rewrite insert_insert_eq. by rewrite insert_id.
    + apply map_eq. intros r'. rewrite !lookup_alter. case_decide; [subst r'|done]. rewrite Hst1. simpl.
      rewrite decide_True by done. unfold with_status. simpl. do 2 f_equal. rewrite insert_insert_eq.
      rewrite insert_id; [done|]. rewrite Hge1 by done. by eapply ro_status.
Qed.

Lemma lock_line_fast_spec rw r q s A :
  inv s A -> req_ok s A r q ->
  wp (ocf_cl_lock_line_fast list_entries r rw) (fun ret s' =>
    let n := Z.to_nat (core_line_count q) in
    ret = OCF_LOCK_ACQUIRED /\ s' = lock_lines rw r q n s /\ lines_free rw r q n s \/
    ret = OCF_LOCK_NOT_ACQUIRED /\ s' = s /\
      exists i e, (i < n)%nat /\ needed q i = Some e /\
        (access s !! e <> Some OCF_CACHE_LINE_ACCESS_IDLE \/ exists j, (j < i)%nat /\ needed q j = Some e)) s.
Proof.
  intros Hi Hr. unfold ocf_cl_lock_line_fast. wp_step. eapply wp_get_req; [apply (ro_req _ _ _ _ Hr)|]. wp_step.
  pose proof (ro_count _ _ _ _ Hr) as Hc.
  eapply wp_mono; [apply (lock_fast_loop_spec rw r q s A _ 0 Hi Hr); [lia|done]|].
  intros [ret i] s' (j & H1 & H2 & -> & Hf & H5). simpl in *. subst i. destruct H5 as [[-> ->]|(-> & Hj & e & He & Ha)].
  - wp_steps. by left.
  - cbn [Z.eqb OCF_LOCK_NOT_ACQUIRED Pos.eqb]. wp_step.
    replace (Z.to_nat (Z.of_nat j + 1)) with (S j) by lia. cbn [unlock_fast_loop].
    destruct (lock_lines_req rw r q j s (ro_req _ _ _ _ Hr)) as (st & Hst & Hge & _).
    pose proof (ro_map _ _ _ _ Hr (Z.of_nat j) ltac:(lia)) as Hmap.
    wp_step. eapply wp_needs_lock; [done|done|]. rewrite He. wp_step. simpl. wp_step.
    eapply wp_get_entry; [done|done|]. wp_step.
    eapply (wp_is_locked r (with_status (fun _ => st) q)); [done| |].
    { simpl. rewrite Hge by done. by eapply ro_status. }
    simpl. wp_step. eapply wp_mono; [apply (unlock_fast_loop_spec rw r q s A j Hi Hr); [lia|done]|].
    intros _ s' ->. wp_step. right. split_and!; [done|done|]. exists j, e. split_and!; [lia|done|].
    destruct (lock_lines_access rw r q j s e Hf) as [((i & Hlt & Hn) & _)|(_ & Hacc)].
    + right. by exists i.
    + left. by rewrite <- Hacc.
Qed.
End fast.

(** ** Main properties *)

(** The lock table of [n] idle entries, as [ocf_alock_init] leaves it. *)
Definition idle_lock (list_entries n : Z) (rqs : gmap Z req_lock) (m : list bool) : ocf_alock :=
  mkAlock n (zarray (Z.to_nat n) (fun _ => OCF_CACHE_LINE_ACCESS_IDLE))
    (zarray (Z.to_nat list_entries) (fun _ => [])) 0 rqs [] m.

Lemma idle_lock_inv list_entries n rqs m :
  0 < list_entries -> 0 <= n ->
  alock_inv list_entries (idle_lock list_entries n rqs m) (zarray (Z.to_nat n) (fun _ => (OCF_CACHE_LINE_ACCESS_IDLE, []))).
Proof.
  intros Hl Hn. split.
  - intros e a q [He [= -> ->]]%zarray_lookup. simpl. split_and!; [by apply zarray_lookup|done|done|].
    exists []. split; [|done]. apply zarray_lookup. split; [|done]. unfold _WAITERS_LIST_ITEM.
    pose proof (Z.mod_pos_bound e list_entries Hl). lia.
  - intros e. simpl. rewrite zarray_is_Some. lia.
  - intros e a q w [_ [= -> ->]]%zarray_lookup Hw. by apply elem_of_nil in Hw.
  - intros e a q [_ [= -> ->]]%zarray_lookup. by vm_compute.
  - intros e q [_ [= ->]]%zarray_lookup. done.
Qed.

(** C4: the lock table refines a table of read-write locks with queues.  From a
    table that represents [A], every sequence of calls whose callers keep to the
    rules (they release what they hold, and there is room for another reader)
    runs without a failed check, returns the results of the abstract table, ends
    in a table that represents the abstract outcome, and shows the requests
    exactly the grants of the abstract table, in order: a released entry goes to
    the front of its queue, either to one writer or to the readers up to the
    next writer, and an idle entry has no waiters. *)
Theorem lock_refines_rwlock (list_entries : Z) s A cs rs g Am' :
  alock_inv list_entries s A -> Forall (caller_ok s) cs ->
  spec_calls cs (A, mem s) = Some (rs, g, Am') ->
  exists s', run_calls (list_entries := list_entries) cs s = Some (rs, s') /\
    alock_inv list_entries s' Am'.1 /\ mem s' = Am'.2 /\ granted g s s'.
Proof.
  intros Hi Hok Hs. destruct (run_calls_spec _ _ _ _ _ _ Hi Hok Hs) as (rs' & s' & Hr & -> & Hrest).
  by exists s'.
Qed.

(** C27: mutual exclusion.  Count for an entry the locks the calls took
    immediately, those granted to waiters, less those released: starting with an
    idle entry, after every permitted sequence of calls there is one writer and
    no reader, or no writer and as many readers as the access word says. *)
Theorem lock_mutual_exclusion (list_entries : Z) s A cs rs g Am' e :
  alock_inv list_entries s A -> Forall (caller_ok s) cs ->
  spec_calls cs (A, mem s) = Some (rs, g, Am') -> A !! e = Some (OCF_CACHE_LINE_ACCESS_IDLE, []) ->
  exists s' a, run_calls (list_entries := list_entries) cs s = Some (rs, s') /\ granted g s s' /\
    access s' !! e = Some a /\
    (a = OCF_CACHE_LINE_ACCESS_WR /\ held e cs rs g = (1, 0) \/
     0 <= a < OCF_CACHE_LINE_ACCESS_WR /\ held e cs rs g = (0, a)).
Proof.
  intros Hi Hok Hs He. destruct (run_calls_spec _ _ _ _ _ _ Hi Hok Hs) as (rs' & s' & Hr & -> & Hi' & _ & Hg).
  destruct (held_calls _ _ _ _ _ _ _ _ _ Hi Hok Hs He) as (a & q & He' & Hw & Hrd).
  destruct (ai_entry _ _ _ Hi' _ _ _ He') as (Ha & Hb & _). exists s', a. split_and!; [done..|].
  change (holders OCF_CACHE_LINE_ACCESS_IDLE) with (0, 0) in *. unfold holders in *.
  destruct (held e cs rs g) as [hw hr]. cbn [fst snd] in Hw, Hrd. rewrite Z.add_0_l in Hw, Hrd. subst hw hr.
  destruct (Z.eqb_spec a OCF_CACHE_LINE_ACCESS_WR); [by left|right]. split; [lia|done].
Qed.

(** The fast path locks all or nothing.  When [ocf_cl_lock_line_fast]
    reports the lock as acquired, every line of the request that needs a lock
    was idle, is now held and is marked in the request; otherwise some line was
    busy (or is named twice by the request) and the whole state is unchanged. *)
Theorem lock_line_fast_all_or_nothing (list_entries rw r : Z) q s A :
  alock_inv list_entries s A -> req_ok s A r q ->
  exists ret s', ocf_cl_lock_line_fast list_entries r rw s = Some (ret, s') /\
    (ret = OCF_LOCK_ACQUIRED /\
      (forall i e, (i < Z.to_nat (core_line_count q))%nat -> needed q i = Some e ->
        access s !! e = Some OCF_CACHE_LINE_ACCESS_IDLE /\ access s' !! e = Some (lock_word rw) /\
        exists q', reqs s' !! r = Some q' /\ alock_status q' !! Z.of_nat i = Some true) /\
      (forall e, (forall i, (i < Z.to_nat (core_line_count q))%nat -> needed q i <> Some e) ->
        access s' !! e = access s !! e) /\
      waiters_lsts s' = waiters_lsts s /\ resumed s' = resumed s
     \/
     ret = OCF_LOCK_NOT_ACQUIRED /\ s' = s /\
      exists i e, (i < Z.to_nat (core_line_count q))%nat /\ needed q i = Some e /\
        (access s !! e <> Some OCF_CACHE_LINE_ACCESS_IDLE \/ exists j, (j < i)%nat /\ needed q j = Some e)).
Proof.
  intros Hi Hr. destruct (lock_line_fast_spec rw r q s A Hi Hr) as (ret & s' & Hrun & H).
  exists ret, s'. split; [done|]. destruct H as [(-> & -> & Hf)|H]; [left|by right].
  destruct (lock_lines_fields rw r q (Z.to_nat (core_line_count q)) s) as (_ & -> & _ & -> & _).
  destruct (lock_lines_req rw r q (Z.to_nat (core_line_count q)) s (ro_req _ _ _ _ Hr)) as (st & Hst & _ & Hlt).
  split_and!; [done| |intros e He|done|done].
  - intros i e Hlt' Hn. destruct (lock_lines_access rw r q _ s e Hf) as [(_ & H1 & H2)|(H1 & _)].
    + split_and!; [done|done|]. eexists. split; [done|]. simpl. by eapply Hlt.
    + exfalso. by eapply H1.
  - destruct (lock_lines_access rw r q _ s e Hf) as [((i & Hi' & Hn) & _)|(_ & H)]; [|done].
    exfalso. by eapply He.
Qed.

(** Two requests on two entries: the first writes entry 0, the second waits for
    it, both share entry 1 for reading. *)
Definition sample_req : req_lock :=
  mkReqLock (zarray 3 (fun _ => false)) 3 OCF_READ 3 (zarray 3 (fun i => (5, i))).
Definition sample_lock : ocf_alock :=
  idle_lock 2 4 {[ 1 := sample_req; 2 := sample_req ]} [true; true; false].
Definition sample_calls : list lock_call :=
  [CTryWr 0; CTryRd 0; CLock false 0 7 1 0; CLock false 0 7 2 0; CLock true 0 7 1 1;
   CUnlock true 0; CUnlock false 0; CUnlock false 0].

Lemma sample_callers : Forall (caller_ok sample_lock) sample_calls.
Proof.
  assert (forall r wr e i, (r = 1 \/ r = 2) -> 0 <= i < 3 -> waiter_ok sample_lock (waiter_of wr e 7 r i)) as H.
  { intros r wr e i Hr Hi. split_and!; [|done|destruct wr; [by right|by left]].
    exists sample_req. split; [destruct Hr as [-> | ->]; by vm_compute|]. simpl. by apply zarray_is_Some. }
  unfold sample_calls. repeat apply Forall_cons_2; simpl; try done; try (apply H; lia).
Qed.

Lemma lock_refines_rwlock_witness :
  exists s', run_calls (list_entries := 2) sample_calls sample_lock
      = Some ([true; false; true; true; false; true; true; true], s') /\ granted [waiter_of false 0 7 1 0; waiter_of false 0 7 2 0] sample_lock s'.
Proof.
  destruct (spec_calls sample_calls (zarray 4 (fun _ => (OCF_CACHE_LINE_ACCESS_IDLE, [])), mem sample_lock))
    as [[[rs g] Am']|] eqn:Hs; [|vm_compute in Hs; discriminate].
  destruct (lock_refines_rwlock 2 sample_lock (zarray 4 (fun _ => (OCF_CACHE_LINE_ACCESS_IDLE, [])))
    sample_calls rs g Am' (idle_lock_inv 2 4 _ _ eq_refl ltac:(lia)) sample_callers Hs) as (s' & Hr & _ & _ & Hg).
  vm_compute in Hs. injection Hs as <- <- _. by exists s'.
Defined.

Lemma lock_mutual_exclusion_witness :
  exists s' a, run_calls (list_entries := 2) sample_calls sample_lock
      = Some ([true; false; true; true; false; true; true; true], s') /\ access s' !! 0 = Some a /\ (a = OCF_CACHE_LINE_ACCESS_WR \/ 0 <= a < OCF_CACHE_LINE_ACCESS_WR).
Proof.
  destruct (spec_calls sample_calls (zarray 4 (fun _ => (OCF_CACHE_LINE_ACCESS_IDLE, [])), mem sample_lock))
    as [[[rs g] Am']|] eqn:Hs; [|vm_compute in Hs; discriminate].
  destruct (lock_mutual_exclusion 2 sample_lock (zarray 4 (fun _ => (OCF_CACHE_LINE_ACCESS_IDLE, [])))
    sample_calls rs g Am' 0 (idle_lock_inv 2 4 _ _ eq_refl ltac:(lia)) sample_callers Hs)
    as (s' & a & Hr & _ & Ha & H); [by vm_compute|].
  vm_compute in Hs. injection Hs as <- <- _. exists s', a. split_and!; [done|done|tauto].
Defined.

Lemma lock_line_fast_all_or_nothing_witness :
  exists ret s', ocf_cl_lock_line_fast 2 1 OCF_WRITE sample_lock = Some (ret, s').
Proof.
  destruct (lock_line_fast_all_or_nothing 2 OCF_WRITE 1 sample_req sample_lock
    (zarray 4 (fun _ => (OCF_CACHE_LINE_ACCESS_IDLE, [])))) as (ret & s' & H & _); [by apply idle_lock_inv| |by exists ret, s'].
  assert (forall i e, needed sample_req i = Some e -> Z.of_nat i < 3 /\ e = Z.of_nat i) as Hn.
  { intros i e. unfold needed. destruct (req_map sample_req !! Z.of_nat i) as [[st e']|] eqn:Hm; [|done].
    simpl in Hm. apply zarray_lookup in Hm as [Hi [= -> ->]]. simpl. intros [= <-]. split; [lia|done]. }
  split; [by vm_compute|by vm_compute|..].
  - intros i Hi. apply zarray_is_Some. simpl in Hi. lia.
  - intros i e [Hi _]%Hn. apply zarray_lookup. split; [lia|done].
  - intros i e [Hi ->]%Hn. apply zarray_is_Some. lia.
Defined.

(** Two requests on the same three entries; the second waiter of the second
    request cannot be allocated. *)
Definition held_req : req_lock :=
  mkReqLock (zarray 3 (fun _ => false)) 0 OCF_WRITE 3 (list_to_map [(0, (5, 2)); (1, (5, 1)); (2, (5, 3))]).
Definition stale_start : ocf_alock := idle_lock 8 4 {[ 1 := held_req; 2 := held_req ]} [true; false].

(** A failed asynchronous lock can leave its waiter behind.  Request 2 asks
    for entries 2 and 1 while request 1 holds both; the second waiter cannot be
    allocated, the call returns [-OCF_ERR_NO_MEM], and the waiter it queued for
    entry 2 is still there: the error loop of [ocf_cl_lock_line_slow] passes the
    index where the entry belongs and the entry where the index belongs.  When
    request 1 releases entry 2, the lock goes to the request that failed. *)
Theorem lock_slow_failure_leaves_waiter :
  exists s1 s2 s3 q,
    ocf_req_async_lock_wr 8 1 7 stale_start = Some (OCF_LOCK_ACQUIRED, s1) /\
    ocf_req_async_lock_wr 8 2 9 s1 = Some (- OCF_ERR_NO_MEM, s2) /\
    waiters_lsts s2 !! 2 = Some [mkWaiter 2 0 2 9 OCF_WRITE] /\
    ocf_cache_line_unlock_wr 8 2 s2 = Some (tt, s3) /\
    access s3 !! 2 = Some OCF_CACHE_LINE_ACCESS_WR /\
    reqs s3 !! 2 = Some q /\ alock_status q !! 0 = Some true /\ lock_remaining q = -1.
Proof.
  pose (final := fun A (m : M ocf_alock A) s => default stale_start (snd <$> m s)).
  pose (s1 := final _ (ocf_req_async_lock_wr 8 1 7) stale_start).
  pose (s2 := final _ (ocf_req_async_lock_wr 8 2 9) s1).
  pose (s3 := final _ (ocf_cache_line_unlock_wr 8 2) s2).
  exists s1, s2, s3, (default sample_req (reqs s3 !! 2)).
  split_and!; vm_compute; reflexivity.
Qed.
