(* ===== verification/Nhit.v ===== *)
(** The nhit promotion policy: ocf/src/promotion/nhit/nhit_hash.c and nhit.c.

    Recently used core lines live in a ring of slots; the slots are also linked
    into hash buckets.  The locks of the buckets are recorded as a sequence of
    lock operations next to the data. *)

From S2P Require Import Prelude Dll Meta MetaLock.

Definition HASH_PRIME : Z := 4099.

(** [struct nhit_list_elem] *)
Record nhit_list_elem := mkElem {
  core_lba : Z;
  counter : Z;
  coll_prev : Z;
  coll_next : Z;
  core_id : Z;
  valid : bool;
}.

Definition with_coll_prev v (e : nhit_list_elem) := mkElem (core_lba e) (counter e) v (coll_next e) (core_id e) (valid e).
Definition with_coll_next v (e : nhit_list_elem) := mkElem (core_lba e) (counter e) (coll_prev e) v (core_id e) (valid e).
Definition with_core_id v (e : nhit_list_elem) := mkElem (core_lba e) (counter e) (coll_prev e) (coll_next e) v (valid e).
Definition with_valid v (e : nhit_list_elem) := mkElem (core_lba e) (counter e) (coll_prev e) (coll_next e) (core_id e) v.
Definition with_counter v (e : nhit_list_elem) := mkElem (core_lba e) v (coll_prev e) (coll_next e) (core_id e) (valid e).

#[export] Program Instance nhit_node : DllNode nhit_list_elem :=
  {| n_prev := coll_prev; n_next := coll_next; set_prev := with_coll_prev; set_next := with_coll_next |}.
Solve All Obligations with done.

(** [struct nhit_hash]; the operations on its bucket locks are in [lock_ops]. *)
Record nhit_hash := mkNhit {
  hash_entries : Z;
  rb_entries : Z;
  hash_map : gmap Z Z;
  ring_buffer : gmap Z nhit_list_elem;
  rb_pointer : Z;
  lock_ops : list lock_op;
}.

Definition set_hash_map f (s : nhit_hash) :=
  mkNhit (hash_entries s) (rb_entries s) (f (hash_map s)) (ring_buffer s) (rb_pointer s) (lock_ops s).
Definition set_ring f (s : nhit_hash) :=
  mkNhit (hash_entries s) (rb_entries s) (hash_map s) (f (ring_buffer s)) (rb_pointer s) (lock_ops s).
Definition set_rb_pointer v (s : nhit_hash) :=
  mkNhit (hash_entries s) (rb_entries s) (hash_map s) (ring_buffer s) v (lock_ops s).
Definition set_lock_ops l (s : nhit_hash) :=
  mkNhit (hash_entries s) (rb_entries s) (hash_map s) (ring_buffer s) (rb_pointer s) l.

(** ** Access *)

Definition rd_slot (x : Z) : M nhit_hash nhit_list_elem := fun s => (fun e => (e, s)) <$> ring_buffer s !! x.
Definition upd_slot (x : Z) (f : nhit_list_elem -> nhit_list_elem) : M nhit_hash unit := fun s =>
  match ring_buffer s !! x with Some _ => Some (tt, set_ring (alter f x) s) | None => None end.
Definition rd_bucket (h : Z) : M nhit_hash Z := fun s => (fun x => (x, s)) <$> hash_map s !! h.
Definition wr_bucket (h v : Z) : M nhit_hash unit := fun s =>
  match hash_map s !! h with Some _ => Some (tt, set_hash_map <[h := v]> s) | None => None end.

(** An operation on the lock of a bucket; the bucket must exist. *)
Definition hash_lock (op : lock_id -> lock_op) (h : Z) : M nhit_hash unit :=
  _ ← rd_bucket h;
  zoom lock_ops set_lock_ops (emit (op (LHash h))).

(** ** nhit_hash.c *)

Definition calculate_hash_buckets (hash_size : Z) : Z :=
  u64 (u64 (OCF_DIV_ROUND_UP (hash_size `div` 4) HASH_PRIME * HASH_PRIME) - 1).

Definition hash_function (core_id core_lba limit : Z) : Z :=
  if core_id =? OCF_CORE_ID_INVALID then u32 limit
  else u32 (u64 (u64 (core_lba * HASH_PRIME) + core_id) `mod` limit).

(** The loop of [core_line_lookup]; out of fuel stands for a loop that does
    not end. *)
Fixpoint line_lookup_loop (fuel : nat) (cid lba cur : Z) : M nhit_hash Z :=
  n ← gets rb_entries;
  if cur =? n then mret n
  else
    match fuel with
    | O => bug
    | S fuel =>
        e ← rd_slot cur;
        if (core_lba e =? lba) && (core_id e =? cid) then mret cur
        else line_lookup_loop fuel cid lba (coll_next e)
    end.

Definition core_line_lookup (cid lba : Z) : M nhit_hash Z :=
  H ← gets hash_entries;
  n ← gets rb_entries;
  cur ← rd_bucket (hash_function cid lba H);
  line_lookup_loop (Z.to_nat n) cid lba cur.

Definition get_rb_slot : M nhit_hash (bool * Z) :=
  slot ← gets rb_pointer;
  e ← rd_slot slot;
  let result := valid e in
  upd_slot slot (with_valid false);;
  n ← gets rb_entries;
  modify (set_rb_pointer ((slot + 1) `mod` n));;
  mret (result, slot).

Definition commit_rb_slot (slot : Z) : M nhit_hash unit := upd_slot slot (with_valid true).

Definition collision_remove (slot_id : Z) : M nhit_hash unit :=
  slot ← rd_slot slot_id;
  H ← gets hash_entries;
  n ← gets rb_entries;
  let hash := hash_function (core_id slot) (core_lba slot) H in
  if core_id slot =? OCF_CORE_ID_INVALID then mret tt
  else
    upd_slot slot_id (with_core_id OCF_CORE_ID_INVALID);;
    (if negb (coll_prev slot =? n) then upd_slot (coll_prev slot) (with_coll_next (coll_next slot)) else mret tt);;
    slot ← rd_slot slot_id;
    (if negb (coll_next slot =? n) then upd_slot (coll_next slot) (with_coll_prev (coll_prev slot)) else mret tt);;
    slot ← rd_slot slot_id;
    head ← rd_bucket hash;
    if head =? slot_id then wr_bucket hash (coll_next slot) else mret tt.

Definition collision_insert_new (slot_id cid lba : Z) : M nhit_hash unit :=
  H ← gets hash_entries;
  n ← gets rb_entries;
  let hash := hash_function cid lba H in
  _ ← rd_slot slot_id;
  head ← rd_bucket hash;
  upd_slot slot_id (fun e => mkElem lba 1 (u32 n) head cid (valid e));;
  head ← rd_bucket hash;
  (if negb (head =? n) then upd_slot head (with_coll_prev (u32 slot_id)) else mret tt);;
  wr_bucket hash (u32 slot_id).

Definition write_lock_hashes (core_id1 core_lba1 core_id2 core_lba2 : Z) : M nhit_hash unit :=
  H ← gets hash_entries;
  let hash1 := hash_function core_id1 core_lba1 H in
  let hash2 := hash_function core_id2 core_lba2 H in
  let lock_order0 := Z.min hash1 hash2 in
  let lock_order1 := Z.max hash1 hash2 in
  (if negb (lock_order0 =? H) then hash_lock (Down WR) lock_order0 else mret tt);;
  if negb (lock_order1 =? H) && negb (lock_order0 =? lock_order1) then hash_lock (Down WR) lock_order1
  else mret tt.

Definition write_unlock_hashes (core_id1 core_lba1 core_id2 core_lba2 : Z) : M nhit_hash unit :=
  H ← gets hash_entries;
  let hash1 := hash_function core_id1 core_lba1 H in
  let hash2 := hash_function core_id2 core_lba2 H in
  (if negb (hash1 =? H) then hash_lock (Up WR) hash1 else mret tt);;
  if negb (hash2 =? H) && negb (hash1 =? hash2) then hash_lock (Up WR) hash2
  else mret tt.

Definition nhit_hash_insert (cid lba : Z) : M nhit_hash unit :=
  '(ok, slot_id) ← get_rb_slot;
  if negb ok then mret tt
  else
    slot ← rd_slot slot_id;
    let slot_core_id := core_id slot in
    let slot_core_lba := core_lba slot in
    write_lock_hashes cid lba slot_core_id slot_core_lba;;
    collision_remove slot_id;;
    collision_insert_new slot_id cid lba;;
    write_unlock_hashes cid lba slot_core_id slot_core_lba;;
    commit_rb_slot slot_id.

(** The counter of the core line after it was increased, if it is tracked. *)
Definition nhit_hash_query (cid lba : Z) : M nhit_hash (option Z) :=
  H ← gets hash_entries;
  n ← gets rb_entries;
  let hash := hash_function cid lba H in
  hash_lock (Down RD) hash;;
  rb_idx ← core_line_lookup cid lba;
  if rb_idx =? n then
    hash_lock (Up RD) hash;;
    mret None
  else
    upd_slot rb_idx (fun e => with_counter (s32 (counter e + 1)) e);;
    e ← rd_slot rb_idx;
    hash_lock (Up RD) hash;;
    mret (Some (counter e)).

Definition nhit_hash_set_occurences (cid lba occurences : Z) : M nhit_hash unit :=
  H ← gets hash_entries;
  n ← gets rb_entries;
  let hash := hash_function cid lba H in
  hash_lock (Down RD) hash;;
  rb_idx ← core_line_lookup cid lba;
  if rb_idx =? n then hash_lock (Up RD) hash
  else
    upd_slot rb_idx (with_counter occurences);;
    hash_lock (Up RD) hash.

(** ** nhit.c *)

Definition OCF_NHIT_MIN_THRESHOLD : Z := 2.
Definition OCF_NHIT_MAX_THRESHOLD : Z := 1000.
Definition OCF_NHIT_THRESHOLD_DEFAULT : Z := 3.
Definition OCF_NHIT_MIN_TRIGGER : Z := 0.
Definition OCF_NHIT_MAX_TRIGGER : Z := 100.
Definition OCF_NHIT_TRIGGER_DEFAULT : Z := 80.
Definition NHIT_MAPPING_RATIO : Z := 2.

(** [struct nhit_promotion_policy_config] *)
Record nhit_promotion_policy_config := mkNhitConfig {
  insertion_threshold : Z;
  trigger_threshold : Z;
}.

(** [enum ocf_nhit_param]; a parameter number is eight bits wide. *)
Definition ocf_nhit_insertion_threshold : Z := 0.
Definition ocf_nhit_trigger_threshold : Z := 1.

Definition nhit_setup : nhit_promotion_policy_config :=
  mkNhitConfig OCF_NHIT_THRESHOLD_DEFAULT OCF_NHIT_TRIGGER_DEFAULT.

Definition nhit_set_param (param_id param_value : Z) (cfg : nhit_promotion_policy_config) :
    Z * nhit_promotion_policy_config :=
  if param_id =? ocf_nhit_insertion_threshold then
    if (OCF_NHIT_MIN_THRESHOLD <=? param_value) && (param_value <=? OCF_NHIT_MAX_THRESHOLD)
    then (0, mkNhitConfig param_value (trigger_threshold cfg))
    else (- OCF_ERR_INVAL, cfg)
  else if param_id =? ocf_nhit_trigger_threshold then
    if (OCF_NHIT_MIN_TRIGGER <=? param_value) && (param_value <=? OCF_NHIT_MAX_TRIGGER)
    then (0, mkNhitConfig (insertion_threshold cfg) param_value)
    else (- OCF_ERR_INVAL, cfg)
  else (- OCF_ERR_INVAL, cfg).

(** The result and the value written, if any. *)
Definition nhit_get_param (param_id : Z) (cfg : nhit_promotion_policy_config) : Z * option Z :=
  if param_id =? ocf_nhit_insertion_threshold then (0, Some (insertion_threshold cfg))
  else if param_id =? ocf_nhit_trigger_threshold then (0, Some (trigger_threshold cfg))
  else (- OCF_ERR_INVAL, None).

Definition core_line_purge (cid lba : Z) : M nhit_hash unit := nhit_hash_set_occurences cid lba 0.

(** The core lines of the request's map, in order. *)
Fixpoint nhit_req_purge (lines : list (Z * Z)) : M nhit_hash unit :=
  match lines with
  | [] => mret tt
  | (cid, lba) :: lines => core_line_purge cid lba;; nhit_req_purge lines
  end.

(** The comparison converts the counter to unsigned. *)
Definition core_line_should_promote (cfg : nhit_promotion_policy_config) (cid lba : Z) : M nhit_hash bool :=
  hit ← nhit_hash_query cid lba;
  match hit with
  | Some counter => mret (insertion_threshold cfg <=? u32 counter)
  | None => nhit_hash_insert cid lba;; mret false
  end.

Fixpoint should_promote_loop (cfg : nhit_promotion_policy_config) (lines : list (Z * Z)) (result : bool) :
    M nhit_hash bool :=
  match lines with
  | [] => mret result
  | (cid, lba) :: lines =>
      b ← core_line_should_promote cfg cid lba;
      should_promote_loop cfg lines (if negb b then false else result)
  end.

(** [entries] is the size of the collision table, [num_free] the size of the
    free list, [mapped] what [ocf_engine_mapped_count] gives. *)
Definition nhit_req_should_promote (cfg : nhit_promotion_policy_config) (entries num_free cachelines mapped : Z)
    (lines : list (Z * Z)) : M nhit_hash bool :=
  let occupied_cachelines := u64 (u32 (entries - num_free)) in
  if occupied_cachelines <? OCF_DIV_ROUND_UP (u64 (trigger_threshold cfg * cachelines)) 100 then mret true
  else
    result ← should_promote_loop cfg lines true;
    mret (result || negb (mapped =? 0)).

(** ** Weakest preconditions of the accesses *)

Lemma wp_rd_slot x e Q s : ring_buffer s !! x = Some e -> Q e s -> wp (rd_slot x) Q s.
Proof. intros He HQ. exists e, s. unfold rd_slot. by rewrite He. Qed.
Lemma wp_upd_slot x f Q s : is_Some (ring_buffer s !! x) -> Q tt (set_ring (alter f x) s) -> wp (upd_slot x f) Q s.
Proof. intros [e He] HQ. eexists _, _. split; [|done]. unfold upd_slot. by rewrite He. Qed.
Lemma wp_rd_bucket h x Q s : hash_map s !! h = Some x -> Q x s -> wp (rd_bucket h) Q s.
Proof. intros He HQ. exists x, s. unfold rd_bucket. by rewrite He. Qed.
Lemma wp_wr_bucket h v Q s :
  is_Some (hash_map s !! h) -> Q tt (set_hash_map <[h := v]> s) -> wp (wr_bucket h v) Q s.
Proof. intros [e He] HQ. eexists _, _. split; [|done]. unfold wr_bucket. by rewrite He. Qed.
Lemma wp_hash_lock op h Q s :
  is_Some (hash_map s !! h) -> Q tt (set_lock_ops (lock_ops s ++ [op (LHash h)]) s) -> wp (hash_lock op h) Q s.
Proof. intros [e He] HQ. unfold hash_lock. wp_step. eapply wp_rd_bucket; [done|]. wp_step. exact (wp_modify _ _ _ HQ). Qed.

(** ** The buckets and the tracked core lines *)

(** A tracked core line: its slot, its key (core id and line) and its counter. *)
Record entry := mkEntry { e_slot : Z; e_key : Z * Z; e_count : Z }.

Definition hash_of (H : Z) (k : Z * Z) : Z := hash_function k.1 k.2 H.

(** The slots of the bucket [h], newest first. *)
Definition bucket_of (H h : Z) (L : list entry) : list entry := filter (fun e => hash_of H (e_key e) = h) L.
Definition slots (L : list entry) : list Z := e_slot <$> L.

Definition key_ok (k : Z * Z) : Prop := k.1 <> OCF_CORE_ID_INVALID.

Definition sdata (a : nhit_list_elem) : Z * Z * Z := (core_id a, core_lba a, counter a).

Record core_inv (s : nhit_hash) (L : list entry) : Prop := {
  c_H : 0 < hash_entries s < 2 ^ 32;
  c_n : 0 < rb_entries s < 2 ^ 32;
  c_dom x : is_Some (ring_buffer s !! x) <-> 0 <= x < rb_entries s;
  c_map h : is_Some (hash_map s !! h) <-> 0 <= h < hash_entries s;
  c_elem e : e ∈ L -> sdata <$> ring_buffer s !! e_slot e = Some (e_key e, e_count e);
  c_free x : 0 <= x < rb_entries s -> x ∉ slots L -> core_id <$> ring_buffer s !! x = Some OCF_CORE_ID_INVALID;
  c_key e : e ∈ L -> key_ok (e_key e);
  c_bucket h : 0 <= h < hash_entries s ->
    hash_map s !! h = Some (hd_or (rb_entries s) (slots (bucket_of (hash_entries s) h L))) /\
    dll (ring_buffer s) (rb_entries s) (slots (bucket_of (hash_entries s) h L));
  c_nodup : NoDup (slots L);
}.

Lemma nhit_hash_range H k : 0 < H < 2 ^ 32 -> key_ok k -> 0 <= hash_of H k < H.
Proof.
  intros HH Hk. unfold hash_of, hash_function. destruct (Z.eqb_spec k.1 OCF_CORE_ID_INVALID); [done|].
  pose proof (Z.mod_pos_bound (u64 (u64 (k.2 * HASH_PRIME) + k.1)) H ltac:(lia)). rewrite u32_small; lia.
Qed.

Lemma elem_slots e L : e ∈ L -> e_slot e ∈ slots L.
Proof. intros He. apply list_elem_of_fmap. by exists e. Qed.

Lemma slot_elem s L e : core_inv s L -> e ∈ L -> exists a, ring_buffer s !! e_slot e = Some a /\
  core_id a = (e_key e).1 /\ core_lba a = (e_key e).2 /\ counter a = e_count e.
Proof.
  intros Hi He. pose proof (c_elem _ _ Hi e He) as Hd. destruct (ring_buffer s !! e_slot e) as [a|]; [|done].
  exists a. split; [done|]. simpl in Hd. destruct (e_key e). unfold sdata in Hd. simpl. by injection Hd.
Qed.

Lemma slot_range s L e : core_inv s L -> e ∈ L -> 0 <= e_slot e < rb_entries s.
Proof. intros Hi He. apply (c_dom _ _ Hi). destruct (slot_elem _ _ _ Hi He) as (a & -> & _). by eexists. Qed.

(** The newest tracked entry of a core line. *)
Definition find_key (k : Z * Z) (L : list entry) : option entry := head (filter (fun e => e_key e = k) L).

Lemma find_key_bucket H h k L : hash_of H k = h -> find_key k (bucket_of H h L) = find_key k L.
Proof.
  intros Hh. unfold find_key, bucket_of. f_equal. induction L as [|e L IH]; [done|].
  destruct (decide (e_key e = k)) as [Hk|Hk].
  - assert (hash_of H (e_key e) = h) as Hh' by by rewrite Hk.
    rewrite (filter_cons_True (fun e => hash_of H (e_key e) = h)), !(filter_cons_True (fun e => e_key e = k)) by done.
    by rewrite IH.
  - rewrite (filter_cons_False (fun e => e_key e = k) e L) by done. destruct (decide (hash_of H (e_key e) = h)).
    + rewrite (filter_cons_True (fun e => hash_of H (e_key e) = h)) by done. by rewrite filter_cons_False.
    + by rewrite (filter_cons_False (fun e => hash_of H (e_key e) = h)).
Qed.

Lemma line_lookup_loop_spec s L F k l1 fuel :
  core_inv s L -> (forall e, e ∈ l1 ++ F -> e ∈ L) -> dll (ring_buffer s) (rb_entries s) (slots (l1 ++ F)) ->
  (length F <= fuel)%nat ->
  wp (line_lookup_loop fuel k.1 k.2 (hd_or (rb_entries s) (slots F)))
    (fun r s' => s' = s /\ r = default (rb_entries s) (e_slot <$> find_key k F)) s.
Proof.
  intros Hi. revert l1 fuel. induction F as [|e F IH]; intros l1 fuel Hin Hd Hfuel.
  - destruct fuel; cbn [line_lookup_loop]; wp_step; wp_step; unfold hd_or; simpl; rewrite Z.eqb_refl; by wp_step.
  - destruct fuel as [|fuel]; [simpl in Hfuel; lia|]. cbn [line_lookup_loop]. wp_step. wp_step.
    change (hd_or (rb_entries s) (slots (e :: F))) with (e_slot e).
    assert (e ∈ L) as He by (apply Hin, elem_of_app; right; by left).
    pose proof (slot_range _ _ _ Hi He) as Hr. rewrite (proj2 (Z.eqb_neq _ _)) by lia.
    destruct (slot_elem _ _ _ Hi He) as (a & Ha & Hcid & Hlba & _).
    wp_step. eapply wp_rd_slot; [done|]. rewrite Hcid, Hlba. unfold find_key. destruct (decide (e_key e = k)) as [Hk|Hk].
    + rewrite filter_cons_True by done. rewrite Hk, !Z.eqb_refl. simpl. by wp_step.
    + rewrite filter_cons_False by done.
      replace (((e_key e).2 =? k.2) && ((e_key e).1 =? k.1)) with false; cycle 1.
      { symmetry. apply andb_false_iff. destruct (Z.eqb_spec (e_key e).2 k.2); [right|by left]. apply Z.eqb_neq.
        intros ?. apply Hk. destruct (e_key e), k. simpl in *. congruence. }
      pose proof (dll_seg _ _ _ Hd) as Hs. unfold slots in Hs. rewrite fmap_app, fmap_cons in Hs.
      apply seg_links, links_Some in Hs as (a' & Ha' & _ & Hn). rewrite Ha in Ha'. injection Ha' as <-.
      change (n_next a) with (coll_next a) in Hn. rewrite Hn.
      apply (IH (l1 ++ [e])); [by rewrite <- app_assoc|by rewrite <- app_assoc|simpl in Hfuel; lia].
Qed.

Lemma bucket_sub H h L e : e ∈ bucket_of H h L -> e ∈ L /\ hash_of H (e_key e) = h.
Proof. unfold bucket_of. rewrite list_elem_of_filter. tauto. Qed.

Lemma core_length s L : core_inv s L -> Z.of_nat (length L) <= rb_entries s.
Proof.
  intros Hi. rewrite <- (length_fmap e_slot). pose proof (c_n _ _ Hi).
  assert (Z.of_nat (length (slots L)) <= Z.max 0 (rb_entries s)); [|unfold slots in *; lia].
  apply NoDup_range_length; [apply (c_nodup _ _ Hi)|]. intros x (e & -> & He)%list_elem_of_fmap. by eapply slot_range.
Qed.

Lemma core_line_lookup_spec s L k : core_inv s L -> key_ok k ->
  wp (core_line_lookup k.1 k.2) (fun r s' => s' = s /\ r = default (rb_entries s) (e_slot <$> find_key k L)) s.
Proof.
  intros Hi Hk. unfold core_line_lookup. do 5 wp_step.
  pose proof (nhit_hash_range _ k (c_H _ _ Hi) Hk) as Hr. destruct (c_bucket _ _ Hi _ Hr) as [Hm Hd].
  eapply wp_rd_bucket; [done|]. rewrite <- (find_key_bucket (hash_entries s) (hash_of (hash_entries s) k)) by done.
  eapply (line_lookup_loop_spec s L _ k []); [done| |done|].
  - intros e He. by apply bucket_sub in He as [? _].
  - pose proof (core_length _ _ Hi). pose proof (length_filter (fun e => hash_of (hash_entries s) (e_key e) = hash_of (hash_entries s) k) L).
    unfold bucket_of. lia.
Qed.

(** ** Insertion and removal *)

(** Slots other than those of the list keep the flag that says whether they may
    be reused; the pointer and the lock operations do not change. *)
Definition core_frame (s s' : nhit_hash) : Prop :=
  (forall x, valid <$> ring_buffer s' !! x = valid <$> ring_buffer s !! x) /\
  rb_pointer s' = rb_pointer s /\ lock_ops s' = lock_ops s /\
  hash_entries s' = hash_entries s /\ rb_entries s' = rb_entries s.

Lemma core_frame_trans s1 s2 s3 : core_frame s1 s2 -> core_frame s2 s3 -> core_frame s1 s3.
Proof.
  intros (A1 & A2 & A3 & A4 & A5) (B1 & B2 & B3 & B4 & B5). split_and!; [intros x; by rewrite B1|congruence..].
Qed.

Lemma bucket_app H h L1 L2 : bucket_of H h (L1 ++ L2) = bucket_of H h L1 ++ bucket_of H h L2.
Proof. apply filter_app. Qed.
Lemma bucket_cons_eq H h e L : hash_of H (e_key e) = h -> bucket_of H h (e :: L) = e :: bucket_of H h L.
Proof. intros Hh. unfold bucket_of. by rewrite filter_cons_True. Qed.
Lemma bucket_cons_ne H h e L : hash_of H (e_key e) <> h -> bucket_of H h (e :: L) = bucket_of H h L.
Proof. intros Hh. unfold bucket_of. by rewrite filter_cons_False. Qed.
Lemma slots_app L1 L2 : slots (L1 ++ L2) = slots L1 ++ slots L2.
Proof. apply fmap_app. Qed.

Lemma bucket_slots_sub H h L x : x ∈ slots (bucket_of H h L) -> x ∈ slots L.
Proof. intros (e & -> & [He _]%bucket_sub)%list_elem_of_fmap. by apply elem_slots. Qed.

(** Slots of one bucket are not in another. *)
Lemma bucket_disjoint s L h h' x : core_inv s L ->
  x ∈ slots (bucket_of (hash_entries s) h L) -> x ∈ slots (bucket_of (hash_entries s) h' L) -> h = h'.
Proof.
  intros Hi (e & -> & [He Hh]%bucket_sub)%list_elem_of_fmap (e' & Heq & [He' Hh']%bucket_sub)%list_elem_of_fmap.
  destruct (slot_elem _ _ _ Hi He) as (a & Ha & Hc & Hl & _).
  destruct (slot_elem _ _ _ Hi He') as (a' & Ha' & Hc' & Hl' & _).
  rewrite Heq, Ha' in Ha. injection Ha as ->. rewrite <- Hh, <- Hh'. f_equal.
  destruct (e_key e), (e_key e'). simpl in *. congruence.
Qed.

Lemma sdata_relink (m : gmap Z nhit_list_elem) l1 l2 v u x :
  sdata <$> relink_prev l2 v (relink_next l1 u m) !! x = sdata <$> m !! x.
Proof. by apply relink_field. Qed.
Lemma valid_relink (m : gmap Z nhit_list_elem) l1 l2 v u x :
  valid <$> relink_prev l2 v (relink_next l1 u m) !! x = valid <$> m !! x.
Proof. by apply relink_field. Qed.
Lemma core_id_of_sdata (m m' : gmap Z nhit_list_elem) x y :
  sdata <$> m' !! x = sdata <$> m !! y -> core_id <$> m' !! x = core_id <$> m !! y.
Proof. destruct (m' !! x) as [a|], (m !! y) as [b|]; simpl; try done. unfold sdata. intros [= -> _ _]. done. Qed.

Lemma links_core_id (m : gmap Z nhit_list_elem) v x y : links (alter (with_core_id v) y m) x = links m x.
Proof. unfold links. rewrite lookup_alter. case_decide; [subst|done]. by destruct (m !! x). Qed.

(** The state after unlinking an entry, in terms of its maps. *)
Lemma inv_unlink s s' L1 e L2 :
  let H := hash_entries s in let n := rb_entries s in let h := hash_of H (e_key e) in
  let l1 := slots (bucket_of H h L1) in let l2 := slots (bucket_of H h L2) in
  core_inv s (L1 ++ e :: L2) ->
  ring_buffer s' = relink_prev l2 (last_or n l1) (relink_next l1 (hd_or n l2)
    (alter (with_core_id OCF_CORE_ID_INVALID) (e_slot e) (ring_buffer s))) ->
  hash_map s' = <[h := hd_or n (l1 ++ l2)]> (hash_map s) ->
  hash_entries s' = H -> rb_entries s' = n -> rb_pointer s' = rb_pointer s -> lock_ops s' = lock_ops s ->
  core_inv s' (L1 ++ L2) /\ core_frame s s'.
Proof.
  intros H n h l1 l2 Hi Hring Hmap HH Hn Hp Hlk.
  assert (e ∈ L1 ++ e :: L2) as He by (apply elem_of_app; right; by left).
  pose proof (nhit_hash_range H _ (c_H _ _ Hi) (c_key _ _ Hi e He)) as Hh. fold h in Hh.
  pose proof (c_nodup _ _ Hi) as Hnd. rewrite slots_app in Hnd. simpl in Hnd.
  assert (e_slot e ∉ slots (L1 ++ L2)) as Hnin.
  { rewrite slots_app. apply NoDup_app in Hnd as (_ & Hd & [Hx _]%NoDup_cons).
    intros [Hx1|Hx2]%elem_of_app; [|done]. apply (Hd _ Hx1). by left. }
  assert (forall x, x <> e_slot e -> sdata <$> ring_buffer s' !! x = sdata <$> ring_buffer s !! x) as Hdata.
  { intros x Hx. rewrite Hring, sdata_relink. by rewrite lookup_alter_ne. }
  destruct (c_bucket _ _ Hi h Hh) as [Hhead Hdll].
  rewrite bucket_app, bucket_cons_eq in Hhead, Hdll by done. rewrite slots_app in Hhead, Hdll. simpl in Hhead, Hdll.
  fold n l1 l2 in Hhead, Hdll. split; [split|].
  - rewrite HH. apply (c_H _ _ Hi).
  - rewrite Hn. apply (c_n _ _ Hi).
  - intros x. rewrite Hn, Hring, relink_dom, is_Some_alter. apply (c_dom _ _ Hi).
  - intros h'. rewrite HH, Hmap, insert_is_Some'; [apply (c_map _ _ Hi)|by eexists].
  - intros e' He'. rewrite Hdata; [apply (c_elem _ _ Hi); set_solver|].
    intros Heq. apply Hnin. rewrite <- Heq. by apply elem_slots.
  - intros x Hx Hxn. rewrite Hn in Hx. destruct (decide (x = e_slot e)) as [->|Hne].
    + destruct (slot_elem _ _ _ Hi He) as (a & Ha & _).
      assert (sdata <$> ring_buffer s' !! e_slot e = Some (OCF_CORE_ID_INVALID, core_lba a, counter a)) as Hs.
      { by rewrite Hring, sdata_relink, lookup_alter_eq, Ha. }
      destruct (ring_buffer s' !! e_slot e); [|done]. simpl in *. unfold sdata in Hs. by injection Hs as -> _ _.
    + rewrite (core_id_of_sdata (ring_buffer s) (ring_buffer s') x x (Hdata x Hne)). apply (c_free _ _ Hi); [done|].
      rewrite slots_app in Hxn |- *. simpl. set_solver.
  - intros e' He'. apply (c_key _ _ Hi). set_solver.
  - intros h'. rewrite HH, Hn, Hmap. intros Hh'. rewrite bucket_app, slots_app. destruct (decide (h = h')) as [<-|Hne].
    + rewrite lookup_insert_eq. split; [done|]. rewrite Hring. apply dll_unlink with (e_slot e).
      eapply dll_frame; [|exact Hdll]. intros x _. apply links_core_id.
    + rewrite lookup_insert_ne by done. destruct (c_bucket _ _ Hi h' Hh') as [Hhd' Hd'].
      rewrite bucket_app, bucket_cons_ne, slots_app in Hhd', Hd' by done. split; [done|].
      eapply dll_frame; [|exact Hd']. intros x Hx. rewrite Hring. unfold links.
      assert (x ∉ l1 ++ e_slot e :: l2) as Hxn.
      { intros Hx'. apply Hne. apply (bucket_disjoint s (L1 ++ e :: L2) _ _ x Hi).
        - rewrite bucket_app, bucket_cons_eq, slots_app by done. exact Hx'.
        - rewrite bucket_app, bucket_cons_ne, slots_app by done. exact Hx. }
      rewrite relink_prev_lookup_ne, relink_next_lookup_ne by set_solver.
      rewrite lookup_alter_ne by set_solver. done.
  - rewrite slots_app. apply NoDup_app in Hnd as (H1 & H2 & [_ H3]%NoDup_cons). apply NoDup_app. split_and!; [done| |done].
    intros x Hx Hx2. apply (H2 x Hx). by right.
  - split_and!; try done. intros x. rewrite Hring, valid_relink. rewrite lookup_alter. case_decide; [subst|done].
    by destruct (ring_buffer s !! e_slot e).
Qed.

(** Reading back the links of an element whose neighbours were changed. *)
Lemma wp_rd_slot_links x p u Q s :
  links (ring_buffer s) x = Some (p, u) ->
  (forall e, ring_buffer s !! x = Some e -> coll_prev e = p -> coll_next e = u -> Q e s) -> wp (rd_slot x) Q s.
Proof. intros (a & Ha & Hp & Hn)%links_Some HQ. eapply wp_rd_slot; [done|]. by apply HQ. Qed.

(** The slots of the bucket of a tracked entry. *)
Lemma bucket_mid s L1 e L2 :
  let h := hash_of (hash_entries s) (e_key e) in
  let l1 := slots (bucket_of (hash_entries s) h L1) in let l2 := slots (bucket_of (hash_entries s) h L2) in
  core_inv s (L1 ++ e :: L2) ->
  0 <= h < hash_entries s /\ hash_map s !! h = Some (hd_or (rb_entries s) (l1 ++ e_slot e :: l2)) /\
  dll (ring_buffer s) (rb_entries s) (l1 ++ e_slot e :: l2).
Proof.
  intros h l1 l2 Hi. assert (e ∈ L1 ++ e :: L2) as He by (apply elem_of_app; right; by left).
  pose proof (nhit_hash_range _ _ (c_H _ _ Hi) (c_key _ _ Hi e He)) as Hh. fold h in Hh.
  destruct (c_bucket _ _ Hi h Hh) as [Hhead Hd].
  rewrite bucket_app, bucket_cons_eq, slots_app in Hhead, Hd by done. done.
Qed.

Lemma relink_step s n l1 x l2 : dll (ring_buffer s) n (l1 ++ x :: l2) -> forall (k : M nhit_hash unit) Q,
  wp k Q (set_ring (relink_next l1 (hd_or n l2)) s) ->
  wp ((if negb (last_or n l1 =? n) then upd_slot (last_or n l1) (with_coll_next (hd_or n l2)) else mret tt);; k) Q s.
Proof.
  intros Hd k Q Hk. wp_step. unfold relink_next in Hk. destruct l1 as [|y l1 _] using rev_ind.
  - unfold last_or. simpl. rewrite Z.eqb_refl. simpl. wp_step. by destruct s.
  - rewrite last_or_snoc. rewrite last_snoc in Hk.
    assert (y ∈ (l1 ++ [y]) ++ x :: l2) as Hy by (apply elem_of_app; left; apply elem_of_app; right; by left).
    assert (y <> n) as Hne by (intros ->; by apply (dll_nil _ _ _ Hd)).
    rewrite (proj2 (Z.eqb_neq _ _) Hne). simpl. apply wp_upd_slot; [|exact Hk]. by eapply dll_dom.
Qed.

Lemma relink_step' s n l1 x l2 v : NoDup (l1 ++ x :: l2) -> n ∉ l2 ->
  (forall y, y ∈ l2 -> is_Some (ring_buffer s !! y)) -> forall (k : M nhit_hash unit) Q,
  wp k Q (set_ring (relink_prev l2 v) s) ->
  wp ((if negb (hd_or n l2 =? n) then upd_slot (hd_or n l2) (with_coll_prev v) else mret tt);; k) Q s.
Proof.
  intros Hnd Hn Hdom k Q Hk. wp_step. unfold relink_prev in Hk. destruct l2 as [|y l2].
  - unfold hd_or. simpl. rewrite Z.eqb_refl. simpl. wp_step. by destruct s.
  - change (hd_or n (y :: l2)) with y. assert (y <> n) as Hne by (intros ->; apply Hn; by left).
    rewrite (proj2 (Z.eqb_neq _ _) Hne). simpl. apply wp_upd_slot; [|exact Hk]. apply Hdom. by left.
Qed.

Lemma collision_remove_spec s L1 e L2 : core_inv s (L1 ++ e :: L2) ->
  wp (collision_remove (e_slot e)) (fun _ s' => core_inv s' (L1 ++ L2) /\ core_frame s s') s.
Proof.
  intros Hi. assert (e ∈ L1 ++ e :: L2) as He by (apply elem_of_app; right; by left).
  destruct (bucket_mid _ _ _ _ Hi) as (Hh & Hhead & Hd).
  pose proof (fun s' => inv_unlink s s' L1 e L2 Hi) as Hun. cbv zeta in Hun.
  set (h := hash_of (hash_entries s) (e_key e)) in *. set (n := rb_entries s) in *.
  set (l1 := slots (bucket_of (hash_entries s) h L1)) in *. set (l2 := slots (bucket_of (hash_entries s) h L2)) in *.
  set (x := e_slot e) in *. pose proof (seg_links _ _ _ _ _ _ (dll_seg _ _ _ Hd)) as Hlx.
  destruct (slot_elem _ _ _ Hi He) as (a & Ha & Hcid & Hlba & _). fold x in Ha.
  pose proof (dll_nodup _ _ _ Hd) as Hnd. pose proof (dll_nil _ _ _ Hd) as Hnil.
  assert (links (ring_buffer s) x = Some (coll_prev a, coll_next a)) as Hla by (unfold links; by rewrite Ha).
  rewrite Hlx in Hla. injection Hla as Hap Han.
  unfold collision_remove. wp_step. eapply wp_rd_slot; [done|]. wp_step. wp_step. wp_step. wp_step. cbv zeta.
  rewrite Hcid, Hlba. change (hash_function _ _ _) with h. fold n.
  rewrite (proj2 (Z.eqb_neq _ _) (c_key _ _ Hi e He)), <- Hap, <- Han.
  wp_step. apply wp_upd_slot; [by eexists|]. set (s1 := set_ring _ s).
  assert (dll (ring_buffer s1) n (l1 ++ x :: l2)) as Hd1
    by (eapply dll_frame; [|exact Hd]; intros y _; apply links_core_id).
  apply (relink_step s1 n l1 x l2 Hd1). set (s2 := set_ring _ s1).
  assert (x ∉ l1) as Hx1 by (intros Hx; apply NoDup_app in Hnd as (_ & Hnd & _); apply (Hnd x Hx); by left).
  assert (x ∉ l2) as Hx2 by (by apply NoDup_app in Hnd as (_ & _ & [? _]%NoDup_cons)).
  assert (ring_buffer s2 !! x = Some (with_core_id OCF_CORE_ID_INVALID a)) as Hs2.
  { simpl. rewrite relink_next_lookup_ne by done. by rewrite lookup_alter_eq, Ha. }
  wp_step. eapply wp_rd_slot; [exact Hs2|]. change (coll_next (with_core_id OCF_CORE_ID_INVALID a)) with (coll_next a). change (coll_prev (with_core_id OCF_CORE_ID_INVALID a)) with (coll_prev a).
  rewrite <- Hap, <- Han. apply (relink_step' s2 n l1 x l2); [done|intros Hy; apply Hnil, elem_of_app; right; by right| |].
  { intros y Hy. simpl. apply (relink_dom l1 [] 0). rewrite is_Some_alter. eapply dll_dom; [exact Hd|].
    apply elem_of_app; right; by right. }
  wp_step. eapply wp_rd_slot; [simpl; rewrite relink_prev_lookup_ne by done; exact Hs2|].
  change (coll_next (with_core_id OCF_CORE_ID_INVALID a)) with (coll_next a). rewrite <- Han. wp_step. eapply wp_rd_bucket; [exact Hhead|].
  assert ((hd_or n (l1 ++ x :: l2) =? x) = bool_decide (l1 = [])) as ->.
  { destruct l1 as [|y l1']; [apply Z.eqb_refl|]. apply Z.eqb_neq. unfold hd_or. simpl. intros ->. apply Hx1. by left. }
  case_bool_decide as Hl1.
  - apply wp_wr_bucket; [by eexists|]. apply Hun; try done. simpl. by rewrite Hl1.
  - wp_step. apply Hun; try done. simpl. rewrite insert_id; [done|]. rewrite Hhead. by destruct l1.
Qed.

Lemma collision_remove_free s L x : core_inv s L -> 0 <= x < rb_entries s -> x ∉ slots L ->
  wp (collision_remove x) (fun _ s' => s' = s) s.
Proof.
  intros Hi Hx Hn. pose proof (c_free _ _ Hi x Hx Hn) as Hc.
  destruct (ring_buffer s !! x) as [a|] eqn:Ha; [|done]. simpl in Hc. injection Hc as Hc.
  unfold collision_remove. wp_step. eapply wp_rd_slot; [done|]. do 4 wp_step. cbv zeta. rewrite Hc. simpl. by wp_step.
Qed.

Lemma relink_prev_field {B} (f : nhit_list_elem -> B) l v (m : gmap Z nhit_list_elem) y :
  (forall v b, f (with_coll_prev v b) = f b) -> f <$> relink_prev l v m !! y = f <$> m !! y.
Proof.
  intros Hf. unfold relink_prev. destruct (head l); [|done]. rewrite lookup_alter. case_decide; [subst|done].
  destruct (m !! _); simpl; [by rewrite Hf|done].
Qed.

Lemma collision_insert_spec s L x k : core_inv s L -> 0 <= x < rb_entries s -> x ∉ slots L -> key_ok k ->
  wp (collision_insert_new x k.1 k.2) (fun _ s' => core_inv s' (mkEntry x k 1 :: L) /\ core_frame s s') s.
Proof.
  intros Hi Hx Hnin Hk. pose proof (nhit_hash_range _ _ (c_H _ _ Hi) Hk) as Hh.
  destruct (c_bucket _ _ Hi _ Hh) as [Hhead Hd]. set (h := hash_of (hash_entries s) k) in *.
  set (n := rb_entries s) in *. set (l := slots (bucket_of (hash_entries s) h L)) in *.
  assert (x ∉ l) as Hxl by (intros Hin; by apply bucket_slots_sub in Hin).
  destruct (proj2 (c_dom _ _ Hi x) Hx) as [a Ha]. pose proof (c_n _ _ Hi) as Hn. fold n in Hn.
  set (a' := mkElem k.2 1 n (hd_or n l) k.1 (valid a)).
  enough (forall s', ring_buffer s' = <[x := a']> (relink_prev l x (ring_buffer s)) ->
    hash_map s' = <[h := x]> (hash_map s) -> hash_entries s' = hash_entries s -> rb_entries s' = n ->
    rb_pointer s' = rb_pointer s -> lock_ops s' = lock_ops s ->
    core_inv s' (mkEntry x k 1 :: L) /\ core_frame s s') as Hfin.
  { unfold collision_insert_new. do 4 wp_step. cbv zeta. wp_step. eapply wp_rd_slot; [done|].
    change (hash_function _ _ _) with h. fold n. wp_step. eapply wp_rd_bucket; [done|].
    wp_step. apply wp_upd_slot; [by eexists|]. wp_step. eapply wp_rd_bucket; [done|].
    rewrite (u32_small n) by lia. rewrite (u32_small x) by lia. wp_step. destruct l as [|y l'].
    - unfold hd_or. simpl. rewrite Z.eqb_refl. simpl. wp_step. apply wp_wr_bucket; [by eexists|].
      apply Hfin; try done. unfold relink_prev. simpl. map_pointwise. by rewrite Ha.
    - change (hd_or n (y :: l')) with y in *.
      assert (y <> n) as Hyn by (intros ->; apply (dll_nil _ _ _ Hd); by left).
      assert (x <> y) as Hxy by (intros ->; apply Hxl; by left).
      rewrite (proj2 (Z.eqb_neq _ _) Hyn). simpl. apply wp_upd_slot.
      + simpl. rewrite is_Some_alter. eapply dll_dom; [exact Hd|]. by left.
      + apply wp_wr_bucket; [by eexists|]. apply Hfin; try done. unfold relink_prev. simpl. map_pointwise. by rewrite Ha. }
  intros s' Hr Hm HH Hn' Hp Hlk.
  assert (forall y, x <> y -> ring_buffer s' !! y = relink_prev l x (ring_buffer s) !! y) as Hne
    by (intros y Hne; by rewrite Hr, lookup_insert_ne).
  assert (forall y, x <> y -> sdata <$> ring_buffer s' !! y = sdata <$> ring_buffer s !! y) as Hdata
    by (intros y Hxy; rewrite Hne by done; by apply relink_prev_field).
  split; [split|].
  - rewrite HH. apply (c_H _ _ Hi).
  - rewrite Hn'. apply (c_n _ _ Hi).
  - intros y. rewrite Hn', Hr, insert_is_Some'; [rewrite relink_prev_dom; apply (c_dom _ _ Hi)|].
    rewrite relink_prev_dom. by eexists.
  - intros h'. rewrite HH, Hm, insert_is_Some'; [apply (c_map _ _ Hi)|by eexists].
  - intros e [->|He]%elem_of_cons.
    + simpl. rewrite Hr, lookup_insert_eq. by destruct k.
    + rewrite Hdata; [by apply (c_elem _ _ Hi)|]. intros ->. by apply Hnin, elem_slots.
  - intros y Hy [Hxy Hyn]%not_elem_of_cons. rewrite Hn' in Hy. simpl in Hxy.
    rewrite (core_id_of_sdata (ring_buffer s) _ y y (Hdata y (not_eq_sym Hxy))). by apply (c_free _ _ Hi).
  - intros e [->|He]%elem_of_cons; [done|by apply (c_key _ _ Hi)].
  - intros h'. rewrite HH, Hn', Hm. intros Hh'. destruct (c_bucket _ _ Hi h' Hh') as [Hhd' Hd'].
    destruct (decide (h = h')) as [<-|Hhn].
    + rewrite lookup_insert_eq, bucket_cons_eq by done. split; [done|]. rewrite Hr. simpl. fold l.
      apply dll_push; [exact Hd|done|lia|done|done].
    + rewrite lookup_insert_ne, bucket_cons_ne by done. split; [done|]. eapply dll_frame; [|exact Hd'].
      intros y Hy. assert (x <> y) as Hxy by (intros ->; by apply bucket_slots_sub in Hy).
      unfold links. rewrite Hne by done. fold (links (relink_prev l x (ring_buffer s)) y). apply relink_prev_links.
      intros Hhd. apply Hhn. apply (bucket_disjoint s L _ _ y Hi); [|exact Hy]. fold l. destruct l; [done|].
      injection Hhd as ->. by left.
  - simpl. apply NoDup_cons. split; [done|apply (c_nodup _ _ Hi)].
  - split_and!; try done. intros y. destruct (decide (x = y)) as [<-|Hxy].
    + rewrite Hr, lookup_insert_eq, Ha. done.
    + rewrite Hne by done. by apply relink_prev_field.
Qed.

(** ** The ring *)

(** The slots of the last [len] insertions, newest first, when the next one
    goes to [p]. *)
Definition ring_slots (n p : Z) (len : nat) : list Z := (fun i => (p - 1 - Z.of_nat i) `mod` n) <$> seq 0 len.

Definition entry_data (e : entry) : (Z * Z) * Z := (e_key e, e_count e).

(** [s] tracks the core lines [K], with their counters, newest first. *)
Record nhit_inv (s : nhit_hash) (L : list entry) : Prop := {
  ni_core : core_inv s L;
  ni_ptr : 0 <= rb_pointer s < rb_entries s;
  ni_slots : slots L = ring_slots (rb_entries s) (rb_pointer s) (length L);
  ni_valid x e : ring_buffer s !! x = Some e -> valid e = true;
}.

Definition nhit_repr (s : nhit_hash) (K : list ((Z * Z) * Z)) : Prop :=
  exists L, nhit_inv s L /\ entry_data <$> L = K.

Lemma ring_slots_S n p len : 0 < n ->
  ring_slots n ((p + 1) `mod` n) (S len) = p `mod` n :: ring_slots n p len.
Proof.
  intros Hn. unfold ring_slots. cbn [seq fmap list_fmap]. f_equal.
  - replace (p `mod` n) with (((p + 1) - 1) `mod` n) by (f_equal; lia).
    rewrite Z.sub_0_r. by rewrite Zminus_mod_idemp_l.
  - rewrite <- fmap_S_seq, <- list_fmap_compose. apply list_fmap_ext. intros i x _. simpl.
    rewrite <- Z.sub_add_distr, Zminus_mod_idemp_l. f_equal. lia.
Qed.

Lemma ring_slots_last n p len : ring_slots n p (S len) = ring_slots n p len ++ [(p - 1 - Z.of_nat len) `mod` n].
Proof. unfold ring_slots. by rewrite seq_S, fmap_app. Qed.

Lemma ring_slots_fresh n p len : 0 <= p < n -> Z.of_nat len < n -> p ∉ ring_slots n p len.
Proof.
  intros Hp Hl (i & Heq & Hi%elem_of_seq)%list_elem_of_fmap. destruct (Z_lt_le_dec (p - 1 - Z.of_nat i) 0) as [Hneg|Hpos].
  - rewrite <- (Z.mod_add _ 1 n), Z.mod_small in Heq by lia. lia.
  - rewrite Z.mod_small in Heq by lia. lia.
Qed.

Lemma ring_slots_oldest n p : 0 <= p < n -> (p - 1 - (n - 1)) `mod` n = p.
Proof. intros Hp. rewrite <- (Z.mod_add _ 1 n) by lia. rewrite Z.mod_small by lia. lia. Qed.

(** Lock operations that take bucket locks in order and release them. *)
Definition ordered_ops (ops : list lock_op) : Prop := forall rest, in_order [] rest -> in_order [] (ops ++ rest).

Lemma ordered_nil : ordered_ops [].
Proof. by intros rest Hr. Qed.
Lemma ordered_app o1 o2 : ordered_ops o1 -> ordered_ops o2 -> ordered_ops (o1 ++ o2).
Proof. intros H1 H2 rest Hr. rewrite <- app_assoc. auto. Qed.
Lemma ordered_read h : ordered_ops [Down RD (LHash h); Up RD (LHash h)].
Proof. intros rest Hr. simpl. split; [by intros ml ?%elem_of_nil|]. split; [by left|]. by rewrite decide_True. Qed.

(** [s'] adds ordered lock operations to those of [s]. *)
Definition locks_extend (s s' : nhit_hash) : Prop :=
  exists ops, lock_ops s' = lock_ops s ++ ops /\ ordered_ops ops.

Lemma locks_extend_refl s : locks_extend s s.
Proof. exists []. split; [by rewrite app_nil_r|apply ordered_nil]. Qed.
Lemma locks_extend_trans s1 s2 s3 : locks_extend s1 s2 -> locks_extend s2 s3 -> locks_extend s1 s3.
Proof.
  intros (o1 & H1 & Ho1) (o2 & H2 & Ho2). exists (o1 ++ o2). rewrite H2, H1, app_assoc. split; [done|by apply ordered_app].
Qed.

(** The lock operations are not part of the data. *)
Lemma core_inv_locks s L ops : core_inv s L -> core_inv (set_lock_ops ops s) L.
Proof. intros [? ? ? ? ? ? ? ? ?]. by split. Qed.
Lemma nhit_inv_locks s L ops : nhit_inv s L -> nhit_inv (set_lock_ops ops s) L.
Proof. intros [? ? ? ?]. split; [by apply core_inv_locks|done..]. Qed.

(** ** The abstract policy: the last [n] insertions with their counters *)

Definition spec_insert (n : nat) (k : Z * Z) (K : list ((Z * Z) * Z)) : list ((Z * Z) * Z) := take n ((k, 1) :: K).

(** The counter of the newest insertion of [k]. *)
Fixpoint spec_find (k : Z * Z) (K : list ((Z * Z) * Z)) : option Z :=
  match K with
  | [] => None
  | (k', c) :: K => if decide (k' = k) then Some c else spec_find k K
  end.

Fixpoint spec_set (k : Z * Z) (c : Z) (K : list ((Z * Z) * Z)) : list ((Z * Z) * Z) :=
  match K with
  | [] => []
  | (k', c') :: K => if decide (k' = k) then (k', c) :: K else (k', c') :: spec_set k c K
  end.

Lemma find_split k L e : find_key k L = Some e ->
  exists L1 L2, L = L1 ++ e :: L2 /\ e_key e = k /\ forall e', e' ∈ L1 -> e_key e' <> k.
Proof.
  unfold find_key. induction L as [|e' L IH]; [done|]. destruct (decide (e_key e' = k)) as [Hk|Hk].
  - rewrite filter_cons_True by done. intros [= ->]. exists [], L. split_and!; [done..|]. by intros ? ?%elem_of_nil.
  - rewrite filter_cons_False by done. intros (L1 & L2 & -> & He & Hn)%IH. exists (e' :: L1), L2.
    split_and!; [done..|]. by intros e'' [->|]%elem_of_cons; [|auto].
Qed.

Lemma find_spec k L : spec_find k (entry_data <$> L) = e_count <$> find_key k L.
Proof.
  unfold find_key. induction L as [|e L IH]; [done|]. simpl. case_decide as Hk; [by rewrite filter_cons_True|].
  by rewrite filter_cons_False.
Qed.

Lemma spec_set_split k c L1 e L2 : e_key e = k -> (forall e', e' ∈ L1 -> e_key e' <> k) ->
  spec_set k c (entry_data <$> L1 ++ e :: L2) = entry_data <$> L1 ++ mkEntry (e_slot e) k c :: L2.
Proof.
  intros Hk. induction L1 as [|e' L1 IH]; intros Hn; simpl.
  - rewrite decide_True by done. by rewrite <- Hk.
  - rewrite decide_False by (apply Hn; by left). unfold entry_data at 2. f_equal. apply IH. intros e'' He. apply Hn. by right.
Qed.

Lemma spec_set_none k c L : find_key k L = None -> spec_set k c (entry_data <$> L) = entry_data <$> L.
Proof.
  unfold find_key. induction L as [|e L IH]; [done|]. simpl. case_decide as Hk.
  - by rewrite filter_cons_True.
  - rewrite filter_cons_False by done. intros Hf. f_equal. by apply IH.
Qed.

(** ** The operations implement the abstract policy *)

(** [core_inv] only reads keys, counters and links. *)
Lemma core_inv_ext s s' L : core_inv s L ->
  (forall x, sdata <$> ring_buffer s' !! x = sdata <$> ring_buffer s !! x) ->
  (forall x, links (ring_buffer s') x = links (ring_buffer s) x) ->
  hash_map s' = hash_map s -> hash_entries s' = hash_entries s -> rb_entries s' = rb_entries s -> core_inv s' L.
Proof.
  intros Hi Hd Hl Hm HH Hn.
  assert (forall x, is_Some (ring_buffer s' !! x) <-> is_Some (ring_buffer s !! x)) as Hdom
    by (intros x; by rewrite <- (fmap_is_Some sdata), Hd, fmap_is_Some).
  split; rewrite ?HH, ?Hn, ?Hm; try apply Hi.
  - intros x. rewrite Hdom. apply Hi.
  - intros e He. rewrite Hd. by apply Hi.
  - intros x Hx Hxn. rewrite (core_id_of_sdata (ring_buffer s) _ x x (Hd x)). by apply (c_free _ _ Hi).
  - intros h Hh. destruct (c_bucket _ _ Hi h Hh) as [H1 H2]. split; [done|]. eapply dll_frame; [|exact H2]. auto.
Qed.

Lemma links_alter_field (m : gmap Z nhit_list_elem) f x y :
  (forall e, coll_prev (f e) = coll_prev e) -> (forall e, coll_next (f e) = coll_next e) ->
  links (alter f x m) y = links m y.
Proof.
  intros Hp Hn. unfold links. rewrite lookup_alter. case_decide; [subst|done].
  destruct (m !! _); simpl; [|done]. by rewrite Hp, Hn.
Qed.

Lemma inv_valid s L x b : core_inv s L -> core_inv (set_ring (alter (with_valid b) x) s) L.
Proof.
  intros Hi. apply (core_inv_ext s); try done.
  - intros y. simpl. rewrite lookup_alter. case_decide; [subst|done]. by destruct (ring_buffer s !! _).
  - intros y. by apply links_alter_field.
Qed.

Lemma bucket_slots_count H h L1 e L2 c :
  slots (bucket_of H h (L1 ++ mkEntry (e_slot e) (e_key e) c :: L2)) = slots (bucket_of H h (L1 ++ e :: L2)).
Proof.
  rewrite !bucket_app, !slots_app. f_equal. destruct (decide (hash_of H (e_key e) = h)).
  - by rewrite !bucket_cons_eq.
  - by rewrite !bucket_cons_ne.
Qed.

Lemma slots_count L1 e L2 c : slots (L1 ++ mkEntry (e_slot e) (e_key e) c :: L2) = slots (L1 ++ e :: L2).
Proof. by rewrite !slots_app. Qed.

Lemma elem_mid {A} (x y : A) l1 l2 : y ∈ l1 ++ x :: l2 <-> y = x \/ y ∈ l1 ++ l2.
Proof. rewrite !elem_of_app, elem_of_cons. tauto. Qed.

Lemma inv_count s L1 e L2 c : nhit_inv s (L1 ++ e :: L2) ->
  nhit_inv (set_ring (alter (with_counter c) (e_slot e)) s) (L1 ++ mkEntry (e_slot e) (e_key e) c :: L2).
Proof.
  intros [Hi Hp Hs Hv]. split; [|done| |].
  - pose proof (c_nodup _ _ Hi) as Hnd. rewrite slots_app in Hnd. simpl in Hnd.
    assert (e ∈ L1 ++ e :: L2) as He by (apply elem_of_app; right; by left).
    destruct (slot_elem _ _ _ Hi He) as (a & Ha & Hcid & Hlba & _).
    split; try apply Hi; simpl.
    + intros x. rewrite is_Some_alter. apply Hi.
    + intros e' [->|He']%elem_mid.
      * simpl. rewrite lookup_alter_eq, Ha. simpl. unfold sdata. simpl. rewrite Hcid, Hlba. by destruct (e_key e).
      * rewrite lookup_alter_ne; [apply (c_elem _ _ Hi); apply elem_mid; by right|]. intros Heq.
        rewrite <- Permutation_middle in Hnd. apply NoDup_cons in Hnd as [Hn _]. apply Hn.
        rewrite <- slots_app, Heq. by apply elem_slots.
    + intros x Hx Hxn. rewrite slots_count in Hxn. rewrite lookup_alter_ne.
      * by apply (c_free _ _ Hi).
      * intros <-. by apply Hxn, elem_slots.
    + intros e' [->|He']%elem_mid; [by apply (c_key _ _ Hi e)|apply (c_key _ _ Hi), elem_mid; by right].
    + intros h Hh. rewrite bucket_slots_count. destruct (c_bucket _ _ Hi h Hh) as [H1 H2]. split; [done|].
      eapply dll_frame; [|exact H2]. intros x _. by apply links_alter_field.
    + rewrite slots_count. apply (c_nodup _ _ Hi).
  - rewrite slots_count. simpl. rewrite Hs. f_equal. rewrite !length_app. done.
  - intros x a. simpl. rewrite lookup_alter. case_decide; [subst|apply Hv].
    destruct (ring_buffer s !! _) as [b|] eqn:Hb; [|done]. intros [= <-]. simpl. by apply (Hv _ _ Hb).
Qed.

(** The locks of the buckets of an insertion and of the entry it replaces. *)
Definition insert_locks (H h1 h2 : Z) : list lock_id :=
  if decide (h2 = H) then [LHash h1] else if decide (h1 = h2) then [LHash h1]
  else [LHash (Z.min h1 h2); LHash (Z.max h1 h2)].
Definition insert_unlocks (H h1 h2 : Z) : list lock_id :=
  if decide (h2 = H) then [LHash h1] else if decide (h1 = h2) then [LHash h1] else [LHash h1; LHash h2].

Lemma write_lock_spec s L k k2 : core_inv s L -> key_ok k -> k2.1 = OCF_CORE_ID_INVALID \/ key_ok k2 ->
  let H := hash_entries s in let h1 := hash_of H k in let h2 := hash_of H k2 in
  wp (write_lock_hashes k.1 k.2 k2.1 k2.2) (fun _ s' =>
    s' = set_lock_ops (lock_ops s ++ downs WR (insert_locks H h1 h2)) s) s.
Proof.
  intros Hi Hk Hk2 H h1 h2. pose proof (nhit_hash_range _ _ (c_H _ _ Hi) Hk) as Hh1. fold H h1 in Hh1.
  pose proof (c_H _ _ Hi) as HH. fold H in HH.
  unfold write_lock_hashes. do 2 wp_step. cbv zeta. change (hash_function k.1 k.2 (hash_entries s)) with h1.
  change (hash_function k2.1 k2.2 (hash_entries s)) with h2. fold H.
  assert (forall h, 0 <= h < H -> is_Some (hash_map s !! h)) as Hm by (intros h; apply (c_map _ _ Hi)).
  unfold insert_locks. destruct (decide (h2 = H)) as [Heq|Hne].
  - rewrite Heq, Z.min_l, Z.max_r by lia. rewrite (proj2 (Z.eqb_neq h1 H)), Z.eqb_refl by lia. simpl.
    wp_step. apply wp_hash_lock; [by apply Hm|]. by wp_step.
  - assert (0 <= h2 < H) as Hh2.
    { destruct Hk2 as [Hc|Hk2]; [|by apply nhit_hash_range].
      exfalso. apply Hne. unfold h2, hash_of, hash_function. rewrite Hc. simpl. apply u32_small. lia. }
    rewrite (proj2 (Z.eqb_neq (Z.min h1 h2) H)), (proj2 (Z.eqb_neq (Z.max h1 h2) H)) by lia. simpl.
    wp_step. apply wp_hash_lock; [apply Hm; lia|]. destruct (decide (h1 = h2)) as [<-|Hd].
    + rewrite Z.min_id, Z.max_id, Z.eqb_refl. simpl. by wp_step.
    + rewrite (proj2 (Z.eqb_neq (Z.min h1 h2) (Z.max h1 h2))) by lia. simpl. apply wp_hash_lock; [simpl; apply Hm; lia|].
      unfold set_lock_ops. simpl. by rewrite <- app_assoc.
Qed.

Lemma write_unlock_spec s L k k2 : core_inv s L -> key_ok k -> k2.1 = OCF_CORE_ID_INVALID \/ key_ok k2 ->
  let H := hash_entries s in let h1 := hash_of H k in let h2 := hash_of H k2 in
  wp (write_unlock_hashes k.1 k.2 k2.1 k2.2) (fun _ s' =>
    s' = set_lock_ops (lock_ops s ++ ups WR (insert_unlocks H h1 h2)) s) s.
Proof.
  intros Hi Hk Hk2 H h1 h2. pose proof (nhit_hash_range _ _ (c_H _ _ Hi) Hk) as Hh1. fold H h1 in Hh1.
  pose proof (c_H _ _ Hi) as HH. fold H in HH.
  unfold write_unlock_hashes. do 2 wp_step. cbv zeta. change (hash_function k.1 k.2 (hash_entries s)) with h1.
  change (hash_function k2.1 k2.2 (hash_entries s)) with h2. fold H.
  assert (forall h, 0 <= h < H -> is_Some (hash_map s !! h)) as Hm by (intros h; apply (c_map _ _ Hi)).
  rewrite (proj2 (Z.eqb_neq h1 H)) by lia. simpl. wp_step. apply wp_hash_lock; [by apply Hm|].
  unfold insert_unlocks. destruct (decide (h2 = H)) as [Heq|Hne]; [rewrite Heq, Z.eqb_refl; simpl; by wp_step|].
  assert (0 <= h2 < H) as Hh2.
  { destruct Hk2 as [Hc|Hk2]; [|by apply nhit_hash_range].
    exfalso. apply Hne. unfold h2, hash_of, hash_function. rewrite Hc. simpl. apply u32_small. lia. }
  rewrite (proj2 (Z.eqb_neq h2 H)) by done. simpl. destruct (decide (h1 = h2)) as [<-|Hd].
  - rewrite Z.eqb_refl. simpl. by wp_step.
  - rewrite (proj2 (Z.eqb_neq _ _) Hd). simpl. apply wp_hash_lock; [simpl; apply Hm; lia|].
    unfold set_lock_ops. simpl. by rewrite <- app_assoc.
Qed.

Lemma insert_locks_ordered H h1 h2 : 
  ordered_ops (downs WR (insert_locks H h1 h2) ++ ups WR (insert_unlocks H h1 h2)).
Proof.
  intros rest Hr. rewrite <- app_assoc. apply in_order_downs.
  - unfold insert_locks. repeat case_decide; [by repeat constructor..|].
    apply Sorted.SSorted_cons; [by repeat constructor|]. apply Forall_singleton. right. simpl. lia.
  - by intros l ml _ ?%elem_of_nil.
  - apply (in_order_ups_perm _ _ _ []); [|done]. rewrite !app_nil_r. apply fmap_Permutation.
    unfold insert_locks, insert_unlocks. repeat case_decide; try done.
    destruct (Z.min_spec h1 h2) as [[? ->]|[? ->]], (Z.max_spec h1 h2) as [[? ->]|[? ->]]; try lia; try done; try constructor.
    all: apply perm_swap.
Qed.

(** The entry an insertion replaces is the oldest one of a full ring. *)
Lemma ring_victim s L : nhit_inv s L ->
  (exists L1 e, L = L1 ++ [e] /\ e_slot e = rb_pointer s /\ Z.of_nat (length L) = rb_entries s) \/
  (rb_pointer s ∉ slots L /\ Z.of_nat (length L) < rb_entries s).
Proof.
  intros [Hi Hp Hs _]. pose proof (core_length _ _ Hi) as Hl.
  destruct (decide (Z.of_nat (length L) = rb_entries s)) as [Heq|Hne].
  - left. destruct L as [|e L1 _] using rev_ind; [simpl in Heq; lia|]. exists L1, e. split_and!; [done| |done].
    rewrite length_app in Hs, Heq. simpl in Hs, Heq. rewrite Nat.add_1_r, ring_slots_last, slots_app in Hs.
    apply app_inj_2 in Hs as [_ Hs]; [|done]. injection Hs as ->.
    replace (Z.of_nat (length L1)) with (rb_entries s - 1) by lia. by apply ring_slots_oldest.
  - right. split; [|lia]. rewrite Hs. apply ring_slots_fresh; lia.
Qed.

Lemma core_frame_refl s : core_frame s s.
Proof. done. Qed.

(** [get_rb_slot] hands out the slot of the oldest entry. *)
Lemma get_rb_slot_spec s L : nhit_inv s L ->
  wp get_rb_slot (fun r s' => r = (true, rb_pointer s) /\
    s' = set_rb_pointer ((rb_pointer s + 1) `mod` rb_entries s)
           (set_ring (alter (with_valid false) (rb_pointer s)) s)) s.
Proof.
  intros [Hi Hp _ Hv]. destruct (proj2 (c_dom _ _ Hi (rb_pointer s)) Hp) as [a Ha].
  unfold get_rb_slot. do 3 wp_step. eapply wp_rd_slot; [done|]. cbv zeta. rewrite (Hv _ _ Ha).
  wp_step. apply wp_upd_slot; [by eexists|]. by repeat wp_step.
Qed.

Lemma remove_victim s s0 L : nhit_inv s0 L -> core_inv s L -> rb_entries s = rb_entries s0 ->
  wp (collision_remove (rb_pointer s0)) (fun _ s' =>
    core_inv s' (take (Z.to_nat (rb_entries s0 - 1)) L) /\ core_frame s s' /\
    rb_pointer s0 ∉ slots (take (Z.to_nat (rb_entries s0 - 1)) L)) s.
Proof.
  intros Hn Hi Hent. pose proof (ni_ptr _ _ Hn) as Hp. destruct (ring_victim _ _ Hn) as [(L1 & e & -> & He & Hl)|[Hnin Hl]].
  - rewrite length_app in Hl. simpl in Hl. rewrite take_app_length' by lia. rewrite <- He.
    eapply wp_mono; [by apply (collision_remove_spec s L1 e [])|]. intros [] s' [Hi' Hf]. rewrite app_nil_r in Hi'.
    split_and!; [done..|]. pose proof (c_nodup _ _ Hi) as Hnd. rewrite slots_app in Hnd.
    apply NoDup_app in Hnd as (_ & Hd & _). intros Hin. apply (Hd _ Hin). by left.
  - rewrite take_ge by lia. eapply wp_mono; [eapply collision_remove_free; [exact Hi|lia|done]|].
    by intros [] s' ->.
Qed.

Lemma take_spec_insert n k L : 0 < n ->
  entry_data <$> mkEntry 0 k 1 :: take (Z.to_nat (n - 1)) L = spec_insert (Z.to_nat n) k (entry_data <$> L).
Proof.
  intros Hn. unfold spec_insert. replace (Z.to_nat n) with (S (Z.to_nat (n - 1))) by lia.
  simpl. by rewrite fmap_take.
Qed.

Lemma nhit_hash_insert_spec s L k : nhit_inv s L -> key_ok k ->
  wp (nhit_hash_insert k.1 k.2) (fun _ s' => locks_extend s s' /\ rb_entries s' = rb_entries s /\
    nhit_repr s' (spec_insert (Z.to_nat (rb_entries s)) k (entry_data <$> L))) s.
Proof.
  intros Hn Hk. pose proof (ni_core _ _ Hn) as Hi. pose proof (ni_ptr _ _ Hn) as Hp.
  pose proof (c_n _ _ Hi) as Hent. set (p := rb_pointer s) in *. set (n := rb_entries s) in *.
  destruct (proj2 (c_dom _ _ Hi p) Hp) as [a Ha].
  unfold nhit_hash_insert. wp_step. eapply wp_mono; [by apply (get_rb_slot_spec s L)|]. fold p n. intros r s1 [-> Hs1].
  simpl. assert (core_inv s1 L) as Hi1.
  { pose proof (inv_valid s L p false Hi) as Hi1. rewrite Hs1. destruct Hi1 as [? ? ? ? ? ? ? ? ?]. by split. }
  assert (ring_buffer s1 !! p = Some (with_valid false a)) as Ha1 by (by rewrite Hs1; simpl; rewrite lookup_alter_eq, Ha).
  wp_step. eapply wp_rd_slot; [done|]. cbv zeta. simpl.
  assert (core_id a = OCF_CORE_ID_INVALID \/ key_ok (core_id a, core_lba a)) as Hka by (destruct (decide (core_id a = OCF_CORE_ID_INVALID)); [by left|by right]).
  wp_step. eapply wp_mono; [apply (write_lock_spec s1 L k (core_id a, core_lba a) Hi1 Hk Hka)|]. intros [] s2 Hs2.
  assert (core_inv s2 L) as Hi2 by (rewrite Hs2; by apply core_inv_locks).
  assert (rb_entries s2 = n) as Hn2 by (by rewrite Hs2, Hs1).
  wp_step. eapply wp_mono; [by apply (remove_victim s2 s L)|]. fold p n. intros [] s3 (Hi3 & Hf3 & Hfresh).
  set (L' := take (Z.to_nat (n - 1)) L) in *.
  assert (rb_entries s3 = n) as Hn3 by (destruct Hf3 as (_ & _ & _ & _ & Hf); congruence).
  wp_step. eapply wp_mono; [apply (collision_insert_spec s3 L' p k); [done|lia|done|done]|].
  intros [] s4 [Hi4 Hf4]. pose proof (core_frame_trans _ _ _ Hf3 Hf4) as (Fv & Fp & Fl & FH & Fn).
  wp_step. eapply wp_mono; [apply (write_unlock_spec s4 _ k (core_id a, core_lba a) Hi4 Hk Hka)|]. intros [] s5 Hs5.
  assert (core_inv s5 (mkEntry p k 1 :: L')) as Hi5 by (rewrite Hs5; by apply core_inv_locks).
  unfold commit_rb_slot. apply wp_upd_slot.
  { apply (c_dom _ _ Hi5). rewrite Hs5. simpl. lia. }
  split_and!.
  - eexists. split; [|apply (insert_locks_ordered (hash_entries s) (hash_of (hash_entries s) k)
      (hash_of (hash_entries s) (core_id a, core_lba a)))].
    simpl. rewrite Hs5. simpl. rewrite Fl, FH, Hs2, Hs1. simpl. by rewrite <- app_assoc.
  - simpl. rewrite Hs5. simpl. lia.
  - exists (mkEntry p k 1 :: L'). split; [split|].
    + by apply inv_valid.
    + simpl. rewrite Hs5. simpl. rewrite Fp, Fn, Hs2, Hs1. simpl. apply Z.mod_pos_bound. lia.
    + simpl. rewrite Hs5. simpl. rewrite Fp, Fn, Hs2, Hs1. simpl. rewrite ring_slots_S by lia.
      rewrite Z.mod_small by done. f_equal. unfold L', slots. rewrite fmap_take. fold (slots L).
      rewrite (ni_slots _ _ Hn). fold p n. unfold ring_slots. rewrite <- fmap_take, take_seq, length_take. done.
    + intros x b. simpl. rewrite lookup_alter. case_decide as Hx.
      * destruct (ring_buffer s5 !! _); [|done]. by intros [= <-].
      * rewrite Hs5. simpl. specialize (Fv x). rewrite Hs2, Hs1 in Fv. simpl in Fv. rewrite lookup_alter_ne in Fv by done.
        intros Hb. rewrite Hb in Fv. destruct (ring_buffer s !! x) as [c|] eqn:Hc; [|done].
        simpl in Fv. injection Fv as ->. by apply (ni_valid _ _ Hn x).
    + rewrite <- take_spec_insert by lia. done.
Qed.

(** Looking up a core line under the lock of its bucket. *)
Lemma find_range s L k e : core_inv s L -> find_key k L = Some e -> (e_slot e =? rb_entries s) = false.
Proof.
  intros Hi (L1 & L2 & -> & _)%find_split. pose proof (slot_range _ _ e Hi ltac:(apply elem_mid; by left)).
  apply Z.eqb_neq. lia.
Qed.

Lemma nhit_hash_query_spec s L k : nhit_inv s L -> key_ok k ->
  wp (nhit_hash_query k.1 k.2) (fun r s' => locks_extend s s' /\ rb_entries s' = rb_entries s /\
    r = (fun c => s32 (c + 1)) <$> spec_find k (entry_data <$> L) /\
    nhit_repr s' (default (entry_data <$> L) ((fun c => spec_set k (s32 (c + 1)) (entry_data <$> L)) <$>
      spec_find k (entry_data <$> L)))) s.
Proof.
  intros Hn Hk. pose proof (ni_core _ _ Hn) as Hi. pose proof (nhit_hash_range _ _ (c_H _ _ Hi) Hk) as Hh.
  set (h := hash_of (hash_entries s) k) in *.
  assert (is_Some (hash_map s !! h)) as Hm by by apply (c_map _ _ Hi).
  unfold nhit_hash_query. do 4 wp_step. cbv zeta. change (hash_function k.1 k.2 (hash_entries s)) with h.
  wp_step. apply wp_hash_lock; [done|]. set (s1 := set_lock_ops _ s).
  assert (nhit_inv s1 L) as Hn1 by by apply nhit_inv_locks.
  wp_step. eapply wp_mono; [by apply (core_line_lookup_spec s1 L k (ni_core _ _ Hn1))|]. intros r s2 [-> ->].
  rewrite find_spec. destruct (find_key k L) as [e|] eqn:Hf.
  - cbn [fmap option_fmap option_map default from_option id]. rewrite (find_range s L k e Hi Hf).
    apply find_split in Hf as (L1 & L2 & -> & Hke & Hnew).
    destruct (slot_elem _ _ e (ni_core _ _ Hn1) ltac:(apply elem_mid; by left)) as (a & Ha & _ & _ & Hc).
    change (ring_buffer s1) with (ring_buffer s) in Ha.
    wp_step. apply wp_upd_slot; [by eexists|]. wp_step. eapply wp_rd_slot; [simpl; rewrite lookup_alter_eq; by rewrite Ha|].
    wp_step. apply wp_hash_lock; [done|]. wp_step. simpl. rewrite Hc. split_and!; [|done..|].
    + eexists. split; [|apply (ordered_read h)]. simpl. by rewrite <- app_assoc.
    + exists (L1 ++ mkEntry (e_slot e) (e_key e) (s32 (e_count e + 1)) :: L2). split.
      * apply nhit_inv_locks. pose proof (inv_count s1 L1 e L2 (s32 (e_count e + 1)) Hn1) as Hc1.
        replace (set_ring (alter (fun e : nhit_list_elem => with_counter (s32 (counter e + 1)) e) (e_slot e)) s1)
          with (set_ring (alter (with_counter (s32 (e_count e + 1))) (e_slot e)) s1); [done|].
        unfold set_ring. f_equal. apply map_eq. intros y. rewrite !lookup_alter. case_decide; [subst y|done].
        change (ring_buffer s1) with (ring_buffer s). rewrite Ha. simpl. by rewrite Hc.
      * by rewrite spec_set_split, Hke.
  - simpl. rewrite Z.eqb_refl. wp_step. apply wp_hash_lock; [done|]. wp_step. split_and!; [|done..|].
    + eexists. split; [|apply (ordered_read h)]. simpl. by rewrite <- app_assoc.
    + exists L. split; [by apply nhit_inv_locks|done].
Qed.

Lemma nhit_hash_set_spec s L k c : nhit_inv s L -> key_ok k ->
  wp (nhit_hash_set_occurences k.1 k.2 c) (fun r s' => locks_extend s s' /\ rb_entries s' = rb_entries s /\
    nhit_repr s' (spec_set k c (entry_data <$> L))) s.
Proof.
  intros Hn Hk. pose proof (ni_core _ _ Hn) as Hi. pose proof (nhit_hash_range _ _ (c_H _ _ Hi) Hk) as Hh.
  set (h := hash_of (hash_entries s) k) in *.
  assert (is_Some (hash_map s !! h)) as Hm by by apply (c_map _ _ Hi).
  unfold nhit_hash_set_occurences. do 4 wp_step. cbv zeta. change (hash_function k.1 k.2 (hash_entries s)) with h.
  wp_step. apply wp_hash_lock; [done|]. set (s1 := set_lock_ops _ s).
  assert (nhit_inv s1 L) as Hn1 by by apply nhit_inv_locks.
  wp_step. eapply wp_mono; [by apply (core_line_lookup_spec s1 L k (ni_core _ _ Hn1))|]. intros r s2 [-> ->].
  assert (forall s', lock_ops s' = lock_ops s ++ [Down RD (LHash h); Up RD (LHash h)] -> locks_extend s s') as Hlk
    by (intros s' Heq; eexists; split; [exact Heq|apply ordered_read]).
  destruct (find_key k L) as [e|] eqn:Hf.
  - cbn [fmap option_fmap option_map default from_option id]. rewrite (find_range s L k e Hi Hf).
    apply find_split in Hf as (L1 & L2 & -> & Hke & Hnew).
    destruct (slot_elem _ _ e (ni_core _ _ Hn1) ltac:(apply elem_mid; by left)) as (a & Ha & _).
    wp_step. apply wp_upd_slot; [by eexists|]. apply wp_hash_lock; [done|]. split_and!; [|done|].
    + apply Hlk. simpl. by rewrite <- app_assoc.
    + eexists. split; [by apply nhit_inv_locks, (inv_count s1)|]. by rewrite spec_set_split, Hke.
  - simpl. rewrite Z.eqb_refl. apply wp_hash_lock; [done|]. split_and!; [|done|].
    + apply Hlk. simpl. by rewrite <- app_assoc.
    + exists L. split; [by apply nhit_inv_locks|]. by rewrite spec_set_none.
Qed.

(** ** Sequences of operations *)

Inductive nhit_op :=
  | OpInsert (k : Z * Z)
  | OpQuery (k : Z * Z)
  | OpSet (k : Z * Z) (occurences : Z).

Definition op_key (o : nhit_op) : Z * Z := match o with OpInsert k | OpQuery k | OpSet k _ => k end.

Definition run_nhit_op (o : nhit_op) : M nhit_hash (option Z) :=
  match o with
  | OpInsert k => nhit_hash_insert k.1 k.2;; mret None
  | OpQuery k => nhit_hash_query k.1 k.2
  | OpSet k c => nhit_hash_set_occurences k.1 k.2 c;; mret None
  end.

Fixpoint run_nhit_ops (os : list nhit_op) : M nhit_hash (list (option Z)) :=
  match os with
  | [] => mret []
  | o :: os => r ← run_nhit_op o; rs ← run_nhit_ops os; mret (r :: rs)
  end.

Definition spec_query (k : Z * Z) (K : list ((Z * Z) * Z)) : option Z * list ((Z * Z) * Z) :=
  match spec_find k K with
  | Some c => (Some (s32 (c + 1)), spec_set k (s32 (c + 1)) K)
  | None => (None, K)
  end.

Definition spec_nhit_op (n : nat) (o : nhit_op) (K : list ((Z * Z) * Z)) : option Z * list ((Z * Z) * Z) :=
  match o with
  | OpInsert k => (None, spec_insert n k K)
  | OpQuery k => spec_query k K
  | OpSet k c => (None, spec_set k c K)
  end.

Fixpoint spec_nhit_ops (n : nat) (os : list nhit_op) (K : list ((Z * Z) * Z)) :
    list (option Z) * list ((Z * Z) * Z) :=
  match os with
  | [] => ([], K)
  | o :: os =>
      let '(r, K1) := spec_nhit_op n o K in
      let '(rs, K2) := spec_nhit_ops n os K1 in (r :: rs, K2)
  end.

(** What an operation on a state that tracks [K] guarantees: it tracks [K'],
    and its lock operations are ordered. *)
Definition nhit_post (s : nhit_hash) (K' : list ((Z * Z) * Z)) (s' : nhit_hash) : Prop :=
  locks_extend s s' /\ rb_entries s' = rb_entries s /\ nhit_repr s' K'.

Lemma nhit_post_refl s K : nhit_repr s K -> nhit_post s K s.
Proof. intros HK. split_and!; [apply locks_extend_refl|done|done]. Qed.
Lemma nhit_post_trans s1 s2 s3 K2 K3 : nhit_post s1 K2 s2 -> nhit_post s2 K3 s3 -> nhit_post s1 K3 s3.
Proof. intros (H1 & H2 & _) (H3 & H4 & H5). split_and!; [by eapply locks_extend_trans|congruence|done]. Qed.

Lemma query_post s K k : nhit_repr s K -> key_ok k ->
  wp (nhit_hash_query k.1 k.2) (fun r s' => r = (spec_query k K).1 /\ nhit_post s (spec_query k K).2 s') s.
Proof.
  intros (L & HL & <-) Hk. eapply wp_mono; [by apply nhit_hash_query_spec|].
  intros r s' (Hl & Hn & -> & Hr). unfold spec_query. destruct (spec_find k (entry_data <$> L)); by split.
Qed.
Lemma insert_post s K k : nhit_repr s K -> key_ok k ->
  wp (nhit_hash_insert k.1 k.2) (fun _ => nhit_post s (spec_insert (Z.to_nat (rb_entries s)) k K)) s.
Proof. intros (L & HL & <-) Hk. eapply wp_mono; [by apply nhit_hash_insert_spec|]. done. Qed.
Lemma set_post s K k c : nhit_repr s K -> key_ok k ->
  wp (nhit_hash_set_occurences k.1 k.2 c) (fun _ => nhit_post s (spec_set k c K)) s.
Proof. intros (L & HL & <-) Hk. eapply wp_mono; [by apply nhit_hash_set_spec|]. done. Qed.

Lemma run_nhit_op_spec s K o : nhit_repr s K -> key_ok (op_key o) ->
  wp (run_nhit_op o) (fun r s' => r = (spec_nhit_op (Z.to_nat (rb_entries s)) o K).1 /\
    nhit_post s (spec_nhit_op (Z.to_nat (rb_entries s)) o K).2 s') s.
Proof.
  intros HK Hk. destruct o as [k|k|k c]; cbn [run_nhit_op spec_nhit_op op_key] in *.
  - wp_step. eapply wp_mono; [by apply (insert_post s K)|]. intros [] s' Hp. by wp_step.
  - by apply query_post.
  - wp_step. eapply wp_mono; [by apply (set_post s K k c)|]. intros [] s' Hp. by wp_step.
Qed.

Lemma run_nhit_ops_spec os s K : nhit_repr s K -> Forall (fun o => key_ok (op_key o)) os ->
  wp (run_nhit_ops os) (fun rs s' => rs = (spec_nhit_ops (Z.to_nat (rb_entries s)) os K).1 /\
    nhit_post s (spec_nhit_ops (Z.to_nat (rb_entries s)) os K).2 s') s.
Proof.
  intros HK Hos. revert s K HK. induction Hos as [|o os Ho Hos IH]; intros s K HK; cbn [run_nhit_ops spec_nhit_ops].
  - wp_step. split; [done|by apply nhit_post_refl].
  - wp_step. eapply wp_mono; [by apply (run_nhit_op_spec s K)|]. intros r s1 [-> H1].
    pose proof H1 as (_ & Hn & HK1). wp_step. eapply wp_mono; [by apply (IH s1 _ HK1)|]. intros rs s2 [-> H2].
    rewrite Hn in *. wp_step. destruct (spec_nhit_op _ o K) as [r K1]. simpl in *.
    destruct (spec_nhit_ops _ os K1). simpl in *. split; [done|]. by eapply nhit_post_trans.
Qed.

(** ** Promotion *)

(** One access to a core line: it is promoted when its counter reaches the
    threshold, and tracked from now on if it was not. *)
Definition spec_access (n : nat) (threshold : Z) (k : Z * Z) (K : list ((Z * Z) * Z)) : bool * list ((Z * Z) * Z) :=
  match spec_query k K with
  | (Some c, K') => (threshold <=? u32 c, K')
  | (None, K') => (false, spec_insert n k K')
  end.

Fixpoint spec_accesses (n : nat) (threshold : Z) (ks : list (Z * Z)) (K : list ((Z * Z) * Z)) :
    list bool * list ((Z * Z) * Z) :=
  match ks with
  | [] => ([], K)
  | k :: ks =>
      let '(b, K1) := spec_access n threshold k K in
      let '(bs, K2) := spec_accesses n threshold ks K1 in (b :: bs, K2)
  end.

Lemma access_post cfg s K k : nhit_repr s K -> key_ok k ->
  let r := spec_access (Z.to_nat (rb_entries s)) (insertion_threshold cfg) k K in
  wp (core_line_should_promote cfg k.1 k.2) (fun b s' => b = r.1 /\ nhit_post s r.2 s') s.
Proof.
  intros HK Hk r. unfold core_line_should_promote, r, spec_access. wp_step.
  eapply wp_mono; [by apply (query_post s K)|]. intros hit s1 [-> H1]. pose proof H1 as (_ & Hn & HK1).
  destruct (spec_query k K) as [[c|] K'] eqn:Hq; simpl in *; [by wp_step|].
  wp_step. eapply wp_mono; [by apply (insert_post s1 K')|]. intros [] s2 H2. wp_step. split; [done|].
  rewrite Hn in H2. by eapply nhit_post_trans.
Qed.

Lemma promote_loop_post cfg ks s K b0 : nhit_repr s K -> Forall key_ok ks ->
  let r := spec_accesses (Z.to_nat (rb_entries s)) (insertion_threshold cfg) ks K in
  wp (should_promote_loop cfg ks b0) (fun b s' => b = b0 && forallb id r.1 /\ nhit_post s r.2 s') s.
Proof.
  intros HK Hks. cbv zeta. revert s K b0 HK. induction Hks as [|k ks Hk Hks IH]; intros s K b0 HK;
    cbn [should_promote_loop spec_accesses].
  - wp_step. simpl. rewrite andb_true_r. split; [done|by apply nhit_post_refl].
  - destruct k as [cid lba]. wp_step. eapply wp_mono; [by apply (access_post cfg s K (cid, lba))|]. intros b s1 [-> H1].
    destruct (spec_access _ _ (cid, lba) K) as [b1 K1]. simpl in H1 |- *. pose proof H1 as (_ & Hn & HK1).
    eapply wp_mono; [by apply (IH s1 K1)|]. rewrite Hn. destruct (spec_accesses _ _ ks K1) as [bs K2]. simpl.
    intros b s2 [-> H2]. split; [|by eapply nhit_post_trans]. by destruct b1, b0.
Qed.

(** The counter of a core line after [j] accesses. *)
Lemma spec_find_insert n k k' K : (0 < n)%nat -> spec_find k (spec_insert n k' K) =
  if decide (k' = k) then Some 1 else spec_find k (take (n - 1) K).
Proof. intros Hn. unfold spec_insert. destruct n; [lia|]. simpl. by rewrite Nat.sub_0_r. Qed.

(** [k] is among the newest [m] entries, with counter [c]. *)
Definition tracked (k : Z * Z) (c : Z) (m : nat) (K : list ((Z * Z) * Z)) : Prop :=
  exists l1 l2, K = l1 ++ (k, c) :: l2 /\ (length l1 <= m)%nat /\ k ∉ l1.*1.

Lemma tracked_find k c m K : tracked k c m K -> spec_find k K = Some c.
Proof.
  intros (l1 & l2 & -> & _ & Hn). induction l1 as [|[k' c'] l1 IH]; simpl in *; [by rewrite decide_True|].
  apply not_elem_of_cons in Hn as [Hne Hn]. rewrite decide_False by done. by apply IH.
Qed.

Lemma tracked_set_same k c c' m K : tracked k c m K -> tracked k c' m (spec_set k c' K).
Proof.
  intros (l1 & l2 & -> & Hm & Hn). exists l1, l2. split_and!; [|done..]. clear Hm.
  induction l1 as [|[k' c''] l1 IH]; simpl in *; [by rewrite decide_True|].
  apply not_elem_of_cons in Hn as [Hne Hn]. rewrite decide_False by done. f_equal. by apply IH.
Qed.

Lemma spec_set_keys k c K : (spec_set k c K).*1 = K.*1.
Proof. induction K as [|[k' c'] K IH]; [done|]. cbn [spec_set]. case_decide; [done|]. rewrite !fmap_cons. f_equal. exact IH. Qed.

Lemma tracked_set_other k k' c c' m K : k <> k' -> tracked k c m K -> tracked k c m (spec_set k' c' K).
Proof.
  intros Hk (l1 & l2 & -> & Hm & Hn). revert m Hm. induction l1 as [|[k1 c1] l1 IH]; intros m Hm; simpl in *.
  - rewrite decide_False by done. exists [], (spec_set k' c' l2). split_and!; [done|simpl; lia|by apply not_elem_of_nil].
  - apply not_elem_of_cons in Hn as [Hne Hn]. case_decide.
    + exists ((k1, c') :: l1), l2. split_and!; [done|done|]. simpl. by apply not_elem_of_cons.
    + destruct m as [|m]; [lia|]. destruct (IH Hn m ltac:(lia)) as (m1 & m2 & -> & Hl & Hnm).
      exists ((k1, c1) :: m1), m2. split_and!; [done|simpl; lia|]. simpl. by apply not_elem_of_cons.
Qed.

Lemma tracked_insert n k k' c m K : (S m < n)%nat -> k <> k' -> tracked k c m K -> tracked k c (S m) (spec_insert n k' K).
Proof.
  intros Hn Hk (l1 & l2 & -> & Hm & Hni). unfold spec_insert. destruct n as [|n]; [lia|]. simpl.
  rewrite take_app, (take_ge l1) by lia. exists ((k', 1) :: l1), (take (n - length l1 - 1) l2).
  split_and!; [|simpl; lia|simpl; by apply not_elem_of_cons]. simpl. f_equal. f_equal.
  destruct (n - length l1)%nat eqn:Heq; [lia|]. simpl. by rewrite Nat.sub_0_r.
Qed.

(** The accesses of single core lines, one after the other. *)
Fixpoint accesses (cfg : nhit_promotion_policy_config) (ks : list (Z * Z)) : M nhit_hash (list bool) :=
  match ks with
  | [] => mret []
  | k :: ks => b ← core_line_should_promote cfg k.1 k.2; bs ← accesses cfg ks; mret (b :: bs)
  end.

Lemma accesses_post cfg ks s K : nhit_repr s K -> Forall key_ok ks ->
  let r := spec_accesses (Z.to_nat (rb_entries s)) (insertion_threshold cfg) ks K in
  wp (accesses cfg ks) (fun bs s' => bs = r.1 /\ nhit_post s r.2 s') s.
Proof.
  intros HK Hks. cbv zeta. revert s K HK. induction Hks as [|k ks Hk Hks IH]; intros s K HK; cbn [accesses spec_accesses].
  - wp_step. split; [done|by apply nhit_post_refl].
  - wp_step. eapply wp_mono; [by apply (access_post cfg s K k)|]. intros b s1 [-> H1].
    destruct (spec_access _ _ k K) as [b1 K1]. simpl in H1 |- *. pose proof H1 as (_ & Hn & HK1).
    wp_step. eapply wp_mono; [by apply (IH s1 K1)|]. rewrite Hn. destruct (spec_accesses _ _ ks K1) as [bs K2]. simpl.
    intros b s2 [-> H2]. wp_step. split; [done|]. by eapply nhit_post_trans.
Qed.

(** [k] was accessed [c] times and [m] accesses to other lines came since. *)
Definition accessed (k : Z * Z) (c : Z) (m : nat) (K : list ((Z * Z) * Z)) : Prop :=
  (c = 0 /\ k ∉ K.*1) \/ (0 < c /\ tracked k c m K).

Lemma spec_find_None k K : k ∉ K.*1 -> spec_find k K = None.
Proof.
  induction K as [|[k' c] K IH]; simpl; [done|]. intros [Hne Hn]%not_elem_of_cons.
  rewrite decide_False by done. by apply IH.
Qed.

Lemma access_same n t k c m K : (0 < n)%nat -> 2 <= t -> 0 <= c < 2 ^ 31 - 1 -> accessed k c m K ->
  (spec_access n t k K).1 = (t <=? c + 1) /\ accessed k (c + 1) m (spec_access n t k K).2.
Proof.
  intros Hn Ht Hc [[-> Hk]|[Hc0 Hk]]; unfold spec_access, spec_query.
  - rewrite (spec_find_None k K Hk). simpl. split; [symmetry; apply Z.leb_gt; lia|]. right. split; [lia|].
    unfold spec_insert. destruct n as [|n]; [lia|]. exists [], (take n K). split_and!; [done|simpl; lia|].
    by apply not_elem_of_nil.
  - rewrite (tracked_find _ _ _ _ Hk). simpl. rewrite s32_small by lia. rewrite u32_small by lia. split; [done|].
    right. split; [lia|]. by eapply tracked_set_same.
Qed.

Lemma access_other n t k k' c m K : (S m < n)%nat -> k' <> k -> accessed k c m K ->
  accessed k c (S m) (spec_access n t k' K).2.
Proof.
  intros Hn Hk Ha. unfold spec_access, spec_query.
  assert (forall c', accessed k c m (spec_set k' c' K)) as Hset.
  { intros c'. destruct Ha as [[-> Ha]|[Hc Ha]]; [left; by rewrite spec_set_keys|right]. split; [done|].
    by apply tracked_set_other. }
  destruct (spec_find k' K) as [c'|]; simpl.
  - destruct (Hset (s32 (c' + 1))) as [?|(? & l1 & l2 & -> & ? & ?)]; [by left|right].
    split; [done|]. exists l1, l2. split_and!; [done|lia|done].
  - destruct Ha as [[-> Ha]|[Hc Ha]]; [left|right]; split; try done; [|by apply tracked_insert].
    unfold spec_insert. destruct n as [|n]; [lia|]. simpl. intros [->|Hin]%elem_of_cons; [done|].
    apply Ha. rewrite fmap_take in Hin. by eapply elem_of_take in Hin as (i & Hi%list_elem_of_lookup_2 & _).
Qed.

(** The number of occurrences of [k] in a list of accesses. *)
Definition occurrences (k : Z * Z) (ks : list (Z * Z)) : nat := length (filter (.= k) ks).

Lemma accesses_count n t k ks c m K : 2 <= t -> 0 <= c ->
  c + Z.of_nat (occurrences k ks) < 2 ^ 31 - 1 -> accessed k c m K ->
  (m + (length ks - occurrences k ks) < n)%nat ->
  exists m', accessed k (c + Z.of_nat (occurrences k ks)) m' (spec_accesses n t ks K).2.
Proof.
  intros Ht. revert c m K. induction ks as [|k' ks IH]; intros c m K Hc Hlt Ha Hm; simpl.
  - exists m. by rewrite Z.add_0_r.
  - destruct (spec_access n t k' K) as [b K1] eqn:Hacc. destruct (spec_accesses n t ks K1) as [bs K2] eqn:Haccs.
    assert (K2 = (spec_accesses n t ks K1).2) as HK2 by (by rewrite Haccs). simpl. rewrite HK2.
    assert (K1 = (spec_access n t k' K).2) as HK1 by (by rewrite Hacc).
    pose proof (length_filter (.= k) ks) as Hlf. unfold occurrences in *. destruct (decide (k' = k)) as [->|Hne].
    + rewrite filter_cons_True in * by done. simpl in *.
      replace (c + Z.of_nat (S (length (filter (.= k) ks)))) with (c + 1 + Z.of_nat (length (filter (.= k) ks))) in * by lia.
      apply (IH (c + 1) m); [lia|lia| |lia]. rewrite HK1. apply access_same; [lia|done|lia|done].
    + rewrite filter_cons_False in * by done. simpl in Hm. apply (IH c (S m)); [done|done| |lia].
      rewrite HK1. apply access_other; [lia|done|done].
Qed.

Lemma spec_accesses_app n t ks1 ks2 K :
  spec_accesses n t (ks1 ++ ks2) K =
    let '(bs1, K1) := spec_accesses n t ks1 K in
    let '(bs2, K2) := spec_accesses n t ks2 K1 in (bs1 ++ bs2, K2).
Proof.
  revert K. induction ks1 as [|k ks1 IH]; intros K; simpl; [by destruct (spec_accesses n t ks2 K)|].
  destruct (spec_access n t k K) as [b K1]. rewrite IH. destruct (spec_accesses n t ks1 K1) as [bs1 K2].
  by destruct (spec_accesses n t ks2 K2).
Qed.

(** ** Initialisation and its resources *)

Inductive resource := RCtx | RHashMap | RHashLocks | RSem (i : Z) | RRing | RSpin.

#[export] Instance resource_eq_dec : EqDecision resource.
Proof. solve_decision. Defined.

(** The environment: whether the [i]-th acquisition succeeds, how many were
    tried, and what is held. *)
Record env_state := mkEnv { succeeds : nat -> bool; tried : nat; live : list resource }.

(** An allocation or the initialisation of a lock, which may fail. *)
Definition acquire (r : resource) : M env_state bool := fun s =>
  if succeeds s (tried s) then Some (true, mkEnv (succeeds s) (S (tried s)) (r :: live s))
  else Some (false, mkEnv (succeeds s) (S (tried s)) (live s)).

Fixpoint drop_resource (r : resource) (l : list resource) : list resource :=
  match l with [] => [] | r' :: l => if decide (r = r') then l else r' :: drop_resource r l end.

(** What is released must be held. *)
Definition release (r : resource) : M env_state unit := fun s =>
  if decide (r ∈ live s) then Some (tt, mkEnv (succeeds s) (tried s) (drop_resource r (live s))) else None.

(** The loop that initialises the locks: the index it stops at and whether all
    could be initialised. *)
Fixpoint init_locks (n : nat) (i : Z) : M env_state (Z * bool) :=
  match n with
  | O => mret (i, true)
  | S n => ok ← acquire (RSem i); if negb ok then mret (i, false) else init_locks n (i + 1)
  end.

(** [while (i_locks--) destroy] *)
Fixpoint destroy_locks (i : nat) : M env_state unit :=
  match i with O => mret tt | S i => release (RSem (Z.of_nat i));; destroy_locks i end.

Definition dealloc_ctx (result : Z) : M env_state (Z * option nhit_hash) := release RCtx;; mret (result, None).
Definition dealloc_hash (result : Z) : M env_state (Z * option nhit_hash) := release RHashMap;; dealloc_ctx result.
Definition dealloc_locks (i_locks result : Z) : M env_state (Z * option nhit_hash) :=
  destroy_locks (Z.to_nat i_locks);; release RHashLocks;; dealloc_hash result.

(** [spin_error] is what [env_spinlock_init] returns when it fails. *)
Definition nhit_hash_init (spin_error hash_size : Z) : M env_state (Z * option nhit_hash) :=
  ok ← acquire RCtx;
  if negb ok then mret (- OCF_ERR_NO_MEM, None)
  else
    let rb_entries := hash_size in
    let hash_entries := u32 (calculate_hash_buckets hash_size) in
    ok ← acquire RHashMap;
    if negb ok then dealloc_ctx (- OCF_ERR_NO_MEM)
    else
      let hash_map := zarray (Z.to_nat hash_entries) (fun _ => u32 rb_entries) in
      ok ← acquire RHashLocks;
      if negb ok then dealloc_hash (- OCF_ERR_NO_MEM)
      else
        '(i_locks, ok) ← init_locks (Z.to_nat hash_entries) 0;
        if negb ok then dealloc_locks i_locks (- OCF_ERR_UNKNOWN)
        else
          ok ← acquire RRing;
          if negb ok then dealloc_locks i_locks (- OCF_ERR_NO_MEM)
          else
            let ring_buffer := zarray (Z.to_nat rb_entries) (fun _ => mkElem 0 0 0 0 OCF_CORE_ID_INVALID true) in
            ok ← acquire RSpin;
            if negb ok then dealloc_locks i_locks spin_error
            else mret (0, Some (mkNhit hash_entries rb_entries hash_map ring_buffer 0 [])).

Definition nhit_hash_deinit (ctx : nhit_hash) : M env_state unit :=
  release RSpin;;
  for_range (Z.to_nat (hash_entries ctx)) 0 (fun i => release (RSem i));;
  release RRing;; release RHashLocks;; release RHashMap;; release RCtx.

Definition sems (n : nat) : list resource := (fun i => RSem (Z.of_nat i)) <$> seq 0 n.

Lemma drop_resource_perm r l : r ∈ l -> l ≡ₚ r :: drop_resource r l.
Proof.
  induction l as [|r' l IH]; [by intros ?%elem_of_nil|]. simpl. case_decide as Hr; [by rewrite Hr|].
  intros [?|Hin]%elem_of_cons; [done|]. rewrite (IH Hin) at 1. apply perm_swap.
Qed.

Lemma wp_acquire r Q s :
  (forall n, Q true (mkEnv (succeeds s) n (r :: live s))) -> (forall n, Q false (mkEnv (succeeds s) n (live s))) ->
  wp (acquire r) Q s.
Proof. intros H1 H2. unfold wp, acquire. destruct (succeeds s (tried s)); eauto. Qed.

(** A release, when what is held is [r] and the rest. *)
Lemma wp_release r l Q s : live s ≡ₚ r :: l ->
  (forall s', live s' ≡ₚ l -> Q tt s') -> wp (release r) Q s.
Proof.
  intros Hl HQ. assert (r ∈ live s) as Hin by (rewrite Hl; by left). unfold release.
  eexists _, _. rewrite decide_True by done. split; [done|]. apply HQ. simpl.
  rewrite (drop_resource_perm r (live s) Hin) in Hl. by apply Permutation_cons_inv in Hl.
Qed.

Lemma sems_S n : sems (S n) ≡ₚ RSem (Z.of_nat n) :: sems n.
Proof. unfold sems. rewrite seq_S, fmap_app. simpl. by rewrite Permutation_app_comm. Qed.

Lemma destroy_locks_spec n l Q s : live s ≡ₚ sems n ++ l -> (forall s', live s' ≡ₚ l -> Q tt s') -> wp (destroy_locks n) Q s.
Proof.
  revert s. induction n as [|n IH]; intros s Hs HQ; cbn [destroy_locks]; [wp_step; by apply HQ|].
  wp_step. apply (wp_release _ (sems n ++ l)); [by rewrite Hs, sems_S|]. intros s' Hs'. by apply IH.
Qed.

Lemma init_locks_spec n i l s : live s ≡ₚ sems i ++ l ->
  wp (init_locks n (Z.of_nat i)) (fun r s' => exists k, r.1 = Z.of_nat k /\ live s' ≡ₚ sems k ++ l /\
    (r.2 = true -> k = (i + n)%nat)) s.
Proof.
  revert i s. induction n as [|n IH]; intros i s Hs; cbn [init_locks].
  - wp_step. exists i. simpl. split_and!; [done|done|]. intros _. lia.
  - wp_step. apply wp_acquire; intros m; simpl.
    + replace (Z.of_nat i + 1) with (Z.of_nat (S i)) by lia. eapply wp_mono; [apply IH|].
      * rewrite sems_S. simpl. by rewrite Hs.
      * intros r s' (k & H1 & H2 & H3). exists k. split_and!; [done|done|]. intros Hr. rewrite (H3 Hr). lia.
    + wp_step. exists i. simpl. split_and!; [done|done|]. by intros.
Qed.

(** The exits of the initialisation. *)
Lemma dealloc_hash_spec r l s : live s ≡ₚ RHashMap :: RCtx :: l ->
  wp (dealloc_hash r) (fun a s' => a = (r, None) /\ live s' ≡ₚ l) s.
Proof.
  intros Hs. unfold dealloc_hash, dealloc_ctx. wp_step. eapply wp_release; [done|]. intros s1 H1.
  wp_step. eapply wp_release; [done|]. intros s2 H2. by wp_step.
Qed.
Lemma dealloc_locks_spec k r l s : live s ≡ₚ sems k ++ RHashLocks :: RHashMap :: RCtx :: l ->
  wp (dealloc_locks (Z.of_nat k) r) (fun a s' => a = (r, None) /\ live s' ≡ₚ l) s.
Proof.
  intros Hs. unfold dealloc_locks. rewrite Nat2Z.id. wp_step. eapply destroy_locks_spec; [done|]. intros s1 H1.
  wp_step. eapply wp_release; [done|]. intros s2 H2. by apply dealloc_hash_spec.
Qed.

Lemma init_repr hash_size : let H := u32 (calculate_hash_buckets hash_size) in
  0 < hash_size < 2 ^ 32 -> 0 < H ->
  nhit_inv (mkNhit H hash_size (zarray (Z.to_nat H) (fun _ => u32 hash_size))
    (zarray (Z.to_nat hash_size) (fun _ => mkElem 0 0 0 0 OCF_CORE_ID_INVALID true)) 0 []) [].
Proof.
  intros H Hn HH. assert (H < 2 ^ 32) by apply u32_bound. split; simpl; try lia.
  - split; simpl; try done.
    + intros x. rewrite zarray_is_Some. lia.
    + intros x. rewrite zarray_is_Some. lia.
    + by intros e ?%elem_of_nil.
    + intros x Hx _. assert (is_Some (zarray (Z.to_nat hash_size) (fun _ : Z => mkElem 0 0 0 0 OCF_CORE_ID_INVALID true) !! x))
        as [a Ha] by (apply zarray_is_Some; lia). rewrite Ha. by apply zarray_lookup in Ha as [_ ->].
    + by intros e ?%elem_of_nil.
    + intros h Hh. split; [|apply dll_nil_list]. apply zarray_lookup. unfold hd_or. simpl.
      rewrite u32_small by lia. split; [lia|done].
    + constructor.
  - done.
  - intros x e [_ ->]%zarray_lookup. done.
Qed.

Lemma sems_seqZ n : sems n = RSem <$> seqZ 0 (Z.of_nat n).
Proof. unfold sems, seqZ. rewrite Nat2Z.id, <- list_fmap_compose. apply list_fmap_ext. intros i x _. simpl. by rewrite Z.add_0_r. Qed.

Lemma deinit_spec h s : 0 <= hash_entries h ->
  live s ≡ₚ RSpin :: RRing :: sems (Z.to_nat (hash_entries h)) ++ [RHashLocks; RHashMap; RCtx] ->
  wp (nhit_hash_deinit h) (fun _ s' => live s' = []) s.
Proof.
  intros HH Hs. unfold nhit_hash_deinit. wp_step. eapply wp_release; [done|]. intros s1 H1. wp_step.
  rewrite sems_seqZ, Z2Nat.id in H1 by done.
  apply (wp_for_range _ (fun j s => live s ≡ₚ RRing :: (RSem <$> seqZ j (hash_entries h - j)) ++ [RHashLocks; RHashMap; RCtx])).
  - intros j s2 Hj H2.
    apply (wp_release _ (RRing :: (RSem <$> seqZ (j + 1) (hash_entries h - (j + 1))) ++ [RHashLocks; RHashMap; RCtx])); [|done].
    rewrite H2, seqZ_cons by lia. replace (Z.pred (hash_entries h - j)) with (hash_entries h - (j + 1)) by lia.
    replace (Z.succ j) with (j + 1) by lia. rewrite fmap_cons. apply perm_swap.
  - by rewrite Z.sub_0_r.
  - rewrite Z2Nat.id by done. intros s2 H2. rewrite Z.add_0_l, seqZ_nil in H2 by lia. simpl in H2.
    wp_step. eapply wp_release; [done|]. intros s3 H3. wp_step. eapply wp_release; [done|]. intros s4 H4.
    wp_step. eapply wp_release; [done|]. intros s5 H5. eapply wp_release; [done|]. intros s6 H6. by apply Permutation_nil.
Qed.

(** What [nhit_hash_init] gives back and holds. *)
Definition init_post (spin_error hash_size : Z) (a : Z * option nhit_hash) (s' : env_state) : Prop :=
  (a.1 = 0 /\ exists h, a.2 = Some h /\ nhit_repr h [] /\ rb_entries h = hash_size /\ lock_ops h = [] /\
     wp (nhit_hash_deinit h) (fun _ s'' => live s'' = []) s') \/
  ((a.1 = - OCF_ERR_NO_MEM \/ a.1 = - OCF_ERR_UNKNOWN) /\ a.2 = None /\ live s' = []) \/
  (a.1 = spin_error /\ a.2 = None /\ live s' = [RRing]).

Lemma init_spec spin_error hash_size s : 0 < hash_size < 2 ^ 32 -> 0 < u32 (calculate_hash_buckets hash_size) ->
  live s = [] -> wp (nhit_hash_init spin_error hash_size) (init_post spin_error hash_size) s.
Proof.
  intros Hn HH Hs. unfold nhit_hash_init.
  assert (forall r s', r = - OCF_ERR_NO_MEM \/ r = - OCF_ERR_UNKNOWN -> live s' ≡ₚ [] -> init_post spin_error hash_size (r, None) s') as Hfail
    by (intros r s' Hr Hl%Permutation_nil_r; right; left; by split_and!).
  wp_step. apply wp_acquire; intros n1; simpl; [|wp_step; apply Hfail; [by left|by rewrite Hs]].
  rewrite Hs. wp_step. apply wp_acquire; intros n2; simpl; cycle 1.
  { unfold dealloc_ctx. wp_step. apply (wp_release _ []); [done|]. intros s1 H1. wp_step. apply Hfail; [by left|done]. }
  wp_step. apply wp_acquire; intros n3; simpl; cycle 1.
  { eapply wp_mono; [by apply (dealloc_hash_spec _ [])|]. intros a s1 [-> H1]. apply Hfail; [by left|done]. }
  set (H := u32 (calculate_hash_buckets hash_size)) in *. wp_step.
  eapply wp_mono; [by apply (init_locks_spec _ 0 [RHashLocks; RHashMap; RCtx])|].
  intros [i ok] s1 (k & Hi & Hl & Hk). simpl in Hi, Hk. subst i. destruct ok; simpl; cycle 1.
  { eapply wp_mono; [by apply (dealloc_locks_spec k _ [])|]. intros a s2 [-> H2]. apply Hfail; [by right|done]. }
  wp_step. apply wp_acquire; intros n5; simpl; cycle 1.
  { eapply wp_mono; [by apply (dealloc_locks_spec k _ [])|]. intros a s2 [-> H2]. apply Hfail; [by left|done]. }
  wp_step. apply wp_acquire; intros n6; simpl; cycle 1.
  { eapply wp_mono; [apply (dealloc_locks_spec k _ [RRing])|].
    - simpl. rewrite Hl. by rewrite (Permutation_cons_append (sems k ++ _)), <- app_assoc.
    - intros a s2 [-> H2]. right. right. split_and!; [done|done|]. by apply Permutation_singleton_r in H2. }
  wp_step. left. split; [done|]. eexists. split; [done|]. split_and!; [|done|done|].
  - exists []. split; [by apply init_repr|done].
  - apply deinit_spec; simpl; [lia|]. rewrite Hl, (Hk eq_refl). done.
Qed.

(** ** Main properties *)

(** C12: nhit tracks exactly the last insertions.  Over any sequence of
    insertions, queries and resets of counters, whatever collides in the hash
    table, the code returns what the abstract policy returns, which is the list
    of the last [rb_entries] insertions with their counters, newest first: a
    query finds a core line exactly when it is among them, increments the
    counter of its newest insertion and returns it; an insertion evicts the
    oldest one.  No check fails and no loop runs on. *)
Theorem nhit_tracks_last_insertions s K os : nhit_repr s K -> Forall (fun o => key_ok (op_key o)) os ->
  exists s', run_nhit_ops os s = Some ((spec_nhit_ops (Z.to_nat (rb_entries s)) os K).1, s') /\
    nhit_repr s' (spec_nhit_ops (Z.to_nat (rb_entries s)) os K).2.
Proof.
  intros HK Hos. destruct (run_nhit_ops_spec os s K HK Hos) as (rs & s' & Hr & -> & _ & _ & HK').
  by exists s'.
Qed.

(** Promotion by count.  A core line that is not tracked yet, accessed any
    number of times between fewer accesses to other lines than the ring has
    slots, is promoted at its next access exactly when that access is at least
    the [insertion_threshold]-th. *)
Theorem nhit_promotes_at_threshold cfg s K k ks :
  nhit_repr s K -> Forall key_ok (ks ++ [k]) -> k ∉ K.*1 -> 2 <= insertion_threshold cfg ->
  Z.of_nat (length ks - occurrences k ks) < rb_entries s -> Z.of_nat (length ks) < 2 ^ 31 - 1 ->
  exists bs s', accesses cfg (ks ++ [k]) s =
    Some (bs ++ [insertion_threshold cfg <=? Z.of_nat (occurrences k ks) + 1], s').
Proof.
  intros HK Hks Hk Ht Hm Hlen. destruct (accesses_post cfg (ks ++ [k]) s K HK Hks) as (bs & s' & Hr & -> & _).
  rewrite spec_accesses_app in Hr. set (n := Z.to_nat (rb_entries s)) in *.
  pose proof (length_filter (.= k) ks) as Hocc. fold (occurrences k ks) in Hocc.
  destruct (accesses_count n (insertion_threshold cfg) k ks 0 0 K) as [m Ha]; [done|lia|lia|by left|unfold n; lia|].
  destruct (spec_accesses n _ ks K) as [bs K1]. simpl in Ha, Hr. exists bs, s'. rewrite Hr. simpl.
  pose proof (access_same n (insertion_threshold cfg) k (0 + Z.of_nat (occurrences k ks)) m K1 ltac:(unfold n; lia) Ht ltac:(lia) Ha) as [Hb _].
  destruct (spec_access n _ k K1) as [b K2]. simpl in Hb |- *. by rewrite Hb.
Qed.

(** The decision for a request.  While the cache is filled below the
    trigger, every request is promoted and nothing is recorded; above it, each
    core line of the request is accessed in order, and the request is promoted
    when all of them reached the threshold or when one of them is already in the
    cache. *)
Theorem nhit_request_decision cfg entries num_free cachelines mapped s K ks :
  nhit_repr s K -> Forall key_ok ks ->
  let full := OCF_DIV_ROUND_UP (u64 (trigger_threshold cfg * cachelines)) 100 <=? u32 (entries - num_free) in
  let r := spec_accesses (Z.to_nat (rb_entries s)) (insertion_threshold cfg) ks K in
  exists s', nhit_req_should_promote cfg entries num_free cachelines mapped ks s =
      Some (if full then forallb id r.1 || negb (mapped =? 0) else true, s') /\
    nhit_repr s' (if full then r.2 else K).
Proof.
  intros HK Hks full r. unfold nhit_req_should_promote. cbv zeta.
  rewrite (u64_small (u32 _)) by (pose proof (u32_bound (entries - num_free)); lia).
  rewrite Z.ltb_antisym. fold full. destruct full; simpl; [|by exists s].
  destruct (promote_loop_post cfg ks s K true HK Hks) as (b & s' & Hr & Hb & _ & _ & HK'). exists s'. split; [|done].
  unfold mbind, M_bind. rewrite Hr. simpl in Hb. subst b. done.
Qed.

(** A thread that performs the lock operations of a run of nhit operations. *)
Definition nhit_thread (t : thread) : Prop := exists s K os rs s',
  nhit_repr s K /\ lock_ops s = [] /\ Forall (fun o => key_ok (op_key o)) os /\
  run_nhit_ops os s = Some (rs, s') /\ t = mkThread [] (lock_ops s').

(** The bucket locks of nhit cannot deadlock.  Any number of threads that
    perform the lock operations of any sequences of insertions, queries and
    resets: in every state they can reach some thread can go on unless all have
    finished, and from there all can finish. *)
Theorem nhit_locks_no_deadlock (ts0 ts : list thread) :
  Forall nhit_thread ts0 -> rtc pool_step ts0 ts ->
  (Forall finished ts \/ exists ts', pool_step ts ts') /\ exists ts', rtc pool_step ts ts' /\ Forall finished ts'.
Proof.
  intros Hall Hr. assert (pool_ok ts) as Hts.
  { eapply pool_steps_ok; [|exact Hr]. intros t Ht. rewrite Forall_forall in Hall.
    destruct (Hall t Ht) as (s & K & os & rs & s' & HK & Hl & Hos & Hrun & ->).
    destruct (run_nhit_ops_spec os s K HK Hos) as (rs' & s1 & Hrun' & _ & (ops & Hops & Ho) & _).
    rewrite Hrun in Hrun'. injection Hrun' as _ <-. simpl. rewrite Hops, Hl. simpl.
    rewrite <- (app_nil_r ops). by apply Ho. }
  destruct (pool_completes ts Hts) as (ts' & Hr' & Hd). split; [|exists ts'; split; [done|by apply Forall_forall]].
  destruct (pool_step_dec ts) as [|Hno]; [by right|left]. apply Forall_forall. intros t Ht.
  assert (todo t = []) as H0 by (by eapply pool_progress). split; [done|]. specialize (Hts t Ht). by rewrite H0 in Hts.
Qed.

(** Initialisation of nhit.  Whichever allocation or lock initialisation
    fails, [nhit_hash_init] either returns 0 and a structure that tracks nothing,
    all of whose resources [nhit_hash_deinit] gives back, or returns the error
    code without a structure, holding nothing; but when the spin lock is what
    fails, it returns that error with the ring buffer still allocated. *)
Theorem nhit_hash_init_resources spin_error hash_size s :
  0 < hash_size < 2 ^ 32 -> 0 < u32 (calculate_hash_buckets hash_size) -> live s = [] ->
  exists a s', nhit_hash_init spin_error hash_size s = Some (a, s') /\ init_post spin_error hash_size a s'.
Proof. intros Hn HH Hs. apply (init_spec spin_error hash_size s Hn HH Hs). Qed.

(** Parameters of nhit.  Setting a parameter within its range succeeds,
    reads back, and leaves the other one; a value out of range or an unknown
    parameter is refused and changes nothing. *)
Theorem nhit_param_roundtrip id v cfg :
  let lo := if id =? ocf_nhit_insertion_threshold then OCF_NHIT_MIN_THRESHOLD else OCF_NHIT_MIN_TRIGGER in
  let hi := if id =? ocf_nhit_insertion_threshold then OCF_NHIT_MAX_THRESHOLD else OCF_NHIT_MAX_TRIGGER in
  let '(r, cfg') := nhit_set_param id v cfg in
  (r = 0 <-> (id = ocf_nhit_insertion_threshold \/ id = ocf_nhit_trigger_threshold) /\ lo <= v <= hi) /\
  (r = 0 -> nhit_get_param id cfg' = (0, Some v)) /\
  (r <> 0 -> r = - OCF_ERR_INVAL /\ cfg' = cfg) /\
  (forall id', id' <> id -> nhit_get_param id' cfg' = nhit_get_param id' cfg).
Proof.
  unfold nhit_set_param, nhit_get_param, ocf_nhit_insertion_threshold, ocf_nhit_trigger_threshold.
  destruct (Z.eqb_spec id 0) as [->|H0]; [|destruct (Z.eqb_spec id 1) as [->|H1]]; cbv zeta.
  - destruct (_ && _) eqn:Hb; simpl in *; rewrite ?andb_true_iff, ?andb_false_iff, ?Z.leb_le, ?Z.leb_gt in Hb;
      (split_and!; [split; [intros ?|intros [? ?]]|intros ?|intros ?|intros id' ?]); try done; try lia.
    by rewrite (proj2 (Z.eqb_neq id' 0)).
  - destruct (_ && _) eqn:Hb; simpl in *; rewrite ?andb_true_iff, ?andb_false_iff, ?Z.leb_le, ?Z.leb_gt in Hb;
      (split_and!; [split; [intros ?|intros [? ?]]|intros ?|intros ?|intros id' ?]); try done; try lia.
    by rewrite (proj2 (Z.eqb_neq id' 1)).
  - split_and!; [split; [intros ?|intros [? ?]]|intros ?|intros ?|intros id' ?]; done || lia.
Qed.

(** ** Witnesses *)

Definition env_ok : env_state := mkEnv (fun _ => true) 0 [].

(** The structure for four entries. *)
Definition wit_nhit : nhit_hash :=
  mkNhit 4098 4 (zarray 4098 (fun _ => 4)) (zarray 4 (fun _ => mkElem 0 0 0 0 OCF_CORE_ID_INVALID true)) 0 [].

Lemma wit_nhit_repr : nhit_repr wit_nhit [].
Proof.
  exists []. split; [|done]. apply (init_repr 4); [done|]. vm_compute. done.
Qed.

Definition wit_nhit_ops : list nhit_op :=
  [OpInsert (1, 7); OpQuery (1, 7); OpInsert (1, 7 + 4098); OpInsert (2, 9); OpSet (1, 7) 5; OpInsert (2, 10);
   OpQuery (1, 7); OpInsert (2, 11); OpQuery (1, 7)].

Lemma nhit_tracks_last_insertions_witness :
  exists s', run_nhit_ops wit_nhit_ops wit_nhit =
      Some ([None; Some 2; None; None; None; None; Some 6; None; None], s') /\
    nhit_repr s' [((2, 11), 1); ((2, 10), 1); ((2, 9), 1); ((1, 4105), 1)].
Proof.
  apply (nhit_tracks_last_insertions wit_nhit [] wit_nhit_ops); [exact wit_nhit_repr|].
  repeat (apply Forall_cons; split; [done|]). by apply Forall_nil.
Defined.

Lemma nhit_promotes_at_threshold_witness :
  exists bs s', accesses nhit_setup [(1, 7); (1, 8); (1, 7); (1, 9); (1, 7)] wit_nhit = Some (bs ++ [true], s').
Proof.
  apply (nhit_promotes_at_threshold nhit_setup wit_nhit [] (1, 7) [(1, 7); (1, 8); (1, 7); (1, 9)]);
    [exact wit_nhit_repr| |by apply not_elem_of_nil|done|done|done].
  repeat (apply Forall_cons; split; [done|]). by apply Forall_nil.
Defined.

Lemma nhit_request_decision_witness :
  exists s', nhit_req_should_promote nhit_setup 100 10 100 0 [(1, 7); (1, 8)] wit_nhit = Some (false, s') /\
    nhit_repr s' [((1, 8), 1); ((1, 7), 1)].
Proof.
  apply (nhit_request_decision nhit_setup 100 10 100 0 wit_nhit [] [(1, 7); (1, 8)]); [exact wit_nhit_repr|].
  repeat (apply Forall_cons; split; [done|]). by apply Forall_nil.
Defined.

Lemma nhit_locks_no_deadlock_witness : exists t,
  (Forall finished [t; t] \/ exists ts', pool_step [t; t] ts') /\ exists ts', rtc pool_step [t; t] ts' /\ Forall finished ts'.
Proof.
  destruct (run_nhit_ops_spec wit_nhit_ops wit_nhit [] wit_nhit_repr) as (rs & s' & Hr & _).
  { repeat (apply Forall_cons; split; [done|]). by apply Forall_nil. }
  exists (mkThread [] (lock_ops s')). apply (nhit_locks_no_deadlock [mkThread [] (lock_ops s'); mkThread [] (lock_ops s')]); [|done].
  assert (nhit_thread (mkThread [] (lock_ops s'))).
  { exists wit_nhit, [], wit_nhit_ops, rs, s'. split_and!; [exact wit_nhit_repr|done| |done|done].
    repeat (apply Forall_cons; split; [done|]). by apply Forall_nil. }
  by repeat constructor.
Defined.

(** The fourth acquisition fails: the first bucket lock. *)
Lemma nhit_hash_init_resources_witness :
  exists a s', nhit_hash_init (-1) 4 (mkEnv (fun i => negb (Nat.eqb i 3)) 0 []) = Some (a, s') /\ init_post (-1) 4 a s'.
Proof. apply (nhit_hash_init_resources (-1) 4 (mkEnv (fun i => negb (Nat.eqb i 3)) 0 [])); [done|vm_compute; done|done]. Defined.

(** The leak: all acquisitions but that of the spin lock succeed. *)
Lemma nhit_hash_init_leaks_ring :
  (fun p => (p.1, live p.2)) <$> nhit_hash_init (-1) 8 (mkEnv (fun i => negb (Nat.eqb i 4102)) 0 []) =
    Some ((-1, None), [RRing]).
Proof. vm_compute. reflexivity. Qed.
