(* ===== verification/Refcnt.v ===== *)
(** Reference counters: ocf/src/utils/utils_refcnt.c.

    The functions are programs over the atomic actions the code performs, so
    that threads can be interleaved at every access to the shared counter.  The
    clients are modelled by ghost counts of the references and freezes they own
    and by the rules their calls obey. *)

From S2P Require Import Prelude.

(** ** Programs over atomic actions *)

Inductive var := Counter | Freeze | Callback.

Inductive action :=
  | Read (x : var)
  | Set_ (x : var) (v : Z)
  | IncReturn (x : var)
  | DecReturn (x : var)
  | Cmpxchg (x : var) (old new : Z)
  | SetCb
  | CallCb.

(** [Stop] is an [ENV_BUG_ON] that fires. *)
Inductive prog :=
  | Done (r : Z)
  | Stop
  | Act (a : action) (k : Z -> prog).

Fixpoint bind (p : prog) (f : Z -> prog) : prog :=
  match p with
  | Done r => f r
  | Stop => Stop
  | Act a k => Act a (fun x => bind (k x) f)
  end.

(** ** The functions *)

Definition ocf_refcnt_dec : prog :=
  Act (DecReturn Counter) (fun val =>
  if val <? 0 then Stop
  else if val =? 0 then
    Act (Cmpxchg Callback 1 0) (fun old =>
    if negb (old =? 0) then Act CallCb (fun _ => Done val) else Done val)
  else Done val).

Definition ocf_refcnt_inc : prog :=
  Act (Read Freeze) (fun freeze =>
  if freeze =? 0 then
    Act (IncReturn Counter) (fun val =>
    Act (Read Freeze) (fun freeze =>
    if freeze =? 0 then Done val else bind ocf_refcnt_dec (fun _ => Done 0)))
  else Done 0).

Definition ocf_refcnt_freeze : prog := Act (IncReturn Freeze) (fun _ => Done 0).

Definition ocf_refcnt_register_zero_cb : prog :=
  Act (Read Freeze) (fun freeze =>
  if freeze =? 0 then Stop
  else
    Act (Read Callback) (fun callback =>
    if negb (callback =? 0) then Stop
    else
      Act (IncReturn Counter) (fun _ =>
      Act SetCb (fun _ =>
      Act (Set_ Callback 1) (fun _ =>
      bind ocf_refcnt_dec (fun _ => Done 0)))))).

Definition ocf_refcnt_unfreeze : prog :=
  Act (DecReturn Freeze) (fun val => if val <? 0 then Stop else Done 0).

Definition ocf_refcnt_frozen : prog :=
  Act (Read Freeze) (fun v => Done (if v =? 0 then 0 else 1)).

(** ** The shared structure *)

(** [struct ocf_refcnt]; [cb] says whether a callback has been stored. *)
Record ocf_refcnt := mkRefcnt { counter : Z; freeze : Z; callback : Z; cb : bool }.

Definition ocf_refcnt_init : ocf_refcnt := mkRefcnt 0 0 0 false.

Definition get_var (x : var) (s : ocf_refcnt) : Z :=
  match x with Counter => counter s | Freeze => freeze s | Callback => callback s end.
Definition set_var (x : var) (v : Z) (s : ocf_refcnt) : ocf_refcnt :=
  match x with
  | Counter => mkRefcnt v (freeze s) (callback s) (cb s)
  | Freeze => mkRefcnt (counter s) v (callback s) (cb s)
  | Callback => mkRefcnt (counter s) (freeze s) v (cb s)
  end.

(** The value of an action and the structure after it. *)
Definition exec (a : action) (s : ocf_refcnt) : Z * ocf_refcnt :=
  match a with
  | Read x => (get_var x s, s)
  | Set_ x v => (0, set_var x v s)
  | IncReturn x => let v := s32 (get_var x s + 1) in (v, set_var x v s)
  | DecReturn x => let v := s32 (get_var x s - 1) in (v, set_var x v s)
  | Cmpxchg x old new => (get_var x s, if get_var x s =? old then set_var x new s else s)
  | SetCb => (0, mkRefcnt (counter s) (freeze s) (callback s) true)
  | CallCb => (0, s)
  end.

(** ** Threads and clients *)

Inductive call := CInc | CDec | CFreeze | CUnfreeze | CRegister.

Definition body (c : call) : prog :=
  match c with
  | CInc => ocf_refcnt_inc
  | CDec => ocf_refcnt_dec
  | CFreeze => ocf_refcnt_freeze
  | CUnfreeze => ocf_refcnt_unfreeze
  | CRegister => ocf_refcnt_register_zero_cb
  end.

Definition thread : Type := option (call * prog).

(** [refs] and [freezes]: what the clients own; [pending]: a callback was
    registered and has not run; [fired]: for each run of a callback, how many
    references there were. *)
Record state := mkState {
  sh : ocf_refcnt;
  threads : list thread;
  refs : nat;
  freezes : nat;
  pending : bool;
  fired : list nat;
}.

Definition busy (t : thread) : nat := match t with Some _ => 1 | None => 0 end.
Definition total (f : thread -> nat) (ts : list thread) : nat := sum_list_with f ts.

(** A successful [ocf_refcnt_inc] that has not returned yet. *)
Definition granted (t : thread) : nat :=
  match t with Some (CInc, Done r) => if 0 <? r then 1 else 0 | _ => 0 end.

(** The references the clients hold. *)
Definition held (s : state) : nat := refs s + total granted (threads s).

(** The next action of the thread is the exchange that claims the callback. *)
Definition claiming (t : thread) : bool :=
  match t with Some (_, Act (Cmpxchg _ _ _) _) => true | _ => false end.

(** The rules for a call: a reference or a freeze that is given back is owned;
    a callback is registered while frozen and none is pending, and the last
    freeze stays until it ran; the counts fit an [int].  With [strict], no
    thread is about to claim a callback when one is registered. *)
Definition may_call (strict : bool) (c : call) (s : state) : Prop :=
  Z.of_nat (refs s + freezes s + total busy (threads s)) < 2 ^ 31 - 1 /\
  match c with
  | CInc | CFreeze => True
  | CDec => (0 < refs s)%nat
  | CUnfreeze => (0 < freezes s)%nat /\ (pending s = true -> 1 < freezes s)%nat
  | CRegister => (0 < freezes s)%nat /\ pending s = false /\
                 (strict = true -> Forall (fun t => claiming t = false) (threads s))
  end.

Definition start_call (i : nat) (c : call) (s : state) : state :=
  mkState (sh s) (<[i := Some (c, body c)]> (threads s))
    (match c with CDec => pred (refs s) | _ => refs s end)
    (match c with CUnfreeze => pred (freezes s) | _ => freezes s end)
    (match c with CRegister => true | _ => pending s end) (fired s).

Definition act (i : nat) (c : call) (a : action) (k : Z -> prog) (s : state) : state :=
  let '(x, sh') := exec a (sh s) in
  mkState sh' (<[i := Some (c, k x)]> (threads s)) (refs s) (freezes s)
    (match a with CallCb => false | _ => pending s end)
    (match a with CallCb => fired s ++ [held s] | _ => fired s end).

Definition return_call (i : nat) (c : call) (r : Z) (s : state) : state :=
  mkState (sh s) (<[i := None]> (threads s))
    (match c with CInc => if 0 <? r then S (refs s) else refs s | _ => refs s end)
    (match c with CFreeze => S (freezes s) | _ => freezes s end) (pending s) (fired s).

Inductive step (strict : bool) : state -> state -> Prop :=
  | step_call s i c : threads s !! i = Some None -> may_call strict c s -> step strict s (start_call i c s)
  | step_act s i c a k : threads s !! i = Some (Some (c, Act a k)) -> step strict s (act i c a k s)
  | step_return s i c r : threads s !! i = Some (Some (c, Done r)) -> step strict s (return_call i c r s).

(** [n] threads and a new counter. *)
Definition init (n : nat) : state := mkState ocf_refcnt_init (replicate n None) 0 0 false [].

Definition reachable (strict : bool) (n : nat) (s : state) : Prop := rtc (step strict) (init n) s.

(** ** Program points

    Every thread is at one of these points; [code_of] gives the code to run. *)

Inductive pc :=
  | PIdle
  | PInc0 | PInc1 | PInc2 (v : Z) | PInc3 (v : Z)
  | PDec0 (c : call) | PDec1 (c : call) | PDec2 (c : call)
  | PFrz0 | PUnf0
  | PReg0 | PReg1 | PReg2 | PReg3 | PReg4
  | PEnd (c : call) (v : Z).

(** What follows [ocf_refcnt_dec] in each function that calls it. *)
Definition after_dec (c : call) (v : Z) : prog := match c with CDec => Done v | _ => Done 0 end.

Definition dec1 : prog := Act (Cmpxchg Callback 1 0) (fun old =>
  if negb (old =? 0) then Act CallCb (fun _ => Done 0) else Done 0).

Definition pc_prog (c : call) (p : prog) : prog := match c with CDec => p | _ => bind p (fun _ => Done 0) end.

Definition code_of (p : pc) : thread :=
  match p with
  | PIdle => None
  | PInc0 => Some (CInc, ocf_refcnt_inc)
  | PInc1 => Some (CInc, Act (IncReturn Counter) (fun val =>
      Act (Read Freeze) (fun freeze => if freeze =? 0 then Done val else bind ocf_refcnt_dec (fun _ => Done 0))))
  | PInc2 v => Some (CInc, Act (Read Freeze) (fun freeze => if freeze =? 0 then Done v else bind ocf_refcnt_dec (fun _ => Done 0)))
  | PInc3 v => Some (CInc, Done v)
  | PDec0 c => Some (c, pc_prog c ocf_refcnt_dec)
  | PDec1 c => Some (c, pc_prog c dec1)
  | PDec2 c => Some (c, pc_prog c (Act CallCb (fun _ => Done 0)))
  | PFrz0 => Some (CFreeze, ocf_refcnt_freeze)
  | PUnf0 => Some (CUnfreeze, ocf_refcnt_unfreeze)
  | PReg0 => Some (CRegister, ocf_refcnt_register_zero_cb)
  | PReg1 => Some (CRegister, Act (Read Callback) (fun callback => if negb (callback =? 0) then Stop else
      Act (IncReturn Counter) (fun _ => Act SetCb (fun _ => Act (Set_ Callback 1) (fun _ => bind ocf_refcnt_dec (fun _ => Done 0))))))
  | PReg2 => Some (CRegister, Act (IncReturn Counter) (fun _ => Act SetCb (fun _ => Act (Set_ Callback 1) (fun _ => bind ocf_refcnt_dec (fun _ => Done 0)))))
  | PReg3 => Some (CRegister, Act SetCb (fun _ => Act (Set_ Callback 1) (fun _ => bind ocf_refcnt_dec (fun _ => Done 0))))
  | PReg4 => Some (CRegister, Act (Set_ Callback 1) (fun _ => bind ocf_refcnt_dec (fun _ => Done 0)))
  | PEnd c v => Some (c, Done v)
  end.

(** A thread's contribution to the counter, to the freeze count, and its part
    in the registration of a callback. *)
Definition w_counter (p : pc) : nat :=
  match p with PInc2 _ | PInc3 _ | PDec0 _ | PReg3 | PReg4 => 1 | _ => 0 end.
Definition w_freeze (p : pc) : nat := match p with PUnf0 | PEnd CFreeze _ => 1 | _ => 0 end.
Definition w_register (p : pc) : nat := match p with PReg0 | PReg1 | PReg2 | PReg3 | PReg4 | PDec2 _ => 1 | _ => 0 end.
Definition w_registering (p : pc) : nat := match p with PReg0 | PReg1 | PReg2 | PReg3 | PReg4 => 1 | _ => 0 end.
Definition w_busy (p : pc) : nat := match p with PIdle => 0 | _ => 1 end.
Definition w_granted (p : pc) : nat := match p with PInc3 _ => 1 | _ => 0 end.
(** Points that only occur for the calls that reach them. *)
Definition pc_ok (p : pc) : Prop :=
  match p with
  | PDec0 c | PDec1 c | PDec2 c => c = CInc \/ c = CDec \/ c = CRegister
  | PInc2 v | PInc3 v => 0 < v
  | PEnd CInc v => v = 0
  | _ => True
  end.

Definition tot (w : pc -> nat) (ps : list pc) : nat := sum_list_with w ps.

Lemma tot_insert w ps i p p' : ps !! i = Some p -> (tot w (<[i := p']> ps) + w p = tot w ps + w p')%nat.
Proof.
  unfold tot. revert i. induction ps as [|q ps IH]; intros [|i]; simpl; try done.
  - intros [= ->]. lia.
  - intros Hi. specialize (IH i Hi). lia.
Qed.
Lemma tot_elem w ps i p : ps !! i = Some p -> (w p <= tot w ps)%nat.
Proof.
  unfold tot. revert i. induction ps as [|q ps IH]; intros [|i]; simpl; try done.
  - intros [= ->]. lia.
  - intros Hi. specialize (IH i Hi). lia.
Qed.
Lemma tot_le w w' ps : (forall p, (w p <= w' p)%nat) -> (tot w ps <= tot w' ps)%nat.
Proof. intros Hw. unfold tot. induction ps as [|q ps IH]; simpl; [lia|]. specialize (Hw q). lia. Qed.
Lemma tot_zero w ps : tot w ps = 0%nat <-> Forall (fun p => w p = 0%nat) ps.
Proof.
  unfold tot. induction ps as [|q ps IH]; simpl; [by split|]. rewrite Forall_cons, <- IH. lia.
Qed.
Lemma total_code f w ps : (forall p, pc_ok p -> f (code_of p) = w p) -> Forall pc_ok ps -> total f (code_of <$> ps) = tot w ps.
Proof.
  intros Hf. induction 1 as [|q ps Hq Hps IH]; [done|].
  change (f (code_of q) + total f (code_of <$> ps) = w q + tot w ps)%nat. by rewrite Hf, IH.
Qed.

Definition w_claim (p : pc) : nat := match p with PDec1 _ => 1 | _ => 0 end.
Definition w_call (p : pc) : nat := match p with PDec2 _ => 1 | _ => 0 end.

(** ** The invariant *)

Record inv (strict : bool) (s : state) (ps : list pc) : Prop := {
  i_threads : threads s = code_of <$> ps;
  i_ok : Forall pc_ok ps;
  i_counter : counter (sh s) = Z.of_nat (refs s + tot w_counter ps);
  i_freeze : freeze (sh s) = Z.of_nat (freezes s + tot w_freeze ps);
  i_callback : 0 <= callback (sh s) /\
    callback (sh s) + Z.of_nat (tot w_register ps) = if pending s then 1 else 0;
  i_bound : Z.of_nat (refs s + freezes s + tot w_busy ps) < 2 ^ 31;
  i_pending : pending s = true -> (0 < freezes s)%nat;
  (* a callback that was not claimed yet will be *)
  i_wake : callback (sh s) = 1 -> 0 < counter (sh s) \/ (0 < tot w_claim ps)%nat;
  (* while one is pending, nobody claims it with references held *)
  i_safe : strict = true -> pending s = true -> (0 < tot w_claim ps + tot w_call ps)%nat ->
    (refs s + tot w_granted ps = 0)%nat;
  i_fired : strict = true -> Forall (eq 0%nat) (fired s);
}.

(** The equations for all weights when a thread moves from [p] to [p']. *)
Ltac weights ps i p p' Hp :=
  pose proof (tot_insert w_counter ps i p p' Hp); pose proof (tot_insert w_freeze ps i p p' Hp);
  pose proof (tot_insert w_register ps i p p' Hp); pose proof (tot_insert w_busy ps i p p' Hp);
  pose proof (tot_insert w_claim ps i p p' Hp); pose proof (tot_insert w_call ps i p p' Hp);
  pose proof (tot_insert w_granted ps i p p' Hp); pose proof (tot_insert w_registering ps i p p' Hp);
  pose proof (tot_elem w_counter ps i p Hp); pose proof (tot_elem w_freeze ps i p Hp);
  pose proof (tot_elem w_register ps i p Hp); pose proof (tot_elem w_claim ps i p Hp);
  pose proof (tot_elem w_call ps i p Hp); pose proof (tot_elem w_granted ps i p Hp);
  pose proof (tot_le w_granted w_counter (<[i := p']> ps) ltac:(intros []; simpl; lia));
  pose proof (tot_le w_counter w_busy (<[i := p']> ps) ltac:(intros []; simpl; lia));
  pose proof (tot_le w_freeze w_busy (<[i := p']> ps) ltac:(intros [| | | | | | | | | | | | | | |[]]; simpl; lia));
  cbn [w_counter w_freeze w_register w_registering w_busy w_granted w_claim w_call] in *.

Lemma inv_threads_insert s ps i p : threads s = code_of <$> ps ->
  <[i := code_of p]> (threads s) = code_of <$> <[i := p]> ps.
Proof. intros ->. by rewrite list_fmap_insert. Qed.

Lemma pc_ok_insert ps i p : Forall pc_ok ps -> pc_ok p -> Forall pc_ok (<[i := p]> ps).
Proof. intros. by apply Forall_insert. Qed.

Lemma total_granted ps : Forall pc_ok ps -> total granted (code_of <$> ps) = tot w_granted ps.
Proof.
  apply total_code. intros [| | | v | v | [] | [] | [] | | | | | | | | [] v] Hok; simpl in *; try done.
  - by rewrite (proj2 (Z.ltb_lt 0 v)).
  - by subst.
Qed.

(** The step to [p'] keeps the invariant, by arithmetic on the weights. *)
Ltac use_hyps :=
  repeat match goal with H : ?x = ?x -> _ |- _ => specialize (H eq_refl) | H : ?A -> _, H' : ?A |- _ => lazymatch type of A with Prop => specialize (H H') end end.
Ltac by_weights := intros; use_hyps; repeat (case_match; try discriminate); try lia.
Ltac moved ps i p p' Hp Ht :=
  weights ps i p p' Hp; split; cbn [sh threads refs freezes pending fired counter freeze callback cb];
  [exact (inv_threads_insert _ ps i p' Ht)|apply pc_ok_insert; [done|solve [done|simpl; lia|simpl; tauto]]| | | | | | | |]; try done; by_weights.

Ltac goto ps i p p' Hp Ht := exists p'; moved ps i p p' Hp Ht.

(** One atomic action of a thread, and the point it leads to. *)
Ltac act_dec0 ps i d Hp Ht Hs32 s :=
  rewrite Hs32; [|weights ps i (PDec0 d) (PDec1 d) Hp; lia];
  replace (counter (sh s) - 1 <? 0) with false by (symmetry; apply Z.ltb_ge; weights ps i (PDec0 d) (PDec1 d) Hp; lia);
  let Hz := fresh "Hz" in
  destruct (Z.eqb_spec (counter (sh s) - 1) 0) as [Hz|Hz];
  [rewrite Hz; goto ps i (PDec0 d) (PDec1 d) Hp Ht
  |goto ps i (PDec0 d) (PEnd d (match d with CDec => counter (sh s) - 1 | _ => 0 end)) Hp Ht].

Ltac act_dec1 ps i d Hp Ht s :=
  let Hz := fresh "Hz" in
  destruct (Z.eqb_spec (callback (sh s)) 1) as [Hz|Hz];
  [rewrite Hz; cbn [Z.eqb negb]; goto ps i (PDec1 d) (PDec2 d) Hp Ht
  |assert (callback (sh s) = 0) as Hz0 by (destruct (pending s); lia); rewrite Hz0;
   goto ps i (PDec1 d) (PEnd d 0) Hp Ht].

(** The callback runs with no reference held, in a strict run. *)
Lemma fired_zero strict s ps i d : inv strict s ps -> ps !! i = Some (PDec2 d) -> strict = true -> held s = 0%nat.
Proof.
  intros Hi Hp Hs. unfold held. rewrite (i_threads _ _ _ Hi), total_granted by apply (i_ok _ _ _ Hi).
  pose proof (tot_elem w_call ps i _ Hp). pose proof (tot_elem w_register ps i _ Hp). simpl in *.
  apply (i_safe _ _ _ Hi Hs); [|lia]. pose proof (i_callback _ _ _ Hi). destruct (pending s); [done|lia].
Qed.

Ltac act_dec2 ps i d Hp Ht Hz :=
  goto ps i (PDec2 d) (PEnd d 0) Hp Ht; apply Forall_app; split; [auto|apply Forall_singleton; symmetry; auto].

Lemma inv_act strict s ps i p c a k : inv strict s ps -> ps !! i = Some p -> code_of p = Some (c, Act a k) ->
  exists p', inv strict (act i c a k s) (<[i := p']> ps).
Proof.
  intros Hi Hp Hcode. pose proof (fun d H => fired_zero strict s ps i d Hi H) as Hzero. 
  destruct Hi as [Ht Hok Hcnt Hfrz [Hcb0 Hcb] Hb Hpend Hwake Hsafe Hfired].
  assert (pc_ok p) as Hpok by (rewrite Forall_lookup in Hok; by eapply Hok).
  assert (2 ^ 31 = 2147483648) as H31 by done.
  assert (forall x, - 2147483648 <= x < 2147483648 -> s32 x = x) as Hs32 by (intros x; apply s32_small).
  destruct p as [| | |v|v|d|d|d| | | | | | | |d v]; try destruct Hpok as [->|[->| ->]];
    unfold code_of, pc_prog, ocf_refcnt_inc, ocf_refcnt_freeze, ocf_refcnt_unfreeze, ocf_refcnt_register_zero_cb in Hcode;
    simplify_eq Hcode; intros; subst; unfold act; cbn [exec get_var set_var].
  - destruct (Z.eqb_spec (freeze (sh s)) 0) as [Hz|Hz]; [goto ps i PInc0 PInc1 Hp Ht|goto ps i PInc0 (PEnd CInc 0) Hp Ht].
  - rewrite Hs32; cycle 1. { weights ps i PInc1 (PInc2 0) Hp. lia. }
    goto ps i PInc1 (PInc2 (counter (sh s) + 1)) Hp Ht.
  - destruct (Z.eqb_spec (freeze (sh s)) 0) as [Hz|Hz]; [goto ps i (PInc2 v) (PInc3 v) Hp Ht|goto ps i (PInc2 v) (PDec0 CInc) Hp Ht].
  - act_dec0 ps i CInc Hp Ht Hs32 s.
  - act_dec0 ps i CDec Hp Ht Hs32 s.
  - act_dec0 ps i CRegister Hp Ht Hs32 s.
  - act_dec1 ps i CInc Hp Ht s.
  - act_dec1 ps i CDec Hp Ht s.
  - act_dec1 ps i CRegister Hp Ht s.
  - specialize (Hzero _ Hp). act_dec2 ps i CInc Hp Ht Hzero.
  - specialize (Hzero _ Hp). act_dec2 ps i CDec Hp Ht Hzero.
  - specialize (Hzero _ Hp). act_dec2 ps i CRegister Hp Ht Hzero.
  - rewrite Hs32; [goto ps i PFrz0 (PEnd CFreeze 0) Hp Ht|weights ps i PFrz0 (PEnd CFreeze 0) Hp; lia].
  - rewrite Hs32; [|weights ps i PUnf0 (PEnd CUnfreeze 0) Hp; lia].
    replace (freeze (sh s) - 1 <? 0) with false
      by (symmetry; apply Z.ltb_ge; weights ps i PUnf0 (PEnd CUnfreeze 0) Hp; lia).
    goto ps i PUnf0 (PEnd CUnfreeze 0) Hp Ht.
  - replace (freeze (sh s) =? 0) with false
      by (symmetry; apply Z.eqb_neq; weights ps i PReg0 PReg1 Hp; destruct (pending s); use_hyps; lia).
    goto ps i PReg0 PReg1 Hp Ht.
  - assert (callback (sh s) = 0) as Hz by (weights ps i PReg1 PReg2 Hp; destruct (pending s); lia).
    rewrite Hz. cbn [Z.eqb negb]. goto ps i PReg1 PReg2 Hp Ht.
  - rewrite Hs32; [goto ps i PReg2 PReg3 Hp Ht|weights ps i PReg2 PReg3 Hp; lia].
  - goto ps i PReg3 PReg4 Hp Ht.
  - goto ps i PReg4 (PDec0 CRegister) Hp Ht.
Qed.

Lemma inv_return strict s ps i p c r : inv strict s ps -> ps !! i = Some p -> code_of p = Some (c, Done r) ->
  inv strict (return_call i c r s) (<[i := PIdle]> ps).
Proof.
  intros [Ht Hok Hcnt Hfrz [Hcb0 Hcb] Hb Hpend Hwake Hsafe Hfired] Hp Hcode.
  assert (pc_ok p) as Hpok by (rewrite Forall_lookup in Hok; by eapply Hok).
  destruct p as [| | |v|v|d|d|d| | | | | | | |d v]; try destruct Hpok as [->|[->| ->]]; simplify_eq/=;
    unfold return_call.
  - rewrite (proj2 (Z.ltb_lt 0 r)) by done. moved ps i (PInc3 r) PIdle Hp Ht.
  - destruct c; [simpl in Hpok; subst r; simpl; moved ps i (PEnd CInc 0) PIdle Hp Ht| | | |].
    + moved ps i (PEnd CDec r) PIdle Hp Ht.
    + moved ps i (PEnd CFreeze r) PIdle Hp Ht.
    + moved ps i (PEnd CUnfreeze r) PIdle Hp Ht.
    + moved ps i (PEnd CRegister r) PIdle Hp Ht.
Qed.

Definition start_pc (c : call) : pc :=
  match c with CInc => PInc0 | CDec => PDec0 CDec | CFreeze => PFrz0 | CUnfreeze => PUnf0 | CRegister => PReg0 end.

Lemma code_start c : code_of (start_pc c) = Some (c, body c).
Proof. by destruct c. Qed.

Lemma no_claims ps : Forall pc_ok ps -> Forall (fun t => claiming t = false) (code_of <$> ps) -> tot w_claim ps = 0%nat.
Proof.
  intros Hok Hc. apply tot_zero. rewrite Forall_fmap in Hc. apply Forall_forall. intros p Hp.
  rewrite Forall_forall in Hc, Hok. specialize (Hc p Hp). specialize (Hok p Hp).
  destruct p as [| | | | | |d| | | | | | | | |]; try done. by destruct Hok as [->|[->| ->]].
Qed.

Lemma inv_call strict s ps i c : inv strict s ps -> ps !! i = Some PIdle -> may_call strict c s ->
  inv strict (start_call i c s) (<[i := start_pc c]> ps).
Proof.
  intros [Ht Hok Hcnt Hfrz [Hcb0 Hcb] Hb Hpend Hwake Hsafe Hfired] Hp [Hmax Hc].
  rewrite Ht, (total_code busy w_busy) in Hmax by (done || by intros []). assert (2 ^ 31 = 2147483648) as H31 by done.
  pose proof (tot_le w_call w_register ps ltac:(intros []; simpl; lia)) as Hcr.
  destruct c; simpl in Hc; unfold start_call; cbn [start_pc].
  - moved ps i PIdle PInc0 Hp Ht.
  - moved ps i PIdle (PDec0 CDec) Hp Ht.
  - moved ps i PIdle PFrz0 Hp Ht.
  - destruct Hc as [Hc1 Hc2]. moved ps i PIdle PUnf0 Hp Ht.
  - destruct Hc as (Hc1 & Hc2 & Hc3). rewrite Hc2 in *.
    assert (strict = true -> tot w_claim ps = 0%nat) as Hcl by (intros Hs; apply no_claims; [done|rewrite <- Ht; auto]).
    moved ps i PIdle PReg0 Hp Ht.
Qed.

Lemma inv_step strict s s' ps : inv strict s ps -> step strict s s' -> exists ps', inv strict s' ps'.
Proof.
  intros Hi Hs. pose proof (i_threads _ _ _ Hi) as Ht. destruct Hs as [s i c Hl Hc|s i c a k Hl|s i c r Hl];
    rewrite Ht, list_lookup_fmap in Hl; destruct (ps !! i) as [p|] eqn:Hp; simplify_eq/=.
  - exists (<[i := start_pc c]> ps). apply inv_call; [done| |done]. rewrite Hp. by destruct p.
  - destruct (inv_act strict s ps i p c a k Hi Hp) as [p' Hi']; [done|]. by eexists.
  - eexists. by eapply inv_return.
Qed.

Lemma inv_init strict n : inv strict (init n) (replicate n PIdle).
Proof.
  assert (forall w, w PIdle = 0%nat -> tot w (replicate n PIdle) = 0%nat) as Hz
    by (intros w Hw; apply tot_zero, Forall_replicate; done).
  split; simpl; rewrite ?Hz by done; try done.
  - by rewrite fmap_replicate.
  - by apply Forall_replicate.
Qed.

Lemma refcnt_reachable_inv strict n s : reachable strict n s -> exists ps, inv strict s ps.
Proof.
  intros Hr. unfold reachable in Hr. remember (init n) as s0 eqn:H0.
  assert (exists ps, inv strict s0 ps) as Hi by (rewrite H0; eexists; apply inv_init). clear H0.
  induction Hr as [|s0 s1 s2 Hs Hr IH]; [done|]. apply IH. destruct Hi as [ps Hi]. by eapply inv_step.
Qed.

(** ** Main properties *)

(** No reference is lost and no check fires.  In every state that threads
    can reach by interleaving the atomic actions of any number of calls, the
    counter is at least the number of references the clients hold, exactly that
    number when no call is in progress; likewise the freeze count; and no thread
    is stopped by an [ENV_BUG_ON]. *)
Theorem refcnt_counts strict n s : reachable strict n s ->
  Z.of_nat (held s) <= counter (sh s) /\ Z.of_nat (freezes s) <= freeze (sh s) /\
  (forall i c, threads s !! i <> Some (Some (c, Stop))) /\
  (Forall (eq None) (threads s) -> counter (sh s) = Z.of_nat (refs s) /\ freeze (sh s) = Z.of_nat (freezes s)).
Proof.
  intros [ps Hi]%refcnt_reachable_inv. pose proof Hi as [Ht Hok Hcnt Hfrz _ _ _ _ _ _]. split_and!.
  - unfold held. rewrite Ht, total_granted by done.
    pose proof (tot_le w_granted w_counter ps ltac:(intros []; simpl; lia)). lia.
  - lia.
  - intros i c Hl. rewrite Ht, list_lookup_fmap in Hl. destruct (ps !! i) as [p|] eqn:Hp; [|done]. simpl in Hl.
    rewrite Forall_lookup in Hok. specialize (Hok i p Hp). destruct p as [| | |v|v|d|d|d| | | | | | | |d v]; try done;
      by destruct Hok as [->|[->| ->]].
  - intros Hidle. assert (forall w, w PIdle = 0%nat -> tot w ps = 0%nat) as Hz.
    { intros w Hw. apply tot_zero. rewrite Ht, Forall_fmap in Hidle. eapply Forall_impl; [exact Hidle|].
      intros p Hp. by destruct p. }
    rewrite Hcnt, Hfrz, !Hz by done. lia.
Qed.

(** The zero callback is not missed.  When all calls have returned and no
    reference is left, every registered callback has run. *)
Theorem refcnt_callback_runs strict n s : reachable strict n s ->
  Forall (eq None) (threads s) -> refs s = 0%nat -> pending s = false /\ callback (sh s) = 0.
Proof.
  intros [ps Hi]%refcnt_reachable_inv Hidle Hr. pose proof Hi as [Ht _ Hcnt _ [Hcb0 Hcb] _ _ Hwake _ _].
  assert (forall w, w PIdle = 0%nat -> tot w ps = 0%nat) as Hz.
  { intros w Hw. apply tot_zero. rewrite Ht, Forall_fmap in Hidle. eapply Forall_impl; [exact Hidle|].
    intros p Hp. by destruct p. }
  rewrite !Hz in * by done. destruct (pending s); [exfalso|split; [done|lia]].
  assert (callback (sh s) = 1) as H1 by lia. destruct (Hwake H1); lia.
Qed.

(** The zero callback runs only at zero.  If no thread is between reaching
    zero and claiming the callback when a callback is registered, every callback
    runs when no reference is held. *)
Theorem refcnt_callback_at_zero n s : reachable true n s -> Forall (eq 0%nat) (fired s).
Proof. intros [ps Hi]%refcnt_reachable_inv. by apply (i_fired _ _ _ Hi). Qed.

(** ** Schedules *)

#[export] Instance may_call_dec strict c s : Decision (may_call strict c s).
Proof. unfold may_call. destruct c; apply _. Defined.

(** One step of thread [i]: the call to make when it is idle. *)
Definition run_step (strict : bool) (ic : nat * call) (s : state) : option state :=
  match threads s !! ic.1 with
  | Some None => if decide (may_call strict ic.2 s) then Some (start_call ic.1 ic.2 s) else None
  | Some (Some (c, Act a k)) => Some (act ic.1 c a k s)
  | Some (Some (c, Done r)) => Some (return_call ic.1 c r s)
  | _ => None
  end.

Fixpoint run_schedule (strict : bool) (l : list (nat * call)) (s : state) : option state :=
  match l with [] => Some s | ic :: l => run_step strict ic s ≫= run_schedule strict l end.

Lemma run_schedule_reachable strict n l s : run_schedule strict l (init n) = Some s -> reachable strict n s.
Proof.
  unfold reachable. generalize (init n) as s0. induction l as [|[i c] l IH]; intros s0; cbn [run_schedule].
  - intros [= ->]. done.
  - destruct (run_step strict (i, c) s0) as [s1|] eqn:Hs; [|done]. simpl. intros Hr. apply rtc_l with s1; [|by apply IH].
    unfold run_step in Hs. simpl in Hs. destruct (threads s0 !! i) as [[[c' [r| |a k]]|]|] eqn:Hi; simplify_eq.
    + by apply step_return.
    + by apply step_act.
    + destruct (decide (may_call strict c s0)); simplify_eq. by apply step_call.
Qed.

(** The zero callback may run too early.  Thread 0 gives back the only
    reference and stops before it claims the callback; thread 2 takes a
    reference; thread 1 freezes the counter and registers a callback; thread 0
    claims it and runs it while thread 2 still holds its reference. *)
Theorem refcnt_callback_too_early : exists s, reachable false 3 s /\ fired s = [1%nat] /\ held s = 1%nat.
Proof.
  set (l := replicate 5 (0%nat, CInc) ++ replicate 2 (0%nat, CDec) ++ replicate 5 (2%nat, CInc) ++
            replicate 3 (1%nat, CFreeze) ++ replicate 6 (1%nat, CRegister) ++ replicate 2 (0%nat, CDec)).
  assert (is_Some (run_schedule false l (init 3))) as [s Hs] by (vm_compute; by eexists).
  exists s. split; [by eapply run_schedule_reachable|]. revert Hs. vm_compute. by intros [= <-].
Qed.

(** ** Witnesses *)

(** A reference is taken, the counter frozen, a callback registered, and the
    reference given back: the callback runs. *)
Definition wit_schedule : list (nat * call) :=
  replicate 5 (0%nat, CInc) ++ replicate 3 (1%nat, CFreeze) ++ replicate 8 (1%nat, CRegister) ++ replicate 5 (0%nat, CDec).

Lemma wit_reachable : exists s, reachable true 2 s /\ fired s = [0%nat] /\ Forall (eq None) (threads s) /\ refs s = 0%nat.
Proof.
  assert (is_Some (run_schedule true wit_schedule (init 2))) as [s Hs] by (vm_compute; by eexists).
  exists s. split; [by eapply run_schedule_reachable|]. revert Hs. vm_compute. intros [= <-]. split_and!; [done| |done].
  by repeat constructor.
Qed.

Lemma refcnt_counts_witness : exists s, Z.of_nat (held s) <= counter (sh s) /\ Z.of_nat (freezes s) <= freeze (sh s) /\
  (forall i c, threads s !! i <> Some (Some (c, Stop))) /\
  (Forall (eq None) (threads s) -> counter (sh s) = Z.of_nat (refs s) /\ freeze (sh s) = Z.of_nat (freezes s)).
Proof. destruct wit_reachable as (s & Hr & _). exists s. by apply (refcnt_counts true 2). Defined.

Lemma refcnt_callback_runs_witness : exists s, pending s = false /\ callback (sh s) = 0.
Proof. destruct wit_reachable as (s & Hr & _ & Hi & H0). exists s. by apply (refcnt_callback_runs true 2). Defined.

Lemma refcnt_callback_at_zero_witness : exists s, fired s = [0%nat] /\ Forall (eq 0%nat) (fired s).
Proof. destruct wit_reachable as (s & Hr & Hf & _). exists s. split; [done|]. by apply (refcnt_callback_at_zero 2). Defined.
