(* ===== verification/AsyncLock.v ===== *)
(** The asynchronous readers-writer lock: ocf/src/utils/utils_async_lock.c.

    Requests that cannot be granted wait in a queue; an unlock grants the head
    of the queue and calls the completions.  Every operation runs under the spin
    lock of the structure, so it is one step; the completions it calls are its
    result, as pairs of the waiter and the status. *)

From S2P Require Import Prelude.


(** [struct ocf_async_lock_waiter]; [w_id] stands for its address. *)
Record ocf_async_lock_waiter := mkWaiter { w_id : Z; write_lock : bool }.

(** [struct ocf_async_lock] *)
Record ocf_async_lock_t := mkLock { waiters : list ocf_async_lock_waiter; rd : Z; wr : Z }.

Definition set_waiters f (s : ocf_async_lock_t) := mkLock (f (waiters s)) (rd s) (wr s).
Definition set_rd v (s : ocf_async_lock_t) := mkLock (waiters s) v (wr s).
Definition set_wr v (s : ocf_async_lock_t) := mkLock (waiters s) (rd s) v.

Definition completion : Type := Z * Z.

(** The loop over the queue: everything before the current element was moved
    out, so the current element is its head. *)
Fixpoint collect_loop (ws moved : list ocf_async_lock_waiter) : M ocf_async_lock_t (list ocf_async_lock_waiter) :=
  match ws with
  | [] => mret moved
  | iter :: ws =>
      if negb (write_lock iter) then
        modify (set_waiters (drop 1));;
        r ← gets rd;
        modify (set_rd (u32 (r + 1)));;
        collect_loop ws (moved ++ [iter])
      else
        r ← gets rd;
        if r =? 0 then
          modify (set_waiters (drop 1));;
          modify (set_wr 1);;
          mret (moved ++ [iter])
        else mret moved
  end.

Definition _ocf_async_lock_collect_waiters : M ocf_async_lock_t (list ocf_async_lock_waiter) :=
  ws ← gets waiters; collect_loop ws [].

Definition _ocf_async_lock_run_waiters (ws : list ocf_async_lock_waiter) (status : Z) : list completion :=
  (fun w => (w_id w, status)) <$> ws.

(** [spin_error] is what the initialisation of the spin lock returns. *)
Definition ocf_async_lock_init (spin_error : Z) (old : ocf_async_lock_t) : Z * ocf_async_lock_t :=
  if negb (spin_error =? 0) then (spin_error, old) else (0, mkLock [] 0 0).

Definition ocf_async_lock_deinit : M ocf_async_lock_t (list completion) :=
  ws ← gets waiters;
  modify (set_waiters (fun _ => []));;
  mret (_ocf_async_lock_run_waiters ws (- OCF_ERR_NO_LOCK)).

(** The address of the new waiter, or nothing when the allocation fails. *)
Definition ocf_async_lock_new_waiter (alloc : option Z) : option Z := alloc.

Definition _ocf_async_trylock : M ocf_async_lock_t Z :=
  w ← gets wr;
  r ← gets rd;
  if negb (w =? 0) || negb (r =? 0) then mret (- OCF_ERR_NO_LOCK)
  else modify (set_wr 1);; mret 0.

Definition ocf_async_lock (waiter : Z) : M ocf_async_lock_t (list completion) :=
  result ← _ocf_async_trylock;
  if result =? 0 then mret [(waiter, 0)]
  else modify (set_waiters (fun ws => ws ++ [mkWaiter waiter true]));; mret [].

Definition ocf_async_trylock : M ocf_async_lock_t Z := _ocf_async_trylock.

Definition ocf_async_unlock : M ocf_async_lock_t (list completion) :=
  r ← gets rd;
  BUG_ON (negb (r =? 0));;
  w ← gets wr;
  BUG_ON (w =? 0);;
  modify (set_wr 0);;
  ws ← _ocf_async_lock_collect_waiters;
  mret (_ocf_async_lock_run_waiters ws 0).

Definition _ocf_async_read_trylock : M ocf_async_lock_t Z :=
  w ← gets wr;
  ws ← gets waiters;
  if negb (w =? 0) || match ws with [] => false | _ => true end then mret (- OCF_ERR_NO_LOCK)
  else r ← gets rd; modify (set_rd (u32 (r + 1)));; mret 0.

Definition ocf_async_read_lock (waiter : Z) : M ocf_async_lock_t (list completion) :=
  result ← _ocf_async_read_trylock;
  if result =? 0 then mret [(waiter, 0)]
  else modify (set_waiters (fun ws => ws ++ [mkWaiter waiter false]));; mret [].

Definition ocf_async_read_trylock : M ocf_async_lock_t Z := _ocf_async_read_trylock.

Definition ocf_async_read_unlock : M ocf_async_lock_t (list completion) :=
  r ← gets rd;
  BUG_ON (r =? 0);;
  w ← gets wr;
  BUG_ON (negb (w =? 0));;
  modify (set_rd (u32 (r - 1)));;
  r ← gets rd;
  if negb (r =? 0) then mret []
  else
    ws ← _ocf_async_lock_collect_waiters;
    mret (_ocf_async_lock_run_waiters ws 0).

Definition ocf_async_is_locked : M ocf_async_lock_t bool :=
  r ← gets rd;
  w ← gets wr;
  mret (negb (r =? 0) || negb (w =? 0)).

(** ** Clients *)

(** The holders, each with whether it writes; the requests that had to be
    completed, in the order they were made, and those that were, in the order
    they were granted. *)
Record system := mkSystem {
  lk : ocf_async_lock_t;
  holders : list (Z * bool);
  requested : list Z;
  completed : list Z;
}.

Inductive event :=
  | ELock (id : Z)
  | EReadLock (id : Z)
  | ETryLock (id : Z)
  | EReadTryLock (id : Z)
  | EUnlock (id : Z)
  | EReadUnlock (id : Z).

Fixpoint drop_holder (h : Z * bool) (l : list (Z * bool)) : list (Z * bool) :=
  match l with [] => [] | h' :: l => if decide (h = h') then l else h' :: drop_holder h l end.

(** The mode a queued request asked for. *)
Definition mode_of (ws : list ocf_async_lock_waiter) (id : Z) : bool :=
  match head (filter (fun w => w_id w = id) ws) with Some w => write_lock w | None => false end.

(** What the completions with status 0 make holders, given the queue before. *)
Definition granted (ws : list ocf_async_lock_waiter) (cs : list completion) : list (Z * bool) :=
  (fun c => (c.1, mode_of ws c.1)) <$> cs.

Definition writes (cs : list completion) : list (Z * bool) := (fun c : completion => (c.1, true)) <$> cs.
Definition reads (cs : list completion) : list (Z * bool) := (fun c : completion => (c.1, false)) <$> cs.

(** What a client may do: a waiter that is queued is not used again, a lock
    that is released is held, and the holders and waiters can be counted. *)
Definition may_event (e : event) (s : system) : Prop :=
  let room := Z.of_nat (length (holders s) + length (waiters (lk s))) < 2 ^ 32 - 1 in
  match e with
  | ELock id | EReadLock id => (id ∉ (w_id <$> waiters (lk s))) /\ room
  | ETryLock _ | EReadTryLock _ => room
  | EUnlock id => (id, true) ∈ holders s
  | EReadUnlock id => (id, false) ∈ holders s
  end.

Definition run_event (e : event) (s : system) : option system :=
  match e with
  | ELock id => '(cs, l) ← ocf_async_lock id (lk s);
      Some (mkSystem l (writes cs ++ holders s) (requested s ++ [id]) (completed s ++ (cs.*1)))
  | EReadLock id => '(cs, l) ← ocf_async_read_lock id (lk s);
      Some (mkSystem l (reads cs ++ holders s) (requested s ++ [id]) (completed s ++ (cs.*1)))
  | ETryLock id => '(r, l) ← ocf_async_trylock (lk s);
      Some (mkSystem l (if r =? 0 then (id, true) :: holders s else holders s) (requested s) (completed s))
  | EReadTryLock id => '(r, l) ← ocf_async_read_trylock (lk s);
      Some (mkSystem l (if r =? 0 then (id, false) :: holders s else holders s) (requested s) (completed s))
  | EUnlock id => '(cs, l) ← ocf_async_unlock (lk s);
      Some (mkSystem l (granted (waiters (lk s)) cs ++ drop_holder (id, true) (holders s)) (requested s) (completed s ++ (cs.*1)))
  | EReadUnlock id => '(cs, l) ← ocf_async_read_unlock (lk s);
      Some (mkSystem l (granted (waiters (lk s)) cs ++ drop_holder (id, false) (holders s)) (requested s) (completed s ++ (cs.*1)))
  end.

Inductive sys_step : system -> system -> Prop :=
  | sys_event e s s' : may_event e s -> run_event e s = Some s' -> sys_step s s'.

Definition initial : system := mkSystem (mkLock [] 0 0) [] [] [].
Definition reachable (s : system) : Prop := rtc sys_step initial s.

(** ** The grant of a queue *)

(** The waiters that an unlock grants: the readers up to the first writer, or
    the writer at the head when no reader holds the lock. *)
Fixpoint grants (readers : bool) (ws : list ocf_async_lock_waiter) : list ocf_async_lock_waiter :=
  match ws with
  | [] => []
  | w :: ws => if negb (write_lock w) then w :: grants true ws else if readers then [] else [w]
  end.

Definition count_mode (b : bool) (l : list (Z * bool)) : nat := length (filter (fun h => h.2 = b) l).
Definition as_holders (ws : list ocf_async_lock_waiter) : list (Z * bool) := (fun w => (w_id w, write_lock w)) <$> ws.

Lemma count_cons b h l : count_mode b (h :: l) = ((if Bool.eqb h.2 b then 1 else 0) + count_mode b l)%nat.
Proof. unfold count_mode. rewrite filter_cons. destruct (Bool.eqb_spec h.2 b); by case_decide. Qed.
Lemma count_app b l1 l2 : count_mode b (l1 ++ l2) = (count_mode b l1 + count_mode b l2)%nat.
Proof. unfold count_mode. by rewrite filter_app, length_app. Qed.
Lemma count_both l : (count_mode true l + count_mode false l = length l)%nat.
Proof. induction l as [|[i b] l IH]; [done|]. rewrite !count_cons. simpl. destruct b; simpl; lia. Qed.
Lemma count_drop b h l : h ∈ l -> (count_mode b (drop_holder h l) + (if Bool.eqb h.2 b then 1 else 0) = count_mode b l)%nat.
Proof.
  induction l as [|h' l IH]; [by intros ?%elem_of_nil|]. rewrite count_cons. simpl. case_decide as Hd; [subst; lia|].
  intros [?|Hin]%elem_of_cons; [done|]. rewrite count_cons. specialize (IH Hin). lia.
Qed.

Lemma collect_loop_spec ws moved r : 0 <= r -> r + Z.of_nat (length ws) < 2 ^ 32 ->
  let g := grants (negb (r =? 0)) ws in
  wp (collect_loop ws moved) (fun m l => m = moved ++ g /\
    l = mkLock (drop (length g) ws) (r + Z.of_nat (count_mode false (as_holders g))) (Z.of_nat (count_mode true (as_holders g))))
    (mkLock ws r 0).
Proof.
  revert moved r. induction ws as [|w ws IH]; intros moved r Hr Hlen; cbn [collect_loop grants].
  - wp_step. simpl. rewrite app_nil_r, Z.add_0_r. done.
  - destruct (write_lock w) eqn:Hw; cbn [negb].
    + wp_step. wp_step. simpl. destruct (Z.eqb_spec r 0) as [->|Hnz]; cbn [negb].
      * do 5 wp_step. unfold set_waiters, set_wr, as_holders. simpl. rewrite !count_cons, Hw. simpl. by rewrite drop_0.
      * wp_step. simpl. rewrite app_nil_r, Z.add_0_r. done.
    + do 6 wp_step. unfold set_waiters, set_rd. simpl. rewrite drop_0. simpl in Hlen. rewrite u32_small by lia.
      eapply wp_mono; [apply IH; lia|]. rewrite (proj2 (Z.eqb_neq (r + 1) 0)) by lia. cbn [negb].
      intros m l [-> ->]. unfold as_holders. simpl. rewrite !count_cons, Hw. simpl.
      split; [by rewrite <- app_assoc|]. f_equal. lia.
Qed.

Lemma grants_prefix b ws : grants b ws ++ drop (length (grants b ws)) ws = ws.
Proof.
  revert b. induction ws as [|w ws IH]; intros b; simpl; [done|]. destruct (write_lock w); simpl.
  - destruct b; [done|]. simpl. by rewrite drop_0.
  - by rewrite IH.
Qed.

(** Nothing that could be granted is left waiting. *)
Definition head_blocked (l : ocf_async_lock_t) : Prop :=
  match waiters l with
  | [] => True
  | w :: _ => if write_lock w then 0 < rd l \/ 0 < wr l else 0 < wr l
  end.

Lemma grants_blocked b ws : let g := grants b ws in
  match drop (length g) ws with
  | [] => True
  | w :: _ => if write_lock w then b = true \/ (0 < length g)%nat else (0 < count_mode true (as_holders g))%nat
  end.
Proof.
  revert b. induction ws as [|w ws IH]; intros b; simpl; [done|]. destruct (write_lock w) eqn:Hw; simpl.
  - destruct b; simpl; [rewrite Hw; by left|]. rewrite drop_0. destruct ws as [|w' ws]; [done|].
    rewrite !count_cons, Hw. simpl. destruct (write_lock w'); [right|]; lia.
  - specialize (IH true). simpl in IH. destruct (drop _ ws) as [|w' ws']; [done|].
    destruct (write_lock w'); [right; lia|]. rewrite count_cons. simpl. lia.
Qed.

Lemma grants_modes b ws : let g := grants b ws in
  count_mode true (as_holders g) = 0%nat \/ (count_mode true (as_holders g) = 1%nat /\ count_mode false (as_holders g) = 0%nat /\ b = false).
Proof.
  revert b. induction ws as [|w ws IH]; intros b; simpl; [by left|]. destruct (write_lock w) eqn:Hw; simpl.
  - destruct b; simpl; [by left|right]. rewrite !count_cons, Hw. done.
  - rewrite !count_cons, Hw. simpl. destruct (IH true) as [H|(_ & _ & H)]; [left; lia|done].
Qed.

(** ** The invariant *)

Record sys_inv (s : system) : Prop := {
  si_rd : rd (lk s) = Z.of_nat (count_mode false (holders s));
  si_wr : wr (lk s) = Z.of_nat (count_mode true (holders s));
  si_excl : (count_mode true (holders s) = 0)%nat \/
            (count_mode true (holders s) = 1 /\ count_mode false (holders s) = 0)%nat;
  si_head : head_blocked (lk s);
  si_ids : NoDup (w_id <$> waiters (lk s));
  si_fifo : requested s = completed s ++ (w_id <$> waiters (lk s));
  si_room : Z.of_nat (length (holders s) + length (waiters (lk s))) < 2 ^ 32;
}.

Lemma mode_of_elem ws w : NoDup (w_id <$> ws) -> w ∈ ws -> mode_of ws (w_id w) = write_lock w.
Proof.
  unfold mode_of. induction ws as [|w' ws IH]; [by intros _ ?%elem_of_nil|].
  rewrite fmap_cons. intros [Hn Hnd]%NoDup_cons [->|Hin]%elem_of_cons; [by rewrite filter_cons_True|].
  rewrite filter_cons_False; [by apply IH|]. intros Heq. apply Hn. rewrite Heq. by apply list_elem_of_fmap_2.
Qed.

Lemma granted_prefix ws g rest status : NoDup (w_id <$> ws) -> ws = g ++ rest ->
  granted ws (_ocf_async_lock_run_waiters g status) = as_holders g.
Proof.
  intros Hnd ->. unfold granted, _ocf_async_lock_run_waiters, as_holders. rewrite <- list_fmap_compose.
  apply list_fmap_ext. intros i w Hw. simpl. f_equal. apply mode_of_elem; [done|].
  apply elem_of_app. left. by eapply list_elem_of_lookup_2.
Qed.

Lemma completions_ids g status : (_ocf_async_lock_run_waiters g status).*1 = w_id <$> g.
Proof. unfold _ocf_async_lock_run_waiters. by rewrite <- list_fmap_compose. Qed.

(** Granting the queue after the last holder left. *)
Lemma grant_inv s hs : sys_inv s -> count_mode true hs = 0%nat -> count_mode false hs = 0%nat ->
  let g := grants false (waiters (lk s)) in
  sys_inv (mkSystem (mkLock (drop (length g) (waiters (lk s))) (Z.of_nat (count_mode false (as_holders g)))
      (Z.of_nat (count_mode true (as_holders g))))
    (as_holders g ++ hs) (requested s) (completed s ++ (w_id <$> g))).
Proof.
  intros [Hrd Hwr Hex Hhead Hids Hfifo Hroom] Ht Hf g. pose proof (grants_prefix false (waiters (lk s))) as Hpre. fold g in Hpre.
  pose proof (count_both hs) as Hb. pose proof (grants_modes false (waiters (lk s))) as Hm.
  pose proof (count_both (as_holders g)) as Hbg. assert (length (as_holders g) = length g) as Hlg by apply length_fmap.
  split; simpl.
  - rewrite count_app. lia.
  - rewrite count_app. lia.
  - rewrite !count_app. fold g in Hm. cbv zeta in Hm. lia.
  - unfold head_blocked. simpl. pose proof (grants_blocked false (waiters (lk s))) as Hbl. fold g in Hbl. cbv zeta in Hbl.
    destruct (drop (length g) _) as [|w ws]; [done|]. destruct (write_lock w); [|lia]. destruct Hbl as [?|Hbl]; [done|]. lia.
  - rewrite <- Hpre, fmap_app in Hids. by apply NoDup_app in Hids as (_ & _ & ?).
  - rewrite Hfifo. rewrite <- Hpre at 1. by rewrite fmap_app, app_assoc.
  - pose proof (f_equal length Hpre) as Hl. rewrite length_app, length_drop in Hl. rewrite length_app, length_drop. lia.
Qed.

Lemma collect_spec ws : Z.of_nat (length ws) < 2 ^ 32 -> let g := grants false ws in
  wp _ocf_async_lock_collect_waiters (fun m l => m = g /\
    l = mkLock (drop (length g) ws) (Z.of_nat (count_mode false (as_holders g))) (Z.of_nat (count_mode true (as_holders g))))
    (mkLock ws 0 0).
Proof. intros Hlen g. unfold _ocf_async_lock_collect_waiters. wp_step. wp_step. by apply (collect_loop_spec ws [] 0). Qed.

(** A request that joins the queue. *)
Lemma enqueue_inv s id b : sys_inv s -> id ∉ (w_id <$> waiters (lk s)) ->
  Z.of_nat (length (holders s) + length (waiters (lk s))) < 2 ^ 32 - 1 ->
  head_blocked (mkLock (waiters (lk s) ++ [mkWaiter id b]) (rd (lk s)) (wr (lk s))) ->
  sys_inv (mkSystem (mkLock (waiters (lk s) ++ [mkWaiter id b]) (rd (lk s)) (wr (lk s)))
    (holders s) (requested s ++ [id]) (completed s)).
Proof.
  intros [Hrd Hwr Hex Hhead Hids Hfifo Hroom] Hnew Hrm Hb. split; simpl; try done.
  - rewrite fmap_app. apply NoDup_app. split_and!; [done| |apply NoDup_singleton].
    intros x Hx ->%list_elem_of_singleton. done.
  - by rewrite Hfifo, fmap_app, app_assoc.
  - rewrite length_app. simpl. lia.
Qed.

(** A request that is granted at once: nobody waits, and its mode fits. *)
Lemma acquire_inv s id b req : sys_inv s -> waiters (lk s) = [] -> wr (lk s) = 0 -> (b = true -> rd (lk s) = 0) ->
  Z.of_nat (length (holders s) + length (waiters (lk s))) < 2 ^ 32 - 1 -> (req = [] \/ req = [id]) ->
  sys_inv (mkSystem (if b then set_wr 1 (lk s) else set_rd (u32 (rd (lk s) + 1)) (lk s))
    ((id, b) :: holders s) (requested s ++ req) (completed s ++ req)).
Proof.
  intros [Hrd Hwr Hex Hhead Hids Hfifo Hroom] Hws Hw Hr Hrm Hreq. pose proof (count_both (holders s)) as Hb.
  rewrite Hws in *. assert (requested s ++ req = (completed s ++ req) ++ (w_id <$> [])) as Hf
    by (rewrite Hfifo; simpl; by rewrite !app_nil_r).
  rewrite u32_small by (simpl in *; lia).
  destruct b; split; simpl; rewrite ?count_cons, ?Hws; simpl in *; try done; try lia; unfold head_blocked; simpl; by rewrite Hws.
Qed.

(** Waiters count twice: a grant makes a holder of one. *)
Definition backlog (s : system) : nat := (2 * length (waiters (lk s)) + length (holders s))%nat.

(** An unlock brings the queue closer to its end. *)
Definition progress (e : event) (s s' : system) : Prop :=
  match e with
  | EUnlock _ | EReadUnlock _ => requested s' = requested s /\ (backlog s' < backlog s)%nat
  | _ => True
  end.

Lemma drop_holder_length h l : h ∈ l -> (length (drop_holder h l) < length l)%nat.
Proof.
  induction l as [|h' l IH]; [by intros ?%elem_of_nil|]. simpl. case_decide; [lia|].
  intros [?|Hin]%elem_of_cons; [done|]. specialize (IH Hin). simpl. lia.
Qed.

Lemma grant_backlog h l ws : h ∈ l -> let g := grants false ws in
  (2 * length (drop (length g) ws) + length (as_holders g ++ drop_holder h l) < 2 * length ws + length l)%nat.
Proof.
  intros Hin g. pose proof (drop_holder_length h l Hin). pose proof (f_equal length (grants_prefix false ws)) as Hl.
  fold g in Hl. rewrite length_app, length_drop in Hl. rewrite length_app, length_drop.
  assert (length (as_holders g) = length g) as -> by apply length_fmap. lia.
Qed.

Lemma event_inv e s : sys_inv s -> may_event e s ->
  exists s', run_event e s = Some s' /\ sys_inv s' /\ progress e s s'.
Proof.
  intros Hi Hmay. pose proof Hi as [Hrd Hwr Hex Hhead Hids Hfifo Hroom]. destruct s as [[ws r w] hs req comp]. simpl in *.
  pose proof (count_both hs) as Hboth.
  pose proof (fun id b req => acquire_inv _ id b req Hi) as Hacq. simpl in Hacq.
  pose proof (fun id b => enqueue_inv _ id b Hi) as Henq. simpl in Henq.
  assert (r = 0 -> w = 0 -> ws = []) as Hfree.
  { intros -> ->. destruct ws as [|w0 ws]; [done|]. unfold head_blocked in Hhead. simpl in Hhead. destruct (write_lock w0); lia. }
  assert (forall (id : Z) (b : bool) rd' wr', head_blocked (mkLock ws r w) -> (ws = [] -> if b then 0 < r \/ 0 < w else 0 < w) ->
    rd' = r -> wr' = w -> head_blocked (mkLock (ws ++ [mkWaiter id b]) rd' wr')) as Hblk.
  { intros id b rd' wr' Hh Hn -> ->. unfold head_blocked in *. simpl in *. destruct ws; [by apply Hn|done]. }
  destruct e as [id|id|id|id|id|id]; simpl in Hmay |- *.
  - destruct Hmay as [Hnew Hrm]. unfold ocf_async_lock, _ocf_async_trylock, mbind, M_bind, mret, M_ret, gets, modify. simpl.
    destruct (Z.eqb_spec w 0) as [Hw|Hw]; [destruct (Z.eqb_spec r 0) as [Hr|Hr]|]; simpl.
    + eexists. split; [done|]. split; [|done]. apply (Hacq id true [id]); auto.
    + eexists. split; [done|]. split; [|done]. rewrite app_nil_r. apply Henq; [done|done|]. apply Hblk; [done|lia|done|done].
    + eexists. split; [done|]. split; [|done]. rewrite app_nil_r. apply Henq; [done|done|]. apply Hblk; [done|lia|done|done].
  - destruct Hmay as [Hnew Hrm]. unfold ocf_async_read_lock, _ocf_async_read_trylock, mbind, M_bind, mret, M_ret, gets, modify. simpl.
    destruct (Z.eqb_spec w 0) as [Hw|Hw]; [destruct ws as [|w0 ws]|]; simpl.
    + eexists. split; [done|]. split; [|done]. apply (Hacq id false [id]); try done; auto.
    + eexists. split; [done|]. split; [|done]. rewrite app_nil_r. apply (Henq id false); [done|done|]. apply (Hblk id false); done.
    + eexists. split; [done|]. split; [|done]. rewrite app_nil_r. apply Henq; [done|done|]. apply Hblk; [done|lia|done|done].
  - unfold ocf_async_trylock, _ocf_async_trylock, mbind, M_bind, mret, M_ret, gets, modify. simpl.
    destruct (Z.eqb_spec w 0) as [Hw|Hw]; [destruct (Z.eqb_spec r 0) as [Hr|Hr]|]; simpl.
    + eexists. split; [done|]. split; [|done]. specialize (Hacq id true []). rewrite !app_nil_r in Hacq. apply Hacq; try done; auto.
    + by eexists.
    + by eexists.
  - unfold ocf_async_read_trylock, _ocf_async_read_trylock, mbind, M_bind, mret, M_ret, gets, modify. simpl.
    destruct (Z.eqb_spec w 0) as [Hw|Hw]; [destruct ws as [|w0 ws]|]; simpl.
    + eexists. split; [done|]. split; [|done]. specialize (Hacq id false []). rewrite !app_nil_r in Hacq. apply Hacq; try done; auto.
    + by eexists.
    + by eexists.
  - pose proof (count_drop true _ _ Hmay) as Hct. pose proof (count_drop false _ _ Hmay) as Hcf. simpl in Hct, Hcf.
    assert (wp ocf_async_unlock (fun cs l => cs = _ocf_async_lock_run_waiters (grants false ws) 0 /\
      l = mkLock (drop (length (grants false ws)) ws) (Z.of_nat (count_mode false (as_holders (grants false ws))))
            (Z.of_nat (count_mode true (as_holders (grants false ws))))) (mkLock ws r w)) as (cs & l & Hrun & -> & ->).
    { unfold ocf_async_unlock. do 4 wp_step. { simpl. rewrite (proj2 (Z.eqb_eq r 0)) by lia. done. }
      do 4 wp_step. { simpl. apply Z.eqb_neq. lia. }
      do 3 wp_step. unfold set_wr. simpl. assert (r = 0) as -> by lia.
      eapply wp_mono; [apply collect_spec; lia|]. intros m l [-> ->]. by wp_step. }
    rewrite Hrun. simpl. eexists. split; [done|]. rewrite completions_ids.
    rewrite (granted_prefix ws _ (drop (length (grants false ws)) ws)) by (done || by rewrite grants_prefix).
    split; [apply (grant_inv _ (drop_holder (id, true) hs) Hi); lia|]. split; [done|]. by apply grant_backlog.
  - pose proof (count_drop true _ _ Hmay) as Hct. pose proof (count_drop false _ _ Hmay) as Hcf. simpl in Hct, Hcf.
    pose proof (count_both (drop_holder (id, false) hs)) as Hbd.
    assert (rd_ok : (r =? 0) = false) by (apply Z.eqb_neq; lia).
    assert (w_ok : (w =? 0) = true) by (apply Z.eqb_eq; lia).
    assert (w = 0) as -> by lia. set (g := grants false ws).
    assert (wp ocf_async_read_unlock (fun cs l => if r - 1 =? 0 then cs = _ocf_async_lock_run_waiters g 0 /\
        l = mkLock (drop (length g) ws) (Z.of_nat (count_mode false (as_holders g))) (Z.of_nat (count_mode true (as_holders g)))
      else cs = [] /\ l = mkLock ws (r - 1) 0) (mkLock ws r 0)) as (cs & l & Hrun & Hres).
    { unfold ocf_async_read_unlock. do 4 wp_step; [done|]. do 4 wp_step. do 4 wp_step. unfold set_rd. simpl.
      rewrite u32_small by lia. destruct (Z.eqb_spec (r - 1) 0) as [Hr|Hr]; simpl; [|by wp_step].
      rewrite Hr. wp_step. eapply wp_mono; [apply collect_spec; lia|]. intros m l [-> ->]. by wp_step. }
    rewrite Hrun. simpl. eexists. split; [done|]. destruct (Z.eqb_spec (r - 1) 0) as [Hr|Hr]; destruct Hres as [-> ->].
    + rewrite completions_ids, (granted_prefix ws _ (drop (length g) ws)) by (done || (symmetry; apply grants_prefix)).
      split; [apply (grant_inv _ (drop_holder (id, false) hs) Hi); lia|]. split; [done|]. by apply grant_backlog.
    + simpl. pose proof (drop_holder_length _ _ Hmay). split; [|split; [done|unfold backlog; simpl; lia]].
      rewrite app_nil_r. split; simpl; try done; try lia. unfold head_blocked in *. simpl in *.
      destruct ws as [|w0 ws]; [done|]. destruct (write_lock w0); lia.
Qed.

Lemma async_reachable_inv s : reachable s -> sys_inv s.
Proof.
  unfold reachable. intros Hr. assert (sys_inv initial) as Hi.
  { split; simpl; try done; [by left|constructor]. }
  revert Hi. induction Hr as [|s1 s2 s3 Hs Hr IH]; [done|]. intros Hi. apply IH. destruct Hs as [e s s' Hmay Hrun].
  destruct (event_inv e s Hi Hmay) as (s'' & Hrun' & Hi' & _).
  rewrite Hrun in Hrun'. by simplify_eq.
Qed.

(** ** Main properties *)

(** The lock is a readers-writer lock.  In every state reachable by any
    requests and releases of what is held: at most one writer, and no reader
    next to it; the counters are exact; nothing waits while the lock is free; and
    whatever a client may do next runs without a failed check. *)
Theorem async_lock_exclusive s : reachable s ->
  (count_mode true (holders s) = 0 \/ count_mode true (holders s) = 1 /\ count_mode false (holders s) = 0)%nat /\
  rd (lk s) = Z.of_nat (count_mode false (holders s)) /\ wr (lk s) = Z.of_nat (count_mode true (holders s)) /\
  (holders s = [] -> waiters (lk s) = []) /\
  (forall e, may_event e s -> is_Some (run_event e s)).
Proof.
  intros Hi%async_reachable_inv. pose proof Hi as [Hrd Hwr Hex Hhead _ _ _]. split_and!; [done..| |].
  - intros Hh. rewrite Hh in *. unfold head_blocked in Hhead. destruct (waiters (lk s)) as [|w ws]; [done|].
    unfold count_mode in *. simpl in *. destruct (write_lock w); lia.
  - intros e He. destruct (event_inv e s Hi He) as (s' & -> & _). by eexists.
Qed.

(** C30: first come, first served.  The requests that were granted followed by
    those that wait are always all the requests that were made, in the order in
    which they were made: none is lost, granted twice or overtaken. *)
Theorem async_lock_fifo s : reachable s -> requested s = completed s ++ (w_id <$> waiters (lk s)).
Proof. intros Hi%async_reachable_inv. apply (si_fifo _ Hi). Qed.

(** A release of something that is held. *)
Definition releases (s s' : system) : Prop :=
  exists (id : Z) (b : bool), (id, b) ∈ holders s /\ run_event (if b then EUnlock id else EReadUnlock id) s = Some s'.

(** Every request is granted.  From every reachable state, releasing what is
    held, in any order, ends after finitely many releases, and only when all
    requests have been granted and the lock is free. *)
Theorem async_lock_drains s : reachable s ->
  Acc (fun s2 s1 => releases s1 s2) s /\
  (forall s', rtc releases s s' -> (exists s'', releases s' s'') \/
     (holders s' = [] /\ waiters (lk s') = [] /\ completed s' = requested s)).
Proof.
  intros Hi%async_reachable_inv.
  assert (forall s s', sys_inv s -> releases s s' -> sys_inv s' /\ requested s' = requested s /\ (backlog s' < backlog s)%nat)
    as Hrel.
  { intros s1 s2 H1 (id & b & Hin & Hrun).
    destruct (event_inv (if b then EUnlock id else EReadUnlock id) s1 H1) as (s3 & Hrun' & H3 & Hp); [by destruct b|].
    rewrite Hrun in Hrun'. injection Hrun' as <-. by destruct b. }
  split.
  - remember (backlog s) as n eqn:Hn. revert s Hi Hn. induction (lt_wf n) as [n _ IH]. intros s Hi ->.
    constructor. intros s' Hs. destruct (Hrel s s' Hi Hs) as (Hi' & _ & Hb). by apply (IH (backlog s') Hb s').
  - intros s' Hr. assert (sys_inv s' /\ requested s' = requested s) as [Hi' Hreq].
    { revert Hi. induction Hr as [|s1 s2 s3 Hs Hr IH]; intros Hi; [done|]. destruct (Hrel s1 s2 Hi Hs) as (H2 & H3 & _).
      destruct (IH H2) as [? ?]. split; [done|congruence]. }
    pose proof Hi' as [Hrd Hwr Hex Hhead _ Hfifo _]. destruct (holders s') as [|[id b] hs] eqn:Hh.
    + right. split; [done|]. assert (waiters (lk s') = []) as Hw.
      { unfold head_blocked in Hhead. destruct (waiters (lk s')) as [|w ws]; [done|].
        unfold count_mode in *. simpl in *. destruct (write_lock w); lia. }
      split; [done|]. rewrite Hw, app_nil_r in Hfifo. congruence.
    + left. destruct (event_inv (if b then EUnlock id else EReadUnlock id) s' Hi') as (s'' & Hrun & _).
      { destruct b; simpl; rewrite Hh; by left. }
      exists s'', id, b. rewrite Hh. split; [by left|done].
Qed.

(** Tearing the lock down answers everybody.  [ocf_async_lock_deinit] leaves
    an empty queue and completes every waiter with [-OCF_ERR_NO_LOCK], each once,
    in the order of the queue, so that every request made has been answered. *)
Theorem async_lock_deinit_answers s : reachable s ->
  exists cs l, ocf_async_lock_deinit (lk s) = Some (cs, l) /\ waiters l = [] /\
    Forall (fun c : completion => c.2 = - OCF_ERR_NO_LOCK) cs /\ requested s = completed s ++ (cs.*1).
Proof.
  intros Hi%async_reachable_inv. eexists _, _. split; [done|]. split_and!; [done| |].
  - unfold _ocf_async_lock_run_waiters. rewrite Forall_fmap. apply Forall_true. done.
  - rewrite completions_ids. apply (si_fifo _ Hi).
Qed.

(** ** Witnesses *)

Fixpoint run_events (es : list event) (s : system) : option system :=
  match es with [] => Some s | e :: es => run_event e s ≫= run_events es end.

(** A writer holds the lock, two readers and a writer wait, a reader follows. *)
Definition wit_events : list event := [ELock 1; EReadLock 2; EReadLock 3; ELock 4; EReadLock 5].

#[export] Instance may_event_dec e s : Decision (may_event e s).
Proof. unfold may_event. destruct e; apply _. Defined.

Fixpoint all_allowed (es : list event) (s : system) : bool :=
  match es with
  | [] => true
  | e :: es => bool_decide (may_event e s) && match run_event e s with Some s' => all_allowed es s' | None => false end
  end.

Lemma run_events_reachable es s : all_allowed es initial = true -> run_events es initial = Some s -> reachable s.
Proof.
  unfold reachable. generalize initial as s0. induction es as [|e es IH]; intros s0; simpl; [by intros _ [= ->]|].
  intros [Hm Ha]%andb_true_iff. destruct (run_event e s0) as [s1|] eqn:Hr; [|done]. simpl. intros Hs.
  apply rtc_l with s1; [|by apply IH]. apply sys_event with e; [by apply bool_decide_eq_true in Hm|done].
Qed.

Definition wit_system : system := default initial (run_events wit_events initial).

Lemma wit_system_reachable : reachable wit_system.
Proof. by apply (run_events_reachable wit_events). Qed.

Lemma async_lock_exclusive_witness :
  (count_mode true (holders wit_system) = 0 \/ count_mode true (holders wit_system) = 1 /\ count_mode false (holders wit_system) = 0)%nat /\
  rd (lk wit_system) = Z.of_nat (count_mode false (holders wit_system)) /\
  wr (lk wit_system) = Z.of_nat (count_mode true (holders wit_system)) /\
  (holders wit_system = [] -> waiters (lk wit_system) = []) /\
  (forall e, may_event e wit_system -> is_Some (run_event e wit_system)).
Proof. apply (async_lock_exclusive wit_system wit_system_reachable). Defined.

Lemma async_lock_fifo_witness : [1; 2; 3; 4; 5] = [1] ++ (w_id <$> waiters (lk wit_system)).
Proof. apply (async_lock_fifo wit_system wit_system_reachable). Defined.

Lemma async_lock_drains_witness : Acc (fun s2 s1 => releases s1 s2) wit_system /\
  (forall s', rtc releases wit_system s' -> (exists s'', releases s' s'') \/
     (holders s' = [] /\ waiters (lk s') = [] /\ completed s' = [1; 2; 3; 4; 5])).
Proof. apply (async_lock_drains wit_system wit_system_reachable). Defined.

Lemma async_lock_deinit_answers_witness :
  exists cs l, ocf_async_lock_deinit (lk wit_system) = Some (cs, l) /\ waiters l = [] /\
    Forall (fun c : completion => c.2 = - OCF_ERR_NO_LOCK) cs /\ [1; 2; 3; 4; 5] = [1] ++ (cs.*1).
Proof. apply (async_lock_deinit_answers wit_system wit_system_reachable). Defined.
