(* ===== verification/Eviction.v ===== *)
(** Partitions and eviction: the part of ocf/src/ocf_lru.c that works on the
    LRU lists of the partitions together with the metadata, the cache-line locks
    and the hash-bucket locks.

    A partition is its number; [PARTITION_FREELIST] is the free list.  The LRU
    locks taken around the list operations are not state here: the operations
    below are what runs while they are held (their order is the subject of
    MetaLock). *)

From S2P Require Import Prelude Dll Meta Lru Collision Alock MetaLock.

(** The parts of the cache that these operations use; [curr_size] is that of
    each partition. *)
Record cache := mkCache {
  c_lru : lru_state;
  c_meta : meta_state;
  c_alock : ocf_alock;
  c_sems : sem_state;
  curr_size : gmap Z Z;
}.

Definition set_c_lru v (s : cache) := mkCache v (c_meta s) (c_alock s) (c_sems s) (curr_size s).
Definition set_c_meta v (s : cache) := mkCache (c_lru s) v (c_alock s) (c_sems s) (curr_size s).
Definition set_c_alock v (s : cache) := mkCache (c_lru s) (c_meta s) v (c_sems s) (curr_size s).
Definition set_c_sems v (s : cache) := mkCache (c_lru s) (c_meta s) (c_alock s) v (curr_size s).
Definition set_curr_size v (s : cache) := mkCache (c_lru s) (c_meta s) (c_alock s) (c_sems s) v.

Definition on_lru {A} (m : M lru_state A) : M cache A := zoom c_lru set_c_lru m.
Definition on_meta {A} (m : M meta_state A) : M cache A := zoom c_meta set_c_meta m.
Definition on_alock {A} (m : M ocf_alock A) : M cache A := zoom c_alock set_c_alock m.
Definition on_sems {A} (m : M sem_state A) : M cache A := zoom c_sems set_c_sems m.

Definition upd_size (part : Z) (f : Z -> Z) : M cache unit := fun s =>
  match curr_size s !! part with
  | Some _ => Some (tt, set_curr_size (alter f part (curr_size s)) s)
  | None => None
  end.
Definition size_inc (part : Z) : M cache unit := upd_size part (fun n => s32 (n + 1)).
Definition size_dec (part : Z) : M cache unit := upd_size part (fun n => s32 (n - 1)).

(** [&cache->user_parts[id].part]: the array has this many elements. *)
Definition user_part (id : Z) : M cache Z :=
  BUG_ON (OCF_USER_IO_CLASS_MAX <? id);; mret id.

(** ** Iterators *)

(** [struct ocf_lru_iter], less the pointers to the cache and to the request. *)
Record ocf_lru_iter := mkIter {
  curr_cline : gmap Z Z;
  it_part : Z;
  next_avail_lru : Z;
  num_avail_lrus : Z;
  lru_idx : Z;
  hash_locked : option (Z -> Z -> bool);
  it_clean : bool;
}.

(** [__builtin_ffsll]: one plus the index of the least bit set, or 0. *)
Fixpoint ffs_loop (n : nat) (i bits : Z) : Z :=
  match n with O => 0 | S n => if Z.testbit bits i then i + 1 else ffs_loop n (i + 1) bits end.
Definition ffsll (bits : Z) : Z := ffs_loop 64 0 bits.

Definition ocf_rotate_right (bits shift width : Z) : Z :=
  Z.land (Z.lor (Z.shiftr bits shift) (u64 (Z.shiftl bits (width - shift)))) (Z.shiftl 1 width - 1).

Definition _lru_next_lru (iter : ocf_lru_iter) : Z * ocf_lru_iter :=
  let increment := ffsll (next_avail_lru iter) in
  let idx := u32 (lru_idx iter + increment) `mod` OCF_NUM_LRU_LISTS in
  (idx, mkIter (curr_cline iter) (it_part iter)
          (ocf_rotate_right (next_avail_lru iter) increment OCF_NUM_LRU_LISTS)
          (num_avail_lrus iter) idx (hash_locked iter) (it_clean iter)).

Definition _lru_lru_is_empty (iter : ocf_lru_iter) : bool :=
  Z.land (next_avail_lru iter) (Z.shiftl 1 (OCF_NUM_LRU_LISTS - 1)) =? 0.

Definition _lru_lru_set_empty (iter : ocf_lru_iter) : ocf_lru_iter :=
  mkIter (curr_cline iter) (it_part iter)
    (Z.land (next_avail_lru iter) (u64 (Z.lnot (Z.shiftl 1 (OCF_NUM_LRU_LISTS - 1)))))
    (u32 (num_avail_lrus iter - 1)) (lru_idx iter) (hash_locked iter) (it_clean iter).

Definition _lru_lru_all_empty (iter : ocf_lru_iter) : bool := num_avail_lrus iter =? 0.

Section ocf_lru.
Variable cfg : config.
(** [_WAITERS_LIST_ENTRIES] of the cache-line locks. *)
Variable list_entries : Z.

(** ** Lists of partitions *)

Definition ocf_lru_get_list (part lru_idx : Z) (clean : bool) : list_ref :=
  (part, lru_idx, if part =? PARTITION_FREELIST then true else clean).

Definition lru_get_cline_list (cline : Z) : M cache list_ref :=
  part_id ← on_meta (ocf_metadata_get_partition_id cline);
  BUG_ON (OCF_USER_IO_CLASS_MAX <? part_id);;
  part ← user_part part_id;
  dirty ← on_meta (metadata_test_dirty cfg cline);
  mret (ocf_lru_get_list part (cline `mod` OCF_NUM_LRU_LISTS) (negb dirty)).

Definition ocf_lru_add (cline : Z) : M cache unit :=
  list ← lru_get_cline_list cline; on_lru (add_lru_head list cline).

Definition ocf_lru_repart_locked (cline src_part dst_part : Z) : M cache unit :=
  let lru_list := cline `mod` OCF_NUM_LRU_LISTS in
  dirty ← on_meta (metadata_test_dirty cfg cline);
  let clean := negb dirty in
  on_lru (ocf_lru_move cline (ocf_lru_get_list src_part lru_list clean) (ocf_lru_get_list dst_part lru_list clean));;
  on_meta (ocf_metadata_set_partition_id cline dst_part);;
  size_dec src_part;;
  size_inc dst_part.

Definition ocf_lru_repart (cline src_part dst_part : Z) : M cache unit := ocf_lru_repart_locked cline src_part dst_part.

Definition ocf_lru_rm_cline (cline : Z) : M cache unit :=
  part_id ← on_meta (ocf_metadata_get_partition_id cline);
  part ← user_part part_id;
  ocf_lru_repart cline part PARTITION_FREELIST.

Definition ocf_lru_hot_cline (cline : Z) : M cache unit :=
  node ← on_lru (ocf_metadata_get_lru cline);
  if hot node then mret tt
  else
    part_id ← on_meta (ocf_metadata_get_partition_id cline);
    part ← user_part part_id;
    dirty ← on_meta (metadata_test_dirty cfg cline);
    let ref := ocf_lru_get_list part (cline `mod` OCF_NUM_LRU_LISTS) (negb dirty) in
    node ← on_lru (ocf_metadata_get_lru cline);
    list ← on_lru (get_list ref);
    BUG_ON ((next node =? end_marker) && negb (l_tail list =? cline));;
    BUG_ON ((prev node =? end_marker) && negb (l_head list =? cline));;
    on_lru (ocf_lru_set_hot ref cline).

Definition ocf_lru_init (part : Z) : M cache unit :=
  for_range (Z.to_nat OCF_NUM_LRU_LISTS) 0 (fun i =>
    let clean_list := ocf_lru_get_list part i true in
    let dirty_list := ocf_lru_get_list part i false in
    if part =? PARTITION_FREELIST then on_lru (_lru_init clean_list false)
    else (on_lru (_lru_init clean_list true);; on_lru (_lru_init dirty_list true)));;
  upd_size part (fun _ => 0).

Definition __init_parts_attached : M cache unit :=
  for_range (Z.to_nat OCF_USER_IO_CLASS_MAX) 0 ocf_lru_init;;
  ocf_lru_init PARTITION_FREELIST.

Definition ocf_lru_clean_cline (part cline : Z) : M cache unit :=
  let lru_list := cline `mod` OCF_NUM_LRU_LISTS in
  on_lru (remove_lru_list (ocf_lru_get_list part lru_list false) cline);;
  on_lru (add_lru_head (ocf_lru_get_list part lru_list true) cline).

Definition ocf_lru_dirty_cline (part cline : Z) : M cache unit :=
  let lru_list := cline `mod` OCF_NUM_LRU_LISTS in
  on_lru (remove_lru_list (ocf_lru_get_list part lru_list true) cline);;
  on_lru (add_lru_head (ocf_lru_get_list part lru_list false) cline).

Definition ocf_lru_num_free : M cache Z := s ← gets curr_size; lift (s !! PARTITION_FREELIST).

(** ** Populating the free list *)

(** The loop of [next_phys_invalid]; it stops at the end of the table. *)
Fixpoint phys_invalid_loop (fuel : nat) (phys : Z) : M cache Z :=
  lg ← lift (ocf_metadata_map_phy2lg cfg phys);
  valid ← on_meta (metadata_test_valid_any cfg lg);
  if negb valid then mret phys
  else
    let phys := phys + 1 in
    if phys =? collision_table_entries cfg then mret phys
    else match fuel with O => bug | S fuel => phys_invalid_loop fuel phys end.

Definition next_phys_invalid (phys : Z) : M cache Z :=
  if phys =? collision_table_entries cfg then mret phys
  else phys_invalid_loop (Z.to_nat (collision_table_entries cfg)) phys.

Fixpoint populate_loop (n : nat) (phys : Z) : M cache Z :=
  match n with
  | O => mret phys
  | S n =>
      phys ← next_phys_invalid phys;
      BUG_ON (phys =? collision_table_entries cfg);;
      cline ← lift (ocf_metadata_map_phy2lg cfg phys);
      on_meta (ocf_metadata_set_partition_id cline PARTITION_FREELIST);;
      on_lru (add_lru_head (ocf_lru_get_list PARTITION_FREELIST (cline `mod` OCF_NUM_LRU_LISTS) true) cline);;
      populate_loop n (phys + 1)
  end.

Definition ocf_lru_populate (num_free_clines : Z) : M cache unit :=
  phys ← populate_loop (Z.to_nat num_free_clines) 0;
  phys ← next_phys_invalid phys;
  BUG_ON (negb (phys =? collision_table_entries cfg));;
  upd_size PARTITION_FREELIST (fun _ => s32 num_free_clines).

(** [occupancy] is the number of cached lines of all cores. *)
Definition __populate_free (occupancy : Z) : M cache unit :=
  ocf_lru_populate (u32 (collision_table_entries cfg - occupancy)).

(** The tables of [init_attached_data_structures], before the policies. *)
Definition init_attached (occupancy : Z) : M cache unit :=
  on_meta (ocf_metadata_init_hash_table cfg);;
  on_meta (ocf_metadata_init_collision cfg);;
  __init_parts_attached;;
  __populate_free occupancy.

(** ** Visiting the lists *)

Definition all_lists : Z := Z.shiftl 1 OCF_NUM_LRU_LISTS - 1.

(** The tails of the lists of a partition. *)
Fixpoint read_tails (n : nat) (i part : Z) (clean : bool) : M cache (gmap Z Z) :=
  match n with
  | O => mret ∅
  | S n =>
      list ← on_lru (get_list (ocf_lru_get_list part i clean));
      m ← read_tails n (i + 1) part clean;
      mret (<[i := l_tail list]> m)
  end.

Definition lru_iter_init (part start_lru : Z) (clean : bool) (locked : option (Z -> Z -> bool)) : M cache ocf_lru_iter :=
  curr ← read_tails (Z.to_nat OCF_NUM_LRU_LISTS) 0 part clean;
  mret (mkIter curr part all_lists OCF_NUM_LRU_LISTS
    (u32 (start_lru + OCF_NUM_LRU_LISTS - 1) `mod` OCF_NUM_LRU_LISTS) locked clean).

Definition lru_iter_cleaning_init (part start_lru : Z) : M cache ocf_lru_iter :=
  lru_iter_init part start_lru false None.

(** The request: its core and its first and last core line, and its buckets. *)
Record evict_req := mkEvictReq { r_core : Z; r_first : Z; r_last : Z; r_hashes : hash_req }.

Definition lru_iter_eviction_init (part start_lru : Z) (req : evict_req) : M cache ocf_lru_iter :=
  lru_iter_init part start_lru true (Some (ocf_req_hash_in_range cfg (r_hashes req))).

Definition is_hash_locked (iter : ocf_lru_iter) (cid cl : Z) : bool :=
  match hash_locked iter with Some f => f cid cl | None => false end.

Definition _lru_trylock_hash (iter : ocf_lru_iter) (cid cl : Z) : M cache bool :=
  if is_hash_locked iter cid cl then mret true
  else on_sems (ocf_hb_cline_naked_trylock_wr cfg cid cl).

(** [ocf_hb_cline_naked_unlock_wr] on the state of the locks. *)
Definition hash_unlock_wr (cid cl : Z) : M sem_state unit :=
  let hash := ocf_metadata_hash_func cfg cl cid in
  BUG_ON (hash_table_entries cfg <=? hash);; env_rwsem_up_write (LHash hash).

Definition _lru_unlock_hash (iter : ocf_lru_iter) (cid cl : Z) : M cache unit :=
  if is_hash_locked iter cid cl then mret tt else on_sems (hash_unlock_wr cid cl).

(** The core line of the victim, when it could be locked. *)
Definition _lru_iter_evition_lock (req : evict_req) (iter : ocf_lru_iter) (cache_line : Z) : M cache (option (Z * Z)) :=
  ok ← on_alock (ocf_cache_line_try_lock_wr cache_line);
  if negb ok then mret None
  else
    '(cid, cl) ← on_meta (ocf_metadata_get_core_info cache_line);
    if (cid =? r_core req) && (r_first req <=? cl) && (cl <=? r_last req) then
      on_alock (ocf_cache_line_unlock_wr list_entries cache_line);; mret None
    else
      ok ← _lru_trylock_hash iter cid cl;
      if negb ok then on_alock (ocf_cache_line_unlock_wr list_entries cache_line);; mret None
      else
        waiters ← on_alock (ocf_cache_line_are_waiters list_entries cache_line);
        if (waiters : bool) then
          _lru_unlock_hash iter cid cl;;
          on_alock (ocf_cache_line_unlock_wr list_entries cache_line);;
          mret None
        else mret (Some (cid, cl)).

(** The inner loop: from [cline] towards the head until [try] succeeds. *)
Fixpoint scan {B} (fuel : nat) (try : Z -> M cache (option B)) (cline : Z) : M cache (option (Z * B)) :=
  if cline =? end_marker then mret None
  else
    match fuel with
    | O => bug
    | S fuel =>
        r ← try cline;
        match r with
        | Some b => mret (Some (cline, b))
        | None => node ← on_lru (ocf_metadata_get_lru cline); scan fuel try (prev node)
        end
    end.

(** The outer loop: the lists in turn, until one gives a line or all are
    exhausted. *)
Fixpoint visit_lists {B} (fuel : nat) (visit : Z -> ocf_lru_iter -> M cache (option B * ocf_lru_iter))
    (iter : ocf_lru_iter) : M cache (option B * ocf_lru_iter) :=
  match fuel with
  | O => bug
  | S fuel =>
      let '(curr_lru, iter) := _lru_next_lru iter in
      '(r, iter) ← visit curr_lru iter;
      let failed := match r with None => true | Some _ => false end in
      let iter := if failed && negb (_lru_lru_is_empty iter) then _lru_lru_set_empty iter else iter in
      if failed && negb (_lru_lru_all_empty iter) then visit_lists fuel visit iter else mret (r, iter)
  end.

Definition line_fuel : nat := Z.to_nat (collision_table_entries cfg).
Definition list_fuel : nat := S (Z.to_nat OCF_NUM_LRU_LISTS).

Definition eviction_visit (req : evict_req) (dst_part curr_lru : Z) (iter : ocf_lru_iter) :
    M cache (option (Z * (Z * Z)) * ocf_lru_iter) :=
  let part := it_part iter in
  let ref := ocf_lru_get_list part curr_lru (it_clean iter) in
  list ← on_lru (get_list ref);
  r ← scan line_fuel (_lru_iter_evition_lock req iter) (l_tail list);
  (match r with
   | Some (cline, _) =>
       if negb (dst_part =? part) then ocf_lru_repart_locked cline part dst_part
       else on_lru (ocf_lru_set_hot ref cline)
   | None => mret tt
   end);;
  mret (r, iter).

Definition lru_iter_eviction_next (req : evict_req) (dst_part : Z) (iter : ocf_lru_iter) :
    M cache (option (Z * (Z * Z)) * ocf_lru_iter) :=
  visit_lists list_fuel (eviction_visit req dst_part) iter.

Definition try_wr (cline : Z) : M cache (option unit) :=
  ok ← on_alock (ocf_cache_line_try_lock_wr cline); mret (if (ok : bool) then Some tt else None).
Definition try_rd (cline : Z) : M cache (option unit) :=
  ok ← on_alock (ocf_cache_line_try_lock_rd cline); mret (if (ok : bool) then Some tt else None).

Definition free_visit (dst_part curr_lru : Z) (iter : ocf_lru_iter) : M cache (option Z * ocf_lru_iter) :=
  let free := it_part iter in
  list ← on_lru (get_list (ocf_lru_get_list free curr_lru true));
  r ← scan line_fuel try_wr (l_tail list);
  match r with
  | Some (cline, _) => ocf_lru_repart_locked cline free dst_part;; mret (Some cline, iter)
  | None => mret (None, iter)
  end.

Definition lru_iter_free_next (dst_part : Z) (iter : ocf_lru_iter) : M cache (option Z * ocf_lru_iter) :=
  BUG_ON (dst_part =? it_part iter);;
  visit_lists list_fuel (free_visit dst_part) iter.

Definition set_curr_cline (i v : Z) (iter : ocf_lru_iter) : ocf_lru_iter :=
  mkIter (<[i := v]> (curr_cline iter)) (it_part iter) (next_avail_lru iter) (num_avail_lrus iter)
    (lru_idx iter) (hash_locked iter) (it_clean iter).

Definition cleaning_visit (curr_lru : Z) (iter : ocf_lru_iter) : M cache (option Z * ocf_lru_iter) :=
  cline ← lift (curr_cline iter !! curr_lru);
  r ← scan line_fuel try_rd cline;
  match r with
  | Some (cline, _) =>
      node ← on_lru (ocf_metadata_get_lru cline);
      mret (Some cline, set_curr_cline curr_lru (prev node) iter)
  | None => mret (None, iter)
  end.

Definition lru_iter_cleaning_next (iter : ocf_lru_iter) : M cache (option Z * ocf_lru_iter) :=
  visit_lists list_fuel cleaning_visit iter.

Definition OCF_EVICTION_CLEAN_SIZE : Z := 32.

(** The loop of [ocf_lru_clean] that collects the lines to clean. *)
Fixpoint clean_collect (n : nat) (iter : ocf_lru_iter) : M cache (list Z) :=
  match n with
  | O => mret []
  | S n =>
      '(r, iter) ← lru_iter_cleaning_next iter;
      match r with
      | None => mret []
      | Some cline => clines ← clean_collect n iter; mret (cline :: clines)
      end
  end.

(** The part of [ocf_lru_clean] between the locks: the lines given to the
    cleaner, read locked. *)
Definition ocf_lru_clean_lines (part lru_idx : Z) : M cache (list Z) :=
  iter ← lru_iter_cleaning_init part lru_idx;
  clean_collect (Z.to_nat OCF_EVICTION_CLEAN_SIZE) iter.

(** ** Visiting the lines of a core *)

Definition _is_cache_line_acting (cache_line cid start_line end_line : Z) : M cache bool :=
  '(tmp_core_id, cl) ← on_meta (ocf_metadata_get_core_info cache_line);
  if negb (cid =? OCF_CORE_ID_INVALID) then
    if negb (cid =? tmp_core_id) then mret false
    else mret (negb ((cl <? start_line) || (end_line <? cl)))
  else mret (negb (tmp_core_id =? OCF_CORE_ID_INVALID)).

Section actor.
(** The actor may work on more than the cache. *)
Context {T : Type} (on : forall A, M cache A -> M T A).
Variable actor : Z -> M T unit.

(** One line that belongs to the range: [-OCF_ERR_AGAIN] when it is in use. *)
Definition act_on (ret cline : Z) : M T Z :=
  used ← on _ (on_alock (ocf_cache_line_is_used list_entries cline));
  if (used : bool) then mret (- OCF_ERR_AGAIN) else actor cline;; mret ret.

Fixpoint actor_all (n : nat) (cline cid start_line end_line ret : Z) : M T Z :=
  match n with
  | O => mret ret
  | S n =>
      acting ← on _ (_is_cache_line_acting cline cid start_line end_line);
      ret ← (if (acting : bool) then act_on ret cline else mret ret);
      actor_all n (cline + 1) cid start_line end_line ret
  end.

(** The loop over one list; [node] is read again after the actor ran. *)
Fixpoint actor_list (fuel : nat) (cline cid start_line end_line ret : Z) : M T Z :=
  if cline =? end_marker then mret ret
  else
    match fuel with
    | O => bug
    | S fuel =>
        acting ← on _ (_is_cache_line_acting cline cid start_line end_line);
        ret ← (if (acting : bool) then act_on ret cline else mret ret);
        node ← on _ (on_lru (ocf_metadata_get_lru cline));
        actor_list fuel (prev node) cid start_line end_line ret
    end.

Fixpoint actor_lists (refs : list list_ref) (cid start_line end_line ret : Z) : M T Z :=
  match refs with
  | [] => mret ret
  | ref :: refs =>
      list ← on _ (on_lru (get_list ref));
      ret ← actor_list line_fuel (l_tail list) cid start_line end_line ret;
      actor_lists refs cid start_line end_line ret
  end.

Definition bytes_2_lines (bytes : Z) : Z := bytes `div` line_size cfg.

Definition ocf_metadata_actor (part_id cid start_byte end_byte : Z) : M T Z :=
  let start_line := bytes_2_lines start_byte in
  let end_line := bytes_2_lines end_byte in
  if part_id =? PARTITION_UNSPECIFIED then
    actor_all (Z.to_nat (collision_table_entries cfg)) 0 cid start_line end_line 0
  else
    BUG_ON (part_id =? PARTITION_FREELIST);;
    part ← on _ (user_part part_id);
    actor_lists (i ← seqZ 0 OCF_NUM_LRU_LISTS; [ocf_lru_get_list part i false; ocf_lru_get_list part i true])
      cid start_line end_line 0.
End actor.
End ocf_lru.

(** ** The iterator goes round the available lists *)

Lemma testbit_high bits j : 0 <= bits < 2 ^ 32 -> 32 <= j -> Z.testbit bits j = false.
Proof.
  intros Hb Hj. destruct (decide (bits = 0)) as [->|Hnz]; [apply Z.bits_0|].
  apply Z.bits_above_log2; [lia|]. assert (Z.log2 bits < 32) by (apply Z.log2_lt_pow2; lia). lia.
Qed.

Lemma rotate_spec bits sh j : 0 <= bits < 2 ^ 32 -> 0 <= sh <= 32 -> 0 <= j < 32 ->
  Z.testbit (ocf_rotate_right bits sh 32) j = Z.testbit bits ((j + sh) `mod` 32).
Proof.
  intros Hb Hsh Hj. unfold ocf_rotate_right. rewrite Z.land_spec, Z.lor_spec, Z.shiftr_spec by lia.
  change (Z.shiftl 1 32 - 1) with (Z.ones 32). rewrite Z.ones_spec_low, andb_true_r by lia.
  unfold u64. rewrite Z.mod_pow2_bits_low by lia. rewrite Z.shiftl_spec by lia.
  destruct (Z_lt_le_dec (j + sh) 32) as [Hlt|Hge].
  - rewrite Z.mod_small by lia. rewrite (Z.testbit_neg_r bits (j - (32 - sh))) by lia. apply orb_false_r.
  - rewrite testbit_high by (done || lia). simpl. f_equal. replace (j + sh) with (j - (32 - sh) + 1 * 32) by lia.
    rewrite Z.mod_add by lia. rewrite Z.mod_small by lia. lia.
Qed.

Lemma rotate_bound bits sh : 0 <= bits -> 0 <= sh <= 32 -> 0 <= ocf_rotate_right bits sh 32 < 2 ^ 32.
Proof.
  intros Hb Hsh. unfold ocf_rotate_right. change (Z.shiftl 1 32 - 1) with (Z.ones 32).
  rewrite Z.land_ones by lia. apply Z.mod_pos_bound. lia.
Qed.

Lemma ffs_loop_spec n i bits :
  (ffs_loop n i bits = 0 /\ forall j, i <= j < i + Z.of_nat n -> Z.testbit bits j = false) \/
  (exists j, i <= j < i + Z.of_nat n /\ ffs_loop n i bits = j + 1 /\ Z.testbit bits j = true /\
     forall k, i <= k < j -> Z.testbit bits k = false).
Proof.
  revert i. induction n as [|n IH]; intros i; cbn [ffs_loop]; [left; split; [done|intros j Hj; lia]|].
  destruct (Z.testbit bits i) eqn:Hi; [right; exists i; split_and!; [lia|lia|done|done|intros k Hk; lia]|].
  assert (forall k, i <= k -> k <> i -> i + 1 <= k) as Hk by lia.
  destruct (IH (i + 1)) as [[-> Hj]|(j & Hj & -> & Hb & Hlow)]; [left|right].
  - split; [done|]. intros j Hr. destruct (decide (j = i)) as [->|]; [done|]. apply Hj. lia.
  - exists j. split_and!; [lia|lia|done|done|]. intros k Hr. destruct (decide (k = i)) as [->|]; [done|]. apply Hlow. lia.
Qed.

Lemma ffsll_spec bits : 0 <= bits < 2 ^ 32 ->
  (ffsll bits = 0 /\ forall j, Z.testbit bits j = false) \/
  (exists j, 0 <= j < 32 /\ ffsll bits = j + 1 /\ Z.testbit bits j = true /\ forall k, 0 <= k < j -> Z.testbit bits k = false).
Proof.
  intros Hb. unfold ffsll. destruct (ffs_loop_spec 64 0 bits) as [[-> Hj]|(j & Hj & -> & Ht & Hlow)]; [left|right].
  - split; [done|]. intros j. destruct (Z_lt_le_dec j 0); [by apply Z.testbit_neg_r|].
    destruct (Z_lt_le_dec j 64); [apply Hj; lia|apply testbit_high; [done|lia]].
  - exists j. destruct (Z_lt_le_dec j 32) as [|Hge]; [split_and!; [lia|lia|done|done|done]|]. by rewrite testbit_high in Ht by done.
Qed.

Lemma filter_ext_elem {A} (P Q : A -> Prop) `{!forall x, Decision (P x), !forall x, Decision (Q x)} (l : list A) :
  (forall x, x ∈ l -> P x <-> Q x) -> filter P l = filter Q l.
Proof.
  induction l as [|x l IH]; intros Hl; [done|]. rewrite !filter_cons.
  assert (P x <-> Q x) as Hx by (apply Hl; by left).
  destruct (decide (P x)), (decide (Q x)); try tauto; rewrite IH; try done; intros y Hy; apply Hl; by right.
Qed.

(** Whether the list [i] is still available to the iterator: its bit, counted
    from the list after the current one. *)
Definition avail (it : ocf_lru_iter) (i : Z) : bool := Z.testbit (next_avail_lru it) ((i - lru_idx it - 1) `mod` 32).

Definition avail_lists (it : ocf_lru_iter) : list Z := filter (fun i => avail it i = true) (seqZ 0 32).

Record iter_ok (it : ocf_lru_iter) : Prop := {
  io_bits : 0 <= next_avail_lru it < 2 ^ 32;
  io_idx : 0 <= lru_idx it < 32;
  io_num : num_avail_lrus it = Z.of_nat (length (avail_lists it));
}.

(** The lists from the one after the current one round to the current one. *)
Definition round_from (idx : Z) : list Z := (fun k => (idx + 1 + k) `mod` 32) <$> seqZ 0 32.

Lemma mod32_shift a b : (a + b `mod` 32) `mod` 32 = (a + b) `mod` 32.
Proof. apply Zplus_mod_idemp_r. Qed.

Lemma avail_bit it k : 0 <= k < 32 -> avail it ((lru_idx it + 1 + k) `mod` 32) = Z.testbit (next_avail_lru it) k.
Proof.
  intros Hk. unfold avail. f_equal. replace ((lru_idx it + 1 + k) `mod` 32 - lru_idx it - 1)
    with (- lru_idx it - 1 + (lru_idx it + 1 + k) `mod` 32) by lia.
  rewrite mod32_shift. replace (- lru_idx it - 1 + (lru_idx it + 1 + k)) with k by lia. by apply Z.mod_small.
Qed.

Definition same_but_lists (it it' : ocf_lru_iter) : Prop :=
  it_part it' = it_part it /\ hash_locked it' = hash_locked it /\ it_clean it' = it_clean it /\ curr_cline it' = curr_cline it.

(** [_lru_next_lru] moves to the next available list, and keeps all of them
    available. *)
Lemma next_lru_spec it : iter_ok it -> avail_lists it <> [] ->
  let '(i, it') := _lru_next_lru it in
  iter_ok it' /\ lru_idx it' = i /\ (forall j, 0 <= j < 32 -> avail it' j = avail it j) /\ same_but_lists it it' /\
  exists k, 0 <= k < 32 /\ i = (lru_idx it + 1 + k) `mod` 32 /\ avail it i = true /\
    forall k', 0 <= k' < k -> avail it ((lru_idx it + 1 + k') `mod` 32) = false.
Proof.
  intros [Hb Hi Hn] Hne. unfold _lru_next_lru. destruct (ffsll_spec _ Hb) as [[-> Hz]|(k & Hk & -> & Ht & Hlow)].
  { exfalso. apply Hne. unfold avail_lists. destruct (filter _ _) as [|x l] eqn:Hf; [done|].
    assert (x ∈ filter (fun i => avail it i = true) (seqZ 0 32)) as Hx by (rewrite Hf; by left).
    apply list_elem_of_filter in Hx as [Hx _]. unfold avail in Hx. by rewrite Hz in Hx. }
  rewrite u32_small by lia. change OCF_NUM_LRU_LISTS with 32.
  set (it' := mkIter _ _ _ _ _ _ _).
  assert (forall j, 0 <= j < 32 -> avail it' j = avail it j) as Hav.
  { intros j Hj. unfold avail at 1. simpl.
    pose proof (Z.mod_pos_bound (j - (lru_idx it + (k + 1)) `mod` 32 - 1) 32 ltac:(lia)).
    rewrite rotate_spec by lia. unfold avail. f_equal. rewrite Zplus_mod_idemp_l.
    replace (j - (lru_idx it + (k + 1)) `mod` 32 - 1 + (k + 1)) with (j + k - (lru_idx it + (k + 1)) `mod` 32) by lia.
    rewrite Zminus_mod_idemp_r. f_equal. lia. }
  assert ((lru_idx it + (k + 1)) `mod` 32 = (lru_idx it + 1 + k) `mod` 32) as Hidx by (f_equal; lia).
  split_and!; [split| |done|done|].
  - simpl. apply rotate_bound; lia.
  - simpl. apply Z.mod_pos_bound. lia.
  - simpl. rewrite Hn. f_equal. f_equal. apply filter_ext_elem. intros x Hx%elem_of_seqZ. by rewrite Hav by lia.
  - done.
  - exists k. rewrite Hidx. split_and!; [lia|lia|done| |].
    + by rewrite avail_bit.
    + intros k' Hk'. rewrite avail_bit by lia. by apply Hlow.
Qed.

(** Marking the current list empty takes exactly this list away. *)
Lemma set_empty_spec it : iter_ok it -> avail it (lru_idx it) = true ->
  _lru_lru_is_empty it = false /\
  let it' := _lru_lru_set_empty it in
  iter_ok it' /\ same_but_lists it it' /\ lru_idx it' = lru_idx it /\
  (forall j, 0 <= j < 32 -> avail it' j = avail it j && negb (j =? lru_idx it)) /\
  num_avail_lrus it' = num_avail_lrus it - 1.
Proof.
  intros [Hb Hi Hn] Ha.
  assert (forall j, 0 <= j < 32 -> (j - lru_idx it - 1) `mod` 32 = 31 <-> j = lru_idx it) as H31.
  { intros j Hj. pose proof (Z.mod_pos_bound (j - lru_idx it - 1) 32 ltac:(lia)).
    pose proof (Z.div_mod (j - lru_idx it - 1) 32 ltac:(lia)). split; intros; nia. }
  assert (Z.testbit (next_avail_lru it) 31 = true) as Hbit.
  { unfold avail in Ha. by rewrite (proj2 (H31 _ Hi)) in Ha. }
  split.
  { unfold _lru_lru_is_empty. apply Z.eqb_neq. intros H0.
    assert (Z.testbit (Z.land (next_avail_lru it) (Z.shiftl 1 (OCF_NUM_LRU_LISTS - 1))) 31 = true) as Ht.
    { rewrite Z.land_spec, Hbit. done. }
    by rewrite H0 in Ht. }
  assert (forall k, 0 <= k < 32 -> Z.testbit (next_avail_lru (_lru_lru_set_empty it)) k =
    Z.testbit (next_avail_lru it) k && negb (k =? 31)) as Hk.
  { intros k Hk. cbn [_lru_lru_set_empty next_avail_lru]. rewrite Z.land_spec. unfold u64.
    rewrite Z.mod_pow2_bits_low, Z.lnot_spec by lia. f_equal. change (Z.shiftl 1 (OCF_NUM_LRU_LISTS - 1)) with (2 ^ 31).
    rewrite Z.pow2_bits_eqb by lia. by rewrite Z.eqb_sym. }
  assert (forall j, 0 <= j < 32 -> avail (_lru_lru_set_empty it) j = avail it j && negb (j =? lru_idx it)) as Hav.
  { intros j Hj. unfold avail. change (lru_idx (_lru_lru_set_empty it)) with (lru_idx it).
    pose proof (Z.mod_pos_bound (j - lru_idx it - 1) 32 ltac:(lia)). rewrite Hk by lia. do 2 f_equal.
    apply eq_true_iff_eq. rewrite !Z.eqb_eq. by apply H31. }
  assert (0 <= next_avail_lru (_lru_lru_set_empty it) < 2 ^ 32) as Hb'.
  { simpl. split; [apply Z.land_nonneg; lia|]. apply bits_bound; [lia|apply Z.land_nonneg; lia|].
    intros i Hi'. by rewrite Z.land_spec, testbit_high. }
  assert (avail_lists it ≡ₚ lru_idx it :: avail_lists (_lru_lru_set_empty it)) as Hperm.
  { apply NoDup_Permutation.
    - apply NoDup_filter, NoDup_seqZ.
    - constructor; [|apply NoDup_filter, NoDup_seqZ]. intros [Hx _]%list_elem_of_filter.
      rewrite Hav in Hx by done. by rewrite Z.eqb_refl, andb_false_r in Hx.
    - intros x. unfold avail_lists. rewrite elem_of_cons, !list_elem_of_filter, !elem_of_seqZ. split.
      + intros [Hx Hr]. destruct (decide (x = lru_idx it)) as [->|Hne]; [by left|right]. split; [|done].
        rewrite Hav, Hx by lia. apply Z.eqb_neq in Hne. by rewrite Hne.
      + intros [->|[Hx Hr]]; [split; [done|lia]|]. split; [|done]. rewrite Hav in Hx by lia.
        by apply andb_true_iff in Hx as [? _]. }
  assert (num_avail_lrus (_lru_lru_set_empty it) = num_avail_lrus it - 1) as Hnum.
  { simpl. apply u32_small. rewrite Hn, (Permutation_length Hperm). simpl.
    pose proof (length_filter (fun i => avail it i = true) (seqZ 0 32)) as Hle.
    fold (avail_lists it) in Hle. rewrite length_seqZ, (Permutation_length Hperm) in Hle. simpl in Hle. lia. }
  cbv zeta. split; [|split_and!; done].
  split; [done|done|]. rewrite Hnum, Hn, (Permutation_length Hperm). simpl. lia.
Qed.

(** How far the list [j] is ahead of the current one, in the order of visits. *)
Definition ahead (it : ocf_lru_iter) (j : Z) : Z := (j - lru_idx it - 1) `mod` 32.

Lemma ahead_range it j : 0 <= ahead it j < 32.
Proof. apply Z.mod_pos_bound. lia. Qed.

Lemma ahead_inj it i j : 0 <= i < 32 -> 0 <= j < 32 -> ahead it i = ahead it j -> i = j.
Proof.
  unfold ahead. intros Hi Hj He.
  pose proof (Z.div_mod (i - lru_idx it - 1) 32 ltac:(lia)). pose proof (Z.div_mod (j - lru_idx it - 1) 32 ltac:(lia)). nia.
Qed.

(** From the list [i], which is ahead of the current one. *)
Lemma ahead_next it it' i j : lru_idx it' = i -> ahead it i < ahead it j -> ahead it j = ahead it i + 1 + ahead it' j.
Proof.
  unfold ahead. intros -> Hlt. set (u := lru_idx it) in *.
  pose proof (Z.div_mod (i - u - 1) 32 ltac:(lia)). pose proof (Z.div_mod (j - u - 1) 32 ltac:(lia)).
  pose proof (Z.div_mod (j - i - 1) 32 ltac:(lia)).
  pose proof (Z.mod_pos_bound (i - u - 1) 32 ltac:(lia)). pose proof (Z.mod_pos_bound (j - u - 1) 32 ltac:(lia)).
  pose proof (Z.mod_pos_bound (j - i - 1) 32 ltac:(lia)). nia.
Qed.

(** [_lru_next_lru] moves to the available list that is the least ahead. *)
Lemma next_lru_first it : iter_ok it -> avail_lists it <> [] ->
  let '(i, it') := _lru_next_lru it in
  iter_ok it' /\ lru_idx it' = i /\ (forall j, 0 <= j < 32 -> avail it' j = avail it j) /\ same_but_lists it it' /\
  0 <= i < 32 /\ avail it i = true /\ forall j, 0 <= j < 32 -> avail it j = true -> j <> i -> ahead it i < ahead it j.
Proof.
  intros Hok Hne. pose proof (next_lru_spec it Hok Hne) as Hnext.
  destruct (_lru_next_lru it) as [i it']. destruct Hnext as (Hok' & Hidx & Hav & Hs & k & Hk & Hi & Hai & Hlow).
  assert (0 <= i < 32) as Hri by (rewrite Hi; apply Z.mod_pos_bound; lia).
  split_and!; [done..|lia|lia|done|]. intros j Hj Haj Hji.
  assert (forall m, 0 <= m < 32 -> ahead it ((lru_idx it + 1 + m) `mod` 32) = m) as Hm.
  { intros m Hm. unfold ahead. replace ((lru_idx it + 1 + m) `mod` 32 - lru_idx it - 1)
      with (- lru_idx it - 1 + (lru_idx it + 1 + m) `mod` 32) by lia.
    rewrite mod32_shift. replace (- lru_idx it - 1 + (lru_idx it + 1 + m)) with m by lia. by apply Z.mod_small. }
  rewrite Hi, Hm by done. pose proof (ahead_range it j) as Hr.
  destruct (Z_lt_le_dec k (ahead it j)) as [|Hle]; [done|exfalso].
  assert (j = (lru_idx it + 1 + ahead it j) `mod` 32) as Hjm.
  { apply (ahead_inj it); [done|apply Z.mod_pos_bound; lia|]. by rewrite Hm. }
  destruct (decide (ahead it j = k)) as [He|].
  - apply Hji. rewrite Hjm, He. by rewrite Hi.
  - rewrite Hjm, Hlow in Haj by lia. done.
Qed.

Lemma avail_elem it j : j ∈ avail_lists it <-> 0 <= j < 32 /\ avail it j = true.
Proof. unfold avail_lists. rewrite list_elem_of_filter, elem_of_seqZ. intuition lia. Qed.

Lemma avail_empty it : iter_ok it -> num_avail_lrus it = 0 <-> avail_lists it = [].
Proof. intros [_ _ Hn]. rewrite Hn. destruct (avail_lists it); [done|]. split; [simpl; lia|done]. Qed.

(** ** The outer loop: the first available list that gives a line

    [pick i] is what the body gives on list [i] in the state [s0]; a body that
    gives nothing changes nothing. *)
Section visits.
Context {B : Type} (visit : Z -> ocf_lru_iter -> M cache (option B * ocf_lru_iter)).
Context (s0 : cache) (pick : Z -> option B) (Post : Z -> B -> cache -> Prop).
Context (it0 : ocf_lru_iter).

Definition body_ok : Prop := forall i it, 0 <= i < 32 -> same_but_lists it0 it ->
  wp (visit i it) (fun p s' => p.1 = pick i /\
    match pick i with
    | None => s' = s0 /\ p.2 = it
    | Some b => Post i b s' /\
        next_avail_lru p.2 = next_avail_lru it /\ num_avail_lrus p.2 = num_avail_lrus it /\ lru_idx p.2 = lru_idx it
    end) s0.

(** The result of a round. *)
Definition round_post (it : ocf_lru_iter) (p : option B * ocf_lru_iter) (s' : cache) : Prop :=
  iter_ok p.2 /\
  match p.1 with
  | Some b => exists i, 0 <= i < 32 /\ avail it i = true /\ pick i = Some b /\ Post i b s' /\ lru_idx p.2 = i /\
      (forall j, 0 <= j < 32 -> avail it j = true -> ahead it j < ahead it i -> pick j = None) /\
      (forall j, 0 <= j < 32 -> avail p.2 j = avail it j && negb (ahead it j <? ahead it i))
  | None => s' = s0 /\ avail_lists p.2 = [] /\ forall j, 0 <= j < 32 -> avail it j = true -> pick j = None
  end.

(** One visit that gave nothing. *)
Lemma round_step it i it1 it2 p s' :
  0 <= i < 32 -> avail it i = true -> lru_idx it2 = i -> pick i = None ->
  (forall j, 0 <= j < 32 -> avail it j = true -> j <> i -> ahead it i < ahead it j) ->
  (forall j, 0 <= j < 32 -> avail it1 j = avail it j) ->
  (forall j, 0 <= j < 32 -> avail it2 j = avail it1 j && negb (j =? i)) ->
  round_post it2 p s' -> round_post it p s'.
Proof.
  intros Hi Hai Hidx Hpick Hfirst Hav1 Hav2 [Hok Hp].
  assert (forall j, 0 <= j < 32 -> avail it j = true -> j <> i -> avail it2 j = true) as Hkeep.
  { intros j Hj Haj Hji. rewrite Hav2, Hav1, Haj by done. by apply Z.eqb_neq in Hji as ->. }
  assert (forall j, 0 <= j < 32 -> avail it2 j = true -> avail it j = true /\ j <> i) as Hback.
  { intros j Hj. rewrite Hav2, Hav1 by done. by intros [? ?%negb_true_iff%Z.eqb_neq]%andb_true_iff. }
  assert (forall j, 0 <= j < 32 -> avail it2 j = true -> ahead it j = ahead it i + 1 + ahead it2 j) as Hah.
  { intros j Hj [Haj Hji]%Hback; [|done]. apply ahead_next; [done|by apply Hfirst]. }
  split; [done|]. destruct (p.1) as [b|].
  - destruct Hp as (i2 & Hi2 & Ha2 & Hp2 & HP & Hl2 & Hbefore & Hleft). exists i2.
    pose proof (Hah i2 Hi2 Ha2) as Hd2. pose proof (ahead_range it2 i2) as Hr2. pose proof (Hback i2 Hi2 Ha2) as [? ?].
    split_and!; [lia|lia|done..| |].
    + intros j Hj Haj Hlt. destruct (decide (j = i)) as [->|Hji]; [done|].
      apply Hbefore; [done|by apply Hkeep|]. rewrite (Hah j) in Hlt by (done || by apply Hkeep). lia.
    + intros j Hj. rewrite Hleft by done. destruct (avail it2 j) eqn:Ha2j.
      * destruct (Hback j Hj Ha2j) as [-> _]. rewrite (Hah j Hj Ha2j), Hd2. simpl. f_equal.
        apply eq_true_iff_eq. rewrite !Z.ltb_lt. lia.
      * simpl. rewrite Hav2, Hav1 in Ha2j by done. destruct (avail it j); [simpl in *|done].
        apply negb_false_iff, Z.eqb_eq in Ha2j as ->. symmetry. apply negb_false_iff, Z.ltb_lt. lia.
  - destruct Hp as (-> & He & Hnone). split_and!; [done..|]. intros j Hj Haj.
    destruct (decide (j = i)) as [->|Hji]; [done|]. apply Hnone; [done|by apply Hkeep].
Qed.

Lemma visit_lists_spec it fuel : body_ok -> iter_ok it -> same_but_lists it0 it -> avail_lists it <> [] ->
  (length (avail_lists it) <= fuel)%nat ->
  wp (visit_lists fuel visit it) (round_post it) s0.
Proof.
  intros Hbody. revert it. induction fuel as [|fuel IH]; intros it Hok Hsame Hne Hfuel.
  { destruct (avail_lists it); [done|simpl in Hfuel; lia]. }
  cbn [visit_lists]. pose proof (next_lru_first it Hok Hne) as Hnext.
  destruct (_lru_next_lru it) as [i it1]. destruct Hnext as (Hok1 & Hidx1 & Hav1 & Hs1 & Hi & Hai & Hfirst).
  assert (same_but_lists it0 it1) as Hsame1 by (unfold same_but_lists in *; intuition congruence).
  wp_step. eapply wp_mono; [by apply Hbody|]. intros [r it2] s1 [Hr Hp]. cbn [fst snd] in *. subst r.
  destruct (pick i) as [b|] eqn:Hpick; cbn [andb]; cbv zeta.
  - destruct Hp as (HP & Hn2 & Hm2 & Hl2). wp_step.
    assert (forall j, avail it2 j = avail it1 j) as Hav2 by (intros j; unfold avail; by rewrite Hn2, Hl2).
    split; [|cbn [fst snd]].
    { destruct Hok1 as [H1 H2 H3]. split; cbn [snd]; [by rewrite Hn2|by rewrite Hl2|]. rewrite Hm2, H3. f_equal. f_equal.
      apply filter_ext_elem. intros j _. by rewrite Hav2. }
    exists i. split_and!; [lia|lia|done|done|done|by rewrite Hl2| |].
    + intros j Hj Haj Hlt. destruct (decide (j = i)) as [->|Hji]; [lia|]. specialize (Hfirst j Hj Haj Hji). lia.
    + intros j Hj. rewrite Hav2, Hav1 by done. destruct (avail it j) eqn:Haj; [|done]. simpl. symmetry.
      apply negb_true_iff, Z.ltb_ge. destruct (decide (j = i)) as [->|Hji]; [lia|]. specialize (Hfirst j Hj Haj Hji). lia.
  - destruct Hp as [-> ->].
    assert (avail it1 (lru_idx it1) = true) as Ha1 by (rewrite Hidx1, Hav1; done).
    destruct (set_empty_spec it1 Hok1 Ha1) as (-> & Hok2 & Hs2 & Hidx2 & Hav2 & _). cbn [negb].
    set (it2 := _lru_lru_set_empty it1) in *. rewrite Hidx1 in Hav2, Hidx2.
    assert (same_but_lists it0 it2) as Hsame2 by (unfold same_but_lists in *; intuition congruence).
    unfold _lru_lru_all_empty. destruct (Z.eqb_spec (num_avail_lrus it2) 0) as [H0|H0]; cbn [negb].
    + wp_step. apply (round_step it i it1 it2); [lia|done..|]. split; [done|].
      apply (avail_empty it2 Hok2) in H0. split_and!; [done..|]. intros j Hj Haj. exfalso.
      assert (j ∈ avail_lists it2) as Hin by (by apply avail_elem). rewrite H0 in Hin. by apply elem_of_nil in Hin.
    + assert (avail_lists it2 <> []) as Hne2 by (intros He; by apply H0, avail_empty).
      eapply wp_mono; [apply IH; [done|done|done|]|].
      * enough (length (avail_lists it2) < length (avail_lists it))%nat by lia.
        destruct Hok1 as [_ _ Hn1], Hok2 as [_ _ Hn2], Hok as [_ _ Hn].
        assert (S (length (avail_lists it2)) <= length (avail_lists it))%nat; [|lia].
        change (length (i :: avail_lists it2) <= length (avail_lists it))%nat.
        apply submseteq_length, NoDup_submseteq.
        -- constructor; [|apply NoDup_filter, NoDup_seqZ]. intros [_ Hx]%avail_elem.
           by rewrite Hav2, Z.eqb_refl, andb_false_r in Hx by done.
        -- intros x [->|[Hx Ha2]%avail_elem]%elem_of_cons; [by apply avail_elem|]. apply avail_elem. split; [done|].
           rewrite Hav2, Hav1 in Ha2 by done. by apply andb_true_iff in Ha2 as [? _].
      * intros p s' Hp. by apply (round_step it i it1 it2).
Qed.
End visits.

(** ** The inner loop: the last line of a list for which [try] succeeds *)

(** The last line of [l] that [try] accepts, with what it gives. *)
Fixpoint last_accepted {B} (accept : Z -> option B) (l : list Z) : option (Z * B) :=
  match l with
  | [] => None
  | x :: l => match last_accepted accept l with
              | Some r => Some r
              | None => (fun b => (x, b)) <$> accept x
              end
  end.

Lemma last_accepted_snoc {B} (accept : Z -> option B) l x :
  last_accepted accept (l ++ [x]) = match accept x with Some b => Some (x, b) | None => last_accepted accept l end.
Proof.
  induction l as [|y l IH]; simpl; [by destruct (accept x)|]. rewrite IH. by destruct (accept x).
Qed.

Lemma last_accepted_Some {B} (accept : Z -> option B) l x b : last_accepted accept l = Some (x, b) <->
  exists l1 l2, l = l1 ++ x :: l2 /\ accept x = Some b /\ Forall (fun y => accept y = None) l2.
Proof.
  split.
  - induction l as [|y l IH] using rev_ind; [done|]. rewrite last_accepted_snoc. destruct (accept y) eqn:Hy.
    + intros [= <- <-]. by exists l, [].
    + intros (l1 & l2 & -> & Hx & Hl)%IH. exists l1, (l2 ++ [y]). rewrite <- app_assoc. split_and!; [done..|].
      apply Forall_app. split; [done|]. by constructor.
  - intros (l1 & l2 & -> & Hx & Hl). induction l2 as [|y l2 IH] using rev_ind; [by rewrite last_accepted_snoc, Hx|].
    apply Forall_app in Hl as [Hl [Hy _]%Forall_cons]. change (l1 ++ x :: l2 ++ [y]) with (l1 ++ (x :: l2) ++ [y]).
    rewrite app_assoc, last_accepted_snoc, Hy. by apply IH.
Qed.

Lemma last_accepted_None {B} (accept : Z -> option B) l :
  last_accepted accept l = None <-> Forall (fun y => accept y = None) l.
Proof.
  induction l as [|y l IH]; [done|]. simpl. rewrite Forall_cons, <- IH.
  destruct (last_accepted accept l); [intuition done|]. destruct (accept y); simpl; intuition done.
Qed.

Section scans.
Context {B : Type} (try : Z -> M cache (option B)) (accept : Z -> option B) (Post : Z -> B -> cache -> Prop) (s0 : cache).

(** [try] gives what [accept] says; when it gives nothing it changes nothing. *)
Definition try_ok (x : Z) : Prop :=
  wp (try x) (fun r s' => r = accept x /\ match accept x with None => s' = s0 | Some b => Post x b s' end) s0.

Lemma scan_spec l fuel : dll (metas (c_lru s0)) end_marker l -> end_marker ∉ l ->
  (forall x, x ∈ l -> try_ok x) -> (length l <= fuel)%nat ->
  wp (scan fuel try (last_or end_marker l)) (fun r s' => r = last_accepted accept l /\
    match last_accepted accept l with None => s' = s0 | Some (x, b) => Post x b s' end) s0.
Proof.
  intros Hd He Htry. assert (exists n, seg (metas (c_lru s0)) end_marker l n) as [n Hs] by (eexists; by apply dll_seg).
  clear Hd. revert n Hs fuel. induction l as [|x l IH] using rev_ind; intros n Hs fuel Hf.
  - by destruct fuel; simpl; wp_step.
  - rewrite last_or_snoc. rewrite length_app in Hf. simpl in Hf. destruct fuel as [|fuel]; [lia|]. cbn [scan].
    assert ((x =? end_marker) = false) as -> by (apply Z.eqb_neq; intros ->; set_solver).
    wp_step. eapply wp_mono; [apply Htry; set_solver|]. intros r s1 [-> Hp]. rewrite last_accepted_snoc.
    destruct (accept x) as [b|]; [by wp_step|]. subst s1.
    apply seg_app in Hs as [Hl [(a & Ha & Hprev & _)%links_Some _]].
    wp_step. unfold on_lru. wp_step. eapply wp_get_lru; [exact Ha|].
    change (prev a) with (n_prev a). rewrite Hprev. replace (set_c_lru (c_lru s0) s0) with s0 by (by destruct s0).
    eapply IH; [set_solver| |exact Hl|lia]. intros y Hy. apply Htry. set_solver.
Qed.
End scans.

(** ** The placement of the lines

    Every line is on exactly one list, the one its partition, its number and its
    dirty bit name, and each partition counts its lines. *)

Definition lru_track (r : list_ref) : bool := negb (r.1.1 =? PARTITION_FREELIST).

(** The partitions a line can be in: those [__init_parts_attached] sets up. *)
Definition part_ok (p : Z) : Prop := 0 <= p < OCF_USER_IO_CLASS_MAX \/ p = PARTITION_FREELIST.

Definition part_of (s : cache) (x : Z) : Z := default (-1) (partition_id <$> infos (c_meta s) !! x).

Definition is_dirty (s : cache) (x : Z) : bool :=
  match maps (c_meta s) !! x with Some m => negb (dirty m =? 0) | None => false end.

Definition home (s : cache) (x : Z) : list_ref :=
  ocf_lru_get_list (part_of s x) (x `mod` OCF_NUM_LRU_LISTS) (negb (is_dirty s x)).

Lemma on_list_remove L r x r' y : on_list L r' y -> y <> x -> on_list (spec_remove r x L) r' y.
Proof.
  intros (l & Hl & Hy) Hne. unfold on_list, spec_remove. rewrite lookup_alter. case_decide; subst; rewrite Hl; simpl; eexists; (split; [done|]).
  - by apply elem_of_without.
  - done.
Qed.

Lemma on_list_add L r x r' y : on_list L r' y -> on_list (spec_add r x L) r' y.
Proof.
  intros (l & Hl & Hy). unfold on_list, spec_add. rewrite lookup_alter. case_decide; subst; rewrite Hl; simpl; eexists; (split; [done|]).
  - by right.
  - done.
Qed.

Lemma on_list_added L r x : is_Some (L !! r) -> on_list (spec_add r x L) r x.
Proof. intros [l Hl]. unfold on_list, spec_add. rewrite lookup_alter_eq, Hl. eexists. split; [done|]. by left. Qed.

Lemma on_list_move L x r1 r2 r' y : on_list L r' y -> y <> x -> on_list (spec_move x r1 r2 L) r' y.
Proof. intros Hy Hne. by apply on_list_add, on_list_remove. Qed.

Lemma on_list_moved L x r1 r2 : is_Some (L !! r2) -> on_list (spec_move x r1 r2 L) r2 x.
Proof. intros H. apply on_list_added. unfold spec_remove. by rewrite is_Some_alter. Qed.

Lemma on_list_hot L r x r' y : on_list L r x -> on_list L r' y -> on_list (spec_hot r x L) r' y.
Proof.
  intros (l1 & Hl1 & Hx) (l & Hl & Hy). unfold on_list, spec_hot. rewrite lookup_alter.
  case_decide; subst; rewrite Hl; simpl; eexists; (split; [done|]); [|done].
  destruct (decide (y = x)) as [->|]; [by left|]. right. by apply elem_of_without.
Qed.

Lemma spec_move_dom L x r1 r2 r : is_Some (spec_move x r1 r2 L !! r) <-> is_Some (L !! r).
Proof. unfold spec_move, spec_add, spec_remove. by rewrite !is_Some_alter. Qed.

Lemma wp_upd_size p f n Q s : curr_size s !! p = Some n ->
  Q tt (set_curr_size (alter f p (curr_size s)) s) -> wp (upd_size p f) Q s.
Proof. intros Hp HQ. eexists _, _. split; [|exact HQ]. unfold upd_size. by rewrite Hp. Qed.

Section placement.
Context (cfg : config) (w : Z).
Hypothesis Hw : word_bits cfg = Some w.
#[local] Abbreviation N := (collision_table_entries cfg).

Record cache_inv (s : cache) (L : lru_abs) : Prop := {
  ci_lru : lru_inv N lru_track (c_lru s) L;
  ci_lists p i c : part_ok p -> 0 <= i < 32 -> is_Some (L !! ocf_lru_get_list p i c);
  ci_meta x : 0 <= x < N -> is_Some (maps (c_meta s) !! x) /\ is_Some (infos (c_meta s) !! x);
  ci_words : words_ok w (c_meta s);
  ci_part x : 0 <= x < N -> part_ok (part_of s x);
  ci_home x : 0 <= x < N -> on_list L (home s x) x;
  ci_size p : part_ok p -> curr_size s !! p = Some (tally (fun x => part_of s x =? p) (seqZ 0 N));
}.

Lemma word_pos : 0 < w.
Proof using Hw. pose proof (word_bits_width _ _ Hw) as H. unfold word_width in H. repeat (apply elem_of_cons in H as [->|H]; [done|]). by apply elem_of_nil in H. Qed.

Lemma test_dirty_run s L x Q : cache_inv s L -> 0 <= x < N -> Q (is_dirty s x) s ->
  wp (on_meta (metadata_test_dirty cfg x)) Q s.
Proof using Hw.
  intros Hi Hx HQ. pose proof (ci_meta _ _ Hi x Hx) as [[m Hm] _]. pose proof word_pos as Hpos.
  unfold on_meta. wp_step. unfold metadata_test_dirty. destruct (line_sectors cfg w Hw) as [-> ->].
  eapply wp_mono; [apply (ocf_metadata_test_spec cfg w (c_meta s) x 0 (w - 1) m Hw (ci_words _ _ Hi) Hm); lia|].
  intros r s' [-> ->]. replace (set_c_meta (c_meta s) s) with s by (by destruct s).
  pose proof (words_ok_get w _ _ _ Dirty (ci_words _ _ Hi) Hm) as Hr. rewrite <- (word_nonzero w _ Hr) by lia.
  unfold is_dirty in HQ. by rewrite Hm in HQ.
Qed.

Lemma get_part_run s L x Q : cache_inv s L -> 0 <= x < N -> Q (part_of s x) s ->
  wp (on_meta (ocf_metadata_get_partition_id x)) Q s.
Proof using Hw.
  intros Hi Hx HQ. pose proof (ci_meta _ _ Hi x Hx) as [_ [i Hix]]. unfold part_of in HQ. rewrite Hix in HQ.
  unfold on_meta. wp_step. unfold ocf_metadata_get_partition_id. wp_step. eapply wp_rd_info; [done|]. wp_step.
  by destruct s.
Qed.

(** The effect of moving a line to a partition on the rest of the cache. *)
Definition repartitioned (s s' : cache) (x dst : Z) : Prop :=
  c_alock s' = c_alock s /\ c_sems s' = c_sems s /\ maps (c_meta s') = maps (c_meta s) /\
  hash (c_meta s') = hash (c_meta s) /\
  infos (c_meta s') = alter (fun i => mkInfo (prev_col i) (next_col i) dst) x (infos (c_meta s)).

Lemma repartitioned_part s s' x dst y : repartitioned s s' x dst -> is_Some (infos (c_meta s) !! x) ->
  part_of s' y = if decide (y = x) then dst else part_of s y.
Proof.
  intros (_ & _ & _ & _ & Hinf) [i Hx]. unfold part_of. rewrite Hinf. destruct (decide (y = x)) as [->|].
  - by rewrite lookup_alter_eq, Hx.
  - by rewrite lookup_alter_ne by congruence.
Qed.

Lemma repartitioned_dirty s s' x dst y : repartitioned s s' x dst -> is_dirty s' y = is_dirty s y.
Proof. intros (_ & _ & Hm & _). unfold is_dirty. by rewrite Hm. Qed.

(** Changing a partition leaves the mapping alone. *)
Lemma set_partition_same (m : meta_state) (x p : Z) :
  map_same m (set_infos (alter (fun i => mkInfo (prev_col i) (next_col i) p) x) m).
Proof.
  split_and!; [done..|]. intros y. simpl. unfold links. destruct (decide (y = x)) as [->|].
  - rewrite lookup_alter_eq. by destruct (infos m !! x) as [[]|].
  - by rewrite lookup_alter_ne.
Qed.

Lemma repartitioned_same s s' x dst : repartitioned s s' x dst -> map_same (c_meta s) (c_meta s').
Proof using.
  intros (_ & _ & Hm & Hh & Hi). pose proof (set_partition_same (c_meta s) x dst) as (H1 & H2 & H3).
  split_and!; [by rewrite Hm|done|]. intros y. rewrite Hi. apply H3.
Qed.

(** The counters after a line went from [src] to [dst]. *)
Lemma sizes_moved s L x src dst (part' : Z -> Z) p :
  cache_inv s L -> 0 <= x < N -> part_of s x = src -> part_ok dst -> part_ok p ->
  (forall y, part' y = if decide (y = x) then dst else part_of s y) ->
  alter (fun n => s32 (n + 1)) dst (alter (fun n => s32 (n - 1)) src (curr_size s)) !! p =
    Some (tally (fun y => part' y =? p) (seqZ 0 N)).
Proof using Hw.
  intros Hi Hx <- Hdst Hp Hpart. pose proof (inv_entries _ _ _ _ (ci_lru _ _ Hi)) as HN.
  assert (x ∈ seqZ 0 N) as Hin by (apply elem_of_seqZ; lia).
  pose proof (NoDup_seqZ 0 N) as Hnd.
  pose proof (tally_range (fun y => part' y =? p) (seqZ 0 N)) as Hr'. rewrite length_seqZ in Hr'.
  rewrite (tally_update (fun y => part_of s y =? p) _ _ x Hnd Hin) in Hr' |- *;
    [|intros y _ Hy; by rewrite Hpart, decide_False..].
  rewrite Hpart, decide_True in Hr' |- * by done.
  pose proof (tally_range (fun y => part_of s y =? p) (seqZ 0 N)) as Hr. rewrite length_seqZ in Hr.
  pose proof (ci_size _ _ Hi p Hp) as Hs. revert Hr Hr' Hs. generalize (tally (fun y => part_of s y =? p) (seqZ 0 N)) as n.
  intros n Hr Hr' Hs.
  assert (part_of s x = p -> 0 < n) as Hpos.
  { intros He. rewrite (ci_size _ _ Hi p Hp) in Hs. injection Hs as <-.
    apply (tally_pos _ _ x); [done|]. by apply Z.eqb_eq. }
  assert (forall (f : Z -> Z) q (m : gmap Z Z), alter f q m !! p = if decide (q = p) then f <$> m !! p else m !! p) as Hal.
  { intros f q m. destruct (decide (q = p)) as [->|]; [by rewrite lookup_alter_eq|by rewrite lookup_alter_ne]. }
  rewrite !Hal, Hs. destruct (Z.eqb_spec (part_of s x) p) as [He|He], (Z.eqb_spec dst p) as [Hd|Hd].
  - specialize (Hpos He). rewrite !decide_True by done. simpl. rewrite (s32_small (n - 1)), s32_small by lia. f_equal; lia.
  - specialize (Hpos He). rewrite decide_False, decide_True by done. simpl. rewrite s32_small by lia. f_equal; lia.
  - rewrite decide_True, decide_False by done. simpl. rewrite s32_small by lia. f_equal; lia.
  - rewrite !decide_False by done. f_equal; lia.
Qed.

Lemma repart_spec s L x dst : cache_inv s L -> 0 <= x < N -> part_ok dst ->
  wp (ocf_lru_repart_locked cfg x (part_of s x) dst) (fun _ s' => repartitioned s s' x dst /\
    cache_inv s' (spec_move x (home s x) (home s' x) L)) s.
Proof using Hw.
  intros Hi Hx Hdst. unfold ocf_lru_repart_locked. cbv zeta. wp_step. eapply test_dirty_run; [done..|].
  assert (0 <= x `mod` OCF_NUM_LRU_LISTS < 32) as Hmod by (apply Z.mod_pos_bound; done).
  fold (home s x). set (dl := ocf_lru_get_list dst (x `mod` OCF_NUM_LRU_LISTS) (negb (is_dirty s x))).
  wp_step. unfold on_lru. wp_step. eapply wp_mono; [eapply ocf_lru_move_inv; [apply (ci_lru _ _ Hi)|by apply (ci_home _ _ Hi)|by apply (ci_lists _ _ Hi)]|].
  intros [] t Ht. wp_step. unfold on_meta. wp_step. unfold ocf_metadata_set_partition_id.
  pose proof (ci_meta _ _ Hi x Hx) as [Hmx [i Hix]]. apply wp_upd_info; [by eexists|]. cbv beta.
  pose proof (ci_size _ _ Hi _ (ci_part _ _ Hi x Hx)) as Hsrc. pose proof (ci_size _ _ Hi _ Hdst) as Hds.
  assert (exists n, alter (fun n => s32 (n - 1)) (part_of s x) (curr_size s) !! dst = Some n) as [n Hn].
  { rewrite lookup_alter. case_decide as Hc; [rewrite Hc|]; rewrite Hds; by eexists. }
  wp_step. eapply wp_upd_size; [exact Hsrc|]. eapply wp_upd_size; [exact Hn|].
  lazymatch goal with |- repartitioned _ ?st _ _ /\ _ => set (s' := st) end. assert (u8 dst = dst) as Hu by (apply Z.mod_small; unfold part_ok, PARTITION_FREELIST, OCF_USER_IO_CLASS_MAX in Hdst; lia).
  assert (repartitioned s s' x dst) as Hrep by (unfold s'; split_and!; simpl; rewrite ?Hu; done).
  split; [done|]. assert (home s' x = dl) as ->.
  { unfold home, dl. rewrite (repartitioned_part s s' x dst), decide_True by (done || by eexists).
    by rewrite (repartitioned_dirty s s' x dst). }
  pose proof (repartitioned_part s s' x dst) as Hpart. specialize (fun y => Hpart y Hrep ltac:(by eexists)).
  split.
  - exact Ht.
  - intros p j c Hp Hj. rewrite spec_move_dom. by apply (ci_lists _ _ Hi).
  - intros y Hy. simpl. pose proof (ci_meta _ _ Hi y Hy) as [? ?]. split; [done|]. by rewrite is_Some_alter.
  - apply (ci_words _ _ Hi).
  - intros y Hy. rewrite Hpart. case_decide; [done|by apply (ci_part _ _ Hi)].
  - intros y Hy. unfold home. rewrite Hpart, (repartitioned_dirty s s' x dst) by done. destruct (decide (y = x)) as [->|].
    + apply on_list_moved. by apply (ci_lists _ _ Hi).
    + apply on_list_move; [|done]. by apply (ci_home _ _ Hi).
  - intros p Hp. simpl. by apply (sizes_moved s L x (part_of s x) dst).
Qed.
End placement.

(** ** Taking a line from the lists of a partition *)

Section taking.
Context (cfg : config) (w : Z) (le : Z).
Hypothesis Hw : word_bits cfg = Some w.
Hypothesis Hhash : 0 < hash_table_entries cfg.
#[local] Abbreviation N := (collision_table_entries cfg).
#[local] Abbreviation inv := (cache_inv cfg w).

(** The locks of the cache lines are consistent. *)
Definition locks_ok (s : cache) (A : lock_abs) : Prop := alock_inv le (c_alock s) A /\ num_entries (c_alock s) = N.

(** The placement does not depend on the locks. *)
Lemma cache_inv_ext s s' L : c_lru s' = c_lru s -> c_meta s' = c_meta s -> curr_size s' = curr_size s ->
  inv s L -> inv s' L.
Proof using.
  destruct s, s'; simpl; intros -> -> -> [H1 H2 H3 H4 H5 H6 H7]. by split.
Qed.

Lemma hot_spec s L x : inv s L -> 0 <= x < N ->
  wp (on_lru (ocf_lru_set_hot (home s x) x)) (fun _ s' => repartitioned s s' x (part_of s x) /\
    inv s' (spec_hot (home s x) x L)) s.
Proof using Hw.
  intros Hi Hx. unfold on_lru. wp_step.
  eapply wp_mono; [eapply ocf_lru_set_hot_inv; [apply (ci_lru _ _ _ _ Hi)|by apply (ci_home _ _ _ _ Hi)]|].
  intros [] t Ht. split.
  - split_and!; try done. simpl. pose proof (ci_meta _ _ _ _ Hi x Hx) as [_ [i Hix]].
    apply map_eq. intros y. destruct (decide (y = x)) as [->|]; [|by rewrite lookup_alter_ne].
    rewrite lookup_alter_eq, Hix. unfold part_of. rewrite Hix. by destruct i.
  - pose proof Hi as [H1 H2 H3 H4 H5 H6 H7]. split; try done.
    + intros p i c Hp Hr. unfold spec_hot. rewrite is_Some_alter. by apply H2.
    + intros y Hy. apply on_list_hot; [by apply H6|by apply (H6 y)].
Qed.

(** The word of the lock of a line. *)
Lemma lock_word_of s A x : locks_ok s A -> 0 <= x < N ->
  exists a l, access (c_alock s) !! x = Some a /\ waiters_lsts (c_alock s) !! _WAITERS_LIST_ITEM le x = Some l /\
    (a = OCF_CACHE_LINE_ACCESS_IDLE -> queue x l = []).
Proof using.
  intros [HA Hn] Hx. destruct (proj2 (ai_range _ _ _ HA x)) as [[a q] Ha]; [lia|].
  destruct (ai_entry _ _ _ HA _ _ _ Ha) as (H1 & _ & l & Hl & <-). exists a, l. split_and!; [done..|].
  intros ->. by eapply (ai_idle _ _ _ HA).
Qed.

Definition write_locked (s : cache) (x : Z) : cache :=
  set_c_alock (set_access <[x := OCF_CACHE_LINE_ACCESS_WR]> (c_alock s)) s.

Definition idle (s : cache) (x : Z) : bool :=
  bool_decide (access (c_alock s) !! x = Some OCF_CACHE_LINE_ACCESS_IDLE).

Lemma try_wr_run s A x Q : locks_ok s A -> 0 <= x < N ->
  Q (idle s x) (if idle s x then write_locked s x else s) -> wp (on_alock (ocf_cache_line_try_lock_wr x)) Q s.
Proof using.
  intros HA Hx HQ. destruct (lock_word_of s A x HA Hx) as (a & l & Ha & _). unfold on_alock. wp_step.
  eapply trylock_wr_run; [exact Ha|]. unfold idle in HQ. rewrite Ha in HQ.
  destruct (Z.eqb_spec a OCF_CACHE_LINE_ACCESS_IDLE) as [->|Hne].
  - by rewrite bool_decide_true in HQ.
  - rewrite bool_decide_false in HQ by congruence. by destruct s.
Qed.

(** Giving the lock back restores the state. *)
Lemma unlock_wr_run s A x (Q : unit -> cache -> Prop) : locks_ok s A -> 0 <= x < N -> idle s x = true -> Q tt s ->
  wp (on_alock (ocf_cache_line_unlock_wr le x)) Q (write_locked s x).
Proof using.
  intros HA Hx Hidle%bool_decide_eq_true HQ. destruct (lock_word_of s A x HA Hx) as (a & l & Ha & Hl & Hq).
  rewrite Ha in Hidle. injection Hidle as ->. unfold on_alock. wp_step.
  eapply wp_mono; [apply (unlock_alone_spec (list_entries:=le) OCF_WRITE x l)|].
  - simpl. by rewrite lookup_insert_eq.
  - done.
  - by apply Hq.
  - intros [] t ->. simpl. rewrite set_access_twice, set_access_id by done. by destruct s.
Qed.

Lemma no_waiters_run s A x (Q : bool -> cache -> Prop) : locks_ok s A -> 0 <= x < N -> idle s x = true ->
  forall s1, c_alock s1 = set_access <[x := OCF_CACHE_LINE_ACCESS_WR]> (c_alock s) -> Q false s1 -> wp (on_alock (ocf_cache_line_are_waiters le x)) Q s1.
Proof using.
  intros HA Hx Hidle%bool_decide_eq_true s1 Hs1 HQ. destruct (lock_word_of s A x HA Hx) as (a & l & Ha & Hl & Hq).
  rewrite Ha in Hidle. injection Hidle as ->. unfold on_alock. wp_step. rewrite Hs1. unfold ocf_cache_line_are_waiters.
  wp_step. unfold ocf_alock_waitlist_is_empty. wp_step. wp_step. wp_step.
  wp_step; [destruct HA as [_ HA]; simpl; rewrite HA; lia|].
  eapply is_empty_run; [exact Hl|]. rewrite Hq, bool_decide_true by done. wp_step. simpl. rewrite <- Hs1. replace (set_c_alock (c_alock s1) s1) with s1 by (by destruct s1). done.
Qed.

(** The core line of the line [x] if it can be taken for the request: it is
    idle, holds none of the core lines of the request, and its hash bucket is
    locked by the request already or free. *)
Definition evictable (req : evict_req) (it : ocf_lru_iter) (s : cache) (x : Z) : option (Z * Z) :=
  m ← maps (c_meta s) !! x;
  let '(cid, cl) := (core_id m, core_line m) in
  if idle s x && negb ((cid =? r_core req) && (r_first req <=? cl) && (cl <=? r_last req)) &&
     (is_hash_locked it cid cl || (c_sems s (LHash (ocf_metadata_hash_func cfg cl cid)) =? 0))
  then Some (cid, cl) else None.

(** The state in which [x] and the bucket of its core line are write locked. *)
Definition lock_victim (it : ocf_lru_iter) (s : cache) (x : Z) (k : Z * Z) : cache :=
  let s := write_locked s x in
  if is_hash_locked it k.1 k.2 then s
  else set_c_sems (sem_set (LHash (ocf_metadata_hash_func cfg k.2 k.1)) (-1) (c_sems s)) s.

Lemma lock_victim_inv it s x k L : inv s L -> inv (lock_victim it s x k) L.
Proof using. intros Hi. unfold lock_victim. by destruct (is_hash_locked _ _ _); apply (cache_inv_ext s). Qed.

Lemma lock_victim_meta it s x k : c_meta (lock_victim it s x k) = c_meta s.
Proof using. unfold lock_victim. by destruct (is_hash_locked _ _ _). Qed.

Lemma evict_try req it s L A x : inv s L -> locks_ok s A -> 0 <= x < N ->
  try_ok (_lru_iter_evition_lock cfg le req it) (evictable req it s) (fun x k s' => s' = lock_victim it s x k) s x.
Proof using Hw Hhash.
  intros Hi HA Hx. pose proof (ci_meta _ _ _ _ Hi x Hx) as [[m Hm] _]. unfold try_ok, evictable. rewrite Hm. simpl.
  unfold _lru_iter_evition_lock. wp_step. eapply try_wr_run; [done..|].
  destruct (idle s x) eqn:Hidle; simpl; [|by wp_step].
  wp_step. unfold on_meta. wp_step. unfold ocf_metadata_get_core_info. wp_step. eapply wp_rd_map; [exact Hm|]. wp_step.
  change (set_c_meta (c_meta (write_locked s x)) (write_locked s x)) with (write_locked s x).
  destruct ((core_id m =? r_core req) && (r_first req <=? core_line m) && (core_line m <=? r_last req)) eqn:Hreq; simpl.
  { wp_step. eapply unlock_wr_run; [done..|]. by wp_step. }
  wp_step. unfold _lru_trylock_hash. unfold lock_victim. simpl.
  destruct (is_hash_locked it (core_id m) (core_line m)) eqn:Hl; simpl.
  { wp_step. simpl. wp_step. eapply no_waiters_run; [done..|]. wp_step. simpl. by rewrite Hl. }
  set (h := ocf_metadata_hash_func cfg (core_line m) (core_id m)).
  assert (h < hash_table_entries cfg) as Hh by (apply Z.mod_pos_bound; done).
  unfold on_sems. wp_step. unfold ocf_hb_cline_naked_trylock_wr. fold h. wp_step. unfold ocf_hb_id_naked_trylock.
  wp_step. wp_step; [lia|]. simpl. unfold env_rwsem_down_write_trylock. wp_step. wp_step. simpl.
  destruct (Z.eqb_spec (c_sems s (LHash h)) 0) as [H0|H0].
  - wp_step. wp_step. wp_step. wp_step. simpl. wp_step. eapply no_waiters_run; [done..|]. wp_step. simpl. by rewrite Hl.
  - wp_step. wp_step. simpl.
    change (set_c_sems (c_sems s) (write_locked s x)) with (write_locked s x). wp_step.
    eapply unlock_wr_run; [done..|]. by wp_step.
Qed.

Lemma free_try s A x : locks_ok s A -> 0 <= x < N ->
  try_ok try_wr (fun x => if idle s x then Some tt else None) (fun x _ s' => s' = write_locked s x) s x.
Proof using.
  intros HA Hx. unfold try_ok, try_wr. wp_step. eapply try_wr_run; [done..|]. wp_step. by destruct (idle s x).
Qed.

(** The content of the list [i] of clean lines of a partition. *)
Definition clean_list (L : lru_abs) (p i : Z) : list Z := default [] (L !! ocf_lru_get_list p i true).

(** Scanning it from its tail. *)
Lemma scan_list {B} s L p i (try : Z -> M cache (option B)) accept Post Q :
  inv s L -> part_ok p -> 0 <= i < 32 -> (forall x, 0 <= x < N -> try_ok try accept Post s x) ->
  (forall r s', r = last_accepted accept (clean_list L p i) ->
     match r with None => s' = s | Some (x, b) => 0 <= x < N /\ x ∈ clean_list L p i /\ Post x b s' end -> Q r s') ->
  wp (list ← on_lru (get_list (ocf_lru_get_list p i true)); scan (line_fuel cfg) try (l_tail list)) Q s.
Proof using Hw Hhash.
  intros Hi Hp Hri Htry HQ. destruct (ci_lists _ _ _ _ Hi p i true Hp Hri) as [l Hl].
  pose proof (inv_list _ _ _ _ (ci_lru _ _ _ _ Hi) _ _ Hl) as Hlist.
  apply list_is_fields in Hlist as (Hd & _ & f & Hf & _ & _ & Htail & _).
  assert (forall x, x ∈ l -> 0 <= x < N) as Hrange by (intros x Hx; by eapply inv_elem; [apply (ci_lru _ _ _ _ Hi)|..]).
  wp_step. unfold on_lru. wp_step. eapply wp_get_list; [exact Hf|].
  replace (set_c_lru (c_lru s) s) with s by (by destruct s). rewrite Htail.
  assert (clean_list L p i = l) as Hcl by (unfold clean_list; by rewrite Hl). rewrite Hcl in HQ.
  eapply wp_mono; [apply (scan_spec try accept Post s l)|].
  - done.
  - apply (dll_nil _ _ _ Hd).
  - intros x Hx. by apply Htry, Hrange.
  - pose proof (NoDup_range_length l N (dll_nodup _ _ _ Hd) Hrange). unfold line_fuel. lia.
  - intros r s' [-> Hr]. apply HQ; [done|]. destruct (last_accepted accept l) as [[x b]|] eqn:Hla; [|done].
    apply last_accepted_Some in Hla as (l1 & l2 & -> & _). assert (x ∈ l1 ++ x :: l2) by set_solver. auto.
Qed.

(** A line on a clean list is at home there. *)
Lemma clean_list_home s L p i x : inv s L -> part_ok p -> 0 <= i < 32 -> x ∈ clean_list L p i ->
  0 <= x < N /\ home s x = ocf_lru_get_list p i true /\ part_of s x = p /\ x `mod` 32 = i /\
  (p <> PARTITION_FREELIST -> is_dirty s x = false).
Proof using.
  intros Hi Hp Hri Hx. destruct (ci_lists _ _ _ _ Hi p i true Hp Hri) as [l Hl].
  unfold clean_list in Hx. rewrite Hl in Hx. simpl in Hx.
  assert (0 <= x < N) as Hxr by (by eapply inv_elem; [apply (ci_lru _ _ _ _ Hi)|..]).
  destruct (ci_home _ _ _ _ Hi x Hxr) as (l' & Hl' & Hx').
  assert (home s x = ocf_lru_get_list p i true) as Hh by (by eapply (inv_disjoint _ _ _ _ (ci_lru _ _ _ _ Hi))).
  split_and!; [lia|lia|done|..]; unfold home, ocf_lru_get_list in Hh; injection Hh as H1 H2 H3; [done|done|].
  intros Hne. rewrite H1 in H3. apply Z.eqb_neq in Hne. rewrite Hne in H3. by destruct (is_dirty s x).
Qed.
End taking.

Lemma wp_assoc' {S A B C} (a : M S A) (b : A -> M S B) (k : B -> M S C) Q s :
  wp (x ← (y ← a; b y); k x) Q s -> wp (y ← a; x ← b y; k x) Q s.
Proof. unfold wp, mbind, M_bind. intros (c & s' & H & HQ). exists c, s'. split; [|done]. by destruct (a s) as [[]|]. Qed.

Section bodies.
Context (cfg : config) (w : Z) (le : Z).
Hypothesis Hw : word_bits cfg = Some w.
Hypothesis Hhash : 0 < hash_table_entries cfg.
#[local] Abbreviation N := (collision_table_entries cfg).
#[local] Abbreviation inv := (cache_inv cfg w).

(** What taking [x] from the list [i] of the partition [p] leaves, when [s1] is
    the state in which it was locked. *)
Definition taken (s1 : cache) (L : lru_abs) (p dst i x : Z) (s' : cache) : Prop :=
  repartitioned s1 s' x dst /\
  inv s' (if dst =? p then spec_hot (p, i, true) x L else spec_move x (p, i, true) (home s' x) L).

Lemma clean_ref p i : ocf_lru_get_list p i true = (p, i, true).
Proof using. unfold ocf_lru_get_list. by destruct (p =? PARTITION_FREELIST). Qed.

Lemma take_repart s1 s L p dst i x : inv s L -> inv s1 L -> c_meta s1 = c_meta s -> part_ok p -> 0 <= i < 32 ->
  x ∈ clean_list L p i -> part_ok dst -> dst <> p ->
  wp (ocf_lru_repart_locked cfg x p dst) (fun _ s' => taken s1 L p dst i x s') s1.
Proof using Hw.
  intros Hi Hi1 Hm Hp Hri Hx Hdst Hne.
  destruct (clean_list_home cfg w s1 L p i x Hi1 Hp Hri Hx) as (Hxr & Hh & Hpx & Hmod & _).
  rewrite <- Hpx at 1. eapply wp_mono; [by apply (repart_spec cfg w Hw)|]. intros [] s' [Hrep Hinv].
  split; [done|]. apply Z.eqb_neq in Hne as ->. by rewrite Hh, clean_ref in Hinv.
Qed.

Lemma take_hot s1 L p i x : inv s1 L -> part_ok p -> 0 <= i < 32 -> x ∈ clean_list L p i ->
  wp (on_lru (ocf_lru_set_hot (ocf_lru_get_list p i true) x)) (fun _ s' => taken s1 L p p i x s') s1.
Proof using Hw.
  intros Hi1 Hp Hri Hx. destruct (clean_list_home cfg w s1 L p i x Hi1 Hp Hri Hx) as (Hxr & Hh & Hpx & Hmod & _).
  rewrite <- Hh. eapply wp_mono; [by apply (hot_spec cfg w Hw)|]. intros [] s' [Hrep Hinv].
  rewrite Hpx in Hrep. split; [done|]. rewrite Z.eqb_refl. by rewrite Hh, clean_ref in Hinv.
Qed.

Lemma eviction_body req dst it0 s L A : inv s L -> locks_ok cfg le s A -> part_ok (it_part it0) -> part_ok dst ->
  it_clean it0 = true ->
  body_ok (eviction_visit cfg le req dst) s
    (fun i => last_accepted (evictable cfg req it0 s) (clean_list L (it_part it0) i))
    (fun i (r : Z * (Z * Z)) s' => taken (lock_victim cfg it0 s r.1 r.2) L (it_part it0) dst i r.1 s') it0.
Proof using Hw Hhash.
  intros Hi HA Hp Hdst Hclean i it Hri (Hpart & Hlocked & Hcl & _). unfold eviction_visit. cbv zeta.
  rewrite Hpart, Hcl, Hclean. apply wp_assoc', wp_bind.
  eapply (scan_list cfg w Hw Hhash s L (it_part it0) i _ (evictable cfg req it0 s)
    (fun x k s' => s' = lock_victim cfg it0 s x k)); [done..| |].
  - intros x Hx. pose proof (evict_try cfg w le Hw Hhash req it s L A x Hi HA Hx) as Ht.
    unfold try_ok, evictable, lock_victim, is_hash_locked in *. by rewrite Hlocked in Ht.
  - intros r s1 -> Hr. destruct (last_accepted _ _) as [[x k]|]; cbn [fst snd].
    + destruct Hr as (Hx & Hin & ->). wp_step.
      pose proof (lock_victim_inv cfg w it0 s x k L Hi) as Hi1.
      pose proof (lock_victim_meta cfg it0 s x k) as Hm1.
      destruct (Z.eqb_spec dst (it_part it0)) as [->|Hne]; cbn [negb].
      * eapply wp_mono; [by apply take_hot|]. intros [] s' Ht. by wp_step.
      * eapply wp_mono; [by eapply take_repart|]. intros [] s' Ht. by wp_step.
    + subst s1. wp_step. wp_step. by wp_step.
Qed.

Lemma free_body dst it0 s L A : inv s L -> locks_ok cfg le s A -> part_ok (it_part it0) -> part_ok dst ->
  dst <> it_part it0 ->
  body_ok (free_visit cfg dst) s
    (fun i => fst <$> last_accepted (fun x => if idle s x then Some tt else None) (clean_list L (it_part it0) i))
    (fun i x s' => taken (write_locked s x) L (it_part it0) dst i x s') it0.
Proof using Hw Hhash.
  intros Hi HA Hp Hdst Hne i it Hri (Hpart & _). unfold free_visit. cbv zeta. rewrite Hpart. apply wp_assoc', wp_bind.
  eapply (scan_list cfg w Hw Hhash s L (it_part it0) i _ (fun x => if idle s x then Some tt else None)
    (fun x _ s' => s' = write_locked s x)); [done..| |].
  - intros x Hx. by apply (free_try cfg le s A).
  - intros r s1 -> Hr. destruct (last_accepted _ _) as [[x []]|]; simpl.
    + destruct Hr as (Hx & Hin & ->). wp_step.
      assert (inv (write_locked s x) L) as Hi1 by (by apply (cache_inv_ext cfg w s)).
      eapply wp_mono; [by eapply (take_repart (write_locked s x) s)|]. intros [] s' Ht. by wp_step.
    + subst s1. by wp_step.
Qed.
End bodies.

Lemma avail_le it : (length (avail_lists it) <= list_fuel)%nat.
Proof.
  unfold avail_lists. pose proof (length_filter (fun i => avail it i = true) (seqZ 0 32)) as H.
  rewrite length_seqZ in H. unfold list_fuel. change (Z.to_nat OCF_NUM_LRU_LISTS) with 32%nat. lia.
Qed.

(** ** Sequences of placement operations *)

Inductive place_op := PRepart (x dst : Z) | PRemove (x : Z) | PHot (x : Z).

(** The callers of [ocf_lru_repart] pass the partition the line is in. *)
Definition run_place (cfg : config) (o : place_op) : M cache unit :=
  match o with
  | PRepart x dst =>
      part ← on_meta (ocf_metadata_get_partition_id x);
      src ← user_part part; dst ← user_part dst; ocf_lru_repart cfg x src dst
  | PRemove x => ocf_lru_rm_cline cfg x
  | PHot x => ocf_lru_hot_cline cfg x
  end.

Fixpoint run_places (cfg : config) (os : list place_op) : M cache unit :=
  match os with [] => mret tt | o :: os => run_place cfg o;; run_places cfg os end.

(** The partition of every line after an operation that may be called. *)
Definition spec_place (cfg : config) (o : place_op) (P : Z -> Z) : option (Z -> Z) :=
  let may x := (0 <=? x) && (x <? collision_table_entries cfg) && (P x <? OCF_USER_IO_CLASS_MAX) in
  let moved x dst := fun y => if y =? x then dst else P y in
  match o with
  | PRepart x dst => if may x && (0 <=? dst) && (dst <? OCF_USER_IO_CLASS_MAX) then Some (moved x dst) else None
  | PRemove x => if may x then Some (moved x PARTITION_FREELIST) else None
  | PHot x => if may x then Some P else None
  end.

Fixpoint spec_places (cfg : config) (os : list place_op) (P : Z -> Z) : option (Z -> Z) :=
  match os with [] => Some P | o :: os => P' ← spec_place cfg o P; spec_places cfg os P' end.

Section placing.
Context (cfg : config) (w : Z).
Hypothesis Hw : word_bits cfg = Some w.
#[local] Abbreviation N := (collision_table_entries cfg).
#[local] Abbreviation inv := (cache_inv cfg w).

(** The checks of [ocf_lru_hot_cline] hold for a line that is at home. *)
Lemma hot_cline_spec s L x : inv s L -> 0 <= x < N -> part_of s x <= OCF_USER_IO_CLASS_MAX ->
  wp (ocf_lru_hot_cline cfg x) (fun _ s' => (exists L', inv s' L') /\ c_meta s' = c_meta s /\ c_alock s' = c_alock s) s.
Proof using Hw.
  intros Hi Hx Hp. pose proof (ci_home _ _ _ _ Hi x Hx) as (l & Hl & Hin).
  pose proof (inv_list _ _ _ _ (ci_lru _ _ _ _ Hi) _ _ Hl) as Hlist.
  apply list_is_fields in Hlist as (Hd & _ & f & Hf & _ & Hhead & Htail & _).
  apply list_elem_of_split in Hin as (l1 & l2 & ->).
  pose proof Hd as [Hs _ _]. apply seg_app in Hs as [_ [(a & Ha & Hprev & Hnext)%links_Some _]].
  assert (set_c_lru (c_lru s) s = s) as Hid by (by destruct s).
  unfold ocf_lru_hot_cline. wp_step. unfold on_lru at 1. wp_step. eapply wp_get_lru; [exact Ha|]. rewrite Hid.
  destruct (hot a); [wp_step; split; [by exists L|done]|].
  wp_step. eapply get_part_run; [done..|]. wp_step. unfold user_part. wp_step. wp_step; [apply Z.ltb_ge; lia|]. wp_step.
  wp_step. eapply test_dirty_run; [done..|]. cbv zeta. fold (home s x).
  wp_step. unfold on_lru at 1. wp_step. eapply wp_get_lru; [exact Ha|]. rewrite Hid.
  wp_step. unfold on_lru at 1. wp_step. eapply wp_get_list; [exact Hf|]. rewrite Hid.
  change (next a) with (n_next a). change (prev a) with (n_prev a). rewrite Hprev, Hnext, Hhead, Htail.
  wp_step. wp_step.
  { destruct (Z.eqb_spec (hd_or end_marker l2) end_marker) as [He|]; [|done].
    apply (dll_next_nil _ _ _ _ _ Hd) in He as ->. by rewrite last_or_snoc, Z.eqb_refl. }
  wp_step. wp_step.
  { destruct (Z.eqb_spec (last_or end_marker l1) end_marker) as [He|]; [|done].
    apply (dll_prev_nil _ _ _ _ _ Hd) in He as ->. unfold hd_or. simpl. by rewrite Z.eqb_refl. }
  eapply wp_mono; [by apply (hot_spec cfg w Hw)|]. intros [] s' [Hrep Hinv]. split; [by eexists|].
  destruct Hrep as (Hal & _ & H1 & H2 & H3). split; [|exact Hal]. destruct (c_meta s') as [m1 i1 h1], (c_meta s) as [m2 i2 h2] eqn:Hcm. simpl in *.
  subst. f_equal. pose proof (ci_meta _ _ _ _ Hi x Hx) as [_ [i Hix]]. rewrite Hcm in Hix. simpl in Hix.
  apply map_eq. intros y. destruct (decide (y = x)) as [->|]; [|by rewrite lookup_alter_ne].
  rewrite lookup_alter_eq, Hix. unfold part_of. rewrite Hcm. simpl. rewrite Hix. by destruct i.
Qed.

Lemma rm_cline_spec s L x : inv s L -> 0 <= x < N -> part_of s x <= OCF_USER_IO_CLASS_MAX ->
  wp (ocf_lru_rm_cline cfg x) (fun _ s' => repartitioned s s' x PARTITION_FREELIST /\
    inv s' (spec_move x (home s x) (home s' x) L)) s.
Proof using Hw.
  intros Hi Hx Hp. unfold ocf_lru_rm_cline. wp_step. eapply get_part_run; [done..|].
  wp_step. unfold user_part. wp_step. wp_step; [apply Z.ltb_ge; lia|]. wp_step. apply repart_spec; [done..|by right].
Qed.

Lemma place_spec o s L P P' : inv s L -> (forall x, 0 <= x < N -> part_of s x = P x) -> spec_place cfg o P = Some P' ->
  wp (run_place cfg o) (fun _ s' => (exists L', inv s' L') /\ (forall x, 0 <= x < N -> part_of s' x = P' x) /\
    (forall x, is_dirty s' x = is_dirty s x) /\ map_same (c_meta s) (c_meta s')) s.
Proof using Hw.
  intros Hi HP. assert (forall x dst s' L', 0 <= x < N -> repartitioned s s' x dst -> inv s' L' ->
    (exists L', inv s' L') /\ (forall y, 0 <= y < N -> part_of s' y = if y =? x then dst else P y) /\
    (forall y, is_dirty s' y = is_dirty s y) /\ map_same (c_meta s) (c_meta s')) as Hmove.
  { intros x dst s' L' Hx Hrep Hinv. split_and!; [by eexists| | |by eapply repartitioned_same].
    - intros y Hy. rewrite (repartitioned_part s s' x dst y Hrep) by apply (ci_meta _ _ _ _ Hi x Hx).
      destruct (Z.eqb_spec y x); [by rewrite decide_True|]. rewrite decide_False by done. by apply HP.
    - intros y. by apply (repartitioned_dirty s s' x dst). }
  assert (OCF_USER_IO_CLASS_MAX < PARTITION_FREELIST) as Hmax by done.
  destruct o as [x dst|x|x]; unfold spec_place; cbv zeta; match goal with |- (if ?b then _ else _) = _ -> _ => destruct b eqn:Hb end;
    try done; intros [= <-]; rewrite ?andb_true_iff in Hb.
  - destruct Hb as [[[[? ?] ?] ?] ?]. assert (0 <= x < N) as Hx by lia. unfold run_place.
    wp_step. eapply get_part_run; [done..|]. pose proof (HP x Hx).
    wp_step. unfold user_part. wp_step. wp_step; [apply Z.ltb_ge; lia|]. wp_step.
    wp_step. wp_step. wp_step; [apply Z.ltb_ge; lia|]. wp_step. 
    eapply wp_mono; [apply (repart_spec cfg w Hw); [done..|unfold part_ok; lia]|].
    intros [] s' [Hrep Hinv]. by eapply Hmove.
  - destruct Hb as [[? ?] ?]. assert (0 <= x < N) as Hx by lia. pose proof (HP x Hx). unfold run_place.
    eapply wp_mono; [apply (rm_cline_spec s L); [done..|lia]|]. intros [] s' [Hrep Hinv]. by eapply Hmove.
  - destruct Hb as [[? ?] ?]. assert (0 <= x < N) as Hx by lia. pose proof (HP x Hx).
    eapply wp_mono; [apply (hot_cline_spec s L); [done..|lia]|]. intros [] s' (Hex & Hm & _). split_and!; [done| | |by rewrite Hm].
    + intros y Hy. unfold part_of. rewrite Hm. by apply HP.
    + intros y. unfold is_dirty. by rewrite Hm.
Qed.

Lemma places_spec os s L P P' : inv s L -> (forall x, 0 <= x < N -> part_of s x = P x) -> spec_places cfg os P = Some P' ->
  wp (run_places cfg os) (fun _ s' => (exists L', inv s' L') /\ (forall x, 0 <= x < N -> part_of s' x = P' x) /\
    (forall x, is_dirty s' x = is_dirty s x) /\ map_same (c_meta s) (c_meta s')) s.
Proof using Hw.
  revert s L P. induction os as [|o os IH]; intros s L P Hi HP; simpl.
  - intros [= <-]. wp_step. split_and!; [by eexists|done..].
  - intros (P1 & H1 & H2)%bind_Some. wp_step. eapply wp_mono; [by eapply place_spec|].
    intros [] s1 ([L1 Hi1] & HP1 & Hd1 & Hm1). eapply wp_mono; [by eapply IH|].
    intros [] s2 (Hi2 & HP2 & Hd2 & Hm2).
    split_and!; [done..| |by eapply map_same_trans]. intros x. by rewrite Hd2.
Qed.
End placing.

(** ** Populating the free list *)

Lemma off_lists_add L r x y : off_lists L y -> y <> x -> off_lists (spec_add r x L) y.
Proof.
  intros Hoff Hne r' l. unfold spec_add. rewrite lookup_alter. case_decide; [|apply Hoff].
  subst r'. destruct (L !! r) as [l'|] eqn:Hl; [|done]. intros [= <-]. rewrite elem_of_cons. intros [?|Hin]; [done|].
  by apply (Hoff r l').
Qed.

Definition is_valid (s : cache) (x : Z) : bool :=
  match maps (c_meta s) !! x with Some m => negb (valid m =? 0) | None => false end.

Section populating.
Context (cfg : config) (w : Z).
Hypothesis Hw : word_bits cfg = Some w.
#[local] Abbreviation N := (collision_table_entries cfg).
Context (s0 : cache) (g ginv : Z -> Z).
Hypothesis Hg : forall j, 0 <= j < N -> ocf_metadata_map_phy2lg cfg j = Some (g j) /\ 0 <= g j < N /\ ginv (g j) = j.
Hypothesis Hginv : forall i, 0 <= i < N -> 0 <= ginv i < N /\ g (ginv i) = i.

Definition to_place (q : Z) : bool := negb (is_valid s0 (g q)).

Definition left_from (q : Z) : Z := tally to_place (seqZ q (N - q)).

(** All lines before the physical position [p] are treated. *)
Record pop_inv (p : Z) (s : cache) (L : lru_abs) : Prop := {
  pi_lru : lru_inv N lru_track (c_lru s) L;
  pi_lists p i c : part_ok p -> 0 <= i < 32 -> is_Some (L !! ocf_lru_get_list p i c);
  pi_maps : maps (c_meta s) = maps (c_meta s0);
  pi_words : words_ok w (c_meta s);
  pi_meta x : 0 <= x < N -> is_Some (maps (c_meta s) !! x) /\ is_Some (infos (c_meta s) !! x);
  pi_size : curr_size s = curr_size s0;
  pi_same : map_same (c_meta s0) (c_meta s);
  pi_rest : c_alock s = c_alock s0 /\ c_sems s = c_sems s0;
  pi_line q : 0 <= q < N ->
    if to_place q && (q <? p) then on_list L (PARTITION_FREELIST, g q `mod` 32, true) (g q) /\ part_of s (g q) = PARTITION_FREELIST
    else off_lists L (g q) /\ part_of s (g q) = part_of s0 (g q);
}.

Lemma valid_run p s L x Q : pop_inv p s L -> 0 <= x < N -> Q (is_valid s0 x) s ->
  wp (on_meta (metadata_test_valid_any cfg x)) Q s.
Proof using Hw.
  intros Hi Hx HQ. pose proof (pi_meta _ _ _ Hi x Hx) as [[m Hm] _]. pose proof (word_pos cfg w Hw) as Hpos.
  unfold on_meta. wp_step. unfold metadata_test_valid_any. destruct (line_sectors cfg w Hw) as [-> ->].
  eapply wp_mono; [apply (ocf_metadata_test_spec cfg w (c_meta s) x 0 (w - 1) m Hw (pi_words _ _ _ Hi) Hm); lia|].
  intros r s' [-> ->]. replace (set_c_meta (c_meta s) s) with s by (by destruct s).
  pose proof (words_ok_get w _ _ _ Valid (pi_words _ _ _ Hi) Hm) as Hr. rewrite <- (word_nonzero w _ Hr) by lia.
  unfold is_valid in HQ. rewrite <- (pi_maps _ _ _ Hi), Hm in HQ. done.
Qed.

(** The next position of an invalid line. *)
Definition next_pos (p q : Z) : Prop :=
  p <= q <= N /\ (forall j, p <= j < q -> to_place j = false) /\ (q < N -> to_place q = true).

Lemma loop_spec fuel p p0 s L : pop_inv p0 s L -> 0 <= p < N -> N - p <= Z.of_nat fuel ->
  wp (phys_invalid_loop cfg fuel p) (fun q s' => s' = s /\ next_pos p q) s.
Proof using Hw Hg.
  intros Hi. revert p. induction fuel as [|fuel IH]; intros p Hp Hf; [lia|].
  destruct (Hg p Hp) as (Hgp & Hr & _). cbn [phys_invalid_loop]. wp_step. eapply wp_lift; [exact Hgp|].
  wp_step. eapply valid_run; [exact Hi|exact Hr|].
  assert (to_place p = negb (is_valid s0 (g p))) as Htp by done.
  destruct (is_valid s0 (g p)); cbn [negb] in *; cbv zeta.
  - destruct (Z.eqb_spec (p + 1) N) as [He|He].
    + wp_step. split; [done|]. split_and!; [lia|lia| |lia]. intros j Hj. by replace j with p by lia.
    + eapply wp_mono; [apply IH; lia|]. intros q s' [-> (Hq & Hno & Hyes)]. split; [done|]. split_and!; [lia|lia| |done].
      intros j Hj. destruct (decide (j = p)) as [->|]; [done|]. apply Hno. lia.
  - wp_step. split; [done|]. split_and!; [lia|lia|intros j Hj; lia|done].
Qed.

Lemma next_phys_spec p p0 s L : pop_inv p0 s L -> 0 <= p <= N ->
  wp (next_phys_invalid cfg p) (fun q s' => s' = s /\ next_pos p q) s.
Proof using Hw Hg.
  intros Hi Hp. unfold next_phys_invalid. destruct (Z.eqb_spec p N) as [->|Hne].
  - wp_step. split; [done|]. split_and!; [lia|lia|intros j Hj; lia|lia].
  - eapply loop_spec; [done|lia|lia].
Qed.

Lemma left_next p q : 0 <= p -> next_pos p q -> left_from p = left_from q.
Proof using.
  intros Hp (Hq & Hno & _). assert (exists n, q = p + Z.of_nat n) as [n ->] by (exists (Z.to_nat (q - p)); lia).
  clear Hp. revert p Hq Hno. induction n as [|n IH]; intros p Hq Hno; [f_equal; lia|].
  unfold left_from at 1. rewrite tally_seqZ, Hno by lia.
  replace (p + Z.of_nat (S n)) with (p + 1 + Z.of_nat n) by lia. apply IH; [lia|]. intros j Hj. apply Hno. lia.
Qed.

Lemma left_end : left_from N = 0.
Proof using. unfold left_from. by rewrite Z.sub_diag. Qed.

(** Placing the line at position [q]. *)
Lemma pop_step p q s L : pop_inv p s L -> 0 <= p -> next_pos p q -> q < N ->
  wp (on_meta (ocf_metadata_set_partition_id (g q) PARTITION_FREELIST);;
      on_lru (add_lru_head (ocf_lru_get_list PARTITION_FREELIST (g q `mod` OCF_NUM_LRU_LISTS) true) (g q)))
    (fun _ s' => exists L', pop_inv (q + 1) s' L') s.
Proof using Hg.
  intros Hi Hp (Hq & Hno & Hyes) HqN. specialize (Hyes HqN). destruct (Hg q ltac:(lia)) as (_ & Hr & Hinv).
  pose proof (pi_meta _ _ _ Hi _ Hr) as [_ [inf Hinf]].
  pose proof (pi_line _ _ _ Hi q ltac:(lia)) as Hline. rewrite Hyes in Hline. simpl in Hline.
  rewrite (proj2 (Z.ltb_ge q p)) in Hline by lia. destruct Hline as [Hoff _].
  assert (0 <= g q `mod` 32 < 32) as Hmod by (apply Z.mod_pos_bound; lia).
  wp_step. unfold on_meta. wp_step. unfold ocf_metadata_set_partition_id. apply wp_upd_info; [by eexists|].
  change OCF_NUM_LRU_LISTS with 32. rewrite clean_ref. unfold on_lru. wp_step.
  eapply wp_mono; [eapply add_lru_head_inv; [apply (pi_lru _ _ _ Hi)|apply (pi_lists _ _ _ Hi PARTITION_FREELIST (g q `mod` 32) true); [by right|done]|done|done]|].
  intros [] t Ht. exists (spec_add (PARTITION_FREELIST, g q `mod` 32, true) (g q) L).
  assert (forall y, part_of (set_c_lru t (set_c_meta (set_infos (alter (fun i => mkInfo (prev_col i) (next_col i)
    (u8 PARTITION_FREELIST)) (g q)) (c_meta s)) s)) y = if decide (y = g q) then PARTITION_FREELIST else part_of s y) as Hpart.
  { intros y. unfold part_of. simpl. destruct (decide (y = g q)) as [->|]; [by rewrite lookup_alter_eq, Hinf|].
    by rewrite lookup_alter_ne. }
  pose proof Hi as [H1 H2 H3 H4 H5 H6 Hsame Hrest H7]. split; try done.
  - intros p' i c Hp' Hri. unfold spec_add. rewrite is_Some_alter. by apply H2.
  - intros x Hx. simpl. rewrite is_Some_alter. by apply H5.
  - eapply map_same_trans; [exact Hsame|]. by apply set_partition_same.
  - intros j Hj. specialize (H7 j Hj). rewrite Hpart. destruct (decide (g j = g q)) as [Hgj|Hgj].
    + assert (j = q) as ->. { destruct (Hg j Hj) as (_ & _ & <-). by rewrite Hgj. }
      rewrite Hyes. simpl. rewrite (proj2 (Z.ltb_lt q (q + 1))) by lia. split; [|done].
      apply on_list_added. apply (H2 PARTITION_FREELIST (g q `mod` 32) true); [by right|done].
    + assert (to_place j && (j <? q + 1) = to_place j && (j <? p)) as ->.
      { destruct (to_place j) eqn:Htj; [simpl|done]. apply eq_true_iff_eq. rewrite !Z.ltb_lt. split; [|lia].
        intros Hjq. destruct (Z_lt_le_dec j p); [done|]. destruct (decide (j = q)) as [->|]; [done|].
        rewrite Hno in Htj by lia. done. }
      destruct (to_place j && (j <? p)); destruct H7 as [Ha Hb]; (split; [|done]).
      * by apply on_list_add.
      * by apply off_lists_add.
Qed.

Lemma populate_loop_spec n p s L : pop_inv p s L -> 0 <= p <= N -> left_from p = Z.of_nat n ->
  wp (populate_loop cfg n p) (fun q s' => 0 <= q <= N /\ left_from q = 0 /\ exists L', pop_inv q s' L') s.
Proof using Hw Hg.
  revert p s L. induction n as [|n IH]; intros p s L Hi Hp Hl; cbn [populate_loop].
  - wp_step. split_and!; [lia..|]. by exists L.
  - wp_step. eapply wp_mono; [by eapply next_phys_spec|]. intros q s' [-> Hn].
    assert (q < N) as HqN.
    { pose proof Hn as ([? Hle] & _ & _). destruct (decide (q = N)) as [->|]; [|lia].
      rewrite (left_next p N), left_end in Hl by (done || lia). lia. }
    pose proof Hn as (Hpq & Hno & Hyes). destruct (Hg q ltac:(lia)) as (Hgq & _).
    wp_step. wp_step; [apply Z.eqb_neq; lia|]. wp_step. eapply wp_lift; [exact Hgq|].
    apply wp_assoc', wp_bind. eapply wp_mono; [apply (pop_step p q s L); [done|lia|done|done]|].
    intros [] s1 [L1 Hi1]. eapply wp_mono; [apply (IH (q + 1) s1 L1 Hi1); [lia|]|done].
    rewrite (left_next p q) in Hl by (done || lia). unfold left_from at 1 in Hl. rewrite tally_seqZ, Hyes in Hl by lia.
    unfold left_from. lia.
Qed.

Lemma left_all : left_from 0 = tally (fun x => negb (is_valid s0 x)) (seqZ 0 N).
Proof using Hg Hginv.
  unfold left_from. rewrite Z.sub_0_r. rewrite <- (tally_fmap (fun x => negb (is_valid s0 x)) g).
  apply tally_perm, NoDup_Permutation.
  - apply (NoDup_fmap_2_strong _ _); [|apply NoDup_seqZ]. intros x y Hx%elem_of_seqZ Hy%elem_of_seqZ He.
    destruct (Hg x ltac:(lia)) as (_ & _ & <-), (Hg y ltac:(lia)) as (_ & _ & <-). by rewrite He.
  - apply NoDup_seqZ.
  - intros x. rewrite list_elem_of_fmap. setoid_rewrite elem_of_seqZ. split.
    + intros (y & -> & Hy). destruct (Hg y ltac:(lia)) as (_ & ? & _). lia.
    + intros Hx. destruct (Hginv x ltac:(lia)) as [? <-]. exists (ginv x). split; [done|lia].
Qed.

Lemma populate_spec num L n0 : pop_inv 0 s0 L -> num = tally (fun x => negb (is_valid s0 x)) (seqZ 0 N) ->
  curr_size s0 !! PARTITION_FREELIST = Some n0 ->
  wp (ocf_lru_populate cfg num) (fun _ s' => exists s1 L', pop_inv N s1 L' /\
    s' = set_curr_size (<[PARTITION_FREELIST := num]> (curr_size s0)) s1) s0.
Proof using Hw Hg Hginv.
  intros Hi -> Hn0. rewrite <- left_all. pose proof (inv_entries _ _ _ _ (pi_lru _ _ _ Hi)) as HN.
  pose proof (tally_range to_place (seqZ 0 (N - 0))) as Hr. fold (left_from 0) in Hr. rewrite length_seqZ in Hr.
  unfold ocf_lru_populate. wp_step. eapply wp_mono; [apply (populate_loop_spec _ 0 s0 L Hi); lia|].
  intros q s1 (Hq & Hl & L1 & Hi1). wp_step. eapply wp_mono; [by eapply next_phys_spec|]. intros q' s2 [-> Hn].
  assert (q' = N) as ->.
  { pose proof Hn as ([? Hle] & _ & Hyes). destruct (decide (q' = N)) as [|Hne]; [done|].
    rewrite (left_next q q') in Hl by (done || lia). unfold left_from in Hl.
    rewrite tally_seqZ, Hyes in Hl by lia. pose proof (tally_range to_place (seqZ (q' + 1) (N - (q' + 1)))). lia. }
  wp_step. wp_step; [by rewrite Z.eqb_refl|]. eapply wp_upd_size; [by rewrite (pi_size _ _ _ Hi1)|].
  exists s1, L1. split.
  - pose proof Hi1 as [H1 H2 H3 H4 H5 H6 H8 H9 H7]. split; try done. intros j Hj. specialize (H7 j Hj).
    destruct (to_place j) eqn:Htj; [|done]. simpl in *. rewrite (proj2 (Z.ltb_lt j N)) by lia.
    destruct (Z.ltb_spec j q); [done|]. destruct Hn as (_ & Hno & _). rewrite Hno in Htj by lia. done.
  - rewrite (pi_size _ _ _ Hi1), s32_small by lia. f_equal. apply map_eq. intros p.
    destruct (decide (p = PARTITION_FREELIST)) as [->|]; [by rewrite lookup_alter_eq, lookup_insert_eq, Hn0|].
    by rewrite lookup_alter_ne, lookup_insert_ne.
Qed.
End populating.

(** ** Attaching a cache *)

Definition empty_list (track : bool) : ocf_lru_list := mkLruList 0 end_marker end_marker 0 end_marker track.

(** The lists of all partitions exist. *)
Definition all_refs (s : cache) : Prop :=
  forall p i c, part_ok p -> 0 <= i < 32 -> is_Some (lists (c_lru s) !! ocf_lru_get_list p i c).

(** The lists of [R] are set up, and the counters of [P] reset. *)
Record init_inv (s0 : cache) (R : list_ref -> Prop) (P : Z -> Prop) (s : cache) : Prop := {
  ni_done r : R r -> lists (c_lru s) !! r = Some (empty_list (lru_track r));
  ni_dom r : is_Some (lists (c_lru s) !! r) <-> is_Some (lists (c_lru s0) !! r);
  ni_metas : metas (c_lru s) = metas (c_lru s0);
  ni_zero p : P p -> curr_size s !! p = Some 0;
  ni_sizes p : is_Some (curr_size s !! p) <-> is_Some (curr_size s0 !! p);
  ni_rest : c_meta s = c_meta s0 /\ c_alock s = c_alock s0 /\ c_sems s = c_sems s0;
}.

Lemma init_inv_weaken s0 (R R' : list_ref -> Prop) (P P' : Z -> Prop) s :
  init_inv s0 R P s -> (forall r, R' r -> R r) -> (forall p, P' p -> P p) -> init_inv s0 R' P' s.
Proof. intros [H1 H2 H3 H4 H5 H6] HR HP. split; auto. Qed.

Lemma init_list_run s0 R P s r (b : bool) (Q : unit -> cache -> Prop) :
  init_inv s0 R P s -> is_Some (lists (c_lru s0) !! r) -> b = lru_track r ->
  (forall s', init_inv s0 (fun r' => r' = r \/ R r') P s' -> Q tt s') ->
  wp (on_lru (_lru_init r b)) Q s.
Proof.
  intros [H1 H2 H3 H4 H5 H6] Hf -> HQ. apply H2 in Hf as Hf'. unfold on_lru. wp_step. unfold _lru_init.
  apply wp_upd_list; [done|]. destruct Hf' as [f Hf']. apply HQ. split; try done.
  - intros r' [->|Hr]; simpl; [by rewrite lookup_alter_eq, Hf'|].
    destruct (decide (r' = r)) as [->|]; [by rewrite lookup_alter_eq, Hf'|]. rewrite lookup_alter_ne by congruence. auto.
  - intros r'. simpl. by rewrite is_Some_alter.
Qed.

Lemma lru_init_spec s0 R P s p : init_inv s0 R P s -> all_refs s0 -> part_ok p -> is_Some (curr_size s0 !! p) ->
  wp (ocf_lru_init p) (fun _ => init_inv s0
    (fun r => (exists i c, 0 <= i < 32 /\ r = ocf_lru_get_list p i c) \/ R r) (fun p' => p' = p \/ P p')) s.
Proof.
  intros Hi Hrefs Hp Hn. unfold ocf_lru_init. wp_step.
  apply (wp_for_range _ (fun j => init_inv s0 (fun r => (exists i c, 0 <= i < j /\ r = ocf_lru_get_list p i c) \/ R r) P)).
  - intros j s1 Hj Hi1. cbv zeta. change (Z.to_nat OCF_NUM_LRU_LISTS) with 32%nat in Hj.
    pose proof (Hrefs p j true Hp ltac:(lia)) as Hr1. pose proof (Hrefs p j false Hp ltac:(lia)) as Hr2.
    destruct (Z.eqb_spec p PARTITION_FREELIST) as [->|Hne].
    + eapply init_list_run; [exact Hi1|done|done|]. intros s2 Hi2. eapply init_inv_weaken; [exact Hi2| |done].
      intros r [(i & c & Hr & ->)|?]; [|by right; right]. destruct (decide (i = j)) as [->|]; [by left|].
      right. left. exists i, c. split; [lia|done].
    + assert (forall c, true = lru_track (ocf_lru_get_list p j c)) as Ht
        by (intros c; unfold lru_track; simpl; by apply Z.eqb_neq in Hne as ->).
      wp_step. eapply init_list_run; [exact Hi1|done|done|]. intros s2 Hi2.
      eapply init_list_run; [exact Hi2|done|done|]. intros s3 Hi3. eapply init_inv_weaken; [exact Hi3| |done].
      intros r [(i & c & Hr & ->)|?]; [|by right; right; right].
      destruct (decide (i = j)) as [->|]; [destruct c; [by right; left|by left]|].
      right. right. left. exists i, c. split; [lia|done].
  - eapply init_inv_weaken; [exact Hi| |done]. intros r [(i & c & Hr & _)|?]; [lia|done].
  - intros s1 Hi1. pose proof Hi1 as [H1 H2 H3 H4 H5 H6]. destruct (proj2 (H5 p) Hn) as [n Hn'].
    eapply wp_upd_size; [exact Hn'|]. split; try done.
    + intros p' [->|Hp']; simpl; [by rewrite lookup_alter_eq, Hn'|].
      destruct (decide (p' = p)) as [->|]; [by rewrite lookup_alter_eq, Hn'|]. rewrite lookup_alter_ne by congruence. auto.
    + intros p'. simpl. by rewrite is_Some_alter.
Qed.

Lemma init_parts_spec s0 : all_refs s0 -> (forall p, part_ok p -> is_Some (curr_size s0 !! p)) ->
  wp __init_parts_attached (fun _ => init_inv s0
    (fun r => exists p i c, part_ok p /\ 0 <= i < 32 /\ r = ocf_lru_get_list p i c) part_ok) s0.
Proof.
  intros Hrefs Hsz. unfold __init_parts_attached. wp_step.
  apply (wp_for_range _ (fun j => init_inv s0
    (fun r => exists p i c, 0 <= p < j /\ 0 <= i < 32 /\ r = ocf_lru_get_list p i c) (fun p => 0 <= p < j))).
  - intros j s1 Hj Hi1. rewrite Z.add_0_l, Z2Nat.id in Hj by done. assert (part_ok j) as Hp by (by left).
    eapply wp_mono; [eapply lru_init_spec; [exact Hi1|done..|by apply Hsz]|].
    intros [] s2 Hi2. eapply init_inv_weaken; [exact Hi2| |].
    + intros r (p & i & c & Hpr & Hi & ->). destruct (decide (p = j)) as [->|]; [left; by exists i, c|].
      right. exists p, i, c. split_and!; [lia|lia|lia|lia|done].
    + intros p Hpr. destruct (decide (p = j)); [by left|right; lia].
  - split; try done; [intros r (p & i & c & ? & _)|intros p ?]; lia.
  - intros s1 Hi1. rewrite Z.add_0_l, Z2Nat.id in Hi1 by done.
    eapply wp_mono; [eapply lru_init_spec; [exact Hi1|done|by right|apply Hsz; by right]|].
    intros [] s2 Hi2. eapply init_inv_weaken; [exact Hi2| |].
    + intros r (p & i & c & [Hp| ->] & Hi & ->); [right; by exists p, i, c|left; by exists i, c].
    + intros p [Hp| ->]; [by right|by left].
Qed.

(** What [init_attached] needs of the memory it sets up. *)
Record attach_ok (cfg : config) (w : Z) (s : cache) : Prop := {
  ao_words : words_ok w (c_meta s);
  ao_maps x : is_Some (maps (c_meta s) !! x) <-> 0 <= x < collision_table_entries cfg;
  ao_infos x : is_Some (infos (c_meta s) !! x) <-> 0 <= x < collision_table_entries cfg;
  ao_hash h : is_Some (hash (c_meta s) !! h) <-> 0 <= h < hash_table_entries cfg;
  ao_metas x : is_Some (metas (c_lru s) !! x) <-> 0 <= x < collision_table_entries cfg;
  ao_lists r : is_Some (lists (c_lru s) !! r) <-> exists p i c, part_ok p /\ 0 <= i < 32 /\ r = ocf_lru_get_list p i c;
  ao_sizes p : part_ok p -> is_Some (curr_size s !! p);
  ao_entries : 0 <= collision_table_entries cfg < 2 ^ 31;
  ao_buckets : 0 < hash_table_entries cfg;
  ao_layout : layout_ok cfg /\ (layout cfg = ocf_metadata_layout_striping \/ layout cfg = ocf_metadata_layout_seq);
}.

Lemma tally_const {A} (P : A -> bool) (b : bool) l : (forall x, x ∈ l -> P x = b) ->
  tally P l = if b then Z.of_nat (length l) else 0.
Proof.
  induction l as [|x l IH]; intros H; [by destruct b|]. rewrite tally_cons, H, IH by set_solver.
  destruct b; cbn [length]; lia.
Qed.

Lemma attach_spec cfg w s : word_bits cfg = Some w -> attach_ok cfg w s ->
  wp (init_attached cfg 0) (fun _ s' => (exists L, cache_inv cfg w s' L) /\ mapping_ok cfg (c_meta s') ∅ /\
    (forall x, 0 <= x < collision_table_entries cfg ->
       part_of s' x = PARTITION_FREELIST /\ is_valid s' x = false /\ is_dirty s' x = false) /\
    c_alock s' = c_alock s /\ c_sems s' = c_sems s) s.
Proof.
  intros Hw [A1 A2 A3 A4 A5 A6 A7 A8 A9 [A10 A11]]. unfold init_attached.
  set (N := collision_table_entries cfg) in *.
  assert (exists s1, wp (on_meta (ocf_metadata_init_hash_table cfg);; on_meta (ocf_metadata_init_collision cfg)) (fun _ s' => s' = s1) s /\
    words_ok w (c_meta s1) /\ coll_inv cfg (c_meta s1) ((fun _ => []) <$> hash (c_meta s)) ∅ /\
    (forall x, 0 <= x < N -> maps (c_meta s1) !! x = Some (mkMap ULLONG_MAX OCF_CORE_MAX 0 0)) /\
    c_lru s1 = c_lru s /\ curr_size s1 = curr_size s /\ c_alock s1 = c_alock s /\ c_sems s1 = c_sems s)
    as (s1 & Hrun & Hok1 & Hcoll & Hmaps & Hl1 & Hc1 & Ha1 & Hs1).
  { destruct (init_collision_spec cfg w (c_meta s) Hw A1 A2 A3 A4 A9 ltac:(lia)) as ([] & m & Hm & H1 & H2 & H3).
    exists (set_c_meta m s). split_and!; try done. unfold mbind, M_bind in Hm.
    destruct (ocf_metadata_init_hash_table cfg (c_meta s)) as [[[] m1]|] eqn:Hm1; [|done].
    wp_step. unfold on_meta. wp_step. eexists _, _. split; [exact Hm1|]. wp_step. eexists _, _. split; [exact Hm|]. done. }
  apply wp_assoc', wp_bind. eapply wp_mono; [exact Hrun|]. intros [] _ ->. clear Hrun.
  assert (all_refs s1) as Hrefs by (intros p i c Hp Hi; rewrite Hl1; apply A6; by exists p, i, c).
  wp_step. eapply wp_mono; [apply init_parts_spec; [done|intros p Hp; rewrite Hc1; by apply A7]|].
  intros [] s2 [I1 I2 I3 I4 I5 (I6 & I7 & I8)].
  assert (forall x, 0 <= x < N -> is_valid s2 x = false) as Hv by (intros x Hx; unfold is_valid; by rewrite I6, Hmaps).
  destruct (phy2lg_perm cfg A10 A11) as (g & ginv & Hg & Hginv). fold N in Hg, Hginv.
  eapply wp_mono.
  { eapply (populate_spec cfg w Hw s2 g ginv Hg Hginv _ ((fun _ => []) <$> lists (c_lru s2))).
    - split; try done.
      + apply lru_inv_empty; [| |lia].
        * intros r f Hf. assert (is_Some (lists (c_lru s2) !! r)) as Hr by (by eexists).
          apply I2 in Hr. rewrite Hl1 in Hr. apply A6, I1 in Hr. rewrite Hf in Hr. by injection Hr as ->.
        * intros x. by rewrite I3, Hl1.
      + intros p i c Hp Hi. rewrite lookup_fmap, fmap_is_Some. apply I2. by apply Hrefs.
      + by rewrite I6.
      + intros x Hx. rewrite I6. destruct Hcoll as [_ _ _ _ _ _ C7 C8 _]. split; [by apply C7|by apply C8].
      + intros q Hq. rewrite (proj2 (Z.ltb_ge q 0)), andb_false_r by lia. split; [|done].
        intros r l. rewrite lookup_fmap. destruct (lists (c_lru s2) !! r); [|done]. intros [= <-]. apply not_elem_of_nil.
    - rewrite (tally_const _ true), length_seqZ; [|intros x Hx%elem_of_seqZ; by rewrite Hv by lia].
      rewrite u32_small by lia. lia.
    - apply I4. by right. }
  intros [] s3 (s4 & L & P & ->). rewrite u32_small, Z.sub_0_r by lia.
  assert (forall x, 0 <= x < N -> on_list L (PARTITION_FREELIST, x `mod` 32, true) x /\ part_of s4 x = PARTITION_FREELIST) as Hfree.
  { intros x Hx. destruct (Hginv x Hx) as [Hr Hgx]. pose proof (pi_line _ _ _ _ _ _ _ P (ginv x) Hr) as Hl.
    unfold to_place in Hl. rewrite Hgx, Hv in Hl by done. by rewrite (proj2 (Z.ltb_lt _ _)) in Hl by apply Hr. }
  assert (forall x, 0 <= x < N -> maps (c_meta s4) !! x = Some (mkMap ULLONG_MAX OCF_CORE_MAX 0 0)) as Hm4.
  { intros x Hx. rewrite (pi_maps _ _ _ _ _ _ _ P), I6. by apply Hmaps. }
  pose proof P as [P1 P2 P3 P4 P5 P6 P7 [P8 P9] _].
  split_and!; [exists L|exists ((fun _ => []) <$> hash (c_meta s)); rewrite I6 in P7; by eapply coll_inv_same|
    |simpl; congruence|simpl; congruence].
  - split; try done.
    + intros x Hx. right. by apply Hfree.
    + intros x Hx. unfold home. change (part_of _ x) with (part_of s4 x). rewrite (proj2 (Hfree x Hx)). by apply Hfree.
    + intros p Hp. simpl. destruct (decide (p = PARTITION_FREELIST)) as [->|Hne].
      * rewrite lookup_insert_eq. f_equal. rewrite (tally_const _ true), length_seqZ; [lia|].
        intros x Hx%elem_of_seqZ. apply Z.eqb_eq. by apply Hfree; lia.
      * rewrite lookup_insert_ne, I4 by done. f_equal. rewrite (tally_const _ false); [done|].
        intros x Hx%elem_of_seqZ. apply Z.eqb_neq. change (part_of _ x) with (part_of s4 x).
        rewrite (proj2 (Hfree x ltac:(lia))). congruence.
  - intros x Hx. split_and!; [by apply Hfree|..]; unfold is_valid, is_dirty; simpl; by rewrite Hm4.
Qed.

(** ** Results *)

(** C20: [lru_iter_eviction_next] takes the least recently used line that may be
    taken: it visits the lists of clean lines of the partition round-robin from
    the one after the current list, and gives the line closest to the tail of
    the first of them that has an evictable one (idle, not a line of the request
    itself, its hash bucket already locked by the request or free).  The line
    was clean; it comes back write locked, with its bucket locked, in the
    partition [dst] and most recently used there, and the placement of all
    lines is still correct.  When no list has such a line nothing changes and
    every list is marked exhausted. *)
Theorem eviction_takes_lru cfg w le req dst it s L A :
  word_bits cfg = Some w -> 0 < hash_table_entries cfg -> cache_inv cfg w s L -> locks_ok cfg le s A ->
  part_ok dst -> 0 <= it_part it < OCF_USER_IO_CLASS_MAX -> it_clean it = true ->
  iter_ok it -> avail_lists it <> [] ->
  exists r it' s', lru_iter_eviction_next cfg le req dst it s = Some ((r, it'), s') /\ iter_ok it' /\
    let refused := Forall (fun y => evictable cfg req it s y = None) in
    match r with
    | Some (x, k) => exists i l1 l2, i ∈ avail_lists it /\ clean_list L (it_part it) i = l1 ++ x :: l2 /\
        evictable cfg req it s x = Some k /\ refused l2 /\
        (forall j, j ∈ avail_lists it -> ahead it j < ahead it i -> refused (clean_list L (it_part it) j)) /\
        lru_idx it' = i /\ is_dirty s x = false /\
        taken cfg w (lock_victim cfg it s x k) L (it_part it) dst i x s'
    | None => s' = s /\ avail_lists it' = [] /\
        forall j, j ∈ avail_lists it -> refused (clean_list L (it_part it) j)
    end.
Proof.
  intros Hw Hh Hi HA Hdst Hp Hc Hok Hne. assert (part_ok (it_part it)) as Hpo by (by left).
  pose proof (visit_lists_spec _ s _ _ it it list_fuel
    (eviction_body cfg w le Hw Hh req dst it s L A Hi HA Hpo Hdst Hc) Hok ltac:(done) Hne (avail_le it)) as H.
  destruct H as ([r it'] & s' & Hrun & Hok' & Hr). exists r, it', s'. split; [exact Hrun|]. split; [done|].
  cbv zeta. cbn [fst snd] in Hr. destruct r as [[x k]|].
  - destruct Hr as (i & Hri & Hai & Hla & Ht & Hidx & Hbefore & _). cbn [fst snd] in Ht.
    apply last_accepted_Some in Hla as (l1 & l2 & Hl & Hx & Hl2). exists i, l1, l2.
    assert (x ∈ clean_list L (it_part it) i) as Hin by (rewrite Hl; set_solver).
    destruct (clean_list_home cfg w s L _ i x Hi Hpo Hri Hin) as (_ & _ & _ & _ & Hclean).
    split_and!; [by apply avail_elem|done..| |done| |done].
    + intros j [Hj Haj]%avail_elem Hlt. by eapply last_accepted_None, Hbefore.
    + apply Hclean. unfold PARTITION_FREELIST, OCF_USER_IO_CLASS_MAX in *. lia.
  - destruct Hr as (-> & He & Hnone). split_and!; [done..|]. intros j [Hj Haj]%avail_elem.
    by eapply last_accepted_None, Hnone.
Qed.

(** [lru_iter_free_next] takes from the free list, in the same round-robin
    order, the idle line closest to the tail of its list; it comes back write
    locked in the partition [dst], the placement being still correct.  It finds
    none only when no line of the lists still available is idle. *)
Theorem free_takes_lru cfg w le dst it s L A :
  word_bits cfg = Some w -> 0 < hash_table_entries cfg -> cache_inv cfg w s L -> locks_ok cfg le s A ->
  0 <= dst < OCF_USER_IO_CLASS_MAX -> it_part it = PARTITION_FREELIST ->
  iter_ok it -> avail_lists it <> [] ->
  exists r it' s', lru_iter_free_next cfg dst it s = Some ((r, it'), s') /\ iter_ok it' /\
    let busy := Forall (fun y => idle s y = false) in
    match r with
    | Some x => exists i l1 l2, i ∈ avail_lists it /\ clean_list L PARTITION_FREELIST i = l1 ++ x :: l2 /\
        idle s x = true /\ busy l2 /\
        (forall j, j ∈ avail_lists it -> ahead it j < ahead it i -> busy (clean_list L PARTITION_FREELIST j)) /\
        lru_idx it' = i /\ taken cfg w (write_locked s x) L PARTITION_FREELIST dst i x s'
    | None => s' = s /\ avail_lists it' = [] /\
        forall j, j ∈ avail_lists it -> busy (clean_list L PARTITION_FREELIST j)
    end.
Proof.
  intros Hw Hh Hi HA Hdst Hp Hok Hne. assert (part_ok (it_part it)) as Hpo by (by right).
  assert (dst <> it_part it) as Hd by (rewrite Hp; unfold PARTITION_FREELIST, OCF_USER_IO_CLASS_MAX in *; lia).
  assert (forall y, (if idle s y then Some tt else None) = None <-> idle s y = false) as Hbusy by (intros y; by destruct (idle s y)).
  pose proof (visit_lists_spec _ s _ _ it it list_fuel
    (free_body cfg w le Hw Hh dst it s L A Hi HA Hpo ltac:(by left) Hd) Hok ltac:(done) Hne (avail_le it)) as H.
  destruct H as ([r it'] & s' & Hrun & Hok' & Hr). exists r, it', s'.
  split; [unfold lru_iter_free_next; rewrite (proj2 (Z.eqb_neq _ _) Hd); exact Hrun|]. split; [done|].
  cbv zeta. rewrite Hp in Hr. cbn [fst snd] in Hr. destruct r as [x|].
  - destruct Hr as (i & Hri & Hai & ([x' []] & Hla & [= <-])%fmap_Some & Ht & Hidx & Hbefore & _). simpl in *.
    apply last_accepted_Some in Hla as (l1 & l2 & Hl & Hx & Hl2). exists i, l1, l2.
    split_and!; [by apply avail_elem|done|by destruct (idle s x)| | |done|done].
    + eapply Forall_impl; [exact Hl2|]. intros y. apply Hbusy.
    + intros j [Hj Haj]%avail_elem Hlt. specialize (Hbefore j Hj Haj Hlt).
      apply fmap_None, last_accepted_None in Hbefore. eapply Forall_impl; [exact Hbefore|]. intros y. apply Hbusy.
  - destruct Hr as (-> & He & Hnone). split_and!; [done..|]. intros j [Hj Haj]%avail_elem.
    specialize (Hnone j Hj Haj). apply fmap_None, last_accepted_None in Hnone.
    eapply Forall_impl; [exact Hnone|]. intros y. apply Hbusy.
Qed.

(** C21: Moving lines between partitions, removing them to the free list and
    making them hot, in any order, keeps every line on exactly the one list that
    its partition, its number and its dirty bit name, and keeps the counter of
    every partition at the number of its lines; the partitions of the lines are
    those the operations ask for, the dirty bits and the mapping of core lines
    to cache lines do not change, and no check of the code fails. *)
Theorem placement_operations cfg w os s L K P P' :
  word_bits cfg = Some w -> cache_inv cfg w s L -> mapping_ok cfg (c_meta s) K ->
  (forall x, 0 <= x < collision_table_entries cfg -> part_of s x = P x) -> spec_places cfg os P = Some P' ->
  exists s', run_places cfg os s = Some (tt, s') /\ (exists L', cache_inv cfg w s' L') /\
    mapping_ok cfg (c_meta s') K /\
    (forall x, 0 <= x < collision_table_entries cfg -> part_of s' x = P' x) /\
    (forall x, is_dirty s' x = is_dirty s x).
Proof.
  intros Hw Hi HK HP Hsp. destruct (places_spec cfg w Hw os s L P P' Hi HP Hsp) as ([] & s' & Hrun & Hi' & HP' & Hd & Hm).
  exists s'. split_and!; [done..|by eapply mapping_ok_same|done|done].
Qed.

(** Attaching an empty cache, whatever the memory held: the hash table and
    the collision table are reset, the lists of all partitions emptied, and every
    line comes to the free list, invalid and clean, whatever the layout of the
    metadata; no core line is mapped and the free partition counts all lines. *)
Theorem attach_empty_cache cfg w s :
  word_bits cfg = Some w -> attach_ok cfg w s ->
  exists s', init_attached cfg 0 s = Some (tt, s') /\ (exists L, cache_inv cfg w s' L) /\
    mapping_ok cfg (c_meta s') ∅ /\
    (forall x, 0 <= x < collision_table_entries cfg ->
       part_of s' x = PARTITION_FREELIST /\ is_valid s' x = false /\ is_dirty s' x = false) /\
    curr_size s' !! PARTITION_FREELIST = Some (collision_table_entries cfg).
Proof.
  intros Hw Ha. destruct (attach_spec cfg w s Hw Ha) as ([] & s' & Hrun & [L Hi] & HK & Hx & _ & _).
  exists s'. split_and!; [done|by exists L|done|done|]. rewrite (ci_size _ _ _ _ Hi PARTITION_FREELIST) by (by right).
  pose proof (inv_entries _ _ _ _ (ci_lru _ _ _ _ Hi)). f_equal.
  rewrite (tally_const _ true), length_seqZ; [lia|]. intros x Hin%elem_of_seqZ. apply Z.eqb_eq. by apply Hx; lia.
Qed.

(** ** Witnesses *)

Definition wit_parts : list Z := seqZ 0 OCF_USER_IO_CLASS_MAX ++ [PARTITION_FREELIST].

Definition wit_refs : list list_ref :=
  p ← wit_parts; i ← seqZ 0 32; [ocf_lru_get_list p i true; ocf_lru_get_list p i false].

Definition wit_cache0 : cache := mkCache
  (mkLru (zarray 10 (fun i => mkLruMeta i i true)) (list_to_map ((fun r => (r, mkLruList 7 7 7 7 7 false)) <$> wit_refs)))
  wit_coll_state (idle_lock 4 10 ∅ []) (fun _ => 0) (list_to_map ((fun p => (p, 5)) <$> wit_parts)).

Lemma list_to_map_is_Some `{Countable T} {V} (v : V) (l : list T) (t : T) :
  is_Some ((list_to_map ((fun r => (r, v)) <$> l) : gmap T V) !! t) <-> t ∈ l.
Proof.
  induction l as [|u l IH]; simpl.
  - rewrite lookup_empty, elem_of_nil. split; [intros []%is_Some_None|done].
  - rewrite elem_of_cons, <- IH, lookup_insert. case_decide as Hu; [subst u|].
    + split; [by left|by eexists].
    + split; [by right|intros [->|]; done].
Qed.

Lemma wit_parts_elem p : p ∈ wit_parts <-> part_ok p.
Proof. unfold wit_parts. rewrite elem_of_app, elem_of_seqZ, list_elem_of_singleton. unfold part_ok. intuition lia. Qed.

Lemma wit_attach_ok : attach_ok wit_coll_cfg 8 wit_cache0.
Proof.
  split; try (intros x; apply zarray_is_Some); try done.
  - apply wit_coll_words.
  - intros r. cbn [c_lru wit_cache0 lists]. rewrite list_to_map_is_Some. unfold wit_refs. rewrite list_elem_of_bind.
    setoid_rewrite list_elem_of_bind. setoid_rewrite elem_of_seqZ. setoid_rewrite wit_parts_elem. split.
    + intros (p & (i & Hr & Hi) & Hp). apply elem_of_cons in Hr as [->|Hr%list_elem_of_singleton]; [by exists p, i, true|].
      subst r. by exists p, i, false.
    + intros (p & i & c & Hp & Hi & ->). exists p. split; [|done]. exists i. split; [|done]. destruct c; set_solver.
  - intros p Hp. cbn [curr_size wit_cache0]. by rewrite list_to_map_is_Some, wit_parts_elem.
  - split; [done|by left].
Qed.

Lemma attach_empty_cache_witness :
  exists s', init_attached wit_coll_cfg 0 wit_cache0 = Some (tt, s') /\ (exists L, cache_inv wit_coll_cfg 8 s' L) /\
    mapping_ok wit_coll_cfg (c_meta s') ∅ /\
    (forall x, 0 <= x < 10 -> part_of s' x = PARTITION_FREELIST /\ is_valid s' x = false /\ is_dirty s' x = false) /\
    curr_size s' !! PARTITION_FREELIST = Some 10.
Proof. apply (attach_empty_cache wit_coll_cfg 8 wit_cache0 eq_refl wit_attach_ok). Defined.

(** The attached cache with the lines 0, 1 and 2 in the partition 0. *)
Definition wit_setup : M cache unit :=
  init_attached wit_coll_cfg 0;;
  for_range 3 0 (fun x => ocf_lru_repart_locked wit_coll_cfg x PARTITION_FREELIST 0).

Definition wit_cache : cache := default wit_cache0 (snd <$> wit_setup wit_cache0).

Lemma wit_cache_ready : (exists L, cache_inv wit_coll_cfg 8 wit_cache L) /\ mapping_ok wit_coll_cfg (c_meta wit_cache) ∅ /\
  c_alock wit_cache = idle_lock 4 10 ∅ [].
Proof.
  assert (wp wit_setup (fun _ s' => (exists L, cache_inv wit_coll_cfg 8 s' L) /\ mapping_ok wit_coll_cfg (c_meta s') ∅ /\
    c_alock s' = idle_lock 4 10 ∅ []) wit_cache0) as ([] & s' & Hrun & Hs).
  { unfold wit_setup. wp_step. eapply wp_mono; [exact (attach_spec wit_coll_cfg 8 wit_cache0 eq_refl wit_attach_ok)|].
    intros [] s1 (HL & HK & Hx & Ha & _).
    apply (wp_for_range _ (fun j s' => (exists L, cache_inv wit_coll_cfg 8 s' L) /\ mapping_ok wit_coll_cfg (c_meta s') ∅ /\
      c_alock s' = idle_lock 4 10 ∅ [] /\ forall x, j <= x < 10 -> part_of s' x = PARTITION_FREELIST)).
    - intros j s2 Hj ([L HL2] & HK2 & Ha2 & Hp2). rewrite <- (Hp2 j) by (simpl in *; lia).
      eapply wp_mono; [apply (repart_spec wit_coll_cfg 8 eq_refl s2 L j 0 HL2); [simpl in *; lia|by left]|].
      intros [] s3 [Hrep HL3]. split_and!; [by eexists|eapply mapping_ok_same; [done|by eapply repartitioned_same]| |].
      + destruct Hrep as (-> & _). done.
      + intros x Hxr. rewrite (repartitioned_part s2 s3 j 0) by (done || apply (ci_meta _ _ _ _ HL2); simpl in *; lia).
        rewrite decide_False by lia. rewrite !Hp2 by lia. done.
    - split_and!; [done..|]. intros x Hxr. by apply Hx.
    - intros s2 (? & ? & ? & _). done. }
  unfold wit_cache. by rewrite Hrun.
Qed.

Definition wit_req : evict_req := mkEvictReq 1 8 9 (mkHashReq (fun i => i) 2 0).

Definition wit_iter (part : Z) : ocf_lru_iter := mkIter ∅ part all_lists 32 31 None true.

Lemma wit_iter_ok part : iter_ok (wit_iter part) /\ avail_lists (wit_iter part) <> [].
Proof. split; [split; [vm_compute; done|vm_compute; done|by vm_compute]|by vm_compute]. Qed.

Lemma wit_locks : locks_ok wit_coll_cfg 4 wit_cache (zarray 10 (fun _ => (OCF_CACHE_LINE_ACCESS_IDLE, []))).
Proof.
  destruct wit_cache_ready as (_ & _ & Ha). split; rewrite Ha; [|done]. by apply (idle_lock_inv 4 10).
Qed.

Lemma eviction_takes_lru_witness :
  exists L it' s', lru_iter_eviction_next wit_coll_cfg 4 wit_req 2 (wit_iter 0) wit_cache =
      Some ((Some (0, (OCF_CORE_MAX, ULLONG_MAX)), it'), s') /\ iter_ok it' /\
    exists i, taken wit_coll_cfg 8 (lock_victim wit_coll_cfg (wit_iter 0) wit_cache 0 (OCF_CORE_MAX, ULLONG_MAX)) L 0 2 i 0 s'.
Proof.
  destruct wit_cache_ready as ([L HL] & _). destruct (wit_iter_ok 0) as [Hok Hne]. exists L.
  destruct (eviction_takes_lru wit_coll_cfg 8 4 wit_req 2 (wit_iter 0) wit_cache L _ eq_refl ltac:(done) HL wit_locks
    ltac:(by left) ltac:(done) eq_refl Hok Hne) as (r & it' & s' & Hrun & Hok' & Hr).
  assert (fst <$> (fst <$> lru_iter_eviction_next wit_coll_cfg 4 wit_req 2 (wit_iter 0) wit_cache) =
    Some (Some (0, (OCF_CORE_MAX, ULLONG_MAX)))) as He by (by vm_compute).
  rewrite Hrun in He. injection He as ->. exists it', s'. split_and!; [done|done|].
  destruct Hr as (i & _ & _ & _ & _ & _ & _ & _ & _ & _ & Ht). by exists i.
Defined.

Lemma free_takes_lru_witness :
  exists L it' s', lru_iter_free_next wit_coll_cfg 2 (wit_iter PARTITION_FREELIST) wit_cache = Some ((Some 3, it'), s') /\
    iter_ok it' /\ exists i, taken wit_coll_cfg 8 (write_locked wit_cache 3) L PARTITION_FREELIST 2 i 3 s'.
Proof.
  destruct wit_cache_ready as ([L HL] & _). destruct (wit_iter_ok PARTITION_FREELIST) as [Hok Hne]. exists L.
  destruct (free_takes_lru wit_coll_cfg 8 4 2 (wit_iter PARTITION_FREELIST) wit_cache L _ eq_refl ltac:(done) HL wit_locks
    ltac:(done) eq_refl Hok Hne) as (r & it' & s' & Hrun & Hok' & Hr).
  assert (fst <$> (fst <$> lru_iter_free_next wit_coll_cfg 2 (wit_iter PARTITION_FREELIST) wit_cache) =
    Some (Some 3)) as He by (by vm_compute).
  rewrite Hrun in He. injection He as ->. exists it', s'. split_and!; [done|done|].
  destruct Hr as (i & _ & _ & _ & _ & _ & _ & _ & _ & Ht). by exists i.
Defined.

Definition wit_places : list place_op := [PHot 1; PRepart 1 5; PRemove 0; PRepart 2 5; PRepart 1 0].

Definition wit_place_of (x : Z) : Z := if x <? 3 then 0 else PARTITION_FREELIST.

Lemma placement_operations_witness :
  exists s', run_places wit_coll_cfg wit_places wit_cache = Some (tt, s') /\ (exists L', cache_inv wit_coll_cfg 8 s' L') /\
    mapping_ok wit_coll_cfg (c_meta s') ∅ /\
    part_of s' 0 = PARTITION_FREELIST /\ part_of s' 1 = 0 /\ part_of s' 2 = 5.
Proof.
  destruct wit_cache_ready as ([L HL] & HK & _).
  destruct (placement_operations wit_coll_cfg 8 wit_places wit_cache L ∅
    wit_place_of (default id (spec_places wit_coll_cfg wit_places wit_place_of)) eq_refl HL HK) as (s' & Hrun & Hi & HK' & HP & _).
  - assert (Forall (fun x => part_of wit_cache x = wit_place_of x) (seqZ 0 10)) as H by decide_vm.
    rewrite Forall_forall in H. intros x Hx. apply H, elem_of_seqZ. simpl in Hx. lia.
  - reflexivity.
  - exists s'. split; [exact Hrun|]. split; [exact Hi|]. split; [exact HK'|].
    split; [|split]; (rewrite HP; [by vm_compute|split; [lia|reflexivity]]).
Defined.
