(* ===== verification/Request.v ===== *)
(** Requests: the parts of [struct ocf_request] that the mapping of core lines
    uses (ocf/src/ocf_request.[ch]), what the engines derive from them
    (engine/engine_common.h, utils/utils_cache_line.h), and marking metadata for
    a flush (metadata/metadata.c and the raw containers).

    The map of a request is a list of [core_line_count] entries.  The lock bits
    of a request ([alock_status], [alock_rw], [lock_remaining]) belong to the
    cache-line locks and are modelled in Alock. *)

From S2P Require Import Prelude Meta MetaLock Collision.

(** ** Data *)

(** An entry of the map: the fields that the lookup fills, and the others. *)
Record map_entry := mkEntry {
  me_info : ocf_map_info;
  invalid : bool;
  re_part : bool;
  flush : bool;
  start_flush : Z;
  stop_flush : Z;
}.

Definition status (e : map_entry) : Z := e_status (me_info e).
Definition coll_idx (e : map_entry) : Z := e_coll_idx (me_info e).

Definition with_info v (e : map_entry) := mkEntry v (invalid e) (re_part e) (flush e) (start_flush e) (stop_flush e).
Definition with_status v (e : map_entry) :=
  let i := me_info e in with_info (mkMapInfo (e_hash i) v (e_coll_idx i) (e_core_line i) (e_core_id i)) e.
Definition with_coll_idx v (e : map_entry) :=
  let i := me_info e in with_info (mkMapInfo (e_hash i) (e_status i) v (e_core_line i) (e_core_id i)) e.
Definition with_hash v (e : map_entry) :=
  let i := me_info e in with_info (mkMapInfo v (e_status i) (e_coll_idx i) (e_core_line i) (e_core_id i)) e.
Definition with_invalid v (e : map_entry) := mkEntry (me_info e) v (re_part e) (flush e) (start_flush e) (stop_flush e).
Definition with_re_part v (e : map_entry) := mkEntry (me_info e) (invalid e) v (flush e) (start_flush e) (stop_flush e).
Definition with_flush v (e : map_entry) := mkEntry (me_info e) (invalid e) (re_part e) v (start_flush e) (stop_flush e).
Definition with_flush_range x y (e : map_entry) := mkEntry (me_info e) (invalid e) (re_part e) (flush e) x y.

(** [struct ocf_req_info], less the bits that no operation below uses. *)
Record ocf_req_info := mkReqInfo {
  hit_no : Z;
  invalid_no : Z;
  re_part_no : Z;
  seq_no : Z;
  insert_no : Z;
  dirty_all : Z;
  dirty_any : Z;
  flush_metadata : bool;
  mapping_error : bool;
  cleaning_required : bool;
}.

Definition add_hit_no d (i : ocf_req_info) := mkReqInfo (u32 (hit_no i + d)) (invalid_no i) (re_part_no i) (seq_no i)
  (insert_no i) (dirty_all i) (dirty_any i) (flush_metadata i) (mapping_error i) (cleaning_required i).
Definition add_invalid_no d (i : ocf_req_info) := mkReqInfo (hit_no i) (u32 (invalid_no i + d)) (re_part_no i) (seq_no i)
  (insert_no i) (dirty_all i) (dirty_any i) (flush_metadata i) (mapping_error i) (cleaning_required i).
Definition add_re_part_no d (i : ocf_req_info) := mkReqInfo (hit_no i) (invalid_no i) (u32 (re_part_no i + d)) (seq_no i)
  (insert_no i) (dirty_all i) (dirty_any i) (flush_metadata i) (mapping_error i) (cleaning_required i).
Definition add_seq_no d (i : ocf_req_info) := mkReqInfo (hit_no i) (invalid_no i) (re_part_no i) (u32 (seq_no i + d))
  (insert_no i) (dirty_all i) (dirty_any i) (flush_metadata i) (mapping_error i) (cleaning_required i).
Definition add_insert_no d (i : ocf_req_info) := mkReqInfo (hit_no i) (invalid_no i) (re_part_no i) (seq_no i)
  (u32 (insert_no i + d)) (dirty_all i) (dirty_any i) (flush_metadata i) (mapping_error i) (cleaning_required i).
Definition add_dirty_all d (i : ocf_req_info) := mkReqInfo (hit_no i) (invalid_no i) (re_part_no i) (seq_no i)
  (insert_no i) (u32 (dirty_all i + d)) (dirty_any i) (flush_metadata i) (mapping_error i) (cleaning_required i).
Definition add_dirty_any d (i : ocf_req_info) := mkReqInfo (hit_no i) (invalid_no i) (re_part_no i) (seq_no i)
  (insert_no i) (dirty_all i) (u32 (dirty_any i + d)) (flush_metadata i) (mapping_error i) (cleaning_required i).
Definition set_flush_metadata (i : ocf_req_info) := mkReqInfo (hit_no i) (invalid_no i) (re_part_no i) (seq_no i)
  (insert_no i) (dirty_all i) (dirty_any i) true (mapping_error i) (cleaning_required i).
Definition set_mapping_error (i : ocf_req_info) := mkReqInfo (hit_no i) (invalid_no i) (re_part_no i) (seq_no i)
  (insert_no i) (dirty_all i) (dirty_any i) (flush_metadata i) true (cleaning_required i).
Definition set_cleaning_required (i : ocf_req_info) := mkReqInfo (hit_no i) (invalid_no i) (re_part_no i) (seq_no i)
  (insert_no i) (dirty_all i) (dirty_any i) (flush_metadata i) (mapping_error i) true.

(** [struct ocf_request]: [rq_id] stands for the address of the request, which
    is how the cache-line locks know it. *)
Record ocf_request := mkReq {
  rq_id : Z;
  core : Z;
  byte_position : Z;
  byte_length : Z;
  core_line_first : Z;
  core_line_last : Z;
  core_line_count : Z;
  part_id : Z;
  part_evict : bool;
  rq_lock_idx : Z;
  info : ocf_req_info;
  map : list map_entry;
}.

Definition set_info f (r : ocf_request) := mkReq (rq_id r) (core r) (byte_position r) (byte_length r)
  (core_line_first r) (core_line_last r) (core_line_count r) (part_id r) (part_evict r) (rq_lock_idx r) (f (info r)) (map r).
Definition set_map f (r : ocf_request) := mkReq (rq_id r) (core r) (byte_position r) (byte_length r)
  (core_line_first r) (core_line_last r) (core_line_count r) (part_id r) (part_evict r) (rq_lock_idx r) (info r) (f (map r)).
Definition set_part_evict v (r : ocf_request) := mkReq (rq_id r) (core r) (byte_position r) (byte_length r)
  (core_line_first r) (core_line_last r) (core_line_count r) (part_id r) v (rq_lock_idx r) (info r) (map r).

(** [req->map[i]]: the access stops outside the map. *)
Definition entry_of (r : ocf_request) (i : Z) : option map_entry := if i <? 0 then None else map r !! Z.to_nat i.
Definition get_entry (i : Z) : M ocf_request map_entry := r ← gets id; lift (entry_of r i).
Definition upd_entry (i : Z) (f : map_entry -> map_entry) : M ocf_request unit := fun r =>
  match entry_of r i with
  | Some _ => Some (tt, set_map (alter f (Z.to_nat i)) r)
  | None => None
  end.

(** ** ocf_request.c *)

Definition ocf_req_clear_info : M ocf_request unit :=
  modify (set_info (fun _ => mkReqInfo 0 0 0 0 0 0 0 false false false)).

Definition zero_entry : map_entry := mkEntry (mkMapInfo 0 0 0 0 0) false false false 0 0.

Definition ocf_req_clear_map : M ocf_request unit :=
  modify (fun r => set_map (fun m => replicate (Z.to_nat (core_line_count r)) zero_entry ++ drop (Z.to_nat (core_line_count r)) m) r).

Definition ocf_req_hash (cfg : config) : M ocf_request unit :=
  r ← gets id;
  for_range (Z.to_nat (core_line_count r)) 0 (fun i =>
    upd_entry i (with_hash (ocf_metadata_hash_func cfg (core_line_first r + i) (core r)))).

Definition ocf_req_set_mapping_error : M ocf_request unit := modify (set_info set_mapping_error).
Definition ocf_req_test_mapping_error (r : ocf_request) : bool := mapping_error (info r).
Definition ocf_req_set_cleaning_required : M ocf_request unit := modify (set_info set_cleaning_required).
Definition ocf_req_is_cleaning_required (r : ocf_request) : bool := cleaning_required (info r).
Definition ocf_req_set_part_evict : M ocf_request unit := modify (set_part_evict true).
Definition ocf_req_clear_part_evict : M ocf_request unit := modify (set_part_evict false).
Definition ocf_req_part_evict (r : ocf_request) : bool := part_evict r.

(** ** engine_common.h *)

Definition ocf_engine_is_hit (r : ocf_request) : bool := hit_no (info r) =? core_line_count r.
Definition ocf_engine_needs_repart (r : ocf_request) : bool := 0 <? re_part_no (info r).
Definition ocf_engine_is_mapped (r : ocf_request) : bool :=
  u32 (hit_no (info r) + invalid_no (info r)) =? core_line_count r.
Definition ocf_engine_is_dirty_all (r : ocf_request) : bool := dirty_all (info r) =? core_line_count r.
Definition ocf_engine_mapped_count (r : ocf_request) : Z := u32 (hit_no (info r) + invalid_no (info r)).
Definition ocf_engine_unmapped_count (r : ocf_request) : Z :=
  u32 (core_line_count r - u32 (u32 (hit_no (info r) + invalid_no (info r)) + insert_no (info r))).
Definition ocf_engine_repart_count (r : ocf_request) : Z := re_part_no (info r).
Definition ocf_engine_is_sequential (r : ocf_request) : bool :=
  (u32 (hit_no (info r) + insert_no (info r)) =? core_line_count r) && (seq_no (info r) =? u32 (core_line_count r - 1)).
Definition ocf_engine_io_count (r : ocf_request) : Z := if ocf_engine_is_sequential r then 1 else core_line_count r.

(** ** utils_cache_line.h *)

Section cfg.
Variable cfg : config.

Definition ocf_line_sectors : Z := sector_count cfg.
Definition ocf_line_end_sector : Z := sector_end cfg.

Definition ocf_map_line_start_sector (r : ocf_request) (line : Z) : Z :=
  if line =? 0 then u8 (BYTES_TO_SECTORS (byte_position r) `mod` ocf_line_sectors) else 0.

Definition ocf_map_line_end_sector (r : ocf_request) (line : Z) : Z :=
  if line =? u32 (core_line_count r - 1)
  then u8 (BYTES_TO_SECTORS (u64 (byte_position r + byte_length r - 1)) `mod` ocf_line_sectors)
  else u8 ocf_line_end_sector.
End cfg.

(** ** Marking metadata for a flush *)

Inductive line_state := INVALID | CLEAN | DIRTY.
Inductive raw_type := metadata_raw_type_ram | metadata_raw_type_volatile | metadata_raw_type_atomic.

Definition _raw_ram_flush_mark (map_idx : Z) (to_state : line_state) (start stop : Z) : M ocf_request unit :=
  match to_state with
  | DIRTY | CLEAN => upd_entry map_idx (with_flush true);; modify (set_info set_flush_metadata)
  | INVALID => mret tt
  end.

Definition raw_volatile_flush_mark (map_idx : Z) (to_state : line_state) (start stop : Z) : M ocf_request unit := mret tt.

Definition raw_atomic_flush_mark (map_idx : Z) (to_state : line_state) (start stop : Z) : M ocf_request unit :=
  match to_state with
  | INVALID =>
      upd_entry map_idx (with_flush true);;
      upd_entry map_idx (with_flush_range start stop);;
      modify (set_info set_flush_metadata)
  | _ => mret tt
  end.

(** [raw] is the type of the container of the collision segment. *)
Definition ocf_metadata_flush_mark (raw : raw_type) (map_idx : Z) (to_state : line_state) (start stop : Z) : M ocf_request unit :=
  match raw with
  | metadata_raw_type_ram => _raw_ram_flush_mark map_idx to_state start stop
  | metadata_raw_type_volatile => raw_volatile_flush_mark map_idx to_state start stop
  | metadata_raw_type_atomic => raw_atomic_flush_mark map_idx to_state start stop
  end.

(** ** Properties *)

(** Requests that differ in the marks for flushing only. *)
Definition unmark_entry (e : map_entry) : map_entry := with_flush_range 0 0 (with_flush false e).
Definition unmark_info (i : ocf_req_info) : ocf_req_info := mkReqInfo (hit_no i) (invalid_no i) (re_part_no i) (seq_no i)
  (insert_no i) (dirty_all i) (dirty_any i) false (mapping_error i) (cleaning_required i).
Definition unmark (r : ocf_request) : ocf_request := set_map (fmap unmark_entry) (set_info unmark_info r).
Definition req_same (r r' : ocf_request) : Prop := unmark r' = unmark r.

Lemma req_same_refl r : req_same r r.
Proof. done. Qed.
Lemma req_same_trans r1 r2 r3 : req_same r1 r2 -> req_same r2 r3 -> req_same r1 r3.
Proof. unfold req_same. congruence. Qed.

Lemma entry_unmark r i : entry_of (unmark r) i = unmark_entry <$> entry_of r i.
Proof. unfold entry_of. destruct (i <? 0); [done|]. simpl. by rewrite list_lookup_fmap. Qed.

Lemma req_same_entry r r' i e : req_same r r' -> entry_of r i = Some e ->
  exists e', entry_of r' i = Some e' /\ unmark_entry e' = unmark_entry e.
Proof.
  intros Hs He. pose proof (entry_unmark r' i) as H. rewrite Hs, entry_unmark, He in H.
  destruct (entry_of r' i) as [e'|]; [|done]. simpl in H. injection H as H. exists e'. split; [done|].
  destruct e, e'; simpl in *. unfold unmark_entry, with_flush_range, with_flush. simpl. congruence.
Qed.

Lemma unmark_entry_info e e' : unmark_entry e' = unmark_entry e -> me_info e' = me_info e.
Proof. by intros [=]. Qed.

Lemma req_same_fields r r' : req_same r r' ->
  rq_id r' = rq_id r /\ core r' = core r /\ byte_position r' = byte_position r /\ byte_length r' = byte_length r /\
  core_line_first r' = core_line_first r /\ core_line_last r' = core_line_last r /\ core_line_count r' = core_line_count r /\
  part_id r' = part_id r /\ unmark_info (info r') = unmark_info (info r).
Proof.
  intros H. split_and!; [apply (f_equal rq_id H)|apply (f_equal core H)|apply (f_equal byte_position H)|apply (f_equal byte_length H)
    |apply (f_equal core_line_first H)|apply (f_equal core_line_last H)|apply (f_equal core_line_count H)|apply (f_equal part_id H)
    |apply (f_equal info H)].
Qed.

Lemma wp_upd_entry i f Q r : is_Some (entry_of r i) -> Q tt (set_map (alter f (Z.to_nat i)) r) -> wp (upd_entry i f) Q r.
Proof. intros [e He] HQ. eexists _, _. split; [|exact HQ]. unfold upd_entry. by rewrite He. Qed.

Lemma wp_req_entry i e Q r : entry_of r i = Some e -> Q e r -> wp (get_entry i) Q r.
Proof. intros He HQ. unfold get_entry. wp_step. wp_step. eapply wp_lift; [exact He|exact HQ]. Qed.

Lemma fmap_alter_same {A B} (g : A -> B) f i (l : list A) : (forall x, g (f x) = g x) -> g <$> alter f i l = g <$> l.
Proof.
  intros H. apply list_eq. intros j. rewrite !list_lookup_fmap. destruct (decide (j = i)) as [->|].
  - rewrite list_lookup_alter_eq. destruct (l !! i); simpl; by rewrite ?H.
  - by rewrite list_lookup_alter_ne.
Qed.

Lemma unmark_alter f i r : (forall e, unmark_entry (f e) = unmark_entry e) -> req_same r (set_map (alter f i) r).
Proof. intros H. unfold req_same, unmark, set_map. simpl. by rewrite fmap_alter_same. Qed.

Lemma flush_mark_run raw i to a z r : is_Some (entry_of r i) ->
  wp (ocf_metadata_flush_mark raw i to a z) (fun _ r' => req_same r r') r.
Proof.
  intros He. assert (forall r', req_same r r' -> req_same r (set_info set_flush_metadata r')) as Hset by done.
  assert (forall f, is_Some (entry_of (set_map (alter f (Z.to_nat i)) r) i)) as Hdom.
  { intros f. unfold entry_of in *. destruct (i <? 0); [done|]. simpl. rewrite list_lookup_alter_eq. by apply fmap_is_Some. }
  destruct raw, to; unfold ocf_metadata_flush_mark, _raw_ram_flush_mark, raw_volatile_flush_mark, raw_atomic_flush_mark;
    wp_step; try apply req_same_refl.
  - apply wp_upd_entry; [done|]. wp_step. by apply Hset, unmark_alter.
  - apply wp_upd_entry; [done|]. wp_step. by apply Hset, unmark_alter.
  - apply wp_upd_entry; [done|]. wp_step. apply wp_upd_entry; [by apply Hdom|]. wp_step. apply Hset.
    eapply req_same_trans; by apply unmark_alter.
Qed.
