(* ===== verification/CacheLine.v ===== *)
(** The state of cache lines: ocf/src/utils/utils_cache_line.[ch],
    metadata/metadata_misc.c and [ocf_lru_invalidate] of ocf_lru.c.

    These operations join the status bits, the mapping, the lists of the
    partitions and the statistics of the cores.  The collision page locks taken
    around them are not state here (see MetaLock); the calls of the cleaning
    policy, which is reached through function pointers, are recorded in order. *)

From S2P Require Import Prelude Dll Meta Lru Collision Alock MetaLock Eviction Request.

(** ** State *)

(** An element of [part_counters]. *)
Record part_counter := mkPartCounter { p_cached_clines : Z; p_dirty_clines : Z }.

(** [struct ocf_core_meta_runtime] *)
Record core_runtime := mkCoreRuntime {
  cached_clines : Z;
  dirty_clines : Z;
  dirty_since : Z;
  part_counters : gmap Z part_counter;
}.

Inductive clean_call :=
  | InitCacheBlock (line : Z) | PurgeCacheBlock (line : Z) | SetHotCacheBlock (line : Z).

(** The cache with the request that is being served. *)
Record engine := mkEngine {
  e_cache : cache;
  e_cores : gmap Z core_runtime;
  e_req : ocf_request;
  e_cleaning : list clean_call;
}.

Definition set_e_cache v (s : engine) := mkEngine v (e_cores s) (e_req s) (e_cleaning s).
Definition set_e_cores f (s : engine) := mkEngine (e_cache s) (f (e_cores s)) (e_req s) (e_cleaning s).
Definition set_e_req v (s : engine) := mkEngine (e_cache s) (e_cores s) v (e_cleaning s).
Definition set_e_cleaning f (s : engine) := mkEngine (e_cache s) (e_cores s) (e_req s) (f (e_cleaning s)).

Definition on_cache {A} (m : M cache A) : M engine A := zoom e_cache set_e_cache m.
Definition on_req {A} (m : M ocf_request A) : M engine A := zoom e_req set_e_req m.
Definition the_req : M engine ocf_request := gets e_req.

Definition ocf_cleaning_init_cache_block (line : Z) : M engine unit := modify (set_e_cleaning (fun l => l ++ [InitCacheBlock line])).
Definition ocf_purge_cleaning_policy (line : Z) : M engine unit := modify (set_e_cleaning (fun l => l ++ [PurgeCacheBlock line])).
Definition ocf_cleaning_set_hot_cache_line (line : Z) : M engine unit :=
  modify (set_e_cleaning (fun l => l ++ [SetHotCacheBlock line])).

(** ** Statistics

    [env_atomic] is an [int]; the counters of the valid and of the dirty lines
    are updated alike, [what] tells which. *)

Definition clines (what : status_word) (c : core_runtime) : Z :=
  match what with Valid => cached_clines c | Dirty => dirty_clines c end.
Definition p_clines (what : status_word) (c : part_counter) : Z :=
  match what with Valid => p_cached_clines c | Dirty => p_dirty_clines c end.

Definition add_clines (what : status_word) (d : Z) (c : core_runtime) : core_runtime :=
  match what with
  | Valid => mkCoreRuntime (s32 (cached_clines c + d)) (dirty_clines c) (dirty_since c) (part_counters c)
  | Dirty => mkCoreRuntime (cached_clines c) (s32 (dirty_clines c + d)) (dirty_since c) (part_counters c)
  end.
Definition add_p_clines (what : status_word) (d : Z) (c : part_counter) : part_counter :=
  match what with
  | Valid => mkPartCounter (s32 (p_cached_clines c + d)) (p_dirty_clines c)
  | Dirty => mkPartCounter (p_cached_clines c) (s32 (p_dirty_clines c + d))
  end.
Definition set_part_counters f (c : core_runtime) := mkCoreRuntime (cached_clines c) (dirty_clines c) (dirty_since c) (f (part_counters c)).
Definition set_dirty_since v (c : core_runtime) := mkCoreRuntime (cached_clines c) (dirty_clines c) v (part_counters c).

Definition rd_core (core_id : Z) : M engine core_runtime := m ← gets e_cores; lift (m !! core_id).
Definition upd_core (core_id : Z) (f : core_runtime -> core_runtime) : M engine unit :=
  _ ← rd_core core_id; modify (set_e_cores (alter f core_id)).

(** The access stops outside [part_counters]. *)
Definition upd_part (core_id part_id : Z) (f : part_counter -> part_counter) : M engine unit :=
  c ← rd_core core_id; _ ← lift (part_counters c !! part_id);
  modify (set_e_cores (alter (set_part_counters (alter f part_id)) core_id)).

(** [env_atomic_inc] or [env_atomic_dec] of the counter of the core and then of
    that of its partition. *)
Definition count (what : status_word) (core_id part_id d : Z) : M engine unit :=
  upd_core core_id (add_clines what d);;
  upd_part core_id part_id (add_p_clines what d).

Section cache_line.
Variable cfg : config.
Variable list_entries : Z.
(** The type of the container of the collision segment. *)
Variable raw : raw_type.
(** [env_ticks_to_secs(env_get_tick_count())] *)
Variable now : Z.

(** ** utils_cache_line.c *)

Definition __set_cache_line_invalid (start_bit end_bit line core_id part_id : Z) : M engine unit :=
  BUG_ON (OCF_CORE_MAX <=? core_id);;
  '(changed, is_valid) ← on_cache (on_meta (metadata_clear_valid_sec_changed cfg line start_bit end_bit));
  (if (changed : bool) then count Valid core_id part_id (-1) else mret tt);;
  if negb is_valid then
    waiters ← on_cache (on_alock (ocf_cache_line_are_waiters list_entries line));
    if negb waiters then
      on_cache (ocf_lru_rm_cline cfg line);;
      on_cache (on_meta (ocf_metadata_remove_cache_line cfg line))
    else mret tt
  else mret tt.

Definition req_line (map_idx : Z) : M engine Z := e ← on_req (get_entry map_idx); mret (coll_idx e).

Definition set_cache_line_invalid (start_bit end_bit map_idx : Z) : M engine unit :=
  line ← req_line map_idx;
  part_id ← on_cache (on_meta (ocf_metadata_get_partition_id line));
  req ← the_req;
  __set_cache_line_invalid start_bit end_bit line (core req) part_id;;
  on_req (ocf_metadata_flush_mark raw map_idx INVALID start_bit end_bit).

Definition set_cache_line_invalid_no_flush (start_bit end_bit line : Z) : M engine unit :=
  '(core_id, part_id) ← on_cache (on_meta (ocf_metadata_get_core_and_part_id line));
  __set_cache_line_invalid start_bit end_bit line core_id part_id.

Definition set_cache_line_valid (start_bit end_bit map_idx : Z) : M engine unit :=
  line ← req_line map_idx;
  part_id ← on_cache (on_meta (ocf_metadata_get_partition_id line));
  changed ← on_cache (on_meta (metadata_set_valid_sec_changed cfg line start_bit end_bit));
  if (changed : bool) then req ← the_req; count Valid (core req) part_id 1 else mret tt.

(** The update of [dirty_clines] with the test for zero. *)
Definition count_clean (core_id part_id : Z) : M engine unit :=
  upd_core core_id (add_clines Dirty (-1));;
  c ← rd_core core_id;
  (if dirty_clines c =? 0 then upd_core core_id (set_dirty_since 0) else mret tt);;
  upd_part core_id part_id (add_p_clines Dirty (-1)).

Definition set_cache_line_clean (start_bit end_bit map_idx : Z) : M engine unit :=
  line ← req_line map_idx;
  part_id ← on_cache (on_meta (ocf_metadata_get_partition_id line));
  BUG_ON (OCF_USER_IO_CLASS_MAX <? part_id);;
  part ← on_cache (user_part part_id);
  '(changed, line_is_clean) ← on_cache (on_meta (metadata_clear_dirty_sec_changed cfg line start_bit end_bit));
  if (changed : bool) then
    on_req (ocf_metadata_flush_mark raw map_idx CLEAN start_bit end_bit);;
    if (line_is_clean : bool) then
      req ← the_req;
      count_clean (core req) part_id;;
      on_cache (ocf_lru_clean_cline part line);;
      ocf_purge_cleaning_policy line
    else mret tt
  else mret tt.

(** The first dirty line of a core sets its time stamp. *)
Definition count_dirty (core_id part_id : Z) : M engine unit :=
  c ← rd_core core_id;
  (if dirty_since c =? 0 then upd_core core_id (set_dirty_since now) else mret tt);;
  count Dirty core_id part_id 1.

Definition set_cache_line_dirty (start_bit end_bit map_idx : Z) : M engine unit :=
  line ← req_line map_idx;
  part_id ← on_cache (on_meta (ocf_metadata_get_partition_id line));
  BUG_ON (OCF_USER_IO_CLASS_MAX <? part_id);;
  part ← on_cache (user_part part_id);
  '(changed, line_was_dirty) ← on_cache (on_meta (metadata_set_dirty_sec_changed cfg line start_bit end_bit));
  (if (changed : bool) then
     on_req (ocf_metadata_flush_mark raw map_idx DIRTY start_bit end_bit);;
     if negb line_was_dirty then
       req ← the_req;
       count_dirty (core req) part_id;;
       on_cache (ocf_lru_dirty_cline part line)
     else mret tt
   else mret tt);;
  ocf_cleaning_set_hot_cache_line line.

(** ** utils_cache_line.h *)

Definition _ocf_purge_cache_line_sec (start stop map_idx : Z) : M engine unit :=
  set_cache_line_clean start stop map_idx;;
  set_cache_line_invalid start stop map_idx.

Definition ocf_purge_map_info : M engine unit :=
  req ← the_req;
  let count := core_line_count req in
  for_range (Z.to_nat count) 0 (fun map_idx =>
    e ← on_req (get_entry map_idx);
    if status e =? LOOKUP_MISS then mret tt
    else
      let start_bit := if map_idx =? 0 then u8 (BYTES_TO_SECTORS (byte_position req) `mod` ocf_line_sectors cfg) else 0 in
      let end_bit := if map_idx =? u32 (count - 1)
                     then u8 (BYTES_TO_SECTORS (u64 (byte_position req + byte_length req - 1)) `mod` ocf_line_sectors cfg)
                     else u8 (ocf_line_end_sector cfg) in
      _ocf_purge_cache_line_sec start_bit end_bit map_idx).

Definition ocf_set_valid_map_info : M engine unit :=
  req ← the_req;
  for_range (Z.to_nat (core_line_count req)) 0 (fun map_idx =>
    e ← on_req (get_entry map_idx);
    BUG_ON (status e =? LOOKUP_MISS);;
    set_cache_line_valid (ocf_map_line_start_sector cfg req map_idx) (ocf_map_line_end_sector cfg req map_idx) map_idx).

Definition ocf_set_dirty_map_info : M engine unit :=
  req ← the_req;
  for_range (Z.to_nat (core_line_count req)) 0 (fun map_idx =>
    set_cache_line_dirty (ocf_map_line_start_sector cfg req map_idx) (ocf_map_line_end_sector cfg req map_idx) map_idx).

Definition ocf_set_clean_map_info : M engine unit :=
  req ← the_req;
  for_range (Z.to_nat (core_line_count req)) 0 (fun map_idx =>
    set_cache_line_clean (ocf_map_line_start_sector cfg req map_idx) (ocf_map_line_end_sector cfg req map_idx) map_idx).

(** ** metadata_misc.c *)

Definition ocf_metadata_sparse_cache_line (cache_line : Z) : M engine unit :=
  set_cache_line_invalid_no_flush 0 (u8 (ocf_line_end_sector cfg)) cache_line;;
  on_cache (on_meta (metadata_clear_dirty cfg cache_line)).

(** The identifier of the core is converted to [ocf_core_id_t]. *)
Definition ocf_metadata_sparse_range (core_id start_byte end_byte : Z) : M engine Z :=
  ocf_metadata_actor cfg list_entries (@on_cache) ocf_metadata_sparse_cache_line
    PARTITION_UNSPECIFIED (u16 core_id) start_byte end_byte.

(** ** ocf_lru.c *)

Definition ocf_lru_invalidate (cline core_id part_id : Z) : M engine unit :=
  on_cache (on_meta (metadata_clear_valid_sec cfg cline 0 (u8 (ocf_line_end_sector cfg))));;
  on_cache (on_meta (ocf_metadata_remove_from_collision cfg cline part_id));;
  count Valid core_id part_id (-1).
End cache_line.

(** ** Counting

    What the statistics say of a line: the core that owns it, its partition, and
    whether it has valid and dirty sectors. *)

Record line_view := mkView { v_owner : option Z; v_part : Z; v_valid : bool; v_dirty : bool }.

Definition view (s : cache) (K : gmap Z (Z * Z)) (x : Z) : line_view :=
  mkView (fst <$> K !! x) (part_of s x) (is_valid s x) (is_dirty s x).

Definition v_has (what : status_word) (v : line_view) : bool :=
  match what with Valid => v_valid v | Dirty => v_dirty v end.

Definition holds (what : status_word) (c : Z) (v : line_view) : bool := v_has what v && bool_decide (v_owner v = Some c).
Definition holds_in (what : status_word) (c p : Z) (v : line_view) : bool := holds what c v && (v_part v =? p).

(** The counters of every core count its lines, in all and in each partition. *)
Definition counts_ok (what : status_word) (n : Z) (V : Z -> line_view) (cores : gmap Z core_runtime) : Prop :=
  forall c rt, cores !! c = Some rt ->
    clines what rt = tally (fun x => holds what c (V x)) (seqZ 0 n) /\
    forall p, 0 <= p < OCF_USER_IO_CLASS_MAX ->
      p_clines what <$> part_counters rt !! p = Some (tally (fun x => holds_in what c p (V x)) (seqZ 0 n)).

(** The effect of [count]. *)
Definition bump (what : status_word) (c p d : Z) (cores : gmap Z core_runtime) : gmap Z core_runtime :=
  alter (set_part_counters (alter (add_p_clines what d) p)) c (alter (add_clines what d) c cores).

Lemma part_counters_add what d rt : part_counters (add_clines what d rt) = part_counters rt.
Proof. by destruct what. Qed.

Lemma clines_add what d rt : clines what (add_clines what d rt) = s32 (clines what rt + d).
Proof. by destruct what. Qed.

Lemma p_clines_add what d pc : p_clines what (add_p_clines what d pc) = s32 (p_clines what pc + d).
Proof. by destruct what. Qed.

Lemma bump_lookup what c p d cores c' rt' : bump what c p d cores !! c' = Some rt' ->
  exists rt, cores !! c' = Some rt /\
    rt' = if decide (c' = c) then set_part_counters (alter (add_p_clines what d) p) (add_clines what d rt) else rt.
Proof.
  unfold bump. destruct (decide (c' = c)) as [->|Hne].
  - rewrite !lookup_alter_eq. destruct (cores !! c) as [rt|]; [|done]. intros [= <-]. by exists rt.
  - rewrite !lookup_alter_ne by done. intros Hl. by exists rt'.
Qed.

Lemma bump_dom what c p d cores c' : is_Some (bump what c p d cores !! c') <-> is_Some (cores !! c').
Proof. unfold bump. by rewrite !is_Some_alter. Qed.

Lemma clines_other what what' d rt : what <> what' -> clines what' (add_clines what d rt) = clines what' rt.
Proof. by destruct what, what'. Qed.

Lemma p_clines_other what what' d p (m : gmap Z part_counter) q : what <> what' ->
  p_clines what' <$> alter (add_p_clines what d) p m !! q = p_clines what' <$> m !! q.
Proof.
  intros Hne. destruct (decide (q = p)) as [->|]; [|by rewrite lookup_alter_ne].
  rewrite lookup_alter_eq. destruct (m !! p); simpl; [|done]. by destruct what, what'.
Qed.

Lemma counts_bump_other what what' n V c p d cores : what <> what' ->
  counts_ok what' n V cores -> counts_ok what' n V (bump what c p d cores).
Proof.
  intros Hne Hok c' rt' (rt & Hrt & ->)%bump_lookup. destruct (Hok c' rt Hrt) as [H1 H2].
  destruct (decide (c' = c)); [|done]. split.
  - rewrite <- H1. by destruct what, what'.
  - intros q Hq. simpl. rewrite part_counters_add, p_clines_other by done. by apply H2.
Qed.

(** The same for the counters of [what]. *)
Definition same_for (what : status_word) (v v' : line_view) : Prop :=
  v_has what v = v_has what v' /\ v_owner v = v_owner v' /\ v_part v = v_part v'.

(** The counters do not depend on the lines that have no such sector. *)
Lemma counts_ext what n V V' cores : counts_ok what n V cores ->
  (forall x, 0 <= x < n -> same_for what (V' x) (V x) \/ v_has what (V' x) = false /\ v_has what (V x) = false) ->
  counts_ok what n V' cores.
Proof.
  intros Hok HV c rt Hrt. destruct (Hok c rt Hrt) as [H1 H2].
  assert (forall x, 0 <= x < n -> holds what c (V' x) = holds what c (V x) /\
    forall p, holds_in what c p (V' x) = holds_in what c p (V x)) as He.
  { intros x Hx. unfold holds_in, holds. by destruct (HV x Hx) as [(-> & -> & ->)|[-> ->]]. }
  split.
  - rewrite H1. apply tally_ext. intros x Hx%elem_of_seqZ. symmetry. apply He. lia.
  - intros p Hp. rewrite H2 by done. f_equal. apply tally_ext. intros x Hx%elem_of_seqZ. symmetry. apply He. lia.
Qed.

Definition b2z (b : bool) : Z := if b then 1 else 0.

(** One line changes; [bump] makes up for it. *)
Lemma counts_bump what n V V' x c p d cores : 0 <= n < 2 ^ 31 -> 0 <= x < n ->
  counts_ok what n V cores -> (forall y, y <> x -> V' y = V y) ->
  (forall c', b2z (holds what c' (V' x)) = b2z (holds what c' (V x)) + if decide (c' = c) then d else 0) ->
  (forall c' p', b2z (holds_in what c' p' (V' x)) =
     b2z (holds_in what c' p' (V x)) + if decide (c' = c /\ p' = p) then d else 0) ->
  counts_ok what n V' (bump what c p d cores).
Proof.
  intros Hn Hx Hok HV H1 H2 c' rt' (rt & Hrt & ->)%bump_lookup. destruct (Hok c' rt Hrt) as [Hc Hp].
  assert (x ∈ seqZ 0 n) as Hin by (apply elem_of_seqZ; lia). pose proof (NoDup_seqZ 0 n) as Hnd.
  assert (forall P Q : Z -> bool, (forall y, y <> x -> Q y = P y) ->
    tally Q (seqZ 0 n) = tally P (seqZ 0 n) - b2z (P x) + b2z (Q x) /\ 0 <= tally Q (seqZ 0 n) < 2 ^ 31) as Ht.
  { intros P Q HPQ. rewrite (tally_update P Q _ x Hnd Hin) by auto. split; [done|].
    pose proof (tally_range Q (seqZ 0 n)) as Hr. rewrite length_seqZ in Hr.
    rewrite (tally_update P Q _ x Hnd Hin) in Hr by auto. lia. }
  specialize (H1 c'). destruct (Ht (fun y => holds what c' (V y)) (fun y => holds what c' (V' y))) as [E1 R1];
    [intros y Hy; by rewrite HV|].
  split.
  - destruct (decide (c' = c)) as [->|]; [|lia].
    transitivity (clines what (add_clines what d rt)); [by destruct what|]. rewrite clines_add, s32_small; lia.
  - intros q Hq. specialize (H2 c' q). destruct (Ht (fun y => holds_in what c' q (V y)) (fun y => holds_in what c' q (V' y))) as [E2 R2];
      [intros y Hy; by rewrite HV|]. specialize (Hp q Hq).
    destruct (decide (c' = c)) as [->|]; [simpl; rewrite part_counters_add|].
    + destruct (decide (q = p)) as [->|Hqp].
      * rewrite lookup_alter_eq. destruct (part_counters rt !! p) as [pc|]; [|done]. simpl in *. injection Hp as Hp.
        rewrite p_clines_add. f_equal. rewrite decide_True in H2 by done. rewrite s32_small; lia.
      * rewrite lookup_alter_ne, Hp by done. f_equal. rewrite decide_False in H2 by (intros [_ ?]; done). lia.
    + rewrite Hp. f_equal. rewrite decide_False in H2 by (intros [? _]; done). lia.
Qed.

(** A line of the core [c] in [p] gets its first such sector, or loses its last. *)
Lemma counts_gain what n V V' x c p cores : 0 <= n < 2 ^ 31 -> 0 <= x < n ->
  counts_ok what n V cores -> (forall y, y <> x -> V' y = V y) ->
  v_has what (V x) = false -> v_has what (V' x) = true -> v_owner (V' x) = Some c -> v_part (V' x) = p ->
  counts_ok what n V' (bump what c p 1 cores).
Proof.
  intros Hn Hx Hok HV H0 H1 Ho Hp. apply (counts_bump what n V V' x); [done..| |]; unfold holds_in, holds; rewrite H0, H1, Ho; simpl.
  - intros c'. destruct (decide (c' = c)) as [->|]; [by rewrite bool_decide_true|by rewrite bool_decide_false by congruence].
  - intros c' p'. rewrite Hp. destruct (decide (c' = c /\ p' = p)) as [[-> ->]|Hne].
    + by rewrite bool_decide_true, Z.eqb_refl.
    + case_bool_decide; [|done]. simpl. destruct (Z.eqb_spec p p'); [|done]. exfalso. apply Hne. split; congruence.
Qed.

Lemma counts_loss what n V V' x c p cores : 0 <= n < 2 ^ 31 -> 0 <= x < n ->
  counts_ok what n V cores -> (forall y, y <> x -> V' y = V y) ->
  v_has what (V x) = true -> v_has what (V' x) = false -> v_owner (V x) = Some c -> v_part (V x) = p ->
  counts_ok what n V' (bump what c p (-1) cores).
Proof.
  intros Hn Hx Hok HV H0 H1 Ho Hp. apply (counts_bump what n V V' x); [done..| |]; unfold holds_in, holds; rewrite H0, H1, Ho; simpl.
  - intros c'. destruct (decide (c' = c)) as [->|]; [by rewrite bool_decide_true|by rewrite bool_decide_false by congruence].
  - intros c' p'. rewrite Hp. destruct (decide (c' = c /\ p' = p)) as [[-> ->]|Hne].
    + by rewrite bool_decide_true, Z.eqb_refl.
    + case_bool_decide; [|done]. simpl. destruct (Z.eqb_spec p p'); [|done]. exfalso. apply Hne. split; congruence.
Qed.

(** Running [count]. *)
Lemma wp_upd_core c f Q s : is_Some (e_cores s !! c) -> Q tt (set_e_cores (alter f c) s) -> wp (upd_core c f) Q s.
Proof. intros [rt Hrt] HQ. unfold upd_core, rd_core. wp_step. wp_step. wp_step. eapply wp_lift; [done|]. by wp_step. Qed.

Lemma wp_upd_part c p f rt Q s : e_cores s !! c = Some rt -> is_Some (part_counters rt !! p) ->
  Q tt (set_e_cores (alter (set_part_counters (alter f p)) c) s) -> wp (upd_part c p f) Q s.
Proof.
  intros Hrt [pc Hpc] HQ. unfold upd_part, rd_core. wp_step. wp_step. wp_step. eapply wp_lift; [done|].
  wp_step. eapply wp_lift; [done|]. by wp_step.
Qed.

Lemma count_run what c p d rt Q s : e_cores s !! c = Some rt -> is_Some (part_counters rt !! p) ->
  Q tt (set_e_cores (bump what c p d) s) -> wp (count what c p d) Q s.
Proof.
  intros Hrt Hpc HQ. unfold count. wp_step. apply wp_upd_core; [by eexists|].
  eapply wp_upd_part; [simpl; by rewrite lookup_alter_eq, Hrt|by rewrite part_counters_add|]. exact HQ.
Qed.

Lemma counts_part what n V cores c rt p : counts_ok what n V cores -> cores !! c = Some rt ->
  0 <= p < OCF_USER_IO_CLASS_MAX -> is_Some (part_counters rt !! p).
Proof.
  intros Hok Hrt Hp. destruct (Hok c rt Hrt) as [_ H]. specialize (H p Hp).
  destruct (part_counters rt !! p); [by eexists|done].
Qed.

(** ** Status bits and lists *)

Section status.
Context (cfg : config) (w : Z).
Hypothesis Hw : word_bits cfg = Some w.
#[local] Abbreviation N := (collision_table_entries cfg).
#[local] Abbreviation inv := (cache_inv cfg w).

(** Some sector of the line has its bit set. *)
Definition has_bits (what : status_word) (s : cache) (x : Z) : bool :=
  match maps (c_meta s) !! x with Some m => negb (get_what what m =? 0) | None => false end.

Lemma view_has what s K x : v_has what (view s K x) = has_bits what s x.
Proof using. by destruct what. Qed.

Lemma sectors_same what b x a z s m' : sectors_updated w what b x a z s m' -> map_same s m'.
Proof using.
  intros (_ & Hi & Hh & m & word & Hm & Hmaps & _). split_and!; [|done|by rewrite Hi].
  intros y. rewrite Hmaps, lookup_insert. case_decide; [subst y|done]. rewrite Hm. by destruct what.
Qed.

(** What an update of the sectors [a .. z] of [x] does to the bits of the lines. *)
Lemma has_updated what b x a z s m' m : 0 <= a <= z -> z < w ->
  words_ok w (c_meta s) -> maps (c_meta s) !! x = Some m -> sectors_updated w what b x a z (c_meta s) m' ->
  (forall what' y, y <> x \/ what' <> what -> has_bits what' (set_c_meta m' s) y = has_bits what' s y) /\
  has_bits what (set_c_meta m' s) x = b || any_out w (get_what what m) a z.
Proof using Hw.
  intros Haz Hz Hok Hm (Hok' & _ & _ & m0 & word & Hm0 & Hmaps & Hbits). rewrite Hm in Hm0. injection Hm0 as <-. split.
  - intros what' y Hy. unfold has_bits. simpl. rewrite Hmaps, lookup_insert. case_decide; [subst y|done].
    rewrite Hm. destruct Hy as [|Hne]; [done|]. by destruct what, what'.
  - assert (maps m' !! x = Some (set_what what word m)) as Hx by (by rewrite Hmaps, lookup_insert_eq).
    unfold has_bits. simpl. rewrite Hx. replace (get_what what (set_what what word m)) with word by (by destruct what).
    pose proof (word_pos cfg w Hw). rewrite (word_nonzero w word).
    + by apply (any_updated w a z m Haz Hz what b word).
    + replace word with (get_what what (set_what what word m)) by (by destruct what). by eapply words_ok_get.
    + lia.
Qed.

(** The parts of the invariant that only look at the status bits through
    [is_dirty]. *)
Lemma cache_inv_meta s m' L : inv s L -> words_ok w m' ->
  (forall x, is_Some (maps m' !! x) <-> is_Some (maps (c_meta s) !! x)) ->
  (forall x, partition_id <$> infos m' !! x = partition_id <$> infos (c_meta s) !! x) ->
  (forall x, is_dirty (set_c_meta m' s) x = is_dirty s x) -> inv (set_c_meta m' s) L.
Proof using.
  intros [H1 H2 H3 H4 H5 H6 H7] Hok Hdom Hinf Hd.
  assert (forall x, part_of (set_c_meta m' s) x = part_of s x) as Hp by (intros x; unfold part_of; simpl; by rewrite Hinf).
  split; try done.
  - intros x Hx. simpl. rewrite Hdom. destruct (H3 x Hx) as [? Hi]. split; [done|].
    apply (fmap_is_Some partition_id). rewrite Hinf. by apply fmap_is_Some.
  - intros x Hx. rewrite Hp. by apply H5.
  - intros x Hx. unfold home. rewrite Hp, Hd. by apply H6.
  - intros p Hpp. simpl. rewrite (H7 p Hpp). f_equal. apply tally_ext. intros x _. by rewrite Hp.
Qed.

(** Changing the mapping leaves the placement alone. *)
Lemma coll_words s m' : words_ok w s -> coll_frame s m' -> words_ok w m'.
Proof using.
  intros Hok [Hm _] y m Hy. specialize (Hm y). rewrite Hy in Hm. destruct (maps s !! y) as [m0|] eqn:H0; [|done].
  simpl in Hm. injection Hm as -> ->. by eapply Hok.
Qed.

Lemma coll_bits what s m' y : coll_frame (c_meta s) m' -> has_bits what (set_c_meta m' s) y = has_bits what s y.
Proof using.
  intros [Hm _]. specialize (Hm y). unfold has_bits. simpl. destruct (maps m' !! y), (maps (c_meta s) !! y); try done.
  simpl in Hm. injection Hm as Hv Hd. destruct what; simpl; congruence.
Qed.

Lemma coll_place s m' L : inv s L -> coll_frame (c_meta s) m' -> inv (set_c_meta m' s) L.
Proof using.
  intros Hi Hf. pose proof Hf as [Hm Hp]. apply cache_inv_meta; [done|eapply coll_words; [apply (ci_words _ _ _ _ Hi)|done]| |done|].
  - intros x. specialize (Hm x). rewrite <- (fmap_is_Some (fun m => (valid m, dirty m)) (maps m' !! x)), Hm. apply fmap_is_Some.
  - intros x. by apply (coll_bits Dirty).
Qed.

Lemma sectors_dom what b x a z s m' y : sectors_updated w what b x a z s m' -> is_Some (maps m' !! y) <-> is_Some (maps s !! y).
Proof using.
  intros (_ & _ & _ & m & word & Hm & Hmaps & _). rewrite Hmaps, lookup_insert. case_decide; [subst y|done].
  rewrite Hm. split; by eexists.
Qed.

Lemma sectors_infos what b x a z s m' : sectors_updated w what b x a z s m' -> infos m' = infos s.
Proof using. intros (_ & Hi & _). done. Qed.

Lemma sectors_words what b x a z s m' : sectors_updated w what b x a z s m' -> words_ok w m'.
Proof using. intros (H & _). done. Qed.

(** When no line becomes dirty or clean, the lists stay right. *)
Lemma status_inv s L what b x a z m' : inv s L -> sectors_updated w what b x a z (c_meta s) m' ->
  (forall y, is_dirty (set_c_meta m' s) y = is_dirty s y) -> inv (set_c_meta m' s) L.
Proof using.
  intros Hi Hu Hd. apply cache_inv_meta; [done|by eapply sectors_words| | |done].
  - intros y. by eapply sectors_dom.
  - intros y. by rewrite (sectors_infos _ _ _ _ _ _ _ Hu).
Qed.

Lemma move_run s r1 r2 x (Q : unit -> cache -> Prop) : wp (ocf_lru_move x r1 r2) (fun _ t => Q tt (set_c_lru t s)) (c_lru s) ->
  wp (on_lru (remove_lru_list r1 x);; on_lru (add_lru_head r2 x)) Q s.
Proof using.
  unfold wp, ocf_lru_move, on_lru, zoom, mbind, M_bind. intros ([] & t & H & HQ).
  destruct (remove_lru_list r1 x (c_lru s)) as [[[] t1]|]; [|done]. exists tt, (set_c_lru t s). split; [|done].
  simpl. by rewrite H.
Qed.

(** A line of a user partition that changed between clean and dirty goes to its
    other list. *)
Lemma status_moved s L what b x a z m' : inv s L -> sectors_updated w what b x a z (c_meta s) m' ->
  0 <= x < N -> (forall y, y <> x -> is_dirty (set_c_meta m' s) y = is_dirty s y) ->
  wp (on_lru (remove_lru_list (home s x) x);; on_lru (add_lru_head (home (set_c_meta m' s) x) x))
    (fun _ s' => c_meta s' = m' /\ c_alock s' = c_alock s /\ c_sems s' = c_sems s /\ exists L', inv s' L') (set_c_meta m' s).
Proof using.
  intros Hi Hu Hx Hd. set (s1 := set_c_meta m' s). pose proof Hi as [H1 H2 H3 H4 H5 H6 H7].
  assert (forall y, part_of s1 y = part_of s y) as Hp by (intros y; unfold part_of; simpl; by rewrite (sectors_infos _ _ _ _ _ _ _ Hu)).
  assert (is_Some (L !! home s1 x)) as Hh1.
  { unfold home. apply H2; [rewrite Hp; by apply H5|apply Z.mod_pos_bound; done]. }
  apply move_run. eapply wp_mono; [eapply ocf_lru_move_inv; [exact H1|by apply H6|exact Hh1]|].
  intros [] t Ht. split_and!; [done..|]. exists (spec_move x (home s x) (home s1 x) L). split; try done.
  - intros p i c Hpp Hr. rewrite spec_move_dom. by apply H2.
  - intros y Hy. simpl. rewrite (sectors_dom _ _ _ _ _ _ _ y Hu), (sectors_infos _ _ _ _ _ _ _ Hu). by apply H3.
  - by eapply sectors_words.
  - intros y Hy. change (part_ok (part_of s1 y)). rewrite Hp. by apply H5.
  - intros y Hy. change (home (set_c_lru t s1) y) with (home s1 y). destruct (decide (y = x)) as [->|Hne].
    + by apply on_list_moved.
    + apply on_list_move; [|done]. unfold home. fold s1 in Hd. rewrite Hp, Hd by done. by apply H6.
  - intros p Hpp. simpl. rewrite (H7 p Hpp). f_equal. apply tally_ext. intros y _. by rewrite <- Hp.
Qed.
End status.

(** ** The state of the engine *)

(** A mapped line belongs to a core and is in a user partition; an unmapped line
    is free and has no valid and no dirty sector. *)
Definition line_ok (cores : gmap Z core_runtime) (v : line_view) : Prop :=
  match v_owner v with
  | Some c => is_Some (cores !! c) /\ 0 <= c < OCF_CORE_MAX /\ 0 <= v_part v < OCF_USER_IO_CLASS_MAX
  | None => v_part v = PARTITION_FREELIST /\ v_valid v = false /\ v_dirty v = false
  end.

(** The placement, the mapping [K], the locks [A] and the statistics agree. *)
Record eng_inv (cfg : config) (w le : Z) (s : engine) (K : gmap Z (Z * Z)) (A : lock_abs) : Prop := {
  en_place : exists L, cache_inv cfg w (e_cache s) L;
  en_map : mapping_ok cfg (c_meta (e_cache s)) K;
  en_locks : locks_ok cfg le (e_cache s) A;
  en_counts what : counts_ok what (collision_table_entries cfg) (view (e_cache s) K) (e_cores s);
  en_lines x : 0 <= x < collision_table_entries cfg -> line_ok (e_cores s) (view (e_cache s) K x);
  en_safe : status_safe cfg (c_meta (e_cache s));
}.

(** The time stamps do not count. *)
Definition same_counts (cores cores' : gmap Z core_runtime) : Prop :=
  forall c, (fun rt => (cached_clines rt, dirty_clines rt, part_counters rt)) <$> cores' !! c =
            (fun rt => (cached_clines rt, dirty_clines rt, part_counters rt)) <$> cores !! c.

Lemma same_counts_ok what n V cores cores' : counts_ok what n V cores -> same_counts cores cores' -> counts_ok what n V cores'.
Proof.
  intros Hok Hs c rt' Hrt'. specialize (Hs c). rewrite Hrt' in Hs. destruct (cores !! c) as [rt|] eqn:Hrt; [|done].
  simpl in Hs. injection Hs as H1 H2 H3. destruct (Hok c rt Hrt) as [Ha Hb]. split.
  - rewrite <- Ha. destruct what; simpl; congruence.
  - intros p Hp. rewrite <- Hb by done. by rewrite H3.
Qed.

Lemma same_counts_dom cores cores' c : same_counts cores cores' -> is_Some (cores' !! c) <-> is_Some (cores !! c).
Proof.
  intros Hs. specialize (Hs c). rewrite <- (fmap_is_Some (fun rt => (cached_clines rt, dirty_clines rt, part_counters rt))).
  rewrite Hs. apply fmap_is_Some.
Qed.

Lemma same_counts_since c v cores : same_counts cores (alter (set_dirty_since v) c cores).
Proof.
  intros c'. destruct (decide (c' = c)) as [->|]; [|by rewrite lookup_alter_ne].
  rewrite lookup_alter_eq. by destruct (cores !! c).
Qed.

Lemma same_counts_refl cores : same_counts cores cores.
Proof. done. Qed.

Lemma same_counts_trans c1 c2 c3 : same_counts c1 c2 -> same_counts c2 c3 -> same_counts c1 c3.
Proof. intros H1 H2 c. by rewrite H2. Qed.

Lemma same_counts_bump what c p d cores cores' : same_counts cores cores' -> same_counts (bump what c p d cores) (bump what c p d cores').
Proof.
  intros Hs c'. specialize (Hs c'). unfold bump. destruct (decide (c' = c)) as [->|]; [|by rewrite !lookup_alter_ne].
  rewrite !lookup_alter_eq. destruct (cores !! c) as [rt|], (cores' !! c) as [rt'|]; try done.
  simpl in *. injection Hs as H1 H2 H3. destruct what; simpl; congruence.
Qed.

(** The cores after the sectors of a line changed. *)
Definition recount (what : status_word) (c p : Z) (before after : bool) (cores : gmap Z core_runtime) : gmap Z core_runtime :=
  match before, after with
  | false, true => bump what c p 1 cores
  | true, false => bump what c p (-1) cores
  | _, _ => cores
  end.

Lemma recount_dom what c p b1 b2 cores c' : is_Some (recount what c p b1 b2 cores !! c') <-> is_Some (cores !! c').
Proof. destruct b1, b2; simpl; rewrite ?bump_dom; done. Qed.

Section engine.
Context (cfg : config) (w le : Z) (raw : raw_type) (now : Z).
Hypothesis Hw : word_bits cfg = Some w.
#[local] Abbreviation N := (collision_table_entries cfg).
#[local] Abbreviation inv := (eng_inv cfg w le).

Lemma meta_run {A} (m : M meta_state A) Q s :
  wp m (fun r m' => Q r (set_e_cache (set_c_meta m' (e_cache s)) s)) (c_meta (e_cache s)) -> wp (on_cache (on_meta m)) Q s.
Proof using. intros H. unfold on_cache, on_meta. wp_step. by wp_step. Qed.

Lemma entries_range s K A : inv s K A -> 0 <= N < 2 ^ 31.
Proof using. intros [[L HL] _ _ _ _ _]. apply (inv_entries _ _ _ _ (ci_lru _ _ _ _ HL)). Qed.

Lemma mapped_line s K A x k : inv s K A -> K !! x = Some k -> 0 <= x < N.
Proof using. intros Hi Hk. destruct (en_map _ _ _ _ _ _ Hi) as [B HB]. by eapply mapped_range. Qed.

Lemma line_words s K A x : inv s K A -> 0 <= x < N -> words_ok w (c_meta (e_cache s)) /\ exists m, maps (c_meta (e_cache s)) !! x = Some m.
Proof using.
  intros [[L HL] _ _ _ _ _] Hx. split; [apply (ci_words _ _ _ _ HL)|]. by destruct (ci_meta _ _ _ _ HL x Hx) as [[m Hm] _]; exists m.
Qed.

Lemma mapped_core s K A x c cl : inv s K A -> K !! x = Some (c, cl) ->
  0 <= c < OCF_CORE_MAX /\ 0 <= part_of (e_cache s) x < OCF_USER_IO_CLASS_MAX /\
  exists rt, e_cores s !! c = Some rt /\ forall p, 0 <= p < OCF_USER_IO_CLASS_MAX -> is_Some (part_counters rt !! p).
Proof using.
  intros Hi Hk. pose proof (en_lines _ _ _ _ _ _ Hi x (mapped_line _ _ _ _ _ Hi Hk)) as Hl.
  unfold line_ok, view in Hl. rewrite Hk in Hl. simpl in Hl. destruct Hl as ([rt Hrt] & Hc & Hp). split_and!; [lia|lia|lia|lia|].
  exists rt. split; [done|]. intros p Hpp. by eapply (counts_part Valid), Hpp; [apply (en_counts _ _ _ _ _ _ Hi)|].
Qed.

Lemma part_run s K A x Q : inv s K A -> 0 <= x < N -> Q (part_of (e_cache s) x) s ->
  wp (on_cache (on_meta (ocf_metadata_get_partition_id x))) Q s.
Proof using Hw.
  intros [[L HL] _ _ _ _ _] Hx HQ. unfold on_cache. wp_step. eapply get_part_run; [done..|].
  by replace (set_e_cache (e_cache s) s) with s by (by destruct s).
Qed.

(** Waiters of a line. *)
Definition has_waiters (A : lock_abs) (x : Z) : bool := match A !! x with Some (_, _ :: _) => true | _ => false end.

Lemma waiters_run s K A x Q : inv s K A -> 0 <= x < N -> Q (has_waiters A x) s ->
  wp (on_cache (on_alock (ocf_cache_line_are_waiters le x))) Q s.
Proof using.
  intros [_ _ [HA HN] _ _ _] Hx HQ. destruct (proj2 (ai_range _ _ _ HA x)) as [[a q] Ha]; [lia|].
  destruct (ai_entry _ _ _ HA _ _ _ Ha) as (_ & _ & l & Hl & Hq). unfold has_waiters in HQ. rewrite Ha in HQ.
  unfold on_cache. wp_step. unfold on_alock. wp_step. unfold ocf_cache_line_are_waiters. wp_step.
  unfold ocf_alock_waitlist_is_empty. wp_step. wp_step. wp_step. wp_step; [rewrite HN; lia|].
  eapply is_empty_run; [exact Hl|]. wp_step. rewrite Hq.
  replace (set_e_cache _ s) with s by (destruct s as [[]]; done).
  by destruct q.
Qed.

(** What a change of the status bits of a mapped line does to the invariant, once
    the lists and the counters follow. *)
Lemma status_engine s s' K A what b x a z c cl m :
  inv s K A -> K !! x = Some (c, cl) -> maps (c_meta (e_cache s)) !! x = Some m -> 0 <= a <= z -> z < w ->
  may_update what b m a z = true ->
  sectors_updated w what b x a z (c_meta (e_cache s)) (c_meta (e_cache s')) ->
  (exists L, cache_inv cfg w (e_cache s') L) -> c_alock (e_cache s') = c_alock (e_cache s) ->
  same_counts (recount what c (part_of (e_cache s) x) (has_bits what (e_cache s) x)
    (b || any_out w (get_what what m) a z) (e_cores s)) (e_cores s') ->
  inv s' K A.
Proof using Hw.
  intros Hi Hk Hm Haz Hz Hmay Hu HL Hal Hc. pose proof (mapped_line _ _ _ _ _ Hi Hk) as Hx.
  destruct (line_words _ _ _ x Hi Hx) as [Hok _]. pose proof (entries_range _ _ _ Hi) as HN.
  pose proof (has_updated cfg w Hw what b x a z (e_cache s) _ m Haz Hz Hok Hm Hu) as [Hother Hnew].
  set (c1 := set_c_meta (c_meta (e_cache s')) (e_cache s)) in *.
  assert (forall what y, has_bits what (e_cache s') y = has_bits what c1 y) as Hb' by done.
  assert (forall y, part_of (e_cache s') y = part_of (e_cache s) y) as Hp'.
  { intros y. unfold part_of. by rewrite (sectors_infos w _ _ _ _ _ _ _ Hu). }
  assert (forall y, y <> x -> view (e_cache s') K y = view (e_cache s) K y) as HV.
  { intros y Hy. unfold view. rewrite Hp'. f_equal.
    - change (has_bits Valid (e_cache s') y = has_bits Valid (e_cache s) y). rewrite Hb'. apply Hother. by left.
    - change (has_bits Dirty (e_cache s') y = has_bits Dirty (e_cache s) y). rewrite Hb'. apply Hother. by left. }
  assert (forall c', is_Some (e_cores s' !! c') <-> is_Some (e_cores s !! c')) as Hdom.
  { intros c'. by rewrite (same_counts_dom _ _ _ Hc), recount_dom. }
  split.
  - done.
  - eapply mapping_ok_same; [apply (en_map _ _ _ _ _ _ Hi)|by eapply sectors_same].
  - destruct (en_locks _ _ _ _ _ _ Hi) as [H1 H2]. split; by rewrite Hal.
  - intros what'. eapply same_counts_ok; [|exact Hc]. pose proof (en_counts _ _ _ _ _ _ Hi what') as Hcnt.
    assert (v_owner (view (e_cache s') K x) = Some c /\ v_owner (view (e_cache s) K x) = Some c) as [Ho' Ho] by (simpl; by rewrite Hk).
    assert (forall y, (y = x -> v_has what' (view (e_cache s') K x) = v_has what' (view (e_cache s) K x)) ->
      same_for what' (view (e_cache s') K y) (view (e_cache s) K y)) as Hsame.
    { intros y Hy. destruct (decide (y = x)) as [->|Hyx]; [|by rewrite HV]. split_and!; [by apply Hy|done|simpl; by rewrite Hp']. }
    destruct (decide (what' = what)) as [->|Hne].
    + assert (v_has what (view (e_cache s') K x) = b || any_out w (get_what what m) a z) as Hn by (by rewrite view_has, Hb').
      pose proof (view_has what (e_cache s) K x) as Hold. revert Hn Hold.
      destruct (has_bits what (e_cache s) x), (b || any_out w (get_what what m) a z); simpl; intros Hn Hold.
      * eapply counts_ext; [exact Hcnt|]. intros y Hy. left. apply Hsame. intros ->. congruence.
      * by eapply (counts_loss what N (view (e_cache s) K) _ x).
      * eapply (counts_gain what N (view (e_cache s) K) _ x); try done. simpl. by rewrite Hp'.
      * eapply counts_ext; [exact Hcnt|]. intros y Hy. destruct (decide (y = x)) as [->|]; [by right|left; by rewrite HV].
    + assert (counts_ok what' N (view (e_cache s') K) (e_cores s)) as Hsame'.
      { eapply counts_ext; [exact Hcnt|]. intros y Hy. left. apply Hsame. intros ->.
        rewrite !view_has, Hb'. apply Hother. by right. }
      destruct (has_bits what (e_cache s) x), (b || any_out w (get_what what m) a z); simpl; try done; by apply counts_bump_other.
  - intros y Hy. destruct (decide (y = x)) as [->|Hne].
    + pose proof (en_lines _ _ _ _ _ _ Hi x Hx) as Hl. unfold line_ok, view in *. rewrite Hk in *. simpl in *.
      rewrite Hdom, Hp'. done.
    + rewrite HV by done. pose proof (en_lines _ _ _ _ _ _ Hi y Hy) as Hl. unfold line_ok in *.
      destruct (v_owner _); [|done]. by rewrite Hdom.
  - eapply sectors_updated_safe; [done|exact Hok|exact Hm|apply (en_safe _ _ _ _ _ _ Hi)|exact Hmay|exact Hu].
Qed.

(** ** The operations on one line *)

(** The sector [i] of the line [y]. *)
Definition sector (what : status_word) (s : engine) (y i : Z) : bool :=
  match maps (c_meta (e_cache s)) !! y with Some m => Z.testbit (get_what what m) i | None => false end.

(** The sectors [a .. z] of the line [x] were all set or cleared, no others. *)
Definition touched (what : status_word) (b : bool) (x a z : Z) (s s' : engine) : Prop :=
  forall what' y i, 0 <= i -> is_Some (maps (c_meta (e_cache s)) !! y) ->
    sector what' s' y i = if bool_decide (what' = what /\ y = x /\ a <= i <= z) then b else sector what' s y i.

Lemma touched_sectors what b x a z s s' : sectors_updated w what b x a z (c_meta (e_cache s)) (c_meta (e_cache s')) ->
  touched what b x a z s s'.
Proof using.
  intros (_ & _ & _ & m & word & Hm & Hmaps & Hbits) what' y i Hi Hy. unfold sector. rewrite Hmaps, lookup_insert.
  case_decide as Hyx; [subst y|].
  - rewrite Hm. destruct (decide (what' = what)) as [->|Hne].
    + replace (get_what what (set_what what word m)) with word by (by destruct what). rewrite Hbits by done.
      apply bool_decide_ext || idtac. repeat case_bool_decide; try done; tauto.
    + rewrite bool_decide_eq_false_2 by (by intros [? _]). by destruct what, what'.
  - rewrite bool_decide_eq_false_2 by (by intros (_ & -> & _)). done.
Qed.

(** The status words are unchanged. *)
Definition status_same (s s' : meta_state) : Prop :=
  forall y, (fun m => (valid m, dirty m)) <$> maps s' !! y = (fun m => (valid m, dirty m)) <$> maps s !! y.

Lemma touched_same what b x a z s s' s2 : touched what b x a z s s' -> status_same (c_meta (e_cache s')) (c_meta (e_cache s2)) ->
  touched what b x a z s s2.
Proof using.
  intros Ht Hf what' y i Hi Hy. rewrite <- (Ht what' y i Hi Hy). unfold sector. specialize (Hf y).
  destruct (maps (c_meta (e_cache s2)) !! y), (maps (c_meta (e_cache s')) !! y); try done.
  simpl in Hf. injection Hf as H1 H2. destruct what'; simpl; congruence.
Qed.

(** What holds after an operation on the sectors of a line. *)
Definition op_post (s : engine) (K : gmap Z (Z * Z)) (A : lock_abs) (what : status_word) (b : bool) (x a z : Z) (s' : engine) : Prop :=
  inv s' K A /\ req_same (e_req s) (e_req s') /\ touched what b x a z s s'.

Lemma line_run s i e Q : entry_of (e_req s) i = Some e -> Q (coll_idx e) s -> wp (req_line i) Q s.
Proof using.
  intros He HQ. unfold req_line, on_req. wp_step. wp_step. eapply wp_req_entry; [done|]. wp_step. by destruct s.
Qed.

Lemma mark_run s i st a z (Q : unit -> engine -> Prop) : is_Some (entry_of (e_req s) i) ->
  (forall r', req_same (e_req s) r' -> Q tt (set_e_req r' s)) -> wp (on_req (ocf_metadata_flush_mark raw i st a z)) Q s.
Proof using. intros He HQ. unfold on_req. wp_step. eapply wp_mono; [by apply flush_mark_run|]. intros [] r' Hr. by apply HQ. Qed.

(** The sectors of a line outside and inside a range. *)
Lemma any_split word a z : 0 <= a <= z -> z < w -> any_sector word 0 (w - 1) = any_out w word a z || any_sector word a z.
Proof using.
  intros Haz Hz. apply eq_true_iff_eq. rewrite orb_true_iff, !any_sector_true, any_out_true. split.
  - intros (i & Hi & Hb). destruct (decide (a <= i <= z)); [right|left]; exists i; split_and!; try done; lia.
  - intros [(i & Hi & _ & Hb)|(i & Hi & Hb)]; exists i; (split; [lia|done]).
Qed.

Lemma has_any s K A x m what : inv s K A -> 0 <= x < N -> maps (c_meta (e_cache s)) !! x = Some m ->
  has_bits what (e_cache s) x = any_sector (get_what what m) 0 (w - 1).
Proof using Hw.
  intros Hi Hx Hm. destruct (line_words _ _ _ x Hi Hx) as [Hok _]. unfold has_bits. rewrite Hm.
  apply word_nonzero; [by eapply words_ok_get|]. pose proof (word_pos cfg w Hw). lia.
Qed.

Lemma set_meta_twice m m' (c : cache) : set_c_meta m' (set_c_meta m c) = set_c_meta m' c.
Proof using. done. Qed.

(** When the line stays clean or dirty, its list is right already. *)
Lemma place_kept s K A what b x a z m' m : inv s K A -> 0 <= x < N -> maps (c_meta (e_cache s)) !! x = Some m ->
  0 <= a <= z -> z < w -> sectors_updated w what b x a z (c_meta (e_cache s)) m' ->
  (what = Dirty -> b || any_out w (get_what what m) a z = has_bits what (e_cache s) x) ->
  exists L, cache_inv cfg w (set_c_meta m' (e_cache s)) L.
Proof using Hw.
  intros Hi Hx Hm Haz Hz Hu Hd. destruct (line_words _ _ _ x Hi Hx) as [Hok _]. destruct (en_place _ _ _ _ _ _ Hi) as [L HL].
  destruct (has_updated cfg w Hw what b x a z (e_cache s) m' m Haz Hz Hok Hm Hu) as [Hother Hnew].
  exists L. eapply status_inv; [done|exact Hu|]. intros y. change (has_bits Dirty (set_c_meta m' (e_cache s)) y = has_bits Dirty (e_cache s) y).
  destruct (decide (y = x /\ what = Dirty)) as [[-> ->]|Hne].
  - rewrite Hnew. by apply Hd.
  - apply Hother. destruct (decide (y = x)) as [->|]; [|by left]. right. intros <-. by apply Hne.
Qed.

Lemma set_valid_spec s K A i e x a z cl m :
  inv s K A -> entry_of (e_req s) i = Some e -> coll_idx e = x -> K !! x = Some (core (e_req s), cl) ->
  maps (c_meta (e_cache s)) !! x = Some m -> 0 <= a <= z -> z < w ->
  wp (set_cache_line_valid cfg a z i) (fun _ s' => op_post s K A Valid true x a z s') s.
Proof using Hw.
  intros Hi He Hx Hk Hm Haz Hz. pose proof (mapped_line _ _ _ _ _ Hi Hk) as Hxr. destruct (line_words _ _ _ x Hi Hxr) as [Hok _].
  destruct (mapped_core _ _ _ _ _ _ Hi Hk) as (Hc & Hp & rt & Hrt & Hpc).
  unfold set_cache_line_valid. wp_step. eapply line_run; [done|]. rewrite Hx. wp_step. eapply part_run; [done..|].
  wp_step. apply meta_run. eapply wp_mono; [by eapply set_valid_changed_spec|]. intros r m' [-> Hu].
  pose proof (has_any s K A x m Valid Hi Hxr Hm) as Hany. simpl in Hany. rewrite <- Hany.
  destruct (place_kept s K A Valid true x a z m' m Hi Hxr Hm Haz Hz Hu ltac:(done)) as [L HL].
  assert (forall s', set_c_meta m' (e_cache s) = e_cache s' -> e_req s' = e_req s ->
    same_counts (recount Valid (core (e_req s)) (part_of (e_cache s) x) (has_bits Valid (e_cache s) x) true (e_cores s)) (e_cores s') ->
    op_post s K A Valid true x a z s') as Hend.
  { intros s' Hc' Hr' Hs'. assert (sectors_updated w Valid true x a z (c_meta (e_cache s)) (c_meta (e_cache s'))) as Hu' by (by rewrite <- Hc').
    split_and!; [|by rewrite Hr'|by apply touched_sectors].
    eapply (status_engine s s' K A Valid true x a z); try done; rewrite <- Hc'; [by exists L|done]. }
  destruct (has_bits Valid (e_cache s) x); cbn [negb].
  - wp_step. by apply Hend.
  - wp_step. unfold the_req. wp_step. eapply count_run; [exact Hrt|by apply Hpc|]. by apply Hend.
Qed.

(** Counting a dirty line in or out keeps the time stamp as well. *)
Lemma count_clean_run s c p rt (Q : unit -> engine -> Prop) : e_cores s !! c = Some rt -> is_Some (part_counters rt !! p) ->
  (forall f, same_counts (bump Dirty c p (-1) (e_cores s)) (f (e_cores s)) -> Q tt (set_e_cores f s)) ->
  wp (count_clean c p) Q s.
Proof using.
  intros Hrt Hpc HQ. unfold count_clean. wp_step. apply wp_upd_core; [by eexists|].
  wp_step. unfold rd_core at 1. wp_step. wp_step. eapply wp_lift; [simpl; by rewrite lookup_alter_eq, Hrt|]. wp_step.
  destruct (dirty_clines _ =? 0).
  - apply wp_upd_core; [simpl; rewrite !is_Some_alter; by eexists|].
    eapply wp_upd_part; [simpl; by rewrite !lookup_alter_eq, Hrt|done|].
    apply (HQ (fun m => alter _ c (alter (set_dirty_since 0) c (alter (add_clines Dirty (-1)) c m)))).
    intros c'. unfold bump. destruct (decide (c' = c)) as [->|]; [|by rewrite !lookup_alter_ne].
    by rewrite !lookup_alter_eq, Hrt.
  - wp_step. eapply wp_upd_part; [simpl; by rewrite !lookup_alter_eq, Hrt|done|].
    apply (HQ (fun m => alter _ c (alter (add_clines Dirty (-1)) c m))). done.
Qed.

Lemma count_dirty_run s c p rt (Q : unit -> engine -> Prop) : e_cores s !! c = Some rt -> is_Some (part_counters rt !! p) ->
  (forall f, same_counts (bump Dirty c p 1 (e_cores s)) (f (e_cores s)) -> Q tt (set_e_cores f s)) ->
  wp (count_dirty now c p) Q s.
Proof using.
  intros Hrt Hpc HQ. unfold count_dirty. wp_step. unfold rd_core at 1. wp_step. wp_step. eapply wp_lift; [done|]. wp_step.
  destruct (dirty_since rt =? 0).
  - apply wp_upd_core; [by eexists|]. eapply count_run; [simpl; by rewrite lookup_alter_eq, Hrt|done|].
    apply (HQ (fun m => bump Dirty c p 1 (alter (set_dirty_since now) c m))).
    apply same_counts_bump, same_counts_since.
  - wp_step. eapply count_run; [done..|]. by apply (HQ (bump Dirty c p 1)).
Qed.

(** A line that changed between clean and dirty, with its list. *)
Lemma dirty_lists s K A x c cl b a z m' m (src dst : bool) : inv s K A -> K !! x = Some (c, cl) ->
  maps (c_meta (e_cache s)) !! x = Some m -> 0 <= a <= z -> z < w ->
  sectors_updated w Dirty b x a z (c_meta (e_cache s)) m' ->
  is_dirty (e_cache s) x = negb src -> b || any_out w (dirty m) a z = negb dst ->
  wp (on_lru (remove_lru_list (ocf_lru_get_list (part_of (e_cache s) x) (x `mod` OCF_NUM_LRU_LISTS) src) x);;
      on_lru (add_lru_head (ocf_lru_get_list (part_of (e_cache s) x) (x `mod` OCF_NUM_LRU_LISTS) dst) x))
    (fun _ c' => c_meta c' = m' /\ c_alock c' = c_alock (e_cache s) /\ exists L, cache_inv cfg w c' L) (set_c_meta m' (e_cache s)).
Proof using Hw.
  intros Hi Hk Hm Haz Hz Hu Hsrc Hdst. pose proof (mapped_line _ _ _ _ _ Hi Hk) as Hx.
  destruct (line_words _ _ _ x Hi Hx) as [Hok _]. destruct (en_place _ _ _ _ _ _ Hi) as [L HL].
  destruct (has_updated cfg w Hw Dirty b x a z (e_cache s) m' m Haz Hz Hok Hm Hu) as [Hother Hnew].
  simpl in Hnew. rewrite Hdst in Hnew. change (is_dirty (set_c_meta m' (e_cache s)) x = negb dst) in Hnew.
  assert (home (e_cache s) x = ocf_lru_get_list (part_of (e_cache s) x) (x `mod` OCF_NUM_LRU_LISTS) src) as <-.
  { unfold home. by rewrite Hsrc, negb_involutive. }
  assert (home (set_c_meta m' (e_cache s)) x = ocf_lru_get_list (part_of (e_cache s) x) (x `mod` OCF_NUM_LRU_LISTS) dst) as <-.
  { unfold home. rewrite Hnew, negb_involutive. f_equal. unfold part_of. simpl. by rewrite (sectors_infos w _ _ _ _ _ _ _ Hu). }
  eapply wp_mono; [apply (status_moved cfg w (e_cache s) L Dirty b x a z m' HL Hu Hx)|].
  - intros y Hy. apply (Hother Dirty). by left.
  - intros [] c' (H1 & H2 & _ & H3). done.
Qed.

Lemma user_part_run s p Q : p <= OCF_USER_IO_CLASS_MAX -> Q p s -> wp (on_cache (user_part p)) Q s.
Proof using.
  intros Hp HQ. unfold on_cache. wp_step. unfold user_part. wp_step. wp_step; [apply Z.ltb_ge; lia|]. wp_step. by destruct s.
Qed.

Lemma set_clean_spec s K A i e x a z cl m :
  inv s K A -> entry_of (e_req s) i = Some e -> coll_idx e = x -> K !! x = Some (core (e_req s), cl) ->
  maps (c_meta (e_cache s)) !! x = Some m -> 0 <= a <= z -> z < w ->
  wp (set_cache_line_clean cfg raw a z i) (fun _ s' => op_post s K A Dirty false x a z s') s.
Proof using Hw.
  intros Hi He Hx Hk Hm Haz Hz. pose proof (mapped_line _ _ _ _ _ Hi Hk) as Hxr. destruct (line_words _ _ _ x Hi Hxr) as [Hok _].
  destruct (mapped_core _ _ _ _ _ _ Hi Hk) as (Hc & Hp & rt & Hrt & Hpc).
  unfold set_cache_line_clean. wp_step. eapply line_run; [done|]. rewrite Hx. wp_step. eapply part_run; [done..|].
  wp_step. wp_step; [apply Z.ltb_ge; lia|]. wp_step. eapply user_part_run; [lia|].
  wp_step. apply meta_run. eapply wp_mono; [by eapply clear_dirty_changed_spec|]. intros r m' [-> Hu]. cbv beta.
  pose proof (has_any s K A x m Dirty Hi Hxr Hm) as Hany. simpl in Hany. rewrite (any_split _ a z Haz Hz) in Hany.
  assert (forall s' , c_meta (e_cache s') = m' -> req_same (e_req s) (e_req s') -> c_alock (e_cache s') = c_alock (e_cache s) ->
    (exists L, cache_inv cfg w (e_cache s') L) ->
    same_counts (recount Dirty (core (e_req s)) (part_of (e_cache s) x) (has_bits Dirty (e_cache s) x)
      (any_out w (dirty m) a z) (e_cores s)) (e_cores s') ->
    op_post s K A Dirty false x a z s') as Hend.
  { intros s' Hc' Hr' Ha' HL' Hs'. assert (sectors_updated w Dirty false x a z (c_meta (e_cache s)) (c_meta (e_cache s'))) as Hu' by (by rewrite Hc').
    split_and!; [by eapply (status_engine s s' K A Dirty false x a z)|done|by apply touched_sectors]. }
  rewrite Hany in Hend. destruct (any_sector (dirty m) a z) eqn:Hch, (any_out w (dirty m) a z) eqn:Hout; cbn [negb orb] in *.
  - wp_step. apply mark_run; [by eexists|]. intros r' Hr'. wp_step. apply Hend; [done..|simpl|done].
    eapply (place_kept s K A Dirty false x a z m' m); try done. intros _. simpl. by rewrite Hout, Hany.
  - wp_step. apply mark_run; [by eexists|]. intros r' Hr'. wp_step. unfold the_req. wp_step.
    cbn [e_req set_e_req]. rewrite (proj1 (proj2 (req_same_fields _ _ Hr'))). wp_step.
    eapply count_clean_run; [done|by apply Hpc|]. intros f Hf. wp_step. unfold on_cache. wp_step.
    eapply wp_mono; [apply (dirty_lists s K A x (core (e_req s)) cl false a z m' m false true); done|].
    intros [] c' (H1 & H2 & H3). unfold ocf_purge_cleaning_policy. wp_step. by apply Hend.
  - wp_step. apply Hend; [done..|simpl|done].
    eapply (place_kept s K A Dirty false x a z m' m); try done. intros _. simpl. by rewrite Hout, Hany.
  - wp_step. apply Hend; [done..|simpl|done].
    eapply (place_kept s K A Dirty false x a z m' m); try done. intros _. simpl. by rewrite Hout, Hany.
Qed.

Lemma set_dirty_spec s K A i e x a z cl m :
  inv s K A -> entry_of (e_req s) i = Some e -> coll_idx e = x -> K !! x = Some (core (e_req s), cl) ->
  maps (c_meta (e_cache s)) !! x = Some m -> 0 <= a <= z -> z < w -> all_sectors (valid m) a z = true ->
  wp (set_cache_line_dirty cfg raw now a z i) (fun _ s' => op_post s K A Dirty true x a z s') s.
Proof using Hw.
  intros Hi He Hx Hk Hm Haz Hz Hv. pose proof (mapped_line _ _ _ _ _ Hi Hk) as Hxr. destruct (line_words _ _ _ x Hi Hxr) as [Hok _].
  destruct (mapped_core _ _ _ _ _ _ Hi Hk) as (Hc & Hp & rt & Hrt & Hpc).
  unfold set_cache_line_dirty. wp_step. eapply line_run; [done|]. rewrite Hx. wp_step. eapply part_run; [done..|].
  wp_step. wp_step; [apply Z.ltb_ge; lia|]. wp_step. eapply user_part_run; [lia|].
  wp_step. apply meta_run. eapply wp_mono; [by eapply set_dirty_changed_spec|]. intros r m' [-> Hu]. cbv beta.
  pose proof (has_any s K A x m Dirty Hi Hxr Hm) as Hany. simpl in Hany. rewrite <- Hany.
  assert (forall s' , c_meta (e_cache s') = m' -> req_same (e_req s) (e_req s') -> c_alock (e_cache s') = c_alock (e_cache s) ->
    (exists L, cache_inv cfg w (e_cache s') L) ->
    same_counts (recount Dirty (core (e_req s)) (part_of (e_cache s) x) (has_bits Dirty (e_cache s) x) true (e_cores s)) (e_cores s') ->
    wp (ocf_cleaning_set_hot_cache_line x) (fun _ s' => op_post s K A Dirty true x a z s') s') as Hend.
  { intros s' Hc' Hr' Ha' HL' Hs'. unfold ocf_cleaning_set_hot_cache_line. wp_step.
    assert (sectors_updated w Dirty true x a z (c_meta (e_cache s)) (c_meta (e_cache s'))) as Hu' by (by rewrite Hc').
    split_and!; [by eapply (status_engine s _ K A Dirty true x a z)|done|by apply touched_sectors]. }
  destruct (has_bits Dirty (e_cache s) x) eqn:Hb.
  - wp_step. destruct (negb (all_sectors (dirty m) a z)); cbn [negb]; [wp_step; apply mark_run; [by eexists|]; intros r' Hr'|]; wp_step;
      (apply Hend; [done..|simpl|done]); eapply (place_kept s K A Dirty true x a z m' m); try done; intros _; simpl; by rewrite Hb.
  - assert (all_sectors (dirty m) a z = false) as Hall.
    { destruct (all_sectors (dirty m) a z) eqn:Hall; [|done]. rewrite all_sectors_true in Hall.
      assert (any_sector (dirty m) 0 (w - 1) = true) as Hc1 by (apply any_sector_true; exists a; split; [lia|apply Hall; lia]). congruence. }
    rewrite Hall. cbn [negb]. wp_step. wp_step. apply mark_run; [by eexists|]. intros r' Hr'. wp_step. unfold the_req. wp_step.
    cbn [e_req set_e_req]. rewrite (proj1 (proj2 (req_same_fields _ _ Hr'))). wp_step.
    eapply count_dirty_run; [done|by apply Hpc|]. intros f Hf. unfold on_cache. wp_step.
    eapply wp_mono; [apply (dirty_lists s K A x (core (e_req s)) cl true a z m' m true false); done|].
    intros [] c' (H1 & H2 & H3). by apply Hend.
Qed.

(** ** Removing a line from the cache *)

Lemma status_same_safe s s' : words_ok w s -> words_ok w s' -> status_same s s' -> status_safe cfg s -> status_safe cfg s'.
Proof using Hw.
  intros Hok Hok' Hs Hsafe y [m' Hm']. specialize (Hs y). rewrite Hm' in Hs. destruct (maps s !! y) as [m|] eqn:Hm; [|done].
  simpl in Hs. injection Hs as Hv Hd. rewrite (check_true _ w _ _ m' Hw Hok' Hm'). rewrite Hv, Hd.
  apply (check_true _ w _ _ m Hw Hok Hm), Hsafe. by eexists.
Qed.

(** A line without valid sectors has no dirty ones. *)
Lemma invalid_clean s x : words_ok w (c_meta s) -> status_safe cfg (c_meta s) -> has_bits Valid s x = false -> has_bits Dirty s x = false.
Proof using Hw.
  intros Hok Hsafe Hv. unfold has_bits in *. destruct (maps (c_meta s) !! x) as [m|] eqn:Hm; [|done]. simpl in *.
  apply negb_false_iff, Z.eqb_eq in Hv. apply negb_false_iff, Z.eqb_eq.
  pose proof (Hsafe x ltac:(by eexists)) as Hc. rewrite (check_true _ w _ _ m Hw Hok Hm) in Hc.
  destruct (decide (dirty m = 0)) as [|Hne]; [done|]. exfalso. pose proof (Hok _ _ Hm) as [_ Hr].
  apply nonzero_bit in Hne as (i & Hi & Hb); [|lia]. specialize (Hc i Hi Hb). by rewrite Hv, Z.bits_0 in Hc.
Qed.

(** The invariant after the owner and the partition of one line without valid
    sectors changed. *)
Lemma owner_engine s s' K K' A x : inv s K A -> 0 <= x < N -> has_bits Valid (e_cache s) x = false ->
  (exists L, cache_inv cfg w (e_cache s') L) -> mapping_ok cfg (c_meta (e_cache s')) K' ->
  c_alock (e_cache s') = c_alock (e_cache s) -> e_cores s' = e_cores s ->
  status_same (c_meta (e_cache s)) (c_meta (e_cache s')) ->
  (forall y, y <> x -> K' !! y = K !! y /\ part_of (e_cache s') y = part_of (e_cache s) y) ->
  match K' !! x with
  | Some (c, _) => is_Some (e_cores s !! c) /\ 0 <= c < OCF_CORE_MAX /\ 0 <= part_of (e_cache s') x < OCF_USER_IO_CLASS_MAX
  | None => part_of (e_cache s') x = PARTITION_FREELIST
  end -> inv s' K' A.
Proof using Hw.
  intros Hi Hx Hv HL HK' Hal Hco Hst Hoth Hown. destruct (line_words _ _ _ x Hi Hx) as [Hok _].
  assert (words_ok w (c_meta (e_cache s'))) as Hok' by (destruct HL as [L HL]; apply (ci_words _ _ _ _ HL)).
  assert (forall what y, has_bits what (e_cache s') y = has_bits what (e_cache s) y) as Hb.
  { intros what y. specialize (Hst y). unfold has_bits.
    destruct (maps (c_meta (e_cache s')) !! y), (maps (c_meta (e_cache s)) !! y); try done.
    simpl in Hst. injection Hst as H1 H2. destruct what; simpl; congruence. }
  pose proof (invalid_clean (e_cache s) x Hok (en_safe _ _ _ _ _ _ Hi) Hv) as Hd.
  assert (forall y, y <> x -> view (e_cache s') K' y = view (e_cache s) K y) as HV.
  { intros y Hy. destruct (Hoth y Hy) as [Hk Hp]. unfold view. rewrite Hk, Hp. f_equal; [apply (Hb Valid)|apply (Hb Dirty)]. }
  split.
  - done.
  - done.
  - destruct (en_locks _ _ _ _ _ _ Hi) as [H1 H2]. split; by rewrite Hal.
  - intros what. rewrite Hco. eapply counts_ext; [apply (en_counts _ _ _ _ _ _ Hi)|]. intros y Hy.
    destruct (decide (y = x)) as [->|]; [right|left; by rewrite HV]. rewrite !view_has, Hb. by destruct what.
  - intros y Hy. rewrite Hco. destruct (decide (y = x)) as [->|]; [|rewrite HV by done; by apply (en_lines _ _ _ _ _ _ Hi)].
    unfold line_ok, view. simpl. destruct (K' !! x) as [[c cl]|]; simpl; [done|]. split_and!; [done|..].
    + change (has_bits Valid (e_cache s') x = false). by rewrite Hb.
    + change (has_bits Dirty (e_cache s') x = false). by rewrite Hb.
  - eapply status_same_safe; [exact Hok|exact Hok'|done|apply (en_safe _ _ _ _ _ _ Hi)].
Qed.

Lemma drop_spec s K A x c cl : inv s K A -> K !! x = Some (c, cl) -> has_bits Valid (e_cache s) x = false ->
  wp (on_cache (ocf_lru_rm_cline cfg x);; on_cache (on_meta (ocf_metadata_remove_cache_line cfg x)))
    (fun _ s' => inv s' (delete x K) A /\ e_req s' = e_req s /\ e_cores s' = e_cores s /\
       status_same (c_meta (e_cache s)) (c_meta (e_cache s'))) s.
Proof using Hw.
  intros Hi Hk Hv. pose proof (mapped_line _ _ _ _ _ Hi Hk) as Hx. destruct (mapped_core _ _ _ _ _ _ Hi Hk) as (_ & Hp & _).
  destruct (en_place _ _ _ _ _ _ Hi) as [L HL]. wp_step. unfold on_cache at 1. wp_step.
  eapply wp_mono; [apply (rm_cline_spec cfg w Hw (e_cache s) L x HL Hx); lia|]. intros [] c1 [Hrep Hinv].
  apply meta_run. unfold ocf_metadata_remove_cache_line. pose proof (ci_meta _ _ _ _ Hinv x Hx) as [_ [i Hix]]. cbn [e_cache set_e_cache].
  wp_step. unfold ocf_metadata_get_partition_id. wp_step. eapply wp_rd_info; [exact Hix|]. wp_step.
  destruct (mapping_ok_same _ _ _ _ (en_map _ _ _ _ _ _ Hi) (repartitioned_same _ _ _ _ Hrep)) as [B HB].
  eapply wp_mono; [by eapply remove_spec|]. intros [] m' (l & _ & Hcoll & Hframe).
  assert (status_same (c_meta (e_cache s)) m') as Hst.
  { intros y. destruct Hframe as [Hf _]. rewrite Hf. destruct Hrep as (_ & _ & Hm & _). by rewrite Hm. }
  split_and!; [|done..]. destruct Hrep as (Ha & Hs & Hm & Hh & Hinf) eqn:Hrep'.
  eapply (owner_engine s _ K (delete x K) A x); try done.
  - exists (spec_move x (home (e_cache s) x) (home c1 x) L). by apply coll_place.
  - by exists (<[ocf_metadata_hash_func cfg cl c:=without x l]> B).
  - intros y Hy. rewrite lookup_delete_ne by done. split; [done|]. destruct Hframe as [_ Hf].
    unfold part_of. simpl. rewrite Hf. rewrite Hinf. by rewrite lookup_alter_ne.
  - rewrite lookup_delete_eq. destruct Hframe as [_ Hf]. unfold part_of. simpl. rewrite Hf, Hinf, lookup_alter_eq.
    destruct (ci_meta _ _ _ _ HL x Hx) as [_ [i' Hi']]. by rewrite Hi'.
Qed.

(** What is left of the mapping when the sectors [a .. z] of [x] become invalid. *)
Definition after_invalid (K : gmap Z (Z * Z)) (A : lock_abs) (m : ocf_metadata_map) (x a z : Z) : gmap Z (Z * Z) :=
  if any_out w (valid m) a z || has_waiters A x then K else delete x K.

Lemma invalid_spec s K A x a z c cl m :
  inv s K A -> K !! x = Some (c, cl) -> maps (c_meta (e_cache s)) !! x = Some m -> 0 <= a <= z -> z < w ->
  any_sector (dirty m) a z = false ->
  wp (__set_cache_line_invalid cfg le a z x c (part_of (e_cache s) x))
    (fun _ s' => inv s' (after_invalid K A m x a z) A /\ e_req s' = e_req s /\ touched Valid false x a z s s') s.
Proof using Hw.
  intros Hi Hk Hm Haz Hz Hd. pose proof (mapped_line _ _ _ _ _ Hi Hk) as Hxr. destruct (line_words _ _ _ x Hi Hxr) as [Hok _].
  destruct (mapped_core _ _ _ _ _ _ Hi Hk) as (Hc & Hp & rt & Hrt & Hpc).
  unfold __set_cache_line_invalid. wp_step. wp_step; [apply Z.leb_gt; lia|]. wp_step. apply meta_run.
  eapply wp_mono; [by eapply clear_valid_changed_spec|]. intros r m' [-> Hu]. cbv beta.
  pose proof (has_any s K A x m Valid Hi Hxr Hm) as Hany. simpl in Hany. rewrite <- Hany.
  destruct (place_kept s K A Valid false x a z m' m Hi Hxr Hm Haz Hz Hu ltac:(done)) as [L HL].
  destruct (has_updated cfg w Hw Valid false x a z (e_cache s) m' m Haz Hz Hok Hm Hu) as [_ Hnew]. simpl in Hnew.
  assert (forall s', e_cache s' = set_c_meta m' (e_cache s) -> e_req s' = e_req s ->
    same_counts (recount Valid c (part_of (e_cache s) x) (has_bits Valid (e_cache s) x) (any_out w (valid m) a z) (e_cores s)) (e_cores s') ->
    wp (if negb (any_out w (valid m) a z)
        then waiters ← on_cache (on_alock (ocf_cache_line_are_waiters le x));
             if negb waiters
             then on_cache (ocf_lru_rm_cline cfg x);; on_cache (on_meta (ocf_metadata_remove_cache_line cfg x))
             else mret tt
        else mret tt)
      (fun _ s' => inv s' (after_invalid K A m x a z) A /\ e_req s' = e_req s /\ touched Valid false x a z s s') s') as Hend.
  { intros s' Hc' Hr' Hs'. assert (sectors_updated w Valid false x a z (c_meta (e_cache s)) (c_meta (e_cache s'))) as Hu' by (by rewrite Hc').
    assert (inv s' K A) as Hi'.
    { eapply (status_engine s s' K A Valid false x a z c cl m Hi Hk Hm Haz Hz); [simpl; by rewrite Hd|exact Hu'|..].
      - exists L. by rewrite Hc'.
      - by rewrite Hc'.
      - exact Hs'. }
    pose proof (touched_sectors _ _ _ _ _ s s' Hu') as Ht. unfold after_invalid.
    destruct (any_out w (valid m) a z); cbn [negb orb]; [by wp_step|].
    wp_step. eapply waiters_run; [exact Hi'|done|]. destruct (has_waiters A x); cbn [negb]; [by wp_step|].
    eapply wp_mono; [apply (drop_spec s' K A x c cl Hi' Hk); by rewrite Hc'|].
    intros [] s2 (H1 & H2 & _ & H3). split_and!; [done|by rewrite H2|by eapply touched_same]. }
  destruct (has_bits Valid (e_cache s) x), (any_out w (valid m) a z) eqn:Hout; cbn [andb negb] in *.
  - wp_step. wp_step. by apply Hend.
  - wp_step. eapply count_run; [exact Hrt|by apply Hpc|]. by apply Hend.
  - rewrite (any_split _ a z Haz Hz), Hout in Hany. done.
  - wp_step. wp_step. by apply Hend.
Qed.

Lemma set_invalid_spec s K A i e x a z cl m :
  inv s K A -> entry_of (e_req s) i = Some e -> coll_idx e = x -> K !! x = Some (core (e_req s), cl) ->
  maps (c_meta (e_cache s)) !! x = Some m -> 0 <= a <= z -> z < w -> any_sector (dirty m) a z = false ->
  wp (set_cache_line_invalid cfg le raw a z i) (fun _ s' => op_post s (after_invalid K A m x a z) A Valid false x a z s') s.
Proof using Hw.
  intros Hi He Hx Hk Hm Haz Hz Hd. pose proof (mapped_line _ _ _ _ _ Hi Hk) as Hxr.
  unfold set_cache_line_invalid. wp_step. eapply line_run; [done|]. rewrite Hx. wp_step. eapply part_run; [done..|].
  wp_step. unfold the_req. wp_step. wp_step. eapply wp_mono; [by eapply invalid_spec|]. intros [] s1 (H1 & H2 & H3).
  apply mark_run; [rewrite H2; by eexists|]. intros r' Hr'. split_and!; [|simpl; by rewrite <- H2|exact H3].
  destruct H1 as [P1 P2 P3 P4 P5 P6]. by split.
Qed.

Lemma core_part_run s K A x k Q : inv s K A -> K !! x = Some k -> Q (k.1, part_of (e_cache s) x) s ->
  wp (on_cache (on_meta (ocf_metadata_get_core_and_part_id x))) Q s.
Proof using.
  intros Hi Hk HQ. destruct k as [c cl]. destruct (en_map _ _ _ _ _ _ Hi) as [B HB].
  pose proof (mapped_line _ _ _ _ _ Hi Hk) as Hx. destruct (en_place _ _ _ _ _ _ Hi) as [L HL].
  pose proof (ci_mapped _ _ _ _ HB _ _ _ Hk) as [(m & Hm & Hcid & _) _].
  destruct (ci_meta _ _ _ _ HL x Hx) as [_ [i Hix]].
  apply meta_run. unfold ocf_metadata_get_core_and_part_id. wp_step. eapply wp_rd_map; [done|]. wp_step. eapply wp_rd_info; [done|].
  wp_step. rewrite Hcid. unfold part_of in HQ. rewrite Hix in HQ. by destruct s as [[]].
Qed.

Lemma invalid_no_flush_spec s K A x a z k m :
  inv s K A -> K !! x = Some k -> maps (c_meta (e_cache s)) !! x = Some m -> 0 <= a <= z -> z < w ->
  any_sector (dirty m) a z = false ->
  wp (set_cache_line_invalid_no_flush cfg le a z x)
    (fun _ s' => inv s' (after_invalid K A m x a z) A /\ e_req s' = e_req s /\ touched Valid false x a z s s') s.
Proof using Hw.
  intros Hi Hk Hm Haz Hz Hd. unfold set_cache_line_invalid_no_flush. wp_step. eapply core_part_run; [done..|].
  destruct k as [c cl]. cbv beta. by eapply invalid_spec.
Qed.

(** ** Purging and sparing *)

Lemma maps_range s K A y : inv s K A -> is_Some (maps (c_meta (e_cache s)) !! y) <-> 0 <= y < N.
Proof using. intros Hi. destruct (en_map _ _ _ _ _ _ Hi) as [B HB]. apply (ci_maps _ _ _ _ HB). Qed.

Lemma sector_word what s x m i : maps (c_meta (e_cache s)) !! x = Some m -> sector what s x i = Z.testbit (get_what what m) i.
Proof using. intros Hm. unfold sector. by rewrite Hm. Qed.

Lemma any_sector_ext word word' a b : 0 <= a -> (forall i, a <= i <= b -> Z.testbit word i = Z.testbit word' i) ->
  any_sector word a b = any_sector word' a b.
Proof using.
  intros Ha H. apply eq_true_iff_eq. rewrite !any_sector_true. split; intros (i & Hi & Hb); exists i; (split; [done|]);
    [rewrite <- H by done|rewrite H by done]; done.
Qed.

Lemma any_out_ext word word' a b : (forall i, 0 <= i -> Z.testbit word i = Z.testbit word' i) -> any_out w word a b = any_out w word' a b.
Proof using. intros H. f_equal. by apply Z.bits_inj'. Qed.

Lemma touched_dom what b x a z s s' K K' A : touched what b x a z s s' -> inv s K A -> inv s' K' A ->
  forall m y, maps (c_meta (e_cache s)) !! y = Some m -> exists m', maps (c_meta (e_cache s')) !! y = Some m'.
Proof using.
  intros Ht Hi Hi' m y Hm. assert (is_Some (maps (c_meta (e_cache s')) !! y)) as [m' Hm']; [|by exists m'].
  rewrite (maps_range _ _ _ y Hi'), <- (maps_range _ _ _ y Hi). by eexists.
Qed.

Lemma purge_sec_spec s K A i e x a z cl m :
  inv s K A -> entry_of (e_req s) i = Some e -> coll_idx e = x -> K !! x = Some (core (e_req s), cl) ->
  maps (c_meta (e_cache s)) !! x = Some m -> 0 <= a <= z -> z < w ->
  wp (_ocf_purge_cache_line_sec cfg le raw a z i) (fun _ s' =>
    inv s' (after_invalid K A m x a z) A /\ req_same (e_req s) (e_req s') /\
    forall what y j, 0 <= j -> 0 <= y < N ->
      sector what s' y j = negb (bool_decide (y = x /\ a <= j <= z)) && sector what s y j) s.
Proof using Hw.
  intros Hi He Hx Hk Hm Haz Hz. pose proof (mapped_line _ _ _ _ _ Hi Hk) as Hxr.
  unfold _ocf_purge_cache_line_sec. wp_step. eapply wp_mono; [by eapply set_clean_spec|]. intros [] s1 (Hi1 & Hr1 & Ht1).
  destruct (req_same_entry _ _ i e Hr1 He) as (e1 & He1 & Heq%unmark_entry_info).
  assert (core (e_req s1) = core (e_req s)) as Hcore by (by apply (req_same_fields _ _ Hr1)).
  destruct (touched_dom _ _ _ _ _ _ _ _ _ _ Ht1 Hi Hi1 m x Hm) as [m1 Hm1].
  assert (forall what j, 0 <= j -> Z.testbit (get_what what m1) j = if bool_decide (what = Dirty /\ x = x /\ a <= j <= z) then false else Z.testbit (get_what what m) j) as Hbits.
  { intros what j Hj. rewrite <- (sector_word what s1 x m1 j Hm1), <- (sector_word what s x m j Hm). apply Ht1; [done|by eexists]. }
  eapply wp_mono; [eapply (set_invalid_spec s1 K A i e1 x a z cl m1); try done|].
  - unfold coll_idx. by rewrite Heq.
  - by rewrite Hcore.
  - apply not_true_iff_false. rewrite any_sector_true. intros (j & Hj & Hb).
    pose proof (Hbits Dirty j ltac:(lia)) as H. rewrite bool_decide_eq_true_2 in H by (split_and!; done || lia). simpl in H. congruence.
  - intros [] s2 (Hi2 & Hr2 & Ht2). split_and!.
    + assert (after_invalid K A m x a z = after_invalid K A m1 x a z) as ->; [|done].
      unfold after_invalid. rewrite (any_out_ext (valid m) (valid m1)); [done|]. intros j Hj. specialize (Hbits Valid j Hj).
      rewrite bool_decide_eq_false_2 in Hbits by (by intros [? _]). done.
    + by eapply req_same_trans.
    + intros what y j Hj Hy. rewrite (Ht2 what y j Hj) by (by apply (maps_range s1 K A y Hi1)).
      rewrite (Ht1 what y j Hj) by (by apply (maps_range s K A y Hi)).
      destruct (decide (y = x /\ a <= j <= z)) as [Hin|Hout].
      * rewrite (bool_decide_eq_true_2 (y = x /\ _)) by done. simpl.
        destruct what; repeat case_bool_decide; try done; tauto.
      * rewrite (bool_decide_eq_false_2 (y = x /\ _)) by done. simpl. rewrite !bool_decide_eq_false_2 by tauto. done.
Qed.

(** Clearing bits that are clear already changes nothing. *)
Lemma sectors_noop what x a z s m' : (forall i m, maps s !! x = Some m -> 0 <= i -> a <= i <= z -> Z.testbit (get_what what m) i = false) ->
  sectors_updated w what false x a z s m' -> m' = s.
Proof using.
  intros Hz (_ & Hi & Hh & m & word & Hm & Hmaps & Hbits). assert (word = get_what what m) as ->.
  { apply Z.bits_inj'. intros i Hi0. rewrite Hbits by done. case_bool_decide; [|done]. symmetry. by eapply Hz. }
  destruct m', s. simpl in *. f_equal; [|done..]. rewrite Hmaps. apply insert_id. rewrite Hm. f_equal. by destruct what, m.
Qed.

Lemma line_end : u8 (ocf_line_end_sector cfg) = w - 1.
Proof using Hw. apply (line_sectors _ _ Hw). Qed.

(** A clean line that nobody waits for leaves the cache. *)
Lemma sparse_line_spec s K A x k : inv s K A -> K !! x = Some k -> has_bits Dirty (e_cache s) x = false -> has_waiters A x = false ->
  wp (ocf_metadata_sparse_cache_line cfg le x) (fun _ s' => inv s' (delete x K) A /\ e_req s' = e_req s /\
    forall what y i, 0 <= i -> 0 <= y < N -> sector what s' y i = negb (bool_decide (y = x /\ 0 <= i <= w - 1)) && sector what s y i) s.
Proof using Hw.
  intros Hi Hk Hd Hwt. pose proof (mapped_line _ _ _ _ _ Hi Hk) as Hxr. destruct (line_words _ _ _ x Hi Hxr) as [Hok [m Hm]].
  pose proof (word_pos cfg w Hw) as Hpos.
  assert (dirty m = 0) as Hd0. { unfold has_bits in Hd. rewrite Hm in Hd. by apply negb_false_iff, Z.eqb_eq in Hd. }
  unfold ocf_metadata_sparse_cache_line. rewrite line_end. wp_step.
  eapply wp_mono; [eapply (invalid_no_flush_spec s K A x 0 (w - 1) k m); try done; try lia|].
  { apply not_true_iff_false. rewrite any_sector_true. intros (j & _ & Hb). by rewrite Hd0, Z.bits_0 in Hb. }
  intros [] s1 (Hi1 & Hr1 & Ht1).
  assert (after_invalid K A m x 0 (w - 1) = delete x K) as Hdel.
  { unfold after_invalid. rewrite Hwt, orb_false_r. destruct (any_out w (valid m) 0 (w - 1)) eqn:Ho; [|done].
    apply any_out_true in Ho as (i & Hi' & Hn & _). lia. }
  rewrite Hdel in Hi1. destruct (touched_dom _ _ _ _ _ _ _ _ _ _ Ht1 Hi Hi1 m x Hm) as [m1 Hm1].
  assert (forall j, 0 <= j -> sector Dirty s1 x j = false) as Hclean.
  { intros j Hj. rewrite (Ht1 Dirty x j Hj) by (by eexists). rewrite bool_decide_eq_false_2 by (by intros [? _]).
    rewrite (sector_word Dirty s x m j Hm). simpl. by rewrite Hd0, Z.bits_0. }
  destruct (line_words _ _ _ x Hi1 Hxr) as [Hok1 _].
  apply meta_run. unfold metadata_clear_dirty. destruct (line_sectors cfg w Hw) as [-> ->]. wp_step.
  eapply wp_mono; [apply (ocf_metadata_clear_spec cfg w _ x 0 (w - 1) m1 Hw Hok1 Hm1); lia|]. intros r m' [_ Hu]. wp_step.
  rewrite (sectors_noop _ _ _ _ _ _ (fun i m0 Hm0 Hi0 _ => eq_trans (eq_sym (sector_word Dirty s1 x m0 i Hm0)) (Hclean i Hi0)) Hu).
  replace (set_e_cache _ s1) with s1 by (destruct s1 as [[]]; done). split_and!; [done..|].
  intros what y j Hj Hy. rewrite (Ht1 what y j Hj) by (by apply (maps_range s K A y Hi)).
  destruct (decide (y = x /\ 0 <= j <= w - 1)) as [[-> Hin]|Hout].
  - rewrite (bool_decide_eq_true_2 (x = x /\ _)) by done. simpl. destruct what; repeat case_bool_decide; try done; [|tauto].
    rewrite (sector_word Dirty s x m j Hm). simpl. by rewrite Hd0, Z.bits_0.
  - rewrite (bool_decide_eq_false_2 (y = x /\ _)) by done. simpl. rewrite bool_decide_eq_false_2 by tauto. done.
Qed.

(** ** The sectors of a request *)

(** The core lines of a request are those its bytes lie in. *)
Record req_geometry (r : ocf_request) : Prop := {
  rg_bytes : 0 <= byte_position r /\ 0 < byte_length r /\ byte_position r + byte_length r < 2 ^ 64;
  rg_first : core_line_first r = byte_position r `div` line_size cfg;
  rg_last : core_line_last r = (byte_position r + byte_length r - 1) `div` line_size cfg;
  rg_count : core_line_count r = core_line_last r - core_line_first r + 1;
  rg_fits : core_line_count r < 2 ^ 32;
}.

Lemma line_bytes : line_size cfg = 512 * w /\ sector_count cfg = w /\ 0 < w <= 128.
Proof using Hw.
  pose proof Hw as H. unfold word_bits, KiB in H.
  repeat match type of H with (if ?b then _ else _) = _ => destruct b eqn:? end; simplify_eq;
    match goal with H : (line_size cfg =? _) = true |- _ => apply Z.eqb_eq in H; unfold sector_count; rewrite H end;
    by split_and!; vm_compute.
Qed.

Lemma request_sectors r idx : req_geometry r -> 0 <= idx < core_line_count r ->
  0 <= ocf_map_line_start_sector cfg r idx <= ocf_map_line_end_sector cfg r idx /\ ocf_map_line_end_sector cfg r idx < w.
Proof using Hw.
  intros [(Hp & Hl & Hf) H1 H2 H3 H4] Hidx. destruct line_bytes as (Hls & Hsc & Hwr).
  unfold ocf_map_line_start_sector, ocf_map_line_end_sector, ocf_line_sectors, ocf_line_end_sector, sector_end, BYTES_TO_SECTORS.
  rewrite Hsc, !Z.shiftr_div_pow2 by lia. rewrite (u32_small (core_line_count r - 1)), (u64_small (_ - 1)) by lia.
  change (2 ^ 9) with 512. set (p := byte_position r) in *. set (q := p + byte_length r - 1) in *.
  assert (forall x, u8 (x `mod` w) = x `mod` w /\ 0 <= x `mod` w < w) as Hu.
  { intros x. pose proof (Z.mod_pos_bound x w ltac:(lia)). split; [apply Z.mod_small; lia|done]. }
  assert (u8 (w - 1) = w - 1) as Hu1 by (apply Z.mod_small; lia).
  destruct (Hu (p `div` 512)) as [-> ?], (Hu (q `div` 512)) as [-> ?]. rewrite Hu1.
  destruct (Z.eqb_spec idx 0), (Z.eqb_spec idx (core_line_count r - 1)); try lia.
  assert ((p `div` 512) `div` w = (q `div` 512) `div` w) as Hsame.
  { rewrite !Z.div_div by lia. rewrite Hls in H1, H2. lia. }
  pose proof (Z.div_mod (p `div` 512) w ltac:(lia)). pose proof (Z.div_mod (q `div` 512) w ltac:(lia)).
  assert (p `div` 512 <= q `div` 512) by (apply Z.div_le_mono; unfold q; lia). nia.
Qed.

(** Every core line of the request is mapped to the line of its entry. *)
Definition req_mapped (r : ocf_request) (K : gmap Z (Z * Z)) : Prop :=
  forall idx, 0 <= idx < core_line_count r -> exists e, entry_of r idx = Some e /\ status e <> LOOKUP_MISS /\
    K !! coll_idx e = Some (core r, core_line_first r + idx).

(** The sector [i] of the line [y] belongs to one of the first [n] entries that
    are mapped. *)
Definition covers (r : ocf_request) (n y i : Z) : bool :=
  existsb (fun idx => match entry_of r idx with
    | Some e => negb (status e =? LOOKUP_MISS) && (coll_idx e =? y) &&
        (ocf_map_line_start_sector cfg r idx <=? i) && (i <=? ocf_map_line_end_sector cfg r idx)
    | None => false end) (seqZ 0 n).

Definition covered (r : ocf_request) (n : Z) (e : map_entry) (y i : Z) : Prop :=
  status e <> LOOKUP_MISS /\ y = coll_idx e /\ ocf_map_line_start_sector cfg r n <= i <= ocf_map_line_end_sector cfg r n.

#[local] Instance covered_dec r n e y i : Decision (covered r n e y i).
Proof using. unfold covered. apply _. Defined.

Lemma covers_next r n y i e : 0 <= n -> entry_of r n = Some e ->
  covers r (n + 1) y i = covers r n y i || bool_decide (covered r n e y i).
Proof using.
  intros Hn He. unfold covers. rewrite seqZ_app, existsb_app by lia. rewrite (seqZ_cons _ 1), Z.add_0_l by lia. simpl.
  rewrite He, orb_false_r. f_equal. apply eq_true_iff_eq. rewrite !andb_true_iff, bool_decide_eq_true.
  unfold covered. rewrite negb_true_iff, Z.eqb_neq. lia.
Qed.

Lemma same_sectors r r' idx : req_same r r' -> ocf_map_line_start_sector cfg r' idx = ocf_map_line_start_sector cfg r idx /\
  ocf_map_line_end_sector cfg r' idx = ocf_map_line_end_sector cfg r idx.
Proof using.
  intros (_ & _ & H1 & H2 & _ & _ & H3 & _)%req_same_fields. unfold ocf_map_line_start_sector, ocf_map_line_end_sector.
  by rewrite H1, H2, H3.
Qed.

Lemma entry_same r r' idx : req_same r r' -> me_info <$> entry_of r' idx = me_info <$> entry_of r idx.
Proof using.
  intros Hs. pose proof (entry_unmark r' idx) as H. rewrite Hs, entry_unmark in H.
  destruct (entry_of r idx) as [e|], (entry_of r' idx) as [e'|]; try done. simpl in *. injection H as H. by rewrite H.
Qed.

Lemma covers_same r r' y i : req_same r r' -> covers r' (core_line_count r') y i = covers r (core_line_count r) y i.
Proof using.
  intros Hs. assert (core_line_count r' = core_line_count r) as -> by (by apply (req_same_fields _ _ Hs)).
  apply eq_true_iff_eq. unfold covers. rewrite !existsb_exists.
  assert (forall idx, match entry_of r' idx with
    | Some e => negb (status e =? LOOKUP_MISS) && (coll_idx e =? y) &&
        (ocf_map_line_start_sector cfg r' idx <=? i) && (i <=? ocf_map_line_end_sector cfg r' idx)
    | None => false end = match entry_of r idx with
    | Some e => negb (status e =? LOOKUP_MISS) && (coll_idx e =? y) &&
        (ocf_map_line_start_sector cfg r idx <=? i) && (i <=? ocf_map_line_end_sector cfg r idx)
    | None => false end) as He; [|setoid_rewrite He; done].
  intros idx. pose proof (entry_same r r' idx Hs) as Hm. destruct (same_sectors r r' idx Hs) as [-> ->].
  destruct (entry_of r idx) as [e|], (entry_of r' idx) as [e'|]; try done. simpl in Hm. injection Hm as Hm.
  unfold status, coll_idx. by rewrite Hm.
Qed.

Lemma geometry_same r r' : req_same r r' -> req_geometry r -> req_geometry r'.
Proof using.
  intros (_ & _ & E1 & E2 & E3 & E4 & E5 & _)%req_same_fields [H1 H2 H3 H4 H5]. split; by rewrite ?E1, ?E2, ?E3, ?E4, ?E5.
Qed.

Lemma mapped_same r r' K : req_same r r' -> req_mapped r K -> req_mapped r' K.
Proof using.
  intros Hs Hm idx. pose proof (req_same_fields _ _ Hs) as (_ & E1 & _ & _ & E2 & _ & -> & _). rewrite E1, E2. intros Hidx.
  destruct (Hm idx Hidx) as (e & He & Hst & Hk). destruct (req_same_entry _ _ idx e Hs He) as (e' & He' & Heq%unmark_entry_info).
  exists e'. unfold status, coll_idx in *. by rewrite Heq.
Qed.

Lemma request_loop what b body s K A : inv s K A -> req_geometry (e_req s) -> req_mapped (e_req s) K ->
  (forall idx s1 e, 0 <= idx < core_line_count (e_req s) -> inv s1 K A -> req_same (e_req s) (e_req s1) ->
     entry_of (e_req s1) idx = Some e -> status e <> LOOKUP_MISS ->
     K !! coll_idx e = Some (core (e_req s1), core_line_first (e_req s) + idx) ->
     (forall what' y i, what' <> what -> 0 <= i -> 0 <= y < N -> sector what' s1 y i = sector what' s y i) ->
     wp (body idx) (fun _ s' => op_post s1 K A what b (coll_idx e) (ocf_map_line_start_sector cfg (e_req s) idx)
       (ocf_map_line_end_sector cfg (e_req s) idx) s') s1) ->
  wp (for_range (Z.to_nat (core_line_count (e_req s))) 0 body) (fun _ s' => inv s' K A /\ req_same (e_req s) (e_req s') /\
    forall what' y i, 0 <= i -> 0 <= y < N -> sector what' s' y i =
      if bool_decide (what' = what) && covers (e_req s) (core_line_count (e_req s)) y i then b else sector what' s y i) s.
Proof using Hw.
  intros Hi Hg Hmap Hbody. pose proof Hg as [Hbytes H1 H2 H3 _]. destruct line_bytes as (Hls & _ & Hwr).
  assert (0 < core_line_count (e_req s)) as Hpos.
  { assert (core_line_first (e_req s) <= core_line_last (e_req s)); [|lia]. rewrite H1, H2. apply Z.div_le_mono; lia. }
  apply (wp_for_range _ (fun j s' => inv s' K A /\ req_same (e_req s) (e_req s') /\
    forall what' y i, 0 <= i -> 0 <= y < N -> sector what' s' y i =
      if bool_decide (what' = what) && covers (e_req s) j y i then b else sector what' s y i)).
  - intros j s1 Hj (Hi1 & Hr1 & Hs1). rewrite Z.add_0_l, Z2Nat.id in Hj by lia.
    destruct (Hmap j Hj) as (e & He & Hst & Hk). destruct (req_same_entry _ _ j e Hr1 He) as (e1 & He1 & Heq%unmark_entry_info).
    assert (core (e_req s1) = core (e_req s)) as Hcore by (by apply (req_same_fields _ _ Hr1)).
    assert (coll_idx e1 = coll_idx e) as Hce by (unfold coll_idx; by rewrite Heq).
    eapply wp_mono; [apply (Hbody j s1 e1); try done|].
    + unfold status in *. by rewrite Heq.
    + by rewrite Hce, Hcore.
    + intros what' y i Hne Hi0 Hy. rewrite Hs1 by done. by rewrite bool_decide_eq_false_2.
    + intros [] s2 (Hi2 & Hr2 & Ht2). split_and!; [done|by eapply req_same_trans|]. intros what' y i Hi0 Hy.
      rewrite (Ht2 what' y i Hi0) by (by apply (maps_range s1 K A y Hi1)). rewrite Hs1 by done.
      rewrite (covers_next _ j y i e), Hce by (done || lia).
      destruct (decide (what' = what)) as [->|Hne].
      * rewrite (bool_decide_eq_true_2 (what = what)) by done. simpl.
        rewrite (bool_decide_ext (what = what /\ y = coll_idx e /\ _) (covered (e_req s) j e y i)) by (unfold covered; tauto).
        case_bool_decide; [by rewrite orb_true_r|by rewrite orb_false_r].
      * rewrite (bool_decide_eq_false_2 (what' = what)) by done. simpl. rewrite bool_decide_eq_false_2 by tauto. done.
  - split_and!; [done|done|]. intros what' y i Hi0 Hy. unfold covers. simpl. by rewrite andb_false_r.
  - rewrite Z.add_0_l, Z2Nat.id by lia. done.
Qed.

(** The loops over the entries of a request. *)
Definition marks (s : engine) (K : gmap Z (Z * Z)) (A : lock_abs) (what : status_word) (b : bool) (s' : engine) : Prop :=
  inv s' K A /\ req_same (e_req s) (e_req s') /\
  forall what' y i, 0 <= i -> 0 <= y < N -> sector what' s' y i =
    if bool_decide (what' = what) && covers (e_req s) (core_line_count (e_req s)) y i then b else sector what' s y i.

Lemma entry_run s i e Q : entry_of (e_req s) i = Some e -> Q e s -> wp (on_req (get_entry i)) Q s.
Proof using. intros He HQ. unfold on_req. wp_step. eapply wp_req_entry; [done|]. by destruct s. Qed.

Lemma valid_map_spec s K A : inv s K A -> req_geometry (e_req s) -> req_mapped (e_req s) K ->
  wp (ocf_set_valid_map_info cfg) (fun _ s' => marks s K A Valid true s') s.
Proof using Hw.
  intros Hi Hg Hm. unfold ocf_set_valid_map_info, the_req. wp_step. wp_step. apply request_loop; [done..|].
  intros idx s1 e Hidx Hi1 Hr1 He Hst Hk _. destruct (request_sectors _ idx Hg Hidx) as [Ha Hz].
  destruct (line_words _ _ _ (coll_idx e) Hi1 (mapped_line _ _ _ _ _ Hi1 Hk)) as [_ [m Hm1]].
  wp_step. eapply entry_run; [done|]. wp_step. wp_step; [by apply Z.eqb_neq|]. by eapply set_valid_spec.
Qed.

Lemma clean_map_spec s K A : inv s K A -> req_geometry (e_req s) -> req_mapped (e_req s) K ->
  wp (ocf_set_clean_map_info cfg raw) (fun _ s' => marks s K A Dirty false s') s.
Proof using Hw.
  intros Hi Hg Hm. unfold ocf_set_clean_map_info, the_req. wp_step. wp_step. apply request_loop; [done..|].
  intros idx s1 e Hidx Hi1 Hr1 He Hst Hk _. destruct (request_sectors _ idx Hg Hidx) as [Ha Hz].
  destruct (line_words _ _ _ (coll_idx e) Hi1 (mapped_line _ _ _ _ _ Hi1 Hk)) as [_ [m Hm1]]. by eapply set_clean_spec.
Qed.

(** The sectors of the request are valid. *)
Definition req_valid (s : engine) : Prop :=
  forall y i, 0 <= i -> covers (e_req s) (core_line_count (e_req s)) y i = true -> sector Valid s y i = true.

Lemma covers_entry r idx e i : 0 <= idx < core_line_count r -> entry_of r idx = Some e -> status e <> LOOKUP_MISS ->
  ocf_map_line_start_sector cfg r idx <= i <= ocf_map_line_end_sector cfg r idx -> covers r (core_line_count r) (coll_idx e) i = true.
Proof using.
  intros Hidx He Hst%Z.eqb_neq Hi. unfold covers. apply existsb_exists. exists idx. split; [apply list_elem_of_In, elem_of_seqZ; lia|].
  rewrite He, Hst, Z.eqb_refl. simpl. rewrite andb_true_iff, !Z.leb_le. lia.
Qed.

Lemma dirty_map_spec s K A : inv s K A -> req_geometry (e_req s) -> req_mapped (e_req s) K -> req_valid s ->
  wp (ocf_set_dirty_map_info cfg raw now) (fun _ s' => marks s K A Dirty true s') s.
Proof using Hw.
  intros Hi Hg Hm Hv. unfold ocf_set_dirty_map_info, the_req. wp_step. wp_step. apply request_loop; [done..|].
  intros idx s1 e Hidx Hi1 Hr1 He Hst Hk Hsec. destruct (request_sectors _ idx Hg Hidx) as [Ha Hz].
  pose proof (mapped_line _ _ _ _ _ Hi1 Hk) as Hx.
  destruct (line_words _ _ _ (coll_idx e) Hi1 Hx) as [_ [m Hm1]]. eapply set_dirty_spec; try done.
  apply all_sectors_true. intros i Hin. change (Z.testbit (get_what Valid m) i = true). rewrite <- (sector_word Valid s1 _ m i Hm1).
  rewrite Hsec by (done || lia). apply Hv; [lia|]. destruct (Hm idx Hidx) as (e0 & He0 & Hst0 & _).
  destruct (req_same_entry _ _ idx e0 Hr1 He0) as (e1 & He1 & Heq%unmark_entry_info).
  assert (coll_idx e = coll_idx e0) as -> by (unfold coll_idx; congruence). by apply covers_entry with idx.
Qed.

(** *** Purging a request *)

(** The entries that were found or remapped are mapped to the right lines. *)
Definition req_entries (r : ocf_request) (K : gmap Z (Z * Z)) : Prop :=
  forall idx, 0 <= idx < core_line_count r -> exists e, entry_of r idx = Some e /\
    (status e <> LOOKUP_MISS -> K !! coll_idx e = Some (core r, core_line_first r + idx)).

(** The line [y] loses its last valid sector to one of the first [n] entries, and
    nobody waits for it. *)
Definition purged (s : engine) (A : lock_abs) (n y : Z) : bool :=
  existsb (fun idx => match entry_of (e_req s) idx, maps (c_meta (e_cache s)) !! y with
    | Some e, Some m => negb (status e =? LOOKUP_MISS) && (coll_idx e =? y) && negb (has_waiters A y) &&
        negb (any_out w (valid m) (ocf_map_line_start_sector cfg (e_req s) idx) (ocf_map_line_end_sector cfg (e_req s) idx))
    | _, _ => false end) (seqZ 0 n).

Lemma existsb_last (f : Z -> bool) n : 0 <= n -> existsb f (seqZ 0 (n + 1)) = existsb f (seqZ 0 n) || f n.
Proof using. intros Hn. rewrite seqZ_app, existsb_app by lia. rewrite (seqZ_cons _ 1), Z.add_0_l by lia. simpl. by rewrite orb_false_r. Qed.

(** An entry meets its line first. *)
Lemma first_visit s K A j e : req_entries (e_req s) K -> 0 <= j < core_line_count (e_req s) -> entry_of (e_req s) j = Some e ->
  status e <> LOOKUP_MISS -> purged s A j (coll_idx e) = false /\ forall i, covers (e_req s) j (coll_idx e) i = false.
Proof using.
  intros Hent Hj He Hst. destruct (Hent j Hj) as (e0 & He0 & Hk). rewrite He in He0. injection He0 as <-. specialize (Hk Hst).
  assert (forall idx e1, idx ∈ seqZ 0 j -> entry_of (e_req s) idx = Some e1 -> negb (status e1 =? LOOKUP_MISS) && (coll_idx e1 =? coll_idx e) = false) as Hno.
  { intros idx e1 Hin%elem_of_seqZ He1. destruct (Hent idx ltac:(lia)) as (e2 & He2 & Hk2). rewrite He1 in He2. injection He2 as <-.
    apply not_true_iff_false. rewrite andb_true_iff, negb_true_iff, Z.eqb_neq, Z.eqb_eq. intros [Hs Hc].
    specialize (Hk2 Hs). rewrite Hc, Hk in Hk2. injection Hk2. lia. }
  split; [|intros i]; apply not_true_iff_false; unfold purged, covers; rewrite existsb_exists; intros (idx & Hin%list_elem_of_In & Hb);
    (destruct (entry_of (e_req s) idx) as [e1|] eqn:He1; [|done]); specialize (Hno idx e1 Hin He1).
  - destruct (maps (c_meta (e_cache s)) !! coll_idx e); [|done]. by rewrite Hno in Hb.
  - by rewrite Hno in Hb.
Qed.

Lemma purge_map_spec s K A : inv s K A -> req_geometry (e_req s) -> req_entries (e_req s) K ->
  wp (ocf_purge_map_info cfg le raw) (fun _ s' => exists K', inv s' K' A /\ req_same (e_req s) (e_req s') /\
    (forall y, K' !! y = if purged s A (core_line_count (e_req s)) y then None else K !! y) /\
    forall what y i, 0 <= i -> 0 <= y < N ->
      sector what s' y i = negb (covers (e_req s) (core_line_count (e_req s)) y i) && sector what s y i) s.
Proof using Hw.
  intros Hi Hg Hent. pose proof Hg as [Hbytes H1 H2 H3 _]. destruct line_bytes as (Hls & _ & Hwr).
  assert (0 < core_line_count (e_req s)) as Hpos.
  { assert (core_line_first (e_req s) <= core_line_last (e_req s)); [|lia]. rewrite H1, H2. apply Z.div_le_mono; lia. }
  unfold ocf_purge_map_info, the_req. wp_step. wp_step. cbv zeta.
  apply (wp_for_range _ (fun j s' => exists K', inv s' K' A /\ req_same (e_req s) (e_req s') /\
    (forall y, K' !! y = if purged s A j y then None else K !! y) /\
    forall what y i, 0 <= i -> 0 <= y < N -> sector what s' y i = negb (covers (e_req s) j y i) && sector what s y i)).
  - intros j s1 Hj (K1 & Hi1 & Hr1 & HK1 & Hs1). rewrite Z.add_0_l, Z2Nat.id in Hj by lia.
    destruct (Hent j Hj) as (e & He & Hk). destruct (req_same_entry _ _ j e Hr1 He) as (e1 & He1 & Heq%unmark_entry_info).
    assert (core (e_req s1) = core (e_req s)) as Hcore by (by apply (req_same_fields _ _ Hr1)).
    assert (coll_idx e1 = coll_idx e) as Hce by (unfold coll_idx; by rewrite Heq).
    wp_step. eapply entry_run; [done|]. unfold status at 1. rewrite Heq. fold (status e).
    destruct (Z.eqb_spec (status e) LOOKUP_MISS) as [Hmiss|Hst].
    + wp_step. exists K1. split_and!; [done..| |].
      * intros y. rewrite HK1. unfold purged. rewrite existsb_last, He by lia. rewrite Hmiss, Z.eqb_refl. cbn [negb andb].
        by destruct (maps _ !! y); rewrite orb_false_r.
      * intros what y i Hi0 Hy. rewrite Hs1, (covers_next _ j y i e) by (done || lia).
        rewrite (bool_decide_eq_false_2 (covered _ _ _ _ _)) by (by intros [? _]). by rewrite orb_false_r.
    + specialize (Hk Hst). destruct (first_visit s K A j e Hent Hj He Hst) as [Hnp Hnc].
      assert (K1 !! coll_idx e = Some (core (e_req s), core_line_first (e_req s) + j)) as Hk1 by (by rewrite HK1, Hnp).
      pose proof (mapped_line _ _ _ _ _ Hi Hk) as Hx. destruct (line_words _ _ _ _ Hi1 Hx) as [_ [m1 Hm1]].
      destruct (line_words _ _ _ _ Hi Hx) as [_ [m Hm]].
      destruct (request_sectors _ j Hg Hj) as [Ha Hz]. set (a := ocf_map_line_start_sector cfg (e_req s) j) in *.
      set (z := ocf_map_line_end_sector cfg (e_req s) j) in *.
      assert (any_out w (valid m1) a z = any_out w (valid m) a z) as Hout.
      { apply any_out_ext. intros i Hi0. change (Z.testbit (get_what Valid m1) i = Z.testbit (get_what Valid m) i).
        rewrite <- (sector_word Valid s1 _ m1 i Hm1), <- (sector_word Valid s _ m i Hm), Hs1, Hnc by done. done. }
      fold (ocf_map_line_start_sector cfg (e_req s) j) (ocf_map_line_end_sector cfg (e_req s) j). fold a z.
      eapply wp_mono; [eapply (purge_sec_spec s1 K1 A j e1 (coll_idx e) a z); try done; by rewrite Hcore|].
      intros [] s2 (Hi2 & Hr2 & Hs2). eexists. split_and!; [exact Hi2|by eapply req_same_trans| |].
      * intros y. unfold after_invalid. rewrite Hout. unfold purged. rewrite existsb_last, He by lia. fold (purged s A j y). fold a z.
        rewrite (proj2 (Z.eqb_neq _ _) Hst). cbn [negb andb]. destruct (Z.eqb_spec (coll_idx e) y) as [Hy|Hne].
        -- rewrite <- Hy, Hm, Hnp. cbn [andb orb]. 
           destruct (any_out w (valid m) a z), (has_waiters A (coll_idx e)); cbn [negb andb orb];
             try (rewrite HK1, Hnp; done). by rewrite lookup_delete_eq.
        -- replace (match maps (c_meta (e_cache s)) !! y with Some _ => _ | None => false end) with false by (by destruct (maps (c_meta (e_cache s)) !! y)).
           rewrite orb_false_r, <- HK1. destruct (_ || _); [done|]. by rewrite lookup_delete_ne.
      * intros what y i Hi0 Hy. rewrite Hs2, Hs1, (covers_next _ j y i e) by (done || lia). unfold covered. fold a z.
        rewrite (bool_decide_ext (status e <> LOOKUP_MISS /\ y = coll_idx e /\ a <= i <= z) (y = coll_idx e /\ a <= i <= z)) by tauto.
        rewrite negb_orb, andb_assoc. by rewrite (andb_comm (negb (bool_decide _))).
  - exists K. split_and!; [done..|]. intros what y i Hi0 Hy. unfold covers. done.
  - rewrite Z.add_0_l, Z2Nat.id by lia. done.
Qed.

(** *** Sparing a range of core lines *)

(** The line holds a core line of the core [cid] in the range, or of any core. *)
Definition acting (K : gmap Z (Z * Z)) (cid start_line end_line x : Z) : bool :=
  match K !! x with
  | Some (c, cl) => if negb (cid =? OCF_CORE_ID_INVALID)
                    then (cid =? c) && negb ((cl <? start_line) || (end_line <? cl)) else true
  | None => false
  end.

Definition is_used (A : lock_abs) (x : Z) : bool :=
  match A !! x with Some (a, q) => negb (a =? OCF_CACHE_LINE_ACCESS_IDLE) || match q with [] => false | _ => true end | None => false end.

Lemma acting_run s K A cid sl el x Q : inv s K A -> 0 <= x < N -> 0 <= cid < 2 ^ 16 -> Q (acting K cid sl el x) s ->
  wp (on_cache (_is_cache_line_acting x cid sl el)) Q s.
Proof using.
  intros Hi Hx Hcid HQ. destruct (en_map _ _ _ _ _ _ Hi) as [B HB]. unfold on_cache. wp_step. unfold _is_cache_line_acting.
  assert (exists m, maps (c_meta (e_cache s)) !! x = Some m /\ acting K cid sl el x =
    if negb (cid =? OCF_CORE_ID_INVALID) then if negb (cid =? core_id m) then false
      else negb ((core_line m <? sl) || (el <? core_line m)) else negb (core_id m =? OCF_CORE_ID_INVALID)) as (m & Hm & Hact).
  { unfold acting. destruct (K !! x) as [[c cl]|] eqn:Hk.
    - pose proof (ci_mapped _ _ _ _ HB _ _ _ Hk) as [(m & Hm & E1 & E2) _]. exists m. split; [done|]. rewrite E1, E2.
      destruct (mapped_core _ _ _ _ _ _ Hi Hk) as (Hc & _). destruct (Z.eqb_spec cid OCF_CORE_ID_INVALID); cbn [negb].
      + symmetry. apply negb_true_iff, Z.eqb_neq. unfold OCF_CORE_ID_INVALID. lia.
      + by destruct (cid =? c).
    - destruct (ci_unmapped _ _ _ _ HB x Hx Hk) as (m & Hm & E1 & _). exists m. split; [done|]. rewrite E1.
      destruct (Z.eqb_spec cid OCF_CORE_ID_INVALID) as [->|Hne]; cbn [negb]; [done|].
      change OCF_CORE_MAX with OCF_CORE_ID_INVALID. by apply Z.eqb_neq in Hne as ->. }
  wp_step. unfold on_meta. wp_step. unfold ocf_metadata_get_core_info. wp_step. eapply wp_rd_map; [done|]. wp_step. cbv beta.
  rewrite Hact in HQ. replace (set_c_meta (c_meta (e_cache s)) (e_cache s)) with (e_cache s) by (by destruct (e_cache s)).
  assert (set_e_cache (e_cache s) s = s) as Hid by (by destruct s).
  destruct (negb (cid =? OCF_CORE_ID_INVALID)); [destruct (negb (cid =? core_id m))|]; wp_step; by rewrite Hid.
Qed.

Lemma used_run s K A x Q : inv s K A -> 0 <= x < N -> Q (is_used A x) s -> wp (on_cache (on_alock (ocf_cache_line_is_used le x))) Q s.
Proof using.
  intros [_ _ [HA HN] _ _ _] Hx HQ. destruct (proj2 (ai_range _ _ _ HA x)) as [[a q] Ha]; [lia|].
  destruct (ai_entry _ _ _ HA _ _ _ Ha) as (Hacc & _ & l & Hl & Hq). unfold is_used in HQ. rewrite Ha in HQ.
  assert (set_e_cache (set_c_alock (c_alock (e_cache s)) (e_cache s)) s = s) as Hid by (by destruct s as [[]]).
  unfold on_cache. wp_step. unfold on_alock. wp_step. unfold ocf_cache_line_is_used. wp_step. wp_step.
  wp_step. wp_step; [rewrite HN; apply Z.leb_gt; lia|]. wp_step. eapply wp_atomic_read; [exact Hacc|].
  change (a =? OCF_CACHE_LINE_ACCESS_IDLE) with (a =? 0) in HQ. destruct (negb (a =? 0)); [wp_step; by rewrite Hid|].
  wp_step. unfold ocf_alock_waitlist_is_empty. wp_step. wp_step. wp_step. wp_step; [rewrite HN; lia|].
  eapply is_empty_run; [exact Hl|]. wp_step. rewrite Hq, Hid. by destruct q.
Qed.

Lemma unused_waiters A x : is_used A x = false -> has_waiters A x = false.
Proof using. unfold is_used, has_waiters. destruct (A !! x) as [[a [|q l]]|]; [done| |done]. by rewrite orb_true_r. Qed.

(** The lines that leave the cache. *)
Definition drops (K : gmap Z (Z * Z)) (A : lock_abs) (cid sl el y : Z) : bool := acting K cid sl el y && negb (is_used A y).

(** The effect on the lines from [j] on. *)
Definition spared (s1 : engine) (K1 K : gmap Z (Z * Z)) (A : lock_abs) (cid sl el j : Z) (s' : engine) : Prop :=
  exists K', inv s' K' A /\ e_req s' = e_req s1 /\
    (forall y, K' !! y = if (j <=? y) && drops K A cid sl el y then None else K1 !! y) /\
    forall what y i, 0 <= i < w -> 0 <= y < N ->
      sector what s' y i = negb ((j <=? y) && drops K A cid sl el y) && sector what s1 y i.

Definition spare_code (K : gmap Z (Z * Z)) (A : lock_abs) (cid sl el j : Z) (n : nat) (ret : Z) : Z :=
  if existsb (fun y => acting K cid sl el y && is_used A y) (seqZ j (Z.of_nat n)) then - OCF_ERR_AGAIN else ret.

(** One line at a time. *)
Definition spared_one (s1 : engine) (K1 K : gmap Z (Z * Z)) (A : lock_abs) (cid sl el j : Z) (K2 : gmap Z (Z * Z)) (s2 : engine) : Prop :=
  inv s2 K2 A /\ e_req s2 = e_req s1 /\
  (forall y, K2 !! y = if (y =? j) && drops K A cid sl el y then None else K1 !! y) /\
  forall what y i, 0 <= i < w -> 0 <= y < N ->
    sector what s2 y i = negb ((y =? j) && drops K A cid sl el y) && sector what s1 y i.

Lemma spared_step s1 K1 K A cid sl el j K2 s2 s' : spared_one s1 K1 K A cid sl el j K2 s2 ->
  spared s2 K2 K A cid sl el (j + 1) s' -> spared s1 K1 K A cid sl el j s'.
Proof using.
  intros (Hi2 & Hr2 & HK2 & Hs2) (K' & Hi' & Hr' & HK' & Hs'). exists K'.
  assert (forall y, (j <=? y) = (y =? j) || (j + 1 <=? y)) as Hsplit.
  { intros y. apply eq_true_iff_eq. rewrite orb_true_iff, !Z.leb_le, Z.eqb_eq. lia. }
  split_and!; [done|congruence| |].
  - intros y. rewrite HK', HK2, Hsplit. by destruct (y =? j), (j + 1 <=? y), (drops K A cid sl el y).
  - intros what y i Hir Hy. rewrite Hs', Hs2, Hsplit by done. by destruct (y =? j), (j + 1 <=? y), (drops K A cid sl el y).
Qed.

Lemma spare_code_step K A cid sl el j n ret :
  spare_code K A cid sl el j (S n) ret =
  spare_code K A cid sl el (j + 1) n (if acting K cid sl el j && is_used A j then - OCF_ERR_AGAIN else ret).
Proof using.
  unfold spare_code. rewrite (seqZ_cons j) by lia. cbn [existsb]. replace (Z.pred (Z.of_nat (S n))) with (Z.of_nat n) by lia.
  replace (Z.succ j) with (j + 1) by lia. destruct (acting K cid sl el j && is_used A j); [|done]. simpl. by destruct (existsb _ _).
Qed.

(** Other lines keep their dirty bits. *)
Lemma spared_one_dirty s1 K1 K A cid sl el j K2 s2 y : inv s1 K1 A -> spared_one s1 K1 K A cid sl el j K2 s2 -> 0 <= y < N -> y <> j ->
  has_bits Dirty (e_cache s2) y = has_bits Dirty (e_cache s1) y.
Proof using Hw.
  intros Hi (Hi2 & _ & _ & Hs2) Hy Hne. destruct (line_words _ _ _ y Hi Hy) as [_ [m Hm]]. destruct (line_words _ _ _ y Hi2 Hy) as [_ [m2 Hm2]].
  rewrite (has_any s2 _ _ y m2 Dirty Hi2), (has_any s1 _ _ y m Dirty Hi) by done. apply any_sector_ext; [lia|].
  intros i Hi0. rewrite <- (sector_word Dirty s2 y m2 i Hm2), <- (sector_word Dirty s1 y m i Hm), Hs2 by lia.
  by apply Z.eqb_neq in Hne as ->.
Qed.

(** What the loop does with one line. *)
Lemma sparse_one s1 K1 K A cid sl el j ret : 0 <= cid < 2 ^ 16 -> 0 <= j < N -> inv s1 K1 A -> K1 !! j = K !! j ->
  (drops K A cid sl el j = true -> has_bits Dirty (e_cache s1) j = false) ->
  wp (acting ← on_cache (_is_cache_line_acting j cid sl el);
      if (acting : bool) then act_on le (@on_cache) (ocf_metadata_sparse_cache_line cfg le) ret j else mret ret)
    (fun ret' s2 => ret' = (if acting K cid sl el j && is_used A j then - OCF_ERR_AGAIN else ret) /\
       exists K2, spared_one s1 K1 K A cid sl el j K2 s2) s1.
Proof using Hw.
  intros Hcid Hj Hi HK Hd. wp_step. eapply acting_run; [done..|].
  assert (acting K1 cid sl el j = acting K cid sl el j) as -> by (unfold acting; by rewrite HK).
  assert (drops K A cid sl el j = false -> spared_one s1 K1 K A cid sl el j K1 s1) as Hkeep.
  { intros Hno. split_and!; [done|done| |]; [intros y|intros what y i _ _]; (destruct (Z.eqb_spec y j) as [->|]; [by rewrite Hno|done]). }
  unfold drops in Hd, Hkeep. destruct (acting K cid sl el j) eqn:Hact; [|wp_step; split; [done|]; exists K1; by apply Hkeep].
  unfold act_on. wp_step. eapply used_run; [done..|]. destruct (is_used A j) eqn:Hu; [wp_step; split; [done|]; exists K1; by apply Hkeep|].
  assert (exists k, K1 !! j = Some k) as [k Hk].
  { rewrite HK. unfold acting in Hact. destruct (K !! j) as [k|]; [by exists k|done]. }
  wp_step. eapply wp_mono; [apply (sparse_line_spec s1 K1 A j k Hi Hk); [by apply Hd|by apply unused_waiters]|].
  intros [] s2 (Hi2 & Hr2 & Hs2). wp_step. split; [done|]. exists (delete j K1). split_and!; [done|done| |].
  - intros y. destruct (Z.eqb_spec y j) as [->|]; [unfold drops; by rewrite Hact, Hu, lookup_delete_eq|by rewrite lookup_delete_ne].
  - intros what y i Hi0 Hy. rewrite Hs2 by lia. destruct (Z.eqb_spec y j) as [->|].
    + unfold drops. rewrite Hact, Hu, bool_decide_eq_true_2 by lia. done.
    + by rewrite bool_decide_eq_false_2 by tauto.
Qed.

Lemma sparse_loop K A cid sl el n j ret s1 K1 : 0 <= cid < 2 ^ 16 -> 0 <= j -> j + Z.of_nat n = N ->
  inv s1 K1 A -> (forall y, j <= y -> K1 !! y = K !! y) ->
  (forall y, j <= y < N -> drops K A cid sl el y = true -> has_bits Dirty (e_cache s1) y = false) ->
  wp (actor_all le (@on_cache) (ocf_metadata_sparse_cache_line cfg le) n j cid sl el ret)
    (fun ret' s' => ret' = spare_code K A cid sl el j n ret /\ spared s1 K1 K A cid sl el j s') s1.
Proof using Hw.
  intros Hcid. revert j ret s1 K1. induction n as [|n IH]; intros j ret s1 K1 Hj Hn Hi HK Hd; cbn [actor_all].
  - wp_step. split; [done|]. exists K1. split_and!; [done|done| |].
    + intros y. destruct (Z.leb_spec j y); [|done]. cbn [andb]. unfold drops, acting. rewrite <- (HK y) by done.
      destruct (K1 !! y) as [k|] eqn:Hk; [|done]. pose proof (mapped_line _ _ _ y k Hi Hk). lia.
    + intros what y i _ Hy. by rewrite (proj2 (Z.leb_gt j y)) by lia.
  - apply wp_assoc', wp_bind. eapply wp_mono; [apply (sparse_one s1 K1 K A cid sl el j ret); try done; [lia|by apply HK|]|].
    { apply Hd. lia. }
    intros ret1 s2 (-> & K2 & Hone). pose proof Hone as (Hi2 & _ & HK2 & _). rewrite spare_code_step.
    eapply wp_mono; [apply (IH (j + 1) _ s2 K2); try done; try lia|].
    + intros y Hy. rewrite HK2, (proj2 (Z.eqb_neq y j)) by lia. apply HK. lia.
    + intros y Hy Hdr. rewrite (spared_one_dirty _ _ _ _ _ _ _ _ _ _ y Hi Hone) by lia. apply Hd; [lia|done].
    + intros ret' s' [-> Hsp]. split; [done|]. by eapply spared_step.
Qed.

(** ** Entering the cache *)

(** A free line is given to a partition and mapped. *)
Lemma adopt_spec s K A x c cl dst : inv s K A -> 0 <= x < N -> K !! x = None -> (forall y, K !! y <> Some (c, cl)) ->
  is_Some (e_cores s !! c) -> 0 <= c < OCF_CORE_MAX -> 0 <= dst < OCF_USER_IO_CLASS_MAX ->
  wp (on_cache (ocf_lru_repart_locked cfg x PARTITION_FREELIST dst);;
      on_cache (on_meta (ocf_metadata_add_to_collision cfg c cl (ocf_metadata_hash_func cfg cl c) x)))
    (fun _ s' => inv s' (<[x := (c, cl)]> K) A /\ e_req s' = e_req s /\ e_cores s' = e_cores s /\ c_alock (e_cache s') = c_alock (e_cache s)) s.
Proof using Hw.
  intros Hi Hx Hk Hfresh Hc Hcr Hdst. destruct (en_place _ _ _ _ _ _ Hi) as [L HL].
  pose proof (en_lines _ _ _ _ _ _ Hi x Hx) as Hl. unfold line_ok, view in Hl. rewrite Hk in Hl. simpl in Hl. destruct Hl as (Hp & Hv & _).
  wp_step. unfold on_cache at 1. wp_step. rewrite <- Hp at 1.
  eapply wp_mono; [apply (repart_spec cfg w Hw (e_cache s) L x dst HL Hx); by left|]. intros [] c1 [Hrep Hinv].
  destruct (mapping_ok_same _ _ _ _ (en_map _ _ _ _ _ _ Hi) (repartitioned_same _ _ _ _ Hrep)) as [B HB].
  apply meta_run. eapply wp_mono; [apply (add_spec _ B K c cl x HB Hx Hk Hfresh); unfold OCF_CORE_MAX in Hcr; lia|].
  intros [] m' (l & _ & Hcoll & Hframe). pose proof Hrep as (Ha & _ & Hm & _ & Hinf). split_and!; try done.
  eapply (owner_engine s _ K _ A x); try done.
  - exists (spec_move x (home (e_cache s) x) (home c1 x) L). by apply coll_place.
  - by exists (<[ocf_metadata_hash_func cfg cl c:=x :: l]> B).
  - intros y. destruct Hframe as [Hf _]. by rewrite Hf, Hm.
  - intros y Hy. rewrite lookup_insert_ne by done. split; [done|]. destruct Hframe as [_ Hf]. unfold part_of. simpl.
    by rewrite Hf, Hinf, lookup_alter_ne.
  - rewrite lookup_insert_eq. split_and!; [done|lia|lia|..]; destruct Hframe as [_ Hf]; unfold part_of; simpl;
      rewrite Hf, Hinf, lookup_alter_eq; destruct (ci_meta _ _ _ _ HL x Hx) as [_ [i' Hi']]; rewrite Hi'; simpl; lia.
Qed.

(** The counters of a core without lines. *)
Definition zero_core (rt : core_runtime) : Prop :=
  cached_clines rt = 0 /\ dirty_clines rt = 0 /\
  forall p, 0 <= p < OCF_USER_IO_CLASS_MAX -> part_counters rt !! p = Some (mkPartCounter 0 0).

Lemma attach_engine s A : attach_ok cfg w (e_cache s) -> locks_ok cfg le (e_cache s) A ->
  (forall c rt, e_cores s !! c = Some rt -> zero_core rt) ->
  wp (on_cache (init_attached cfg 0)) (fun _ s' => inv s' ∅ A /\ e_req s' = e_req s /\ e_cores s' = e_cores s /\
    c_alock (e_cache s') = c_alock (e_cache s)) s.
Proof using Hw.
  intros Ha [HA HN] Hz. unfold on_cache. wp_step. eapply wp_mono; [by apply (attach_spec cfg w)|].
  intros [] c' ([L HL] & HK & Hx & Hal & _). split_and!; [|done..].
  assert (forall what x, 0 <= x < N -> v_has what (view c' ∅ x) = false) as Hno.
  { intros what x Hxr. destruct (Hx x Hxr) as (_ & Hv & Hd). by destruct what. }
  assert (forall f : Z -> bool, (forall x, 0 <= x < N -> f x = false) -> tally f (seqZ 0 N) = 0) as Ht.
  { intros f Hf. rewrite (tally_const f false); [done|]. intros x Hin%elem_of_seqZ. apply Hf. lia. }
  split.
  - by exists L.
  - done.
  - split; simpl; by rewrite Hal.
  - intros what c rt Hrt. destruct (Hz c rt Hrt) as (H1 & H2 & H3). split.
    + rewrite Ht; [by destruct what|]. intros x Hxr. unfold holds. simpl. by rewrite Hno.
    + intros p Hp. rewrite H3 by done. rewrite Ht; [by destruct what|]. intros x Hxr. unfold holds_in, holds. simpl. by rewrite Hno.
  - intros x Hxr. by apply Hx.
  - intros x [m Hm]. assert (0 <= x < N) as Hxr. { destruct HK as [B HB]. apply (ci_maps _ _ _ _ HB). by eexists. }
    destruct (Hx x Hxr) as (_ & _ & Hd). apply (check_true _ w _ _ m Hw (ci_words _ _ _ _ HL) Hm).
    simpl in Hm. unfold is_dirty in Hd. rewrite Hm in Hd. apply negb_false_iff, Z.eqb_eq in Hd. rewrite Hd. intros i _. by rewrite Z.bits_0.
Qed.
End engine.

(** ** Results *)

Inductive line_op := SetValid | SetInvalid | SetClean | SetDirty.

Definition run_line_op (cfg : config) (le : Z) (raw : raw_type) (now : Z) (o : line_op) (a z idx : Z) : M engine unit :=
  match o with
  | SetValid => set_cache_line_valid cfg a z idx
  | SetInvalid => set_cache_line_invalid cfg le raw a z idx
  | SetClean => set_cache_line_clean cfg raw a z idx
  | SetDirty => set_cache_line_dirty cfg raw now a z idx
  end.

Definition op_what (o : line_op) : status_word := match o with SetValid | SetInvalid => Valid | _ => Dirty end.
Definition op_set (o : line_op) : bool := match o with SetValid | SetDirty => true | _ => false end.

(** C22: The operations on the sectors [a .. z] of a line of the request keep the
    whole cache consistent: the lists of the partitions, the mapping, and for
    every core and partition the exact numbers of lines with valid and with
    dirty sectors; dirty sectors stay valid.  They change these sectors of this
    line and no others, and an invalidation that takes the last valid sector of
    a line nobody waits for unmaps and frees it.  Only valid sectors may be
    marked dirty and only clean ones invalidated. *)
Theorem line_operations cfg w le raw now o s K A i e cl m a z :
  word_bits cfg = Some w -> eng_inv cfg w le s K A ->
  entry_of (e_req s) i = Some e -> K !! coll_idx e = Some (core (e_req s), cl) ->
  maps (c_meta (e_cache s)) !! coll_idx e = Some m -> 0 <= a <= z -> z < w -> may_update (op_what o) (op_set o) m a z = true ->
  exists s', run_line_op cfg le raw now o a z i s = Some (tt, s') /\
    eng_inv cfg w le s' (match o with SetInvalid => after_invalid w K A m (coll_idx e) a z | _ => K end) A /\
    req_same (e_req s) (e_req s') /\ touched (op_what o) (op_set o) (coll_idx e) a z s s'.
Proof.
  intros Hw Hi He Hk Hm Haz Hz Hmay.
  enough (wp (run_line_op cfg le raw now o a z i) (fun _ s' => op_post cfg w le s
    (match o with SetInvalid => after_invalid w K A m (coll_idx e) a z | _ => K end) A (op_what o) (op_set o) (coll_idx e) a z s') s)
    as ([] & s' & Hrun & Hp) by (by exists s').
  destruct o; simpl in *.
  - by eapply set_valid_spec.
  - eapply set_invalid_spec; try done. by apply negb_true_iff.
  - by eapply set_clean_spec.
  - by eapply set_dirty_spec.
Qed.

(** C23: Over a whole request whose core lines are mapped: marking it valid and
    then dirty makes exactly the sectors of its bytes valid and dirty, marking
    it clean makes exactly these clean, whatever line boundaries it crosses, and
    the statistics follow. *)
Theorem request_sectors_marked cfg w le raw now s K A :
  word_bits cfg = Some w -> eng_inv cfg w le s K A -> req_geometry cfg (e_req s) -> req_mapped (e_req s) K ->
  let inside y j := covers cfg (e_req s) (core_line_count (e_req s)) y j in
  (exists s', (ocf_set_valid_map_info cfg;; ocf_set_dirty_map_info cfg raw now) s = Some (tt, s') /\ eng_inv cfg w le s' K A /\
    forall what y j, 0 <= j -> 0 <= y < collision_table_entries cfg -> sector what s' y j = inside y j || sector what s y j) /\
  (exists s', ocf_set_clean_map_info cfg raw s = Some (tt, s') /\ eng_inv cfg w le s' K A /\
    forall y j, 0 <= j -> 0 <= y < collision_table_entries cfg ->
      sector Valid s' y j = sector Valid s y j /\ sector Dirty s' y j = negb (inside y j) && sector Dirty s y j).
Proof.
  intros Hw Hi Hg Hm inside. split.
  - enough (wp (ocf_set_valid_map_info cfg;; ocf_set_dirty_map_info cfg raw now) (fun _ s' => eng_inv cfg w le s' K A /\
      forall what y j, 0 <= j -> 0 <= y < collision_table_entries cfg -> sector what s' y j = inside y j || sector what s y j) s)
      as ([] & s' & Hrun & Hp) by (by exists s').
    wp_step. eapply wp_mono; [by apply (valid_map_spec cfg w le Hw s K A)|]. intros [] s1 (Hi1 & Hr1 & Hs1).
    assert (forall y j, covers cfg (e_req s1) (core_line_count (e_req s1)) y j = inside y j) as Hin by (intros; by apply covers_same).
    eapply wp_mono; [apply (dirty_map_spec cfg w le raw now Hw s1 K A)|].
    + done.
    + by eapply geometry_same.
    + by eapply mapped_same.
    + intros y j Hj Hc. rewrite Hin in Hc. assert (0 <= y < collision_table_entries cfg) as Hy.
      { apply existsb_exists in Hc as (idx & Hidx%list_elem_of_In%elem_of_seqZ & Hb).
        destruct (Hm idx ltac:(lia)) as (e & He & _ & Hk). rewrite He in Hb. rewrite !andb_true_iff, Z.eqb_eq in Hb.
        destruct Hb as [[[_ <-] _] _]. by eapply mapped_line. }
      rewrite Hs1 by done. fold (inside y j). by rewrite Hc.
    + intros [] s2 (Hi2 & _ & Hs2). split; [done|]. intros what y j Hj Hy. rewrite Hs2, Hin, Hs1 by done. fold (inside y j).
      destruct what, (inside y j); repeat case_bool_decide; try done.
  - destruct (clean_map_spec cfg w le raw Hw s K A Hi Hg Hm) as ([] & s' & Hrun & Hi' & _ & Hs'). exists s'. split_and!; [done..|].
    intros y j Hj Hy. rewrite !Hs' by done. fold (inside y j). split; [done|]. by destruct (inside y j).
Qed.

(** Purging a request makes its sectors invalid and clean and leaves all
    others alone; the lines that lose their last valid sector to it, and that
    nobody waits for, leave the mapping and become free, and the others keep
    theirs.  Entries that missed are passed over.  Statistics, lists and mapping
    stay consistent. *)
Theorem purge_request cfg w le raw s K A :
  word_bits cfg = Some w -> eng_inv cfg w le s K A -> req_geometry cfg (e_req s) -> req_entries (e_req s) K ->
  exists s' K', ocf_purge_map_info cfg le raw s = Some (tt, s') /\ eng_inv cfg w le s' K' A /\
    (forall y, K' !! y = if purged cfg w s A (core_line_count (e_req s)) y then None else K !! y) /\
    (forall what y j, 0 <= j -> 0 <= y < collision_table_entries cfg -> sector what s' y j =
      negb (covers cfg (e_req s) (core_line_count (e_req s)) y j) && sector what s y j) /\
    forall y, 0 <= y < collision_table_entries cfg -> purged cfg w s A (core_line_count (e_req s)) y = true ->
      part_of (e_cache s') y = PARTITION_FREELIST.
Proof.
  intros Hw Hi Hg Hent. destruct (purge_map_spec cfg w le raw Hw s K A Hi Hg Hent) as ([] & s' & Hrun & K' & Hi' & _ & HK & Hs).
  exists s', K'. split_and!; [done..|]. intros y Hy Hp. pose proof (en_lines _ _ _ _ _ _ Hi' y Hy) as Hl.
  unfold line_ok, view in Hl. rewrite HK, Hp in Hl. apply Hl.
Qed.

(** [ocf_metadata_sparse_range] takes every line that holds a core line of
    the range out of the cache, unless it is locked or waited for: then it says
    [-OCF_ERR_AGAIN] and leaves that line alone.  The lines taken out must be
    clean, as they are after a flush: their dirty sectors would be dropped
    without being counted. *)
Theorem sparse_range_removes cfg w le s K A core_id start_byte end_byte :
  word_bits cfg = Some w -> eng_inv cfg w le s K A ->
  let sl := bytes_2_lines cfg start_byte in
  let el := bytes_2_lines cfg end_byte in
  (forall y, 0 <= y < collision_table_entries cfg -> drops K A (u16 core_id) sl el y = true -> is_dirty (e_cache s) y = false) ->
  exists s' K', ocf_metadata_sparse_range cfg le core_id start_byte end_byte s =
      Some (if existsb (fun y => acting K (u16 core_id) sl el y && is_used A y) (seqZ 0 (collision_table_entries cfg))
            then - OCF_ERR_AGAIN else 0, s') /\
    eng_inv cfg w le s' K' A /\
    (forall y, 0 <= y -> K' !! y = if drops K A (u16 core_id) sl el y then None else K !! y) /\
    forall what y i, 0 <= i < w -> 0 <= y < collision_table_entries cfg ->
      sector what s' y i = negb (drops K A (u16 core_id) sl el y) && sector what s y i.
Proof.
  intros Hw Hi sl el Hd. pose proof (entries_range cfg w le s K A Hi) as HN.
  destruct (sparse_loop cfg w le Hw K A (u16 core_id) sl el (Z.to_nat (collision_table_entries cfg)) 0 0 s K) as (ret & s' & Hrun & -> & K' & Hi' & _ & HK & Hs);
    [by apply Z.mod_pos_bound|lia|lia|done|done|done|].
  exists s', K'. split_and!.
  - unfold ocf_metadata_sparse_range, ocf_metadata_actor. rewrite Z.eqb_refl. fold sl el. rewrite Hrun. unfold spare_code.
    by rewrite Z2Nat.id by lia.
  - done.
  - intros y Hy. rewrite HK. by rewrite (proj2 (Z.leb_le 0 y) Hy).
  - intros what y i Hir Hy. rewrite Hs by done. by rewrite (proj2 (Z.leb_le 0 y)) by lia.
Qed.

(** The comment of [ocf_metadata_sparse_range] says that [-1] stands for the
    whole cache device.  The conversion to [ocf_core_id_t] makes it 65535, which
    no core has: nothing is taken out. *)
Theorem sparse_range_minus_one cfg w le s K A start_byte end_byte :
  word_bits cfg = Some w -> eng_inv cfg w le s K A ->
  exists s' K', ocf_metadata_sparse_range cfg le (-1) start_byte end_byte s = Some (0, s') /\
    eng_inv cfg w le s' K' A /\ forall y, 0 <= y -> K' !! y = K !! y.
Proof.
  intros Hw Hi. pose proof (entries_range cfg w le s K A Hi) as HN. set (sl := bytes_2_lines cfg start_byte). set (el := bytes_2_lines cfg end_byte).
  assert (forall y, acting K (u16 (-1)) sl el y = false) as Hno.
  { intros y. unfold acting. destruct (K !! y) as [[c cl]|] eqn:Hk; [|done].
    destruct (mapped_core _ _ _ _ _ _ _ _ _ Hi Hk) as (Hc & _). unfold OCF_CORE_MAX in Hc.
    change (negb (u16 (-1) =? OCF_CORE_ID_INVALID)) with true. cbv iota.
    rewrite (proj2 (Z.eqb_neq (u16 (-1)) c)); [done|]. change (u16 (-1)) with 65535. lia. }
  destruct (sparse_loop cfg w le Hw K A (u16 (-1)) sl el (Z.to_nat (collision_table_entries cfg)) 0 0 s K) as (ret & s' & Hrun & -> & K' & Hi' & _ & HK & Hs);
    [by apply Z.mod_pos_bound|lia|lia|done|done|intros y _; unfold drops; by rewrite Hno|].
  exists s', K'. split_and!; [|done|].
  - unfold ocf_metadata_sparse_range, ocf_metadata_actor. rewrite Z.eqb_refl. fold sl el. rewrite Hrun. unfold spare_code.
    assert (forall l, existsb (fun y => acting K (u16 (-1)) sl el y && is_used A y) l = false) as ->; [|done].
    intros l. induction l as [|y l IH]; [done|]. simpl. by rewrite IH, Hno.
  - intros y Hy. rewrite HK. unfold drops. by rewrite Hno, andb_false_r.
Qed.

(** ** Witnesses *)

Definition wit_core : core_runtime :=
  mkCoreRuntime 0 0 0 (list_to_map ((fun p => (p, mkPartCounter 0 0)) <$> seqZ 0 OCF_USER_IO_CLASS_MAX)).

Lemma wit_core_zero : zero_core wit_core.
Proof.
  split; [reflexivity|]. split; [reflexivity|]. intros p Hp. cbn [part_counters wit_core].
  destruct (proj2 (list_to_map_is_Some (mkPartCounter 0 0) (seqZ 0 OCF_USER_IO_CLASS_MAX) p)) as [pc Hpc]; [apply elem_of_seqZ; lia|].
  rewrite Hpc. f_equal. by apply elem_of_list_to_map_2, list_elem_of_fmap in Hpc as (q & [= -> ->] & _).
Qed.

(** Two lines of core 1, from the third sector of core line 8 to the second of
    core line 9. *)
Definition wit_entry (line idx : Z) : map_entry := mkEntry (mkMapInfo ((idx + 1) `mod` 5) LOOKUP_HIT line idx 1) false false false 0 0.
Definition wit_request : ocf_request :=
  mkReq 7 1 (8 * 4096 + 1024) 4096 8 9 2 0 false 0 (mkReqInfo 2 0 0 0 0 0 0 false false false) [wit_entry 0 8; wit_entry 1 9].

Definition wit_engine0 : engine := mkEngine wit_cache0 {[ 1 := wit_core ]} wit_request [].

Definition adopt (x c cl dst : Z) : M engine unit :=
  on_cache (ocf_lru_repart_locked wit_coll_cfg x PARTITION_FREELIST dst);;
  on_cache (on_meta (ocf_metadata_add_to_collision wit_coll_cfg c cl (ocf_metadata_hash_func wit_coll_cfg cl c) x)).

Definition wit_start : M engine unit := on_cache (init_attached wit_coll_cfg 0);; (adopt 0 1 8 0;; adopt 1 1 9 3).
Definition wit_engine : engine := default wit_engine0 (snd <$> wit_start wit_engine0).
Definition wit_K : gmap Z (Z * Z) := {[ 1 := (1, 9); 0 := (1, 8) ]}.
Definition wit_A : lock_abs := zarray 10 (fun _ => (OCF_CACHE_LINE_ACCESS_IDLE, [])).

Lemma wit_engine_ready : eng_inv wit_coll_cfg 8 4 wit_engine wit_K wit_A /\ e_req wit_engine = wit_request.
Proof.
  assert (wp wit_start (fun _ s' => eng_inv wit_coll_cfg 8 4 s' wit_K wit_A /\ e_req s' = wit_request) wit_engine0) as ([] & s' & Hrun & Hs);
    [|unfold wit_engine; by rewrite Hrun].
  unfold wit_start. wp_step.
  eapply wp_mono; [apply (attach_engine wit_coll_cfg 8 4 eq_refl wit_engine0 wit_A wit_attach_ok)|].
  - split; [by apply (idle_lock_inv 4 10)|done].
  - intros c rt Hc. cbn [e_cores wit_engine0] in Hc. apply lookup_singleton_Some in Hc as [_ <-]. apply wit_core_zero.
  - intros [] s1 (Hi1 & Hr1 & Hc1 & _). wp_step.
    eapply wp_mono; [apply (adopt_spec wit_coll_cfg 8 4 eq_refl s1 ∅ wit_A 0 1 8 0 Hi1)|]; try done.
    { rewrite Hc1. by exists wit_core. }
    intros [] s2 (Hi2 & Hr2 & Hc2 & _).
    eapply wp_mono; [apply (adopt_spec wit_coll_cfg 8 4 eq_refl s2 _ wit_A 1 1 9 3 Hi2)|]; try done.
    { intros y [[<- ?]|[_ ?]]%lookup_insert_Some; done. }
    { rewrite Hc2, Hc1. by exists wit_core. }
    intros [] s3 (Hi3 & Hr3 & _). split; [exact Hi3|]. by rewrite Hr3, Hr2, Hr1.
Qed.

Lemma wit_geometry : req_geometry wit_coll_cfg wit_request.
Proof. by split. Qed.

Lemma wit_mapped : req_mapped wit_request wit_K.
Proof.
  intros idx Hidx. simpl in Hidx. assert (idx = 0 \/ idx = 1) as [->| ->] by lia; eexists; split_and!; done.
Qed.

Lemma line_operations_witness :
  exists s', run_line_op wit_coll_cfg 4 metadata_raw_type_ram 77 SetValid 2 7 0 wit_engine = Some (tt, s') /\
    eng_inv wit_coll_cfg 8 4 s' wit_K wit_A /\ req_same (e_req wit_engine) (e_req s') /\ touched Valid true 0 2 7 wit_engine s'.
Proof.
  destruct wit_engine_ready as [Hi Hr]. assert (0 <= 0 < collision_table_entries wit_coll_cfg) as Hx by (simpl; lia).
  pose proof (line_words wit_coll_cfg 8 4 wit_engine wit_K wit_A 0 Hi Hx) as [_ [m Hm]].
  apply (line_operations wit_coll_cfg 8 4 metadata_raw_type_ram 77 SetValid wit_engine wit_K wit_A 0 (wit_entry 0 8) 8 m 2 7);
    [done|exact Hi|by rewrite Hr|by rewrite Hr|exact Hm|lia|lia|done].
Defined.

Lemma request_sectors_marked_witness :
  exists s', (ocf_set_valid_map_info wit_coll_cfg;; ocf_set_dirty_map_info wit_coll_cfg metadata_raw_type_ram 77) wit_engine = Some (tt, s') /\
    eng_inv wit_coll_cfg 8 4 s' wit_K wit_A /\
    forall what y j, 0 <= j -> 0 <= y < 10 -> sector what s' y j =
      covers wit_coll_cfg (e_req wit_engine) (core_line_count (e_req wit_engine)) y j || sector what wit_engine y j.
Proof.
  destruct wit_engine_ready as [Hi Hr].
  apply (request_sectors_marked wit_coll_cfg 8 4 metadata_raw_type_ram 77 wit_engine wit_K wit_A eq_refl Hi);
    rewrite Hr; [apply wit_geometry|apply wit_mapped].
Defined.

Lemma purge_request_witness :
  exists s' K', ocf_purge_map_info wit_coll_cfg 4 metadata_raw_type_ram wit_engine = Some (tt, s') /\
    eng_inv wit_coll_cfg 8 4 s' K' wit_A /\ forall y, K' !! y = if purged wit_coll_cfg 8 wit_engine wit_A 2 y then None else wit_K !! y.
Proof.
  destruct wit_engine_ready as [Hi Hr].
  destruct (purge_request wit_coll_cfg 8 4 metadata_raw_type_ram wit_engine wit_K wit_A eq_refl Hi) as (s' & K' & H1 & H2 & H3 & _).
  - rewrite Hr. apply wit_geometry.
  - rewrite Hr. intros idx Hidx. destruct (wit_mapped idx Hidx) as (e & He & _ & Hk). exists e. split; [exact He|intros _; exact Hk].
  - exists s', K'. split; [exact H1|]. split; [exact H2|]. rewrite Hr in H3. exact H3.
Defined.

Lemma sparse_range_removes_witness :
  exists s' K', ocf_metadata_sparse_range wit_coll_cfg 4 1 0 (9 * 4096) wit_engine = Some (0, s') /\
    eng_inv wit_coll_cfg 8 4 s' K' wit_A /\ K' !! 0 = None /\ K' !! 1 = None.
Proof.
  destruct wit_engine_ready as [Hi Hr].
  assert (Forall (fun y => is_dirty (e_cache wit_engine) y = false) (seqZ 0 10)) as Hd by decide_vm. rewrite Forall_forall in Hd.
  destruct (sparse_range_removes wit_coll_cfg 8 4 wit_engine wit_K wit_A 1 0 (9 * 4096) eq_refl Hi) as (s' & K' & H1 & H2 & H3 & _).
  - intros y Hy _. apply Hd, elem_of_seqZ. simpl in Hy. lia.
  - exists s', K'. split; [|split; [exact H2|split; (rewrite H3; [by vm_compute|done])]].
    refine (eq_trans H1 _). by vm_compute.
Defined.
