(* ===== verification/Traverse.v ===== *)
(** The traversal of a request: what the engines find out about the core lines of a
    request before they serve it (ocf/src/engine/engine_common.c). *)

From S2P Require Import Prelude Dll Meta Lru Collision Alock MetaLock Eviction Request CacheLine.

Section traverse.
Variable cfg : config.

(** Whether the entries [entry] and [entry + 1] lie one behind the other on the
    cache device. *)
Definition ocf_engine_clines_phys_cont (entry : Z) : M engine bool :=
  entry1 ← on_req (get_entry entry);
  entry2 ← on_req (get_entry (entry + 1));
  if (status entry1 =? LOOKUP_MISS) || (status entry2 =? LOOKUP_MISS) then mret false
  else
    phys1 ← lift (ocf_metadata_map_lg2phy cfg (coll_idx entry1));
    phys2 ← lift (ocf_metadata_map_lg2phy cfg (coll_idx entry2));
    mret ((phys1 <? phys2) && (u32 (phys1 + 1) =? phys2)).

Definition bump_info (f : ocf_req_info -> ocf_req_info) : M engine unit := on_req (modify (set_info f)).

Definition ocf_engine_update_req_info (idx : Z) : M engine unit :=
  r ← the_req;
  let start_sector := ocf_map_line_start_sector cfg r idx in
  let end_sector := ocf_map_line_end_sector cfg r idx in
  entry ← on_req (get_entry idx);
  BUG_ON (negb (status entry =? LOOKUP_HIT) && negb (status entry =? LOOKUP_MISS) && negb (status entry =? LOOKUP_REMAPPED));;
  (if status entry =? LOOKUP_HIT then
     v ← on_cache (on_meta (metadata_test_valid_sec cfg (coll_idx entry) start_sector end_sector));
     (if (v : bool) then bump_info (add_hit_no 1) else bump_info (add_invalid_no 1));;
     d ← on_cache (on_meta (metadata_test_dirty cfg (coll_idx entry)));
     if (d : bool) then
       bump_info (add_dirty_any 1);;
       a ← on_cache (on_meta (metadata_test_dirty_all_sec cfg (coll_idx entry) start_sector end_sector));
       if (a : bool) then bump_info (add_dirty_all 1) else mret tt
     else mret tt
   else mret tt);;
  (if (status entry =? LOOKUP_HIT) || (status entry =? LOOKUP_REMAPPED) then
     p ← on_cache (on_meta (ocf_metadata_get_partition_id (coll_idx entry)));
     if negb (part_id r =? p) then
       on_req (upd_entry idx (with_re_part true));; bump_info (add_re_part_no 1)
     else mret tt
   else mret tt);;
  (if status entry =? LOOKUP_REMAPPED then bump_info (add_insert_no 1) else mret tt);;
  if 0 <? idx then
    c ← ocf_engine_clines_phys_cont (idx - 1);
    if (c : bool) then bump_info (add_seq_no 1) else mret tt
  else mret tt.

Definition ocf_engine_set_hot : M engine unit :=
  r ← the_req;
  if (hit_no (info r) =? 0) && (invalid_no (info r) =? 0) then mret tt
  else
    for_range (Z.to_nat (core_line_count r)) 0 (fun i =>
      entry ← on_req (get_entry i);
      if status entry =? LOOKUP_HIT then on_cache (ocf_lru_hot_cline cfg (coll_idx entry)) else mret tt).

(** The number of the rounds of [for (...; core_line <= req->core_line_last; ...)];
    the counter of 64 bits does not wrap, since [core_line_last] is the number of a
    line of at least 4 KB. *)
Definition request_rounds (r : ocf_request) : nat := Z.to_nat (core_line_last r - core_line_first r + 1).

Definition ocf_engine_lookup : M engine unit :=
  r ← the_req;
  on_req ocf_req_clear_info;;
  for_range (request_rounds r) 0 (fun i =>
    entry ← on_cache (on_meta (ocf_engine_lookup_map_entry cfg (core r) (u64 (core_line_first r + i))));
    on_req (upd_entry i (with_info entry));;
    if negb (e_status entry =? LOOKUP_HIT) then mret tt else ocf_engine_update_req_info i).

Definition ocf_engine_traverse : M engine unit := ocf_engine_lookup;; ocf_engine_set_hot.

Fixpoint check_loop (n : nat) (i core_id result : Z) : M engine Z :=
  match n with
  | O => mret result
  | S n =>
    entry ← on_req (get_entry i);
    if status entry =? LOOKUP_MISS then check_loop n (i + 1) core_id result
    else
      c ← on_cache (on_meta (_ocf_engine_check_map_entry cfg (me_info entry) core_id));
      if negb (c =? 0) then on_req (upd_entry i (with_invalid true));; check_loop n (i + 1) core_id (-1)
      else on_req (upd_entry i (with_invalid false));; ocf_engine_update_req_info i;; check_loop n (i + 1) core_id result
  end.

Definition ocf_engine_check : M engine Z :=
  r ← the_req;
  on_req ocf_req_clear_info;;
  check_loop (request_rounds r) 0 (core r) 0.
End traverse.

(** ** What a traversal counts

    [entry_stat] says of one entry what [ocf_engine_update_req_info] adds up. *)
Section stats.
Context (cfg : config).

Record entry_stat := mkStat { st_hit : bool; st_invalid : bool; st_dirty : bool; st_dirty_all : bool; st_re_part : bool; st_seq : bool; st_insert : bool }.

Definition range_all (what : status_word) (s : engine) (x a z : Z) : bool := forallb (sector what s x) (seqZ a (z - a + 1)).

Definition contiguous (r : ocf_request) (idx : Z) : bool :=
  match entry_of r idx, entry_of r (idx + 1) with
  | Some e1, Some e2 =>
    negb (status e1 =? LOOKUP_MISS) && negb (status e2 =? LOOKUP_MISS) &&
    match ocf_metadata_map_lg2phy cfg (coll_idx e1), ocf_metadata_map_lg2phy cfg (coll_idx e2) with
    | Some p1, Some p2 => (p1 <? p2) && (u32 (p1 + 1) =? p2)
    | _, _ => false
    end
  | _, _ => false
  end.

(** The state of the lines is that of [s], the entries are those of [r]. *)
Definition stat_of (s : engine) (r : ocf_request) (idx : Z) : entry_stat :=
  match entry_of r idx with
  | Some e =>
    let all := range_all Valid s (coll_idx e) (ocf_map_line_start_sector cfg r idx) (ocf_map_line_end_sector cfg r idx) in
    let dirty := is_dirty (e_cache s) (coll_idx e) in
    let moved := negb (part_id r =? part_of (e_cache s) (coll_idx e)) in
    let seq := (0 <? idx) && contiguous r (idx - 1) in
    if status e =? LOOKUP_HIT then
      mkStat all (negb all) dirty
        (dirty && range_all Dirty s (coll_idx e) (ocf_map_line_start_sector cfg r idx) (ocf_map_line_end_sector cfg r idx)) moved seq false
    else if status e =? LOOKUP_REMAPPED then mkStat false false false false moved seq true
    else mkStat false false false false false false false
  | None => mkStat false false false false false false false
  end.

Definition count_stat (s : engine) (r : ocf_request) (n : Z) (f : entry_stat -> bool) : Z := tally (fun idx => f (stat_of s r idx)) (seqZ 0 n).
Definition stats (s : engine) (r : ocf_request) (n : Z) : ocf_req_info :=
  let count := count_stat s r n in
  mkReqInfo (count st_hit) (count st_invalid) (count st_re_part) (count st_seq) (count st_insert) (count st_dirty_all) (count st_dirty) false false false.

(** The counters of a request after one more entry. *)
Definition plus (st : entry_stat) (i : ocf_req_info) : ocf_req_info :=
  mkReqInfo (hit_no i + b2z (st_hit st)) (invalid_no i + b2z (st_invalid st)) (re_part_no i + b2z (st_re_part st))
    (seq_no i + b2z (st_seq st)) (insert_no i + b2z (st_insert st)) (dirty_all i + b2z (st_dirty_all st)) (dirty_any i + b2z (st_dirty st))
    (flush_metadata i) (mapping_error i) (cleaning_required i).

(** The counters are no more than [n]. *)
Record info_le (n : Z) (i : ocf_req_info) : Prop := {
  il_hit : 0 <= hit_no i <= n; il_invalid : 0 <= invalid_no i <= n; il_re_part : 0 <= re_part_no i <= n; il_seq : 0 <= seq_no i <= n;
  il_insert : 0 <= insert_no i <= n; il_all : 0 <= dirty_all i <= n; il_any : 0 <= dirty_any i <= n }.

(** The request without its map and its information. *)
Definition no_info : ocf_req_info := mkReqInfo 0 0 0 0 0 0 0 false false false.
Definition shell (r : ocf_request) : ocf_request := set_map (fun _ => []) (set_info (fun _ => no_info) r).

Lemma shell_fields r r' : shell r' = shell r -> core r' = core r /\ byte_position r' = byte_position r /\ byte_length r' = byte_length r /\
  core_line_first r' = core_line_first r /\ core_line_last r' = core_line_last r /\ core_line_count r' = core_line_count r /\ part_id r' = part_id r.
Proof.
  intros H. split_and!; [apply (f_equal core H)|apply (f_equal byte_position H)|apply (f_equal byte_length H)|apply (f_equal core_line_first H)
    |apply (f_equal core_line_last H)|apply (f_equal core_line_count H)|apply (f_equal part_id H)].
Qed.

Lemma tally_app {A} (P : A -> bool) l1 l2 : tally P (l1 ++ l2) = tally P l1 + tally P l2.
Proof. unfold tally. rewrite filter_app, length_app. lia. Qed.

Lemma tally_true {A} (l : list A) : tally (fun _ => true) l = Z.of_nat (length l).
Proof. induction l as [|y l IH]; [done|]. rewrite tally_cons, IH. cbn [length]. lia. Qed.

Lemma tally_false {A} (l : list A) : tally (fun _ => false) l = 0.
Proof. induction l as [|y l IH]; [done|]. by rewrite tally_cons, IH. Qed.

(** What is counted of an entry depends on it and on the one before. *)
Definition same_infos (r r' : ocf_request) (n : Z) : Prop := forall i, 0 <= i < n -> me_info <$> entry_of r' i = me_info <$> entry_of r i.

Lemma contiguous_ext r r' idx : me_info <$> entry_of r' idx = me_info <$> entry_of r idx -> me_info <$> entry_of r' (idx + 1) = me_info <$> entry_of r (idx + 1) ->
  contiguous r' idx = contiguous r idx.
Proof.
  unfold contiguous. intros H1 H2. destruct (entry_of r' idx) as [a|], (entry_of r idx) as [a'|]; try done.
  destruct (entry_of r' (idx + 1)) as [b|], (entry_of r (idx + 1)) as [b'|]; try done.
  cbn in H1, H2. unfold status, coll_idx. by simplify_eq; rewrite H1, H2.
Qed.

Lemma stat_ext s r r' n idx : shell r' = shell r -> same_infos r r' n -> 0 <= idx < n -> stat_of s r' idx = stat_of s r idx.
Proof.
  intros Hs Hi Hx. destruct (shell_fields _ _ Hs) as (_ & Hp & Hl & _ & _ & Hc & Hpart). unfold stat_of.
  assert ((0 <? idx) && contiguous r' (idx - 1) = (0 <? idx) && contiguous r (idx - 1)) as Hcont.
  { destruct (Z.ltb_spec 0 idx); [|done]. cbn. apply contiguous_ext; apply Hi; lia. }
  pose proof (Hi idx Hx) as He. unfold ocf_map_line_start_sector, ocf_map_line_end_sector. rewrite Hp, Hl, Hc, Hpart, Hcont.
  destruct (entry_of r' idx) as [a|], (entry_of r idx) as [a'|]; try done. cbn in He. unfold status, coll_idx. injection He as ->. done.
Qed.

Lemma stats_ext s r r' n : shell r' = shell r -> same_infos r r' n -> stats s r' n = stats s r n.
Proof.
  intros Hs Hi. assert (forall f, count_stat s r' n f = count_stat s r n f) as Hc.
  { intros f. apply tally_ext. intros x Hx%elem_of_seqZ. by rewrite (stat_ext s r r' n) by (done || lia). }
  unfold stats. by rewrite !Hc.
Qed.

(** What is counted depends on the lines only through their metadata. *)
Lemma stats_lines s s' r n : c_meta (e_cache s') = c_meta (e_cache s) -> stats s' r n = stats s r n.
Proof.
  intros Hm. assert (forall i, stat_of s' r i = stat_of s r i) as Hst.
  { intros i. unfold stat_of, range_all, sector, is_dirty, part_of. by rewrite Hm. }
  assert (forall f, count_stat s' r n f = count_stat s r n f) as Hc by (intros f; apply tally_ext; intros x _; by rewrite Hst).
  unfold stats. by rewrite !Hc.
Qed.

Lemma count_next s r n f : 0 <= n -> count_stat s r (n + 1) f = count_stat s r n f + (if f (stat_of s r n) then 1 else 0).
Proof.
  intros Hn. unfold count_stat. rewrite seqZ_app by lia. rewrite tally_app. rewrite (seqZ_cons _ 1), Z.add_0_l by lia.
  rewrite tally_cons. change (seqZ (Z.succ n) (Z.pred 1)) with (@nil Z). rewrite tally_nil. lia.
Qed.

Lemma count_range s r n f : 0 <= n -> 0 <= count_stat s r n f <= n.
Proof. intros Hn. unfold count_stat. pose proof (tally_range (fun idx => f (stat_of s r idx)) (seqZ 0 n)) as H. rewrite length_seqZ in H. lia. Qed.
End stats.

(** ** Runs *)

Section runs.
Context (cfg : config) (w le : Z).
Hypothesis Hw : word_bits cfg = Some w.
#[local] Abbreviation N := (collision_table_entries cfg).
#[local] Abbreviation inv := (eng_inv cfg w le).

Lemma inv_req s r K A : inv s K A -> inv (set_e_req r s) K A.
Proof using. intros []. by split. Qed.

Lemma wp_bump f Q s : Q tt (set_e_req (set_info f (e_req s)) s) -> wp (bump_info f) Q s.
Proof using. intros HQ. unfold bump_info, on_req. by do 2 wp_step. Qed.

Lemma wp_entry i f Q s : is_Some (entry_of (e_req s) i) -> Q tt (set_e_req (set_map (alter f (Z.to_nat i)) (e_req s)) s) -> wp (on_req (upd_entry i f)) Q s.
Proof using. intros Hi HQ. unfold on_req. wp_step. by apply wp_upd_entry. Qed.

Lemma test_sec_run what s K A x a z Q : inv s K A -> 0 <= x < N -> 0 <= a <= z -> z < w -> Q (range_all what s x a z) s ->
  wp (on_cache (on_meta (ocf_metadata_test cfg what x a z true))) Q s.
Proof using Hw.
  intros Hi Hx Ha Hz HQ. destruct (line_words cfg w le s K A x Hi Hx) as [Hok [m Hm]]. apply meta_run.
  eapply wp_mono; [apply (ocf_metadata_test_spec cfg w (c_meta (e_cache s)) x a z m Hw Hok Hm); lia|]. intros r m' [-> ->].
  replace (set_e_cache _ s) with s by (by destruct s as [[]]). replace (all_sectors _ _ _) with (range_all what s x a z); [done|].
  unfold range_all, all_sectors, sector. by rewrite Hm.
Qed.

Lemma dirty_run s K A x Q : inv s K A -> 0 <= x < N -> Q (is_dirty (e_cache s) x) s -> wp (on_cache (on_meta (metadata_test_dirty cfg x))) Q s.
Proof using Hw.
  intros Hi Hx HQ. destruct (en_place _ _ _ _ _ _ Hi) as [L HL]. unfold on_cache. wp_step.
  eapply (test_dirty_run cfg w Hw); [exact HL|done|]. by replace (set_e_cache (e_cache s) s) with s by (by destruct s).
Qed.

(** A known layout of the device. *)
Definition layout_known : Prop := layout cfg = ocf_metadata_layout_striping \/ layout cfg = ocf_metadata_layout_seq.

Lemma phys_cont_run s idx Q : layout_known -> is_Some (entry_of (e_req s) idx) -> is_Some (entry_of (e_req s) (idx + 1)) ->
  Q (contiguous cfg (e_req s) idx) s -> wp (ocf_engine_clines_phys_cont cfg idx) Q s.
Proof using.
  intros Hl [e1 H1] [e2 H2]. unfold contiguous, ocf_engine_clines_phys_cont. rewrite H1, H2. intros HQ.
  wp_step. eapply entry_run; [done|]. wp_step. eapply entry_run; [done|].
  destruct (status e1 =? LOOKUP_MISS); cbn [orb negb andb] in *; [by apply wp_ret|].
  destruct (status e2 =? LOOKUP_MISS); cbn [orb negb andb] in *; [by apply wp_ret|].
  assert (forall x, exists p, ocf_metadata_map_lg2phy cfg x = Some p) as Hp.
  { intros x. unfold ocf_metadata_map_lg2phy. destruct Hl as [-> | ->]; by eexists. }
  destruct (Hp (coll_idx e1)) as [p1 Hp1], (Hp (coll_idx e2)) as [p2 Hp2]. rewrite Hp1, Hp2 in HQ.
  wp_step. eapply wp_lift; [done|]. wp_step. eapply wp_lift; [done|]. by apply wp_ret.
Qed.


(** The request [r] after an entry was counted. *)
Definition counted (s : engine) (r : ocf_request) (idx : Z) (e : map_entry) (r' : ocf_request) : Prop :=
  shell r' = shell r /\ info r' = plus (stat_of cfg s r idx) (info r) /\ length (map r') = length (map r) /\
  same_infos r r' (Z.of_nat (length (map r))) /\
  forall i, entry_of r' i = (if i =? idx then with_re_part (st_re_part (stat_of cfg s r idx) || re_part e) else id) <$> entry_of r i.

Lemma set_e_req_twice r r' s : set_e_req r (set_e_req r' s) = set_e_req r s.
Proof using. done. Qed.

(** The counters that were incremented are those of [plus]. *)
Ltac add_up := unfold plus, add_hit_no, add_invalid_no, add_dirty_any, add_dirty_all, add_re_part_no, add_insert_no, add_seq_no; cbn in *;
  rewrite ?u32_small by lia; repeat f_equal; lia.
Ltac count_up :=
  match goal with H : ?Q tt (set_e_req (set_info (plus ?st) (e_req ?s)) ?s) |- ?Q tt ?t =>
    replace t with (set_e_req (set_info (plus st) (e_req s)) s);
    [|destruct s as [? ? [] ?]; unfold set_e_req, set_info; add_up] end.

(** Adding up the sectors of a line that was hit. *)
Lemma sectors_counted s K A x a z n (Q : unit -> engine -> Prop) : inv s K A -> 0 <= x < N -> 0 <= a <= z -> z < w ->
  info_le n (info (e_req s)) -> 0 <= n < 2 ^ 32 - 1 ->
  let all := range_all Valid s x a z in
  let dirty := is_dirty (e_cache s) x in
  Q tt (set_e_req (set_info (plus (mkStat all (negb all) dirty (dirty && range_all Dirty s x a z) false false false)) (e_req s)) s) ->
  wp (v ← on_cache (on_meta (metadata_test_valid_sec cfg x a z));
      (if (v : bool) then bump_info (add_hit_no 1) else bump_info (add_invalid_no 1));;
      d ← on_cache (on_meta (metadata_test_dirty cfg x));
      if (d : bool) then
        bump_info (add_dirty_any 1);;
        l ← on_cache (on_meta (metadata_test_dirty_all_sec cfg x a z));
        if (l : bool) then bump_info (add_dirty_all 1) else mret tt
      else mret tt) Q s.
Proof using Hw.
  intros Hi Hx Ha Hz [] Hn. cbv zeta. intros HQ. wp_step. eapply test_sec_run; [done..|].
  destruct (range_all Valid s x a z); wp_step; apply wp_bump; wp_step; (eapply dirty_run; [by apply inv_req|done|]); cbn [e_cache set_e_req];
    (destruct (is_dirty (e_cache s) x); [wp_step; apply wp_bump; wp_step; eapply test_sec_run; [by apply inv_req, inv_req|done..|];
      match goal with |- context [range_all Dirty (set_e_req ?r ?t) x a z] => change (range_all Dirty (set_e_req r t) x a z) with (range_all Dirty s x a z) end;
      destruct (range_all Dirty s x a z); [apply wp_bump|apply wp_ret]|apply wp_ret]);
    by (count_up; apply HQ).
Qed.

Definition zero_stat : entry_stat := mkStat false false false false false false false.

Lemma set_plus_zero r : set_info (plus zero_stat) r = r.
Proof using. destruct r as [? ? ? ? ? ? ? ? ? ? [] ?]. unfold set_info, plus. cbn. by rewrite !Z.add_0_r. Qed.

Lemma set_same s : set_e_req (e_req s) s = s.
Proof using. by destruct s. Qed.

(** The state after the counters of [st] were added and the map updated. *)
Definition with_count (fm : list map_entry -> list map_entry) (st : entry_stat) (s : engine) : engine :=
  set_e_req (set_map fm (set_info (plus st) (e_req s))) s.

Lemma plus_re_part n i h v d a sq ins : info_le n i -> n < 2 ^ 32 - 1 ->
  add_re_part_no 1 (plus (mkStat h v d a false sq ins) i) = plus (mkStat h v d a true sq ins) i.
Proof using. intros [] Hn. add_up. Qed.

Lemma plus_insert n i h v d a m sq : info_le n i -> n < 2 ^ 32 - 1 ->
  add_insert_no 1 (plus (mkStat h v d a m sq false) i) = plus (mkStat h v d a m sq true) i.
Proof using. intros [] Hn. add_up. Qed.

Lemma plus_seq n i h v d a m ins : info_le n i -> n < 2 ^ 32 - 1 ->
  add_seq_no 1 (plus (mkStat h v d a m false ins) i) = plus (mkStat h v d a m true ins) i.
Proof using. intros [] Hn. add_up. Qed.

Lemma count_bump fm st st' f s (Q : unit -> engine -> Prop) : f (plus st (info (e_req s))) = plus st' (info (e_req s)) ->
  Q tt (with_count fm st' s) -> wp (bump_info f) Q (with_count fm st s).
Proof using. intros Hf HQ. apply wp_bump. unfold with_count, set_e_req, set_map, set_info in *. cbn. by rewrite Hf. Qed.

Lemma entry_alter_info r f i j : (forall e, me_info (f e) = me_info e) ->
  me_info <$> entry_of (set_map (alter f i) r) j = me_info <$> entry_of r j.
Proof using.
  intros Hf. unfold entry_of. destruct (j <? 0); [done|]. cbn. destruct (decide (i = Z.to_nat j)) as [->|].
  - rewrite list_lookup_alter_eq. destruct (map r !! Z.to_nat j); cbn; [by rewrite Hf|done].
  - by rewrite list_lookup_alter_ne.
Qed.

Lemma entry_alter r f j i : 0 <= j -> entry_of (set_map (alter f (Z.to_nat j)) r) i = (if i =? j then f else id) <$> entry_of r i.
Proof using.
  intros Hj. unfold entry_of. cbn. destruct (Z.ltb_spec i 0); [done|].
  destruct (Z.eqb_spec i j) as [->|]; [by rewrite list_lookup_alter_eq|rewrite list_lookup_alter_ne by lia]. by destruct (map r !! Z.to_nat i).
Qed.

Lemma update_info_run s K A idx e : layout_known -> inv s K A -> req_geometry cfg (e_req s) -> 0 <= idx < core_line_count (e_req s) ->
  entry_of (e_req s) idx = Some e -> (0 < idx -> is_Some (entry_of (e_req s) (idx - 1))) ->
  status e = LOOKUP_HIT \/ status e = LOOKUP_REMAPPED -> 0 <= coll_idx e < N -> info_le idx (info (e_req s)) ->
  wp (ocf_engine_update_req_info cfg idx) (fun _ s' => exists r', s' = set_e_req r' s /\ counted s (e_req s) idx e r') s.
Proof using Hw.
  intros Hl Hi Hg Hidx He Hprev Hst Hx Hle. destruct (request_sectors cfg w Hw _ idx Hg Hidx) as [Ha Hz]. pose proof (rg_fits _ _ Hg) as Hf.
  unfold ocf_engine_update_req_info, the_req. wp_step. wp_step. cbv zeta. wp_step. eapply entry_run; [done|].
  wp_step. wp_step; [by destruct Hst as [-> | ->]|].
  wp_step. set (x := coll_idx e) in *. set (a := ocf_map_line_start_sector cfg (e_req s) idx) in *. set (z := ocf_map_line_end_sector cfg (e_req s) idx) in *.
  set (st1 := if status e =? LOOKUP_HIT then mkStat (range_all Valid s x a z) (negb (range_all Valid s x a z)) (is_dirty (e_cache s) x)
    (is_dirty (e_cache s) x && range_all Dirty s x a z) false false false else zero_stat).
  apply (wp_mono _ (fun _ s' => s' = set_e_req (set_info (plus st1) (e_req s)) s)).
  { unfold st1. destruct (status e =? LOOKUP_HIT); [by apply (sectors_counted s K A x a z idx); done || lia|].
    apply wp_ret. by rewrite set_plus_zero, set_same. }
  assert (exists h v d a', st1 = mkStat h v d a' false false false) as (h & v & d & a' & E1).
  { unfold st1. destruct (status e =? LOOKUP_HIT); by do 4 eexists. }
  intros [] s1 ->. set (moved := negb (part_id (e_req s) =? part_of (e_cache s) x)).
  set (fm := if moved then alter (with_re_part true) (Z.to_nat idx) else fun m : list map_entry => m).
  assert (forall f i, me_info <$> entry_of (set_map fm (set_info f (e_req s))) i = me_info <$> entry_of (e_req s) i) as Hent.
  { intros f i. unfold fm. destruct moved; [by apply (entry_alter_info (set_info f (e_req s)))|done]. }
  assert (forall f i, is_Some (entry_of (e_req s) i) -> is_Some (entry_of (set_map fm (set_info f (e_req s))) i)) as Hdom.
  { intros f i [e0 He0]. specialize (Hent f i). rewrite He0 in Hent. destruct (entry_of (set_map _ _) i); [by eexists|done]. }
  wp_step. apply (wp_mono _ (fun _ s' => s' = with_count fm (mkStat h v d a' moved false false) s)).
  { replace ((status e =? LOOKUP_HIT) || (status e =? LOOKUP_REMAPPED)) with true by (by destruct Hst as [-> | ->]).
    wp_step. eapply (part_run cfg w le Hw); [by apply inv_req|done|]. cbn [e_cache set_e_req]. fold moved. rewrite E1. unfold fm.
    destruct moved; [|by apply wp_ret]. wp_step. apply wp_entry; [by eexists|].
    by eapply (count_bump (alter (with_re_part true) (Z.to_nat idx)) (mkStat h v d a' false false false)); [by apply (plus_re_part idx); try lia|]. }
  intros [] s2 ->. wp_step.
  apply (wp_mono _ (fun _ s' => s' = with_count fm (mkStat h v d a' moved false (status e =? LOOKUP_REMAPPED)) s)).
  { destruct (status e =? LOOKUP_REMAPPED); [|by apply wp_ret]. by eapply count_bump; [by apply (plus_insert idx); try lia|]. }
  intros [] s3 ->. set (seq := (0 <? idx) && contiguous cfg (e_req s) (idx - 1)).
  apply (wp_mono _ (fun _ s' => s' = with_count fm (mkStat h v d a' moved seq (status e =? LOOKUP_REMAPPED)) s)).
  { unfold seq. destruct (Z.ltb_spec 0 idx) as [Hpos|]; [|by apply wp_ret]. destruct (Hprev Hpos) as [e0 He0].
    wp_step. eapply phys_cont_run; [done|apply (Hdom _ (idx - 1)); by eexists|replace (idx - 1 + 1) with idx by lia; apply Hdom; by eexists|].
    unfold with_count at 1. cbn [e_req set_e_req]. rewrite (contiguous_ext cfg (e_req s)) by apply Hent.
    destruct (contiguous cfg (e_req s) (idx - 1)); [|by apply wp_ret]. by eapply count_bump; [by apply (plus_seq idx); try lia|]. }
  intros [] s4 ->. eexists. split; [reflexivity|].
  assert (stat_of cfg s (e_req s) idx = mkStat h v d a' moved seq (status e =? LOOKUP_REMAPPED)) as Hstat.
  { unfold stat_of. rewrite He. fold x a z. fold moved seq. revert E1. unfold st1. destruct Hst as [-> | ->]; cbn; by intros [= -> -> -> ->]. }
  unfold counted. rewrite Hstat. split_and!; [done|done| | |].
  - cbn. unfold fm. destruct moved; [by rewrite length_alter|done].
  - intros i _. apply Hent.
  - intros i. cbn. unfold fm. destruct moved; [|by destruct (Z.eqb_spec i idx) as [->|]; [rewrite He; destruct e|destruct (entry_of _ i)]].
    apply (entry_alter (set_info _ (e_req s))). lia.
Qed.

(** ** Lookup *)

(** What the lookup finds for the core line [i] of the request. *)
Definition looked_up (K : gmap Z (Z * Z)) (r : ocf_request) (i : Z) (m : ocf_map_info) : Prop :=
  e_hash m = ocf_metadata_hash_func cfg (core_line_first r + i) (core r) /\ e_core_line m = core_line_first r + i /\ e_core_id m = core r /\
  ((exists x, K !! x = Some (core r, core_line_first r + i) /\ e_status m = LOOKUP_HIT /\ e_coll_idx m = x) \/
   ((forall x, K !! x <> Some (core r, core_line_first r + i)) /\ e_status m = LOOKUP_MISS /\ e_coll_idx m = N)).

(** After the first [n] rounds. *)
Definition traversed (s : engine) (K : gmap Z (Z * Z)) (r : ocf_request) (n : Z) (r' : ocf_request) : Prop :=
  shell r' = shell r /\ length (map r') = length (map r) /\ info r' = stats cfg s r' n /\
  forall i, 0 <= i < n -> exists e, entry_of r' i = Some e /\ looked_up K r i (me_info e).

Lemma geometry_shell r r' : shell r' = shell r -> req_geometry cfg r -> req_geometry cfg r'.
Proof using. intros (_ & E1 & E2 & E3 & E4 & E5 & _)%shell_fields [H1 H2 H3 H4 H5]. split; by rewrite ?E1, ?E2, ?E3, ?E4, ?E5. Qed.

Lemma stats_next s r n : 0 <= n -> stats cfg s r (n + 1) = plus (stat_of cfg s r n) (stats cfg s r n).
Proof using. intros Hn. unfold stats. by rewrite !count_next by done. Qed.

Lemma stats_le s r n : 0 <= n -> info_le n (stats cfg s r n).
Proof using. intros Hn. by split; apply count_range. Qed.

Lemma entry_some r i : 0 <= i < Z.of_nat (length (map r)) -> is_Some (entry_of r i).
Proof using. intros Hi. unfold entry_of. destruct (Z.ltb_spec i 0); [lia|]. apply lookup_lt_is_Some. lia. Qed.

Lemma rounds_count r : req_geometry cfg r -> request_rounds r = Z.to_nat (core_line_count r) /\ 0 < core_line_count r /\ 0 <= core_line_first r.
Proof using Hw.
  intros [Hb H1 H2 H3 H4]. destruct (line_bytes cfg w Hw) as (Hls & _ & Hwr). unfold request_rounds. rewrite <- H3. split_and!; [done| |].
  - assert (core_line_first r <= core_line_last r); [|lia]. rewrite H1, H2. apply Z.div_le_mono; lia.
  - rewrite H1. apply Z.div_pos; lia.
Qed.

Lemma core_line_fits r i : req_geometry cfg r -> 0 <= i < core_line_count r -> u64 (core_line_first r + i) = core_line_first r + i.
Proof using Hw.
  intros Hg Hi. pose proof (rounds_count r Hg) as (_ & _ & Hf). destruct Hg as [Hb H1 H2 H3 H4]. destruct (line_bytes cfg w Hw) as (Hls & _ & Hwr).
  apply u64_small. split; [lia|]. assert (core_line_last r <= byte_position r + byte_length r - 1); [|lia].
  rewrite H2. apply Z.div_le_upper_bound; nia.
Qed.

Lemma lookup_round s K A j r1 : layout_known -> inv s K A -> req_geometry cfg (e_req s) -> Z.of_nat (length (map (e_req s))) = core_line_count (e_req s) ->
  0 <= j < core_line_count (e_req s) -> traversed s K (e_req s) j r1 ->
  wp (entry ← on_cache (on_meta (ocf_engine_lookup_map_entry cfg (core (e_req s)) (u64 (core_line_first (e_req s) + j))));
      on_req (upd_entry j (with_info entry));;
      if negb (e_status entry =? LOOKUP_HIT) then mret tt else ocf_engine_update_req_info cfg j)
    (fun _ s' => exists r', s' = set_e_req r' s /\ traversed s K (e_req s) (j + 1) r') (set_e_req r1 s).
Proof using Hw.
  intros Hl Hi Hg Hlen Hj (Hs & Hlm & Hinfo & Hent). destruct (en_map _ _ _ _ _ _ Hi) as [B HB]. rewrite core_line_fits by done.
  wp_step. apply meta_run. eapply wp_mono; [by eapply lookup_spec|]. intros m m' (-> & Hm). cbn [e_cache set_e_req].
  replace (set_e_cache _ (set_e_req r1 s)) with (set_e_req r1 s) by (by destruct s as [[]]).
  wp_step. apply wp_entry; [apply entry_some; cbn; lia|]. cbn [e_req set_e_req]. rewrite set_e_req_twice.
  set (r2 := set_map (alter (with_info m) (Z.to_nat j)) r1).
  destruct (entry_some r1 j) as [e0 He0]; [lia|].
  assert (forall i, entry_of r2 i = (if i =? j then with_info m else id) <$> entry_of r1 i) as H2 by (intros i; apply entry_alter; lia).
  assert (entry_of r2 j = Some (with_info m e0)) as Hej by (by rewrite H2, He0, Z.eqb_refl).
  assert (same_infos r1 r2 j) as Hsame. { intros i Hij. rewrite H2. destruct (Z.eqb_spec i j); [lia|]. by destruct (entry_of r1 i). }
  assert (info r2 = stats cfg s r2 j) as Hi2. { change (info r2) with (info r1). rewrite Hinfo. symmetry. by apply stats_ext. }
  assert (looked_up K (e_req s) j m) as Hlook by (destruct Hm as (? & ? & ? & ?); by split_and!).
  assert (forall r', shell r' = shell r2 -> length (map r') = length (map r2) -> same_infos r2 r' (j + 1) ->
    info r' = plus (stat_of cfg s r2 j) (info r2) -> traversed s K (e_req s) (j + 1) r') as Hfin.
  { intros r' Hs' Hlen' Hsi Hinf. assert (length (map r2) = length (map r1)) as Hl2 by (cbn; by rewrite length_alter).
    split_and!; [by rewrite Hs', <- Hs|by rewrite Hlen', Hl2| |].
    - rewrite Hinf, Hi2, <- stats_next by lia. symmetry. by apply stats_ext.
    - intros i Hij. specialize (Hsi i Hij). destruct (Z.eqb_spec i j) as [->|].
      + rewrite Hej in Hsi. destruct (entry_of r' j) as [e'|]; [|done]. exists e'. split; [done|]. injection Hsi as ->. done.
      + destruct (Hent i ltac:(lia)) as (e' & He' & Hle). rewrite H2, He' in Hsi. destruct (Z.eqb_spec i j); [done|].
        destruct (entry_of r' i) as [e2|]; [|done]. exists e2. split; [done|]. injection Hsi as ->. done. }
  destruct (Z.eqb_spec (e_status m) LOOKUP_HIT) as [Hhit|Hmiss]; cbn [negb].
  - destruct Hlook as (_ & _ & _ & [(x & Hk & _ & Hx)|(_ & Hst & _)]); [|by rewrite Hst in Hhit].
    pose proof (mapped_line cfg w le s K A x _ Hi Hk) as Hxr.
    eapply wp_mono; [apply (update_info_run (set_e_req r2 s) K A j (with_info m e0))|]; cbn [e_req set_e_req]; try done.
    + by apply inv_req.
    + by apply (geometry_shell (e_req s)).
    + change (core_line_count r2) with (core_line_count r1). by rewrite (f_equal core_line_count Hs : core_line_count r1 = _).
    + intros Hpos. apply entry_some. cbn. rewrite length_alter. lia.
    + by left.
    + unfold coll_idx. cbn. by rewrite Hx.
    + rewrite Hi2. apply stats_le. lia.
    + intros [] s' (r' & -> & Hs' & Hinf & Hlen' & Hsi & _). exists r'. split; [done|]. apply Hfin; [done..| |done].
      intros i Hij. apply Hsi. cbn. rewrite length_alter. lia.
  - apply wp_ret. exists r2. split; [done|]. apply Hfin; [done..|].
    replace (stat_of cfg s r2 j) with zero_stat; [destruct (info r2); unfold plus; cbn; by rewrite !Z.add_0_r|].
    destruct Hlook as (_ & _ & _ & [(x & Hk & Hst & Hx)|(_ & Hst & _)]); [done|]. unfold stat_of. rewrite Hej. unfold status. cbn. by rewrite Hst.
Qed.

Lemma lookup_run s K A : layout_known -> inv s K A -> req_geometry cfg (e_req s) -> Z.of_nat (length (map (e_req s))) = core_line_count (e_req s) ->
  wp (ocf_engine_lookup cfg) (fun _ s' => exists r', s' = set_e_req r' s /\ traversed s K (e_req s) (core_line_count (e_req s)) r') s.
Proof using Hw.
  intros Hl Hi Hg Hlen. destruct (rounds_count _ Hg) as (Hr & Hpos & _). unfold ocf_engine_lookup, the_req.
  wp_step. wp_step. wp_step. unfold on_req at 1. wp_step. unfold ocf_req_clear_info. wp_step. rewrite Hr.
  apply (wp_for_range _ (fun j s' => exists r', s' = set_e_req r' s /\ traversed s K (e_req s) j r')).
  - intros j s1 Hj (r1 & -> & Ht). rewrite Z.add_0_l, Z2Nat.id in Hj by lia. by eapply lookup_round.
  - eexists. split; [reflexivity|]. split_and!; [done..|]. intros i Hij. lia.
  - rewrite Z.add_0_l, Z2Nat.id by lia. done.
Qed.

(** The state of [s] in a cache whose lines are those of [s]. *)
Lemma place_engine s c K A : inv s K A -> (exists L, cache_inv cfg w c L) -> c_meta c = c_meta (e_cache s) -> c_alock c = c_alock (e_cache s) ->
  inv (set_e_cache c s) K A.
Proof using.
  intros [H1 H2 H3 H4 H5 H6] HL Hm Ha. assert (forall x, view c K x = view (e_cache s) K x) as Hv.
  { intros x. unfold view, part_of, is_valid, is_dirty. by rewrite Hm. }
  split; cbn [e_cache e_cores set_e_cache]; try done.
  - by rewrite Hm.
  - destruct H3 as [H31 H32]. split; by rewrite Ha.
  - intros what. eapply counts_ext; [apply H4|]. intros x _. left. rewrite Hv. by split_and!.
  - intros x Hx. rewrite Hv. by apply H5.
  - by rewrite Hm.
Qed.

(** Only the order of the LRU lists changed. *)
Definition warmed (s s' : engine) : Prop :=
  e_req s' = e_req s /\ e_cores s' = e_cores s /\ e_cleaning s' = e_cleaning s /\ c_meta (e_cache s') = c_meta (e_cache s) /\
  c_alock (e_cache s') = c_alock (e_cache s).

Lemma set_hot_run s K A : inv s K A -> core_line_count (e_req s) <= Z.of_nat (length (map (e_req s))) ->
  (forall i e, 0 <= i < core_line_count (e_req s) -> entry_of (e_req s) i = Some e -> status e = LOOKUP_HIT -> is_Some (K !! coll_idx e)) ->
  wp (ocf_engine_set_hot cfg) (fun _ s' => inv s' K A /\ warmed s s') s.
Proof using Hw.
  intros Hi Hlen Hhit. unfold ocf_engine_set_hot, the_req. wp_step. wp_step.
  destruct ((hit_no (info (e_req s)) =? 0) && (invalid_no (info (e_req s)) =? 0)); [by apply wp_ret|].
  apply (wp_for_range _ (fun _ s' => inv s' K A /\ warmed s s')); [|done|done].
  intros j s1 Hj (Hi1 & Hr1 & Hc1 & Hcl1 & Hm1 & Ha1). destruct (entry_some (e_req s) j) as [e He]; [lia|].
  wp_step. eapply entry_run; [by rewrite Hr1|]. destruct (Z.eqb_spec (status e) LOOKUP_HIT) as [Hst|]; [|by apply wp_ret].
  destruct (Hhit j e ltac:(lia) He Hst) as [[c cl] Hk]. pose proof (mapped_line cfg w le s1 K A _ _ Hi1 Hk) as Hx.
  destruct (mapped_core cfg w le s1 K A _ _ _ Hi1 Hk) as (_ & Hp & _). destruct (en_place _ _ _ _ _ _ Hi1) as [L HL].
  unfold on_cache. wp_step. eapply wp_mono; [apply (hot_cline_spec cfg w Hw (e_cache s1) L); [done..|lia]|].
  intros [] c' (Hex & Hm & Ha). split; [by apply place_engine|]. split_and!; [done..| |]; cbn; congruence.
Qed.

(** ** Check *)

(** The entry still says which core line its cache line holds. *)
Definition held (K : gmap Z (Z * Z)) (core_id : Z) (e : map_entry) : bool :=
  (status e =? LOOKUP_MISS) || bool_decide (K !! coll_idx e = Some (core_id, e_core_line (me_info e))).

Lemma check_entry_run s K A e c0 Q : inv s K A -> (status e <> LOOKUP_MISS -> 0 <= coll_idx e < N) -> c0 <> OCF_CORE_MAX ->
  Q (if held K c0 e then 0 else -1) s -> wp (on_cache (on_meta (_ocf_engine_check_map_entry cfg (me_info e) c0))) Q s.
Proof using.
  intros Hi He Hcore HQ. destruct (en_map _ _ _ _ _ _ Hi) as [B HB]. apply meta_run.
  assert (set_e_cache (set_c_meta (c_meta (e_cache s)) (e_cache s)) s = s) as Hid by (by destruct s as [[]]).
  unfold _ocf_engine_check_map_entry, held in *. fold (status e). destruct (Z.eqb_spec (status e) LOOKUP_MISS) as [|Hne]; [wp_step; by rewrite Hid|].
  pose proof (He Hne) as Hx. unfold coll_idx in *. cbn [orb] in HQ. set (x := e_coll_idx (me_info e)) in *.
  assert (exists m, maps (c_meta (e_cache s)) !! x = Some m /\ (K !! x = Some (core_id m, core_line m) \/ K !! x = None /\ core_id m = OCF_CORE_MAX)) as (m & Hm & Hk).
  { destruct (K !! x) as [[cid cl]|] eqn:Hk.
    - pose proof (ci_mapped _ _ _ _ HB _ _ _ Hk) as [(m & Hm & <- & <-) _]. exists m. split; [done|by left].
    - destruct (ci_unmapped _ _ _ _ HB x Hx Hk) as (m & Hm & Hc & _). exists m. split; [done|by right]. }
  wp_step. wp_step; [lia|]. wp_step. unfold ocf_metadata_get_core_info. wp_step. eapply wp_rd_map; [exact Hm|]. wp_step.
  assert ((c0 =? core_id m) && (core_line m =? e_core_line (me_info e)) = bool_decide (K !! x = Some (c0, e_core_line (me_info e)))) as ->.
  { apply eq_true_iff_eq. rewrite bool_decide_eq_true, andb_true_iff, !Z.eqb_eq. destruct Hk as [-> |[-> Hk]]; split.
    - intros [-> ->]. done.
    - by intros [= -> ->].
    - intros [Heq _]. congruence.
    - done. }
  case_bool_decide; wp_step; by rewrite Hid.
Qed.

(** The first [n] entries are [held]. *)
Definition held_upto (K : gmap Z (Z * Z)) (r : ocf_request) (n : Z) : bool :=
  forallb (fun i => match entry_of r i with Some e => held K (core r) e | None => true end) (seqZ 0 n).

Lemma held_next K r n e : 0 <= n -> entry_of r n = Some e -> held_upto K r (n + 1) = held_upto K r n && held K (core r) e.
Proof using. intros Hn He. unfold held_upto. rewrite seqZ_app, forallb_app by lia. rewrite (seqZ_cons _ 1), Z.add_0_l by lia. cbn. by rewrite He, andb_true_r. Qed.

(** The request after the first [n] rounds of the check. *)
Definition checked (s : engine) (K : gmap Z (Z * Z)) (r : ocf_request) (n : Z) (r' : ocf_request) : Prop :=
  shell r' = shell r /\ length (map r') = length (map r) /\ info_le n (info r') /\ (held_upto K r n = true -> info r' = stats cfg s r n) /\
  (forall i, me_info <$> entry_of r' i = me_info <$> entry_of r i) /\
  forall i e, 0 <= i < n -> entry_of r' i = Some e -> status e <> LOOKUP_MISS -> invalid e = negb (held K (core r) e).

(** What the entries of a request look like after a lookup or a mapping. *)
Definition entry_ok (e : map_entry) : Prop :=
  status e = LOOKUP_MISS \/ (status e = LOOKUP_HIT \/ status e = LOOKUP_REMAPPED) /\ 0 <= coll_idx e < N.

Lemma plus_le n st i : info_le n i -> info_le (n + 1) (plus st i).
Proof using. intros []. split; cbn; unfold b2z; case_match; lia. Qed.

Lemma check_round s K A j r1 e result : layout_known -> inv s K A -> req_geometry cfg (e_req s) ->
  Z.of_nat (length (map (e_req s))) = core_line_count (e_req s) -> core (e_req s) <> OCF_CORE_MAX ->
  0 <= j < core_line_count (e_req s) -> entry_of (e_req s) j = Some e -> entry_ok e ->
  checked s K (e_req s) j r1 -> forall (k : Z -> M engine Z) Q,
  (forall r', checked s K (e_req s) (j + 1) r' -> wp (k (if held K (core (e_req s)) e then result else -1)) Q (set_e_req r' s)) ->
  exists e1, entry_of r1 j = Some e1 /\ status e1 = status e /\
  if status e1 =? LOOKUP_MISS then wp (k result) Q (set_e_req r1 s)
  else wp (c ← on_cache (on_meta (_ocf_engine_check_map_entry cfg (me_info e1) (core (e_req s))));
    if negb (c =? 0) then on_req (upd_entry j (with_invalid true));; k (-1)
    else on_req (upd_entry j (with_invalid false));; ocf_engine_update_req_info cfg j;; k result) Q (set_e_req r1 s).
Proof using Hw.
  intros Hl Hi Hg Hlen Hcore Hj He Hok (Hs & Hlm & Hle & Hinf & Hmi & Hinv) k Q HQ.
  pose proof (Hmi j) as Hej. rewrite He in Hej. destruct (entry_of r1 j) as [e1|] eqn:He1; [|done]. injection Hej as Hej.
  exists e1. assert (status e1 = status e) as Hst by (unfold status; by rewrite Hej). split_and!; [done..|].
  assert (held K (core (e_req s)) e1 = held K (core (e_req s)) e) as Hh by (unfold held, status, coll_idx; by rewrite Hej).
  destruct (Z.eqb_spec (status e1) LOOKUP_MISS) as [Hm|Hm].
  - assert (held K (core (e_req s)) e = true) as Hh1 by (unfold held; by rewrite <- Hst, Hm). rewrite Hh1 in HQ. apply HQ.
    split_and!; [done|done|by destruct Hle; split; lia| |done|].
    + rewrite (held_next K _ j e), Hh1, andb_true_r, stats_next by (done || lia). intros Hu. rewrite (Hinf Hu).
      unfold stat_of. rewrite He, <- Hst, Hm. cbn. unfold plus. cbn. by rewrite !Z.add_0_r.
    + intros i e' Hij Hie Hne. destruct (decide (i = j)) as [->|]; [congruence|apply (Hinv i); [lia|done..]].
  - assert (0 <= coll_idx e1 < N /\ (status e1 = LOOKUP_HIT \/ status e1 = LOOKUP_REMAPPED)) as [Hx Hhr].
    { unfold entry_ok, status, coll_idx in *. rewrite Hej. rewrite <- Hej in *. by destruct Hok as [|[? ?]]. }
    wp_step. eapply check_entry_run; [by apply inv_req|done|done|]. rewrite Hh.
    set (b := negb (held K (core (e_req s)) e)). set (r2 := set_map (alter (with_invalid b) (Z.to_nat j)) r1).
    assert (shell r2 = shell (e_req s)) as Hs2 by (rewrite <- Hs; done).
    assert (length (map r2) = length (map r1)) as Hl2 by (cbn; by rewrite length_alter).
    assert (forall i, entry_of r2 i = (if i =? j then with_invalid b else id) <$> entry_of r1 i) as He2 by (intros i; apply entry_alter; lia).
    assert (forall i, me_info <$> entry_of r2 i = me_info <$> entry_of (e_req s) i) as Hm2.
    { intros i. rewrite <- Hmi, He2. by destruct (entry_of r1 i), (i =? j). }
    assert (forall i e', 0 <= i < j + 1 -> entry_of r2 i = Some e' -> status e' <> LOOKUP_MISS -> invalid e' = negb (held K (core (e_req s)) e')) as Hv2.
    { intros i e' Hij Hie Hne. rewrite He2 in Hie. destruct (Z.eqb_spec i j) as [->|].
      - rewrite He1 in Hie. injection Hie as <-. change (b = negb (held K (core (e_req s)) e1)). unfold b. by rewrite Hh.
      - destruct (entry_of r1 i) as [e2|] eqn:Hi2; [|done]. injection Hie as <-. apply (Hinv i); [lia|done..]. }
    destruct (held K (core (e_req s)) e) eqn:Hhe; cbn [Z.eqb negb].
    + wp_step. apply wp_entry; [by eexists|]. cbn [e_req set_e_req]. fold b r2. rewrite set_e_req_twice. wp_step.
      eapply wp_mono; [apply (update_info_run (set_e_req r2 s) K A j (with_invalid b e1))|]; cbn [e_req set_e_req]; try done.
      * by apply inv_req.
      * by apply (geometry_shell (e_req s)).
      * by rewrite (f_equal core_line_count Hs2 : core_line_count r2 = _).
      * rewrite He2, He1. by rewrite Z.eqb_refl.
      * intros Hpos. apply entry_some. lia.
      * intros [] s' (r' & -> & Hs' & Hinf' & Hlen' & Hsi & Hall). rewrite set_e_req_twice. apply HQ.
        split_and!; [by rewrite Hs'|by rewrite Hlen', Hl2|rewrite Hinf'; by apply plus_le| | |].
        -- rewrite (held_next K _ j e), Hhe, andb_true_r, stats_next by (done || lia). intros Hu. rewrite Hinf'. change (info r2) with (info r1). rewrite (Hinf Hu).
           f_equal. apply (stat_ext cfg s (e_req s) r2 (core_line_count (e_req s))); [done|intros i _; apply Hm2|lia].
        -- intros i. rewrite Hall, <- Hm2. by destruct (i =? j), (entry_of r2 i).
        -- intros i e' Hij Hie Hne. rewrite Hall in Hie. destruct (entry_of r2 i) as [e2|] eqn:Hi2; [|done]. injection Hie as <-.
           specialize (Hv2 i e2 Hij Hi2). by destruct (i =? j); apply Hv2.
    + wp_step. apply wp_entry; [by eexists|]. cbn [e_req set_e_req]. fold b r2. rewrite set_e_req_twice. apply HQ.
      split_and!; [done|exact (eq_trans Hl2 Hlm)|by destruct Hle; split; cbn; lia| |done|done].
      rewrite (held_next K _ j e), Hhe, andb_false_r by (done || lia). done.
Qed.

Lemma check_loop_run s K A n : layout_known -> inv s K A -> req_geometry cfg (e_req s) ->
  Z.of_nat (length (map (e_req s))) = core_line_count (e_req s) -> core (e_req s) <> OCF_CORE_MAX ->
  (forall i e, 0 <= i < core_line_count (e_req s) -> entry_of (e_req s) i = Some e -> entry_ok e) ->
  forall j r1, checked s K (e_req s) j r1 -> 0 <= j -> j + Z.of_nat n = core_line_count (e_req s) ->
  wp (check_loop cfg n j (core (e_req s)) (if held_upto K (e_req s) j then 0 else -1))
    (fun res s' => exists r', s' = set_e_req r' s /\ checked s K (e_req s) (core_line_count (e_req s)) r' /\
      res = if held_upto K (e_req s) (core_line_count (e_req s)) then 0 else -1) (set_e_req r1 s).
Proof using Hw.
  intros Hl Hi Hg Hlen Hcore Hok. induction n as [|n IH]; intros j r1 Hc Hj Hn; cbn [check_loop].
  - replace j with (core_line_count (e_req s)) in * by lia. apply wp_ret. by exists r1.
  - destruct (entry_some (e_req s) j) as [e He]; [lia|].
    edestruct (check_round s K A j r1 e (if held_upto K (e_req s) j then 0 else -1)) as (e1 & He1 & _ & Hrun); [done..|lia|exact He|by apply (Hok j); [lia|]|done| |].
    2: { wp_step. eapply entry_run; [exact He1|]. destruct (status e1 =? LOOKUP_MISS); exact Hrun. }
    intros r' Hc'. specialize (IH (j + 1) r' Hc' ltac:(lia) ltac:(lia)). rewrite (held_next K _ j e) in IH by done.
    by destruct (held_upto K (e_req s) j), (held K (core (e_req s)) e).
Qed.

Lemma check_request_run s K A : layout_known -> inv s K A -> req_geometry cfg (e_req s) ->
  Z.of_nat (length (map (e_req s))) = core_line_count (e_req s) -> core (e_req s) <> OCF_CORE_MAX ->
  (forall i e, 0 <= i < core_line_count (e_req s) -> entry_of (e_req s) i = Some e -> entry_ok e) ->
  wp (ocf_engine_check cfg) (fun res s' => exists r', s' = set_e_req r' s /\ checked s K (e_req s) (core_line_count (e_req s)) r' /\
      res = if held_upto K (e_req s) (core_line_count (e_req s)) then 0 else -1) s.
Proof using Hw.
  intros Hl Hi Hg Hlen Hcore Hok. destruct (rounds_count _ Hg) as (Hr & Hpos & _). unfold ocf_engine_check, the_req.
  wp_step. wp_step. wp_step. unfold on_req at 1. wp_step. unfold ocf_req_clear_info. wp_step. rewrite Hr.
  apply (check_loop_run s K A (Z.to_nat (core_line_count (e_req s))) Hl Hi Hg Hlen Hcore Hok 0); [|lia..].
  split_and!; [done|done|by split; cbn; lia|done|done|lia].
Qed.

(** ** What the counters of a traversed request say *)

(** The line [x] holds the core line [i] of the request. *)
Definition line_of (K : gmap Z (Z * Z)) (r : ocf_request) (i x : Z) : Prop := K !! x = Some (core r, core_line_first r + i).

(** All the sectors of the request in this line. *)
Definition all_of (what : status_word) (s : engine) (r : ocf_request) (i x : Z) : Prop :=
  forall j, ocf_map_line_start_sector cfg r i <= j <= ocf_map_line_end_sector cfg r i -> sector what s x j = true.

Lemma range_all_spec what s x a z : range_all what s x a z = true <-> forall j, a <= j <= z -> sector what s x j = true.
Proof using.
  unfold range_all. rewrite forallb_forall. split; intros H j Hj.
  - apply H. apply list_elem_of_In, elem_of_seqZ. lia.
  - apply list_elem_of_In, elem_of_seqZ in Hj. apply H. lia.
Qed.

Lemma tally_full (P : Z -> bool) b n : 0 <= n -> tally P (seqZ b n) = n <-> forall i, b <= i < b + n -> P i = true.
Proof using.
  intros Hn.
  assert (forall l : list Z, tally P l + tally (fun i => negb (P i)) l = Z.of_nat (length l)) as Hsum.
  { induction l as [|y l IH]; [done|]. rewrite !tally_cons. cbn [length]. destruct (P y); cbn; lia. }
  specialize (Hsum (seqZ b n)). rewrite length_seqZ in Hsum. split.
  - intros Hall i Hi. destruct (P i) eqn:HP; [done|].
    assert (0 < tally (fun i => negb (P i)) (seqZ b n)); [|lia]. apply (tally_pos _ _ i); [apply elem_of_seqZ; lia|by rewrite HP].
  - intros Hall. rewrite (tally_ext _ (fun _ => true)); [|intros i Hi%elem_of_seqZ; apply Hall; lia].
    rewrite tally_true, length_seqZ. lia.
Qed.

Lemma tally_or (P Q : Z -> bool) l : (forall i, i ∈ l -> P i && Q i = false) -> tally P l + tally Q l = tally (fun i => P i || Q i) l.
Proof using.
  induction l as [|y l IH]; intros H; [done|]. rewrite !tally_cons, <- IH by (intros i Hi; apply H; by right).
  specialize (H y ltac:(by left)). destruct (P y), (Q y); try done; cbn; lia.
Qed.

Lemma tally_some (P : Z -> bool) n : 0 < tally P (seqZ 0 n) <-> exists i, 0 <= i < n /\ P i = true.
Proof using.
  split.
  - intros Hpos. destruct (decide (Exists (fun i => P i = true) (seqZ 0 n))) as [He|He].
    + apply Exists_exists in He as (i & Hi%elem_of_seqZ & HP). exists i. split; [lia|done].
    + rewrite (tally_ext _ (fun _ => false)) in Hpos; [rewrite tally_false in Hpos; lia|].
      intros i Hi. destruct (P i) eqn:HP; [|done]. exfalso. apply He, Exists_exists. by exists i.
  - intros (i & Hi & HP). apply (tally_pos P _ i); [apply elem_of_seqZ; lia|done].
Qed.

Lemma line_unique s A K r i x y : inv s K A -> line_of K r i x -> line_of K r i y -> x = y.
Proof using. intros Hi Hx Hy. destruct (en_map _ _ _ _ _ _ Hi) as [B HB]. by eapply (ci_inj _ _ _ _ HB). Qed.

(** What is counted of the core line [i]. *)
Lemma stat_spec s K r n r' i : traversed s K r n r' -> 0 <= i < n ->
  let a := ocf_map_line_start_sector cfg r i in
  let z := ocf_map_line_end_sector cfg r i in
  (exists x, line_of K r i x /\ stat_of cfg s r' i =
     mkStat (range_all Valid s x a z) (negb (range_all Valid s x a z)) (is_dirty (e_cache s) x) (is_dirty (e_cache s) x && range_all Dirty s x a z)
       (negb (part_id r =? part_of (e_cache s) x)) ((0 <? i) && contiguous cfg r' (i - 1)) false) \/
  ((forall x, ~ line_of K r i x) /\ stat_of cfg s r' i = zero_stat).
Proof using.
  intros (Hs & _ & _ & Hent) Hi a z. destruct (shell_fields _ _ Hs) as (_ & Hp & Hl & _ & _ & Hc & Hpart).
  destruct (Hent i Hi) as (e & He & _ & _ & _ & Hm). unfold stat_of. rewrite He. unfold status, coll_idx.
  destruct Hm as [(x & Hk & -> & ->)|(Hno & -> & _)]; cbn [Z.eqb].
  - left. exists x. split; [done|]. unfold a, z, ocf_map_line_start_sector, ocf_map_line_end_sector. by rewrite Hp, Hl, Hc, Hpart.
  - right. split; [exact Hno|done].
Qed.

Lemma contiguous_spec s A K r n r' i : inv s K A -> layout_ok cfg -> layout_known -> traversed s K r n r' -> 0 <= i -> i + 1 < n ->
  contiguous cfg r' i = true <-> exists x y p, line_of K r i x /\ line_of K r (i + 1) y /\
    ocf_metadata_map_lg2phy cfg x = Some p /\ ocf_metadata_map_lg2phy cfg y = Some (p + 1).
Proof using.
  intros Hinv Hok Hl (_ & _ & _ & Hent) Hi Hn. pose proof (entries_range cfg w le s K A Hinv) as HN.
  destruct (Hent i ltac:(lia)) as (e1 & He1 & _ & _ & _ & Hm1). destruct (Hent (i + 1) ltac:(lia)) as (e2 & He2 & _ & _ & _ & Hm2).
  unfold contiguous. rewrite He1, He2. unfold status, coll_idx.
  destruct Hm1 as [(x & Hkx & -> & ->)|(Hno & -> & _)]; [|split; [done|intros (x & y & p & Hx & _); by destruct (Hno x)]].
  destruct Hm2 as [(y & Hky & -> & ->)|(Hno & -> & _)]; [|split; [done|intros (x' & y & p & _ & Hy & _); by destruct (Hno y)]].
  change (LOOKUP_HIT =? LOOKUP_MISS) with false. cbn [negb andb].
  destruct (layout_roundtrip cfg x Hok) as [(p & Hp & Hpr & _) _]; [by eapply mapped_line|destruct Hl; [by left|by right]|].
  destruct (layout_roundtrip cfg y Hok) as [(q & Hq & Hqr & _) _]; [by eapply mapped_line|destruct Hl; [by left|by right]|].
  rewrite Hp, Hq, u32_small, andb_true_iff, Z.ltb_lt, Z.eqb_eq by lia. split.
  - intros [_ <-]. exists x, y, p. by split_and!.
  - intros (x' & y' & p' & Hx' & Hy' & Hp' & Hq'). rewrite (line_unique s A K r i x' x) in Hp' by done.
    rewrite (line_unique s A K r (i + 1) y' y) in Hq' by done. simplify_eq. lia.
Qed.

(** A property of every, or of some, core line that is cached. *)
Definition each_line (K : gmap Z (Z * Z)) (r : ocf_request) (P : Z -> Z -> Prop) : Prop :=
  forall i, 0 <= i < core_line_count r -> exists x, line_of K r i x /\ P i x.
Definition some_line (K : gmap Z (Z * Z)) (r : ocf_request) (P : Z -> Z -> Prop) : Prop :=
  exists i x, 0 <= i < core_line_count r /\ line_of K r i x /\ P i x.

Section answers.
Context (s : engine) (K : gmap Z (Z * Z)) (A : lock_abs) (r r' : ocf_request).
#[local] Abbreviation count := (core_line_count r).
Hypothesis Hinv : inv s K A.
Hypothesis Hgeo : req_geometry cfg r.
Hypothesis Htr : traversed s K r count r'.

(** A counter reaches the number of the core lines when each of them counts. *)
Lemma count_each f (P : Z -> Z -> Prop) : f zero_stat = false ->
  (forall i x, 0 <= i < count -> line_of K r i x -> f (stat_of cfg s r' i) = true <-> P i x) ->
  count_stat cfg s r' count f = count <-> each_line K r P.
Proof using Hgeo Htr Hw.
  intros Hz HP. pose proof (rounds_count r Hgeo) as (_ & Hpos & _). unfold count_stat. rewrite tally_full, Z.add_0_l by lia.
  split; intros H i Hi; specialize (H i Hi); destruct (stat_spec s K r count r' i Htr Hi) as [(x & Hx & _)|[Hno Hst]].
  - exists x. split; [done|]. by apply (HP i x).
  - rewrite Hst in H. congruence.
  - destruct H as (y & Hy & Hp). by apply (HP i y).
  - destruct H as (y & Hy & _). by destruct (Hno y).
Qed.

Lemma count_some f (P : Z -> Z -> Prop) : f zero_stat = false ->
  (forall i x, 0 <= i < count -> line_of K r i x -> f (stat_of cfg s r' i) = true <-> P i x) ->
  0 < count_stat cfg s r' count f <-> some_line K r P.
Proof using Htr.
  intros Hz HP. unfold count_stat. rewrite tally_some. split.
  - intros (i & Hi & Hf). destruct (stat_spec s K r count r' i Htr Hi) as [(x & Hx & _)|[Hno Hst]]; [|congruence].
    exists i, x. split_and!; [lia..|done|]. by apply (HP i x).
  - intros (i & x & Hi & Hx & Hp). exists i. split; [done|]. by apply (HP i x).
Qed.

(** The flags of a cached core line. *)
Lemma stat_line i x : 0 <= i < count -> line_of K r i x ->
  let a := ocf_map_line_start_sector cfg r i in
  let z := ocf_map_line_end_sector cfg r i in
  stat_of cfg s r' i = mkStat (range_all Valid s x a z) (negb (range_all Valid s x a z)) (is_dirty (e_cache s) x) (is_dirty (e_cache s) x && range_all Dirty s x a z)
    (negb (part_id r =? part_of (e_cache s) x)) ((0 <? i) && contiguous cfg r' (i - 1)) false.
Proof using Hinv Htr.
  intros Hi Hx a z. destruct (stat_spec s K r count r' i Htr Hi) as [(y & Hy & Hst)|[Hno _]]; [|by destruct (Hno x)].
  by rewrite (line_unique s A K r i x y) by done.
Qed.

Lemma hit_answer : ocf_engine_is_hit r' = true <-> each_line K r (all_of Valid s r).
Proof using All.
  destruct Htr as (Hs & _ & Hinfo & _). unfold ocf_engine_is_hit. rewrite Hinfo, Z.eqb_eq.
  rewrite (f_equal core_line_count Hs : core_line_count r' = count). cbn [hit_no stats]. apply count_each; [done|].
  intros i x Hi Hx. rewrite (stat_line i x) by done. cbn [st_hit]. apply range_all_spec.
Qed.

Lemma dirty_answer : ocf_engine_is_dirty_all r' = true <-> each_line K r (all_of Dirty s r).
Proof using All.
  destruct Htr as (Hs & _ & Hinfo & _). unfold ocf_engine_is_dirty_all. rewrite Hinfo, Z.eqb_eq.
  rewrite (f_equal core_line_count Hs : core_line_count r' = count). cbn [dirty_all stats]. apply count_each; [done|].
  intros i x Hi Hx. rewrite (stat_line i x) by done. cbn [st_dirty_all]. rewrite andb_true_iff. unfold all_of. rewrite <- range_all_spec.
  split; [by intros [_ ?]|]. intros Hall. split; [|done]. destruct (request_sectors cfg w Hw r i Hgeo Hi) as [Ha _].
  rewrite range_all_spec in Hall. specialize (Hall _ (conj (Z.le_refl _) (proj2 Ha))). unfold sector, is_dirty in *.
  destruct (maps (c_meta (e_cache s)) !! x) as [m|]; [|done]. apply negb_true_iff, Z.eqb_neq. intros H0. cbn in Hall. by rewrite H0, Z.bits_0 in Hall.
Qed.

Lemma repart_answer : ocf_engine_needs_repart r' = true <-> some_line K r (fun _ x => part_of (e_cache s) x <> part_id r).
Proof using All.
  destruct Htr as (Hs & _ & Hinfo & _). unfold ocf_engine_needs_repart. rewrite Hinfo, Z.ltb_lt. cbn [re_part_no stats]. apply count_some; [done|].
  intros i x Hi Hx. rewrite (stat_line i x) by done. cbn [st_re_part]. rewrite negb_true_iff, Z.eqb_neq. split; congruence.
Qed.

(** Whether the core line [i] is cached. *)
Definition cached (i : Z) : bool := bool_decide (is_Some (find_key K (core r, core_line_first r + i))).

Lemma cached_line i : cached i = true <-> exists x, line_of K r i x.
Proof using.
  unfold cached. rewrite bool_decide_eq_true. split.
  - intros [x Hx]. exists x. by apply find_key_Some in Hx.
  - intros [x Hx]. destruct (find_key K _) eqn:Hf; [by eexists|]. by destruct (find_key_None _ _ x Hf).
Qed.

Lemma insert_none : insert_no (info r') = 0.
Proof using Htr.
  destruct Htr as (_ & _ & -> & _). cbn [insert_no stats]. unfold count_stat. rewrite (tally_ext _ (fun _ => false)); [apply tally_false|].
  intros i Hi%elem_of_seqZ. by destruct (stat_spec s K r count r' i Htr ltac:(lia)) as [(x & Hx & ->)|[Hno ->]].
Qed.

Lemma mapped_answer : ocf_engine_mapped_count r' = tally cached (seqZ 0 count) /\
  ocf_engine_unmapped_count r' = tally (fun i => negb (cached i)) (seqZ 0 count) /\
  (ocf_engine_is_mapped r' = true <-> forall i, 0 <= i < count -> exists x, line_of K r i x).
Proof using All.
  pose proof (rounds_count r Hgeo) as (_ & Hpos & _). pose proof (rg_fits _ _ Hgeo) as Hf.
  destruct Htr as (Hs & _ & Hinfo & _). pose proof (f_equal core_line_count Hs : core_line_count r' = count) as Hc.
  assert (hit_no (info r') + invalid_no (info r') = tally cached (seqZ 0 count)) as Hsum.
  { rewrite Hinfo. cbn [hit_no invalid_no stats]. unfold count_stat. rewrite tally_or.
    - apply tally_ext. intros i Hi%elem_of_seqZ. apply eq_true_iff_eq. rewrite cached_line.
      destruct (stat_spec s K r count r' i Htr ltac:(lia)) as [(x & Hx & ->)|[Hno ->]]; cbn.
      + rewrite orb_negb_r. split; [by exists x|done].
      + split; [done|]. intros [x Hx]. by destruct (Hno x).
    - intros i Hi%elem_of_seqZ. destruct (stat_spec s K r count r' i Htr ltac:(lia)) as [(x & Hx & ->)|[Hno ->]]; cbn; [by rewrite andb_negb_r|done]. }
  pose proof insert_none as Hins.
  pose proof (tally_range cached (seqZ 0 count)) as Hr. rewrite length_seqZ in Hr.
  assert (tally (fun i => negb (cached i)) (seqZ 0 count) = count - tally cached (seqZ 0 count)) as Hneg.
  { pose proof (tally_or cached (fun i => negb (cached i)) (seqZ 0 count)) as Ho. rewrite (tally_ext (fun i => _ || _) (fun _ => true)) in Ho by (intros; apply orb_negb_r).
    rewrite tally_true, length_seqZ in Ho. specialize (Ho (fun _ _ => andb_negb_r _)). lia. }
  unfold ocf_engine_mapped_count, ocf_engine_unmapped_count, ocf_engine_is_mapped. rewrite Hins, Hsum, Hc, Hneg, Z.add_0_r, !(u32_small (tally _ _)) by lia.
  split_and!; [done|apply u32_small; lia|]. rewrite Z.eqb_eq, tally_full, Z.add_0_l by lia. by setoid_rewrite cached_line.
Qed.

(** The cache lines of the core lines [i] and [i + 1] lie one behind the other. *)
Definition adjacent (i : Z) : Prop := exists x y p, line_of K r i x /\ line_of K r (i + 1) y /\
  ocf_metadata_map_lg2phy cfg x = Some p /\ ocf_metadata_map_lg2phy cfg y = Some (p + 1).

Lemma sequential_answer : layout_ok cfg -> layout_known ->
  ocf_engine_is_sequential r' = true <-> each_line K r (all_of Valid s r) /\ forall i, 0 <= i < count - 1 -> adjacent i.
Proof using All.
  intros Hok Hl. pose proof (rounds_count r Hgeo) as (_ & Hpos & _). pose proof (rg_fits _ _ Hgeo) as Hf.
  pose proof insert_none as Hins. pose proof hit_answer as Hhit. destruct Htr as (Hs & _ & Hinfo & _).
  pose proof (f_equal core_line_count Hs : core_line_count r' = count) as Hc. revert Hhit.
  unfold ocf_engine_is_sequential, ocf_engine_is_hit. rewrite Hc, andb_true_iff, !Z.eqb_eq.
  assert (0 <= hit_no (info r') <= count) as Hh by (rewrite Hinfo; apply stats_le; lia).
  rewrite Hins, Z.add_0_r, !u32_small by lia. intros Hhit. rewrite <- Hhit.
  enough (hit_no (info r') = count -> seq_no (info r') = count - 1 <-> forall i, 0 <= i < count - 1 -> adjacent i) by tauto.
  intros Hall. apply Hhit in Hall. rewrite Hinfo. cbn [seq_no stats]. unfold count_stat.
  rewrite seqZ_cons, tally_cons by lia. assert (st_seq (stat_of cfg s r' 0) = false) as ->.
  { by destruct (stat_spec s K r count r' 0 Htr ltac:(lia)) as [(x & Hx & ->)|[Hno ->]]. }
  change (Z.succ 0) with 1. rewrite Z.add_0_l, tally_full by lia.
  assert (forall i, 0 <= i < count - 1 -> st_seq (stat_of cfg s r' (i + 1)) = true <-> adjacent i) as Hadj.
  { intros i Hi. destruct (Hall (i + 1) ltac:(lia)) as (x & Hx & _). rewrite (stat_line (i + 1) x) by (done || lia). cbn [st_seq].
    destruct (Z.ltb_spec 0 (i + 1)); [|lia]. cbn [andb]. replace (i + 1 - 1) with i by lia.
    apply (contiguous_spec s A K r count r' i); done || lia. }
  split; intros H i Hi.
  - apply Hadj; [done|]. apply H. lia.
  - replace i with (i - 1 + 1) by lia. apply Hadj; [lia|]. apply H. lia.
Qed.
End answers.
End runs.

(** ** Properties *)

(** A request with an entry for each of its core lines. *)
Definition req_room (r : ocf_request) : Prop := Z.of_nat (length (map r)) = core_line_count r.

Section requests.
Context (cfg : config) (w le : Z) (s : engine) (K : gmap Z (Z * Z)) (A : lock_abs).
Hypothesis Hw : word_bits cfg = Some w.
Hypothesis Hlay : layout_known cfg.
Hypothesis Hinv : eng_inv cfg w le s K A.
Hypothesis Hgeo : req_geometry cfg (e_req s).
Hypothesis Hroom : req_room (e_req s).
#[local] Abbreviation count := (core_line_count (e_req s)).

Lemma traverse_run : wp (ocf_engine_traverse cfg) (fun _ s' => eng_inv cfg w le s' K A /\ e_cores s' = e_cores s /\ e_cleaning s' = e_cleaning s /\
  c_meta (e_cache s') = c_meta (e_cache s) /\ traversed cfg s K (e_req s) count (e_req s')) s.
Proof using All.
  unfold ocf_engine_traverse. wp_step. eapply wp_mono; [by apply (lookup_run cfg w le Hw s K A)|].
  intros [] s1 (r1 & -> & Ht). pose proof Ht as (Hs & Hl & _ & Hent). pose proof (f_equal core_line_count Hs : core_line_count r1 = count) as Hc.
  eapply wp_mono; [apply (set_hot_run cfg w le Hw _ K A)|]; cbn [e_req set_e_req].
  - by apply inv_req.
  - rewrite Hl, Hc. unfold req_room in Hroom. lia.
  - intros i e Hi He Hst. destruct (Hent i ltac:(lia)) as (e' & He' & _ & _ & _ & [(x & Hk & _ & Hx)|(_ & Hmiss & _)]); rewrite He in He'; injection He' as <-.
    + unfold coll_idx. rewrite Hx. by eexists.
    + unfold status in Hst. by rewrite Hmiss in Hst.
  - intros [] s2 (Hi2 & Hr2 & Hc2 & Hcl2 & Hm2 & _). cbn in *. rewrite Hr2. by split_and!.
Qed.

Lemma traversed_entries r : traversed cfg s K (e_req s) count r -> forall i e, 0 <= i < count -> entry_of r i = Some e -> entry_ok cfg e /\ held K (core (e_req s)) e = true.
Proof using Hinv.
  intros (_ & _ & _ & Hent) i e Hi He. destruct (Hent i Hi) as (e' & He' & _ & Hl & _ & Hm). rewrite He in He'. injection He' as <-. unfold entry_ok, held, status, coll_idx. rewrite Hl.
  destruct Hm as [(x & Hk & -> & ->)|(_ & -> & _)]; [|by split; [left|]]. split; [right|].
  - split; [by left|]. by eapply (mapped_line cfg w le).
  - by rewrite Hk, bool_decide_eq_true_2.
Qed.
End requests.

(** The traversal of a request.  For a request that covers the core lines of its
    bytes, [ocf_engine_traverse] always ends without an error: each entry of the
    map then names the one cache line that the mapping gives the core line, or is
    a miss when there is none; the counters of the request are those that
    [stats] computes from the status bits, the partitions and the layout; and of
    the cache only the order of the LRU lists may have changed. *)
Theorem request_traversed cfg w le s K A :
  word_bits cfg = Some w -> layout_known cfg -> eng_inv cfg w le s K A -> req_geometry cfg (e_req s) -> req_room (e_req s) ->
  exists s', ocf_engine_traverse cfg s = Some (tt, s') /\ eng_inv cfg w le s' K A /\
    e_cores s' = e_cores s /\ e_cleaning s' = e_cleaning s /\ c_meta (e_cache s') = c_meta (e_cache s) /\
    shell (e_req s') = shell (e_req s) /\ info (e_req s') = stats cfg s (e_req s') (core_line_count (e_req s)) /\
    forall i, 0 <= i < core_line_count (e_req s) -> exists e, entry_of (e_req s') i = Some e /\
      e_hash (me_info e) = ocf_metadata_hash_func cfg (core_line_first (e_req s) + i) (core (e_req s)) /\
      e_core_line (me_info e) = core_line_first (e_req s) + i /\
      ((exists x, K !! x = Some (core (e_req s), core_line_first (e_req s) + i) /\ status e = LOOKUP_HIT /\ coll_idx e = x) \/
       ((forall x, K !! x <> Some (core (e_req s), core_line_first (e_req s) + i)) /\ status e = LOOKUP_MISS /\
        coll_idx e = collision_table_entries cfg)).
Proof.
  intros Hw Hlay Hi Hg Hr. destruct (traverse_run cfg w le s K A Hw Hlay Hi Hg Hr) as ([] & s' & Hrun & Hi' & Hc & Hcl & Hm & Hs & _ & Hinfo & Hent).
  exists s'. split_and!; [done..|]. intros i Hij. destruct (Hent i Hij) as (e & He & H1 & H2 & _ & H3). by exists e.
Qed.

(** C32: What the engines conclude from a traversal.  For a request that covers the core
    lines of its bytes, [ocf_engine_traverse] ends without an error, keeps the
    invariant of the cache and leaves its metadata and statistics as they are.
    After it, the request is a hit exactly when every core line is cached and every
    sector that the request touches is valid there; it is mapped when every core
    line is cached; all dirty when every core line is cached and each of these
    sectors is dirty; the mapped and the unmapped count say how many core lines are
    cached and how many are not; it needs a change of partition when some cached
    line is in another one; and it is sequential when it is a hit and its lines lie
    one behind the other on the device. *)
Theorem traverse_answers cfg w le s K A :
  word_bits cfg = Some w -> layout_known cfg -> layout_ok cfg -> eng_inv cfg w le s K A -> req_geometry cfg (e_req s) -> req_room (e_req s) ->
  exists s', ocf_engine_traverse cfg s = Some (tt, s') /\
    eng_inv cfg w le s' K A /\ c_meta (e_cache s') = c_meta (e_cache s) /\ e_cores s' = e_cores s /\ shell (e_req s') = shell (e_req s) /\
    let r := e_req s in let r' := e_req s' in let n := core_line_count r in
    (ocf_engine_is_hit r' = true <-> each_line K r (all_of cfg Valid s r)) /\
    (ocf_engine_is_mapped r' = true <-> forall i, 0 <= i < n -> exists x, line_of K r i x) /\
    (ocf_engine_is_dirty_all r' = true <-> each_line K r (all_of cfg Dirty s r)) /\
    ocf_engine_mapped_count r' = tally (cached K r) (seqZ 0 n) /\
    ocf_engine_unmapped_count r' = tally (fun i => negb (cached K r i)) (seqZ 0 n) /\
    (ocf_engine_needs_repart r' = true <-> some_line K r (fun _ x => part_of (e_cache s) x <> part_id r)) /\
    (ocf_engine_is_sequential r' = true <-> each_line K r (all_of cfg Valid s r) /\ forall i, 0 <= i < n - 1 -> adjacent cfg K r i).
Proof.
  intros Hw Hlay Hok Hi Hg Hr. destruct (traverse_run cfg w le s K A Hw Hlay Hi Hg Hr) as ([] & s' & Hrun & Hi' & Hc & _ & Hm & Ht).
  exists s'. split; [done|]. split; [done|]. split; [done|]. split; [done|]. split; [apply Ht|]. cbv zeta. pose proof (mapped_answer cfg w le Hw s K A _ _ Hi Hg Ht) as (H1 & H2 & H3). split_and!; [|done| |done|done| |].
  - by eapply hit_answer.
  - by eapply dirty_answer.
  - by eapply repart_answer.
  - by eapply sequential_answer.
Qed.

Lemma held_all K r n : held_upto K r n = true <-> forall i e, 0 <= i < n -> entry_of r i = Some e -> held K (core r) e = true.
Proof.
  unfold held_upto. rewrite forallb_forall. split.
  - intros H i e Hi He. specialize (H i ltac:(apply list_elem_of_In, elem_of_seqZ; lia)). by rewrite He in H.
  - intros H i Hi%list_elem_of_In%elem_of_seqZ. destruct (entry_of r i) as [e|] eqn:He; [|done]. apply (H i e); [lia|done].
Qed.




(** A request that is checked right after it was traversed, as one that waited
    for no other request is, passes, with the same counters. *)
Theorem traversal_checks cfg w le s K A :
  word_bits cfg = Some w -> layout_known cfg -> eng_inv cfg w le s K A -> req_geometry cfg (e_req s) -> req_room (e_req s) ->
  core (e_req s) <> OCF_CORE_MAX ->
  exists s1 s2, ocf_engine_traverse cfg s = Some (tt, s1) /\ ocf_engine_check cfg s1 = Some (0, s2) /\
    info (e_req s2) = info (e_req s1) /\ e_cache s2 = e_cache s1.
Proof.
  intros Hw Hlay Hi Hg Hr Hcore. destruct (traverse_run cfg w le s K A Hw Hlay Hi Hg Hr) as ([] & s1 & Hrun & Hi1 & _ & _ & Hm1 & Ht).
  pose proof Ht as (Hs & Hlen & Hinfo & _). pose proof (f_equal core_line_count Hs : core_line_count (e_req s1) = core_line_count (e_req s)) as Hc.
  pose proof (traversed_entries cfg w le s K A Hi (e_req s1) Ht) as Hent.
  destruct (check_request_run cfg w le Hw s1 K A Hlay Hi1) as (res & s2 & Hrun2 & r2 & -> & (_ & _ & _ & Hinf2 & _ & _) & ->).
  - by apply (geometry_shell cfg (e_req s)).
  - unfold req_room in Hr. by rewrite Hlen, Hc.
  - by rewrite (f_equal core Hs : core (e_req s1) = _).
  - intros i e Hij He. rewrite Hc in Hij. by apply (Hent i e).
  - assert (held_upto K (e_req s1) (core_line_count (e_req s1)) = true) as Hu.
    { apply held_all. intros i e Hij He. rewrite (f_equal core Hs : core (e_req s1) = core (e_req s)). rewrite Hc in Hij. by apply (Hent i e). }
    exists s1. eexists. rewrite Hu in Hrun2. split_and!; [done|exact Hrun2| |done]. cbn [e_req set_e_req]. rewrite (Hinf2 Hu), Hinfo, Hc.
    apply (stats_lines cfg s s1 (e_req s1)). done.
Qed.

(** ** Witnesses *)

Lemma wit_room : req_room (e_req wit_engine).
Proof. by rewrite (proj2 wit_engine_ready). Qed.

Lemma wit_traverse_geometry : req_geometry wit_coll_cfg (e_req wit_engine).
Proof. rewrite (proj2 wit_engine_ready). apply wit_geometry. Qed.

Lemma wit_layout : layout_ok wit_coll_cfg /\ layout_known wit_coll_cfg.
Proof. split; [|by left]. split; [done|]. split; [done|]. vm_compute. done. Qed.

Lemma request_traversed_witness : exists s', ocf_engine_traverse wit_coll_cfg wit_engine = Some (tt, s') /\
  eng_inv wit_coll_cfg 8 4 s' wit_K wit_A /\ shell (e_req s') = shell (e_req wit_engine).
Proof.
  destruct (request_traversed wit_coll_cfg 8 4 wit_engine wit_K wit_A eq_refl (proj2 wit_layout) (proj1 wit_engine_ready) wit_traverse_geometry wit_room)
    as (s' & H1 & H2 & _ & _ & _ & H3 & _). exact (ex_intro _ s' (conj H1 (conj H2 H3))).
Defined.

Lemma wit_lines : sector Valid wit_engine 0 2 = false /\ part_of (e_cache wit_engine) 1 = 3.
Proof. decide_vm. Qed.

(** Both core lines are cached, one of them in another partition, and nothing is
    valid yet. *)
Lemma traverse_answers_witness : exists s', ocf_engine_traverse wit_coll_cfg wit_engine = Some (tt, s') /\
  ocf_engine_mapped_count (e_req s') = 2 /\ ocf_engine_is_hit (e_req s') = false /\ ocf_engine_needs_repart (e_req s') = true.
Proof.
  destruct (traverse_answers wit_coll_cfg 8 4 wit_engine wit_K wit_A eq_refl (proj2 wit_layout) (proj1 wit_layout) (proj1 wit_engine_ready) wit_traverse_geometry wit_room)
    as (s' & H1 & _ & _ & _ & _ & H2 & _ & _ & H3 & _ & H4 & _). exists s'. pose proof (proj2 wit_engine_ready) as Hr. split; [exact H1|].
  rewrite Hr in *. split_and!.
  - rewrite H3. decide_vm.
  - apply not_true_iff_false. intros Hh. apply H2 in Hh. destruct (Hh 0 ltac:(simpl; lia)) as (x & Hx & Hall).
    assert (x = 0) as -> by (eapply (line_unique wit_coll_cfg 8 4 wit_engine wit_A wit_K wit_request 0); [apply wit_engine_ready|exact Hx|done]).
    specialize (Hall 2 ltac:(vm_compute; split; discriminate)). rewrite (proj1 wit_lines) in Hall. discriminate.
  - apply H4. exists 1, 1. split_and!; [lia|simpl; lia|done|]. rewrite (proj2 wit_lines). simpl. lia.
Defined.


Lemma wit_core_id : core (e_req wit_engine) <> OCF_CORE_MAX.
Proof. by rewrite (proj2 wit_engine_ready). Qed.


Lemma traversal_checks_witness : exists s1 s2, ocf_engine_traverse wit_coll_cfg wit_engine = Some (tt, s1) /\ ocf_engine_check wit_coll_cfg s1 = Some (0, s2).
Proof.
  destruct (traversal_checks wit_coll_cfg 8 4 wit_engine wit_K wit_A eq_refl (proj2 wit_layout) (proj1 wit_engine_ready) wit_traverse_geometry wit_room wit_core_id)
    as (s1 & s2 & H1 & H2 & _). exact (ex_intro _ s1 (ex_intro _ s2 (conj H1 H2))).
Defined.
