(* ===== verification/EnvList.v ===== *)
(** The circular lists of OCF's environment:
    overlaybd/src/overlaybd/cache/ocf_cache/ease_bindings/env/ocf_env_list.h.

    A [list_head] is embedded in the element or stands for itself as the head of a
    list; here it has a number as its address, and the memory is a map from
    addresses.  [ring] says that a head with the elements behind it form a circle;
    any of them can be taken as the head ([ring_rotate]). *)

From S2P Require Import Prelude Dll.

Record list_head := mkHead { next : Z; prev : Z }.

#[export] Instance list_head_node : DllNode list_head.
Proof.
  refine {| n_prev := prev; n_next := next; set_prev v a := mkHead (next a) v; set_next v a := mkHead v (prev a) |}; done.
Defined.

#[local] Arguments Dll.set_prev : simpl never.
#[local] Arguments Dll.set_next : simpl never.

Abbreviation L := (gmap Z list_head).

Definition lget (l : Z) : M L list_head := fun m => (fun h => (h, m)) <$> m !! l.
Definition lset_next (l v : Z) : M L unit := fun m => match m !! l with Some _ => Some (tt, alter (Dll.set_next v) l m) | None => None end.
Definition lset_prev (l v : Z) : M L unit := fun m => match m !! l with Some _ => Some (tt, alter (Dll.set_prev v) l m) | None => None end.

Definition INIT_LIST_HEAD (l : Z) : M L unit := lset_prev l l;; lset_next l l.

Definition list_add (it l1 : Z) : M L unit :=
  lset_prev it l1;;
  n ← lget l1; lset_next it (next n);;
  n ← lget l1; lset_prev (next n) it;;
  lset_next l1 it.

Definition list_add_tail (it l1 : Z) : M L unit :=
  n ← lget l1; lset_prev it (prev n);;
  lset_next it l1;;
  n ← lget l1; lset_next (prev n) it;;
  lset_prev l1 it.

Definition list_empty (l1 : Z) : M L bool := n ← lget l1; mret (next n =? l1).

Definition list_del (it : Z) : M L unit :=
  n ← lget it; lset_prev (next n) (prev n);;
  n ← lget it; lset_next (prev n) (next n).

Definition list_move (it l1 : Z) : M L unit := list_del it;; list_add it l1.
Definition list_move_tail (it l1 : Z) : M L unit := list_del it;; list_add_tail it l1.

(** An element and its [list_head] have the same address here. *)
Definition list_first_entry (list_head_i : Z) : M L Z := n ← lget list_head_i; mret (next n).

(** The elements that [list_for_each_entry] visits from [item] on: it stops at the
    one before [(plist)->next], the head itself. *)
Fixpoint for_each_from (fuel : nat) (plist item : Z) : M L (list Z) :=
  match fuel with
  | O => bug
  | S fuel =>
    n ← lget item; p ← lget plist;
    if next n =? next p then mret []
    else l ← for_each_from fuel plist (next n); mret (item :: l)
  end.
Definition list_for_each_entry (plist : Z) : M L (list Z) :=
  n ← gets size; p ← lget plist; for_each_from (S n) plist (next p).

Lemma wp_lget l n Q m : m !! l = Some n -> Q n m -> wp (lget l) Q m.
Proof. intros Hl HQ. exists n, m. unfold lget. by rewrite Hl. Qed.
Lemma wp_lset_next l v Q m : is_Some (m !! l) -> Q tt (alter (Dll.set_next v) l m) -> wp (lset_next l v) Q m.
Proof. intros [a Ha] HQ. eexists _, _. unfold lset_next. by rewrite Ha. Qed.
Lemma wp_lset_prev l v Q m : is_Some (m !! l) -> Q tt (alter (Dll.set_prev v) l m) -> wp (lset_prev l v) Q m.
Proof. intros [a Ha] HQ. eexists _, _. unfold lset_prev. by rewrite Ha. Qed.

(** Entries that are written are still there. *)
Ltac there := repeat (rewrite lookup_alter_is_Some); eauto.
(** One write, and one read of an entry found by [tac]. *)
Ltac lput := cbn beta; try wp_step; first [apply wp_lset_next|apply wp_lset_prev]; [there|].
Tactic Notation "lread" tactic(tac) := cbn beta; wp_step; eapply wp_lget; [by tac|].

(** ** Circles *)

(** The head [h] and the elements [l] behind it. *)
Definition ring (m : L) (h : Z) (l : list Z) : Prop := NoDup (h :: l) /\ seg m (last_or h l) (h :: l) h.

Lemma ring_frame m m' h l : (forall x, x ∈ h :: l -> m' !! x = m !! x) -> ring m h l -> ring m' h l.
Proof. intros Hf [Hnd Hs]. split; [done|]. eapply seg_frame; [|done]. intros x Hx. unfold links. by rewrite Hf. Qed.

Lemma ring_lookup m h l x : ring m h l -> x ∈ h :: l -> is_Some (m !! x).
Proof. intros [_ Hs]. by eapply seg_dom. Qed.

(** The circle seen from another element. *)
Lemma ring_rotate m h l1 x l2 : ring m h (l1 ++ x :: l2) -> ring m x (l2 ++ h :: l1).
Proof.
  intros [Hnd Hs]. split.
  - by replace (x :: l2 ++ h :: l1) with ((x :: l2) ++ (h :: l1)) by done; rewrite Permutation_app_comm.
  - rewrite app_comm_cons, seg_app in Hs. destruct Hs as [H1 H2]. rewrite last_or_app, last_or_cons in *.
    rewrite app_comm_cons, seg_app. rewrite !last_or_cons in *. simpl in H2. split; [|exact H1]. simpl. simpl in H2. exact H2.
Qed.

Lemma ring_links m h l : ring m h l -> m !! h = Some (mkHead (hd_or h l) (last_or h l)).
Proof.
  intros [_ [Hl _]]. apply links_Some in Hl as ([nx pv] & Hh & Hp & Hn). simpl in *. by subst.
Qed.

Lemma ring_links_at m h l1 x l2 : ring m h (l1 ++ x :: l2) -> m !! x = Some (mkHead (hd_or h l2) (last_or h l1)).
Proof. intros Hr%ring_rotate%ring_links. by rewrite Hr, hd_or_app, last_or_app, last_or_cons. Qed.

(** A fresh circle. *)
Lemma INIT_run m h : is_Some (m !! h) -> wp (INIT_LIST_HEAD h) (fun _ m' =>
  ring m' h [] /\ (forall x, x <> h -> m' !! x = m !! x) /\ is_Some (m' !! h)) m.
Proof.
  intros [a Ha]. unfold INIT_LIST_HEAD. do 2 lput.
  rewrite lookup_alter_eq, lookup_alter_eq, Ha. split_and!; [split| |by eexists].
  - apply NoDup_singleton.
  - simpl. unfold links. rewrite lookup_alter_eq, lookup_alter_eq, Ha. done.
  - intros x Hx. by rewrite !lookup_alter_ne.
Qed.

(** Adding behind the head of a circle. *)
Lemma list_add_run m h l it : ring m h l -> it ∉ h :: l -> is_Some (m !! it) -> wp (list_add it h) (fun _ m' =>
  ring m' h (it :: l) /\ (forall x, x ∉ it :: h :: l -> m' !! x = m !! x)) m.
Proof.
  intros Hr Hit [a Ha]. pose proof (ring_links _ _ _ Hr) as Hh. assert (it <> h) as Hne by set_solver.
  assert (hd_or h l ∈ h :: l) as Hin by (destruct l; set_solver). assert (it <> hd_or h l) as Hne2 by congruence.
  pose proof (ring_lookup _ _ _ _ Hr Hin) as Hy. destruct Hr as [Hnd Hs].
  unfold list_add. lput. lread (rewrite lookup_alter_ne). lput. lread (rewrite !lookup_alter_ne). do 2 lput. split; [split|].
  - apply NoDup_cons in Hnd as [? ?]. apply NoDup_cons. split; [set_solver|]. apply NoDup_cons. split; [set_solver|done].
  - destruct l as [|y l]; simpl in *.
    + unfold last_or, hd_or, links. simpl. rewrite !lookup_alter_eq, !lookup_alter_ne, !lookup_alter_eq, Ha, Hh by done. done.
    + rewrite !last_or_cons in *. destruct Hs as (Hsh & Hsy & Hs). apply NoDup_cons in Hnd as [Hn1 [Hn2 Hnd]%NoDup_cons].
      assert (h <> y) by set_solver. change (hd_or h (y :: l)) with y in *. split_and!.
      * unfold links. rewrite lookup_alter_eq, !lookup_alter_ne, Hh by done. done.
      * unfold links. rewrite !lookup_alter_ne, !lookup_alter_eq, Ha by done. done.
      * rewrite links_alter_ne by done. eapply (links_alter_prev _ it). rewrite !links_alter_ne by done. exact Hsy.
      * eapply seg_frame; [|exact Hs]. intros x Hx. rewrite !links_alter_ne by set_solver. done.
  - intros x Hx. rewrite !lookup_alter_ne by set_solver. done.
Qed.

(** Adding at the end: the new element is behind the head seen from the last. *)
Lemma list_add_tail_run m h l it : ring m h l -> it ∉ h :: l -> is_Some (m !! it) -> wp (list_add_tail it h) (fun _ m' =>
  ring m' h (l ++ [it]) /\ (forall x, x ∉ it :: h :: l -> m' !! x = m !! x)) m.
Proof.
  intros Hr Hit [a Ha]. pose proof (ring_links _ _ _ Hr) as Hh. assert (it <> h) as Hne by set_solver.
  assert (last_or h l ∈ h :: l) as Hin by (destruct l as [|? ? _] using rev_ind; [set_solver|rewrite last_or_snoc; set_solver]).
  assert (it <> last_or h l) as Hne2 by congruence.
  pose proof (ring_lookup _ _ _ _ Hr Hin) as Hy. destruct Hr as [Hnd Hs].
  unfold list_add_tail. lread (idtac). do 2 lput. lread (rewrite !lookup_alter_ne). do 2 lput. cbn [prev]. split; [split|].
  - replace (h :: l ++ [it]) with ((h :: l) ++ [it]) by done. apply NoDup_app. split; [done|]. split; [set_solver|apply NoDup_singleton].
  - rewrite last_or_snoc. destruct l as [|y l _] using rev_ind.
    + unfold last_or, hd_or, links. simpl. split_and!; [| |done].
      * unfold links. rewrite !lookup_alter_eq, !lookup_alter_ne, Hh by done. done.
      * unfold links. rewrite !lookup_alter_ne, !lookup_alter_eq, Ha by done. done.
    + rewrite last_or_snoc in *. rewrite !app_comm_cons in *. rewrite <- app_assoc. rewrite seg_app in Hs. rewrite seg_app.
      apply NoDup_app in Hnd as (Hnd & Hd & _). assert (h <> y) by set_solver. simpl in *. destruct Hs as [[Hsh Hsl] [Hsy _]].
      rewrite !last_or_cons in *. split_and!; [| | |  |done].
      * rewrite links_alter_prev with (p := y) (n := hd_or (hd_or h [y]) l); [by destruct l|]. by rewrite !links_alter_ne.
      * eapply seg_frame; [|exact Hsl]. intros x Hx. apply NoDup_cons in Hnd as [? ?]. rewrite !links_alter_ne by set_solver. done.
      * rewrite links_alter_ne by done. eapply links_alter_next. rewrite !links_alter_ne by done. exact Hsy.
      * unfold links. rewrite !lookup_alter_ne, !lookup_alter_eq, Ha by done. done.
  - intros x Hx. rewrite !lookup_alter_ne by set_solver. done.
Qed.

(** Deleting an element: first the one behind the head, then any. *)
Lemma list_del_first m h it l : ring m h (it :: l) -> wp (list_del it) (fun _ m' =>
  ring m' h l /\ (forall x, x ∉ h :: l -> m' !! x = m !! x)) m.
Proof.
  intros Hr. pose proof (ring_links_at _ _ [] _ _ Hr) as Hit. change (last_or h []) with h in Hit. set (n := hd_or h l) in *.
  assert (n ∈ h :: l) as Hn by (unfold n; destruct l; set_solver).
  assert (it ∉ h :: l /\ h ∉ l /\ NoDup l) as (Hit0 & Hh & Hnd). { destruct Hr as [[H1 [H2 H3]%NoDup_cons]%NoDup_cons _]. set_solver. }
  assert (n <> it) by congruence. assert (h <> it) by set_solver.
  pose proof (ring_lookup _ _ _ n Hr ltac:(set_solver)) as Hmn. pose proof (ring_lookup _ _ _ h Hr ltac:(set_solver)) as Hmh.
  destruct Hr as [_ Hs]. unfold list_del. lread (idtac). cbn [next prev]. lput. lread (rewrite lookup_alter_ne). lput. cbn [next prev].
  split; [split; [by apply NoDup_cons|]|intros x Hx; rewrite !lookup_alter_ne by set_solver; done].
  simpl in Hs. destruct Hs as (Hsh & _ & Hs). rewrite !last_or_cons in Hsh. destruct l as [|y l].
  - simpl. split; [|done]. change n with h. change (last_or h []) with h. change (hd_or h []) with h.
    eapply links_alter_next, links_alter_prev. exact Hsh.
  - change n with y in *. rewrite !last_or_cons in *. apply NoDup_cons in Hnd as [Hy Hnd]. simpl in Hs. destruct Hs as [Hsy Hs].
    assert (h <> y) by set_solver. simpl. split_and!.
    + eapply links_alter_next. rewrite links_alter_ne by done. exact Hsh.
    + rewrite links_alter_ne by done. eapply links_alter_prev. exact Hsy.
    + eapply seg_frame; [|exact Hs]. intros x Hx. rewrite !links_alter_ne by set_solver. done.
Qed.

Lemma list_del_run m h l1 it l2 : ring m h (l1 ++ it :: l2) -> wp (list_del it) (fun _ m' =>
  ring m' h (l1 ++ l2) /\ (forall x, x ∉ h :: l1 ++ l2 -> m' !! x = m !! x)) m.
Proof.
  destruct l1 as [|p l1 _] using rev_ind; [apply list_del_first|]. rewrite <- !app_assoc. intros Hr%ring_rotate.
  eapply wp_mono; [apply list_del_first, Hr|]. intros [] m' [Hr' Hf]. split; [by apply ring_rotate in Hr'|].
  intros x Hx. apply Hf. set_solver.
Qed.

(** Deleting the head: the first element takes its place. *)
Lemma list_del_head m h x l : ring m h (x :: l) -> wp (list_del h) (fun _ m' =>
  ring m' x l /\ (forall y, y ∉ x :: l -> m' !! y = m !! y)) m.
Proof.
  intros Hr. apply (ring_rotate _ _ []) in Hr. eapply wp_mono; [apply list_del_run, Hr|]. rewrite app_nil_r. done.
Qed.

Lemma list_empty_run m h l : ring m h l -> list_empty h m = Some (bool_decide (l = []), m).
Proof.
  intros Hr. unfold list_empty. rewrite bind_run. unfold lget. rewrite (ring_links _ _ _ Hr). simpl.
  destruct l as [|x l]; [by rewrite Z.eqb_refl|]. destruct Hr as [[Hx _]%NoDup_cons _]. change (hd_or h (x :: l)) with x.
  destruct (Z.eqb_spec x h) as [->|]; [set_solver|done].
Qed.

Lemma list_first_entry_run m h l : ring m h l -> list_first_entry h m = Some (hd_or h l, m).
Proof. intros Hr. unfold list_first_entry. rewrite bind_run. unfold lget. by rewrite (ring_links _ _ _ Hr). Qed.

Lemma list_move_run m h l1 it l2 : ring m h (l1 ++ it :: l2) -> wp (list_move it h) (fun _ m' =>
  ring m' h (it :: l1 ++ l2) /\ (forall x, x ∉ h :: l1 ++ it :: l2 -> m' !! x = m !! x)) m.
Proof.
  intros Hr. pose proof (ring_lookup _ _ _ it Hr ltac:(set_solver)) as Hi. destruct (Hr) as [Hnd _].
  rewrite app_comm_cons, <- Permutation_middle in Hnd. apply NoDup_cons in Hnd as [Hit _].
  unfold list_move. wp_step. eapply wp_mono; [apply list_del_run, Hr|]. intros [] m1 [Hr1 Hf1]. cbn beta.
  eapply wp_mono; [apply (list_add_run _ _ _ it Hr1 Hit)|]; [by rewrite Hf1|]. intros [] m2 [Hr2 Hf2]. split; [done|].
  intros x Hx. rewrite Hf2, Hf1; [done|set_solver..].
Qed.

Lemma list_move_tail_run m h l1 it l2 : ring m h (l1 ++ it :: l2) -> wp (list_move_tail it h) (fun _ m' =>
  ring m' h (l1 ++ l2 ++ [it]) /\ (forall x, x ∉ h :: l1 ++ it :: l2 -> m' !! x = m !! x)) m.
Proof.
  intros Hr. pose proof (ring_lookup _ _ _ it Hr ltac:(set_solver)) as Hi. destruct (Hr) as [Hnd _].
  rewrite app_comm_cons, <- Permutation_middle in Hnd. apply NoDup_cons in Hnd as [Hit _].
  unfold list_move_tail. wp_step. eapply wp_mono; [apply list_del_run, Hr|]. intros [] m1 [Hr1 Hf1]. cbn beta.
  eapply wp_mono; [apply (list_add_tail_run _ _ _ it Hr1 Hit)|]; [by rewrite Hf1|]. intros [] m2 [Hr2 Hf2]. rewrite app_assoc. split; [done|].
  intros x Hx. rewrite Hf2, Hf1; [done|set_solver..].
Qed.

(** The loop visits the elements behind the head. *)
Lemma for_each_from_run m h l l1 fuel : ring m h (l1 ++ l) -> (length l < fuel)%nat -> for_each_from fuel h (hd_or h l) m = Some (l, m).
Proof.
  revert l1 fuel. induction l as [|x l IH]; intros l1 fuel Hr Hf; destruct fuel as [|fuel]; simpl in Hf; try lia; cbn [for_each_from].
  - change (hd_or h []) with h. rewrite bind_run. unfold lget. rewrite (ring_links _ _ _ Hr). cbn. rewrite bind_run. unfold lget. rewrite (ring_links _ _ _ Hr). cbn. by rewrite Z.eqb_refl.
  - change (hd_or h (x :: l)) with x. rewrite bind_run. unfold lget at 1. rewrite (ring_links_at _ _ _ _ _ Hr). cbn [fmap option_fmap option_map].
    rewrite bind_run. unfold lget at 1. rewrite (ring_links _ _ _ Hr). cbn [fmap option_fmap option_map next].
    destruct (Z.eqb_spec (hd_or h l) (hd_or h (l1 ++ x :: l))) as [He|_].
    + exfalso. destruct Hr as [Hnd _]. apply NoDup_cons in Hnd as [Hh Hnd]. apply NoDup_app in Hnd as (_ & Hd & [Hx _]%NoDup_cons).
      destruct l as [|y l], l1 as [|z l1]; cbn in He; subst; set_solver.
    + rewrite bind_run, (IH (l1 ++ [x])); [done|by rewrite <- app_assoc|lia].
Qed.

Lemma ring_size m h l : ring m h l -> (length l < size m)%nat.
Proof.
  intros Hr. assert (size (list_to_set (h :: l) : gset Z) <= size (dom m))%nat as Hle.
  { apply subseteq_size. intros x Hx%elem_of_list_to_set. apply elem_of_dom. by eapply ring_lookup. }
  destruct Hr as [Hnd _]. rewrite size_list_to_set, size_dom in Hle by done. simpl in Hle. lia.
Qed.

Lemma list_for_each_entry_run m h l : ring m h l -> list_for_each_entry h m = Some (l, m).
Proof.
  intros Hr. unfold list_for_each_entry. rewrite bind_run. cbn [gets]. rewrite bind_run. unfold lget. rewrite (ring_links _ _ _ Hr). cbn [fmap option_fmap option_map next].
  apply (for_each_from_run _ _ _ []); [done|]. apply ring_size in Hr. lia.
Qed.
