(* ===== verification/RbTree.v ===== *)
(** The red-black trees of OCF: ocf/src/utils/utils_rbtree.c.

    Nodes point to their children and to their parent; nodes that compare equal
    hang on the circular list of the one that is in the tree.  The memory is split
    by fields: [nodes] has the fields of the tree, [lists] the [list] of every
    node.  A pointer is an address or NULL, [None]; following NULL or an address
    outside the memory is a stop.

    The comparison of the tree looks at data around the nodes, which its user may
    change; as every operation compares one fixed node with those it meets, it
    takes the comparison with that node, [cmp].  [find] is the callback that
    chooses from a list, given the head. *)

From S2P Require Import Prelude Dll EnvList.

Definition ptr : Type := option Z.

Record ocf_rb_node := mkNode { red : bool; left : ptr; right : ptr; parent : ptr }.

Record ocf_rb_tree := mkTree { root : ptr; nodes : gmap Z ocf_rb_node; lists : gmap Z list_head }.

Definition set_root (p : ptr) (s : ocf_rb_tree) : ocf_rb_tree := mkTree p (nodes s) (lists s).
Definition set_nodes f (s : ocf_rb_tree) : ocf_rb_tree := mkTree (root s) (f (nodes s)) (lists s).
Definition set_red (b : bool) (n : ocf_rb_node) := mkNode b (left n) (right n) (parent n).
Definition set_left (p : ptr) (n : ocf_rb_node) := mkNode (red n) p (right n) (parent n).
Definition set_right (p : ptr) (n : ocf_rb_node) := mkNode (red n) (left n) p (parent n).
Definition set_parent (p : ptr) (n : ocf_rb_node) := mkNode (red n) (left n) (right n) p.

Abbreviation T := ocf_rb_tree.

Definition rd (p : ptr) : M T ocf_rb_node := fun s =>
  match p with
  | Some i => (fun n => (n, s)) <$> nodes s !! i
  | None => None
  end.
Definition upd (p : ptr) (f : ocf_rb_node -> ocf_rb_node) : M T unit := fun s =>
  match p with
  | Some i => match nodes s !! i with Some _ => Some (tt, set_nodes (alter f i) s) | None => None end
  | None => None
  end.
(** [if (p) ...] *)
Definition if_ptr (p : ptr) (m : M T unit) : M T unit := match p with Some _ => m | None => mret tt end.
(** [p && p->red] *)
Definition is_red (p : ptr) : M T bool := match p with Some _ => n ← rd p; mret (red n) | None => mret false end.
Definition on_lists {A} (m : M (gmap Z list_head) A) : M T A :=
  zoom lists (fun l s => mkTree (root s) (nodes s) l) m.
#[local] Infix "=p" := (fun a b : ptr => bool_decide (a = b)) (at level 70).

Definition ocf_rb_tree_init (s : T) : T := set_root None s.

Definition ocf_rb_tree_update_parent (parent old_node new_node : ptr) : M T unit :=
  match parent with
  | None =>
    r ← gets root;
    if r =p old_node then modify (set_root new_node) else mret tt
  | Some _ =>
    p ← rd parent;
    if left p =p old_node then upd parent (set_left new_node)
    else if right p =p old_node then upd parent (set_right new_node)
    else mret tt
  end.

Definition ocf_rb_tree_rotate_left (node : ptr) : M T unit :=
  n ← rd node;
  let right_ := right n in
  r ← rd right_;
  upd node (set_right (left r));;
  if_ptr (left r) (upd (left r) (set_parent node));;
  n ← rd node;
  upd right_ (set_parent (parent n));;
  ocf_rb_tree_update_parent (parent n) node right_;;
  upd right_ (set_left node);;
  upd node (set_parent right_).

Definition ocf_rb_tree_rotate_right (node : ptr) : M T unit :=
  n ← rd node;
  let left_ := left n in
  l ← rd left_;
  upd node (set_left (right l));;
  if_ptr (right l) (upd (right l) (set_parent node));;
  n ← rd node;
  upd left_ (set_parent (parent n));;
  ocf_rb_tree_update_parent (parent n) node left_;;
  upd left_ (set_right node);;
  upd node (set_parent left_).

(** [node->red && node->parent && node->parent->red] *)
Definition violation (node : ptr) : M T bool :=
  n ← rd node;
  if red n then is_red (parent n) else mret false.

Definition swap_colors (parent grandparent : ptr) : M T unit :=
  p ← rd parent; g ← rd grandparent;
  upd parent (set_red (red g));;
  upd grandparent (set_red (red p)).

Definition recolor (grandparent parent uncle : ptr) : M T unit :=
  upd grandparent (set_red true);; upd parent (set_red false);; upd uncle (set_red false).

Fixpoint fix_loop (fuel : nat) (node : ptr) : M T unit :=
  match fuel with
  | O => bug
  | S fuel =>
    v ← violation node;
    if (v : bool) then
      n ← rd node;
      let parent_ := parent n in
      p ← rd parent_;
      let grandparent := parent p in
      match grandparent with
      | None => mret tt
      | Some _ =>
        g ← rd grandparent;
        if parent_ =p left g then
          let uncle := right g in
          r ← is_red uncle;
          if (r : bool) then recolor grandparent parent_ uncle;; fix_loop fuel grandparent
          else if node =p right p then ocf_rb_tree_rotate_left parent_;; fix_loop fuel parent_
          else ocf_rb_tree_rotate_right grandparent;; swap_colors parent_ grandparent;; fix_loop fuel parent_
        else
          let uncle := left g in
          r ← is_red uncle;
          if (r : bool) then recolor grandparent parent_ uncle;; fix_loop fuel grandparent
          else if node =p left p then ocf_rb_tree_rotate_right parent_;; fix_loop fuel parent_
          else ocf_rb_tree_rotate_left grandparent;; swap_colors parent_ grandparent;; fix_loop fuel parent_
      end
    else mret tt
  end.

Definition ocf_rb_tree_fix_violation (fuel : nat) (node : ptr) : M T unit :=
  fix_loop fuel node;;
  r ← gets root; upd r (set_red false).

(** Room for the loops: more than the nodes in the memory. *)
Definition fuel_of (s : T) : nat := 3 + size (nodes s).

(** The last node on the way down and its comparison. *)
Fixpoint descend (fuel : nat) (cmp : Z -> Z) (iter : Z) : M T (Z * Z) :=
  match fuel with
  | O => bug
  | S fuel =>
    n ← rd (Some iter);
    let c := cmp iter in
    if c =? 0 then mret (iter, c)
    else
      match (if c <? 0 then left n else right n) with
      | None => mret (iter, c)
      | Some new_iter => descend fuel cmp new_iter
      end
  end.

Definition ocf_rb_tree_insert (cmp : Z -> Z) (node : Z) : M T unit :=
  on_lists (INIT_LIST_HEAD node);;
  upd (Some node) (set_left None);; upd (Some node) (set_right None);; upd (Some node) (set_parent None);;
  r ← gets root;
  match r with
  | None => upd (Some node) (set_red false);; upd (Some node) (set_parent None);; modify (set_root (Some node))
  | Some r =>
    fuel ← gets fuel_of;
    '(iter, c) ← descend fuel cmp r;
    if c =? 0 then on_lists (list_add_tail node iter)
    else
      upd (Some node) (set_red true);;
      upd (Some node) (set_parent (Some iter));;
      upd (Some iter) (if c <? 0 then set_left (Some node) else set_right (Some node));;
      ocf_rb_tree_fix_violation fuel (Some node)
  end.

Definition ocf_rb_copy_node (dst : ptr) (src : ocf_rb_node) : M T unit :=
  upd dst (set_red (red src));; upd dst (set_left (left src));; upd dst (set_right (right src));; upd dst (set_parent (parent src)).

Definition ocf_rb_tree_update_children (node : ptr) : M T unit :=
  n ← rd node;
  if_ptr (left n) (upd (left n) (set_parent node));;
  n ← rd node;
  if_ptr (right n) (upd (right n) (set_parent node)).

(** A pointer of [node] to itself becomes one to [other]. *)
Definition fix_self (node other : ptr) : M T unit :=
  n ← rd node;
  if parent n =p node then upd node (set_parent other)
  else if left n =p node then upd node (set_left other)
  else if right n =p node then upd node (set_right other)
  else mret tt.

Definition ocf_rb_tree_swap (node1 node2 : ptr) : M T unit :=
  tmp ← rd node1;
  n2 ← rd node2; ocf_rb_copy_node node1 n2;;
  ocf_rb_copy_node node2 tmp;;
  fix_self node1 node2;;
  fix_self node2 node1;;
  ocf_rb_tree_update_children node1;;
  ocf_rb_tree_update_children node2;;
  n1 ← rd node1; ocf_rb_tree_update_parent (parent n1) node2 node1;;
  n2 ← rd node2; ocf_rb_tree_update_parent (parent n2) node1 node2.

Fixpoint leftmost (fuel : nat) (succ : ptr) : M T ptr :=
  match fuel with
  | O => bug
  | S fuel => s ← rd succ; match left s with Some _ => leftmost fuel (left s) | None => mret succ end
  end.
Fixpoint rightmost (fuel : nat) (pred : ptr) : M T ptr :=
  match fuel with
  | O => bug
  | S fuel => p ← rd pred; match right p with Some _ => rightmost fuel (right p) | None => mret pred end
  end.

Definition ocf_rb_tree_successor (node : ptr) : M T ptr :=
  n ← rd node;
  match right n with None => mret None | Some _ => fuel ← gets fuel_of; leftmost fuel (right n) end.
Definition ocf_rb_tree_predecessor (node : ptr) : M T ptr :=
  n ← rd node;
  match left n with None => mret None | Some _ => fuel ← gets fuel_of; rightmost fuel (left n) end.

Definition ocf_rb_tree_bst_replacement (node : ptr) : M T ptr :=
  n ← rd node;
  match left n, right n with
  | Some _, Some _ => ocf_rb_tree_successor node
  | Some l, None => mret (Some l)
  | None, Some r => mret (Some r)
  | None, None => mret None
  end.

Definition ocf_rb_tree_sibling (node : ptr) : M T ptr :=
  n ← rd node;
  match parent n with
  | None => mret None
  | Some _ => p ← rd (parent n); mret (if node =p left p then right p else left p)
  end.

(** One round of the loop of [ocf_rb_tree_fix_double_black]: the node to go on
    with, or [None] for [break]. *)
Definition double_black_round (node : ptr) : M T (option ptr) :=
  n ← rd node;
  let parent_ := parent n in
  match parent_ with
  | None => mret None
  | Some _ =>
    sibling ← ocf_rb_tree_sibling node;
    match sibling with
    | None => mret (Some parent_)
    | Some _ =>
      s ← rd sibling;
      if red s then
        upd parent_ (set_red true);;
        upd sibling (set_red false);;
        p ← rd parent_;
        (if sibling =p left p then ocf_rb_tree_rotate_right parent_ else ocf_rb_tree_rotate_left parent_);;
        mret (Some node)
      else
        p ← rd parent_;
        lr ← is_red (left s);
        if (lr : bool) then
          (if sibling =p left p then
             upd (left s) (set_red (red s));;
             upd sibling (set_red (red p));;
             ocf_rb_tree_rotate_right parent_
           else
             upd (left s) (set_red (red p));;
             ocf_rb_tree_rotate_right sibling;;
             ocf_rb_tree_rotate_left parent_);;
          n ← rd node; upd (parent n) (set_red false);; mret None
        else
          rr ← is_red (right s);
          if (rr : bool) then
            (if sibling =p left p then
               upd (right s) (set_red (red p));;
               ocf_rb_tree_rotate_left sibling;;
               ocf_rb_tree_rotate_right parent_
             else
               upd (right s) (set_red (red s));;
               upd sibling (set_red (red p));;
               ocf_rb_tree_rotate_left parent_);;
            n ← rd node; upd (parent n) (set_red false);; mret None
          else
            upd sibling (set_red true);;
            if negb (red p) then mret (Some parent_)
            else upd parent_ (set_red false);; mret None
    end
  end.

Fixpoint double_black_loop (fuel : nat) (node : ptr) : M T unit :=
  match fuel with
  | O => bug
  | S fuel =>
    next ← double_black_round node;
    match next with Some node => double_black_loop fuel node | None => mret tt end
  end.
(** A round with a red sibling is followed by a last one. *)
Definition ocf_rb_tree_fix_double_black (node : ptr) : M T unit :=
  fuel ← gets fuel_of; double_black_loop (2 + fuel) node.

(** Unlink a node without children. *)
Definition unlink (node : ptr) : M T unit :=
  n ← rd node; ocf_rb_tree_update_parent (parent n) node None.

Fixpoint remove_loop (fuel : nat) (node : ptr) : M T unit :=
  match fuel with
  | O => bug
  | S fuel =>
    sibling ← ocf_rb_tree_sibling node;
    rep ← ocf_rb_tree_bst_replacement node;
    match rep with
    | None =>
      r ← gets root;
      if node =p r then modify (set_root None)
      else
        n ← rd node;
        (if negb (red n) then ocf_rb_tree_fix_double_black node
         else if_ptr sibling (upd sibling (set_red true)));;
        unlink node
    | Some _ =>
      rn ← rd rep;
      ocf_rb_tree_swap node rep;;
      if bool_decide (left rn = None) && bool_decide (right rn = None) then
        n ← rd node;
        (if negb (red n) then ocf_rb_tree_fix_double_black node else mret tt);;
        unlink node
      else remove_loop fuel node
    end
  end.

Definition ocf_rb_tree_remove (node : Z) : M T unit :=
  e ← on_lists (list_empty node);
  if negb e then
    n ← rd (Some node);
    r ← gets root;
    if bool_decide (parent n = None) && negb (Some node =p r) then on_lists (list_del node)
    else
      next ← on_lists (list_first_entry node);
      ocf_rb_tree_swap (Some node) (Some next);;
      on_lists (list_del node)
  else fuel ← gets fuel_of; remove_loop fuel (Some node).

(** The way of the new node to [node]: whether it ends there. *)
Fixpoint reaches (fuel : nat) (cmp : Z -> Z) (node : Z) (iter : ptr) : M T bool :=
  match iter with
  | None => mret false
  | Some i =>
    match fuel with
    | O => bug
    | S fuel =>
      if i =? node then mret true
      else n ← rd iter; reaches fuel cmp node (if cmp i <? 0 then left n else right n)
    end
  end.

Definition ocf_rb_tree_can_update (cmp : Z -> Z) (node : Z) : M T bool :=
  e ← on_lists (list_empty node);
  if negb e then mret false
  else
    r ← gets root; fuel ← gets fuel_of;
    ok ← reaches fuel cmp node r;
    if negb ok then mret false
    else
      let c := cmp node in
      if c <? 0 then
        iter ← ocf_rb_tree_predecessor (Some node);
        mret (match iter with None => true | Some i => 0 <? cmp i end)
      else if 0 <? c then
        iter ← ocf_rb_tree_successor (Some node);
        mret (match iter with None => true | Some i => cmp i <? 0 end)
      else mret true.

Fixpoint find_loop (fuel : nat) (cmp : Z -> Z) (iter : ptr) : M T ptr :=
  match iter with
  | None => mret None
  | Some i =>
    match fuel with
    | O => bug
    | S fuel =>
      n ← rd iter;
      let c := cmp i in
      if c =? 0 then mret iter else find_loop fuel cmp (if c <? 0 then left n else right n)
    end
  end.

(** [list_entry] of the head is the node itself. *)
Definition ocf_rb_tree_list_find_first (node_list : Z) : M (gmap Z list_head) ptr := mret (Some node_list).

Definition ocf_rb_tree_find (find : Z -> M (gmap Z list_head) ptr) (cmp : Z -> Z) : M T ptr :=
  r ← gets root; fuel ← gets fuel_of;
  iter ← find_loop fuel cmp r;
  match iter with
  | None => mret None
  | Some i =>
    e ← on_lists (list_empty i);
    if (e : bool) then mret iter else on_lists (find i)
  end.
