(* ===== verification/RbShape.v ===== *)
(** The shape of the trees of RbTree: abstract trees and contexts, what the memory
    has to say about them, and the operations that change the shape.

    [rep k t s]: the memory of [s] holds the tree [plug k t]; [k] is the way from
    the subtree [t] up to the root.  Rotations and recolouring work on a subtree
    whatever its context is. *)

From S2P Require Import Prelude Dll EnvList RbTree.

(** ** Trees and contexts *)

Inductive tree := Leaf | Node (c : bool) (l : tree) (i : Z) (r : tree).

Definition rt (t : tree) : ptr := match t with Leaf => None | Node _ _ i _ => Some i end.
Fixpoint inorder (t : tree) : list Z := match t with Leaf => [] | Node _ l i r => inorder l ++ i :: inorder r end.

(** A node with a child on the side [d], the left one for [true], and the other. *)
Definition nd (d c : bool) (a : tree) (i : Z) (b : tree) : tree := if d then Node c a i b else Node c b i a.
Definition mkd (d c : bool) (a b p : ptr) : ocf_rb_node := if d then mkNode c a b p else mkNode c b a p.

(** The subtree is the child of [f_id] on the side [f_dir]; [f_sib] is the other. *)
Record frame := Fr { f_dir : bool; f_red : bool; f_id : Z; f_sib : tree }.
Abbreviation ctx := (list frame).

Definition up (k : ctx) : ptr := match k with [] => None | f :: _ => Some (f_id f) end.
Fixpoint plug (k : ctx) (t : tree) : tree :=
  match k with [] => t | Fr d c i s :: k => plug k (nd d c t i s) end.
Fixpoint kids (k : ctx) : list Z :=
  match k with [] => [] | Fr _ _ i s :: k => i :: inorder s ++ kids k end.
(** The elements around those of the subtree, in order. *)
Fixpoint kleft (k : ctx) : list Z :=
  match k with [] => [] | Fr d _ i s :: k => kleft k ++ (if d then [] else inorder s ++ [i]) end.
Fixpoint kright (k : ctx) : list Z :=
  match k with [] => [] | Fr d _ i s :: k => (if d then i :: inorder s else []) ++ kright k end.

Lemma inorder_plug k t : inorder (plug k t) = kleft k ++ inorder t ++ kright k.
Proof.
  revert t. induction k as [|[d c i s] k IH]; intros t; simpl; [by rewrite app_nil_r|].
  rewrite IH. destruct d; simpl; rewrite ?app_nil_r, <- ?app_assoc; simpl; rewrite <- ?app_assoc; done.
Qed.

Lemma kids_perm k : kids k ≡ₚ kleft k ++ kright k.
Proof.
  induction k as [|[d c i s] k IH]; simpl; [done|]. rewrite IH. destruct d; simpl; rewrite ?app_nil_r; solve_Permutation.
Qed.

Lemma kids_app k1 k2 : kids (k1 ++ k2) = kids k1 ++ kids k2.
Proof. induction k1 as [|[d c i s] k1 IH]; simpl; [done|]. by rewrite IH, app_assoc. Qed.

Lemma inorder_plug_perm k t : inorder (plug k t) ≡ₚ kids k ++ inorder t.
Proof. rewrite inorder_plug, kids_perm. solve_Permutation. Qed.

Lemma plug_app k1 k2 t : plug (k1 ++ k2) t = plug k2 (plug k1 t).
Proof. revert t. induction k1 as [|[d c i s] k1 IH]; intros t; simpl; [done|]. apply IH. Qed.

(** ** The memory *)

Abbreviation heap := (gmap Z ocf_rb_node).

Fixpoint ok (h : heap) (p : ptr) (t : tree) : Prop :=
  match t with
  | Leaf => True
  | Node c l i r => h !! i = Some (mkNode c (rt l) (rt r) p) /\ ok h (Some i) l /\ ok h (Some i) r
  end.

Lemma ok_nd h p d c a i b : ok h p (nd d c a i b) <-> h !! i = Some (mkd d c (rt a) (rt b) p) /\ ok h (Some i) a /\ ok h (Some i) b.
Proof. destruct d; simpl; tauto. Qed.

Lemma rt_nd d c a i b : rt (nd d c a i b) = Some i.
Proof. by destruct d. Qed.

(** The context of a subtree with the root [f]. *)
Fixpoint okc (h : heap) (r : ptr) (k : ctx) (f : ptr) : Prop :=
  match k with
  | [] => r = f
  | Fr d c i s :: k => h !! i = Some (mkd d c f (rt s) (up k)) /\ ok h (Some i) s /\ okc h r k (Some i)
  end.

(** The nodes [l] are different, and apart from them the heap is [h0]. *)
Section frame.
Context {h0 : heap}.

Definition apart (l : list Z) (h : heap) : Prop := NoDup l /\ forall j, j ∉ l -> h !! j = h0 !! j.

#[export] Instance apart_proper : Proper ((≡ₚ) ==> eq ==> iff) apart.
Proof. intros l l' Hl h ? <-. unfold apart. rewrite Hl. split; intros [? H]; split; try done; intros j; [rewrite <- Hl|rewrite Hl]; apply H. Qed.

Lemma apart_alter f i l h : i ∈ l -> apart l h -> apart l (alter f i h).
Proof. intros Hi [Hn Hf]. split; [done|]. intros j Hj. rewrite lookup_alter_ne by congruence. auto. Qed.

(** The heap and the root pointer hold [plug k t]. *)
Definition rep (k : ctx) (t : tree) (r : ptr) (h : heap) : Prop :=
  apart (kids k ++ inorder t) h /\ okc h r k (rt t) /\ ok h (up k) t.

Lemma rep_plug k t r h : rep k t r h <-> rep [] (plug k t) r h.
Proof.
  revert t. induction k as [|[d c i s] k IH]; intros t; simpl; [done|]. rewrite <- IH. unfold rep. simpl. rewrite rt_nd, ok_nd.
  assert (i :: (inorder s ++ kids k) ++ inorder t ≡ₚ kids k ++ inorder (nd d c t i s)) as ->.
  { destruct d; simpl; solve_Permutation. }
  tauto.
Qed.

Lemma rep_whole k t r h : rep k t r h -> rep [] (plug k t) r h.
Proof. apply rep_plug. Qed.

Lemma ok_dom h p t i : ok h p t -> i ∈ inorder t -> is_Some (h !! i).
Proof.
  revert p. induction t as [|c l IHl j r IHr]; intros p; simpl; [set_solver|]. intros (Hj & Hl & Hr) Hi.
  apply elem_of_app in Hi as [Hi|Hi]; [by eapply IHl|]. apply elem_of_cons in Hi as [->|Hi]; [by eexists|by eapply IHr].
Qed.

Lemma ok_ext h h' p t : (forall i, i ∈ inorder t -> h' !! i = h !! i) -> ok h p t -> ok h' p t.
Proof.
  revert p. induction t as [|c l IHl j r IHr]; intros p Hf; simpl; [done|]. intros (Hj & Hl & Hr). simpl in Hf.
  split; [rewrite Hf; [done|set_solver]|]. split; [apply IHl|apply IHr]; try done; intros i Hi; apply Hf; set_solver.
Qed.

Lemma okc_ext h h' r k f : (forall i, i ∈ kids k -> h' !! i = h !! i) -> okc h r k f -> okc h' r k f.
Proof.
  revert f. induction k as [|[d c i s] k IH]; intros f Hf; simpl; [done|]. intros (Hj & Hl & Hr). simpl in Hf.
  split; [rewrite Hf; [done|set_solver]|]. split; [eapply ok_ext; [|done]|apply IH; [|done]]; intros j Hj'; apply Hf; set_solver.
Qed.

Lemma ok_alter f i h p t : i ∉ inorder t -> ok h p t -> ok (alter f i h) p t.
Proof. intros Hi. apply ok_ext. intros j Hj. apply lookup_alter_ne. congruence. Qed.
Lemma okc_alter g i h r k f : i ∉ kids k -> okc h r k f -> okc (alter g i h) r k f.
Proof. intros Hi. apply okc_ext. intros j Hj. apply lookup_alter_ne. congruence. Qed.

(** A new parent for a subtree. *)
Definition alter_ptr (f : ocf_rb_node -> ocf_rb_node) (p : ptr) (h : heap) : heap :=
  match p with Some i => alter f i h | None => h end.

Lemma ok_reparent h p q t : NoDup (inorder t) -> ok h p t -> ok (alter_ptr (set_parent q) (rt t) h) q t.
Proof.
  destruct t as [|c l i r]; simpl; [done|]. intros (_ & Hd & [Hi _]%NoDup_cons)%NoDup_app (Hh & Hl & Hr).
  split; [by rewrite lookup_alter_eq, Hh|]. split; apply ok_alter; try done. intros Hil. apply (Hd i); set_solver.
Qed.

Lemma rt_in t i : rt t = Some i -> i ∈ inorder t.
Proof. destruct t; simpl; [done|]. intros [= ->]. set_solver. Qed.

Lemma alter_ptr_ne f p h i : p <> Some i -> alter_ptr f p h !! i = h !! i.
Proof. intros Hp. destruct p; simpl; [|done]. apply lookup_alter_ne. congruence. Qed.

Lemma ok_alter_ptr f q h p t t' : rt t' = q -> (forall i, i ∈ inorder t -> i ∉ inorder t') -> ok h p t -> ok (alter_ptr f q h) p t.
Proof. intros <- Hd. apply ok_ext. intros i Hi. apply alter_ptr_ne. intros He%rt_in. by apply (Hd i). Qed.
Lemma okc_alter_ptr g q h r k f t' : rt t' = q -> (forall i, i ∈ kids k -> i ∉ inorder t') -> okc h r k f -> okc (alter_ptr g q h) r k f.
Proof. intros <- Hd. apply okc_ext. intros i Hi. apply alter_ptr_ne. intros He%rt_in. by apply (Hd i). Qed.

(** *** Running the primitives *)

Lemma wp_rd i n Q r h l : h !! i = Some n -> Q n (mkTree r h l) -> wp (rd (Some i)) Q (mkTree r h l).
Proof. intros Hi HQ. exists n, (mkTree r h l). simpl. by rewrite Hi. Qed.

Lemma wp_upd i f Q r h l : is_Some (h !! i) -> Q tt (mkTree r (alter f i h) l) -> wp (upd (Some i) f) Q (mkTree r h l).
Proof. intros [n Hi] HQ. eexists tt, _. simpl. by rewrite Hi. Qed.

Lemma wp_reparent t p q Q r h l : ok h p t -> Q tt (mkTree r (alter_ptr (set_parent q) (rt t) h) l) ->
  wp (if_ptr (rt t) (upd (rt t) (set_parent q))) Q (mkTree r h l).
Proof.
  destruct t as [|c a i b]; simpl; [intros _; apply wp_ret|]. intros (Hi & _) HQ. apply wp_upd; [by eexists|done].
Qed.

Lemma wp_is_red_leaf Q s : Q false s -> wp (is_red None) Q s.
Proof. apply wp_ret. Qed.

Definition blk (t : tree) : bool := match t with Node true _ _ _ => false | _ => true end.

Lemma wp_is_red t p Q r h l : ok h p t -> Q (negb (blk t)) (mkTree r h l) -> wp (is_red (rt t)) Q (mkTree r h l).
Proof.
  destruct t as [|c a i b]; simpl; [intros _; apply wp_ret|]. intros (Hi & _) HQ. wp_step. eapply wp_rd; [done|]. wp_step. by destruct c.
Qed.

(** Hang a new subtree under the context. *)
Definition set_child (d : bool) (p : ptr) : ocf_rb_node -> ocf_rb_node := if d then set_left p else set_right p.
Definition relink_root (k : ctx) (q r : ptr) : ptr := match k with [] => q | _ => r end.
Definition relink_heap (k : ctx) (q : ptr) (h : heap) : heap :=
  match k with [] => h | f :: _ => alter (set_child (f_dir f) q) (f_id f) h end.

Lemma okc_relink h r k f q : NoDup (kids k) -> okc h r k f -> okc (relink_heap k q h) (relink_root k q r) k q.
Proof.
  destruct k as [|[d c i s] k]; simpl; [done|]. intros [Hi Hnd]%NoDup_cons (Hh & Hs & Hk).
  split; [rewrite lookup_alter_eq, Hh; by destruct d|]. split; [apply ok_alter; [set_solver|done]|apply okc_alter; [set_solver|done]].
Qed.

Lemma relink_heap_ne h k q i : i ∉ kids k -> relink_heap k q h !! i = h !! i.
Proof. destruct k as [|[d c j s] k]; simpl; [done|]. intros Hi. apply lookup_alter_ne. set_solver. Qed.

Lemma ok_relink h k q p t : (forall i, i ∈ inorder t -> i ∉ kids k) -> ok h p t -> ok (relink_heap k q h) p t.
Proof. intros Hd. apply ok_ext. intros i Hi. apply relink_heap_ne. auto. Qed.

Lemma wp_update_parent k x q Q r h l : okc h r k (Some x) -> x ∉ kids k ->
  Q tt (mkTree (relink_root k q r) (relink_heap k q h) l) -> wp (ocf_rb_tree_update_parent (up k) (Some x) q) Q (mkTree r h l).
Proof.
  destruct k as [|[d c i s] k]; simpl.
  - intros -> _ HQ. wp_step. apply wp_gets. simpl. rewrite bool_decide_true by done. by apply wp_modify.
  - intros (Hi & _) Hx HQ. wp_step. eapply wp_rd; [exact Hi|]. cbn beta. destruct d; simpl in *.
    + rewrite bool_decide_true by done. by apply wp_upd; [eexists|].
    + rewrite bool_decide_false by (intros He%rt_in; set_solver). rewrite bool_decide_true by done. by apply wp_upd; [eexists|].
Qed.

Lemma apart_relink k q ids h : (forall i, i ∈ kids k -> i ∈ ids) -> apart ids h -> apart ids (relink_heap k q h).
Proof. intros Hk. destruct k as [|[d c i s] k]; simpl; [done|]. apply apart_alter, Hk. by left. Qed.
Lemma apart_alter_ptr f t ids h : (forall i, i ∈ inorder t -> i ∈ ids) -> apart ids h -> apart ids (alter_ptr f (rt t) h).
Proof. intros Ht. destruct t as [|c a i b]; simpl; [done|]. apply apart_alter, Ht. simpl. set_solver. Qed.

(** ** Rotations *)

(** The rotation that moves the node to the side [d]. *)
Definition rotate (d : bool) (node : ptr) : M ocf_rb_tree unit :=
  if d then ocf_rb_tree_rotate_left node else ocf_rb_tree_rotate_right node.

Definition rotated_heap (d : bool) (k : ctx) (x y : Z) (b : ptr) (h : heap) : heap :=
  alter (set_parent (Some y)) x (alter (set_child d (Some x)) y (relink_heap k (Some y)
    (alter (set_parent (up k)) y (alter_ptr (set_parent (Some x)) b (alter (set_child (negb d) b) x h))))).

Section rotation.
Variables (d : bool) (k : ctx) (c : bool) (a : tree) (x : Z) (e : bool) (b : tree) (y : Z) (f : tree) (r : ptr) (h : heap).
Hypothesis Hrep : rep k (nd d c a x (nd d e b y f)) r h.

Lemma rotate_nodup : apart (x :: y :: kids k ++ inorder a ++ inorder b ++ inorder f) h.
Proof.
  destruct Hrep as [Hnd _]. assert (kids k ++ inorder (nd d c a x (nd d e b y f)) ≡ₚ x :: y :: kids k ++ inorder a ++ inorder b ++ inorder f) as <-; [|done].
  destruct d; simpl; solve_Permutation.
Qed.

Lemma rotate_apart : x <> y /\ x ∉ kids k /\ y ∉ kids k /\ x ∉ inorder a /\ x ∉ inorder b /\ x ∉ inorder f /\
  y ∉ inorder a /\ y ∉ inorder b /\ y ∉ inorder f /\ NoDup (kids k) /\ NoDup (inorder b) /\
  (forall i, i ∈ kids k -> i ∉ inorder b) /\ (forall i, i ∈ inorder a -> i ∉ inorder b) /\ (forall i, i ∈ inorder f -> i ∉ inorder b) /\
  (forall i, i ∈ inorder a ++ inorder b ++ inorder f -> i ∉ kids k).
Proof.
  pose proof (proj1 rotate_nodup) as [Hx [Hy (Hk & Hkd & (Ha & Had & (Hb & Hbd & Hf)%NoDup_app)%NoDup_app)%NoDup_app]%NoDup_cons]%NoDup_cons.
  split_and!; try set_solver; done.
Qed.

Lemma rotated_rep : rep k (nd d e (nd d c a x b) y f) (relink_root k (Some y) r) (rotated_heap d k x y (rt b) h).
Proof.
  destruct rotate_apart as (Hxy & Hxk & Hyk & Hxa & Hxb & Hxf & Hya & Hyb & Hyf & Hndk & Hndb & Hkb & Hab & Hfb & Hk).
  pose proof rotate_nodup as Hnd. destruct Hrep as (_ & Hc & Ht). rewrite rt_nd in Hc. rewrite !ok_nd, !rt_nd in Ht. destruct Ht as (Hx & Ha & Hy & Hb & Hf).
  assert (forall g, alter_ptr g (rt b) (alter (set_child (negb d) (rt b)) x h) !! y = h !! y) as Hl1.
  { intros g. rewrite alter_ptr_ne, lookup_alter_ne by (intros; congruence || intros He%rt_in; done). done. }
  split; [|split].
  - assert (kids k ++ inorder (nd d e (nd d c a x b) y f) ≡ₚ x :: y :: kids k ++ inorder a ++ inorder b ++ inorder f) as ->.
    { destruct d; simpl; solve_Permutation. }
    assert (x ∈ x :: y :: kids k ++ inorder a ++ inorder b ++ inorder f) as Hxin by by left.
    assert (y ∈ x :: y :: kids k ++ inorder a ++ inorder b ++ inorder f) as Hyin by (right; by left).
    unfold rotated_heap. do 2 (apply apart_alter; [done|]). apply apart_relink; [set_solver|]. apply apart_alter; [done|].
    apply apart_alter_ptr; [set_solver|]. by apply apart_alter.
  - rewrite rt_nd. unfold rotated_heap. apply okc_alter; [done|]. apply okc_alter; [done|].
    eapply okc_relink; [done|]. apply okc_alter; [done|]. eapply okc_alter_ptr; [done|exact Hkb|]. apply okc_alter; [done|]. exact Hc.
  - rewrite !ok_nd, !rt_nd. unfold rotated_heap. split_and!.
    + rewrite lookup_alter_ne, lookup_alter_eq, relink_heap_ne, lookup_alter_eq, Hl1, Hy by done. by destruct d.
    + rewrite lookup_alter_eq, lookup_alter_ne, relink_heap_ne, lookup_alter_ne by done.
      rewrite alter_ptr_ne by (intros He%rt_in; done). rewrite lookup_alter_eq, Hx. by destruct d.
    + do 2 (apply ok_alter; [done|]). apply ok_relink; [set_solver|]. apply ok_alter; [done|]. eapply ok_alter_ptr; [done|done|]. by apply ok_alter.
    + do 2 (apply ok_alter; [done|]). apply ok_relink; [set_solver|]. apply ok_alter; [done|]. eapply ok_reparent; [done|]. by apply ok_alter.
    + do 2 (apply ok_alter; [done|]). apply ok_relink; [set_solver|]. apply ok_alter; [done|]. eapply ok_alter_ptr; [done|done|]. by apply ok_alter.
Qed.

Lemma wp_rotate Q l :
  (forall r' h', rep k (nd d e (nd d c a x b) y f) r' h' -> Q tt (mkTree r' h' l)) -> wp (rotate d (Some x)) Q (mkTree r h l).
Proof.
  intros HQ. apply (wp_mono _ (fun _ s => s = mkTree (relink_root k (Some y) r) (rotated_heap d k x y (rt b) h) l));
    [|intros [] ? ->; apply HQ, rotated_rep].
  destruct rotate_apart as (Hxy & Hxk & Hyk & Hxa & Hxb & Hxf & Hya & Hyb & Hyf & Hndk & Hndb & Hkb & Hab & Hfb & Hk).
  destruct Hrep as (_ & Hc & Ht). rewrite rt_nd in Hc. rewrite !ok_nd, !rt_nd in Ht. destruct Ht as (Hx & Ha & Hy & Hb & Hf).
  assert (forall g, rt b <> Some x /\ rt b <> Some y /\ alter_ptr g (rt b) (alter (set_child (negb d) (rt b)) x h) !! x =
    Some (mkd d c (rt a) (rt b) (up k))) as Hl.
  { intros g. assert (rt b <> Some x) by (intros He%rt_in; done). split; [done|]. split; [intros He%rt_in; done|].
    rewrite alter_ptr_ne, lookup_alter_eq, Hx by done. by destruct d. }
  specialize (Hl (set_parent (Some x))) as (Hbx & Hby & Hl).
  destruct d; simpl in Hx, Hy, Hl |- *; unfold ocf_rb_tree_rotate_left, ocf_rb_tree_rotate_right;
  (wp_step; eapply wp_rd; [exact Hx|]; simpl; wp_step; eapply wp_rd; [exact Hy|]; simpl; wp_step; apply wp_upd; [by eexists|];
   wp_step; eapply wp_reparent; [apply ok_alter; [exact Hxb|exact Hb]|]; wp_step; eapply wp_rd; [exact Hl|]; simpl;
   wp_step; apply wp_upd; [rewrite alter_ptr_ne, lookup_alter_ne, Hy by done; by eexists|];
   wp_step; eapply wp_update_parent; [|exact Hxk|];
     [apply okc_alter; [done|]; eapply okc_alter_ptr; [done|exact Hkb|]; apply okc_alter; [done|]; exact Hc|];
   wp_step; apply wp_upd; [rewrite relink_heap_ne, lookup_alter_eq, alter_ptr_ne, lookup_alter_ne, Hy by done; by eexists|];
   apply wp_upd; [rewrite lookup_alter_ne, relink_heap_ne, lookup_alter_ne, Hl by done; by eexists|done]).
Qed.
End rotation.

(** ** Moving the focus, reading and recolouring *)

Lemma nd_flip d c a i b : nd d c a i b = nd (negb d) c b i a.
Proof. by destruct d. Qed.
Lemma mkd_flip d c a b p : mkd d c a b p = mkd (negb d) c b a p.
Proof. by destruct d. Qed.
Lemma Node_nd d c a i b : Node c a i b = nd d c (if d then a else b) i (if d then b else a).
Proof. by destruct d. Qed.

Lemma rep_down d c k t i s r h : rep k (nd d c t i s) r h <-> rep (Fr d c i s :: k) t r h.
Proof. rewrite (rep_plug (_ :: k)), (rep_plug k). done. Qed.
Lemma rep_down_other d c k t i s r h : rep k (nd d c t i s) r h <-> rep (Fr (negb d) c i t :: k) s r h.
Proof. by rewrite nd_flip, rep_down. Qed.

Lemma rep_in d c k t i s r h : rep k (nd d c t i s) r h -> rep (Fr d c i s :: k) t r h.
Proof. apply rep_down. Qed.
Lemma rep_out d c k t i s r h : rep (Fr d c i s :: k) t r h -> rep k (nd d c t i s) r h.
Proof. apply rep_down. Qed.
Lemma rep_in_other d c k t i s r h : rep k (nd d c t i s) r h -> rep (Fr (negb d) c i t :: k) s r h.
Proof. apply rep_down_other. Qed.
Lemma rep_out_other d c k t i s r h : rep (Fr (negb d) c i t :: k) s r h -> rep k (nd d c t i s) r h.
Proof. apply rep_down_other. Qed.

Lemma rep_lookup k d c a i b r h : rep k (nd d c a i b) r h -> h !! i = Some (mkd d c (rt a) (rt b) (up k)).
Proof. by intros (_ & _ & [? _]%ok_nd). Qed.

Lemma rep_lookup_up k d c i s t r h : rep (Fr d c i s :: k) t r h -> h !! i = Some (mkd d c (rt t) (rt s) (up k)).
Proof. by rewrite <- rep_down; apply rep_lookup. Qed.

Lemma rep_nodup k t r h : rep k t r h -> NoDup (kids k ++ inorder t).
Proof. by intros [[? _] _]. Qed.

(** What is in the subtree is nowhere else. *)
Lemma rep_fresh d c i s k t r h j : rep (Fr d c i s :: k) t r h -> j ∈ inorder t -> j <> i /\ j ∉ inorder s /\ j ∉ kids k.
Proof.
  intros (_ & Hd & _)%rep_nodup%NoDup_app Hj. simpl in Hd.
  split; [intros ->; apply (Hd i); [by left|done]|]. split; intros Hin; apply (Hd j); [| done | |done]; rewrite elem_of_cons, elem_of_app; tauto.
Qed.

Lemma wp_color d c c' k a i b r h l Q : rep k (nd d c a i b) r h ->
  (forall h', rep k (nd d c' a i b) r h' -> Q tt (mkTree r h' l)) -> wp (upd (Some i) (set_red c')) Q (mkTree r h l).
Proof.
  intros Hrep HQ. pose proof (rep_lookup _ _ _ _ _ _ _ _ Hrep) as Hi. apply wp_upd; [by eexists|]. apply HQ.
  destruct Hrep as (Hnd & Hc & Ht). rewrite rt_nd in Hc. rewrite ok_nd in Ht. destruct Ht as (_ & Ha & Hb).
  assert (kids k ++ inorder (nd d c a i b) ≡ₚ i :: kids k ++ inorder a ++ inorder b) as Hp by (destruct d; simpl; solve_Permutation).
  rewrite Hp in Hnd. split; [|split].
  - assert (kids k ++ inorder (nd d c' a i b) ≡ₚ i :: kids k ++ inorder a ++ inorder b) as -> by (destruct d; simpl; solve_Permutation).
    apply apart_alter; [by left|done].
  - destruct Hnd as [[Hn _]%NoDup_cons _]. rewrite rt_nd. apply okc_alter; [set_solver|done].
  - destruct Hnd as [[Hn _]%NoDup_cons _]. rewrite ok_nd. split; [rewrite lookup_alter_eq, Hi; by destruct d|]. split; apply ok_alter; set_solver.
Qed.

End frame.
#[global] Arguments apart : clear implicits.
#[global] Arguments rep : clear implicits.

(** ** Red-black trees *)

(** Black height [n], and no red node below a red one. *)
Fixpoint rb (t : tree) (n : nat) : Prop :=
  match t with
  | Leaf => n = O
  | Node true l _ r => rb l n /\ rb r n /\ blk l = true /\ blk r = true
  | Node false l _ r => match n with O => False | S n => rb l n /\ rb r n end
  end.
Definition rbt (t : tree) : Prop := blk t = true /\ exists n, rb t n.

(** A context for subtrees of black height [n], that are black when [pcol] holds. *)
Definition pcol (k : ctx) : bool := match k with [] => true | f :: _ => f_red f end.
Fixpoint rbc (k : ctx) (n : nat) : Prop :=
  match k with
  | [] => True
  | Fr _ c _ s :: k => rb s n /\ if c then blk s = true /\ pcol k = false /\ rbc k n else rbc k (S n)
  end.

Lemma blk_nd d c a i b : blk (nd d c a i b) = negb c.
Proof. by destruct d, c. Qed.
Lemma rb_red d a i b n : rb (nd d true a i b) n <-> rb a n /\ rb b n /\ blk a = true /\ blk b = true.
Proof. destruct d; simpl; tauto. Qed.
Lemma rb_black d a i b n : rb (nd d false a i b) (S n) <-> rb a n /\ rb b n.
Proof. destruct d; simpl; tauto. Qed.
Lemma rb_black_S d a i b n : rb (nd d false a i b) n -> exists m, n = S m /\ rb a m /\ rb b m.
Proof. destruct n as [|n]; [by destruct d|]. rewrite rb_black. eauto. Qed.

Lemma rbt_plug k t n : rb t n -> rbc k n -> (pcol k = true -> blk t = true) -> rbt (plug k t).
Proof.
  revert t n. induction k as [|[d c i s] k IH]; intros t n Ht Hk Hp; simpl in *; [split; eauto|].
  destruct Hk as [Hs Hk]. destruct c.
  - destruct Hk as (Hbs & Hpk & Hk). apply (IH _ n); [|done|by rewrite Hpk]. rewrite rb_red. auto.
  - apply (IH _ (S n)); [by rewrite rb_black|done|]. by rewrite blk_nd.
Qed.

Lemma rbt_plug_inv k t : rbt (plug k t) -> exists n, rb t n /\ rbc k n /\ (pcol k = true -> blk t = true).
Proof.
  revert t. induction k as [|[d c i s] k IH]; intros t; simpl; [intros [? [n ?]]; eauto|].
  intros (n & Hn & Hk & Hp)%IH. rewrite blk_nd in Hp. destruct c.
  - rewrite rb_red in Hn. destruct Hn as (Ht & Hs & Hbt & Hbs). exists n. split; [done|]. split; [|done]. split; [done|].
    split; [done|]. split; [|done]. destruct (pcol k); [|done]. by specialize (Hp eq_refl).
  - apply rb_black_S in Hn as (m & -> & Ht & Hs). exists m. split; [done|]. split; [done|]. done.
Qed.

(** The root may be red. *)
Definition rbt_but_root (t : tree) : Prop := exists n, rb t n.
Lemma rbt_blacken d c a i b : rbt_but_root (nd d c a i b) -> rbt (nd d false a i b).
Proof.
  intros [n Hn]. split; [by rewrite blk_nd|]. destruct c; [|by exists n]. apply rb_red in Hn. exists (S n). rewrite rb_black. tauto.
Qed.

(** ** Sizes *)

Fixpoint height (t : tree) : nat := match t with Leaf => 0 | Node _ a _ b => S (Nat.max (height a) (height b)) end.

Lemma height_nd d c a i b : height (nd d c a i b) = S (Nat.max (height a) (height b)).
Proof. destruct d; simpl; lia. Qed.

Lemma height_length t : (height t <= length (inorder t))%nat.
Proof. induction t; simpl; [lia|]. rewrite length_app. simpl. lia. Qed.

Lemma ctx_length k : (length k <= length (kids k))%nat.
Proof. induction k as [|[d c i s] k IH]; simpl; [lia|]. rewrite length_app. lia. Qed.

Lemma rep_in_heap h0 k t r h i : rep h0 k t r h -> i ∈ kids k ++ inorder t -> is_Some (h !! i).
Proof.
  intros Hr Hi. apply rep_whole in Hr. destruct Hr as (_ & _ & Hok). eapply ok_dom; [exact Hok|]. by rewrite inorder_plug_perm.
Qed.

Lemma rep_size h0 k t r h : rep h0 k t r h -> (length (kids k) + length (inorder t) <= size h)%nat.
Proof.
  intros Hr. assert (size (list_to_set (kids k ++ inorder t) : gset Z) <= size (dom h))%nat as Hle.
  { apply subseteq_size. intros i Hi%elem_of_list_to_set. apply elem_of_dom. by eapply rep_in_heap. }
  rewrite size_list_to_set, size_dom, length_app in Hle by (by eapply rep_nodup). lia.
Qed.

Lemma rep_frame h0 k t r h j : rep h0 k t r h -> j ∉ kids k ++ inorder t -> h !! j = h0 !! j.
Proof. intros [[_ Hf] _]. apply Hf. Qed.

Lemma rep_alter f i k t r h : i ∉ kids k ++ inorder t -> rep h k t r h -> rep (alter f i h) k t r (alter f i h).
Proof.
  rewrite not_elem_of_app. intros [Hk Ht] ([Hnd _] & Hc & Hok). split; [done|]. split; [by apply okc_alter|by apply ok_alter].
Qed.

(** A red-black tree is balanced. *)
Lemma rb_height t n : rb t n -> (height t <= 2 * n + (if blk t then 0 else 1))%nat.
Proof.
  revert n. induction t as [|[] l IHl i r IHr]; intros n; simpl; [lia| |].
  - intros (Hl & Hr & Hbl & Hbr). specialize (IHl _ Hl). specialize (IHr _ Hr). rewrite Hbl in IHl. rewrite Hbr in IHr. lia.
  - destruct n as [|n]; [done|]. intros (Hl & Hr). specialize (IHl _ Hl). specialize (IHr _ Hr). destruct (blk l), (blk r); lia.
Qed.

Lemma rb_size t n : rb t n -> (2 ^ n <= S (length (inorder t)))%nat.
Proof.
  revert n. induction t as [|[] l IHl i r IHr]; intros n; simpl; [intros ->; simpl; lia| |].
  - intros (Hl & Hr & _). specialize (IHl _ Hl). rewrite length_app. lia.
  - destruct n as [|n]; [done|]. intros (Hl & Hr). specialize (IHl _ Hl). specialize (IHr _ Hr). rewrite length_app. simpl. lia.
Qed.

Lemma rbt_height t : rbt t -> (height t <= 2 * Nat.log2 (S (length (inorder t))))%nat.
Proof.
  intros [Hb [n Hn]]. pose proof (rb_height _ _ Hn) as Hh. rewrite Hb in Hh. pose proof (rb_size _ _ Hn) as Hs.
  apply Nat.log2_le_mono in Hs. rewrite Nat.log2_pow2 in Hs by lia. lia.
Qed.

Lemma rep_rebase h0 k t r h : rep h0 k t r h -> rep h k t r h.
Proof. intros ([Hnd _] & Hc & Hok). done. Qed.
