(* ===== verification/RbSpec.v ===== *)
(** What the trees of RbTree stand for, and finding a node.

    The nodes in the tree are the heads of groups of nodes that compare equal; the
    abstract state is the list of the groups in order.  [rb_tree s gs]: the
    memory [s] holds the groups [gs] in a red-black tree. *)

From stdpp Require Import sorting.
From S2P Require Import Prelude Dll EnvList RbTree RbShape.

Definition group : Type := Z * list Z.
Definition heads (gs : list group) : list Z := fst <$> gs.
Definition elems (gs : list group) : list Z := gs ≫= (fun g => fst g :: snd g).

(** The comparison with the nodes of a list decreases: at most one is equal, those
    before it are smaller. *)
Definition mono (cmp : Z -> Z) (l : list Z) : Prop := StronglySorted (fun a b => 0 <= cmp b -> 0 < cmp a) l.

(** Insertion into the groups. *)
Fixpoint ins (cmp : Z -> Z) (n : Z) (gs : list group) : list group :=
  match gs with
  | [] => [(n, [])]
  | (h, ms) :: gs' =>
    if cmp h =? 0 then (h, ms ++ [n]) :: gs'
    else if cmp h <? 0 then (n, []) :: gs
    else (h, ms) :: ins cmp n gs'
  end.

(** Removal: the next of the group takes the place of the head. *)
Fixpoint del (n : Z) (gs : list group) : list group :=
  match gs with
  | [] => []
  | (h, ms) :: gs' =>
    if h =? n then match ms with [] => gs' | m :: ms => (m, ms) :: gs' end
    else if bool_decide (n ∈ ms) then (h, without n ms) :: gs'
    else (h, ms) :: del n gs'
  end.

(** The group that compares equal. *)
Definition look (cmp : Z -> Z) (gs : list group) : option group := List.find (fun g => cmp (fst g) =? 0) gs.

(** The circles of the groups in the memory; the nodes that are not heads have no
    links of the tree. *)
Definition rings (l : gmap Z list_head) (gs : list group) : Prop := Forall (fun g => ring l (fst g) (snd g)) gs.
Definition loose (h : heap) (i : Z) : Prop := exists c, h !! i = Some (mkNode c None None None).
Definition hanging (h : heap) (gs : list group) : Prop := Forall (fun g => Forall (loose h) (snd g)) gs.

Definition rb_tree (s : ocf_rb_tree) (gs : list group) : Prop :=
  (exists t, rep (nodes s) [] t (root s) (nodes s) /\ rbt t /\ inorder t = heads gs) /\
  NoDup (elems gs) /\ rings (lists s) gs /\ hanging (nodes s) gs.

(** ** Groups *)

Lemma elems_app gs1 gs2 : elems (gs1 ++ gs2) = elems gs1 ++ elems gs2.
Proof. apply bind_app. Qed.
Lemma elems_cons h ms gs : elems ((h, ms) :: gs) = h :: ms ++ elems gs.
Proof. done. Qed.

Lemma length_heads gs : length (heads gs) = length gs.
Proof. apply length_fmap. Qed.

Lemma heads_elems gs i : i ∈ heads gs -> i ∈ elems gs.
Proof. intros (g & -> & Hg)%list_elem_of_fmap. apply list_elem_of_bind. exists g. split; [by left|done]. Qed.

Lemma heads_split gs l1 x l2 : heads gs = l1 ++ x :: l2 -> exists gs1 ms gs2, gs = gs1 ++ (x, ms) :: gs2 /\ heads gs1 = l1 /\ heads gs2 = l2.
Proof.
  revert l1. induction gs as [|[h ms] gs IH]; intros l1 He; [by destruct l1|]. destruct l1 as [|y l1]; injection He as -> He.
  - by exists [], ms, gs.
  - destruct (IH _ He) as (gs1 & ms' & gs2 & -> & <- & <-). by exists ((y, ms) :: gs1), ms', gs2.
Qed.

Lemma heads_app gs l1 l2 : heads gs = l1 ++ l2 -> exists gs1 gs2, gs = gs1 ++ gs2 /\ heads gs1 = l1 /\ heads gs2 = l2.
Proof.
  revert gs. induction l1 as [|x l1 IH]; intros gs He; [by exists [], gs|]. destruct gs as [|g gs]; [done|]. injection He as <- He.
  destruct (IH _ He) as (gs1 & gs2 & -> & <- & <-). by exists (g :: gs1), gs2.
Qed.

Lemma ins_new cmp n gs1 gs2 : Forall (fun h => 0 < cmp h) (heads gs1) -> Forall (fun h => cmp h < 0) (heads gs2) ->
  ins cmp n (gs1 ++ gs2) = gs1 ++ (n, []) :: gs2.
Proof.
  induction gs1 as [|[h ms] gs1 IH]; simpl.
  - intros _ H. destruct gs2 as [|[h ms] gs2]; [done|]. apply Forall_cons in H as [H _]. simpl in *.
    destruct (Z.eqb_spec (cmp h) 0); [lia|]. destruct (Z.ltb_spec (cmp h) 0); [done|lia].
  - intros [H H1]%Forall_cons H2. rewrite IH by done. simpl in H. destruct (Z.eqb_spec (cmp h) 0); [lia|]. destruct (Z.ltb_spec (cmp h) 0); [lia|done].
Qed.

Lemma ins_equal cmp n gs1 h ms gs2 : Forall (fun h => 0 < cmp h) (heads gs1) -> cmp h = 0 ->
  ins cmp n (gs1 ++ (h, ms) :: gs2) = gs1 ++ (h, ms ++ [n]) :: gs2.
Proof.
  intros H1 H. induction gs1 as [|[h' ms'] gs1 IH]; simpl; [by rewrite H|].
  apply Forall_cons in H1 as [H1 H2]. rewrite IH by done. simpl in H1. destruct (Z.eqb_spec (cmp h') 0); [lia|]. destruct (Z.ltb_spec (cmp h') 0); [lia|done].
Qed.

(** ** The way down *)

Definition on_way (cmp : Z -> Z) (k : ctx) : Prop := Forall (fun f => if f_dir f then cmp (f_id f) < 0 else 0 < cmp (f_id f)) k.

Lemma mono_app cmp l1 l2 : mono cmp (l1 ++ l2) -> mono cmp l1 /\ mono cmp l2 /\ forall a b, a ∈ l1 -> b ∈ l2 -> 0 <= cmp b -> 0 < cmp a.
Proof.
  unfold mono. induction l1 as [|x l1 IH]; simpl; [intros H; split_and!; [constructor|done|set_solver]|].
  intros [Hx Ha]%StronglySorted_inv. destruct (IH Hx) as (H1 & H2 & H3). rewrite Forall_app in Ha. destruct Ha as [Ha1 Ha2].
  split_and!; [by constructor|done|]. intros a b [->|Ha]%elem_of_cons Hb; [|eauto]. rewrite Forall_forall in Ha2. apply Ha2. done.
Qed.

Lemma way_sides cmp k t : mono cmp (inorder (plug k t)) -> on_way cmp k ->
  Forall (fun i => 0 < cmp i) (kleft k) /\ Forall (fun i => cmp i < 0) (kright k).
Proof.
  revert t. induction k as [|[d c i s] k IH]; intros t Hm Hw; simpl; [done|]. apply Forall_cons in Hw as [Hi Hw]. simpl in *.
  destruct (IH _ Hm Hw) as [Hl Hr]. rewrite inorder_plug in Hm. apply mono_app in Hm as (_ & Hm & _). apply mono_app in Hm as (Hm & _ & _).
  destruct d; simpl in *.
  - rewrite app_nil_r. split; [done|]. constructor; [done|]. apply Forall_app. split; [|done]. apply mono_app in Hm as (_ & Hm & _).
    apply StronglySorted_inv in Hm as [_ Hm]. eapply Forall_impl; [exact Hm|]. intros j Hj. simpl in Hj. lia.
  - split; [|done]. apply Forall_app. split; [done|]. apply Forall_app. split; [|by constructor]. apply mono_app in Hm as (_ & _ & Hm).
    apply Forall_forall. intros j Hj. apply (Hm j i); [done|by left|lia].
Qed.

Lemma wp_descend h0 fuel cmp k t i r h l : rep h0 k t r h -> rt t = Some i -> on_way cmp k -> (height t <= fuel)%nat ->
  wp (descend fuel cmp i) (fun '(iter, c) s => s = mkTree r h l /\ c = cmp iter /\
    ((c = 0 /\ exists k' t', plug k' t' = plug k t /\ rt t' = Some iter /\ on_way cmp k') \/
     (c <> 0 /\ exists k' c' b, plug (Fr (c <? 0) c' iter b :: k') Leaf = plug k t /\ on_way cmp (Fr (c <? 0) c' iter b :: k')))) (mkTree r h l).
Proof.
  revert k t i. induction fuel as [|fuel IH]; intros k t i Hrep Hi Hw Hf; destruct t as [|c a j b]; try done; simpl in Hf; [lia|].
  injection Hi as ->. cbn [descend]. wp_step. change (Node c a i b) with (nd true c a i b) in Hrep. eapply wp_rd; [apply (rep_lookup _ _ _ _ _ _ _ _ Hrep)|]. cbn [mkd left right].
  destruct (Z.eqb_spec (cmp i) 0) as [He|He].
  - apply wp_ret. split; [done|]. split; [done|]. left. split; [done|]. by exists k, (Node c a i b).
  - destruct (Z.ltb_spec (cmp i) 0) as [Hlt|Hge].
    + assert (on_way cmp (Fr true c i b :: k)) as Hw2 by (by constructor). destruct (rt a) as [j|] eqn:Ha.
      * apply rep_in in Hrep. apply (IH _ a j Hrep); [done|done|lia].
      * destruct a; [|done]. apply wp_ret. split; [done|]. split; [done|]. right. split; [done|]. exists k, c, b. rewrite (proj2 (Z.ltb_lt _ _)) by done. done.
    + assert (on_way cmp (Fr false c i a :: k)) as Hw2 by (constructor; [simpl; lia|done]). destruct (rt b) as [j|] eqn:Hb.
      * apply (rep_in_other true) in Hrep. apply (IH _ b j Hrep); [done|done|lia].
      * destruct b; [|done]. apply wp_ret. split; [done|]. split; [done|]. right. split; [done|]. exists k, c, a. rewrite (proj2 (Z.ltb_ge _ _)) by lia. done.
Qed.

(** ** Finding *)

Lemma find_none {A} (p : A -> bool) l : Forall (fun x => p x = false) l -> List.find p l = None.
Proof. induction 1 as [|x l Hx _ IH]; simpl; [done|]. by rewrite Hx. Qed.
Lemma find_app {A} (p : A -> bool) l1 l2 : List.find p (l1 ++ l2) = match List.find p l1 with Some x => Some x | None => List.find p l2 end.
Proof. induction l1 as [|x l1 IH]; simpl; [done|]. by destruct (p x). Qed.

Lemma find_loop_run h0 fuel cmp k t r h l : rep h0 k t r h -> mono cmp (inorder t) -> (height t <= fuel)%nat ->
  find_loop fuel cmp (rt t) (mkTree r h l) = Some (List.find (fun i => cmp i =? 0) (inorder t), mkTree r h l).
Proof.
  revert k t. induction fuel as [|fuel IH]; intros k t Hrep Hm Hf; destruct t as [|c a i b]; try done; simpl in Hf; [lia|].
  cbn [find_loop rt]. change (Node c a i b) with (nd true c a i b) in Hrep. rewrite bind_run. cbn [rd nodes].
  rewrite (rep_lookup _ _ _ _ _ _ _ _ Hrep). cbn [fmap option_fmap option_map mkd left right]. simpl in Hm |- *. rewrite find_app. simpl.
  pose proof Hm as (Hma & Hmb & Hab)%mono_app. apply StronglySorted_inv in Hmb as [Hmb Hib]. destruct (Z.eqb_spec (cmp i) 0) as [He|He].
  - rewrite find_none; [done|]. apply Forall_forall. intros j Hj. apply Z.eqb_neq. specialize (Hab j i Hj ltac:(by left) ltac:(lia)). lia.
  - destruct (Z.ltb_spec (cmp i) 0) as [Hlt|Hge].
    + rewrite (IH (Fr true c i b :: k)); [|by apply rep_in|done|lia]. rewrite (find_none _ (inorder b)); [by destruct (List.find _ _)|].
      eapply Forall_impl; [exact Hib|]. intros j Hj. apply Z.eqb_neq. simpl in Hj. lia.
    + rewrite (IH (Fr false c i a :: k)); [|by apply (rep_in_other true)|done|lia]. rewrite (find_none _ (inorder a)); [done|].
      apply Forall_forall. intros j Hj. apply Z.eqb_neq. specialize (Hab j i Hj ltac:(by left) ltac:(lia)). lia.
Qed.

Lemma find_heads cmp gs : List.find (fun i => cmp i =? 0) (heads gs) = fst <$> look cmp gs.
Proof. induction gs as [|g gs IH]; simpl; [done|]. destruct (cmp (fst g) =? 0); [done|]. exact IH. Qed.

Lemma tree_find s gs cmp fuel : rb_tree s gs -> mono cmp (heads gs) -> (2 * Nat.log2 (S (length gs)) <= fuel \/ length gs <= fuel)%nat ->
  find_loop fuel cmp (root s) s = Some (fst <$> look cmp gs, s).
Proof.
  intros ((t & Hrep & Hrbt & Hin) & _) Hm Hf. destruct s as [r h l]. simpl in *. pose proof (rbt_height _ Hrbt) as Hh.
  pose proof (height_length t) as Hh2. rewrite Hin, length_heads in Hh, Hh2. rewrite <- find_heads, <- Hin in *. destruct Hrep as (Hnd & Hr & Hok). simpl in Hr. rewrite Hr.
  apply (find_loop_run h _ _ []); [|done|lia]. done.
Qed.

Lemma tree_size s gs : rb_tree s gs -> (length gs <= size (nodes s))%nat.
Proof. intros ((t & Hrep & _ & Hin) & _). apply rep_size in Hrep. rewrite Hin in Hrep. simpl in Hrep. by rewrite length_heads in Hrep. Qed.

Lemma look_in cmp gs g : look cmp gs = Some g -> g ∈ gs /\ cmp (fst g) = 0.
Proof. intros [Hg He]%List.find_some. rewrite list_elem_of_In. split; [done|lia]. Qed.

Lemma tree_ring s gs h ms : rb_tree s gs -> (h, ms) ∈ gs -> ring (lists s) h ms.
Proof. intros (_ & _ & Hr & _) Hg. unfold rings in Hr. rewrite Forall_forall in Hr. apply (Hr _ Hg). Qed.

Lemma find_run find s gs cmp : rb_tree s gs -> mono cmp (heads gs) ->
  ocf_rb_tree_find find cmp s =
    match look cmp gs with
    | None => Some (None, s)
    | Some (h, []) => Some (Some h, s)
    | Some (h, _) => on_lists (find h) s
    end.
Proof.
  intros Hs Hm. unfold ocf_rb_tree_find. rewrite bind_run. cbn [gets]. rewrite bind_run. cbn [gets].
  rewrite bind_run, (tree_find s gs); [|done|done|].
  - destruct (look cmp gs) as [[h ms]|] eqn:Hl; [|done]. apply look_in in Hl as [Hg _]. cbn [fmap option_fmap option_map fst].
    rewrite bind_run. unfold on_lists at 1, zoom at 1. rewrite (list_empty_run _ _ _ (tree_ring _ _ _ _ Hs Hg)). destruct s; by destruct ms.
  - right. pose proof (tree_size _ _ Hs). unfold fuel_of. lia.
Qed.
