(* ===== verification/RbInsert.v ===== *)
(** Insertion into the trees of RbTree keeps them red-black trees. *)

From S2P Require Import Prelude Dll EnvList RbTree RbShape RbSpec.

(** One side of the loop: [d] is the side of the parent under the grandparent. *)
Definition child (d : bool) (n : ocf_rb_node) : ptr := if d then left n else right n.
Definition fix_side (d : bool) (fuel : nat) (node parent_ grandparent : ptr) (p g : ocf_rb_node) : M ocf_rb_tree unit :=
  r ← is_red (child (negb d) g);
  if (r : bool) then recolor grandparent parent_ (child (negb d) g);; fix_loop fuel grandparent
  else if bool_decide (node = child (negb d) p) then rotate d parent_;; fix_loop fuel parent_
  else rotate (negb d) grandparent;; swap_colors parent_ grandparent;; fix_loop fuel parent_.

Lemma fix_loop_S fuel node : fix_loop (S fuel) node =
  (v ← violation node;
   if (v : bool) then
     n ← rd node; p ← rd (parent n);
     match parent p with
     | None => mret tt
     | Some _ => g ← rd (parent p); if bool_decide (parent n = left g) then fix_side true fuel node (parent n) (parent p) p g
       else fix_side false fuel node (parent n) (parent p) p g
     end
   else mret tt).
Proof. done. Qed.

Lemma child_mkd d d' c a b p : child d (mkd d' c a b p) = if bool_decide (d = d') then a else b.
Proof. by destruct d, d'. Qed.
Lemma parent_mkd d c a b p : parent (mkd d c a b p) = p.
Proof. by destruct d. Qed.
Lemma red_mkd d c a b p : red (mkd d c a b p) = c.
Proof. by destruct d. Qed.

Section fix_violation.
Variables (h0 : heap) (l : gmap Z list_head) (Q : unit -> ocf_rb_tree -> Prop) (order : list Z).
Hypothesis HQ : forall u r h, rep h0 [] u r h -> inorder u = order -> u <> Leaf -> rbt_but_root u -> Q tt (mkTree r h l).

Lemma wp_violation k d c a x b r h R : rep h0 k (nd d c a x b) r h -> R (c && match k with [] => false | f :: _ => f_red f end) (mkTree r h l) ->
  wp (violation (Some x)) R (mkTree r h l).
Proof.
  intros Hrep HR. unfold violation. wp_step. eapply wp_rd; [apply (rep_lookup _ _ _ _ _ _ _ _ Hrep)|]. cbn beta. rewrite red_mkd, parent_mkd.
  destruct c; [|by apply wp_ret]. destruct k as [|[d' c i s] k]; [by apply wp_ret|]. unfold is_red. simpl. wp_step.
  eapply wp_rd; [eapply rep_lookup_up, Hrep|]. cbn beta. apply wp_ret. by destruct d'.
Qed.

(** The loop ends where there is no violation. *)
Lemma wp_fix_end fuel k d c a x b r h n : rep h0 k (nd d c a x b) r h -> rb (nd d c a x b) n -> rbc k n -> inorder (plug k (nd d c a x b)) = order ->
  c = false \/ k = [] \/ pcol k = false -> wp (fix_loop (S fuel) (Some x)) Q (mkTree r h l).
Proof.
  intros Hrep Hrb Hk Ho Hc. cbn [fix_loop]. wp_step. eapply wp_violation; [exact Hrep|]. cbn beta.
  assert (c && match k with [] => false | f :: _ => f_red f end = false) as ->.
  { destruct Hc as [->|[->|Hp]]; [done|by destruct c|]. destruct k; [done|]. simpl in Hp. by rewrite Hp, andb_false_r. }
  apply wp_ret. apply (HQ (plug k (nd d c a x b))); [by apply rep_whole|done| |].
  - intros He. assert (x ∈ inorder (plug k (nd d c a x b))) as Hin by (rewrite inorder_plug, !elem_of_app; right; left; apply rt_in, rt_nd).
    rewrite He in Hin. by apply elem_of_nil in Hin.
  - destruct k as [|f k]; [by exists n|]. destruct (rbt_plug (f :: k) _ n Hrb Hk) as [_ ?]; [|done].
    rewrite blk_nd. destruct Hc as [->|[?|Hp]]; [done|done|]. by rewrite Hp.
Qed.

(** A red node below a red parent: the side of the parent is taken. *)
Lemma wp_fix_step fuel k d d' e a x b p s g u r h : rep h0 (Fr d' true p s :: Fr d false g u :: k) (nd e true a x b) r h ->
  wp (fix_side d fuel (Some x) (Some p) (Some g) (mkd d' true (Some x) (rt s) (Some g)) (mkd d false (Some p) (rt u) (up k))) Q (mkTree r h l) ->
  wp (fix_loop (S fuel) (Some x)) Q (mkTree r h l).
Proof.
  intros Hrep HR. rewrite fix_loop_S. wp_step. eapply wp_violation; [exact Hrep|]. cbn beta. cbn [andb f_red].
  wp_step. eapply wp_rd; [apply (rep_lookup _ _ _ _ _ _ _ _ Hrep)|]. cbn beta. rewrite parent_mkd. cbn [up f_id].
  wp_step. eapply wp_rd; [eapply rep_lookup_up, Hrep|]. cbn beta. cbn [up f_id]. rewrite parent_mkd, rt_nd.
  pose proof (proj2 (rep_down _ _ _ _ _ _ _ _) Hrep) as Hrep2. pose proof (rep_lookup_up _ _ _ _ _ _ _ _ Hrep2) as Hg. rewrite rt_nd in Hg.
  wp_step. eapply wp_rd; [exact Hg|]. cbn beta.
  assert (rt u <> Some p) as Hu.
  { intros He%rt_in. destruct (rep_fresh _ _ _ _ _ _ _ _ p Hrep2) as (_ & Hp & _); [|done]. apply rt_in, rt_nd. }
  destruct d; simpl left; [rewrite bool_decide_true by done|rewrite bool_decide_false by done]; exact HR.
Qed.

(** What the loop sees of the sibling and of the uncle. *)
Lemma wp_fix_side fuel k d d' e a x b p s g u r h : rep h0 (Fr d' true p s :: Fr d false g u :: k) (nd e true a x b) r h ->
  wp (if negb (blk u) then recolor (Some g) (Some p) (rt u);; fix_loop fuel (Some g)
      else if bool_decide (d = d') then rotate (negb d) (Some g);; swap_colors (Some p) (Some g);; fix_loop fuel (Some p)
      else rotate d (Some p);; fix_loop fuel (Some p)) Q (mkTree r h l) ->
  wp (fix_loop (S fuel) (Some x)) Q (mkTree r h l).
Proof.
  intros Hrep HR. eapply wp_fix_step; [exact Hrep|]. unfold fix_side. rewrite !child_mkd.
  pose proof (rep_fresh _ _ _ _ _ _ _ _ x Hrep ltac:(apply rt_in, rt_nd)) as (_ & Hxs & _). rewrite <- !rep_down in Hrep.
  assert (ok h (Some g) u) as Hok. { destruct Hrep as (_ & _ & Hr). apply ok_nd in Hr as (_ & _ & Hr). done. }
  rewrite (bool_decide_false (negb d = d)) by (by destruct d). wp_step. eapply wp_is_red; [exact Hok|]. cbn beta.
  destruct (blk u); [|exact HR]. cbn [negb] in *. destruct (decide (d = d')) as [<-|Hd].
  - rewrite bool_decide_true in HR by done. rewrite (bool_decide_false (negb d = d)) by (by destruct d).
    rewrite bool_decide_false by (intros He; symmetry in He; by apply rt_in in He). exact HR.
  - rewrite bool_decide_false in HR by done. rewrite (bool_decide_true (negb d = d')) by (by destruct d, d').
    rewrite bool_decide_true by done. exact HR.
Qed.

(** Node and parent are red on the same side, the uncle is black: one rotation and
    the loop ends. *)
Lemma wp_fix_outer fuel k d e a x b p s g u r h n : rep h0 (Fr d true p s :: Fr d false g u :: k) (nd e true a x b) r h ->
  rb (nd e true a x b) n -> rb s n -> rb u n -> blk s = true -> blk u = true -> rbc k (S n) ->
  inorder (plug k (nd d false (nd d true (nd e true a x b) p s) g u)) = order ->
  wp (fix_loop (S (S fuel)) (Some x)) Q (mkTree r h l).
Proof.
  intros Hrep Ht Hs Hu Hbs Hbu Hk Ho. eapply wp_fix_side; [exact Hrep|]. rewrite Hbu, bool_decide_true by done. cbn [negb].
  rewrite <- !rep_down, (nd_flip d _ _ g), (nd_flip d _ _ p) in Hrep.
  wp_step. eapply wp_rotate; [exact Hrep|]. clear Hrep h r. intros r h Hrep. cbn beta.
  unfold swap_colors. wp_step. wp_step. eapply wp_rd; [apply (rep_lookup _ _ _ _ _ _ _ _ Hrep)|]. cbn beta. rewrite red_mkd.
  apply rep_down in Hrep. wp_step. eapply wp_rd; [apply (rep_lookup _ _ _ _ _ _ _ _ Hrep)|]. cbn beta. rewrite red_mkd.
  apply rep_down in Hrep. wp_step. eapply wp_color; [exact Hrep|]. clear Hrep h. intros h Hrep. cbn beta.
  apply rep_down in Hrep. eapply wp_color; [exact Hrep|]. clear Hrep h. intros h Hrep. cbn beta. apply rep_down in Hrep.
  eapply (wp_fix_end _ _ _ _ _ _ _ _ _ (S n)); [exact Hrep| |exact Hk| |by left].
  - rewrite rb_black, rb_red. auto.
  - rewrite <- Ho, !inorder_plug. f_equal. f_equal. destruct d; simpl; rewrite <- ?app_assoc; done.
Qed.

(** They are red on different sides: a rotation of the parent makes the sides equal. *)
Lemma wp_fix_inner fuel k d a x b p s g u r h n : rep h0 (Fr (negb d) true p s :: Fr d false g u :: k) (nd d true a x b) r h ->
  rb (nd d true a x b) n -> rb s n -> rb u n -> blk s = true -> blk u = true -> rbc k (S n) ->
  inorder (plug k (nd d false (nd (negb d) true (nd d true a x b) p s) g u)) = order ->
  wp (fix_loop (S (S (S fuel))) (Some x)) Q (mkTree r h l).
Proof.
  intros Hrep Ht Hs Hu Hbs Hbu Hk Ho. eapply wp_fix_side; [exact Hrep|]. rewrite Hbu, bool_decide_false by (by destruct d). cbn [negb].
  apply rep_out in Hrep. rewrite nd_flip, negb_involutive in Hrep.
  wp_step. eapply wp_rotate; [exact Hrep|]. clear Hrep h r. intros r h Hrep. cbn beta. apply rep_in in Hrep. apply rb_red in Ht.
  eapply wp_fix_outer; [exact Hrep| |apply Ht|exact Hu|apply Ht|done|exact Hk|].
  - rewrite rb_red. tauto.
  - rewrite <- Ho, !inorder_plug. f_equal. f_equal. destruct d; simpl; rewrite <- ?app_assoc; simpl; rewrite <- ?app_assoc; done.
Qed.

(** The uncle is red: three colours change and the grandparent is looked at next. *)
Lemma wp_recolor k d d' t p s g e ua u ub r h R : rep h0 (Fr d' true p s :: Fr d false g (nd e true ua u ub) :: k) t r h ->
  (forall h', rep h0 k (nd d true (nd d' false t p s) g (nd e false ua u ub)) r h' -> R tt (mkTree r h' l)) ->
  wp (recolor (Some g) (Some p) (Some u)) R (mkTree r h l).
Proof.
  intros Hrep HR. rewrite <- !rep_down in Hrep. unfold recolor.
  wp_step. eapply wp_color; [exact Hrep|]. clear Hrep h. intros h Hrep. cbn beta. apply rep_down in Hrep.
  wp_step. eapply wp_color; [exact Hrep|]. clear Hrep h. intros h Hrep. cbn beta. apply rep_down, rep_down_other in Hrep.
  eapply wp_color; [exact Hrep|]. clear Hrep h. intros h Hrep. apply HR, rep_down_other, Hrep.
Qed.

Lemma wp_fix_loop fuel k d a x b r h n : rep h0 k (nd d true a x b) r h -> rb (nd d true a x b) n -> rbc k n -> (length k + 3 <= fuel)%nat ->
  inorder (plug k (nd d true a x b)) = order -> wp (fix_loop fuel (Some x)) Q (mkTree r h l).
Proof.
  revert k d a x b r h n. induction fuel as [|fuel IH]; intros k d a x b r h n Hrep Ht Hk Hf Ho; [lia|].
  destruct k as [|[d' c p s] k]; [eapply wp_fix_end; eauto|]. destruct c; [|eapply wp_fix_end; eauto].
  pose proof Hk as (Hs & Hbs & Hp & Hk2). destruct k as [|[d2 c2 g u] k]; [done|]. simpl in Hp. subst c2. destruct Hk2 as [Hu Hk2].
  simpl in Hf. destruct (blk u) eqn:Hbu.
  - destruct fuel as [|[|fuel]]; [lia|lia|]. destruct (decide (d' = d2)) as [->|Hd]; [eapply wp_fix_outer; eauto|].
    assert (d' = negb d2) as -> by (by destruct d', d2). destruct (decide (d = d2)) as [->|Hd2]; [eapply wp_fix_inner; eauto|].
    assert (d = negb d2) as -> by (by destruct d, d2). rewrite nd_flip, negb_involutive in *. eapply wp_fix_inner; eauto.
  - destruct u as [|[] ua ui ub]; [done| |done]. change (Node true ua ui ub) with (nd true true ua ui ub) in *.
    eapply wp_fix_side; [exact Hrep|]. rewrite blk_nd. cbn [negb]. rewrite rt_nd.
    wp_step. eapply wp_recolor; [exact Hrep|]. clear Hrep h. intros h Hrep. cbn beta. apply rb_red in Hu.
    eapply (IH _ _ _ _ _ _ _ (S n)); [exact Hrep| |exact Hk2|lia|].
    + rewrite rb_red, !rb_black, !blk_nd. tauto.
    + rewrite <- Ho, !inorder_plug. simpl. destruct d', d2; simpl; rewrite <- ?app_assoc; simpl; rewrite <- ?app_assoc; done.
Qed.
End fix_violation.

(** A new red leaf. *)
Lemma rep_attach h0 d c i b k n r h : okc h r (Fr d c i b :: k) None -> NoDup (n :: kids (Fr d c i b :: k)) ->
  h !! n = Some (mkNode true None None (Some i)) -> (forall j, j ∉ n :: kids (Fr d c i b :: k) -> h !! j = h0 !! j) ->
  rep h0 (Fr d c i b :: k) (nd true true Leaf n Leaf) r (alter (set_child d (Some n)) i h).
Proof.
  intros Hc Hnd Hn Hf. assert (kids (Fr d c i b :: k) ++ inorder (nd true true Leaf n Leaf) ≡ₚ n :: kids (Fr d c i b :: k)) as Hp.
  { simpl. solve_Permutation. }
  pose proof Hnd as [Hni Hndk]%NoDup_cons. split; [|split].
  - rewrite Hp. apply apart_alter; [right; by left|]. done.
  - rewrite rt_nd. apply (okc_relink h r (Fr d c i b :: k) None (Some n)); done.
  - simpl. rewrite lookup_alter_ne by (intros ->; apply Hni; by left). done.
Qed.

(** Fixing up ends with the red-black tree. *)
Lemma fix_violation_run h0 fuel k a x b r h l n : rep h0 k (nd true true a x b) r h -> rb (nd true true a x b) n -> rbc k n -> (length k + 3 <= fuel)%nat ->
  wp (ocf_rb_tree_fix_violation fuel (Some x)) (fun _ s => exists u r' h', s = mkTree r' h' l /\ rep h0 [] u r' h' /\ rbt u /\
    inorder u = kleft k ++ inorder (nd true true a x b) ++ kright k) (mkTree r h l).
Proof.
  intros Hrep Hrb Hk Hf. unfold ocf_rb_tree_fix_violation. wp_step.
  eapply (wp_fix_loop h0 l _ (kleft k ++ inorder (nd true true a x b) ++ kright k)); [|exact Hrep|exact Hrb|exact Hk|done|by rewrite inorder_plug].
  clear - h0. intros u r h Hrep Hin Hne Hrb. cbn beta. wp_step. apply wp_gets. cbn [root].
  destruct u as [|c a' i b']; [done|]. rewrite (Node_nd true) in *. pose proof Hrep as (_ & Hr & _). rewrite rt_nd in Hr. simpl in Hr. subst r.
  eapply wp_color; [exact Hrep|]. clear Hrep. intros h' Hrep. eexists _, _, _. split; [done|]. split; [exact Hrep|].
  split; [by eapply rbt_blacken|]. rewrite <- Hin. done.
Qed.

Lemma loose_frame h h' i : h' !! i = h !! i -> loose h i -> loose h' i.
Proof. intros He [c Hc]. exists c. by rewrite He. Qed.

Lemma hanging_frame h h' gs : (forall i g, g ∈ gs -> i ∈ snd g -> h' !! i = h !! i) -> hanging h gs -> hanging h' gs.
Proof.
  unfold hanging. rewrite !Forall_forall. intros Hf Hh g Hg. rewrite Forall_forall in *. intros i Hi.
  eapply loose_frame; [by eapply Hf|]. specialize (Hh g Hg). rewrite Forall_forall in Hh. by apply Hh.
Qed.

Lemma rings_frame l l' gs : (forall i, i ∈ elems gs -> l' !! i = l !! i) -> rings l gs -> rings l' gs.
Proof.
  unfold rings. rewrite !Forall_forall. intros Hf Hr g Hg. eapply ring_frame; [|by apply Hr]. intros i Hi. apply Hf, list_elem_of_bind.
  by exists g.
Qed.

Lemma elems_members g gs i : g ∈ gs -> i ∈ snd g -> i ∈ elems gs.
Proof. intros Hg Hi. apply list_elem_of_bind. exists g. split; [by right|done]. Qed.

Lemma elems_apart gs1 g gs2 i g' : NoDup (elems (gs1 ++ g :: gs2)) -> g' ∈ gs1 ++ gs2 -> i ∈ fst g' :: snd g' -> i ∉ fst g :: snd g.
Proof.
  rewrite elems_app. change (elems (g :: gs2)) with ((fst g :: snd g) ++ elems gs2). intros Hnd Hg Hi Hi2.
  apply NoDup_app in Hnd as (_ & H1 & (_ & H2 & _)%NoDup_app). apply elem_of_app in Hg as [Hg|Hg].
  - apply (H1 i); [|apply elem_of_app; by left]. apply list_elem_of_bind. by exists g'.
  - apply (H2 i); [done|]. apply list_elem_of_bind. by exists g'.
Qed.

Lemma head_not_member gs g i : NoDup (elems gs) -> g ∈ gs -> i ∈ snd g -> i ∉ heads gs.
Proof.
  intros Hnd Hg Hi Hh. apply list_elem_of_fmap in Hh as (g' & -> & Hg'). apply list_elem_of_split in Hg as (gs1 & gs2 & ->).
  apply elem_of_app in Hg' as [Hg'|[->|Hg']%elem_of_cons].
  - eapply (elems_apart _ _ _ _ g'); [exact Hnd|apply elem_of_app; by left|by left|by right].
  - rewrite elems_app in Hnd. apply NoDup_app in Hnd as (_ & _ & [Hn _]%NoDup_cons). apply Hn, elem_of_app. by left.
  - eapply (elems_apart _ _ _ _ g'); [exact Hnd|apply elem_of_app; by right|by left|by right].
Qed.

(** The new node joins a group. *)
Lemma insert_equal_run r h l n gs1 i ms gs2 : rb_tree (mkTree r h l) (gs1 ++ (i, ms) :: gs2) -> n ∉ elems (gs1 ++ (i, ms) :: gs2) -> loose h n -> is_Some (l !! n) ->
  wp (on_lists (list_add_tail n i)) (fun _ s => rb_tree s (gs1 ++ (i, ms ++ [n]) :: gs2)) (mkTree r h l).
Proof.
  intros ((t & Hrep & Hrbt & Hin) & Hnd & Hr & Hh) Hn Hl Hln. simpl in *. unfold on_lists. apply wp_zoom. cbn [lists root nodes].
  assert (ring l i ms) as Hri. { unfold rings in Hr. rewrite Forall_app, Forall_cons in Hr. apply Hr. }
  assert (elems (gs1 ++ (i, ms) :: gs2) = elems gs1 ++ (i :: ms) ++ elems gs2) as He by (by rewrite elems_app).
  eapply wp_mono; [apply (list_add_tail_run _ _ _ n Hri)|]; [rewrite He in Hn; set_solver|done|]. intros [] l' (Hr' & Hf). split; [|split; [|split]]; cbn [lists root nodes].
  - exists t. split; [done|]. split; [done|]. rewrite Hin. unfold heads. by rewrite !fmap_app.
  - assert (elems (gs1 ++ (i, ms ++ [n]) :: gs2) ≡ₚ n :: elems (gs1 ++ (i, ms) :: gs2)) as ->; [|by constructor].
    rewrite !elems_app, !elems_cons. solve_Permutation.
  - assert (Forall (fun g => ring l' (fst g) (snd g)) (gs1 ++ gs2)) as Ho.
    { unfold rings in Hr. rewrite Forall_app, Forall_cons in Hr. apply Forall_forall. intros g Hg.
      eapply ring_frame; [|assert (Forall (fun g => ring l (fst g) (snd g)) (gs1 ++ gs2)) as Hall by (apply Forall_app; tauto)].
      2: { rewrite Forall_forall in Hall. by apply Hall. }
      intros j Hj. apply Hf. pose proof (elems_apart _ _ _ j _ Hnd Hg Hj) as Hj2. simpl in Hj2. apply not_elem_of_cons. split; [|done].
      intros ->. apply Hn. rewrite He, !elem_of_app. apply elem_of_app in Hg as [Hg|Hg]; [left|right; right]; apply list_elem_of_bind; by exists g. }
    unfold rings. rewrite Forall_app in Ho |- *. split; [apply Ho|]. constructor; [done|apply Ho].
  - unfold hanging in *. rewrite Forall_app, Forall_cons in *. destruct Hh as (H1 & H2 & H3). split; [done|]. split; [|done].
    simpl in *. apply Forall_app. split; [done|]. by constructor.
Qed.

(** The new node becomes a leaf below [i]. *)
Lemma insert_new_run r h l n gs1 gs2 c i b k d fuel p : NoDup (elems (gs1 ++ gs2)) -> rings l (gs1 ++ gs2) -> hanging h (gs1 ++ gs2) ->
  rep h [] (plug (Fr d c i b :: k) Leaf) r h -> rbt (plug (Fr d c i b :: k) Leaf) -> heads gs1 = kleft (Fr d c i b :: k) -> heads gs2 = kright (Fr d c i b :: k) ->
  n ∉ elems (gs1 ++ gs2) -> loose h n -> ring l n [] -> (length (Fr d c i b :: k) + 3 <= fuel)%nat -> p = Some i ->
  wp (upd (Some n) (set_red true);; upd (Some n) (set_parent p);; upd p (set_child d (Some n));; ocf_rb_tree_fix_violation fuel (Some n))
    (fun _ s => rb_tree s (gs1 ++ (n, []) :: gs2)) (mkTree r h l).
Proof.
  intros Hnd Hr Hh Hrep Hrbt H1 H2 Hn [cn Hl] Hln Hf ->. apply rep_plug in Hrep. apply rbt_plug_inv in Hrbt as (m & Hm & Hk & _). simpl in Hm. subst m.
  assert (n ∉ kids (Fr d c i b :: k)) as Hnk.
  { rewrite kids_perm, <- H1, <- H2. intros Hi. apply Hn. rewrite elems_app, elem_of_app in *. destruct Hi; [left|right]; by apply heads_elems. }
  pose proof (rep_nodup _ _ _ _ Hrep) as Hndk. rewrite app_nil_r in Hndk. destruct Hrep as (_ & Hc & _).
  wp_step. apply wp_upd; [by eexists|]. wp_step. apply wp_upd; [there|].
  assert (i <> n) by (intros ->; apply Hnk; by left).
  wp_step. apply wp_upd; [rewrite !lookup_alter_ne by done; destruct Hc as [Hi _]; by eexists|]. cbn beta.
  eapply wp_mono; [eapply fix_violation_run; [apply (rep_attach h)| |exact Hk|exact Hf]|].
  - do 2 (apply okc_alter; [done|]). exact Hc.
  - by constructor.
  - by rewrite !lookup_alter_eq, Hl.
  - intros j Hj. rewrite !lookup_alter_ne by set_solver. done.
  - rewrite rb_red. done.
  - intros [] s (u & r' & h' & -> & Hrep & Hrbt & Hin). assert (inorder u = heads (gs1 ++ (n, []) :: gs2)) as Hin'.
    { rewrite Hin, <- H1, <- H2. unfold heads. by rewrite fmap_app. }
    assert (NoDup (elems (gs1 ++ (n, []) :: gs2))) as Hnd'.
    { assert (elems (gs1 ++ (n, []) :: gs2) ≡ₚ n :: elems (gs1 ++ gs2)) as ->; [|by constructor]. rewrite !elems_app, elems_cons. solve_Permutation. }
    split; [|split; [done|split]]; cbn [root nodes lists].
    + exists u. split; [by eapply rep_rebase|]. done.
    + unfold rings in *. rewrite Forall_app in *. split; [apply Hr|]. constructor; [done|apply Hr].
    + assert (hanging h' (gs1 ++ gs2)) as Hh'.
      { eapply hanging_frame; [|exact Hh]. intros j g Hg Hj. apply (rep_frame _ _ _ _ _ _ Hrep). simpl. rewrite Hin'.
        apply (head_not_member _ g); [done| |done]. apply elem_of_app in Hg. apply elem_of_app. destruct Hg; [by left|right; by right]. }
      unfold hanging in *. rewrite Forall_app in *. split; [apply Hh'|]. constructor; [constructor|apply Hh'].
Qed.

(** Where a new node lands, whatever the order of the tree: in the group of a head
    that compares equal, or as a new head; in order when the comparison is. *)
Inductive placed (cmp : Z -> Z) (n : Z) : list group -> list group -> Prop :=
| placed_new gs1 gs2 :
    (mono cmp (heads (gs1 ++ gs2)) -> Forall (fun h => 0 < cmp h) (heads gs1) /\ Forall (fun h => cmp h < 0) (heads gs2)) ->
    placed cmp n (gs1 ++ gs2) (gs1 ++ (n, []) :: gs2)
| placed_equal gs1 h ms gs2 : cmp h = 0 -> placed cmp n (gs1 ++ (h, ms) :: gs2) (gs1 ++ (h, ms ++ [n]) :: gs2).

Lemma placed_ins cmp n gs gs' : placed cmp n gs gs' -> mono cmp (heads gs) -> gs' = ins cmp n gs.
Proof.
  intros [gs1 gs2 Hs|gs1 h ms gs2 Hh] Hm.
  - destruct (Hs Hm). by rewrite ins_new.
  - unfold heads in Hm. rewrite fmap_app in Hm. apply mono_app in Hm as (_ & _ & Hb).
    rewrite ins_equal; [done| |done]. apply Forall_forall. intros j Hj. apply (Hb j h); [done|by left|lia].
Qed.

Lemma placed_elems cmp n gs gs' : placed cmp n gs gs' -> elems gs' ≡ₚ n :: elems gs.
Proof. intros [gs1 gs2 _|gs1 h ms gs2 _]; rewrite !elems_app, ?elems_cons; solve_Permutation. Qed.

Lemma insert_place cmp n s gs : rb_tree s gs -> n ∉ elems gs -> is_Some (nodes s !! n) -> is_Some (lists s !! n) ->
  wp (ocf_rb_tree_insert cmp n) (fun _ s' => exists gs', placed cmp n gs gs' /\ rb_tree s' gs') s.
Proof.
  intros ((t & Hrep & Hrbt & Hin) & Hnd & Hrings & Hhang) Hn [nn Hnn] Hln. destruct s as [r h l]. simpl in *.
  assert (forall i, i ∈ heads gs -> i <> n) as Hne by (intros i Hi ->; by apply Hn, heads_elems).
  unfold ocf_rb_tree_insert. wp_step. unfold on_lists. apply wp_zoom. cbn [lists].
  eapply wp_mono; [apply INIT_run, Hln|]. intros [] l1 (Hr1 & Hf1 & Hl1). cbn beta. cbn [root nodes].
  assert (rings l1 gs) as Hrings1. { eapply rings_frame; [|exact Hrings]. intros i Hi. apply Hf1. congruence. }
  wp_step. apply wp_upd; [by eexists|]. wp_step. apply wp_upd; [there|]. wp_step. apply wp_upd; [there|].
  set (h1 := alter (set_parent None) n _). assert (h1 !! n = Some (mkNode (red nn) None None None)) as Hn1.
  { unfold h1. by rewrite !lookup_alter_eq, Hnn. }
  assert (rep h1 [] t r h1) as Hrep1. { unfold h1. do 3 (apply rep_alter; [simpl; rewrite Hin; intros Hi%Hne; done|]). exact Hrep. }
  assert (hanging h1 gs) as Hhang1.
  { eapply hanging_frame; [|exact Hhang]. intros i g Hg Hi. assert (i <> n) by (intros ->; by apply Hn; eapply elems_members). unfold h1. by rewrite !lookup_alter_ne by done. }
  clearbody h1. clear Hrep Hhang Hrings Hf1 l Hln h Hnn. cbn beta. wp_step. apply wp_gets. cbn [root].
  destruct r as [i|].
  2: { destruct Hrep1 as (_ & Hr & _). simpl in Hr. destruct t; [|done]. destruct gs; [|done]. clear Hrings1 Hhang1.
    wp_step. apply wp_upd; [by eexists|]. wp_step. apply wp_upd; [there|]. apply wp_modify. unfold set_root. cbn [nodes lists].
    exists [(n, [])]. split; [apply (placed_new _ _ [] []); done|]. split; [exists (Node false Leaf n Leaf)|split; [|split]]; simpl.
    - split; [split; [split; [apply NoDup_singleton|done]|split; [done|]]|split; [|done]].
      + simpl. split; [|done]. by rewrite !lookup_alter_eq, Hn1.
      + split; [done|]. by exists 1%nat.
    - unfold elems. simpl. apply NoDup_singleton.
    - by constructor.
    - by constructor. }
  wp_step. apply wp_gets. unfold fuel_of. cbn [nodes]. wp_step.
  pose proof Hrep1 as (_ & Hr & _). simpl in Hr. pose proof (rep_size _ _ _ _ _ Hrep1) as Hsz. pose proof (height_length t) as Hht. simpl in Hsz.
  eapply wp_mono; [eapply (wp_descend h1 _ cmp [] t); [exact Hrep1|done|by constructor|lia]|].
  intros [iter c] s (-> & -> & [(He & k & t' & Hpl & Hrt & Hw)|(Hc & k & c' & b & Hpl & Hw)]); cbn beta iota; simpl in Hpl.
  - rewrite He. cbn [Z.eqb]. destruct t' as [|c a j b]; [done|]. injection Hrt as ->.
    assert (heads gs = (kleft k ++ inorder a) ++ iter :: (inorder b ++ kright k)) as Hh.
    { rewrite <- Hin, <- Hpl, inorder_plug. simpl. by rewrite <- !app_assoc. }
    destruct (heads_split _ _ _ _ Hh) as (gs1 & ms & gs2 & -> & H1 & H2).
    eapply wp_mono; [|intros ? s' Hs'; exists (gs1 ++ (iter, ms ++ [n]) :: gs2); split; [by constructor|exact Hs']].
    apply insert_equal_run; [|done|by eexists|done]. split; [by exists t|done].
  - destruct (Z.eqb_spec (cmp iter) 0) as [|_]; [done|]. rewrite Hin in *. rewrite <- Hpl in *. set (K := Fr _ _ _ _ :: k) in *.
    assert (heads gs = kleft K ++ kright K) as Hh. { rewrite <- Hin. exact (inorder_plug K Leaf). }
    destruct (heads_app _ _ _ Hh) as (gs1 & gs2 & -> & H1 & H2). eapply wp_mono; [|intros ? s' Hs'; exists (gs1 ++ (n, []) :: gs2); split; [|exact Hs']].
    2: { constructor. intros Hm. rewrite <- Hin in Hm. rewrite H1, H2. by apply (way_sides _ K Leaf). }
    assert (length K <= length (kids K))%nat by apply ctx_length. assert (length (kids K) = length (heads (gs1 ++ gs2))) by (rewrite Hh; apply Permutation_length, kids_perm).
    apply (insert_new_run _ _ _ _ gs1 gs2 c' iter b k (cmp iter <? 0)); try done; [by eexists|fold K; lia].
Qed.

(** [insert] refines the insertion into the groups. *)
Lemma rb_insert_run cmp n s gs : rb_tree s gs -> mono cmp (heads gs) -> n ∉ elems gs -> is_Some (nodes s !! n) -> is_Some (lists s !! n) ->
  wp (ocf_rb_tree_insert cmp n) (fun _ s' => rb_tree s' (ins cmp n gs)) s.
Proof.
  intros Hs Hm Hn Hnn Hln. eapply wp_mono; [by apply insert_place|]. intros [] s' (gs' & Hp & Hs'). by rewrite <- (placed_ins _ _ _ _ Hp Hm).
Qed.
