(* ===== verification/RbSwap.v ===== *)
(** Swapping two nodes of a tree of RbTree.

    [ocf_rb_tree_swap x y] renames the two in the whole tree, when [y] is below [x]
    or has no links at all ([swap_run]): the places, their colours and the links
    around them stay. *)

From S2P Require Import Prelude Dll EnvList RbTree RbShape.

Section swap.
Variables x y : Z.

(** ** Renaming *)

Definition tr (i : Z) : Z := if decide (i = x) then y else if decide (i = y) then x else i.
Definition ren (p : ptr) : ptr := tr <$> p.
Definition ren_node (n : ocf_rb_node) : ocf_rb_node := mkNode (red n) (ren (left n)) (ren (right n)) (ren (parent n)).
Fixpoint ren_tree (t : tree) : tree :=
  match t with Leaf => Leaf | Node c l i r => Node c (ren_tree l) (tr i) (ren_tree r) end.
Definition ren_frame (f : frame) : frame := Fr (f_dir f) (f_red f) (tr (f_id f)) (ren_tree (f_sib f)).

Lemma tr_x : tr x = y.
Proof. unfold tr. by rewrite decide_True. Qed.
Lemma tr_y : tr y = x.
Proof. unfold tr. destruct (decide (y = x)); [done|]. by rewrite decide_True. Qed.
Lemma tr_ne i : i <> x -> i <> y -> tr i = i.
Proof. intros. unfold tr. by rewrite !decide_False. Qed.
Lemma tr_tr i : tr (tr i) = i.
Proof. unfold tr. repeat case_decide; congruence. Qed.
#[export] Instance tr_inj : Inj (=) (=) tr.
Proof. intros i j Hij. rewrite <- (tr_tr i), <- (tr_tr j). by rewrite Hij. Qed.

Lemma ren_rt t : rt (ren_tree t) = ren (rt t).
Proof. by destruct t. Qed.
Lemma ren_inorder t : inorder (ren_tree t) = tr <$> inorder t.
Proof. induction t as [|c l IHl i r IHr]; simpl; [done|]. by rewrite fmap_app, IHl, IHr. Qed.
Lemma ren_plug k t : ren_tree (plug k t) = plug (ren_frame <$> k) (ren_tree t).
Proof. revert t. induction k as [|[d c i s] k IH]; intros t; simpl; [done|]. rewrite IH. by destruct d. Qed.
Lemma ren_tree_fresh t : x ∉ inorder t -> y ∉ inorder t -> ren_tree t = t.
Proof.
  induction t as [|c l IHl i r IHr]; simpl; [done|]. rewrite !not_elem_of_app, !not_elem_of_cons. intros (? & ? & ?) (? & ? & ?).
  by rewrite IHl, IHr, tr_ne by done.
Qed.
Lemma ren_ctx_fresh k : x ∉ kids k -> y ∉ kids k -> ren_frame <$> k = k.
Proof.
  induction k as [|[d c i s] k IH]; simpl; [done|]. rewrite !not_elem_of_cons, !not_elem_of_app. intros (? & ? & ?) (? & ? & ?).
  unfold ren_frame at 1. simpl. rewrite tr_ne, ren_tree_fresh by done. f_equal. by apply IH.
Qed.
Lemma ren_rb t n : rb (ren_tree t) n <-> rb t n.
Proof.
  assert (forall u, blk (ren_tree u) = blk u) as Hb by (by intros []).
  revert n. induction t as [|[] l IHl i r IHr]; intros n; simpl; [done| |].
  - by rewrite IHl, IHr, !Hb.
  - destruct n; [done|]. by rewrite IHl, IHr.
Qed.
Lemma ren_rbt t : rbt (ren_tree t) <-> rbt t.
Proof. unfold rbt. assert (blk (ren_tree t) = blk t) as -> by (by destruct t). by setoid_rewrite ren_rb. Qed.

Lemma ok_ren h h' p t : (forall i, i ∈ inorder t -> h' !! tr i = ren_node <$> h !! i) -> ok h p t -> ok h' (ren p) (ren_tree t).
Proof.
  revert p. induction t as [|c l IHl i r IHr]; intros p Hf; simpl; [done|]. intros (Hi & Hl & Hr). simpl in Hf.
  split; [|split].
  - rewrite Hf, Hi by set_solver. simpl. unfold ren_node. simpl. by rewrite !ren_rt.
  - apply (IHl (Some i)); [|done]. intros j Hj. apply Hf. set_solver.
  - apply (IHr (Some i)); [|done]. intros j Hj. apply Hf. set_solver.
Qed.

Lemma tr_elem i (l : list Z) : i ∈ tr <$> l <-> tr i ∈ l.
Proof. rewrite list_elem_of_fmap. split; [intros (j & -> & Hj); by rewrite tr_tr|]. intros Hi. exists (tr i). by rewrite tr_tr. Qed.
Lemma tr_perm (l : list Z) : NoDup l -> x ∈ l -> y ∈ l -> tr <$> l ≡ₚ l.
Proof.
  intros Hnd Hx Hy. apply NoDup_Permutation; [apply NoDup_fmap_2; [apply _|done]|done|]. intros i. rewrite tr_elem. unfold tr. repeat case_decide; subst; tauto.
Qed.
Lemma tr_fmap_fresh (l : list Z) : x ∉ l -> y ∉ l -> tr <$> l = l.
Proof.
  induction l as [|i l IH]; [done|]. rewrite !not_elem_of_cons. intros [? ?] [? ?]. simpl. rewrite tr_ne by done. f_equal. by apply IH.
Qed.

(** ** The operation *)

(** Links of a node are mirrored by the node they lead to. *)
Definition mirrored (h : heap) (i : Z) : Prop := forall n, h !! i = Some n ->
  (forall j, left n = Some j \/ right n = Some j -> j <> i /\ exists m, h !! j = Some m /\ parent m = Some i) /\
  (forall j, parent n = Some j -> j <> i /\ exists m, h !! j = Some m /\ (left m = Some i \/ right m = Some i)) /\
  (left n = right n -> left n = None).

Variables (r : ptr) (h : heap) (l : gmap Z list_head) (nx ny : ocf_rb_node).
Hypothesis Hxy : x <> y.
Hypothesis Hx : h !! x = Some nx.
Hypothesis Hy : h !! y = Some ny.
Hypothesis Hmx : mirrored h x.
Hypothesis Hmy : mirrored h y.
Hypothesis Hup : parent nx <> Some y.
Hypothesis Hsib : parent nx = parent ny -> parent nx = None.
Hypothesis Hrx : r = Some x <-> parent nx = None.
Hypothesis Hry : r <> Some y.

Lemma wp_copy i n h1 Q : is_Some (h1 !! i) -> Q tt (mkTree r (<[i := n]> h1) l) -> wp (ocf_rb_copy_node (Some i) n) Q (mkTree r h1 l).
Proof.
  intros [m Hm] HQ. unfold ocf_rb_copy_node. wp_step. apply wp_upd; [by eexists|]. wp_step. apply wp_upd; [there|].
  wp_step. apply wp_upd; [there|]. apply wp_upd; [there|].
  match goal with |- Q _ (mkTree _ ?h' _) => replace h' with (<[i := n]> h1) end; [done|].
  apply map_eq. intros j. destruct (decide (i = j)) as [<-|Hne].
  - rewrite lookup_insert_eq, !lookup_alter_eq, Hm. simpl. f_equal. by destruct n.
  - by rewrite lookup_insert_ne, !lookup_alter_ne by done.
Qed.

(** Pointers of a node to itself, of which there is one at most. *)
Definition subst_ptr (i j : Z) (p : ptr) : ptr := if decide (p = Some i) then Some j else p.

Lemma wp_fix_self i j n h1 Q : h1 !! i = Some n -> (parent n = Some i -> left n <> Some i /\ right n <> Some i) -> (left n = Some i -> right n <> Some i) ->
  Q tt (mkTree r (<[i := mkNode (red n) (subst_ptr i j (left n)) (subst_ptr i j (right n)) (subst_ptr i j (parent n))]> h1) l) ->
  wp (fix_self (Some i) (Some j)) Q (mkTree r h1 l).
Proof.
  intros Hi H1 H2 HQ. unfold fix_self. wp_step. eapply wp_rd; [exact Hi|]. cbn beta. unfold subst_ptr in HQ.
  assert (forall f, <[i := f n]> h1 = alter f i h1) as Ha.
  { intros f. apply map_eq. intros k. destruct (decide (i = k)) as [<-|]; [by rewrite lookup_insert_eq, lookup_alter_eq, Hi|by rewrite lookup_insert_ne, lookup_alter_ne]. }
  destruct (decide (parent n = Some i)) as [Hp|Hp]; [|destruct (decide (left n = Some i)) as [Hl|Hl]; [|destruct (decide (right n = Some i)) as [Hr|Hr]]].
  - destruct (H1 Hp). rewrite bool_decide_true by done. apply wp_upd; [by eexists|]. rewrite <- Ha. rewrite !decide_False in HQ by done. exact HQ.
  - rewrite bool_decide_false, bool_decide_true by done. apply wp_upd; [by eexists|]. rewrite <- Ha. rewrite decide_False in HQ by auto. exact HQ.
  - rewrite !bool_decide_false, bool_decide_true by done. apply wp_upd; [by eexists|]. rewrite <- Ha. exact HQ.
  - rewrite !bool_decide_false by done. apply wp_ret. rewrite insert_id in HQ; [done|]. rewrite Hi. f_equal. by destruct n.
Qed.

Lemma wp_update_children i n h1 Q : h1 !! i = Some n -> left n <> Some i -> (forall j, left n = Some j \/ right n = Some j -> is_Some (h1 !! j)) ->
  Q tt (mkTree r (alter_ptr (set_parent (Some i)) (right n) (alter_ptr (set_parent (Some i)) (left n) h1)) l) ->
  wp (ocf_rb_tree_update_children (Some i)) Q (mkTree r h1 l).
Proof.
  intros Hi Hl Hc HQ. unfold ocf_rb_tree_update_children. wp_step. eapply wp_rd; [exact Hi|]. cbn beta. wp_step.
  apply (wp_mono _ (fun _ s => s = mkTree r (alter_ptr (set_parent (Some i)) (left n) h1) l)).
  - destruct (left n) as [j|] eqn:Hj; simpl; [|by apply wp_ret]. apply wp_upd; [apply Hc; by left|done].
  - intros [] ? ->. wp_step. eapply wp_rd; [rewrite alter_ptr_ne by done; exact Hi|]. cbn beta.
    destruct (right n) as [j|] eqn:Hj; simpl; [|by apply wp_ret]. apply wp_upd; [|done].
    assert (is_Some (h1 !! j)) by auto. destruct (left n); simpl; there.
Qed.

Definition redirect (old new : ptr) (n : ocf_rb_node) : ocf_rb_node :=
  if decide (left n = old) then set_left new n else if decide (right n = old) then set_right new n else n.

Lemma wp_redirect p old new r1 h1 Q : (forall q, p = Some q -> is_Some (h1 !! q)) ->
  Q tt (mkTree (if decide (p = None /\ r1 = old) then new else r1) (alter_ptr (redirect old new) p h1) l) ->
  wp (ocf_rb_tree_update_parent p old new) Q (mkTree r1 h1 l).
Proof.
  intros Hp HQ. unfold ocf_rb_tree_update_parent. destruct p as [q|].
  - rewrite decide_False in HQ by (by intros []). destruct (Hp q eq_refl) as [n Hn]. wp_step. eapply wp_rd; [exact Hn|]. cbn beta.
    assert (forall f, (forall n, h1 !! q = Some n -> f n = redirect old new n) -> alter f q h1 = alter (redirect old new) q h1) as Ha.
    { intros f Hf. apply map_eq. intros k. destruct (decide (q = k)) as [<-|]; [|by rewrite !lookup_alter_ne]. rewrite !lookup_alter_eq, Hn. simpl. by rewrite Hf. }
    cbn [alter_ptr] in HQ. case_bool_decide as H1; [|case_bool_decide as H2].
    + apply wp_upd; [by eexists|]. rewrite Ha; [done|]. intros m Hm. simplify_eq. unfold redirect. by rewrite decide_True.
    + apply wp_upd; [by eexists|]. rewrite Ha; [done|]. intros m Hm. simplify_eq. unfold redirect. by rewrite decide_False, decide_True.
    + apply wp_ret. rewrite <- (Ha (fun n => n)), alter_id in HQ; [done|done|]. intros m Hm. simplify_eq. unfold redirect. by rewrite !decide_False.
  - wp_step. apply wp_gets. cbn [root]. case_bool_decide as Hr.
    + rewrite decide_True in HQ by done. apply wp_modify. exact HQ.
    + rewrite decide_False in HQ by tauto. by apply wp_ret.
Qed.

(** *** The memory after each part *)

Lemma ren_id p : p <> Some x -> p <> Some y -> ren p = p.
Proof. destruct p as [i|]; [|done]. intros. unfold ren. simpl. by rewrite tr_ne by congruence. Qed.
Lemma ren_Some_x : ren (Some x) = Some y.
Proof. unfold ren. simpl. by rewrite tr_x. Qed.
Lemma ren_Some_y : ren (Some y) = Some x.
Proof. unfold ren. simpl. by rewrite tr_y. Qed.
Lemma ren_inj p q : ren p = ren q -> p = q.
Proof. destruct p, q; simpl; try done. intros [= ?%tr_inj]. by f_equal. Qed.

(** The links of the two nodes. *)
Lemma links_x : left nx <> Some x /\ right nx <> Some x /\ parent nx <> Some x /\ (left nx = Some y -> parent ny = Some x /\ right nx <> Some y) /\
  (right nx = Some y -> parent ny = Some x).
Proof using Hxy Hx Hy Hmx Hmy Hup Hsib.
  clear Hrx Hry r l.
  destruct (Hmx _ Hx) as (Hc & Hp & Hd). split_and!.
  - intros H. by destruct (Hc x (or_introl H)).
  - intros H. by destruct (Hc x (or_intror H)).
  - intros H. by destruct (Hp x H).
  - intros H. destruct (Hc y (or_introl H)) as (_ & m & Hm & Hpm). simplify_eq. split; [done|]. intros H2. rewrite H, H2 in Hd. by specialize (Hd eq_refl).
  - intros H. destruct (Hc y (or_intror H)) as (_ & m & Hm & Hpm). by simplify_eq.
Qed.
Lemma links_y : left ny <> Some y /\ right ny <> Some y /\ parent ny <> Some y /\ left ny <> Some x /\ right ny <> Some x.
Proof using Hxy Hx Hy Hmx Hmy Hup Hsib.
  clear Hrx Hry r l.
  destruct (Hmy _ Hy) as (Hc & Hp & Hd). split_and!.
  - intros H. by destruct (Hc y (or_introl H)).
  - intros H. by destruct (Hc y (or_intror H)).
  - intros H. by destruct (Hp y H).
  - intros H. destruct (Hc x (or_introl H)) as (_ & m & Hm & Hpm). rewrite Hx in Hm. injection Hm as <-. exact (Hup Hpm).
  - intros H. destruct (Hc x (or_intror H)) as (_ & m & Hm & Hpm). rewrite Hx in Hm. injection Hm as <-. exact (Hup Hpm).
Qed.

Definition swapped2 : heap := <[y := ren_node nx]> (<[x := ren_node ny]> h).
Definition swapped3 : heap := alter_ptr (set_parent (Some x)) (right ny) (alter_ptr (set_parent (Some x)) (left ny) swapped2).
Definition swapped4 : heap := alter_ptr (set_parent (Some y)) (ren (right nx)) (alter_ptr (set_parent (Some y)) (ren (left nx)) swapped3).
Definition swapped : heap := alter_ptr (redirect (Some x) (Some y)) (parent nx) (alter_ptr (redirect (Some y) (Some x)) (ren (parent ny)) swapped4).

Lemma lookup_alter_ptr f p h1 i : alter_ptr f p h1 !! i = if decide (p = Some i) then f <$> h1 !! i else h1 !! i.
Proof. destruct (decide (p = Some i)) as [->|]; [apply lookup_alter_eq|by apply alter_ptr_ne]. Qed.

Lemma swapped4_x : swapped4 !! x = Some (ren_node ny).
Proof using Hxy Hx Hy Hmx Hmy Hup Hsib.
  clear Hrx Hry r l.
  destruct links_x as (H1 & H2 & H3 & H4 & H5). destruct links_y as (G1 & G2 & G3 & G4 & G5). unfold swapped4, swapped3, swapped2.
  rewrite !lookup_alter_ptr, lookup_insert_ne, lookup_insert_eq by done. rewrite (decide_False (P := right ny = Some x)), (decide_False (P := left ny = Some x)) by done.
  assert (forall p, p = left nx \/ p = right nx -> ren p = Some x -> parent ny = Some x) as Hc.
  { intros p Hp Hr. rewrite <- ren_Some_y in Hr. apply ren_inj in Hr as ->. destruct Hp as [Hp|Hp]; [by apply H4|by apply H5]. }
  assert (parent ny = Some x -> set_parent (Some y) (ren_node ny) = ren_node ny) as He.
  { intros Hp. unfold ren_node, set_parent. simpl. by rewrite Hp, ren_Some_x. }
  repeat case_decide; simpl; rewrite ?He; eauto.
Qed.

Lemma swapped4_y : swapped4 !! y = Some (ren_node nx).
Proof using Hxy Hx Hy Hmx Hmy Hup Hsib.
  clear Hrx Hry r l.
  destruct links_x as (H1 & H2 & H3 & H4 & H5). destruct links_y as (G1 & G2 & G3 & G4 & G5). unfold swapped4, swapped3, swapped2.
  assert (forall p, p <> Some x -> ren p <> Some y) as Hr. { intros p Hp. rewrite <- ren_Some_x. by intros ?%ren_inj. }
  rewrite !lookup_alter_ptr, lookup_insert_eq. by rewrite !decide_False by auto.
Qed.

Lemma swap_wp Q : Q tt (mkTree (ren r) swapped l) -> wp (ocf_rb_tree_swap (Some x) (Some y)) Q (mkTree r h l).
Proof.
  intros HQ. destruct links_x as (H1 & H2 & H3 & H4 & H5). destruct links_y as (G1 & G2 & G3 & G4 & G5). unfold ocf_rb_tree_swap.
  wp_step. eapply wp_rd; [exact Hx|]. wp_step. eapply wp_rd; [exact Hy|]. cbn beta. wp_step. apply wp_copy; [by eexists|]. cbn beta.
  wp_step. apply wp_copy; [rewrite lookup_insert_ne by done; by eexists|]. cbn beta.
  assert (forall p, p <> Some y -> subst_ptr x y p = ren p) as Sx.
  { intros p Hp. unfold subst_ptr. case_decide as Hd; [by rewrite Hd, ren_Some_x|by rewrite ren_id]. }
  assert (forall p, p <> Some x -> subst_ptr y x p = ren p) as Sy.
  { intros p Hp. unfold subst_ptr. case_decide as Hd; [by rewrite Hd, ren_Some_y|by rewrite ren_id]. }
  wp_step. eapply wp_fix_self; [rewrite lookup_insert_ne, lookup_insert_eq by done; reflexivity|done|done|]. rewrite !Sx by done. cbn beta.
  wp_step. eapply wp_fix_self; [rewrite lookup_insert_ne, lookup_insert_eq by done; reflexivity|done|tauto|]. rewrite !Sy by done. cbn beta.
  fold (ren_node nx) (ren_node ny).
  assert (<[y := ren_node nx]> (<[x := ren_node ny]> (<[y := nx]> (<[x := ny]> h))) = swapped2) as ->.
  { unfold swapped2. apply map_eq. intros i. destruct (decide (i = y)) as [->|]; [by rewrite !lookup_insert_eq|]. rewrite !(lookup_insert_ne _ y) by done.
    destruct (decide (i = x)) as [->|]; [by rewrite !lookup_insert_eq|]. by rewrite !(lookup_insert_ne _ x), (lookup_insert_ne _ y), (lookup_insert_ne _ x) by done. }
  assert (swapped2 !! x = Some (ren_node ny) /\ swapped2 !! y = Some (ren_node nx)) as [S2x S2y].
  { unfold swapped2. by rewrite lookup_insert_eq, lookup_insert_ne, lookup_insert_eq by done. }
  assert (forall i, is_Some (h !! i) -> is_Some (swapped2 !! i)) as S2.
  { intros i Hi. unfold swapped2. rewrite !lookup_insert_is_Some'. by do 2 right. }
  assert (forall p, p = left ny \/ p = right ny -> ren p = p) as Rc by (intros p [->| ->]; by apply ren_id).
  assert (forall p, ren p = Some y -> p = Some x) as Ry by (intros p; rewrite <- ren_Some_x; apply ren_inj).
  assert (forall f p i, is_Some (alter_ptr f p swapped2 !! i) <-> is_Some (swapped2 !! i)) as Sa.
  { intros f p i. destruct p; simpl; [by rewrite lookup_alter_is_Some|done]. }
  wp_step. eapply wp_update_children; [exact S2x|cbn [left ren_node]; rewrite Rc by auto; done| |].
  { intros j [Hj|Hj]; cbn [left right ren_node] in Hj; rewrite Rc in Hj by auto; destruct (Hmy _ Hy) as (Hc & _);
      (destruct (Hc j) as (_ & m & Hm & _); [tauto|]); apply S2; by eexists. }
  cbn [left right ren_node]. rewrite !Rc by auto. fold swapped3. cbn beta.
  assert (swapped3 !! y = Some (ren_node nx)) as S3y by (unfold swapped3; rewrite !alter_ptr_ne by done; exact S2y).
  wp_step. eapply wp_update_children; [exact S3y|cbn [left ren_node]; intros ?%Ry; done| |].
  { intros j Hj. cbn [left right ren_node] in Hj. unfold swapped3. rewrite !lookup_alter_ptr. destruct (Hmx _ Hx) as (Hc & _).
    assert (is_Some (swapped2 !! j)) as [m ->]; [|repeat case_decide; by eexists].
    assert (left nx = Some (tr j) \/ right nx = Some (tr j)) as Hj'.
    { destruct Hj as [Hj|Hj]; [left|right]; apply ren_inj; rewrite Hj; simpl; by rewrite tr_tr. }
    destruct (Hc _ Hj') as (_ & m & Hm & _). destruct (decide (j = x)) as [->|]; [by eexists|]. destruct (decide (j = y)) as [->|]; [by eexists|].
    rewrite tr_ne in Hm by done. apply S2. by eexists. }
  cbn [left right ren_node]. fold swapped4. cbn beta.
  assert (forall i, is_Some (swapped2 !! i) -> is_Some (swapped4 !! i)) as S4.
  { intros i [m Hm]. unfold swapped4, swapped3. rewrite !lookup_alter_ptr, Hm. repeat case_decide; by eexists. }
  wp_step. eapply wp_rd; [exact swapped4_x|]. cbn [parent ren_node]. cbn beta. wp_step. eapply wp_redirect.
  { intros q Hq. apply S4. assert (parent ny = Some (tr q)) as Hq' by (apply ren_inj; rewrite Hq; simpl; by rewrite tr_tr).
    destruct (Hmy _ Hy) as (_ & Hp & _). destruct (Hp _ Hq') as (_ & m & Hm & _). destruct (decide (q = x)) as [->|]; [by eexists|].
    destruct (decide (q = y)) as [->|]; [by eexists|]. rewrite tr_ne in Hm by done. apply S2. by eexists. }
  rewrite decide_False by tauto. cbn beta.
  assert (alter_ptr (redirect (Some y) (Some x)) (ren (parent ny)) swapped4 !! y = Some (ren_node nx)) as S5y.
  { rewrite lookup_alter_ptr, swapped4_y. case_decide; [|done]. simpl. f_equal. unfold redirect. cbn [left right ren_node].
    rewrite !decide_False; [done|intros ?%Ry; done|intros ?%Ry; done]. }
  wp_step. eapply wp_rd; [exact S5y|]. cbn [parent ren_node]. cbn beta. rewrite (ren_id (parent nx)) by done. apply wp_redirect.
  { intros q Hq. rewrite lookup_alter_ptr. destruct (Hmx _ Hx) as (_ & Hp & _). destruct (Hp _ Hq) as (_ & m & Hm & _).
    destruct (S4 q) as [? ->]; [apply S2; by eexists|]. case_decide; by eexists. }
  fold swapped. match goal with |- Q _ (mkTree ?r' _ _) => assert (r' = ren r) as ->; [|done] end. case_decide as Hd.
  - destruct Hd as [_ ->]. by rewrite ren_Some_x.
  - rewrite ren_id; [done| |done]. intros Hr. apply Hd. split; [by apply Hrx|done].
Qed.

(** *** The memory after the operation *)

Lemma ren_node_fresh n : parent n <> Some x -> parent n <> Some y -> left n <> Some x -> left n <> Some y -> right n <> Some x -> right n <> Some y -> ren_node n = n.
Proof. intros. unfold ren_node. rewrite !ren_id by done. by destruct n. Qed.

(** The nodes around the two: first their parents are renamed, then their children. *)
Lemma swapped4_mirrored i n : i <> x -> i <> y -> h !! i = Some n -> mirrored h i ->
  swapped4 !! i = Some (mkNode (red n) (left n) (right n) (ren (parent n))).
Proof using Hxy Hx Hy Hmx Hmy Hup Hsib.
  clear Hrx Hry r l.
  intros Hix Hiy Hi Hmi. destruct (Hmx _ Hx) as (Cx & _). destruct (Hmy _ Hy) as (Cy & _). destruct (Hmi _ Hi) as (_ & Pi & _).
  assert (forall p, ren p = Some i -> p = Some i) as Ri. { intros p. destruct p as [j|]; [|done]. simpl. intros [= Hj]. rewrite <- (tr_tr j), Hj. by rewrite tr_ne. }
  assert (forall p, p = left nx \/ p = right nx -> (ren p = Some i) -> parent n = Some x) as Px.
  { intros p Hp Hr%Ri. subst p. destruct (Cx i) as (_ & m & Hm & Hpm); [destruct Hp as [->| ->]; tauto|]. by simplify_eq. }
  assert (forall p, p = left ny \/ p = right ny -> p = Some i -> parent n = Some y) as Py.
  { intros p Hp ->. destruct (Cy i) as (_ & m & Hm & Hpm); [destruct Hp as [->| ->]; tauto|]. by simplify_eq. }
  assert (parent n <> Some x -> ren (left nx) <> Some i /\ ren (right nx) <> Some i) as Nx by (intros Hp; split; intros Hq; apply Hp; eauto).
  assert (parent n <> Some y -> left ny <> Some i /\ right ny <> Some i) as Ny by (intros Hp; split; intros Hq; apply Hp; eauto).
  unfold swapped4, swapped3, swapped2. rewrite !lookup_alter_ptr, !lookup_insert_ne, Hi by done.
  destruct (decide (parent n = Some x)) as [Hp|Hp]; [|destruct (decide (parent n = Some y)) as [Hp2|Hp2]].
  - destruct Ny as [N1 N2]; [congruence|]. rewrite (decide_False (P := right ny = Some i)), (decide_False (P := left ny = Some i)) by done.
    rewrite Hp, ren_Some_x. destruct (Pi _ Hp) as (_ & m & Hm & Hch). rewrite Hx in Hm. injection Hm as <-.
    assert (ren (Some i) = Some i) as Hri by (apply ren_id; congruence).
    destruct Hch as [Hch|Hch]; rewrite Hch, Hri; repeat case_decide; done.
  - destruct (Nx Hp) as [N1 N2]. rewrite (decide_False (P := ren (right nx) = Some i)), (decide_False (P := ren (left nx) = Some i)) by done.
    rewrite Hp2, ren_Some_y. destruct (Pi _ Hp2) as (_ & m & Hm & Hch). rewrite Hy in Hm. injection Hm as <-.
    destruct Hch as [Hch|Hch]; rewrite Hch; repeat case_decide; done.
  - destruct (Nx Hp) as [N1 N2], (Ny Hp2) as [N3 N4]. rewrite !decide_False, ren_id by done. by destruct n.
Qed.

(** A node whose links are mirrored is renamed. *)
Lemma swapped_mirrored i n : h !! i = Some n -> mirrored h i -> swapped !! tr i = Some (ren_node n).
Proof using Hxy Hx Hy Hmx Hmy Hup Hsib.
  clear Hrx Hry r l.
  intros Hi Hmi. destruct links_x as (H1 & H2 & H3 & H4 & H5). destruct links_y as (G1 & G2 & G3 & G4 & G5).
  assert (forall p, ren p = Some y -> p = Some x) as Ry by (intros p; rewrite <- ren_Some_x; apply ren_inj).
  assert (forall p, ren p = Some x -> p = Some y) as Rx by (intros p; rewrite <- ren_Some_y; apply ren_inj).
  unfold swapped. rewrite !lookup_alter_ptr.
  destruct (decide (i = x)) as [->|Hix]; [|destruct (decide (i = y)) as [->|Hiy]].
  - rewrite tr_x, swapped4_y. rewrite Hi in Hx. injection Hx as ->. rewrite (decide_False (P := parent nx = Some y)) by done.
    case_decide; [|done]. simpl. f_equal. unfold redirect. cbn [left right ren_node]. rewrite !decide_False; [done|intros ?%Ry; done|intros ?%Ry; done].
  - rewrite tr_y, swapped4_x. rewrite Hi in Hy. injection Hy as ->. rewrite (decide_False (P := parent nx = Some x)) by done.
    rewrite decide_False by (intros ?%Rx; done). done.
  - rewrite tr_ne, (swapped4_mirrored i n) by done. destruct (Hmi _ Hi) as (Ci & Pi & Di).
    assert (forall z nz, h !! z = Some nz -> left n = Some z \/ right n = Some z -> parent nz = Some i) as C.
    { intros z nz Hz Hc. destruct (Ci z Hc) as (_ & m & Hm & Hp). by simplify_eq. }
    assert (forall z nz, h !! z = Some nz -> mirrored h z -> parent nz = Some i -> left n = Some z \/ right n = Some z) as P.
    { intros z nz Hz Hmz Hp. destruct (Hmz _ Hz) as (_ & Pz & _). destruct (Pz _ Hp) as (_ & m & Hm & Hc). by simplify_eq. }
    assert (ren (parent ny) = Some i <-> parent ny = Some i) as Hpy.
    { split; [|intros ->; apply ren_id; congruence]. destruct (parent ny) as [j|]; [|done]. simpl. intros [= Hj]. rewrite <- (tr_tr j), Hj. by rewrite tr_ne. }
    destruct (decide (parent ny = Some i)) as [Hp|Hp].
    + rewrite (decide_True (P := ren (parent ny) = Some i)) by tauto.
      assert (parent nx <> Some i) as Hpx by (intros Hq; rewrite Hsib in Hq; congruence). rewrite decide_False by done.
      assert (left n <> Some x /\ right n <> Some x) as [X1 X2] by (split; intros Hc; apply Hpx, (C x); tauto).
      simpl. f_equal. unfold redirect, ren_node. cbn [left right]. destruct (P y ny Hy Hmy Hp) as [Hc|Hc].
      * assert (right n <> Some y) by (intros Hc2; rewrite Di in Hc; congruence). rewrite decide_True by done. unfold set_left. cbn [red left right parent].
        by rewrite Hc, ren_Some_y, (ren_id (right n)).
      * assert (left n <> Some y) by (intros Hc2; rewrite Di in Hc2; congruence). rewrite decide_False, decide_True by done. unfold set_right. cbn [red left right parent].
        by rewrite Hc, ren_Some_y, (ren_id (left n)).
    + rewrite (decide_False (P := ren (parent ny) = Some i)) by tauto.
      assert (left n <> Some y /\ right n <> Some y) as [Y1 Y2] by (split; intros Hc; apply Hp, (C y); tauto).
      destruct (decide (parent nx = Some i)) as [Hpx|Hpx].
      * simpl. f_equal. unfold redirect, ren_node. cbn [left right]. destruct (P x nx Hx Hmx Hpx) as [Hc|Hc].
        -- assert (right n <> Some x) by (intros Hc2; rewrite Di in Hc; congruence). rewrite decide_True by done. unfold set_left. cbn [red left right parent].
           by rewrite Hc, ren_Some_x, (ren_id (right n)).
        -- assert (left n <> Some x) by (intros Hc2; rewrite Di in Hc2; congruence). rewrite decide_False, decide_True by done. unfold set_right. cbn [red left right parent].
           by rewrite Hc, ren_Some_x, (ren_id (left n)).
      * assert (left n <> Some x /\ right n <> Some x) as [X1 X2] by (split; intros Hc; apply Hpx, (C x); tauto).
        f_equal. unfold ren_node. by rewrite (ren_id (left n)), (ren_id (right n)).
Qed.

(** Nodes that are not around the two keep what they hold. *)
Lemma swapped_other i : i <> x -> i <> y -> (forall z n, z = x \/ z = y -> h !! z = Some n -> left n <> Some i /\ right n <> Some i /\ parent n <> Some i) ->
  swapped !! i = h !! i.
Proof using Hx Hy.
  clear Hrx Hry Hup Hsib Hmx Hmy r l.
  intros Hix Hiy Ho. destruct (Ho x nx) as (A1 & A2 & A3); [by left|done|]. destruct (Ho y ny) as (B1 & B2 & B3); [by right|done|].
  assert (forall p, p <> Some i -> ren p <> Some i) as Rn.
  { intros p Hp Hr. apply Hp. destruct p as [j|]; [|done]. simpl in Hr. injection Hr as Hj. rewrite <- (tr_tr j), Hj. by rewrite tr_ne. }
  unfold swapped, swapped4, swapped3, swapped2. rewrite !lookup_alter_ptr, !lookup_insert_ne by done. by rewrite !decide_False by auto.
Qed.
End swap.

(** ** Swapping nodes of a tree *)

Lemma in_focus i t : i ∈ inorder t -> exists k c a b, t = plug k (nd true c a i b).
Proof.
  induction t as [|c a IHa j b IHb]; simpl; [by intros ?%elem_of_nil|]. rewrite elem_of_app, elem_of_cons. intros [H|[->|H]].
  - destruct (IHa H) as (k & c' & a' & b' & ->). exists (k ++ [Fr true c j b]), c', a', b'. by rewrite plug_app.
  - by exists [], c, a, b.
  - destruct (IHb H) as (k & c' & a' & b' & ->). exists (k ++ [Fr false c j a]), c', a', b'. by rewrite plug_app.
Qed.

Lemma rep_mirrored h0 t r h i : rep h0 [] t r h -> i ∈ inorder t -> mirrored h i.
Proof.
  intros Hrep (k & c & a & b & ->)%in_focus. apply rep_plug in Hrep. intros n Hn. rewrite (rep_lookup _ _ _ _ _ _ _ _ Hrep) in Hn. injection Hn as <-.
  cbn [mkd left right parent].
  assert (forall d u v j, nd true c a i b = nd d c u i v -> rt u = Some j -> j <> i /\ j ∉ inorder v /\ exists m, h !! j = Some m /\ parent m = Some i) as Hc.
  { intros d u v j He Hj. rewrite He in Hrep. apply rep_in in Hrep. destruct (rep_fresh _ _ _ _ _ _ _ _ j Hrep (rt_in _ _ Hj)) as (Hji & Hjv & _).
    split; [done|]. split; [done|]. destruct u as [|cu ul uj ur]; [done|]. injection Hj as ->. eexists. split; [apply (rep_lookup _ true _ _ _ _ _ _ Hrep)|done]. }
  split_and!.
  - intros j [Hj|Hj]; [destruct (Hc true a b j) as (? & _ & ?)|destruct (Hc false b a j) as (? & _ & ?)]; done.
  - intros j Hj. destruct k as [|[d c' j' s] k]; [done|]. injection Hj as ->. split.
    + intros ->. destruct (rep_fresh _ _ _ _ _ _ _ _ i Hrep) as [? _]; [apply rt_in, rt_nd|done].
    + eexists. split; [eapply rep_lookup_up, Hrep|]. rewrite rt_nd. destruct d; simpl; tauto.
  - intros He. destruct (rt a) as [j|] eqn:Hj; [|done]. destruct (Hc true a b j) as (_ & Hn & _); [done|done|]. exfalso. apply Hn. by apply rt_in.
Qed.

Lemma rt_plug_in f k t i : rt (plug (f :: k) t) = Some i -> i ∈ kids (f :: k).
Proof.
  revert f t. induction k as [|f' k IH]; intros [d c j s] t; simpl.
  - rewrite rt_nd. intros [= ->]. by left.
  - intros Hr. specialize (IH f' (nd d c t j s) Hr). right. rewrite elem_of_app. by right.
Qed.

(** The root pointer and the parent of a node. *)
Lemma rep_root_up h0 k d c a i b r h : rep h0 k (nd d c a i b) r h -> r = Some i <-> up k = None.
Proof.
  intros Hrep. pose proof (rep_whole _ _ _ _ Hrep) as (_ & Hr & _). simpl in Hr. subst r. destruct k as [|f k].
  - simpl. rewrite rt_nd. done.
  - split; [|done]. intros Hi%rt_plug_in. destruct Hrep as ([Hnd _] & _). apply NoDup_app in Hnd as (_ & Hd & _). exfalso.
    apply (Hd i Hi). apply rt_in, rt_nd.
Qed.

Lemma rep_swapped h0 x y t r h nx ny : rep h0 [] t r h -> x <> y -> h !! x = Some nx -> h !! y = Some ny -> mirrored h x -> mirrored h y ->
  parent nx <> Some y -> (parent nx = parent ny -> parent nx = None) ->
  okc (swapped x y h nx ny) (ren x y r) [] (rt (ren_tree x y t)) /\ ok (swapped x y h nx ny) None (ren_tree x y t) /\ NoDup (inorder (ren_tree x y t)).
Proof.
  intros Hrep Hxy Hx Hy Hmx Hmy Hup Hsib. pose proof Hrep as ([Hnd _] & Hr & Hok). simpl in *. split; [|split].
  - rewrite ren_rt. by rewrite Hr.
  - apply (ok_ren x y h _ None); [|done]. intros i Hi. destruct (ok_dom _ _ _ _ Hok Hi) as [n Hn]. rewrite Hn.
    apply swapped_mirrored; try done. by eapply rep_mirrored.
  - rewrite ren_inorder. apply NoDup_fmap_2; [apply _|done].
Qed.

(** Nodes outside of the tree are not touched. *)
Lemma swapped_outside h0 x y t r h nx ny j : rep h0 [] t r h -> x ∈ inorder t -> h !! x = Some nx -> h !! y = Some ny -> x <> y ->
  (y ∈ inorder t \/ ny = mkNode (red ny) None None None) -> mirrored h y -> j ∉ inorder t -> j <> y -> swapped x y h nx ny !! j = h !! j.
Proof.
  intros Hrep Hx Hnx Hny Hxy Hyt Hmy Hj Hjy. apply swapped_other; [done|done|intros ->; done|done|].
  assert (forall z n, z ∈ inorder t -> h !! z = Some n -> left n <> Some j /\ right n <> Some j /\ parent n <> Some j) as Hin.
  { intros z n (k & c & a & b & ->)%in_focus Hn. pose proof Hrep as Hrep2. apply rep_plug in Hrep2.
    rewrite (rep_lookup _ _ _ _ _ _ _ _ Hrep2) in Hn. injection Hn as <-. rewrite inorder_plug_perm in Hj. cbn [mkd left right parent].
    simpl in Hj. rewrite !elem_of_app, elem_of_cons in Hj. split_and!.
    - intros H%rt_in. tauto.
    - intros H%rt_in. tauto.
    - destruct k as [|f k]; [done|]. intros [= <-]. apply Hj. left. destruct f. by left. }
  intros z n [->| ->] Hn; [by apply (Hin x)|]. destruct Hyt as [Hyt|Hyt]; [by apply (Hin y)|]. rewrite Hny in Hn. injection Hn as <-. by rewrite Hyt.
Qed.
