(* ===== verification/RbRemove.v ===== *)
(** Removal from the trees of RbTree keeps them red-black trees. *)

From S2P Require Import Prelude Dll EnvList RbTree RbShape RbSpec RbSwap RbInsert.

(** ** The loop of [ocf_rb_tree_fix_double_black]

    The subtree [t] of the context [k] lacks one black node, once the node to be
    removed is gone from it: [t'] is [t] without that node. *)

Section double_black.
Variables (h0 : heap) (l : gmap Z list_head) (t t' : tree) (m : nat) (e ct : bool) (ta : tree) (i : Z) (tb : tree).
Hypothesis Ht : t = nd e ct ta i tb.
Hypothesis Ht' : rb t' m.
Hypothesis Hblk : blk t' = true.

(** The two ways to move a red node of the sibling over. *)
Lemma wp_inner k d c p na ni nb si sb r h Q : rep h0 k (nd d c t p (nd d false (nd d true na ni nb) si sb)) r h ->
  (forall r' h', rep h0 k (nd d c (nd d c t p na) ni (nd d false nb si sb)) r' h' -> Q tt (mkTree r' h' l)) ->
  wp (upd (Some ni) (set_red c);; rotate (negb d) (Some si);; rotate d (Some p)) Q (mkTree r h l).
Proof.
  intros Hrep HQ. apply rep_in_other, rep_in in Hrep. wp_step. eapply wp_color; [exact Hrep|]. clear Hrep h. intros h Hrep. cbn beta.
  apply rep_out in Hrep. rewrite (nd_flip d false), (nd_flip d c na) in Hrep. wp_step. eapply wp_rotate; [exact Hrep|]. clear Hrep h r. intros r h Hrep. cbn beta.
  rewrite <- (nd_flip d false), <- (nd_flip d c na) in Hrep. apply rep_out_other in Hrep. eapply wp_rotate; [exact Hrep|]. exact HQ.
Qed.

Lemma wp_outer k d c p sa si e' fa fi fb r h Q : rep h0 k (nd d c t p (nd d false sa si (nd e' true fa fi fb))) r h ->
  (forall r' h', rep h0 k (nd d c (nd d c t p sa) si (nd e' false fa fi fb)) r' h' -> Q tt (mkTree r' h' l)) ->
  wp (upd (Some fi) (set_red false);; upd (Some si) (set_red c);; rotate d (Some p)) Q (mkTree r h l).
Proof.
  intros Hrep HQ. apply rep_in_other, rep_in_other in Hrep. wp_step. eapply wp_color; [exact Hrep|]. clear Hrep h. intros h Hrep. cbn beta.
  apply rep_out_other in Hrep. wp_step. eapply wp_color; [exact Hrep|]. clear Hrep h. intros h Hrep. cbn beta.
  apply rep_out_other in Hrep. eapply wp_rotate; [exact Hrep|]. exact HQ.
Qed.

(** The parent of the node becomes black. *)
Lemma wp_blacken k d c p s r h (Q : option ptr -> ocf_rb_tree -> Prop) : rep h0 k (nd d c t p s) r h -> (forall h', rep h0 (Fr d false p s :: k) t r h' -> Q None (mkTree r h' l)) ->
  wp (n ← rd (Some i); upd (parent n) (set_red false);; mret None) Q (mkTree r h l).
Proof.
  intros Hrep HQ. pose proof (rep_in _ _ _ _ _ _ _ _ Hrep) as Hin. rewrite Ht in Hin.
  wp_step. eapply wp_rd; [apply (rep_lookup _ _ _ _ _ _ _ _ Hin)|]. cbn beta. rewrite parent_mkd. cbn [up f_id].
  wp_step. eapply wp_color; [exact Hrep|]. intros h' Hrep'. apply wp_ret. apply HQ. by apply rep_in.
Qed.

(** What a round leads to. *)
Definition settled (k : ctx) (s : ocf_rb_tree) : Prop :=
  exists K r h, s = mkTree r h l /\ rep h0 K t r h /\ rbt (plug K t') /\ kleft K = kleft k /\ kright K = kright k.

Lemma wp_sibling k d c p s r h Q : rep h0 (Fr d c p s :: k) t r h -> Q (rt s) (mkTree r h l) -> wp (ocf_rb_tree_sibling (Some i)) Q (mkTree r h l).
Proof.
  intros Hrep HQ. pose proof (rep_lookup_up _ _ _ _ _ _ _ _ Hrep) as Hp. pose proof (rep_fresh _ _ _ _ _ _ _ _ i Hrep) as Hi. rewrite Ht in *.
  destruct Hi as (_ & Hi & _); [apply rt_in, rt_nd|]. unfold ocf_rb_tree_sibling. wp_step. eapply wp_rd; [apply (rep_lookup _ _ _ _ _ _ _ _ Hrep)|]. cbn beta.
  rewrite parent_mkd. cbn [up f_id]. wp_step. eapply wp_rd; [exact Hp|]. cbn beta. apply wp_ret. rewrite rt_nd. destruct d; simpl.
  - by rewrite bool_decide_true.
  - rewrite bool_decide_false; [done|]. intros He. symmetry in He. by apply rt_in in He.
Qed.

(** The settled shapes of the two. *)
Lemma settled_inner k d c p na ni nb si sb r h : rbc (Fr d c p (nd d false (nd d true na ni nb) si sb) :: k) (S m) ->
  rep h0 (Fr d false p na :: Fr d c ni (nd d false nb si sb) :: k) t r h -> settled (Fr d c p (nd d false (nd d true na ni nb) si sb) :: k) (mkTree r h l).
Proof.
  intros (Hs & Hk) Hrep. apply rb_black_S in Hs as (m' & [= <-] & Hn & Hsb). apply rb_red in Hn as (Hna & Hnb & _).
  eexists _, r, h. split; [done|]. split; [exact Hrep|]. split; [|split].
  - apply (rbt_plug _ _ m); [done| |done]. simpl. rewrite rb_black, blk_nd. split; [done|]. split; [done|].
    destruct c; [|done]. destruct Hk as (_ & ? & ?). done.
  - destruct d; simpl; rewrite <- ?app_assoc; simpl; rewrite <- ?app_assoc; done.
  - destruct d; simpl; rewrite <- ?app_assoc; simpl; rewrite <- ?app_assoc; done.
Qed.

Lemma settled_outer k d c p sa si e' fa fi fb r h : rbc (Fr d c p (nd d false sa si (nd e' true fa fi fb)) :: k) (S m) ->
  rep h0 (Fr d false p sa :: Fr d c si (nd e' false fa fi fb) :: k) t r h -> settled (Fr d c p (nd d false sa si (nd e' true fa fi fb)) :: k) (mkTree r h l).
Proof.
  intros (Hs & Hk) Hrep. apply rb_black_S in Hs as (m' & [= <-] & Hsa & Hf). apply rb_red in Hf as (Hfa & Hfb & _).
  eexists _, r, h. split; [done|]. split; [exact Hrep|]. split; [|split].
  - apply (rbt_plug _ _ m); [done| |done]. simpl. rewrite rb_black, blk_nd. split; [done|]. split; [done|].
    destruct c; [|done]. destruct Hk as (_ & ? & ?). done.
  - destruct d, e'; simpl; rewrite <- ?app_assoc; simpl; rewrite <- ?app_assoc; done.
  - destruct d, e'; simpl; rewrite <- ?app_assoc; simpl; rewrite <- ?app_assoc; done.
Qed.

Lemma settled_recolour k d p sa si sb r h : rbc (Fr d true p (nd d false sa si sb) :: k) (S m) -> blk sa = true -> blk sb = true ->
  rep h0 (Fr d false p (nd d true sa si sb) :: k) t r h -> settled (Fr d true p (nd d false sa si sb) :: k) (mkTree r h l).
Proof.
  intros (Hs & _ & _ & Hk) Ha Hb Hrep. apply rb_black_S in Hs as (m' & [= <-] & Hsa & Hsb).
  eexists _, r, h. split; [done|]. split; [exact Hrep|]. split; [|by destruct d].
  apply (rbt_plug _ _ m); [done| |done]. simpl. rewrite rb_red. done.
Qed.

(** A round with a black sibling. *)
Definition goes_up (k : ctx) (d : bool) (p : Z) (s : tree) (o : option ptr) (st : ocf_rb_tree) : Prop :=
  exists sa si sb r h, s = nd d false sa si sb /\ o = Some (Some p) /\ st = mkTree r h l /\ rep h0 k (nd d false t p (nd d true sa si sb)) r h /\
    rb sa m /\ rb sb m /\ blk sa = true /\ blk sb = true.

Lemma wp_both_black k d c p sa si sb r h : rep h0 k (nd d c t p (nd d false sa si sb)) r h -> rbc (Fr d c p (nd d false sa si sb) :: k) (S m) ->
  rb sa m -> rb sb m -> blk sa = true -> blk sb = true ->
  wp (upd (Some si) (set_red true);; if negb c then mret (Some (Some p)) else upd (Some p) (set_red false);; mret None)
    (fun o st => (o = None /\ settled (Fr d c p (nd d false sa si sb) :: k) st) \/ (c = false /\ goes_up k d p (nd d false sa si sb) o st)) (mkTree r h l).
Proof.
  intros Hrep Hk Ha Hb Hba Hbb. apply rep_in_other in Hrep. wp_step. eapply wp_color; [exact Hrep|]. clear Hrep h. intros h Hrep. cbn beta.
  apply rep_out_other in Hrep. destruct c; cbn [negb].
  - wp_step. eapply wp_color; [exact Hrep|]. clear Hrep h. intros h Hrep. cbn beta. apply wp_ret. left. split; [done|]. apply settled_recolour; try done. by apply rep_in.
  - apply wp_ret. right. split; [done|]. exists sa, si, sb, r, h. done.
Qed.

Lemma wp_round_black k d c p s r h : rep h0 (Fr d c p s :: k) t r h -> rbc (Fr d c p s :: k) (S m) -> blk s = true ->
  wp (double_black_round (Some i)) (fun o st => (o = None /\ settled (Fr d c p s :: k) st) \/ (c = false /\ goes_up k d p s o st)) (mkTree r h l).
Proof.
  intros Hrep Hk Hbs. pose proof Hk as (Hs & _). destruct s as [|[] s1 si s2]; [done|done|]. rewrite (Node_nd d) in *.
  set (sa := if d then s1 else s2) in *. set (sb := if d then s2 else s1) in *. clearbody sa sb. clear s1 s2 Hbs.
  pose proof (rb_black_S _ _ _ _ _ Hs) as (m' & [= <-] & Hsa & Hsb).
  pose proof (rep_lookup_up _ _ _ _ _ _ _ _ Hrep) as Hp. pose proof Hrep as Hin. rewrite Ht in Hin. pose proof (rep_lookup _ _ _ _ _ _ _ _ Hin) as Hi.
  unfold double_black_round. wp_step. eapply wp_rd; [exact Hi|]. cbn beta. rewrite parent_mkd. cbn [up f_id].
  wp_step. eapply wp_sibling; [exact Hrep|]. cbn beta. rewrite rt_nd. clear Hi Hin.
  pose proof (rep_in_other _ _ _ _ _ _ _ _ (rep_out _ _ _ _ _ _ _ _ Hrep)) as Hrs. pose proof (rep_lookup _ _ _ _ _ _ _ _ Hrs) as Hsi.
  wp_step. eapply wp_rd; [exact Hsi|]. cbn beta. rewrite red_mkd. wp_step. eapply wp_rd; [exact Hp|]. cbn beta.
  assert (ok h (Some si) sa /\ ok h (Some si) sb) as [Hoka Hokb]. { destruct Hrs as (_ & _ & Hok). apply ok_nd in Hok as (_ & ? & ?). done. }
  assert (rt t <> Some si) as Hts.
  { intros He%rt_in. destruct (rep_fresh _ _ _ _ _ _ _ _ si Hrep He) as (_ & Hn & _). apply Hn, rt_in, rt_nd. }
  assert (forall d' u, blk u = false -> exists a j b, u = nd d' true a j b) as Hred.
  { intros d' [|[] a j b]; try done. rewrite (Node_nd d'). eauto. }
  apply rep_out in Hrep. destruct d; cbn [mkd left right negb] in Hsi, Hp |- *.
  - wp_step. eapply wp_is_red; [exact Hoka|]. cbn beta. destruct (blk sa) eqn:Hba; cbn [negb].
    + wp_step. eapply wp_is_red; [exact Hokb|]. cbn beta. destruct (blk sb) eqn:Hbb; cbn [negb].
      * by apply wp_both_black.
      * rewrite bool_decide_false by done. destruct (Hred true sb Hbb) as (fa & fi & fb & ->). rewrite rt_nd. cbn [red].
        wp_step. eapply (wp_outer k true); [exact Hrep|]. clear Hrep h r Hp Hrs Hsi Hoka Hokb. intros r h Hrep. cbn beta.
        apply rep_in in Hrep. eapply wp_blacken; [exact Hrep|]. intros h' Hrep'. left. split; [done|]. by apply settled_outer.
    + rewrite bool_decide_false by done. destruct (Hred true sa Hba) as (na & ni & nb & ->). rewrite rt_nd. cbn [red].
      wp_step. eapply (wp_inner k true); [exact Hrep|]. clear Hrep h r Hp Hrs Hsi Hoka Hokb. intros r h Hrep. cbn beta.
      apply rep_in in Hrep. eapply wp_blacken; [exact Hrep|]. intros h' Hrep'. left. split; [done|]. by apply settled_inner.
  - wp_step. eapply wp_is_red; [exact Hokb|]. cbn beta. destruct (blk sb) eqn:Hbb; cbn [negb].
    + wp_step. eapply wp_is_red; [exact Hoka|]. cbn beta. destruct (blk sa) eqn:Hba; cbn [negb].
      * by apply wp_both_black.
      * rewrite bool_decide_true by (by rewrite rt_nd). destruct (Hred false sa Hba) as (na & ni & nb & ->). rewrite rt_nd. cbn [red].
        wp_step. eapply (wp_inner k false); [exact Hrep|]. clear Hrep h r Hp Hrs Hsi Hoka Hokb. intros r h Hrep. cbn beta.
        apply rep_in in Hrep. eapply wp_blacken; [exact Hrep|]. intros h' Hrep'. left. split; [done|]. by apply settled_inner.
    + rewrite bool_decide_true by (by rewrite rt_nd). destruct (Hred false sb Hbb) as (fa & fi & fb & ->). rewrite rt_nd. cbn [red].
      wp_step. eapply (wp_outer k false); [exact Hrep|]. clear Hrep h r Hp Hrs Hsi Hoka Hokb. intros r h Hrep. cbn beta.
      apply rep_in in Hrep. eapply wp_blacken; [exact Hrep|]. intros h' Hrep'. left. split; [done|]. by apply settled_outer.
Qed.

(** A round with a red sibling: the next one has a red parent and a black sibling. *)
Lemma wp_round_red k d c p sa si sb r h : rep h0 (Fr d c p (nd d true sa si sb) :: k) t r h ->
  wp (double_black_round (Some i)) (fun o st => o = Some (Some i) /\ exists r' h', st = mkTree r' h' l /\
    rep h0 (Fr d true p sa :: Fr d false si sb :: k) t r' h') (mkTree r h l).
Proof.
  intros Hrep. pose proof (rep_lookup_up _ _ _ _ _ _ _ _ Hrep) as Hp. pose proof Hrep as Hin. rewrite Ht in Hin. pose proof (rep_lookup _ _ _ _ _ _ _ _ Hin) as Hi.
  unfold double_black_round. wp_step. eapply wp_rd; [exact Hi|]. cbn beta. rewrite parent_mkd. cbn [up f_id].
  wp_step. eapply wp_sibling; [exact Hrep|]. cbn beta. rewrite rt_nd. clear Hi Hin.
  assert (rt t <> Some si) as Hts.
  { intros He%rt_in. destruct (rep_fresh _ _ _ _ _ _ _ _ si Hrep He) as (_ & Hn & _). apply Hn, rt_in, rt_nd. }
  pose proof (rep_in_other _ _ _ _ _ _ _ _ (rep_out _ _ _ _ _ _ _ _ Hrep)) as Hrs. pose proof (rep_lookup _ _ _ _ _ _ _ _ Hrs) as Hsi.
  wp_step. eapply wp_rd; [exact Hsi|]. cbn beta. rewrite red_mkd. clear Hsi Hrs Hp.
  apply rep_out in Hrep. wp_step. eapply wp_color; [exact Hrep|]. clear Hrep h. intros h Hrep. cbn beta.
  apply rep_in_other in Hrep. wp_step. eapply wp_color; [exact Hrep|]. clear Hrep h. intros h Hrep. cbn beta. apply rep_out_other in Hrep.
  wp_step. eapply wp_rd; [apply (rep_lookup _ _ _ _ _ _ _ _ Hrep)|]. cbn beta. rewrite rt_nd. wp_step.
  eapply (wp_mono _ (fun _ st => exists r' h', st = mkTree r' h' l /\ rep h0 k (nd d false (nd d true t p sa) si sb) r' h')).
  - destruct d; cbn [mkd left].
    + rewrite bool_decide_false by done. apply (wp_rotate true _ _ _ _ _ _ _ _ _ _ Hrep). eauto.
    + rewrite bool_decide_true by done. apply (wp_rotate false _ _ _ _ _ _ _ _ _ _ Hrep). eauto.
  - intros [] st (r' & h' & -> & Hrep'). apply wp_ret. split; [done|]. exists r', h'. split; [done|]. by do 2 apply rep_in.
Qed.
End double_black.

Lemma kleft_app k1 k2 : kleft (k1 ++ k2) = kleft k2 ++ kleft k1.
Proof. induction k1 as [|[d c i s] k1 IH]; simpl; [by rewrite app_nil_r|]. by rewrite IH, app_assoc. Qed.
Lemma kright_app k1 k2 : kright (k1 ++ k2) = kright k1 ++ kright k2.
Proof. induction k1 as [|[d c i s] k1 IH]; simpl; [done|]. by rewrite IH, app_assoc. Qed.
Lemma rep_app h0 k1 k2 t r h : rep h0 k2 (plug k1 t) r h <-> rep h0 (k1 ++ k2) t r h.
Proof. by rewrite (rep_plug (k1 ++ k2)), (rep_plug k2), plug_app. Qed.

Lemma wp_root_round node h0 k t r h l Q : rep h0 k t r h -> rt t = Some node -> up k = None -> Q None (mkTree r h l) ->
  wp (double_black_round (Some node)) Q (mkTree r h l).
Proof.
  intros Hrep Hn Hk HQ. destruct t as [|c a i b]; [done|]. injection Hn as ->. rewrite (Node_nd true) in Hrep. unfold double_black_round.
  wp_step. eapply wp_rd; [apply (rep_lookup _ _ _ _ _ _ _ _ Hrep)|]. cbn beta. rewrite parent_mkd, Hk. by apply wp_ret.
Qed.

(** The loop from the subtree in which the leaf [n] is to be removed. *)
Lemma double_black_run fuel kn k e c n m node r h h0 l : rep h0 k (plug kn (nd e c Leaf n Leaf)) r h -> rt (plug kn (nd e c Leaf n Leaf)) = Some node ->
  rb (plug kn Leaf) m -> blk (plug kn Leaf) = true -> rbc k (S m) -> (length k + 2 <= fuel)%nat ->
  wp (double_black_loop fuel (Some node)) (fun _ st => exists K r' h', st = mkTree r' h' l /\ rep h0 K (nd e c Leaf n Leaf) r' h' /\ rbt (plug K Leaf) /\
    kleft K = kleft (kn ++ k) /\ kright K = kright (kn ++ k)) (mkTree r h l).
Proof.
  revert kn k m node r h. induction fuel as [|fuel IH]; intros kn k m node r h Hrep Hnode Hrb Hblk Hk Hf; [lia|]. cbn [double_black_loop]. wp_step.
  destruct k as [|[d cp p s] k].
  - eapply wp_root_round; [exact Hrep|exact Hnode|done|]. cbn beta. apply wp_ret. exists kn, r, h. rewrite app_nil_r in *.
    apply rep_app in Hrep. rewrite app_nil_r in Hrep. split; [done|]. split; [done|]. split; [|done]. split; [done|eauto].
  - destruct (plug kn (nd e c Leaf n Leaf)) as [|ct ta i tb] eqn:Hpl; [done|]. injection Hnode as ->. pose proof Hk as (Hs & Hk').
    assert (forall K r h, rep h0 K (Node ct ta node tb) r h -> rep h0 (kn ++ K) (nd e c Leaf n Leaf) r h) as Hout.
    { intros K r1 h1 H1. rewrite <- Hpl in H1. by apply rep_app. }
    assert (forall k2 st, kleft k2 = kleft (Fr d cp p s :: k) -> kright k2 = kright (Fr d cp p s :: k) ->
      settled h0 l (Node ct ta node tb) (plug kn Leaf) k2 st -> exists K r' h', st = mkTree r' h' l /\
      rep h0 K (nd e c Leaf n Leaf) r' h' /\ rbt (plug K Leaf) /\ kleft K = kleft (kn ++ Fr d cp p s :: k) /\ kright K = kright (kn ++ Fr d cp p s :: k)) as Hset.
    { intros k2 st E1 E2 (K & r' & h' & -> & Hr & Hb & Hl1 & Hr1). exists (kn ++ K), r', h'. split; [done|]. split; [by apply Hout|].
      split; [by rewrite plug_app|]. by rewrite !kleft_app, !kright_app, Hl1, Hr1, E1, E2. }
    rewrite (Node_nd true) in Hrep. cbn [andb] in Hrep. simpl in Hf.
    destruct (blk s) eqn:Hbs.
    + eapply wp_mono; [eapply (wp_round_black h0 l _ (plug kn Leaf) m true); [reflexivity|exact Hrb|exact Hblk|exact Hrep|exact Hk|exact Hbs]|].
      intros o st [[-> Hset']|(-> & sa & si & sb & r' & h' & -> & -> & -> & Hrep' & Ha & Hb & Hba & Hbb)]; cbn beta iota.
      * apply wp_ret. by eapply Hset.
      * change (nd true ct ta node tb) with (Node ct ta node tb) in Hrep'. rewrite <- Hpl in Hrep'.
        set (kn' := kn ++ [Fr d false p (nd d true sa si sb)]).
        assert (forall u, plug kn' u = nd d false (plug kn u) p (nd d true sa si sb)) as Hkn by (intros u; unfold kn'; by rewrite plug_app).
        rewrite <- Hkn in Hrep'. eapply wp_mono; [eapply (IH kn' k (S m)); [exact Hrep'|rewrite Hkn; apply rt_nd| | |exact Hk'|lia]|].
        -- rewrite Hkn, rb_black, rb_red. done.
        -- by rewrite Hkn, blk_nd.
        -- intros [] st (K & r2 & h2 & -> & Hr2 & Hb2 & Hl2 & Hr2'). exists K, r2, h2. split; [done|]. split; [done|]. split; [done|].
           rewrite Hl2, Hr2'. unfold kn'. rewrite !kleft_app, !kright_app. simpl. split; destruct d; simpl; rewrite <- ?app_assoc; simpl; rewrite ?app_nil_r, <- ?app_assoc; done.
    + destruct s as [|[] s1 si s2]; [done| |done]. rewrite (Node_nd d) in *. set (sa := if d then s1 else s2) in *. set (sb := if d then s2 else s1) in *. clearbody sa sb.
      eapply wp_mono; [eapply (wp_round_red h0 l); [reflexivity|exact Hrep]|]. intros o st (-> & r' & h' & -> & Hrep'). cbn beta iota.
      destruct fuel as [|fuel]; [lia|]. cbn [double_black_loop]. wp_step. apply rb_red in Hs as (Hsa & Hsb & Hba & Hbb).
      assert (cp = false) as -> by (destruct cp; [|done]; by destruct Hk').
      assert (rbc (Fr d true p sa :: Fr d false si sb :: k) (S m)) as Hk2 by (simpl; done).
      eapply wp_mono; [eapply (wp_round_black h0 l _ (plug kn Leaf) m true); [reflexivity|exact Hrb|exact Hblk|exact Hrep'|exact Hk2|exact Hba]|].
      intros o st [[-> Hset']|[? _]]; [|done]. cbn beta iota. apply wp_ret. eapply Hset; [| |exact Hset'].
      * destruct d; simpl; rewrite <- ?app_assoc; simpl; rewrite <- ?app_assoc; done.
      * destruct d; simpl; rewrite <- ?app_assoc; simpl; rewrite <- ?app_assoc; done.
Qed.

(** ** Taking out a leaf *)

(** The tree without the node [x], with the elements [order]; [h0] is the memory before. *)
Definition removed (h0 : heap) (l : gmap Z list_head) (order : list Z) (x : Z) (st : ocf_rb_tree) : Prop :=
  exists u r h, st = mkTree r h l /\ rep h [] u r h /\ rbt u /\ inorder u = order /\ forall j, j ∉ order -> j <> x -> h !! j = h0 !! j.

Lemma wp_unlink h0 k e c x r h l : rep h0 k (nd e c Leaf x Leaf) r h -> rbt (plug k Leaf) -> wp (unlink (Some x)) (fun _ => removed h0 l (kleft k ++ kright k) x) (mkTree r h l).
Proof.
  intros Hrep Hb. pose proof (rep_nodup _ _ _ _ Hrep) as Hnd. rewrite (Permutation_app_comm (kids k)) in Hnd.
  assert (inorder (nd e c Leaf x Leaf) = [x]) as Hx by (by destruct e). rewrite Hx in Hnd. apply NoDup_cons in Hnd as [Hxk Hnd].
  unfold unlink. wp_step. eapply wp_rd; [apply (rep_lookup _ _ _ _ _ _ _ _ Hrep)|]. cbn beta. rewrite parent_mkd.
  pose proof Hrep as (_ & Hc & _). rewrite rt_nd in Hc. eapply wp_update_parent; [exact Hc|done|].
  exists (plug k Leaf), (relink_root k None r), (relink_heap k None h). split; [done|]. split; [|split; [done|split]].
  - apply rep_whole. split; [split|split; [|done]]; [by rewrite app_nil_r|done|]. by eapply okc_relink.
  - by rewrite inorder_plug.
  - intros j Hj Hjx. rewrite <- kids_perm in Hj. rewrite relink_heap_ne by done. apply (rep_frame _ _ _ _ _ _ Hrep). rewrite Hx. set_solver.
Qed.

Lemma wp_black_leaf h0 k e x r h l : rep h0 k (nd e false Leaf x Leaf) r h -> rbt (plug k (nd e false Leaf x Leaf)) ->
  wp (ocf_rb_tree_fix_double_black (Some x);; unlink (Some x)) (fun _ => removed h0 l (kleft k ++ kright k) x) (mkTree r h l).
Proof.
  intros Hrep Hb. apply rbt_plug_inv in Hb as (m & Hm & Hk & _). apply rb_black_S in Hm as (m' & -> & -> & _).
  pose proof (rep_size _ _ _ _ _ Hrep) as Hsz. pose proof (ctx_length k) as Hl. unfold ocf_rb_tree_fix_double_black. wp_step. wp_step. apply wp_gets. unfold fuel_of. cbn [nodes].
  eapply wp_mono; [eapply (double_black_run _ [] k e false x 0); [exact Hrep|apply rt_nd|done|done|exact Hk|lia]|].
  intros [] st (K & r' & h' & -> & Hrep' & Hb & E1 & E2). cbn beta. eapply wp_mono; [eapply wp_unlink; [exact Hrep'|exact Hb]|].
  intros [] st. simpl in E1, E2. by rewrite E1, E2.
Qed.

(** A red leaf is taken out as it is. *)
Lemma red_leaf_out k e x : rbt (plug k (nd e true Leaf x Leaf)) -> rbt (plug k Leaf) /\ rbc k 0.
Proof.
  intros (m & Hm & Hk & Hp)%rbt_plug_inv. apply rb_red in Hm as (-> & _). split; [|done]. by apply (rbt_plug _ _ 0).
Qed.

(** ** The steps of the loop of [ocf_rb_tree_remove] *)

Lemma wp_any_sibling h0 k d c a x b r h l Q : rep h0 k (nd d c a x b) r h -> (forall s, (forall f k', k = f :: k' -> s = rt (f_sib f)) -> Q s (mkTree r h l)) ->
  wp (ocf_rb_tree_sibling (Some x)) Q (mkTree r h l).
Proof.
  intros Hrep HQ. destruct k as [|[d' c' p s] k].
  - unfold ocf_rb_tree_sibling. wp_step. eapply wp_rd; [apply (rep_lookup _ _ _ _ _ _ _ _ Hrep)|]. cbn beta. rewrite parent_mkd. apply wp_ret. by apply HQ.
  - eapply wp_sibling; [reflexivity|exact Hrep|]. apply HQ. intros f k' [= <- <-]. done.
Qed.

(** No children. *)
Lemma remove_none fuel h0 k c x r h l : rep h0 k (nd true c Leaf x Leaf) r h -> rbt (plug k (nd true c Leaf x Leaf)) ->
  wp (remove_loop (S fuel) (Some x)) (fun _ => removed h0 l (kleft k ++ kright k) x) (mkTree r h l).
Proof.
  intros Hrep Hb. cbn [remove_loop]. wp_step. eapply wp_any_sibling; [exact Hrep|]. intros s Hs. cbn beta.
  wp_step. unfold ocf_rb_tree_bst_replacement. wp_step. pose proof (rep_lookup _ _ _ _ _ _ _ _ Hrep) as Hx. eapply wp_rd; [exact Hx|]. cbn [mkd left right rt]. apply wp_ret.
  wp_step. apply wp_gets. cbn [root]. pose proof (rep_root_up _ _ _ _ _ _ _ _ _ Hrep) as Hru. case_bool_decide as Hr.
  - destruct k as [|f k]; [|by destruct Hru as [Hru _]; rewrite <- Hr in Hru; specialize (Hru eq_refl)]. apply wp_modify.
    exists Leaf, None, h. split; [done|]. split; [split; [split; [constructor|done]|done]|]. split; [by split; [|exists O]|]. split; [done|].
    intros j _ Hj. apply (rep_frame _ _ _ _ _ _ Hrep). simpl. set_solver.
  - wp_step. eapply wp_rd; [exact Hx|]. cbn [mkd red]. destruct c; cbn [negb]; [|by eapply wp_black_leaf].
    destruct (red_leaf_out _ _ _ Hb) as [Hb' Hk]. destruct k as [|[d cp p s'] k].
    { exfalso. apply Hr. symmetry. by apply Hru. }
    specialize (Hs _ _ eq_refl). simpl in Hs. subst s. destruct Hk as (Hs & _). wp_step.
    destruct s' as [|[] sa si sb]; cbn [rt if_ptr f_sib]; [apply wp_ret; by eapply wp_unlink| |done]. rewrite (Node_nd true) in *. cbn beta.
    apply rep_out, rep_in_other in Hrep. eapply wp_color; [exact Hrep|]. clear Hrep h Hx. intros h Hrep. cbn beta.
    apply rep_out_other, rep_in in Hrep. by eapply wp_unlink.
Qed.

(** A node below [x] changes places with it. *)
Lemma wp_swap_below h0 k d c a x k2 e c2 s y f r h l Q : rep h0 (k2 ++ Fr (negb d) c x a :: k) (nd e c2 s y f) r h ->
  (forall r' h', rep h0 (k2 ++ Fr (negb d) c y a :: k) (nd e c2 s x f) r' h' ->
    (rbt (plug (k2 ++ Fr (negb d) c x a :: k) (nd e c2 s y f)) -> rbt (plug (k2 ++ Fr (negb d) c y a :: k) (nd e c2 s x f))) -> Q tt (mkTree r' h' l)) ->
  wp (ocf_rb_tree_swap (Some x) (Some y)) Q (mkTree r h l).
Proof.
  intros Hrep HQ. set (B := plug k2 (nd e c2 s y f)).
  assert (rep h0 k (nd d c a x B) r h) as Hrx by (by apply rep_out_other, rep_app).
  pose proof (rep_whole _ _ _ _ Hrep) as HT. set (t := plug _ _) in HT.
  assert (t = plug k (nd d c a x B)) as Ht. { unfold t. rewrite plug_app. simpl. by rewrite nd_flip, negb_involutive. }
  assert (y ∈ inorder B) as HyB. { unfold B. rewrite inorder_plug, !elem_of_app. right. left. apply rt_in, rt_nd. }
  destruct (rep_fresh _ _ _ _ _ _ _ _ y (rep_in_other _ _ _ _ _ _ _ _ Hrx) HyB) as (Hyx & Hya & Hyk).
  pose proof (rep_nodup _ _ _ _ Hrx) as Hnd. pose proof (rep_nodup _ _ _ _ Hrep) as Hnd2.
  assert (x ∈ inorder t /\ y ∈ inorder t) as [Hxt Hyt].
  { rewrite Ht, inorder_plug_perm, !elem_of_app. split; right; [apply rt_in, rt_nd|]. destruct d; simpl; rewrite elem_of_app, elem_of_cons; tauto. }
  pose proof (rep_lookup _ _ _ _ _ _ _ _ Hrx) as Hx. pose proof (rep_lookup _ _ _ _ _ _ _ _ Hrep) as Hy.
  pose proof (rep_mirrored _ _ _ _ _ HT Hxt) as Hmx. pose proof (rep_mirrored _ _ _ _ _ HT Hyt) as Hmy.
  assert (forall q, up k = Some q -> q ∈ kids k) as Hupk. { destruct k as [|[] k]; [done|]. intros q [= ->]. by left. }
  assert (up k <> Some y) as Hup by (intros Hq%Hupk; done).
  assert (up k = up (k2 ++ Fr (negb d) c x a :: k) -> up k = None) as Hsib.
  { destruct (up k) as [q|] eqn:Hq; [|done]. specialize (Hupk _ eq_refl). intros He. exfalso. destruct k2 as [|[d2 c3 j u] k2]; injection He as ->.
    - apply NoDup_app in Hnd as (_ & Hd & _). apply (Hd x Hupk), rt_in, rt_nd.
    - apply NoDup_app in Hnd2 as ([Hj _]%NoDup_cons & _). apply Hj. rewrite elem_of_app. right.
      clear - Hupk. induction k2 as [|[d2 c2 i s] k2 IH]; simpl; [right; rewrite elem_of_app; by right|right; rewrite elem_of_app; by right]. }
  pose proof (rep_root_up _ _ _ _ _ _ _ _ _ Hrx) as Hru. pose proof HT as (_ & Hr & _). simpl in Hr.
  assert (r <> Some y) as Hry.
  { rewrite Hr, Ht. destruct k as [|g k]; [simpl; rewrite rt_nd; congruence|]. intros Hi%rt_plug_in. done. }
  set (nx := mkd d c _ _ _) in Hx. set (ny := mkd e c2 _ _ _) in Hy.
  assert (parent nx = up k /\ parent ny = up (k2 ++ Fr (negb d) c x a :: k)) as [Hpx Hpy] by (unfold nx, ny; by rewrite !parent_mkd).
  apply (swap_wp x y r h l nx ny); rewrite ?Hpx, ?Hpy; try done; try congruence.
  destruct (rep_swapped h0 x y t r h nx ny) as (Hc' & Hok' & Hnd'); rewrite ?Hpx, ?Hpy; try done; try congruence.
  assert (ren_tree x y t = plug (k2 ++ Fr (negb d) c y a :: k) (nd e c2 s x f)) as Hren.
  { assert (inorder (nd e c2 s y f) ≡ₚ y :: inorder s ++ inorder f) as Hp by (destruct e; simpl; solve_Permutation).
    rewrite Hp, kids_app in Hnd2. simpl in Hnd2.
    assert (kids k2 ++ x :: inorder a ++ kids k ++ y :: inorder s ++ inorder f ≡ₚ x :: y :: (kids k2 ++ inorder a ++ kids k ++ inorder s ++ inorder f)) as Hp2 by solve_Permutation.
    rewrite <- !app_assoc in Hnd2. simpl in Hnd2. rewrite <- !app_assoc in Hnd2. rewrite Hp2, !NoDup_cons, not_elem_of_cons, !not_elem_of_app in Hnd2.
    destruct Hnd2 as ((_ & X1 & X2 & X3 & X4 & X5) & (Y1 & Y2 & Y3 & Y4 & Y5) & _).
    unfold t. rewrite ren_plug, fmap_app. simpl. rewrite !ren_ctx_fresh by done. unfold ren_frame. simpl. rewrite tr_x, (ren_tree_fresh x y a) by done.
    f_equal. destruct e; simpl; by rewrite tr_y, (ren_tree_fresh x y s), (ren_tree_fresh x y f) by done. }
  assert (inorder (ren_tree x y t) ≡ₚ inorder t) as Hperm.
  { rewrite ren_inorder. apply tr_perm; try done. by apply rep_nodup in HT. }
  apply HQ; [|rewrite <- Hren; apply ren_rbt].
  apply rep_plug. rewrite <- Hren. split; [|done]. simpl. split; [done|]. intros j Hj. rewrite Hperm in Hj.
  rewrite (swapped_outside h0 x y t r h nx ny j); try done; try congruence; try (by left); try (by intros ->).
  apply (rep_frame _ _ _ _ _ _ HT). done.
Qed.

(** The leftmost node of a subtree. *)
Lemma wp_leftmost fuel h0 k b r h l : rep h0 k b r h -> b <> Leaf -> (height b <= fuel)%nat ->
  wp (leftmost fuel (rt b)) (fun p st => st = mkTree r h l /\ exists kl e y f, p = Some y /\ b = plug kl (nd true e Leaf y f) /\ kleft kl = []) (mkTree r h l).
Proof.
  revert k b. induction fuel as [|fuel IH]; intros k b Hrep Hb Hf; destruct b as [|e b1 y b2]; try done; simpl in Hf; [lia|]. rewrite (Node_nd true) in Hrep.
  cbn [leftmost rt]. wp_step. eapply wp_rd; [apply (rep_lookup _ _ _ _ _ _ _ _ Hrep)|]. cbn [mkd left]. destruct b1 as [|e1 b11 y1 b12].
  - apply wp_ret. split; [done|]. exists [], e, y, b2. done.
  - eapply wp_mono; [eapply (IH _ (Node e1 b11 y1 b12)); [apply rep_in, Hrep|done|lia]|].
    intros p st (-> & kl & e' & y' & f & -> & -> & Hkl). split; [done|]. exists (kl ++ [Fr true e y b2]), e', y', f. split; [done|].
    rewrite plug_app, kleft_app, Hkl. done.
Qed.

(** A leaf below [x] takes its place. *)
Lemma remove_leaf fuel h0 k d c a x k2 e y r h l : rep h0 (k2 ++ Fr (negb d) c x a :: k) (nd true e Leaf y Leaf) r h ->
  rbt (plug (k2 ++ Fr (negb d) c x a :: k) (nd true e Leaf y Leaf)) ->
  wp (rn ← rd (Some y);
      ocf_rb_tree_swap (Some x) (Some y);;
      if bool_decide (left rn = None) && bool_decide (right rn = None) then
        n ← rd (Some x);
        (if negb (red n) then ocf_rb_tree_fix_double_black (Some x) else mret tt);;
        unlink (Some x)
      else remove_loop fuel (Some x))
    (fun _ => removed h0 l (kleft (k2 ++ Fr (negb d) c y a :: k) ++ kright (k2 ++ Fr (negb d) c y a :: k)) x) (mkTree r h l).
Proof.
  intros Hrep Hb. wp_step. eapply wp_rd; [apply (rep_lookup _ _ _ _ _ _ _ _ Hrep)|]. cbn [mkd left right rt].
  rewrite !bool_decide_true by done. cbn [andb]. wp_step. eapply wp_swap_below; [exact Hrep|]. clear Hrep r h. intros r h Hrep Hb'. specialize (Hb' Hb). cbn beta.
  wp_step. eapply wp_rd; [apply (rep_lookup _ _ _ _ _ _ _ _ Hrep)|]. cbn [mkd red]. destruct e; cbn [negb].
  - wp_step. apply wp_ret. eapply wp_unlink; [exact Hrep|]. by eapply red_leaf_out.
  - by eapply wp_black_leaf.
Qed.

Lemma rb_zero c a z b : rb (Node c a z b) 0 -> Node c a z b = nd true true Leaf z Leaf.
Proof. destruct c; [|done]. intros (Ha & Hb & Hba & Hbb). destruct a as [|[] ? ? ?], b as [|[] ? ? ?]; done. Qed.

(** The only child of a node is a red leaf. *)
Lemma only_child k d c e a i b x : rbt (plug k (nd d c Leaf x (Node e a i b))) -> Node e a i b = nd true true Leaf i Leaf.
Proof.
  intros (m & Hm & _)%rbt_plug_inv. destruct c.
  - apply rb_red in Hm as (-> & Hf & _). by apply rb_zero.
  - apply rb_black_S in Hm as (m' & -> & -> & Hf). by apply rb_zero.
Qed.

(** A single child. *)
Lemma remove_one fuel h0 k d c x z r h l : rep h0 k (nd d c Leaf x (nd true true Leaf z Leaf)) r h ->
  rbt (plug k (nd d c Leaf x (nd true true Leaf z Leaf))) ->
  wp (remove_loop (S fuel) (Some x)) (fun _ => removed h0 l (kleft k ++ z :: kright k) x) (mkTree r h l).
Proof.
  intros Hrep Hb. cbn [remove_loop]. wp_step. eapply wp_any_sibling; [exact Hrep|]. intros s _. cbn beta.
  pose proof (rep_lookup _ _ _ _ _ _ _ _ Hrep) as Hx. rewrite rt_nd in Hx.
  assert (kleft k ++ z :: kright k = kleft ([] ++ Fr (negb d) c z Leaf :: k) ++ kright ([] ++ Fr (negb d) c z Leaf :: k)) as ->.
  { destruct d; simpl; rewrite <- ?app_assoc; done. }
  wp_step. apply (wp_mono _ (fun p st => p = Some z /\ st = mkTree r h l)).
  - unfold ocf_rb_tree_bst_replacement. wp_step. eapply wp_rd; [exact Hx|]. cbn beta. destruct d; cbn [mkd left right rt]; by apply wp_ret.
  - intros p st [-> ->]. cbn beta iota. eapply (remove_leaf _ _ _ d _ _ _ [] true).
    + simpl. by apply rep_in_other.
    + simpl. rewrite nd_flip, negb_involutive. exact Hb.
Qed.

(** Two children: the successor comes here. *)
Lemma remove_two fuel h0 k c a x b r h l : rep h0 k (nd true c a x b) r h -> rbt (plug k (nd true c a x b)) -> a <> Leaf -> b <> Leaf ->
  wp (remove_loop (S (S fuel)) (Some x)) (fun _ => removed h0 l (kleft k ++ inorder a ++ inorder b ++ kright k) x) (mkTree r h l).
Proof.
  intros Hrep Hb Ha Hbn. remember (S fuel) as fuel1 eqn:Hfuel. cbn [remove_loop]. wp_step. eapply wp_any_sibling; [exact Hrep|]. intros s _. cbn beta.
  pose proof (rep_lookup _ _ _ _ _ _ _ _ Hrep) as Hx. cbn [mkd] in Hx. pose proof (rep_in_other _ _ _ _ _ _ _ _ Hrep) as Hrb.
  pose proof (rep_size _ _ _ _ _ Hrb) as Hsz. pose proof (height_length b) as Hh.
  wp_step. apply (wp_mono _ (fun p st => st = mkTree r h l /\ exists kl e y f, p = Some y /\ b = plug kl (nd true e Leaf y f) /\ kleft kl = [])).
  { unfold ocf_rb_tree_bst_replacement. wp_step. eapply wp_rd; [exact Hx|]. cbn [left right]. destruct a as [|? ? j ?]; [done|]. destruct b as [|? ? j' ?] eqn:Hbe; [done|].
    cbn [rt]. unfold ocf_rb_tree_successor. wp_step. eapply wp_rd; [exact Hx|]. cbn [right rt]. wp_step. apply wp_gets. unfold fuel_of. cbn [nodes].
    rewrite <- Hbe in *. replace (Some j') with (rt b) by (by rewrite Hbe). eapply wp_leftmost; [exact Hrb|done|lia]. }
  intros p st (-> & kl & e & y & f & -> & -> & Hkl). cbn beta iota. clear Hx Hsz Hh Hbn. apply rep_app in Hrb.
  assert (rbt (plug (kl ++ Fr (negb true) c x a :: k) (nd true e Leaf y f))) as Hb' by (by rewrite plug_app).
  assert (kleft k ++ inorder a ++ inorder (plug kl (nd true e Leaf y f)) ++ kright k =
    kleft (kl ++ Fr (negb true) c y a :: k) ++ inorder f ++ kright (kl ++ Fr (negb true) c y a :: k)) as ->.
  { rewrite inorder_plug, kleft_app, kright_app, Hkl. simpl. rewrite app_nil_r, <- !app_assoc. simpl. done. }
  destruct f as [|ce f1 z f2].
  - eapply (remove_leaf _ _ _ true _ _ _ _ e); [exact Hrb|exact Hb'].
  - wp_step. eapply wp_rd; [apply (rep_lookup _ _ _ _ _ _ _ _ Hrb)|]. cbn [mkd left right rt]. rewrite (bool_decide_false (Some z = None)) by done. rewrite andb_false_r.
    wp_step. eapply wp_swap_below; [exact Hrb|]. clear Hrb r h Hrep. intros r h Hrep Hb2. specialize (Hb2 Hb'). cbn beta. subst fuel1.
    assert (Node ce f1 z f2 = nd true true Leaf z Leaf) as Hf by (by apply only_child in Hb').
    rewrite Hf in *. eapply remove_one; [exact Hrep|exact Hb2].
Qed.

(** A node of the tree is taken out. *)
Lemma remove_loop_run fuel h0 k c a x b r h l : rep h0 k (nd true c a x b) r h -> rbt (plug k (nd true c a x b)) ->
  wp (remove_loop (S (S fuel)) (Some x)) (fun _ => removed h0 l (kleft k ++ inorder a ++ inorder b ++ kright k) x) (mkTree r h l).
Proof.
  intros Hrep Hb. destruct a as [|ca a1 i a2], b as [|cb b1 j b2]; [by eapply remove_none| | |by eapply remove_two].
  - assert (Node cb b1 j b2 = nd true true Leaf j Leaf) as He by (by eapply (only_child _ true)).
    rewrite He in *. cbn [inorder app nd]. by eapply (remove_one _ _ _ true).
  - assert (Node ca a1 i a2 = nd true true Leaf i Leaf) as He by (rewrite nd_flip in Hb; by eapply (only_child _ false)).
    rewrite He in *. cbn [inorder app nd]. rewrite nd_flip in Hrep, Hb. by eapply (remove_one _ _ _ false).
Qed.

(** ** [remove] refines the removal from the groups *)

Lemma del_app n gs1 gs2 : n ∉ elems gs1 -> del n (gs1 ++ gs2) = gs1 ++ del n gs2.
Proof.
  induction gs1 as [|[h ms] gs1 IH]; [done|]. rewrite elems_cons, not_elem_of_cons, not_elem_of_app. intros (H1 & H2 & H3). simpl.
  destruct (Z.eqb_spec h n) as [->|_]; [done|]. rewrite bool_decide_false by done. by rewrite IH.
Qed.

Lemma elems_split n gs : n ∈ elems gs -> exists gs1 h ms gs2, gs = gs1 ++ (h, ms) :: gs2 /\ (n = h \/ n ∈ ms).
Proof.
  intros ([h ms] & Hn & Hg)%list_elem_of_bind. apply list_elem_of_split in Hg as (gs1 & gs2 & ->). exists gs1, h, ms, gs2.
  split; [done|]. by apply elem_of_cons in Hn.
Qed.

(** The circles of the other groups. *)
Lemma rings_middle l l' gs1 g g' gs2 : NoDup (elems (gs1 ++ g :: gs2)) -> rings l (gs1 ++ g :: gs2) ->
  (forall x, x ∉ fst g :: snd g -> l' !! x = l !! x) -> ring l' (fst g') (snd g') -> rings l' (gs1 ++ g' :: gs2).
Proof.
  intros Hnd Hr Hf Hg'. unfold rings in *. rewrite Forall_app, Forall_cons in *. destruct Hr as (H1 & _ & H2).
  assert (forall g2, g2 ∈ gs1 ++ gs2 -> ring l (fst g2) (snd g2) -> ring l' (fst g2) (snd g2)) as Hfr.
  { intros g2 Hg2. apply ring_frame. intros x Hx. apply Hf. by eapply elems_apart. }
  rewrite Forall_forall in *. split; [intros g2 Hg2; apply Hfr; [apply elem_of_app; by left|auto]|]. split; [done|].
  rewrite Forall_forall in *. intros g2 Hg2. apply Hfr; [apply elem_of_app; by right|auto].
Qed.

Lemma remove_member s gs1 h m1 n m2 gs2 : rb_tree s (gs1 ++ (h, m1 ++ n :: m2) :: gs2) ->
  wp (ocf_rb_tree_remove n) (fun _ s' => rb_tree s' (gs1 ++ (h, m1 ++ m2) :: gs2)) s.
Proof.
  intros Hs. pose proof (tree_ring _ _ h _ Hs ltac:(apply elem_of_app; right; by left)) as Hr.
  destruct Hs as ((t & Hrep & Hb & Hin) & Hnd & Hrings & Hh). destruct s as [r hp l]. cbn [root nodes lists] in *.
  assert (loose hp n) as [c Hn].
  { unfold hanging in Hh. rewrite Forall_app, Forall_cons in Hh. destruct Hh as (_ & Hh & _). simpl in Hh. rewrite Forall_app, Forall_cons in Hh. apply Hh. }
  assert (n ∉ heads (gs1 ++ (h, m1 ++ n :: m2) :: gs2)) as Hnh.
  { eapply (head_not_member _ (h, m1 ++ n :: m2)); [done|apply elem_of_app; right; by left|simpl; set_solver]. }
  unfold ocf_rb_tree_remove, on_lists. wp_step. apply wp_zoom. cbn [lists].
  apply (wp_mono _ (fun e l' => e = false /\ l' = l)); [eexists _, _; split; [apply (list_empty_run _ _ _ (ring_rotate _ _ _ _ _ Hr))|]; split; [|done]|].
  { apply bool_decide_false. by destruct m2. }
  intros e l' [-> ->]. cbn [negb root nodes]. wp_step. eapply wp_rd; [exact Hn|]. cbn [parent]. wp_step. apply wp_gets. cbn [root].
  rewrite bool_decide_true by done. rewrite bool_decide_false.
  2: { intros He. apply Hnh. rewrite <- Hin. destruct Hrep as (_ & Hr' & _). simpl in Hr'. apply rt_in. congruence. }
  cbn [andb negb]. apply wp_zoom. cbn [lists root nodes]. eapply wp_mono; [apply (list_del_run _ _ _ _ _ Hr)|]. intros [] l' [Hr' Hf].
  split; [|split; [|split]]; cbn [root nodes lists].
  - exists t. split; [done|]. split; [done|]. rewrite Hin. unfold heads. by rewrite !fmap_app.
  - rewrite elems_app, elems_cons in *. assert (elems gs1 ++ h :: (m1 ++ n :: m2) ++ elems gs2 ≡ₚ n :: elems gs1 ++ h :: (m1 ++ m2) ++ elems gs2) as Hp by solve_Permutation.
    rewrite Hp in Hnd. by apply NoDup_cons in Hnd as [_ ?].
  - eapply rings_middle; [exact Hnd|exact Hrings| |exact Hr']. intros x Hx. apply Hf. cbn [fst snd] in Hx. set_solver.
  - unfold hanging in *. rewrite Forall_app, Forall_cons in *. destruct Hh as (H1 & H2 & H3). split; [done|]. split; [|done]. simpl in *.
    rewrite Forall_app, Forall_cons in H2. rewrite Forall_app. tauto.
Qed.

(** The head of a group goes: the next one takes its place in the tree. *)
Lemma remove_head s gs1 n m ms gs2 : rb_tree s (gs1 ++ (n, m :: ms) :: gs2) ->
  wp (ocf_rb_tree_remove n) (fun _ s' => rb_tree s' (gs1 ++ (m, ms) :: gs2)) s.
Proof.
  intros Hs. pose proof (tree_ring _ _ n _ Hs ltac:(apply elem_of_app; right; by left)) as Hr.
  destruct Hs as ((t & Hrep & Hb & Hin) & Hnd & Hrings & Hh). destruct s as [r hp l]. cbn [root nodes lists] in *.
  assert (loose hp m) as [cm Hm].
  { unfold hanging in Hh. rewrite Forall_app, Forall_cons in Hh. destruct Hh as (_ & Hh & _). simpl in Hh. rewrite Forall_cons in Hh. apply Hh. }
  assert (m ∉ heads (gs1 ++ (n, m :: ms) :: gs2)) as Hmh.
  { eapply (head_not_member _ (n, m :: ms)); [done|apply elem_of_app; right; by left|by left]. }
  assert (n ∈ inorder t) as Hnt by (rewrite Hin; unfold heads; rewrite fmap_app; apply elem_of_app; right; by left).
  destruct (in_focus _ _ Hnt) as (k & c & a & b & Ht). pose proof Hrep as Hrx. rewrite Ht in Hrx. apply rep_plug in Hrx.
  pose proof (rep_lookup _ _ _ _ _ _ _ _ Hrx) as Hx. pose proof (rep_root_up _ _ _ _ _ _ _ _ _ Hrx) as Hru. pose proof Hrep as (_ & Hroot & _). simpl in Hroot.
  set (nx := mkd true c _ _ _) in Hx. set (ny := mkNode cm None None None) in Hm.
  assert (forall q, up k = Some q -> q ∈ inorder t) as Hupk.
  { intros q Hq. rewrite Ht, inorder_plug_perm, elem_of_app. left. destruct k as [|[] k]; [done|]. injection Hq as ->. by left. }
  assert (n <> m) as Hnm by (intros ->; apply Hmh; by rewrite <- Hin).
  assert (mirrored hp m) as Hmm. { intros m' Hm'. rewrite Hm in Hm'. injection Hm' as <-. simpl. split; [intros j [|]; done|]. split; [intros; done|done]. }
  pose proof (rep_mirrored _ _ _ _ _ Hrep Hnt) as Hmn.
  assert (parent nx <> Some m) as Hup. { intros Hq%Hupk. apply Hmh. by rewrite <- Hin. }
  assert (parent nx = parent ny -> parent nx = None) as Hsib by (intros ->; done).
  assert (r <> Some m) as Hrm. { intros He. apply Hmh. rewrite <- Hin. apply rt_in. congruence. }
  unfold ocf_rb_tree_remove, on_lists. wp_step. apply wp_zoom. cbn [lists].
  apply (wp_mono _ (fun e l' => e = false /\ l' = l)); [eexists _, _; split; [apply (list_empty_run _ _ _ Hr)|done]|].
  intros e l' [-> ->]. cbn [negb root nodes]. wp_step. eapply wp_rd; [exact Hx|]. cbn beta. wp_step. apply wp_gets. cbn [root].
  match goal with |- context [if ?b then _ else _] => assert (b = false) as -> end.
  { case_bool_decide as Hp; [|done]. simpl. apply Hru in Hp. by rewrite bool_decide_true. }
  wp_step. apply wp_zoom. cbn [lists]. apply (wp_mono _ (fun p l' => p = m /\ l' = l)); [eexists _, _; split; [apply (list_first_entry_run _ _ _ Hr)|done]|].
  intros p l' [-> ->]. cbn [root nodes]. wp_step. apply (swap_wp n m r hp l nx ny); try done. cbn beta. apply wp_zoom. cbn [lists root nodes].
  destruct (rep_swapped hp n m t r hp nx ny) as (Hc' & Hok' & Hnd'); try done.
  assert (n ∉ inorder (ren_tree n m t)) as Hn'.
  { rewrite ren_inorder, tr_elem, tr_x. intros Hmi. apply Hmh. by rewrite <- Hin. }
  eapply wp_mono; [apply (list_del_head _ _ _ _ Hr)|]. intros [] l' [Hr' Hf].
  assert (heads (gs1 ++ (m, ms) :: gs2) = tr n m <$> inorder t) as Hin'.
  { rewrite Hin. unfold heads. rewrite !fmap_app. simpl. rewrite tr_x. fold (heads gs1) (heads gs2).
    assert (NoDup (heads (gs1 ++ (n, m :: ms) :: gs2))) as Hndh by (rewrite <- Hin; by apply rep_nodup in Hrep).
    unfold heads in Hndh, Hmh. rewrite fmap_app in Hndh, Hmh. simpl in Hndh, Hmh. fold (heads gs1) (heads gs2) in Hndh, Hmh.
    rewrite not_elem_of_app, not_elem_of_cons in Hmh. destruct Hmh as (M1 & _ & M2). apply NoDup_app in Hndh as (_ & N1 & [N2 _]%NoDup_cons).
    rewrite !tr_fmap_fresh; try done. intros Hi. apply (N1 n Hi). by left. }
  split; [|split; [|split]]; cbn [root nodes lists].
  - exists (ren_tree n m t). rewrite Hin', ren_inorder, ren_rbt. split; [|done]. split; [split; [done|done]|done].
  - rewrite elems_app, elems_cons in *. assert (elems gs1 ++ n :: (m :: ms) ++ elems gs2 ≡ₚ n :: elems gs1 ++ m :: ms ++ elems gs2) as Hp by solve_Permutation.
    rewrite Hp in Hnd. by apply NoDup_cons in Hnd as [_ ?].
  - eapply rings_middle; [exact Hnd|exact Hrings| |exact Hr']. intros x Hx'. apply Hf. cbn [fst snd] in Hx'. set_solver.
  - assert (hanging (swapped n m hp nx ny) (gs1 ++ (n, ms) :: gs2)) as Hh'.
    { assert (NoDup (m :: elems (gs1 ++ (n, ms) :: gs2))) as [Hme Hnd2]%NoDup_cons.
      { assert (m :: elems (gs1 ++ (n, ms) :: gs2) ≡ₚ elems (gs1 ++ (n, m :: ms) :: gs2)) as ->; [|done]. rewrite !elems_app, !elems_cons. solve_Permutation. }
      eapply (hanging_frame hp).
      - intros j g Hg Hj. assert (j ∈ elems (gs1 ++ (n, ms) :: gs2)) as Hje by (by eapply elems_members).
        assert (j ∉ inorder t) as Hjt. { rewrite Hin. intros Hjh. eapply (head_not_member _ g j Hnd2 Hg Hj). unfold heads in *. rewrite fmap_app in *. done. }
        eapply (swapped_outside hp n m t r hp nx ny j); try done; [by right|]. by intros ->.
      - unfold hanging in *. rewrite Forall_app, Forall_cons in *. destruct Hh as (H1 & H2 & H3). split; [done|]. split; [|done]. simpl in *. by apply Forall_cons in H2 as [_ ?]. }
    unfold hanging in *. rewrite Forall_app, Forall_cons in *. done.
Qed.

(** A group of one node goes. *)
Lemma remove_single s gs1 n gs2 : rb_tree s (gs1 ++ (n, []) :: gs2) ->
  wp (ocf_rb_tree_remove n) (fun _ s' => rb_tree s' (gs1 ++ gs2)) s.
Proof.
  intros Hs. pose proof (tree_ring _ _ n _ Hs ltac:(apply elem_of_app; right; by left)) as Hr.
  destruct Hs as ((t & Hrep & Hb & Hin) & Hnd & Hrings & Hh). destruct s as [r hp l]. cbn [root nodes lists] in *.
  assert (n ∈ inorder t) as Hnt by (rewrite Hin; unfold heads; rewrite fmap_app; apply elem_of_app; right; by left).
  destruct (in_focus _ _ Hnt) as (k & c & a & b & Ht). pose proof (rep_nodup _ _ _ _ Hrep) as Hndt. simpl in Hndt. rewrite Ht in Hrep, Hb. apply rep_plug in Hrep.
  assert (heads (gs1 ++ gs2) = kleft k ++ inorder a ++ inorder b ++ kright k) as Hord.
  { assert (inorder t = (kleft k ++ inorder a) ++ n :: (inorder b ++ kright k)) as E1 by (rewrite Ht, inorder_plug; simpl; by rewrite <- !app_assoc).
    assert (inorder t = heads gs1 ++ n :: heads gs2) as E2 by (rewrite Hin; unfold heads; by rewrite fmap_app).
    transitivity (without n (inorder t)); [|rewrite E1 in Hndt |- *; rewrite without_mid by done; by rewrite <- !app_assoc].
    rewrite E2 in Hndt |- *. rewrite without_mid by done. unfold heads. by rewrite fmap_app. }
  unfold ocf_rb_tree_remove, on_lists. wp_step. apply wp_zoom. cbn [lists].
  apply (wp_mono _ (fun e l' => e = true /\ l' = l)); [eexists _, _; split; [apply (list_empty_run _ _ _ Hr)|done]|].
  intros e l' [-> ->]. cbn [negb root nodes]. wp_step. apply wp_gets. unfold fuel_of. cbn [nodes].
  eapply wp_mono; [eapply remove_loop_run; [exact Hrep|exact Hb]|]. intros [] s (u & r' & h' & -> & Hrep' & Hb' & Hin' & Hf).
  assert (NoDup (elems (gs1 ++ gs2))) as Hnd'.
  { rewrite elems_app, elems_cons in *. assert (elems gs1 ++ n :: [] ++ elems gs2 ≡ₚ n :: elems gs1 ++ elems gs2) as Hp by solve_Permutation.
    rewrite Hp in Hnd. by apply NoDup_cons in Hnd as [_ ?]. }
  split; [|split; [done|split]]; cbn [root nodes lists].
  - exists u. split; [done|]. split; [done|]. by rewrite Hin', Hord.
  - unfold rings in *. rewrite Forall_app, Forall_cons in *. tauto.
  - eapply (hanging_frame hp).
    + intros j g Hg Hj. apply Hf; [rewrite <- Hord; by eapply head_not_member|]. intros ->.
      assert (elems (gs1 ++ (n, []) :: gs2) ≡ₚ n :: elems (gs1 ++ gs2)) as Hp by (rewrite !elems_app, elems_cons; solve_Permutation).
      rewrite Hp in Hnd. apply NoDup_cons in Hnd as [Hn _]. apply Hn. by eapply elems_members.
    + unfold hanging in *. rewrite Forall_app, Forall_cons in *. tauto.
Qed.

Lemma remove_run s gs n : rb_tree s gs -> n ∈ elems gs -> wp (ocf_rb_tree_remove n) (fun _ s' => rb_tree s' (del n gs)) s.
Proof.
  intros Hs Hn. pose proof Hs as (_ & Hnd & _). destruct (elems_split _ _ Hn) as (gs1 & h & ms & gs2 & -> & Hc).
  rewrite elems_app, elems_cons in Hnd. apply NoDup_app in Hnd as (_ & Hd & [Hh (Hms & Hd2 & _)%NoDup_app]%NoDup_cons).
  rewrite del_app.
  2: { intros Hi. apply (Hd n Hi). destruct Hc as [->|Hc]; [by left|right; apply elem_of_app; by left]. }
  simpl. destruct Hc as [<-|Hc].
  - rewrite Z.eqb_refl. destruct ms as [|m ms]; [by apply remove_single|by apply remove_head].
  - destruct (Z.eqb_spec h n) as [->|_]; [exfalso; apply Hh, elem_of_app; by left|]. rewrite bool_decide_true by done.
    apply list_elem_of_split in Hc as (m1 & m2 & ->). rewrite without_mid by done. by apply remove_member.
Qed.
