(* ===== verification/RbOps.v ===== *)
(** The red-black trees of RbTree as their users need them: no operation loses a
    node, searching and [can_update] in any tree, in order or not, and what
    [can_update] promises; the theorems about the trees. *)

From stdpp Require Import sorting.
From S2P Require Import Prelude Dll EnvList RbTree RbShape RbSpec RbInsert RbSwap RbRemove.

(** ** Computations that stay in a relation *)

Definition stays {S A} (R : S -> S -> Prop) (m : M S A) : Prop := forall s a s', m s = Some (a, s') -> R s s'.

Section stays.
Context {S : Type} {R : S -> S -> Prop} `{!PreOrder R}.
Lemma stays_ret {A} (a : A) : stays R (mret a).
Proof. intros s b s' [= _ ->]. reflexivity. Qed.
Lemma stays_bug {A} : stays R (bug : M S A).
Proof. intros s b s'. done. Qed.
Lemma stays_gets {A} (f : S -> A) : stays R (gets f).
Proof. intros s b s' [= _ ->]. reflexivity. Qed.
Lemma stays_bind {A B} (m : M S A) (k : A -> M S B) : stays R m -> (forall a, stays R (k a)) -> stays R (m ≫= k).
Proof.
  intros Hm Hk s b s'. rewrite bind_run. destruct (m s) as [[a s1]|] eqn:E; [|done]. intros He.
  etransitivity; [by eapply Hm|by eapply Hk].
Qed.
End stays.

(** Nothing is written in place of an address that was not there. *)
Definition same_dom (s s' : ocf_rb_tree) : Prop := dom (nodes s') = dom (nodes s) /\ dom (lists s') = dom (lists s).
Definition same_heads (l l' : gmap Z list_head) : Prop := dom l' = dom l.
#[export] Instance same_dom_preorder : PreOrder same_dom.
Proof. split; [done|]. intros s1 s2 s3 [H1 H2] [H3 H4]. split; congruence. Qed.
#[export] Instance same_heads_preorder : PreOrder same_heads.
Proof. split; [done|]. intros l1 l2 l3 H1 H2. unfold same_heads in *. congruence. Qed.

Create HintDb stays.

(** Split a computation into its steps. *)
Ltac stays_step :=
  match goal with
  | |- stays _ (mret _) => apply stays_ret
  | |- stays _ (gets _) => apply stays_gets
  | |- stays _ bug => apply stays_bug
  | |- stays _ (mbind _ _) => apply stays_bind; [|intros ?]
  | |- stays _ (if ?b then _ else _) => destruct b
  | |- stays _ (let '(_, _) := ?x in _) => destruct x
  | |- stays _ (match ?x with _ => _ end) => destruct x
  end.
Ltac stays := repeat first [stays_step | progress auto with stays | progress cbn zeta].

(** The lists. *)
Lemma lget_stays l : stays eq (lget l).
Proof. intros m h m'. unfold lget. destruct (m !! l); [|done]. by intros [= _ ->]. Qed.
Lemma stays_weaken {S A} (R : S -> S -> Prop) (m : M S A) : Reflexive R -> stays eq m -> stays R m.
Proof. intros HR Hm s a s' ->%Hm. apply HR. Qed.
Lemma lset_next_stays l v : stays same_heads (lset_next l v).
Proof. intros m [] m'. unfold lset_next, same_heads. destruct (m !! l); [|done]. intros [= <-]. apply dom_alter_L. Qed.
Lemma lset_prev_stays l v : stays same_heads (lset_prev l v).
Proof. intros m [] m'. unfold lset_prev, same_heads. destruct (m !! l); [|done]. intros [= <-]. apply dom_alter_L. Qed.
Lemma lget_heads l : stays same_heads (lget l).
Proof. apply stays_weaken; [apply _|apply lget_stays]. Qed.
#[export] Hint Resolve lget_stays lget_heads lset_next_stays lset_prev_stays : stays.

Lemma INIT_stays l : stays same_heads (INIT_LIST_HEAD l).
Proof. unfold INIT_LIST_HEAD. stays. Qed.
Lemma list_add_tail_stays it l : stays same_heads (list_add_tail it l).
Proof. unfold list_add_tail. stays. Qed.
Lemma list_del_stays it : stays same_heads (list_del it).
Proof. unfold list_del. stays. Qed.
Lemma list_empty_stays l : stays eq (list_empty l).
Proof. unfold list_empty. stays. Qed.
Lemma list_first_entry_stays l : stays same_heads (list_first_entry l).
Proof. unfold list_first_entry. stays. Qed.
Lemma list_empty_heads l : stays same_heads (list_empty l).
Proof. apply stays_weaken; [apply _|apply list_empty_stays]. Qed.
#[export] Hint Resolve INIT_stays list_add_tail_stays list_del_stays list_empty_stays list_empty_heads list_first_entry_stays : stays.

(** The tree. *)
Lemma on_lists_stays {A} (m : M (gmap Z list_head) A) : stays same_heads m -> stays same_dom (on_lists m).
Proof.
  intros Hm s a s'. unfold on_lists, zoom. destruct (m (lists s)) as [[b l]|] eqn:E; [|done]. intros [= _ <-]. split; [done|]. by apply (Hm _ _ _ E).
Qed.
Lemma on_lists_reads {A} (m : M (gmap Z list_head) A) : stays eq m -> stays eq (on_lists m).
Proof. intros Hm s a s'. unfold on_lists, zoom. destruct (m (lists s)) as [[b l]|] eqn:E; [|done]. intros [= _ <-]. rewrite <- (Hm _ _ _ E). by destruct s. Qed.
Lemma rd_reads p : stays eq (rd p).
Proof. intros s a s'. destruct p as [i|]; simpl; [|done]. destruct (nodes s !! i); [|done]. by intros [= _ ->]. Qed.
Lemma rd_stays p : stays same_dom (rd p).
Proof. apply stays_weaken; [apply _|apply rd_reads]. Qed.
Lemma upd_stays p f : stays same_dom (upd p f).
Proof.
  intros s [] s'. destruct p as [i|]; simpl; [|done]. destruct (nodes s !! i); [|done]. intros [= <-]. split; [apply dom_alter_L|done].
Qed.
Lemma set_root_stays p : stays same_dom (modify (set_root p)).
Proof. intros s [] s' [= <-]. done. Qed.
#[export] Hint Resolve on_lists_stays on_lists_reads rd_reads rd_stays upd_stays set_root_stays : stays.

Lemma update_parent_stays p x y : stays same_dom (ocf_rb_tree_update_parent p x y).
Proof. unfold ocf_rb_tree_update_parent. stays. Qed.
#[export] Hint Resolve update_parent_stays : stays.
Lemma is_red_stays p : stays same_dom (is_red p).
Proof. unfold is_red. stays. Qed.
Lemma if_ptr_stays p m : stays same_dom m -> stays same_dom (if_ptr p m).
Proof. intros Hm. unfold if_ptr. stays. Qed.
#[export] Hint Resolve is_red_stays if_ptr_stays : stays.
Lemma rotate_left_stays p : stays same_dom (ocf_rb_tree_rotate_left p).
Proof. unfold ocf_rb_tree_rotate_left. stays. Qed.
Lemma rotate_right_stays p : stays same_dom (ocf_rb_tree_rotate_right p).
Proof. unfold ocf_rb_tree_rotate_right. stays. Qed.
#[export] Hint Resolve rotate_left_stays rotate_right_stays : stays.
Lemma fix_loop_stays fuel node : stays same_dom (fix_loop fuel node).
Proof. revert node. induction fuel as [|fuel IH]; intros node; cbn [fix_loop]; unfold violation, recolor, swap_colors; stays. Qed.
#[export] Hint Resolve fix_loop_stays : stays.
Lemma descend_reads fuel cmp i : stays eq (descend fuel cmp i).
Proof. revert i. induction fuel as [|fuel IH]; intros i; cbn [descend]; stays. Qed.
Lemma descend_stays fuel cmp i : stays same_dom (descend fuel cmp i).
Proof. apply stays_weaken; [apply _|apply descend_reads]. Qed.
#[export] Hint Resolve descend_stays : stays.

Lemma insert_stays cmp n : stays same_dom (ocf_rb_tree_insert cmp n).
Proof. unfold ocf_rb_tree_insert, ocf_rb_tree_fix_violation. stays. Qed.

Lemma swap_stays x y : stays same_dom (ocf_rb_tree_swap x y).
Proof. unfold ocf_rb_tree_swap, ocf_rb_copy_node, fix_self, ocf_rb_tree_update_children. stays. Qed.
Lemma sibling_stays x : stays same_dom (ocf_rb_tree_sibling x).
Proof. unfold ocf_rb_tree_sibling. stays. Qed.
Lemma leftmost_stays fuel p : stays same_dom (leftmost fuel p).
Proof. revert p. induction fuel as [|fuel IH]; intros p; cbn [leftmost]; stays. Qed.
#[export] Hint Resolve swap_stays sibling_stays leftmost_stays : stays.
Lemma bst_replacement_stays x : stays same_dom (ocf_rb_tree_bst_replacement x).
Proof. unfold ocf_rb_tree_bst_replacement, ocf_rb_tree_successor. stays. Qed.
Lemma double_black_stays fuel x : stays same_dom (double_black_loop fuel x).
Proof. revert x. induction fuel as [|fuel IH]; intros x; cbn [double_black_loop]; unfold double_black_round; stays. Qed.
#[export] Hint Resolve bst_replacement_stays double_black_stays : stays.
Lemma remove_loop_stays fuel x : stays same_dom (remove_loop fuel x).
Proof. revert x. induction fuel as [|fuel IH]; intros x; cbn [remove_loop]; unfold ocf_rb_tree_fix_double_black, unlink; stays. Qed.
#[export] Hint Resolve remove_loop_stays : stays.

Lemma remove_stays n : stays same_dom (ocf_rb_tree_remove n).
Proof. unfold ocf_rb_tree_remove. stays. Qed.

(** Both kinds of facts about one run. *)
Lemma wp_stays {S A} (R : S -> S -> Prop) (m : M S A) Q s : stays R m -> wp m Q s -> wp m (fun a s' => Q a s' /\ R s s') s.
Proof. intros Hm (a & s' & He & HQ). exists a, s'. split; [done|]. split; [done|]. by eapply Hm. Qed.

(** ** Any tree, in order or not *)

Lemma elem_ring s gs n : rb_tree s gs -> n ∈ elems gs -> exists l, ring (lists s) n l.
Proof.
  intros Hs (gs1 & h & ms & gs2 & -> & Hc)%elems_split. assert ((h, ms) ∈ gs1 ++ (h, ms) :: gs2) as Hg by (apply elem_of_app; right; by left).
  pose proof (tree_ring _ _ _ _ Hs Hg) as Hr. destruct Hc as [->|(m1 & m2 & ->)%list_elem_of_split].
  - by exists ms.
  - exists (m2 ++ h :: m1). by apply ring_rotate.
Qed.

Lemma wp_find_loop h0 fuel cmp k t r h l : rep h0 k t r h -> (height t <= fuel)%nat ->
  wp (find_loop fuel cmp (rt t)) (fun p s => s = mkTree r h l /\ forall i, p = Some i -> i ∈ inorder t /\ cmp i = 0) (mkTree r h l).
Proof.
  revert k t. induction fuel as [|fuel IH]; intros k t Hrep Hf; destruct t as [|c a i b]; simpl in Hf; try lia; cbn [find_loop rt]; try (by apply wp_ret).
  change (Node c a i b) with (nd true c a i b) in Hrep. wp_step. eapply wp_rd; [apply (rep_lookup _ _ _ _ _ _ _ _ Hrep)|]. cbn [mkd left right].
  destruct (Z.eqb_spec (cmp i) 0) as [He|He]; [apply wp_ret; split; [done|]; intros ? [= <-]; split; [simpl; set_solver|done]|]. destruct (cmp i <? 0).
  - apply rep_in in Hrep. eapply wp_mono; [apply (IH _ a Hrep); lia|]. intros p s [-> Hp]. split; [done|]. intros j Hj. destruct (Hp j Hj). simpl. set_solver.
  - apply (rep_in_other true) in Hrep. eapply wp_mono; [apply (IH _ b Hrep); lia|]. intros p s [-> Hp]. split; [done|]. intros j Hj. destruct (Hp j Hj). simpl. set_solver.
Qed.

(** Searching ends in any tree, and what it finds compares equal or is chosen by
    [find] from a group whose head does. *)
Lemma find_any find s gs cmp : rb_tree s gs -> (forall h ms, (h, ms) ∈ gs -> ms <> [] -> exists m, find h (lists s) = Some (Some m, lists s) /\ m ∈ ms) ->
  wp (ocf_rb_tree_find find cmp) (fun p s' => s' = s /\ forall i, p = Some i -> i ∈ elems gs) s.
Proof.
  intros Hs Hfind. pose proof Hs as ((t & Hrep & _ & Hin) & _). pose proof (height_length t) as Hht. rewrite Hin, length_heads in Hht.
  pose proof (tree_size _ _ Hs) as Hsz. destruct s as [r h l]. cbn [root nodes lists] in *. unfold ocf_rb_tree_find.
  wp_step. apply wp_gets. wp_step. apply wp_gets. unfold fuel_of. cbn [root nodes]. wp_step.
  pose proof Hrep as (_ & Hr & _). simpl in Hr. subst r. eapply wp_mono; [apply (wp_find_loop h _ cmp [] t); [exact Hrep|lia]|].
  intros p s [-> Hp]. destruct p as [i|]; [|by apply wp_ret]. destruct (Hp i eq_refl) as [Hi _]. rewrite Hin in Hi.
  apply list_elem_of_fmap in Hi as ([i' ms] & -> & Hg). cbn [fst]. pose proof (tree_ring _ _ _ _ Hs Hg) as Hring. cbn [lists] in Hring.
  wp_step. unfold on_lists. apply wp_zoom. cbn [lists]. eexists _, _. split; [apply (list_empty_run _ _ _ Hring)|]. cbn [root nodes].
  case_bool_decide as Hms.
  - apply wp_ret. split; [done|]. intros ? [= <-]. apply list_elem_of_bind. exists (i', ms). split; [by left|done].
  - destruct (Hfind _ _ Hg Hms) as (m & Hf & Hm). apply wp_zoom. cbn [lists]. eexists _, _. split; [exact Hf|]. split; [done|].
    intros ? [= <-]. by eapply elems_members.
Qed.

(** The way that [can_update] goes down: right of a node that compares equal. *)
Definition on_way_eq (cmp : Z -> Z) (k : ctx) : Prop := Forall (fun f => if f_dir f then cmp (f_id f) < 0 else 0 <= cmp (f_id f)) k.

Lemma way_eq_sides cmp k t : mono cmp (inorder (plug k t)) -> on_way_eq cmp k ->
  Forall (fun i => 0 <= cmp i) (kleft k) /\ Forall (fun i => cmp i < 0) (kright k).
Proof.
  revert t. induction k as [|[d c i s] k IH]; intros t Hm Hw; simpl; [done|]. apply Forall_cons in Hw as [Hi Hw]. simpl in *.
  destruct (IH _ Hm Hw) as [Hl Hr]. rewrite inorder_plug in Hm. apply mono_app in Hm as (_ & Hm & _). apply mono_app in Hm as (Hm & _ & _).
  destruct d; simpl in *.
  - rewrite app_nil_r. split; [done|]. constructor; [done|]. apply Forall_app. split; [|done]. apply mono_app in Hm as (_ & Hm & _).
    apply StronglySorted_inv in Hm as [_ Hm]. eapply Forall_impl; [exact Hm|]. intros j Hj. simpl in Hj. lia.
  - split; [|done]. apply Forall_app. split; [done|]. apply Forall_app. split; [|by constructor]. apply mono_app in Hm as (_ & _ & Hm).
    apply Forall_forall. intros j Hj. enough (0 < cmp j) by lia. apply (Hm j i); [done|by left|lia].
Qed.

Lemma wp_reaches h0 fuel cmp n k t r h l : rep h0 k t r h -> on_way_eq cmp k -> (height t <= fuel)%nat ->
  wp (reaches fuel cmp n (rt t)) (fun b s => s = mkTree r h l /\
    (b = true -> exists k' c a b', plug k' (Node c a n b') = plug k t /\ on_way_eq cmp k')) (mkTree r h l).
Proof.
  revert k t. induction fuel as [|fuel IH]; intros k t Hrep Hw Hf; destruct t as [|c a i b]; simpl in Hf; try lia; cbn [reaches rt]; try (by apply wp_ret).
  destruct (Z.eqb_spec i n) as [->|Hi]; [apply wp_ret; split; [done|]; intros _; by exists k, c, a, b|].
  change (Node c a i b) with (nd true c a i b) in Hrep. wp_step. eapply wp_rd; [apply (rep_lookup _ _ _ _ _ _ _ _ Hrep)|]. cbn [mkd left right].
  destruct (Z.ltb_spec (cmp i) 0).
  - apply rep_in in Hrep. apply (IH _ a Hrep); [by constructor|lia].
  - apply (rep_in_other true) in Hrep. apply (IH _ b Hrep); [by constructor|lia].
Qed.

(** The rightmost node of a subtree. *)
Lemma wp_rightmost fuel h0 k b r h l : rep h0 k b r h -> b <> Leaf -> (height b <= fuel)%nat ->
  wp (rightmost fuel (rt b)) (fun p st => st = mkTree r h l /\ exists i y, p = Some y /\ inorder b = i ++ [y]) (mkTree r h l).
Proof.
  revert k b. induction fuel as [|fuel IH]; intros k b Hrep Hb Hf; destruct b as [|e b1 y b2]; try done; simpl in Hf; [lia|].
  change (Node e b1 y b2) with (nd true e b1 y b2) in Hrep.
  cbn [rightmost rt]. wp_step. eapply wp_rd; [apply (rep_lookup _ _ _ _ _ _ _ _ Hrep)|]. cbn [mkd right]. destruct b2 as [|e1 b21 y1 b22].
  - apply wp_ret. split; [done|]. by exists (inorder b1), y.
  - apply (rep_in_other true) in Hrep. eapply wp_mono; [apply (IH _ _ Hrep); [done|lia]|]. intros p st (-> & i & y' & -> & Hi). split; [done|].
    exists (inorder b1 ++ y :: i), y'. split; [done|]. simpl in *. by rewrite Hi, <- app_assoc.
Qed.

Lemma predecessor_run h0 k c a n b r h l : rep h0 k (Node c a n b) r h -> (height a <= size h)%nat ->
  wp (ocf_rb_tree_predecessor (Some n)) (fun p st => st = mkTree r h l /\ (p = None /\ a = Leaf \/ exists i y, p = Some y /\ inorder a = i ++ [y])) (mkTree r h l).
Proof.
  intros Hrep Hh. change (Node c a n b) with (nd true c a n b) in Hrep. unfold ocf_rb_tree_predecessor.
  wp_step. eapply wp_rd; [apply (rep_lookup _ _ _ _ _ _ _ _ Hrep)|]. cbn [mkd left]. destruct (rt a) as [j|] eqn:Ha.
  - wp_step. apply wp_gets. unfold fuel_of. cbn [nodes]. rewrite <- Ha. apply rep_in in Hrep.
    eapply wp_mono; [apply (wp_rightmost _ _ _ _ _ _ _ Hrep); [by destruct a|lia]|]. intros p st [-> Hp]. split; [done|by right].
  - apply wp_ret. split; [done|]. left. by destruct a.
Qed.

Lemma successor_run h0 k c a n b r h l : rep h0 k (Node c a n b) r h -> (height b <= size h)%nat ->
  wp (ocf_rb_tree_successor (Some n)) (fun p st => st = mkTree r h l /\ (p = None /\ b = Leaf \/ exists y i, p = Some y /\ inorder b = y :: i)) (mkTree r h l).
Proof.
  intros Hrep Hh. change (Node c a n b) with (nd true c a n b) in Hrep. unfold ocf_rb_tree_successor.
  wp_step. eapply wp_rd; [apply (rep_lookup _ _ _ _ _ _ _ _ Hrep)|]. cbn [mkd right]. destruct (rt b) as [j|] eqn:Hb.
  - wp_step. apply wp_gets. unfold fuel_of. cbn [nodes]. rewrite <- Hb. apply (rep_in_other true) in Hrep.
    eapply wp_mono; [apply (wp_leftmost _ _ _ _ _ _ _ Hrep); [by destruct b|lia]|]. intros p st (-> & kl & e & y & f & -> & -> & Hkl). split; [done|].
    right. exists y, (inorder f ++ kright kl). split; [done|]. rewrite inorder_plug, Hkl. done.
  - apply wp_ret. split; [done|]. left. by destruct b.
Qed.

(** In an order, the last before is the largest, the first behind the smallest. *)
Lemma mono_last cmp i y : mono cmp (i ++ [y]) -> 0 < cmp y -> Forall (fun j => 0 < cmp j) (i ++ [y]).
Proof.
  intros (_ & _ & Hi)%mono_app Hy. apply Forall_app. split; [|by constructor]. apply Forall_forall. intros j Hj. apply (Hi j y); [done|by left|lia].
Qed.
Lemma mono_first cmp y i : mono cmp (y :: i) -> cmp y < 0 -> Forall (fun j => cmp j < 0) (y :: i).
Proof.
  intros [_ Hi]%StronglySorted_inv Hy. constructor; [done|]. eapply Forall_impl; [exact Hi|]. intros j Hj. simpl in Hj. lia.
Qed.

(** The promise of [can_update]: the group of the node is the node alone, and the
    new key fits between the heads around it; only when it is smaller than the
    node's it may equal one before. *)
Definition fits (cmp : Z -> Z) (n : Z) (gs : list group) : Prop := exists gs1 gs2, gs = gs1 ++ (n, []) :: gs2 /\
  (mono cmp (heads gs) -> Forall (fun h => 0 <= cmp h) (heads gs1) /\ (0 <= cmp n -> Forall (fun h => 0 < cmp h) (heads gs1)) /\ Forall (fun h => cmp h < 0) (heads gs2)).

Lemma fits_intro cmp n gs k c a b : heads gs = inorder (plug k (Node c a n b)) -> (forall ms, (n, ms) ∈ gs -> ms = []) -> on_way_eq cmp k ->
  (mono cmp (inorder a) -> mono cmp (inorder b) -> (cmp n < 0 -> Forall (fun i => 0 < cmp i) (inorder a)) /\ (0 < cmp n -> Forall (fun i => cmp i < 0) (inorder b))) -> fits cmp n gs.
Proof.
  intros Hh Hg Hw Hab. assert (heads gs = (kleft k ++ inorder a) ++ n :: (inorder b ++ kright k)) as He by (rewrite Hh, inorder_plug; simpl; by rewrite <- !app_assoc).
  destruct (heads_split _ _ _ _ He) as (gs1 & ms & gs2 & Heq & H1 & H2). assert (ms = []) as -> by (apply Hg; rewrite Heq; apply elem_of_app; right; by left).
  exists gs1, gs2. split; [done|]. intros Hm.
  rewrite Hh in Hm. destruct (way_eq_sides _ _ _ Hm Hw) as [Hl Hr]. rewrite <- Hh, He in Hm. pose proof Hm as (Hm1 & Hm2 & Hm3)%mono_app.
  apply StronglySorted_inv in Hm2 as [Hm2 Hn]. apply mono_app in Hm1 as (_ & Ha & _). apply mono_app in Hm2 as (Hb & _ & _).
  destruct (Hab Ha Hb) as [HA HB]. rewrite H1, H2. split_and!.
  - apply Forall_app. split; [done|]. destruct (decide (cmp n < 0)) as [Hc|Hc].
    + eapply Forall_impl; [by apply HA|]. simpl. lia.
    + apply Forall_forall. intros j Hj. enough (0 < cmp j) by lia. apply (Hm3 j n); [set_solver|by left|lia].
  - intros Hc. apply Forall_forall. intros j Hj. apply (Hm3 j n); [done|by left|lia].
  - apply Forall_app. split; [|done]. destruct (decide (0 < cmp n)) as [Hc|Hc]; [by apply HB|].
    rewrite Forall_app in Hn. destruct Hn as [Hn _]. eapply Forall_impl; [exact Hn|]. intros j Hj. simpl in Hj. lia.
Qed.

Lemma can_update_run s gs cmp n : rb_tree s gs -> n ∈ elems gs ->
  wp (ocf_rb_tree_can_update cmp n) (fun b s' => s' = s /\ (b = true -> fits cmp n gs)) s.
Proof.
  intros Hs Hn. destruct (elem_ring _ _ _ Hs Hn) as (ms & Hr). pose proof Hs as ((t & Hrep & _ & Hin) & Hnd & _).
  pose proof (height_length t) as Hht. pose proof (rep_size _ _ _ _ _ Hrep) as Hsz. simpl in Hsz.
  destruct s as [r h l]. cbn [root nodes lists] in *. pose proof Hrep as (_ & Hroot & _). simpl in Hroot. subst r.
  unfold ocf_rb_tree_can_update. wp_step. unfold on_lists. apply wp_zoom. cbn [lists]. eexists _, _. split; [apply (list_empty_run _ _ _ Hr)|].
  cbn [root nodes]. case_bool_decide as He; cbn [negb]; [|by apply wp_ret].
  assert (forall ms, (n, ms) ∈ gs -> ms = []) as Hms.
  { intros ms' Hg%(tree_ring _ _ _ _ Hs)%list_empty_run. pose proof (list_empty_run _ _ _ Hr) as Hr'. cbn [lists] in Hg. rewrite Hr', bool_decide_true in Hg by done.
    injection Hg as Hg. symmetry in Hg. by apply bool_decide_eq_true in Hg. }
  wp_step. apply wp_gets. wp_step. apply wp_gets. unfold fuel_of. cbn [root nodes]. wp_step.
  eapply wp_mono; [apply (wp_reaches h _ cmp n [] t); [exact Hrep|by constructor|lia]|]. intros b s [-> Hb].
  destruct b; cbn [negb]; [|by apply wp_ret]. destruct (Hb eq_refl) as (k & c & a & b & Ht & Hw). simpl in Ht.
  assert (height a <= size h /\ height b <= size h)%nat as [Ha1 Hb1].
  { pose proof (height_length a). pose proof (height_length b). rewrite <- Ht in Hsz. rewrite (Permutation_length (inorder_plug_perm _ _)), !length_app in Hsz. simpl in Hsz. rewrite length_app in Hsz. simpl in Hsz. lia. }
  assert (heads gs = inorder (plug k (Node c a n b))) as Hh by (by rewrite Ht). rewrite <- Ht in Hrep at 1. apply rep_plug in Hrep.
  destruct (Z.ltb_spec (cmp n) 0) as [Hc|Hc]; [|destruct (Z.ltb_spec 0 (cmp n)) as [Hc2|Hc2]].
  - wp_step. eapply wp_mono; [apply (predecessor_run _ _ _ _ _ _ _ _ _ Hrep Ha1)|]. intros p st [-> Hp]. apply wp_ret. split; [done|]. intros Hy.
    eapply fits_intro; [exact Hh|done..|]. intros Hma _. split; [intros _|lia]. destruct Hp as [[-> ->]|(i & y & -> & Hi)]; [done|].
    rewrite Hi in Hma |- *. apply mono_last; [done|lia].
  - wp_step. eapply wp_mono; [apply (successor_run _ _ _ _ _ _ _ _ _ Hrep Hb1)|]. intros p st [-> Hp]. apply wp_ret. split; [done|]. intros Hy.
    eapply fits_intro; [exact Hh|done..|]. intros _ Hmb. split; [lia|intros _]. destruct Hp as [[-> ->]|(y & i & -> & Hi)]; [done|].
    rewrite Hi in Hmb |- *. apply mono_first; [done|lia].
  - apply wp_ret. split; [done|]. intros _. eapply fits_intro; [exact Hh|done..|]. intros _ _. split; lia.
Qed.

(** ** The trees as groups *)

(** A change of a tree: a new node with the comparison of its key at that time, or
    a node that goes. *)
Inductive change := Insert (cmp : Z -> Z) (n : Z) | Remove (n : Z).

Definition apply_change (o : change) : M ocf_rb_tree unit :=
  match o with Insert cmp n => ocf_rb_tree_insert cmp n | Remove n => ocf_rb_tree_remove n end.
Definition change_groups (gs : list group) (o : change) : list group :=
  match o with Insert cmp n => ins cmp n gs | Remove n => del n gs end.
(** A new node is not in the tree and its key is compared in order; a node that
    goes is in the tree. *)
Definition change_ok (gs : list group) (o : change) : Prop :=
  match o with Insert cmp n => mono cmp (heads gs) /\ n ∉ elems gs | Remove n => n ∈ elems gs end.
Fixpoint changes_ok (gs : list group) (os : list change) : Prop :=
  match os with [] => True | o :: os => change_ok gs o /\ changes_ok (change_groups gs o) os end.
Definition allocated_nodes (s : ocf_rb_tree) (os : list change) : Prop :=
  forall cmp n, Insert cmp n ∈ os -> is_Some (nodes s !! n) /\ is_Some (lists s !! n).
Definition apply_changes (os : list change) : M ocf_rb_tree unit := foldr (fun o m => apply_change o;; m) (mret tt) os.

Lemma apply_change_run s gs o : rb_tree s gs -> change_ok gs o -> allocated_nodes s [o] ->
  wp (apply_change o) (fun _ s' => rb_tree s' (change_groups gs o) /\ same_dom s s') s.
Proof.
  intros Hs Ho Ha. apply wp_stays; [destruct o; [apply insert_stays|apply remove_stays]|]. destruct o as [cmp n|n]; simpl in *.
  - destruct Ho, (Ha cmp n ltac:(by left)). by apply rb_insert_run.
  - by apply remove_run.
Qed.

Lemma apply_changes_run os s gs : rb_tree s gs -> changes_ok gs os -> allocated_nodes s os ->
  wp (apply_changes os) (fun _ s' => rb_tree s' (foldl change_groups gs os)) s.
Proof.
  revert s gs. induction os as [|o os IH]; intros s gs Hs Ho Ha; [by apply wp_ret|]. destruct Ho as [Ho Hos]. simpl. wp_step.
  eapply wp_mono; [apply (apply_change_run s gs o Hs Ho)|].
  - intros cmp n Hn. apply (Ha cmp n). apply list_elem_of_singleton in Hn as ->. by left.
  - intros [] s' (Hs' & Hd1 & Hd2). apply IH; [done|done|]. intros cmp n Hn. rewrite <- !elem_of_dom, Hd1, Hd2, !elem_of_dom. apply (Ha cmp n). by right.
Qed.

(** C7: Whatever is inserted and removed, each time in the order of the keys at
    that time, the operations of the red-black tree end without a stop, rebalancing
    included; the memory then holds a red-black tree of the groups that insertion
    and removal in sorted lists of groups give, and a search answers the head of
    the group that compares equal, or NULL when there is none. *)
Theorem rb_tree_refines os s gs : rb_tree s gs -> changes_ok gs os -> allocated_nodes s os ->
  exists s', apply_changes os s = Some (tt, s') /\ rb_tree s' (foldl change_groups gs os) /\
    forall cmp, mono cmp (heads (foldl change_groups gs os)) ->
      ocf_rb_tree_find ocf_rb_tree_list_find_first cmp s' = Some (fst <$> look cmp (foldl change_groups gs os), s').
Proof.
  intros Hs Ho Ha. destruct (apply_changes_run os s gs Hs Ho Ha) as ([] & s' & Hr & Hs'). exists s'. split; [done|]. split; [done|].
  intros cmp Hm. rewrite (find_run _ _ _ _ Hs' Hm). destruct (look cmp _) as [[h [|x ms]]|]; [done| |done]. by destruct s'.
Qed.

(** In a tree of [n] groups a search ends after at most 2 log2 (n + 1) rounds,
    and with no more its answer is the group that compares equal. *)
Theorem rb_find_depth s gs cmp : rb_tree s gs -> mono cmp (heads gs) ->
  find_loop (2 * Nat.log2 (S (length gs))) cmp (root s) s = Some (fst <$> look cmp gs, s).
Proof. intros Hs Hm. apply tree_find; [done|done|by left]. Qed.

(** Nodes without data, five of them, and the keys of a witness. *)
Definition five_nodes : ocf_rb_tree :=
  mkTree None (list_to_map ((fun i => (i, mkNode true None None None)) <$> seqZ 0 5)) (list_to_map ((fun i => (i, mkHead 0 0)) <$> seqZ 0 5)).
Definition key_changes (k : Z -> Z) : list change :=
  (fun i => Insert (fun j => Z.sgn (k i - k j)) i) <$> [0; 1; 2; 3; 4].
Definition some_changes : list change := key_changes (fun i => if i =? 4 then 1 else i) ++ [Remove 1].

Lemma rb_tree_blank s : root s = None -> rb_tree s [].
Proof.
  intros Hr. split; [exists Leaf; rewrite Hr|split; [constructor|split; constructor]]. split; [|split; [|done]].
  - split; [split; [constructor|done]|done].
  - split; [done|]. by exists 0%nat.
Qed.

Lemma some_changes_ok : changes_ok [] some_changes.
Proof.
  simpl. unfold mono. split_and!; try done; try (rewrite ?not_elem_of_cons, ?elem_of_cons; set_solver);
    repeat (apply SSorted_cons || apply SSorted_nil || apply List.Forall_cons || apply List.Forall_nil); vm_compute; congruence.
Qed.

Lemma some_changes_allocated : allocated_nodes five_nodes some_changes.
Proof.
  intros cmp n Hn. unfold some_changes, key_changes in Hn. simpl in Hn. rewrite !elem_of_cons, elem_of_nil in Hn.
  destruct_or! Hn; try done; injection Hn as _ ->; split; by eexists.
Qed.

Lemma rb_tree_refines_witness : exists s', apply_changes some_changes five_nodes = Some (tt, s') /\ rb_tree s' (foldl change_groups [] some_changes) /\
  forall cmp, mono cmp (heads (foldl change_groups [] some_changes)) ->
    ocf_rb_tree_find ocf_rb_tree_list_find_first cmp s' = Some (fst <$> look cmp (foldl change_groups [] some_changes), s').
Proof.
  apply rb_tree_refines.
  - by apply rb_tree_blank.
  - apply some_changes_ok.
  - apply some_changes_allocated.
Defined.

(** The groups of the witness as they are, in a tree of four. *)
Lemma some_changes_groups : foldl change_groups [] some_changes = [(0, []); (4, []); (2, []); (3, [])].
Proof. reflexivity. Qed.

Lemma rb_find_depth_witness : exists s, find_loop 4 (fun j => Z.sgn (2 - (if j =? 4 then 1 else j))) (root s) s = Some (Some 2, s).
Proof.
  destruct (apply_changes_run some_changes five_nodes []) as ([] & s & _ & Hs).
  - by apply rb_tree_blank.
  - apply some_changes_ok.
  - apply some_changes_allocated.
  - exists s. rewrite some_changes_groups in Hs. refine (rb_find_depth s _ _ Hs _).
    repeat (apply SSorted_cons || apply SSorted_nil || apply List.Forall_cons || apply List.Forall_nil); vm_compute; congruence.
Defined.

(** [can_update] allows a key that equals an ancestor's when the key decreases:
    three groups with the keys 0, 1, 2 and the node 2 to get the key 1. *)
Theorem can_update_equal : exists s, apply_changes ((fun i => Insert (fun j => Z.sgn (i - j)) i) <$> [0; 1; 2]) five_nodes = Some (tt, s) /\
  fst <$> ocf_rb_tree_can_update (fun j => Z.sgn (1 - j)) 2 s = Some true.
Proof. eexists. split; reflexivity. Qed.
