(* ===== verification/SeqCutoff.v ===== *)
(** Sequential cutoff: ocf/src/ocf_seq_cutoff.c.

    A [ocf_seq_cutoff] keeps the streams of requests that it has seen: a red-black
    tree finds the stream that a request continues, a list has them in the order of
    use.  There is one for every I/O queue and one for the core; a stream of a queue
    that is long enough is promoted to the core.  Every critical section of the
    code, the part under one write lock, is one definition; other threads run
    between them ([section] below).

    A stream has its index in [streams] as its address; the head of the list of
    use is [lru_head]. *)

From stdpp Require Import sorting.
From S2P Require Import Prelude Dll EnvList RbTree RbShape RbSpec RbInsert RbSwap RbRemove RbOps.

(** [rw], [valid] and [req_count] are bit-fields of 1, 1 and 16 bits. *)
Record ocf_seq_cutoff_stream := mkStream { last : Z; bytes : Z; rw : Z; valid : Z; req_count : Z }.

Record ocf_seq_cutoff := mkCutoff { tree : ocf_rb_tree; lru : gmap Z list_head; streams : gmap Z ocf_seq_cutoff_stream }.

Definition lru_head : Z := -1.
Definition SEQ_CUTOFF_FULL_MARGIN : Z := 512.
Definition OCF_SEQ_CUTOFF_PERCORE_STREAMS : nat := 128.
Definition OCF_SEQ_CUTOFF_PERQUEUE_STREAMS : nat := 64.

Definition on_tree {A} (m : M ocf_rb_tree A) : M ocf_seq_cutoff A := zoom tree (fun t c => mkCutoff t (lru c) (streams c)) m.
Definition on_lru {A} (m : M (gmap Z list_head) A) : M ocf_seq_cutoff A := zoom lru (fun l c => mkCutoff (tree c) l (streams c)) m.
Definition stream (i : Z) : M ocf_seq_cutoff ocf_seq_cutoff_stream := fun c => (fun s => (s, c)) <$> streams c !! i.
Definition set_stream (i : Z) (f : ocf_seq_cutoff_stream -> ocf_seq_cutoff_stream) : M ocf_seq_cutoff unit := fun c =>
  match streams c !! i with Some s => Some (tt, mkCutoff (tree c) (lru c) (<[i := f s]> (streams c))) | None => None end.

Definition ocf_seq_cutoff_stream_cmp (stream1 stream2 : ocf_seq_cutoff_stream) : Z :=
  if valid stream1 <? valid stream2 then -1
  else if valid stream2 <? valid stream1 then 1
  else if rw stream1 <? rw stream2 then -1
  else if rw stream2 <? rw stream1 then 1
  else if last stream1 <? last stream2 then -1
  else if last stream2 <? last stream1 then 1
  else 0.

Definition no_stream : ocf_seq_cutoff_stream := mkStream 0 0 0 0 0.
Definition stream_at (m : gmap Z ocf_seq_cutoff_stream) (i : Z) : ocf_seq_cutoff_stream := default no_stream (m !! i).

(** The comparison of [item] with the streams in the memory [m]. *)
Definition cmp_with (m : gmap Z ocf_seq_cutoff_stream) (item : ocf_seq_cutoff_stream) (i : Z) : Z :=
  ocf_seq_cutoff_stream_cmp item (stream_at m i).

(** [list_for_each_entry] does not visit [node_list] itself. *)
Definition max_stream (m : gmap Z ocf_seq_cutoff_stream) (l : list Z) : option Z :=
  foldl (fun max node => match max with
    | None => Some node
    | Some x => if bytes (stream_at m x) <? bytes (stream_at m node) then Some node else Some x
    end) None l.
Definition ocf_seq_cutoff_stream_list_find (m : gmap Z ocf_seq_cutoff_stream) (node_list : Z) : M (gmap Z list_head) ptr :=
  l ← list_for_each_entry node_list; mret (max_stream m l).

(** The calls of the tree, with the data that is in the memory at the time. *)
Definition tree_insert (i : Z) : M ocf_seq_cutoff unit :=
  m ← gets streams; on_tree (ocf_rb_tree_insert (cmp_with m (stream_at m i)) i).
Definition tree_find (item : ocf_seq_cutoff_stream) : M ocf_seq_cutoff ptr :=
  m ← gets streams; on_tree (ocf_rb_tree_find (ocf_seq_cutoff_stream_list_find m) (cmp_with m item)).
Definition tree_can_update (i : Z) (item : ocf_seq_cutoff_stream) : M ocf_seq_cutoff bool :=
  m ← gets streams; on_tree (ocf_rb_tree_can_update (cmp_with m item) i).

Definition ocf_seq_cutoff_base_init (nstreams : nat) : M ocf_seq_cutoff unit :=
  on_tree (modify ocf_rb_tree_init);;
  on_lru (INIT_LIST_HEAD lru_head);;
  for_range nstreams 0 (fun i =>
    set_stream i (fun s => mkStream (u64 (4096 * i)) 0 0 0 (req_count s));;
    tree_insert i;;
    on_lru (list_add_tail i lru_head)).

Definition ocf_core_seq_cutoff_init : M ocf_seq_cutoff unit := ocf_seq_cutoff_base_init OCF_SEQ_CUTOFF_PERCORE_STREAMS.
Definition ocf_queue_seq_cutoff_init : M ocf_seq_cutoff unit := ocf_seq_cutoff_base_init OCF_SEQ_CUTOFF_PERQUEUE_STREAMS.

(** [{ .last = addr, .rw = rw, .valid = true }] *)
Definition item_of (addr rw : Z) : ocf_seq_cutoff_stream := mkStream addr 0 (rw mod 2) 1 0.

Definition ocf_core_seq_cutoff_base_check (addr len rw threshold : Z) : M ocf_seq_cutoff (bool * option Z) :=
  node ← tree_find (item_of addr rw);
  match node with
  | None => mret (false, None)
  | Some i => s ← stream i; mret (threshold <=? u64 (bytes s + len), Some i)
  end.

Definition ocf_core_seq_cutoff_base_update (addr len rw : Z) (insert : bool) : M ocf_seq_cutoff (option Z) :=
  node ← tree_find (item_of addr rw);
  match node with
  | Some i =>
    can_update ← tree_can_update i (item_of (u64 (addr + len)) rw);
    set_stream i (fun s => mkStream (u64 (addr + len)) (u64 (bytes s + len)) (SeqCutoff.rw s) (valid s) (u16 (req_count s + 1)));;
    (if negb can_update then on_tree (ocf_rb_tree_remove i);; tree_insert i else mret tt);;
    on_lru (list_move_tail i lru_head);;
    mret (Some i)
  | None =>
    if insert then
      i ← on_lru (list_first_entry lru_head);
      on_tree (ocf_rb_tree_remove i);;
      set_stream i (fun _ => mkStream (u64 (addr + len)) len (rw mod 2) 1 1);;
      tree_insert i;;
      on_lru (list_move_tail i lru_head);;
      mret (Some i)
    else mret None
  end.

(** The sequential cutoffs of the core and of its queues. *)
Record cutoffs := mkCutoffs { core : ocf_seq_cutoff; queues : gmap Z ocf_seq_cutoff }.

Definition on_core {A} (m : M ocf_seq_cutoff A) : M cutoffs A := zoom core (fun c s => mkCutoffs c (queues s)) m.
Definition on_queue {A} (q : Z) (m : M ocf_seq_cutoff A) : M cutoffs A := fun s =>
  match queues s !! q with
  | Some c => match m c with Some (a, c') => Some (a, mkCutoffs (core s) (<[q := c']> (queues s))) | None => None end
  | None => None
  end.

Definition ocf_core_seq_cutoff_base_promote (q src_stream : Z) : M cutoffs unit :=
  dst_stream ← on_core (on_lru (list_first_entry lru_head));
  on_core (on_tree (ocf_rb_tree_remove dst_stream));;
  src ← on_queue q (stream src_stream);
  on_core (set_stream dst_stream (fun _ => mkStream (last src) (bytes src) (rw src) 1 (req_count src)));;
  on_core (tree_insert dst_stream);;
  on_core (on_lru (list_move_tail dst_stream lru_head));;
  on_queue q (set_stream src_stream (fun s => mkStream (last s) (bytes s) (rw s) 0 (req_count s)));;
  on_queue q (on_lru (list_move src_stream lru_head)).

Inductive ocf_seq_cutoff_policy := policy_always | policy_full | policy_never | policy_invalid.

(** The settings of the core; the state of the cache that [ocf_seq_cutoff_is_on]
    asks for: whether its device is attached, and the length of the free list. *)
Record config := mkConfig { policy : ocf_seq_cutoff_policy; threshold : Z; promotion_count : Z; attached : bool; num_free : Z }.
Record ocf_request := mkReq { io_queue : Z; byte_position : Z; byte_length : Z; req_rw : Z; core_line_count : Z; seq_cutoff_core : bool }.

Definition ocf_seq_cutoff_is_on (cfg : config) (req : ocf_request) : bool :=
  if negb (attached cfg) then false
  else num_free cfg <=? u32 (SEQ_CUTOFF_FULL_MARGIN + core_line_count req).

(** The result and the request's [seq_cutoff_core]. *)
Definition ocf_core_seq_cutoff_check (cfg : config) (req : ocf_request) : M cutoffs (bool * bool) :=
  let look_up :=
    '(result, queue_stream) ← on_queue (io_queue req)
      (ocf_core_seq_cutoff_base_check (byte_position req) (byte_length req) (req_rw req) (threshold cfg));
    match queue_stream with
    | Some _ => mret (result, seq_cutoff_core req)
    | None =>
      '(result, core_stream) ← on_core
        (ocf_core_seq_cutoff_base_check (byte_position req) (byte_length req) (req_rw req) (threshold cfg));
      mret (result, match core_stream with Some _ => true | None => seq_cutoff_core req end)
    end in
  match policy cfg with
  | policy_always => look_up
  | policy_full => if ocf_seq_cutoff_is_on cfg req then look_up else mret (false, seq_cutoff_core req)
  | policy_never | policy_invalid => mret (false, seq_cutoff_core req)
  end.

Definition ocf_core_seq_cutoff_update (cfg : config) (req : ocf_request) : M cutoffs unit :=
  match policy cfg with
  | policy_never => mret tt
  | _ =>
    let promote := (threshold cfg <=? byte_length req) || (promotion_count cfg =? 1) in
    stream_ ← (if seq_cutoff_core req || promote then
                 on_core (ocf_core_seq_cutoff_base_update (byte_position req) (byte_length req) (req_rw req) promote)
               else mret None);
    match stream_ with
    | Some _ => mret tt
    | None =>
      stream_ ← on_queue (io_queue req) (ocf_core_seq_cutoff_base_update (byte_position req) (byte_length req) (req_rw req) true);
      match stream_ with
      | None => bug
      | Some i =>
        s ← on_queue (io_queue req) (stream i);
        if promote || (threshold cfg <=? bytes s) || (promotion_count cfg <=? req_count s)
        then ocf_core_seq_cutoff_base_promote (io_queue req) i
        else mret tt
      end
    end
  end.

(** [last], [bytes], [rw] and [active] of the core's streams in the order of use. *)
Definition ocf_dbg_get_seq_cutoff_status (threshold : Z) : M ocf_seq_cutoff (list (Z * Z * Z * bool)) :=
  l ← on_lru (list_for_each_entry lru_head);
  m ← gets streams;
  mret ((fun i => let s := stream_at m i in (last s, bytes s, rw s, threshold <=? bytes s)) <$> l).
