(* ===== verification/SeqOrder.v ===== *)
(** The order of the streams of SeqCutoff in their tree: the comparison of two
    streams as that of two numbers, groups in order, and what inserting, removing
    and changing a stream do to the order. *)

From stdpp Require Import sorting.
From S2P Require Import Prelude Dll EnvList RbTree RbShape RbSpec RbInsert RbSwap RbRemove RbOps SeqCutoff.

Abbreviation data := (gmap Z ocf_seq_cutoff_stream).

(** The fields at their widths. *)
Definition stream_wf (s : ocf_seq_cutoff_stream) : Prop := 0 <= last s < 2 ^ 64 /\ 0 <= rw s <= 1 /\ 0 <= valid s <= 1.
Definition data_wf (m : data) : Prop := map_Forall (fun _ => stream_wf) m.

(** The fields that are compared, as one number. *)
Definition key (s : ocf_seq_cutoff_stream) : Z := (valid s * 2 + rw s) * 2 ^ 64 + last s.
Definition key_at (m : data) (i : Z) : Z := key (stream_at m i).

Lemma cmp_key s t : stream_wf s -> stream_wf t -> ocf_seq_cutoff_stream_cmp s t = Z.sgn (key s - key t).
Proof.
  unfold stream_wf, ocf_seq_cutoff_stream_cmp, key. intros Hs Ht. repeat (case_match; [lia|]). lia.
Qed.

Lemma key_inj s t : stream_wf s -> stream_wf t -> key s = key t -> last s = last t /\ rw s = rw t /\ valid s = valid t.
Proof. unfold stream_wf, key. lia. Qed.

Lemma stream_at_wf m i : data_wf m -> stream_wf (stream_at m i).
Proof.
  intros Hm. unfold stream_at. destruct (m !! i) eqn:E; simpl; [by apply (Hm i)|]. unfold stream_wf. simpl. lia.
Qed.

Lemma stream_at_insert m i s : stream_at (<[i := s]> m) i = s.
Proof. unfold stream_at. by rewrite lookup_insert_eq. Qed.
Lemma stream_at_insert_ne m i j s : i <> j -> stream_at (<[i := s]> m) j = stream_at m j.
Proof. intros. unfold stream_at. by rewrite lookup_insert_ne. Qed.
Lemma key_at_ne m i j s : j <> i -> key_at (<[i := s]> m) j = key_at m j.
Proof. intros. unfold key_at. by rewrite stream_at_insert_ne. Qed.
Lemma key_at_eq m i s : key_at (<[i := s]> m) i = key s.
Proof. unfold key_at. by rewrite stream_at_insert. Qed.

Lemma data_wf_insert m i s : data_wf m -> stream_wf s -> data_wf (<[i := s]> m).
Proof. intros Hm Hs. by apply map_Forall_insert_2. Qed.

Lemma item_wf addr r : 0 <= addr < 2 ^ 64 -> stream_wf (item_of addr r).
Proof. intros Ha. unfold stream_wf, item_of. simpl. pose proof (Z.mod_pos_bound r 2). lia. Qed.

(** ** Groups in order *)

Definition before (m : data) (a b : Z) : Prop := key_at m a < key_at m b.
Definition alike (m : data) (g : group) : Prop := Forall (fun x => key_at m x = key_at m (fst g)) (snd g).
Definition ordered (m : data) (gs : list group) : Prop := StronglySorted (before m) (heads gs) /\ Forall (alike m) gs.

Lemma cmp_sign m item i : data_wf m -> stream_wf item -> cmp_with m item i = Z.sgn (key item - key_at m i).
Proof. intros Hm Hi. apply cmp_key; [done|by apply stream_at_wf]. Qed.

Lemma ordered_mono m gs item : data_wf m -> stream_wf item -> ordered m gs -> mono (cmp_with m item) (heads gs).
Proof.
  intros Hm Hi [Hs _]. unfold mono. induction Hs as [|x l _ IH Hx]; constructor; [done|].
  eapply Forall_impl; [exact Hx|]. intros y Hy. unfold before in Hy. rewrite !cmp_sign by done. lia.
Qed.

Lemma strongly_sorted_app {A} (R : A -> A -> Prop) l1 l2 : StronglySorted R (l1 ++ l2) <-> StronglySorted R l1 /\ StronglySorted R l2 /\ forall a b, a ∈ l1 -> b ∈ l2 -> R a b.
Proof.
  induction l1 as [|x l1 IH]; simpl.
  - split; [intros; split_and!; [constructor|done|set_solver]|tauto].
  - split.
    + intros [Hx Ha]%StronglySorted_inv. apply IH in Hx as (H1 & H2 & H3). rewrite Forall_app in Ha. destruct Ha as [Ha1 Ha2].
      split_and!; [by constructor|done|]. intros a b [->|Ha]%elem_of_cons Hb; [|eauto]. rewrite Forall_forall in Ha2. by apply Ha2.
    + intros ([Hx Ha]%StronglySorted_inv & H2 & H3). constructor.
      * apply IH. split_and!; [done|done|]. intros a b Ha' Hb. apply H3; [by right|done].
      * apply Forall_app. split; [done|]. apply Forall_forall. intros b Hb. apply H3; [by left|done].
Qed.

Lemma seq_ordered_app m gs1 gs2 : ordered m (gs1 ++ gs2) <->
  ordered m gs1 /\ ordered m gs2 /\ forall a b, a ∈ heads gs1 -> b ∈ heads gs2 -> before m a b.
Proof. unfold ordered, heads. rewrite fmap_app, strongly_sorted_app, Forall_app. tauto. Qed.

Lemma ordered_cons m h ms gs : ordered m ((h, ms) :: gs) <->
  Forall (fun x => key_at m x = key_at m h) ms /\ ordered m gs /\ Forall (before m h) (heads gs).
Proof.
  unfold ordered, heads. simpl. rewrite Forall_cons. unfold alike at 1. simpl. split.
  - intros [[H1 H2]%StronglySorted_inv H3]. tauto.
  - intros (H1 & H2 & H3). split; [constructor; tauto|tauto].
Qed.

(** The order depends on the keys of the elements only. *)
Lemma ordered_ext m m' gs : (forall i, i ∈ elems gs -> key_at m' i = key_at m i) -> ordered m gs -> ordered m' gs.
Proof.
  induction gs as [|[h ms] gs IH]; intros Hk; [intros _; split; constructor|]. rewrite !ordered_cons. rewrite elems_cons in Hk.
  intros (H1 & H2 & H3). assert (key_at m' h = key_at m h) as Hh by (apply Hk; by left). split_and!.
  - rewrite Forall_forall in *. intros x Hx. rewrite Hh, Hk by set_solver. by apply H1.
  - apply IH; [|done]. intros i Hi. apply Hk. set_solver.
  - rewrite Forall_forall in *. intros x Hx. unfold before. rewrite Hh, Hk; [by apply H3|]. apply heads_elems in Hx. set_solver.
Qed.

Lemma ordered_change m gs i s : i ∉ elems gs -> ordered m gs -> ordered (<[i := s]> m) gs.
Proof. intros Hi. apply ordered_ext. intros j Hj. apply key_at_ne. by intros ->. Qed.

Lemma ordered_place m n gs gs' : data_wf m -> ordered m gs -> placed (cmp_with m (stream_at m n)) n gs gs' -> ordered m gs'.
Proof.
  intros Hm Ho Hp. pose proof (ordered_mono m gs (stream_at m n) Hm (stream_at_wf _ _ Hm) Ho) as Hmono.
  destruct Hp as [gs1 gs2 Hs|gs1 h ms gs2 He].
  - apply seq_ordered_app in Ho as (H1 & H2 & H3). destruct (Hs Hmono) as [Hl Hr]. rewrite Forall_forall in Hl, Hr.
    apply seq_ordered_app. split; [done|]. split.
    + apply ordered_cons. split; [constructor|]. split; [done|]. apply Forall_forall. intros b Hb. specialize (Hr _ Hb).
      rewrite cmp_sign in Hr by (done || by apply stream_at_wf). unfold before. fold (key_at m n) in Hr. lia.
    + intros a b Ha [->|Hb]%elem_of_cons; [|by apply H3]. specialize (Hl _ Ha). rewrite cmp_sign in Hl by (done || by apply stream_at_wf).
      unfold before. fold (key_at m n) in Hl. simpl. lia.
  - apply seq_ordered_app in Ho as (H1 & H2 & H3). apply seq_ordered_app. split; [done|]. split; [|done].
    apply ordered_cons in H2 as (Ha & H2 & Hb). apply ordered_cons. split; [|done]. apply Forall_app. split; [done|]. constructor; [|done].
    rewrite cmp_sign in He by (done || by apply stream_at_wf). fold (key_at m n) in He. lia.
Qed.

Lemma ordered_del m n gs : n ∈ elems gs -> NoDup (elems gs) -> ordered m gs -> ordered m (del n gs).
Proof.
  intros (gs1 & h & ms & gs2 & -> & Hc)%elems_split Hnd Ho. rewrite elems_app, elems_cons in Hnd.
  apply NoDup_app in Hnd as (_ & Hd & [Hh (Hms & Hd2 & _)%NoDup_app]%NoDup_cons).
  rewrite del_app.
  2: { intros Hi. apply (Hd n Hi). destruct Hc as [->|Hc]; [by left|right; apply elem_of_app; by left]. }
  apply seq_ordered_app in Ho as (H1 & H2 & H3). apply ordered_cons in H2 as (Ha & H2 & Hb). rewrite seq_ordered_app. simpl.
  destruct Hc as [<-|Hc].
  - rewrite Z.eqb_refl. destruct ms as [|x ms]; [split; [done|]; split; [done|]; intros a b Ha' Hb'; apply H3; [done|by right]|].
    apply Forall_cons in Ha as [Hx Ha]. split; [done|]. rewrite ordered_cons. unfold before in *. split; [split_and!|].
    + eapply Forall_impl; [exact Ha|]. intros y Hy. simpl in Hy. lia.
    + done.
    + eapply Forall_impl; [exact Hb|]. intros y Hy. simpl in Hy. lia.
    + intros a b Ha' [->|Hb']%elem_of_cons; [|apply H3; [done|by right]]. simpl. rewrite Hx. apply H3; [done|by left].
  - destruct (Z.eqb_spec h n) as [->|_]; [exfalso; apply Hh, elem_of_app; by left|]. rewrite bool_decide_true by done.
    split; [done|]. split; [|done]. apply ordered_cons. split; [|done]. apply Forall_forall. intros y [_ Hy]%list_elem_of_filter.
    rewrite Forall_forall in Ha. by apply Ha.
Qed.

(** A stream whose group is it alone may get a key that [fits] and does not
    decrease, where it is. *)
Lemma ordered_fits m n item gs s : data_wf m -> stream_wf item -> ordered m gs -> fits (cmp_with m item) n gs -> NoDup (elems gs) ->
  key s = key item -> key_at m n <= key item -> ordered (<[n := s]> m) gs.
Proof.
  intros Hm Hi Ho (gs1 & gs2 & -> & Hf) Hnd Hk Hge. specialize (Hf (ordered_mono _ _ _ Hm Hi Ho)).
  rewrite cmp_sign in Hf by done. destruct Hf as (_ & Hl & Hr). specialize (Hl ltac:(lia)). rewrite Forall_forall in Hl, Hr.
  rewrite elems_app, elems_cons in Hnd. apply NoDup_app in Hnd as (_ & Hd & [Hn _]%NoDup_cons).
  assert (n ∉ elems gs1) as Hn1 by (intros Hx; apply (Hd n Hx); by left). apply seq_ordered_app in Ho as (H1 & H2 & H3). apply ordered_cons in H2 as (_ & H2 & Hb).
  assert (forall i, i ∈ elems gs1 \/ i ∈ elems gs2 -> key_at (<[n := s]> m) i = key_at m i) as Hsame by (intros i Hx; apply key_at_ne; intros ->; tauto).
  apply seq_ordered_app. split; [by apply ordered_change|]. split.
  - apply ordered_cons. split; [constructor|]. split; [by apply ordered_change|]. apply Forall_forall. intros b Hx. specialize (Hr _ Hx).
    rewrite cmp_sign in Hr by done. unfold before. rewrite key_at_eq, Hsame by (right; by apply heads_elems). lia.
  - intros a b Ha Hx. unfold before. rewrite (Hsame a) by (left; by apply heads_elems). apply elem_of_cons in Hx as [->|Hx].
    + simpl. specialize (Hl _ Ha). rewrite cmp_sign in Hl by done. rewrite key_at_eq. lia.
    + rewrite Hsame by (right; by apply heads_elems). apply H3; [done|by right].
Qed.
