(* ===== verification/SeqRun.v ===== *)
(** The critical sections of SeqCutoff: their invariants, what they do, and the
    theorems. *)

From stdpp Require Import sorting.
From S2P Require Import Prelude Dll EnvList RbTree RbShape RbSpec RbInsert RbSwap RbRemove RbOps SeqCutoff SeqOrder.

(** ** The memory of [N] streams *)

Definition has {A} (N : Z) (m : gmap Z A) : Prop := forall i, 0 <= i < N -> is_Some (m !! i).
Definition memory (N : Z) (c : ocf_seq_cutoff) : Prop := has N (nodes (tree c)) /\ has N (lists (tree c)) /\ has N (streams c).

(** The tree holds the streams [gs] in groups, the list of use is [l]; every stream
    is in both. *)
Definition holds (N : Z) (gs : list group) (l : list Z) (c : ocf_seq_cutoff) : Prop :=
  memory N c /\ rb_tree (tree c) gs /\ elems gs ≡ₚ l /\ ring (lru c) lru_head l /\ l ≡ₚ seqZ 0 N.

Lemma has_dom {A} N (m m' : gmap Z A) : dom m' = dom m -> has N m -> has N m'.
Proof. intros Hd Hm i Hi. apply elem_of_dom. rewrite Hd. by apply elem_of_dom, Hm. Qed.

Lemma memory_tree N c t : same_dom (tree c) t -> memory N c -> memory N (mkCutoff t (lru c) (streams c)).
Proof. intros [H1 H2] (M1 & M2 & M3). split; [by eapply has_dom|]. split; [by eapply has_dom|done]. Qed.

Lemma memory_stream N c i s : memory N c -> memory N (mkCutoff (tree c) (lru c) (<[i := s]> (streams c))).
Proof.
  intros (M1 & M2 & M3). split; [done|]. split; [done|]. intros j Hj. cbn [streams].
  destruct (decide (i = j)) as [->|]; [rewrite lookup_insert_eq; by eexists|rewrite lookup_insert_ne by done; by apply M3].
Qed.

Lemma wp_set_stream i f Q c s : streams c !! i = Some s -> Q tt (mkCutoff (tree c) (lru c) (<[i := f s]> (streams c))) -> wp (set_stream i f) Q c.
Proof. intros Hs HQ. eexists _, _. unfold set_stream. by rewrite Hs. Qed.
Lemma wp_stream i Q c s : streams c !! i = Some s -> Q s c -> wp (stream i) Q c.
Proof. intros Hs HQ. eexists _, _. unfold stream. by rewrite Hs. Qed.

Lemma tree_insert_run N c gs i : memory N c -> 0 <= i < N -> rb_tree (tree c) gs -> i ∉ elems gs ->
  wp (tree_insert i) (fun _ c' => exists t gs', c' = mkCutoff t (lru c) (streams c) /\ memory N c' /\ rb_tree t gs' /\
    placed (cmp_with (streams c) (stream_at (streams c) i)) i gs gs') c.
Proof.
  intros Hm Hi Ht Hn. unfold tree_insert. wp_step. apply wp_gets. apply wp_zoom.
  eapply wp_mono; [apply wp_stays; [apply insert_stays|apply insert_place; [exact Ht|exact Hn|by apply Hm..]]|].
  intros [] t [(gs' & Hp & Ht') Hd]. exists t, gs'. split; [done|]. split; [by apply memory_tree|done].
Qed.

Lemma tree_remove_run N c gs i : memory N c -> rb_tree (tree c) gs -> i ∈ elems gs ->
  wp (on_tree (ocf_rb_tree_remove i)) (fun _ c' => exists t, c' = mkCutoff t (lru c) (streams c) /\ memory N c' /\ rb_tree t (del i gs)) c.
Proof.
  intros Hm Ht Hi. apply wp_zoom. eapply wp_mono; [apply wp_stays; [apply remove_stays|by apply remove_run]|].
  intros [] t [Ht' Hd]. exists t. split; [done|]. split; [by apply memory_tree|done].
Qed.

Lemma del_elems n gs : n ∈ elems gs -> NoDup (elems gs) -> elems gs ≡ₚ n :: elems (del n gs).
Proof.
  intros (gs1 & h & ms & gs2 & -> & Hc)%elems_split Hnd. rewrite elems_app, elems_cons in Hnd.
  apply NoDup_app in Hnd as (_ & Hd & [Hh (Hms & Hd2 & _)%NoDup_app]%NoDup_cons). rewrite del_app.
  2: { intros Hi. apply (Hd n Hi). destruct Hc as [->|Hc]; [by left|right; apply elem_of_app; by left]. }
  simpl. destruct Hc as [<-|Hc].
  - rewrite Z.eqb_refl. destruct ms as [|x ms]; rewrite !elems_app, ?elems_cons; solve_Permutation.
  - destruct (Z.eqb_spec h n) as [->|_]; [exfalso; apply Hh, elem_of_app; by left|]. rewrite bool_decide_true by done.
    apply list_elem_of_split in Hc as (m1 & m2 & ->). rewrite without_mid by done. rewrite !elems_app, !elems_cons. solve_Permutation.
Qed.

(** The list of use after a stream was used. *)
Definition used (i : Z) (l : list Z) : list Z := without i l ++ [i].

Lemma move_tail_run l i c : ring (lru c) lru_head l -> i ∈ l ->
  wp (on_lru (list_move_tail i lru_head)) (fun _ c' => exists r, c' = mkCutoff (tree c) r (streams c) /\ ring r lru_head (used i l)) c.
Proof.
  intros Hr (l1 & l2 & ->)%list_elem_of_split. apply wp_zoom. eapply wp_mono; [by apply list_move_tail_run|].
  intros [] r [Hr' _]. exists r. split; [done|]. unfold used. rewrite without_mid, <- app_assoc; [done|]. destruct Hr as [[_ Hn]%NoDup_cons _]. done.
Qed.

Lemma used_perm i l : NoDup l -> i ∈ l -> used i l ≡ₚ l.
Proof. intros Hn (l1 & l2 & ->)%list_elem_of_split. unfold used. rewrite without_mid by done. solve_Permutation. Qed.

(** The common steps of taking a stream out of the tree, changing it, putting it
    back and marking it as used. *)
Lemma replace_run {A} N c gs l i f (k : M ocf_seq_cutoff A) Q : holds N gs l c -> 0 <= i < N ->
  (forall c' gs', holds N gs' (used i l) c' -> streams c' = <[i := f (stream_at (streams c) i)]> (streams c) ->
    placed (cmp_with (streams c') (stream_at (streams c') i)) i (del i gs) gs' -> wp k Q c') ->
  wp (on_tree (ocf_rb_tree_remove i);; set_stream i f;; tree_insert i;; on_lru (list_move_tail i lru_head);; k) Q c.
Proof.
  intros (Hm & Ht & He & Hr & Hl) Hi Hk. assert (i ∈ l) as Hil by (rewrite Hl; apply elem_of_seqZ; lia).
  assert (i ∈ elems gs) as Hie by (by rewrite He). assert (NoDup l) as Hnl by (rewrite Hl; apply NoDup_seqZ).
  assert (NoDup (elems gs)) as Hne by (by rewrite He). pose proof (del_elems _ _ Hie Hne) as Hdel.
  wp_step. eapply wp_mono; [by apply (tree_remove_run N)|]. intros [] c1 (t1 & -> & Hm1 & Ht1). cbn beta.
  wp_step. destruct (proj2 (proj2 Hm) i Hi) as [s Hs]. eapply wp_set_stream; [exact Hs|]. cbn [tree lru streams] in *.
  assert (stream_at (streams c) i = s) as Hat by (unfold stream_at; by rewrite Hs). rewrite Hat in Hk.
  apply (memory_stream _ _ i (f s)) in Hm1. cbn [tree lru streams] in Hm1. rewrite Hdel in Hne. apply NoDup_cons in Hne as [Hn _].
  wp_step. eapply wp_mono; [by eapply (tree_insert_run N)|]. intros [] c2 (t2 & gs' & -> & Hm2 & Ht2 & Hp). cbn [tree lru streams] in *.
  wp_step. eapply wp_mono; [apply (move_tail_run l); [exact Hr|done]|]. intros [] c3 (r & -> & Hr3). cbn [tree lru streams] in *. apply (Hk _ gs'); [|done|done].
  split; [exact Hm2|]. cbn [tree lru streams]. split; [done|]. split; [|split; [done|by rewrite used_perm]].
  rewrite used_perm by done. rewrite (placed_elems _ _ _ _ Hp), <- Hdel. done.
Qed.

(** ** Searching *)

Lemma max_stream_spec m l : l <> [] -> exists x, max_stream m l = Some x /\ x ∈ l /\ forall y, y ∈ l -> bytes (stream_at m y) <= bytes (stream_at m x).
Proof.
  induction l as [|y l IH] using rev_ind; [done|]. intros _. unfold max_stream. rewrite foldl_snoc. fold (max_stream m l). destruct l as [|z l].
  - exists y. split; [done|]. split; [set_solver|]. intros y' ->%list_elem_of_singleton. lia.
  - destruct (IH ltac:(done)) as (x & -> & Hx & Hmax). destruct (Z.ltb_spec (bytes (stream_at m x)) (bytes (stream_at m y))).
    + exists y. split; [done|]. split; [set_solver|]. intros w [Hw%Hmax| ->%list_elem_of_singleton]%elem_of_app; lia.
    + exists x. split; [done|]. split; [set_solver|]. intros w [Hw%Hmax| ->%list_elem_of_singleton]%elem_of_app; lia.
Qed.

Lemma list_find_run m t gs h ms : rb_tree t gs -> (h, ms) ∈ gs -> ocf_seq_cutoff_stream_list_find m h (lists t) = Some (max_stream m ms, lists t).
Proof.
  intros Ht Hg. unfold ocf_seq_cutoff_stream_list_find. by rewrite bind_run, (list_for_each_entry_run _ _ _ (tree_ring _ _ _ _ Ht Hg)).
Qed.

Section found.
Context {N : Z} {gs : list group} {l : list Z} {c : ocf_seq_cutoff} (Hc : holds N gs l c).

Lemma elems_slots i : i ∈ elems gs <-> 0 <= i < N.
Proof. destruct Hc as (_ & _ & He & _ & Hl). rewrite He, Hl, elem_of_seqZ. lia. Qed.

(** In any tree a search ends, and finds nothing but streams. *)
Lemma tree_find_any item : wp (tree_find item) (fun p c' => c' = c /\ forall i, p = Some i -> 0 <= i < N) c.
Proof.
  pose proof Hc as (_ & Ht & _). unfold tree_find. wp_step. apply wp_gets. apply wp_zoom.
  eapply wp_mono; [eapply find_any; [exact Ht|]|].
  - intros h ms Hg Hms. destruct (max_stream_spec (streams c) ms Hms) as (x & Hx & Hin & _). exists x. by rewrite (list_find_run _ _ _ _ _ Ht Hg), Hx.
  - intros p t [-> Hp]. split; [by destruct c|]. intros i Hi. by apply elems_slots, Hp.
Qed.

Context (Hwf : data_wf (streams c)) (Ho : ordered (streams c) gs).

Lemma ordered_group h ms j : (h, ms) ∈ gs -> j ∈ elems gs -> key_at (streams c) j = key_at (streams c) h -> j ∈ h :: ms.
Proof.
  intros (gs1 & gs2 & ->)%list_elem_of_split Hj Hk. apply seq_ordered_app in Ho as (H1 & H2 & H3). apply ordered_cons in H2 as (_ & H2 & Hb).
  rewrite Forall_forall in Hb. unfold before in *.
  assert (forall gs', ordered (streams c) gs' -> j ∈ elems gs' -> exists h', h' ∈ heads gs' /\ key_at (streams c) h' = key_at (streams c) j) as Hhead.
  { intros gs' [_ Ha] ([h' ms'] & [->|Hx]%elem_of_cons & Hg)%list_elem_of_bind; exists h'; (split; [by apply (list_elem_of_fmap_2 fst _ (h', ms'))|]); [done|].
    rewrite Forall_forall in Ha. specialize (Ha _ Hg). unfold alike in Ha. rewrite Forall_forall in Ha. symmetry. by apply Ha. }
  rewrite elems_app, elem_of_app, elems_cons, app_comm_cons, elem_of_app in Hj. destruct Hj as [Hj|[Hj|Hj]]; [|done|].
  - destruct (Hhead _ H1 Hj) as (h' & Hh' & Hk'). specialize (H3 h' h Hh' ltac:(by left)). lia.
  - destruct (Hhead _ H2 Hj) as (h' & Hh' & Hk'). specialize (Hb h' Hh'). lia.
Qed.

(** What a search in an ordered tree answers: a stream with the key, if there is
    one; and among the streams with the key all but one, the head of the group,
    have no more bytes. *)
Definition answers (item : ocf_seq_cutoff_stream) (p : option Z) : Prop :=
  match p with
  | None => forall j, 0 <= j < N -> key_at (streams c) j <> key item
  | Some i => 0 <= i < N /\ key_at (streams c) i = key item /\
    exists h, forall j, 0 <= j < N -> key_at (streams c) j = key item -> j <> h -> bytes (stream_at (streams c) j) <= bytes (stream_at (streams c) i)
  end.

Lemma tree_find_ordered item : stream_wf item -> wp (tree_find item) (fun p c' => c' = c /\ answers item p) c.
Proof.
  intros Hi. pose proof Hc as (_ & Ht & _). unfold tree_find. wp_step. apply wp_gets. apply wp_zoom.
  pose proof (find_run (ocf_seq_cutoff_stream_list_find (streams c)) _ _ _ Ht (ordered_mono _ _ _ Hwf Hi Ho)) as Hf.
  destruct (look (cmp_with (streams c) item) gs) as [[h ms]|] eqn:Hl.
  - apply look_in in Hl as [Hg Hk]. rewrite cmp_sign in Hk by done. simpl in Hk.
    assert (forall j, 0 <= j < N -> key_at (streams c) j = key item -> j ∈ h :: ms) as Hj.
    { intros j Hj%elems_slots Hkj. apply ordered_group; [done..|lia]. }
    destruct ms as [|x ms].
    + eexists _, _. split; [exact Hf|]. split; [by destruct c|]. split; [apply elems_slots, list_elem_of_bind; exists (h, []); split; [by left|done]|]. split; [lia|].
      exists h. intros j Hj1 Hj2 Hj3. specialize (Hj _ Hj1 Hj2). set_solver.
    + destruct (max_stream_spec (streams c) (x :: ms) ltac:(done)) as (y & Hy & Hin & Hmax). unfold on_lists, zoom in Hf.
      rewrite (list_find_run _ _ _ _ _ Ht Hg), Hy in Hf. eexists _, _. split; [exact Hf|]. split; [by destruct c as [[]]|].
      split; [apply elems_slots; by eapply elems_members|]. destruct Ho as [_ Ha]. rewrite Forall_forall in Ha. specialize (Ha _ Hg).
      unfold alike in Ha. rewrite Forall_forall in Ha. simpl in Ha. split; [rewrite (Ha y Hin); lia|].
      exists h. intros j Hj1 Hj2 Hj3. apply Hmax. specialize (Hj _ Hj1 Hj2). set_solver.
  - eexists _, _. split; [exact Hf|]. split; [by destruct c|]. intros j Hj%elems_slots Hk.
    apply list_elem_of_bind in Hj as ([h ms] & Hj & Hg). assert (key_at (streams c) h = key item) as Hkh.
    { destruct Ho as [_ Ha]. rewrite Forall_forall in Ha. specialize (Ha _ Hg). unfold alike in Ha. rewrite Forall_forall in Ha.
      apply elem_of_cons in Hj as [->|Hj]; [done|]. simpl in Ha. rewrite <- (Ha _ Hj). done. }
    apply list_elem_of_In in Hg. apply (List.find_none _ _ Hl) in Hg. simpl in Hg. rewrite cmp_sign in Hg by done. lia.
Qed.
End found.

(** ** Updating *)

(** The stream continued by a request, and the new stream of a request. *)
Definition continued (addr len : Z) (s : ocf_seq_cutoff_stream) : ocf_seq_cutoff_stream :=
  mkStream (u64 (addr + len)) (u64 (bytes s + len)) (rw s) (valid s) (u16 (req_count s + 1)).
Definition fresh (addr len rw : Z) : ocf_seq_cutoff_stream := mkStream (u64 (addr + len)) len (rw mod 2) 1 1.

(** A stream that was changed is in its place, or was moved. *)
Definition regrouped (m' : data) (i : Z) (gs gs' : list group) : Prop := placed (cmp_with m' (stream_at m' i)) i (del i gs) gs'.

Lemma continue_run N gs l c i addr len rw : holds N gs l c -> 0 <= i < N ->
  wp (can_update ← tree_can_update i (item_of (u64 (addr + len)) rw);
      set_stream i (fun s => mkStream (u64 (addr + len)) (u64 (bytes s + len)) (SeqCutoff.rw s) (valid s) (u16 (req_count s + 1)));;
      (if negb can_update then on_tree (ocf_rb_tree_remove i);; tree_insert i else mret tt);;
      on_lru (list_move_tail i lru_head);;
      mret (Some i))
    (fun o c' => o = Some i /\ streams c' = <[i := continued addr len (stream_at (streams c) i)]> (streams c) /\ exists gs', holds N gs' (used i l) c' /\
       (gs' = gs /\ fits (cmp_with (streams c) (item_of (u64 (addr + len)) rw)) i gs \/ regrouped (streams c') i gs gs')) c.
Proof.
  intros Hc Hi. pose proof Hc as (Hm & Ht & He & Hr & Hl). assert (i ∈ elems gs) as Hie by (by eapply elems_slots).
  assert (i ∈ l) as Hil by (by rewrite <- He). assert (NoDup l) as Hnl by (rewrite Hl; apply NoDup_seqZ). assert (NoDup (elems gs)) as Hne by (by rewrite He).
  wp_step. unfold tree_can_update. wp_step. apply wp_gets. apply wp_zoom. eapply wp_mono; [by eapply can_update_run|]. intros b t [-> Hb].
  replace (mkCutoff (tree c) (lru c) (streams c)) with c by (by destruct c). destruct (proj2 (proj2 Hm) i Hi) as [s Hs].
  wp_step. eapply wp_set_stream; [exact Hs|]. assert (stream_at (streams c) i = s) as -> by (unfold stream_at; by rewrite Hs).
  change (mkStream _ _ _ _ _) with (continued addr len s). set (c1 := mkCutoff _ _ _).
  pose proof (memory_stream _ _ i (continued addr len s) Hm) as Hm1. fold c1 in Hm1. wp_step.
  enough (wp (if negb b then on_tree (ocf_rb_tree_remove i);; tree_insert i else mret tt) (fun _ c' => exists t gs', c' = mkCutoff t (lru c) (streams c1) /\ memory N c' /\ rb_tree t gs' /\ elems gs' ≡ₚ elems gs /\
    (gs' = gs /\ fits (cmp_with (streams c) (item_of (u64 (addr + len)) rw)) i gs \/ regrouped (streams c1) i gs gs')) c1) as Hmid.
  { eapply wp_mono; [exact Hmid|]. intros [] c2 (t & gs' & -> & Hm2 & Ht2 & Hp & Hcase). cbn beta. wp_step.
    eapply wp_mono; [apply (move_tail_run l); [exact Hr|done]|]. intros [] c3 (r & -> & Hr3). cbn [tree lru streams] in *.
    apply wp_ret. split; [done|]. split; [done|]. exists gs'. split; [|done]. split; [exact Hm2|]. cbn [tree lru streams]. split; [done|].
    split; [by rewrite Hp, used_perm|]. split; [done|by rewrite used_perm]. }
  destruct b; cbn [negb].
  - apply wp_ret. exists (tree c), gs. split; [done|]. split; [done|]. split; [done|]. split; [done|]. left. auto.
  - pose proof (del_elems _ _ Hie Hne) as Hdel. wp_step. eapply wp_mono; [by apply (tree_remove_run N)|]. intros [] c2 (t2 & -> & Hm2 & Ht2). cbn beta.
    rewrite Hdel in Hne. apply NoDup_cons in Hne as [Hn _].
    eapply wp_mono; [by eapply (tree_insert_run N)|]. intros [] c3 (t3 & gs' & -> & Hm3 & Ht3 & Hp). cbn [tree lru streams] in *.
    exists t3, gs'. split; [done|]. split; [done|]. split; [done|]. split; [by rewrite (placed_elems _ _ _ _ Hp), <- Hdel|by right].
Qed.

(** The result of an update, given what the search found. *)
Definition updated (N addr len rw : Z) (insert : bool) (found : option Z) (gs : list group) (l : list Z) (c : ocf_seq_cutoff) (o : option Z) (c' : ocf_seq_cutoff) : Prop :=
  match found with
  | Some i => o = Some i /\ streams c' = <[i := continued addr len (stream_at (streams c) i)]> (streams c) /\ exists gs', holds N gs' (used i l) c' /\
      (gs' = gs /\ fits (cmp_with (streams c) (item_of (u64 (addr + len)) rw)) i gs \/ regrouped (streams c') i gs gs')
  | None => if insert then exists i l2, l = i :: l2 /\ o = Some i /\ streams c' = <[i := fresh addr len rw]> (streams c) /\ exists gs', holds N gs' (l2 ++ [i]) c' /\ regrouped (streams c') i gs gs'
            else o = None /\ c' = c
  end.

Lemma used_first i l : NoDup (i :: l) -> used i (i :: l) = l ++ [i].
Proof. intros Hn. unfold used. f_equal. exact (without_mid i [] l Hn). Qed.

Lemma first_entry_run N gs l c : holds N gs l c -> 0 < N -> exists i l2, l = i :: l2 /\ NoDup l /\ 0 <= i < N /\ on_lru (list_first_entry lru_head) c = Some (i, c).
Proof.
  intros (_ & _ & _ & Hr & Hl) HN. destruct l as [|i l2].
  - apply Permutation_nil_l in Hl. assert (0 ∈ seqZ 0 N) as H0 by (apply elem_of_seqZ; lia). rewrite <- Hl in H0. set_solver.
  - exists i, l2. split; [done|]. split; [rewrite Hl; apply NoDup_seqZ|]. split; [assert (i ∈ seqZ 0 N) as Hi%elem_of_seqZ by (rewrite <- Hl; by left); lia|].
    unfold on_lru, zoom. rewrite (list_first_entry_run _ _ _ Hr). by destruct c.
Qed.

Lemma base_update_run N gs l c addr len rw insert F : holds N gs l c -> 0 < N ->
  wp (tree_find (item_of addr rw)) (fun p c' => c' = c /\ F p) c -> (forall i, F (Some i) -> 0 <= i < N) ->
  wp (ocf_core_seq_cutoff_base_update addr len rw insert) (fun o c' => exists found, F found /\ updated N addr len rw insert found gs l c o c') c.
Proof.
  intros Hc HN Hfind HF. unfold ocf_core_seq_cutoff_base_update. wp_step. eapply wp_mono; [exact Hfind|]. intros p c' [-> Hp]. destruct p as [i|].
  - eapply wp_mono; [apply continue_run; [exact Hc|by apply HF]|]. intros o c' Ho. by exists (Some i).
  - destruct insert; [|by apply wp_ret; exists None]. destruct (first_entry_run _ _ _ _ Hc HN) as (i & l2 & -> & Hnd & Hi & Hfirst).
    wp_step. eexists _, _. split; [exact Hfirst|]. eapply (replace_run N); [exact Hc|exact Hi|]. intros c' gs' Hc' Hs Hg. apply wp_ret.
    exists None. split; [done|]. exists i, l2. split; [done|]. split; [done|]. split; [done|]. exists gs'. split; [by rewrite <- used_first|done].
Qed.

(** ** The order of the core's tree *)

Lemma continued_wf addr len s : stream_wf s -> stream_wf (continued addr len s).
Proof. intros (_ & Hr & Hv). unfold stream_wf, continued. simpl. pose proof (u64_bound (addr + len)). lia. Qed.
Lemma fresh_wf addr len r : stream_wf (fresh addr len r).
Proof. unfold stream_wf, fresh. simpl. pose proof (u64_bound (addr + len)). pose proof (Z.mod_pos_bound r 2). lia. Qed.

Lemma regrouped_ordered m' m i gs gs' s : m' = <[i := s]> m -> data_wf m' -> NoDup (elems gs) -> i ∈ elems gs -> ordered m gs -> regrouped m' i gs gs' -> ordered m' gs'.
Proof.
  intros -> Hwf Hnd Hi Ho Hr. eapply ordered_place; [exact Hwf| |exact Hr]. apply ordered_change; [|by apply ordered_del].
  intros Hd. rewrite (del_elems _ _ Hi Hnd) in Hnd. apply NoDup_cons in Hnd as [? _]. done.
Qed.

(** Streams in their tree; with the tree in order. *)
Definition structured (N : Z) (c : ocf_seq_cutoff) : Prop := data_wf (streams c) /\ exists gs l, holds N gs l c.
Definition sorted_cutoff (N : Z) (c : ocf_seq_cutoff) : Prop := data_wf (streams c) /\ exists gs l, holds N gs l c /\ ordered (streams c) gs.

Lemma sorted_structured N c : sorted_cutoff N c -> structured N c.
Proof. intros (Hw & gs & l & Hc & _). split; [done|]. by exists gs, l. Qed.

Lemma updated_structured N addr len r insert found gs l c o c' : holds N gs l c -> data_wf (streams c) ->
  updated N addr len r insert found gs l c o c' -> structured N c'.
Proof.
  intros Hc Hw. destruct found as [i|]; simpl.
  - intros (_ & Hs & gs' & Hc' & _). split; [|by eexists _, _]. rewrite Hs. apply data_wf_insert; [done|]. by apply continued_wf, stream_at_wf.
  - destruct insert; [|intros [_ ->]; split; [done|by eexists _, _]]. intros (i & l2 & _ & _ & Hs & gs' & Hc' & _). split; [|by eexists _, _].
    rewrite Hs. by apply data_wf_insert, fresh_wf.
Qed.

Lemma holds_elems N gs l c : holds N gs l c -> NoDup (elems gs).
Proof. intros (_ & _ & -> & _ & ->). apply NoDup_seqZ. Qed.

Lemma updated_sorted N addr len r insert found gs l c o c' : holds N gs l c -> data_wf (streams c) -> ordered (streams c) gs ->
  0 <= addr -> 0 <= len -> addr + len < 2 ^ 64 -> answers (N := N) (c := c) (item_of addr r) found ->
  updated N addr len r insert found gs l c o c' -> sorted_cutoff N c'.
Proof.
  intros Hc Hw Ho Ha Hl Hlt Hans Hu. pose proof (updated_structured _ _ _ _ _ _ _ _ _ _ _ Hc Hw Hu) as [Hw' _]. pose proof (holds_elems _ _ _ _ Hc) as Hnd.
  destruct found as [i|]; simpl in Hu, Hans.
  - destruct Hu as (_ & Hs & gs' & Hc' & Hcase), Hans as (Hi & Hk & _). split; [done|]. exists gs', (used i l). split; [done|].
    pose proof (key_inj _ _ (stream_at_wf _ i Hw) (item_wf addr r ltac:(lia)) Hk) as (K1 & K2 & K3). simpl in K1, K2, K3.
    destruct Hcase as [[-> Hf]|Hr].
    + rewrite Hs. eapply ordered_fits; [exact Hw|apply item_wf, u64_bound|exact Ho|exact Hf|exact Hnd| |].
      * unfold key, continued, item_of. simpl. rewrite K2, K3. lia.
      * rewrite Hk, u64_small by lia. unfold key, item_of. simpl. lia.
    + eapply regrouped_ordered; [exact Hs|done|exact Hnd|by eapply elems_slots|exact Ho|exact Hr].
  - destruct insert; [|destruct Hu as [_ ->]; split; [done|by exists gs, l]]. destruct Hu as (i & l2 & -> & _ & Hs & gs' & Hc' & Hr).
    split; [done|]. exists gs', (l2 ++ [i]). split; [done|]. eapply regrouped_ordered; [exact Hs|done|exact Hnd| |exact Ho|exact Hr].
    destruct Hc as (_ & _ & -> & _). by left.
Qed.

(** ** The sections of the core and of the queues *)

Lemma wp_on_core {A} (m : M ocf_seq_cutoff A) Q s : wp m (fun a c => Q a (mkCutoffs c (queues s))) (core s) -> wp (on_core m) Q s.
Proof. intros H. unfold on_core. apply wp_zoom. exact H. Qed.
Lemma wp_on_queue {A} q (m : M ocf_seq_cutoff A) Q s c : queues s !! q = Some c ->
  wp m (fun a c' => Q a (mkCutoffs (core s) (<[q := c']> (queues s)))) c -> wp (on_queue q m) Q s.
Proof. intros Hq (a & c' & Hm & HQ). eexists _, _. unfold on_queue. by rewrite Hq, Hm. Qed.

(** The invariant: the core's tree is in order; those of the queues may not be. *)
Definition invariant (NC NQ : Z) (s : cutoffs) : Prop := 0 < NC /\ 0 < NQ /\ sorted_cutoff NC (core s) /\ map_Forall (fun _ => structured NQ) (queues s).

Lemma invariant_core NC NQ s c : invariant NC NQ s -> sorted_cutoff NC c -> invariant NC NQ (mkCutoffs c (queues s)).
Proof. intros (? & ? & _ & ?) ?. done. Qed.
Lemma invariant_queue NC NQ s q c : invariant NC NQ s -> structured NQ c -> invariant NC NQ (mkCutoffs (core s) (<[q := c]> (queues s))).
Proof. intros (? & ? & ? & ?) ?. split_and!; [done..|]. by apply map_Forall_insert_2. Qed.

(** The addresses of a request: it does not go past the end of the 64-bit range. *)
Definition span_ok (addr len : Z) : Prop := 0 <= addr /\ 0 <= len /\ addr + len < 2 ^ 64.

Lemma sorted_update N c addr len r insert : sorted_cutoff N c -> 0 < N -> span_ok addr len ->
  wp (ocf_core_seq_cutoff_base_update addr len r insert) (fun o c' => sorted_cutoff N c' /\ (forall i, o = Some i -> 0 <= i < N) /\ (insert = true -> o <> None)) c.
Proof.
  intros (Hw & gs & l & Hc & Ho) HN (Ha & Hl & Hlt).
  eapply wp_mono; [eapply base_update_run; [exact Hc|exact HN|eapply (tree_find_ordered Hc Hw Ho), item_wf; lia|by intros i (Hi & _)]|cbn beta].
  intros o c' (found & Hans & Hu). split; [exact (updated_sorted _ _ _ _ _ _ _ _ _ _ _ Hc Hw Ho Ha Hl Hlt Hans Hu)|]. destruct found as [i|]; simpl in Hu, Hans.
  - destruct Hu as (-> & _). split; [|done]. intros ? [= <-]. apply Hans.
  - destruct insert; [|by destruct Hu as [-> _]]. destruct Hu as (i & l2 & -> & -> & _). split; [|done]. intros ? [= <-].
    apply (elems_slots Hc). destruct Hc as (_ & _ & -> & _). by left.
Qed.

Lemma structured_update N c addr len r : structured N c -> 0 < N ->
  wp (ocf_core_seq_cutoff_base_update addr len r true) (fun o c' => structured N c' /\ exists i, o = Some i /\ 0 <= i < N) c.
Proof.
  intros (Hw & gs & l & Hc) HN. eapply wp_mono; [eapply base_update_run; [exact Hc|exact HN|apply (tree_find_any Hc)|cbn beta; intros i Hi; by apply Hi]|].
  intros o c' (found & Hf & Hu). split; [by eapply updated_structured|]. destruct found as [i|]; simpl in Hu.
  - destruct Hu as (-> & _). exists i. split; [done|]. by apply Hf.
  - destruct Hu as (i & l2 & -> & -> & _). exists i. split; [done|]. apply (elems_slots Hc). destruct Hc as (_ & _ & -> & _). by left.
Qed.

Lemma wp_bind_inv {S A B} (m : M S A) (k : A -> M S B) Q s : wp (m ≫= k) Q s -> wp m (fun a => wp (k a) Q) s.
Proof.
  intros (b & s' & He & HQ). rewrite bind_run in He. destruct (m s) as [[a s1]|] eqn:E; [|done]. exists a, s1. split; [done|]. by exists b, s'.
Qed.

(** Putting a stream at the front of the list of use. *)
Lemma demote_run N gs l c i : holds N gs l c -> data_wf (streams c) -> 0 <= i < N ->
  wp (set_stream i (fun s => mkStream (last s) (bytes s) (rw s) 0 (req_count s));; on_lru (list_move i lru_head)) (fun _ c' =>
    structured N c' /\ tree c' = tree c /\ streams c' = <[i := let s := stream_at (streams c) i in mkStream (last s) (bytes s) (rw s) 0 (req_count s)]> (streams c)) c.
Proof.
  intros Hc Hw Hi. pose proof Hc as (Hm & Ht & He & Hr & Hl). destruct (proj2 (proj2 Hm) i Hi) as [s Hs].
  assert (i ∈ l) as Hil by (rewrite <- He; by eapply elems_slots). assert (NoDup l) as Hnl by (rewrite Hl; apply NoDup_seqZ).
  wp_step. eapply wp_set_stream; [exact Hs|]. assert (stream_at (streams c) i = s) as -> by (unfold stream_at; by rewrite Hs).
  apply list_elem_of_split in Hil as (l1 & l2 & ->). apply wp_zoom. cbn [lru tree streams]. eapply wp_mono; [by apply list_move_run|].
  intros [] r [Hr' _]. split; [|done]. split; cbn [tree lru streams].
  - apply data_wf_insert; [done|]. destruct (Hw i s Hs) as (H1 & H2 & H3). unfold stream_wf. simpl. lia.
  - exists gs, (i :: l1 ++ l2). split; [by apply (memory_stream N c)|]. cbn [tree lru streams]. split; [done|]. split; [by rewrite He, Permutation_middle|].
    split; [done|]. by rewrite <- Hl, Permutation_middle.
Qed.

Lemma promote_run NC NQ s q i : invariant NC NQ s -> is_Some (queues s !! q) -> 0 <= i < NQ ->
  wp (ocf_core_seq_cutoff_base_promote q i) (fun _ s' => invariant NC NQ s' /\ dom (queues s') = dom (queues s)) s.
Proof.
  intros (HNC & HNQ & (Hw & gs & l & Hc & Ho) & Hqs) [cq Hq] Hi. pose proof (Hqs q cq Hq) as (Hwq & gsq & lq & Hcq).
  destruct (proj2 (proj2 (proj1 Hcq)) i Hi) as [sq Hsq]. pose proof (Hwq i sq Hsq) as (Hsl & Hsr & _).
  destruct (first_entry_run _ _ _ _ Hc HNC) as (d & l2 & -> & Hnd & Hd & Hfirst). unfold ocf_core_seq_cutoff_base_promote.
  wp_step. apply wp_on_core. eexists _, _. split; [exact Hfirst|]. replace (mkCutoffs (core s) (queues s)) with s by (by destruct s).
  pose (f := fun _ : ocf_seq_cutoff_stream => mkStream (last sq) (bytes sq) (rw sq) 1 (req_count sq)).
  assert (wp (on_tree (ocf_rb_tree_remove d);; set_stream d f;; tree_insert d;; on_lru (list_move_tail d lru_head);; mret tt)
    (fun _ => sorted_cutoff NC) (core s)) as Hcore.
  { eapply (replace_run NC); [exact Hc|exact Hd|]. intros c' gs' Hc' Hs Hg. apply wp_ret.
    assert (data_wf (streams c')) as Hw'. { rewrite Hs. apply data_wf_insert; [done|]. unfold stream_wf, f. simpl. lia. }
    split; [done|]. exists gs', (used d (d :: l2)). split; [done|].
    eapply (regrouped_ordered _ _ d gs); [exact Hs|exact Hw'|by eapply (holds_elems _ gs)|by eapply (elems_slots Hc)|exact Ho|exact Hg]. }
  wp_step. apply wp_on_core. eapply wp_mono; [apply (wp_bind_inv _ _ _ _ Hcore)|]. clear Hcore. intros [] c1 Hcore. cbn beta.
  wp_step. eapply wp_on_queue; [exact Hq|]. eapply wp_stream; [exact Hsq|]. cbn [core queues]. rewrite insert_id by done.
  do 2 (wp_step; apply wp_on_core; cbn [core queues]; eapply wp_mono; [apply (wp_bind_inv _ _ _ _ Hcore)|]; clear Hcore; intros [] ? Hcore; cbn beta).
  wp_step; apply wp_on_core; cbn [core queues]; eapply wp_mono; [apply (wp_bind_inv _ _ _ _ Hcore)|]. intros [] c4 (? & ? & [= <- <-] & Hsorted). cbn beta.
  pose proof (demote_run _ _ _ _ _ Hcq Hwq Hi) as Hdem. cbv zeta in Hdem. wp_step. eapply wp_on_queue; [exact Hq|].
  eapply wp_mono; [apply (wp_bind_inv _ _ _ _ Hdem)|]. clear Hdem. intros [] c5 Hdem. cbn beta.
  eapply wp_on_queue; [apply lookup_insert_eq|]. cbn [core queues]. eapply wp_mono; [exact Hdem|]. intros [] c6 (Hst & _). cbn [core queues].
  rewrite insert_insert_eq. split; [|apply dom_insert_lookup_L; by eexists]. split_and!; [done|done|done|]. by apply map_Forall_insert_2.
Qed.

(** ** Initialisation *)

(** Memory for [N] streams and the head of the list of use, whatever is in it. *)
Definition allocated (N : Z) (c : ocf_seq_cutoff) : Prop :=
  memory N c /\ data_wf (streams c) /\ has N (lru c) /\ is_Some (lru c !! lru_head).

(** The first [i] streams are there. *)
Definition filled (N i : Z) (c : ocf_seq_cutoff) : Prop :=
  memory N c /\ data_wf (streams c) /\ has N (lru c) /\ exists gs, rb_tree (tree c) gs /\ ordered (streams c) gs /\
    elems gs ≡ₚ seqZ 0 i /\ ring (lru c) lru_head (seqZ 0 i).

Lemma rb_tree_empty s : rb_tree (ocf_rb_tree_init s) [].
Proof.
  split; [exists Leaf|split; [constructor|split; constructor]]. split; [|split; [|done]].
  - split; [split; [constructor|done]|done].
  - split; [done|]. by exists 0%nat.
Qed.

Lemma fill_run N i c : 0 <= i < N -> filled N i c ->
  wp (set_stream i (fun s => mkStream (u64 (4096 * i)) 0 0 0 (req_count s));; tree_insert i;; on_lru (list_add_tail i lru_head)) (fun _ => filled N (i + 1)) c.
Proof.
  intros Hi (Hm & Hw & Hh & gs & Ht & Ho & He & Hr). destruct (proj2 (proj2 Hm) i Hi) as [s Hs].
  assert (i ∉ elems gs) as Hn by (rewrite He, elem_of_seqZ; lia).
  wp_step. eapply wp_set_stream; [exact Hs|]. set (s1 := mkStream _ _ _ _ _). apply (memory_stream _ _ i s1) in Hm.
  assert (data_wf (<[i := s1]> (streams c))) as Hw1.
  { apply data_wf_insert; [done|]. unfold stream_wf, s1. simpl. pose proof (u64_bound (4096 * i)). lia. }
  wp_step. eapply wp_mono; [by apply (tree_insert_run N _ gs i Hm Hi Ht)|]. intros [] c1 (t & gs' & -> & Hm1 & Ht1 & Hp). cbn [tree lru streams] in *.
  apply wp_zoom. cbn [lru tree streams].
  eapply wp_mono; [apply (list_add_tail_run _ _ _ i Hr); [|by apply Hh]|].
  { intros [Hx|Hx%elem_of_seqZ]%elem_of_cons; [unfold lru_head in Hx; lia|lia]. }
  intros [] r [Hr' Hf]. assert (seqZ 0 i ++ [i] = seqZ 0 (i + 1)) as Hsq by (rewrite (seqZ_app 0 i 1) by lia; done).
  split; [exact Hm1|]. cbn [tree lru streams]. split; [done|]. split.
  - intros j Hj. destruct (decide (j ∈ i :: lru_head :: seqZ 0 i)) as [Hx|Hx].
    + apply (ring_lookup _ _ _ _ Hr'). rewrite Hsq, elem_of_cons, elem_of_seqZ. right. rewrite !elem_of_cons, elem_of_seqZ in Hx. unfold lru_head in *. lia.
    + rewrite Hf by done. by apply Hh.
  - exists gs'. split; [done|]. split; [eapply ordered_place; [done|by apply ordered_change|exact Hp]|]. rewrite <- Hsq. split; [|done].
    rewrite (placed_elems _ _ _ _ Hp), He. solve_Permutation.
Qed.

Lemma base_init_run n c : allocated (Z.of_nat n) c -> wp (ocf_seq_cutoff_base_init n) (fun _ => sorted_cutoff (Z.of_nat n)) c.
Proof.
  intros (Hm & Hw & Hh & Hhead). unfold ocf_seq_cutoff_base_init. wp_step. apply wp_zoom. apply wp_modify.
  wp_step. apply wp_zoom. cbn [lru tree streams]. eapply wp_mono; [by apply INIT_run|]. intros [] r (Hr & Hf & _).
  eapply (wp_for_range _ (filled (Z.of_nat n))).
  - intros i c' Hi. apply fill_run. lia.
  - split; [done|]. cbn [tree lru streams]. split; [done|]. split; [intros i Hi; rewrite Hf by (unfold lru_head; lia); by apply Hh|].
    exists []. split; [apply rb_tree_empty|]. split; [by split; constructor|]. done.
  - intros c' (Hm' & Hw' & _ & gs & Ht & Ho & He & Hr'). split; [done|]. exists gs, (seqZ 0 (Z.of_nat n)). done.
Qed.

(** ** Theorems *)

(** The critical sections, of whatever thread. *)
Inductive section :=
| check_core (addr len rw threshold : Z)
| check_queue (q addr len rw threshold : Z)
| update_core (addr len rw : Z) (insert : bool)
| update_queue (q addr len rw : Z)
| promote (q src_stream : Z).

Definition run_section (x : section) : M cutoffs unit :=
  match x with
  | check_core addr len rw threshold => on_core (ocf_core_seq_cutoff_base_check addr len rw threshold);; mret tt
  | check_queue q addr len rw threshold => on_queue q (ocf_core_seq_cutoff_base_check addr len rw threshold);; mret tt
  | update_core addr len rw insert => on_core (ocf_core_seq_cutoff_base_update addr len rw insert);; mret tt
  | update_queue q addr len rw => on_queue q (ocf_core_seq_cutoff_base_update addr len rw true);; mret tt
  | promote q src_stream => ocf_core_seq_cutoff_base_promote q src_stream
  end.
Definition run_sections (xs : list section) : M cutoffs unit := foldr (fun x m => run_section x;; m) (mret tt) xs.

(** Of queues that exist, and of a stream of the queue; requests do not reach past
    the end of the 64-bit range. *)
Definition section_ok (NQ : Z) (qs : gset Z) (x : section) : Prop :=
  match x with
  | check_core addr len _ _ | update_core addr len _ _ => span_ok addr len
  | check_queue q addr len _ _ | update_queue q addr len _ => q ∈ qs /\ span_ok addr len
  | promote q src_stream => q ∈ qs /\ 0 <= src_stream < NQ
  end.

(** A check changes nothing, whatever the order of the tree. *)
Lemma check_any N gs l c addr len r threshold F : holds N gs l c ->
  wp (tree_find (item_of addr r)) (fun p c' => c' = c /\ F p) c -> (forall i, F (Some i) -> 0 <= i < N) ->
  wp (ocf_core_seq_cutoff_base_check addr len r threshold) (fun o c' => c' = c /\ F (snd o) /\
    fst o = match snd o with Some i => threshold <=? u64 (bytes (stream_at (streams c) i) + len) | None => false end) c.
Proof.
  intros Hc Hfind HF. unfold ocf_core_seq_cutoff_base_check. wp_step. eapply wp_mono; [exact Hfind|]. intros p c' [-> Hp].
  destruct p as [i|]; [|by apply wp_ret]. destruct Hc as ((_ & _ & Hm) & _). destruct (Hm i (HF i Hp)) as [s Hs].
  wp_step. eapply wp_stream; [exact Hs|]. apply wp_ret. split; [done|]. split; [done|]. simpl. unfold stream_at. by rewrite Hs.
Qed.

Lemma section_run NC NQ s x : invariant NC NQ s -> section_ok NQ (dom (queues s)) x ->
  wp (run_section x) (fun _ s' => invariant NC NQ s' /\ dom (queues s') = dom (queues s)) s.
Proof.
  intros Hinv Hx. pose proof Hinv as (HNC & HNQ & Hcore & Hqs).
  assert (forall q, q ∈ dom (queues s) -> exists c, queues s !! q = Some c /\ structured NQ c) as Hq.
  { intros q [c Hc]%elem_of_dom. exists c. split; [done|]. by apply (Hqs q). }
  assert (forall q c, q ∈ dom (queues s) -> dom (<[q := c]> (queues s)) = dom (queues s)) as Hdom.
  { intros q c Hd%elem_of_dom. by apply dom_insert_lookup_L. }
  destruct x as [addr len r th|q addr len r th|addr len r ins|q addr len r|q i]; simpl in *.
  - wp_step. apply wp_on_core. pose proof Hcore as (_ & gs & l & Hc & _). eapply wp_mono; [eapply check_any; [exact Hc|apply (tree_find_any Hc)|cbn beta; intros i Hi; by apply Hi]|].
    intros o c' (-> & _). apply wp_ret. by apply (conj (invariant_core _ _ _ _ Hinv Hcore)).
  - destruct Hx as [Hd _], (Hq q Hd) as (c & Hqc & Hst). pose proof Hst as (_ & gs & l & Hc). wp_step. eapply wp_on_queue; [exact Hqc|].
    eapply wp_mono; [eapply check_any; [exact Hc|apply (tree_find_any Hc)|cbn beta; intros i Hi; by apply Hi]|].
    intros o c' (-> & _). apply wp_ret. split; [by apply invariant_queue|by apply Hdom].
  - wp_step. apply wp_on_core. eapply wp_mono; [by apply sorted_update|]. intros o c' (Hc' & _). apply wp_ret. split; [by apply invariant_core|done].
  - destruct Hx as [Hd _], (Hq q Hd) as (c & Hqc & Hst). wp_step. eapply wp_on_queue; [exact Hqc|]. eapply wp_mono; [by apply structured_update|].
    intros o c' (Hc' & _). apply wp_ret. split; [by apply invariant_queue|by apply Hdom].
  - destruct Hx as [Hd%elem_of_dom Hi]. by apply promote_run.
Qed.

Lemma sections_run NC NQ xs s : invariant NC NQ s -> Forall (section_ok NQ (dom (queues s))) xs ->
  wp (run_sections xs) (fun _ => invariant NC NQ) s.
Proof.
  revert s. induction xs as [|x xs IH]; intros s Hs Hx; [by apply wp_ret|]. apply Forall_cons in Hx as [Hx Hxs]. simpl. wp_step.
  eapply wp_mono; [by apply section_run|]. intros [] s' [Hs' Hd]. apply IH; [done|by rewrite Hd].
Qed.

(** C16: However the critical sections of checks, updates and promotions of any
    number of threads follow each other, none of them stops, for all that the trees
    of the queues need not be in order: every tree is a red-black tree of all the
    streams, every stream is once in the list of use, and the core's tree stays in
    the order of the keys. *)
Theorem seq_cutoff_sections_safe NC NQ xs s : invariant NC NQ s -> Forall (section_ok NQ (dom (queues s))) xs ->
  exists s', run_sections xs s = Some (tt, s') /\ invariant NC NQ s'.
Proof. intros Hs Hx. destruct (sections_run _ _ _ _ Hs Hx) as ([] & s' & He & Hs'). by exists s'. Qed.

(** From any memory the initialisation makes all streams free ones in a tree
    in order and a list of use. *)
Theorem seq_cutoff_init_sorted n c : allocated (Z.of_nat n) c ->
  exists c', ocf_seq_cutoff_base_init n c = Some (tt, c') /\ sorted_cutoff (Z.of_nat n) c'.
Proof. intros Hc. destruct (base_init_run _ _ Hc) as ([] & c' & He & Hc'). by exists c'. Qed.

(** The stream that a request continues. *)
Definition continues (c : ocf_seq_cutoff) (addr r i : Z) : Prop :=
  let s := stream_at (streams c) i in last s = addr /\ rw s = r mod 2 /\ valid s = 1.

Lemma continues_key c addr r i : data_wf (streams c) -> 0 <= addr < 2 ^ 64 ->
  continues c addr r i <-> key_at (streams c) i = key (item_of addr r).
Proof.
  intros Hw Ha. split.
  - intros (H1 & H2 & H3). unfold key_at, key, item_of. simpl. by rewrite H1, H2, H3.
  - intros Hk. apply (key_inj _ _ (stream_at_wf _ i Hw) (item_wf addr r Ha)) in Hk as (H1 & H2 & H3). done.
Qed.

Lemma check_sorted N c addr len r threshold : sorted_cutoff N c -> 0 <= addr < 2 ^ 64 ->
  exists p, ocf_core_seq_cutoff_base_check addr len r threshold c =
      Some ((match p with Some i => threshold <=? u64 (bytes (stream_at (streams c) i) + len) | None => false end, p), c) /\
    match p with
    | None => forall j, 0 <= j < N -> ~ continues c addr r j
    | Some i => 0 <= i < N /\ continues c addr r i /\
      exists h, forall j, 0 <= j < N -> continues c addr r j -> j <> h -> bytes (stream_at (streams c) j) <= bytes (stream_at (streams c) i)
    end.
Proof.
  intros (Hw & gs & l & Hc & Ho) Ha. destruct (check_any N gs l c addr len r threshold (answers (N := N) (c := c) (item_of addr r)) Hc) as ([b p] & c' & He & -> & Hp & Hb).
  - by apply (tree_find_ordered Hc Hw Ho), item_wf.
  - by intros i (Hi & _).
  - exists p. simpl in Hb. rewrite He, Hb. split; [done|]. simpl in Hp. destruct p as [i|]; simpl in Hp.
    + destruct Hp as (Hi & Hk & h & Hmax). split; [done|]. split; [by apply continues_key|]. exists h. intros j Hj Hcj. apply Hmax; [done|]. by apply continues_key.
    + intros j Hj Hcj. apply (Hp j Hj). by apply continues_key.
Qed.

(** C37: A check against the tree of the core, which is in order, finds a stream
    exactly when one ends where the request begins, with the same direction.  It
    answers yes when it found one whose bytes together with those of the request
    reach the threshold, and no otherwise: when there is none, and when they stay
    below it.  If several streams end there, one of them may have more bytes than
    the one chosen, no other. *)
Theorem seq_cutoff_check_decides N c addr len r threshold : sorted_cutoff N c -> 0 <= addr < 2 ^ 64 ->
  exists p, ocf_core_seq_cutoff_base_check addr len r threshold c =
      Some ((match p with Some i => threshold <=? u64 (bytes (stream_at (streams c) i) + len) | None => false end, p), c) /\
    match p with
    | None => forall j, 0 <= j < N -> ~ continues c addr r j
    | Some i => 0 <= i < N /\ continues c addr r i /\
      exists h, forall j, 0 <= j < N -> continues c addr r j -> j <> h -> bytes (stream_at (streams c) j) <= bytes (stream_at (streams c) i)
    end.
Proof. apply check_sorted. Qed.

Lemma ring_unique m h l l' : ring m h l -> ring m h l' -> l = l'.
Proof. intros Hr%list_for_each_entry_run Hr'%list_for_each_entry_run. rewrite Hr in Hr'. by injection Hr'. Qed.

(** C35: An update of the core either continues a stream that ends where the
    request begins, counting its bytes and the request, or, when there is none and
    one is wanted, makes the least recently used stream that of the request, or
    changes nothing; no other stream changes, the stream becomes the most recently
    used, and the tree stays in order, whether the stream was moved in it or
    [can_update] let it stay. *)
Theorem seq_cutoff_update_tracks N c addr len r insert l : sorted_cutoff N c -> 0 < N -> span_ok addr len -> ring (lru c) lru_head l ->
  exists o c', ocf_core_seq_cutoff_base_update addr len r insert c = Some (o, c') /\ sorted_cutoff N c' /\
    match o with
    | Some i => 0 <= i < N /\ ring (lru c') lru_head (used i l) /\
        (continues c addr r i /\ streams c' = <[i := continued addr len (stream_at (streams c) i)]> (streams c) \/
         (forall j, 0 <= j < N -> ~ continues c addr r j) /\ insert = true /\ head l = Some i /\ streams c' = <[i := fresh addr len r]> (streams c))
    | None => (forall j, 0 <= j < N -> ~ continues c addr r j) /\ insert = false /\ c' = c
    end.
Proof.
  intros Hs HN Hspan Hr. pose proof (sorted_update N c addr len r insert Hs HN Hspan) as (o & c' & He & Hs' & Hi & _).
  exists o, c'. split; [done|]. split; [done|]. destruct Hs as (Hw & gs & l' & Hc & Ho), Hspan as (Ha & Hl & Hlt).
  assert (l' = l) as -> by (destruct Hc as (_ & _ & _ & Hr' & _); by eapply ring_unique).
  destruct (wp_run _ _ _ _ _ He (base_update_run N gs l c addr len r insert _ Hc HN (tree_find_ordered Hc Hw Ho _ (item_wf addr r ltac:(lia))) ltac:(by intros i (Hi' & _)))) as (found & Hans & Hu).
  assert (forall j, continues c addr r j <-> key_at (streams c) j = key (item_of addr r)) as Hk by (intros j; apply continues_key; [done|lia]).
  destruct found as [i|]; simpl in Hans, Hu.
  - destruct Hu as (-> & Hst & gs' & (_ & _ & _ & Hr' & _) & _). split; [by apply Hi|]. split; [done|]. left. split; [|done]. apply Hk, (proj1 (proj2 Hans)).
  - assert (forall j, 0 <= j < N -> ~ continues c addr r j) as Hnone by (intros j Hj Hcj%Hk; by apply (Hans j)).
    destruct insert; [|destruct Hu as [-> ->]; done]. destruct Hu as (i & l2 & -> & -> & Hst & gs' & (_ & _ & _ & Hr' & _) & _).
    split; [by apply Hi|]. assert (NoDup (i :: l2)) as Hnd by (by destruct Hr as [[_ ?]%NoDup_cons _]). rewrite (used_first _ _ Hnd). split; [done|]. right. done.
Qed.

(** A sequential reader is recognised: after an update by a request, a check by
    the request that begins where it ended finds a stream, if only of another
    reader at the same place. *)
Theorem seq_cutoff_reader_recognised N c addr len r len2 threshold : sorted_cutoff N c -> 0 < N -> span_ok addr len ->
  exists o c' b j, ocf_core_seq_cutoff_base_update addr len r true c = Some (o, c') /\
    ocf_core_seq_cutoff_base_check (addr + len) len2 r threshold c' = Some ((b, Some j), c') /\ continues c' (addr + len) r j.
Proof.
  intros Hs HN Hspan. pose proof (sorted_update N c addr len r true Hs HN Hspan) as (o & c' & He & Hs' & _).
  destruct Hs as (Hw & gs & l & Hc & Ho), Hspan as (Ha & Hl & Hlt).
  destruct (wp_run _ _ _ _ _ He (base_update_run N gs l c addr len r true _ Hc HN (tree_find_ordered Hc Hw Ho _ (item_wf addr r ltac:(lia))) ltac:(by intros i (Hi' & _)))) as (found & Hans & Hu).
  destruct (check_sorted N c' (addr + len) len2 r threshold Hs' ltac:(lia)) as (p & Hch & Hp).
  enough (exists i, 0 <= i < N /\ continues c' (addr + len) r i) as (i & Hi & Hci).
  { destruct p as [j|]; [|by destruct (Hp i Hi)]. do 4 eexists. split; [done|]. split; [exact Hch|]. apply Hp. }
  destruct found as [i|]; simpl in Hans, Hu.
  - exists i. destruct Hans as (Hi & Hk & _). split; [done|]. destruct Hu as (_ & Hst & _). unfold continues. rewrite Hst, stream_at_insert. simpl.
    rewrite u64_small by lia. apply (continues_key c addr r i Hw ltac:(lia)) in Hk as (_ & Hr & Hv). done.
  - destruct Hu as (i & l2 & -> & _ & Hst & _). exists i. split; [apply (elems_slots Hc); destruct Hc as (_ & _ & -> & _); by left|].
    unfold continues. rewrite Hst, stream_at_insert. simpl. by rewrite u64_small by lia.
Qed.

(** The part of the update on the queue of the request. *)
Lemma queue_part_run NC NQ s q addr len r thr (b : bool) count : invariant NC NQ s -> is_Some (queues s !! q) ->
  wp (stream_ ← on_queue q (ocf_core_seq_cutoff_base_update addr len r true);
      match stream_ with
      | None => bug
      | Some i =>
        s ← on_queue q (stream i);
        if b || (thr <=? bytes s) || (count <=? req_count s) then ocf_core_seq_cutoff_base_promote q i else mret tt
      end) (fun _ => invariant NC NQ) s.
Proof.
  intros Hinv [c Hqc]. pose proof Hinv as (_ & HNQ & _ & Hqs). wp_step. eapply wp_on_queue; [exact Hqc|].
  eapply wp_mono; [apply structured_update; [by apply (Hqs q)|done]|]. intros o c' (Hc' & i & -> & Hi).
  pose proof (invariant_queue _ _ _ q c' Hinv Hc') as Hinv'. wp_step. eapply wp_on_queue; [apply lookup_insert_eq|].
  destruct Hc' as (_ & gs & l & (_ & _ & Hm) & _). destruct (Hm i Hi) as [si Hsi]. eapply wp_stream; [exact Hsi|]. cbn [core queues]. rewrite insert_insert_eq.
  destruct (_ || _); [|by apply wp_ret]. eapply wp_mono; [apply promote_run; [exact Hinv'| |exact Hi]|by intros ? ? [? _]].
  cbn [queues]. rewrite lookup_insert_eq. by eexists.
Qed.

Lemma update_run NC NQ s cfg req : invariant NC NQ s -> is_Some (queues s !! io_queue req) -> span_ok (byte_position req) (byte_length req) ->
  wp (ocf_core_seq_cutoff_update cfg req) (fun _ => invariant NC NQ) s.
Proof.
  intros Hinv Hq Hspan. pose proof Hinv as (HNC & _ & Hcore & _). unfold ocf_core_seq_cutoff_update. cbn zeta.
  set (pr := (threshold cfg <=? _) || _). destruct (policy cfg); [| |by apply wp_ret|]; wp_step;
    (destruct (seq_cutoff_core req || pr); [|apply wp_ret; by apply queue_part_run]); apply wp_on_core;
    (eapply wp_mono; [by apply sorted_update|]); intros o c' (Hc' & _);
    (destruct o; [apply wp_ret; by apply invariant_core|apply queue_part_run; [by apply invariant_core|done]]).
Qed.

Lemma check_run NC NQ s cfg req : invariant NC NQ s -> is_Some (queues s !! io_queue req) ->
  wp (ocf_core_seq_cutoff_check cfg req) (fun _ s' => s' = s) s.
Proof.
  intros (_ & _ & (_ & gc & lc & Hcc & _) & Hqs) [c Hqc]. destruct (Hqs _ _ Hqc) as (_ & gs & l & Hc). unfold ocf_core_seq_cutoff_check.
  match goal with |- wp (match _ with policy_always => ?m | policy_full => _ | policy_never => _ | policy_invalid => _ end) _ _ =>
    assert (wp m (fun _ s' => s' = s) s) as Hl; [|destruct (policy cfg), (ocf_seq_cutoff_is_on cfg req); by try apply wp_ret] end.
  wp_step. eapply wp_on_queue; [exact Hqc|]. eapply wp_mono; [eapply check_any; [exact Hc|apply (tree_find_any Hc)|cbn beta; intros i Hi; by apply Hi]|].
  intros [b p] c' (-> & _). rewrite insert_id by done. replace (mkCutoffs (core s) (queues s)) with s by (by destruct s).
  destruct p; [by apply wp_ret|]. wp_step. apply wp_on_core. eapply wp_mono; [eapply check_any; [exact Hcc|apply (tree_find_any Hcc)|cbn beta; intros i Hi; by apply Hi]|].
  intros [b' p] c' (-> & _). replace (mkCutoffs (core s) (queues s)) with s by (by destruct s). by apply wp_ret.
Qed.

(** The handlers of a request, whatever the settings: the check ends and
    changes nothing, the update that follows with the flag that it set ends with
    every stream in place and the core's tree in order. *)
Theorem seq_cutoff_request_total NC NQ s cfg req : invariant NC NQ s -> io_queue req ∈ dom (queues s) -> span_ok (byte_position req) (byte_length req) ->
  exists b flag s', ocf_core_seq_cutoff_check cfg req s = Some ((b, flag), s) /\
    ocf_core_seq_cutoff_update cfg (mkReq (io_queue req) (byte_position req) (byte_length req) (req_rw req) (core_line_count req) flag) s = Some (tt, s') /\ invariant NC NQ s'.
Proof.
  intros Hinv Hq%elem_of_dom Hspan. destruct (check_run _ _ _ cfg req Hinv Hq) as ([b flag] & ? & Hch & ->).
  destruct (update_run _ _ _ cfg (mkReq (io_queue req) (byte_position req) (byte_length req) (req_rw req) (core_line_count req) flag) Hinv Hq Hspan) as ([] & s' & Hup & Hs').
  by exists b, flag, s'.
Qed.

(** The status of the core's streams has an entry for every stream, no more
    than the array of the caller, in the order of use. *)
Theorem seq_cutoff_status_bounded gs l c threshold : holds (Z.of_nat OCF_SEQ_CUTOFF_PERCORE_STREAMS) gs l c ->
  exists st, ocf_dbg_get_seq_cutoff_status threshold c = Some (st, c) /\ length st = OCF_SEQ_CUTOFF_PERCORE_STREAMS /\
    st = (fun i => let s := stream_at (streams c) i in (last s, bytes s, rw s, threshold <=? bytes s)) <$> l.
Proof.
  intros (_ & _ & _ & Hr & Hl). unfold ocf_dbg_get_seq_cutoff_status. rewrite bind_run. unfold on_lru, zoom. rewrite (list_for_each_entry_run _ _ _ Hr).
  replace (mkCutoff (tree c) (lru c) (streams c)) with c by (by destruct c). eexists. split; [reflexivity|]. split; [|done].
  rewrite length_fmap, (Permutation_length Hl), length_seqZ. done.
Qed.

(** ** Witnesses *)

Definition blank (n : nat) : ocf_seq_cutoff :=
  mkCutoff (mkTree None (zarray n (fun _ => mkNode true None None None)) (zarray n (fun _ => mkHead 0 0)))
    (<[lru_head := mkHead 0 0]> (zarray n (fun _ => mkHead 0 0))) (zarray n (fun _ => no_stream)).
Definition started (n : nat) : ocf_seq_cutoff := match ocf_seq_cutoff_base_init n (blank n) with Some (_, c) => c | None => blank n end.

Lemma has_zarray {A} (f : Z -> A) n : has (Z.of_nat n) (zarray n f).
Proof. intros i Hi. exists (f i). by apply zarray_lookup. Qed.

Lemma blank_allocated n : allocated (Z.of_nat n) (blank n).
Proof.
  split; [split; [|split]; apply has_zarray|]. split; [|split].
  - intros i s [_ ->]%zarray_lookup. unfold stream_wf. simpl. lia.
  - intros i Hi. cbn [lru blank]. rewrite lookup_insert_ne by (unfold lru_head; lia). by apply has_zarray.
  - cbn [lru blank]. rewrite lookup_insert_eq. by eexists.
Qed.

Lemma started_sorted n : sorted_cutoff (Z.of_nat n) (started n).
Proof. unfold started. destruct (base_init_run n _ (blank_allocated n)) as ([] & c & -> & Hc). exact Hc. Qed.

(** A core with four streams and one queue with three. *)
Definition small : cutoffs := mkCutoffs (started 4) {[0 := started 3]}.

Lemma small_invariant : invariant 4 3 small.
Proof.
  split; [done|]. split; [done|]. split; [exact (started_sorted 4)|]. apply map_Forall_singleton. apply sorted_structured. exact (started_sorted 3).
Qed.

Lemma seq_cutoff_init_sorted_witness : exists c', ocf_seq_cutoff_base_init 5 (blank 5) = Some (tt, c') /\ sorted_cutoff 5 c'.
Proof. exact (seq_cutoff_init_sorted 5 _ (blank_allocated 5)). Defined.

(** Three streams on the queue, the middle one promoted, then used again. *)
Definition some_sections : list section :=
  [update_queue 0 10 5 0; update_queue 0 20 5 0; update_queue 0 30 5 0; promote 0 1; check_core 25 5 0 8; update_core 25 5 0 false; update_queue 0 40 5 1].

Lemma seq_cutoff_sections_safe_witness : exists s', run_sections some_sections small = Some (tt, s') /\ invariant 4 3 s'.
Proof.
  apply (seq_cutoff_sections_safe 4 3 some_sections small small_invariant). repeat constructor; simpl; try lia; set_solver.
Defined.

Lemma seq_cutoff_check_decides_witness : exists p, ocf_core_seq_cutoff_base_check 4096 5 0 8 (started 4) =
      Some ((match p with Some i => 8 <=? u64 (bytes (stream_at (streams (started 4)) i) + 5) | None => false end, p), started 4) /\
    match p with
    | None => forall j, 0 <= j < 4 -> ~ continues (started 4) 4096 0 j
    | Some i => 0 <= i < 4 /\ continues (started 4) 4096 0 i /\
      exists h, forall j, 0 <= j < 4 -> continues (started 4) 4096 0 j -> j <> h -> bytes (stream_at (streams (started 4)) j) <= bytes (stream_at (streams (started 4)) i)
    end.
Proof. apply (seq_cutoff_check_decides 4 (started 4) 4096 5 0 8 (started_sorted 4)). lia. Defined.

Lemma started_ring : ring (lru (started 4)) lru_head [0; 1; 2; 3].
Proof.
  destruct (started_sorted 4) as (_ & gs & l & (_ & _ & _ & Hr & _) & _). assert (l = [0; 1; 2; 3]) as <-; [|done].
  apply list_for_each_entry_run in Hr. assert (fst <$> list_for_each_entry lru_head (lru (started 4)) = Some [0; 1; 2; 3]) as He by (vm_compute; reflexivity).
  rewrite Hr in He. cbn [fmap option_fmap option_map fst] in He. by injection He.
Qed.

Lemma seq_cutoff_update_tracks_witness : exists o c', ocf_core_seq_cutoff_base_update 100 5 1 true (started 4) = Some (o, c') /\ sorted_cutoff 4 c' /\ o = Some 0.
Proof.
  destruct (seq_cutoff_update_tracks 4 (started 4) 100 5 1 true [0; 1; 2; 3] (started_sorted 4)) as (o & c' & He & Hs & Ho).
  - done.
  - unfold span_ok. lia.
  - exact started_ring.
  - exists o, c'. split; [exact He|]. split; [exact Hs|]. revert He. vm_compute. by intros [= <- _].
Defined.

Lemma seq_cutoff_reader_recognised_witness : exists o c' b j, ocf_core_seq_cutoff_base_update 100 5 1 true (started 4) = Some (o, c') /\
  ocf_core_seq_cutoff_base_check (100 + 5) 7 1 12 c' = Some ((b, Some j), c') /\ continues c' (100 + 5) 1 j.
Proof. apply (seq_cutoff_reader_recognised 4 (started 4) 100 5 1 7 12 (started_sorted 4)); [done|unfold span_ok; lia]. Defined.

Lemma seq_cutoff_request_total_witness :
  let req := mkReq 0 100 5 1 1 false in let cfg := mkConfig policy_full 4 2 true 100 in
  exists b flag s', ocf_core_seq_cutoff_check cfg req small = Some ((b, flag), small) /\
    ocf_core_seq_cutoff_update cfg (mkReq 0 100 5 1 1 flag) small = Some (tt, s') /\ invariant 4 3 s'.
Proof.
  apply (seq_cutoff_request_total 4 3 small (mkConfig policy_full 4 2 true 100) (mkReq 0 100 5 1 1 false) small_invariant); [set_solver|unfold span_ok; simpl; lia].
Defined.

(** ** What the code loses *)

(** What a search for the stream [item] in the queue finds, and the first stream. *)
Definition looked_up (item : ocf_seq_cutoff_stream) (r : option (unit * cutoffs)) : option (ocf_seq_cutoff_stream * option Z) :=
  '(_, s) ← r; c ← queues s !! 0; '(p, _) ← tree_find item c; Some (stream_at (streams c) 0, p).

(** A promoted stream of a queue stays where it was in the tree as a free one: the
    streams on its left are not found any more.  Here the stream 0 ends at 15 and a
    request that begins there finds it before the promotion of the stream 1, and
    none afterwards. *)
Theorem promotion_hides_stream :
  let updates := [update_queue 0 10 5 0; update_queue 0 20 5 0; update_queue 0 30 5 0] in
  looked_up (item_of 15 0) (run_sections updates small) = Some (mkStream 15 5 0 1 1, Some 0) /\
  looked_up (item_of 15 0) (run_sections (updates ++ [promote 0 1]) small) = Some (mkStream 15 5 0 1 1, None).
Proof. split; vm_compute; reflexivity. Qed.

(** The search skips the head of a group: of two streams that end at 15 it finds the
    one with 5 bytes, not the first with 7. *)
Theorem find_skips_head :
  looked_up (item_of 15 0) (run_sections [update_queue 0 8 7 0; update_queue 0 10 5 0] small) = Some (mkStream 15 7 0 1 1, Some 1).
Proof. vm_compute. reflexivity. Qed.
