(* ===== verification/Lst.v ===== *)
(** The indexed lists of OCF: ocf/src/utils/utils_list.[ch].

    The entries lie in an array; the one with the index [invalid], behind all
    others, is the head.  An entry that is on no list has the index [invalid + 1]
    on both sides.  [getter] is an access to the array; the circles are those of
    EnvList.  The comparison of [ocf_lst_sort] is a callback that may change the
    state around the list. *)

From stdpp Require Import sorting.
From S2P Require Import Prelude Dll EnvList.

Abbreviation ocf_lst_entry := list_head.
Abbreviation L := (gmap Z list_head).

Section lst.
Variable invalid : Z.

Definition OCF_LST_ENTRY_OUT : Z := invalid + 1.

Definition getter (idx : Z) : M L ocf_lst_entry := lget idx.

Definition ocf_lst_init_entry (idx : Z) : M L unit := lset_prev idx OCF_LST_ENTRY_OUT;; lset_next idx OCF_LST_ENTRY_OUT.

Definition ocf_lst_is_entry (entry : ocf_lst_entry) : M L bool :=
  if (next entry =? OCF_LST_ENTRY_OUT) && (prev entry =? OCF_LST_ENTRY_OUT) then mret false
  else if (next entry <? OCF_LST_ENTRY_OUT) && (prev entry <? OCF_LST_ENTRY_OUT) then mret true
  else bug.

(** [OCF_LST_DBG_ON] logs when its condition holds; the condition may stop. *)
Definition OCF_LST_DBG_ON (cond : M L bool) : M L unit := cond;; mret tt.
Definition negated (m : M L bool) : M L bool := b ← m; mret (negb b).

Definition ocf_lst_init : M L unit :=
  lset_next invalid invalid;; lset_prev invalid invalid;;
  for_range (Z.to_nat invalid) 0 ocf_lst_init_entry.

Definition ocf_lst_add_after (at_ idx : Z) : M L unit :=
  after ← getter at_;
  let next_ := next after in
  nx ← getter next_;
  this ← getter idx;
  OCF_LST_DBG_ON (ocf_lst_is_entry this);;
  OCF_LST_DBG_ON (negated (ocf_lst_is_entry after));;
  OCF_LST_DBG_ON (negated (ocf_lst_is_entry nx));;
  lset_next idx (next after);; lset_prev idx at_;; lset_next at_ idx;; lset_prev next_ idx.

Definition ocf_lst_add_before (at_ idx : Z) : M L unit :=
  before ← getter at_;
  let prev_ := prev before in
  pv ← getter prev_;
  this ← getter idx;
  OCF_LST_DBG_ON (ocf_lst_is_entry this);;
  OCF_LST_DBG_ON (negated (ocf_lst_is_entry before));;
  OCF_LST_DBG_ON (negated (ocf_lst_is_entry pv));;
  lset_next idx at_;; lset_prev idx (prev before);; lset_prev at_ idx;; lset_next prev_ idx.

Definition ocf_lst_add (idx : Z) : M L unit :=
  this ← getter idx;
  head ← getter invalid;
  let next_ := next head in
  nx ← getter next_;
  OCF_LST_DBG_ON (ocf_lst_is_entry this);;
  OCF_LST_DBG_ON (negated (ocf_lst_is_entry nx));;
  lset_next idx (next head);; lset_prev next_ idx;; lset_next invalid idx;; lset_prev idx invalid.

Definition ocf_lst_add_tail (idx : Z) : M L unit :=
  this ← getter idx;
  head ← getter invalid;
  let prev_ := prev head in
  pv ← getter prev_;
  OCF_LST_DBG_ON (ocf_lst_is_entry this);;
  OCF_LST_DBG_ON (negated (ocf_lst_is_entry pv));;
  lset_next idx invalid;; lset_prev idx (prev head);; lset_next prev_ idx;; lset_prev invalid idx.

Definition ocf_lst_del (idx : Z) : M L unit :=
  this ← getter idx;
  let next_ := next this in let prev_ := prev this in
  nx ← getter next_; pv ← getter prev_;
  OCF_LST_DBG_ON (negated (ocf_lst_is_entry this));;
  OCF_LST_DBG_ON (negated (ocf_lst_is_entry nx));;
  OCF_LST_DBG_ON (negated (ocf_lst_is_entry pv));;
  this ← getter idx; lset_next prev_ (next this);;
  this ← getter idx; lset_prev next_ (prev this);;
  ocf_lst_init_entry idx.

Definition ocf_lst_head : M L Z := head ← getter invalid; mret (next head).
Definition ocf_lst_tail : M L Z := head ← getter invalid; mret (prev head).
Definition ocf_lst_empty : M L bool := head ← getter invalid; mret (next head =? invalid).

(** The indices that [for_each_lst] visits from [id] on. *)
Fixpoint for_each_lst (fuel : nat) (id : Z) : M L (list Z) :=
  if id =? invalid then mret []
  else
    match fuel with
    | O => bug
    | S fuel => entry ← getter id; l ← for_each_lst fuel (next entry); mret (id :: l)
    end.
Definition lst_elements : M L (list Z) := n ← gets size; id ← ocf_lst_head; for_each_lst n id.

(** Sorting, in a state that the list is a part of. *)
Section sort.
Context {S : Type} (get : S -> L) (set : L -> S -> S).

Definition on_lst {A} (m : M L A) : M S A := zoom get set m.

(** The loop of the search: it leaves at the first entry that comes behind [iter]. *)
Fixpoint find_pos (cmp : Z -> Z -> M S Z) (fuel : nat) (pos_idx iter : Z) : M S Z :=
  if pos_idx =? invalid then mret pos_idx
  else
    match fuel with
    | O => bug
    | Datatypes.S fuel =>
      c ← cmp pos_idx iter;
      if 0 <? c then mret pos_idx
      else pos ← on_lst (getter pos_idx); find_pos cmp fuel (next pos) iter
    end.

Definition sort_step (cmp : Z -> Z -> M S Z) (fuel : nat) (iter_idx : Z) : M S unit :=
  on_lst (ocf_lst_init_entry iter_idx);;
  e ← on_lst ocf_lst_empty;
  if (e : bool) then on_lst (ocf_lst_add iter_idx)
  else
    head ← on_lst (getter invalid);
    pos_idx ← find_pos cmp fuel (next head) iter_idx;
    if pos_idx =? invalid then on_lst (ocf_lst_add_tail iter_idx)
    else on_lst (ocf_lst_add_before pos_idx iter_idx).

Fixpoint sort_loop (cmp : Z -> Z -> M S Z) (n fuel : nat) (iter_idx next_idx : Z) : M S unit :=
  if iter_idx =? invalid then mret tt
  else
    match fuel with
    | O => bug
    | Datatypes.S fuel =>
      sort_step cmp n iter_idx;;
      iter ← on_lst (getter next_idx);
      sort_loop cmp n fuel next_idx (next iter)
    end.

Definition ocf_lst_sort (cmp : option (Z -> Z -> M S Z)) : M S unit :=
  match cmp with
  | None => mret tt
  | Some cmp =>
    e ← on_lst ocf_lst_empty;
    if (e : bool) then mret tt
    else
      n ← gets (fun s => size (get s));
      head ← on_lst (getter invalid);
      let iter_idx := next head in
      iter ← on_lst (getter iter_idx);
      let next_idx := next iter in
      on_lst (getter next_idx);;
      on_lst (lset_next invalid invalid);; on_lst (lset_prev invalid invalid);;
      sort_loop cmp n n iter_idx next_idx
  end.
End sort.

(** ** The operations on a circle

    An entry that is on no list. *)
Definition OUT : list_head := mkHead OCF_LST_ENTRY_OUT OCF_LST_ENTRY_OUT.

Lemma alter_prev_next (m : L) x y v w :
  alter (Dll.set_prev v) x (alter (Dll.set_next w) y m) = alter (Dll.set_next w) y (alter (Dll.set_prev v) x m).
Proof.
  destruct (decide (x = y)) as [->|Hne]; [|by apply alter_alter_ne].
  rewrite !alter_alter_eq. apply alter_ext. by intros [] _.
Qed.

(** The memories that the operations of EnvList leave, written out. *)
Lemma ring_add m h l it : ring m h l -> it ∉ h :: l -> is_Some (m !! it) ->
  ring (alter (Dll.set_next it) h (alter (Dll.set_prev it) (hd_or h l) (alter (Dll.set_next (hd_or h l)) it (alter (Dll.set_prev h) it m)))) h (it :: l).
Proof.
  intros Hr Hit Ha. pose proof (ring_links _ _ _ Hr) as Hh. assert (it <> h) by set_solver.
  assert (hd_or h l ∈ h :: l) as Hin by (destruct l; set_solver). pose proof (ring_lookup _ _ _ _ Hr Hin).
  assert (wp (list_add it h) (fun _ m' => m' = alter (Dll.set_next it) h (alter (Dll.set_prev it) (hd_or h l) (alter (Dll.set_next (hd_or h l)) it (alter (Dll.set_prev h) it m)))) m)
    as ([] & m' & Hrun & ->).
  { unfold list_add. lput. lread (rewrite lookup_alter_ne). lput. lread (rewrite !lookup_alter_ne). do 2 lput. done. }
  apply (wp_run _ _ _ _ _ Hrun (list_add_run _ _ _ _ Hr Hit Ha)).
Qed.

Lemma ring_add_tail m h l it : ring m h l -> it ∉ h :: l -> is_Some (m !! it) ->
  ring (alter (Dll.set_prev it) h (alter (Dll.set_next it) (last_or h l) (alter (Dll.set_next h) it (alter (Dll.set_prev (last_or h l)) it m)))) h (l ++ [it]).
Proof.
  intros Hr Hit Ha. pose proof (ring_links _ _ _ Hr) as Hh. assert (it <> h) by set_solver.
  assert (last_or h l ∈ h :: l) as Hin by (destruct l as [|? ? _] using rev_ind; [set_solver|rewrite last_or_snoc; set_solver]).
  pose proof (ring_lookup _ _ _ _ Hr Hin).
  assert (wp (list_add_tail it h) (fun _ m' => m' = alter (Dll.set_prev it) h (alter (Dll.set_next it) (last_or h l) (alter (Dll.set_next h) it (alter (Dll.set_prev (last_or h l)) it m)))) m)
    as ([] & m' & Hrun & ->).
  { unfold list_add_tail. lread (idtac). do 2 lput. lread (rewrite !lookup_alter_ne). do 2 lput. done. }
  apply (wp_run _ _ _ _ _ Hrun (list_add_tail_run _ _ _ _ Hr Hit Ha)).
Qed.

Lemma ring_del m h l1 it l2 : ring m h (l1 ++ it :: l2) ->
  ring (alter (Dll.set_prev (last_or h l1)) (hd_or h l2) (alter (Dll.set_next (hd_or h l2)) (last_or h l1) m)) h (l1 ++ l2).
Proof.
  intros Hr. pose proof (ring_links_at _ _ _ _ _ Hr) as Hi. set (n := hd_or h l2) in *. set (p := last_or h l1) in *.
  assert (n ∈ h :: l1 ++ l2) as Hn by (unfold n; destruct l2; set_solver).
  assert (p ∈ h :: l1 ++ l2) as Hp by (unfold p; destruct l1 as [|? ? _] using rev_ind; [set_solver|rewrite last_or_snoc; set_solver]).
  assert (it ∉ h :: l1 ++ l2) as Hit.
  { destruct Hr as [Hnd _]. rewrite app_comm_cons, <- Permutation_middle in Hnd. by apply NoDup_cons in Hnd as [? _]. }
  assert (n <> it) by congruence. assert (p <> it) by congruence.
  pose proof (ring_lookup _ _ _ n Hr ltac:(set_solver)). pose proof (ring_lookup _ _ _ p Hr ltac:(set_solver)).
  assert (wp (list_del it) (fun _ m' => m' = alter (Dll.set_prev p) n (alter (Dll.set_next n) p m)) m) as ([] & m' & Hrun & ->).
  { unfold list_del. lread (idtac). cbn [next prev]. lput. lread (rewrite lookup_alter_ne). lput. cbn [next prev]. by rewrite alter_prev_next. }
  apply (wp_run _ _ _ _ _ Hrun (list_del_run _ _ _ _ _ Hr)).
Qed.

(** A list [l] of indices below [invalid]. *)
Definition lst (m : L) (l : list Z) : Prop := ring m invalid l /\ forall x, x ∈ l -> 0 <= x < invalid.

Lemma lst_lookup m l x : lst m l -> x ∈ invalid :: l -> exists e, m !! x = Some e /\ next e ∈ invalid :: l /\ prev e ∈ invalid :: l.
Proof.
  intros [Hr _] Hx. assert (exists l1 l2, ring m x (l1 ++ l2) /\ invalid :: l ≡ₚ x :: l1 ++ l2) as (l1 & l2 & Hr' & Hp).
  { apply elem_of_cons in Hx as [->|Hx]; [by exists [], l|]. apply list_elem_of_split in Hx as (l1 & l2 & ->).
    exists l2, (invalid :: l1). split; [by apply ring_rotate|]. rewrite !app_comm_cons. by rewrite (Permutation_app_comm (x :: l2)). }
  eexists. split; [apply (ring_links _ _ _ Hr')|]. cbn. rewrite Hp. set (l' := l1 ++ l2). split.
  - destruct l'; cbn; set_solver.
  - destruct l' as [|? ? _] using rev_ind; [cbn; set_solver|]. rewrite last_or_snoc. set_solver.
Qed.

Lemma wp_dbg_in {A} m l x e (k : M L A) Q s : lst m l -> m !! x = Some e -> x ∈ invalid :: l -> wp k Q s ->
  wp (OCF_LST_DBG_ON (negated (ocf_lst_is_entry e));; k) Q s.
Proof.
  intros Hl He Hx HQ. destruct (lst_lookup _ _ _ Hl Hx) as (e' & He' & Hn & Hp). simplify_eq.
  assert (forall y, y ∈ invalid :: l -> y <= invalid) as Hb. { intros y [->|Hy]%elem_of_cons; [done|]. apply Hl in Hy. lia. }
  apply Hb in Hn. apply Hb in Hp. unfold OCF_LST_DBG_ON, negated, ocf_lst_is_entry, OCF_LST_ENTRY_OUT.
  rewrite (proj2 (Z.eqb_neq (next e) _)), (proj2 (Z.ltb_lt (next e) _)), (proj2 (Z.ltb_lt (prev e) _)) by lia. cbn [andb]. by repeat wp_step.
Qed.

Lemma wp_dbg_out {A} (k : M L A) Q s : wp k Q s -> wp (OCF_LST_DBG_ON (ocf_lst_is_entry OUT);; k) Q s.
Proof.
  intros HQ. unfold OCF_LST_DBG_ON, ocf_lst_is_entry, OUT. cbn [next prev]. rewrite Z.eqb_refl. cbn [andb]. by repeat wp_step.
Qed.

(** The rest of a list operation: the checks, and the writes. *)
Ltac dbg H := first [apply wp_dbg_out|eapply (wp_dbg_in _ _ _ _ _ _ _ H); [by eassumption|by first [done|set_solver]|]].

Lemma lst_out m l it : lst m l -> 0 <= it < invalid -> it ∉ l -> it ∉ invalid :: l.
Proof. intros _ Hb Hit [->|?]%elem_of_cons; [lia|done]. Qed.

Lemma ocf_lst_add_run m l it : lst m l -> 0 <= it < invalid -> it ∉ l -> m !! it = Some OUT ->
  wp (ocf_lst_add it) (fun _ m' => lst m' (it :: l) /\ forall x, x ∉ it :: invalid :: l -> m' !! x = m !! x) m.
Proof.
  intros Hl Hb Hit Hm. destruct (lst_lookup m l invalid Hl) as (h & Hh & Hn & _); [set_solver|].
  destruct (lst_lookup m l _ Hl Hn) as (n & Hm2 & _). pose proof (ring_links _ _ _ (proj1 Hl)) as Hhd. simplify_eq. cbn [next] in *.
  pose proof (lst_out _ _ _ Hl Hb Hit) as Hni. assert (it <> hd_or invalid l) by congruence. assert (it <> invalid) by lia.
  unfold ocf_lst_add. lread eassumption. lread eassumption. cbn [next]. lread eassumption. do 2 dbg Hl. do 4 lput. cbn [next].
  pose proof (ring_add _ _ _ it (proj1 Hl) Hni ltac:(by eexists)) as Hr.
  rewrite alter_prev_next, (alter_alter_ne _ _ _ it), alter_prev_next by done. split; [split; [done|]|].
  - intros x [->|Hx]%elem_of_cons; [done|by apply Hl].
  - intros x Hx. rewrite !lookup_alter_ne by set_solver. done.
Qed.

Lemma ocf_lst_add_tail_run m l it : lst m l -> 0 <= it < invalid -> it ∉ l -> m !! it = Some OUT ->
  wp (ocf_lst_add_tail it) (fun _ m' => lst m' (l ++ [it]) /\ forall x, x ∉ it :: invalid :: l -> m' !! x = m !! x) m.
Proof.
  intros Hl Hb Hit Hm. destruct (lst_lookup m l invalid Hl) as (h & Hh & _ & Hn); [set_solver|].
  destruct (lst_lookup m l _ Hl Hn) as (n & Hm2 & _). pose proof (ring_links _ _ _ (proj1 Hl)) as Hhd. simplify_eq. cbn [prev] in *.
  pose proof (lst_out _ _ _ Hl Hb Hit) as Hni. assert (it <> last_or invalid l) by congruence. assert (it <> invalid) by lia.
  unfold ocf_lst_add_tail. lread eassumption. lread eassumption. cbn [prev]. lread eassumption. do 2 dbg Hl. do 4 lput. cbn [prev].
  pose proof (ring_add_tail _ _ _ it (proj1 Hl) Hni ltac:(by eexists)) as Hr.
  rewrite (alter_prev_next _ it it). split; [split; [done|]|].
  - intros x [Hx|Hx%list_elem_of_singleton]%elem_of_app; [by apply Hl|by subst].
  - intros x Hx. rewrite !lookup_alter_ne by set_solver. done.
Qed.

(** Before the entry [at_], the end of the circle that it is the head of. *)
Lemma ocf_lst_add_before_run m l1 at_ l2 it : lst m (l1 ++ at_ :: l2) -> 0 <= it < invalid -> it ∉ l1 ++ at_ :: l2 -> m !! it = Some OUT ->
  wp (ocf_lst_add_before at_ it) (fun _ m' => lst m' (l1 ++ it :: at_ :: l2) /\ forall x, x ∉ it :: invalid :: l1 ++ at_ :: l2 -> m' !! x = m !! x) m.
Proof.
  intros Hl Hb Hit Hm. destruct (lst_lookup m _ at_ Hl) as (h & Hh & _ & Hn); [set_solver|].
  destruct (lst_lookup m _ _ Hl Hn) as (n & Hm2 & _). pose proof (ring_rotate _ _ _ _ _ (proj1 Hl)) as Hro.
  pose proof (ring_links _ _ _ Hro) as Hhd. simplify_eq. cbn [prev] in *. pose proof (lst_out _ _ _ Hl Hb Hit) as Hni.
  set (p := last_or at_ _) in *. assert (it <> p) by congruence. assert (it <> at_) by set_solver.
  unfold ocf_lst_add_before. lread eassumption. cbn [prev]. lread eassumption. lread eassumption. do 3 dbg Hl. do 4 lput. cbn [prev].
  pose proof (ring_add_tail _ _ _ it Hro ltac:(set_solver) ltac:(by eexists)) as Hr. fold p in Hr.
  rewrite <- (alter_prev_next _ at_ p), (alter_prev_next _ it it). rewrite <- app_assoc in Hr. split; [split|].
  - apply ring_rotate in Hr. by rewrite <- app_assoc in Hr.
  - intros x Hx. assert (x = it \/ x ∈ l1 ++ at_ :: l2) as [->|Hx'] by set_solver; [done|by apply Hl].
  - intros x Hx. unfold p in *. rewrite !lookup_alter_ne by set_solver. done.
Qed.

Lemma ocf_lst_add_after_run m l1 at_ l2 it : lst m (l1 ++ at_ :: l2) -> 0 <= it < invalid -> it ∉ l1 ++ at_ :: l2 -> m !! it = Some OUT ->
  wp (ocf_lst_add_after at_ it) (fun _ m' => lst m' (l1 ++ at_ :: it :: l2) /\ forall x, x ∉ it :: invalid :: l1 ++ at_ :: l2 -> m' !! x = m !! x) m.
Proof.
  intros Hl Hb Hit Hm. destruct (lst_lookup m _ at_ Hl) as (h & Hh & Hn & _); [set_solver|].
  destruct (lst_lookup m _ _ Hl Hn) as (n & Hm2 & _). pose proof (ring_rotate _ _ _ _ _ (proj1 Hl)) as Hro.
  pose proof (ring_links _ _ _ Hro) as Hhd. simplify_eq. cbn [next] in *. pose proof (lst_out _ _ _ Hl Hb Hit) as Hni.
  set (p := hd_or at_ _) in *. assert (it <> p) by congruence. assert (it <> at_) by set_solver.
  unfold ocf_lst_add_after. lread eassumption. cbn [next]. lread eassumption. lread eassumption. do 3 dbg Hl. do 4 lput. cbn [next].
  pose proof (ring_add _ _ _ it Hro ltac:(set_solver) ltac:(by eexists)) as Hr. fold p in Hr.
  rewrite (alter_prev_next _ p at_), (alter_prev_next _ it it). split; [split|].
  - rewrite app_comm_cons in Hr. apply ring_rotate in Hr. done.
  - intros x Hx. assert (x = it \/ x ∈ l1 ++ at_ :: l2) as [->|Hx'] by set_solver; [done|by apply Hl].
  - intros x Hx. unfold p in *. rewrite !lookup_alter_ne by set_solver. done.
Qed.

Lemma wp_init_entry m it Q : is_Some (m !! it) -> Q tt (<[it := OUT]> m) -> wp (ocf_lst_init_entry it) Q m.
Proof.
  intros [[nx pv] Hm] HQ. unfold ocf_lst_init_entry. do 2 lput.
  replace (alter _ it _) with (<[it := OUT]> m); [done|]. rewrite alter_alter_eq. apply map_eq. intros x.
  destruct (decide (x = it)) as [->|]; [by rewrite lookup_insert_eq, lookup_alter_eq, Hm|by rewrite lookup_insert_ne, lookup_alter_ne].
Qed.

Lemma ocf_lst_del_run m l1 it l2 : lst m (l1 ++ it :: l2) -> wp (ocf_lst_del it) (fun _ m' =>
  lst m' (l1 ++ l2) /\ m' !! it = Some OUT /\ forall x, x ∉ invalid :: l1 ++ it :: l2 -> m' !! x = m !! x) m.
Proof.
  intros Hl. destruct (lst_lookup _ _ it Hl) as (e & He & Hn & Hp); [set_solver|].
  destruct (lst_lookup _ _ _ Hl Hn) as (en & Hen & _), (lst_lookup _ _ _ Hl Hp) as (ep & Hep & _).
  pose proof (ring_links_at _ _ _ _ _ (proj1 Hl)) as Hi. simplify_eq. cbn [next prev] in *.
  pose proof (ring_del _ _ _ _ _ (proj1 Hl)) as Hr. set (n := hd_or invalid l2) in *. set (p := last_or invalid l1) in *.
  assert (it ∉ invalid :: l1 ++ l2) as Hit.
  { destruct Hl as [[Hnd _] _]. rewrite app_comm_cons, <- Permutation_middle in Hnd. by apply NoDup_cons in Hnd as [? _]. }
  assert (n ∈ invalid :: l1 ++ l2) as Hn' by (unfold n; destruct l2; set_solver).
  assert (p ∈ invalid :: l1 ++ l2) as Hp' by (unfold p; destruct l1 as [|? ? _] using rev_ind; [set_solver|rewrite last_or_snoc; set_solver]).
  assert (n <> it) by congruence. assert (p <> it) by congruence.
  unfold ocf_lst_del. lread eassumption. cbn [next prev]. lread eassumption. lread eassumption. do 3 dbg Hl.
  lread eassumption. lput. lread (rewrite lookup_alter_ne). lput. cbn [next prev]. apply wp_init_entry.
  { rewrite !lookup_alter_ne by done. by eexists. }
  split_and!; [split| |].
  - eapply ring_frame; [|exact Hr]. intros x Hx. rewrite lookup_insert_ne; [done|set_solver].
  - intros x Hx. apply Hl. set_solver.
  - apply lookup_insert_eq.
  - intros x Hx. rewrite lookup_insert_ne, !lookup_alter_ne; [done|set_solver..].
Qed.

Lemma ocf_lst_empty_run m l : lst m l -> ocf_lst_empty m = Some (bool_decide (l = []), m).
Proof. intros [Hr _]. by apply list_empty_run in Hr. Qed.

Lemma lst_elements_run m l : lst m l -> lst_elements m = Some (l, m).
Proof.
  intros [Hr _]. unfold lst_elements, ocf_lst_head. rewrite bind_run. cbn [gets]. rewrite !bind_run. unfold getter, lget at 1.
  rewrite (ring_links _ _ _ Hr). cbn. pose proof (ring_size _ _ _ Hr) as Hsz. revert Hsz. generalize (size m). intros n Hn.
  assert (forall l1 l2, l = l1 ++ l2 -> (length l2 <= n)%nat -> for_each_lst n (hd_or invalid l2) m = Some (l2, m)) as IH; [|by apply (IH []); [|lia]].
  clear Hn. induction n as [|n IH]; intros l1 [|x l2] -> Hle; cbn in Hle; try lia; cbn [for_each_lst]; try (change (hd_or invalid (x :: l2)) with x); try (cbn; rewrite Z.eqb_refl; done).
  assert (x <> invalid). { destruct Hr as [[Hx _]%NoDup_cons _]. set_solver. } rewrite (proj2 (Z.eqb_neq x _)) by done.
  rewrite bind_run. unfold getter, lget. rewrite (ring_links_at _ _ _ _ _ Hr). cbn [fmap option_fmap option_map next].
  rewrite bind_run. erewrite (IH (l1 ++ [x])); [done|by rewrite <- app_assoc|lia].
Qed.

Lemma ocf_lst_init_run m : 0 <= invalid -> (forall x, 0 <= x <= invalid -> is_Some (m !! x)) ->
  wp ocf_lst_init (fun _ m' => lst m' [] /\ (forall x, 0 <= x < invalid -> m' !! x = Some OUT) /\
    forall x, ~ 0 <= x <= invalid -> m' !! x = m !! x) m.
Proof.
  intros Hp Hm. destruct (Hm invalid) as [[nx pv] Hi]; [lia|]. unfold ocf_lst_init. do 2 lput.
  apply (wp_for_range _ (fun i m' => lst m' [] /\ (forall x, 0 <= x < i -> m' !! x = Some OUT) /\ (forall x, 0 <= x <= invalid -> is_Some (m' !! x)) /\
    forall x, ~ 0 <= x <= invalid -> m' !! x = m !! x)).
  - intros i m' Hr (Hl & Ho & Hs & Hf). apply wp_init_entry; [apply Hs; lia|]. split_and!.
    + split; [|set_solver]. eapply ring_frame; [|apply Hl]. intros x Hx. rewrite lookup_insert_ne; [done|]. apply list_elem_of_singleton in Hx. lia.
    + intros x Hx. destruct (decide (x = i)) as [->|]; [apply lookup_insert_eq|]. rewrite lookup_insert_ne by done. apply Ho. lia.
    + intros x Hx. apply lookup_insert_is_Some'. right. by apply Hs.
    + intros x Hx. rewrite lookup_insert_ne by lia. by apply Hf.
  - split_and!.
    + split; [|set_solver]. split; [apply NoDup_singleton|]. cbn. unfold links. rewrite !lookup_alter_eq, Hi. done.
    + intros x Hx. lia.
    + intros x Hx. there.
    + intros x Hx. rewrite !lookup_alter_ne by lia. done.
  - intros m' (Hl & Ho & _ & Hf). split_and!; [done| |done]. intros x Hx. apply Ho. lia.
Qed.

(** ** Sorting

    [gt a b] says that the comparison is positive.  [I X] is what the callback
    keeps, where the set [X] has all indices that were compared. *)
Section sort_run.
Context {S : Type} (get : S -> L) (set : L -> S -> S) (cmp : Z -> Z -> M S Z).
Context (gt : Z -> Z -> Prop) (I : gset Z -> S -> Prop).
Hypothesis get_set : forall m s, get (set m s) = m.
Hypothesis I_set : forall X m s, I X s -> I X (set m s).
Hypothesis cmp_run : forall X a b s, I X s -> 0 <= a < invalid -> 0 <= b < invalid ->
  wp (cmp a b) (fun c s' => (0 < c <-> gt a b) /\ get s' = get s /\ I ({[a; b]} ∪ X) s') s.
Hypothesis gt_asym : forall a b, gt a b -> ~ gt b a.
Hypothesis gt_trans : forall a b c, ~ gt a b -> ~ gt b c -> ~ gt a c.

Definition sorted : list Z -> Prop := StronglySorted (fun a b => ~ gt a b).

Lemma sorted_insert l1 it l2 : sorted (l1 ++ l2) -> Forall (fun y => ~ gt y it) l1 ->
  match l2 with [] => True | p :: _ => gt p it end -> sorted (l1 ++ it :: l2).
Proof.
  intros Hs Hf Hp. unfold sorted in *. apply StronglySorted_app in Hs as (Hc & H1 & H2). apply StronglySorted_app. split_and!; [|done|].
  - intros x y Hx [->|Hy]%elem_of_cons; [by eapply Forall_forall in Hf|by apply Hc].
  - constructor; [done|]. destruct l2 as [|p l2]; [done|]. apply gt_asym in Hp. inversion H2 as [|? ? ? Hl]; subst.
    constructor; [done|]. eapply Forall_impl; [exact Hl|]. intros y Hy. by eapply gt_trans.
Qed.

Lemma wp_on {A} (m : M L A) Q s : wp m (fun a t => Q a (set t s)) (get s) -> wp (on_lst get set m) Q s.
Proof. apply wp_zoom. Qed.

(** The search, from the position in front of [l2] on. *)
Lemma find_pos_run X l1 l2 it s fuel : lst (get s) (l1 ++ l2) -> I X s -> 0 <= it < invalid -> (length l2 <= fuel)%nat ->
  Forall (fun y => ~ gt y it) l1 ->
  wp (find_pos get set cmp fuel (hd_or invalid l2) it) (fun pos s' => get s' = get s /\ exists X' l1' l2',
    l1 ++ l2 = l1' ++ l2' /\ pos = hd_or invalid l2' /\ Forall (fun y => ~ gt y it) l1' /\
    match l2' with [] => True | p :: _ => gt p it end /\ I X' s' /\ X ⊆ X' /\ (l2 <> [] -> {[hd_or invalid l2; it]} ⊆ X')) s.
Proof.
  revert X l1 l2 s. induction fuel as [|fuel IH]; intros X l1 l2 s Hl HI Hit Hf Hle; destruct l2 as [|p l2]; cbn in Hf; try lia; cbn [find_pos].
  1,2: change (hd_or invalid []) with invalid; rewrite Z.eqb_refl; apply wp_ret; split; [done|]; by exists X, l1, [].
  change (hd_or invalid (p :: l2)) with p. pose proof (proj2 Hl p ltac:(set_solver)) as Hp. rewrite (proj2 (Z.eqb_neq p _)) by lia.
  wp_step. eapply wp_mono; [by apply cmp_run|]. intros c s1 (Hc & Hg & HI1). cbn beta. destruct (Z.ltb_spec 0 c) as [Hgt|Hngt].
  - apply wp_ret. split; [done|]. exists ({[p; it]} ∪ X), l1, (p :: l2). split_and!; [done..|by apply Hc|done|set_solver|set_solver].
  - wp_step. apply wp_on. rewrite Hg. eapply wp_lget; [by apply (ring_links_at _ _ _ _ _ (proj1 Hl))|]. cbn [next].
    assert (l1 ++ p :: l2 = (l1 ++ [p]) ++ l2) as He by by rewrite <- app_assoc. rewrite He in Hl.
    eapply wp_mono; [apply (IH ({[p; it]} ∪ X) (l1 ++ [p]) l2)|].
    + by rewrite get_set.
    + by apply I_set.
    + done.
    + lia.
    + apply Forall_app. split; [done|]. apply Forall_singleton. rewrite <- Hc. lia.
    + intros pos s2 (Hg2 & X' & l1' & l2' & Heq & ? & ? & ? & ? & HX & _). rewrite Hg2, get_set. split; [done|].
      exists X', l1', l2'. rewrite He. split_and!; [done..|set_solver|set_solver].
Qed.

(** One element is put in its place.  An element that is not in the new list keeps
    its entry. *)
Lemma sort_step_run X l it s fuel : lst (get s) l -> I X s -> sorted l -> 0 <= it < invalid -> it ∉ l -> (length l <= fuel)%nat ->
  is_Some (get s !! it) -> (2 <= length l -> list_to_set l ⊆ X)%nat ->
  wp (sort_step get set cmp fuel it) (fun _ s' => exists X' l', lst (get s') l' /\ l' ≡ₚ it :: l /\ sorted l' /\ I X' s' /\
    (l <> [] -> list_to_set l' ⊆ X') /\ forall x, x ∉ it :: invalid :: l -> get s' !! x = get s !! x) s.
Proof.
  intros Hl HI Hs Hit Hnew Hf Hm HX. unfold sort_step. wp_step. apply wp_on. apply wp_init_entry; [done|].
  set (s1 := set _ s). assert (get s1 = <[it := OUT]> (get s)) as Hg1 by apply get_set.
  assert (lst (get s1) l) as Hl1.
  { rewrite Hg1. split; [|apply Hl]. eapply ring_frame; [|apply Hl]. intros x Hx. rewrite lookup_insert_ne; [done|set_solver by lia]. }
  assert (I X s1) as HI1 by by apply I_set.
  assert (get s1 !! it = Some OUT) as Ho by (rewrite Hg1; apply lookup_insert_eq).
  assert (forall x, x <> it -> get s1 !! x = get s !! x) as Hfr by (intros x Hx; rewrite Hg1; by apply lookup_insert_ne).
  cbn beta. wp_step. apply wp_on. exists (bool_decide (l = [])), (get s1). split; [by apply ocf_lst_empty_run|].
  set (s2 := set _ s1). assert (get s2 = get s1) as Hg2 by apply get_set. assert (I X s2) as HI2 by by apply I_set. clearbody s1 s2.
  destruct (bool_decide_reflect (l = [])) as [->|Hne].
  - apply wp_on. rewrite Hg2. eapply wp_mono; [by apply ocf_lst_add_run|]. intros [] m' [Hl' Hf']. exists X, [it]. rewrite get_set.
    split_and!; [done|done|repeat constructor|by apply I_set|done|]. intros x Hx. rewrite Hf', Hfr; [done|set_solver..].
  - wp_step. apply wp_on. rewrite Hg2. eapply wp_lget; [by apply ring_links, Hl1|]. cbn [next]. wp_step.
    eapply wp_mono; [apply (find_pos_run X [] l)|]; [by rewrite get_set|by apply I_set|done|done|constructor|].
    intros pos s3 (Hg3 & X' & l1 & l2 & Heq & -> & Hle & Hgt & HI3 & HXX & HXh). rewrite get_set in Hg3. cbn [app] in Heq. subst l.
    assert (forall l', l' ≡ₚ it :: l1 ++ l2 -> list_to_set l' ⊆ X') as Hcov.
    { specialize (HXh Hne). intros l' Hp y Hy%elem_of_list_to_set. rewrite Hp in Hy. apply elem_of_cons in Hy as [->|Hy]; [set_solver|].
      destruct (l1 ++ l2) as [|z [|z' l]] eqn:Hl12; [done| |]; [apply list_elem_of_singleton in Hy as ->; set_solver|].
      apply HXX, HX; [cbn; lia|]. by apply elem_of_list_to_set. }
    pose proof (sorted_insert _ it _ Hs Hle Hgt) as Hs'. destruct l2 as [|p l2].
    + change (hd_or invalid []) with invalid. rewrite Z.eqb_refl. apply wp_on. rewrite Hg3. rewrite app_nil_r in *.
      eapply wp_mono; [by apply ocf_lst_add_tail_run|]. intros [] m' [Hl' Hf']. exists X', (l1 ++ [it]). rewrite get_set.
      assert (l1 ++ [it] ≡ₚ it :: l1) as Hp by (by rewrite Permutation_app_comm). split_and!; [done..|by apply I_set|by intros _; apply Hcov|].
      intros x Hx. rewrite Hf', Hfr; [done|set_solver..].
    + change (hd_or invalid (p :: l2)) with p. pose proof (proj2 Hl p ltac:(set_solver)). rewrite (proj2 (Z.eqb_neq p _)) by lia.
      apply wp_on. rewrite Hg3. eapply wp_mono; [by apply ocf_lst_add_before_run|]. intros [] m' [Hl' Hf']. exists X', (l1 ++ it :: p :: l2).
      rewrite get_set. assert (l1 ++ it :: p :: l2 ≡ₚ it :: l1 ++ p :: l2) as Hp by (by rewrite Permutation_middle).
      split_and!; [done..|by apply I_set|by intros _; apply Hcov|]. intros x Hx. rewrite Hf', Hfr; [done|set_solver..].
Qed.

(** The elements that wait, each with a link to the next. *)
Fixpoint chain (m : L) (l : list Z) : Prop :=
  match l with [] => True | x :: l => (exists pv, m !! x = Some (mkHead (hd_or invalid l) pv)) /\ chain m l end.

Lemma chain_frame m m' l : (forall x, x ∈ l -> m' !! x = m !! x) -> chain m l -> chain m' l.
Proof.
  induction l as [|x l IH]; [done|]. intros Hf [Hx Hc]. split; [by rewrite Hf by left|]. apply IH; [|done]. intros y Hy. apply Hf. by right.
Qed.

Lemma ring_chain m h l1 l : h = invalid -> ring m h (l1 ++ l) -> chain m l.
Proof.
  intros ->. revert l1. induction l as [|x l IH]; intros l1 Hr; [done|]. split; [|apply (IH (l1 ++ [x])); by rewrite <- app_assoc].
  eexists. apply (ring_links_at _ _ _ _ _ Hr).
Qed.

Lemma sort_loop_run n todo : forall X l s fuel nx, lst (get s) l -> I X s -> sorted l -> NoDup (todo ++ l) ->
  (forall x, x ∈ todo -> 0 <= x < invalid) -> chain (get s) todo -> match todo with [] => True | _ :: r => nx = hd_or invalid r end ->
  (length (todo ++ l) <= n)%nat -> (length todo <= fuel)%nat -> (2 <= length l -> list_to_set l ⊆ X)%nat ->
  wp (sort_loop get set cmp n fuel (hd_or invalid todo) nx) (fun _ s' => exists X' l', lst (get s') l' /\ l' ≡ₚ todo ++ l /\ sorted l' /\
    I X' s' /\ (2 <= length l' -> list_to_set l' ⊆ X')%nat /\ forall x, x ∉ invalid :: todo ++ l -> get s' !! x = get s !! x) s.
Proof.
  induction todo as [|it todo IH]; intros X l s fuel nx Hl HI Hs Hnd Hb Hc Hnx Hn Hf HX.
  { destruct fuel; cbn [sort_loop]; change (hd_or invalid []) with invalid; rewrite Z.eqb_refl; apply wp_ret; by exists X, l. }
  destruct fuel as [|fuel]; [cbn in Hf; lia|]. cbn [sort_loop]. change (hd_or invalid (it :: todo)) with it. subst nx.
  pose proof (Hb it ltac:(by left)) as Hit. rewrite (proj2 (Z.eqb_neq it _)) by lia.
  cbn [app] in Hnd. apply NoDup_cons in Hnd as [Hnin Hnd]. destruct Hc as [[pv Hpv] Hc]. cbn [length app] in Hn, Hf.
  wp_step. eapply wp_mono; [apply (sort_step_run X l); try done; [set_solver|rewrite length_app in Hn; lia]|].
  intros [] s1 (X1 & l1 & Hl1 & Hp1 & Hs1 & HI1 & HX1 & Hf1). cbn beta.
  assert (forall x, x ∈ todo -> x ∉ it :: invalid :: l) as Hdis.
  { intros x Hx. pose proof (Hb x ltac:(by right)). apply NoDup_app in Hnd as (_ & Hd & _). specialize (Hd x Hx).
    intros [->|[->|?]%elem_of_cons]%elem_of_cons; [set_solver|lia|done]. }
  assert (chain (get s1) todo) as Hc1 by (eapply chain_frame; [|exact Hc]; intros x Hx; by apply Hf1, Hdis).
  assert (exists e, get s1 !! hd_or invalid todo = Some e /\ match todo with [] => True | _ :: r => next e = hd_or invalid r end) as (e & He & Hne).
  { destruct todo as [|y todo]; [eexists; split; [apply ring_links, Hl1|done]|]. destruct Hc1 as [[pv' ?] _]. by eexists. }
  wp_step. apply wp_on. eapply wp_lget; [exact He|]. eapply wp_mono; [apply (IH X1 l1)|].
  - by rewrite get_set.
  - by apply I_set.
  - done.
  - by rewrite Hp1, <- Permutation_middle; apply NoDup_cons.
  - intros x Hx. apply Hb. by right.
  - by rewrite get_set.
  - done.
  - rewrite Hp1, <- Permutation_middle. done.
  - lia.
  - intros Hlen. apply HX1. intros ->. rewrite (Permutation_length Hp1) in Hlen. cbn in Hlen. lia.
  - intros [] s2 (X2 & l2 & Hl2 & Hp2 & Hs2 & HI2 & HX2 & Hf2). exists X2, l2. rewrite Hp1, <- Permutation_middle in Hp2.
    split_and!; [done..|]. intros x Hx. rewrite Hf2, get_set, Hf1; [done|set_solver|]. rewrite Hp1. set_solver.
Qed.

Lemma wp_on_getter x e Q s X : get s !! x = Some e -> I X s -> (forall s', get s' = get s -> I X s' -> Q e s') -> wp (on_lst get set (getter x)) Q s.
Proof. intros He HI HQ. apply wp_on. eapply wp_lget; [exact He|]. apply HQ; [apply get_set|by apply I_set]. Qed.

(** Sorting permutes the list into order; with two or more elements each of them
    was compared. *)
Lemma ocf_lst_sort_run X l s : lst (get s) l -> I X s -> wp (ocf_lst_sort get set (Some cmp)) (fun _ s' => exists X' l',
  lst (get s') l' /\ l' ≡ₚ l /\ sorted l' /\ I X' s' /\ (2 <= length l -> list_to_set l ⊆ X')%nat /\
  forall x, x ∉ invalid :: l -> get s' !! x = get s !! x) s.
Proof.
  intros Hl HI. unfold ocf_lst_sort. wp_step. apply wp_on. exists (bool_decide (l = [])), (get s). split; [by apply ocf_lst_empty_run|].
  set (s1 := set _ s). assert (get s1 = get s) as Hg1 by apply get_set. assert (I X s1) as HI1 by by apply I_set. clearbody s1.
  destruct (bool_decide_reflect (l = [])) as [->|Hne].
  { apply wp_ret. exists X, []. rewrite Hg1. split_and!; [done|done|constructor|done|cbn; lia|done]. }
  destruct l as [|x l]; [done|]. rewrite <- Hg1 in *. clear s Hg1 HI. pose proof (ring_size _ _ _ (proj1 Hl)) as Hsz.
  pose proof (ring_links _ _ _ (proj1 Hl)) as Hh. pose proof (ring_chain _ _ [] _ eq_refl (proj1 Hl)) as Hc.
  destruct Hl as [Hr Hb]. destruct (Hr) as [[Hi Hnd]%NoDup_cons _].
  assert (exists e, get s1 !! hd_or invalid l = Some e) as [e He] by (destruct l; [by eexists|destruct Hc as [_ [[? ?] _]]; by eexists]).
  wp_step. wp_step. wp_step. eapply wp_on_getter; [exact Hh|exact HI1|]. intros s2 Hg2 HI2. cbn [next]. change (hd_or invalid (x :: l)) with x.
  wp_step. destruct (Hc) as [[pv Hx] _]. eapply wp_on_getter; [by rewrite Hg2|exact HI2|]. intros s3 Hg3 HI3. cbn [next].
  wp_step. eapply wp_on_getter; [by rewrite Hg3, Hg2|exact HI3|]. intros s4 Hg4 HI4. rewrite Hg3, Hg2 in Hg4. clear s2 s3 Hg2 Hg3 HI2 HI3.
  wp_step. apply wp_on, wp_lset_next; [by rewrite Hg4, Hh|]. wp_step. apply wp_on. rewrite get_set, Hg4. apply wp_lset_prev; [there; by rewrite Hh|].
  set (m := alter _ _ _). set (s5 := set m _). assert (get s5 = m) as Hg5 by apply get_set. assert (I X s5) as HI5 by by apply I_set, I_set.
  assert (forall y, y <> invalid -> m !! y = get s1 !! y) as Hm by (intros y Hy; unfold m; by rewrite !lookup_alter_ne).
  assert (lst m []) as Hl0. { split; [|set_solver]. split; [apply NoDup_singleton|]. cbn. unfold links, m. by rewrite !lookup_alter_eq, Hh. }
  eapply wp_mono; [apply (sort_loop_run _ (x :: l) X [])|]; try done.
  - by rewrite Hg5.
  - constructor.
  - by rewrite app_nil_r.
  - rewrite Hg5. eapply chain_frame; [|exact Hc]. intros y Hy. apply Hm. set_solver.
  - rewrite app_nil_r. lia.
  - lia.
  - intros [] s6 (X6 & l6 & Hl6 & Hp6 & Hs6 & HI6 & HX6 & Hf6). rewrite app_nil_r in *. exists X6, l6. split_and!; [done..| |].
    + intros Hlen. rewrite (Permutation_length Hp6) in HX6. intros y Hy%elem_of_list_to_set. apply HX6; [done|].
      apply elem_of_list_to_set. by rewrite Hp6.
    + intros y Hy. rewrite Hf6, Hg5, Hm; [done|set_solver..].
Qed.
End sort_run.
End lst.
