(* ===== verification/UserPart.v ===== *)
(** User partitions and IO classes of OCF: ocf/src/utils/utils_user_part.[ch],
    mngt/ocf_mngt_io_class.c, the start of the partitions in
    mngt/ocf_mngt_cache.c, ocf_io_class.c, and how much may be evicted from a
    partition (ocf_space.c).

    A partition is its number.  Its [config] lies in the metadata and is reached
    through a pointer; [cache->user_parts] holds that pointer and the entry in the
    list of the partitions.  Strings are lists of characters, a [char] has a sign. *)

From Stdlib Require Import String.
From stdpp Require Import sorting.
From S2P Require Import Prelude Dll Meta Request EnvList Lst.

Definition OCF_IO_CLASS_NAME_MAX : Z := 1024.
Definition OCF_IO_CLASS_PRIO_PINNED : Z := -1.
Definition OCF_IO_CLASS_PRIO_HIGHEST : Z := 0.
Definition OCF_IO_CLASS_PRIO_LOWEST : Z := 255.
Definition PARTITION_SIZE_MIN : Z := 0.
Definition PARTITION_SIZE_MAX : Z := 100.
Definition ocf_cache_mode_none : Z := -1.
Definition ocf_cache_mode_max : Z := 6.
Definition SHRT_MAX : Z := 32767.
Definition SHRT_MIN : Z := -32768.
Definition OCF_ERR_IO_CLASS_NOT_EXIST : Z := 1000022.

(** ** Strings *)

Definition chars (s : string) : list Z := (fun a => Z.of_N (Ascii.N_of_ascii a)) <$> list_ascii_of_string s.

(** The characters in front of the first zero. *)
Fixpoint cstr (b : list Z) : list Z :=
  match b with [] => [] | c :: b => if c =? 0 then [] else c :: cstr b end.

(** [strncpy] writes [n] bytes: of the string, then zeros. *)
Definition strncpy (src : list Z) (n : nat) : list Z := take n (cstr src) ++ replicate (n - length (cstr src)) 0.
Definition env_strncpy (dest : list Z) (dmax : Z) (src : list Z) (slen : Z) : list Z :=
  let n := Z.to_nat (Z.min (dmax - 1) slen) in
  <[Z.to_nat (dmax - 1) := 0]> (strncpy src n ++ drop n dest).
Definition env_strnlen (s : list Z) (smax : Z) : Z := Z.min (Z.of_nat (length (cstr s))) smax.
(** Whether the result of [strncmp] is not zero. *)
Definition env_strncmp (s1 : list Z) (slen1 : Z) (s2 : list Z) (slen2 : Z) : bool :=
  let n := Z.to_nat (Z.min slen1 slen2) in negb (bool_decide (take n (cstr s1) = take n (cstr s2))).

(** ** State *)

Record ocf_user_part_config := mkPartConfig {
  name : list Z;
  min_size : Z;
  max_size : Z;
  valid : bool;
  added : bool;
  eviction : bool;
  priority : Z;
  cache_mode : Z;
}.

Definition set_name v (c : ocf_user_part_config) := mkPartConfig v (min_size c) (max_size c) (valid c) (added c) (eviction c) (priority c) (cache_mode c).
Definition set_min_size v (c : ocf_user_part_config) := mkPartConfig (name c) v (max_size c) (valid c) (added c) (eviction c) (priority c) (cache_mode c).
Definition set_max_size v (c : ocf_user_part_config) := mkPartConfig (name c) (min_size c) v (valid c) (added c) (eviction c) (priority c) (cache_mode c).
Definition set_flag_valid v (c : ocf_user_part_config) := mkPartConfig (name c) (min_size c) (max_size c) v (added c) (eviction c) (priority c) (cache_mode c).
Definition set_added v (c : ocf_user_part_config) := mkPartConfig (name c) (min_size c) (max_size c) (valid c) v (eviction c) (priority c) (cache_mode c).
Definition set_eviction v (c : ocf_user_part_config) := mkPartConfig (name c) (min_size c) (max_size c) (valid c) (added c) v (priority c) (cache_mode c).
Definition set_priority v (c : ocf_user_part_config) := mkPartConfig (name c) (min_size c) (max_size c) (valid c) (added c) (eviction c) v (cache_mode c).
Definition set_cache_mode v (c : ocf_user_part_config) := mkPartConfig (name c) (min_size c) (max_size c) (valid c) (added c) (eviction c) (priority c) v.

(** What the array [cache->user_parts] holds itself: the entries [lst_valid] and
    the numbers [part.id]. *)
Record user_parts_array := mkUserParts { lst_valid : gmap Z list_head; ids : gmap Z Z }.

(** [configs] is what the pointers [config] lead to, [freezes] the frozen state of
    [cleaning.counter], [curr_size] that of the runtime metadata; [device] and
    [attached] say that [cache->device] is not NULL and that
    [ocf_cache_is_device_attached] holds. *)
Record parts := mkParts {
  user_parts : user_parts_array;
  configs : gmap Z ocf_user_part_config;
  freezes : gmap Z Z;
  curr_size : gmap Z Z;
  valid_parts_no : Z;
  cachelines : Z;
  cleaning_policy_type : Z;
  device : bool;
  attached : bool;
}.

Definition set_user_parts v (s : parts) := mkParts v (configs s) (freezes s) (curr_size s) (valid_parts_no s) (cachelines s) (cleaning_policy_type s) (device s) (attached s).
Definition set_configs v (s : parts) := mkParts (user_parts s) v (freezes s) (curr_size s) (valid_parts_no s) (cachelines s) (cleaning_policy_type s) (device s) (attached s).
Definition set_freezes v (s : parts) := mkParts (user_parts s) (configs s) v (curr_size s) (valid_parts_no s) (cachelines s) (cleaning_policy_type s) (device s) (attached s).
Definition set_valid_parts_no v (s : parts) := mkParts (user_parts s) (configs s) (freezes s) (curr_size s) v (cachelines s) (cleaning_policy_type s) (device s) (attached s).

Definition lst_of (s : parts) : gmap Z list_head := lst_valid (user_parts s).
Definition set_lst v (s : parts) : parts := set_user_parts (mkUserParts v (ids (user_parts s))) s.
Definition on_list {A} (m : M (gmap Z list_head) A) : M parts A := zoom lst_of set_lst m.

(** [user_part->config]. *)
Definition config_of (id : Z) : M parts ocf_user_part_config := s ← gets configs; lift (s !! id).
Definition upd_config (id : Z) (f : ocf_user_part_config -> ocf_user_part_config) : M parts unit := fun s =>
  match configs s !! id with Some _ => Some (tt, set_configs (alter f id (configs s)) s) | None => None end.
Definition upd_id (id : Z) (v : Z) : M parts unit := modify (fun s => set_user_parts (mkUserParts (lst_of s) (<[id := v]> (ids (user_parts s)))) s).

(** ** utils_user_part.h *)

Definition ocf_user_part_is_valid (c : ocf_user_part_config) : bool := valid c.
Definition ocf_user_part_is_added (c : ocf_user_part_config) : bool := added c.
Definition ocf_user_part_is_enabled (c : ocf_user_part_config) : bool := negb (max_size c =? 0).

Definition ocf_user_part_set_prio (id prio : Z) : M parts unit :=
  c ← config_of id;
  if negb (priority c =? prio) then upd_config id (set_priority prio) else mret tt.

Definition ocf_user_part_get_prio (part_id : Z) : M parts Z :=
  if part_id <? OCF_USER_IO_CLASS_MAX then c ← config_of part_id; mret (priority c) else mret OCF_IO_CLASS_PRIO_LOWEST.

Definition ocf_user_part_class2id (class : Z) : M parts Z :=
  if class <? OCF_USER_IO_CLASS_MAX then
    c ← config_of class;
    mret (if valid c then class else PARTITION_DEFAULT)
  else mret PARTITION_DEFAULT.

Definition ocf_part_get_occupancy (part : Z) : M parts Z := s ← gets curr_size; n ← lift (s !! part); mret (u32 n).

Definition ocf_user_part_get_min_size (part : Z) : M parts Z :=
  c ← config_of part; n ← gets cachelines;
  mret (u32 (u64 (min_size c * n) / 100)).

Definition OCF_DIV_ROUND_UP64 (x y : Z) : Z := u64 (u64 (x + y) - 1) / y.

Definition ocf_user_part_get_max_size (part : Z) : M parts Z :=
  c ← config_of part; n ← gets cachelines;
  mret (u32 (OCF_DIV_ROUND_UP64 (u64 (max_size c * n)) 100)).

Definition ocf_user_part_overflow_size (part : Z) : M parts Z :=
  part_occupancy ← ocf_part_get_occupancy part;
  part_occupancy_limit ← ocf_user_part_get_max_size part;
  mret (if part_occupancy_limit <? part_occupancy then u32 (part_occupancy - part_occupancy_limit) else 0).

Definition ocf_user_part_has_space (req : ocf_request) : M parts bool :=
  part_occupancy_limit ← ocf_user_part_get_max_size (part_id req);
  let needed_cache_lines := u32 (ocf_engine_repart_count req + ocf_engine_unmapped_count req) in
  part_occupancy ← ocf_part_get_occupancy (part_id req);
  mret (u64 (part_occupancy + needed_cache_lines) <=? part_occupancy_limit).

Definition ocf_user_part_get_cache_mode (part_id : Z) : M parts Z :=
  if part_id <? OCF_USER_IO_CLASS_MAX then c ← config_of part_id; mret (cache_mode c) else mret ocf_cache_mode_none.

Definition ocf_user_part_is_prio_valid (prio : Z) : bool :=
  (OCF_IO_CLASS_PRIO_HIGHEST <=? prio) && (prio <=? OCF_IO_CLASS_PRIO_LOWEST) || (prio =? OCF_IO_CLASS_PRIO_PINNED).

(** The characters between the space (32) and the tilde (126), without the comma
    (44) and the double quote (34). *)
Fixpoint name_valid_loop (length : Z) (name : list Z) : bool :=
  match name with
  | [] => true
  | c :: name =>
    if c =? 0 then true
    else if (c <? 32) || (126 <? c) then false
    else if (c =? 44) || (c =? 34) then false
    else if OCF_IO_CLASS_NAME_MAX <=? u32 (length + 1) then false
    else name_valid_loop (u32 (length + 1)) name
  end.
Definition ocf_user_part_is_name_valid (name : list Z) : bool := name_valid_loop 0 name.

(** ** utils_user_part.c *)

Definition part_size (p : Z) : M parts Z :=
  a ← gets attached;
  if (a : bool) then s ← gets curr_size; lift (s !! p) else mret 0.

(** An invalid partition: its value and its flag depend on its size. *)
Definition invalid_value (p size v : Z) : M parts Z :=
  c ← config_of p;
  if valid c then mret v
  else if negb (size =? 0) then upd_config p (set_eviction true);; mret SHRT_MAX
  else upd_config p (set_eviction false);; mret SHRT_MIN.

Definition ocf_user_part_lst_cmp_valid (p1 p2 : Z) : M parts Z :=
  p1_size ← part_size p1;
  p2_size ← part_size p2;
  c1 ← config_of p1; let v1 := priority c1 in
  c2 ← config_of p2; let v2 := priority c2 in
  upd_config p1 (set_eviction (negb (priority c1 =? OCF_IO_CLASS_PRIO_PINNED)));;
  upd_config p2 (set_eviction (negb (priority c2 =? OCF_IO_CLASS_PRIO_PINNED)));;
  v1 ← invalid_value p1 p1_size v1;
  v2 ← invalid_value p2 p2_size v2;
  mret (if v1 =? v2 then p2 - p1 else v2 - v1).

Definition ocf_user_part_init : M parts unit :=
  on_list (ocf_lst_init OCF_USER_IO_CLASS_MAX);;
  for_range (Z.to_nat (OCF_USER_IO_CLASS_MAX + 1)) 0 (fun i => upd_id i i).

Definition ocf_user_part_set_valid (id : Z) (v : bool) : M parts unit :=
  c ← config_of id;
  if xorb v (valid c) then
    if v then
      upd_config id (set_flag_valid true);;
      modify (fun s => set_valid_parts_no (u32 (valid_parts_no s + 1)) s)
    else
      upd_config id (set_flag_valid false);;
      modify (fun s => set_valid_parts_no (u32 (valid_parts_no s - 1)) s);;
      upd_config id (set_priority OCF_IO_CLASS_PRIO_LOWEST);;
      upd_config id (set_min_size 0);;
      upd_config id (set_max_size PARTITION_SIZE_MAX);;
      upd_config id (fun c => set_name (env_strncpy (name c) OCF_IO_CLASS_NAME_MAX (chars "Inactive") 9) c)
  else mret tt.

Definition ocf_user_part_sort : M parts unit :=
  ocf_lst_sort OCF_USER_IO_CLASS_MAX lst_of set_lst (Some ocf_user_part_lst_cmp_valid).

(** The partitions that [for_each_user_part] visits. *)
Definition for_each_user_part : M parts (list Z) := on_list (lst_elements OCF_USER_IO_CLASS_MAX).

(** ** ocf_mngt_io_class.c *)

Definition count_min_size (count part_id : Z) : M parts Z :=
  c ← config_of part_id;
  mret (if ocf_user_part_is_valid c then u64 (count + min_size c) else count).

Fixpoint fold_parts {A} (f : A -> Z -> M parts A) (a : A) (l : list Z) : M parts A :=
  match l with [] => mret a | x :: l => a ← f a x; fold_parts f a l end.

Definition _ocf_mngt_count_user_parts_min_size : M parts Z :=
  l ← for_each_user_part; fold_parts count_min_size 0 l.

Definition ocf_mngt_add_partition_to_cache (part_id : Z) (nm : option (list Z)) (min max prio : Z) (v : bool) : M parts Z :=
  match nm with
  | None => mret (- OCF_ERR_INVAL)
  | Some nm =>
    if OCF_USER_IO_CLASS_MAX <=? part_id then mret (- OCF_ERR_INVAL)
    else
      c ← config_of part_id;
      if valid c then mret (- OCF_ERR_INVAL)
      else if max <? min then mret (- OCF_ERR_INVAL)
      else if PARTITION_SIZE_MAX <? max then mret (- OCF_ERR_INVAL)
      else if OCF_IO_CLASS_NAME_MAX <=? env_strnlen nm OCF_IO_CLASS_NAME_MAX then mret (- OCF_ERR_INVAL)
      else
        l ← for_each_user_part;
        if existsb (Z.eqb part_id) l then mret (- OCF_ERR_INVAL)
        else
          upd_config part_id (fun c => set_name (env_strncpy (name c) OCF_IO_CLASS_NAME_MAX nm OCF_IO_CLASS_NAME_MAX) c);;
          upd_config part_id (set_min_size min);;
          upd_config part_id (set_max_size max);;
          upd_config part_id (set_priority prio);;
          upd_config part_id (set_cache_mode ocf_cache_mode_max);;
          ocf_user_part_set_valid part_id v;;
          on_list (ocf_lst_add OCF_USER_IO_CLASS_MAX part_id);;
          ocf_user_part_sort;;
          upd_config part_id (set_added true);;
          mret 0
  end.

Definition _ocf_mngt_set_partition_size (part_id min max : Z) : M parts Z :=
  if max <? min then mret (- OCF_ERR_INVAL)
  else
    count ← _ocf_mngt_count_user_parts_min_size;
    if PARTITION_SIZE_MAX <? u64 (count + min) then mret (- OCF_ERR_INVAL)
    else
      let max := if PARTITION_SIZE_MAX <? max then PARTITION_SIZE_MAX else max in
      upd_config part_id (set_min_size min);;
      upd_config part_id (set_max_size max);;
      mret 0.

Record ocf_mngt_io_class_config := mkIoClass {
  class_id : Z;
  cfg_max_size : Z;
  cfg_name : option (list Z);
  cfg_cache_mode : Z;
  cfg_prio : Z;
}.

Definition _ocf_mngt_io_class_configure (cfg : ocf_mngt_io_class_config) : M parts Z :=
  let part_id := u16 (class_id cfg) in
  nm ← lift (cfg_name cfg);
  let prio := cfg_prio cfg in let mode := cfg_cache_mode cfg in let min := 0 in let max := cfg_max_size cfg in
  d ← gets device; BUG_ON (negb d);;
  dest_part ← config_of part_id;
  if negb (ocf_user_part_is_added dest_part) then mret (- OCF_ERR_INVAL)
  else if bool_decide (cstr nm = []) then mret (- OCF_ERR_INVAL)
  else if part_id =? PARTITION_DEFAULT then
    if env_strncmp nm OCF_IO_CLASS_NAME_MAX (name dest_part) OCF_IO_CLASS_NAME_MAX then mret (- OCF_ERR_INVAL)
    else
      r ← _ocf_mngt_set_partition_size part_id min max;
      if negb (r =? 0) then mret (- OCF_ERR_INVAL)
      else
        ocf_user_part_set_prio part_id prio;;
        upd_config part_id (set_cache_mode mode);;
        mret 0
  else
    upd_config part_id (fun c => set_name (env_strncpy (name c) OCF_IO_CLASS_NAME_MAX nm OCF_IO_CLASS_NAME_MAX) c);;
    r ← _ocf_mngt_set_partition_size part_id min max;
    if negb (r =? 0) then mret (- OCF_ERR_INVAL)
    else
      dest_part ← config_of part_id;
      (if ocf_user_part_is_valid dest_part then mret tt else ocf_user_part_set_valid part_id true);;
      ocf_user_part_set_prio part_id prio;;
      upd_config part_id (set_cache_mode mode);;
      mret 0.

Definition _ocf_mngt_io_class_remove (cfg : ocf_mngt_io_class_config) : M parts unit :=
  let part_id := u16 (class_id cfg) in
  d ← gets device; BUG_ON (negb d);;
  if part_id =? PARTITION_DEFAULT then mret tt
  else
    dest_part ← config_of part_id;
    if negb (ocf_user_part_is_valid dest_part) then mret tt else ocf_user_part_set_valid part_id false.

Definition _ocf_mngt_io_class_edit (cfg : ocf_mngt_io_class_config) : M parts Z :=
  match cfg_name cfg with
  | Some _ => _ocf_mngt_io_class_configure cfg
  | None => _ocf_mngt_io_class_remove cfg;; mret 0
  end.

Definition _ocf_mngt_io_class_validate_cfg (cfg : ocf_mngt_io_class_config) : Z :=
  if OCF_USER_IO_CLASS_MAX <=? class_id cfg then - OCF_ERR_INVAL
  else
    match cfg_name cfg with
    | None => 0
    | Some nm =>
      if (cfg_cache_mode cfg <? ocf_cache_mode_none) || (ocf_cache_mode_max <? cfg_cache_mode cfg) then - OCF_ERR_INVAL
      else if negb (ocf_user_part_is_name_valid nm) then - OCF_ERR_INVAL
      else if negb (ocf_user_part_is_prio_valid (cfg_prio cfg)) then - OCF_ERR_INVAL
      else if (cfg_max_size cfg <? PARTITION_SIZE_MIN) || (PARTITION_SIZE_MAX <? cfg_max_size cfg) then - OCF_ERR_INVAL
      else 0
    end.

(** The first result that is not 0. *)
Fixpoint validate_loop (cfg : list ocf_mngt_io_class_config) : Z :=
  match cfg with
  | [] => 0
  | c :: cfg => let result := _ocf_mngt_io_class_validate_cfg c in if negb (result =? 0) then result else validate_loop cfg
  end.
Fixpoint edit_loop (cfg : list ocf_mngt_io_class_config) : M parts Z :=
  match cfg with
  | [] => mret 0
  | c :: cfg => result ← _ocf_mngt_io_class_edit c; if negb (result =? 0) then mret result else edit_loop cfg
  end.

(** [cfg] has [OCF_USER_IO_CLASS_MAX] elements; [allocated]: [env_malloc] succeeds. *)
Definition ocf_mngt_cache_io_classes_configure (allocated : bool) (cfg : list ocf_mngt_io_class_config) : M parts Z :=
  let result := validate_loop cfg in
  if negb (result =? 0) then mret result
  else if negb allocated then mret (- OCF_ERR_NO_MEM)
  else
    old_config ← gets user_parts;
    result ← edit_loop cfg;
    (if result =? 0 then ocf_user_part_sort else modify (set_user_parts old_config));;
    mret result.

(** ** ocf_mngt_cache.c *)

Definition freeze_cleaning (i : Z) : M parts unit := fun s =>
  match freezes s !! i with Some n => Some (tt, set_freezes (<[i := s32 (n + 1)]> (freezes s)) s) | None => None end.

Definition __init_partitions : M parts unit :=
  r ← ocf_mngt_add_partition_to_cache PARTITION_DEFAULT (Some (chars "unclassified")) 0 PARTITION_SIZE_MAX OCF_IO_CLASS_PRIO_LOWEST true;
  BUG_ON (negb (r =? 0));;
  for_range (Z.to_nat OCF_USER_IO_CLASS_MAX) 0 (fun i_part =>
    freeze_cleaning i_part;;
    if i_part =? PARTITION_DEFAULT then mret tt
    else
      r ← ocf_mngt_add_partition_to_cache i_part (Some (chars "Inactive")) 0 PARTITION_SIZE_MAX OCF_IO_CLASS_PRIO_LOWEST false;
      BUG_ON (negb (r =? 0))).

(** ** ocf_io_class.c *)

Record ocf_io_class_info := mkIoInfo {
  info_name : list Z;
  info_cache_mode : Z;
  info_priority : Z;
  info_curr_size : Z;
  info_min_size : Z;
  info_max_size : Z;
  info_cleaning_policy_type : Z;
}.

(** The result and what [info] holds then; [info] may be NULL. *)
Definition ocf_cache_io_class_get_info (io_class : Z) (info : option ocf_io_class_info) : M parts (Z * option ocf_io_class_info) :=
  let part_id := u16 io_class in
  match info with
  | None => mret (- OCF_ERR_INVAL, None)
  | Some i =>
    if OCF_USER_IO_CLASS_MAX <=? io_class then mret (- OCF_ERR_INVAL, Some i)
    else
      c ← config_of part_id;
      if negb (ocf_user_part_is_valid c) then mret (- OCF_ERR_IO_CLASS_NOT_EXIST, Some i)
      else
        n ← part_size part_id; t ← gets cleaning_policy_type;
        mret (0, Some (mkIoInfo (env_strncpy (info_name i) (OCF_IO_CLASS_NAME_MAX - 1) (name c) OCF_IO_CLASS_NAME_MAX)
          (cache_mode c) (priority c) (u32 n) (min_size c) (max_size c) t))
  end.

(** The visitor is a callback over a state of its own. *)
Fixpoint visit_loop {C} (visitor : Z -> C -> Z * C) (l : list Z) (result : Z) (cntx : C) : M parts (Z * C) :=
  match l with
  | [] => mret (result, cntx)
  | id :: l =>
    c ← config_of id;
    if negb (ocf_user_part_is_valid c) then visit_loop visitor l result cntx
    else
      let '(result, cntx) := visitor id cntx in
      if negb (result =? 0) then mret (result, cntx) else visit_loop visitor l result cntx
  end.
Definition ocf_io_class_visit {C} (visitor : option (Z -> C -> Z * C)) (cntx : C) : M parts (Z * C) :=
  match visitor with
  | None => mret (- OCF_ERR_INVAL, cntx)
  | Some visitor => l ← for_each_user_part; visit_loop visitor l 0 cntx
  end.

(** ** ocf_space.c *)

Definition ocf_evict_calculate (user_part to_evict : Z) : M parts Z :=
  curr_part_size ← ocf_part_get_occupancy user_part;
  min_part_size ← ocf_user_part_get_min_size user_part;
  if curr_part_size <=? min_part_size then mret 0
  else
    let spare := u32 (curr_part_size - min_part_size) in
    mret (if spare <? to_evict then spare else to_evict).

(** ** The order of the partitions *)

(** The size that the comparison sees. *)
Definition seen_size (s : parts) (p : Z) : Z := if attached s then default 0 (curr_size s !! p) else 0.

(** Where a partition stands, and whether it may be evicted. *)
Definition rank (s : parts) (p : Z) : Z :=
  match configs s !! p with
  | Some c => if valid c then priority c else if seen_size s p =? 0 then SHRT_MIN else SHRT_MAX
  | None => 0
  end.
Definition evictable (s : parts) (p : Z) (c : ocf_user_part_config) : bool :=
  if valid c then negb (priority c =? OCF_IO_CLASS_PRIO_PINNED) else negb (seen_size s p =? 0).

(** [a] is evicted after [b]. *)
Definition behind (s : parts) (a b : Z) : Prop := rank s a < rank s b \/ rank s a = rank s b /\ a < b.

(** Every partition has a config and, in an attached cache, a size. *)
Record parts_wf (s : parts) : Prop := {
  pw_config p : 0 <= p <= OCF_USER_IO_CLASS_MAX -> is_Some (configs s !! p);
  pw_size p : attached s = true -> 0 <= p < OCF_USER_IO_CLASS_MAX -> is_Some (curr_size s !! p);
}.

(** [s'] is [s] up to the list, and up to the flags of the partitions in [X], which
    are right. *)
Definition marked (s : parts) (X : gset Z) : gmap Z ocf_user_part_config :=
  map_imap (fun p c => Some (if decide (p ∈ X) then set_eviction (evictable s p c) c else c)) (configs s).
Definition agree (s : parts) (X : gset Z) (s' : parts) : Prop :=
  configs s' = marked s X /\ set_configs ∅ (set_lst ∅ s') = set_configs ∅ (set_lst ∅ s).

Lemma marked_lookup s X p : marked s X !! p = (fun c => if decide (p ∈ X) then set_eviction (evictable s p c) c else c) <$> configs s !! p.
Proof. unfold marked. rewrite map_lookup_imap. by destruct (configs s !! p). Qed.

Lemma agree_refl s : agree s ∅ s.
Proof. split; [|done]. apply map_eq. intros p. rewrite marked_lookup. by destruct (configs s !! p). Qed.

Lemma agree_fields s X s' : agree s X s' -> attached s' = attached s /\ curr_size s' = curr_size s.
Proof. intros [_ He]. split; [exact (f_equal attached He)|exact (f_equal curr_size He)]. Qed.

Lemma agree_set_lst s X m s' : agree s X s' -> agree s X (set_lst m s').
Proof. intros [H1 H2]. by split. Qed.

Lemma wp_config_of p c Q s : configs s !! p = Some c -> Q c s -> wp (config_of p) Q s.
Proof. intros Hc HQ. unfold config_of. do 2 wp_step. by eapply wp_lift. Qed.

Lemma wp_upd_config p f Q s : is_Some (configs s !! p) -> Q tt (set_configs (alter f p (configs s)) s) -> wp (upd_config p f) Q s.
Proof. intros [c Hc] HQ. eexists _, _. unfold upd_config. by rewrite Hc. Qed.

Lemma wp_part_size p Q s : (attached s = true -> is_Some (curr_size s !! p)) -> Q (seen_size s p) s -> wp (part_size p) Q s.
Proof.
  intros Hp HQ. unfold part_size, seen_size in *. wp_step. wp_step. destruct (attached s); [|by apply wp_ret].
  destruct (Hp eq_refl) as [n Hn]. rewrite Hn in HQ. do 2 wp_step. by eapply wp_lift.
Qed.

(** A change of the configs that keeps a field. *)
Lemma alter_field {B} (g : ocf_user_part_config -> B) f q p (m : gmap Z ocf_user_part_config) :
  (forall c, g (f c) = g c) -> g <$> alter f q m !! p = g <$> m !! p.
Proof. intros Hf. rewrite lookup_alter. case_decide; [|done]. subst. destruct (m !! p); cbn; [by rewrite Hf|done]. Qed.

(** The flag of an invalid partition. *)
Definition flag_invalid (size : Z) (c : ocf_user_part_config) : ocf_user_part_config := if valid c then c else set_eviction (negb (size =? 0)) c.

Lemma valid_flag size c : valid (flag_invalid size c) = valid c.
Proof. unfold flag_invalid. by destruct (valid c) eqn:Hv. Qed.

Lemma invalid_value_run p size v (vl : bool) s : valid <$> configs s !! p = Some vl ->
  wp (invalid_value p size v) (fun v' s' => v' = (if vl then v else if size =? 0 then SHRT_MIN else SHRT_MAX) /\
    s' = set_configs (alter (flag_invalid size) p (configs s)) s) s.
Proof.
  intros Hc. apply fmap_Some in Hc as (c & Hc & ->). unfold invalid_value. wp_step. eapply wp_config_of; [done|].
  assert (forall b, valid c = false -> b = negb (size =? 0) -> alter (set_eviction b) p (configs s) = alter (flag_invalid size) p (configs s)) as Ha.
  { intros b Hv ->. apply alter_ext. intros c' Hc'. unfold flag_invalid. rewrite Hc in Hc'. simplify_eq. by rewrite Hv. }
  destruct (valid c) eqn:Hv; [|destruct (Z.eqb_spec size 0) as [->|Hs]].
  - apply wp_ret. split; [done|]. rewrite alter_id; [by destruct s|]. intros c' Hc'. rewrite Hc in Hc'. simplify_eq. unfold flag_invalid. by rewrite Hv.
  - cbn [negb]. wp_step. apply wp_upd_config; [by eexists|]. apply wp_ret. by rewrite (Ha false).
  - cbn [negb]. wp_step. apply wp_upd_config; [by eexists|]. apply wp_ret. by rewrite (Ha true).
Qed.

(** The comparison is positive when [a] is behind [b], and marks both. *)
Lemma cmp_valid_run s X a b s1 : parts_wf s -> agree s X s1 -> 0 <= a < OCF_USER_IO_CLASS_MAX -> 0 <= b < OCF_USER_IO_CLASS_MAX ->
  wp (ocf_user_part_lst_cmp_valid a b) (fun c s' => (0 < c <-> behind s a b) /\ lst_of s' = lst_of s1 /\ agree s ({[a; b]} ∪ X) s') s1.
Proof.
  intros Hw Hag Ha Hb. destruct (agree_fields _ _ _ Hag) as [Hatt Hcs]. destruct Hag as [Hcf Hrest].
  assert (forall p, seen_size s1 p = seen_size s p) as Hsz by (intros p; unfold seen_size; by rewrite Hatt, Hcs).
  destruct (pw_config _ Hw a) as [ca Hca]; [lia|]. destruct (pw_config _ Hw b) as [cb Hcb]; [lia|].
  pose proof (marked_lookup s X a) as Hma. pose proof (marked_lookup s X b) as Hmb. rewrite Hca in Hma. rewrite Hcb in Hmb. rewrite <- Hcf in Hma, Hmb.
  cbn [fmap option_fmap option_map] in Hma, Hmb.
  set (ca1 := if decide (a ∈ X) then _ else _) in Hma. set (cb1 := if decide (b ∈ X) then _ else _) in Hmb.
  assert (priority ca1 = priority ca /\ valid ca1 = valid ca) as [Hpa Hva] by (unfold ca1; by case_decide).
  assert (priority cb1 = priority cb /\ valid cb1 = valid cb) as [Hpb Hvb] by (unfold cb1; by case_decide).
  unfold ocf_user_part_lst_cmp_valid.
  wp_step. apply wp_part_size; [rewrite Hatt, Hcs; intros; by apply Hw|]. rewrite Hsz.
  wp_step. apply wp_part_size; [rewrite Hatt, Hcs; intros; by apply Hw|]. rewrite Hsz.
  wp_step. eapply (wp_config_of a ca1); [done|]. wp_step. eapply (wp_config_of b cb1); [done|].
  wp_step. apply wp_upd_config; [by eexists|]. wp_step. apply wp_upd_config; [cbn; there|].
  wp_step. eapply wp_mono; [apply (invalid_value_run _ _ _ (valid ca)); cbn; rewrite !alter_field by done; by rewrite Hma, <- Hva|].
  intros v1 s3 [-> ->]. cbn beta.
  wp_step. eapply wp_mono; [apply (invalid_value_run _ _ _ (valid cb)); cbn; rewrite !alter_field by (done || apply valid_flag); by rewrite Hmb, <- Hvb|].
  intros v2 s4 [-> ->]. cbn beta. apply wp_ret. rewrite Hpa, Hpb. split_and!; [|done|split; [|exact Hrest]].
  - unfold behind, rank. rewrite Hca, Hcb. case_match eqn:He; [apply Z.eqb_eq in He|apply Z.eqb_neq in He]; lia.
  - assert (a = b -> ca = cb) as Hab by congruence. clear - Hca Hcb Hcf Hab. cbn. rewrite Hcf. clear Hcf. apply map_eq. intros p.
    rewrite !lookup_alter, !marked_lookup. unfold flag_invalid, evictable.
    repeat case_decide; subst; try (by set_solver); rewrite ?Hca, ?Hcb, ?Hab by done; cbn; try done.
    all: destruct ca as [? ? ? [] ? ? ? ?], cb as [? ? ? [] ? ? ? ?]; done.
Qed.

(** Sorting: the same partitions, each in front of those that are behind it; only
    the flags change, and with two or more partitions all those listed are right. *)
Definition flags_set (l : list Z) (s s' : parts) : Prop :=
  set_configs ∅ (set_lst ∅ s') = set_configs ∅ (set_lst ∅ s) /\
  exists X, configs s' = marked s X /\ (2 <= length l -> list_to_set l ⊆ X)%nat.

Lemma behind_trans s a b c : ~ behind s a b -> ~ behind s b c -> ~ behind s a c.
Proof. unfold behind. lia. Qed.

Lemma sort_run s l : parts_wf s -> lst OCF_USER_IO_CLASS_MAX (lst_of s) l ->
  wp ocf_user_part_sort (fun _ s' => exists l', lst OCF_USER_IO_CLASS_MAX (lst_of s') l' /\ l' ≡ₚ l /\
    StronglySorted (fun a b => behind s b a) l' /\ flags_set l s s' /\
    forall x, x ∉ OCF_USER_IO_CLASS_MAX :: l -> lst_of s' !! x = lst_of s !! x) s.
Proof.
  intros Hw Hl. unfold ocf_user_part_sort.
  eapply wp_mono; [apply (ocf_lst_sort_run _ _ _ _ (behind s) (agree s)) with (X := ∅) (l := l)|].
  - done.
  - intros X m s1 Hs1. by apply agree_set_lst.
  - intros X a b s1 Hs1 Ha Hb. eapply wp_mono; [by apply cmp_valid_run|]. done.
  - unfold behind. lia.
  - apply behind_trans.
  - done.
  - apply agree_refl.
  - intros [] s' (X & l' & Hl' & Hp & Hs & [Hc Hr] & HX & Hf). exists l'. split_and!; [done..| |by split; [|exists X]|done].
    assert (NoDup l') as Hnd. { destruct Hl' as [[Hnd _] _]. by apply NoDup_cons in Hnd as [_ ?]. }
    revert Hs Hnd. clear. induction 1 as [|a l Hs IH Hf]; intros Hnd; [constructor|]. apply NoDup_cons in Hnd as [Ha Hnd].
    constructor; [by apply IH|]. apply Forall_forall. intros b Hb. eapply Forall_forall in Hf; [|done].
    assert (a <> b) by congruence. unfold behind in *. lia.
Qed.
