(* ===== verification/UserClass.v ===== *)
(** The IO classes that the user partitions stand for: strings in their buffers,
    what the management operations of UserPart do to the classes. *)

From Stdlib Require Import String.
From stdpp Require Import sorting.
From S2P Require Import Prelude Dll Meta EnvList Lst UserPart.

(** ** Strings *)

Lemma cstr_no_nul b : Forall (fun c => c <> 0) (cstr b).
Proof. induction b as [|c b IH]; [constructor|]. cbn. destruct (Z.eqb_spec c 0); by constructor. Qed.

Lemma cstr_stop l b : Forall (fun c => c <> 0) l -> cstr (l ++ 0 :: b) = l.
Proof. induction 1 as [|c l Hc Hl IH]; [done|]. cbn. apply Z.eqb_neq in Hc as ->. by rewrite IH. Qed.

Lemma length_strncpy src n : length (strncpy src n) = n.
Proof. unfold strncpy. rewrite length_app, length_take, length_replicate. lia. Qed.

Lemma length_env_strncpy d dmax src slen : Z.of_nat (length d) = dmax -> length (env_strncpy d dmax src slen) = length d.
Proof. intros Hd. unfold env_strncpy. rewrite length_insert, length_app, length_strncpy, length_drop. lia. Qed.

(** Copying with room for the whole buffer cuts the string to leave space for the
    zero at the end. *)
Lemma cstr_env_strncpy d dmax src slen : 0 < dmax <= Z.of_nat (length d) -> dmax - 1 <= slen ->
  cstr (env_strncpy d dmax src slen) = take (Z.to_nat (dmax - 1)) (cstr src).
Proof.
  intros Hd Hs. unfold env_strncpy. rewrite Z.min_l by lia. set (n := Z.to_nat (dmax - 1)).
  destruct (drop n d) as [|x r] eqn:Hdr; [apply (f_equal length) in Hdr; unfold n in Hdr; rewrite length_drop in Hdr; cbn [length] in Hdr; lia|].
  rewrite insert_app_r_alt, length_strncpy, Nat.sub_diag by (rewrite length_strncpy; lia). cbn [insert list_insert].
  unfold strncpy. rewrite <- app_assoc.
  destruct (n - length (cstr src))%nat as [|k]; cbn [replicate app]; apply cstr_stop, Forall_take, cstr_no_nul.
Qed.

Lemma name_valid_length len nm : 0 <= len < OCF_IO_CLASS_NAME_MAX -> name_valid_loop len nm = true ->
  len + Z.of_nat (length (cstr nm)) < OCF_IO_CLASS_NAME_MAX.
Proof.
  revert len. induction nm as [|c nm IH]; intros len Hl; cbn [name_valid_loop cstr]; change OCF_IO_CLASS_NAME_MAX with 1024 in *; [cbn; lia|].
  destruct (c =? 0); [cbn; lia|]. destruct (_ || _); [done|]. destruct (_ || _); [done|]. rewrite u32_small by lia.
  destruct (Z.leb_spec 1024 (len + 1)); [done|]. intros Hv. apply IH in Hv; [|lia]. cbn [length]. lia.
Qed.

(** ** Classes *)

Record io_class := mkClass { class_name : list Z; class_max_size : Z; class_priority : Z; class_mode : Z }.

Definition class_of (c : ocf_user_part_config) : option io_class :=
  if valid c then Some (mkClass (cstr (name c)) (max_size c) (priority c) (cache_mode c)) else None.
Definition classes (s : parts) : gmap Z io_class := omap class_of (configs s).

Definition is_class (m : gmap Z ocf_user_part_config) (p : Z) : bool := match m !! p with Some c => valid c | None => false end.
Definition class_count (m : gmap Z ocf_user_part_config) : Z := tally (is_class m) (seqZ 0 OCF_USER_IO_CLASS_MAX).

(** What holds of the partitions; [l] is the list of those added. *)
Record parts_inv (l : list Z) (s : parts) : Prop := {
  pi_wf : parts_wf s;
  pi_lst : lst OCF_USER_IO_CLASS_MAX (lst_of s) l;
  pi_out x : 0 <= x < OCF_USER_IO_CLASS_MAX -> x ∉ l -> lst_of s !! x = Some (OUT OCF_USER_IO_CLASS_MAX);
  pi_name p c : configs s !! p = Some c -> Z.of_nat (length (name c)) = OCF_IO_CLASS_NAME_MAX;
  pi_min p c : configs s !! p = Some c -> min_size c = 0;
  pi_valid p c : configs s !! p = Some c -> valid c = true -> p ∈ l;
  pi_added p c : configs s !! p = Some c -> added c = bool_decide (p ∈ l);
  pi_count : valid_parts_no s = class_count (configs s);
}.

(** The state with other configs and their count. *)
Definition with_configs (m : gmap Z ocf_user_part_config) (s : parts) : parts := set_valid_parts_no (class_count m) (set_configs m s).

Lemma with_same s : valid_parts_no s = class_count (configs s) -> with_configs (configs s) s = s.
Proof. intros H. destruct s. unfold with_configs. cbn in *. by rewrite <- H. Qed.

Lemma class_count_keep f p m : (forall c, valid (f c) = valid c) -> class_count (alter f p m) = class_count m.
Proof.
  intros Hf. apply tally_ext. intros x _. unfold is_class. pose proof (alter_field valid f p x m Hf) as Ha.
  destruct (alter f p m !! x), (m !! x); cbn in Ha; congruence.
Qed.

Lemma class_count_range m : 0 <= class_count m <= OCF_USER_IO_CLASS_MAX.
Proof. pose proof (tally_range (is_class m) (seqZ 0 OCF_USER_IO_CLASS_MAX)) as H. rewrite length_seqZ in H. exact H. Qed.

(** A partition becomes valid or invalid. *)
Lemma class_count_flip f p c m : m !! p = Some c -> 0 <= p < OCF_USER_IO_CLASS_MAX ->
  class_count (alter f p m) = class_count m + (if valid (f c) then 1 else 0) - (if valid c then 1 else 0).
Proof.
  intros Hc Hp. unfold class_count. rewrite (tally_update (is_class m) (is_class (alter f p m)) _ p).
  - unfold is_class at 2 3. rewrite lookup_alter_eq, Hc. cbn. lia.
  - apply NoDup_seqZ.
  - apply elem_of_seqZ. lia.
  - intros y _ Hy. unfold is_class. by rewrite lookup_alter_ne.
Qed.

(** ** Steps on one config *)

Definition counted (s : parts) : Prop := valid_parts_no s = class_count (configs s).

Lemma counted_with m s : counted (with_configs m s).
Proof. done. Qed.
#[local] Hint Resolve counted_with : core.

Lemma wp_upd_keep p f Q s : is_Some (configs s !! p) -> (forall c, valid (f c) = valid c) -> counted s ->
  Q tt (with_configs (alter f p (configs s)) s) -> wp (upd_config p f) Q s.
Proof.
  intros Hp Hf Hc HQ. apply wp_upd_config; [done|]. replace (set_configs _ s) with (with_configs (alter f p (configs s)) s); [done|].
  unfold with_configs. rewrite class_count_keep, <- Hc by done. by destruct s.
Qed.

Lemma wp_set_prio p prio Q s : is_Some (configs s !! p) -> counted s ->
  Q tt (with_configs (alter (set_priority prio) p (configs s)) s) -> wp (ocf_user_part_set_prio p prio) Q s.
Proof.
  intros [c Hc] Hcn HQ. unfold ocf_user_part_set_prio. wp_step. eapply wp_config_of; [done|].
  destruct (Z.eqb_spec (priority c) prio) as [He|Hne]; cbn [negb].
  - apply wp_ret. rewrite alter_id, with_same in HQ; [done|done|]. intros c' Hc'. rewrite Hc in Hc'. simplify_eq. by destruct c'.
  - by apply wp_upd_keep; [eexists| | |].
Qed.

Definition deactivated (c : ocf_user_part_config) : ocf_user_part_config :=
  set_name (env_strncpy (name c) OCF_IO_CLASS_NAME_MAX (chars "Inactive") 9)
    (set_max_size PARTITION_SIZE_MAX (set_min_size 0 (set_priority OCF_IO_CLASS_PRIO_LOWEST (set_flag_valid false c)))).
Definition to_valid (v : bool) (c : ocf_user_part_config) : ocf_user_part_config :=
  if xorb v (valid c) then if v then set_flag_valid true c else deactivated c else c.

Lemma set_valid_run p v Q s : is_Some (configs s !! p) -> 0 <= p < OCF_USER_IO_CLASS_MAX -> counted s ->
  Q tt (with_configs (alter (to_valid v) p (configs s)) s) -> wp (ocf_user_part_set_valid p v) Q s.
Proof.
  intros [c Hc] Hp Hn HQ. pose proof (class_count_flip (to_valid v) p c _ Hc Hp) as Hflip.
  pose proof (class_count_range (configs s)) as Hr. pose proof (class_count_range (alter (to_valid v) p (configs s))) as Hr'.
  change OCF_USER_IO_CLASS_MAX with 33 in Hr, Hr'. unfold ocf_user_part_set_valid. wp_step. eapply wp_config_of; [done|].
  set (T := alter (to_valid v) p (configs s)) in *. assert (forall f, f c = to_valid v c -> alter f p (configs s) = T) as Ha.
  { intros f Hf. apply alter_ext. intros c' Hc'. by simplify_eq. }
  assert (to_valid v c = c -> wp (mret tt) Q s) as Hsame.
  { intros Hf. apply wp_ret. unfold T in HQ. rewrite alter_id, with_same in HQ; [done|done|]. intros c' Hc'. by simplify_eq. }
  clearbody T. unfold to_valid in Hflip, Ha, Hsame. unfold with_configs in HQ. destruct v, (valid c) eqn:Hv; cbn [xorb] in *; [by apply Hsame| | |by apply Hsame].
  - wp_step. apply wp_upd_config; [by eexists|]. wp_step. rewrite <- (Ha (set_flag_valid true)) in HQ, Hflip, Hr' by done.
    replace (class_count _) with (u32 (valid_parts_no s + 1)) in HQ; [exact HQ|]. rewrite Hn, u32_small; cbn in Hflip; lia.
  - wp_step. apply wp_upd_config; [by eexists|]. do 2 wp_step. do 3 (wp_step; apply wp_upd_config; [cbn; there|]).
    apply wp_upd_config; [cbn; there|]. rewrite <- (Ha deactivated) in HQ, Hflip, Hr' by done.
    replace (class_count _) with (u32 (valid_parts_no s - 1)) in HQ; [|rewrite Hn, u32_small; cbn in Hflip; lia].
    replace (alter deactivated p (configs s)) with
      (alter (fun c => set_name (env_strncpy (name c) OCF_IO_CLASS_NAME_MAX (chars "Inactive") 9) c) p (alter (set_max_size PARTITION_SIZE_MAX) p
        (alter (set_min_size 0) p (alter (set_priority OCF_IO_CLASS_PRIO_LOWEST) p (alter (set_flag_valid false) p (configs s)))))) in HQ; [exact HQ|].
    by rewrite !alter_alter_eq.
Qed.

Lemma wp_for_each_user_part l Q s : lst OCF_USER_IO_CLASS_MAX (lst_of s) l -> Q l s -> wp for_each_user_part Q s.
Proof.
  intros Hl HQ. unfold for_each_user_part, on_list. apply wp_zoom. exists l, (lst_of s). split; [by apply lst_elements_run|].
  by destruct s as [[]].
Qed.

Lemma wp_count_min_size l s Q : parts_inv l s -> Q 0 s -> wp _ocf_mngt_count_user_parts_min_size Q s.
Proof.
  intros Hi HQ. unfold _ocf_mngt_count_user_parts_min_size. wp_step. eapply wp_for_each_user_part; [by apply Hi|].
  pose proof (proj2 (pi_lst _ _ Hi)) as Hb. revert Hb. generalize l at 1 2. intros l'. induction l' as [|x l' IH]; intros Hb; cbn [fold_parts]; [by apply wp_ret|].
  destruct (pw_config _ (pi_wf _ _ Hi) x) as [c Hc]; [pose proof (Hb x ltac:(by left)); lia|].
  wp_step. unfold count_min_size. wp_step. eapply wp_config_of; [done|]. apply wp_ret. rewrite (pi_min _ _ Hi _ _ Hc).
  replace (if ocf_user_part_is_valid c then _ else 0) with 0 by (by case_match). apply IH. intros y Hy. apply Hb. by right.
Qed.

Lemma wp_set_partition_size l p max s Q : parts_inv l s -> 0 <= p < OCF_USER_IO_CLASS_MAX -> 0 <= max <= PARTITION_SIZE_MAX ->
  Q 0 (with_configs (alter (set_max_size max ∘ set_min_size 0) p (configs s)) s) -> wp (_ocf_mngt_set_partition_size p 0 max) Q s.
Proof.
  intros Hi Hp Hm HQ. destruct (pw_config _ (pi_wf _ _ Hi) p) as [c Hc]; [lia|]. unfold _ocf_mngt_set_partition_size.
  rewrite (proj2 (Z.ltb_ge max 0)) by lia. wp_step. eapply wp_count_min_size; [done|]. change (PARTITION_SIZE_MAX <? u64 (0 + 0)) with false.
  cbv iota. rewrite (proj2 (Z.ltb_ge PARTITION_SIZE_MAX max)) by lia. cbv zeta.
  wp_step. apply wp_upd_keep; [by eexists|done|by apply Hi|]. wp_step. apply wp_upd_keep; [cbn; there|done|done|]. apply wp_ret.
  cbn. by rewrite alter_alter_eq.
Qed.

(** ** One edit *)

(** What an edit writes into the config of its class. *)
Definition edit_config (cfg : ocf_mngt_io_class_config) (c : ocf_user_part_config) : ocf_user_part_config :=
  match cfg_name cfg with
  | None => if class_id cfg =? PARTITION_DEFAULT then c else to_valid false c
  | Some nm =>
    let sized c := set_max_size (cfg_max_size cfg) (set_min_size 0 c) in
    set_cache_mode (cfg_cache_mode cfg) (set_priority (cfg_prio cfg)
      (if class_id cfg =? PARTITION_DEFAULT then sized c
       else to_valid true (sized (set_name (env_strncpy (name c) OCF_IO_CLASS_NAME_MAX nm OCF_IO_CLASS_NAME_MAX) c))))
  end.

(** Whether it is accepted: a name that is not empty, and for the default class,
    whose name is [name0], this name. *)
Definition accepted (name0 : list Z) (cfg : ocf_mngt_io_class_config) : bool :=
  match cfg_name cfg with
  | None => true
  | Some nm => negb (bool_decide (cstr nm = [])) && (negb (class_id cfg =? PARTITION_DEFAULT) || bool_decide (cstr nm = name0))
  end.

(** What the validation checks. *)
Definition cfg_ok (cfg : ocf_mngt_io_class_config) : Prop :=
  0 <= class_id cfg < OCF_USER_IO_CLASS_MAX /\
  forall nm, cfg_name cfg = Some nm -> Z.of_nat (length (cstr nm)) < OCF_IO_CLASS_NAME_MAX /\ 0 <= cfg_max_size cfg <= PARTITION_SIZE_MAX /\
    OCF_IO_CLASS_PRIO_PINNED <= cfg_prio cfg <= OCF_IO_CLASS_PRIO_LOWEST.

Lemma validate_ok cfg : 0 <= class_id cfg -> _ocf_mngt_io_class_validate_cfg cfg = 0 -> cfg_ok cfg.
Proof.
  intros H0. unfold _ocf_mngt_io_class_validate_cfg. destruct (Z.leb_spec OCF_USER_IO_CLASS_MAX (class_id cfg)) as [|Hi]; [done|].
  destruct (cfg_name cfg) as [nm|] eqn:Hn; [|intros _; split; [done|]; intros ? ?; congruence].
  destruct (_ || _); [done|]. destruct (ocf_user_part_is_name_valid nm) eqn:Hv; [|done]. cbn [negb].
  destruct (ocf_user_part_is_prio_valid (cfg_prio cfg)) eqn:Hp; [|done]. cbn [negb].
  destruct (Z.ltb_spec (cfg_max_size cfg) PARTITION_SIZE_MIN); [done|]. destruct (Z.ltb_spec PARTITION_SIZE_MAX (cfg_max_size cfg)); [done|]. intros _.
  split; [done|]. intros nm' Hn'. rewrite Hn in Hn'. injection Hn' as <-. split_and!.
  - apply (name_valid_length 0) in Hv; [done|]. done.
  - done.
  - done.
  - unfold ocf_user_part_is_prio_valid, OCF_IO_CLASS_PRIO_HIGHEST, OCF_IO_CLASS_PRIO_PINNED, OCF_IO_CLASS_PRIO_LOWEST in *. lia.
  - unfold ocf_user_part_is_prio_valid, OCF_IO_CLASS_PRIO_HIGHEST, OCF_IO_CLASS_PRIO_PINNED, OCF_IO_CLASS_PRIO_LOWEST in *. lia.
Qed.

Lemma length_cstr b : (length (cstr b) <= length b)%nat.
Proof. induction b as [|c b IH]; [done|]. cbn. case_match; cbn; lia. Qed.

Lemma strncmp_same a b : Z.of_nat (length (cstr a)) <= OCF_IO_CLASS_NAME_MAX -> Z.of_nat (length (cstr b)) <= OCF_IO_CLASS_NAME_MAX ->
  env_strncmp a OCF_IO_CLASS_NAME_MAX b OCF_IO_CLASS_NAME_MAX = negb (bool_decide (cstr a = cstr b)).
Proof. intros Ha Hb. unfold env_strncmp. rewrite Z.min_id, !take_ge by lia. done. Qed.

(** A change of one config that keeps what the invariant says of it. *)
Record keeps (f : ocf_user_part_config -> ocf_user_part_config) : Prop := {
  kp_name c : Z.of_nat (length (name c)) = OCF_IO_CLASS_NAME_MAX -> length (name (f c)) = length (name c);
  kp_min c : min_size c = 0 -> min_size (f c) = 0;
  kp_added c : added (f c) = added c;
}.

Lemma inv_with l s f p : parts_inv l s -> p ∈ l -> keeps f -> parts_inv l (with_configs (alter f p (configs s)) s).
Proof.
  intros Hi Hp Hk. assert (forall q c', alter f p (configs s) !! q = Some c' -> exists c, configs s !! q = Some c /\ (q = p /\ c' = f c \/ q <> p /\ c' = c)) as Ha.
  { intros q c'. rewrite lookup_alter. case_decide; [|by eauto]. subst. intros (c & Hc & ->)%fmap_Some. eauto. }
  split; try done; cbn [configs with_configs set_valid_parts_no set_configs lst_of user_parts].
  - split; [|apply (pi_wf _ _ Hi)]. intros q Hq. cbn. there. by apply (pw_config _ (pi_wf _ _ Hi)).
  - apply Hi.
  - apply Hi.
  - intros q c' (c & Hc & [[-> ->]|[Hne ->]])%Ha; pose proof (pi_name _ _ Hi _ _ Hc) as Hl; [by rewrite (kp_name _ Hk)|done].
  - intros q c' (c & Hc & [[-> ->]|[Hne ->]])%Ha; pose proof (pi_min _ _ Hi _ _ Hc) as Hl; [by apply Hk|done].
  - intros q c' (c & Hc & [[-> ->]|[Hne ->]])%Ha Hv; [done|by eapply (pi_valid _ _ Hi)].
  - intros q c' (c & Hc & [[-> ->]|[Hne ->]])%Ha; rewrite ?(kp_added _ Hk); by eapply (pi_added _ _ Hi).
Qed.

Lemma keeps_valid v : keeps (to_valid v).
Proof.
  split; intros c; unfold to_valid; destruct v, (valid c); cbn [xorb]; try done. intros Hl. apply length_env_strncpy. exact Hl.
Qed.

Lemma keeps_edit cfg : keeps (edit_config cfg).
Proof.
  unfold edit_config. destruct (cfg_name cfg) as [nm|]; [|case_match; [by split|apply keeps_valid]].
  case_match; [by split|].
  split; intros c; cbn [name min_size added set_cache_mode set_priority].
  - intros Hl. rewrite (kp_name _ (keeps_valid true)); cbn [name set_max_size set_min_size set_name]; rewrite length_env_strncpy; done.
  - intros Hm. by apply (kp_min _ (keeps_valid true)).
  - by rewrite (kp_added _ (keeps_valid true)).
Qed.

Lemma wp_make_valid p c Q s : configs s !! p = Some c -> 0 <= p < OCF_USER_IO_CLASS_MAX -> counted s ->
  Q tt (with_configs (alter (to_valid true) p (configs s)) s) -> wp (if ocf_user_part_is_valid c then mret tt else ocf_user_part_set_valid p true) Q s.
Proof.
  intros Hc Hp Hn HQ. unfold ocf_user_part_is_valid. destruct (valid c) eqn:Hv; [|by apply set_valid_run; [eexists| | |]].
  apply wp_ret. rewrite alter_id, with_same in HQ; [done|done|]. intros c' Hc'. simplify_eq. unfold to_valid. by rewrite Hv.
Qed.

Lemma edit_run l s cfg c0 : parts_inv l s -> (forall p, 0 <= p < OCF_USER_IO_CLASS_MAX -> p ∈ l) -> device s = true -> cfg_ok cfg ->
  configs s !! PARTITION_DEFAULT = Some c0 ->
  wp (_ocf_mngt_io_class_edit cfg) (fun r s' =>
    if accepted (cstr (name c0)) cfg then r = 0 /\ s' = with_configs (alter (edit_config cfg) (class_id cfg) (configs s)) s
    else r = - OCF_ERR_INVAL /\ s' = s) s.
Proof.
  intros Hi Hall Hd [Hp Hcfg] Hc0. set (p := class_id cfg) in *. assert (u16 p = p) as Hu by (apply Z.mod_small; change OCF_USER_IO_CLASS_MAX with 33 in Hp; lia).
  destruct (pw_config _ (pi_wf _ _ Hi) p) as [c Hc]; [lia|]. pose proof (pi_count _ _ Hi) as Hcn.
  unfold _ocf_mngt_io_class_edit, accepted, edit_config. destruct (cfg_name cfg) as [nm|] eqn:Hn.
  - destruct (Hcfg nm eq_refl) as (Hlen & Hmax & _). unfold _ocf_mngt_io_class_configure. rewrite Hn. fold p. rewrite Hu.
    wp_step. eapply wp_lift; [done|]. do 2 wp_step. rewrite Hd. wp_step. wp_step. wp_step. eapply wp_config_of; [done|].
    unfold ocf_user_part_is_added. rewrite (pi_added _ _ Hi _ _ Hc), bool_decide_true by by apply Hall. cbn [negb].
    destruct (bool_decide_reflect (cstr nm = [])) as [He|He]; cbn [negb andb]; [by apply wp_ret|]. destruct (Z.eqb_spec p PARTITION_DEFAULT) as [Hd0|Hd0].
    + assert (c0 = c) as -> by (rewrite Hd0 in Hc; congruence). rewrite strncmp_same; [|lia|]. 2:{ pose proof (pi_name _ _ Hi _ _ Hc) as Hl. pose proof (length_cstr (name c)). lia. }
      cbn [negb orb]. destruct (bool_decide_reflect (cstr nm = cstr (name c))) as [Hs|Hs]; cbn [negb]; [|by apply wp_ret].
      wp_step. eapply wp_set_partition_size; [done|done|done|]. change (negb (0 =? 0)) with false. cbv iota.
      wp_step. apply wp_set_prio; [cbn; there; by eexists|done|]. wp_step. apply wp_upd_keep; [cbn; there; by eexists|done|done|]. apply wp_ret.
      split; [done|]. cbn [configs with_configs set_valid_parts_no set_configs]. by rewrite !alter_alter_eq.
    + cbn [negb orb]. wp_step. apply wp_upd_keep; [by eexists|done|done|]. wp_step.
      eapply (wp_set_partition_size l); [apply inv_with; [done|by apply Hall|]|done|done|].
      { split; try done. intros c' Hc'. by apply length_env_strncpy. }
      change (negb (0 =? 0)) with false. cbv iota. cbn [configs with_configs set_valid_parts_no set_configs]. rewrite alter_alter_eq.
      wp_step. eapply wp_config_of; [cbn [configs with_configs set_valid_parts_no set_configs]; by rewrite lookup_alter_eq, Hc|].
      wp_step. apply wp_make_valid; [cbn [configs with_configs set_valid_parts_no set_configs]; by rewrite lookup_alter_eq, Hc|done|done|].
      wp_step. apply wp_set_prio; [cbn; there; by eexists|done|]. wp_step.
      apply wp_upd_keep; [cbn; there; by eexists|done|done|]. apply wp_ret. split; [done|]. cbn [configs with_configs set_valid_parts_no set_configs].
      by rewrite !alter_alter_eq.
  - unfold _ocf_mngt_io_class_remove. fold p. rewrite Hu. wp_step. do 2 wp_step. rewrite Hd. wp_step. wp_step.
    destruct (p =? PARTITION_DEFAULT).
    + do 2 wp_step. split; [done|]. rewrite alter_id by done. by rewrite with_same.
    + wp_step. eapply wp_config_of; [done|]. unfold ocf_user_part_is_valid. destruct (valid c) eqn:Hv; cbn [negb].
      * apply set_valid_run; [by eexists|done|done|]. wp_step. done.
      * do 2 wp_step. split; [done|]. rewrite alter_id, with_same; [done|done|]. intros c' Hc'. simplify_eq. unfold to_valid. by rewrite Hv.
Qed.

(** ** The classes after an edit *)

Definition set_class (A : gmap Z io_class) (cfg : ocf_mngt_io_class_config) : gmap Z io_class :=
  match cfg_name cfg with
  | None => if class_id cfg =? PARTITION_DEFAULT then A else delete (class_id cfg) A
  | Some nm => <[class_id cfg := mkClass (cstr nm) (cfg_max_size cfg) (cfg_prio cfg) (cfg_cache_mode cfg)]> A
  end.

Lemma classes_lookup s p : classes s !! p = configs s !! p ≫= class_of.
Proof. apply lookup_omap. Qed.

Lemma to_valid_true c : to_valid true c = set_flag_valid true c.
Proof. unfold to_valid. destruct c as [? ? ? [] ? ? ? ?]; done. Qed.

Lemma edit_classes l s cfg n0 : parts_inv l s -> cfg_ok cfg -> class_name <$> classes s !! PARTITION_DEFAULT = Some n0 -> accepted n0 cfg = true ->
  classes (with_configs (alter (edit_config cfg) (class_id cfg) (configs s)) s) = set_class (classes s) cfg.
Proof.
  intros Hi [Hp Hcfg] H0 Hacc. destruct (pw_config _ (pi_wf _ _ Hi) (class_id cfg)) as [c Hc]; [lia|].
  assert (class_id cfg = PARTITION_DEFAULT -> valid c = true /\ cstr (name c) = n0) as Hdef.
  { intros He. rewrite He in Hc. rewrite classes_lookup, Hc in H0. cbn in H0. unfold class_of in H0. case_match; [by simplify_eq/=|done]. }
  assert (forall v c, valid (to_valid v c) = v) as Htv by (intros [] c'; unfold to_valid; by destruct (valid c') eqn:?).
  pose proof (pi_name _ _ Hi _ _ Hc) as Hlen. apply map_eq. intros q. unfold set_class, edit_config, accepted in *. rewrite classes_lookup.
  cbn [configs with_configs set_valid_parts_no set_configs]. rewrite lookup_alter. case_decide as Hq; [subst q; rewrite Hc; cbn [fmap option_fmap option_map mbind option_bind]|].
  - destruct (cfg_name cfg) as [nm|]; [rewrite lookup_insert_eq|].
    + destruct (Hcfg nm eq_refl) as (Hnm & _). apply andb_true_iff in Hacc as [_ Hacc].
      destruct (Z.eqb_spec (class_id cfg) PARTITION_DEFAULT) as [He|He]; cbn [negb orb] in Hacc.
      * destruct (Hdef He) as [Hv Hn]. apply bool_decide_eq_true in Hacc. unfold class_of. cbn. by rewrite Hv, Hn, Hacc.
      * rewrite to_valid_true. unfold class_of. cbn [valid name max_size priority cache_mode set_cache_mode set_priority set_flag_valid set_max_size set_min_size set_name].
        rewrite cstr_env_strncpy, take_ge; unfold OCF_IO_CLASS_NAME_MAX in *; [done|lia..].
    + destruct (Z.eqb_spec (class_id cfg) PARTITION_DEFAULT) as [He|He]; [by rewrite classes_lookup, Hc|].
      rewrite lookup_delete_eq. unfold class_of. by rewrite Htv.
  - rewrite <- classes_lookup. destruct (cfg_name cfg); [by rewrite lookup_insert_ne|]. case_match; [done|by rewrite lookup_delete_ne].
Qed.

(** The edits in front of the first that is not accepted. *)
Fixpoint accepted_prefix (n0 : list Z) (cfg : list ocf_mngt_io_class_config) : list ocf_mngt_io_class_config :=
  match cfg with [] => [] | c :: cfg => if accepted n0 c then c :: accepted_prefix n0 cfg else [] end.

Lemma set_class_default n0 A cfg : class_name <$> A !! PARTITION_DEFAULT = Some n0 -> accepted n0 cfg = true ->
  class_name <$> set_class A cfg !! PARTITION_DEFAULT = Some n0.
Proof.
  intros HA. unfold accepted, set_class. destruct (cfg_name cfg) as [nm|].
  - intros [_ Hd]%andb_true_iff. destruct (Z.eqb_spec (class_id cfg) PARTITION_DEFAULT) as [He|He]; [|by rewrite lookup_insert_ne].
    rewrite He, lookup_insert_eq. cbn in *. f_equal. by apply bool_decide_eq_true in Hd.
  - intros _. case_match eqn:He; [done|]. apply Z.eqb_neq in He. by rewrite lookup_delete_ne.
Qed.

Lemma edit_loop_run l n0 cfg : forall s, parts_inv l s -> (forall p, 0 <= p < OCF_USER_IO_CLASS_MAX -> p ∈ l) -> device s = true -> Forall cfg_ok cfg ->
  class_name <$> classes s !! PARTITION_DEFAULT = Some n0 ->
  wp (edit_loop cfg) (fun r s' => parts_inv l s' /\ classes s' = foldl set_class (classes s) (accepted_prefix n0 cfg) /\
    r = (if forallb (accepted n0) cfg then 0 else - OCF_ERR_INVAL) /\ exists m, s' = with_configs m s) s.
Proof.
  induction cfg as [|c cfg IH]; intros s Hi Hall Hd Hok H0; cbn [edit_loop accepted_prefix forallb].
  { apply wp_ret. split_and!; [done..|]. exists (configs s). symmetry. apply with_same, Hi. }
  inversion Hok as [|? ? Hc Hok']; subst. assert (exists c0, configs s !! PARTITION_DEFAULT = Some c0 /\ cstr (name c0) = n0) as (c0 & Hc0 & Hn0).
  { rewrite classes_lookup in H0. destruct (configs s !! PARTITION_DEFAULT) as [c0|]; [|done]. exists c0. split; [done|]. cbn in H0. unfold class_of in H0. case_match; [by simplify_eq/=|done]. }
  wp_step. eapply wp_mono; [by apply (edit_run l)|]. rewrite Hn0. intros r s1 Hr. cbn beta. destruct (accepted n0 c) eqn:Hacc.
  - destruct Hr as [-> Hs1]. change (negb (0 =? 0)) with false. cbv iota. pose proof (edit_classes _ _ _ _ Hi Hc H0 Hacc) as Hcl. rewrite <- Hs1 in Hcl.
    eapply wp_mono; [apply IH|]; [rewrite Hs1; apply inv_with; [done|by apply Hall, Hc|apply keeps_edit]|done|by rewrite Hs1|done|rewrite Hcl; by apply set_class_default|].
    intros r s' (Hi' & Hcl' & -> & m & ->). cbn [foldl andb]. rewrite <- Hcl. split_and!; [done..|]. exists m. by rewrite Hs1.
  - destruct Hr as [-> ->]. change (negb (- OCF_ERR_INVAL =? 0)) with true. cbv iota. apply wp_ret. split_and!; [done..|].
    exists (configs s). symmetry. apply with_same, Hi.
Qed.

(** ** Sorting keeps the invariant and the classes *)

Lemma marked_keeps s X p c' : marked s X !! p = Some c' -> exists c b, configs s !! p = Some c /\ c' = set_eviction b c.
Proof.
  rewrite marked_lookup. intros (c & Hc & ->)%fmap_Some. case_decide; [by eauto|]. exists c, (eviction c). split; [done|]. by destruct c.
Qed.

Lemma inv_sort l l' s s' : parts_inv l s -> flags_set l s s' -> lst OCF_USER_IO_CLASS_MAX (lst_of s') l' -> l' ≡ₚ l ->
  (forall x, x ∉ OCF_USER_IO_CLASS_MAX :: l -> lst_of s' !! x = lst_of s !! x) -> parts_inv l' s' /\ classes s' = classes s.
Proof.
  intros Hi [He (X & Hc & _)] Hl Hp Hf. pose proof (f_equal attached He) as Ha. pose proof (f_equal curr_size He) as Hcs. pose proof (f_equal valid_parts_no He) as Hn. cbn in Ha, Hcs, Hn.
  assert (forall q c', configs s' !! q = Some c' -> exists c b, configs s !! q = Some c /\ c' = set_eviction b c) as Hk by (intros q c'; rewrite Hc; apply marked_keeps).
  assert (forall B (g : ocf_user_part_config -> B) q, (forall b c, g (set_eviction b c) = g c) -> g <$> configs s' !! q = g <$> configs s !! q) as Hg.
  { intros B g q Hg. rewrite Hc, marked_lookup. destruct (configs s !! q) as [c|]; [|done]. cbn. f_equal. case_decide; [apply Hg|done]. }
  split.
  - split.
    + split; [|rewrite Ha, Hcs; apply (pi_wf _ _ Hi)]. intros q Hq. rewrite Hc, marked_lookup, fmap_is_Some. by apply (pw_config _ (pi_wf _ _ Hi)).
    + done.
    + intros x Hx Hxl. rewrite Hf; [apply (pi_out _ _ Hi); [done|by rewrite <- Hp]|]. rewrite <- Hp. apply not_elem_of_cons. split; [lia|done].
    + intros q c' (c & b & Hq & ->)%Hk. by apply (pi_name _ _ Hi _ _ Hq).
    + intros q c' (c & b & Hq & ->)%Hk. by apply (pi_min _ _ Hi _ _ Hq).
    + intros q c' (c & b & Hq & ->)%Hk. rewrite Hp. by apply (pi_valid _ _ Hi _ _ Hq).
    + intros q c' (c & b & Hq & ->)%Hk. rewrite (pi_added _ _ Hi _ _ Hq : added (set_eviction b c) = _). apply bool_decide_ext. by rewrite Hp.
    + rewrite Hn, (pi_count _ _ Hi). apply tally_ext. intros x _. unfold is_class. pose proof (Hg _ valid x ltac:(done)) as Hv.
      destruct (configs s' !! x), (configs s !! x); cbn in Hv; congruence.
  - apply map_eq. intros q. rewrite !classes_lookup. pose proof (Hg _ class_of q ltac:(done)) as Hv.
    destruct (configs s' !! q), (configs s !! q); cbn in *; congruence.
Qed.

Lemma rank_flags l s s' p : flags_set l s s' -> rank s' p = rank s p.
Proof.
  intros [He (X & Hc & _)]. pose proof (f_equal attached He) as Ha. pose proof (f_equal curr_size He) as Hs. cbn in Ha, Hs.
  unfold rank, seen_size. rewrite Hc, marked_lookup, Ha, Hs. destruct (configs s !! p); [cbn|done]. by case_decide.
Qed.

Definition evicts_first (s : parts) : list Z -> Prop := StronglySorted (fun a b => behind s b a).

Lemma evicts_first_rank s s' l : (forall q, rank s' q = rank s q) -> evicts_first s l -> evicts_first s' l.
Proof.
  intros Hr. unfold evicts_first. induction 1 as [|a k Hs IH Ha]; constructor; [done|]. eapply Forall_impl; [exact Ha|].
  intros b Hb. unfold behind in *. by rewrite !Hr.
Qed.

Lemma evicts_first_flags l s s' l' : flags_set l s s' -> evicts_first s l' -> evicts_first s' l'.
Proof. intros Hf. apply evicts_first_rank. intros q. by eapply rank_flags. Qed.

(** Sorting, with all that it keeps. *)
Lemma sort_keeps l s : parts_inv l s -> wp ocf_user_part_sort (fun _ s' => exists l', parts_inv l' s' /\ l' ≡ₚ l /\ evicts_first s' l' /\
  classes s' = classes s /\ flags_set l s s') s.
Proof.
  intros Hi. eapply wp_mono; [apply sort_run; apply Hi|]. intros [] s' (l' & Hl & Hp & Hs & Hf & Hfr). exists l'.
  destruct (inv_sort _ _ _ _ Hi Hf Hl Hp Hfr) as [Hi' Hc]. split_and!; [done..| |done|done]. by eapply evicts_first_flags.
Qed.

(** ** Adding a partition *)

Lemma inv_with_added l s p f m : parts_inv l s -> 0 <= p < OCF_USER_IO_CLASS_MAX -> p ∉ l -> lst OCF_USER_IO_CLASS_MAX m (p :: l) ->
  (forall x, x ∉ p :: OCF_USER_IO_CLASS_MAX :: l -> m !! x = lst_of s !! x) ->
  (forall c, Z.of_nat (length (name c)) = OCF_IO_CLASS_NAME_MAX -> length (name (f c)) = length (name c)) ->
  (forall c, min_size (f c) = 0) -> (forall c, added (f c) = true) ->
  parts_inv (p :: l) (set_lst m (with_configs (alter f p (configs s)) s)).
Proof.
  intros Hi Hp Hpl Hl Hm Hfn Hfm Hfa.
  assert (forall q c', alter f p (configs s) !! q = Some c' -> exists c, configs s !! q = Some c /\ (q = p /\ c' = f c \/ q <> p /\ c' = c)) as Ha.
  { intros q c'. rewrite lookup_alter. case_decide; [|by eauto]. subst. intros (c & Hc & ->)%fmap_Some. eauto. }
  split; cbn [configs with_configs set_valid_parts_no set_configs lst_of user_parts set_lst set_user_parts lst_valid valid_parts_no].
  - split; [|apply (pi_wf _ _ Hi)]. intros q Hq. cbn. there. by apply (pw_config _ (pi_wf _ _ Hi)).
  - done.
  - intros x Hx Hxl. apply not_elem_of_cons in Hxl as [Hxp Hxl]. rewrite Hm; [by apply (pi_out _ _ Hi)|].
    apply not_elem_of_cons. split; [done|]. apply not_elem_of_cons. split; [lia|done].
  - intros q c' (c & Hc & [[-> ->]|[Hne ->]])%Ha; pose proof (pi_name _ _ Hi _ _ Hc) as Hlen; [by rewrite Hfn|done].
  - intros q c' (c & Hc & [[-> ->]|[Hne ->]])%Ha; [done|by eapply (pi_min _ _ Hi)].
  - intros q c' (c & Hc & [[-> ->]|[Hne ->]])%Ha Hv; [by left|right]. by eapply (pi_valid _ _ Hi).
  - intros q c' (c & Hc & [[-> ->]|[Hne ->]])%Ha; [rewrite Hfa, bool_decide_true; [done|by left]|].
    rewrite (pi_added _ _ Hi _ _ Hc). apply bool_decide_ext. rewrite elem_of_cons. naive_solver.
  - done.
Qed.

Definition added_config (nm : list Z) (max prio : Z) (v : bool) (c : ocf_user_part_config) : ocf_user_part_config :=
  to_valid v (set_cache_mode ocf_cache_mode_max (set_priority prio (set_max_size max (set_min_size 0
    (set_name (env_strncpy (name c) OCF_IO_CLASS_NAME_MAX nm OCF_IO_CLASS_NAME_MAX) c))))).

(** Setting [added] commutes with the marks of a sort. *)
Lemma set_added_flags l s s' p : flags_set l s s' ->
  flags_set l (set_configs (alter (set_added true) p (configs s)) s) (set_configs (alter (set_added true) p (configs s')) s').
Proof.
  intros [He (X & Hc & HX)]. split; [exact He|]. exists X. split; [|done]. cbn. rewrite Hc. apply map_eq. intros q.
  rewrite lookup_alter, !marked_lookup. cbn. rewrite lookup_alter. case_decide; [|done]. subst. destruct (configs s !! q); [cbn|done]. by case_decide.
Qed.

Lemma set_added_rank s p q : rank (set_configs (alter (set_added true) p (configs s)) s) q = rank s q.
Proof. unfold rank. cbn. rewrite lookup_alter. case_decide; [|done]. subst. by destruct (configs s !! q). Qed.

Lemma add_run l s p nm max prio v : parts_inv l s -> 0 <= p < OCF_USER_IO_CLASS_MAX -> p ∉ l ->
  Z.of_nat (length (cstr nm)) < OCF_IO_CLASS_NAME_MAX -> 0 <= max <= PARTITION_SIZE_MAX ->
  wp (ocf_mngt_add_partition_to_cache p (Some nm) 0 max prio v) (fun r s' => r = 0 /\ exists l', parts_inv l' s' /\ l' ≡ₚ p :: l /\ evicts_first s' l' /\
    classes s' = (if v then <[p := mkClass (cstr nm) max prio ocf_cache_mode_max]> (classes s) else classes s) /\
    freezes s' = freezes s) s.
Proof.
  intros Hi Hp Hpl Hlen Hmax. destruct (pw_config _ (pi_wf _ _ Hi) p) as [c Hc]; [lia|]. pose proof (pi_count _ _ Hi) as Hcn.
  assert (valid c = false) as Hv. { destruct (valid c) eqn:Hv; [|done]. by apply (pi_valid _ _ Hi _ _ Hc) in Hv. }
  unfold ocf_mngt_add_partition_to_cache. rewrite (proj2 (Z.leb_gt OCF_USER_IO_CLASS_MAX p)) by lia.
  wp_step. eapply wp_config_of; [done|]. rewrite Hv, (proj2 (Z.ltb_ge max 0)), (proj2 (Z.ltb_ge PARTITION_SIZE_MAX max)) by lia.
  rewrite (proj2 (Z.leb_gt OCF_IO_CLASS_NAME_MAX _)) by (unfold env_strnlen; lia).
  wp_step. eapply wp_for_each_user_part; [by apply Hi|].
  destruct (existsb (Z.eqb p) l) eqn:Hex. { apply existsb_exists in Hex as (x & Hx & He%Z.eqb_eq). subst. by apply list_elem_of_In in Hx. }
  do 5 (wp_step; apply wp_upd_keep; [cbn; there|done|done|]). cbn [configs with_configs set_valid_parts_no set_configs]. rewrite !alter_alter_eq.
  wp_step. apply set_valid_run; [cbn; there|done|done|]. cbn [configs with_configs set_valid_parts_no set_configs]. rewrite alter_alter_eq.
  wp_step. unfold on_list. apply wp_zoom. eapply wp_mono; [apply ocf_lst_add_run; [apply (pi_lst _ _ Hi)|done|done|by apply (pi_out _ _ Hi)]|].
  intros [] m [Hm Hfr]. set (f := to_valid v ∘ _). set (s1 := set_lst m _). cbn beta.
  assert (forall c, f c = added_config nm max prio v c) as Hf by done. subst s1.
  replace f with (added_config nm max prio v) by done. clear f Hf.
  wp_step. eapply wp_mono; [apply (sort_run _ (p :: l))|].
  { split; [|apply (pi_wf _ _ Hi)]. intros q Hq. cbn. there. by apply (pw_config _ (pi_wf _ _ Hi)). }
  { done. }
  intros [] s2 (l' & Hl' & Hp' & Hs & Hf & Hfr2). cbn beta. destruct (Hf) as [He (X & HX & _)].
  wp_step. apply wp_upd_config; [rewrite HX, marked_lookup; cbn; rewrite lookup_alter_eq, Hc; by eexists|]. apply wp_ret. split; [done|].
  set (s1 := set_lst m _) in *. set (g := set_added true ∘ added_config nm max prio v).
  pose proof (set_added_flags (p :: l) s1 s2 p Hf) as Hf'.
  assert (parts_inv (p :: l) (set_configs (alter (set_added true) p (configs s1)) s1)) as Hi1.
  { replace (set_configs _ s1) with (set_lst m (with_configs (alter g p (configs s)) s)).
    - apply inv_with_added; try done; intros c'; unfold g, added_config; cbn [compose name min_size added set_added].
      + intros Hl. rewrite (kp_name _ (keeps_valid v)); [cbn; by apply length_env_strncpy|]. cbn. by rewrite length_env_strncpy.
      + by apply (kp_min _ (keeps_valid v)).
    - unfold s1, g. rewrite <- alter_alter_eq. unfold with_configs. cbn. by rewrite class_count_keep. }
  destruct (inv_sort _ l' _ (set_configs (alter (set_added true) p (configs s2)) s2) Hi1 Hf' Hl' Hp' Hfr2) as [Hi2 Hcl].
  exists l'. split_and!; [done|done| | |].
  - eapply evicts_first_flags; [exact Hf'|]. eapply evicts_first_rank; [apply set_added_rank|exact Hs].
  - rewrite Hcl. apply map_eq. intros q. rewrite classes_lookup. cbn. destruct (decide (p = q)) as [<-|Hne].
    + rewrite !lookup_alter_eq, Hc. cbn. destruct v.
      * rewrite lookup_insert_eq. unfold added_config. rewrite to_valid_true. unfold class_of. cbn [valid name max_size priority cache_mode set_added set_flag_valid set_cache_mode set_priority set_max_size set_min_size set_name].
        pose proof (pi_name _ _ Hi _ _ Hc). rewrite cstr_env_strncpy, take_ge; unfold OCF_IO_CLASS_NAME_MAX in *; [done|lia..].
      * rewrite classes_lookup, Hc. unfold class_of, added_config, to_valid. cbn. by rewrite Hv; cbn; rewrite ?Hv.
    + rewrite !lookup_alter_ne by done. rewrite <- classes_lookup. destruct v; [by rewrite lookup_insert_ne|done].
  - exact (f_equal freezes He).
Qed.
