(* ===== verification/IoClass.v ===== *)
(** The management of IO classes: what the partitions are after the start of a
    cache, what a configuration does to the classes, what is reported of them, and
    the limits of a partition. *)

From Stdlib Require Import String.
From stdpp Require Import sorting.
From S2P Require Import Prelude Dll Meta Request EnvList Lst UserPart UserClass.

(** ** The start *)

Definition all_parts (l : list Z) : Prop := forall p, 0 <= p < OCF_USER_IO_CLASS_MAX -> p ∈ l.

(** A new cache: no partition is valid or added. *)
Record fresh (s : parts) : Prop := {
  fr_wf : parts_wf s;
  fr_lst x : 0 <= x <= OCF_USER_IO_CLASS_MAX -> is_Some (lst_of s !! x);
  fr_config p c : configs s !! p = Some c -> Z.of_nat (length (name c)) = OCF_IO_CLASS_NAME_MAX /\ min_size c = 0 /\ valid c = false /\ added c = false;
  fr_freezes p : 0 <= p < OCF_USER_IO_CLASS_MAX -> is_Some (freezes s !! p);
  fr_count : valid_parts_no s = 0;
}.

Lemma tally_none {A} (P : A -> bool) l : (forall x, x ∈ l -> P x = false) -> tally P l = 0.
Proof.
  induction l as [|x l IH]; intros Hl; [done|]. rewrite tally_cons, (Hl x) by by left. rewrite IH; [done|]. intros y Hy. apply Hl. by right.
Qed.

Lemma init_run s : fresh s -> wp ocf_user_part_init (fun _ s' => parts_inv [] s' /\ classes s' = ∅ /\ freezes s' = freezes s) s.
Proof.
  intros Hf. unfold ocf_user_part_init. wp_step. unfold on_list. apply wp_zoom.
  eapply wp_mono; [apply ocf_lst_init_run; [done|apply Hf]|]. intros [] m (Hl & Ho & _). cbn beta.
  apply (wp_for_range _ (fun _ s' => exists a, s' = set_user_parts (mkUserParts m a) s)).
  - intros i s' _ [a ->]. unfold upd_id. wp_step. by eexists.
  - by eexists.
  - intros s' [a ->]. split_and!; [|cbn|done].
    + split; try done.
      * destruct (fr_wf _ Hf). by split.
      * intros x Hx _. by apply Ho.
      * intros p c Hc. by apply (fr_config _ Hf p).
      * intros p c Hc. by apply (fr_config _ Hf p).
      * intros p c Hc Hv. destruct (fr_config _ Hf p c Hc) as (_ & _ & Hv' & _). congruence.
      * intros p c Hc. destruct (fr_config _ Hf p c Hc) as (_ & _ & _ & Ha). by rewrite Ha.
      * cbn. rewrite (fr_count _ Hf). symmetry. apply tally_none. intros x _. unfold is_class. destruct (configs s !! x) eqn:Hx; [|done].
        by apply (fr_config _ Hf) in Hx as (_ & _ & ? & _).
    + apply map_eq. intros q. rewrite lookup_empty. unfold classes. rewrite lookup_omap. cbn. destruct (configs s !! q) eqn:Hq; [cbn|done].
      unfold class_of. apply (fr_config _ Hf) in Hq as (_ & _ & -> & _). done.
Qed.

Definition unclassified : io_class := mkClass (chars "unclassified") PARTITION_SIZE_MAX OCF_IO_CLASS_PRIO_LOWEST ocf_cache_mode_max.

Definition started (n : Z) (s0 s : parts) : Prop := exists l, parts_inv l s /\ (forall x, x ∈ l <-> x = PARTITION_DEFAULT \/ 0 <= x < n) /\
  evicts_first s l /\ classes s = {[PARTITION_DEFAULT := unclassified]} /\
  forall p, freezes s !! p = if decide (0 <= p < n) then (fun k => s32 (k + 1)) <$> freezes s0 !! p else freezes s0 !! p.

Lemma start_run s : fresh s -> wp (ocf_user_part_init;; __init_partitions) (fun _ s' => started OCF_USER_IO_CLASS_MAX s s') s.
Proof.
  intros Hf. wp_step. eapply wp_mono; [by apply init_run|]. intros [] s1 (Hi & Hc & Hfr). cbn beta. unfold __init_partitions.
  wp_step. eapply wp_mono; [apply (add_run [] s1); [done|done|set_solver|done|done]|]. intros r s2 (-> & l2 & Hi2 & Hp2 & He2 & Hc2 & Hfr2). cbn beta.
  wp_step. wp_step. apply (wp_for_range _ (fun i s' => started i s s')).
  - intros i s3 Hi3 (l & Hi' & Hl & He & Hcl & Hfz). change (0 <= i < 0 + 33) in Hi3. destruct (fr_freezes _ Hf i) as [k Hk]; [change OCF_USER_IO_CLASS_MAX with 33; lia|].
    assert (freezes s3 !! i = Some k) as Hki. { rewrite Hfz, decide_False by lia. done. }
    set (s4 := set_freezes (<[i := s32 (k + 1)]> (freezes s3)) s3).
    assert (freeze_cleaning i s3 = Some (tt, s4)) as Hrun by (unfold freeze_cleaning; by rewrite Hki).
    assert (parts_inv l s4) as Hi4 by (destruct Hi' as [[] ? ? ? ? ? ? ?]; split; [by split|done..]).
    assert (forall p, freezes s4 !! p = if decide (0 <= p < i + 1) then (fun k => s32 (k + 1)) <$> freezes s !! p else freezes s !! p) as Hfz4.
    { intros p. unfold s4. cbn. rewrite lookup_insert. case_decide as Hip; [subst; rewrite decide_True, Hk by lia; done|]. rewrite Hfz.
      repeat case_decide; try done; lia. }
    wp_step. eexists _, _. split; [exact Hrun|]. destruct (Z.eqb_spec i PARTITION_DEFAULT) as [Hd|Hd].
    + apply wp_ret. exists l. split_and!; [done| |done|done|done]. intros x. rewrite Hl. change PARTITION_DEFAULT with 0 in *. lia.
    + wp_step. eapply wp_mono; [apply (add_run l s4); [done|change OCF_USER_IO_CLASS_MAX with 33; lia|rewrite Hl; lia|done|done]|].
      intros r s5 (-> & l5 & Hi5 & Hp5 & He5 & Hc5 & Hfr5). wp_step. exists l5. split_and!; [done| |done|by rewrite Hc5|by rewrite Hfr5].
      intros x. rewrite Hp5, elem_of_cons, Hl. lia.
  - exists l2. split_and!; [done| |done| |].
    + intros x. rewrite Hp2, list_elem_of_singleton. lia.
    + by rewrite Hc2, Hc.
    + intros p. rewrite decide_False by lia. by rewrite Hfr2, Hfr.
  - done.
Qed.

(** ** Configuration *)

Lemma validate_loop_run cfg : Forall (fun c => 0 <= class_id c) cfg ->
  validate_loop cfg = 0 /\ Forall cfg_ok cfg \/ validate_loop cfg = - OCF_ERR_INVAL.
Proof.
  induction 1 as [|c cfg Hc Hcfg IH]; [by left|]. cbn [validate_loop]. destruct (Z.eqb_spec (_ocf_mngt_io_class_validate_cfg c) 0) as [He|He]; cbn [negb].
  - destruct IH as [[Hv Hok]|Hv]; [left|by right]. split; [done|]. constructor; [by apply validate_ok|done].
  - right. revert He. unfold _ocf_mngt_io_class_validate_cfg. repeat case_match; done.
Qed.

(** The flags that allow eviction. *)
Definition flags_right (s : parts) : Prop := forall p c, 0 <= p < OCF_USER_IO_CLASS_MAX -> configs s !! p = Some c -> eviction c = evictable s p c.

Lemma flags_sorted l s s' : all_parts l -> NoDup l -> flags_set l s s' -> flags_right s'.
Proof.
  intros Hall Hnd [He (X & Hc & HX)] p c Hp. pose proof (f_equal attached He) as Ha. pose proof (f_equal curr_size He) as Hs. cbn in Ha, Hs.
  rewrite Hc, marked_lookup. intros (c0 & Hc0 & ->)%fmap_Some. rewrite decide_True.
  - unfold evictable, seen_size. cbn. by rewrite Ha, Hs.
  - apply HX; [|apply elem_of_list_to_set; by apply Hall].
    destruct l as [|x [|y l]]; cbn; [| |lia]; exfalso; pose proof (Hall 0 ltac:(done)) as H0; pose proof (Hall 1 ltac:(done)) as H1; set_solver.
Qed.

Lemma configure_run l s cfg n0 : parts_inv l s -> all_parts l -> device s = true -> class_name <$> classes s !! PARTITION_DEFAULT = Some n0 ->
  Forall (fun c => 0 <= class_id c) cfg ->
  wp (ocf_mngt_cache_io_classes_configure true cfg) (fun r s' =>
    if negb (validate_loop cfg =? 0) then r = - OCF_ERR_INVAL /\ s' = s
    else classes s' = foldl set_class (classes s) (accepted_prefix n0 cfg) /\
      r = (if forallb (accepted n0) cfg then 0 else - OCF_ERR_INVAL) /\
      exists l', parts_inv l' s' /\ l' ≡ₚ l /\ if r =? 0 then evicts_first s' l' /\ flags_right s' else user_parts s' = user_parts s) s.
Proof.
  intros Hi Hall Hd H0 Hid. unfold ocf_mngt_cache_io_classes_configure. destruct (validate_loop_run cfg Hid) as [[-> Hok]| ->].
  2:{ apply wp_ret. done. }
  change (negb (0 =? 0)) with false. cbv iota. cbn [negb]. do 2 wp_step. wp_step. eapply wp_mono; [by apply (edit_loop_run l n0)|].
  intros r s1 (Hi1 & Hc1 & -> & m & Hs1). cbn beta. wp_step. destruct (forallb (accepted n0) cfg) eqn:Hall1.
  - change (0 =? 0) with true. cbv iota. eapply wp_mono; [by apply (sort_keeps l)|]. intros [] s2 (l' & Hi2 & Hp & He & Hc2 & Hf). cbn beta. apply wp_ret.
    split_and!; [by rewrite Hc2|done|]. exists l'. split_and!; [done|done|]. split; [done|]. eapply flags_sorted; [exact Hall| |exact Hf].
    pose proof (proj1 (proj1 (pi_lst _ _ Hi))) as Hnd. by apply NoDup_cons in Hnd as [_ ?].
  - change (- OCF_ERR_INVAL =? 0) with false. cbv iota. wp_step. wp_step.
    assert (set_user_parts (user_parts s) s1 = s1) as -> by (rewrite Hs1; by destruct s). split_and!; [done|done|].
    exists l. split_and!; [done|done|]. by rewrite Hs1.
Qed.

(** ** Limits *)

Lemma wp_occupancy p n Q s : curr_size s !! p = Some n -> Q (u32 n) s -> wp (ocf_part_get_occupancy p) Q s.
Proof. intros Hn HQ. unfold ocf_part_get_occupancy. do 3 wp_step. eapply wp_lift; [done|]. by apply wp_ret. Qed.

Lemma min_size_run p c s : configs s !! p = Some c -> 0 <= min_size c <= PARTITION_SIZE_MAX -> 0 <= cachelines s < 2 ^ 32 ->
  ocf_user_part_get_min_size p s = Some (min_size c * cachelines s / 100, s).
Proof.
  intros Hc Hm Hn. change PARTITION_SIZE_MAX with 100 in Hm. unfold ocf_user_part_get_min_size, config_of. unfold mbind, M_bind, gets, lift. cbn. rewrite Hc. cbn.
  assert (0 <= min_size c * cachelines s <= 100 * cachelines s) by nia. rewrite u64_small by lia. rewrite u32_small; [done|].
  split; [apply Z.div_pos; lia|]. apply Z.div_lt_upper_bound; lia.
Qed.

Lemma max_size_run p c s : configs s !! p = Some c -> 0 <= max_size c <= PARTITION_SIZE_MAX -> 0 <= cachelines s < 2 ^ 32 ->
  ocf_user_part_get_max_size p s = Some ((max_size c * cachelines s + 99) / 100, s).
Proof.
  intros Hc Hm Hn. change PARTITION_SIZE_MAX with 100 in Hm. unfold ocf_user_part_get_max_size, config_of, OCF_DIV_ROUND_UP64. unfold mbind, M_bind, gets, lift. cbn. rewrite Hc. cbn.
  assert (0 <= max_size c * cachelines s <= 100 * cachelines s) by nia. rewrite (u64_small (max_size c * cachelines s)), (u64_small (_ + 100)), u64_small by lia.
  replace (max_size c * cachelines s + 100 - 1) with (max_size c * cachelines s + 99) by lia. rewrite u32_small; [done|].
  split; [apply Z.div_pos; lia|]. apply Z.div_lt_upper_bound; lia.
Qed.

(** Reading a class: the name has room for two characters less than its buffer. *)
Lemma get_info_run l s p i : parts_inv l s -> 0 <= p < 2 ^ 32 -> Z.of_nat (length (info_name i)) = OCF_IO_CLASS_NAME_MAX ->
  wp (ocf_cache_io_class_get_info p (Some i)) (fun ro s' => s' = s /\
    if OCF_USER_IO_CLASS_MAX <=? p then ro = (- OCF_ERR_INVAL, Some i)
    else match classes s !! p with
      | None => ro = (- OCF_ERR_IO_CLASS_NOT_EXIST, Some i)
      | Some k => ro.1 = 0 /\ exists i', ro.2 = Some i' /\ cstr (info_name i') = take 1022 (class_name k) /\ info_cache_mode i' = class_mode k /\
          info_priority i' = class_priority k /\ info_max_size i' = class_max_size k /\ info_min_size i' = 0 /\ info_curr_size i' = u32 (seen_size s p)
      end) s.
Proof.
  intros Hi Hp Hl. unfold ocf_cache_io_class_get_info. destruct (Z.leb_spec OCF_USER_IO_CLASS_MAX p) as [|Hlt]; [by apply wp_ret|].
  assert (u16 p = p) as -> by (apply Z.mod_small; change OCF_USER_IO_CLASS_MAX with 33 in Hlt; lia).
  destruct (pw_config _ (pi_wf _ _ Hi) p) as [c Hc]; [lia|]. wp_step. eapply wp_config_of; [done|].
  rewrite classes_lookup, Hc. cbn [mbind option_bind]. unfold class_of, ocf_user_part_is_valid. destruct (valid c); cbn [negb]; [|by apply wp_ret].
  wp_step. apply wp_part_size; [intros Ha; apply (pw_size _ (pi_wf _ _ Hi)); [done|lia]|]. do 3 wp_step. split_and!; [done|done|]. eexists. split; [done|].
  cbn [info_name info_cache_mode info_priority info_max_size info_min_size info_curr_size class_name class_mode class_priority class_max_size].
  split_and!; [|done|done|done|by eapply (pi_min _ _ Hi)|done].
  rewrite cstr_env_strncpy; [done| |]; change OCF_IO_CLASS_NAME_MAX with 1024 in *; lia.
Qed.

(** ** The claims *)

(** C31: What the user partitions are after the start of a cache: every partition is
    on the list, in the order in which partitions are evicted; one class exists, the
    unclassified one. *)
Theorem partitions_start s : fresh s -> wp (ocf_user_part_init;; __init_partitions) (fun _ s' => exists l, parts_inv l s' /\
  (forall x, x ∈ l <-> 0 <= x < OCF_USER_IO_CLASS_MAX) /\ evicts_first s' l /\ classes s' = {[PARTITION_DEFAULT := unclassified]} /\
  forall p, 0 <= p < OCF_USER_IO_CLASS_MAX -> freezes s' !! p = (fun k => s32 (k + 1)) <$> freezes s !! p) s.
Proof.
  intros Hf. eapply wp_mono; [by apply start_run|]. intros [] s' (l & Hi & Hl & He & Hc & Hz). exists l. split_and!; [done| |done|done|].
  - intros x. rewrite Hl. change PARTITION_DEFAULT with 0. change OCF_USER_IO_CLASS_MAX with 33. lia.
  - intros p Hp. by rewrite Hz, decide_True.
Qed.

(** C18: Configuring the IO classes.  A configuration that does not pass the checks
    changes nothing.  Otherwise the edits in front of the first that is refused (an
    empty name, another name for the default class) are done on the classes; when
    none is refused, the partitions are put in the order of eviction and the flags
    that allow eviction are right. *)
Theorem io_classes_configured l s cfg n0 : parts_inv l s -> all_parts l -> device s = true ->
  class_name <$> classes s !! PARTITION_DEFAULT = Some n0 -> Forall (fun c => 0 <= class_id c) cfg ->
  wp (ocf_mngt_cache_io_classes_configure true cfg) (fun r s' =>
    if negb (validate_loop cfg =? 0) then r = - OCF_ERR_INVAL /\ s' = s
    else classes s' = foldl set_class (classes s) (accepted_prefix n0 cfg) /\
      r = (if forallb (accepted n0) cfg then 0 else - OCF_ERR_INVAL) /\
      exists l', parts_inv l' s' /\ l' ≡ₚ l /\ if r =? 0 then evicts_first s' l' /\ flags_right s' else user_parts s' = user_parts s) s.
Proof. apply configure_run. Qed.

(** C33: How many lines may be taken from a partition: no more than are wanted, and
    none below its minimum size; the sizes are the percentages of the cache, rounded
    down and up, without overflow. *)
Theorem evict_calculate_exact s p c n k : configs s !! p = Some c -> curr_size s !! p = Some n -> 0 <= n < 2 ^ 31 ->
  0 <= min_size c <= max_size c -> max_size c <= PARTITION_SIZE_MAX -> 0 <= cachelines s < 2 ^ 32 -> 0 <= k < 2 ^ 32 ->
  ocf_evict_calculate p k s = Some (Z.max 0 (Z.min k (n - min_size c * cachelines s / 100)), s) /\
  ocf_user_part_overflow_size p s = Some (Z.max 0 (n - (max_size c * cachelines s + 99) / 100), s) /\
  min_size c * cachelines s / 100 <= (max_size c * cachelines s + 99) / 100 <= cachelines s.
Proof.
  intros Hc Hn Hb Hmm HM Hl Hk. pose proof (min_size_run p c s Hc ltac:(lia) Hl) as Hmin. pose proof (max_size_run p c s Hc ltac:(lia) Hl) as Hmax.
  assert (ocf_part_get_occupancy p s = Some (n, s)) as Hocc by (unfold ocf_part_get_occupancy, mbind, M_bind, gets, lift; cbn; rewrite Hn; cbn; by rewrite u32_small by lia).
  change PARTITION_SIZE_MAX with 100 in HM. set (lo := min_size c * cachelines s / 100) in *. set (hi := (max_size c * cachelines s + 99) / 100) in *.
  assert (0 <= lo) by (apply Z.div_pos; nia). assert (lo <= hi) by (apply Z.div_le_mono; nia).
  assert (hi <= cachelines s). { apply Z.lt_succ_r, Z.div_lt_upper_bound; nia. }
  unfold ocf_evict_calculate, ocf_user_part_overflow_size, mbind, M_bind. rewrite Hocc, Hmin, Hmax. split_and!; [| |done|done].
  - destruct (Z.leb_spec n lo); [unfold mret, M_ret; do 2 f_equal; lia|]. rewrite u32_small by lia. unfold mret, M_ret. do 2 f_equal. destruct (Z.ltb_spec (n - lo) k); lia.
  - unfold mret, M_ret. do 2 f_equal. destruct (Z.ltb_spec hi n); [rewrite u32_small by lia|]; lia.
Qed.

(** ** A cache *)

Definition zero_config : ocf_user_part_config := mkPartConfig (replicate 1024 0) 0 0 false false false 0 0.
Definition zero_parts : parts :=
  mkParts (mkUserParts (list_to_map ((fun i => (i, mkHead 0 0)) <$> seqZ 0 34)) ∅)
    (list_to_map ((fun i => (i, zero_config)) <$> seqZ 0 34)) (list_to_map ((fun i => (i, 0)) <$> seqZ 0 34))
    (list_to_map ((fun i => (i, 0)) <$> seqZ 0 34)) 0 1000 0 true true.

Lemma zero_map {A} (a : A) p : list_to_map (M := gmap Z A) ((fun i => (i, a)) <$> seqZ 0 34) !! p = if decide (0 <= p < 34) then Some a else None.
Proof.
  case_decide as Hp.
  - apply elem_of_list_to_map.
    + rewrite <- list_fmap_compose. change (fst ∘ _) with (fun i : Z => i). rewrite list_fmap_id. apply NoDup_seqZ.
    + apply list_elem_of_fmap. exists p. split; [done|]. apply elem_of_seqZ. lia.
  - apply not_elem_of_list_to_map. rewrite <- list_fmap_compose. change (fst ∘ _) with (fun i : Z => i). rewrite list_fmap_id, elem_of_seqZ. lia.
Qed.

Lemma fresh_zero : fresh zero_parts.
Proof.
  split; try done.
  - split; intros p; [|intros _]; change OCF_USER_IO_CLASS_MAX with 33; intros Hp; unfold zero_parts; cbn [configs curr_size]; rewrite zero_map, decide_True by lia; by eexists.
  - change OCF_USER_IO_CLASS_MAX with 33. intros x Hx. unfold zero_parts, lst_of. cbn [user_parts lst_valid]. rewrite zero_map, decide_True by lia. by eexists.
  - intros p c. unfold zero_parts. cbn [configs]. rewrite zero_map. case_decide; [|done]. intros [= <-]. done.
  - change OCF_USER_IO_CLASS_MAX with 33. intros x Hx. unfold zero_parts. cbn [freezes]. rewrite zero_map, decide_True by lia. by eexists.
Qed.

Definition started_parts : parts := match (ocf_user_part_init;; __init_partitions) zero_parts with Some (_, s) => s | None => zero_parts end.

Lemma started_parts_inv : exists l, parts_inv l started_parts /\ all_parts l.
Proof.
  destruct (start_run zero_parts fresh_zero) as ([] & s & Hrun & l & Hi & Hl & _). exists l. unfold started_parts. rewrite Hrun.
  split; [done|]. intros p Hp. apply Hl. by right.
Qed.

(** Configurations that name the class [i] or remove it. *)
Definition config_of_class (names : list (Z * string)) (i : Z) : ocf_mngt_io_class_config :=
  mkIoClass i 50 (chars <$> (list_to_map names : gmap Z string) !! i) 1 3.
Definition demo_config (names : list (Z * string)) : list ocf_mngt_io_class_config := config_of_class names <$> seqZ 0 OCF_USER_IO_CLASS_MAX.

Lemma demo_ids names : Forall (fun c => 0 <= class_id c) (demo_config names).
Proof. apply Forall_fmap, Forall_forall. intros i Hi%elem_of_seqZ. cbn. lia. Qed.

(** ** Witnesses *)

Lemma partitions_start_witness : fresh zero_parts /\ exists s', (ocf_user_part_init;; __init_partitions) zero_parts = Some (tt, s') /\
  classes s' = {[PARTITION_DEFAULT := unclassified]}.
Proof.
  split; [exact fresh_zero|]. destruct (partitions_start zero_parts fresh_zero) as ([] & s' & Hrun & l & _ & _ & _ & Hc & _).
  exists s'. exact (conj Hrun Hc).
Defined.

Lemma io_classes_configured_witness : exists s',
  ocf_mngt_cache_io_classes_configure true (demo_config [(1, "fast"%string)]) started_parts = Some (0, s') /\
  classes s' !! 1 = Some (mkClass (chars "fast") 50 3 1) /\ flags_right s'.
Proof.
  destruct started_parts_inv as (l & Hi & Hall).
  destruct (io_classes_configured l started_parts (demo_config [(1, "fast"%string)]) (chars "unclassified") Hi Hall
    ltac:(by vm_compute) ltac:(by vm_compute) (demo_ids _)) as (r & s' & Hrun & Hc & Hr & l' & _ & _ & Hl).
  exists s'. change (r = 0) in Hr. subst r. split; [exact Hrun|]. destruct Hl as [_ Hf]. split; [|exact Hf]. rewrite Hc. by vm_compute.
Defined.

Definition part_demo : parts := mkParts (mkUserParts ∅ ∅) {[1 := mkPartConfig [] 10 50 true true true 3 0]} ∅ {[1 := 700]} 1 1000 0 true true.

Lemma evict_calculate_exact_witness : ocf_evict_calculate 1 900 part_demo = Some (600, part_demo) /\ ocf_user_part_overflow_size 1 part_demo = Some (200, part_demo).
Proof.
  destruct (evict_calculate_exact part_demo 1 (mkPartConfig [] 10 50 true true true 3 0) 700 900) as (H1 & H2 & _);
    [done|done|lia|cbn; lia|cbn; unfold PARTITION_SIZE_MAX; lia|cbn; lia|lia|]. by split.
Defined.
