(* ===== verification/LsmtSegment.v ===== *)
(** Segments of a log-structured image: lsmt/index.h, and the theory of sorted
    segment lists the indexes share.

    A mapping says that a range of logical blocks of 512 bytes is at [moffset] of
    the file [tag], or reads as zeros.  A sorted list of mappings denotes a
    partial function from logical blocks to what they hold ([den]); [clip]
    restricts a list to a range of blocks. *)

From S2P Require Import Prelude.

(** ** Data *)

Definition u14 (x : Z) : Z := x mod 2 ^ 14.
Definition u50 (x : Z) : Z := x mod 2 ^ 50.
Definition u55 (x : Z) : Z := x mod 2 ^ 55.

Definition MAX_OFFSET : Z := 2 ^ 50 - 1.
Definition MAX_LENGTH : Z := 2 ^ 14 - 1.
Definition INVALID_OFFSET : Z := MAX_OFFSET.
Definition UINT64_MAX : Z := 2 ^ 64 - 1.

(** The bit fields [offset : 50] and [length : 14]. *)
Record Segment := mkSegment { offset : Z; seg_length : Z }.

(** [struct SegmentMapping : public Segment]. *)
Record SegmentMapping := mkMapping {
  seg :> Segment;
  moffset : Z;
  zeroed : bool;
  tag : Z
}.

#[export] Instance Segment_eq_dec : EqDecision Segment.
Proof. solve_decision. Defined.
#[export] Instance SegmentMapping_eq_dec : EqDecision SegmentMapping.
Proof. solve_decision. Defined.

(** No overflow: the fields have 50 and 14 bits. *)
Definition end_ (s : Segment) : Z := offset s + seg_length s.

(** [Segment::forward_offset_to]; [None] is the assertion. *)
Definition seg_forward_offset_to (x : Z) (s : Segment) : option (Segment * Z) :=
  if x <? offset s then None
  else let delta := u64 (x - offset s) in
       Some (mkSegment (u50 x) (u14 (seg_length s - delta)), delta).

(** The constructor of [SegmentMapping], with the assertion on the length. *)
Definition SegmentMapping_new (loffset length moffset tag : Z) : option SegmentMapping :=
  if MAX_LENGTH <? u32 length then None
  else Some (mkMapping (mkSegment (u50 loffset) (u14 (u32 length))) (u55 moffset) false (u8 tag)).

Definition mend (m : SegmentMapping) : Z := if zeroed m then moffset m else moffset m + seg_length m.

Definition forward_offset_to (x : Z) (m : SegmentMapping) : option SegmentMapping :=
  '(s, delta) ← seg_forward_offset_to x m;
  Some (mkMapping s (u55 (moffset m + (if zeroed m then 0 else delta))) (zeroed m) (tag m)).

Definition backward_end_to (x : Z) (m : SegmentMapping) : option SegmentMapping :=
  if x <=? offset m then None
  else Some (mkMapping (mkSegment (offset m) (u14 (u32 (x - offset m)))) (moffset m) (zeroed m) (tag m)).

Definition discard (m : SegmentMapping) : SegmentMapping := mkMapping (seg m) (moffset m) true (tag m).
Definition with_tag (t : Z) (m : SegmentMapping) : SegmentMapping := mkMapping (seg m) (moffset m) (zeroed m) t.
Definition with_moffset (x : Z) (m : SegmentMapping) : SegmentMapping := mkMapping (seg m) x (zeroed m) (tag m).

Definition invalid_mapping : SegmentMapping := mkMapping (mkSegment INVALID_OFFSET 0) 0 false 0.

(** [operator<]: an end is not inclusive. *)
Definition seg_lt (a b : Segment) : bool := end_ a <=? offset b.

(** ** What a list of mappings denotes *)

(** A logical block that is mapped reads as zeros, or from a block of a file. *)
Inductive block := Zeros (t : Z) | Data (t : Z) (at_ : Z).

Definition in_seg (s : Segment) (x : Z) : bool := (offset s <=? x) && (x <? end_ s).
Definition block_at (m : SegmentMapping) (x : Z) : block :=
  if zeroed m then Zeros (tag m) else Data (tag m) (moffset m + (x - offset m)).

Fixpoint den (l : list SegmentMapping) (x : Z) : option block :=
  match l with
  | [] => None
  | m :: l => if in_seg m x then Some (block_at m x) else den l x
  end.

(** A mapping whose fields are in range and that is not empty. *)
Definition wf (m : SegmentMapping) : Prop :=
  0 <= offset m /\ 0 < seg_length m <= MAX_LENGTH /\ end_ m <= MAX_OFFSET /\
  0 <= moffset m /\ mend m < 2 ^ 55 /\ 0 <= tag m < 256.

(** The mappings of [l] are well formed, in order, and between [lo] and [hi]. *)
Fixpoint chain (lo : Z) (l : list SegmentMapping) (hi : Z) : Prop :=
  match l with
  | [] => lo <= hi
  | m :: l => lo <= offset m /\ wf m /\ chain (end_ m) l hi
  end.

(** The part of [m] in the blocks from [a] to [b], and the parts of a list. *)
Definition piece (m : SegmentMapping) (a b : Z) : SegmentMapping :=
  mkMapping (mkSegment a (b - a)) (if zeroed m then moffset m else moffset m + (a - offset m)) (zeroed m) (tag m).
Definition clip1 (a b : Z) (m : SegmentMapping) : list SegmentMapping :=
  if Z.max a (offset m) <? Z.min b (end_ m) then [piece m (Z.max a (offset m)) (Z.min b (end_ m))] else [].
Fixpoint clip (a b : Z) (l : list SegmentMapping) : list SegmentMapping :=
  match l with
  | [] => []
  | m :: l => clip1 a b m ++ clip a b l
  end.

(** How many blocks the mappings keep in files. *)
Definition data_blocks1 (m : SegmentMapping) : Z := if zeroed m then 0 else seg_length m.
Fixpoint data_blocks (l : list SegmentMapping) : Z :=
  match l with
  | [] => 0
  | m :: l => data_blocks1 m + data_blocks l
  end.

(** Mappings [top] over mappings [bottom], from block [lo] to block [hi]. *)
Fixpoint layer_over (lo : Z) (top bottom : list SegmentMapping) (hi : Z) : list SegmentMapping :=
  match top with
  | [] => clip lo hi bottom
  | m :: top => clip lo (offset m) bottom ++ m :: layer_over (end_ m) top bottom hi
  end.

(** ** Pieces *)

(** Case analysis on the comparisons of a goal. *)
Ltac zcases :=
  repeat match goal with
  | |- context [?x <? ?y] => destruct (Z.ltb_spec x y)
  | |- context [?x <=? ?y] => destruct (Z.leb_spec x y)
  | |- context [?x =? ?y] => destruct (Z.eqb_spec x y)
  end; simpl in *; try lia; try done.

Lemma u50_small x : 0 <= x < 2 ^ 50 -> u50 x = x.
Proof. apply Z.mod_small. Qed.
Lemma u14_small x : 0 <= x < 2 ^ 14 -> u14 x = x.
Proof. apply Z.mod_small. Qed.
Lemma u55_small x : 0 <= x < 2 ^ 55 -> u55 x = x.
Proof. apply Z.mod_small. Qed.

Lemma wf_bounds m : wf m -> 0 <= offset m /\ offset m < end_ m /\ end_ m <= MAX_OFFSET /\
  end_ m = offset m + seg_length m /\ seg_length m <= MAX_LENGTH.
Proof. unfold wf, end_. lia. Qed.

Lemma end_mk a b : end_ (mkSegment a (b - a)) = b.
Proof. unfold end_. simpl. lia. Qed.

Lemma end_piece m a b : end_ (piece m a b) = b.
Proof. unfold end_. simpl. lia. Qed.

Lemma piece_id m : piece m (offset m) (end_ m) = m.
Proof.
  destruct m as [[o l] mo z t]. unfold piece, end_. simpl. f_equal; [f_equal; lia|].
  destruct z; lia.
Qed.

Lemma piece_piece m a b c d : piece (piece m a b) c d = piece m c d.
Proof. unfold piece. simpl. f_equal. destruct (zeroed m); lia. Qed.

Lemma wf_piece m a b : wf m -> offset m <= a -> a < b -> b <= end_ m -> wf (piece m a b).
Proof.
  unfold wf, piece, mend, end_, MAX_LENGTH, MAX_OFFSET. simpl. intros (H1 & H2 & H3 & H4 & H5 & H6) Ha Hab Hb.
  destruct (zeroed m); lia.
Qed.

Lemma forward_piece m x : wf m -> offset m <= x < end_ m -> forward_offset_to x m = Some (piece m x (end_ m)).
Proof.
  intros (H1 & H2 & H3 & H4 & H5 & H6) Hx. unfold forward_offset_to, seg_forward_offset_to, piece.
  unfold wf, mend, end_, MAX_LENGTH, MAX_OFFSET in *. destruct (Z.ltb_spec x (offset m)); [lia|]. simpl.
  rewrite (u64_small (x - offset m)) by lia. rewrite u50_small, u14_small by lia. do 2 f_equal.
  - f_equal; lia.
  - destruct (zeroed m); apply u55_small || rewrite u55_small; lia.
Qed.

Lemma backward_piece m x : wf m -> offset m < x <= end_ m ->
  backward_end_to x m = Some (piece m (offset m) x).
Proof.
  intros (H1 & H2 & H3 & H4 & H5 & H6) Hx. unfold backward_end_to, piece.
  unfold wf, mend, end_, MAX_LENGTH, MAX_OFFSET in *. destruct (Z.leb_spec x (offset m)); [lia|].
  rewrite u32_small, u14_small by lia. do 2 f_equal. destruct (zeroed m); lia.
Qed.

(** A request's segment moves to any block up to its end. *)
Definition seg_ok (s : Segment) : Prop := 0 <= offset s /\ 0 <= seg_length s <= MAX_LENGTH /\ end_ s <= MAX_OFFSET.

Lemma seg_forward s x : seg_ok s -> offset s <= x <= end_ s ->
  seg_forward_offset_to x s = Some (mkSegment x (end_ s - x), x - offset s).
Proof.
  unfold seg_ok, end_, MAX_LENGTH, MAX_OFFSET, seg_forward_offset_to. intros Hs Hx.
  destruct (Z.ltb_spec x (offset s)); [lia|]. rewrite u64_small, u50_small, u14_small by lia.
  do 3 f_equal. lia.
Qed.

Lemma block_piece m a b x : block_at (piece m a b) x = block_at m x.
Proof. unfold block_at, piece. simpl. destruct (zeroed m); [done|]. f_equal. lia. Qed.

(** ** Chains *)

Lemma chain_le lo l hi : chain lo l hi -> lo <= hi.
Proof. revert lo. induction l as [|m l IH]; intros lo; simpl; [done|]. intros (H & Hw%wf_bounds & Hc%IH). lia. Qed.

Lemma chain_app lo l1 l2 hi : chain lo (l1 ++ l2) hi <-> exists mid, chain lo l1 mid /\ chain mid l2 hi.
Proof.
  revert lo. induction l1 as [|m l1 IH]; intros lo; simpl.
  - split; [intros H; exists lo; split; [lia|done]|]. intros (mid & Hm & Hc).
    destruct l2 as [|m2 l2]; simpl in *; [lia|]. destruct Hc as (? & ? & ?). split_and!; [lia|done|done].
  - rewrite IH. split.
    + intros (H1 & H2 & mid & H3 & H4). eauto.
    + intros (mid & (H1 & H2 & H3) & H4). eauto.
Qed.

Lemma chain_weaken lo lo' l hi hi' : chain lo l hi -> lo' <= lo -> hi <= hi' -> chain lo' l hi'.
Proof.
  revert lo lo'. induction l as [|m l IH]; intros lo lo'; simpl; [lia|].
  intros (H1 & H2 & H3) Hlo Hhi. split_and!; [lia|done|]. eapply IH; [done|lia|done].
Qed.

Lemma chain_elem lo l hi m : chain lo l hi -> m ∈ l -> wf m /\ lo <= offset m /\ end_ m <= hi.
Proof.
  intros Hc (l1 & l2 & ->)%list_elem_of_split.
  apply chain_app in Hc as (mid & H1%chain_le & H2 & H3 & H4%chain_le). split; [done|lia].
Qed.

Lemma chain_last lo l m hi hi' : chain lo (l ++ [m]) hi -> end_ m <= hi' -> chain lo (l ++ [m]) hi'.
Proof.
  intros (mid & H1 & H2 & H3 & _)%chain_app Hm. apply chain_app. exists mid. simpl. done.
Qed.

(** ** Denotations *)

Lemma den_app l1 l2 x : den (l1 ++ l2) x = match den l1 x with Some b => Some b | None => den l2 x end.
Proof. induction l1 as [|m l1 IH]; simpl; [done|]. rewrite IH. by destruct (in_seg m x). Qed.

Lemma den_outside lo l hi x : chain lo l hi -> x < lo \/ hi <= x -> den l x = None.
Proof.
  revert lo. induction l as [|m l IH]; intros lo; simpl; [done|].
  intros (H1 & Hw%wf_bounds & H3) Hx. pose proof (chain_le _ _ _ H3).
  unfold in_seg. zcases; apply (IH _ H3); lia.
Qed.

Lemma in_seg_true s x : in_seg s x = true <-> offset s <= x < end_ s.
Proof. unfold in_seg. rewrite andb_true_iff, Z.leb_le, Z.ltb_lt. done. Qed.
Lemma in_seg_false s x : in_seg s x = false <-> x < offset s \/ end_ s <= x.
Proof. unfold in_seg. rewrite andb_false_iff, Z.leb_gt, Z.ltb_ge. done. Qed.

(** ** Clipping *)

Lemma clip_app a b l1 l2 : clip a b (l1 ++ l2) = clip a b l1 ++ clip a b l2.
Proof. induction l1 as [|m l1 IH]; simpl; [done|]. by rewrite IH, app_assoc. Qed.

Lemma clip1_inside a b m : wf m -> a <= offset m -> end_ m <= b -> clip1 a b m = [m].
Proof.
  intros Hw%wf_bounds Ha Hb. unfold clip1. rewrite Z.max_r, Z.min_r by lia. zcases. by rewrite piece_id.
Qed.

Lemma clip1_outside a b (m : SegmentMapping) : b <= offset m \/ end_ m <= a -> clip1 a b m = [].
Proof. intros H. unfold clip1. zcases. Qed.

Lemma clip1_empty a b (m : SegmentMapping) : b <= a -> clip1 a b m = [].
Proof. intros H. unfold clip1. zcases. Qed.

Lemma clip_empty a b l : b <= a -> clip a b l = [].
Proof. intros H. induction l as [|m l IH]; simpl; [done|]. by rewrite clip1_empty, IH. Qed.

Lemma clip_id a b lo l hi : chain lo l hi -> a <= lo -> hi <= b -> clip a b l = l.
Proof.
  revert lo. induction l as [|m l IH]; intros lo; simpl; [done|]. intros (H1 & H2 & H3) Ha Hb.
  pose proof (chain_le _ _ _ H3). pose proof (wf_bounds _ H2).
  rewrite clip1_inside by (done || lia). simpl. f_equal. apply (IH _ H3); lia.
Qed.

Lemma clip_outside a b lo l hi : chain lo l hi -> b <= lo \/ hi <= a -> clip a b l = [].
Proof.
  revert lo. induction l as [|m l IH]; intros lo; simpl; [done|]. intros (H1 & H2%wf_bounds & H3) Hab.
  pose proof (chain_le _ _ _ H3). rewrite clip1_outside by lia. apply (IH _ H3). lia.
Qed.

Lemma clip_chain_from a b c lo l hi : chain lo l hi -> c <= Z.max a lo -> c <= b -> chain c (clip a b l) b.
Proof.
  revert lo c. induction l as [|m l IH]; intros lo c; simpl; [done|]. intros (H1 & H2 & H3) Hc Hb.
  pose proof (wf_bounds _ H2) as Hw. unfold clip1.
  destruct (Z.ltb_spec (Z.max a (offset m)) (Z.min b (end_ m))); simpl.
  - rewrite end_mk. split_and!; [lia|apply wf_piece; (done || lia)|]. apply (IH _ _ H3); lia.
  - apply (IH _ _ H3); lia.
Qed.

Lemma clip_chain a b lo l hi : chain lo l hi -> a <= b -> chain a (clip a b l) b.
Proof. intros Hc Hab. eapply clip_chain_from; [done|lia|done]. Qed.

Lemma den_clip1 a b m x : den (clip1 a b m) x = if (a <=? x) && (x <? b) && in_seg m x then Some (block_at m x) else None.
Proof.
  unfold clip1, in_seg. destruct (Z.ltb_spec (Z.max a (offset m)) (Z.min b (end_ m))); simpl.
  - unfold in_seg. simpl. rewrite end_mk, block_piece.
    replace ((Z.max a (offset m) <=? x) && (x <? Z.min b (end_ m))) with
      ((a <=? x) && (x <? b) && ((offset m <=? x) && (x <? end_ m))); [done|].
    apply eq_true_iff_eq. rewrite !andb_true_iff, !Z.leb_le, !Z.ltb_lt. lia.
  - zcases; done.
Qed.

Lemma den_clip a b l x : den (clip a b l) x = if (a <=? x) && (x <? b) then den l x else None.
Proof.
  induction l as [|m l IH]; simpl; [by destruct (_ && _)|]. rewrite den_app, den_clip1, IH.
  destruct (_ && _); simpl; [by destruct (in_seg m x)|done].
Qed.

Lemma clip1_clip1 a b c d m : clip a b (clip1 c d m) = clip1 (Z.max a c) (Z.min b d) m.
Proof.
  unfold clip1 at 1. destruct (Z.ltb_spec (Z.max c (offset m)) (Z.min d (end_ m))); simpl.
  - rewrite app_nil_r. unfold clip1. simpl. rewrite end_mk.
    rewrite <- !Z.max_assoc, <- !Z.min_assoc. rewrite piece_piece. done.
  - unfold clip1. zcases; done.
Qed.

Lemma clip_clip a b c d l : clip a b (clip c d l) = clip (Z.max a c) (Z.min b d) l.
Proof. induction l as [|m l IH]; simpl; [done|]. by rewrite clip_app, clip1_clip1, IH. Qed.

Lemma clip_join a b c lo l hi : chain lo l hi -> (forall m : SegmentMapping, m ∈ l -> end_ m <= b \/ b <= offset m) ->
  a <= b <= c -> clip a c l = clip a b l ++ clip b c l.
Proof.
  revert lo. induction l as [|m l IH]; intros lo; simpl; [done|]. intros (H1 & H2 & H3) Hb Habc.
  pose proof (wf_bounds _ H2) as Hw. rewrite (IH _ H3) by (done || (intros; apply Hb; by right)).
  destruct (Hb m ltac:(by left)) as [He|He].
  - rewrite (clip1_outside b c m) by lia. simpl. rewrite app_assoc. do 2 f_equal. unfold clip1.
    rewrite !Z.min_r by lia. done.
  - rewrite (clip1_outside a b m) by lia. rewrite (clip_outside a b _ _ _ H3) by lia. simpl. f_equal.
    unfold clip1. rewrite !Z.max_r by lia. done.
Qed.

(** Cutting a chain at the end of its first [n] parts. *)
Lemma clip_rest lo l1 l2 hi e : chain lo (l1 ++ l2) hi -> chain lo l1 e -> chain e l2 hi -> clip e hi (l1 ++ l2) = l2.
Proof.
  intros _ H1 H2. pose proof (chain_le _ _ _ H2). rewrite clip_app, (clip_outside e hi _ _ _ H1) by lia.
  by rewrite (clip_id e hi _ _ _ H2).
Qed.

(** ** Data blocks *)

Lemma data_blocks_app l1 l2 : data_blocks (l1 ++ l2) = data_blocks l1 + data_blocks l2.
Proof. induction l1 as [|m l1 IH]; simpl; lia. Qed.

Lemma data_blocks_range lo l hi : chain lo l hi -> 0 <= data_blocks l <= hi - lo.
Proof.
  revert lo. induction l as [|m l IH]; intros lo; simpl; [lia|]. intros (H1 & H2%wf_bounds & H3%IH).
  unfold data_blocks1. destruct (zeroed m); lia.
Qed.

(** ** Layers *)

Lemma layer_over_chain lo top bottom hi blo bhi : chain lo top hi -> chain blo bottom bhi ->
  chain lo (layer_over lo top bottom hi) hi.
Proof.
  intros Ht Hb. revert lo Ht. induction top as [|m top IH]; intros lo; simpl.
  - intros Hl. eapply clip_chain; done.
  - intros (H1 & H2 & H3). apply chain_app. exists (offset m).
    split; [eapply clip_chain; done|]. simpl. split_and!; [lia|done|]. by apply IH.
Qed.

Lemma den_layer_over lo top bottom hi blo bhi x : chain lo top hi -> chain blo bottom bhi ->
  den (layer_over lo top bottom hi) x =
  if (lo <=? x) && (x <? hi) then match den top x with Some b => Some b | None => den bottom x end else None.
Proof.
  intros Ht Hb. revert lo Ht. induction top as [|m top IH]; intros lo; simpl.
  - intros Hl. apply den_clip.
  - intros (H1 & H2 & H3). rewrite den_app, den_clip. simpl. rewrite (IH _ H3).
    pose proof (chain_le _ _ _ H3). pose proof (wf_bounds _ H2).
    destruct (in_seg m x) eqn:Hin; [apply in_seg_true in Hin|apply in_seg_false in Hin].
    + zcases; done.
    + destruct Hin as [Hx|Hx].
      * rewrite (den_outside _ _ _ x H3) by lia. zcases; by destruct (den bottom x).
      * zcases; by destruct (den top x).
Qed.
