(* ===== verification/LsmtIndex.v ===== *)
(** The memory indexes of a log-structured image: lsmt/index.cpp, and
    [foreach_segments] of lsmt/index.h.

    An index maps logical blocks to file blocks.  [Index] is a sorted array,
    [LevelIndex] the same array with a search tree of page heads, [Index0] a set
    that accepts insertions, and [ComboIndex] a set over a read-only array.  The
    class [MemoryIndex] is the interface [IMemoryIndex::lookup], and its laws say
    that a lookup returns the first [n] parts of what the index denotes.

    The C++ containers are lists: an iterator of a set is the pair of what comes
    before it and what comes from it on. *)

From S2P Require Import Prelude LsmtSegment.

(** ** Searching and copying *)

(** [std::lower_bound] on a range the predicate partitions: how many elements
    come before the bound. *)
Fixpoint lower_bound {A} (before : A -> bool) (l : list A) : nat :=
  match l with
  | [] => O
  | x :: l => if before x then S (lower_bound before l) else O
  end.

Definition from_bound (s : Segment) (l : list SegmentMapping) : list SegmentMapping :=
  drop (lower_bound (fun m : SegmentMapping => seg_lt m s) l) l.

(** [copy_n]; writing a first element when [n] is 0 would leave the buffer. *)
Fixpoint copy_n (l : list SegmentMapping) (end_offset : Z) (n : nat) : option (list SegmentMapping) :=
  match l with
  | [] => Some []
  | it :: l =>
    if end_offset <=? offset it then Some []
    else match n with
         | O => None
         | 1%nat => Some [it]
         | S n => pm ← copy_n l end_offset n; Some (it :: pm)
         end
  end.

(** Trim the first mapping to start at [a] and the last to end at [b]. *)
Definition trim_edges (a b : Z) (pm : list SegmentMapping) : option (list SegmentMapping) :=
  match pm with
  | [] => Some []
  | first :: rest =>
    first ← (if offset first <? a then forward_offset_to a first else Some first);
    let pm := first :: rest in
    let back := default first (last pm) in
    if b <? end_ back then
      back ← backward_end_to b back;
      Some (take (length rest) pm ++ [back])
    else Some pm
  end.
Definition trim_edge_mappings (pm : list SegmentMapping) (s : Segment) : option (list SegmentMapping) :=
  trim_edges (offset s) (end_ s) pm.

Definition blk_add (alloc : Z) (m : SegmentMapping) : Z := if zeroed m then alloc else u64 (alloc + seg_length m).
Definition blk_sub (alloc : Z) (m : SegmentMapping) : Z := if zeroed m then alloc else u64 (alloc - seg_length m).

(** ** The interface *)

Class MemoryIndex (I : Type) := lookup_ : I -> Segment -> nat -> option (list SegmentMapping).

(** What an index promises: it denotes the chain [view], and a lookup stores the
    first [n] parts of it that lie in the segment. *)
Class MemoryIndexLaws (I : Type) `{MemoryIndex I} := {
  valid_index : I -> Prop;
  view : I -> list SegmentMapping;
  view_chain i : valid_index i -> chain 0 (view i) MAX_OFFSET;
  lookup_view i s n : valid_index i -> seg_ok s -> (0 < n)%nat ->
    lookup_ i s n = Some (take n (clip (offset s) (end_ s) (view i)))
}.

(** ** [Index] *)

(** The array from [pbegin] to [pend]. *)
Record Index := mkIndex { mapping : list SegmentMapping; alloc_blk : Z; virtual_size : Z }.

Definition get_alloc_blks (l : list SegmentMapping) (alloc : Z) : Z :=
  foldl (fun alloc (m : SegmentMapping) => u64 (alloc + seg_length m * (if zeroed m then 0 else 1))) alloc l.

(** The constructors: over an array that stays outside, and from a vector. *)
Definition Index_over (pmappings : list SegmentMapping) (vsize : Z) : Index := mkIndex pmappings 0 vsize.
Definition Index_of (m : list SegmentMapping) (vsize : Z) : Index := mkIndex m (get_alloc_blks m 0) vsize.
Definition Index_assign (l : list SegmentMapping) (i : Index) : Index :=
  mkIndex l (get_alloc_blks l (alloc_blk i)) (virtual_size i).

Definition Index_size (i : Index) : nat := length (mapping i).
Definition Index_front (i : Index) : SegmentMapping := default invalid_mapping (head (mapping i)).
Definition Index_back (i : Index) : SegmentMapping := default invalid_mapping (last (mapping i)).
Definition Index_lower_bound (off : Z) (i : Index) : list SegmentMapping :=
  from_bound (mkSegment (u50 off) 1) (mapping i).
Definition Index_increase_tag (delta : Z) (i : Index) : Index :=
  mkIndex ((fun m => with_tag (u8 (tag m + delta)) m) <$> mapping i) (alloc_blk i) (virtual_size i).

#[export] Instance Index_lookup : MemoryIndex Index := fun i s n =>
  if seg_length s =? 0 then Some []
  else pm ← copy_n (from_bound s (mapping i)) (end_ s) n; trim_edge_mappings pm s.

(** ** [LevelIndex] *)

Definition LEVEL_LSHIFT : Z := 9.
Definition PAGE_SIZE : Z := u16 (2 ^ LEVEL_LSHIFT * 8).

Record LevelIndex := mkLevelIndex { level_base : Index; level_mapping : list (list Z) }.

(** The heads of the pages of [objs]: one element in [page_size]. *)
Definition page_heads (page_size : nat) (objs : list Z) : list Z :=
  let n := length objs in
  let extent_size := ((n - 1) / page_size + 1)%nat in
  (fun p => nth (p * page_size) objs 0) <$> seq 0 extent_size.

(** [build_level_index]: a level of more than a page of heads gets a level of its
    own, which is stored before it. *)
Fixpoint build_level_index (fuel : nat) (obj_size : Z) (objs : list Z) : list (list Z) :=
  match fuel with
  | O => []
  | S fuel =>
    let extent := page_heads (Z.to_nat (PAGE_SIZE / obj_size)) objs in
    (if PAGE_SIZE / 8 <? Z.of_nat (length extent) then build_level_index fuel 8 extent else []) ++ [extent]
  end.

Definition sizeof_SegmentMapping : Z := 16.

(** No level is built for an array without elements, whose pointer is null. *)
Definition LevelIndex_of (i : Index) : LevelIndex :=
  mkLevelIndex i (match mapping i with
                  | [] => []
                  | l => build_level_index (length l) sizeof_SegmentMapping ((fun m : SegmentMapping => offset m) <$> l)
                  end).

(** The elements from index [lower] up to index [upper]. *)
Definition range_of {A} (lower upper : Z) (l : list A) : list A :=
  take (Z.to_nat (upper - lower)) (drop (Z.to_nat lower) l).

(** The descent through the levels: the page offset of the last level that was
    searched, and the range of mappings to search.  Offsets are [int]s. *)
Fixpoint level_descend (levels : list (list Z)) (size : Z) (x : Z) (lower upper page_offset : Z) : Z * Z * Z :=
  match levels with
  | [] => (page_offset, lower, upper)
  | extent :: levels =>
    let page_offset := s32 (lower + Z.of_nat (lower_bound (fun o => o <? x) (range_of lower upper extent))) in
    if page_offset =? 0 then (page_offset, lower, upper)
    else
      let lshift := match levels with [] => LEVEL_LSHIFT - 1 | _ => LEVEL_LSHIFT end in
      let underlay_size := s32 (match levels with [] => size | l :: _ => Z.of_nat (length l) end) in
      level_descend levels size x (s32 (Z.shiftl (page_offset - 1) lshift))
        (Z.min (s32 (Z.shiftl page_offset lshift)) underlay_size) page_offset
  end.

#[export] Instance LevelIndex_lookup : MemoryIndex LevelIndex := fun i s n =>
  match level_mapping i with
  | [] => Some []
  | top :: _ =>
    if seg_length s =? 0 then Some []
    else
      let l := mapping (level_base i) in
      let '(page_offset, lower, upper) :=
        level_descend (level_mapping i) (Z.of_nat (length l)) (offset s) 0 (s32 (Z.of_nat (length top))) 0 in
      let lb := if page_offset =? 0 then O
                else (Z.to_nat lower + lower_bound (fun m : SegmentMapping => seg_lt m s) (range_of lower upper l))%nat in
      pm ← copy_n (drop lb l) (end_ s) n; trim_edge_mappings pm s
  end.

(** ** [Index0] *)

(** The ordered set of mappings, and the number of blocks in use. *)
Record Index0 := mkIndex0 { mapping0 : list SegmentMapping; m_alloc : Z }.

(** [set::insert]: nothing happens when an element of the set is equivalent. *)
Fixpoint set_insert (m : SegmentMapping) (l : list SegmentMapping) : list SegmentMapping :=
  match l with
  | [] => [m]
  | x :: r => if seg_lt m x then m :: l else if seg_lt x m then x :: set_insert m r else l
  end.

(** A set with an iterator, and the number of blocks in use. *)
Record cursor := mkCursor { c_before : list SegmentMapping; c_after : list SegmentMapping; c_alloc : Z }.

Definition cursor_insert (m : SegmentMapping) (c : cursor) : cursor :=
  match c_after c with
  | [] => mkCursor (set_insert m (c_before c)) [] (c_alloc c)
  | x :: _ =>
    if seg_lt x m then mkCursor (c_before c) (set_insert m (c_after c)) (c_alloc c)
    else if seg_lt m x then mkCursor (set_insert m (c_before c)) (c_after c) (c_alloc c)
    else c
  end.

(** [remove_partial_overlap] at the iterator of [c]; the result is at the next
    element.  The iterator is not the end of the set. *)
Definition remove_partial_overlap (off length : Z) (c : cursor) : option cursor :=
  match c_after c with
  | [] => None
  | p :: nx =>
    let end' := off + length in
    if offset p <? off then
      if end_ p <=? off then None
      else
        let alloc := blk_sub (c_alloc c) p in
        if end_ p <=? end' then
          p ← backward_end_to off p;
          Some (mkCursor (c_before c ++ [p]) nx (blk_add alloc p))
        else
          nm ← forward_offset_to end' p;
          p ← backward_end_to off p;
          Some (cursor_insert nm (mkCursor (c_before c ++ [p]) nx (blk_add (blk_add alloc p) nm)))
    else if offset p <? end' then
      let alloc := blk_sub (c_alloc c) p in
      if end_ p <=? end' then Some (mkCursor (c_before c) nx alloc)
      else
        p ← forward_offset_to end' p;
        Some (mkCursor (c_before c ++ [p]) nx (blk_add alloc p))
    else Some (mkCursor (c_before c ++ [p]) nx (c_alloc c))
  end.

(** The loop of [insert] over the mappings that start before the end of [m]. *)
Fixpoint insert_loop (m : SegmentMapping) (before after : list SegmentMapping) (alloc : Z) : option cursor :=
  match after with
  | [] => Some (mkCursor before [] alloc)
  | it :: r =>
    if offset it <? end_ m then
      if end_ it <=? end_ m then insert_loop m before r (blk_sub alloc it)
      else remove_partial_overlap (offset m) (seg_length m) (mkCursor before after alloc)
    else Some (mkCursor before after alloc)
  end.

Definition insert (m : SegmentMapping) (i : Index0) : option Index0 :=
  if seg_length m =? 0 then Some i
  else
    let alloc := blk_add (m_alloc i) m in
    let k := lower_bound (fun x : SegmentMapping => seg_lt x m) (mapping0 i) in
    let c := mkCursor (take k (mapping0 i)) (drop k (mapping0 i)) alloc in
    match c_after c with
    | [] => Some (mkIndex0 (set_insert m (mapping0 i)) alloc)
    | _ =>
      c ← remove_partial_overlap (offset m) (seg_length m) c;
      if match c_after c with [] => false | it :: _ => offset it <=? offset m end then None
      else
        c ← insert_loop m (c_before c) (c_after c) (c_alloc c);
        let c := cursor_insert m c in
        Some (mkIndex0 (c_before c ++ c_after c) (c_alloc c))
    end.

Definition Index0_empty : Index0 := mkIndex0 [] 0.

(** The constructor inserts the given mappings one after the other. *)
Fixpoint insert_all (l : list SegmentMapping) (i : Index0) : option Index0 :=
  match l with
  | [] => Some i
  | m :: l => i ← insert m i; insert_all l i
  end.
Definition Index0_new (pmappings : list SegmentMapping) : option Index0 := insert_all pmappings Index0_empty.

Definition Index0_lookup_in (l : list SegmentMapping) (s : Segment) (n : nat) : option (list SegmentMapping) :=
  if seg_length s =? 0 then Some []
  else
    ss ← SegmentMapping_new (offset s) (seg_length s) 0 0;
    pm ← copy_n (from_bound (seg ss) l) (end_ s) n; trim_edge_mappings pm s.

#[export] Instance Index0_lookup : MemoryIndex Index0 := fun i => Index0_lookup_in (mapping0 i).

Definition Index0_size (i : Index0) : nat := length (mapping0 i).
Definition Index0_front (i : Index0) : SegmentMapping := default invalid_mapping (head (mapping0 i)).
Definition Index0_back (i : Index0) : SegmentMapping := default invalid_mapping (last (mapping0 i)).

(** [dump]: the array and its length, rounded up to [alignment] bytes; what
    follows the mappings is not initialised. *)
Definition dump (alignment : Z) (i : Index0) : list SegmentMapping * Z :=
  let size := Z.of_nat (length (mapping0 i)) in
  let align := alignment / sizeof_SegmentMapping in
  (mapping0 i, if 0 <? alignment then (size + align - 1) / align * align else size).

Definition Index0_make_read_only_index (i : Index0) : Index := Index_assign (mapping0 i) (Index_over [] 0).

(** ** Merging *)

(** The loop of [merge_indexes] over the mappings of the first index; [hole]
    merges the other indexes into a range the first one does not cover. *)
Fixpoint merge_loop (hole : Z -> Z -> option (list SegmentMapping)) (retag : SegmentMapping -> SegmentMapping)
    (its : list SegmentMapping) (begin end' : Z) : option (list SegmentMapping) :=
  match its with
  | it :: its' =>
    if offset it <? end' then
      h ← (if begin <? offset it then hole begin (offset it) else Some []);
      rest ← merge_loop hole retag its' (end_ it) end';
      Some (h ++ retag it :: rest)
    else if begin <? end' then hole begin end' else Some []
  | [] => if begin <? end' then hole begin end' else Some []
  end.

(** [merge_indexes]: what it appends to the vector. *)
Fixpoint merge_indexes (fuel : nat) (level : Z) (pindexes : list Index) (n : nat) (begin end' : Z)
    (change_tag : bool) (max_level : nat) : option (list SegmentMapping) :=
  match fuel with
  | O => None
  | S fuel =>
    if (if change_tag then (n =? 0)%nat else (max_level =? 0)%nat) then Some []
    else if end' <=? begin then Some []
    else
      pi0 ← head pindexes;
      let hole b e :=
        if change_tag then merge_indexes fuel (u8 (level + 1)) (drop 1 pindexes) (n - 1) b e true 0
        else merge_indexes fuel (u8 (level + 1)) (drop (if (n <=? 1)%nat then 0 else 1) pindexes) 0 b e false (max_level - 1) in
      r ← merge_loop hole (fun m => if change_tag then with_tag level m else m) (Index_lower_bound begin pi0) begin end';
      trim_edges begin end' r
  end.

(** Each level takes one index, or one from the maximal level. *)
Definition merge_fuel (n max_level : nat) : nat := S (n + max_level).

Definition merge_memory_indexes (pindexes : list Index) : option (option Index) :=
  let n := length pindexes in
  if (255 <? n)%nat then Some None
  else match pindexes with
       | [] => Some None
       | pi0 :: _ =>
         mapping ← merge_indexes (merge_fuel n 0) 0 pindexes n 0 UINT64_MAX true 0;
         Some (Some (Index_of mapping (virtual_size pi0)))
       end.

(** ** [ComboIndex] *)

Record ComboIndex := mkCombo {
  front : Index0;                       (* the set of the base class [Index0] *)
  m_index0 : Index0;
  m_backing_index : option Index
}.

(** The constructor copies the set, not the number of blocks in use. *)
Definition ComboIndex_new (index0 : Index0) (index : Index) (ro_layers_count : Z) : ComboIndex :=
  mkCombo (mkIndex0 ((fun m => with_tag (u8 (tag m + ro_layers_count)) m) <$> mapping0 index0) 0)
    index0 (Some index).

Definition ComboIndex_insert (m : SegmentMapping) (c : ComboIndex) : option ComboIndex :=
  i ← insert m (front c); Some (mkCombo i (m_index0 c) (m_backing_index c)).

(** The loop of [ComboIndex::lookup] over the set, and the lookup of what is left
    in the backing index. *)
Fixpoint combo_loop (backing : Index) (its : list SegmentMapping) (soffset send : Z) (n : nat) :
    option (list SegmentMapping) :=
  let below e n := lookup_ backing (mkSegment (u50 soffset) (u14 (u32 (e - soffset)))) n in
  let tail := match n with
              | O => Some []
              | _ => if soffset <? send then below send n else Some []
              end in
  match its, n with
  | it :: its, S _ =>
    if offset it <? send then
      m1 ← (if soffset <? offset it then below (offset it) n else Some []);
      match (n - length m1)%nat with
      | O => Some m1
      | S n => rest ← combo_loop backing its (end_ it) send n; Some (m1 ++ it :: rest)
      end
    else tail
  | _, _ => tail
  end.

#[export] Instance ComboIndex_lookup : MemoryIndex ComboIndex := fun c s n =>
  if seg_length s =? 0 then Some []
  else match m_backing_index c with
       | None => Index0_lookup_in (mapping0 (front c)) s n
       | Some backing =>
         ss ← SegmentMapping_new (offset s) (seg_length s) 0 0;
         pm ← combo_loop backing (from_bound (seg ss) (mapping0 (front c))) (offset s) (end_ s) n;
         trim_edge_mappings pm s
       end.

(** [backing_index(bi)]: an index without a buffer is refused. *)
Definition ComboIndex_backing_index (bi : Index) (c : ComboIndex) : Z * ComboIndex :=
  match mapping bi with
  | [] => (-1, c)
  | _ => (0, mkCombo (front c) (m_index0 c) (Some bi))
  end.

(** The mappings of the layers from [min_level] up to [max_level]; [None] for the
    null pointer.  The backing index is not null. *)
Definition load_range_index (min_level max_level : Z) (c : ComboIndex) : option (option Index) :=
  if max_level <=? min_level then Some None
  else
    backing ← m_backing_index c;
    match filter (fun m => min_level <= tag m /\ tag m < max_level) (mapping backing) with
    | [] => Some None
    | range_index => Some (Some (Index_of range_index 0))
    end.

Definition rebuild_backing_index (highlevel_idx : Index) (max_level : nat) (c : ComboIndex) : option Index :=
  backing ← m_backing_index c;
  mappings ← merge_indexes (merge_fuel 2 max_level) 0 [highlevel_idx; backing] 2 0 UINT64_MAX false max_level;
  Some (Index_of mappings 0).

Definition ComboIndex_make_read_only_index (c : ComboIndex) : option Index :=
  let ro_idx0 := Index_assign (mapping0 (front c)) (Index_over [] 0) in
  match m_backing_index c with
  | None => Some ro_idx0
  | Some backing =>
    mappings ← merge_indexes (merge_fuel 2 2) 0 [ro_idx0; backing] 2 0 UINT64_MAX false 2;
    Some (Index_of mappings 0)
  end.

(** [create_combo_index]: null indexes are refused. *)
Definition create_combo_index (index0 : option Index0) (index : option Index) (ro_index_count : Z) : option ComboIndex :=
  i0 ← index0; i1 ← index; Some (ComboIndex_new i0 i1 (u8 ro_index_count)).

(** ** Checked construction *)

Fixpoint verify_mapping_order (pmappings : list SegmentMapping) : bool :=
  match pmappings with
  | m1 :: ((m2 :: _) as l) => seg_lt m1 m2 && verify_mapping_order l
  | _ => true
  end.

Definition within (x y begin end' : Z) (zeroed : bool) : bool :=
  if zeroed then (begin <=? x) && (x <=? end')
  else (begin <=? x) && (x <? end') && (begin <? y) && (y <=? end').

Definition verify_mapping_moffset (pmappings : list SegmentMapping) (moffset_begin moffset_end : Z) : bool :=
  forallb (fun m => within (moffset m) (mend m) moffset_begin moffset_end (zeroed m)) pmappings.

(** The outer [option] is the assertions of the insertions, the inner one the
    null pointer. *)
Definition create_memory_index0 (pmappings : list SegmentMapping) (moffset_begin moffset_end : Z) : option (option Index0) :=
  if verify_mapping_moffset pmappings moffset_begin moffset_end
  then i ← Index0_new pmappings; Some (Some i) else Some None.

Definition create_memory_index (pmappings : list SegmentMapping) (moffset_begin moffset_end vsize : Z) : option Index :=
  if verify_mapping_order pmappings && verify_mapping_moffset pmappings moffset_begin moffset_end
  then Some (Index_over pmappings vsize) else None.

Definition create_level_index (pmappings : list SegmentMapping) (moffset_begin moffset_end : Z) : option LevelIndex :=
  if verify_mapping_order pmappings && verify_mapping_moffset pmappings moffset_begin moffset_end
  then Some (LevelIndex_of (Index_over pmappings 0)) else None.

(** ** Compression *)

(** May [b] be appended to [a]? *)
Definition can_append (a b : SegmentMapping) : bool :=
  (end_ a =? offset b) && (mend a =? moffset b) && eqb (zeroed a) (zeroed b) && (tag a =? tag b) &&
  (seg_length a + seg_length b <? MAX_LENGTH).
Definition append_seg (a b : SegmentMapping) : SegmentMapping :=
  mkMapping (mkSegment (offset a) (u14 (seg_length a + seg_length b))) (moffset a) (zeroed a) (tag a).

(** The loop of [compress_raw_index]; [cur] is [mapping[i]]. *)
Fixpoint compress_loop (cur : SegmentMapping) (rest : list SegmentMapping) : list SegmentMapping :=
  match rest with
  | [] => [cur]
  | m :: rest => if can_append cur m then compress_loop (append_seg cur m) rest else cur :: compress_loop m rest
  end.

(** The compressed prefix of the array; its length is the result. *)
Definition compress_raw_index (l : list SegmentMapping) : list SegmentMapping :=
  match l with
  | m :: ((_ :: _) as rest) => compress_loop m rest
  | _ => l
  end.

(** The prediction does not compare the mapped offsets. *)
Definition can_append_predict (a b : SegmentMapping) : bool :=
  (end_ a =? offset b) && (tag a =? tag b) && eqb (zeroed a) (zeroed b) &&
  (seg_length a + seg_length b <? MAX_LENGTH).
Fixpoint predict_loop (cur : SegmentMapping) (rest : list SegmentMapping) : Z :=
  match rest with
  | [] => 1
  | m :: rest => if can_append_predict cur m then predict_loop (append_seg cur m) rest else 1 + predict_loop m rest
  end.
Definition compress_raw_index_predict (l : list SegmentMapping) : Z :=
  match l with
  | m :: ((_ :: _) as rest) => predict_loop m rest
  | _ => Z.of_nat (length l)
  end.

(** ** Visiting a range *)

Section foreach.
Context {S : Type} (cb_zero : Segment -> M S Z) (cb_data : SegmentMapping -> M S Z).

(** The loop over the mappings one lookup returned: the result of a callback that
    failed, or the segment that is left. *)
Fixpoint foreach_mappings (pm : list SegmentMapping) (s : Segment) : M S (Z + Segment) :=
  match pm with
  | [] => mret (inr s)
  | m :: pm =>
    ret ← (if offset s <? offset m then cb_zero (mkSegment (offset s) (u14 (u32 (offset m - offset s)))) else mret 0);
    if ret <? 0 then mret (inl ret)
    else
      ret ← (if zeroed m then cb_zero m else cb_data m);
      if ret <? 0 then mret (inl ret)
      else
        '(s, _) ← lift (seg_forward_offset_to (end_ m) s);
        foreach_mappings pm s
  end.

Definition NMAPPING : nat := 16.

(** A lookup that fills the buffer is followed by another one. *)
Fixpoint foreach_loop {I} `{MemoryIndex I} (fuel : nat) (idx : I) (s : Segment) : M S Z :=
  match fuel with
  | O => bug
  | Datatypes.S fuel =>
    pm ← lift (lookup_ idx s NMAPPING);
    r ← foreach_mappings pm s;
    match r with
    | inl ret => mret ret
    | inr s =>
      if (length pm <? NMAPPING)%nat then
        (if 0 <? seg_length s then cb_zero s else mret 0);;
        mret 0
      else foreach_loop fuel idx s
    end
  end.

(** Every full lookup covers at least one block per mapping. *)
Definition foreach_segments {I} `{MemoryIndex I} (idx : I) (s : Segment) : M S Z :=
  foreach_loop (Datatypes.S (Z.to_nat (seg_length s))) idx s.
End foreach.

(** ** Lookup in a sorted array *)

(** A mapping that overlaps the blocks from [a] to [b]. *)
Definition touching (a b : Z) (m : SegmentMapping) : Prop := offset m < b /\ a < end_ m.
Definition apart (a b : Z) (m : SegmentMapping) : Prop := b <= offset m \/ end_ m <= a.

(** The mappings that start before [e]. *)
Definition starting (e : Z) (l : list SegmentMapping) : list SegmentMapping :=
  take (lower_bound (fun m : SegmentMapping => offset m <? e) l) l.

Lemma clip_apart a b l : Forall (apart a b) l -> clip a b l = [].
Proof. induction 1 as [|m l Hm Hl IH]; simpl; [done|]. by rewrite clip1_outside, IH. Qed.

Lemma clip_touching a b l : a < b -> Forall wf l -> Forall (touching a b) l ->
  clip a b l = (fun m => piece m (Z.max a (offset m)) (Z.min b (end_ m))) <$> l.
Proof.
  intros Hab. induction l as [|m l IH]; simpl; [done|].
  intros [Hw%wf_bounds Hwl]%Forall_cons [[H1 H2] Hl]%Forall_cons.
  rewrite IH by done. unfold clip1. zcases.
Qed.

Lemma chain_Forall lo l hi : chain lo l hi -> Forall wf l.
Proof. intros Hc. apply Forall_forall. intros m Hm. by apply (chain_elem _ _ _ _ Hc Hm). Qed.

Lemma chain_take n lo l hi : chain lo l hi -> chain lo (take n l) hi.
Proof.
  intros Hc. pose proof Hc as H. rewrite <- (take_drop n l) in H. apply chain_app in H as (mid & H1 & H2%chain_le).
  by eapply chain_weaken.
Qed.

Lemma chain_drop n lo l hi : chain lo l hi -> chain lo (drop n l) hi.
Proof.
  intros Hc. pose proof Hc as H. rewrite <- (take_drop n l) in H. apply chain_app in H as (mid & H1%chain_le & H2).
  by eapply chain_weaken.
Qed.

Lemma from_bound_cons s m l : from_bound s (m :: l) = if seg_lt m s then from_bound s l else m :: l.
Proof. unfold from_bound. simpl. by destruct (seg_lt m s). Qed.

Lemma from_bound_split s lo l hi : chain lo l hi -> exists pre, l = pre ++ from_bound s l /\
  Forall (fun m : SegmentMapping => end_ m <= offset s) pre /\ Forall (fun m : SegmentMapping => offset s < end_ m) (from_bound s l).
Proof.
  revert lo. induction l as [|m l IH]; intros lo; simpl.
  - intros _. exists []. done.
  - intros (H1 & H2%wf_bounds & H3). rewrite from_bound_cons. unfold seg_lt. destruct (Z.leb_spec (end_ m) (offset s)).
    + destruct (IH _ H3) as (pre & Heq & Hp & Ha). exists (m :: pre). simpl. rewrite <- Heq. auto.
    + exists []. split_and!; [done|done|]. constructor; [done|]. apply Forall_forall. intros x Hx.
      destruct (chain_elem _ _ _ _ H3 Hx) as (Hw%wf_bounds & ? & ?). lia.
Qed.

Lemma starting_split e lo l hi : chain lo l hi -> exists post, l = starting e l ++ post /\
  Forall (fun m : SegmentMapping => offset m < e) (starting e l) /\ Forall (fun m : SegmentMapping => e <= offset m) post.
Proof.
  revert lo. induction l as [|m l IH]; intros lo; simpl.
  - intros _. exists []. done.
  - intros (H1 & H2%wf_bounds & H3). unfold starting. simpl. destruct (Z.ltb_spec (offset m) e).
    + destruct (IH _ H3) as (post & Heq & Hp & Ha). exists post. unfold starting in *. simpl. rewrite <- Heq. auto.
    + exists (m :: l). split_and!; [done|done|]. constructor; [done|]. apply Forall_forall. intros x Hx.
      destruct (chain_elem _ _ _ _ H3 Hx) as (Hw%wf_bounds & ? & ?). lia.
Qed.

Lemma copy_n_spec l e n : (0 < n)%nat -> copy_n l e n = Some (take n (starting e l)).
Proof.
  revert n. induction l as [|m l IH]; intros n Hn; unfold starting; simpl; [by destruct n|].
  rewrite Z.leb_antisym. destruct (offset m <? e); simpl; [|by destruct n].
  destruct n as [|[|n]]; [lia|done|]. rewrite IH by lia. done.
Qed.

Lemma trim_back a b pm hi : chain a pm hi -> pm <> [] -> Forall (fun m : SegmentMapping => offset m < b) pm ->
  (let back := default invalid_mapping (last pm) in
   if b <? end_ back then back ← backward_end_to b back; Some (take (length pm - 1) pm ++ [back]) else Some pm)
  = Some (clip a b pm).
Proof.
  intros Hc Hne Hb. destruct pm as [|back init _] using rev_ind; [done|].
  rewrite last_snoc. simpl. apply Forall_app in Hb as [_ Hb]. apply Forall_inv in Hb.
  apply chain_app in Hc as (mid & H1 & H2 & H3 & _). pose proof (wf_bounds _ H3). pose proof (chain_le _ _ _ H1).
  rewrite clip_app, (clip_id a b _ _ _ H1) by lia. simpl. unfold clip1. rewrite Z.max_r by lia.
  destruct (Z.ltb_spec b (end_ back)).
  - rewrite backward_piece by (done || lia). simpl. rewrite length_app. simpl.
    replace (length init + 1 - 1)%nat with (length init) by lia. rewrite take_app_length, Z.min_l by lia. zcases.
  - rewrite Z.min_r by lia. zcases. by rewrite piece_id.
Qed.

Lemma trim_edges_spec a b lo pm hi : a < b -> chain lo pm hi -> Forall (touching a b) pm ->
  trim_edges a b pm = Some (clip a b pm).
Proof.
  intros Hab Hc Ht. destruct pm as [|m pm]; [done|]. simpl in Hc. destruct Hc as (H1 & H2 & H3).
  pose proof (wf_bounds _ H2) as Hw. apply Forall_cons in Ht as [[Hm1 Hm2] Ht].
  assert (forall m', m' = piece m (Z.max a (offset m)) (end_ m) ->
    (let back := default m' (last (m' :: pm)) in
     if b <? end_ back then back ← backward_end_to b back; Some (take (length pm) (m' :: pm) ++ [back]) else Some (m' :: pm))
    = Some (clip a b (m :: pm))) as Hback.
  { intros m' ->. pose proof (trim_back a b (piece m (Z.max a (offset m)) (end_ m) :: pm) hi) as Hb. simpl length in Hb.
    rewrite Nat.sub_succ, Nat.sub_0_r in Hb.
    assert (forall d d' (l : list SegmentMapping) x, default d (last (x :: l)) = default d' (last (x :: l))) as Hd.
    { intros d d' l x. rewrite last_cons. by destruct (last l). }
    rewrite (Hd _ invalid_mapping), Hb.
    - simpl. f_equal. f_equal. unfold clip1. rewrite end_piece. simpl. rewrite Z.max_assoc, Z.max_id.
      destruct (Z.ltb_spec (Z.max a (offset m)) (Z.min b (end_ m))); [|done]. by rewrite piece_piece.
    - simpl. rewrite end_mk. split_and!; [lia|apply wf_piece; (done || lia)|done].
    - done.
    - constructor; [simpl; lia|]. eapply Forall_impl; [exact Ht|]. intros x [? ?]. done. }
  unfold trim_edges. destruct (Z.ltb_spec (offset m) a).
  - rewrite forward_piece by (done || lia). apply Hback. by rewrite Z.max_l by lia.
  - apply Hback. rewrite Z.max_r by lia. by rewrite piece_id.
Qed.

(** The mappings [l] of the array that a lookup of [s] copies, and trims. *)
Lemma array_lookup s lo l hi n : chain lo l hi -> 0 < seg_length s -> (0 < n)%nat ->
  (pm ← copy_n (from_bound s l) (end_ s) n; trim_edge_mappings pm s) = Some (take n (clip (offset s) (end_ s) l)).
Proof.
  intros Hc Hs Hn. destruct (from_bound_split s _ _ _ Hc) as (pre & Heq & Hpre & Hfrom).
  assert (chain lo (from_bound s l) hi) as Hcf by (by apply chain_drop).
  destruct (starting_split (end_ s) _ _ _ Hcf) as (post & Heq2 & Hst & Hpost).
  rewrite copy_n_spec by done. simpl. set (t := starting (end_ s) (from_bound s l)) in *.
  assert (offset s < end_ s) as Hse by (unfold end_; lia).
  assert (Forall (touching (offset s) (end_ s)) t) as Htouch.
  { apply Forall_forall. intros m Hm. rewrite Heq2 in Hfrom. apply Forall_app in Hfrom as [Hf _].
    rewrite Forall_forall in Hf, Hst. split; auto. }
  assert (chain lo t hi) as Hct by (by apply chain_take).
  unfold trim_edge_mappings.
  rewrite (trim_edges_spec _ _ lo _ hi); [|done|by apply chain_take|by apply Forall_take]. f_equal.
  rewrite Heq, Heq2, !clip_app.
  rewrite (clip_apart _ _ pre), (clip_apart _ _ post), app_nil_r;
    [|eapply Forall_impl; [eassumption|]; intros x Hx; simpl in Hx; unfold apart; tauto..].
  simpl. pose proof (chain_Forall _ _ _ Hct).
  rewrite !clip_touching; [by rewrite fmap_take|done..|by apply Forall_take|by apply Forall_take].
Qed.

Definition index_valid (i : Index) : Prop := chain 0 (mapping i) MAX_OFFSET.

#[export] Program Instance Index_laws : MemoryIndexLaws Index := {| valid_index := index_valid; view := mapping |}.
Next Obligation. done. Qed.
Next Obligation.
  intros i s n Hv Hs Hn. unfold lookup_, Index_lookup. destruct (Z.eqb_spec (seg_length s) 0) as [H0|H0].
  - rewrite clip_empty by (unfold end_; lia). by destruct n.
  - apply (array_lookup _ _ _ _ _ Hv); [|done]. unfold seg_ok in Hs. lia.
Qed.

Definition index0_valid (i : Index0) : Prop :=
  chain 0 (mapping0 i) MAX_OFFSET /\ m_alloc i = data_blocks (mapping0 i).

Lemma set_lookup l s n : chain 0 l MAX_OFFSET -> seg_ok s -> (0 < n)%nat ->
  Index0_lookup_in l s n = Some (take n (clip (offset s) (end_ s) l)).
Proof.
  intros Hv Hs Hn. unfold Index0_lookup_in. destruct (Z.eqb_spec (seg_length s) 0) as [H0|H0].
  - rewrite clip_empty by (unfold end_; lia). by destruct n.
  - unfold SegmentMapping_new. unfold seg_ok, end_, MAX_OFFSET, MAX_LENGTH in *.
    rewrite u32_small by lia. destruct (Z.ltb_spec (2 ^ 14 - 1) (seg_length s)); [lia|].
    rewrite u50_small, u14_small by lia. cbn [mbind option_bind seg].
    destruct s as [o n']. simpl in *. apply (array_lookup (mkSegment o n') _ _ _ _ Hv); simpl; [lia|done].
Qed.

#[export] Program Instance Index0_laws : MemoryIndexLaws Index0 := {| valid_index := index0_valid; view := mapping0 |}.
Next Obligation. by intros i []. Qed.
Next Obligation. intros i s n [Hv _] Hs Hn. by apply set_lookup. Qed.

(** ** Insertion *)

Lemma u64_add_l a b : u64 (u64 a + b) = u64 (a + b).
Proof. apply Zplus_mod_idemp_l. Qed.
Lemma u64_sub_l a b : u64 (u64 a - b) = u64 (a - b).
Proof. apply Zminus_mod_idemp_l. Qed.
Lemma u64_u64 a : u64 (u64 a) = u64 a.
Proof. apply Zmod_mod. Qed.

(** The counter after additions and removals; it is computed modulo 2^64. *)
Lemma blk_add_eq a m : blk_add (u64 a) m = u64 (a + data_blocks1 m).
Proof. unfold blk_add, data_blocks1. destruct (zeroed m); [by rewrite Z.add_0_r|apply u64_add_l]. Qed.
Lemma blk_sub_eq a m : blk_sub (u64 a) m = u64 (a - data_blocks1 m).
Proof. unfold blk_sub, data_blocks1. destruct (zeroed m); [by rewrite Z.sub_0_r|apply u64_sub_l]. Qed.

Lemma set_insert_mid m l r : wf m -> Forall wf l -> Forall (fun x : SegmentMapping => end_ x <= offset m) l ->
  Forall (fun x : SegmentMapping => end_ m <= offset x) r -> set_insert m (l ++ r) = l ++ m :: r.
Proof.
  intros Hm%wf_bounds Hw Hl Hr. induction l as [|x l IH]; simpl.
  - destruct r as [|y r]; [done|]. apply Forall_inv in Hr. simpl. unfold seg_lt. zcases.
  - apply Forall_cons in Hw as [Hx%wf_bounds Hw]. apply Forall_cons in Hl as [Hxl Hl].
    unfold seg_lt. zcases. by rewrite IH.
Qed.

Lemma set_insert_last m l : wf m -> Forall wf l -> Forall (fun x : SegmentMapping => end_ x <= offset m) l ->
  set_insert m l = l ++ [m].
Proof. intros Hm Hw Hl. rewrite <- (app_nil_r l) at 1. by apply set_insert_mid. Qed.

(** Inserting at an iterator behind which everything comes after [m]. *)
Lemma cursor_insert_before m l r after alloc : wf m -> Forall wf l ->
  Forall (fun x : SegmentMapping => end_ x <= offset m) l ->
  Forall (fun x : SegmentMapping => end_ m <= offset x) (r ++ after) -> Forall wf after ->
  cursor_insert m (mkCursor (l ++ r) after alloc) = mkCursor (l ++ m :: r) after alloc.
Proof.
  intros Hm Hw Hl [Hr Ha]%Forall_app Hwa. unfold cursor_insert. simpl. pose proof (wf_bounds _ Hm).
  destruct after as [|x after]; [by rewrite set_insert_mid|].
  apply Forall_inv in Ha, Hwa. simpl in Ha. apply wf_bounds in Hwa. unfold seg_lt. zcases. by rewrite set_insert_mid.
Qed.

(** What is left of the mappings outside [m]. *)
Definition left_of (m : Segment) (l : list SegmentMapping) : list SegmentMapping := clip 0 (offset m) l.
Definition right_of (m : Segment) (l : list SegmentMapping) : list SegmentMapping := clip (end_ m) MAX_OFFSET l.

Lemma clip1_left b (p : SegmentMapping) : wf p ->
  clip1 0 b p = if offset p <? b then (if b <? end_ p then [piece p (offset p) b] else [p]) else [].
Proof.
  intros Hp%wf_bounds. unfold clip1. rewrite Z.max_r by lia. destruct (Z.ltb_spec b (end_ p)).
  - rewrite Z.min_l by lia. zcases.
  - rewrite Z.min_r by lia. rewrite piece_id. zcases.
Qed.

Lemma clip1_right a (p : SegmentMapping) : wf p ->
  clip1 a MAX_OFFSET p = if a <? end_ p then (if offset p <? a then [piece p a (end_ p)] else [p]) else [].
Proof.
  intros Hp%wf_bounds. unfold clip1. rewrite Z.min_r by lia. destruct (Z.ltb_spec (offset p) a).
  - rewrite Z.max_l by lia. zcases.
  - rewrite Z.max_r by lia. rewrite piece_id. zcases.
Qed.

Lemma overlap_spec (m p : SegmentMapping) bf nx a lo : wf m -> chain lo (p :: nx) MAX_OFFSET -> 0 <= lo ->
  offset m < end_ p ->
  (offset p < offset m -> Forall wf bf /\ Forall (fun x : SegmentMapping => end_ x <= offset m) bf) ->
  remove_partial_overlap (offset m) (seg_length m) (mkCursor bf (p :: nx) (u64 a)) =
  Some (mkCursor (bf ++ left_of m [p] ++ right_of m [p]) nx
    (u64 (a - data_blocks1 p + data_blocks (left_of m [p]) + data_blocks (right_of m [p])))).
Proof.
  intros Hm (Hlo & Hp & Hnx) Hlo0 Hov Hbf. pose proof (wf_bounds _ Hm) as Hmb. pose proof (wf_bounds _ Hp) as Hpb.
  unfold remove_partial_overlap, left_of, right_of. cbn [clip c_after c_before c_alloc].
  rewrite !app_nil_r, clip1_left, clip1_right by done. replace (offset m + seg_length m) with (end_ m) by done.
  rewrite !blk_sub_eq.
  destruct (Z.ltb_spec (offset p) (offset m)), (Z.ltb_spec (end_ m) (end_ p)), (Z.ltb_spec (offset m) (end_ p)),
    (Z.leb_spec (end_ p) (offset m)), (Z.leb_spec (end_ p) (end_ m)), (Z.ltb_spec (offset p) (end_ m)); try lia.
  - rewrite backward_piece, forward_piece by (done || lia). cbn [mbind option_bind]. rewrite !blk_add_eq.
    destruct (Hbf ltac:(lia)) as [Hbw Hbe].
    assert (wf (piece p (offset p) (offset m))) by (apply wf_piece; (done || lia)).
    rewrite <- (app_nil_r (bf ++ [_])), cursor_insert_before; rewrite <- ?app_assoc.
    + do 2 f_equal. cbn [data_blocks]. rewrite !Z.add_0_r. done.
    + apply wf_piece; (done || lia).
    + apply Forall_app. auto.
    + apply Forall_app. split; [eapply Forall_impl; [exact Hbe|]; simpl; lia|].
      constructor; [rewrite end_piece; simpl; lia|done].
    + apply Forall_forall. intros x Hx. destruct (chain_elem _ _ _ _ Hnx Hx) as (_ & ? & _). by rewrite end_piece.
    + by eapply chain_Forall.
  - rewrite backward_piece by (done || lia). cbn [mbind option_bind]. rewrite blk_add_eq. cbn [data_blocks app].
    do 3 f_equal. lia.
  - rewrite forward_piece by (done || lia). cbn [mbind option_bind]. rewrite blk_add_eq. cbn [data_blocks app].
    do 3 f_equal. lia.
  - cbn [data_blocks app]. do 3 f_equal. lia.
  - cbn [data_blocks app]. rewrite app_nil_r. do 3 f_equal. lia.
Qed.

Lemma right_outside (m : SegmentMapping) lo l : chain lo l MAX_OFFSET -> end_ m <= lo -> right_of m l = l.
Proof. intros Hc He. by eapply clip_id. Qed.

Lemma insert_loop_spec (m : SegmentMapping) aft bf a lo : wf m -> chain lo aft MAX_OFFSET -> offset m <= lo -> 0 <= lo ->
  exists r aft', insert_loop m bf aft (u64 a) =
    Some (mkCursor (bf ++ r) aft' (u64 (a - data_blocks aft + data_blocks (right_of m aft)))) /\
    r ++ aft' = right_of m aft /\ (end_ m <= lo -> r = []).
Proof.
  intros Hm. pose proof (wf_bounds _ Hm) as Hmb. revert bf a lo. induction aft as [|it aft IH]; intros bf a lo Hc Hlo H0.
  - exists [], []. simpl. rewrite app_nil_r. split_and!; [|done|done]. do 3 f_equal. lia.
  - pose proof Hc as Hfull. simpl in Hc. destruct Hc as (H1 & H2 & H3). pose proof (wf_bounds _ H2) as Hit.
    cbn [insert_loop]. destruct (Z.ltb_spec (offset it) (end_ m)).
    + destruct (Z.leb_spec (end_ it) (end_ m)).
      * rewrite blk_sub_eq. destruct (IH bf (a - data_blocks1 it) (end_ it) H3) as (r & aft' & Hrun & Hr & Hnil); [lia..|].
        exists r, aft'. rewrite Hrun. unfold right_of in *. cbn [clip data_blocks]. rewrite clip1_outside by lia. simpl.
        split_and!; [|done|lia]. do 3 f_equal. lia.
      * rewrite (overlap_spec _ _ _ _ _ _ Hm Hfull); [|lia..].
        exists (right_of m [it]), aft. unfold left_of, right_of. cbn [clip data_blocks].
        rewrite (clip1_outside 0) by lia. rewrite !app_nil_r. simpl. rewrite (clip_id _ _ _ _ _ H3) by lia.
        split_and!; [|done|lia]. do 3 f_equal. rewrite data_blocks_app. lia.
    + exists [], (it :: aft). rewrite app_nil_r. rewrite (right_outside _ (offset it)).
      * split_and!; [|done|done]. do 3 f_equal. lia.
      * simpl. split_and!; [lia|done|done].
      * done.
Qed.

(** The set is what comes before the iterator and what comes from it on. *)
Lemma insert_split (m : SegmentMapping) l : chain 0 l MAX_OFFSET -> wf m -> exists pre, l = pre ++ from_bound m l /\
  take (lower_bound (fun x : SegmentMapping => seg_lt x m) l) l = pre /\ Forall wf pre /\
  Forall (fun x : SegmentMapping => end_ x <= offset m) pre /\
  Forall (fun x : SegmentMapping => offset m < end_ x) (from_bound m l) /\
  left_of m l = pre ++ left_of m (from_bound m l) /\ right_of m l = right_of m (from_bound m l).
Proof.
  intros Hc Hm%wf_bounds. destruct (from_bound_split m _ _ _ Hc) as (pre & Heq & Hpre & Haft). exists pre.
  assert (Forall wf pre) as Hpw by (apply chain_Forall in Hc; rewrite Heq in Hc; by apply Forall_app in Hc as [Hc _]).
  split_and!; [done| |done|done|done|..].
  - apply (app_inv_tail (from_bound m l)). transitivity l; [apply take_drop|exact Heq].
  - rewrite Heq at 1. unfold left_of. rewrite clip_app. f_equal. rewrite Heq in Hc.
    apply chain_app in Hc as (mid & Hcp & _). destruct pre as [|x pre _] using rev_ind; [done|].
    apply Forall_app in Hpre as [_ Hx%Forall_inv]. apply (chain_last _ _ _ _ (offset m)) in Hcp; [|done].
    by eapply clip_id.
  - rewrite Heq at 1. unfold right_of. rewrite clip_app, clip_apart; [done|].
    eapply Forall_impl; [exact Hpre|]. intros x Hx. right. simpl in Hx. lia.
Qed.

Lemma left_chain (m : SegmentMapping) l : wf m -> chain 0 l MAX_OFFSET -> chain 0 (left_of m l) (offset m).
Proof. intros Hm%wf_bounds Hc. eapply clip_chain; [exact Hc|lia]. Qed.
Lemma right_chain (m : SegmentMapping) l : wf m -> chain 0 l MAX_OFFSET -> chain (end_ m) (right_of m l) MAX_OFFSET.
Proof. intros Hm%wf_bounds Hc. eapply clip_chain; [exact Hc|lia]. Qed.

Lemma inserted_chain (m : SegmentMapping) l : wf m -> chain 0 l MAX_OFFSET ->
  chain 0 (left_of m l ++ m :: right_of m l) MAX_OFFSET.
Proof.
  intros Hm Hc. apply chain_app. exists (offset m). split; [by apply left_chain|].
  simpl. split_and!; [lia|done|by apply right_chain].
Qed.

Lemma chain_bounds lo l hi : chain lo l hi ->
  Forall (fun x : SegmentMapping => end_ x <= hi) l /\ Forall (fun x : SegmentMapping => lo <= offset x) l.
Proof.
  intros Hc. split; apply Forall_forall; intros x Hx; by destruct (chain_elem _ _ _ _ Hc Hx) as (_ & ? & ?).
Qed.

(** The steps of [insert] after the first overlap. *)
Lemma insert_rest (m p : SegmentMapping) pre nx a : wf m -> chain 0 (p :: nx) MAX_OFFSET -> offset m < end_ p ->
  Forall wf pre -> Forall (fun x : SegmentMapping => end_ x <= offset m) pre ->
  (c ← remove_partial_overlap (offset m) (seg_length m) (mkCursor pre (p :: nx) (u64 a));
   if match c_after c with [] => false | it :: _ => offset it <=? offset m end then None
   else
     c ← insert_loop m (c_before c) (c_after c) (c_alloc c);
     let c := cursor_insert m c in
     Some (mkIndex0 (c_before c ++ c_after c) (c_alloc c))) =
  Some (mkIndex0 (pre ++ left_of m (p :: nx) ++ m :: right_of m (p :: nx))
    (u64 (a - data_blocks (p :: nx) + data_blocks (left_of m (p :: nx)) + data_blocks (right_of m (p :: nx))))).
Proof.
  intros Hm Hc Hov Hpw Hpre. pose proof (wf_bounds _ Hm) as Hmb.
  rewrite (overlap_spec _ _ _ _ _ _ Hm Hc); [|lia|exact Hov|intros _; by split]. cbn [mbind option_bind c_after c_before c_alloc].
  pose proof Hc as (Hp0 & Hp & Hnx). pose proof (wf_bounds _ Hp) as Hpb.
  assert (match nx with [] => false | it :: _ => offset it <=? offset m end = false) as ->.
  { destruct nx as [|x nx]; [done|]. destruct Hnx as (? & _). zcases. }
  destruct (insert_loop_spec m nx (pre ++ left_of m [p] ++ right_of m [p])
    (a - data_blocks1 p + data_blocks (left_of m [p]) + data_blocks (right_of m [p]))
    (end_ p) Hm Hnx) as (r & aft' & Hrun & Hr & _); [lia..|].
  rewrite Hrun. cbn [mbind option_bind].
  assert (chain 0 [p] MAX_OFFSET) as Hcp by (simpl; split_and!; [exact Hp0|done|lia]).
  destruct (chain_bounds _ _ _ (left_chain m _ Hm Hcp)) as [Hlb _].
  pose proof (chain_Forall _ _ _ (left_chain m _ Hm Hcp)) as Hlw.
  pose proof (right_chain m _ Hm Hc) as Hcr.
  assert (right_of m (p :: nx) = right_of m [p] ++ r ++ aft') as Hsplit.
  { rewrite Hr. unfold right_of. simpl. by rewrite app_nil_r. }
  assert (left_of m (p :: nx) = left_of m [p]) as ->.
  { unfold left_of. simpl. rewrite (clip_outside _ _ _ _ _ Hnx) by lia. done. }
  rewrite Hsplit in *. rewrite app_assoc, <- (app_assoc (pre ++ left_of m [p])), cursor_insert_before.
  - cbn [c_before c_after c_alloc]. f_equal. rewrite <- Hr. f_equal.
    + by rewrite <- !app_assoc, <- !app_comm_cons, <- !app_assoc.
    + f_equal. rewrite !data_blocks_app. cbn [data_blocks]. lia.
  - done.
  - by apply Forall_app.
  - by apply Forall_app.
  - rewrite <- app_assoc. apply (chain_bounds _ _ _ Hcr).
  - apply chain_Forall in Hcr. apply Forall_app in Hcr as [_ [_ Hw]%Forall_app]. done.
Qed.

(** What the set holds after an insertion, and how the counter moves. *)
Definition inserted (m : SegmentMapping) (l : list SegmentMapping) : list SegmentMapping :=
  left_of m l ++ m :: right_of m l.

Lemma insert_run m l alloc : chain 0 l MAX_OFFSET -> u64 alloc = alloc -> wf m ->
  insert m (mkIndex0 l alloc) =
  Some (mkIndex0 (inserted m l) (u64 (alloc - data_blocks l + data_blocks (inserted m l)))).
Proof.
  intros Hc Hal Hm. unfold inserted.
  destruct (insert_split _ _ Hc Hm) as (pre & Heq & Htake & Hpw & Hpre & Haft & Hleft & Hright).
  unfold insert. destruct (Z.eqb_spec (seg_length m) 0); [unfold wf in Hm; lia|]. cbn [mapping0 m_alloc c_after].
  rewrite Htake. fold (from_bound m l).
  assert (blk_add alloc m = u64 (alloc + data_blocks1 m)) as -> by (rewrite <- Hal at 1; apply blk_add_eq).
  rewrite Hleft, Hright. pose proof (chain_drop (lower_bound (fun x : SegmentMapping => seg_lt x m) l) _ _ _ Hc) as Hcf.
  fold (from_bound m l) in Hcf. clear Hleft Hright Htake. revert Heq Haft Hcf.
  generalize (from_bound m l) as fb. intros fb Heq Haft Hcf. destruct fb as [|p nx].
  - rewrite app_nil_r in Heq. subst pre. rewrite set_insert_last by done. cbn. rewrite app_nil_r.
    do 3 f_equal. rewrite data_blocks_app. simpl. lia.
  - rewrite (insert_rest _ _ _ _ _ Hm Hcf); [|by apply Forall_inv in Haft|done|done].
    rewrite Heq, <- !app_assoc.
    do 3 f_equal. rewrite !data_blocks_app. cbn [data_blocks]. lia.
Qed.

Lemma insert_valid m i : index0_valid i -> wf m ->
  exists i', insert m i = Some i' /\ index0_valid i' /\ mapping0 i' = inserted m (mapping0 i).
Proof.
  intros [Hc Hal] Hm. destruct i as [l alloc]. simpl in Hc, Hal. subst alloc.
  pose proof (inserted_chain _ _ Hm Hc) as Hc'. pose proof (data_blocks_range _ _ _ Hc) as Hdb.
  pose proof (data_blocks_range _ _ _ Hc') as Hdb'. unfold MAX_OFFSET in Hdb, Hdb'.
  eexists. split; [apply insert_run; [done|apply u64_small; lia|done]|]. split; [|done]. split; [done|]. simpl.
  rewrite u64_small; unfold inserted; lia.
Qed.

Lemma den_inserted (m : SegmentMapping) l x : wf m -> chain 0 l MAX_OFFSET -> 
  den (inserted m l) x = if in_seg m x then Some (block_at m x) else den l x.
Proof.
  intros Hm Hc. pose proof (wf_bounds _ Hm). unfold inserted, left_of, right_of.
  rewrite den_app. simpl. rewrite !den_clip.
  destruct (in_seg m x) eqn:Hin; [apply in_seg_true in Hin|apply in_seg_false in Hin].
  - zcases.
  - destruct (Z.lt_ge_cases x 0); [rewrite (den_outside _ _ _ x Hc) by lia; zcases|].
    destruct (Z.lt_ge_cases x MAX_OFFSET); [|rewrite (den_outside _ _ _ x Hc) by lia; zcases].
    destruct (den l x); zcases.
Qed.

(** ** Merging *)

Lemma clip_top a e l : chain 0 l MAX_OFFSET -> clip a e l = clip a (Z.min e MAX_OFFSET) l.
Proof.
  intros Hc. destruct (Z.le_gt_cases e MAX_OFFSET); [by rewrite Z.min_l by lia|]. rewrite Z.min_r by lia.
  pose proof (clip_clip a e 0 MAX_OFFSET l) as H1. pose proof (clip_clip a MAX_OFFSET 0 MAX_OFFSET l) as H2.
  rewrite (clip_id 0 MAX_OFFSET _ _ _ Hc) in H1, H2 by lia.
  by rewrite H1, H2, !Z.min_r by lia.
Qed.

Lemma clip_layer_over a b lo top bottom hi c h : chain c top h -> lo <= a \/ chain lo top h -> a <= b <= hi ->
  clip a b (layer_over lo top bottom hi) = layer_over (Z.max a lo) (clip a b top) bottom b.
Proof.
  revert c lo. induction top as [|m top IH]; intros c lo Hc Hlo Hab; simpl.
  - by rewrite clip_clip, Z.min_l by lia.
  - destruct Hc as (Hcm & Hw & Hc). pose proof (wf_bounds _ Hw) as Hm.
    rewrite clip_app, clip_clip. simpl. rewrite (IH _ _ Hc) by (lia || by right).
    unfold clip1. destruct (Z.ltb_spec (Z.max a (offset m)) (Z.min b (end_ m))) as [Ht|Ht]; simpl.
    + rewrite end_mk, (Z.min_r b) by lia. f_equal.
      * destruct (Z.le_gt_cases a (offset m)); [by rewrite (Z.max_r a (offset m)) by lia|]. by rewrite !clip_empty by lia.
      * f_equal. rewrite (Z.max_r a (end_ m)) by lia. destruct (Z.le_gt_cases (end_ m) b); [by rewrite Z.min_r by lia|].
        rewrite (clip_outside a b _ _ _ Hc) by lia. simpl. by rewrite !clip_empty by lia.
    + destruct (Z.le_gt_cases (end_ m) a).
      * rewrite clip_empty by lia. simpl. f_equal. destruct Hlo as [|(Hlo & _)]; lia.
      * rewrite (clip_outside a b _ _ _ Hc) by lia. simpl. rewrite (clip_empty (Z.max a (end_ m))), app_nil_r by lia.
        destruct (Z.le_gt_cases b (offset m)); [by rewrite Z.min_l by lia|by rewrite !clip_empty by lia].
Qed.

Lemma layer_over_chain' c lo top bottom hi : chain c top MAX_OFFSET -> chain 0 bottom MAX_OFFSET -> c <= lo ->
  hi <= MAX_OFFSET -> chain c (layer_over lo top bottom hi) MAX_OFFSET.
Proof.
  intros Ht Hb. revert c lo Ht. induction top as [|m top IH]; intros c lo; simpl.
  - intros Hc Hlo Hhi. destruct (Z.le_gt_cases lo hi); [|by rewrite clip_empty by lia].
    eapply chain_weaken; [by apply (clip_chain lo hi _ _ _ Hb)|done|done].
  - intros (H1 & H2 & H3) Hlo Hhi. apply chain_app. exists (offset m). simpl.
    split; [|split_and!; [lia|done|by apply IH]].
    destruct (Z.le_gt_cases lo (offset m)); [|by rewrite clip_empty by lia].
    eapply chain_weaken; [by apply (clip_chain lo _ _ _ _ Hb)|done|lia].
Qed.

Lemma layer_over_touching a b lo top bottom c : chain c top MAX_OFFSET -> chain 0 bottom MAX_OFFSET ->
  a < b -> Forall (touching a b) top -> a <= lo -> Forall (touching a b) (layer_over lo top bottom b).
Proof.
  intros Ht Hb Hab. revert c lo Ht. induction top as [|m top IH]; intros c lo; simpl.
  - intros _ _ Hlo. destruct (Z.le_gt_cases lo b); [|by rewrite clip_empty by lia].
    pose proof (clip_chain lo b _ _ _ Hb ltac:(lia)) as Hc. apply Forall_forall. intros x Hx.
    destruct (chain_elem _ _ _ _ Hc Hx) as (Hw%wf_bounds & ? & ?). unfold touching. lia.
  - intros (H1 & H2%wf_bounds & H3) [[Hm1 Hm2] Hf]%Forall_cons Hlo. apply Forall_app. split.
    + destruct (Z.le_gt_cases lo (offset m)); [|by rewrite clip_empty by lia].
      pose proof (clip_chain lo (offset m) _ _ _ Hb ltac:(lia)) as Hc. apply Forall_forall. intros x Hx.
      destruct (chain_elem _ _ _ _ Hc Hx) as (Hw%wf_bounds & ? & ?). unfold touching. lia.
    + constructor; [done|]. eapply IH; [done|done|lia].
Qed.

Section merge_loop.
Context (hole : Z -> Z -> option (list SegmentMapping)) (retag : SegmentMapping -> SegmentMapping).
Context (bottom : list SegmentMapping).
Hypothesis Hretag : forall m, wf m -> wf (retag m).
Hypothesis Hseg : forall m, seg (retag m) = seg m.
Hypothesis Hpiece : forall m a b, piece (retag m) a b = retag (piece m a b).
Hypothesis Hbottom : chain 0 bottom MAX_OFFSET.
Hypothesis Hhole : forall b e, 0 <= b <= MAX_OFFSET -> b < e -> hole b e = Some (clip b (Z.min e MAX_OFFSET) bottom).

Lemma retag_chain lo l hi : chain lo l hi -> chain lo (retag <$> l) hi.
Proof using Hretag Hseg.
  revert lo. induction l as [|m l IH]; intros lo; simpl; [done|]. intros (H1 & H2 & H3).
  rewrite Hseg. split_and!; [done|by apply Hretag|by apply IH].
Qed.

Lemma clip_retag a b l : clip a b (retag <$> l) = retag <$> clip a b l.
Proof using Hseg Hpiece.
  induction l as [|m l IH]; [done|]. rewrite fmap_cons. cbn [clip]. rewrite IH, fmap_app. f_equal.
  unfold clip1. rewrite Hseg. destruct (_ <? _); [|done]. simpl. by rewrite Hpiece.
Qed.

Lemma merge_loop_spec its lo begin e : chain lo its MAX_OFFSET -> 0 <= lo -> 0 <= begin <= MAX_OFFSET ->
  merge_loop hole retag its begin e = Some (layer_over begin (retag <$> starting e its) bottom (Z.min e MAX_OFFSET)).
Proof using Hseg Hhole.
  revert lo begin. induction its as [|it its IH]; intros lo begin Hc Hlo Hb.
  - simpl. destruct (Z.ltb_spec begin e); [by apply Hhole|]. by rewrite clip_empty by lia.
  - simpl in Hc. destruct Hc as (H1 & H2 & H3). pose proof (wf_bounds _ H2) as Hit. unfold starting. simpl.
    destruct (Z.ltb_spec (offset it) e); simpl.
    + assert ((if begin <? offset it then hole begin (offset it) else Some []) = Some (clip begin (offset it) bottom)) as ->.
      { destruct (Z.ltb_spec begin (offset it)); [|by rewrite clip_empty by lia].
        rewrite Hhole by lia. by rewrite Z.min_l by lia. }
      simpl. rewrite (IH _ _ H3) by lia. simpl. rewrite Hseg. done.
    + destruct (Z.ltb_spec begin e); [by apply Hhole|]. by rewrite clip_empty by lia.
Qed.

(** One level of the merge: the index over what the other levels give. *)
Lemma merge_level l begin e : chain 0 l MAX_OFFSET -> 0 <= begin <= MAX_OFFSET -> begin < e ->
  (r ← merge_loop hole retag (from_bound (mkSegment (u50 begin) 1) l) begin e; trim_edges begin e r) =
  Some (clip begin (Z.min e MAX_OFFSET) (layer_over 0 (retag <$> l) bottom MAX_OFFSET)).
Proof using Hretag Hseg Hpiece Hhole Hbottom.
  intros Hc Hb He. rewrite u50_small by (unfold MAX_OFFSET in *; lia). set (s := mkSegment begin 1).
  assert (chain 0 (from_bound s l) MAX_OFFSET) as Hcf by (by apply chain_drop).
  rewrite (merge_loop_spec _ 0) by (done || lia). cbn [mbind option_bind].
  destruct (from_bound_split s _ _ _ Hc) as (pre & Heq & Hpre & Hfrom).
  destruct (starting_split e _ _ _ Hcf) as (post & Heq2 & Hst & Hpost).
  set (t := starting e (from_bound s l)) in *. assert (chain 0 t MAX_OFFSET) as Hct by (by apply chain_take).
  pose proof (retag_chain _ _ _ Hct) as Hcrt. set (e' := Z.min e MAX_OFFSET).
  assert (clip begin e' l = clip begin e' t) as Hclip.
  { rewrite Heq at 1. rewrite Heq2, !clip_app. rewrite (clip_apart _ _ pre), (clip_apart _ _ post), app_nil_r; [done|..].
    - eapply Forall_impl; [exact Hpost|]. intros x Hx. left. simpl in Hx. lia.
    - eapply Forall_impl; [exact Hpre|]. intros x Hx. right. done. }
  rewrite (clip_layer_over begin e' 0 _ _ _ 0 MAX_OFFSET), clip_retag, Hclip, <- clip_retag, Z.max_l by
    (by apply retag_chain || lia).
  assert (Forall (touching begin e') (retag <$> t)) as Htouch.
  { apply Forall_fmap, Forall_forall. intros m Hm. unfold compose, touching. rewrite Hseg.
    destruct (chain_elem _ _ _ _ Hct Hm) as (Hw%wf_bounds & _ & _).
    rewrite Heq2 in Hfrom. apply Forall_app in Hfrom as [Hf _]. rewrite Forall_forall in Hf, Hst.
    specialize (Hf _ Hm). specialize (Hst _ Hm). simpl in *. lia. }
  assert (chain 0 (layer_over begin (retag <$> t) bottom e') MAX_OFFSET) as Hcr.
  { apply layer_over_chain'; [done|done|lia|lia]. }
  destruct (Z.eq_dec begin MAX_OFFSET) as [Hmax|Hmax].
  { assert (e' = begin) as He' by lia. rewrite He' in *. destruct t as [|x t].
    - simpl. by rewrite clip_empty by lia.
    - exfalso. apply Forall_inv in Htouch as [_ Hx]. rewrite Hseg in Hx. destruct Hct as (_ & Hw%wf_bounds & _). lia. }
  rewrite (trim_edges_spec _ _ 0 _ MAX_OFFSET); [|done|done|].
  - rewrite (clip_top _ e), (clip_layer_over begin e' begin _ _ _ 0 MAX_OFFSET), Z.max_id by (done || lia). done.
  - eapply Forall_impl; [apply (layer_over_touching begin e' _ _ _ 0); (done || lia)|].
    intros x [? ?]. split; [lia|done].
Qed.
End merge_loop.

(** Several indexes on top of each other, the mappings of each tagged with its
    position. *)
Fixpoint stack (level : Z) (ps : list (list SegmentMapping)) : list SegmentMapping :=
  match ps with
  | [] => []
  | p :: ps => layer_over 0 (with_tag level <$> p) (stack (level + 1) ps) MAX_OFFSET
  end.

Lemma wf_retag t m : 0 <= t < 256 -> wf m -> wf (with_tag t m).
Proof. unfold wf, mend. simpl. tauto. Qed.

Lemma retag_chain_tag t lo l hi : 0 <= t < 256 -> chain lo l hi -> chain lo (with_tag t <$> l) hi.
Proof. intros Ht. apply retag_chain; [|done]. intros m. by apply wf_retag. Qed.

Lemma stack_chain level ps : Forall (fun p => chain 0 p MAX_OFFSET) ps -> 0 <= level ->
  level + Z.of_nat (length ps) <= 256 -> chain 0 (stack level ps) MAX_OFFSET.
Proof.
  intros Hps. revert level. induction Hps as [|p ps Hp Hps IH]; intros level Hl Hn; simpl in *; [unfold MAX_OFFSET; lia|].
  eapply layer_over_chain; [apply retag_chain_tag; [lia|done]|apply IH; lia].
Qed.

Lemma merge_indexes_spec fuel level ps n begin e : Forall index_valid ps -> n = length ps -> (n < fuel)%nat ->
  0 <= level -> level + Z.of_nat n <= 256 -> 0 <= begin <= MAX_OFFSET ->
  merge_indexes fuel level ps n begin e true 0 = Some (clip begin (Z.min e MAX_OFFSET) (stack level (mapping <$> ps))).
Proof.
  intros Hps. revert level n begin e ps Hps. induction fuel as [|fuel IH]; intros level n begin e ps Hps Hn Hf Hl Hl' Hb; [lia|].
  cbn [merge_indexes]. destruct ps as [|p ps]; simpl in Hn; subst n; [done|]. cbn [Nat.eqb].
  destruct (Z.leb_spec e begin); [by rewrite clip_empty by lia|].
  apply Forall_cons in Hps as [Hp Hps]. simpl. rewrite Nat.sub_0_r.
  assert (Forall (fun p => chain 0 p MAX_OFFSET) (mapping <$> ps)) as Hcs.
  { apply Forall_fmap. done. }
  apply merge_level; try done.
  - intros m. apply wf_retag. lia.
  - apply stack_chain; [done|lia|]. rewrite length_fmap. lia.
  - intros b' e' Hb' He'. destruct ps as [|p2 ps].
    + destruct fuel; [simpl in *; lia|]. simpl. done.
    + assert (u8 (level + 1) = level + 1) as -> by (apply Z.mod_small; simpl in *; lia).
      apply IH; simpl in *; (done || lia).
Qed.

(** The merge of one index into the gaps of another, tags kept. *)
Lemma layer_over_nil lo top hi : layer_over lo top [] hi = top.
Proof. revert lo. induction top as [|m top IH]; intros lo; simpl; [done|]. by rewrite IH. Qed.

Lemma layer_over_self lo pre l hi : chain 0 (pre ++ l) hi -> chain 0 pre lo -> chain lo l hi ->
  layer_over lo l (pre ++ l) hi = l.
Proof.
  revert lo pre. induction l as [|m l IH]; intros lo pre Hc Hp Hl; simpl.
  - rewrite app_nil_r. simpl in Hl. by rewrite (clip_outside lo hi _ _ _ Hp) by lia.
  - destruct Hl as (H1 & H2 & H3). pose proof (wf_bounds _ H2).
    rewrite clip_app. simpl. rewrite (clip_outside lo _ _ _ _ Hp), clip1_outside, (clip_outside lo _ _ _ _ H3) by lia.
    simpl. f_equal. specialize (IH (end_ m) (pre ++ [m])). rewrite <- app_assoc in IH. apply IH; [done| |done].
    apply chain_app. exists lo. simpl. split; [done|]. split_and!; [done|done|lia].
Qed.

Lemma keep_retag (m : SegmentMapping) a b : piece ((fun m => m) m) a b = (fun m => m) (piece m a b).
Proof. done. Qed.

Lemma merge_keep_one fuel level i begin e max_level : index_valid i -> (max_level < fuel)%nat -> 0 <= begin <= MAX_OFFSET ->
  (0 < max_level)%nat ->
  merge_indexes fuel level [i] 0 begin e false max_level = Some (clip begin (Z.min e MAX_OFFSET) (mapping i)).
Proof.
  intros Hi. revert level begin e fuel. induction max_level as [|k IH]; intros level begin e fuel Hf Hb Hk; [lia|].
  destruct fuel as [|fuel]; [lia|]. cbn [merge_indexes Nat.eqb]. simpl Nat.leb. cbn iota.
  destruct (Z.leb_spec e begin); [by rewrite clip_empty by lia|]. cbn [head mbind option_bind drop].
  rewrite Nat.sub_succ, Nat.sub_0_r.
  assert (exists bottom, chain 0 bottom MAX_OFFSET /\ layer_over 0 (mapping i) bottom MAX_OFFSET = mapping i /\
    forall b e, 0 <= b <= MAX_OFFSET -> b < e ->
      merge_indexes fuel (u8 (level + 1)) [i] 0 b e false k = Some (clip b (Z.min e MAX_OFFSET) bottom)) as (bottom & Hb0 & Hself & Hhole).
  { destruct k as [|k].
    - exists []. split_and!; [unfold chain, MAX_OFFSET; lia|apply layer_over_nil|]. intros. by destruct fuel; [lia|].
    - exists (mapping i). split_and!; [done|by apply (layer_over_self 0 []); simpl|]. intros. apply IH; lia. }
  pose proof (merge_level (fun b e => merge_indexes fuel (u8 (level + 1)) [i] 0 b e false k) (fun m => m) bottom) as Hml.
  etransitivity; [apply Hml; done|]. by rewrite list_fmap_id, Hself.
Qed.

(** Two indexes with the maximal level at least 2, as the callers have it. *)
Lemma merge_keep_two fuel i0 i1 max_level : index_valid i0 -> index_valid i1 -> (2 <= max_level)%nat -> (max_level < fuel)%nat ->
  merge_indexes fuel 0 [i0; i1] 2 0 UINT64_MAX false max_level =
  Some (layer_over 0 (mapping i0) (mapping i1) MAX_OFFSET).
Proof.
  intros H0 H1 Hk Hf. destruct fuel as [|fuel]; [lia|]. destruct max_level as [|k]; [lia|].
  cbn [merge_indexes Nat.eqb]. simpl Nat.leb. cbn iota. simpl Z.leb. cbn iota. cbn [head mbind option_bind drop].
  rewrite Nat.sub_succ, Nat.sub_0_r.
  pose proof (merge_level (fun b e => merge_indexes fuel (u8 (0 + 1)) [i1] 0 b e false k) (fun m => m) (mapping i1)) as Hml.
  etransitivity; [apply Hml; try done|].
  - intros b e Hb He. apply merge_keep_one; (done || lia).
  - rewrite list_fmap_id, Z.min_r by (unfold UINT64_MAX, MAX_OFFSET; lia). f_equal.
    eapply clip_id; [eapply layer_over_chain; [exact H0|exact H1]|lia|lia].
Qed.

Lemma get_alloc_eq l lo hi a : chain lo l hi -> 0 <= a -> a + data_blocks l < 2 ^ 64 -> get_alloc_blks l a = a + data_blocks l.
Proof.
  unfold get_alloc_blks. revert lo a. induction l as [|m l IH]; intros lo a Hc Ha Hb; simpl in *; [lia|].
  destruct Hc as (H1 & H2%wf_bounds & H3). pose proof (data_blocks_range _ _ _ H3).
  assert (u64 (a + seg_length m * (if zeroed m then 0 else 1)) = a + data_blocks1 m) as ->.
  { unfold data_blocks1 in *. rewrite u64_small by (destruct (zeroed m); lia). destruct (zeroed m); lia. }
  rewrite (IH _ _ H3); [lia| |lia]. unfold data_blocks1. destruct (zeroed m); lia.
Qed.

Lemma alloc_exact l : chain 0 l MAX_OFFSET -> get_alloc_blks l 0 = data_blocks l.
Proof.
  intros Hc. pose proof (data_blocks_range _ _ _ Hc). unfold MAX_OFFSET in *. rewrite (get_alloc_eq _ _ _ _ Hc); lia.
Qed.

(** ** Lookup in a combination *)

Lemma trim_take a b l n : a < b -> chain 0 l MAX_OFFSET -> Forall (touching a b) l ->
  trim_edges a b (take n l) = Some (take n (clip a b l)).
Proof.
  intros Hab Hc Ht. rewrite (trim_edges_spec _ _ 0 _ MAX_OFFSET); [|done|by apply chain_take|by apply Forall_take].
  pose proof (chain_Forall _ _ _ Hc). f_equal.
  rewrite !clip_touching; [by rewrite fmap_take|done..|by apply Forall_take|by apply Forall_take].
Qed.

Section combo.
Context (backing : Index) (a b : Z).
Hypothesis Hbacking : index_valid backing.
Hypothesis Hab : 0 <= a /\ a < b /\ b <= MAX_OFFSET /\ b - a <= MAX_LENGTH.

Lemma below_run soffset e n : a <= soffset -> soffset < e <= b -> (0 < n)%nat ->
  lookup_ backing (mkSegment (u50 soffset) (u14 (u32 (e - soffset)))) n = Some (take n (clip soffset e (mapping backing))).
Proof using Hbacking Hab.
  intros Hs He Hn. unfold MAX_OFFSET, MAX_LENGTH in *. rewrite u32_small, u50_small, u14_small by lia.
  rewrite (lookup_view backing); [|done| |done].
  - unfold end_. simpl. do 3 f_equal. lia.
  - unfold seg_ok, end_, MAX_OFFSET, MAX_LENGTH. simpl. lia.
Qed.

Lemma combo_loop_spec its lo soffset n : chain lo its MAX_OFFSET -> Forall (fun m : SegmentMapping => a < end_ m) its ->
  a <= soffset -> combo_loop backing its soffset b n = Some (take n (layer_over soffset (starting b its) (mapping backing) b)).
Proof using Hbacking Hab.
  assert (forall soffset n, a <= soffset ->
    (match n with
     | O => Some []
     | _ => if soffset <? b then lookup_ backing (mkSegment (u50 soffset) (u14 (u32 (b - soffset)))) n else Some []
     end) = Some (take n (clip soffset b (mapping backing)))) as Htail.
  { intros so k Hs. destruct k as [|k]; [done|]. destruct (Z.ltb_spec so b); [apply below_run; lia|].
    by rewrite clip_empty by lia. }
  revert lo soffset n. induction its as [|it its IH]; intros lo soffset n Hc Hf Hs; [by apply Htail|].
  simpl in Hc. destruct Hc as (H1 & H2 & H3). apply Forall_cons in Hf as [Hit Hf].
  unfold starting. simpl lower_bound. cbn [combo_loop]. destruct (Z.ltb_spec (offset it) b) as [Hlt|Hge].
  - destruct n as [|n]; [done|]. cbn [take layer_over].
    assert ((if soffset <? offset it then lookup_ backing (mkSegment (u50 soffset) (u14 (u32 (offset it - soffset)))) (S n)
      else Some []) = Some (take (S n) (clip soffset (offset it) (mapping backing)))) as ->.
    { destruct (Z.ltb_spec soffset (offset it)); [apply below_run; lia|]. by rewrite clip_empty by lia. }
    cbn [mbind option_bind]. set (A := clip soffset (offset it) (mapping backing)).
    rewrite take_app, length_take. destruct (S n - _)%nat as [|k] eqn:Hk.
    + assert (S n - length A = 0)%nat as -> by lia. simpl. by rewrite app_nil_r.
    + rewrite (IH _ _ _ H3 Hf) by lia. cbn [mbind option_bind]. rewrite (take_ge A) by lia.
      assert (S n - length A = S k)%nat as -> by lia. done.
  - destruct n as [|n]; [exact (Htail soffset O Hs)|exact (Htail soffset (S n) Hs)].
Qed.
End combo.

Definition combo_view (c : ComboIndex) : list SegmentMapping :=
  match m_backing_index c with
  | None => mapping0 (front c)
  | Some backing => layer_over 0 (mapping0 (front c)) (mapping backing) MAX_OFFSET
  end.

Definition combo_valid (c : ComboIndex) : Prop :=
  chain 0 (mapping0 (front c)) MAX_OFFSET /\ u64 (m_alloc (front c)) = m_alloc (front c) /\
  forall backing, m_backing_index c = Some backing -> index_valid backing.

#[export] Program Instance ComboIndex_laws : MemoryIndexLaws ComboIndex :=
  {| valid_index := combo_valid; view := combo_view |}.
Next Obligation.
  intros c (Hc & _ & Hb). unfold combo_view. destruct (m_backing_index c) as [b|]; [|done].
  eapply layer_over_chain; [done|by apply Hb].
Qed.
Next Obligation.
  intros c s n (Hc & _ & Hb) Hs Hn. unfold lookup_, ComboIndex_lookup, combo_view.
  destruct (Z.eqb_spec (seg_length s) 0) as [H0|H0].
  { rewrite clip_empty by (unfold end_; lia). by destruct n. }
  destruct (m_backing_index c) as [b|]; [|by apply set_lookup]. specialize (Hb b eq_refl).
  unfold seg_ok in Hs. assert (offset s < end_ s) as Hse by (unfold end_; lia).
  assert (from_bound (mkSegment (u50 (offset s)) (u14 (u32 (seg_length s)))) (mapping0 (front c)) =
    from_bound s (mapping0 (front c))) as Hfb.
  { unfold MAX_LENGTH, MAX_OFFSET, end_ in *. rewrite u32_small, u50_small, u14_small by lia. by destruct s. }
  unfold SegmentMapping_new. destruct (Z.ltb_spec MAX_LENGTH (u32 (seg_length s))) as [Hl|_].
  { exfalso. unfold MAX_LENGTH in *. rewrite u32_small in Hl; lia. }
  cbn [mbind option_bind seg]. rewrite Hfb.
  destruct (from_bound_split s _ _ _ Hc) as (pre & Heq & Hpre & Hfrom).
  assert (chain 0 (from_bound s (mapping0 (front c))) MAX_OFFSET) as Hcf by (by apply chain_drop).
  destruct (starting_split (end_ s) _ _ _ Hcf) as (post & Heq2 & Hst & Hpost).
  rewrite (combo_loop_spec b (offset s) (end_ s) Hb ltac:(unfold end_ in *; lia) _ _ _ _ Hcf Hfrom) by lia.
  cbn [mbind option_bind]. set (t := starting (end_ s) _) in *. assert (chain 0 t MAX_OFFSET) as Hct by (by apply chain_take).
  unfold trim_edge_mappings. rewrite trim_take; [|done|..].
  - do 2 f_equal. rewrite (clip_layer_over _ _ _ _ _ _ 0 MAX_OFFSET), (clip_layer_over _ _ 0 _ _ _ 0 MAX_OFFSET) by (done || lia).
    rewrite Z.max_id, Z.max_l by lia. f_equal. rewrite Heq, Heq2, !clip_app.
    rewrite (clip_apart _ _ pre), (clip_apart _ _ post), app_nil_r; [done|..].
    + eapply Forall_impl; [exact Hpost|]. intros x Hx. by left.
    + eapply Forall_impl; [exact Hpre|]. intros x Hx. by right.
  - apply layer_over_chain'; (done || lia).
  - apply (layer_over_touching _ _ _ _ _ 0); [done|done|done| |lia].
    apply Forall_forall. intros m Hm. rewrite Heq2 in Hfrom. apply Forall_app in Hfrom as [Hf _].
    rewrite Forall_forall in Hf, Hst. split; auto.
Qed.

(** ** The search tree of [LevelIndex] *)

Lemma lower_bound_le {A} (P : A -> bool) l : (lower_bound P l <= length l)%nat.
Proof. induction l as [|x l IH]; simpl; [done|]. destruct (P x); lia. Qed.

Lemma lower_bound_before {A} (P : A -> bool) l i a : (i < lower_bound P l)%nat -> l !! i = Some a -> P a = true.
Proof.
  revert i. induction l as [|x l IH]; intros i; simpl; [done|]. destruct (P x) eqn:HP; [|lia].
  destruct i as [|i]; simpl; [by intros _ [= <-]|]. intros Hi. apply IH. lia.
Qed.

Lemma lower_bound_at {A} (P : A -> bool) l a : l !! lower_bound P l = Some a -> P a = false.
Proof. induction l as [|x l IH]; simpl; [done|]. destruct (P x) eqn:HP; simpl; [done|]. by intros [= <-]. Qed.

Lemma lower_bound_unique {A} (P : A -> bool) l k : (k <= length l)%nat ->
  (forall i a, (i < k)%nat -> l !! i = Some a -> P a = true) -> (forall a, l !! k = Some a -> P a = false) ->
  lower_bound P l = k.
Proof.
  revert k. induction l as [|x l IH]; intros k; simpl; [lia|]. intros Hk Hb Ha. destruct k as [|k].
  - by rewrite (Ha x).
  - rewrite (Hb O x) by (done || lia). f_equal. apply IH; [lia| |exact Ha].
    intros i a Hi. apply (Hb (S i)). lia.
Qed.

(** Searching a range that holds the bound finds it. *)
Lemma range_search {A} (P : A -> bool) l lower upper : 0 <= lower -> lower <= Z.of_nat (lower_bound P l) <= upper ->
  upper <= Z.of_nat (length l) ->
  (Z.to_nat lower + lower_bound P (range_of lower upper l))%nat = lower_bound P l.
Proof.
  intros H0 Hk Hu. set (k := lower_bound P l) in *.
  rewrite (lower_bound_unique P (range_of lower upper l) (k - Z.to_nat lower)); [lia|..]; unfold range_of.
  - rewrite length_take, length_drop. lia.
  - intros i a Hi [Ha _]%lookup_take_Some. rewrite lookup_drop in Ha. eapply lower_bound_before; [|exact Ha]. lia.
  - intros a [Ha _]%lookup_take_Some. rewrite lookup_drop in Ha.
    replace (Z.to_nat lower + (k - Z.to_nat lower))%nat with k in Ha by lia. by eapply lower_bound_at.
Qed.

Definition increasing (l : list Z) : Prop :=
  forall i j a b, l !! i = Some a -> l !! j = Some b -> (i < j)%nat -> a < b.

Definition below (x : Z) : Z -> bool := fun o => o <? x.

Lemma length_page_heads psz objs : length (page_heads psz objs) = ((length objs - 1) / psz + 1)%nat.
Proof. unfold page_heads. by rewrite length_fmap, length_seq. Qed.

Lemma page_heads_lookup psz objs p a : (0 < psz)%nat -> objs <> [] -> page_heads psz objs !! p = Some a -> objs !! (p * psz)%nat = Some a.
Proof.
  intros Hp Hne Ha. pose proof (lookup_lt_Some _ _ _ Ha) as Hlt. rewrite length_page_heads in Hlt.
  unfold page_heads in Ha. apply list_lookup_fmap_Some in Ha as (q & -> & Hq). apply lookup_seq in Hq as [-> _].
  simpl. assert (length objs <> O) by (by destruct objs).
  assert (p * psz < length objs)%nat as Hlen.
  { assert (p <= (length objs - 1) / psz)%nat as Hle by lia.
    pose proof (Nat.Div0.mul_div_le (length objs - 1) psz). nia. }
  destruct (lookup_lt_is_Some_2 objs _ Hlen) as [b Hb]. rewrite Hb. f_equal. symmetry. by apply nth_lookup_Some with (d := 0) in Hb.
Qed.

Lemma page_heads_increasing psz objs : (0 < psz)%nat -> objs <> [] -> increasing objs -> increasing (page_heads psz objs).
Proof.
  intros Hp Hne Hi i j a b Ha%page_heads_lookup Hb%page_heads_lookup Hij; [|done..].
  eapply Hi; [exact Ha|exact Hb|]. nia.
Qed.

(** From the bound among the page heads to the bound among the elements. *)
Lemma page_bound psz objs x : (0 < psz)%nat -> objs <> [] -> increasing objs ->
  let K := lower_bound (below x) (page_heads psz objs) in let k := lower_bound (below x) objs in
  (K = O -> k = O) /\ ((0 < K)%nat -> ((K - 1) * psz < k <= K * psz)%nat) /\ (K * psz < length objs + psz)%nat.
Proof.
  intros Hp Hne Hinc K k. pose proof (lower_bound_le (below x) (page_heads psz objs)) as HK. fold K in HK.
  rewrite length_page_heads in HK. pose proof (lower_bound_le (below x) objs) as Hk. fold k in Hk.
  assert (length objs <> O) as Hlen by (by destruct objs).
  pose proof (Nat.Div0.mul_div_le (length objs - 1) psz) as Hd1.
  pose proof (Nat.mul_succ_div_gt (length objs - 1) psz ltac:(lia)) as Hd2.
  assert (forall p, (p * psz < length objs)%nat -> p <= (length objs - 1) / psz)%nat as Hin by (intros p Hpl; nia).
  assert (forall p a, (p <= (length objs - 1) / psz)%nat -> objs !! (p * psz)%nat = Some a -> page_heads psz objs !! p = Some a) as Hhead.
  { intros p a Hpl Ha. destruct (lookup_lt_is_Some_2 (page_heads psz objs) p) as [b Hb]; [rewrite length_page_heads; lia|].
    rewrite Hb. f_equal. apply page_heads_lookup in Hb; [|done..]. congruence. }
  split_and!.
  - intros H0. destruct (decide (k = O)) as [|Hk0]; [done|]. exfalso.
    destruct (lookup_lt_is_Some_2 objs 0 ltac:(lia)) as [a Ha].
    assert (page_heads psz objs !! K = Some a) as HKa by (rewrite H0; apply Hhead; [lia|done]).
    apply (lower_bound_at (below x) (page_heads psz objs)) in HKa. rewrite (lower_bound_before (below x) objs 0 a) in HKa; [done|fold k; lia|done].
  - intros HK0. split.
    + destruct (lookup_lt_is_Some_2 (page_heads psz objs) (K - 1)) as [a Ha]; [rewrite length_page_heads; lia|].
      pose proof (lower_bound_before (below x) (page_heads psz objs) (K - 1) a ltac:(fold K; lia) Ha) as Hb. apply page_heads_lookup in Ha; [|done..].
      destruct (decide ((K - 1) * psz < k)%nat) as [|Hge]; [done|]. exfalso.
      destruct (lookup_lt_is_Some_2 objs k) as [b Hkb]; [apply lookup_lt_Some in Ha; lia|].
      pose proof (lower_bound_at (below x) objs _ Hkb) as Hbf. unfold below in *. apply Z.ltb_lt in Hb. apply Z.ltb_ge in Hbf.
      destruct (decide (k = (K - 1) * psz)%nat) as [Heq|Hneq].
      * rewrite Heq in Hkb. simplify_eq. lia.
      * pose proof (Hinc k ((K - 1) * psz)%nat b a Hkb Ha ltac:(lia)). lia.
    + destruct (decide (K * psz < length objs)%nat) as [Hlt|]; [|lia].
      destruct (lookup_lt_is_Some_2 objs _ Hlt) as [a Ha]. pose proof (lower_bound_at (below x) (page_heads psz objs) a (Hhead K a (Hin _ Hlt) Ha)) as Hb.
      destruct (decide (k <= K * psz)%nat) as [|Hgt]; [done|].
      rewrite (lower_bound_before (below x) objs (K * psz) a) in Hb; [done|fold k; lia|done].
  - nia.
Qed.

(** The levels above [objs], whose pages have [psz] elements. *)
Fixpoint levels_ok (psz : nat) (objs : list Z) (levels : list (list Z)) : Prop :=
  match levels with
  | [] => False
  | [extent] => extent = page_heads psz objs
  | extent :: ((next :: _) as levels) => extent = page_heads 512 next /\ levels_ok psz objs levels
  end.

Lemma levels_ok_snoc psz objs levels : levels_ok 512 (page_heads psz objs) levels ->
  levels_ok psz objs (levels ++ [page_heads psz objs]).
Proof.
  induction levels as [|e levels IH]; simpl; [done|]. destruct levels as [|e' levels]; simpl.
  - by intros ->.
  - intros [-> H]. split; [done|]. by apply IH.
Qed.

Lemma pages_of_heads : Z.to_nat (PAGE_SIZE / 8) = 512%nat.
Proof. reflexivity. Qed.
Lemma pages_of_mappings : Z.to_nat (PAGE_SIZE / sizeof_SegmentMapping) = 256%nat.
Proof. reflexivity. Qed.

Lemma build_ok fuel obj_size psz objs : Z.to_nat (PAGE_SIZE / obj_size) = psz -> (2 <= psz)%nat ->
  (length objs <= fuel)%nat -> objs <> [] -> levels_ok psz objs (build_level_index fuel obj_size objs).
Proof.
  revert obj_size psz objs. induction fuel as [|fuel IH]; intros obj_size psz objs Hsz Hp Hf Hne.
  { destruct objs; [done|simpl in Hf; lia]. }
  cbn [build_level_index]. rewrite Hsz. destruct (Z.ltb_spec (PAGE_SIZE / 8) (Z.of_nat (length (page_heads psz objs)))) as [Hl|_]; [|done].
  apply levels_ok_snoc, IH.
  - apply pages_of_heads.
  - lia.
  - rewrite length_page_heads in *. assert (512 < Z.of_nat ((length objs - 1) / psz + 1)) as Hl' by exact Hl.
    pose proof (Nat.Div0.mul_div_le (length objs - 1) psz). nia.
  - intros Hnil. rewrite Hnil in Hl. simpl in Hl. unfold PAGE_SIZE in Hl. vm_compute in Hl. done.
Qed.

Lemma levels_facts psz objs e levels : (1 <= psz)%nat -> levels_ok psz objs (e :: levels) -> increasing objs -> objs <> [] ->
  increasing e /\ e <> [] /\ (length e <= length objs)%nat /\
  forall x, lower_bound (below x) e = O -> lower_bound (below x) objs = O.
Proof.
  intros Hp. assert (forall psz objs, (1 <= psz)%nat -> increasing objs -> objs <> [] ->
    increasing (page_heads psz objs) /\ page_heads psz objs <> [] /\ (length (page_heads psz objs) <= length objs)%nat /\
    forall x, lower_bound (below x) (page_heads psz objs) = O -> lower_bound (below x) objs = O) as Hpage.
  { clear. intros psz objs Hp Hi Hne. split_and!.
    - by apply page_heads_increasing.
    - intros Hnil%(f_equal length). rewrite length_page_heads in Hnil. simpl in Hnil. lia.
    - rewrite length_page_heads. assert (length objs <> O) by (by destruct objs).
      pose proof (Nat.Div0.mul_div_le (length objs - 1) psz). nia.
    - intros x. apply page_bound; done. }
  revert e. induction levels as [|next levels IH]; intros e; cbn [levels_ok].
  - intros ->. by apply Hpage.
  - intros [-> Hl] Hi Hne. destruct (IH _ Hl Hi Hne) as (Hi' & Hne' & Hlen & H0).
    destruct (Hpage 512%nat next ltac:(lia) Hi' Hne') as (H1 & H2 & H3 & H4). split_and!; [done|done|lia|auto].
Qed.

(** One step down: the range of the next level that holds its bound. *)
Lemma page_range psz shift objs K x : Z.of_nat psz = 2 ^ shift -> 0 <= shift <= 9 -> objs <> [] -> increasing objs ->
  K = lower_bound (below x) (page_heads psz objs) -> (0 < K)%nat -> Z.of_nat (length objs) < 2 ^ 31 - 512 ->
  let lower := s32 (Z.shiftl (Z.of_nat K - 1) shift) in
  let upper := Z.min (s32 (Z.shiftl (Z.of_nat K) shift)) (s32 (Z.of_nat (length objs))) in
  0 <= lower /\ lower < Z.of_nat (lower_bound (below x) objs) <= upper /\ upper <= Z.of_nat (length objs).
Proof.
  intros Hpsz Hs Hne Hi HK HK0 Hlen. rewrite !Z.shiftl_mul_pow2, <- Hpsz by lia.
  assert (2 ^ shift <= 2 ^ 9) as Hpow by (apply Z.pow_le_mono_r; lia).
  destruct (page_bound psz objs x ltac:(lia) Hne Hi) as (_ & Hb & Hend). rewrite <- HK in Hb, Hend. specialize (Hb HK0).
  pose proof (lower_bound_le (below x) objs). cbv zeta.
  rewrite !s32_small by nia. nia.
Qed.

Lemma level_descend_cons e levels size x lower upper po :
  level_descend (e :: levels) size x lower upper po =
  let page_offset := s32 (lower + Z.of_nat (lower_bound (below x) (range_of lower upper e))) in
  if page_offset =? 0 then (page_offset, lower, upper)
  else
    let lshift := match levels with [] => LEVEL_LSHIFT - 1 | _ => LEVEL_LSHIFT end in
    let underlay_size := s32 (match levels with [] => size | l :: _ => Z.of_nat (length l) end) in
    level_descend levels size x (s32 (Z.shiftl (page_offset - 1) lshift))
      (Z.min (s32 (Z.shiftl page_offset lshift)) underlay_size) page_offset.
Proof. done. Qed.

Lemma level_descend_spec levels objs e x lower upper po : levels_ok 256 objs (e :: levels) ->
  increasing objs -> objs <> [] -> Z.of_nat (length objs) < 2 ^ 31 - 512 -> 0 <= lower ->
  lower <= Z.of_nat (lower_bound (below x) e) <= upper -> upper <= Z.of_nat (length e) ->
  exists po' lo up, level_descend (e :: levels) (Z.of_nat (length objs)) x lower upper po = (po', lo, up) /\
    (po' = 0 -> lower_bound (below x) objs = O) /\
    (po' <> 0 -> 0 <= lo /\ lo < Z.of_nat (lower_bound (below x) objs) <= up /\ up <= Z.of_nat (length objs)).
Proof.
  intros Hok Hi Hne Hlen. revert e lower upper po Hok.
  induction levels as [|next levels IH]; intros e lower upper po Hok H0 Hk Hu;
    destruct (levels_facts 256 objs e _ ltac:(lia) Hok Hi Hne) as (Hie & Hnee & Hle & Hz);
    pose proof (range_search (below x) e lower upper H0 Hk Hu) as Hs;
    rewrite level_descend_cons; cbv zeta;
    assert (lower + Z.of_nat (lower_bound (below x) (range_of lower upper e)) = Z.of_nat (lower_bound (below x) e)) as -> by lia;
    rewrite (s32_small (Z.of_nat (lower_bound (below x) e))) by lia;
    destruct (Z.eqb_spec (Z.of_nat (lower_bound (below x) e)) 0) as [Hz0|Hz0].
  - eexists _, _, _. split; [done|]. split; [intros _; apply Hz; lia|lia].
  - eexists _, _, _. split; [done|]. split; [lia|]. intros _. cbn [levels_ok] in Hok.
    apply (page_range 256 8 objs _ x); [done|lia|done|done|by rewrite Hok|lia|done].
  - eexists _, _, _. split; [done|]. split; [intros _; apply Hz; lia|lia].
  - destruct Hok as [He Hok]. destruct (levels_facts 256 objs next _ ltac:(lia) Hok Hi Hne) as (Hin & Hnen & Hln & _).
    destruct (page_range 512 9 next (lower_bound (below x) e) x) as (H1 & H2 & H3);
      [done|lia|done|done|by rewrite He|lia|lia|].
    change LEVEL_LSHIFT with 9. apply IH; [done|done|lia|done].
Qed.

Lemma chain_offset_increasing lo l hi : chain lo l hi -> increasing ((fun m : SegmentMapping => offset m) <$> l).
Proof.
  intros Hc i j a b (m1 & -> & H1)%list_lookup_fmap_Some (m2 & -> & H2)%list_lookup_fmap_Some Hij.
  rewrite <- (take_drop j l) in Hc. apply chain_app in Hc as (mid & Hc1 & Hc2).
  assert (m1 ∈ take j l) as Hm1 by (apply list_elem_of_lookup; exists i; by apply lookup_take_Some).
  destruct (chain_elem _ _ _ _ Hc1 Hm1) as (Hw%wf_bounds & _ & He).
  assert (m2 ∈ drop j l) as Hm2.
  { apply list_elem_of_lookup. exists O. rewrite lookup_drop. by rewrite Nat.add_0_r. }
  destruct (chain_elem _ _ _ _ Hc2 Hm2) as (_ & ? & _). lia.
Qed.

(** The bounds by offset and by end differ by at most one. *)
Lemma end_bound lo l hi x : chain lo l hi ->
  let k := lower_bound (below x) ((fun m : SegmentMapping => offset m) <$> l) in
  let j := lower_bound (fun m : SegmentMapping => end_ m <=? x) l in
  (j <= k /\ k - 1 <= j)%nat.
Proof.
  cbv zeta. assert (forall y, below x y = (y <? x)) as Hbelow by done.
  revert lo. induction l as [|m l IH]; intros lo; [simpl; lia|]. intros (H1 & H2%wf_bounds & H3).
  specialize (IH _ H3). rewrite fmap_cons. cbn [lower_bound]. rewrite Hbelow.
  destruct (Z.ltb_spec (offset m) x), (Z.leb_spec (end_ m) x); try lia.
  destruct l as [|m2 l]; [simpl; lia|]. destruct H3 as (H3 & _). rewrite fmap_cons. cbn [lower_bound].
  rewrite Hbelow. destruct (Z.ltb_spec (offset m2) x); lia.
Qed.

Definition level_valid (i : LevelIndex) : Prop :=
  index_valid (level_base i) /\ i = LevelIndex_of (level_base i) /\
  Z.of_nat (length (mapping (level_base i))) < 2 ^ 31 - 512.

Lemma level_lookup_eq i s n : level_valid i -> lookup_ i s n = lookup_ (level_base i) s n.
Proof.
  destruct i as [[l al vs] levels]. intros (Hv & Hlev%(f_equal level_mapping) & Hlen).
  unfold LevelIndex_of, index_valid in *. cbn [mapping level_base level_mapping] in *.
  unfold lookup_, LevelIndex_lookup, Index_lookup. cbn [mapping level_base level_mapping].
  destruct l as [|m l].
  { subst levels. by destruct (_ =? _). }
  set (base := (fun m : SegmentMapping => offset m) <$> m :: l) in *.
  assert (levels_ok 256 base levels) as Hok.
  { rewrite Hlev. apply build_ok; [apply pages_of_mappings|lia| |done]. unfold base. by rewrite length_fmap. }
  pose proof (chain_offset_increasing _ _ _ Hv) as Hinc. fold base in Hinc.
  destruct levels as [|top levels]; [done|]. destruct (_ =? 0); [done|].
  assert (length base = length (m :: l)) as Hlb by (unfold base; by rewrite length_fmap).
  destruct (levels_facts 256 base top _ ltac:(lia) Hok Hinc ltac:(done)) as (_ & _ & Htop & _).
  rewrite s32_small by (rewrite Hlb in Htop; simpl length in *; lia).
  pose proof (lower_bound_le (below (offset s)) top).
  destruct (level_descend_spec levels base top (offset s) 0 (Z.of_nat (length top)) 0 Hok Hinc ltac:(done))
    as (po & lo & up & Hrun & Hz & Hnz); [rewrite Hlb; simpl length in *; lia|lia|lia|lia|].
  rewrite <- Hlb, Hrun. pose proof (end_bound _ _ _ (offset s) Hv) as Hend. cbv zeta in Hend. fold base in Hend.
  f_equal. f_equal. unfold from_bound. f_equal. unfold seg_lt. destruct (Z.eqb_spec po 0) as [Hpo|Hpo].
  - specialize (Hz Hpo). lia.
  - destruct (Hnz Hpo) as (H1 & H2 & H3). apply range_search; [done|lia|]. by rewrite <- Hlb.
Qed.

#[export] Program Instance LevelIndex_laws : MemoryIndexLaws LevelIndex :=
  {| valid_index := level_valid; view := fun i => mapping (level_base i) |}.
Next Obligation. by intros i (Hv & _ & _). Qed.
Next Obligation.
  intros i s n Hv Hs Hn. rewrite level_lookup_eq by done. exact (lookup_view (level_base i) s n (proj1 Hv) Hs Hn).
Qed.

(** ** Compression *)

Lemma can_append_true a b : can_append a b = true <->
  end_ a = offset b /\ mend a = moffset b /\ zeroed a = zeroed b /\ tag a = tag b /\
  seg_length a + seg_length b < MAX_LENGTH.
Proof.
  unfold can_append. rewrite !andb_true_iff, !Z.eqb_eq, Z.ltb_lt, eqb_true_iff. tauto.
Qed.

Lemma append_length a b : wf a -> wf b -> can_append a b = true -> seg_length (append_seg a b) = seg_length a + seg_length b.
Proof.
  intros Ha Hb (_ & _ & _ & _ & Hl)%can_append_true. unfold wf, MAX_LENGTH in *. simpl. apply u14_small. lia.
Qed.

Lemma append_wf a b : wf a -> wf b -> can_append a b = true -> wf (append_seg a b) /\ end_ (append_seg a b) = end_ b.
Proof.
  intros Ha Hb Hc. pose proof (append_length _ _ Ha Hb Hc) as Hl. pose proof Hc as (He & Hm & Hz & Ht & Hs)%can_append_true.
  unfold wf, mend, end_, MAX_LENGTH, MAX_OFFSET in *. rewrite Hl. simpl. rewrite <- Hz in *. destruct (zeroed a); lia.
Qed.

Lemma append_den a b x : wf a -> wf b -> can_append a b = true -> den [append_seg a b] x = den [a; b] x.
Proof.
  intros Ha Hb Hc. destruct (append_wf _ _ Ha Hb Hc) as [_ He]. pose proof (wf_bounds _ Ha). pose proof (wf_bounds _ Hb).
  pose proof Hc as (Heq & Hm & Hz & Ht & Hs)%can_append_true. cbn [den]. unfold in_seg at 1. rewrite He.
  change (offset (append_seg a b)) with (offset a). unfold mend in Hm.
  destruct (in_seg a x) eqn:Ea; [apply in_seg_true in Ea|apply in_seg_false in Ea]; [zcases|].
  destruct (in_seg b x) eqn:Eb; [apply in_seg_true in Eb|apply in_seg_false in Eb]; [|zcases].
  destruct (Z.leb_spec (offset a) x), (Z.ltb_spec x (end_ b)); try lia. simpl. f_equal. unfold block_at. simpl.
  rewrite <- Hz, <- Ht. destruct (zeroed a); [done|]. f_equal. unfold end_ in *. lia.
Qed.

(** No mapping can be appended to the one before it. *)
Fixpoint maximal (l : list SegmentMapping) : Prop :=
  match l with
  | a :: ((b :: _) as l) => can_append a b = false /\ maximal l
  | _ => True
  end.

Record compressed (lo hi : Z) (l l' : list SegmentMapping) : Prop := {
  cp_chain : chain lo l' hi;
  cp_den x : den l' x = den l x;
  cp_maximal : maximal l';
  cp_length : (length l' <= length l)%nat
}.

Lemma compress_loop_spec lo cur rest hi : chain lo (cur :: rest) hi ->
  compressed lo hi (cur :: rest) (compress_loop cur rest) /\
  exists h t, compress_loop cur rest = h :: t /\ seg_length cur <= seg_length h /\ offset h = offset cur /\
    moffset h = moffset cur /\ zeroed h = zeroed cur /\ tag h = tag cur.
Proof.
  revert lo cur. induction rest as [|m rest IH]; intros lo cur Hc; simpl.
  { split; [by split|]. exists cur, []. split_and!; (done || lia). }
  destruct Hc as (H1 & H2 & H3 & H4 & H5). destruct (can_append cur m) eqn:Hca.
  - destruct (append_wf _ _ H2 H4 Hca) as [Hw He]. pose proof (append_length _ _ H2 H4 Hca) as Hl.
    destruct (IH lo (append_seg cur m)) as [[C1 C2 C3 C4] (h & t & Heq & Hlen & Hf)].
    { split_and!; [exact H1|done|by rewrite He]. }
    split.
    + split; [done| |done|simpl in *; lia]. intros x. rewrite C2.
      change (append_seg cur m :: rest) with ([append_seg cur m] ++ rest).
      change (cur :: m :: rest) with ([cur; m] ++ rest). by rewrite !den_app, append_den.
    + exists h, t. split; [done|]. split; [|done]. unfold wf in H4. lia.
  - destruct (IH (end_ cur) m) as [[C1 C2 C3 C4] (h & t & Heq & Hlen & Hf1 & Hf2 & Hf3 & Hf4)]; [done|]. split.
    + split; [done| | |simpl in *; lia].
      * intros x. cbn [den]. by rewrite C2.
      * rewrite Heq in *. split; [|done]. apply not_true_is_false. intros Hh%can_append_true.
        rewrite Hf1, Hf2, Hf3, Hf4 in Hh. assert (can_append cur m = true); [|congruence].
        apply can_append_true. split_and!; try apply Hh. lia.
    + exists cur, (compress_loop m rest). split_and!; (done || lia).
Qed.

(** ** Checked construction *)

Lemma order_chain_from m l : Forall wf (m :: l) -> verify_mapping_order (m :: l) = true <-> chain (offset m) (m :: l) MAX_OFFSET.
Proof.
  revert m. induction l as [|m2 l IH]; intros m [Hm Hl]%Forall_cons; pose proof (wf_bounds _ Hm).
  - simpl. split; [|done]. intros _. split_and!; [lia|done|lia].
  - pose proof Hl as [Hm2 _]%Forall_cons. cbn [verify_mapping_order chain]. rewrite andb_true_iff. unfold seg_lt. rewrite Z.leb_le.
    specialize (IH m2 Hl). cbn [chain] in IH. split.
    + intros [Hle Hv]. apply IH in Hv as (_ & Hw & Hv). split_and!; [lia|done|done|done|done].
    + intros (_ & _ & Hle & Hw & Hv). split; [done|]. apply IH. split_and!; [lia|done|done].
Qed.

Lemma order_chain l : Forall wf l -> verify_mapping_order l = true <-> chain 0 l MAX_OFFSET.
Proof.
  intros Hl. destruct l as [|m l]; [simpl; unfold MAX_OFFSET; split; [lia|done]|]. rewrite (order_chain_from _ _ Hl).
  pose proof Hl as [Hm _]%Forall_cons. apply wf_bounds in Hm. cbn [chain]. split; intros (? & ? & ?); (split_and!; [lia|done|done]).
Qed.

(** Inserting several mappings: the later ones are over the earlier ones. *)
Lemma insert_all_valid l i : index0_valid i -> Forall wf l -> exists i', insert_all l i = Some i' /\ index0_valid i' /\
  forall x, den (mapping0 i') x = match den (reverse l) x with Some b => Some b | None => den (mapping0 i) x end.
Proof.
  revert i. induction l as [|m l IH]; intros i Hi Hl.
  - exists i. done.
  - apply Forall_cons in Hl as [Hm Hl]. destruct (insert_valid m i Hi Hm) as (i1 & Hrun & Hi1 & Hmap).
    destruct (IH i1 Hi1 Hl) as (i2 & Hrun2 & Hi2 & Hden). exists i2. simpl. rewrite Hrun. simpl. split; [done|].
    split; [done|]. intros x. rewrite Hden, Hmap, reverse_cons, den_app, den_inserted; [|done|by destruct Hi]. simpl.
    destruct (den (reverse l) x); [done|]. by destruct (in_seg m x).
Qed.

(** ** Visiting *)

Section visits.
Context {S : Type} (cb_zero : Segment -> M S Z) (cb_data : SegmentMapping -> M S Z).

(** The holes and the mappings from block [from] on, in order. *)
Fixpoint pieces (from : Z) (l : list SegmentMapping) : list (Segment + SegmentMapping) :=
  match l with
  | [] => []
  | m :: l =>
    (if from <? offset m then [inl (mkSegment from (offset m - from))] else []) ++ inr m :: pieces (end_ m) l
  end.
Definition end_of (from : Z) (l : list SegmentMapping) : Z := foldl (fun _ (m : SegmentMapping) => end_ m) from l.

Definition call_piece (p : Segment + SegmentMapping) : M S Z :=
  match p with
  | inl s => cb_zero s
  | inr m => if zeroed m then cb_zero m else cb_data m
  end.

(** Call the callbacks in order, stop at the first that fails, and go on with [k]. *)
Fixpoint run_pieces (ps : list (Segment + SegmentMapping)) (k : M S Z) : M S Z :=
  match ps with
  | [] => k
  | p :: ps => ret ← call_piece p; if ret <? 0 then mret ret else run_pieces ps k
  end.

(** What is left behind the last mapping is a hole; the result of its callback
    is not used. *)
Definition last_hole (from to_ : Z) : M S Z :=
  (if from <? to_ then cb_zero (mkSegment from (to_ - from)) else mret 0);; mret 0.

Definition visit_range (from to_ : Z) (l : list SegmentMapping) : M S Z :=
  run_pieces (pieces from l) (last_hole (end_of from l) to_).

Lemma run_pieces_app a b k st : run_pieces (a ++ b) k st = run_pieces a (run_pieces b k) st.
Proof.
  revert st. induction a as [|p a IH]; intros st; [done|]. simpl. rewrite !bind_run.
  destruct (call_piece p st) as [[ret s']|]; [|done]. by destruct (ret <? 0).
Qed.

Lemma run_pieces_ext a k k' st : (forall st, k st = k' st) -> run_pieces a k st = run_pieces a k' st.
Proof.
  intros Hk. revert st. induction a as [|p a IH]; intros st; [apply Hk|]. simpl. rewrite !bind_run.
  destruct (call_piece p st) as [[ret s']|]; [|done]. by destruct (ret <? 0).
Qed.

Lemma pieces_app from a b : pieces from (a ++ b) = pieces from a ++ pieces (end_of from a) b.
Proof. revert from. induction a as [|m a IH]; intros from; simpl; [done|]. by rewrite IH, <- app_assoc. Qed.

Lemma end_of_app from a b : end_of from (a ++ b) = end_of (end_of from a) b.
Proof. apply foldl_app. Qed.

Lemma end_of_chain lo l hi : chain lo l hi -> chain lo l (end_of lo l) /\ lo <= end_of lo l <= hi.
Proof.
  revert lo. induction l as [|m l IH]; intros lo; simpl; [lia|]. intros (H1 & H2 & H3). pose proof (wf_bounds _ H2).
  destruct (IH _ H3) as [Hc He]. split; [done|]. unfold end_of in *. simpl. lia.
Qed.

Lemma chain_length lo l hi : chain lo l hi -> Z.of_nat (length l) <= hi - lo.
Proof. revert lo. induction l as [|m l IH]; intros lo; simpl; [lia|]. intros (H1 & H2%wf_bounds & H3%IH). lia. Qed.

Lemma foreach_mappings_run pm s (k : Segment -> M S Z) st : seg_ok s -> chain (offset s) pm (end_ s) ->
  (r ← foreach_mappings cb_zero cb_data pm s; match r with inl ret => mret ret | inr s' => k s' end) st =
  run_pieces (pieces (offset s) pm) (k (mkSegment (end_of (offset s) pm) (end_ s - end_of (offset s) pm))) st.
Proof.
  revert s st. induction pm as [|m pm IH]; intros s st Hs Hc.
  - assert (mkSegment (end_of (offset s) []) (end_ s - end_of (offset s) []) = s) as ->; [|done].
    destruct s as [o l]. unfold end_of, end_. simpl. f_equal. lia.
  - simpl in Hc. destruct Hc as (H1 & H2 & H3). pose proof (wf_bounds _ H2) as Hm. pose proof (chain_le _ _ _ H3).
    assert (forall st, (r ← (ret ← (if zeroed m then cb_zero m else cb_data m);
        if ret <? 0 then mret (inl ret)
        else '(s, _) ← lift (seg_forward_offset_to (end_ m) s); foreach_mappings cb_zero cb_data pm s);
        match r with inl ret => mret ret | inr s' => k s' end) st =
      run_pieces (inr m :: pieces (end_ m) pm) (k (mkSegment (end_of (end_ m) pm) (end_ s - end_of (end_ m) pm))) st) as Hrest.
    { clear st. intros st. cbn [run_pieces call_piece]. rewrite !bind_run.
      destruct ((if zeroed m then cb_zero m else cb_data m) st) as [[ret st']|]; [|done].
      destruct (ret <? 0); [done|]. rewrite (seg_forward s (end_ m) Hs) by lia. cbn [lift mbind M_bind fmap option_fmap option_map].
      specialize (IH (mkSegment (end_ m) (end_ s - end_ m)) st'). rewrite end_mk in IH. apply IH; [|done].
      unfold seg_ok, end_, MAX_LENGTH, MAX_OFFSET in *. simpl. lia. }
    cbn [foreach_mappings pieces end_of foldl]. fold (end_of (end_ m) pm). destruct (Z.ltb_spec (offset s) (offset m)).
    + cbn [app run_pieces call_piece].
      assert (u14 (u32 (offset m - offset s)) = offset m - offset s) as ->.
      { unfold seg_ok, end_, MAX_LENGTH, MAX_OFFSET in *. rewrite u32_small, u14_small; lia. }
      rewrite !bind_run. destruct (cb_zero _ st) as [[ret st']|]; [|done].
      destruct (ret <? 0); [done|]. exact (Hrest st').
    + exact (Hrest st).
Qed.

Context {I : Type} `{MemoryIndexLaws I}.

Lemma foreach_loop_run fuel (idx : I) s st : valid_index idx -> seg_ok s -> seg_length s < Z.of_nat fuel ->
  foreach_loop cb_zero cb_data fuel idx s st = visit_range (offset s) (end_ s) (clip (offset s) (end_ s) (view idx)) st.
Proof.
  intros Hi. revert s st. induction fuel as [|fuel IH]; intros s st Hs Hf; [unfold seg_ok in Hs; lia|].
  assert (offset s <= end_ s) as Hse by (unfold seg_ok, end_ in *; lia).
  pose proof (clip_chain (offset s) (end_ s) _ _ _ (view_chain idx Hi) Hse) as Hc.
  set (L := clip (offset s) (end_ s) (view idx)) in *. cbn [foreach_loop].
  rewrite (lookup_view idx s NMAPPING Hi Hs) by (unfold NMAPPING; lia). fold L. unfold lift at 1. cbn [fmap option_fmap option_map].
  unfold mbind at 1, M_bind at 1. assert (chain (offset s) (take NMAPPING L) (end_ s)) as Hct by (by apply chain_take).
  etransitivity; [apply (foreach_mappings_run _ _ (fun s => if (length (take NMAPPING L) <? NMAPPING)%nat
    then (if 0 <? seg_length s then cb_zero s else mret 0);; mret 0 else foreach_loop cb_zero cb_data fuel idx s) _ Hs Hct)|].
  destruct (end_of_chain _ _ _ Hct) as [Hce Hle]. set (e := end_of (offset s) (take NMAPPING L)) in *.
  unfold visit_range. rewrite length_take. destruct (Nat.ltb_spec (NMAPPING `min` length L) NMAPPING) as [Hlt|Hge].
  - assert (take NMAPPING L = L) as Htake by (apply take_ge; lia).
    assert (end_of (offset s) L = e) as Hend by (unfold e; by rewrite Htake).
    rewrite Htake. apply run_pieces_ext. intros st'. unfold last_hole. rewrite Hend. simpl.
    destruct (Z.ltb_spec 0 (end_ s - e)), (Z.ltb_spec e (end_ s)); try lia; done.
  - rewrite <- (take_drop NMAPPING L) at 2 3. rewrite pieces_app, end_of_app, run_pieces_app. fold e.
    apply run_pieces_ext. intros st'. rewrite IH; unfold end_; simpl.
    + fold (end_ s). replace (e + (end_ s - e)) with (end_ s) by lia. unfold visit_range.
      replace (clip e (end_ s) (view idx)) with (drop NMAPPING L); [done|].
      assert (clip e (end_ s) (view idx) = clip e (end_ s) L) as ->.
      { unfold L. by rewrite clip_clip, Z.max_l, Z.min_id by lia. }
      pose proof Hc as Hc'. rewrite <- (take_drop NMAPPING L) in Hc' at 1. apply chain_app in Hc' as (mid & Hc1 & Hc2).
      assert (chain e (drop NMAPPING L) (end_ s)) as Hcd.
      { eapply chain_weaken; [exact Hc2| |done]. pose proof (proj2 (end_of_chain _ _ _ Hc1)). unfold e. lia. }
      rewrite <- (take_drop NMAPPING L) at 2. symmetry. by eapply clip_rest; [|exact Hce|exact Hcd]; rewrite take_drop.
    + unfold seg_ok, end_, MAX_LENGTH, MAX_OFFSET in *. simpl in *. lia.
    + pose proof (chain_length _ _ _ Hce) as Hl. rewrite length_take in Hl. unfold end_ in *. unfold NMAPPING in *. lia.
Qed.
End visits.

(** ** What the operations promise *)

(** The block a stack of indexes has for [x]: the one of the first index that
    maps it, tagged with the position of that index. *)
Definition retag_block (t : Z) (b : block) : block :=
  match b with Zeros _ => Zeros t | Data _ at_ => Data t at_ end.
Fixpoint topmost (level : Z) (ps : list Index) (x : Z) : option block :=
  match ps with
  | [] => None
  | p :: ps => match den (mapping p) x with
               | Some b => Some (retag_block level b)
               | None => topmost (level + 1) ps x
               end
  end.

Lemma den_with_tag t l x : den (with_tag t <$> l) x = retag_block t <$> den l x.
Proof.
  induction l as [|m l IH]; [done|]. rewrite fmap_cons. cbn [den]. rewrite IH.
  change (in_seg (with_tag t m) x) with (in_seg m x). destruct (in_seg m x); [|done].
  unfold block_at. simpl. by destruct (zeroed m).
Qed.

Lemma den_range lo l hi x b : chain lo l hi -> den l x = Some b -> lo <= x < hi.
Proof.
  intros Hc Hb. destruct (Z.lt_ge_cases x lo); [rewrite (den_outside _ _ _ x Hc) in Hb; [done|lia]|].
  destruct (Z.lt_ge_cases x hi); [lia|]. rewrite (den_outside _ _ _ x Hc) in Hb; [done|lia].
Qed.

Lemma den_over top bottom x : chain 0 top MAX_OFFSET -> chain 0 bottom MAX_OFFSET ->
  den (layer_over 0 top bottom MAX_OFFSET) x = match den top x with Some b => Some b | None => den bottom x end.
Proof.
  intros Ht Hb. rewrite (den_layer_over _ _ _ _ 0 MAX_OFFSET) by done.
  destruct (den top x) as [b|] eqn:E1.
  - pose proof (den_range _ _ _ _ _ Ht E1). zcases.
  - destruct (den bottom x) as [b|] eqn:E2; [pose proof (den_range _ _ _ _ _ Hb E2)|]; zcases.
Qed.

Lemma den_stack level ps x : Forall index_valid ps -> 0 <= level -> level + Z.of_nat (length ps) <= 256 ->
  den (stack level (mapping <$> ps)) x = topmost level ps x.
Proof.
  intros Hps. revert level. induction Hps as [|p ps Hp Hps IH]; intros level Hl Hn; simpl in *; [done|].
  rewrite den_over, den_with_tag, IH by
    (lia || (apply retag_chain_tag; [lia|done]) || (apply stack_chain; [by apply Forall_fmap|lia|rewrite length_fmap; lia])).
  by destruct (den (mapping p) x).
Qed.

(** What a lookup of [s] with room for [n] returns for an index that denotes [D]. *)
Record looked_up (D : Z -> option block) (s : Segment) (n : nat) (pm : list SegmentMapping) : Prop := {
  lk_chain : chain (offset s) pm (end_ s);
  lk_length : (length pm <= n)%nat;
  lk_den x : offset s <= x < (if (length pm <? n)%nat then end_ s else end_of (offset s) pm) -> den pm x = D x
}.

Lemma lookup_covers {I} `{MemoryIndexLaws I} (idx : I) s n : valid_index idx -> seg_ok s -> (0 < n)%nat ->
  exists pm, lookup_ idx s n = Some pm /\ looked_up (den (view idx)) s n pm.
Proof.
  intros Hi Hs Hn. eexists. split; [by apply lookup_view|].
  assert (offset s <= end_ s) as Hse by (unfold seg_ok, end_ in *; lia).
  pose proof (clip_chain (offset s) (end_ s) _ _ _ (view_chain idx Hi) Hse) as Hc.
  set (L := clip (offset s) (end_ s) (view idx)) in *.
  assert (forall x, offset s <= x < end_ s -> den L x = den (view idx) x) as HL.
  { intros x Hx. unfold L. rewrite den_clip. zcases. }
  split; [by apply chain_take|rewrite length_take; lia|]. intros x Hx. rewrite length_take in Hx.
  destruct (Nat.ltb_spec (n `min` length L) n).
  - rewrite take_ge by lia. by apply HL.
  - pose proof (chain_take n _ _ _ Hc) as Hct. destruct (end_of_chain _ _ _ Hct) as [Hce Hle].
    rewrite <- HL by lia. rewrite <- (take_drop n L) at 2. rewrite den_app.
    destruct (den (take n L) x) as [b|] eqn:Hb; [done|].
    pose proof Hc as Hc'. rewrite <- (take_drop n L) in Hc'. apply chain_app in Hc' as (mid & Hc1 & Hc2).
    pose proof (proj2 (end_of_chain _ _ _ Hc1)). symmetry. apply (den_outside _ _ _ x Hc2). lia.
Qed.

(** C15: An [Index0] built by any sequence of insertions of well-formed mappings
    never hits an assertion, stays sorted and disjoint, and holds for every block
    the mapping inserted last; the block count is exactly the number of blocks
    that are not zeroed. *)
Theorem insert_last_wins l i : index0_valid i -> Forall wf l ->
  exists i', insert_all l i = Some i' /\ chain 0 (mapping0 i') MAX_OFFSET /\ m_alloc i' = data_blocks (mapping0 i') /\
    forall x, den (mapping0 i') x = match den (reverse l) x with Some b => Some b | None => den (mapping0 i) x end.
Proof.
  intros Hi Hl. destruct (insert_all_valid l i Hi Hl) as (i' & Hrun & [Hc Ha] & Hden). by exists i'.
Qed.

(** A lookup in a set, in a read-only array, or in a set over an array
    returns, in order and without overlaps, the parts of the index that lie in
    the segment, trimmed to it: all of them when there is room, and otherwise the
    first [n]; every block up to the end of the answer is answered exactly. *)
Theorem lookup_answers (i0 : Index0) (i : Index) (c : ComboIndex) s n :
  index0_valid i0 -> index_valid i -> combo_valid c -> seg_ok s -> (0 < n)%nat ->
  (exists pm, lookup_ i0 s n = Some pm /\ looked_up (den (mapping0 i0)) s n pm) /\
  (exists pm, lookup_ i s n = Some pm /\ looked_up (den (mapping i)) s n pm) /\
  (exists pm, lookup_ c s n = Some pm /\
     looked_up (fun x => match den (mapping0 (front c)) x with
                         | Some b => Some b
                         | None => backing ← m_backing_index c; den (mapping backing) x
                         end) s n pm).
Proof.
  intros H0 Hi Hc Hs Hn.
  split_and!; [exact (lookup_covers i0 s n H0 Hs Hn)|exact (lookup_covers i s n Hi Hs Hn)|].
  pose proof (lookup_covers (I := ComboIndex) c s n) as Hcov. cbn [valid_index view ComboIndex_laws] in Hcov.
  destruct (Hcov Hc Hs Hn) as (pm & Hrun & [L1 L2 L3]). exists pm. split; [done|]. split; [done|done|].
  intros x Hx. rewrite (L3 x Hx). destruct Hc as (Hf & _ & Hb). simpl. unfold combo_view.
  destruct (m_backing_index c) as [b|]; simpl; [|by destruct (den _ x)].
  by rewrite den_over by (done || by apply (Hb b)).
Qed.

(** C38: The index with page levels answers every lookup as the plain array of the
    same mappings does; both are created, or refused, together. *)
Theorem level_index_equiv l moffset_begin moffset_end : Forall wf l -> Z.of_nat (length l) < 2 ^ 31 - 512 ->
  match create_memory_index l moffset_begin moffset_end 0, create_level_index l moffset_begin moffset_end with
  | Some i, Some li => forall s n, lookup_ li s n = lookup_ i s n
  | None, None => True
  | _, _ => False
  end.
Proof.
  intros Hw Hlen. unfold create_memory_index, create_level_index.
  destruct (verify_mapping_order l && _) eqn:Hv; [|done]. apply andb_true_iff in Hv as [Hv _].
  apply (order_chain l Hw) in Hv. intros s n. apply level_lookup_eq. by split_and!.
Qed.

Lemma merge_run ps : Forall index_valid ps -> (1 <= length ps <= 255)%nat ->
  exists i, merge_memory_indexes ps = Some (Some i) /\ index_valid i /\ alloc_blk i = data_blocks (mapping i) /\
    forall x, den (mapping i) x = topmost 0 ps x.
Proof.
  intros Hps Hn. unfold merge_memory_indexes. destruct (Nat.ltb_spec 255 (length ps)); [lia|].
  destruct ps as [|p ps]; [simpl in Hn; lia|].
  assert (chain 0 (stack 0 (mapping <$> p :: ps)) MAX_OFFSET) as Hc.
  { apply stack_chain; [by apply Forall_fmap|lia|rewrite length_fmap; lia]. }
  rewrite merge_indexes_spec by (done || unfold merge_fuel, MAX_OFFSET; lia).
  rewrite (clip_id _ _ _ _ _ Hc) by (unfold UINT64_MAX, MAX_OFFSET; lia). eexists. split; [done|].
  split; [done|]. split; [by apply alloc_exact|]. intros x. apply den_stack; (done || lia).
Qed.

(** C19: Merging up to 255 layers gives an index that is sorted and disjoint and
    holds for every block what the topmost layer that maps it holds, tagged with
    the number of that layer; its block count is exact. *)
Theorem merge_layers ps : Forall index_valid ps -> (1 <= length ps <= 255)%nat ->
  exists i, merge_memory_indexes ps = Some (Some i) /\ index_valid i /\ alloc_blk i = data_blocks (mapping i) /\
    forall x, den (mapping i) x = topmost 0 ps x.
Proof. apply merge_run. Qed.

Lemma combo_insert_valid c m : combo_valid c -> wf m ->
  exists c', ComboIndex_insert m c = Some c' /\ combo_valid c' /\ m_backing_index c' = m_backing_index c /\
    mapping0 (front c') = inserted m (mapping0 (front c)) /\
    forall x, den (combo_view c') x = if in_seg m x then Some (block_at m x) else den (combo_view c) x.
Proof.
  intros (Hc & Hal & Hb) Hm. destruct c as [[l al] i0 backing]. simpl in *. unfold ComboIndex_insert. simpl.
  rewrite insert_run by done. simpl. eexists. split; [done|].
  pose proof (inserted_chain _ _ Hm Hc) as Hc'. fold (inserted m l) in Hc'.
  split; [split_and!; [done|by apply u64_u64|done]|]. split; [done|]. split; [done|]. intros x. unfold combo_view.
  cbn [m_backing_index front mapping0]. destruct backing as [b|]; [|by apply den_inserted].
  pose proof (Hb b eq_refl). rewrite !den_over by done. rewrite den_inserted by done. by destruct (in_seg m x).
Qed.

Lemma combo_read_only c : combo_valid c -> exists i, ComboIndex_make_read_only_index c = Some i /\ mapping i = combo_view c /\
  alloc_blk i = data_blocks (mapping i).
Proof.
  intros (Hch & Hal & Hb).
  unfold combo_view, ComboIndex_make_read_only_index. destruct c as [[l al] i0 [b|]]; cbn [front m_backing_index mapping0 m_alloc m_index0] in *.
  - pose proof (Hb b eq_refl) as Hbv. rewrite merge_keep_two by (done || unfold merge_fuel; lia). cbn [mbind option_bind].
    eexists. split; [done|]. split; [done|]. apply alloc_exact. eapply layer_over_chain; done.
  - eexists. split; [done|]. split; [done|]. by apply alloc_exact.
Qed.

(** C40: Insertions into a combination override what it held and leave the other
    blocks, and its read-only copy is a plain index with the same contents. *)
Theorem combo_operations c m : combo_valid c -> wf m ->
  exists c', ComboIndex_insert m c = Some c' /\ combo_valid c' /\
    (forall x, den (combo_view c') x = if in_seg m x then Some (block_at m x) else den (combo_view c) x) /\
    exists i, ComboIndex_make_read_only_index c' = Some i /\ mapping i = combo_view c' /\
      alloc_blk i = data_blocks (mapping i).
Proof.
  intros Hc Hm. destruct (combo_insert_valid c m Hc Hm) as (c' & Hrun & Hc' & _ & _ & Hden).
  exists c'. split; [done|]. split; [done|]. split; [done|]. by apply combo_read_only.
Qed.

Lemma compress_run l : chain 0 l MAX_OFFSET -> compressed 0 MAX_OFFSET l (compress_raw_index l).
Proof.
  intros Hc. destruct l as [|m [|m2 l]]; [split; done|split; done|]. by apply compress_loop_spec.
Qed.

(** Compressing a raw index keeps it sorted and disjoint and what it holds
    for every block, and leaves no two neighbours that could be joined. *)
Theorem compress_preserves l : chain 0 l MAX_OFFSET -> compressed 0 MAX_OFFSET l (compress_raw_index l).
Proof. apply compress_run. Qed.

(** The array of an index file is accepted exactly when it is sorted without
    overlaps and every mapped offset is in the data area. *)
Theorem create_memory_index_checks l moffset_begin moffset_end vsize : Forall wf l ->
  match create_memory_index l moffset_begin moffset_end vsize with
  | Some i => index_valid i /\ mapping i = l /\ virtual_size i = vsize /\
      Forall (fun m => moffset_begin <= moffset m /\ mend m <= moffset_end) l
  | None => ~ chain 0 l MAX_OFFSET \/
      Exists (fun m => moffset m < moffset_begin \/ moffset_end < mend m \/ (zeroed m = false /\ mend m <= moffset_begin)) l
  end.
Proof.
  intros Hw. unfold create_memory_index. destruct (verify_mapping_order l && _) eqn:Hv.
  - apply andb_true_iff in Hv as [Hv Hm]. split; [by apply (order_chain l Hw)|]. split_and!; [done|done|].
    apply Forall_forall. intros m Hin. unfold verify_mapping_moffset in Hm. rewrite forallb_forall in Hm.
    specialize (Hm m ltac:(by apply list_elem_of_In)). unfold within, mend in *.
    destruct (zeroed m); rewrite !andb_true_iff, ?Z.leb_le, ?Z.ltb_lt in Hm; lia.
  - apply andb_false_iff in Hv as [Hv|Hm].
    + left. intros Hc. apply (order_chain l Hw) in Hc. congruence.
    + right. apply Exists_exists. unfold verify_mapping_moffset in Hm.
      apply not_true_iff_false in Hm. rewrite forallb_forall in Hm.
      destruct (decide (Forall (fun m => within (moffset m) (mend m) moffset_begin moffset_end (zeroed m) = true) l)) as [Hf|Hf].
      { exfalso. apply Hm. intros m Hin. rewrite Forall_forall in Hf. apply Hf. by apply list_elem_of_In. }
      apply not_Forall_Exists in Hf; [|apply _]. apply Exists_exists in Hf as (m & Hin & Hm'). exists m. split; [done|].
      simpl in Hm'. apply not_true_iff_false in Hm'. rewrite Forall_forall in Hw. specialize (Hw m Hin). unfold wf, within, mend in *.
      destruct (zeroed m); rewrite !andb_false_iff, ?Z.leb_gt, ?Z.ltb_ge in Hm'; lia.
Qed.

(** C39: [foreach_segments] calls the data callback once for every mapped part of
    the range and the zero callback for every hole and every zeroed part, in
    order and covering the whole range, until a callback fails; the lookups in
    batches of 16 are not visible, and the loop ends. *)
Theorem foreach_visits {S} (cb_zero : Segment -> M S Z) (cb_data : SegmentMapping -> M S Z) (c : ComboIndex) s st :
  combo_valid c -> seg_ok s ->
  foreach_segments cb_zero cb_data c s st =
  visit_range cb_zero cb_data (offset s) (end_ s) (clip (offset s) (end_ s) (combo_view c)) st.
Proof.
  intros Hc Hs. pose proof (foreach_loop_run (I := ComboIndex) cb_zero cb_data) as Hrun.
  apply Hrun; [done|done|]. unfold seg_ok in Hs. lia.
Qed.

(** The constructor of the combination does not take over the block count:
    after a combination over one data block discards that block, its block count
    has wrapped around. *)
Theorem combo_block_count_wraps : exists i0 c c',
  insert (mkMapping (mkSegment 0 1) 8 false 0) Index0_empty = Some i0 /\
  create_combo_index (Some i0) (Some (Index_over [] 0)) 1 = Some c /\
  ComboIndex_insert (mkMapping (mkSegment 0 1) 9 true 1) c = Some c' /\
  data_blocks (mapping0 (front c')) = 0 /\ m_alloc (front c') = 2 ^ 64 - 1.
Proof.
  eexists _, _, _. split; [vm_compute; reflexivity|]. split; [vm_compute; reflexivity|].
  split; [vm_compute; reflexivity|]. split; reflexivity.
Qed.

(** ** Concrete instances *)

Definition wit_maps : list SegmentMapping :=
  [mkMapping (mkSegment 0 8) 100 false 0; mkMapping (mkSegment 12 4) 200 false 0; mkMapping (mkSegment 20 10) 0 true 0].
Definition wit_index : Index := Index_over wit_maps 4096.
Definition wit_index0 : Index0 := mkIndex0 [mkMapping (mkSegment 4 10) 300 false 1] 10.
Definition wit_combo : ComboIndex := mkCombo wit_index0 wit_index0 (Some wit_index).

Lemma wf_check (m : SegmentMapping) : bool_decide (0 <= offset m /\ 0 < seg_length m <= MAX_LENGTH /\ end_ m <= MAX_OFFSET /\
  0 <= moffset m /\ mend m < 2 ^ 55 /\ 0 <= tag m < 256) = true -> wf m.
Proof. intros H%bool_decide_eq_true_1. exact H. Qed.

Lemma wit_index_valid : index_valid wit_index.
Proof. repeat (split; [done|]; split; [apply wf_check; vm_compute; reflexivity|]). done. Qed.
Lemma wit_index0_valid : index0_valid wit_index0.
Proof. split; [|done]. split; [done|]. split; [apply wf_check; vm_compute; reflexivity|done]. Qed.
Lemma wit_combo_valid : combo_valid wit_combo.
Proof. split; [apply wit_index0_valid|]. split; [done|]. intros b [= <-]. apply wit_index_valid. Qed.
Lemma wit_maps_wf : Forall wf wit_maps.
Proof. repeat constructor; vm_compute; done. Qed.

Lemma insert_last_wins_witness : exists i', insert_all wit_maps wit_index0 = Some i' /\ m_alloc i' = 16 /\
  den (mapping0 i') 13 = Some (Data 0 201) /\ den (mapping0 i') 10 = Some (Data 1 306).
Proof.
  destruct (insert_last_wins wit_maps wit_index0 wit_index0_valid wit_maps_wf) as (i' & Hrun & Hc & Ha & Hden).
  exists i'. split; [exact Hrun|]. rewrite !Hden. split_and!; [|reflexivity|reflexivity].
  assert (m_alloc i' = default 0 (m_alloc <$> insert_all wit_maps wit_index0)) as -> by (by rewrite Hrun).
  vm_compute. reflexivity.
Defined.

Lemma lookup_answers_witness : exists pm, lookup_ wit_combo (mkSegment 2 20) 16 = Some pm /\
  den pm 3 = Some (Data 0 103) /\ den pm 5 = Some (Data 1 301) /\ den pm 18 = None.
Proof.
  destruct (lookup_answers wit_index0 wit_index wit_combo (mkSegment 2 20) 16 wit_index0_valid wit_index_valid wit_combo_valid)
    as (_ & _ & pm & Hrun & _); [vm_compute; done|lia|]. exists pm. split; [exact Hrun|]. vm_compute in Hrun.
  injection Hrun as <-. vm_compute. done.
Defined.

Lemma level_index_equiv_witness : exists i li, create_memory_index wit_maps 0 1000 0 = Some i /\
  create_level_index wit_maps 0 1000 = Some li /\ lookup_ li (mkSegment 5 10) 16 = lookup_ i (mkSegment 5 10) 16.
Proof.
  pose proof (level_index_equiv wit_maps 0 1000 wit_maps_wf ltac:(vm_compute; reflexivity)) as H.
  assert (create_memory_index wit_maps 0 1000 0 <> None) as H1 by (vm_compute; discriminate).
  assert (create_level_index wit_maps 0 1000 <> None) as H2 by (vm_compute; discriminate).
  destruct (create_memory_index wit_maps 0 1000 0) as [i|], (create_level_index wit_maps 0 1000) as [li|]; try done.
  exists i, li. split_and!; [done|done|apply H].
Defined.

Lemma merge_layers_witness : exists i, merge_memory_indexes [Index_over (mapping0 wit_index0) 0; wit_index] = Some (Some i) /\
  den (mapping i) 10 = Some (Data 0 306) /\ den (mapping i) 15 = Some (Data 1 203).
Proof.
  destruct (merge_layers [Index_over (mapping0 wit_index0) 0; wit_index]) as (i & Hrun & _ & _ & Hden).
  - constructor; [apply wit_index0_valid|]. constructor; [apply wit_index_valid|constructor].
  - simpl. lia.
  - exists i. split; [exact Hrun|]. rewrite !Hden. done.
Defined.

Lemma combo_operations_witness : exists c', ComboIndex_insert (mkMapping (mkSegment 6 2) 400 false 1) wit_combo = Some c' /\
  den (combo_view c') 7 = Some (Data 1 401) /\ den (combo_view c') 13 = Some (Data 1 309).
Proof.
  destruct (combo_operations wit_combo (mkMapping (mkSegment 6 2) 400 false 1) wit_combo_valid) as (c' & Hrun & _ & Hden & _).
  - apply wf_check. vm_compute. reflexivity.
  - exists c'. split; [exact Hrun|]. rewrite !Hden. done.
Defined.

Lemma compress_preserves_witness : compressed 0 MAX_OFFSET
  [mkMapping (mkSegment 0 8) 100 false 0; mkMapping (mkSegment 8 4) 108 false 0] [mkMapping (mkSegment 0 12) 100 false 0].
Proof.
  apply (compress_preserves [mkMapping (mkSegment 0 8) 100 false 0; mkMapping (mkSegment 8 4) 108 false 0]).
  split; [done|]. split; [apply wf_check; vm_compute; reflexivity|]. split; [done|].
  split; [apply wf_check; vm_compute; reflexivity|done].
Defined.

Lemma create_memory_index_checks_witness : exists i, create_memory_index wit_maps 0 1000 4096 = Some i /\ index_valid i.
Proof.
  pose proof (create_memory_index_checks wit_maps 0 1000 4096 wit_maps_wf) as H.
  assert (create_memory_index wit_maps 0 1000 4096 = Some wit_index) as Hc by reflexivity.
  rewrite Hc in H. exists wit_index. split; [exact Hc|apply H].
Defined.

Lemma foreach_visits_witness :
  foreach_segments (fun s log => Some (0, log ++ [(offset s, seg_length s, 0)]))
    (fun m log => Some (0, log ++ [(offset m, seg_length m, moffset m)])) wit_combo (mkSegment 2 20) [] =
  Some (0, [(2, 2, 102); (4, 10, 300); (14, 2, 202); (16, 4, 0); (20, 2, 0)]).
Proof.
  rewrite foreach_visits; [vm_compute; reflexivity|apply wit_combo_valid|vm_compute; done].
Defined.
