(* ===== verification/Files.v ===== *)
(** Files: the interface of photon's file objects that the images and the
    compressed files use, and the bytes in them.

    The files belong to the library photon, which is not part of the sources:
    [IFiles] is their interface, and [IFilesLaws] what POSIX files promise.  The
    state of the files is the type [W]. *)

From S2P Require Import Prelude.

(** The value of an [off_t]. *)
Definition s64 (x : Z) : Z := let y := x mod 2 ^ 64 in if y <? 2 ^ 63 then y else y - 2 ^ 64.

Definition zeros (n : Z) : list Z := replicate (Z.to_nat n) 0.
Definition len (l : list Z) : Z := Z.of_nat (length l).

Lemma s64_small x : 0 <= x < 2 ^ 63 -> s64 x = x.
Proof. intros Hx. unfold s64. rewrite Z.mod_small by lia. destruct (Z.ltb_spec x (2 ^ 63)); lia. Qed.

(** ** Bytes of integers *)

(** Little endian. *)
Fixpoint le_bytes (n : nat) (x : Z) : list Z :=
  match n with
  | O => []
  | S n => x mod 2 ^ 8 :: le_bytes n (x / 2 ^ 8)
  end.
Fixpoint le_value (l : list Z) : Z :=
  match l with
  | [] => 0
  | b :: l => b + 2 ^ 8 * le_value l
  end.

Lemma length_le_bytes n x : length (le_bytes n x) = n.
Proof. revert x. induction n as [|n IH]; intros x; simpl; [done|]. by rewrite IH. Qed.

Lemma le_value_bytes n x : 0 <= x -> le_value (le_bytes n x) = x mod 2 ^ (8 * Z.of_nat n).
Proof.
  revert x. induction n as [|n IH]; intros x Hx; cbn [le_bytes le_value]; [by rewrite Z.mod_1_r|].
  rewrite IH by (apply Z.div_pos; lia). replace (8 * Z.of_nat (S n)) with (8 + 8 * Z.of_nat n) by lia.
  rewrite Z.pow_add_r by lia. assert (0 < 2 ^ (8 * Z.of_nat n)) by (apply Z.pow_pos_nonneg; lia).
  by rewrite Z.rem_mul_r by lia.
Qed.

(** ** The underlying files *)

(** [pread], [pwrite], [write] at the position of the file, [lseek] to the end, and
    [fstat] with [st_size]; a read gives the bytes it stored. *)
Class IFiles (W : Type) := {
  f_pread : Z -> Z -> Z -> M W (Z * list Z);
  f_pwrite : Z -> list Z -> Z -> M W Z;
  f_write : Z -> list Z -> M W Z;
  f_lseek_end : Z -> M W Z;
  f_fstat : Z -> M W (Z * Z)
}.

Definition splice (pos : Z) (data c : list Z) : list Z :=
  take (Z.to_nat pos) (c ++ zeros (pos - len c)) ++ data ++ drop (Z.to_nat (pos + len data)) c.

(** A file is its bytes and a position.  A read is short only at the end of the
    file; a write goes to the given place or to the position; other files do not
    change. *)
Class IFilesLaws (W : Type) `{IFiles W} := {
  contents : W -> Z -> list Z;
  position : W -> Z -> Z;
  contents_size w f : len (contents w f) < 2 ^ 63;
  pread_law w f n off : 0 <= n -> 0 <= off ->
    exists data, data = take (Z.to_nat n) (drop (Z.to_nat off) (contents w f)) /\
      f_pread f n off w = Some ((len data, data), w);
  write_law w f data : 0 <= position w f <= len (contents w f) -> position w f + len data < 2 ^ 63 ->
    exists w', f_write f data w = Some (len data, w') /\
      contents w' f = splice (position w f) data (contents w f) /\ position w' f = position w f + len data /\
      forall g, g <> f -> contents w' g = contents w g /\ position w' g = position w g;
  pwrite_law w f data off : 0 <= off -> off + len data <= len (contents w f) ->
    exists w', f_pwrite f data off w = Some (len data, w') /\
      contents w' f = splice off data (contents w f) /\ (forall g, g <> f -> contents w' g = contents w g) /\
      forall g, position w' g = position w g;
  lseek_law w f : exists w', f_lseek_end f w = Some (len (contents w f), w') /\
    (forall g, contents w' g = contents w g) /\ position w' f = len (contents w f) /\
    forall g, g <> f -> position w' g = position w g;
  fstat_law w f : f_fstat f w = Some ((0, len (contents w f)), w)
}.

(** Writing at the end appends. *)
Lemma append_law {W} `{IFilesLaws W} w f data : len (contents w f) + len data < 2 ^ 63 ->
  exists w1 w2, f_lseek_end f w = Some (len (contents w f), w1) /\ (forall g, contents w1 g = contents w g) /\
    f_write f data w1 = Some (len data, w2) /\ contents w2 f = contents w f ++ data /\
    (forall g, g <> f -> contents w2 g = contents w g).
Proof.
  intros Hl. destruct (lseek_law w f) as (w1 & Hs & Hc & Hp & _).
  destruct (write_law w1 f data) as (w2 & Hw & Hcf & _ & Ho); [unfold len in *; rewrite Hc, Hp; lia|rewrite Hp; lia|].
  exists w1, w2. split; [done|]. split; [done|]. split; [done|]. split; [|intros g Hg; rewrite <- Hc; by apply Ho].
  rewrite Hcf, Hp, Hc. unfold splice, zeros, len. rewrite Z.sub_diag. simpl. rewrite app_nil_r.
  rewrite take_ge by lia. rewrite (drop_ge _ (Z.to_nat _)) by lia. by rewrite app_nil_r.
Qed.

(** Writing at the position when it is the end. *)
Lemma write_end {W} `{IFilesLaws W} w f data : position w f = len (contents w f) -> len (contents w f) + len data < 2 ^ 63 ->
  exists w', f_write f data w = Some (len data, w') /\ contents w' f = contents w f ++ data /\
    position w' f = len (contents w' f) /\ forall g, g <> f -> contents w' g = contents w g /\ position w' g = position w g.
Proof.
  intros Hp Hl. assert (0 <= len (contents w f)) by (unfold len; lia).
  destruct (write_law w f data) as (w' & Hw & Hc & Hp' & Ho); [lia|lia|].
  assert (contents w' f = contents w f ++ data) as Hcf.
  { rewrite Hc, Hp. unfold splice, zeros, len. rewrite Z.sub_diag. simpl. rewrite app_nil_r.
    rewrite take_ge by lia. rewrite (drop_ge _ (Z.to_nat _)) by lia. by rewrite app_nil_r. }
  exists w'. split; [done|]. split; [done|]. split; [|done]. rewrite Hp', Hcf, Hp. unfold len. rewrite length_app. lia.
Qed.

(** [read] at the position of the file, and [fallocate]. *)
Class IStreamFiles (W : Type) := {
  f_read : Z -> Z -> M W (Z * list Z);
  f_fallocate : Z -> Z -> Z -> Z -> M W Z
}.

(** A read is short only at the end of the file. *)
Class IStreamLaws (W : Type) `{IFilesLaws W} `{IStreamFiles W} := {
  read_law w f n : 0 <= n -> 0 <= position w f ->
    exists data w', data = take (Z.to_nat n) (drop (Z.to_nat (position w f)) (contents w f)) /\
      f_read f n w = Some ((len data, data), w') /\ position w' f = position w f + len data /\
      (forall g, contents w' g = contents w g) /\ forall g, g <> f -> position w' g = position w g
}.

(** [lseek] with [SEEK_DATA] and [SEEK_HOLE] (the result and [errno]),
    [ftruncate] and [trim]. *)
Class ISparseFiles (W : Type) := {
  f_seek_data : Z -> Z -> M W (Z * Z);
  f_seek_hole : Z -> Z -> M W (Z * Z);
  f_ftruncate : Z -> Z -> M W Z;
  f_trim : Z -> Z -> Z -> M W Z
}.
Definition ENXIO : Z := 6.

(** ** Byte lists *)

Lemma len_app a b : len (a ++ b) = len a + len b.
Proof. unfold len. rewrite length_app. lia. Qed.
Lemma len_nonneg a : 0 <= len a.
Proof. unfold len. lia. Qed.
Lemma len_zeros n : 0 <= n -> len (zeros n) = n.
Proof. intros Hn. unfold len, zeros. rewrite length_replicate. lia. Qed.
Lemma zeros_app a b : 0 <= a -> 0 <= b -> zeros (a + b) = zeros a ++ zeros b.
Proof. intros Ha Hb. unfold zeros. by rewrite Z2Nat.inj_add, replicate_add by lia. Qed.
Lemma len_take n l : 0 <= n <= len l -> len (take (Z.to_nat n) l) = n.
Proof. unfold len. rewrite length_take. lia. Qed.
Lemma len_drop n l : 0 <= n <= len l -> len (drop (Z.to_nat n) l) = len l - n.
Proof. unfold len. rewrite length_drop. lia. Qed.

Lemma splice_in pos data c : 0 <= pos -> pos + len data <= len c ->
  splice pos data c = take (Z.to_nat pos) c ++ data ++ drop (Z.to_nat (pos + len data)) c.
Proof.
  intros Hp Hl. pose proof (len_nonneg data). unfold splice.
  assert (zeros (pos - len c) = []) as -> by (unfold zeros; by rewrite Z2Nat.nonpos by lia). by rewrite app_nil_r.
Qed.

Lemma len_splice pos data c : 0 <= pos -> pos + len data <= len c -> len (splice pos data c) = len c.
Proof.
  intros Hp Hl. pose proof (len_nonneg data). rewrite splice_in by done. rewrite !len_app, len_take, len_drop by lia. lia.
Qed.

Lemma splice_nil pos c : 0 <= pos <= len c -> splice pos [] c = c.
Proof.
  intros Hp. rewrite splice_in by (unfold len in *; simpl; lia). unfold len at 1. simpl. rewrite Z.add_0_r.
  apply take_drop.
Qed.

Lemma splice_0 data c : splice 0 data c = data ++ drop (length data) c.
Proof. unfold splice. cbn [take Z.to_nat]. rewrite Z.add_0_l. unfold len. by rewrite Nat2Z.id. Qed.

Lemma splice_app pos d1 d2 c : 0 <= pos -> pos + len d1 + len d2 <= len c ->
  splice (pos + len d1) d2 (splice pos d1 c) = splice pos (d1 ++ d2) c.
Proof.
  intros Hp Hl. pose proof (len_nonneg d1). pose proof (len_nonneg d2).
  rewrite (splice_in (pos + len d1)), !(splice_in pos) by (rewrite ?len_splice, ?len_app by lia; lia).
  rewrite len_app. unfold len in *. set (p := Z.to_nat pos).
  replace (Z.to_nat (pos + Z.of_nat (length d1))) with (p + length d1)%nat by lia.
  replace (Z.to_nat (pos + Z.of_nat (length d1) + Z.of_nat (length d2))) with (p + (length d1 + length d2))%nat by lia.
  replace (Z.to_nat (pos + (Z.of_nat (length d1) + Z.of_nat (length d2)))) with (p + (length d1 + length d2))%nat by lia.
  assert (length (take p c) = p) as Hlp by (rewrite length_take; lia).
  rewrite (take_app_add' (take p c)), (drop_app_add' (take p c)) by done.
  rewrite take_app_length, drop_app_add, drop_drop, <- !app_assoc. f_equal. f_equal. f_equal. f_equal. lia.
Qed.

(** The bytes of a file from [off], with zeros behind its end. *)
Definition bytes_at (c : list Z) (off n : Z) : list Z := (fun i => nth (Z.to_nat i) c 0) <$> seqZ off n.

Lemma len_bytes_at c off n : 0 <= n -> len (bytes_at c off n) = n.
Proof. intros Hn. unfold bytes_at, len. rewrite length_fmap, length_seqZ. lia. Qed.

Lemma bytes_at_app c off n m : 0 <= n -> 0 <= m -> bytes_at c off (n + m) = bytes_at c off n ++ bytes_at c (off + n) m.
Proof. intros Hn Hm. unfold bytes_at. by rewrite seqZ_app, fmap_app by lia. Qed.

Lemma bytes_at_lookup c off n i : 0 <= i < n -> bytes_at c off n !! Z.to_nat i = Some (nth (Z.to_nat (off + i)) c 0).
Proof.
  intros Hi. unfold bytes_at. rewrite list_lookup_fmap, lookup_seqZ_lt by lia. simpl. by rewrite Z2Nat.id by lia.
Qed.

Lemma bytes_at_eq l c off n : len l = n -> (forall i, 0 <= i < n -> nth (Z.to_nat i) l 0 = nth (Z.to_nat (off + i)) c 0) ->
  l = bytes_at c off n.
Proof.
  intros Hl Hi. apply list_eq_same_length with (n := Z.to_nat n).
  - unfold bytes_at. by rewrite length_fmap, length_seqZ.
  - unfold len in Hl. lia.
  - intros i x y Hlt Hx Hy. specialize (Hi (Z.of_nat i) ltac:(lia)). rewrite Nat2Z.id in Hi.
    rewrite <- (Nat2Z.id i), bytes_at_lookup in Hy by lia. injection Hy as <-. rewrite <- Hi.
    symmetry. by apply nth_lookup_Some.
Qed.

(** A read, filled up with zeros. *)
Lemma padded_read c off n : 0 <= off -> 0 <= n ->
  let data := take (Z.to_nat n) (drop (Z.to_nat off) c) in data ++ zeros (n - len data) = bytes_at c off n.
Proof.
  intros Ho Hn data. assert (len data <= n) as Hd by (unfold data, len; rewrite length_take; lia).
  apply bytes_at_eq; [rewrite len_app, len_zeros; lia|]. intros i Hi.
  destruct (decide (i < len data)) as [Hlt|Hge].
  - rewrite app_nth1 by (unfold len in Hlt; lia). unfold data.
    assert (Z.to_nat i < length (drop (Z.to_nat off) c))%nat as Hld.
    { unfold data, len in Hlt. rewrite length_take in Hlt. lia. }
    rewrite <- (take_drop (Z.to_nat n) (drop (Z.to_nat off) c)) in Hld.
    assert (nth (Z.to_nat i) (take (Z.to_nat n) (drop (Z.to_nat off) c)) 0 = nth (Z.to_nat i) (drop (Z.to_nat off) c) 0) as ->.
    { rewrite <- (take_drop (Z.to_nat n) (drop (Z.to_nat off) c)) at 2.
      rewrite app_nth1; [done|]. rewrite length_take. unfold data, len in Hlt. rewrite length_take in Hlt. lia. }
    rewrite !nth_lookup, lookup_drop. do 2 f_equal. lia.
  - rewrite app_nth2 by (unfold len in Hge; lia).
    assert (length c <= Z.to_nat (off + i))%nat as Hc.
    { unfold data, len in Hge. rewrite length_take, length_drop in Hge. lia. }
    rewrite (nth_overflow c) by done. unfold zeros. destruct (nth_in_or_default (Z.to_nat i - length data) (replicate (Z.to_nat (n - len data)) 0) 0) as [Hin|Heq]; [|done].
    apply list_elem_of_In, elem_of_replicate in Hin. tauto.
Qed.

Lemma bytes_at_prefix c c' off n : 0 <= off -> off + n <= len c -> bytes_at (c ++ c') off n = bytes_at c off n.
Proof.
  intros Ho Hn. unfold bytes_at. apply list_fmap_ext. intros i x Hx. apply lookup_seqZ in Hx as [-> Hi].
  apply app_nth1. unfold len in Hn. lia.
Qed.

(** Appended bytes are where the file ended. *)
Lemma bytes_at_appended c d n : 0 <= n <= len d -> bytes_at (c ++ d) (len c) n = take (Z.to_nat n) d.
Proof.
  intros Hn. symmetry. apply bytes_at_eq; [by apply len_take|]. intros i Hi.
  rewrite app_nth2 by (unfold len; lia). replace (Z.to_nat (len c + i) - length c)%nat with (Z.to_nat i) by (unfold len; lia).
  rewrite <- (take_drop (Z.to_nat n) d) at 2. rewrite app_nth1; [done|]. rewrite length_take. unfold len in Hn. lia.
Qed.

(** ** Concatenations *)

Lemma mjoin_cons (d : list Z) ds : mjoin (d :: ds) = d ++ mjoin ds.
Proof. done. Qed.
Lemma len_mjoin_cons (d : list Z) ds : len (mjoin (d :: ds)) = len d + len (mjoin ds).
Proof. apply len_app. Qed.
Lemma mjoin_app (a b : list (list Z)) : mjoin (a ++ b) = mjoin a ++ mjoin b.
Proof. induction a as [|d a IH]; [done|]. change ((d :: a) ++ b) with (d :: (a ++ b)). by rewrite !mjoin_cons, IH, app_assoc. Qed.

Lemma mjoin_snoc (a : list (list Z)) d : mjoin (a ++ [d]) = mjoin a ++ d.
Proof. rewrite mjoin_app. unfold mjoin at 2, list_join. by rewrite app_nil_r. Qed.

(** Where the [k]th part of a concatenation starts. *)
Definition starts (ls : list (list Z)) (k : nat) : Z := len (mjoin (take k ls)).

Lemma starts_0 ls : starts ls 0 = 0.
Proof. done. Qed.
Lemma starts_S ls k d : ls !! k = Some d -> starts ls (S k) = starts ls k + len d.
Proof. intros Hd. unfold starts. rewrite (take_S_r _ _ _ Hd), mjoin_app, len_app. f_equal. unfold mjoin, list_join. by rewrite app_nil_r. Qed.
Lemma starts_all ls k : (length ls <= k)%nat -> starts ls k = len (mjoin ls).
Proof. intros Hk. unfold starts. by rewrite take_ge. Qed.
Lemma starts_mono ls i j : (i <= j)%nat -> starts ls i <= starts ls j.
Proof.
  intros Hij. unfold starts. replace j with (i + (j - i))%nat by lia. rewrite <- take_take_drop, mjoin_app, len_app.
  pose proof (len_nonneg (mjoin (take (j - i) (drop i ls)))). lia.
Qed.
Lemma starts_le ls k : 0 <= starts ls k <= len (mjoin ls).
Proof.
  pose proof (starts_mono ls 0 k ltac:(lia)). rewrite starts_0 in *. split; [done|].
  destruct (Nat.le_gt_cases (length ls) k); [by rewrite starts_all by done|].
  rewrite <- (starts_all ls (length ls)) by done. apply starts_mono. lia.
Qed.

(** The parts from [i] to [j], cut out of the concatenation. *)
Lemma starts_range ls i j : (i <= j)%nat ->
  take (Z.to_nat (starts ls j - starts ls i)) (drop (Z.to_nat (starts ls i)) (mjoin ls)) = mjoin (take (j - i) (drop i ls)).
Proof.
  intros Hij. unfold starts, len. rewrite <- (take_drop i ls) at 4. rewrite mjoin_app, Nat2Z.id, drop_app_length.
  replace j with (i + (j - i))%nat at 1 by lia. rewrite <- take_take_drop, mjoin_app, length_app.
  replace (Z.to_nat _) with (length (mjoin (take (j - i) (drop i ls)))) by lia.
  rewrite <- (take_drop (j - i) (drop i ls)) at 2. by rewrite mjoin_app, take_app_length.
Qed.

Lemma starts_block ls k d : ls !! k = Some d -> take (length d) (drop (Z.to_nat (starts ls k)) (mjoin ls)) = d.
Proof.
  intros Hd. pose proof (starts_range ls k (S k) ltac:(lia)) as Hr. rewrite (starts_S _ _ _ Hd) in Hr.
  replace (Z.to_nat _) with (length d) in Hr by (unfold len; lia). rewrite Hr. replace (S k - k)%nat with 1%nat by lia.
  rewrite (drop_S _ _ _ Hd). cbn [take]. unfold mjoin, list_join. by rewrite app_nil_r.
Qed.

(** Every offset is in one part. *)
Lemma starts_find ls off : 0 <= off < len (mjoin ls) ->
  exists k d, ls !! k = Some d /\ starts ls k <= off < starts ls (S k).
Proof.
  induction ls as [|d ls IH] using rev_ind; [unfold len; simpl; lia|]. rewrite mjoin_app, len_app. intros Hoff.
  assert (mjoin [d] = d) as Hd by (unfold mjoin, list_join; by rewrite app_nil_r). rewrite Hd in Hoff.
  destruct (Z.lt_ge_cases off (len (mjoin ls))) as [Hlt|Hge].
  - destruct (IH ltac:(lia)) as (k & d' & Hk & Hr). exists k, d'. pose proof (lookup_lt_Some _ _ _ Hk).
    split; [by apply lookup_app_l_Some|]. unfold starts in *. by rewrite !take_app_le by lia.
  - exists (length ls), d. split; [by rewrite lookup_app_r, Nat.sub_diag by lia|].
    rewrite (starts_S _ _ d) by (by rewrite lookup_app_r, Nat.sub_diag by lia). unfold starts. rewrite take_app_length. lia.
Qed.

(** ** Reading fields of a structure *)

Definition get_bytes (n : nat) : M (list Z) (list Z) := fun l => Some (take n l, drop n l).
Definition get_le (n : nat) : M (list Z) Z := b ← get_bytes n; mret (le_value b).

Lemma get_bytes_run n a b : length a = n -> get_bytes n (a ++ b) = Some (a, b).
Proof. intros <-. unfold get_bytes. by rewrite take_app_length, drop_app_length. Qed.

Lemma get_le_run n x b : 0 <= x < 2 ^ (8 * Z.of_nat n) -> get_le n (le_bytes n x ++ b) = Some (x, b).
Proof.
  intros Hx. unfold get_le. rewrite bind_run, get_bytes_run by apply length_le_bytes. unfold mret, M_ret.
  rewrite le_value_bytes by lia. by rewrite Z.mod_small.
Qed.

(** ** Files in memory *)

(** An instance of the interface: a file is its bytes and the position of its
    descriptor. *)
Abbreviation mem_files := (gmap Z (list Z * Z)).
Definition mem_contents (w : mem_files) (f : Z) : list Z :=
  let c := fst (default ([], 0) (w !! f)) in if len c <? 2 ^ 63 then c else [].
Definition mem_position (w : mem_files) (f : Z) : Z := snd (default ([], 0) (w !! f)).
Definition mem_update (f : Z) (c : list Z) (pos : Z) (w : mem_files) : mem_files := <[f := (c, pos)]> w.

#[export] Instance mem_IFiles : IFiles mem_files := {|
  f_pread f n off := fun w =>
    let data := take (Z.to_nat n) (drop (Z.to_nat off) (mem_contents w f)) in Some ((len data, data), w);
  f_pwrite f data off := fun w =>
    Some (len data, mem_update f (splice off data (mem_contents w f)) (mem_position w f) w);
  f_write f data := fun w =>
    Some (len data, mem_update f (splice (mem_position w f) data (mem_contents w f)) (mem_position w f + len data) w);
  f_lseek_end f := fun w => Some (len (mem_contents w f), mem_update f (mem_contents w f) (len (mem_contents w f)) w);
  f_fstat f := fun w => Some ((0, len (mem_contents w f)), w)
|}.

Lemma mem_contents_size w f : len (mem_contents w f) < 2 ^ 63.
Proof. unfold mem_contents. destruct (Z.ltb_spec (len (fst (default ([], 0) (w !! f)))) (2 ^ 63)); [done|]. unfold len. simpl. lia. Qed.

Lemma mem_contents_update f c pos w g : len c < 2 ^ 63 ->
  mem_contents (mem_update f c pos w) g = if decide (g = f) then c else mem_contents w g.
Proof.
  intros Hl. unfold mem_contents, mem_update. case_decide as Hg.
  - subst g. rewrite lookup_insert_eq. simpl. destruct (Z.ltb_spec (len c) (2 ^ 63)); [done|lia].
  - by rewrite lookup_insert_ne by congruence.
Qed.

Lemma mem_position_update f c pos w g :
  mem_position (mem_update f c pos w) g = if decide (g = f) then pos else mem_position w g.
Proof.
  unfold mem_position, mem_update. case_decide as Hg; [subst g; by rewrite lookup_insert_eq|].
  by rewrite lookup_insert_ne by congruence.
Qed.

Lemma len_splice_max pos data c : 0 <= pos <= len c -> len (splice pos data c) = Z.max (len c) (pos + len data).
Proof.
  intros Hp. unfold splice, zeros, len in *. rewrite !length_app, length_take, length_app, length_replicate, length_drop. lia.
Qed.

#[export] Instance mem_IFilesLaws : IFilesLaws mem_files.
Proof.
  refine {| contents := mem_contents; position := mem_position |}.
  - apply mem_contents_size.
  - intros w f n off _ _. by eexists.
  - intros w f data Hp Hl. eexists. split; [done|]. pose proof (mem_contents_size w f) as Hs.
    assert (len (splice (mem_position w f) data (mem_contents w f)) < 2 ^ 63) as Hsp by (rewrite len_splice_max; lia).
    rewrite mem_contents_update, mem_position_update by done. rewrite !decide_True by done. split; [done|]. split; [done|].
    intros g Hg. rewrite mem_contents_update, mem_position_update by done. by rewrite !decide_False.
  - intros w f data off Ho Hl. eexists. split; [done|]. pose proof (mem_contents_size w f) as Hs.
    assert (len (splice off data (mem_contents w f)) < 2 ^ 63) as Hsp by (rewrite len_splice; lia).
    split; [by rewrite mem_contents_update, decide_True|]. split; [intros g Hg; by rewrite mem_contents_update, decide_False|].
    intros g. rewrite mem_position_update. case_decide; congruence.
  - intros w f. eexists. split; [done|]. pose proof (mem_contents_size w f) as Hs. split; [|split].
    + intros g. rewrite mem_contents_update by done. case_decide; congruence.
    + by rewrite mem_position_update, decide_True.
    + intros g Hg. by rewrite mem_position_update, decide_False.
  - done.
Defined.

#[export] Instance mem_ISparseFiles : ISparseFiles mem_files := {|
  f_seek_data f off := mret (-1, ENXIO);
  f_seek_hole f off := mret (-1, ENXIO);
  f_ftruncate f n := mret 0;
  f_trim f off n := mret 0 |}.

#[export] Instance mem_IStreamFiles : IStreamFiles mem_files := {|
  f_read f n := fun w =>
    let data := take (Z.to_nat n) (drop (Z.to_nat (mem_position w f)) (mem_contents w f)) in
    Some ((len data, data), mem_update f (mem_contents w f) (mem_position w f + len data) w);
  f_fallocate f mode off n := mret 0 |}.

#[export] Instance mem_IStreamLaws : IStreamLaws mem_files.
Proof.
  split. intros w f n Hn Hp. eexists _, _. split; [done|]. split; [done|]. pose proof (mem_contents_size w f) as Hs.
  split; [by simpl; rewrite mem_position_update, decide_True|]. split; simpl.
  - intros g. rewrite mem_contents_update by done. case_decide; congruence.
  - intros g Hg. by rewrite mem_position_update, decide_False.
Qed.
