(* ===== verification/Crc32.v ===== *)
(** CRC-32C: overlaybd/src/overlaybd/zfile/crc32/crc32c.cpp.

    The checksum of a compressed block.  It is computed by the instruction of the
    processor where there is one, 8 bytes at a time, and otherwise with tables,
    one byte or 8 bytes at a time.  [crc_ref] is the definition of the checksum
    bit by bit; all routines agree with it at any alignment of the buffer. *)

From S2P Require Import Prelude Files CrcTable.

Definition tbl (t : list Z) (i : Z) : Z := nth (Z.to_nat i) t 0.

(** ** The routines with tables *)

(** One round of the loops over single bytes. *)
Definition crc_byte (t : list Z) (crc b : Z) : Z :=
  Z.lxor (tbl t (Z.land (Z.lxor crc b) 0xff)) (Z.shiftr crc 8).

(** A loop over [n] bytes from the pointer; what it leaves is what the pointer
    points to then.  Reading behind the buffer is a stop. *)
Fixpoint crc_bytes (t : list Z) (n : nat) (crc : Z) (buf : list Z) : option (Z * list Z) :=
  match n with
  | O => Some (crc, buf)
  | S n =>
    match buf with
    | [] => None
    | b :: buf => crc_bytes t n (crc_byte t crc b) buf
    end
  end.

Definition singletable_crc32c (crc : Z) (buf : list Z) (size : nat) : option Z :=
  fst <$> crc_bytes crc32Table size crc buf.

(** [*(const uint32_t * )p_buf] *)
Definition load32 (buf : list Z) : option (Z * list Z) :=
  if (length buf <? 4)%nat then None else Some (le_value (take 4 buf), drop 4 buf).
Definition load64 (buf : list Z) : option (Z * list Z) :=
  if (length buf <? 8)%nat then None else Some (le_value (take 8 buf), drop 8 buf).

(** One round of the loop over 8 bytes. *)
Definition crc_slice (crc w0 w1 : Z) : Z :=
  let crc := Z.lxor crc w0 in
  let term1 := Z.lxor (tbl sctp_crc_tableil8_o88 (Z.land crc 0xff)) (tbl sctp_crc_tableil8_o80 (Z.land (Z.shiftr crc 8) 0xff)) in
  let term2 := Z.shiftr crc 16 in
  let crc := Z.lxor (Z.lxor term1 (tbl sctp_crc_tableil8_o72 (Z.land term2 0xff)))
    (tbl sctp_crc_tableil8_o64 (Z.land (Z.shiftr term2 8) 0xff)) in
  let term1 := Z.lxor (tbl sctp_crc_tableil8_o56 (Z.land w1 0xff)) (tbl sctp_crc_tableil8_o48 (Z.land (Z.shiftr w1 8) 0xff)) in
  let term2 := Z.shiftr w1 16 in
  Z.lxor (Z.lxor (Z.lxor crc term1) (tbl sctp_crc_tableil8_o40 (Z.land term2 0xff)))
    (tbl sctp_crc_tableil8_o32 (Z.land (Z.shiftr term2 8) 0xff)).

Fixpoint crc_slices (n : nat) (crc : Z) (buf : list Z) : option (Z * list Z) :=
  match n with
  | O => Some (crc, buf)
  | S n =>
    '(w0, buf) ← load32 buf;
    '(w1, buf) ← load32 buf;
    crc_slices n (crc_slice crc w0 w1) buf
  end.

Definition crc32c_sb8_64_bit (crc : Z) (p_buf : list Z) (length init_bytes : Z) : option Z :=
  let running_length := u32 (u32 (length - init_bytes) / 8 * 8) in
  let end_bytes := u32 (length - init_bytes - running_length) in
  '(crc, p_buf) ← crc_bytes sctp_crc_tableil8_o32 (Z.to_nat init_bytes) crc p_buf;
  '(crc, p_buf) ← crc_slices (Z.to_nat (running_length / 8)) crc p_buf;
  fst <$> crc_bytes sctp_crc_tableil8_o32 (Z.to_nat end_bytes) crc p_buf.

(** [addr] is the address of the buffer, [length] an [unsigned int]. *)
Definition multitable_crc32c (crc32c : Z) (addr : Z) (buffer : list Z) (length : Z) : option Z :=
  if length =? 0 then Some crc32c
  else crc32c_sb8_64_bit crc32c buffer length (4 - Z.land addr 3).

Definition crc32c_sw (addr : Z) (buffer : list Z) (nbytes : Z) (crc : Z) : option Z :=
  if nbytes <? 4 then singletable_crc32c crc buffer (Z.to_nat nbytes)
  else multitable_crc32c crc addr buffer (u32 nbytes).

(** ** The routine with the instruction *)

(** The polynomial 0x1EDC6F41 with its bits reversed. *)
Definition POLY : Z := 0x82F63B78.
Definition crc_step (x : Z) : Z :=
  if Z.odd x then Z.lxor (Z.shiftr x 1) POLY else Z.shiftr x 1.
Definition crc_steps (n : nat) (x : Z) : Z := Nat.iter n crc_step x.
#[global] Arguments crc_steps : simpl never.

(** The builtins: the remainder of the operand, after the sum so far, modulo the
    polynomial, with the bits in reverse order. *)
Definition builtin_crc32qi (sum b : Z) : Z := crc_steps 8 (Z.lxor sum b).
Definition builtin_crc32di (sum w : Z) : Z := crc_steps 64 (Z.lxor sum w).

Fixpoint hw_bytes (n : nat) (sum : Z) (data : list Z) : option (Z * list Z) :=
  match n with
  | O => Some (sum, data)
  | S n =>
    match data with
    | [] => None
    | b :: data => hw_bytes n (u32 (builtin_crc32qi sum b)) data
    end
  end.

(** The loop over 8 bytes; [rest] is what is left of [nbytes]. *)
Fixpoint hw_words (fuel : nat) (sum : Z) (rest : Z) (data : list Z) : option (Z * Z * list Z) :=
  match fuel with
  | O => None
  | S fuel =>
    if 8 <=? rest then
      '(w, data) ← load64 data;
      hw_words fuel (u32 (builtin_crc32di sum w)) (rest - 8) data
    else Some (sum, rest, data)
  end.

Definition crc32c_hw (addr : Z) (data : list Z) (nbytes : Z) (crc : Z) : option Z :=
  let mask := Z.land addr 7 in
  let limit := if mask =? 0 then 0 else Z.min nbytes (8 - mask) in
  '(sum, data) ← hw_bytes (Z.to_nat limit) crc data;
  '(sum, rest, data) ← hw_words (S (Z.to_nat nbytes)) sum (nbytes - limit) data;
  fst <$> hw_bytes (Z.to_nat rest) sum data.

(** ** The entry points *)

(** [crc_init] chooses the routine by the processor.  The routines of the
    libraries DML and ISA-L are compiled in by options that are off. *)
Definition crc32c_func (sse42 : bool) : Z -> list Z -> Z -> Z -> option Z :=
  if sse42 then crc32c_hw else crc32c_sw.

Definition crc32c_extend (sse42 : bool) (addr : Z) (data : list Z) (nbytes crc : Z) : option Z :=
  crc32c_func sse42 addr data nbytes crc.

Definition crc32c (sse42 : bool) (addr : Z) (data : list Z) (nbytes : Z) : option Z :=
  crc32c_extend sse42 addr data nbytes 0.

(** ** The definition of the checksum *)

Definition crc_ref (crc : Z) (data : list Z) : Z := foldl (fun c b => crc_steps 8 (Z.lxor c b)) crc data.

Definition is_byte (b : Z) : Prop := 0 <= b < 2 ^ 8.

(** ** The register *)

Lemma step_lxor a b : crc_step (Z.lxor a b) = Z.lxor (crc_step a) (crc_step b).
Proof.
  unfold crc_step. rewrite <- !Z.bit0_odd, Z.lxor_spec, Z.shiftr_lxor.
  destruct (Z.testbit a 0), (Z.testbit b 0); cbn [xorb].
  - rewrite (Z.lxor_assoc _ POLY), (Z.lxor_comm POLY), <- !Z.lxor_assoc, (Z.lxor_assoc _ POLY POLY), Z.lxor_nilpotent, Z.lxor_0_r. done.
  - by rewrite !Z.lxor_assoc, (Z.lxor_comm POLY).
  - by rewrite Z.lxor_assoc.
  - done.
Qed.

Lemma steps_lxor n a b : crc_steps n (Z.lxor a b) = Z.lxor (crc_steps n a) (crc_steps n b).
Proof. unfold crc_steps. induction n as [|n IH]; simpl; [done|]. by rewrite IH, step_lxor. Qed.

Lemma step_double x : crc_step (Z.shiftl x 1) = x.
Proof.
  unfold crc_step. rewrite Z.shiftl_mul_pow2 by lia. change (2 ^ 1) with 2. rewrite Z.mul_comm, Z.odd_mul. simpl.
  rewrite Z.mul_comm, Z.shiftr_div_pow2 by lia. by apply Z.div_mul.
Qed.

Lemma steps_add n m x : crc_steps (n + m) x = crc_steps m (crc_steps n x).
Proof. unfold crc_steps. rewrite Nat.add_comm. apply Nat.iter_add. Qed.

Lemma steps_shift n m x : crc_steps (n + m) (Z.shiftl x (Z.of_nat n)) = crc_steps m x.
Proof.
  rewrite steps_add. f_equal. induction n as [|n IH]; [apply Z.shiftl_0_r|].
  replace (Z.shiftl x (Z.of_nat (S n))) with (Z.shiftl (Z.shiftl x (Z.of_nat n)) 1) by (rewrite Z.shiftl_shiftl by lia; f_equal; lia).
  change (S n) with (1 + n)%nat. rewrite steps_add. cbn [crc_steps Nat.iter]. by rewrite step_double.
Qed.

Lemma split_low x n : 0 <= n -> x = Z.lxor (Z.land x (Z.ones n)) (Z.shiftl (Z.shiftr x n) n).
Proof.
  intros Hn. apply Z.bits_inj'. intros i Hi. rewrite Z.lxor_spec, Z.land_spec, Z.shiftl_spec by done.
  rewrite Z.testbit_ones_nonneg by done. destruct (Z.ltb_spec i n).
  - rewrite (Z.testbit_neg_r _ (i - n)) by lia. by rewrite andb_true_r, xorb_false_r.
  - rewrite Z.shiftr_spec by lia. rewrite andb_false_r. replace (i - n + n) with i by lia. by destruct (Z.testbit x i).
Qed.

Lemma steps_low n x : (8 <= n)%nat -> crc_steps n x = Z.lxor (crc_steps n (Z.land x 0xff)) (crc_steps (n - 8) (Z.shiftr x 8)).
Proof.
  intros Hn. rewrite (split_low x 8) at 1 by lia. rewrite steps_lxor. change (Z.ones 8) with 0xff. f_equal.
  replace n with (8 + (n - 8))%nat at 1 by lia. apply steps_shift.
Qed.

(** ** The tables *)

(** What the generator of the tables computed. *)
Definition table_of (n : nat) : list Z := crc_steps n <$> seqZ 0 256.

Lemma tables_right : crc32Table = table_of 8 /\ sctp_crc_tableil8_o32 = table_of 8 /\ sctp_crc_tableil8_o40 = table_of 16 /\
  sctp_crc_tableil8_o48 = table_of 24 /\ sctp_crc_tableil8_o56 = table_of 32 /\ sctp_crc_tableil8_o64 = table_of 40 /\
  sctp_crc_tableil8_o72 = table_of 48 /\ sctp_crc_tableil8_o80 = table_of 56 /\ sctp_crc_tableil8_o88 = table_of 64.
Proof. repeat split; vm_compute; reflexivity. Qed.

Lemma low_byte x : is_byte (Z.land x 0xff).
Proof. unfold is_byte. change 0xff with (Z.ones 8). rewrite Z.land_ones by lia. by apply Z.mod_pos_bound. Qed.

Lemma tbl_of n x : is_byte x -> tbl (table_of n) x = crc_steps n x.
Proof.
  intros [Hx1 Hx2]. unfold tbl, table_of. erewrite nth_lookup, list_lookup_fmap, lookup_seqZ_lt by lia. simpl. f_equal. lia.
Qed.

Lemma crc_byte_spec t crc b : t = table_of 8 -> is_byte b -> crc_byte t crc b = crc_steps 8 (Z.lxor crc b).
Proof.
  intros -> Hb. unfold crc_byte. rewrite tbl_of by apply low_byte. rewrite (steps_low 8 (Z.lxor crc b)) by lia. f_equal.
  rewrite Z.shiftr_lxor. unfold is_byte in Hb.
  replace (Z.shiftr b 8) with 0 by (rewrite Z.shiftr_div_pow2 by lia; dlia). by rewrite Z.lxor_0_r.
Qed.

Lemma step_range n x : 1 <= n -> 0 <= x < 2 ^ n -> 0 <= crc_step x < 2 ^ Z.max 32 (n - 1).
Proof.
  intros Hn Hx. assert (0 <= Z.shiftr x 1 < 2 ^ (n - 1)) as Hs.
  { rewrite Z.shiftr_div_pow2 by lia. change (2 ^ 1) with 2. replace n with (Z.succ (n - 1)) in Hx by lia.
    rewrite Z.pow_succ_r in Hx by lia. split; [apply Z.div_pos; lia|apply Z.div_lt_upper_bound; lia]. }
  assert (2 ^ (n - 1) <= 2 ^ Z.max 32 (n - 1)) by (apply Z.pow_le_mono_r; lia).
  unfold crc_step. destruct (Z.odd x); [|lia]. split; [apply Z.lxor_nonneg; unfold POLY; lia|].
  assert (2 ^ 32 <= 2 ^ Z.max 32 (n - 1)) by (apply Z.pow_le_mono_r; lia).
  destruct (Z.eq_dec (Z.lxor (Z.shiftr x 1) POLY) 0) as [->|Hne]; [lia|].
  assert (0 <= Z.lxor (Z.shiftr x 1) POLY) by (apply Z.lxor_nonneg; unfold POLY; lia).
  apply Z.log2_lt_pow2; [lia|]. eapply Z.le_lt_trans; [apply Z.log2_lxor; unfold POLY; lia|].
  apply Z.max_lub_lt; [|change (Z.log2 POLY) with 31; lia].
  destruct (Z.eq_dec (Z.shiftr x 1) 0) as [->|]; [simpl; lia|]. apply Z.log2_lt_pow2; lia.
Qed.

Lemma steps_range32 n x : 0 <= x < 2 ^ 32 -> 0 <= crc_steps n x < 2 ^ 32.
Proof.
  intros Hx. unfold crc_steps. induction n as [|n IH]; simpl; [done|].
  pose proof (step_range 32 _ ltac:(lia) IH) as Hs. simpl in Hs. exact Hs.
Qed.

Lemma lxor_range32 n a b : 0 <= n -> 0 <= a < 2 ^ n -> 0 <= b < 2 ^ n -> 0 <= Z.lxor a b < 2 ^ n.
Proof.
  intros Hn Ha Hb. assert (0 <= Z.lxor a b) by (apply Z.lxor_nonneg; lia). split; [done|].
  destruct (Z.eq_dec (Z.lxor a b) 0) as [->|]; [lia|]. destruct (Z.eq_dec n 0) as [->|].
  { change (2 ^ 0) with 1 in *. assert (a = 0) as -> by lia. assert (b = 0) as -> by lia. done. }
  apply Z.log2_lt_pow2; [lia|]. eapply Z.le_lt_trans; [apply Z.log2_lxor; lia|].
  apply Z.max_lub_lt; [destruct (Z.eq_dec a 0) as [->|]; [simpl; lia|]|destruct (Z.eq_dec b 0) as [->|]; [simpl; lia|]]; apply Z.log2_lt_pow2; lia.
Qed.

Lemma byte_range b : is_byte b -> 0 <= b < 2 ^ 32.
Proof. unfold is_byte. lia. Qed.

Lemma ref_range crc data : 0 <= crc < 2 ^ 32 -> Forall is_byte data -> 0 <= crc_ref crc data < 2 ^ 32.
Proof.
  intros Hc Hd. unfold crc_ref. revert crc Hc. induction Hd as [|b data Hb _ IH]; intros crc Hc; simpl; [done|].
  apply IH, steps_range32, lxor_range32; [done|done|by apply byte_range].
Qed.

Lemma ref_app crc a b : crc_ref crc (a ++ b) = crc_ref (crc_ref crc a) b.
Proof. apply foldl_app. Qed.

Lemma le_value_nonneg l : Forall is_byte l -> 0 <= le_value l < 2 ^ (8 * Z.of_nat (length l)).
Proof.
  induction 1 as [|b l Hb _ IH]; [done|]. cbn [le_value length]. replace (8 * Z.of_nat (S (length l))) with (8 + 8 * Z.of_nat (length l)) by lia.
  rewrite Z.pow_add_r by lia. unfold is_byte in Hb. nia.
Qed.

Lemma le_value_cons b l : is_byte b -> Forall is_byte l -> le_value (b :: l) = Z.lxor b (Z.shiftl (le_value l) 8).
Proof.
  intros Hb Hl. cbn [le_value]. pose proof (le_value_nonneg l Hl). replace (2 ^ 8 * le_value l) with (Z.shiftl (le_value l) 8) by (rewrite Z.shiftl_mul_pow2 by lia; lia).
  unfold is_byte in Hb. apply Z.add_nocarry_lxor. apply Z.bits_inj'. intros i Hi. rewrite Z.land_spec, Z.bits_0, Z.shiftl_spec by done.
  destruct (Z.ltb_spec i 8); [rewrite (Z.testbit_neg_r _ (i - 8)) by lia; apply andb_false_r|].
  rewrite <- (Z.mod_small b (2 ^ 8)) by lia. by rewrite Z.mod_pow2_bits_high by lia.
Qed.

(** The checksum of up to any number of bytes at once. *)
Lemma ref_word crc l : Forall is_byte l -> crc_ref crc l = crc_steps (8 * length l) (Z.lxor crc (le_value l)).
Proof.
  intros Hl. revert crc. induction Hl as [|b l Hb Hl IH]; intros crc; cbn [crc_ref foldl length]; [by rewrite Z.lxor_0_r|].
  fold (crc_ref (crc_steps 8 (Z.lxor crc b)) l). rewrite IH. replace (8 * S (length l))%nat with (8 + 8 * length l)%nat by lia.
  rewrite steps_add, le_value_cons, <- Z.lxor_assoc by done. f_equal. rewrite (steps_lxor 8 (Z.lxor crc b)). f_equal.
  exact (eq_sym (steps_shift 8 0 (le_value l))).
Qed.

(** ** The routines *)

Lemma crc_bytes_run t n crc buf : t = table_of 8 -> Forall is_byte buf -> (n <= length buf)%nat ->
  crc_bytes t n crc buf = Some (crc_ref crc (take n buf), drop n buf).
Proof.
  intros Ht. revert crc buf. induction n as [|n IH]; intros crc buf Hb Hn; [done|].
  destruct Hb as [|b buf Hb Hbs]; [simpl in Hn; lia|]. cbn [crc_bytes]. rewrite IH by (done || (simpl in Hn; lia)).
  by rewrite crc_byte_spec.
Qed.

Lemma hw_bytes_run n crc buf : 0 <= crc < 2 ^ 32 -> Forall is_byte buf -> (n <= length buf)%nat ->
  hw_bytes n crc buf = Some (crc_ref crc (take n buf), drop n buf).
Proof.
  revert crc buf. induction n as [|n IH]; intros crc buf Hc Hb Hn; [done|].
  destruct Hb as [|b buf Hb Hbs]; [simpl in Hn; lia|]. cbn [hw_bytes]. unfold builtin_crc32qi.
  pose proof (steps_range32 8 (Z.lxor crc b) ltac:(apply lxor_range32; [lia|done|by apply byte_range])).
  rewrite u32_small by done. by rewrite IH by (done || (simpl in Hn; lia)).
Qed.

Lemma load32_run buf : (4 <= length buf)%nat -> load32 buf = Some (le_value (take 4 buf), drop 4 buf).
Proof. intros Hl. unfold load32. by destruct (Nat.ltb_spec (length buf) 4); [lia|]. Qed.

Lemma le_value_app a b : le_value (a ++ b) = le_value a + 2 ^ (8 * Z.of_nat (length a)) * le_value b.
Proof.
  induction a as [|x a IH]; [simpl; lia|]. cbn [app le_value length]. rewrite IH.
  replace (8 * Z.of_nat (S (length a))) with (8 + 8 * Z.of_nat (length a)) by lia. rewrite Z.pow_add_r by lia. lia.
Qed.

Lemma low_lxor x y n : 0 <= n -> 0 <= x < 2 ^ n -> 0 <= y -> x + 2 ^ n * y = Z.lxor x (Z.shiftl y n).
Proof.
  intros Hn Hx Hy. replace (2 ^ n * y) with (Z.shiftl y n) by (rewrite Z.shiftl_mul_pow2 by lia; lia).
  apply Z.add_nocarry_lxor. apply Z.bits_inj'. intros i Hi. rewrite Z.land_spec, Z.bits_0, Z.shiftl_spec by done.
  destruct (Z.ltb_spec i n); [rewrite (Z.testbit_neg_r _ (i - n)) by lia; apply andb_false_r|].
  rewrite <- (Z.mod_small x (2 ^ n)) by lia. by rewrite Z.mod_pow2_bits_high by lia.
Qed.

Lemma steps_four n x : (32 <= n)%nat -> 0 <= x < 2 ^ 32 -> crc_steps n x =
  Z.lxor (Z.lxor (crc_steps n (Z.land x 0xff)) (crc_steps (n - 8) (Z.land (Z.shiftr x 8) 0xff)))
    (Z.lxor (crc_steps (n - 16) (Z.land (Z.shiftr x 16) 0xff)) (crc_steps (n - 24) (Z.land (Z.shiftr (Z.shiftr x 16) 8) 0xff))).
Proof.
  intros Hn Hx. rewrite (steps_low n), (steps_low (n - 8)), (steps_low (n - 8 - 8)), (steps_low (n - 8 - 8 - 8)) by lia.
  rewrite !Z.shiftr_shiftr by lia. change (8 + 8) with 16. change (16 + 8) with 24. change (24 + 8) with 32.
  replace (Z.shiftr x 32) with 0 by (rewrite Z.shiftr_div_pow2 by lia; symmetry; by apply Z.div_small).
  replace (n - 8 - 8)%nat with (n - 16)%nat by lia. replace (n - 16 - 8)%nat with (n - 24)%nat by lia.
  assert (crc_steps (n - 24 - 8) 0 = 0) as ->.
  { generalize (n - 24 - 8)%nat. intros k. unfold crc_steps. induction k as [|k IHk]; simpl; [done|]. by rewrite IHk. }
  rewrite Z.lxor_0_r, !Z.lxor_assoc. done.
Qed.

Lemma crc_slice_run crc l : 0 <= crc < 2 ^ 32 -> Forall is_byte l -> length l = 8%nat ->
  crc_slice crc (le_value (take 4 l)) (le_value (drop 4 l)) = crc_ref crc l.
Proof.
  intros Hc Hl Hn. rewrite ref_word by done. rewrite Hn. change (8 * 8)%nat with 64%nat.
  assert (length (take 4 l) = 4%nat) as Hn4 by (rewrite length_take; lia).
  assert (length (drop 4 l) = 4%nat) as Hd4 by (rewrite length_drop; lia).
  pose proof (le_value_nonneg (take 4 l) ltac:(by apply Forall_take)) as H0. rewrite Hn4 in H0.
  pose proof (le_value_nonneg (drop 4 l) ltac:(by apply Forall_drop)) as H1. rewrite Hd4 in H1.
  rewrite <- (take_drop 4 l) at 3. rewrite le_value_app, Hn4. change (8 * Z.of_nat 4) with 32 in *.
  rewrite low_lxor by lia. rewrite <- Z.lxor_assoc, steps_lxor.
  pose proof (steps_shift 32 32 (le_value (drop 4 l))) as Hs. change (32 + 32)%nat with 64%nat in Hs. change (Z.of_nat 32) with 32 in Hs. rewrite Hs.
  set (w0 := le_value (take 4 l)) in *. set (w1 := le_value (drop 4 l)) in *.
  pose proof (lxor_range32 32 crc w0 ltac:(lia) Hc H0) as Hx.
  rewrite (steps_four 64 (Z.lxor crc w0)), (steps_four 32 w1) by (done || lia).
  unfold crc_slice. destruct tables_right as (_ & -> & -> & -> & -> & -> & -> & -> & ->).
  rewrite !tbl_of by apply low_byte. change (64 - 8)%nat with 56%nat. change (64 - 16)%nat with 48%nat. change (64 - 24)%nat with 40%nat.
  change (32 - 8)%nat with 24%nat. change (32 - 16)%nat with 16%nat. change (32 - 24)%nat with 8%nat.
  rewrite !Z.lxor_assoc. done.
Qed.

Lemma crc_slices_run n crc buf : 0 <= crc < 2 ^ 32 -> Forall is_byte buf -> (8 * n <= length buf)%nat ->
  crc_slices n crc buf = Some (crc_ref crc (take (8 * n) buf), drop (8 * n) buf).
Proof.
  revert crc buf. induction n as [|n IH]; intros crc buf Hc Hb Hn; [done|]. cbn [crc_slices].
  rewrite load32_run by lia. cbn [mbind option_bind]. rewrite load32_run by (rewrite length_drop; lia). cbn [mbind option_bind].
  assert (length (take 8 buf) = 8%nat) as H8 by (rewrite length_take; lia).
  pose proof (crc_slice_run crc (take 8 buf) Hc ltac:(by apply Forall_take) H8) as Hs.
  assert (take 4 (take 8 buf) = take 4 buf) as H1 by (rewrite take_take; done).
  assert (drop 4 (take 8 buf) = take 4 (drop 4 buf)) as H2 by (rewrite take_drop_commute; done).
  rewrite H1, H2 in Hs. rewrite Hs, drop_drop. change (4 + 4)%nat with 8%nat.
  rewrite IH; [|apply ref_range; [done|by apply Forall_take]|by apply Forall_drop|rewrite length_drop; lia].
  rewrite <- ref_app, drop_drop, take_take_drop. by replace (8 + 8 * n)%nat with (8 * S n)%nat by lia.
Qed.

(** Three loops one after the other consume the buffer. *)
Lemma ref_three crc a b c (buf : list Z) : (a + b + c = length buf)%nat ->
  crc_ref (crc_ref (crc_ref crc (take a buf)) (take b (drop a buf))) (take c (drop b (drop a buf))) = crc_ref crc buf.
Proof.
  intros Hl. rewrite <- !ref_app. f_equal. rewrite (take_ge (drop b (drop a buf))) by (rewrite !length_drop; lia).
  by rewrite !take_drop.
Qed.

Lemma sb8_run crc buf n i : 0 <= crc < 2 ^ 32 -> Forall is_byte buf -> len buf = n -> n < 2 ^ 32 -> 0 <= i <= n ->
  crc32c_sb8_64_bit crc buf n i = Some (crc_ref crc buf).
Proof.
  intros Hc Hb Hl Hn Hi. unfold crc32c_sb8_64_bit, len in *. rewrite (u32_small (n - i)), (u32_small (_ / 8 * 8)) by dlia.
  rewrite Z.div_mul by lia. rewrite u32_small by dlia. set (q := (n - i) / 8).
  assert (0 <= q /\ 8 * q <= n - i) as [Hq0 Hq] by (subst q; dlia).
  rewrite crc_bytes_run by (apply tables_right || done || lia). cbn [mbind option_bind].
  rewrite crc_slices_run; [|apply ref_range; [done|by apply Forall_take]|by apply Forall_drop|rewrite length_drop; lia]. cbn [mbind option_bind].
  rewrite crc_bytes_run; [|apply tables_right|by apply Forall_drop, Forall_drop|rewrite !length_drop; lia]. cbn [fmap option_fmap option_map fst].
  f_equal. apply ref_three. lia.
Qed.

Lemma sw_run addr buf crc : 0 <= crc < 2 ^ 32 -> Forall is_byte buf -> len buf < 2 ^ 32 ->
  crc32c_sw addr buf (len buf) crc = Some (crc_ref crc buf).
Proof.
  intros Hc Hb Hl. unfold crc32c_sw. pose proof (len_nonneg buf). destruct (Z.ltb_spec (len buf) 4).
  - unfold singletable_crc32c. rewrite crc_bytes_run by (apply tables_right || done || (unfold len; lia)).
    cbn [fmap option_fmap option_map fst]. unfold len. by rewrite Nat2Z.id, take_ge.
  - rewrite u32_small by lia. unfold multitable_crc32c. destruct (Z.eqb_spec (len buf) 0); [lia|].
    apply sb8_run; try done. change 3 with (Z.ones 2). rewrite Z.land_ones by lia. dlia.
Qed.

Lemma hw_words_run fuel sum rest buf : 0 <= sum < 2 ^ 32 -> Forall is_byte buf -> len buf = rest -> rest < Z.of_nat fuel ->
  exists k, hw_words fuel sum rest buf = Some (crc_ref sum (take k buf), len (drop k buf), drop k buf).
Proof.
  revert sum rest buf. induction fuel as [|fuel IH]; intros sum rest buf Hs Hb Hl Hf; [pose proof (len_nonneg buf); lia|].
  cbn [hw_words]. destruct (Z.leb_spec 8 rest); [|exists O; rewrite drop_0, Hl; done].
  unfold len in Hl. unfold load64. destruct (Nat.ltb_spec (length buf) 8); [lia|]. cbn [mbind option_bind].
  assert (builtin_crc32di sum (le_value (take 8 buf)) = crc_ref sum (take 8 buf)) as ->.
  { unfold builtin_crc32di. rewrite ref_word by by apply Forall_take. f_equal. rewrite length_take. lia. }
  pose proof (ref_range sum (take 8 buf) Hs ltac:(by apply Forall_take)) as Hr. rewrite u32_small by done.
  destruct (IH (crc_ref sum (take 8 buf)) (rest - 8) (drop 8 buf)) as (k & ->); [done|by apply Forall_drop|unfold len; rewrite length_drop; lia|lia|].
  exists (8 + k)%nat. by rewrite drop_drop, <- ref_app, take_take_drop.
Qed.

Lemma hw_run addr buf crc : 0 <= crc < 2 ^ 32 -> Forall is_byte buf -> crc32c_hw addr buf (len buf) crc = Some (crc_ref crc buf).
Proof.
  intros Hc Hb. unfold crc32c_hw. pose proof (len_nonneg buf).
  set (limit := if Z.land addr 7 =? 0 then 0 else Z.min (len buf) (8 - Z.land addr 7)).
  assert (0 <= limit <= len buf) as Hlim.
  { subst limit. destruct (Z.land addr 7 =? 0); [lia|]. change 7 with (Z.ones 3). rewrite Z.land_ones by lia. dlia. }
  rewrite hw_bytes_run by (done || (unfold len in *; lia)). cbn [mbind option_bind].
  assert (len (drop (Z.to_nat limit) buf) = len buf - limit) as Hd by (apply len_drop; lia).
  destruct (hw_words_run (S (Z.to_nat (len buf))) (crc_ref crc (take (Z.to_nat limit) buf)) (len buf - limit) (drop (Z.to_nat limit) buf))
    as (k & ->); [apply ref_range; [done|by apply Forall_take]|by apply Forall_drop|done|lia|]. cbn [mbind option_bind].
  rewrite hw_bytes_run; [|apply ref_range; [apply ref_range; [done|by apply Forall_take]|by apply Forall_take, Forall_drop]|
    by apply Forall_drop, Forall_drop|unfold len; lia].
  cbn [fmap option_fmap option_map fst]. unfold len. rewrite Nat2Z.id, (take_ge (drop k _)) by done. by rewrite <- !ref_app, !take_drop.
Qed.

Lemma extend_run sse42 addr data crc : 0 <= crc < 2 ^ 32 -> Forall is_byte data -> len data < 2 ^ 32 ->
  crc32c_extend sse42 addr data (len data) crc = Some (crc_ref crc data).
Proof. intros Hc Hd Hl. unfold crc32c_extend, crc32c_func. destruct sse42; [by apply hw_run|by apply sw_run]. Qed.

(** The check value of CRC-32C for the string 123456789. *)
Example check_value : Z.lxor (crc_ref 0xffffffff [49; 50; 51; 52; 53; 54; 55; 56; 57]) 0xffffffff = 0xe3069283.
Proof. vm_compute. reflexivity. Qed.

(** ** Detecting errors *)

Lemma step_inj x y : 0 <= x < 2 ^ 32 -> 0 <= y < 2 ^ 32 -> crc_step x = crc_step y -> x = y.
Proof.
  intros Hx Hy Heq.
  assert (forall z, 0 <= z < 2 ^ 32 -> Z.testbit (crc_step z) 31 = Z.odd z) as Htop.
  { intros z Hz. unfold crc_step. assert (Z.testbit (Z.shiftr z 1) 31 = false) as Hz31.
    { rewrite Z.shiftr_spec by lia. rewrite <- (Z.mod_small z (2 ^ 32)) by lia. by rewrite Z.mod_pow2_bits_high by lia. }
    destruct (Z.odd z); [|done]. by rewrite Z.lxor_spec, Hz31. }
  pose proof (Htop x Hx) as Hox. pose proof (Htop y Hy) as Hoy. rewrite Heq in Hox.
  assert (Z.odd x = Z.odd y) as Hodd by congruence.
  assert (Z.shiftr x 1 = Z.shiftr y 1) as Hsh.
  { unfold crc_step in Heq. rewrite Hodd in Heq. destruct (Z.odd y); [|done].
    apply (f_equal (fun z => Z.lxor z POLY)) in Heq. by rewrite !Z.lxor_assoc, Z.lxor_nilpotent, !Z.lxor_0_r in Heq. }
  rewrite (Zdiv2_odd_eqn x), (Zdiv2_odd_eqn y), Hodd, !Z.div2_spec. by rewrite Hsh.
Qed.

Lemma steps_inj n x y : 0 <= x < 2 ^ 32 -> 0 <= y < 2 ^ 32 -> crc_steps n x = crc_steps n y -> x = y.
Proof.
  intros Hx Hy. unfold crc_steps. induction n as [|n IH]; cbn [Nat.iter nat_rect]; [done|]. intros Heq. apply IH.
  apply step_inj; [apply (steps_range32 n x Hx)|apply (steps_range32 n y Hy)|exact Heq].
Qed.

Lemma lxor_inj a b c : Z.lxor a b = Z.lxor a c -> b = c.
Proof. intros Heq. apply (f_equal (Z.lxor a)) in Heq. by rewrite <- !Z.lxor_assoc, Z.lxor_nilpotent, !Z.lxor_0_l in Heq. Qed.

Lemma le_value_inj a b : Forall is_byte a -> Forall is_byte b -> length a = length b -> le_value a = le_value b -> a = b.
Proof.
  intros Ha. revert b. induction Ha as [|x a Hx _ IH]; intros [|y b] Hb Hl Heq; try done.
  apply Forall_cons in Hb as [Hy Hb]. cbn [le_value] in Heq. unfold is_byte in *. assert (x = y) as -> by (apply (f_equal (fun z => z mod 2 ^ 8)) in Heq; dlia).
  f_equal. apply IH; [done|by injection Hl|lia].
Qed.

Lemma ref_inj a b crc : length a = length b -> (length a <= 4)%nat -> Forall is_byte a -> Forall is_byte b ->
  0 <= crc < 2 ^ 32 -> crc_ref crc a = crc_ref crc b -> a = b.
Proof.
  intros Hl Hn Ha Hb Hc Heq. rewrite !ref_word, <- Hl in Heq by done.
  pose proof (le_value_nonneg a Ha) as Hra. pose proof (le_value_nonneg b Hb) as Hrb. rewrite <- Hl in Hrb.
  assert (2 ^ (8 * Z.of_nat (length a)) <= 2 ^ 32) by (apply Z.pow_le_mono_r; lia).
  apply steps_inj in Heq; [|apply lxor_range32; lia|apply lxor_range32; lia]. apply lxor_inj in Heq. by apply le_value_inj.
Qed.

Lemma ref_state_inj l crc crc' : Forall is_byte l -> 0 <= crc < 2 ^ 32 -> 0 <= crc' < 2 ^ 32 -> crc_ref crc l = crc_ref crc' l -> crc = crc'.
Proof.
  intros Hl. revert crc crc'. induction Hl as [|b l Hb _ IH]; intros crc crc' Hc Hc' Heq; [done|]. cbn [crc_ref foldl] in Heq.
  pose proof (byte_range b Hb). assert (crc_steps 8 (Z.lxor crc b) = crc_steps 8 (Z.lxor crc' b)) as Hs.
  { apply IH; [apply steps_range32, lxor_range32; lia|apply steps_range32, lxor_range32; lia|exact Heq]. }
  apply steps_inj in Hs; [|apply lxor_range32; lia|apply lxor_range32; lia]. rewrite !(Z.lxor_comm _ b) in Hs. by apply lxor_inj in Hs.
Qed.

Lemma burst_detected p w w' s crc : length w = length w' -> (length w <= 4)%nat -> w <> w' ->
  Forall is_byte (p ++ w ++ s) -> Forall is_byte w' -> 0 <= crc < 2 ^ 32 -> crc_ref crc (p ++ w ++ s) <> crc_ref crc (p ++ w' ++ s).
Proof.
  intros Hl Hn Hne Hb Hw' Hc Heq. apply Forall_app in Hb as [Hp Hb]. apply Forall_app in Hb as [Hw Hs].
  rewrite !ref_app in Heq. pose proof (ref_range crc p Hc Hp) as Hr.
  apply ref_state_inj in Heq; [|done|by apply ref_range|by apply ref_range]. apply Hne. by apply (ref_inj w w' (crc_ref crc p)).
Qed.

(** ** Theorems *)

(** C11: The checksum is the same whichever routine computes it, the instruction of
    the processor on aligned words or the tables with 8 bytes at a time, and at any
    address of the buffer: it is the CRC-32C of the bytes, computed bit by bit.
    No routine reads outside the buffer. *)
Theorem crc32c_equiv sse42 addr data crc : 0 <= crc < 2 ^ 32 -> Forall is_byte data -> len data < 2 ^ 32 ->
  crc32c_extend sse42 addr data (len data) crc = Some (crc_ref crc data).
Proof. apply extend_run. Qed.

(** Two buffers that differ within at most 4 neighbouring bytes have different
    checksums. *)
Theorem crc32c_detects_burst sse42 addr addr' p w w' s crc : length w = length w' -> (length w <= 4)%nat -> w <> w' ->
  Forall is_byte (p ++ w ++ s) -> Forall is_byte (p ++ w' ++ s) -> 0 <= crc < 2 ^ 32 -> len (p ++ w ++ s) < 2 ^ 32 ->
  exists c c', crc32c_extend sse42 addr (p ++ w ++ s) (len (p ++ w ++ s)) crc = Some c /\
    crc32c_extend sse42 addr' (p ++ w' ++ s) (len (p ++ w' ++ s)) crc = Some c' /\ c <> c'.
Proof.
  intros Hl Hn Hne Hb Hb' Hc Hlen. assert (len (p ++ w' ++ s) < 2 ^ 32) by (rewrite !len_app in *; unfold len in *; lia).
  eexists _, _. rewrite !extend_run by done. split; [done|]. split; [done|]. apply burst_detected; try done.
  by apply Forall_app in Hb' as [_ [Hw' _]%Forall_app].
Qed.

Definition wit_bytes : list Z := [49; 50; 51; 52; 53; 54; 55; 56; 57; 10; 200; 255; 0; 1; 2; 3; 4; 5; 6; 7].

Lemma wit_bytes_ok : Forall is_byte wit_bytes.
Proof. repeat constructor; unfold is_byte; lia. Qed.

Lemma crc32c_equiv_witness : crc32c_extend true 3 wit_bytes (len wit_bytes) 100007 = crc32c_extend false 2 wit_bytes (len wit_bytes) 100007.
Proof. rewrite !crc32c_equiv; [reflexivity|lia|exact wit_bytes_ok|vm_compute; reflexivity|lia|exact wit_bytes_ok|vm_compute; reflexivity]. Defined.

Lemma crc32c_detects_burst_witness : exists c c',
  crc32c_extend true 0 (wit_bytes ++ [1; 2] ++ [9]) (len (wit_bytes ++ [1; 2] ++ [9])) 0 = Some c /\
  crc32c_extend true 0 (wit_bytes ++ [2; 1] ++ [9]) (len (wit_bytes ++ [2; 1] ++ [9])) 0 = Some c' /\ c <> c'.
Proof.
  apply (crc32c_detects_burst true 0 0 wit_bytes [1; 2] [2; 1] [9] 0); [done|simpl; lia|done| | |lia|vm_compute; reflexivity];
    (apply Forall_app; split; [exact wit_bytes_ok|repeat constructor; unfold is_byte; lia]).
Defined.
