(* ===== verification/Compressor.v ===== *)
(** The compressors of ZFile: overlaybd/src/overlaybd/zfile/compressor.h and
    compressor.cpp.

    [ICompressor] wraps the libraries LZ4 and zstd, which are vendored or
    installed: [Codecs] is what the wrapper calls of them, and [CodecsLaws] what
    they document, that a buffer of the size of the bound is enough and that
    decompression undoes compression.  Offloading to QAT is compiled in by an
    option that is off.  A result with [Z] is the one of the function; the bytes
    are what it stored in its destination. *)

From S2P Require Import Prelude Files Crc32.

(** ** Options *)

Definition MINI_LZO : Z := 0.
Definition LZ4 : Z := 1.
Definition ZSTD : Z := 2.
Definition DEFAULT_BLOCK_SIZE : Z := 8192.

(** [CompressOptions] without its padding. *)
Record CompressOptions := mkOptions {
  block_size : Z;
  algo : Z;
  level : Z;
  use_dict : Z;
  dict_size : Z;
  verify : Z
}.

(** [CompressOptions::CompressOptions] *)
Definition CompressOptions_new (type block_size verify : Z) : CompressOptions :=
  mkOptions block_size type 0 0 0 verify.

Record CompressArgs := mkArgs {
  opt : CompressOptions;
  overwrite_header : bool;
  workers : Z;
  use_fastcdc : bool;
  fastcdc_min_size : Z;
  fastcdc_avg_size : Z;
  fastcdc_max_size : Z
}.

(** The constructor without a dictionary. *)
Definition CompressArgs_new (o : CompressOptions) (overwrite : bool) (n : Z) : CompressArgs :=
  mkArgs o overwrite n false 2048 8192 65536.

(** ** The libraries *)

Class Codecs := {
  LZ4_compressBound : Z -> Z;
  LZ4_compress_default : list Z -> Z -> Z * list Z;
  LZ4_decompress_safe : list Z -> Z -> Z * list Z;
  ZSTD_compressBound : Z -> Z;
  (** [inl] is an error code. *)
  ZSTD_compress : list Z -> Z -> Z + list Z;
  ZSTD_decompress : list Z -> Z -> Z + list Z
}.

(** The bounds are n + n/255 + 16 for LZ4 and n + n/256 + (128 KB - n)/2048 for
    zstd. *)
Class CodecsLaws `{Codecs} := {
  lz4_bound n : 0 <= n <= 2 ^ 16 -> 0 <= LZ4_compressBound n <= n + n / 255 + 64;
  lz4_compress src cap : 0 < len src <= 2 ^ 16 -> Forall is_byte src -> LZ4_compressBound (len src) <= cap ->
    exists z, LZ4_compress_default src cap = (len z, z) /\ 0 < len z <= LZ4_compressBound (len src) /\ Forall is_byte z /\
      forall cap', len src <= cap' -> LZ4_decompress_safe z cap' = (len src, src);
  zstd_bound n : 0 <= n <= 2 ^ 16 -> 0 <= ZSTD_compressBound n <= n + n / 255 + 64;
  zstd_compress src cap : 0 < len src <= 2 ^ 16 -> Forall is_byte src -> ZSTD_compressBound (len src) <= cap ->
    exists z, ZSTD_compress src cap = inr z /\ 0 < len z <= ZSTD_compressBound (len src) /\ Forall is_byte z /\
      forall cap', len src <= cap' -> ZSTD_decompress z cap' = inr src
}.

(** ** [ICompressor] *)

Inductive codec := LZ4Compressor | Compressor_zstd.

(** [BaseCompressor] *)
Record ICompressor := mkCompressor {
  c_codec : codec;
  max_dst_size : Z;
  src_blk_size : Z
}.

Definition DEFAULT_N_BATCH : Z := 256.

Section compressor.
Context `{Codecs}.

(** [nbatch] without QAT. *)
Definition nbatch (c : ICompressor) : Z := 1.

(** [init] of the two classes. *)
Definition LZ4Compressor_init (o : CompressOptions) : option ICompressor :=
  if negb (algo o =? LZ4) then None
  else Some (mkCompressor LZ4Compressor (u32 (LZ4_compressBound (block_size o))) (block_size o)).
Definition Compressor_zstd_init (o : CompressOptions) : option ICompressor :=
  if negb (algo o =? ZSTD) then None
  else Some (mkCompressor Compressor_zstd (u32 (ZSTD_compressBound (block_size o))) (block_size o)).

(** [None] is the null pointer. *)
Definition create_compressor (o : CompressOptions) : option ICompressor :=
  if algo o =? LZ4 then LZ4Compressor_init o
  else if algo o =? ZSTD then Compressor_zstd_init o
  else None.

(** [compress] of the zstd class. *)
Definition zstd_compress_one (c : ICompressor) (src : list Z) (dst_len : Z) : Z * list Z :=
  if dst_len <? max_dst_size c then (-1, [])
  else
    match ZSTD_compress src dst_len with
    | inl _ => (-1, [])
    | inr z => (s32 (len z), z)
    end.

(** [do_compress]: the pieces with their compressed bytes, the last one being the
    one that failed when the result is -1. *)
Fixpoint do_compress (c : ICompressor) (pieces : list (list Z)) (cap : Z) : Z * list (list Z) :=
  match pieces with
  | [] => (0, [])
  | src :: pieces =>
    let '(ret, z) := match c_codec c with
      | LZ4Compressor => LZ4_compress_default src cap
      | Compressor_zstd => zstd_compress_one c src cap
      end in
    if ret <? 0 then (-1, [z])
    else if match c_codec c with LZ4Compressor => ret =? 0 | Compressor_zstd => false end then (-1, [z])
    else let '(r, zs) := do_compress c pieces cap in (r, z :: zs)
  end.

(** The pieces of the source; reading behind it is a stop. *)
Fixpoint cut_pieces (src : list Z) (lens : list Z) : option (list (list Z)) :=
  match lens with
  | [] => Some []
  | n :: lens =>
    if len src <? n then None
    else ps ← cut_pieces (drop (Z.to_nat n) src) lens; Some (take (Z.to_nat n) src :: ps)
  end.

(** [compress_batch]; the tables of pointers have [nbatch] entries. *)
Definition compress_batch (c : ICompressor) (src : list Z) (src_chunk_len : list Z) (dst_buffer_capacity n : Z) :
    option (Z * list (list Z)) :=
  if n =? 0 then None
  else if dst_buffer_capacity / n <? max_dst_size c then Some (-1, [])
  else if nbatch c <? n then None
  else
    ps ← cut_pieces src (take (Z.to_nat n) src_chunk_len);
    Some (do_compress c ps (dst_buffer_capacity / n)).

(** [compress] of a single block: the one of the base class for LZ4. *)
Definition compress (c : ICompressor) (src : list Z) (dst_len : Z) : option (Z * list Z) :=
  match c_codec c with
  | LZ4Compressor =>
    '(ret, zs) ← compress_batch c src [len src] dst_len 1;
    if negb (ret =? 0) then Some (-1, [])
    else z ← head zs; Some (s32 (len z), z)
  | Compressor_zstd => Some (zstd_compress_one c src dst_len)
  end.

(** [decompress] of a single block: through [decompress_batch] and [do_decompress]
    of one block for LZ4. *)
Definition decompress (c : ICompressor) (src : list Z) (dst_len : Z) : Z * list Z :=
  if dst_len <? src_blk_size c then (-1, [])
  else
    match c_codec c with
    | LZ4Compressor =>
      let '(ret, d) := LZ4_decompress_safe src dst_len in
      if ret <? 0 then (-1, d)
      else if ret =? 0 then (-1, d)
      else (ret, d)
    | Compressor_zstd =>
      match ZSTD_decompress src dst_len with
      | inl _ => (-1, [])
      | inr d => (s32 (len d), d)
      end
    end.
End compressor.

(** ** Theory *)

(** [z] is the compressed form of [d] for a compressor of the same algorithm, at
    any buffer that is large enough. *)
Definition compressed_as `{Codecs} (k : codec) (d z : list Z) : Prop :=
  0 < len z <= len d + len d / 255 + 64 /\ Forall is_byte z /\
  forall c cap, c_codec c = k -> len d <= cap -> src_blk_size c <= cap -> decompress c z cap = (len d, d).

Section theory.
Context `{CodecsLaws}.

Lemma codec_create_run o : (algo o = LZ4 \/ algo o = ZSTD) -> 0 <= block_size o <= 2 ^ 16 ->
  exists c, create_compressor o = Some c /\ src_blk_size c = block_size o /\
    c_codec c = (if algo o =? LZ4 then LZ4Compressor else Compressor_zstd) /\
    0 <= max_dst_size c <= block_size o + block_size o / 255 + 64.
Proof.
  intros Ha Hb. pose proof (lz4_bound (block_size o) Hb). pose proof (zstd_bound (block_size o) Hb).
  assert (block_size o / 255 <= 2 ^ 16) by dlia. unfold create_compressor, LZ4Compressor_init, Compressor_zstd_init.
  destruct Ha as [-> | ->]; cbn [Z.eqb LZ4 ZSTD Pos.eqb negb].
  - eexists. split; [done|]. cbn [c_codec max_dst_size src_blk_size]. rewrite u32_small by lia. split; [done|]. split; [done|lia].
  - eexists. split; [done|]. cbn [c_codec max_dst_size src_blk_size]. rewrite u32_small by lia. split; [done|]. split; [done|lia].
Qed.

(** A block is compressed into a buffer with room for it. *)
Lemma do_compress_one c d cap : 0 < len d <= 2 ^ 16 -> Forall is_byte d -> max_dst_size c <= cap ->
  len d + len d / 255 + 64 <= cap -> exists z, do_compress c [d] cap = (0, [z]) /\ compressed_as (c_codec c) d z.
Proof.
  intros Hd Hb Hc Hcap. pose proof (lz4_bound (len d) ltac:(lia)). pose proof (zstd_bound (len d) ltac:(lia)).
  assert (len d / 255 <= 2 ^ 16) by dlia. cbn [do_compress]. destruct (c_codec c) eqn:Hk.
  - destruct (lz4_compress d cap Hd Hb) as (z & -> & Hz & Hbz & Hdec); [lia|]. exists z.
    destruct (Z.ltb_spec (len z) 0); [lia|]. destruct (Z.eqb_spec (len z) 0); [lia|]. split; [done|].
    split; [lia|]. split; [done|]. intros c' cap' Hk' Hl Hs. unfold decompress. rewrite Hk', Hdec by done.
    destruct (Z.ltb_spec cap' (src_blk_size c')); [lia|]. destruct (Z.ltb_spec (len d) 0); [lia|]. by destruct (Z.eqb_spec (len d) 0); [lia|].
  - unfold zstd_compress_one. destruct (Z.ltb_spec cap (max_dst_size c)); [lia|].
    destruct (zstd_compress d cap Hd Hb) as (z & -> & Hz & Hbz & Hdec); [lia|]. exists z. rewrite s32_small by lia.
    destruct (Z.ltb_spec (len z) 0); [lia|]. split; [done|].
    split; [lia|]. split; [done|]. intros c' cap' Hk' Hl Hs. unfold decompress. rewrite Hk', Hdec by done.
    destruct (Z.ltb_spec cap' (src_blk_size c')); [lia|]. by rewrite s32_small by lia.
Qed.

Lemma compress_batch_one c src d cap : 0 < len d <= 2 ^ 16 -> Forall is_byte d -> max_dst_size c <= cap ->
  len d + len d / 255 + 64 <= cap ->
  exists z, compress_batch c (d ++ src) [len d] cap 1 = Some (0, [z]) /\ compressed_as (c_codec c) d z.
Proof.
  intros Hd Hb Hc Hcap. destruct (do_compress_one c d cap Hd Hb Hc Hcap) as (z & Hrun & Hz). exists z. split; [|done].
  unfold compress_batch. rewrite Z.div_1_r. cbn [Z.eqb]. destruct (Z.ltb_spec cap (max_dst_size c)); [lia|].
  change (nbatch c <? 1) with false. cbn iota. change (Z.to_nat 1) with 1%nat. cbn [take cut_pieces].
  pose proof (len_nonneg src). rewrite len_app. destruct (Z.ltb_spec (len d + len src) (len d)); [lia|]. cbn [mbind option_bind].
  unfold len at 1. rewrite Nat2Z.id, take_app_length. by rewrite Hrun.
Qed.

Lemma codec_compress_run c d cap : 0 < len d <= 2 ^ 16 -> Forall is_byte d -> max_dst_size c <= cap ->
  len d + len d / 255 + 64 <= cap -> exists z, compress c d cap = Some (len z, z) /\ compressed_as (c_codec c) d z /\
    compress_batch c d [len d] cap 1 = Some (0, [z]).
Proof.
  intros Hd Hb Hc Hcap. destruct (compress_batch_one c [] d cap Hd Hb Hc Hcap) as (z & Hrun & Hz). rewrite app_nil_r in Hrun.
  exists z. split; [|done]. assert (len d / 255 <= 2 ^ 16) by dlia. destruct Hz as (Hz & _). unfold compress. destruct (c_codec c) eqn:Hk.
  - rewrite Hrun. cbn [mbind option_bind Z.eqb negb head]. by rewrite s32_small by lia.
  - destruct (do_compress_one c d cap Hd Hb Hc Hcap) as (z' & Hrun' & _). revert Hrun. unfold compress_batch.
    rewrite Z.div_1_r. cbn [Z.eqb]. destruct (Z.ltb_spec cap (max_dst_size c)); [lia|].
    change (nbatch c <? 1) with false. cbn iota. change (Z.to_nat 1) with 1%nat. cbn [take cut_pieces].
    destruct (Z.ltb_spec (len d) (len d)); [lia|]. cbn [mbind option_bind]. unfold len at 1. rewrite Nat2Z.id, firstn_all.
    cbn [do_compress]. rewrite Hk. destruct (zstd_compress_one c d cap) as [ret z''] eqn:Hone. intros Hrun.
    destruct (Z.ltb_spec ret 0); [by injection Hrun|]. injection Hrun as <-. f_equal. f_equal.
    unfold zstd_compress_one in Hone. destruct (Z.ltb_spec cap (max_dst_size c)); [lia|].
    destruct (ZSTD_compress d cap) as [|x]; injection Hone as <- <-; [lia|]. by rewrite s32_small by lia.
Qed.
End theory.
