(* ===== verification/ZFile.v ===== *)
(** Compressed files with random access: the classes [CompressionFile],
    [JumpTable] and [BlockReader] of overlaybd/src/overlaybd/zfile/zfile.cpp.

    A file is a header, the compressed blocks, each with its checksum when the
    option is set, a table of their sizes, for variable blocks a second table of
    the sizes before compression, and a trailer.  A read finds the blocks it
    needs through the jump table, reads as many as fit into a buffer of 64 KB,
    and decompresses them one after the other.

    [sse42] says whether the processor has the CRC instruction and [base] is the
    address of the buffers; the checksum depends on neither (Crc32).  Buffers on
    the stack are not initialised: what they hold is an argument. *)

From S2P Require Import Prelude Files Crc32 Compressor.

Definition BUF_SIZE : Z := 512.
Definition NOI_WELL_KNOWN_PRIME : Z := 100007.
Definition FLAG_VALID_FALSE : Z := 0.
Definition FLAG_VALID_TRUE : Z := 1.
Definition FLAG_VALID_CRC_CHECK : Z := 2.
Definition MAX_READ_SIZE : Z := 65536.
Definition EIO : Z := 5.
Definition ERANGE : Z := 34.

Section crc.
Variables (sse42 : bool) (base : Z).

(** The checksum of the first [size] bytes at [off] of a buffer; reading behind the
    buffer is a stop. *)
Definition crc32c_salt (buf : list Z) (off size : Z) : option Z :=
  if len buf <? off + size then None
  else crc32c_extend sse42 (base + off) (take (Z.to_nat size) (drop (Z.to_nat off) buf)) size NOI_WELL_KNOWN_PRIME.
End crc.

(** ** [HeaderTrailer] *)

(** [HeaderTrailer::SPACE] *)
Definition SPACE : Z := 512.
Definition MAGIC0 : Z := 0x000100656c69465a.
Definition MAGIC1 : list Z :=
  [0x74; 0x75; 0x6a; 0x69; 0x2e; 0x79; 0x79; 0x66; 0x40; 0x41; 0x6c; 0x69; 0x62; 0x61; 0x62; 0x61].

Record HeaderTrailer := mkHT {
  magic0 : Z;
  magic1 : list Z;
  ht_size : Z;
  digest : Z;
  flags : Z;
  index_offset : Z;
  index_size : Z;
  original_file_size : Z;
  index_crc : Z;
  reserved_0 : Z;
  ht_opt : CompressOptions
}.

Definition sizeof_HeaderTrailer : Z := 96.

(** The object [new (buf) HeaderTrailer] makes in a buffer of zeros. *)
Definition HeaderTrailer_new : HeaderTrailer :=
  mkHT MAGIC0 MAGIC1 sizeof_HeaderTrailer 0 0 0 0 0 0 0 (CompressOptions_new LZ4 DEFAULT_BLOCK_SIZE 0).

Definition verify_magic (h : HeaderTrailer) : bool := (magic0 h =? MAGIC0) && bool_decide (magic1 h = MAGIC1).

Definition FLAG_SHIFT_HEADER : Z := 0.
Definition FLAG_SHIFT_TYPE : Z := 1.
Definition FLAG_SHIFT_SEALED : Z := 2.
Definition FLAG_SHIFT_HEADER_OVERWRITE : Z := 3.
Definition FLAG_SHIFT_CALC_DIGEST : Z := 4.
Definition FLAG_SHIFT_IDX_COMP : Z := 5.
Definition FLAG_SHIFT_FASTCDC : Z := 6.

Definition with_flags (f : Z) (h : HeaderTrailer) : HeaderTrailer :=
  mkHT (magic0 h) (magic1 h) (ht_size h) (digest h) f (index_offset h) (index_size h) (original_file_size h)
    (index_crc h) (reserved_0 h) (ht_opt h).
Definition with_digest (d : Z) (h : HeaderTrailer) : HeaderTrailer :=
  mkHT (magic0 h) (magic1 h) (ht_size h) d (flags h) (index_offset h) (index_size h) (original_file_size h)
    (index_crc h) (reserved_0 h) (ht_opt h).
(** The fields of the index and the size, as they are set when all is written. *)
Definition with_index (io isz size crc : Z) (h : HeaderTrailer) : HeaderTrailer :=
  mkHT (magic0 h) (magic1 h) (ht_size h) (digest h) (flags h) io isz size crc (reserved_0 h) (ht_opt h).

Definition get_flag_bit (shift : Z) (h : HeaderTrailer) : Z := Z.land (flags h) (Z.shiftl 1 shift).
Definition set_flag_bit (shift : Z) (h : HeaderTrailer) : HeaderTrailer := with_flags (Z.lor (flags h) (Z.shiftl 1 shift)) h.
Definition clr_flag_bit (shift : Z) (h : HeaderTrailer) : HeaderTrailer := with_flags (Z.ldiff (flags h) (Z.shiftl 1 shift)) h.

Definition is_header (h : HeaderTrailer) : bool := negb (get_flag_bit FLAG_SHIFT_HEADER h =? 0).
Definition is_header_overwrite (h : HeaderTrailer) : bool := negb (get_flag_bit FLAG_SHIFT_HEADER_OVERWRITE h =? 0).
Definition is_trailer (h : HeaderTrailer) : bool := negb (is_header h).
Definition is_data_file (h : HeaderTrailer) : bool := negb (get_flag_bit FLAG_SHIFT_TYPE h =? 0).
Definition is_index_file (h : HeaderTrailer) : bool := negb (is_data_file h).
Definition is_sealed (h : HeaderTrailer) : bool := negb (get_flag_bit FLAG_SHIFT_SEALED h =? 0).
Definition is_digest_enabled (h : HeaderTrailer) : bool := negb (get_flag_bit FLAG_SHIFT_CALC_DIGEST h =? 0).
Definition is_fastcdc (h : HeaderTrailer) : bool := negb (get_flag_bit FLAG_SHIFT_FASTCDC h =? 0).

Definition set_header := set_flag_bit FLAG_SHIFT_HEADER.
Definition set_trailer := clr_flag_bit FLAG_SHIFT_HEADER.
Definition set_data_file := set_flag_bit FLAG_SHIFT_TYPE.
Definition set_index_file := clr_flag_bit FLAG_SHIFT_TYPE.
Definition set_sealed := set_flag_bit FLAG_SHIFT_SEALED.
Definition clr_sealed := clr_flag_bit FLAG_SHIFT_SEALED.
Definition set_header_overwrite := set_flag_bit FLAG_SHIFT_HEADER_OVERWRITE.
Definition set_digest_enable := set_flag_bit FLAG_SHIFT_CALC_DIGEST.
Definition set_compress_index := set_flag_bit FLAG_SHIFT_IDX_COMP.
Definition set_fastcdc := set_flag_bit FLAG_SHIFT_FASTCDC.
Definition set_compress_option (o : CompressOptions) (h : HeaderTrailer) : HeaderTrailer :=
  mkHT (magic0 h) (magic1 h) (ht_size h) (digest h) (flags h) (index_offset h) (index_size h) (original_file_size h)
    (index_crc h) (reserved_0 h) o.

(** The structure in memory, with its padding. *)
Definition opt_bytes (o : CompressOptions) : list Z :=
  le_bytes 4 (block_size o) ++ le_bytes 1 (algo o) ++ le_bytes 1 (level o) ++ le_bytes 1 (use_dict o) ++ [0] ++
  le_bytes 4 0 ++ le_bytes 4 (dict_size o) ++ le_bytes 1 (verify o) ++ zeros 7.
Definition ht_bytes (h : HeaderTrailer) : list Z :=
  le_bytes 8 (magic0 h) ++ magic1 h ++ le_bytes 4 (ht_size h) ++ le_bytes 4 (digest h) ++ le_bytes 8 (flags h) ++
  le_bytes 8 (index_offset h) ++ le_bytes 8 (index_size h) ++ le_bytes 8 (original_file_size h) ++
  le_bytes 4 (index_crc h) ++ le_bytes 4 (reserved_0 h) ++ opt_bytes (ht_opt h).

Definition get_opt : M (list Z) CompressOptions :=
  bs ← get_le 4; al ← get_le 1; lv ← get_le 1; ud ← get_le 1; _ ← get_bytes 1; _ ← get_bytes 4;
  ds ← get_le 4; ve ← get_le 1; _ ← get_bytes 7;
  mret (mkOptions bs al lv ud ds ve).
Definition get_ht : M (list Z) HeaderTrailer :=
  m0 ← get_le 8; m1 ← get_bytes 16; sz ← get_le 4; dg ← get_le 4; fl ← get_le 8;
  io ← get_le 8; isz ← get_le 8; os ← get_le 8; ic ← get_le 4; rs ← get_le 4; o ← get_opt;
  mret (mkHT m0 m1 sz dg fl io isz os ic rs o).
Definition parse_ht (l : list Z) : HeaderTrailer :=
  match get_ht l with Some (h, _) => h | None => HeaderTrailer_new end.

(** The 512 bytes that are written. *)
Definition header_block (h : HeaderTrailer) : list Z := ht_bytes h ++ zeros (SPACE - sizeof_HeaderTrailer).

(** The buffer with the field of the digest cleared. *)
Definition zero_digest (buf : list Z) : list Z := take 28 buf ++ zeros 4 ++ drop 32 buf.

(** [is_valid], on the whole buffer of 512 bytes. *)
Definition is_valid (sse42 : bool) (base : Z) (buf : list Z) : option bool :=
  let h := parse_ht buf in
  if negb (is_digest_enabled h) then Some true
  else crc ← crc32c sse42 base (zero_digest buf) SPACE; Some (crc =? digest h).

(** ** [JumpTable] *)

Definition uinttype_max : Z := 65535.

Record JumpTable := mkJump { group_size : Z; partial_offset : list Z; deltas : list Z }.
Definition JumpTable_empty : JumpTable := mkJump 0 [] [].

(** [operator[]] *)
Definition jump (t : JumpTable) (idx : Z) : option Z :=
  if group_size t =? 0 then None
  else
    part ← partial_offset t !! Z.to_nat (idx / group_size t);
    if Z.land idx (group_size t - 1) =? 0 then Some part
    else d ← deltas t !! Z.to_nat idx; Some (part + d).

(** The loop of [build] from [i]; [ibuf] is what is left of the array.  The first
    component is the result of [build]. *)
Fixpoint build_loop (min_blksize : Z) (ibuf : list Z) (i raw_offset : Z) (t : JumpTable) : option (Z * JumpTable) :=
  match ibuf with
  | [] => Some (0, t)
  | n :: ibuf =>
    if n <=? min_blksize then Some (-1, t)
    else
      let raw_offset := s64 (raw_offset + n) in
      if i mod group_size t =? 0 then
        build_loop min_blksize ibuf (i + 1) raw_offset
          (mkJump (group_size t) (partial_offset t ++ [u64 raw_offset]) (deltas t ++ [0]))
      else
        d ← deltas t !! Z.to_nat (i - 1);
        if uinttype_max <=? d + n then Some (-1, t)
        else build_loop min_blksize ibuf (i + 1) raw_offset (mkJump (group_size t) (partial_offset t) (deltas t ++ [u16 (d + n)]))
  end.

(** [build]; the division by a group size of zero is a stop. *)
Definition build (ibuf : list Z) (offset_begin bsize : Z) (enable_crc : bool) : option (Z * JumpTable) :=
  if bsize =? 0 then None
  else
    let group_size := (uinttype_max + 1) / bsize in
    if group_size =? 0 then None
    else build_loop (if enable_crc then 4 else 0) ibuf 1 offset_begin (mkJump group_size [u64 offset_begin] [0]).

(** ** [CompressionFile] *)

Record CompressionFile := mkZFile {
  m_jump_table : JumpTable;
  m_raw_block_sizes : list Z;
  m_ht : HeaderTrailer;
  m_file : Z;
  m_compressor : option ICompressor;
  valid : Z
}.

(** Blocks of variable size with a table of their sizes. *)
Definition variable_blocks (z : CompressionFile) : bool := is_fastcdc (m_ht z) && negb (bool_decide (m_raw_block_sizes z = [])).

(** ** [BlockReader] *)

(** The object without the pointer to its file; [m_buf] is the buffer of 64 KB. *)
Record BlockReader := mkReader {
  m_buf_offset : Z;
  m_begin_idx : Z;
  m_original_begin_idx : Z;
  m_idx : Z;
  m_end_idx : Z;
  m_original_offset : Z;
  m_end : Z;
  m_verify : Z;
  m_block_size : Z;
  m_eno : Z;
  m_buf : list Z
}.

Definition set_buf_offset (v : Z) (b : BlockReader) : BlockReader :=
  mkReader v (m_begin_idx b) (m_original_begin_idx b) (m_idx b) (m_end_idx b) (m_original_offset b) (m_end b)
    (m_verify b) (m_block_size b) (m_eno b) (m_buf b).
Definition set_begin_idx (v : Z) (b : BlockReader) : BlockReader :=
  mkReader (m_buf_offset b) v (m_original_begin_idx b) (m_idx b) (m_end_idx b) (m_original_offset b) (m_end b)
    (m_verify b) (m_block_size b) (m_eno b) (m_buf b).
Definition set_idx (v : Z) (b : BlockReader) : BlockReader :=
  mkReader (m_buf_offset b) (m_begin_idx b) (m_original_begin_idx b) v (m_end_idx b) (m_original_offset b) (m_end b)
    (m_verify b) (m_block_size b) (m_eno b) (m_buf b).
Definition set_eno (v : Z) (b : BlockReader) : BlockReader :=
  mkReader (m_buf_offset b) (m_begin_idx b) (m_original_begin_idx b) (m_idx b) (m_end_idx b) (m_original_offset b) (m_end b)
    (m_verify b) (m_block_size b) v (m_buf b).
Definition set_buf (v : list Z) (b : BlockReader) : BlockReader :=
  mkReader (m_buf_offset b) (m_begin_idx b) (m_original_begin_idx b) (m_idx b) (m_end_idx b) (m_original_offset b) (m_end b)
    (m_verify b) (m_block_size b) (m_eno b) v.

(** The loops of the constructor over the sizes of the blocks.  A sum of 32-bit
    sizes of a table in memory does not overflow 64 bits. *)
Fixpoint find_begin (sizes : list Z) (i cumulative_offset offset : Z) : Z :=
  match sizes with
  | [] => 0
  | n :: sizes => if offset <? cumulative_offset + n then i else find_begin sizes (i + 1) (cumulative_offset + n) offset
  end.
Fixpoint find_end (sizes : list Z) (i cumulative_offset end_ : Z) : Z :=
  match sizes with
  | [] => i
  | n :: sizes => if end_ <? cumulative_offset + n then i + 1 else find_end sizes (i + 1) (cumulative_offset + n) end_
  end.
Definition total_size (l : list Z) : Z := foldr Z.add 0 l.

(** An iterator that is not the end. *)
Record iterator := mkIter { compressed_size : Z; cp_begin : Z; cp_len : Z }.

(** The state of a read: the files, the reader, the buffer of the caller with the
    place that is written next, and the local buffer [raw]. *)
Record reading (W : Type) := mkReading { rd_world : W; rd_br : BlockReader; rd_out : list Z; rd_pos : Z; rd_raw : list Z }.
#[global] Arguments mkReading {_} _ _ _ _ _.
#[global] Arguments rd_world {_} _.
#[global] Arguments rd_br {_} _.
#[global] Arguments rd_out {_} _.
#[global] Arguments rd_pos {_} _.
#[global] Arguments rd_raw {_} _.

Section reader.
Context {W : Type} `{IFiles W, ISparseFiles W, Codecs}.
Variables (sse42 : bool) (base : Z) (z : CompressionFile).
Abbreviation R := (reading W).

Definition set_br (b : BlockReader) (r : R) : R := mkReading (rd_world r) b (rd_out r) (rd_pos r) (rd_raw r).
Definition set_out (l : list Z) (r : R) : R := mkReading (rd_world r) (rd_br r) l (rd_pos r) (rd_raw r).
Definition set_pos (p : Z) (r : R) : R := mkReading (rd_world r) (rd_br r) (rd_out r) p (rd_raw r).
Definition set_raw (l : list Z) (r : R) : R := mkReading (rd_world r) (rd_br r) (rd_out r) (rd_pos r) l.
Definition on_files {A} (m : M W A) : M R A :=
  zoom rd_world (fun w r => mkReading w (rd_br r) (rd_out r) (rd_pos r) (rd_raw r)) m.
Definition reader {A} (f : BlockReader -> A) : M R A := gets (fun r => f (rd_br r)).
Definition upd_reader (f : BlockReader -> BlockReader) : M R unit := modify (fun r => set_br (f (rd_br r)) r).

(** The constructor; the buffer holds what is on the stack. *)
Definition BlockReader_new (offset count : Z) (stack : list Z) : option BlockReader :=
  let bs := block_size (ht_opt (m_ht z)) in
  let v := verify (ht_opt (m_ht z)) in
  if variable_blocks z then
    let b := find_begin (m_raw_block_sizes z) 0 0 offset in
    let e := offset + count - 1 in
    Some (mkReader 0 b b b (find_end (m_raw_block_sizes z) 0 0 e) offset e v bs 0 stack)
  else if bs =? 0 then None
  else Some (mkReader 0 (offset / bs) 0 (offset / bs) ((offset + count - 1) / bs + 1) offset (offset + count - 1) v bs 0 stack).

Definition get_blocks_length (begin end_ : Z) : M R Z :=
  BUG_ON (end_ <? begin);;
  e ← lift (jump (m_jump_table z) end_);
  b ← lift (jump (m_jump_table z) begin);
  mret (u64 (e - b)).

(** [pread] into the buffer at [at_]. *)
Definition pread_buf (at_ count off : Z) : M R Z :=
  '(ret, data) ← on_files (f_pread (m_file z) count off);
  BUG_ON (MAX_READ_SIZE <? at_ + len data);;
  upd_reader (fun b => set_buf (splice at_ data (m_buf b)) b);;
  mret ret.

Definition reload (idx : Z) : M R Z :=
  read_size ← get_blocks_length idx (idx + 1);
  begin_offset ← lift (jump (m_jump_table z) idx);
  trim_res ← on_files (f_trim (m_file z) begin_offset read_size);
  if trim_res <? 0 then mret (-1)
  else
    at_ ← reader m_buf_offset;
    readn ← pread_buf at_ read_size begin_offset;
    if negb (readn =? s64 read_size) then mret (-1) else mret 0.

(** [errno] is [EIO] when the read is short without an error. *)
Definition read_blocks (begin end_ : Z) : M R Z :=
  n ← get_blocks_length begin end_;
  let read_size := Z.min MAX_READ_SIZE n in
  begin_offset ← lift (jump (m_jump_table z) begin);
  readn ← pread_buf 0 read_size begin_offset;
  if negb (readn =? read_size) then upd_reader (set_eno EIO);; mret (-1) else mret 0.

Definition get_buf_offset (idx : Z) : M R Z := b ← reader m_begin_idx; get_blocks_length b idx.
Definition buf_exceed (idx : Z) : M R bool :=
  b ← reader m_begin_idx; n ← get_blocks_length b (idx + 1); mret (MAX_READ_SIZE <? n).

Definition get_inblock_offset (offset blk_idx : Z) : M R Z :=
  if variable_blocks z then
    BUG_ON (Z.of_nat (length (m_raw_block_sizes z)) <? blk_idx);;
    mret (u64 (offset - total_size (take (Z.to_nat blk_idx) (m_raw_block_sizes z))))
  else bs ← reader m_block_size; BUG_ON (bs =? 0);; mret (offset mod bs).

Definition br_block_size : M R Z :=
  i ← reader m_idx; bs ← reader m_block_size;
  mret (if variable_blocks z then default bs (m_raw_block_sizes z !! Z.to_nat i) else bs).

Definition br_compressed_size : M R Z :=
  i ← reader m_idx; v ← reader m_verify;
  n ← get_blocks_length i (i + 1);
  mret (u64 (n - (if v =? 0 then 0 else 4))).

(** [crc32_code]; reading behind the buffer is a stop. *)
Definition crc32_code : M R Z :=
  v ← reader m_verify;
  if v =? 0 then mret (u32 (-1))
  else
    c ← br_compressed_size; o ← reader m_buf_offset; buf ← reader m_buf;
    '(x, _) ← lift (load32 (drop (Z.to_nat (o + c)) buf));
    mret x.

(** [get_current_block] of an iterator; [None] is the result -1. *)
Definition get_current_block : M R (option iterator) :=
  blk_idx ← reader m_idx;
  o ← get_buf_offset blk_idx;
  upd_reader (set_buf_offset o);;
  if MAX_READ_SIZE <=? o then upd_reader (set_eno ERANGE);; mret None
  else
    csize ← br_compressed_size;
    if MAX_READ_SIZE <? o + csize then upd_reader (set_eno ERANGE);; mret None
    else
      first ← reader m_original_begin_idx;
      off ← reader m_original_offset;
      begin ← (if blk_idx =? first then get_inblock_offset off blk_idx else mret 0);
      n ← br_block_size;
      last ← reader m_end_idx;
      e ← reader m_end;
      n ← (if blk_idx =? last - 1 then x ← get_inblock_offset e blk_idx; mret (x + 1) else mret n);
      mret (Some (mkIter csize begin (u64 (n - begin)))).

(** [begin] and the increment; [None] is the end. *)
Definition iter_begin : M R (option iterator) :=
  i ← reader m_idx; e ← reader m_end_idx;
  ret ← read_blocks i e;
  if negb (ret =? 0) then mret None else get_current_block.

Definition iter_end : M R (option iterator) := e ← reader m_end_idx; upd_reader (set_idx e);; mret None.
Definition iter_next : M R (option iterator) :=
  i ← reader m_idx; e ← reader m_end_idx;
  let i := i + 1 in
  upd_reader (set_idx i);;
  if i =? e then iter_end
  else
    exceed ← buf_exceed i;
    ok ← ((if (exceed : bool) then
             ret ← read_blocks i e;
             if negb (ret =? 0) then mret false else upd_reader (set_begin_idx i);; mret true
           else mret true) : M R bool);
    if negb ok then iter_end
    else
      it ← get_current_block;
      match it with None => iter_end | Some it => mret (Some it) end.

(** ** [pread] *)

(** The checksum of the current block, computed and stored. *)
Definition block_crc (it : iterator) : M R (Z * Z) :=
  o ← reader m_buf_offset; buf ← reader m_buf;
  c ← lift (crc32c_salt sse42 base buf o (compressed_size it));
  code ← crc32_code;
  mret (c, code).

(** Store [data] in the buffer of the caller; behind its end is a stop. *)
Definition store_out (data : list Z) : M R unit := fun r =>
  if len (rd_out r) <? rd_pos r + len data then None else Some (tt, set_out (splice (rd_pos r) data (rd_out r)) r).

(** Decompress the current block, directly or through [raw]. *)
Definition decompress_block (it : iterator) (bytes_to_copy : Z) : M R Z :=
  o ← reader m_buf_offset; buf ← reader m_buf;
  BUG_ON (len buf <? o + compressed_size it);;
  c ← lift (m_compressor z);
  let bs := block_size (ht_opt (m_ht z)) in
  let '(dret, data) := decompress c (take (Z.to_nat (compressed_size it)) (drop (Z.to_nat o) buf)) bs in
  if (cp_len it =? bs) && (bytes_to_copy =? cp_len it) then store_out data;; mret dret
  else
    BUG_ON (MAX_READ_SIZE <? len data);;
    modify (fun r => set_raw (splice 0 data (rd_raw r)) r);;
    if dret =? -1 then mret dret
    else
      raw ← gets rd_raw;
      BUG_ON (MAX_READ_SIZE <? cp_begin it + bytes_to_copy);;
      store_out (take (Z.to_nat bytes_to_copy) (drop (Z.to_nat (cp_begin it)) raw));;
      mret dret.

(** One block, from the label [again] with [retry] attempts left: [inl] is a
    return from [pread], [inr] the bytes read so far. *)
Fixpoint read_block (retry : nat) (cnt readn : Z) (it : iterator) : M R (Z + Z) :=
  '(c, code) ← (if verify (ht_opt (m_ht z)) =? 0 then mret (0, 0) else block_crc it);
  let retry_or (e : Z) : M R (Z + Z) :=
    match retry with
    | O => mret (inl e)
    | S retry =>
      i ← reader m_idx;
      reload_res ← reload i;
      if reload_res <? 0 then mret (inl (-1)) else read_block retry cnt readn it
    end in
  if negb (c =? code) then (if valid z =? FLAG_VALID_TRUE then retry_or (-1) else mret (inl (-1)))
  else if valid z =? FLAG_VALID_CRC_CHECK then mret (inr (readn + cp_len it))
  else
    let bytes_to_copy := if cnt <? readn + cp_len it then cnt - readn else cp_len it in
    dret ← decompress_block it bytes_to_copy;
    if dret =? -1 then retry_or (-1)
    else
      modify (fun r => set_pos (rd_pos r + bytes_to_copy) r);;
      mret (inr (readn + bytes_to_copy)).

Fixpoint read_loop (fuel : nat) (null : bool) (cnt readn : Z) (it : option iterator) : M R (Z + Z) :=
  match it with
  | None => mret (inr readn)
  | Some it =>
    match fuel with
    | O => bug
    | S fuel =>
      if null then next ← iter_next; read_loop fuel null cnt (readn + cp_len it) next
      else if cnt <=? readn then mret (inr readn)
      else
        r ← read_block 3 cnt readn it;
        match r with
        | inl e => mret (inl e)
        | inr readn => next ← iter_next; read_loop fuel null cnt readn next
        end
    end
  end.
End reader.

(** [pread]; [None] as the buffer is the null pointer, and [stack] and [raw] are
    what the local buffers hold at first.  The result with the buffer. *)
Definition zfile_pread {W} `{IFiles W, ISparseFiles W, Codecs} (sse42 : bool) (base : Z) (z : CompressionFile) (stack raw : list Z)
    (buf : option (list Z)) (count offset : Z) : M W (Z * list Z) := fun w =>
  let out := default [] buf in
  let size := original_file_size (m_ht z) in
  if MAX_READ_SIZE <? block_size (ht_opt (m_ht z)) then Some ((-1, out), w)
  else
    let cnt := s64 count in
    let cnt := if s64 size <? offset + cnt then s64 (size - offset) else cnt in
    if cnt <=? 0 then Some ((0, out), w)
    else
      match BlockReader_new z offset cnt stack with
      | None => None
      | Some br =>
        let run : M (reading W) (Z + Z) :=
          it ← iter_begin z;
          read_loop sse42 base z (S (Z.to_nat (m_end_idx br - m_idx br))) (bool_decide (buf = None)) cnt 0 it in
        match run (mkReading w br out 0 raw) with
        | None => None
        | Some (inl e, r) => Some ((e, rd_out r), rd_world r)
        | Some (inr readn, r) =>
          let ret := if negb (m_eno (rd_br r) =? 0) then -1 else if cnt <? readn then cnt else readn in
          Some ((ret, rd_out r), rd_world r)
        end
      end.
