(* ===== verification/ZJump.v ===== *)
(** The jump table of a compressed file: [JumpTable::build] and [operator[]] of
    ZFile.

    The table gives the place of a block as a 64-bit offset per group of blocks and
    a 16-bit distance in the group.  It is right when the size of a group is a
    power of two ([build_jump]), and it can be built when the blocks of a group are
    small enough together ([build_total]). *)

From S2P Require Import Prelude Files Compressor ZFile.

Definition sizes_sum (l : list Z) (j : nat) : Z := total_size (take j l).

Lemma total_app a b : total_size (a ++ b) = total_size a + total_size b.
Proof. unfold total_size. induction a as [|x a IH]; simpl; [done|lia]. Qed.

Lemma sizes_sum_S l j n : l !! j = Some n -> sizes_sum l (S j) = sizes_sum l j + n.
Proof. intros Hn. unfold sizes_sum. rewrite (take_S_r _ _ _ Hn), total_app. unfold total_size at 2. simpl. lia. Qed.

Lemma sizes_sum_mono l i j : Forall (fun n => 0 <= n) l -> (i <= j)%nat -> sizes_sum l i <= sizes_sum l j.
Proof.
  intros Hl Hij. unfold sizes_sum. replace j with (i + (j - i))%nat by lia. rewrite <- take_take_drop, total_app.
  assert (0 <= total_size (take (j - i) (drop i l))); [|lia]. assert (Forall (fun n => 0 <= n) (take (j - i) (drop i l))) as Hf by (by apply Forall_take, Forall_drop).
  unfold total_size. induction Hf; simpl; lia.
Qed.

Section build.
Variables (g : nat) (base0 : Z) (l : list Z).
Hypothesis Hg : (0 < g)%nat.
Hypothesis Hbase : 0 <= base0.
Hypothesis Hl : Forall (fun n => 0 <= n < 2 ^ 32) l.
Hypothesis Hsum : base0 + sizes_sum l (length l) < 2 ^ 63.

(** The start of the group of [j]. *)
Definition group (j : nat) : nat := (g * (j / g))%nat.

Lemma group_le j : (group j <= j)%nat.
Proof. apply Nat.Div0.mul_div_le. Qed.

(** The table after [k] blocks. *)
Definition built (k : nat) (t : JumpTable) : Prop :=
  group_size t = Z.of_nat g /\ length (deltas t) = S k /\ length (partial_offset t) = S (k / g) /\
  (forall j, (j <= k)%nat -> deltas t !! j = Some (sizes_sum l j - sizes_sum l (group j)) /\ 0 <= sizes_sum l j - sizes_sum l (group j) < uinttype_max) /\
  forall q, (q * g <= k)%nat -> partial_offset t !! q = Some (base0 + sizes_sum l (q * g)).

Lemma sum_range j : (j <= length l)%nat -> 0 <= sizes_sum l j <= sizes_sum l (length l).
Proof.
  intros Hj. assert (Forall (fun n => 0 <= n) l) as Hp by (eapply Forall_impl; [exact Hl|]; simpl; lia).
  pose proof (sizes_sum_mono l 0 j Hp ltac:(lia)). pose proof (sizes_sum_mono l j (length l) Hp Hj). done.
Qed.

Lemma built_0 : built 0 (mkJump (Z.of_nat g) [u64 base0] [0]).
Proof.
  pose proof (sum_range (length l)). rewrite u64_small by lia.
  split; [done|]. split; [done|]. split; [cbn [partial_offset length]; by rewrite Nat.Div0.div_0_l|]. split.
  - intros j Hj. assert (j = 0)%nat as -> by lia. pose proof (group_le 0). assert (group 0 = 0)%nat as -> by lia.
    rewrite Z.sub_diag. split; [done|unfold uinttype_max; lia].
  - intros q Hq. assert (q = 0)%nat as -> by nia. cbn. f_equal. unfold sizes_sum. simpl. lia.
Qed.

(** One block more, in a new group or in the same. *)
Lemma div_step k : (k < length l)%nat ->
  ((S k mod g = 0)%nat /\ group (S k) = S k /\ (S k / g = S (k / g))%nat) \/
  ((S k mod g <> 0)%nat /\ group (S k) = group k /\ (S k / g = k / g)%nat).
Proof.
  intros Hk. unfold group. pose proof (Nat.div_mod_eq k g). pose proof (Nat.mod_upper_bound k g ltac:(lia)).
  destruct (decide (S (k mod g) = g)) as [He|Hne].
  - left. assert (S k / g = S (k / g))%nat as Hd by (symmetry; apply Nat.div_unique with 0%nat; lia).
    rewrite Hd. pose proof (Nat.div_mod_eq (S k) g). rewrite Hd in *. split; [nia|]. split; [nia|done].
  - right. assert (S k / g = k / g)%nat as Hd by (symmetry; apply Nat.div_unique with (S (k mod g)); lia).
    rewrite Hd. pose proof (Nat.div_mod_eq (S k) g). rewrite Hd in *. split; [nia|done].
Qed.

Lemma built_step k n t : l !! k = Some n -> built k t ->
  (S k mod g = 0)%nat /\ built (S k) (mkJump (group_size t) (partial_offset t ++ [base0 + sizes_sum l (S k)]) (deltas t ++ [0])) \/
  (S k mod g <> 0)%nat /\ exists d, deltas t !! k = Some d /\ d = sizes_sum l k - sizes_sum l (group k) /\ 0 <= d < uinttype_max /\
    (d + n < uinttype_max -> built (S k) (mkJump (group_size t) (partial_offset t) (deltas t ++ [d + n]))).
Proof.
  intros Hn (Hgs & Hld & Hlp & Hd & Hp). pose proof (lookup_lt_Some _ _ _ Hn) as Hk. rewrite (sizes_sum_S _ _ _ Hn).
  assert (Forall (fun n => 0 <= n) l) as Hnn by (eapply Forall_impl; [exact Hl|]; simpl; lia).
  destruct (div_step k Hk) as [(Hm & Hgr & Hdiv)|(Hm & Hgr & Hdiv)]; [left|right]; (split; [done|]).
  - split; [done|]. split; [cbn; rewrite length_app; simpl; lia|]. split; [cbn; rewrite length_app; simpl; lia|]. split.
    + intros j Hj. cbn [deltas]. destruct (decide (j = S k)) as [->|Hne].
      * rewrite Hgr, lookup_app_r, Hld, Nat.sub_diag, Z.sub_diag by lia. split; [done|unfold uinttype_max; lia].
      * destruct (Hd j ltac:(lia)) as [Hj' Hr]. split; [by apply lookup_app_l_Some|done].
    + intros q Hq. cbn [partial_offset]. pose proof (Nat.div_mod_eq (S k) g).
      destruct (decide (q * g <= k)%nat) as [Hle|Hgt]; [apply lookup_app_l_Some; by apply Hp|].
      assert (q * g = S k)%nat as Hqk by lia. assert (q = S (k / g)) as -> by nia.
      rewrite lookup_app_r, Hlp, Nat.sub_diag by lia. rewrite Hqk, (sizes_sum_S _ _ _ Hn). done.
  - destruct (Hd k ltac:(lia)) as [Hdk Hr]. eexists. split; [exact Hdk|]. split; [done|]. split; [done|]. intros Hlt.
    split; [done|]. split; [cbn; rewrite length_app; simpl; lia|]. split; [cbn; lia|]. split.
    + intros j Hj. cbn [deltas]. destruct (decide (j = S k)) as [->|Hne].
      * rewrite Hgr, (sizes_sum_S _ _ _ Hn), lookup_app_r, Hld, Nat.sub_diag by lia. split; [cbn; f_equal; lia|].
        pose proof (sizes_sum_mono l (group k) k Hnn (group_le k)). rewrite Forall_lookup in Hl. specialize (Hl _ _ Hn). lia.
      * destruct (Hd j ltac:(lia)) as [Hj' Hr']. split; [by apply lookup_app_l_Some|done].
    + intros q Hq. cbn [partial_offset]. apply Hp. pose proof (Nat.div_mod_eq (S k) g).
      destruct (decide (q * g = S k)%nat) as [He|]; [|lia]. exfalso. apply Hm. rewrite <- He. apply Nat.Div0.mod_mul.
Qed.

(** The loop: it ends with the whole table, or with an error at a block that is not
    larger than [min], or whose group is too large. *)
Lemma build_loop_run min k t : (k <= length l)%nat -> built k t ->
  exists t', (build_loop min (drop k l) (Z.of_nat (S k)) (base0 + sizes_sum l k) t = Some (0, t') /\ built (length l) t') \/
    (build_loop min (drop k l) (Z.of_nat (S k)) (base0 + sizes_sum l k) t = Some (-1, t') /\
      exists j n, (k <= j)%nat /\ l !! j = Some n /\ (n <= min \/ (S j mod g <> 0)%nat /\ uinttype_max <= sizes_sum l (S j) - sizes_sum l (group j))).
Proof.
  intros Hk. remember (drop k l) as rest eqn:Hrest. revert k t Hk Hrest. induction rest as [|n rest IH]; intros k t Hk Hrest Ht.
  - exists t. left. split; [done|]. assert (k = length l) as ->; [|done]. apply (f_equal length) in Hrest. rewrite length_drop in Hrest. simpl in Hrest. lia.
  - assert (l !! k = Some n) as Hn by (rewrite <- (Nat.add_0_r k), <- lookup_drop, <- Hrest; done). pose proof (lookup_lt_Some _ _ _ Hn).
    assert (rest = drop (S k) l) as Hrest'. { rewrite (drop_S _ _ _ Hn) in Hrest. by injection Hrest. }
    cbn [build_loop]. destruct (Z.leb_spec n min); [exists t; right; split; [done|]; by exists k, n; eauto|].
    pose proof (sum_range k ltac:(lia)). pose proof (sum_range (S k) ltac:(lia)). rewrite (sizes_sum_S _ _ _ Hn) in *.
    replace (Z.of_nat (S k) + 1) with (Z.of_nat (S (S k))) by lia. rewrite s64_small by lia.
    replace (base0 + sizes_sum l k + n) with (base0 + sizes_sum l (S k)) by (rewrite (sizes_sum_S _ _ _ Hn); lia).
    destruct Ht as [Hgs Ht']. rewrite Hgs, <- Nat2Z.inj_mod. rewrite u64_small by (rewrite (sizes_sum_S _ _ _ Hn); lia).
    replace (Z.to_nat (Z.of_nat (S k) - 1)) with k by lia.
    destruct (built_step k n t Hn (conj Hgs Ht')) as [[Hm Hb]|(Hm & d & Hd & Hdv & Hdr & Hb)].
    + rewrite Hm. cbn [Z.of_nat Z.eqb]. rewrite <- Hgs. destruct (IH (S k) _ ltac:(lia) Hrest' Hb) as (t' & [Hr|[Hr (j & m & Hj & Hm')]]); exists t'; [by left|].
      right. split; [done|]. exists j, m. split; [lia|done].
    + destruct (Z.eqb_spec (Z.of_nat (S k mod g)) 0); [lia|]. rewrite Hd. cbn [mbind option_bind].
      destruct (Z.leb_spec uinttype_max (d + n)) as [Hex|Hlt].
      * exists t. right. split; [done|]. exists k, n. split; [done|]. split; [done|]. right. split; [done|]. rewrite (sizes_sum_S _ _ _ Hn). lia.
      * rewrite Forall_lookup in Hl. pose proof (Hl _ _ Hn). unfold u16. rewrite Z.mod_small by (unfold uinttype_max in *; lia).
        rewrite <- Hgs. destruct (IH (S k) _ ltac:(lia) Hrest' (Hb Hlt)) as (t' & [Hr|[Hr (j & m & Hj & Hm')]]); exists t'; [by left|].
        right. split; [done|]. exists j, m. split; [lia|done].
Qed.

(** Looking a block up when the size of a group is a power of two. *)
Lemma jump_built t e j : built (length l) t -> Z.of_nat g = 2 ^ e -> 0 <= e -> (j <= length l)%nat ->
  jump t (Z.of_nat j) = Some (base0 + sizes_sum l j).
Proof.
  intros (Hgs & Hld & Hlp & Hd & Hp) He He0 Hj. unfold jump. rewrite Hgs. destruct (Z.eqb_spec (Z.of_nat g) 0); [lia|].
  rewrite <- Nat2Z.inj_div, !Nat2Z.id. pose proof (group_le j) as Hgj. unfold group in Hgj.
  rewrite (Hp (j / g)%nat) by lia. cbn [mbind option_bind].
  rewrite He, Z.sub_1_r, <- Z.ones_equiv, Z.land_ones, <- He, <- Nat2Z.inj_mod by done.
  pose proof (Nat.div_mod_eq j g) as Hdm. destruct (Z.eqb_spec (Z.of_nat (j mod g)) 0).
  - by replace (j / g * g)%nat with j by lia.
  - destruct (Hd j Hj) as [-> _]. cbn [mbind option_bind]. unfold group. rewrite (Nat.mul_comm (j / g)). f_equal. lia.
Qed.
End build.

Lemma build_run l base0 bs (crc : bool) : 0 < bs <= MAX_READ_SIZE -> 0 <= base0 -> Forall (fun n => 0 <= n < 2 ^ 32) l ->
  base0 + sizes_sum l (length l) < 2 ^ 63 ->
  let g := Z.to_nat ((uinttype_max + 1) / bs) in
  exists t, (build l base0 bs crc = Some (0, t) /\ built g base0 l (length l) t) \/
    (build l base0 bs crc = Some (-1, t) /\
      exists j n, l !! j = Some n /\ (n <= (if crc then 4 else 0) \/ (S j mod g <> 0)%nat /\ uinttype_max <= sizes_sum l (S j) - sizes_sum l (group g j))).
Proof.
  intros Hbs Hb Hl Hs g. unfold MAX_READ_SIZE in Hbs. unfold build. destruct (Z.eqb_spec bs 0); [lia|].
  assert (1 <= (uinttype_max + 1) / bs) by (apply Z.div_le_lower_bound; unfold uinttype_max; lia).
  destruct (Z.eqb_spec ((uinttype_max + 1) / bs) 0); [lia|]. assert (0 < g)%nat as Hg by lia.
  pose proof (built_0 g base0 l Hg Hb Hl Hs) as H0.
  destruct (build_loop_run g base0 l Hg Hb Hl Hs (if crc then 4 else 0) 0 _ ltac:(lia) H0) as (t & Hr). exists t.
  change (drop 0 l) with l in Hr. change (Z.of_nat 1) with 1 in Hr. replace (base0 + sizes_sum l 0) with base0 in Hr by (unfold sizes_sum; simpl; lia).
  replace (Z.of_nat g) with ((uinttype_max + 1) / bs) in Hr by lia.
  destruct Hr as [Hr|(Hr & j & n1 & _ & Hj)]; [by left|right]. split; [done|]. by exists j, n1.
Qed.

(** The table can be built when no group of blocks is too large. *)
Lemma group_sum_le g l m j n : (0 < g)%nat -> Forall (fun x => 0 <= x <= m) l -> l !! j = Some n -> group g (S j) = group g j ->
  sizes_sum l (S j) - sizes_sum l (group g j) <= (Z.of_nat g - 1) * m.
Proof.
  intros Hg Hl Hn Hgr. assert (forall k i, (i + k <= length l)%nat -> sizes_sum l (i + k) - sizes_sum l i <= Z.of_nat k * m) as Hk.
  { induction k as [|k IH]; intros i Hi; [rewrite Nat.add_0_r; lia|]. destruct (lookup_lt_is_Some_2 l (i + k) ltac:(lia)) as [x Hx].
    rewrite Nat.add_succ_r, (sizes_sum_S _ _ _ Hx). specialize (IH i ltac:(lia)). rewrite Forall_lookup in Hl. specialize (Hl _ _ Hx). lia. }
  pose proof (lookup_lt_Some _ _ _ Hn). pose proof (group_le g j). specialize (Hk (S j - group g j)%nat (group g j) ltac:(lia)).
  replace (group g j + (S j - group g j))%nat with (S j) in Hk by lia. rewrite Forall_lookup in Hl. specialize (Hl _ _ Hn).
  assert (S j - group g j <= g - 1)%nat; [|nia]. unfold group in *. pose proof (Nat.div_mod_eq (S j) g). pose proof (Nat.mod_upper_bound (S j) g ltac:(lia)).
  assert (S j / g = j / g)%nat by nia. nia.
Qed.

Lemma build_total l base0 bs m (crc : bool) : 0 < bs <= MAX_READ_SIZE -> 0 <= base0 ->
  Forall (fun n => (if crc then 4 else 0) < n <= m) l -> m < 2 ^ 32 -> ((uinttype_max + 1) / bs - 1) * m < uinttype_max ->
  base0 + sizes_sum l (length l) < 2 ^ 63 ->
  exists t, build l base0 bs crc = Some (0, t) /\ built (Z.to_nat ((uinttype_max + 1) / bs)) base0 l (length l) t.
Proof.
  intros Hbs Hb Hl Hm Hg Hs. assert (Forall (fun n => 0 <= n < 2 ^ 32) l) as Hl' by (eapply Forall_impl; [exact Hl|]; simpl; destruct crc; lia).
  assert (1 <= (uinttype_max + 1) / bs) by (unfold MAX_READ_SIZE in Hbs; apply Z.div_le_lower_bound; unfold uinttype_max; lia).
  destruct (build_run l base0 bs crc Hbs Hb Hl' Hs) as (t & [Ht|[_ (j & n & Hj & Hn)]]); [by exists t|]. exfalso.
  pose proof Hl as Hl2. rewrite Forall_lookup in Hl2. specialize (Hl2 _ _ Hj). destruct Hn as [Hn|[Hm' Hn]]; [lia|].
  destruct (div_step (Z.to_nat ((uinttype_max + 1) / bs)) l ltac:(lia) j ltac:(by eapply lookup_lt_Some)) as [(? & _)|(_ & Hgr & _)]; [done|].
  assert (Forall (fun n => 0 <= n <= m) l) as Hl3 by (eapply Forall_impl; [exact Hl|]; simpl; destruct crc; lia).
  pose proof (group_sum_le (Z.to_nat ((uinttype_max + 1) / bs)) l m j n ltac:(lia) Hl3 Hj Hgr). rewrite Z2Nat.id in * by lia. lia.
Qed.

(** ** Theorems *)

(** C24: For a block size, or a maximal chunk size, that is a power of two up to
    64 KB, a table that was built without an error from the sizes of the blocks
    gives for every block, and for the end of the last, the place where it starts.
    Building stops with an error only at a
    block that is empty but for its checksum or when the blocks of a group are
    larger than 16 bits together. *)
Theorem jump_table_right l base0 e (crc : bool) : 0 <= e <= 16 -> 0 <= base0 -> Forall (fun n => 0 <= n < 2 ^ 32) l ->
  base0 + sizes_sum l (length l) < 2 ^ 63 ->
  exists r t, build l base0 (2 ^ e) crc = Some (r, t) /\
    if r =? 0 then forall j, (j <= length l)%nat -> jump t (Z.of_nat j) = Some (base0 + sizes_sum l j)
    else r = -1 /\ exists j n, l !! j = Some n /\
      let g := Z.to_nat (2 ^ (16 - e)) in
      (n <= (if crc then 4 else 0) \/ (S j mod g <> 0)%nat /\ uinttype_max <= sizes_sum l (S j) - sizes_sum l (group g j)).
Proof.
  intros He Hb Hl Hs. assert (0 < 2 ^ e <= 2 ^ 16) as Hp by (split; [apply Z.pow_pos_nonneg; lia|apply Z.pow_le_mono_r; lia]).
  assert ((uinttype_max + 1) / 2 ^ e = 2 ^ (16 - e)) as Hq by (change (uinttype_max + 1) with (2 ^ 16); rewrite Z.pow_sub_r by lia; done).
  assert (0 < 2 ^ (16 - e)) by (apply Z.pow_pos_nonneg; lia).
  destruct (build_run l base0 (2 ^ e) crc) as (t & [[Hr Ht]|[Hr Ht]]); [unfold MAX_READ_SIZE; lia|done|done|done| |]; rewrite Hq in Ht.
  - exists 0, t. split; [done|]. intros j Hj. apply (jump_built (Z.to_nat (2 ^ (16 - e)))) with (l := l) (e := 16 - e); try done; lia.
  - exists (-1), t. by split.
Qed.

(** With a block size that is not a power of two, as a maximal chunk size of
    12 KB, the groups have 5 blocks and the place of block 1 is the one of block
    0. *)
Theorem jump_table_odd_group : exists t, build [100; 200; 300] 512 12288 false = Some (0, t) /\
  jump t 1 = Some 512 /\ 512 + sizes_sum [100; 200; 300] 1 = 612.
Proof. eexists. split; [vm_compute; reflexivity|]. split; vm_compute; reflexivity. Qed.

Lemma jump_table_right_witness : exists r t, build [4000; 9000; 70; 30; 65000] 512 (2 ^ 14) true = Some (r, t) /\
  if r =? 0 then forall j, (j <= 5)%nat -> jump t (Z.of_nat j) = Some (512 + sizes_sum [4000; 9000; 70; 30; 65000] j)
  else r = -1 /\ exists j n, [4000; 9000; 70; 30; 65000] !! j = Some n /\
    (n <= 4 \/ (S j mod 4 <> 0)%nat /\ uinttype_max <= sizes_sum [4000; 9000; 70; 30; 65000] (S j) - sizes_sum [4000; 9000; 70; 30; 65000] (group 4 j)).
Proof.
  apply (jump_table_right [4000; 9000; 70; 30; 65000] 512 14 true); [lia|lia|repeat constructor; lia|vm_compute; reflexivity].
Defined.
