(* ===== verification/ZRead.v ===== *)
(** Reading compressed files: what [CompressionFile::pread] (ZFile) returns.

    An image of the file is given by the list of its blocks before compression and
    the list of what is stored of them ([zimage]); a read gives the bytes of the
    concatenation of the blocks. *)

From S2P Require Import Prelude Files Crc32 Compressor ZFile.

(** The checksum that follows a block when [v] is set. *)
Definition crc_tail (v : Z) (x : list Z) : list Z := if v =? 0 then [] else le_bytes 4 (crc_ref NOI_WELL_KNOWN_PRIME x).

(** What a block is stored as. *)
Definition stored `{Codecs} (k : codec) (v : Z) (d s : list Z) : Prop :=
  exists x, compressed_as k d x /\ s = x ++ crc_tail v x.

(** The file [z] is open on the bytes [pre], the stored blocks [st] and [post], and
    [ds] are the blocks before compression. *)
Record zimage {W} `{IFilesLaws W} `{Codecs} (w : W) (z : CompressionFile) (pre : list Z) (ds st : list (list Z)) (post : list Z) : Prop := {
  zi_compressor : exists c, m_compressor z = Some c /\ src_blk_size c <= block_size (ht_opt (m_ht z)) /\
    Forall2 (stored (c_codec c) (verify (ht_opt (m_ht z)))) ds st;
  zi_jump i : (i <= length st)%nat -> jump (m_jump_table z) (Z.of_nat i) = Some (len pre + starts st i);
  zi_file : contents w (m_file z) = pre ++ mjoin st ++ post;
  zi_block_size : 0 < block_size (ht_opt (m_ht z)) <= MAX_READ_SIZE;
  zi_raw i d : ds !! i = Some d -> 0 < len d <= block_size (ht_opt (m_ht z));
  zi_stored i s : st !! i = Some s -> len s <= MAX_READ_SIZE;
  zi_sizes : if variable_blocks z then m_raw_block_sizes z = len <$> ds
    else forall i d, ds !! i = Some d -> (S i < length ds)%nat -> len d = block_size (ht_opt (m_ht z));
  zi_total : original_file_size (m_ht z) = len (mjoin ds);
  zi_small : len (mjoin ds) < 2 ^ 62;
  zi_valid : valid z = FLAG_VALID_TRUE
}.

(** ** Running *)

Lemma bug_on_run {S} (s : S) : BUG_ON false s = Some (tt, s).
Proof. done. Qed.
Lemma lift_run {S A} (a : A) (s : S) : lift (Some a) s = Some (a, s).
Proof. done. Qed.
Lemma ret_run {S A} (a : A) (s : S) : (mret a : M S A) s = Some (a, s).
Proof. done. Qed.
Lemma gets_run {S A} (f : S -> A) (s : S) : gets f s = Some (f s, s).
Proof. done. Qed.
Lemma modify_run {S} (f : S -> S) (s : S) : modify f s = Some (tt, f s).
Proof. done. Qed.
Ltac run := rewrite ?bind_run, ?bug_on_run, ?lift_run, ?ret_run, ?gets_run, ?modify_run.

(** ** Cutting lists *)

Lemma slice_slice {A} (a n b m : nat) (l : list A) : (b + m <= n)%nat ->
  take m (drop b (take n (drop a l))) = take m (drop (a + b) l).
Proof.
  intros Hn. rewrite <- drop_drop. replace n with (b + (n - b))%nat by lia.
  rewrite <- take_drop_commute, take_take. f_equal. lia.
Qed.

Lemma block_slice (ls : list (list Z)) i d (lo n : nat) : ls !! i = Some d -> (lo + n <= length d)%nat ->
  take n (drop lo d) = take n (drop (Z.to_nat (starts ls i) + lo) (mjoin ls)).
Proof. intros Hd Hn. rewrite <- (starts_block _ _ _ Hd) at 1. by apply slice_slice. Qed.

(** ** The parts of the reader *)

Section parts.
Context {W : Type} `{HI : IFiles W} {HF : IFilesLaws W} {HS : ISparseFiles W} {HC : Codecs}.
Variables (w : W) (z : CompressionFile) (pre : list Z) (ds st : list (list Z)) (post : list Z).
Hypothesis Himg : zimage w z pre ds st post.
Abbreviation bs := (block_size (ht_opt (m_ht z))).
Abbreviation v := (verify (ht_opt (m_ht z))).

Lemma image_length : length ds = length st.
Proof. destruct (zi_compressor _ _ _ _ _ _ Himg) as (c & _ & _ & Hst). by apply Forall2_length in Hst. Qed.

Lemma image_stored i : 0 <= starts st i <= len (mjoin st) /\ len pre + len (mjoin st) < 2 ^ 63.
Proof.
  split; [apply starts_le|]. pose proof (contents_size w (m_file z)) as Hc. rewrite (zi_file _ _ _ _ _ _ Himg), !len_app in Hc.
  pose proof (len_nonneg post). lia.
Qed.

Lemma blocks_length_run i j (r : reading W) : (i <= j <= length st)%nat ->
  get_blocks_length z (Z.of_nat i) (Z.of_nat j) r = Some (starts st j - starts st i, r).
Proof.
  intros Hij. unfold get_blocks_length. destruct (Z.ltb_spec (Z.of_nat j) (Z.of_nat i)); [lia|]. rewrite (zi_jump _ _ _ _ _ _ Himg j), (zi_jump _ _ _ _ _ _ Himg i) by lia.
  pose proof (image_stored i). pose proof (image_stored j). pose proof (starts_mono st i j ltac:(lia)). pose proof (len_nonneg pre).
  repeat run. rewrite u64_small by lia. do 2 f_equal. lia.
Qed.

Lemma stored_bytes i n : (i <= length st)%nat -> 0 <= n <= len (mjoin st) - starts st i ->
  take (Z.to_nat n) (drop (Z.to_nat (len pre + starts st i)) (contents w (m_file z))) =
  take (Z.to_nat n) (drop (Z.to_nat (starts st i)) (mjoin st)).
Proof.
  intros Hi Hn. pose proof (starts_le st i). rewrite (zi_file _ _ _ _ _ _ Himg).
  replace (Z.to_nat (len pre + starts st i)) with (length pre + Z.to_nat (starts st i))%nat by (unfold len; lia).
  rewrite drop_app_add. rewrite drop_app_le by (unfold len in *; lia). rewrite take_app_le; [done|].
  rewrite length_drop. unfold len in *. lia.
Qed.

(** What the buffer holds after the blocks from [b] to [e] are read. *)
Definition chunk (b e : nat) : list Z :=
  take (Z.to_nat (Z.min MAX_READ_SIZE (starts st e - starts st b))) (drop (Z.to_nat (starts st b)) (mjoin st)).

Lemma len_chunk b e : (b <= e)%nat -> len (chunk b e) = Z.min MAX_READ_SIZE (starts st e - starts st b).
Proof.
  intros Hbe. pose proof (starts_mono st b e Hbe). pose proof (starts_le st b). pose proof (starts_le st e).
  unfold chunk. apply len_take. rewrite len_drop by lia. unfold MAX_READ_SIZE. lia.
Qed.

Definition filled (b e : nat) (buf : list Z) : list Z := chunk b e ++ drop (length (chunk b e)) buf.

Lemma read_blocks_run b e (r : reading W) : (b <= e <= length st)%nat -> rd_world r = w ->
  read_blocks z (Z.of_nat b) (Z.of_nat e) r = Some (0, set_br (set_buf (filled b e (m_buf (rd_br r))) (rd_br r)) r).
Proof.
  intros Hbe Hw. unfold read_blocks. rewrite bind_run, blocks_length_run, (zi_jump _ _ _ _ _ _ Himg) by lia.
  repeat run. unfold pread_buf, on_files, zoom. rewrite bind_run, Hw.
  pose proof (image_stored b). pose proof (starts_mono st b e ltac:(lia)). pose proof (starts_le st e). pose proof (len_nonneg pre).
  destruct (pread_law w (m_file z) (Z.min MAX_READ_SIZE (starts st e - starts st b)) (len pre + starts st b)) as (data & Hd & ->);
    [unfold MAX_READ_SIZE; lia|lia|]. rewrite stored_bytes in Hd by (unfold MAX_READ_SIZE; lia). fold (chunk b e) in Hd. subst data.
  rewrite len_chunk by lia. destruct (Z.ltb_spec MAX_READ_SIZE (0 + Z.min MAX_READ_SIZE (starts st e - starts st b))); [lia|].
  unfold upd_reader. repeat run. rewrite Z.eqb_refl. cbn [negb]. repeat run. destruct r as [w0 br out pos raw]. cbn in Hw |- *. subst w0.
  unfold set_br. cbn. do 5 f_equal. apply splice_0.
Qed.

(** *** Places in the blocks *)

Lemma block_at i : (i < length ds)%nat -> exists c d x, m_compressor z = Some c /\ src_blk_size c <= bs /\ ds !! i = Some d /\
  compressed_as (c_codec c) d x /\ st !! i = Some (x ++ crc_tail v x).
Proof.
  intros Hi. destruct (zi_compressor _ _ _ _ _ _ Himg) as (c & Hc & Hs & Hst). destruct (lookup_lt_is_Some_2 _ _ Hi) as [d Hd].
  destruct (Forall2_lookup_l _ _ _ _ _ Hst Hd) as (s & Hs' & x & Hx & ->). by exists c, d, x.
Qed.

Lemma len_crc_tail x : len (crc_tail v x) = if v =? 0 then 0 else 4.
Proof. unfold crc_tail, len. destruct (v =? 0); [done|by rewrite length_le_bytes]. Qed.

Lemma total_size_take (ls : list (list Z)) i : total_size (take i (len <$> ls)) = starts ls i.
Proof.
  unfold starts. revert i. induction ls as [|d ls IH]; intros [|i]; try done. cbn [fmap list_fmap take].
  rewrite len_mjoin_cons, <- IH. done.
Qed.

Lemma fixed_starts i : variable_blocks z = false -> (i < length ds)%nat -> starts ds i = Z.of_nat i * bs.
Proof.
  intros Hv. pose proof (zi_sizes _ _ _ _ _ _ Himg) as Hs. rewrite Hv in Hs. induction i as [|i IH]; intros Hi; [done|].
  destruct (lookup_lt_is_Some_2 ds i ltac:(lia)) as [d Hd]. rewrite (starts_S _ _ _ Hd), IH, (Hs _ _ Hd) by lia. lia.
Qed.

(** Where [x] is in its block. *)
Lemma inblock_run x i (r : reading W) : m_block_size (rd_br r) = bs -> (i < length ds)%nat -> starts ds i <= x < starts ds (S i) ->
  get_inblock_offset z x (Z.of_nat i) r = Some (x - starts ds i, r).
Proof.
  intros Hb Hi Hx. unfold get_inblock_offset, reader. pose proof (starts_le ds i). pose proof (starts_le ds (S i)).
  pose proof (zi_small _ _ _ _ _ _ Himg). pose proof (zi_sizes _ _ _ _ _ _ Himg) as Hs. destruct (variable_blocks z) eqn:Hv.
  - rewrite Hs, length_fmap, Nat2Z.id, total_size_take. destruct (Z.ltb_spec (Z.of_nat (length ds)) (Z.of_nat i)); [lia|].
    repeat run. by rewrite u64_small by lia.
  - repeat run. rewrite Hb. pose proof (zi_block_size _ _ _ _ _ _ Himg). destruct (Z.eqb_spec bs 0); [lia|]. repeat run.
    destruct (lookup_lt_is_Some_2 _ _ Hi) as [d Hd]. pose proof (zi_raw _ _ _ _ _ _ Himg _ _ Hd). rewrite (starts_S _ _ _ Hd) in Hx.
    rewrite fixed_starts in * by done. do 2 f_equal. symmetry. apply Z.mod_unique with (Z.of_nat i); lia.
Qed.

(** *** The range of a read *)

(** The blocks from [b] to [e] cover the range.  The index [orig] marks the block
    that is cut at the offset [off'] of the request: it is [b], or none of the range,
    which starts with [b] then. *)
Record covers (off cnt off' : Z) (b e : nat) (orig : Z) : Prop := {
  cv_range : 0 <= off /\ 0 < cnt /\ off + cnt <= len (mjoin ds);
  cv_order : (b < e <= length ds)%nat;
  cv_begin : starts ds b <= off < starts ds (S b);
  cv_end : starts ds (e - 1) < off + cnt <= starts ds e;
  cv_first : orig = Z.of_nat b /\ off' = off \/ orig < Z.of_nat b /\ off = starts ds b
}.

Lemma find_begin_run (ls : list (list Z)) i c off : 0 <= off - c < len (mjoin ls) ->
  exists k, find_begin (len <$> ls) i c off = i + Z.of_nat k /\ (k < length ls)%nat /\ starts ls k <= off - c < starts ls (S k).
Proof.
  revert i c. induction ls as [|d ls IH]; intros i c Hoff; [unfold len in Hoff; simpl in Hoff; lia|].
  rewrite len_mjoin_cons in Hoff. cbn [fmap list_fmap find_begin]. destruct (Z.ltb_spec off (c + len d)).
  - exists 0%nat. unfold starts. cbn [take]. rewrite len_mjoin_cons. split; [lia|]. split; [cbn; lia|].
    unfold len in *. cbn in *. lia.
  - destruct (IH (i + 1) (c + len d) ltac:(lia)) as (k & -> & Hk & Hr). exists (S k). split; [lia|]. split; [cbn; lia|].
    unfold starts in *. cbn [take]. rewrite !len_mjoin_cons. cbn [take] in Hr. lia.
Qed.

Lemma find_end_run (ls : list (list Z)) i c off : 0 <= off - c < len (mjoin ls) ->
  exists k, find_end (len <$> ls) i c off = i + Z.of_nat (S k) /\ (k < length ls)%nat /\ starts ls k <= off - c < starts ls (S k).
Proof.
  revert i c. induction ls as [|d ls IH]; intros i c Hoff; [unfold len in Hoff; simpl in Hoff; lia|].
  rewrite len_mjoin_cons in Hoff. cbn [fmap list_fmap find_end]. destruct (Z.ltb_spec off (c + len d)).
  - exists 0%nat. unfold starts. cbn [take]. rewrite len_mjoin_cons. split; [lia|]. split; [cbn; lia|].
    unfold len in *. cbn in *. lia.
  - destruct (IH (i + 1) (c + len d) ltac:(lia)) as (k & -> & Hk & Hr). exists (S k). split; [lia|]. split; [cbn; lia|].
    unfold starts in *. cbn [take]. rewrite !len_mjoin_cons. cbn [take] in Hr. lia.
Qed.

Lemma fixed_block x : variable_blocks z = false -> 0 <= x < len (mjoin ds) ->
  exists k, x / bs = Z.of_nat k /\ (k < length ds)%nat /\ starts ds k <= x < starts ds (S k).
Proof.
  intros Hv Hx. destruct (starts_find ds x Hx) as (k & d & Hd & Hr). exists k. pose proof (lookup_lt_Some _ _ _ Hd).
  pose proof (zi_block_size _ _ _ _ _ _ Himg). pose proof (zi_raw _ _ _ _ _ _ Himg _ _ Hd).
  split; [|done]. rewrite (starts_S _ _ _ Hd), fixed_starts in Hr by done. symmetry. apply Z.div_unique with (x - Z.of_nat k * bs); lia.
Qed.

(** The constructor finds the blocks.  With blocks of a fixed size the range starts
    at the first block, behind block 0. *)
Definition read_start (off : Z) : Z := if variable_blocks z || (off <? bs) then off else off - off mod bs.

Lemma read_start_range off : 0 <= off -> 0 <= read_start off <= off.
Proof.
  intros Ho. unfold read_start. pose proof (zi_block_size _ _ _ _ _ _ Himg). destruct (variable_blocks z || _); [lia|].
  pose proof (Z.mod_pos_bound off bs). pose proof (Z.mod_le off bs). lia.
Qed.

Lemma reader_new_run off cnt stack : 0 <= off -> 0 < cnt -> off + cnt <= len (mjoin ds) ->
  exists b e orig, covers (read_start off) (off + cnt - read_start off) off b e orig /\
    BlockReader_new z off cnt stack =
      Some (mkReader 0 (Z.of_nat b) orig (Z.of_nat b) (Z.of_nat e) off (off + cnt - 1) v bs 0 stack).
Proof.
  intros Ho Hc Ht. pose proof (read_start_range off Ho) as Hs0. unfold BlockReader_new, read_start in *. pose proof (zi_block_size _ _ _ _ _ _ Himg).
  destruct (variable_blocks z) eqn:Hv; cbn [orb] in *.
  - pose proof (zi_sizes _ _ _ _ _ _ Himg) as Hs. rewrite Hv in Hs. rewrite Hs.
    destruct (find_begin_run ds 0 0 off) as (b & -> & Hb & Hrb); [lia|].
    destruct (find_end_run ds 0 0 (off + cnt - 1)) as (e & -> & He & Hre); [lia|].
    exists b, (S e), (Z.of_nat b). split; [|done]. pose proof (starts_mono ds (S e) b).
    constructor; [lia|lia|lia| |by left]. replace (S e - 1)%nat with e by lia. lia.
  - destruct (Z.eqb_spec bs 0); [lia|]. destruct (fixed_block off Hv) as (b & Hbe & Hb & Hrb); [lia|].
    destruct (fixed_block (off + cnt - 1) Hv) as (e & Hee & He & Hre); [lia|].
    exists b, (S e), 0. split; [|rewrite Hbe, Hee; do 2 f_equal; lia]. pose proof (starts_mono ds (S e) b) as Hm.
    assert (starts ds b = off - off mod bs) as Hsb.
    { rewrite fixed_starts by done. rewrite <- Hbe. rewrite (Z.div_mod off bs) at 2 by lia. lia. }
    destruct (Z.ltb_spec off bs) as [Hlt|Hge].
    + rewrite Z.div_small in Hbe by lia. constructor; [lia|lia|lia|replace (S e - 1)%nat with e by lia; lia|left; lia].
    + assert (1 <= off / bs) by (apply Z.div_le_lower_bound; lia).
      constructor; [lia|lia|lia|replace (S e - 1)%nat with e by lia; lia|right; lia].
Qed.

(** *** The blocks of a range *)

Section range.
Variables (off cnt off' : Z) (b e : nat) (orig : Z).
Hypothesis Hcov : covers off cnt off' b e orig.

(** The part of block [i] in the range. *)
Definition lo (i : nat) : Z := Z.max off (starts ds i).
Definition hi (i : nat) : Z := Z.min (off + cnt) (starts ds (S i)).

Definition at_block (w : W) (bo : Z) (b' i : nat) (buf out : list Z) (pos : Z) (raw : list Z) : reading W :=
  mkReading w (mkReader bo (Z.of_nat b') orig (Z.of_nat i) (Z.of_nat e) off' (off + cnt - 1) v bs 0 buf) out pos raw.

Local Ltac fields := cbn [at_block set_br set_out set_pos set_raw set_buf_offset set_begin_idx set_idx set_buf rd_br m_buf_offset m_idx
  m_begin_idx m_verify m_original_begin_idx m_original_offset m_end m_end_idx m_block_size m_eno m_buf rd_world rd_out rd_pos rd_raw].

Lemma in_range i : (b <= i < e)%nat -> starts ds i <= lo i < hi i /\ hi i <= starts ds (S i) /\ off <= lo i /\ hi i <= off + cnt /\
  ((S i < e)%nat -> hi i = starts ds (S i) /\ lo (S i) = hi i) /\ (i = b -> lo i = off) /\ (S i = e -> hi i = off + cnt).
Proof.
  intros Hi. unfold lo, hi. pose proof (cv_order _ _ _ _ _ _ Hcov). pose proof (cv_begin _ _ _ _ _ _ Hcov). pose proof (cv_end _ _ _ _ _ _ Hcov).
  pose proof (cv_range _ _ _ _ _ _ Hcov). destruct (lookup_lt_is_Some_2 ds i ltac:(lia)) as [d Hd].
  pose proof (zi_raw _ _ _ _ _ _ Himg _ _ Hd). pose proof (starts_S _ _ _ Hd). pose proof (starts_mono ds (S b) (S i) ltac:(lia)).
  pose proof (starts_mono ds i (e - 1) ltac:(lia)).
  split; [lia|]. split; [lia|]. split; [lia|]. split; [lia|]. split; [|split].
  - intros He. pose proof (starts_mono ds (S i) (e - 1) ltac:(lia)). lia.
  - intros ->. lia.
  - intros <-. lia.
Qed.

Lemma first_offset i (r : reading W) : (b <= i < e)%nat -> m_block_size (rd_br r) = bs ->
  ((if Z.of_nat i =? orig then get_inblock_offset z off' (Z.of_nat i) else mret 0) : M (reading W) Z) r = Some (lo i - starts ds i, r).
Proof.
  intros Hi Hb. destruct (in_range i Hi) as (Hlo & _ & _ & _ & _ & Hib & _). pose proof (cv_begin _ _ _ _ _ _ Hcov). pose proof (cv_order _ _ _ _ _ _ Hcov).
  pose proof (starts_mono ds (S b) i) as Hm. destruct (Z.eqb_spec (Z.of_nat i) orig) as [Heq|Hne].
  - destruct (cv_first _ _ _ _ _ _ Hcov) as [[? ->]|]; [|lia]. assert (i = b) as -> by lia.
    rewrite inblock_run by (done || lia). by rewrite Hib.
  - repeat run. do 2 f_equal. unfold lo. destruct (cv_first _ _ _ _ _ _ Hcov) as [?|[_ ->]]; [|pose proof (starts_mono ds b i); lia].
    assert (S b <= i)%nat by lia. specialize (Hm ltac:(lia)). lia.
Qed.

Lemma block_size_run i (r : reading W) : (b <= i < e)%nat -> m_idx (rd_br r) = Z.of_nat i -> m_block_size (rd_br r) = bs ->
  exists n, br_block_size z r = Some (n, r) /\ ((S i < e)%nat -> n = starts ds (S i) - starts ds i).
Proof.
  intros Hi Hix Hb. unfold br_block_size, reader. eexists. repeat run. rewrite Hix, Hb. split; [done|]. intros Hs'.
  pose proof (cv_order _ _ _ _ _ _ Hcov). destruct (lookup_lt_is_Some_2 ds i ltac:(lia)) as [d Hd]. rewrite (starts_S _ _ _ Hd).
  pose proof (zi_sizes _ _ _ _ _ _ Himg) as Hs. destruct (variable_blocks z).
  - rewrite Hs, Nat2Z.id, list_lookup_fmap, Hd. cbn. lia.
  - rewrite <- (Hs i d); [lia|done|lia].
Qed.

Lemma current_block_run w0 bo b' i x buf out pos raw : (b <= i < e)%nat -> (b' <= i)%nat -> st !! i = Some (x ++ crc_tail v x) ->
  0 < len x -> starts st (S i) - starts st b' <= MAX_READ_SIZE ->
  get_current_block z (at_block w0 bo b' i buf out pos raw) =
    Some (Some (mkIter (len x) (lo i - starts ds i) (hi i - lo i)), at_block w0 (starts st i - starts st b') b' i buf out pos raw).
Proof.
  intros Hi Hb' Hx Hl Hfit. pose proof image_length. pose proof (cv_order _ _ _ _ _ _ Hcov).
  pose proof (starts_mono st b' i Hb'). rewrite (starts_S _ _ _ Hx), len_app, len_crc_tail in Hfit.
  unfold get_current_block, get_buf_offset, reader, upd_reader. repeat run. fields.
  rewrite blocks_length_run by lia. repeat run.
  destruct (Z.leb_spec MAX_READ_SIZE (starts st i - starts st b')); [destruct (v =? 0); lia|].
  unfold br_compressed_size, reader. repeat run. fields.
  replace (Z.of_nat i + 1) with (Z.of_nat (S i)) by lia. rewrite blocks_length_run by lia. repeat run.
  rewrite (starts_S _ _ _ Hx), len_app, len_crc_tail.
  assert (forall k, u64 (starts st i + (len x + k) - starts st i - k) = len x) as Hu.
  { intros k. rewrite u64_small; [lia|]. replace (_ - k) with (len x) by lia. pose proof (zi_stored _ _ _ _ _ _ Himg _ _ Hx) as Hs.
    rewrite len_app in Hs. pose proof (len_nonneg (crc_tail v x)). unfold MAX_READ_SIZE in Hs. lia. }
  rewrite Hu. destruct (Z.ltb_spec MAX_READ_SIZE (starts st i - starts st b' + len x)); [destruct (v =? 0); lia|].
  repeat run. fields.
  destruct (in_range i Hi) as (Hlo & Hhi & _ & _ & Hin & _ & Hlast). pose proof (starts_le ds (S i)). pose proof (zi_small _ _ _ _ _ _ Himg).
  pose proof (starts_le ds i).
  rewrite first_offset by done. repeat run.
  edestruct (block_size_run i) as (n & -> & Hn); [done|done|done|]. repeat run. fields.
  assert (exists m, (if Z.of_nat i =? Z.of_nat e - 1 then x0 ← get_inblock_offset z (off + cnt - 1) (Z.of_nat i); mret (x0 + 1) else mret n)
    (at_block w0 (starts st i - starts st b') b' i buf out pos raw) = Some (m, at_block w0 (starts st i - starts st b') b' i buf out pos raw) /\
    m = hi i - starts ds i) as (m & Hm & ->).
  { destruct (Z.eqb_spec (Z.of_nat i) (Z.of_nat e - 1)) as [He|He].
    - rewrite bind_run, inblock_run; [|done|lia|rewrite <- Hlast by lia; lia]. repeat run. eexists. split; [done|]. rewrite Hlast by lia. lia.
    - eexists. repeat run. split; [done|]. destruct Hin as [-> _]; [lia|]. apply Hn. lia. }
  change (set_br (set_buf_offset _ _) _) with (at_block w0 (starts st i - starts st b') b' i buf out pos raw). rewrite Hm. repeat run. rewrite u64_small by lia. do 4 f_equal. lia.
Qed.

(** *** Iterating *)

(** The buffer holds the blocks from [b']. *)
Definition loaded (b' : nat) (buf : list Z) : Prop := exists rest, buf = chunk b' e ++ rest.

Definition fits (b' i : nat) : Prop := (b' <= i)%nat /\ starts st (S i) - starts st b' <= MAX_READ_SIZE.

Lemma fits_self i : (i < e)%nat -> fits i i.
Proof.
  intros Hi. split; [done|]. pose proof (cv_order _ _ _ _ _ _ Hcov). pose proof image_length.
  destruct (lookup_lt_is_Some_2 st i ltac:(lia)) as [s Hs]. rewrite (starts_S _ _ _ Hs). pose proof (zi_stored _ _ _ _ _ _ Himg _ _ Hs). lia.
Qed.

Lemma buffer_block b' i s buf : loaded b' buf -> fits b' i -> (i < e)%nat -> st !! i = Some s ->
  exists rest, drop (Z.to_nat (starts st i - starts st b')) buf = s ++ rest.
Proof.
  intros [rest ->] [Hb Hf] Hi Hs. pose proof (starts_mono st b' i Hb). pose proof (starts_mono st (S i) e ltac:(lia)).
  rewrite (starts_S _ _ _ Hs) in *. pose proof (starts_le st b').
  assert (length (chunk b' e) = Z.to_nat (Z.min MAX_READ_SIZE (starts st e - starts st b'))) as Hl.
  { pose proof (len_chunk b' e ltac:(lia)). unfold len in *. lia. }
  pose proof (len_nonneg s). rewrite drop_app_le by lia.
  assert (take (length s) (drop (Z.to_nat (starts st i - starts st b')) (chunk b' e)) = s) as Ht.
  { unfold chunk. rewrite slice_slice by (unfold len in *; lia). rewrite <- (starts_block _ _ _ Hs) at 2. do 2 f_equal. lia. }
  exists (drop (length s) (drop (Z.to_nat (starts st i - starts st b')) (chunk b' e)) ++ rest).
  by rewrite app_assoc, <- Ht, length_take, Nat.min_l, take_drop by (rewrite length_drop; unfold len in *; lia).
Qed.

Definition block_iter (i : nat) (x : list Z) : iterator := mkIter (len x) (lo i - starts ds i) (hi i - lo i).

Lemma iter_begin_run bo x buf out pos raw : st !! b = Some (x ++ crc_tail v x) -> 0 < len x ->
  exists buf', loaded b buf' /\
    iter_begin z (at_block w bo b b buf out pos raw) = Some (Some (block_iter b x), at_block w (starts st b - starts st b) b b buf' out pos raw).
Proof.
  intros Hx Hl. pose proof (cv_order _ _ _ _ _ _ Hcov). pose proof image_length.
  exists (filled b e buf). split; [by eexists|]. unfold iter_begin, reader. repeat run. fields.
  rewrite read_blocks_run by (done || lia). cbn [Z.eqb negb].
  apply (current_block_run w bo b b x); [lia|lia|done|done|]. apply fits_self. lia.
Qed.

Lemma iter_next_run bo b' i x buf out pos raw : (b <= i)%nat -> (S i < e)%nat -> st !! S i = Some (x ++ crc_tail v x) -> 0 < len x ->
  loaded b' buf -> fits b' i ->
  exists b1 buf', loaded b1 buf' /\ fits b1 (S i) /\
    iter_next z (at_block w bo b' i buf out pos raw) =
      Some (Some (block_iter (S i) x), at_block w (starts st (S i) - starts st b1) b1 (S i) buf' out pos raw).
Proof.
  intros Hb Hi Hx Hl Hld Hf. pose proof (cv_order _ _ _ _ _ _ Hcov). pose proof image_length. destruct Hf as [Hf1 Hf2].
  unfold iter_next, reader, upd_reader. repeat run. fields. replace (Z.of_nat i + 1) with (Z.of_nat (S i)) by lia.
  destruct (Z.eqb_spec (Z.of_nat (S i)) (Z.of_nat e)); [lia|]. unfold buf_exceed, reader. repeat run. fields.
  replace (Z.of_nat (S i) + 1) with (Z.of_nat (S (S i))) by lia. rewrite blocks_length_run by lia. repeat run.
  destruct (Z.ltb_spec MAX_READ_SIZE (starts st (S (S i)) - starts st b')).
  - exists (S i), (filled (S i) e buf). split; [by eexists|]. split; [apply fits_self; lia|].
    rewrite bind_run, read_blocks_run by (done || lia). repeat run. cbn [Z.eqb negb]. repeat run. fields.
    change (set_br _ _) with (at_block w bo (S i) (S i) (filled (S i) e buf) out pos raw). cbn [negb]. rewrite bind_run.
    rewrite (current_block_run w bo (S i) (S i) x); [done|lia|lia|done|done|]. apply fits_self. lia.
  - exists b', buf. split; [done|]. split; [split; [lia|done]|]. repeat run. cbn [negb]. repeat run.
    change (set_br _ _) with (at_block w bo b' (S i) buf out pos raw).
    rewrite (current_block_run w bo b' (S i) x); [done|lia|lia|done|done|done].
Qed.

Lemma iter_last_run bo b' i buf out pos raw : S i = e ->
  iter_next z (at_block w bo b' i buf out pos raw) = Some (None, at_block w bo b' e buf out pos raw).
Proof.
  intros He. unfold iter_next, reader, upd_reader. repeat run. fields. replace (Z.of_nat i + 1) with (Z.of_nat e) by lia.
  rewrite Z.eqb_refl. unfold iter_end, reader, upd_reader. by repeat run.
Qed.

(** *** One block *)

Lemma block_crc_run sse42 base b' i x (buf out : list Z) pos raw : (b <= i < e)%nat -> loaded b' buf -> fits b' i ->
  st !! i = Some (x ++ crc_tail v x) -> Forall is_byte x -> v <> 0 ->
  block_crc sse42 base z (block_iter i x) (at_block w (starts st i - starts st b') b' i buf out pos raw) =
    Some ((crc_ref NOI_WELL_KNOWN_PRIME x, crc_ref NOI_WELL_KNOWN_PRIME x), at_block w (starts st i - starts st b') b' i buf out pos raw).
Proof.
  intros Hi Hld Hf Hx Hb Hv. pose proof (cv_order _ _ _ _ _ _ Hcov). pose proof image_length.
  destruct (buffer_block b' i (x ++ crc_tail v x) buf Hld Hf) as [rest Hr]; [lia|done|]. destruct Hf as [Hf1 Hf2]. pose proof (starts_mono st b' i Hf1).
  assert (len x <= MAX_READ_SIZE) as Hl.
  { pose proof (zi_stored _ _ _ _ _ _ Himg _ _ Hx) as Hs. rewrite len_app in Hs. pose proof (len_nonneg (crc_tail v x)). lia. }
  assert (0 <= NOI_WELL_KNOWN_PRIME < 2 ^ 32) as Hn by (unfold NOI_WELL_KNOWN_PRIME; lia).
  unfold MAX_READ_SIZE in Hl. unfold block_crc, reader. repeat run. fields. unfold crc32c_salt. cbn [compressed_size block_iter].
  assert (starts st i - starts st b' + len x <= len buf) as Hbuf.
  { apply (f_equal length) in Hr. rewrite length_drop, !length_app in Hr. pose proof (len_crc_tail x) as Ht.
    destruct (Z.eqb_spec v 0); [done|]. unfold len in *. lia. }
  destruct (Z.ltb_spec (len buf) (starts st i - starts st b' + len x)); [lia|].
  rewrite Hr. replace (Z.to_nat (len x)) with (length x) by (unfold len; lia). rewrite <- app_assoc, take_app_length.
  rewrite extend_run by (done || lia). repeat run. unfold crc32_code, reader. repeat run. fields.
  destruct (Z.eqb_spec v 0); [done|]. unfold br_compressed_size, reader. repeat run. fields.
  replace (Z.of_nat i + 1) with (Z.of_nat (S i)) by lia. rewrite blocks_length_run by lia. repeat run.
  destruct (Z.eqb_spec v 0); [done|]. rewrite (starts_S _ _ _ Hx), len_app, len_crc_tail. destruct (Z.eqb_spec v 0); [done|].
  replace (u64 _) with (len x) by (rewrite u64_small; pose proof (len_nonneg x); lia).
  fields.
  replace (Z.to_nat (starts st i - starts st b' + len x)) with (Z.to_nat (starts st i - starts st b') + length x)%nat by (unfold len; lia).
  rewrite <- drop_drop, Hr, <- app_assoc, drop_app_length. unfold crc_tail. destruct (Z.eqb_spec v 0); [done|].
  rewrite load32_run by (rewrite length_app, length_le_bytes; lia). repeat run. do 3 f_equal.
  rewrite take_app_le by (by rewrite length_le_bytes). rewrite take_ge by (by rewrite length_le_bytes).
  pose proof (ref_range NOI_WELL_KNOWN_PRIME x Hn Hb). rewrite le_value_bytes by lia. apply Z.mod_small. change (8 * Z.of_nat 4) with 32. lia.
Qed.

(** The part of block [i] in the range, as a part of the bytes of the range. *)
Definition range_bytes : list Z := take (Z.to_nat cnt) (drop (Z.to_nat off) (mjoin ds)).
Definition segment (i : nat) : list Z := take (Z.to_nat (hi i - lo i)) (drop (Z.to_nat (lo i - off)) range_bytes).

Lemma len_range_bytes : len range_bytes = cnt.
Proof. pose proof (cv_range _ _ _ _ _ _ Hcov). unfold range_bytes. apply len_take. rewrite len_drop; lia. Qed.

Lemma segment_block i d : (b <= i < e)%nat -> ds !! i = Some d ->
  take (Z.to_nat (hi i - lo i)) (drop (Z.to_nat (lo i - starts ds i)) d) = segment i /\ len (segment i) = hi i - lo i.
Proof.
  intros Hi Hd. destruct (in_range i Hi) as (H1 & H2 & H3 & H4 & _). pose proof (cv_range _ _ _ _ _ _ Hcov). pose proof (starts_le ds i).
  rewrite (starts_S _ _ _ Hd) in H2. split.
  - rewrite (block_slice ds i d) by (done || unfold len in *; lia). unfold segment, range_bytes.
    rewrite slice_slice by lia. do 2 f_equal. lia.
  - unfold segment. apply len_take. rewrite len_drop; rewrite len_range_bytes; lia.
Qed.

Lemma decompress_block_run b' i n c d x buf out raw : (b <= i < e)%nat -> loaded b' buf -> fits b' i ->
  m_compressor z = Some c -> src_blk_size c <= bs -> ds !! i = Some d -> compressed_as (c_codec c) d x ->
  st !! i = Some (x ++ crc_tail v x) -> 0 < n <= hi i - lo i -> lo i - off + n <= len out ->
  exists raw', decompress_block z (block_iter i x) n (at_block w (starts st i - starts st b') b' i buf out (lo i - off) raw) =
    Some (len d, at_block w (starts st i - starts st b') b' i buf (splice (lo i - off) (take (Z.to_nat n) (segment i)) out) (lo i - off) raw').
Proof.
  intros Hi Hld Hf Hc Hsrc Hd (Hx & Hbx & Hdec) Hs Hn Hout.
  destruct (buffer_block b' i (x ++ crc_tail v x) buf Hld Hf) as [rest Hr]; [lia|done|]. destruct Hf as [Hf1 Hf2]. pose proof (starts_mono st b' i Hf1).
  destruct (in_range i Hi) as (Hlo & Hhi & Hoff & Hend & _). destruct (segment_block i d Hi Hd) as [Hseg Hlen].
  pose proof (zi_raw _ _ _ _ _ _ Himg _ _ Hd) as Hrd. pose proof (zi_block_size _ _ _ _ _ _ Himg) as Hbs. unfold MAX_READ_SIZE in Hbs.
  rewrite (starts_S _ _ _ Hd) in Hhi. unfold decompress_block, reader. repeat run. fields. cbn [compressed_size cp_len cp_begin block_iter].
  assert (starts st i - starts st b' + len x <= len buf) as Hbuf.
  { apply (f_equal length) in Hr. rewrite length_drop, !length_app in Hr. unfold len in *. lia. }
  destruct (Z.ltb_spec (len buf) (starts st i - starts st b' + len x)); [lia|]. repeat run. rewrite Hc. repeat run.
  rewrite Hr. replace (Z.to_nat (len x)) with (length x) by (unfold len; lia). rewrite <- app_assoc, take_app_length.
  rewrite (Hdec c bs) by (done || lia).
  destruct (Z.eqb_spec (hi i - lo i) bs) as [Hfull|Hpart], (Z.eqb_spec n (hi i - lo i)) as [Hall|Hsome]; cbn [andb].
  1:{ exists raw. rewrite bind_run. unfold store_out at 1. fields. assert (lo i = starts ds i) as Hlo' by lia.
    assert (d = take (Z.to_nat n) (segment i)) as <-.
    { rewrite <- Hseg, Hlo', Z.sub_diag. cbn [Z.to_nat drop]. symmetry. rewrite take_take. apply firstn_all2. unfold len in *. lia. }
    destruct (Z.ltb_spec (len out) (lo i - off + len d)); [lia|]. by repeat run. }
  all: exists (splice 0 d raw); destruct (Z.ltb_spec MAX_READ_SIZE (len d)); [unfold MAX_READ_SIZE in *; lia|]; repeat run;
    destruct (Z.eqb_spec (len d) (-1)); [lia|]; repeat run;
    destruct (Z.ltb_spec MAX_READ_SIZE (lo i - starts ds i + n)); [unfold MAX_READ_SIZE in *; lia|]; repeat run; fields;
    rewrite splice_0, drop_app_le, take_app_le by (rewrite ?length_drop; unfold len in *; lia);
    rewrite <- Hseg, take_take, Nat.min_l by lia; unfold store_out at 1; fields;
    destruct (Z.ltb_spec (len out) (lo i - off + len (take (Z.to_nat n) (drop (Z.to_nat (lo i - starts ds i)) d)))); [|by repeat run];
    rewrite len_take in * by (rewrite len_drop; lia); lia.
Qed.

(** [lim] is the number of bytes that are copied at most. *)
Variable lim : Z.
Hypothesis Hlim : 0 < lim <= cnt.

Definition copied (i : nat) : Z := Z.min lim (lo i - off).

Lemma read_block_run sse42 base retry b' i c d x buf out raw : (b <= i < e)%nat -> loaded b' buf -> fits b' i ->
  m_compressor z = Some c -> src_blk_size c <= bs -> ds !! i = Some d -> compressed_as (c_codec c) d x ->
  st !! i = Some (x ++ crc_tail v x) -> lo i - off < lim -> lim <= len out ->
  let n := Z.min (lim - (lo i - off)) (hi i - lo i) in
  exists raw', read_block sse42 base z retry lim (lo i - off) (block_iter i x)
      (at_block w (starts st i - starts st b') b' i buf out (lo i - off) raw) =
    Some (inr (lo i - off + n), at_block w (starts st i - starts st b') b' i buf
      (splice (lo i - off) (take (Z.to_nat n) (segment i)) out) (lo i - off + n) raw').
Proof.
  intros Hi Hld Hf Hc Hsrc Hd Hx Hs Hr Hout n. destruct (in_range i Hi) as (Hlo & Hhi & Hoff & Hend & _).
  destruct (decompress_block_run b' i n c d x buf out raw Hi Hld Hf Hc Hsrc Hd Hx Hs ltac:(lia) ltac:(lia)) as [raw' Hdec]. exists raw'.
  pose proof (zi_raw _ _ _ _ _ _ Himg _ _ Hd) as Hrd.
  assert (forall A (k : Z * Z -> M (reading W) A) r, r = at_block w (starts st i - starts st b') b' i buf out (lo i - off) raw ->
    exists crc, ((if v =? 0 then mret (0, 0) else block_crc sse42 base z (block_iter i x)) ≫= k) r = k (crc, crc) r) as Hcrc.
  { intros A k r ->. destruct (Z.eqb_spec v 0) as [|Hv]; [by exists 0|]. eexists. rewrite bind_run.
    destruct Hx as (_ & Hb & _). by rewrite (block_crc_run sse42 base b' i x buf out (lo i - off) raw Hi Hld Hf Hs Hb Hv). }
  destruct retry; cbn [read_block].
  all: match goal with |- (_ ≫= ?k) ?r = _ => destruct (Hcrc _ k r eq_refl) as [crc ->] end.
  all: cbv beta iota zeta; rewrite Z.eqb_refl; cbn [negb]; rewrite (zi_valid _ _ _ _ _ _ Himg);
    change (FLAG_VALID_TRUE =? FLAG_VALID_CRC_CHECK) with false; cbn iota; cbn [cp_len block_iter].
  all: replace (if lim <? lo i - off + (hi i - lo i) then lim - (lo i - off) else hi i - lo i) with n
    by (destruct (Z.ltb_spec lim (lo i - off + (hi i - lo i))); lia).
  all: rewrite bind_run, Hdec; destruct (Z.eqb_spec (len d) (-1)); [lia|]; repeat run; fields; done.
Qed.

(** *** The loop *)

Lemma out_step i n out : (b <= i < e)%nat -> 0 <= n <= hi i - lo i -> lo i - off + n <= len out ->
  splice (lo i - off) (take (Z.to_nat n) (segment i)) (splice 0 (take (Z.to_nat (lo i - off)) range_bytes) out) =
  splice 0 (take (Z.to_nat (lo i - off + n)) range_bytes) out.
Proof.
  intros Hi Hn Hout. destruct (in_range i Hi) as (Hlo & Hhi & Hoff & Hend & _). pose proof len_range_bytes as Hl.
  assert (len (take (Z.to_nat (lo i - off)) range_bytes) = lo i - off) as Hl1 by (apply len_take; lia).
  assert (len (segment i) = hi i - lo i) as Hl3 by (unfold segment; apply len_take; rewrite len_drop; lia).
  assert (len (take (Z.to_nat n) (segment i)) = n) as Hl2 by (apply len_take; lia).
  replace (lo i - off) with (0 + len (take (Z.to_nat (lo i - off)) range_bytes)) at 1 by lia. rewrite splice_app by lia.
  f_equal. unfold segment. rewrite take_take, Nat.min_l by lia.
  replace (Z.to_nat (lo i - off + n)) with (Z.to_nat (lo i - off) + Z.to_nat n)%nat by lia. by rewrite take_take_drop.
Qed.

Lemma stored_at i x : st !! i = Some (x ++ crc_tail v x) -> (i < length ds)%nat -> exists c d, m_compressor z = Some c /\ src_blk_size c <= bs /\
  ds !! i = Some d /\ compressed_as (c_codec c) d x.
Proof.
  intros Hs Hi. destruct (block_at i Hi) as (c & d & x' & Hc & Hsrc & Hd & Hx & Hs'). assert (x' = x) as ->; [|by exists c, d].
  rewrite Hs' in Hs. injection Hs as Hs. unfold crc_tail in Hs. destruct (v =? 0); [by rewrite !app_nil_r in Hs|].
  by apply app_inj_2 in Hs as [-> _]; [|rewrite !length_le_bytes].
Qed.

Definition out_at (p : Z) (out : list Z) : list Z := splice 0 (take (Z.to_nat p) range_bytes) out.

Lemma len_out_at p out : 0 <= p <= lim -> lim <= len out -> len (out_at p out) = len out.
Proof. intros Hp Ho. pose proof len_range_bytes. unfold out_at. rewrite len_splice; [done|lia|]. rewrite len_take by lia. lia. Qed.

Lemma read_loop_run sse42 base fuel b' i x buf out raw : (b <= i < e)%nat -> loaded b' buf -> fits b' i ->
  st !! i = Some (x ++ crc_tail v x) -> lim <= len out -> (e - i < fuel)%nat ->
  exists r, read_loop sse42 base z fuel false lim (copied i) (Some (block_iter i x))
      (at_block w (starts st i - starts st b') b' i buf (out_at (copied i) out) (copied i) raw) =
    Some (inr lim, r) /\ rd_world r = w /\ rd_out r = out_at lim out /\ m_eno (rd_br r) = 0.
Proof.
  revert b' i x buf raw. induction fuel as [|fuel IH]; intros b' i x buf raw Hi Hld Hf Hs Hout Hfu; [lia|].
  pose proof (cv_order _ _ _ _ _ _ Hcov). destruct (stored_at i x Hs) as (c & d & Hc & Hsrc & Hd & Hx); [lia|].
  destruct (in_range i Hi) as (Hlo & Hhi & Hoff & Hend & Hnext & _ & Hlast). cbn [read_loop].
  destruct (Z.leb_spec lim (copied i)) as [Hdone|Hgo]; [unfold copied in *; replace (Z.min lim (lo i - off)) with lim by lia; by eexists|].
  assert (copied i = lo i - off) as Hcp by (unfold copied in *; lia). rewrite bind_run, Hcp.
  edestruct (read_block_run sse42 base 3 b' i c d x buf (out_at (lo i - off) out)) as [raw' ->];
    [done|done|done|done|done|done|done|done|lia|rewrite len_out_at; lia|]. unfold out_at at 1. rewrite out_step by lia. fold (out_at (lo i - off + Z.min (lim - (lo i - off)) (hi i - lo i)) out).
  destruct (decide (S i < e)%nat) as [Hlt|Hge].
  - destruct (Hnext Hlt) as [Hh Hl]. destruct (block_at (S i) ltac:(lia)) as (c1 & d1 & x1 & _ & _ & _ & (Hx1 & _) & Hs1).
    replace (lo i - off + Z.min (lim - (lo i - off)) (hi i - lo i)) with (copied (S i)) by (unfold copied; lia).
    destruct (iter_next_run (starts st i - starts st b') b' i x1 buf (out_at (copied (S i)) out) (copied (S i)) raw')
      as (b1 & buf' & Hld1 & Hf1 & Hrun); [lia|done|done|lia|done|done|].
    rewrite bind_run, Hrun. apply IH; [lia|done|done|done|done|lia].
  - rewrite bind_run, iter_last_run by lia. replace (lo i - off + Z.min (lim - (lo i - off)) (hi i - lo i)) with lim by lia.
    eexists. by destruct fuel.
Qed.
End range.
End parts.

(** ** A read *)

Section pread.
Context {W : Type} `{HI : IFiles W} {HF : IFilesLaws W} {HS : ISparseFiles W} {HC : Codecs}.

(** The bytes a read gives, clipped at the size of the file. *)
Definition read_result (z : CompressionFile) (image : list Z) (count off : Z) : list Z :=
  take (Z.to_nat (Z.min count (len image - off))) (drop (Z.to_nat (read_start z off)) image).

Lemma pread_image sse42 base stack raw (w : W) z pre ds st post count off out :
  zimage w z pre ds st post -> 0 <= off < 2 ^ 62 -> 0 <= count < 2 ^ 62 -> count <= len out ->
  let data := read_result z (mjoin ds) count off in
  zfile_pread sse42 base z stack raw (Some out) count off w = Some ((len data, splice 0 data out), w).
Proof.
  intros Himg Ho Hc Hout data. unfold zfile_pread, default, id. pose proof (zi_block_size _ _ _ _ _ _ Himg).
  pose proof (zi_small _ _ _ _ _ _ Himg). pose proof (len_nonneg (mjoin ds)). pose proof (read_start_range w z pre ds st post Himg off ltac:(lia)) as Hrs.
  destruct (Z.ltb_spec MAX_READ_SIZE (block_size (ht_opt (m_ht z)))); [lia|]. rewrite (zi_total _ _ _ _ _ _ Himg), !(s64_small count), (s64_small (len _)) by lia.
  assert (s64 (len (mjoin ds) - off) = len (mjoin ds) - off) as Hs64.
  { unfold s64. destruct (decide (0 <= len (mjoin ds) - off)).
    - rewrite Z.mod_small by lia. destruct (Z.ltb_spec (len (mjoin ds) - off) (2 ^ 63)); lia.
    - replace ((len (mjoin ds) - off) mod 2 ^ 64) with (len (mjoin ds) - off + 2 ^ 64) by (apply Z.mod_unique with (-1); lia).
      destruct (Z.ltb_spec (len (mjoin ds) - off + 2 ^ 64) (2 ^ 63)); lia. }
  rewrite Hs64.
  replace (if len (mjoin ds) <? off + count then len (mjoin ds) - off else count) with (Z.min count (len (mjoin ds) - off))
    by (destruct (Z.ltb_spec (len (mjoin ds)) (off + count)); lia).
  unfold read_result in data. set (cnt := Z.min count (len (mjoin ds) - off)) in *. destruct (Z.leb_spec cnt 0) as [Hz|Hpos].
  - assert (data = []) as -> by (unfold data; rewrite Z2Nat.nonpos by done; done). rewrite splice_0. done.
  - destruct (reader_new_run w z pre ds st post Himg off cnt stack) as (b & e & orig & Hcov & ->); [lia|lia|lia|].
    pose proof (cv_order _ _ _ _ _ _ _ Hcov). destruct (block_at w z pre ds st post Himg b ltac:(lia)) as (c & d & x & _ & _ & _ & (Hx & _) & Hs).
    destruct (iter_begin_run w z pre ds st post Himg _ _ _ _ _ _ Hcov 0 x stack out 0 raw Hs) as (buf' & Hld & Hrun); [lia|].
    pose proof (cv_begin _ _ _ _ _ _ _ Hcov). cbn [m_end_idx m_idx].
    assert (copied ds (read_start z off) cnt b = 0) as Hc0 by (unfold copied, lo; lia).
    destruct (read_loop_run w z pre ds st post Himg _ _ _ _ _ _ Hcov cnt ltac:(lia) sse42 base (S (Z.to_nat (Z.of_nat e - Z.of_nat b))) b b x buf' out raw)
      as (r & Hloop & Hw & Hrout & Heno); [lia|done|apply fits_self with (1 := Himg) (2 := Hcov); lia|done|lia|lia|].
    unfold at_block, out_at in Hrun, Hloop. rewrite Hc0 in Hloop. change (take (Z.to_nat 0) _) with (@nil Z) in Hloop. rewrite splice_0 in Hloop.
    replace (read_start z off + (off + cnt - read_start z off) - 1) with (off + cnt - 1) in * by lia.
    rewrite bind_run, Hrun. cbn [app length] in Hloop. change (drop 0 out) with out in Hloop. change (bool_decide (Some out = None)) with false.
    rewrite Hloop, Heno, Hw, Hrout. cbn [Z.eqb negb]. destruct (Z.ltb_spec cnt cnt); [lia|].
    assert (data = take (Z.to_nat cnt) (range_bytes ds (read_start z off) (off + cnt - read_start z off))) as Hdata.
    { unfold range_bytes. rewrite take_take, Nat.min_l by lia. done. }
    unfold out_at. rewrite <- Hdata. do 3 f_equal. unfold data. rewrite len_take; [done|]. rewrite len_drop; lia.
Qed.
End pread.
