(* ===== verification/ZHeader.v ===== *)
(** The header and the trailer of a compressed file in its bytes: they are read as
    they were written, and the digest that is saved with them is accepted. *)

From S2P Require Import Prelude Files Crc32 Compressor ZFile.

(** ** Bytes *)

Lemma le_bytes_are_bytes n x : 0 <= x -> Forall is_byte (le_bytes n x).
Proof.
  revert x. induction n as [|n IH]; intros x Hx; cbn [le_bytes]; [constructor|].
  constructor; [unfold is_byte; apply Z.mod_pos_bound; lia|]. apply IH, Z.div_pos; lia.
Qed.
Lemma zeros_are_bytes n : Forall is_byte (zeros n).
Proof. unfold zeros. apply Forall_replicate. unfold is_byte. lia. Qed.

(** The fields are in the range of their types. *)
Definition opt_wf (o : CompressOptions) : Prop :=
  0 <= block_size o < 2 ^ 32 /\ 0 <= algo o < 2 ^ 8 /\ 0 <= level o < 2 ^ 8 /\ 0 <= use_dict o < 2 ^ 8 /\
  0 <= dict_size o < 2 ^ 32 /\ 0 <= verify o < 2 ^ 8.
Definition ht_wf (h : HeaderTrailer) : Prop :=
  0 <= magic0 h < 2 ^ 64 /\ length (magic1 h) = 16%nat /\ Forall is_byte (magic1 h) /\ 0 <= ht_size h < 2 ^ 32 /\
  0 <= digest h < 2 ^ 32 /\ 0 <= flags h < 2 ^ 64 /\ 0 <= index_offset h < 2 ^ 64 /\ 0 <= index_size h < 2 ^ 64 /\
  0 <= original_file_size h < 2 ^ 64 /\ 0 <= index_crc h < 2 ^ 32 /\ 0 <= reserved_0 h < 2 ^ 32 /\ opt_wf (ht_opt h).

Lemma length_opt_bytes o : length (opt_bytes o) = 24%nat.
Proof. unfold opt_bytes, zeros. rewrite !length_app, !length_le_bytes, length_replicate. done. Qed.

Lemma length_zht_bytes h : length (magic1 h) = 16%nat -> length (ht_bytes h) = 96%nat.
Proof. intros Hm. unfold ht_bytes. rewrite !length_app, !length_le_bytes, length_opt_bytes, Hm. done. Qed.

Lemma len_zheader h : ht_wf h -> len (header_block h) = SPACE.
Proof. intros (_ & Hm & _). unfold header_block, len. rewrite length_app, length_zht_bytes by done. done. Qed.

Lemma length_zheader h : ht_wf h -> length (header_block h) = Z.to_nat SPACE.
Proof. intros Hh. pose proof (len_zheader h Hh) as Hl. unfold len in Hl. lia. Qed.

Lemma header_block_bytes h : ht_wf h -> Forall is_byte (header_block h).
Proof.
  intros (? & ? & Hm & ? & ? & ? & ? & ? & ? & ? & ? & Ho). destruct Ho as (? & ? & ? & ? & ? & ?).
  unfold header_block, ht_bytes, opt_bytes. rewrite !Forall_app.
  repeat (split; try (apply le_bytes_are_bytes; lia); try apply zeros_are_bytes; try done).
  repeat constructor; unfold is_byte; lia.
Qed.

(** ** Reading back *)

Ltac get_field := rewrite bind_run, get_le_run by (change (8 * Z.of_nat 1) with 8; change (8 * Z.of_nat 4) with 32; change (8 * Z.of_nat 8) with 64; lia).

Lemma get_opt_run o l : opt_wf o -> get_opt (opt_bytes o ++ l) = Some (o, l).
Proof.
  intros (? & ? & ? & ? & ? & ?). unfold get_opt, opt_bytes. rewrite <- !app_assoc.
  do 4 get_field. rewrite bind_run, (get_bytes_run 1) by done. rewrite bind_run, (get_bytes_run 4) by apply length_le_bytes.
  do 2 get_field. rewrite bind_run, (get_bytes_run 7) by done. unfold mret, M_ret. by destruct o.
Qed.

Lemma get_ht_run h l : ht_wf h -> get_ht (ht_bytes h ++ l) = Some (h, l).
Proof.
  intros (? & Hm & _ & ? & ? & ? & ? & ? & ? & ? & ? & Ho). unfold get_ht, ht_bytes. rewrite <- !app_assoc.
  get_field. rewrite bind_run, (get_bytes_run 16) by done. do 8 get_field. rewrite bind_run, get_opt_run by done.
  unfold mret, M_ret. by destruct h.
Qed.

Lemma parse_header h : ht_wf h -> parse_ht (header_block h) = h.
Proof. intros Hh. unfold parse_ht, header_block. by rewrite get_ht_run. Qed.

(** ** The digest *)

Lemma zero_digest_block h : ht_wf h -> zero_digest (header_block h) = header_block (with_digest 0 h).
Proof.
  intros (_ & Hm & _). unfold zero_digest, header_block, ht_bytes, with_digest.
  cbn [magic0 magic1 ht_size digest flags index_offset index_size original_file_size index_crc reserved_0 ht_opt].
  rewrite <- !app_assoc. set (rest := le_bytes 8 (flags h) ++ _).
  rewrite (app_assoc (le_bytes 8 _)), (app_assoc (_ ++ magic1 h)).
  assert (length ((le_bytes 8 (magic0 h) ++ magic1 h) ++ le_bytes 4 (ht_size h)) = 28%nat) as Hl.
  { rewrite !length_app, !length_le_bytes, Hm. done. }
  rewrite take_app_le, take_ge by lia. rewrite drop_app_ge, Hl by lia. change (32 - 28)%nat with 4%nat.
  rewrite drop_app_length' by (by rewrite length_le_bytes). by rewrite <- !app_assoc.
Qed.

(** The header with its digest. *)
Definition with_crc (h : HeaderTrailer) : HeaderTrailer := with_digest (crc_ref 0 (header_block (with_digest 0 h))) h.

Lemma wf_digest d h : ht_wf h -> 0 <= d < 2 ^ 32 -> ht_wf (with_digest d h).
Proof. intros (? & ? & ? & ? & ? & ?) Hd. unfold ht_wf. cbn. tauto. Qed.

Lemma block_crc_range h : ht_wf h -> 0 <= crc_ref 0 (header_block h) < 2 ^ 32.
Proof. intros Hh. apply ref_range; [lia|by apply header_block_bytes]. Qed.

Lemma wf_with_crc h : ht_wf h -> ht_wf (with_crc h).
Proof. intros Hh. apply wf_digest; [done|]. apply block_crc_range, wf_digest; [done|lia]. Qed.

Lemma header_crc_run sse42 base h : ht_wf h -> crc32c sse42 base (header_block h) SPACE = Some (crc_ref 0 (header_block h)).
Proof.
  intros Hh. unfold crc32c. rewrite <- (len_zheader h) by done.
  apply extend_run; [lia|by apply header_block_bytes|rewrite len_zheader by done; unfold SPACE; lia].
Qed.

Lemma valid_with_crc sse42 base h : ht_wf h -> is_valid sse42 base (header_block (with_crc h)) = Some true.
Proof.
  intros Hh. unfold is_valid. rewrite parse_header by (by apply wf_with_crc). destruct (negb (is_digest_enabled _)); [done|].
  rewrite zero_digest_block by (by apply wf_with_crc).
  assert (with_digest 0 (with_crc h) = with_digest 0 h) as -> by done.
  rewrite header_crc_run by (apply wf_digest; [done|lia]). cbn [mbind option_bind]. f_equal. apply Z.eqb_refl.
Qed.

(** Any damage within 4 neighbouring bytes outside the field of the digest is
    noticed. *)
Lemma damage_rejected sse42 base h p w w' s : ht_wf h -> header_block (with_crc h) = p ++ w ++ s ->
  length w = length w' -> (length w <= 4)%nat -> w <> w' -> Forall is_byte w' ->
  (length p + length w <= 28)%nat \/ (32 <= length p)%nat ->
  is_digest_enabled (parse_ht (p ++ w' ++ s)) = true -> digest (parse_ht (p ++ w' ++ s)) = digest (with_crc h) ->
  is_valid sse42 base (p ++ w' ++ s) = Some false.
Proof.
  intros Hh Heq Hl Hn Hne Hb Hplace Hen Hdig. unfold is_valid. rewrite Hen, Hdig. cbn [negb].
  pose proof (wf_with_crc h Hh) as Hw. pose proof (header_block_bytes _ Hw) as Hbb. pose proof (len_zheader _ Hw) as Hlen.
  rewrite Heq in Hbb, Hlen. apply Forall_app in Hbb as [Hp Hbb]. apply Forall_app in Hbb as [Hw' Hs].
  assert (exists p1 s1, zero_digest (p ++ w ++ s) = p1 ++ w ++ s1 /\ zero_digest (p ++ w' ++ s) = p1 ++ w' ++ s1 /\
    Forall is_byte p1 /\ Forall is_byte s1) as (p1 & s1 & Hz & Hz' & Hp1 & Hs1).
  { unfold zero_digest. destruct Hplace as [Hlt|Hge].
    - exists p, (take (28 - length p - length w) s ++ zeros 4 ++ drop (32 - length p - length w) s).
      rewrite !take_app, !drop_app, <- Hl, !(take_ge p), !(take_ge w), !(take_ge w'), !(drop_ge p), !(drop_ge w), !(drop_ge w') by lia.
      rewrite <- !app_assoc. split; [done|]. split; [done|]. split; [done|].
      apply Forall_app. split; [by apply Forall_take|]. apply Forall_app. split; [apply zeros_are_bytes|by apply Forall_drop].
    - exists (take 28 p ++ zeros 4 ++ drop 32 p), s. rewrite !(take_app_le p), !(drop_app_le p) by lia. rewrite <- !app_assoc.
      split; [done|]. split; [done|]. split; [|done].
      apply Forall_app. split; [by apply Forall_take|]. apply Forall_app. split; [apply zeros_are_bytes|by apply Forall_drop]. }
  assert (Forall is_byte (p1 ++ w ++ s1)) as Hf by (rewrite !Forall_app; done).
  assert (Forall is_byte (p1 ++ w' ++ s1)) as Hf' by (rewrite !Forall_app; done).
  assert (len (p1 ++ w' ++ s1) = SPACE) as Hl1.
  { assert (len (zero_digest (p ++ w ++ s)) = SPACE) as Hz1.
    { rewrite <- Heq, zero_digest_block, len_zheader by (first [done | apply wf_digest; [done|lia]]). done. }
    rewrite Hz in Hz1. rewrite !len_app in *. unfold len in *. lia. }
  rewrite Hz'. unfold crc32c. rewrite <- Hl1, extend_run by (done || lia || rewrite Hl1; unfold SPACE; lia). cbn [mbind option_bind].
  f_equal. apply Z.eqb_neq. assert (digest (with_crc h) = crc_ref 0 (p1 ++ w ++ s1)) as ->.
  { rewrite <- Hz, <- Heq, zero_digest_block by done. done. }
  intros Hc. symmetry in Hc. revert Hc. by apply burst_detected.
Qed.
