(* ===== verification/ZBuild.v ===== *)
(** Making and opening compressed files: the functions of
    overlaybd/src/overlaybd/zfile/zfile.cpp that write a file of ZFile and open it
    again.

    [zfile_compress] cuts its input into blocks, of one size or at the places
    FastCDC chooses; [zfile_open_ro] loads the jump table; [zfile_decompress] and
    [zfile_validation_check] read a file from end to end.  Pointers to files are
    not null.  The loops that end with the input take fuel. *)

From S2P Require Import Prelude Files FastCDC Crc32 Compressor ZFile.

(** ** Writing the header *)

(** The buffer of 512 bytes with the header or the trailer as it is saved. *)
Definition prepare_ht (is_header is_sealed is_data_file overwrite : bool) (h : HeaderTrailer) : HeaderTrailer :=
  let h := if is_header then set_header h else set_trailer h in
  let h := if is_sealed then set_sealed h else clr_sealed h in
  let h := if is_data_file then set_data_file h else set_index_file h in
  let h := if overwrite then set_header_overwrite h else h in
  with_digest 0 (set_digest_enable h).

(** The words of a table of 32-bit sizes, and its bytes. *)
Definition words (n : nat) (bytes : list Z) : list Z :=
  (fun i => le_value (take 4 (drop (4 * i) bytes))) <$> seq 0 n.
Definition table_bytes (l : list Z) : list Z := mjoin (le_bytes 4 <$> l).

(** The variables of [zfile_compress] with the files, and the static state of the
    chunker. *)
Record compressing (W : Type) := mkCompressing {
  cs_world : W;
  cs_cdc : globals * bool;
  block_len : list Z;
  raw_block_len : list Z;
  moffset : Z
}.
#[global] Arguments mkCompressing {_} _ _ _ _ _.
#[global] Arguments cs_world {_} _.
#[global] Arguments cs_cdc {_} _.
#[global] Arguments block_len {_} _.
#[global] Arguments raw_block_len {_} _.
#[global] Arguments moffset {_} _.

(** A buffer as the chunker sees it. *)
Definition buffer_of (l : list Z) : buffer := fun i => if i <? 0 then None else l !! Z.to_nat i.

Section files.
Context {W : Type} `{IFiles W, ISparseFiles W, IStreamFiles W, Codecs}.
Variables (sse42 : bool) (base : Z) (MD5 : list Z -> list Z).

(** [write_header_trailer]; an [offset] of -1 is the position of the file.  The
    result with the changed header. *)
Definition write_header_trailer (file : Z) (is_header is_sealed is_data_file : bool) (h : HeaderTrailer) (offset : Z) :
    M W (Z * HeaderTrailer) :=
  let h := prepare_ht is_header is_sealed is_data_file (negb (offset =? -1)) h in
  d ← lift (crc32c sse42 base (header_block h) SPACE);
  let h := with_digest d h in
  ret ← (if offset =? -1 then f_write file (header_block h) else f_pwrite file (header_block h) offset);
  mret (s32 ret, h).

(** ** [zfile_compress] *)

Abbreviation C := (compressing W).
Definition cs_files {A} (m : M W A) : M C A :=
  zoom cs_world (fun w s => mkCompressing w (cs_cdc s) (block_len s) (raw_block_len s) (moffset s)) m.
Definition cs_chunker {A} (m : M globals A) : M C A :=
  zoom (fun s => fst (cs_cdc s))
    (fun g s => mkCompressing (cs_world s) (g, snd (cs_cdc s)) (block_len s) (raw_block_len s) (moffset s)) m.
Definition push_block (clen rlen : Z) (s : C) : C :=
  mkCompressing (cs_world s) (cs_cdc s) (block_len s ++ [u32 clen]) (raw_block_len s ++ [u32 rlen]) (u64 (moffset s + clen)).

(** The loop that writes the blocks of a batch, compressed in [zs], with their
    checksums.  [false] is the return with -1. *)
Fixpoint write_batch (as_ : Z) (crc32_verify : bool) (raw_chunk_len : list Z) (zs : list (list Z)) : M C bool :=
  match raw_chunk_len, zs with
  | r :: raw_chunk_len, x :: zs =>
    ret ← cs_files (f_write as_ x);
    if ret <? len x then mret false
    else
      ok ← ((if crc32_verify then
               code ← lift (crc32c_salt sse42 base x 0 (len x));
               ret ← cs_files (f_write as_ (le_bytes 4 code));
               mret (negb (ret <? 4))
             else mret true) : M C bool);
      if negb ok then mret false
      else
        modify (push_block (len x + (if crc32_verify then 4 else 0)) r);;
        write_batch as_ crc32_verify raw_chunk_len zs
  | [], [] => mret true
  | _, _ => bug
  end.

Definition compress_and_write (c : ICompressor) (as_ : Z) (crc32_verify : bool) (src : list Z) (raw_chunk_len : list Z) (buf_size : Z) : M C bool :=
  let n := Z.of_nat (length raw_chunk_len) in
  '(ret, zs) ← lift (compress_batch c src raw_chunk_len (n * buf_size) n);
  if negb (ret =? 0) then mret false else write_batch as_ crc32_verify raw_chunk_len zs.

(** The chunks of a fixed size of what was read. *)
Fixpoint fixed_chunks (fuel : nat) (block_size readn : Z) : option (list Z) :=
  match fuel with
  | O => None
  | S fuel =>
    if 0 <? readn then
      if readn <? block_size then Some [readn]
      else l ← fixed_chunks fuel block_size (readn - block_size); Some (block_size :: l)
    else Some []
  end.

(** The loop of FastCDC over what was read; [lens] are the chunks of the batch so
    far.  The result is [None] for the return with -1, and else the start of the
    batch that is left and its chunks. *)
Fixpoint cdc_chunks (fuel : nat) (c : ICompressor) (ch : chunker) (as_ : Z) (crc32_verify : bool) (buf_size : Z)
    (data : list Z) (offset batch_start_offset : Z) (lens : list Z) : M C (option (Z * list Z)) :=
  match fuel with
  | O => bug
  | S fuel =>
    if offset <? len data then
      let remaining := len data - offset in
      chunk_size ← cs_chunker (next_chunk ch (Some (buffer_of (drop (Z.to_nat offset) data))) remaining);
      let chunk_size := if (chunk_size =? 0) || (remaining <? chunk_size) then remaining else chunk_size in
      BUG_ON (nbatch c <=? Z.of_nat (length lens));;
      let lens := lens ++ [chunk_size] in
      let offset := offset + chunk_size in
      if nbatch c <=? Z.of_nat (length lens) then
        ok ← compress_and_write c as_ crc32_verify (drop (Z.to_nat batch_start_offset) data) lens buf_size;
        if negb ok then mret None else cdc_chunks fuel c ch as_ crc32_verify buf_size data offset offset []
      else cdc_chunks fuel c ch as_ crc32_verify buf_size data offset batch_start_offset lens
    else mret (Some (batch_start_offset, lens))
  end.

(** The blocks of one read. *)
Definition compress_data_read (c : ICompressor) (cdc : option chunker) (as_ : Z) (crc32_verify : bool) (block_size buf_size : Z)
    (data : list Z) : M C bool :=
  rest ← match cdc with
    | Some ch => cdc_chunks (S (length data)) c ch as_ crc32_verify buf_size data 0 0 []
    | None =>
      lens ← lift (fixed_chunks (S (length data)) block_size (len data));
      BUG_ON (nbatch c <? Z.of_nat (length lens));;
      mret (Some (0, lens))
    end;
  match rest with
  | None => mret false
  | Some (start, lens) =>
    if 0 <? Z.of_nat (length lens) then compress_and_write c as_ crc32_verify (drop (Z.to_nat start) data) lens buf_size
    else mret true
  end.

(** [while (true)]: the size of the input when it ends. *)
Fixpoint compress_loop (fuel : nat) (c : ICompressor) (cdc : option chunker) (file as_ : Z) (crc32_verify : bool)
    (block_size buf_size infile_size : Z) : M C (option Z) :=
  match fuel with
  | O => bug
  | S fuel =>
    '(readn, data) ← cs_files (f_read file (u32 (block_size * nbatch c)));
    if readn =? 0 then mret (Some infile_size)
    else if readn <? 0 then mret None
    else
      ok ← compress_data_read c cdc as_ crc32_verify block_size buf_size data;
      if negb ok then mret None
      else compress_loop fuel c cdc file as_ crc32_verify block_size buf_size (infile_size + readn)
  end.

(** The tables and the trailer, and the header again. *)
Definition write_tables (as_ : Z) (args : CompressArgs) (infile_size : Z) (h : HeaderTrailer) : M C Z :=
  bl ← gets block_len; rbl ← gets raw_block_len; index_offset ← gets moffset;
  let index_bytes := 4 * Z.of_nat (length bl) in
  ret ← cs_files (f_write as_ (table_bytes bl));
  if negb (ret =? index_bytes) then mret (-1)
  else
    crc ← lift (crc32c sse42 base (table_bytes bl) index_bytes);
    ok ← ((if use_fastcdc args then
             ret ← cs_files (f_write as_ (table_bytes rbl)); mret (ret =? 4 * Z.of_nat (length rbl))
           else mret true) : M C bool);
    if negb ok then mret (-1)
    else
      let h := with_index index_offset (Z.of_nat (length bl)) (u64 infile_size) crc h in
      '(ret, h) ← cs_files (write_header_trailer as_ false true true h (-1));
      if ret <? 0 then mret (-1)
      else if overwrite_header args then
        '(ret, h) ← cs_files (write_header_trailer as_ true false true h 0);
        mret (if ret <? 0 then -1 else 0)
      else mret 0.

(** [zfile_compress]; the result with the state of the chunker. *)
Definition zfile_compress (fuel : nat) (file as_ : Z) (args : CompressArgs) (cdc0 : globals * bool) : M W (Z * (globals * bool)) :=
  let o := opt args in
  let o := if use_fastcdc args then mkOptions (fastcdc_max_size args) (algo o) (level o) (use_dict o) (dict_size o) (verify o) else o in
  match create_compressor (opt args) with
  | None => mret (-1, cdc0)
  | Some c =>
    let h := set_compress_option o HeaderTrailer_new in
    let h := if use_fastcdc args then set_fastcdc h else h in
    '(ret, h) ← write_header_trailer as_ true false true h (-1);
    if ret <? 0 then mret (-1, cdc0)
    else
      let '(cdc, cdc0) := if use_fastcdc args then
          let '(ch, st) := FastCDCChunker MD5 (fastcdc_min_size args) (fastcdc_avg_size args) (fastcdc_max_size args) cdc0 in (Some ch, st)
        else (None, cdc0) in
      let bsize := block_size o in
      let run : M C Z :=
        size ← compress_loop fuel c cdc file as_ (negb (verify o =? 0)) bsize (bsize + BUF_SIZE) 0;
        match size with None => mret (-1) | Some size => write_tables as_ args size h end in
      ((fun w =>
        match run (mkCompressing w cdc0 [] [] (SPACE + dict_size o)) with
        | None => None
        | Some (ret, s) => Some ((ret, cs_cdc s), cs_world s)
        end) : M W (Z * (globals * bool)))
  end.

(** ** [load_jump_table] *)

(** The threads that read a megabyte of the table each; they are started in order,
    and a read changes no file.  The first component says whether all succeeded. *)
Fixpoint read_chunks (fuel : nat) (file index_offset index_bytes offset : Z) : M W (bool * list Z) :=
  match fuel with
  | O => bug
  | S fuel =>
    if offset <? index_bytes then
      let chunk_size := Z.min (index_bytes - offset) (2 ^ 20) in
      '(ret, data) ← f_pread file chunk_size (s64 (index_offset + offset));
      '(ok, rest) ← read_chunks fuel file index_offset index_bytes (offset + 2 ^ 20);
      mret ((ret =? chunk_size) && ok, data ++ rest)
    else mret (true, [])
  end.

(** The header at the start of the file, and the trailer unless the header was
    overwritten. *)
Definition load_trailer (file : Z) (h : HeaderTrailer) : M W (option HeaderTrailer) :=
  if negb (is_header_overwrite h) then
    '(ret, st_size) ← f_fstat file;
    if ret <? 0 then mret None
    else if negb (is_data_file h) then mret None
    else
      let trailer_offset := st_size - SPACE in
      '(ret, buf) ← f_pread file SPACE trailer_offset;
      if ret <? SPACE then mret None
      else
        let h := parse_ht buf in
        if negb (verify_magic h) || negb (is_trailer h) || negb (is_data_file h) || negb (is_sealed h) then mret None
        else if u64 (trailer_offset - index_offset h) <? u64 (index_size h * 4) then mret None
        else mret (Some h)
  else mret (Some h).

(** An array of more than 2^61 words cannot be allocated. *)
Definition load_jump_table (file : Z) : M W (option (HeaderTrailer * JumpTable)) :=
  '(ret, buf) ← f_pread file SPACE 0;
  if ret <? SPACE then mret None
  else
    let h := parse_ht buf in
    if negb (verify_magic h) || negb (is_header h) then mret None
    else
      ok ← lift (is_valid sse42 base buf);
      if negb ok then mret None
      else
        '(ret, _) ← f_fstat file;
        if ret <? 0 then mret None
        else
          r ← load_trailer file h;
          match r with
          | None => mret None
          | Some h =>
            BUG_ON (2 ^ 61 <=? index_size h);;
            let index_bytes := index_size h * 4 in
            '(ok, ibuf) ← read_chunks (S (Z.to_nat (index_bytes / 2 ^ 20 + 1))) file (index_offset h) index_bytes 0;
            if negb ok then mret None
            else
              ok ← ((if is_digest_enabled h then
                       crc ← lift (crc32c sse42 base ibuf index_bytes); mret (crc =? index_crc h)
                     else mret true) : M W bool);
              if negb ok then mret None
              else
                '(ret, t) ← lift (build (words (Z.to_nat (index_size h)) ibuf) (SPACE + dict_size (ht_opt h)) (block_size (ht_opt h))
                  (negb (verify (ht_opt h) =? 0)));
                mret (if negb (ret =? 0) then None else Some (h, t))
          end.

(** ** [zfile_open_ro] *)

Fixpoint open_retry (retry : nat) (file : Z) (verify_ : bool) : M W (option (HeaderTrailer * JumpTable)) :=
  r ← load_jump_table file;
  match r with
  | Some ht => mret (Some ht)
  | None =>
    if verify_ then
      res ← f_fallocate file 0 0 (-1);
      if res <? 0 then mret None
      else match retry with O => mret None | S retry => open_retry retry file verify_ end
    else mret None
  end.

Definition zfile_open_ro (file : Z) (verify_ : bool) : M W (option CompressionFile) :=
  r ← open_retry 2 file verify_;
  match r with
  | None => mret None
  | Some (h, t) =>
    raw ← (if is_fastcdc h then
             let raw_index_bytes := index_size h * 4 in
             '(readn, data) ← f_pread file raw_index_bytes (s64 (index_offset h + index_size h * 4));
             mret (if negb (readn =? raw_index_bytes) then None else Some (words (Z.to_nat (index_size h)) data))
           else mret (Some []));
    match raw with
    | None => mret None
    | Some sizes => mret (Some (mkZFile t sizes h file (create_compressor (ht_opt h)) FLAG_VALID_TRUE))
    end
  end.

(** [fstat] of a compressed file: the result and the size. *)
Definition zfile_fstat (z : CompressionFile) : M W (Z * Z) :=
  '(ret, st_size) ← f_fstat (m_file z);
  mret (if negb (ret =? 0) then (ret, st_size) else (ret, original_file_size (m_ht z))).

(** ** Reading from end to end

    [stack], [raw] and [raw_buf] are what the local buffers and a new array of the
    given size hold at first. *)

Section whole.
Variables (stack raw : list Z).

Fixpoint decompress_loop (fuel : nat) (z : CompressionFile) (dst raw_data_size bsize : Z) (raw_buf : list Z) (offset : Z) : M W Z :=
  match fuel with
  | O => bug
  | S fuel =>
    if offset <? raw_data_size then
      let n := Z.min bsize (raw_data_size - offset) in
      '(readn, raw_buf) ← zfile_pread sse42 base z stack raw (Some raw_buf) n offset;
      if readn <=? 0 then mret (-1)
      else
        let readn := if n <? readn then n else readn in
        writen ← f_write dst (take (Z.to_nat readn) raw_buf);
        if negb (writen =? readn) then mret (-1)
        else decompress_loop fuel z dst raw_data_size bsize raw_buf (offset + readn)
    else mret 0
  end.

Definition zfile_decompress (fuel : nat) (raw_buf : Z -> list Z) (src dst : Z) : M W Z :=
  f ← zfile_open_ro src true;
  match f with
  | None => mret (-1)
  | Some z =>
    '(_, raw_data_size) ← zfile_fstat z;
    let bsize := block_size (ht_opt (m_ht z)) in
    decompress_loop fuel z dst raw_data_size bsize (raw_buf bsize) 0
  end.

Fixpoint validation_loop (fuel : nat) (z : CompressionFile) (raw_data_size bsize : Z) (raw_buf : list Z) (offset : Z) : M W Z :=
  match fuel with
  | O => bug
  | S fuel =>
    if offset <? raw_data_size then
      let n := Z.min bsize (raw_data_size - offset) in
      '(readn, raw_buf) ← zfile_pread sse42 base z stack raw (Some raw_buf) n offset;
      if negb (readn =? n) then mret (-1)
      else validation_loop fuel z raw_data_size bsize raw_buf (offset + bsize)
    else mret 0
  end.

Definition set_valid (x : Z) (z : CompressionFile) : CompressionFile :=
  mkZFile (m_jump_table z) (m_raw_block_sizes z) (m_ht z) (m_file z) (m_compressor z) x.

Definition zfile_validation_check (fuel : nat) (raw_buf : Z -> list Z) (src : Z) : M W Z :=
  f ← zfile_open_ro src true;
  match f with
  | None => mret (-1)
  | Some z =>
    if verify (ht_opt (m_ht z)) =? 0 then mret (-1)
    else
      let z := set_valid FLAG_VALID_CRC_CHECK z in
      '(_, raw_data_size) ← zfile_fstat z;
      let bsize := block_size (ht_opt (m_ht z)) in
      validation_loop fuel z raw_data_size bsize (raw_buf bsize) 0
  end.
End whole.

(** [is_zfile] *)
Definition is_zfile (file : Z) : M W Z :=
  '(ret, buf) ← f_pread file SPACE 0;
  if ret <? SPACE then mret (-1)
  else
    let h := parse_ht buf in
    if negb (verify_magic h) || negb (is_header h) then mret 0
    else
      ok ← lift (is_valid sse42 base buf);
      mret (if negb ok then -1 else 1).
End files.
