(* ===== verification/ZWrite.v ===== *)
(** What [zfile_compress] (ZBuild) writes.

    The blocks of the file are compressed one after the other ([progress]); in the
    end the file holds the header, the stored blocks, the tables of their sizes and
    the trailer ([zfile_compress_run]). *)

From S2P Require Import Prelude Files FastCDC Crc32 Compressor ZFile ZJump ZRead ZHeader ZBuild.

(** ** Saved headers *)

Definition saved (is_header is_sealed is_data_file overwrite : bool) (h : HeaderTrailer) : HeaderTrailer :=
  with_crc (prepare_ht is_header is_sealed is_data_file overwrite h).

Lemma flags_range_lor f s : 0 <= f < 2 ^ 64 -> 0 <= s < 64 -> 0 <= Z.lor f (Z.shiftl 1 s) < 2 ^ 64.
Proof.
  intros Hf Hs. assert (0 <= Z.lor f (Z.shiftl 1 s)) as Hn by (apply Z.lor_nonneg; split; [lia|apply Z.shiftl_nonneg; lia]). split; [done|].
  assert (0 < Z.lor f (Z.shiftl 1 s)) as Hp.
  { destruct (Z.eq_dec (Z.lor f (Z.shiftl 1 s)) 0) as [He|]; [|lia]. apply Z.lor_eq_0_iff in He as [_ He].
    rewrite Z.shiftl_mul_pow2 in He by lia. pose proof (Z.pow_pos_nonneg 2 s). lia. }
  apply Z.log2_lt_pow2; [done|]. rewrite Z.log2_lor by (lia || apply Z.shiftl_nonneg; lia). rewrite Z.log2_shiftl by lia.
  change (Z.log2 1) with 0. apply Z.max_lub_lt; [|lia]. destruct (Z.eq_dec f 0) as [->|]; [simpl; lia|]. apply Z.log2_lt_pow2; lia.
Qed.

Lemma flags_range_ldiff f s : 0 <= f < 2 ^ 64 -> 0 <= Z.ldiff f s < 2 ^ 64.
Proof.
  intros Hf. assert (Z.ldiff f s = Z.ldiff f s mod 2 ^ 64) as ->; [|apply Z.mod_pos_bound; lia].
  apply Z.bits_inj'. intros i Hi. destruct (Z.ltb_spec i 64).
  - by rewrite Z.mod_pow2_bits_low.
  - rewrite Z.mod_pow2_bits_high, Z.ldiff_spec by lia. rewrite <- (Z.mod_small f (2 ^ 64)) by done. by rewrite Z.mod_pow2_bits_high by lia.
Qed.

Lemma wf_set_flag s h : ht_wf h -> 0 <= s < 64 -> ht_wf (set_flag_bit s h).
Proof.
  intros (? & ? & ? & ? & ? & Hf & ?) Hs. unfold ht_wf. cbn. pose proof (flags_range_lor (flags h) s Hf Hs). tauto.
Qed.
Lemma wf_clr_flag s h : ht_wf h -> ht_wf (clr_flag_bit s h).
Proof.
  intros (? & ? & ? & ? & ? & Hf & ?). unfold ht_wf. cbn. pose proof (flags_range_ldiff (flags h) (Z.shiftl 1 s) Hf). tauto.
Qed.

Lemma wf_prepare a b c o h : ht_wf h -> ht_wf (prepare_ht a b c o h).
Proof.
  intros Hh. unfold prepare_ht. apply wf_digest; [|lia]. apply wf_set_flag; [|unfold FLAG_SHIFT_CALC_DIGEST; lia].
  destruct o, c, b, a; repeat first [apply wf_set_flag | apply wf_clr_flag];
    try done; unfold FLAG_SHIFT_HEADER, FLAG_SHIFT_SEALED, FLAG_SHIFT_TYPE, FLAG_SHIFT_HEADER_OVERWRITE; lia.
Qed.

Lemma wf_saved a b c o h : ht_wf h -> ht_wf (saved a b c o h).
Proof. intros Hh. by apply wf_with_crc, wf_prepare. Qed.

Section headers.
Context {W : Type} `{HI : IFiles W} {HF : IFilesLaws W}.
Variables (sse42 : bool) (base : Z).

Lemma write_zheader_run w f a b c h : ht_wf h -> position w f = len (contents w f) -> len (contents w f) + SPACE < 2 ^ 63 ->
  exists w', write_header_trailer sse42 base f a b c h (-1) w = Some ((SPACE, saved a b c false h), w') /\
    contents w' f = contents w f ++ header_block (saved a b c false h) /\ position w' f = len (contents w' f) /\
    forall g, g <> f -> contents w' g = contents w g /\ position w' g = position w g.
Proof.
  intros Hh Hp Hl. pose proof (wf_prepare a b c false h Hh) as Hw. pose proof (wf_with_crc _ Hw) as Hws.
  destruct (write_end w f (header_block (saved a b c false h)) Hp) as (w' & Hwr & Hc & Hp' & Ho).
  { unfold saved. rewrite len_zheader by done. done. }
  exists w'. split; [|done]. unfold write_header_trailer. rewrite bind_run.
  change (negb (-1 =? -1)) with false. rewrite header_crc_run by done. rewrite lift_run.
  change (-1 =? -1) with true. cbn iota. rewrite bind_run.
  change (with_digest _ (prepare_ht a b c false h)) with (saved a b c false h). rewrite Hwr.
  unfold saved in *. rewrite len_zheader by done. done.
Qed.

Lemma overwrite_zheader_run w f a b c h : ht_wf h -> SPACE <= len (contents w f) ->
  exists w', write_header_trailer sse42 base f a b c h 0 w = Some ((SPACE, saved a b c true h), w') /\
    contents w' f = header_block (saved a b c true h) ++ drop (Z.to_nat SPACE) (contents w f) /\
    forall g, g <> f -> contents w' g = contents w g /\ position w' g = position w g.
Proof.
  intros Hh Hl. pose proof (wf_prepare a b c true h Hh) as Hw. pose proof (wf_with_crc _ Hw) as Hws.
  destruct (pwrite_law w f (header_block (saved a b c true h)) 0) as (w' & Hwr & Hc & Ho & Hp); [lia|unfold saved; rewrite len_zheader by done; lia|].
  exists w'. split; [|split; [|by split; [apply Ho|apply Hp]]].
  - unfold write_header_trailer. change (negb (0 =? -1)) with true. rewrite bind_run, header_crc_run by done. rewrite lift_run.
    change (0 =? -1) with false. cbn iota. rewrite bind_run.
    change (with_digest _ (prepare_ht a b c true h)) with (saved a b c true h). rewrite Hwr.
    unfold saved in *. rewrite len_zheader by done. done.
  - rewrite Hc, splice_0. do 2 f_equal. pose proof (len_zheader _ Hws) as Hlen. unfold saved, len in *. lia.
Qed.
End headers.

(** ** The blocks *)

(** A block with at most [bs] bytes and what is stored of it. *)
Definition stored_block `{Codecs} (k : codec) (v bs : Z) (d s : list Z) : Prop := 0 < len d <= bs /\ stored k v d s.

Lemma stored_block_len `{Codecs} k v bs d s : stored_block k v bs d s -> (if v =? 0 then 0 else 4) < len s <= len d + len d / 255 + 68.
Proof.
  intros (Hd & x & (Hx & _) & ->). rewrite len_app. unfold crc_tail. destruct (v =? 0); unfold len in *; [simpl; lia|].
  rewrite length_le_bytes. lia.
Qed.

Lemma stored_total `{Codecs} k v bs ds st : Forall2 (stored_block k v bs) ds st ->
  0 <= len (mjoin st) <= 70 * len (mjoin ds) /\ Z.of_nat (length ds) <= len (mjoin ds).
Proof.
  induction 1 as [|d s ds st Hs Hst IH]; [done|]. rewrite !len_mjoin_cons. pose proof (stored_block_len _ _ _ _ _ Hs) as Hl.
  destruct Hs as [Hd _]. cbn [length]. assert (len d / 255 <= len d) by dlia. destruct (v =? 0); lia.
Qed.

(** The checksum of a compressed block. *)
Lemma salt_run sse42 base x : Forall is_byte x -> len x < 2 ^ 32 ->
  crc32c_salt sse42 base x 0 (len x) = Some (crc_ref NOI_WELL_KNOWN_PRIME x).
Proof.
  intros Hb Hl. unfold crc32c_salt. rewrite Z.add_0_l. destruct (Z.ltb_spec (len x) (len x)); [lia|].
  change (drop (Z.to_nat 0) x) with x. rewrite firstn_all2 by (unfold len; lia). apply extend_run; [unfold NOI_WELL_KNOWN_PRIME; lia|done|done].
Qed.

Section compress.
Context {W : Type} `{HI : IFiles W} {HF : IFilesLaws W} {HSt : IStreamFiles W} {HSL : IStreamLaws W} {HC : Codecs} {HCL : CodecsLaws}.
Variables (sse42 : bool) (base : Z) (winit : W) (file as_ : Z) (hdr : list Z) (k : codec) (v bs : Z) (input : list Z).
Hypothesis Hne : file <> as_.
Hypothesis Hbs : 0 < bs <= 2 ^ 16.
Hypothesis Hbytes : Forall is_byte input.
Hypothesis Hsize : len input < 2 ^ 55.
Hypothesis Hhdr : len hdr = SPACE.

Lemma cs_files_run {A} (m : M W A) w w' a cdc bl rbl mo : m w = Some (a, w') ->
  cs_files m (mkCompressing w cdc bl rbl mo) = Some (a, mkCompressing w' cdc bl rbl mo).
Proof. intros Hm. unfold cs_files, zoom. cbn [cs_world]. by rewrite Hm. Qed.

(** The blocks [ds] are written as [st]; [pos] is the position in the input. *)
Record progress (pos : Z) (ds st : list (list Z)) (s : compressing W) : Prop := {
  pg_input : contents (cs_world s) file = input;
  pg_pos : position (cs_world s) file = pos;
  pg_out : contents (cs_world s) as_ = hdr ++ mjoin st;
  pg_end : position (cs_world s) as_ = len (contents (cs_world s) as_);
  pg_stored : Forall2 (stored_block k v bs) ds st;
  pg_block_len : block_len s = len <$> st;
  pg_raw_block_len : raw_block_len s = len <$> ds;
  pg_moffset : moffset s = SPACE + len (mjoin st);
  pg_others g : g <> file -> g <> as_ -> contents (cs_world s) g = contents winit g /\ position (cs_world s) g = position winit g
}.

Lemma write_batch_run pos ds st s d x : progress pos ds st s -> 0 < len d <= bs -> compressed_as k d x -> len (mjoin ds) + len d < 2 ^ 56 ->
  exists s', write_batch sse42 base as_ (negb (v =? 0)) [len d] [x] s = Some (true, s') /\
    progress pos (ds ++ [d]) (st ++ [x ++ crc_tail v x]) s' /\ cs_cdc s' = cs_cdc s.
Proof.
  intros Hp Hd Hx Htot. destruct s as [w0 cdc bl rbl mo]. destruct Hp as [Hin Hpos Hout Hend Hst Hbl Hrbl Hmo Hoth]. cbn in *.
  destruct (stored_total _ _ _ _ _ Hst) as [Hst1 _]. pose proof (len_nonneg (mjoin ds)).
  assert (stored_block k v bs d (x ++ crc_tail v x)) as Hsb by (split; [done|]; by exists x).
  pose proof (stored_block_len _ _ _ _ _ Hsb) as Hsl. destruct Hx as (Hx & Hxb & Hdec). assert (len d / 255 <= 2 ^ 16) by dlia.
  assert (len (contents w0 as_) + len (x ++ crc_tail v x) < 2 ^ 63) as Hfit by (rewrite Hout, len_app, Hhdr; unfold SPACE; lia).
  destruct (write_end w0 as_ x Hend) as (w1 & Hw1 & Hc1 & Hp1 & Ho1); [rewrite len_app in Hfit; pose proof (len_nonneg (crc_tail v x)); lia|].
  cbn [write_batch]. rewrite bind_run, (cs_files_run _ _ _ _ _ _ _ _ Hw1). destruct (Z.ltb_spec (len x) (len x)); [lia|]. rewrite bind_run.
  assert (Forall2 (stored_block k v bs) (ds ++ [d]) (st ++ [x ++ crc_tail v x])) as Hst'
    by (apply Forall2_app; [done|constructor; [done|constructor]]).
  unfold crc_tail in *. destruct (Z.eqb_spec v 0) as [Hv|Hv]; cbn [negb].
  - repeat run. cbn [negb]. repeat run. eexists. split; [done|]. split; [|done]. unfold push_block. cbn [cs_world cs_cdc block_len raw_block_len moffset].
    rewrite app_nil_r in *. constructor; cbn [cs_world cs_cdc block_len raw_block_len moffset]; try done.
    + by destruct (Ho1 file Hne) as [-> _].
    + by destruct (Ho1 file Hne) as [_ ->].
    + by rewrite Hc1, Hout, mjoin_snoc, <- app_assoc.
    + rewrite Hbl, fmap_app, u32_small by lia. cbn. by rewrite Z.add_0_r.
    + rewrite Hrbl, fmap_app, u32_small by lia. done.
    + rewrite Hmo, mjoin_snoc, len_app, u64_small by (unfold SPACE; lia). lia.
    + intros g Hg1 Hg2. destruct (Ho1 g Hg2) as [-> ->]. by apply Hoth.
  - rewrite bind_run, salt_run by (done || lia). rewrite lift_run. rewrite bind_run.
    set (tl := le_bytes 4 (crc_ref NOI_WELL_KNOWN_PRIME x)) in *. assert (len tl = 4) as Htl by (unfold tl, len; by rewrite length_le_bytes).
    destruct (write_end w1 as_ tl Hp1) as (w2 & Hw2 & Hc2 & Hp2 & Ho2); [rewrite Hc1, !len_app in *; lia|].
    rewrite (cs_files_run _ _ _ _ _ _ _ _ Hw2), Htl.
    change (4 <? 4) with false. cbn [negb]. repeat run. cbn [negb]. repeat run.
    eexists. split; [done|]. split; [|done]. unfold push_block. cbn [cs_world cs_cdc block_len raw_block_len moffset].
    constructor; cbn [cs_world cs_cdc block_len raw_block_len moffset]; try done.
    + destruct (Ho2 file Hne) as [-> _]. by destruct (Ho1 file Hne) as [-> _].
    + destruct (Ho2 file Hne) as [_ ->]. by destruct (Ho1 file Hne) as [_ ->].
    + by rewrite Hc2, Hc1, Hout, mjoin_snoc, <- !app_assoc.
    + rewrite Hbl, fmap_app, u32_small by (rewrite len_app in Hsl; lia). cbn [fmap list_fmap]. by rewrite len_app, Htl.
    + rewrite Hrbl, fmap_app, u32_small by lia. done.
    + rewrite Hmo, mjoin_snoc, !len_app, Htl in *. rewrite u64_small by (unfold SPACE; lia). lia.
    + intros g Hg1 Hg2. destruct (Ho2 g Hg2) as [-> ->]. destruct (Ho1 g Hg2) as [-> ->]. by apply Hoth.
Qed.

Lemma compress_one_run c pos ds st s d rest buf_size : progress pos ds st s -> c_codec c = k -> 0 < len d <= bs -> Forall is_byte d ->
  max_dst_size c <= buf_size -> len d + len d / 255 + 64 <= buf_size -> len (mjoin ds) + len d < 2 ^ 56 ->
  exists x s', compress_and_write sse42 base c as_ (negb (v =? 0)) (d ++ rest) [len d] buf_size s = Some (true, s') /\
    progress pos (ds ++ [d]) (st ++ [x]) s' /\ cs_cdc s' = cs_cdc s.
Proof.
  intros Hp Hk Hd Hb Hmax Hbuf Htot. destruct (compress_batch_one c rest d buf_size ltac:(lia) Hb Hmax Hbuf) as (x & Hrun & Hx).
  rewrite Hk in Hx. destruct (write_batch_run pos ds st s d x Hp Hd Hx Htot) as (s' & Hw & Hp').
  exists (x ++ crc_tail v x), s'. split; [|done]. unfold compress_and_write. cbn [length]. change (Z.of_nat 1) with 1. rewrite Z.mul_1_l, Hrun.
  repeat run. cbn [Z.eqb negb]. done.
Qed.

(** *** One read *)

Variables (c : ICompressor) (buf_size : Z).
Hypothesis Hk : c_codec c = k.
Hypothesis Hmax : max_dst_size c <= buf_size.
Hypothesis Hbuf : bs + bs / 255 + 64 <= buf_size.

Lemma room d : 0 < len d <= bs -> len d + len d / 255 + 64 <= buf_size.
Proof. intros Hd. assert (len d / 255 <= bs / 255) by (apply Z.div_le_mono; lia). lia. Qed.

Lemma fixed_chunks_one n : 0 < n <= bs -> fixed_chunks (S (Z.to_nat n)) bs n = Some [n].
Proof.
  intros Hn. cbn [fixed_chunks]. destruct (Z.ltb_spec 0 n); [|lia]. destruct (Z.ltb_spec n bs); [done|].
  replace (n - bs) with 0 by lia. replace (Z.to_nat n) with (S (Z.to_nat (n - 1))) by lia. cbn. do 2 f_equal. lia.
Qed.

Lemma read_fixed_run pos ds st s d : progress pos ds st s -> 0 < len d <= bs -> Forall is_byte d -> len (mjoin ds) + len d < 2 ^ 56 ->
  exists x s', compress_data_read sse42 base c None as_ (negb (v =? 0)) bs buf_size d s = Some (true, s') /\
    progress pos (ds ++ [d]) (st ++ [x]) s'.
Proof.
  intros Hp Hd Hb Htot. destruct (compress_one_run c pos ds st s d [] buf_size Hp Hk Hd Hb Hmax (room d Hd) Htot) as (x & s' & Hrun & Hp' & _).
  exists x, s'. split; [|done]. unfold compress_data_read. pose proof (fixed_chunks_one (len d) Hd) as Hf.
  replace (Z.to_nat (len d)) with (length d) in Hf by (unfold len; lia). rewrite Hf, app_nil_r in *. repeat run.
  change (nbatch c <? _) with false. repeat run. cbn [length]. change (0 <? Z.of_nat 1) with true. cbn iota.
  change (drop (Z.to_nat 0) d) with d. exact Hrun.
Qed.

Lemma buffer_readable (l : list Z) : Forall is_byte l -> readable (buffer_of l) 0 (len l).
Proof.
  intros Hl i Hi. unfold buffer_of. destruct (Z.ltb_spec i 0); [lia|].
  destruct (lookup_lt_is_Some_2 l (Z.to_nat i) ltac:(unfold len in Hi; lia)) as [b Hb]. exists b. split; [done|].
  rewrite Forall_lookup in Hl. exact (Hl _ _ Hb).
Qed.

(** The chunks that FastCDC makes of the rest of what was read. *)
Lemma cdc_chunks_run fuel ch pos ds st s done rest : progress pos ds st s -> Forall is_byte rest -> len (mjoin ds) + len rest < 2 ^ 56 ->
  len rest < 2 ^ 31 -> m_max_size ch = bs -> 0 < m_min_size ch <= bs -> 8192 <= bs -> MaxSize (fst (cs_cdc s)) = bs -> (length rest < fuel)%nat ->
  exists cs xs s', cdc_chunks sse42 base fuel c ch as_ (negb (v =? 0)) buf_size (done ++ rest) (len done) (len done) [] s =
      Some (Some (len (done ++ rest), []), s') /\
    progress pos (ds ++ cs) (st ++ xs) s' /\ mjoin cs = rest /\ MaxSize (fst (cs_cdc s')) = bs.
Proof.
  revert ds st s done rest. induction fuel as [|fuel IH]; intros ds st s done rest Hp Hb Htot Hl Hmx Hmn H8 Hg Hf; [lia|].
  pose proof (len_nonneg done). pose proof (len_nonneg rest). cbn [cdc_chunks]. rewrite len_app.
  destruct (Z.ltb_spec (len done) (len done + len rest)) as [Hlt|Hge].
  2: { assert (rest = []) as -> by (destruct rest; [done|unfold len in *; simpl in *; lia]).
    exists [], [], s. rewrite !app_nil_r. split; [|done]. repeat run. unfold len at 2. simpl. by rewrite Z.add_0_r. }
  replace (len done + len rest - len done) with (len rest) by lia.
  replace (drop (Z.to_nat (len done)) (done ++ rest)) with rest by (unfold len; rewrite Nat2Z.id; by rewrite drop_app_length).
  destruct s as [w0 [g ini] bl rbl mo]. cbn [cs_cdc fst] in Hg.
  destruct (next_chunk_run ch (buffer_of rest) (len rest) g) as (r & Hr & Hr1 & Hr2 & _);
    [lia|by apply buffer_readable|lia|lia|lia|].
  rewrite bind_run. unfold cs_chunker at 1, zoom. cbn [cs_cdc fst snd]. rewrite Hr. cbn [cs_world cs_cdc block_len raw_block_len moffset snd].
  destruct (Z.eqb_spec r 0); [lia|]. destruct (Z.ltb_spec (len rest) r); [lia|]. cbn [orb].
  change (nbatch c <=? Z.of_nat (length [])) with false. rewrite bind_run, bug_on_run. cbn [app length].
  change (nbatch c <=? Z.of_nat 1) with true. cbn iota.
  set (d := take (Z.to_nat r) rest). set (rest' := drop (Z.to_nat r) rest).
  assert (rest = d ++ rest') as Hsplit by (symmetry; apply take_drop).
  assert (len d = r) as Hd by (apply len_take; lia). assert (len rest' = len rest - r) as Hrl by (apply len_drop; lia).
  rewrite Hsplit in Hb. apply Forall_app in Hb as [Hbd Hbr].
  assert (progress pos ds st (mkCompressing w0 (set_MinSize 6144 g, ini) bl rbl mo)) as Hp1 by (by destruct Hp).
  destruct (compress_one_run c pos ds st _ d rest' buf_size Hp1 Hk ltac:(lia) Hbd Hmax (room d ltac:(lia)) ltac:(lia)) as (x & s' & Hrun & Hp' & Hc').
  rewrite <- Hsplit, Hd in Hrun. rewrite bind_run.
  replace (drop (Z.to_nat (len done)) (done ++ rest)) with rest by (unfold len; rewrite Nat2Z.id; by rewrite drop_app_length).
  rewrite Hrun. cbn [negb].
  destruct (IH (ds ++ [d]) (st ++ [x]) s' (done ++ d) rest') as (cs & xs & s2 & Hrun2 & Hp2 & Hj & Hg2); try done.
  { rewrite mjoin_snoc, len_app. lia. } { lia. } { by rewrite Hc'. } { unfold len in *. lia. }
  exists (d :: cs), (x :: xs), s2. rewrite <- !app_assoc in Hp2. split; [|split; [done|split; [|done]]].
  - rewrite <- app_assoc, <- Hsplit, !len_app, Hd in Hrun2. exact Hrun2.
  - by rewrite mjoin_cons, Hj, <- Hsplit.
Qed.

Lemma read_cdc_run ch pos ds st s d : progress pos ds st s -> Forall is_byte d -> len (mjoin ds) + len d < 2 ^ 56 -> 0 < len d < 2 ^ 31 ->
  m_max_size ch = bs -> 0 < m_min_size ch <= bs -> 8192 <= bs -> MaxSize (fst (cs_cdc s)) = bs ->
  exists cs xs s', compress_data_read sse42 base c (Some ch) as_ (negb (v =? 0)) bs buf_size d s = Some (true, s') /\
    progress pos (ds ++ cs) (st ++ xs) s' /\ mjoin cs = d /\ MaxSize (fst (cs_cdc s')) = bs.
Proof.
  intros Hp Hb Htot Hl Hmx Hmn H8 Hg.
  destruct (cdc_chunks_run (S (length d)) ch pos ds st s [] d Hp Hb Htot ltac:(lia) Hmx Hmn H8 Hg ltac:(lia)) as (cs & xs & s' & Hrun & Hp').
  exists cs, xs, s'. split; [|done]. unfold compress_data_read. rewrite bind_run. cbn [app] in Hrun. change (len []) with 0 in Hrun.
  rewrite Hrun. done.
Qed.

(** *** The loop *)

Definition cdc_ok (cdc : option chunker) (g : globals) : Prop :=
  match cdc with
  | None => True
  | Some ch => m_max_size ch = bs /\ 0 < m_min_size ch <= bs /\ 8192 <= bs /\ MaxSize g = bs
  end.

(** Without FastCDC every block but the last has the same size. *)
Definition even_blocks (cdc : option chunker) (ds : list (list Z)) : Prop :=
  cdc = None -> forall i d, ds !! i = Some d -> len d = bs \/ S i = length ds /\ mjoin ds = input.

Lemma compress_data_run cdc pos ds st s d : progress pos ds st s -> Forall is_byte d -> len (mjoin ds) + len d < 2 ^ 56 -> 0 < len d <= bs ->
  cdc_ok cdc (fst (cs_cdc s)) ->
  exists cs xs s', compress_data_read sse42 base c cdc as_ (negb (v =? 0)) bs buf_size d s = Some (true, s') /\
    progress pos (ds ++ cs) (st ++ xs) s' /\ mjoin cs = d /\ cdc_ok cdc (fst (cs_cdc s')) /\ (cdc = None -> cs = [d]).
Proof.
  intros Hp Hb Htot Hd Hcdc. destruct cdc as [ch|].
  - destruct Hcdc as (Hmx & Hmn & H8 & Hg). destruct (read_cdc_run ch pos ds st s d) as (cs & xs & s' & Hrun & Hp' & Hj & Hg'); try done; try lia.
    by exists cs, xs, s'.
  - destruct (read_fixed_run pos ds st s d Hp Hd Hb Htot) as (x & s' & Hrun & Hp'). exists [d], [x], s'.
    split; [done|]. split; [done|]. split; [unfold mjoin, list_join; by rewrite app_nil_r|done].
Qed.

Lemma compress_loop_run fuel cdc ds st s : progress (len (mjoin ds)) ds st s -> mjoin ds = take (length (mjoin ds)) input ->
  even_blocks cdc ds -> cdc_ok cdc (fst (cs_cdc s)) -> (length input - length (mjoin ds) < fuel)%nat ->
  exists ds' st' s', compress_loop sse42 base fuel c cdc file as_ (negb (v =? 0)) bs buf_size (len (mjoin ds)) s = Some (Some (len input), s') /\
    progress (len input) ds' st' s' /\ mjoin ds' = input /\ even_blocks cdc ds'.
Proof.
  revert ds st s. induction fuel as [|fuel IH]; intros ds st s Hp Hdone Hev Hcdc Hf; [lia|]. cbn [compress_loop].
  change (nbatch c) with 1. rewrite Z.mul_1_r, u32_small by lia. destruct s as [w0 cdc0 bl rbl mo]. pose proof Hp as [Hin Hpos Hout Hend Hst Hbl Hrbl Hmo Hoth].
  cbn [cs_world block_len raw_block_len moffset cs_cdc] in *.
  assert (length (mjoin ds) <= length input)%nat as Hle by (rewrite Hdone, length_take; lia).
  destruct (read_law w0 file bs) as (data & w1 & Hdata & Hr & Hp1 & Hc1 & Ho1); [lia|rewrite Hpos; unfold len; lia|].
  rewrite Hin, Hpos in Hdata. replace (Z.to_nat (len (mjoin ds))) with (length (mjoin ds)) in Hdata by (unfold len; lia).
  rewrite bind_run, (cs_files_run _ _ _ _ _ _ _ _ Hr).
  assert (progress (len (mjoin ds) + len data) ds st (mkCompressing w1 cdc0 bl rbl mo)) as Hp'.
  { constructor; cbn [cs_world block_len raw_block_len moffset]; rewrite ?Hc1; try done; [by rewrite Hp1, Hpos|by rewrite Ho1 by done|].
    intros g Hg1 Hg2. rewrite Hc1, Ho1 by done. by apply Hoth. }
  assert (Forall is_byte data) as Hbd by (rewrite Hdata; by apply Forall_take, Forall_drop).
  assert (len data = Z.min bs (len input - len (mjoin ds))) as Hld by (rewrite Hdata; unfold len; rewrite length_take, length_drop; lia).
  destruct (Z.eqb_spec (len data) 0) as [Hz|Hnz].
  - assert (mjoin ds = input) as Hall by (rewrite Hdone; apply take_ge; unfold len in *; lia). rewrite Z.add_comm, Hz in Hp'. cbn in Hp'.
    exists ds, st, (mkCompressing w1 cdc0 bl rbl mo). rewrite Hall in *. split; [done|]. split; [done|]. split; [done|]. exact Hev.
  - pose proof (len_nonneg data). destruct (Z.ltb_spec (len data) 0); [lia|].
    destruct (compress_data_run cdc _ ds st _ data Hp' Hbd ltac:(lia) ltac:(lia) Hcdc) as (cs & xs & s2 & Hrun & Hp2 & Hj & Hcdc2 & Hone).
    rewrite bind_run, Hrun. cbn [negb].
    assert (len (mjoin (ds ++ cs)) = len (mjoin ds) + len data) as Hl2 by (by rewrite mjoin_app, len_app, Hj).
    rewrite <- Hl2. apply (IH (ds ++ cs) (st ++ xs) s2).
    + by rewrite Hl2.
    + rewrite mjoin_app, Hj, length_app. rewrite Hdata at 1. rewrite Hdone at 1.
      assert (length data = Nat.min (Z.to_nat bs) (length input - length (mjoin ds))) as -> by (unfold len in *; lia).
      destruct (Nat.le_ge_cases (Z.to_nat bs) (length input - length (mjoin ds))).
      * rewrite Nat.min_l by done. by rewrite take_take_drop.
      * rewrite Nat.min_r by done. rewrite (take_ge (drop _ _)) by (rewrite length_drop; lia). rewrite take_drop.
        symmetry. apply take_ge. lia.
    + intros Hcn i d. rewrite (Hone Hcn). intros [Hl|(Hi & Hd)]%lookup_app_Some.
      * destruct (Hev Hcn i d Hl) as [?|[Hi Hfull]]; [by left|]. exfalso. rewrite Hfull in *. unfold len in *. lia.
      * apply list_lookup_singleton_Some in Hd as [Hi0 <-]. rewrite length_app. simpl.
        destruct (decide (len data = bs)) as [|Hs]; [by left|right]. split; [lia|]. rewrite mjoin_snoc, Hdata, Hdone at 1.
        rewrite (take_ge (drop _ _)) by (rewrite length_drop; unfold len in *; lia). by rewrite take_drop.
    + done.
    + rewrite mjoin_app, length_app, Hj. unfold len in *. lia.
Qed.
End compress.

(** ** The tables *)

Lemma table_bytes_cons n l : table_bytes (n :: l) = le_bytes 4 n ++ table_bytes l.
Proof. done. Qed.

Lemma len_table l : len (table_bytes l) = 4 * Z.of_nat (length l).
Proof.
  induction l as [|n l IH]; [done|]. rewrite table_bytes_cons, len_app, IH. unfold len at 1. rewrite length_le_bytes. cbn [length]. lia.
Qed.

Lemma table_is_bytes l : Forall (fun n => 0 <= n < 2 ^ 32) l -> Forall is_byte (table_bytes l).
Proof.
  induction 1 as [|n l Hn Hl IH]; [constructor|]. rewrite table_bytes_cons. apply Forall_app. split; [|done]. apply le_bytes_are_bytes. lia.
Qed.

Lemma words_table l : Forall (fun n => 0 <= n < 2 ^ 32) l -> words (length l) (table_bytes l) = l.
Proof.
  intros Hl. apply list_eq. intros i. unfold words. rewrite list_lookup_fmap.
  destruct (decide (i < length l)%nat) as [Hlt|Hge].
  - rewrite lookup_seq_lt by done. cbn [fmap option_fmap option_map]. destruct (lookup_lt_is_Some_2 _ _ Hlt) as [n Hn]. rewrite Hn. f_equal. rewrite Nat.add_0_l.
    assert (drop (4 * i) (table_bytes l) = table_bytes (drop i l)) as ->.
    { clear. revert i. induction l as [|n l IH]; intros [|i]; try done. rewrite table_bytes_cons.
      replace (4 * S i)%nat with (length (le_bytes 4 n) + 4 * i)%nat by (rewrite length_le_bytes; lia). by rewrite drop_app_add, IH. }
    rewrite (drop_S _ _ _ Hn), table_bytes_cons. rewrite take_app_le, take_ge by (by rewrite length_le_bytes).
    rewrite Forall_lookup in Hl. specialize (Hl _ _ Hn). rewrite le_value_bytes by lia. by apply Z.mod_small.
  - rewrite lookup_seq_ge, (lookup_ge_None_2 l) by lia. done.
Qed.

(** The routine with tables takes a length of 32 bits. *)
Lemma table_crc_run (sse42 : bool) base l : Forall (fun n => 0 <= n < 2 ^ 32) l -> (sse42 = true \/ Z.of_nat (length l) < 2 ^ 30) ->
  crc32c sse42 base (table_bytes l) (4 * Z.of_nat (length l)) = Some (crc_ref 0 (table_bytes l)).
Proof.
  intros Hl Hn. unfold crc32c. rewrite <- len_table. destruct Hn as [->|Hn]; [apply hw_run; [lia|by apply table_is_bytes]|].
  apply extend_run; [lia|by apply table_is_bytes|]. rewrite len_table. lia.
Qed.

Definition small_sizes (l : list (list Z)) : Prop := Forall (fun n => 0 <= n < 2 ^ 32) (len <$> l).

Lemma stored_sizes `{Codecs} k v bs ds st : bs <= 2 ^ 16 -> Forall2 (stored_block k v bs) ds st -> small_sizes st /\ small_sizes ds.
Proof.
  intros Hbs Hst. unfold small_sizes. induction Hst as [|d s ds st Hs Hst IH]; [by split; constructor|]. destruct IH as [IH1 IH2].
  pose proof (stored_block_len _ _ _ _ _ Hs) as Hl. destruct Hs as [Hd _]. assert (len d / 255 <= 2 ^ 16) by dlia.
  split; constructor; try done; destruct (v =? 0); lia.
Qed.

(** ** The file *)

Definition final_opt (args : CompressArgs) : CompressOptions :=
  let o := opt args in
  if use_fastcdc args then mkOptions (fastcdc_max_size args) (algo o) (level o) (use_dict o) (dict_size o) (verify o) else o.

Definition codec_of (o : CompressOptions) : codec := if algo o =? LZ4 then LZ4Compressor else Compressor_zstd.

(** Arguments with which compression does what it should: a known algorithm, no
    dictionary, blocks of at most 64 KB, for FastCDC limits that are in order, with
    room for the compressor that was made for the block size. *)
Record args_ok (args : CompressArgs) : Prop := {
  ao_algo : algo (opt args) = LZ4 \/ algo (opt args) = ZSTD;
  ao_dict : dict_size (opt args) = 0;
  ao_bytes : 0 <= level (opt args) < 2 ^ 8 /\ 0 <= use_dict (opt args) < 2 ^ 8 /\ 0 <= verify (opt args) < 2 ^ 8;
  ao_block_size : 0 < block_size (opt args) <= 2 ^ 16;
  ao_cdc : use_fastcdc args = true -> 8192 <= fastcdc_max_size args <= 2 ^ 16 /\ 0 < fastcdc_min_size args <= fastcdc_max_size args /\
    block_size (opt args) <= fastcdc_max_size args
}.

(** The header as it is written first, the trailer, and the header that overwrites. *)
Definition new_header (args : CompressArgs) : HeaderTrailer :=
  let h := set_compress_option (final_opt args) HeaderTrailer_new in if use_fastcdc args then set_fastcdc h else h.
Definition first_header (args : CompressArgs) : HeaderTrailer := saved true false true false (new_header args).
Definition trailer (args : CompressArgs) (st : list (list Z)) (size : Z) : HeaderTrailer :=
  saved false true true false
    (with_index (SPACE + len (mjoin st)) (Z.of_nat (length st)) size (crc_ref 0 (table_bytes (len <$> st))) (first_header args)).
Definition last_header (args : CompressArgs) (st : list (list Z)) (size : Z) : HeaderTrailer :=
  if overwrite_header args then saved true false true true (trailer args st size) else first_header args.

(** What the file holds in the end. *)
Definition zfile_bytes (args : CompressArgs) (ds st : list (list Z)) (size : Z) : list Z :=
  header_block (last_header args st size) ++ mjoin st ++ table_bytes (len <$> st) ++
  (if use_fastcdc args then table_bytes (len <$> ds) else []) ++ header_block (trailer args st size).

Lemma final_block_size args : args_ok args -> 0 < block_size (final_opt args) <= 2 ^ 16 /\ block_size (opt args) <= block_size (final_opt args).
Proof.
  intros Ha. pose proof (ao_block_size _ Ha). pose proof (ao_cdc _ Ha) as Hc. unfold final_opt. destruct (use_fastcdc args); cbn [block_size]; [|lia].
  destruct (Hc eq_refl). lia.
Qed.

Lemma wf_new args : args_ok args -> ht_wf (new_header args).
Proof.
  intros Ha. pose proof (final_block_size args Ha) as [Hb _]. destruct Ha as [Halg Hdict Hbytes Hblk Hcdc].
  assert (opt_wf (final_opt args)) as Ho.
  { unfold opt_wf. assert (0 <= algo (final_opt args) < 2 ^ 8 /\ level (final_opt args) = level (opt args) /\ use_dict (final_opt args) = use_dict (opt args) /\
      dict_size (final_opt args) = 0 /\ verify (final_opt args) = verify (opt args)) as (Ha1 & -> & -> & -> & ->); [|lia].
    unfold final_opt. destruct (use_fastcdc args); cbn [algo level use_dict dict_size verify]; unfold LZ4, ZSTD in Halg; (split; [lia|done]). }
  assert (ht_wf (set_compress_option (final_opt args) HeaderTrailer_new)) as Hw.
  { unfold ht_wf. cbn [set_compress_option magic0 magic1 ht_size digest flags index_offset index_size original_file_size index_crc reserved_0 ht_opt HeaderTrailer_new].
    split; [unfold MAGIC0; lia|]. split; [done|]. split; [unfold MAGIC1; repeat constructor; unfold is_byte; lia|].
    unfold sizeof_HeaderTrailer. split; [lia|]. split; [lia|]. split; [lia|]. split; [lia|]. split; [lia|]. split; [lia|]. split; [lia|]. by split; [lia|]. }
  unfold new_header. destruct (use_fastcdc args); [|done]. apply wf_set_flag; [done|unfold FLAG_SHIFT_FASTCDC; lia].
Qed.

Lemma wf_first args : args_ok args -> ht_wf (first_header args).
Proof. intros Ha. by apply wf_saved, wf_new. Qed.

Lemma wf_trailer args st size : args_ok args -> small_sizes st -> len (mjoin st) < 2 ^ 62 -> Z.of_nat (length st) < 2 ^ 62 -> 0 <= size < 2 ^ 62 ->
  ht_wf (trailer args st size).
Proof.
  intros Ha Hs Hl Hn Hsz. apply wf_saved. destruct (wf_first args Ha) as (? & ? & ? & ? & ? & ? & _ & _ & _ & _ & ? & ?).
  pose proof (len_nonneg (mjoin st)). pose proof (ref_range 0 _ ltac:(lia) (table_is_bytes _ Hs)).
  unfold ht_wf. cbn [with_index magic0 magic1 ht_size digest flags index_offset index_size original_file_size index_crc reserved_0 ht_opt].
  unfold SPACE. repeat (split; [done || lia|]). done.
Qed.

Lemma wf_last args st size : args_ok args -> small_sizes st -> len (mjoin st) < 2 ^ 62 -> Z.of_nat (length st) < 2 ^ 62 -> 0 <= size < 2 ^ 62 ->
  ht_wf (last_header args st size).
Proof. intros. unfold last_header. destruct (overwrite_header args); [apply wf_saved; by apply wf_trailer|by apply wf_first]. Qed.

#[local] Opaque header_block table_bytes crc_ref.

Section file.
Context {W : Type} `{HI : IFiles W} {HF : IFilesLaws W} {HS : ISparseFiles W} {HSt : IStreamFiles W} {HSL : IStreamLaws W} {HC : Codecs} {HCL : CodecsLaws}.
Variables (sse42 : bool) (base : Z) (MD5 : list Z -> list Z) (winit : W) (file as_ : Z) (args : CompressArgs) (input : list Z).
Hypothesis Hne : file <> as_.
Hypothesis Hargs : args_ok args.
Hypothesis Hbytes : Forall is_byte input.
Hypothesis Hsize : len input < 2 ^ 55 /\ (sse42 = true \/ len input < 2 ^ 30).
Abbreviation bs := (block_size (final_opt args)).
Abbreviation v := (verify (final_opt args)).
Abbreviation k := (codec_of (opt args)).

Lemma first_len : len (header_block (first_header args)) = SPACE.
Proof. apply len_zheader. by apply wf_first. Qed.

(** The sizes of a file whose blocks are all written. *)
Lemma written_sizes ds st : Forall2 (stored_block k v bs) ds st -> mjoin ds = input ->
  small_sizes st /\ small_sizes ds /\ 0 <= len (mjoin st) <= 70 * len input /\ Z.of_nat (length st) <= len input /\ length st = length ds /\
  (sse42 = true \/ Z.of_nat (length (len <$> st)) < 2 ^ 30).
Proof.
  intros Hst Hj. destruct (final_block_size args Hargs) as [Hb _]. destruct (stored_sizes k v bs ds st ltac:(lia) Hst) as [H1 H2].
  destruct (stored_total _ _ _ _ _ Hst) as [H3 H4]. rewrite Hj in *. apply Forall2_length in Hst. destruct Hsize as [Hs1 Hs2].
  rewrite length_fmap. split; [done|]. split; [done|]. split; [lia|]. split; [lia|]. split; [done|]. destruct Hs2; [by left|right; lia].
Qed.

Lemma write_tables_run ds st s : progress winit file as_ (header_block (first_header args)) k v bs input (len input) ds st s -> mjoin ds = input ->
  exists s', write_tables sse42 base as_ args (len input) (first_header args) s = Some (0, s') /\ cs_cdc s' = cs_cdc s /\
    contents (cs_world s') as_ = zfile_bytes args ds st (len input) /\ contents (cs_world s') file = input /\
    forall g, g <> file -> g <> as_ -> contents (cs_world s') g = contents winit g /\ position (cs_world s') g = position winit g.
Proof.
  intros Hp Hj. destruct s as [w0 cdc bl rbl mo]. destruct Hp as [Hin Hpos Hout Hend Hst Hbl Hrbl Hmo Hoth].
  cbn [cs_world cs_cdc block_len raw_block_len moffset] in *. destruct (written_sizes ds st Hst Hj) as (Hs1 & Hs2 & Hl & Hn & Hnn & Hcrc).
  pose proof first_len as Hfl. destruct Hsize as [Hsz _]. pose proof (len_nonneg input).
  assert (ht_wf (trailer args st (len input))) as Hwt by (apply wf_trailer; [done|done|lia|lia|lia]).
  assert (ht_wf (with_index mo (Z.of_nat (length bl)) (u64 (len input)) (crc_ref 0 (table_bytes bl)) (first_header args))) as Hwi.
  { destruct (wf_first args Hargs) as (? & ? & ? & ? & ? & ? & _ & _ & _ & _ & ? & ?). pose proof (ref_range 0 _ ltac:(lia) (table_is_bytes _ Hs1)).
    rewrite Hbl, length_fmap, Hmo, u64_small by lia. unfold ht_wf.
    cbn [with_index magic0 magic1 ht_size digest flags index_offset index_size original_file_size index_crc reserved_0 ht_opt].
    unfold SPACE. repeat (split; [done || lia|]). done. }
  unfold write_tables. rewrite bind_run, gets_run. cbn [block_len]. rewrite bind_run, gets_run. cbn [raw_block_len]. rewrite bind_run, gets_run. cbn [moffset].
  assert (len (contents w0 as_) = SPACE + len (mjoin st)) as Hl0 by (by rewrite Hout, len_app, Hfl).
  destruct (write_end w0 as_ (table_bytes bl) Hend) as (w1 & Hw1 & Hc1 & Hp1 & Ho1).
  { rewrite Hl0, len_table, Hbl, length_fmap. unfold SPACE. lia. }
  rewrite bind_run, (cs_files_run _ _ _ _ _ _ _ _ Hw1), len_table. rewrite Z.eqb_refl. cbn [negb].
  rewrite bind_run, table_crc_run by (rewrite Hbl; done). rewrite lift_run, bind_run.
  assert (exists w2, ((if use_fastcdc args then ret ← cs_files (f_write as_ (table_bytes rbl)); mret (ret =? 4 * Z.of_nat (length rbl)) else mret true)
      : M (compressing W) bool) (mkCompressing w1 cdc bl rbl mo) = Some (true, mkCompressing w2 cdc bl rbl mo) /\
      contents w2 as_ = contents w1 as_ ++ (if use_fastcdc args then table_bytes rbl else []) /\ position w2 as_ = len (contents w2 as_) /\
      forall g, g <> as_ -> contents w2 g = contents w1 g /\ position w2 g = position w1 g) as (w2 & -> & Hc2 & Hp2 & Ho2).
  { destruct (use_fastcdc args); [|exists w1; by rewrite app_nil_r].
    destruct (write_end w1 as_ (table_bytes rbl) Hp1) as (w2 & Hw2 & Hrest).
    { rewrite Hc1, len_app, Hl0, !len_table, Hbl, Hrbl, !length_fmap. unfold SPACE. lia. }
    exists w2. split; [|done]. rewrite bind_run, (cs_files_run _ _ _ _ _ _ _ _ Hw2), len_table. repeat run. by rewrite Z.eqb_refl. }
  cbn [negb]. rewrite bind_run.
  assert (len (contents w2 as_) < 2 ^ 62) as Hl2.
  { rewrite Hc2, len_app, Hc1, len_app, Hl0, len_table, Hbl, length_fmap. destruct (use_fastcdc args); [rewrite len_table, Hrbl, length_fmap|unfold len at 2; simpl]; unfold SPACE; lia. }
  destruct (write_zheader_run sse42 base w2 as_ false true true _ Hwi Hp2) as (w3 & Hw3 & Hc3 & Hp3 & Ho3); [unfold SPACE; lia|].
  rewrite (cs_files_run _ _ _ _ _ _ _ _ Hw3). change (SPACE <? 0) with false. cbn iota.
  assert (saved false true true false (with_index mo (Z.of_nat (length bl)) (u64 (len input)) (crc_ref 0 (table_bytes bl)) (first_header args)) =
    trailer args st (len input)) as Htr.
  { unfold trailer. rewrite Hbl, length_fmap, Hmo, u64_small by lia. done. }
  rewrite Htr in *.
  assert (contents w3 as_ = header_block (first_header args) ++ mjoin st ++ table_bytes (len <$> st) ++
    (if use_fastcdc args then table_bytes (len <$> ds) else []) ++ header_block (trailer args st (len input))) as Hc3'.
  { rewrite Hc3, Hc2, Hc1, Hout, Hbl, Hrbl. by rewrite <- !app_assoc. }
  destruct (overwrite_header args) eqn:How.
  - destruct (overwrite_zheader_run sse42 base w3 as_ true false true (trailer args st (len input)) Hwt) as (w4 & Hw4 & Hc4 & Ho4).
    { rewrite Hc3', len_app, Hfl. pose proof (len_nonneg (mjoin st ++ table_bytes (len <$> st) ++
        (if use_fastcdc args then table_bytes (len <$> ds) else []) ++ header_block (trailer args st (len input)))). lia. }
    rewrite bind_run, (cs_files_run _ _ _ _ _ _ _ _ Hw4). change (SPACE <? 0) with false. repeat run. cbn iota.
    eexists. split; [done|]. split; [done|]. cbn [cs_world]. split; [|split].
    + rewrite Hc4, Hc3'. unfold zfile_bytes, last_header. rewrite How. f_equal.
      replace (Z.to_nat SPACE) with (length (header_block (first_header args))) by (unfold len in Hfl; lia). by rewrite drop_app_length.
    + destruct (Ho4 file Hne) as [-> _]. destruct (Ho3 file Hne) as [-> _]. destruct (Ho2 file Hne) as [-> _]. by destruct (Ho1 file Hne) as [-> _].
    + intros g Hg1 Hg2. destruct (Ho4 g Hg2) as [-> ->]. destruct (Ho3 g Hg2) as [-> ->]. destruct (Ho2 g Hg2) as [-> ->]. destruct (Ho1 g Hg2) as [-> ->].
      by apply Hoth.
  - repeat run. eexists. split; [done|]. split; [done|]. cbn [cs_world]. split; [|split].
    + rewrite Hc3'. unfold zfile_bytes, last_header. by rewrite How.
    + destruct (Ho3 file Hne) as [-> _]. destruct (Ho2 file Hne) as [-> _]. by destruct (Ho1 file Hne) as [-> _].
    + intros g Hg1 Hg2. destruct (Ho3 g Hg2) as [-> ->]. destruct (Ho2 g Hg2) as [-> ->]. destruct (Ho1 g Hg2) as [-> ->].
      by apply Hoth.
Qed.

(** The whole function. *)
Lemma zfile_compress_run fuel cdc0 : contents winit file = input -> position winit file = 0 -> contents winit as_ = [] -> position winit as_ = 0 ->
  (length input < fuel)%nat ->
  exists ds st w' cdc', zfile_compress sse42 base MD5 fuel file as_ args cdc0 winit = Some ((0, cdc'), w') /\
    contents w' as_ = zfile_bytes args ds st (len input) /\ contents w' file = input /\
    (forall g, g <> file -> g <> as_ -> contents w' g = contents winit g /\ position w' g = position winit g) /\
    Forall2 (stored_block k v bs) ds st /\ mjoin ds = input /\
    (use_fastcdc args = false -> forall i d, ds !! i = Some d -> len d = bs \/ S i = length ds).
Proof.
  intros Hin Hpos Hemp Hpa Hfuel. destruct (final_block_size args Hargs) as [Hbs Hle]. unfold zfile_compress. fold (final_opt args).
  destruct (codec_create_run (opt args)) as (c & Hc & Hsrc & Hk & Hmax); [apply Hargs|pose proof (ao_block_size _ Hargs); lia|]. rewrite Hc. fold (codec_of (opt args)) in Hk.
  fold (new_header args).
  destruct (write_zheader_run sse42 base winit as_ true false true (new_header args)) as (w1 & Hw1 & Hc1 & Hp1 & Ho1);
    [by apply wf_new|by rewrite Hemp, Hpa|rewrite Hemp; unfold SPACE, len; simpl; lia|].
  fold (first_header args) in *. rewrite Hemp in Hc1. cbn [app] in Hc1.
  assert (dict_size (final_opt args) = 0) as Hd0 by (unfold final_opt; rewrite <- (ao_dict _ Hargs); by destruct (use_fastcdc args)).
  assert (block_size (opt args) / 255 <= bs / 255) by (apply Z.div_le_mono; lia). assert (bs / 255 <= 257) by dlia.
  set (setup := if use_fastcdc args then let '(ch, st0) := FastCDCChunker MD5 (fastcdc_min_size args) (fastcdc_avg_size args) (fastcdc_max_size args) cdc0 in
    (Some ch, st0) else (None, cdc0)).
  assert (exists cdc cdc1, setup = (cdc, cdc1) /\ cdc_ok bs cdc (fst cdc1) /\ (use_fastcdc args = false -> cdc = None)) as (cdc & cdc1 & Hset & Hok & Hnone).
  { unfold setup. destruct cdc0 as [g ini]. pose proof (ao_cdc _ Hargs) as Hcdc. unfold FastCDCChunker. destruct (use_fastcdc args) eqn:Hu.
    - eexists _, _. split; [done|]. split; [|done]. unfold cdc_ok, final_opt. rewrite Hu. destruct (Hcdc eq_refl) as (? & ? & ?). cbn. lia.
    - by exists None, (g, ini). }
  assert (progress winit file as_ (header_block (first_header args)) k v bs input (len (mjoin [])) [] [] (mkCompressing w1 cdc1 [] [] (SPACE + dict_size (final_opt args)))) as Hp0.
  { destruct (Ho1 file Hne) as [Hcf Hpf]. constructor; cbn [cs_world block_len raw_block_len moffset]; try done.
    - by rewrite Hcf.
    - by rewrite Hpf.
    - by rewrite Hc1, app_nil_r.
    - by rewrite Hd0.
    - intros g Hg1 Hg2. by apply Ho1. }
  destruct Hsize as [Hsz _].
  destruct (compress_loop_run sse42 base winit file as_ (header_block (first_header args)) k v bs input Hne ltac:(lia) Hbytes Hsz first_len c (bs + BUF_SIZE) Hk
    ltac:(unfold BUF_SIZE; lia) ltac:(unfold BUF_SIZE; lia) fuel cdc [] [] _ Hp0) as (ds & st & s' & Hrun & Hp' & Hj & Hev);
    [done|by intros ? ? ?|done|simpl; lia|].
  destruct (write_tables_run ds st s' Hp' Hj) as (s2 & Hrun2 & Hcdc2 & Hc2 & Hf2 & Ho2).
  exists ds, st, (cs_world s2), (cs_cdc s2). change (len (mjoin [])) with 0 in Hrun.
  split; [rewrite bind_run, Hw1; change (SPACE <? 0) with false; cbn iota; fold setup; rewrite Hset, bind_run, Hrun, Hrun2; done|]. split; [done|]. split; [done|]. split; [done|]. split; [apply Hp'|]. split; [done|].
  intros Hu i d Hi. destruct (Hev (Hnone Hu) i d Hi) as [?|[? _]]; [by left|by right].
Qed.
End file.
