(* ===== verification/ZOpen.v ===== *)
(** Opening what [zfile_compress] wrote (ZBuild), and reading all of it.

    [open_image] shows that [zfile_open_ro] gives an image in the sense of ZRead of
    a file with the bytes of ZWrite; the theorems at the end compose compression,
    opening, reading and decompression. *)

From S2P Require Import Prelude Files FastCDC Crc32 Compressor ZFile ZJump ZRead ZHeader ZBuild ZWrite.

#[local] Opaque header_block table_bytes crc_ref.

(** ** The fields of what is loaded *)

Section fields.
Variables (args : CompressArgs) (st : list (list Z)) (size : Z).

(** The header that [load_jump_table] takes the options and the table from. *)
Definition opened : HeaderTrailer := if overwrite_header args then last_header args st size else trailer args st size.

Lemma last_header_fields : verify_magic (last_header args st size) = true /\ is_header (last_header args st size) = true /\
  is_header_overwrite (last_header args st size) = overwrite_header args /\ is_data_file (last_header args st size) = true.
Proof. unfold last_header, trailer, first_header, new_header. destruct (overwrite_header args), (use_fastcdc args); done. Qed.

Lemma trailer_fields : verify_magic (trailer args st size) = true /\ is_trailer (trailer args st size) = true /\
  is_data_file (trailer args st size) = true /\ is_sealed (trailer args st size) = true.
Proof. unfold trailer, first_header, new_header. destruct (use_fastcdc args); done. Qed.

Lemma opened_fields : is_digest_enabled opened = true /\ is_fastcdc opened = use_fastcdc args /\ ht_opt opened = final_opt args /\
  index_offset opened = SPACE + len (mjoin st) /\ index_size opened = Z.of_nat (length st) /\ original_file_size opened = size /\
  index_crc opened = crc_ref 0 (table_bytes (len <$> st)).
Proof.
  unfold opened, last_header, trailer, first_header, new_header. destruct (overwrite_header args), (use_fastcdc args);
    repeat (split; [done|]); done.
Qed.
End fields.

Section load.
Context {W : Type} `{HI : IFiles W} {HF : IFilesLaws W} {HS : ISparseFiles W} {HSt : IStreamFiles W} {HC : Codecs} {HCL : CodecsLaws}.
Variables (sse42 : bool) (base : Z).

(** A part of the file. *)
Lemma pread_part w f pre part post off n : contents w f = pre ++ part ++ post -> 0 <= off -> 0 <= n -> off + n <= len part ->
  f_pread f n (len pre + off) w = Some ((n, take (Z.to_nat n) (drop (Z.to_nat off) part)), w).
Proof.
  intros Hc Ho Hn Hl. destruct (pread_law w f n (len pre + off)) as (data & Hd & ->); [lia|pose proof (len_nonneg pre); lia|].
  assert (data = take (Z.to_nat n) (drop (Z.to_nat off) part)) as ->.
  { rewrite Hd, Hc. replace (Z.to_nat (len pre + off)) with (length pre + Z.to_nat off)%nat by (unfold len; lia).
    rewrite drop_app_add, drop_app_le, take_app_le; [done|rewrite length_drop|]; unfold len in *; lia. }
  do 3 f_equal. apply len_take. rewrite len_drop; lia.
Qed.

Lemma read_chunks_run w f pre tb post fuel off : contents w f = pre ++ tb ++ post -> 0 <= off -> len tb - off <= 2 ^ 20 * (Z.of_nat fuel - 1) -> (0 < fuel)%nat ->
  read_chunks fuel f (len pre) (len tb) off w = Some ((true, drop (Z.to_nat off) tb), w).
Proof.
  intros Hc. revert off. induction fuel as [|fuel IH]; intros off Ho Hf H0; [lia|]. cbn [read_chunks].
  pose proof (contents_size w f) as Hs. rewrite Hc, !len_app in Hs. pose proof (len_nonneg pre). pose proof (len_nonneg post).
  destruct (Z.ltb_spec off (len tb)) as [Hlt|Hge].
  - rewrite s64_small by lia. rewrite bind_run, (pread_part w f pre tb post off) by (done || lia).
    rewrite bind_run, IH by lia. rewrite Z.eqb_refl. cbn [andb]. rewrite ret_run. do 3 f_equal.
    destruct (Z.le_ge_cases (len tb - off) (2 ^ 20)).
    + rewrite Z.min_l by lia. rewrite take_ge by (rewrite length_drop; unfold len in *; lia).
      rewrite (drop_ge tb (Z.to_nat (off + 2 ^ 20))) by (unfold len in *; lia). apply app_nil_r.
    + rewrite Z.min_r by lia. replace (Z.to_nat (off + 2 ^ 20)) with (Z.to_nat off + Z.to_nat (2 ^ 20))%nat by lia.
      rewrite <- drop_drop. apply take_drop.
  - rewrite ret_run. do 3 f_equal. symmetry. apply drop_ge. unfold len in *. lia.
Qed.

Variables (w : W) (f : Z) (args : CompressArgs) (ds st : list (list Z)) (input : list Z).
Abbreviation bs := (block_size (final_opt args)).
Abbreviation v := (verify (final_opt args)).
Abbreviation k := (codec_of (opt args)).
Abbreviation size := (len input).
Hypothesis Hargs : args_ok args.
Hypothesis Hsize : len input < 2 ^ 55 /\ (sse42 = true \/ len input < 2 ^ 30).
Hypothesis Hst : Forall2 (stored_block k v bs) ds st.
Hypothesis Hj : mjoin ds = input.
Hypothesis Hc : contents w f = zfile_bytes args ds st size.

Lemma opened_wf : ht_wf (last_header args st size) /\ ht_wf (trailer args st size).
Proof.
  destruct (written_sizes sse42 args input Hargs Hsize ds st Hst Hj) as (Hs1 & Hs2 & Hl & Hn & _).
  pose proof (len_nonneg input). split; [apply wf_last|apply wf_trailer]; try done; lia.
Qed.

Lemma load_header : f_pread f SPACE 0 w = Some ((SPACE, header_block (last_header args st size)), w).
Proof.
  destruct opened_wf as [Hw _]. pose proof (len_zheader _ Hw) as Hl.
  set (rest := mjoin st ++ table_bytes (len <$> st) ++ (if use_fastcdc args then table_bytes (len <$> ds) else []) ++ header_block (trailer args st size)).
  assert (contents w f = [] ++ header_block (last_header args st size) ++ rest) as Hc' by (rewrite Hc; unfold zfile_bytes; fold rest; reflexivity).
  pose proof (length_zheader _ Hw) as Hlh. set (h := header_block (last_header args st size)) in *. assert (0 + SPACE <= len h) as Hle by lia.
  pose proof (pread_part w f [] h rest 0 SPACE Hc' (Z.le_refl 0) ltac:(done) Hle) as Hr. clearbody h.
  change (len [] + 0) with 0 in Hr. rewrite Hr. do 3 f_equal. change (drop (Z.to_nat 0) ?l) with l. apply firstn_all2. by rewrite Hlh.
Qed.

Lemma last_header_valid : is_valid sse42 base (header_block (last_header args st size)) = Some true.
Proof.
  assert (exists h, last_header args st size = with_crc h /\ ht_wf h) as (h0 & -> & Hw0); [|by apply valid_with_crc].
  pose proof (wf_new args Hargs). unfold last_header, first_header. destruct (overwrite_header args).
  - exists (prepare_ht true false true true (trailer args st size)). split; [done|]. apply wf_prepare. apply opened_wf.
  - exists (prepare_ht true false true false (new_header args)). split; [done|]. by apply wf_prepare.
Qed.

Lemma load_trailer_run : load_trailer f (last_header args st size) w = Some (Some (opened args st size), w).
Proof.
  destruct opened_wf as [Hw Hwt]. destruct (last_header_fields args st size) as (_ & _ & Ho & Hd). unfold load_trailer, opened. rewrite Ho, Hd.
  destruct (overwrite_header args); cbn [negb]; [done|]. rewrite bind_run, fstat_law. cbn iota beta. change (0 <? 0) with false. cbn iota.
  set (body := header_block (last_header args st size) ++ mjoin st ++ table_bytes (len <$> st) ++ (if use_fastcdc args then table_bytes (len <$> ds) else [])).
  assert (contents w f = body ++ header_block (trailer args st size) ++ []) as Hc'.
  { rewrite Hc. unfold zfile_bytes, body. rewrite app_nil_r. by rewrite <- !app_assoc. }
  pose proof (len_zheader _ Hwt) as Hl. rewrite bind_run.
  replace (len (contents w f) - SPACE) with (len body + 0) by (rewrite Hc', !len_app, Hl; change (len []) with 0; lia).
  rewrite (pread_part w f body _ [] 0 SPACE Hc') by (rewrite ?Hl; unfold SPACE; lia).
  change (drop (Z.to_nat 0) ?l) with l. rewrite firstn_all2 by (by rewrite length_zheader). change (SPACE <? SPACE) with false. cbn iota.
  rewrite parse_header by done. destruct (trailer_fields args st size) as (-> & -> & -> & ->). cbn [negb orb].
  destruct (written_sizes sse42 args input Hargs Hsize ds st Hst Hj) as (Hs1 & Hs2 & Hlst & Hn & _). destruct Hsize as [Hsz _].
  pose proof (contents_size w f) as Hcs.
  assert (index_offset (trailer args st size) = SPACE + len (mjoin st) /\ index_size (trailer args st size) = Z.of_nat (length st)) as [-> ->]
    by (unfold trailer, first_header, new_header; by destruct (use_fastcdc args)).
  assert (len body = SPACE + len (mjoin st) + (4 * Z.of_nat (length st) + len (if use_fastcdc args then table_bytes (len <$> ds) else []))) as Hlb.
  { unfold body. rewrite !len_app, len_zheader by done. rewrite len_table, length_fmap. lia. }
  pose proof (len_nonneg (if use_fastcdc args then table_bytes (len <$> ds) else [])). rewrite Hc', !len_app, Hl in Hcs. unfold SPACE in *.
  pose proof (len_nonneg []). rewrite !u64_small by lia.
  destruct (Z.ltb_spec (len body + 0 - (512 + len (mjoin st))) (Z.of_nat (length st) * 4)); [lia|done].
Qed.

Variable e : Z.
Hypothesis He : 12 <= e <= 16.
Hypothesis Hbs : bs = 2 ^ e.

(** The sizes are small enough for the jump table. *)
Lemma build_stored : exists t, build (len <$> st) SPACE bs (negb (v =? 0)) = Some (0, t) /\
  forall i, (i <= length st)%nat -> jump t (Z.of_nat i) = Some (SPACE + starts st i).
Proof.
  destruct (written_sizes sse42 args input Hargs Hsize ds st Hst Hj) as (Hs1 & Hs2 & Hlst & Hn & _). destruct Hsize as [Hsz _].
  assert (forall i, sizes_sum (len <$> st) i = starts st i) as Hsum by (intros i; unfold sizes_sum; apply total_size_take).
  assert (0 < bs <= MAX_READ_SIZE /\ ((uinttype_max + 1) / bs - 1) * (bs + bs / 255 + 68) < uinttype_max /\ bs + bs / 255 + 68 < 2 ^ 32 /\
    (uinttype_max + 1) / bs = 2 ^ (16 - e)) as (Hb1 & Hb2 & Hb3 & Hb4).
  { rewrite Hbs. assert (e = 12 \/ e = 13 \/ e = 14 \/ e = 15 \/ e = 16) as He5 by lia; destruct He5 as [-> | [-> | [-> | [-> | ->]]]]; vm_compute; repeat split; congruence. }
  destruct (build_total (len <$> st) SPACE bs (bs + bs / 255 + 68) (negb (v =? 0))) as (t & Ht & Hb); try done.
  - apply Forall_lookup. intros i n Hi. apply list_lookup_fmap_Some in Hi as (s & -> & Hi).
    destruct (Forall2_lookup_r _ _ _ _ _ Hst Hi) as (d & _ & Hd). pose proof (stored_block_len _ _ _ _ _ Hd) as Hl. destruct Hd as [Hd _].
    assert (len d / 255 <= bs / 255) by (apply Z.div_le_mono; lia). destruct (v =? 0); cbn [negb]; lia.
  - rewrite Hsum. pose proof (starts_le st (length (len <$> st))). unfold SPACE. lia.
  - exists t. split; [done|]. intros i Hi. rewrite <- Hsum. rewrite Hb4 in Hb. assert (0 < 2 ^ (16 - e)) by (apply Z.pow_pos_nonneg; lia).
    assert (Forall (fun n => 0 <= n < 2 ^ 32) (len <$> st)) as Hf by done.
    apply (jump_built (Z.to_nat (2 ^ (16 - e)))) with (l := len <$> st) (e := 16 - e); try done; try lia.
    by rewrite length_fmap.
Qed.

Lemma load_jump_table_run : exists t, load_jump_table sse42 base f w = Some (Some (opened args st size, t), w) /\
  forall i, (i <= length st)%nat -> jump t (Z.of_nat i) = Some (SPACE + starts st i).
Proof.
  destruct build_stored as (t & Ht & Hjump). exists t. split; [|done]. destruct opened_wf as [Hw _].
  destruct (written_sizes sse42 args input Hargs Hsize ds st Hst Hj) as (Hs1 & Hs2 & Hlst & Hn & _ & Hcrc). destruct Hsize as [Hsz _].
  destruct (opened_fields args st size) as (Hdig & _ & Hopt & Hio & His & _ & Hic).
  destruct (last_header_fields args st size) as (Hm & Hh & _).
  unfold load_jump_table. rewrite bind_run, load_header. change (SPACE <? SPACE) with false. cbn iota.
  rewrite parse_header by done. rewrite Hm, Hh. cbn [negb orb]. rewrite bind_run.
  rewrite last_header_valid, lift_run. cbn [negb]. rewrite bind_run, fstat_law. change (0 <? 0) with false. cbn iota.
  rewrite bind_run, load_trailer_run. rewrite bind_run, His. destruct (Z.leb_spec (2 ^ 61) (Z.of_nat (length st))); [lia|].
  rewrite bug_on_run, Hio. cbv zeta. rewrite bind_run.
  assert (contents w f = (header_block (last_header args st size) ++ mjoin st) ++ table_bytes (len <$> st) ++
    ((if use_fastcdc args then table_bytes (len <$> ds) else []) ++ header_block (trailer args st size))) as Hc' by (rewrite Hc; unfold zfile_bytes; by rewrite <- !app_assoc).
  assert (len (table_bytes (len <$> st)) = Z.of_nat (length st) * 4) as Hlt by (rewrite len_table, length_fmap; lia).
  replace (SPACE + len (mjoin st)) with (len (header_block (last_header args st size) ++ mjoin st)) by (by rewrite len_app, len_zheader).
  rewrite <- Hlt. rewrite (read_chunks_run w f _ _ _ _ 0 Hc') by (try lia; rewrite Hlt; dlia).
  change (drop (Z.to_nat 0) ?l) with l. cbn [negb]. rewrite bind_run, Hdig, bind_run.
  rewrite Hlt. replace (Z.of_nat (length st) * 4) with (4 * Z.of_nat (length (len <$> st))) by (rewrite length_fmap; lia).
  rewrite table_crc_run by done. rewrite lift_run, ret_run, Hic, Z.eqb_refl. cbn [negb].
  rewrite Hopt. assert (dict_size (final_opt args) = 0) as -> by (unfold final_opt; rewrite <- (ao_dict _ Hargs); by destruct (use_fastcdc args)).
  replace (words (Z.to_nat (Z.of_nat (length st))) (table_bytes (len <$> st))) with (len <$> st)
    by (rewrite Nat2Z.id; rewrite <- (length_fmap len st); symmetry; by apply words_table).
  rewrite Z.add_0_r, bind_run, Ht, lift_run. done.
Qed.

(** The object that is opened. *)
Lemma open_image (verify_ : bool) : Forall (fun s => len s <= MAX_READ_SIZE) st ->
  (use_fastcdc args = false -> forall i d, ds !! i = Some d -> len d = bs \/ S i = length ds) ->
  exists z, zfile_open_ro sse42 base f verify_ w = Some (Some z, w) /\
    zimage w z (header_block (last_header args st size)) ds st
      (table_bytes (len <$> st) ++ (if use_fastcdc args then table_bytes (len <$> ds) else []) ++ header_block (trailer args st size)) /\
    m_file z = f /\ ht_opt (m_ht z) = final_opt args /\ variable_blocks z = use_fastcdc args && negb (bool_decide (ds = [])).
Proof.
  intros Hfit Heven. destruct load_jump_table_run as (t & Hload & Hjump). destruct opened_wf as [Hw _].
  destruct (written_sizes sse42 args input Hargs Hsize ds st Hst Hj) as (Hs1 & Hs2 & Hlst & Hn & Hlen & Hcrc). pose proof Hsize as [Hsz _].
  destruct (opened_fields args st size) as (Hdig & Hcdc & Hopt & Hio & His & Hos & _).
  destruct (final_block_size args Hargs) as [Hb _]. set (sizes := if use_fastcdc args then len <$> ds else []).
  assert (((if is_fastcdc (opened args st size) then
      '(readn, data) ← f_pread f (index_size (opened args st size) * 4) (s64 (index_offset (opened args st size) + index_size (opened args st size) * 4));
      mret (if negb (readn =? index_size (opened args st size) * 4) then None else Some (words (Z.to_nat (index_size (opened args st size))) data))
    else mret (Some [])) : M W (option (list Z))) w = Some (Some sizes, w)) as Hraw.
  { rewrite Hcdc, His, Hio. unfold sizes. destruct (use_fastcdc args) eqn:Hu; [|done].
    rewrite s64_small by (pose proof (len_nonneg (mjoin st)); unfold SPACE; lia).
    assert (contents w f = (header_block (last_header args st size) ++ mjoin st ++ table_bytes (len <$> st)) ++ table_bytes (len <$> ds) ++ header_block (trailer args st size)) as Hc'
      by (rewrite Hc; unfold zfile_bytes; rewrite Hu; by rewrite <- !app_assoc).
    replace (SPACE + len (mjoin st) + Z.of_nat (length st) * 4) with (len (header_block (last_header args st size) ++ mjoin st ++ table_bytes (len <$> st)) + 0)
      by (rewrite !len_app, len_zheader, len_table, length_fmap by done; lia).
    assert (len (table_bytes (len <$> ds)) = Z.of_nat (length st) * 4) as Hlt by (rewrite len_table, length_fmap, Hlen; lia).
    rewrite bind_run, (pread_part w f _ _ _ 0 _ Hc') by lia. rewrite Z.eqb_refl. cbn [negb]. rewrite ret_run. do 3 f_equal.
    change (drop (Z.to_nat 0) ?l) with l. rewrite firstn_all2 by (rewrite <- Hlt; unfold len; lia).
    rewrite Nat2Z.id, Hlen, <- (length_fmap len ds). by apply words_table. }
  eexists. split; [|split; [|split; [|split]]].
  - unfold zfile_open_ro. rewrite bind_run. cbn [open_retry]. rewrite bind_run, Hload, ret_run, bind_run, Hraw. by rewrite ret_run.
  - destruct (codec_create_run (final_opt args)) as (c & Hcr & Hsrc & Hk & _); [unfold final_opt; destruct Hargs; by destruct (use_fastcdc args)|lia|].
    assert (c_codec c = k) as Hk'. { rewrite Hk. unfold codec_of, final_opt. by destruct (use_fastcdc args). }
    constructor; cbn [m_ht m_compressor m_jump_table m_file m_raw_block_sizes valid]; rewrite ?Hopt; try done.
    + exists c. rewrite Hk'. split; [done|]. split; [lia|]. eapply Forall2_impl; [exact Hst|]. by intros d s [_ Hs].
    + intros i Hi. rewrite len_zheader by done. by apply Hjump.
    + intros i d Hi. destruct (Forall2_lookup_l _ _ _ _ _ Hst Hi) as (s & _ & Hs & _). done.
    + intros i s Hi. rewrite Forall_lookup in Hfit. by apply (Hfit i).
    + unfold variable_blocks, sizes. cbn [m_ht m_raw_block_sizes]. rewrite Hcdc. destruct (use_fastcdc args) eqn:Hu; cbn [andb].
      * case_bool_decide as Hnil; cbn [negb]; [|done]. intros i d Hi. destruct ds; [done|]. discriminate Hnil.
      * intros i d Hi Hlt. destruct (Heven eq_refl i d Hi) as [?|?]; [done|lia].
    + by rewrite Hos, Hj.
    + rewrite Hj. lia.
  - done.
  - done.
  - unfold variable_blocks, sizes. cbn [m_ht m_raw_block_sizes]. rewrite Hcdc. destruct (use_fastcdc args); [|done]. cbn [andb]. f_equal.
    apply bool_decide_ext. by destruct ds.
Qed.
End load.
