(* ===== verification/ZRoundtrip.v ===== *)
(** Compression, opening, reading and decompression of ZFile together: what is
    compressed is read back, at every offset at which [pread] is right, and from
    end to end. *)

From S2P Require Import Prelude Files FastCDC Crc32 Compressor ZFile ZJump ZRead ZHeader ZBuild ZWrite ZOpen.

#[local] Opaque header_block table_bytes crc_ref.

(** An image stays one as long as the file is not written. *)
Lemma zimage_frame {W} `{IFilesLaws W} `{Codecs} w w' z pre ds st post :
  zimage w z pre ds st post -> contents w' (m_file z) = contents w (m_file z) -> zimage w' z pre ds st post.
Proof. intros [? ? ? ? ? ? ? ? ? ?] Hc. constructor; try done. by rewrite Hc. Qed.

Section roundtrip.
Context {W : Type} `{HI : IFiles W} {HF : IFilesLaws W} {HS : ISparseFiles W} {HSt : IStreamFiles W} {HSL : IStreamLaws W} {HC : Codecs} {HCL : CodecsLaws}.
Variables (sse42 : bool) (base : Z).

Lemma read_start_ok z off : variable_blocks z = true \/ off < block_size (ht_opt (m_ht z)) \/ off mod block_size (ht_opt (m_ht z)) = 0 ->
  read_start z off = off.
Proof.
  intros Hok. unfold read_start. destruct (variable_blocks z); [done|]. cbn [orb].
  destruct (Z.ltb_spec off (block_size (ht_opt (m_ht z)))); [done|]. destruct Hok as [?|[?|Hm]]; [done|lia|]. rewrite Hm. lia.
Qed.

Lemma take_more (input : list Z) a b : 0 <= a -> 0 <= b ->
  take (Z.to_nat a) input ++ take (Z.to_nat (Z.min b (len input - a))) (drop (Z.to_nat a) input) = take (Z.to_nat (a + b)) input.
Proof.
  intros Ha Hb. destruct (Z.le_ge_cases b (len input - a)).
  - rewrite Z.min_l by done. replace (Z.to_nat (a + b)) with (Z.to_nat a + Z.to_nat b)%nat by lia. apply take_take_drop.
  - rewrite Z.min_r, (take_ge (drop _ _)), take_drop, take_ge by (rewrite ?length_drop; unfold len in *; lia). done.
Qed.

(** The loop of [zfile_decompress] from an offset of whole blocks. *)
Lemma decompress_loop_run stack raw z pre ds st post dst input bs fuel w raw_buf m :
  mjoin ds = input -> block_size (ht_opt (m_ht z)) = bs -> zimage w z pre ds st post -> dst <> m_file z -> len raw_buf = bs -> 0 <= m -> m * bs <= len input + bs ->
  contents w dst = take (Z.to_nat (m * bs)) input -> position w dst = len (contents w dst) ->
  (length input - Z.to_nat (m * bs) < fuel)%nat ->
  exists w', decompress_loop sse42 base stack raw fuel z dst (len input) bs raw_buf (Z.min (len input) (m * bs)) w = Some (0, w') /\
    contents w' dst = input.
Proof.
  intros Hin Hb. revert w raw_buf m. induction fuel as [|fuel IH]; intros w raw_buf m Himg Hne Hrb Hm Hmb Hc Hp Hf; [lia|].
  pose proof (zi_block_size _ _ _ _ _ _ Himg) as Hbs. rewrite Hb in Hbs. unfold MAX_READ_SIZE in Hbs. pose proof (zi_small _ _ _ _ _ _ Himg) as Hsm. rewrite Hin in Hsm.
  pose proof (len_nonneg input). cbn [decompress_loop].
  destruct (Z.ltb_spec (Z.min (len input) (m * bs)) (len input)) as [Hlt|Hge].
  - rewrite (Z.min_r (len input) (m * bs)) by lia. set (n := Z.min bs (len input - m * bs)).
    assert (read_start z (m * bs) = m * bs) as Hrs by (apply read_start_ok; right; right; rewrite Hb; apply Z.mod_mul; lia).
    set (data := take (Z.to_nat n) (drop (Z.to_nat (m * bs)) input)).
    assert (len data = n) as Hd by (unfold data; apply len_take; rewrite len_drop; unfold n; lia).
    pose proof (pread_image sse42 base stack raw w z pre ds st post n (m * bs) raw_buf Himg ltac:(lia) ltac:(unfold n; lia) ltac:(unfold n; lia)) as Hr.
    unfold read_result in Hr. rewrite Hin in Hr. rewrite Hrs in Hr. replace (Z.min n (len input - m * bs)) with n in Hr by (unfold n; lia). fold data in Hr.
    cbv zeta in Hr. rewrite Hd, splice_0 in Hr. rewrite bind_run, Hr. destruct (Z.leb_spec n 0); [unfold n in *; lia|]. cbn iota zeta.
    destruct (Z.ltb_spec n n); [lia|].
    assert (take (Z.to_nat n) (data ++ drop (length data) raw_buf) = data) as Htk.
    { rewrite take_app_le by (unfold len in Hd; lia). apply take_ge. unfold len in Hd. lia. }
    assert (len (contents w dst) = m * bs) as Hlc by (rewrite Hc; apply len_take; lia).
    destruct (write_end w dst data Hp) as (w1 & Hw1 & Hc1 & Hp1 & Ho1); [rewrite Hlc, Hd; unfold n; lia|].
    rewrite bind_run, Htk, Hw1, Hd, Z.eqb_refl. cbn [negb].
    assert (m * bs + n = Z.min (len input) ((m + 1) * bs)) as -> by (unfold n; lia).
    apply IH; try done.
    + apply (zimage_frame w); [done|]. by apply Ho1.
    + rewrite len_app. unfold len in *. rewrite length_drop. lia.
    + lia.
    + lia.
    + rewrite Hc1, Hc. unfold data, n. replace ((m + 1) * bs) with (m * bs + bs) by lia. apply take_more; lia.
    + unfold len in *. lia.
  - rewrite ret_run. eexists. split; [done|]. rewrite Hc. apply take_ge. unfold len in *. lia.
Qed.

(** *** After compression *)

Lemma stored_fit (k : codec) v bs ds st : bs <= 2 ^ 15 -> Forall2 (stored_block k v bs) ds st -> Forall (fun s => len s <= MAX_READ_SIZE) st.
Proof.
  intros Hb. induction 1 as [|d s ds st Hs Hst IH]; constructor; [|done]. pose proof (stored_block_len _ _ _ _ _ Hs) as Hl. destruct Hs as [Hd _].
  assert (len d / 255 <= 129) by dlia. unfold MAX_READ_SIZE. destruct (v =? 0); lia.
Qed.

Lemma compress_open fuel MD5 (winit : W) file as_ args input e cdc0 : file <> as_ -> args_ok args -> block_size (final_opt args) = 2 ^ e -> 12 <= e <= 15 ->
  Forall is_byte input -> len input < 2 ^ 55 /\ (sse42 = true \/ len input < 2 ^ 30) ->
  contents winit file = input -> position winit file = 0 -> contents winit as_ = [] -> position winit as_ = 0 -> (length input < fuel)%nat ->
  exists ds st w' cdc' pre post z, zfile_compress sse42 base MD5 fuel file as_ args cdc0 winit = Some ((0, cdc'), w') /\
    contents w' as_ = zfile_bytes args ds st (len input) /\
    (forall g, g <> file -> g <> as_ -> contents w' g = contents winit g /\ position w' g = position winit g) /\
    (forall verify_, zfile_open_ro sse42 base as_ verify_ w' = Some (Some z, w')) /\ zimage w' z pre ds st post /\ mjoin ds = input /\
    m_file z = as_ /\ ht_opt (m_ht z) = final_opt args /\ variable_blocks z = use_fastcdc args && negb (bool_decide (ds = [])) /\
    Forall2 (stored_block (codec_of (opt args)) (verify (final_opt args)) (block_size (final_opt args))) ds st.
Proof.
  intros Hne Ha He He2 Hb Hs Hin Hpos Hemp Hpa Hfuel.
  destruct (zfile_compress_run sse42 base MD5 winit file as_ args input Hne Ha Hb Hs fuel cdc0 Hin Hpos Hemp Hpa Hfuel)
    as (ds & st & w' & cdc' & Hrun & Hc & _ & Ho & Hst & Hj & Hev).
  assert (2 ^ e <= 2 ^ 15) by (apply Z.pow_le_mono_r; lia).
  assert (Forall (fun s => len s <= MAX_READ_SIZE) st) as Hfit by (eapply stored_fit; [|exact Hst]; by rewrite He).
  destruct (open_image sse42 base w' as_ args ds st input Ha Hs Hst Hj Hc e ltac:(lia) He true Hfit Hev) as (z & Hopen & Himg & Hf & Hopt & Hvar).
  exists ds, st, w', cdc'. eexists _, _, z. split; [done|]. split; [done|]. split; [done|]. split; [|done].
  intros verify_. destruct (load_jump_table_run sse42 base w' as_ args ds st input Ha Hs Hst Hj Hc e ltac:(lia) He) as (t & Hload & _).
  unfold zfile_open_ro in *. rewrite bind_run in *. cbn [open_retry] in *. rewrite bind_run in *. rewrite Hload in *. exact Hopen.
Qed.

(** ** Theorems *)

(** Compression is set up: two files, one with the input and one empty, usable
    arguments and a block size, or a maximal chunk size, of 4 to 32 KB that is a
    power of two. *)
Record compression (winit : W) (file as_ : Z) (args : CompressArgs) (input : list Z) (fuel : nat) : Prop := {
  co_files : file <> as_;
  co_args : args_ok args;
  co_block_size : exists e, 12 <= e <= 15 /\ block_size (final_opt args) = 2 ^ e;
  co_bytes : Forall is_byte input;
  co_size : len input < 2 ^ 55 /\ (sse42 = true \/ len input < 2 ^ 30);
  co_input : contents winit file = input /\ position winit file = 0;
  co_empty : contents winit as_ = [] /\ position winit as_ = 0;
  co_fuel : (length input < fuel)%nat
}.

(** C3: What is compressed in blocks of 4, 8, 16 or 32 KB, or in chunks of FastCDC
    with such a maximal size of at least 8 KB, without a dictionary, is read back:
    after [zfile_compress] the file can be opened, and a [pread] gives exactly the
    bytes of the input at its offset, clipped at the end of the input, when the
    blocks are chunks of FastCDC, or the offset is in the first block or the start
    of a block.  Other sizes, such as the default maximal chunk size of 64 KB, are
    not covered: a file with them need not be readable. *)
Theorem compress_pread_roundtrip MD5 winit file as_ args input fuel cdc0 : compression winit file as_ args input fuel ->
  exists cdc' w' z, zfile_compress sse42 base MD5 fuel file as_ args cdc0 winit = Some ((0, cdc'), w') /\
    (forall verify_, zfile_open_ro sse42 base as_ verify_ w' = Some (Some z, w')) /\
    forall stack raw out count off, 0 <= off < 2 ^ 62 -> 0 <= count < 2 ^ 62 -> count <= len out ->
      use_fastcdc args = true \/ off < block_size (final_opt args) \/ off mod block_size (final_opt args) = 0 ->
      let data := take (Z.to_nat count) (drop (Z.to_nat off) input) in
      zfile_pread sse42 base z stack raw (Some out) count off w' = Some ((len data, splice 0 data out), w').
Proof.
  intros [Hne Ha (e & He2 & He) Hb Hs [Hi Hp] [Hem Hpe] Hf].
  destruct (compress_open fuel MD5 winit file as_ args input e cdc0 Hne Ha He He2 Hb Hs Hi Hp Hem Hpe Hf)
    as (ds & st & w' & cdc' & pre & post & z & Hrun & _ & _ & Hopen & Himg & Hj & _ & Hopt & Hvar & _).
  exists cdc', w', z. split; [done|]. split; [done|]. intros stack raw out count off Ho Hc Hout Hok data.
  rewrite (pread_image sse42 base stack raw w' z pre ds st post) by done.
  assert (read_result z (mjoin ds) count off = data) as ->; [|done]. unfold read_result, data. rewrite Hj.
  destruct (Z.le_gt_cases (len input) off) as [Hge|Hlt].
  - rewrite (Z2Nat.nonpos (Z.min _ _)) by lia. cbn [take]. rewrite (drop_ge input (Z.to_nat off)) by (unfold len in Hge; lia). by destruct (Z.to_nat count).
  - rewrite read_start_ok.
    + destruct (Z.le_ge_cases count (len input - off)); [by rewrite Z.min_l by lia|]. rewrite Z.min_r by lia.
      rewrite !take_ge by (rewrite length_drop; unfold len in *; lia). done.
    + rewrite Hvar, Hopt. destruct Hok as [Hu|?]; [left|by right]. rewrite Hu. cbn [andb]. rewrite bool_decide_false; [done|].
      intros ->. rewrite <- Hj in Hlt. change (len (mjoin [])) with 0 in Hlt. lia.
Qed.

(** C29: With blocks of a fixed size a [pread] at an offset behind the first block
    that is not the start of a block does not give the bytes at the offset: it gives
    as many bytes, but from the start of the block. *)
Theorem pread_unaligned_rounds_down MD5 winit file as_ args input fuel cdc0 : compression winit file as_ args input fuel -> use_fastcdc args = false ->
  exists cdc' w' z, zfile_compress sse42 base MD5 fuel file as_ args cdc0 winit = Some ((0, cdc'), w') /\
    (forall verify_, zfile_open_ro sse42 base as_ verify_ w' = Some (Some z, w')) /\
    forall stack raw out count off, block_size (final_opt args) <= off < len input -> 0 <= count -> off + count <= len input -> count <= len out ->
      let data := take (Z.to_nat count) (drop (Z.to_nat (off - off mod block_size (final_opt args))) input) in
      zfile_pread sse42 base z stack raw (Some out) count off w' = Some ((count, splice 0 data out), w').
Proof.
  intros [Hne Ha (e & He2 & He) Hb Hs [Hi Hp] [Hem Hpe] Hf] Hu.
  destruct (compress_open fuel MD5 winit file as_ args input e cdc0 Hne Ha He He2 Hb Hs Hi Hp Hem Hpe Hf)
    as (ds & st & w' & cdc' & pre & post & z & Hrun & _ & _ & Hopen & Himg & Hj & _ & Hopt & Hvar & _).
  exists cdc', w', z. split; [done|]. split; [done|]. intros stack raw out count off Ho Hc Hoc Hout data.
  pose proof (final_block_size args Ha) as [Hbs _].
  rewrite (pread_image sse42 base stack raw w' z pre ds st post) by (done || lia).
  assert (read_result z (mjoin ds) count off = data) as ->.
  { unfold read_result, data, read_start. rewrite Hj, Hvar, Hu, Hopt, Z.min_l by lia. cbn [andb orb].
    destruct (Z.ltb_spec off (block_size (final_opt args))); [lia|done]. }
  assert (len data = count) as ->; [|done]. pose proof (Z.mod_pos_bound off (block_size (final_opt args)) ltac:(lia)).
  pose proof (Z.mod_le off (block_size (final_opt args)) ltac:(lia) ltac:(lia)).
  unfold data. apply len_take. rewrite len_drop; lia.
Qed.

(** C6: Decompression undoes compression in blocks of 4, 8, 16 or 32 KB, or in
    chunks of FastCDC with such a maximal size of at least 8 KB, without a
    dictionary: [zfile_decompress] of what [zfile_compress] wrote with them ends
    with 0 and the input in the new file.  Other sizes are not covered. *)
Theorem decompress_compress MD5 winit file as_ args input fuel cdc0 dst stack raw raw_buf : compression winit file as_ args input fuel ->
  dst <> file -> dst <> as_ -> contents winit dst = [] -> position winit dst = 0 -> (forall n, 0 <= n -> len (raw_buf n) = n) ->
  exists cdc' w' w'', zfile_compress sse42 base MD5 fuel file as_ args cdc0 winit = Some ((0, cdc'), w') /\
    zfile_decompress sse42 base stack raw fuel raw_buf as_ dst w' = Some (0, w'') /\ contents w'' dst = input.
Proof.
  intros [Hne Ha (e & He2 & He) Hb Hs [Hi Hp] [Hem Hpe] Hf] Hd1 Hd2 Hdc Hdp Hraw.
  destruct (compress_open fuel MD5 winit file as_ args input e cdc0 Hne Ha He He2 Hb Hs Hi Hp Hem Hpe Hf)
    as (ds & st & w' & cdc' & pre & post & z & Hrun & _ & Ho & Hopen & Himg & Hj & Hfile & Hopt & Hvar & _).
  destruct (Ho dst Hd1 Hd2) as [Hc' Hp']. pose proof (zi_block_size _ _ _ _ _ _ Himg) as Hbs. pose proof (len_nonneg input).
  destruct (decompress_loop_run stack raw z pre ds st post dst input _ fuel w' (raw_buf (block_size (ht_opt (m_ht z)))) 0 Hj eq_refl Himg)
    as (w'' & Hloop & Hc''); [by rewrite Hfile|apply Hraw; lia|lia|lia|by rewrite Hc', Hdc|by rewrite Hp', Hdp, Hc', Hdc|simpl; lia|].
  exists cdc', w', w''. split; [done|]. split; [|done]. unfold zfile_decompress. rewrite bind_run, Hopen.
  unfold zfile_fstat. rewrite bind_run, bind_run, Hfile, fstat_law. cbn [Z.eqb negb]. rewrite ret_run.
  rewrite (zi_total _ _ _ _ _ _ Himg), Hj. rewrite Z.mul_0_l, Z.min_r in Hloop by lia. exact Hloop.
Qed.

(** [is_zfile] recognises what [zfile_compress] wrote. *)
Theorem is_zfile_compressed MD5 winit file as_ args input fuel cdc0 : compression winit file as_ args input fuel ->
  exists cdc' w', zfile_compress sse42 base MD5 fuel file as_ args cdc0 winit = Some ((0, cdc'), w') /\
    is_zfile sse42 base as_ w' = Some (1, w').
Proof.
  intros [Hne Ha (e & He2 & He) Hb Hs [Hi Hp] [Hem Hpe] Hf].
  destruct (compress_open fuel MD5 winit file as_ args input e cdc0 Hne Ha He He2 Hb Hs Hi Hp Hem Hpe Hf)
    as (ds & st & w' & cdc' & pre & post & z & Hrun & Hc & _ & _ & _ & Hj & _ & _ & _ & Hst).
  exists cdc', w'. split; [done|]. destruct (opened_wf sse42 args ds st input Ha Hs Hst Hj) as [Hw _].
  unfold is_zfile. rewrite bind_run, (load_header sse42 w' as_ args ds st input Ha Hs Hst Hj Hc).
  change (SPACE <? SPACE) with false. cbn iota. rewrite parse_header by done.
  destruct (last_header_fields args st (len input)) as (-> & -> & _). cbn [negb orb].
  rewrite bind_run, (last_header_valid sse42 base args ds st input Ha Hs Hst Hj), lift_run. done.
Qed.
End roundtrip.

(** ** Witnesses *)

(** Libraries that store a block as it is. *)
Definition storing_codecs : Codecs := {|
  LZ4_compressBound n := n + n / 255 + 16;
  LZ4_compress_default src cap := if cap <? len src then (0, []) else (len src, src);
  LZ4_decompress_safe z cap := if cap <? len z then (-1, []) else (len z, z);
  ZSTD_compressBound n := n + n / 256 + 64;
  ZSTD_compress src cap := if cap <? len src then inl 70 else inr src;
  ZSTD_decompress z cap := if cap <? len z then inl 70 else inr z
|}.
#[local] Existing Instance storing_codecs.
#[local] Instance storing_laws : CodecsLaws.
Proof.
  constructor.
  - intros n Hn. cbn. assert (0 <= n / 255) by (apply Z.div_pos; lia). lia.
  - intros src cap Hl Hb Hc. cbn in *. assert (0 <= len src / 255) by (apply Z.div_pos; lia). exists src.
    destruct (Z.ltb_spec cap (len src)); [lia|]. split; [done|]. split; [lia|]. split; [done|]. intros cap' Hc'.
    destruct (Z.ltb_spec cap' (len src)); [lia|done].
  - intros n Hn. cbn. assert (0 <= n / 256 <= n / 255) by (split; [apply Z.div_pos; lia|apply Z.div_le_compat_l; lia]). lia.
  - intros src cap Hl Hb Hc. cbn in *. assert (0 <= len src / 256) by (apply Z.div_pos; lia). exists src.
    destruct (Z.ltb_spec cap (len src)); [lia|]. split; [done|]. split; [lia|]. split; [done|]. intros cap' Hc'.
    destruct (Z.ltb_spec cap' (len src)); [lia|done].
Qed.

(** Two blocks of 4 KB, the second one short. *)
Definition wit_input : list Z := (fun i => i mod 251) <$> seqZ 0 5000.
Definition wit_args : CompressArgs := CompressArgs_new (CompressOptions_new LZ4 4096 1) true 1.
Definition wit_files : mem_files := <[1 := (wit_input, 0)]> ∅.

Lemma wit_input_bytes : Forall is_byte wit_input.
Proof. unfold wit_input. apply Forall_fmap, Forall_forall. intros i _. unfold is_byte, compose. pose proof (Z.mod_pos_bound i 251). lia. Qed.

Lemma wit_input_len : length wit_input = 5000%nat.
Proof. unfold wit_input. by rewrite length_fmap, length_seqZ. Qed.

Lemma wit_contents : mem_contents wit_files 1 = wit_input.
Proof.
  unfold mem_contents, wit_files. rewrite lookup_insert_eq. cbn [default fst id]. unfold len. rewrite wit_input_len.
  destruct (Z.ltb_spec (Z.of_nat 5000) (2 ^ 63)); [done|lia].
Qed.

Lemma wit_compression : compression true wit_files 1 2 wit_args wit_input 5001.
Proof.
  constructor.
  - done.
  - constructor; cbn; [by left|done|lia|lia|done].
  - by exists 12.
  - exact wit_input_bytes.
  - unfold len. rewrite wit_input_len. split; [lia|by left].
  - split; [exact wit_contents|done].
  - done.
  - rewrite wit_input_len. apply Nat.ltb_lt. vm_compute. reflexivity.
Qed.

Lemma compress_pread_roundtrip_witness : exists cdc' w' z,
  zfile_compress true 0 (fun _ => []) 5001 1 2 wit_args (globals0, false) wit_files = Some ((0, cdc'), w') /\
  zfile_open_ro true 0 2 false w' = Some (Some z, w') /\
  zfile_pread true 0 z [] [] (Some [9; 9; 9; 9]) 3 4096 w' = Some ((3, [80; 81; 82; 9]), w').
Proof.
  destruct (compress_pread_roundtrip true 0 (fun _ => []) wit_files 1 2 wit_args wit_input 5001 (globals0, false) wit_compression)
    as (cdc' & w' & z & Hc & Ho & Hr).
  exists cdc', w', z. split; [exact Hc|]. split; [apply Ho|]. rewrite (Hr [] [] [9; 9; 9; 9] 3 4096); [vm_compute; reflexivity|lia|lia|vm_compute; discriminate|].
  right. right. reflexivity.
Defined.

Lemma pread_unaligned_rounds_down_witness : exists cdc' w' z,
  zfile_compress true 0 (fun _ => []) 5001 1 2 wit_args (globals0, false) wit_files = Some ((0, cdc'), w') /\
  zfile_open_ro true 0 2 false w' = Some (Some z, w') /\
  zfile_pread true 0 z [] [] (Some [9; 9; 9; 9]) 3 4100 w' = Some ((3, [80; 81; 82; 9]), w') /\
  take 3 (drop 4100 wit_input) = [84; 85; 86].
Proof.
  destruct (pread_unaligned_rounds_down true 0 (fun _ => []) wit_files 1 2 wit_args wit_input 5001 (globals0, false) wit_compression eq_refl)
    as (cdc' & w' & z & Hc & Ho & Hr).
  exists cdc', w', z. split; [exact Hc|]. split; [apply Ho|]. split; [|vm_compute; reflexivity].
  rewrite (Hr [] [] [9; 9; 9; 9] 3 4100); [vm_compute; reflexivity|vm_compute; split; congruence|lia|vm_compute; discriminate|vm_compute; discriminate].
Defined.

Lemma decompress_compress_witness : exists cdc' w' w'',
  zfile_compress true 0 (fun _ => []) 5001 1 2 wit_args (globals0, false) wit_files = Some ((0, cdc'), w') /\
  zfile_decompress true 0 [] [] 5001 zeros 2 3 w' = Some (0, w'') /\ mem_contents w'' 3 = wit_input.
Proof.
  apply (decompress_compress true 0 (fun _ => []) wit_files 1 2 wit_args wit_input 5001 (globals0, false) 3 [] [] zeros wit_compression);
    [done|done|done|done|exact len_zeros].
Defined.

Lemma is_zfile_compressed_witness : exists cdc' w',
  zfile_compress true 0 (fun _ => []) 5001 1 2 wit_args (globals0, false) wit_files = Some ((0, cdc'), w') /\
  is_zfile true 0 2 w' = Some (1, w').
Proof. exact (is_zfile_compressed true 0 (fun _ => []) wit_files 1 2 wit_args wit_input 5001 (globals0, false) wit_compression). Defined.
