(* ===== verification/LsmtFile.v ===== *)
(** Reading and writing a log-structured image: lsmt/file.cpp.

    A file has an index that maps its logical blocks to blocks of underlying
    files.  Writing appends the data to the data file of the top layer and inserts
    a mapping; the mapping is also appended to the index file, from which the
    index is rebuilt when the image is opened again.

    The underlying files are those of [IFiles] (Files); [W] is their state. *)

From S2P Require Import Prelude Files LsmtSegment LsmtIndex.

Definition ALIGNMENT : Z := 512.
Definition ALIGNMENT4K : Z := 4096.
Definition MAX_STACK_LAYERS : Z := 255.
(** [HeaderTrailer::SPACE] *)
Definition SPACE : Z := 4096.

Definition is_aligned (x : Z) : bool := Z.land x (ALIGNMENT - 1) =? 0.

(** ** Index with insertion *)

Class MemoryIndex0 (I : Type) := insert_ : SegmentMapping -> I -> option I.

Class MemoryIndex0Laws (I : Type) `{MemoryIndexLaws I, MemoryIndex0 I} := {
  insert_law m i : valid_index i -> wf m -> exists i', insert_ m i = Some i' /\ valid_index i' /\
    forall x, den (view i') x = if in_seg m x then Some (block_at m x) else den (view i) x
}.

#[export] Instance Index0_insert : MemoryIndex0 Index0 := insert.
#[export] Instance ComboIndex_insert_ : MemoryIndex0 ComboIndex := ComboIndex_insert.

#[export] Instance Index0_laws0 : MemoryIndex0Laws Index0.
Proof.
  constructor. intros m i Hi Hm. destruct (insert_valid m i Hi Hm) as (i' & Hrun & Hi' & Hmap).
  exists i'. split; [exact Hrun|]. split; [exact Hi'|]. intros x. cbn [view Index0_laws]. rewrite Hmap.
  apply den_inserted; [done|]. by destruct Hi.
Qed.

#[export] Instance ComboIndex_laws0 : MemoryIndex0Laws ComboIndex.
Proof.
  constructor. intros m c Hc Hm. destruct (combo_insert_valid c m Hc Hm) as (c' & Hrun & Hc' & _ & _ & Hden). by exists c'.
Qed.

(** ** The state of a file *)

Record lsmt_file (I W : Type) := mkFile {
  m_index : I;
  m_files : list Z;
  m_findex : option Z;
  m_rw_tag : Z;
  m_vsize : Z;
  MAX_IO_SIZE : Z;
  m_data_offset : Z;
  m_stacked_mappings : list SegmentMapping;
  nmapping : Z;
  lsmt_io_cnt : Z;
  lsmt_io_size : Z;
  world : W
}.
#[global] Arguments mkFile {_ _}.
#[global] Arguments m_index {_ _}.
#[global] Arguments m_files {_ _}.
#[global] Arguments m_findex {_ _}.
#[global] Arguments m_rw_tag {_ _}.
#[global] Arguments m_vsize {_ _}.
#[global] Arguments MAX_IO_SIZE {_ _}.
#[global] Arguments m_data_offset {_ _}.
#[global] Arguments m_stacked_mappings {_ _}.
#[global] Arguments nmapping {_ _}.
#[global] Arguments lsmt_io_cnt {_ _}.
#[global] Arguments lsmt_io_size {_ _}.
#[global] Arguments world {_ _}.

Section file.
Context {I W : Type} `{IFiles W, MemoryIndex I, MemoryIndex0 I}.

Definition set_world (w : W) (s : lsmt_file I W) : lsmt_file I W :=
  mkFile (m_index s) (m_files s) (m_findex s) (m_rw_tag s) (m_vsize s) (MAX_IO_SIZE s) (m_data_offset s)
    (m_stacked_mappings s) (nmapping s) (lsmt_io_cnt s) (lsmt_io_size s) w.
Definition set_index (i : I) (s : lsmt_file I W) : lsmt_file I W :=
  mkFile i (m_files s) (m_findex s) (m_rw_tag s) (m_vsize s) (MAX_IO_SIZE s) (m_data_offset s)
    (m_stacked_mappings s) (nmapping s) (lsmt_io_cnt s) (lsmt_io_size s) (world s).
Definition set_vsize (v : Z) (s : lsmt_file I W) : lsmt_file I W :=
  mkFile (m_index s) (m_files s) (m_findex s) (m_rw_tag s) v (MAX_IO_SIZE s) (m_data_offset s)
    (m_stacked_mappings s) (nmapping s) (lsmt_io_cnt s) (lsmt_io_size s) (world s).
Definition set_io_size (v : Z) (s : lsmt_file I W) : lsmt_file I W :=
  mkFile (m_index s) (m_files s) (m_findex s) (m_rw_tag s) (m_vsize s) v (m_data_offset s)
    (m_stacked_mappings s) (nmapping s) (lsmt_io_cnt s) (lsmt_io_size s) (world s).
Definition set_data_offset (v : Z) (s : lsmt_file I W) : lsmt_file I W :=
  mkFile (m_index s) (m_files s) (m_findex s) (m_rw_tag s) (m_vsize s) (MAX_IO_SIZE s) v
    (m_stacked_mappings s) (nmapping s) (lsmt_io_cnt s) (lsmt_io_size s) (world s).
Definition set_stacked (l : list SegmentMapping) (n : Z) (s : lsmt_file I W) : lsmt_file I W :=
  mkFile (m_index s) (m_files s) (m_findex s) (m_rw_tag s) (m_vsize s) (MAX_IO_SIZE s) (m_data_offset s)
    l n (lsmt_io_cnt s) (lsmt_io_size s) (world s).
Definition set_io (cnt size : Z) (s : lsmt_file I W) : lsmt_file I W :=
  mkFile (m_index s) (m_files s) (m_findex s) (m_rw_tag s) (m_vsize s) (MAX_IO_SIZE s) (m_data_offset s)
    (m_stacked_mappings s) (nmapping s) cnt size (world s).

(** Run a computation on the files. *)
Definition on_world {A} (m : M W A) : M (lsmt_file I W) A := zoom world set_world m.

(** [set_max_io_size] *)
Definition set_max_io_size (size : Z) : M (lsmt_file I W) Z :=
  if (size =? 0) || negb (Z.land size (ALIGNMENT4K - 1) =? 0) then mret (-1)
  else modify (set_io_size size);; mret 0.

(** ** Reading *)

(** The file, the caller's buffer, and how far the buffer is filled. *)
Record reading := mkReading { r_file : lsmt_file I W; r_buf : list Z; r_pos : Z }.

(** Store bytes in the buffer; outside it the program would corrupt memory. *)
Definition store (at_ : Z) (data : list Z) : M reading unit := fun r =>
  if (at_ <? 0) || (len (r_buf r) <? at_ + len data) then None
  else Some (tt, mkReading (r_file r) (splice at_ data (r_buf r)) (r_pos r)).
Definition advance (n : Z) : M reading unit := modify (fun r => mkReading (r_file r) (r_buf r) (r_pos r + n)).
Definition on_file {A} (m : M (lsmt_file I W) A) : M reading A :=
  zoom r_file (fun f r => mkReading f (r_buf r) (r_pos r)) m.

(** The callback for holes and zeroed segments. *)
Definition read_zero (m : Segment) : M reading Z :=
  let step := u32 (seg_length m * ALIGNMENT) in
  r ← gets (fun r => r);
  store (r_pos r) (zeros step);;
  advance step;;
  mret 0.

(** Read from an underlying file to the place [at_] of the buffer. *)
Definition read_into (file count off at_ : Z) : M reading Z :=
  '(ret, data) ← on_file (on_world (f_pread file count off));
  store at_ data;;
  mret ret.

(** The callback for mapped segments. *)
Definition read_data (m : SegmentMapping) : M reading Z :=
  files ← gets (fun r => m_files (r_file r));
  file ← lift (files !! Z.to_nat (tag m));
  pos ← gets r_pos;
  let size := u32 (seg_length m * ALIGNMENT) in
  let off := u64 (moffset m * ALIGNMENT) in
  ret ← read_into file size (s64 off) pos;
  let finish :=
    on_file (modify (fun f => set_io (u32 (lsmt_io_cnt f + 1)) (u64 (lsmt_io_size f + ret)) f));;
    advance size;;
    mret 0 in
  if ret <? size then
    if ret <? 0 then mret (-1)
    else
      ret2 ← read_into file (size - ret) (s64 (off + ret)) (pos + ret);
      if negb (ret2 =? 0) then mret (s32 ret)
      else
        store (pos + ret) (zeros (size - ret));;
        finish
  else finish.

(** The part of [pread] after the loop, for at most [MAX_IO_SIZE] bytes. *)
Definition pread_part (count off : Z) : M reading Z :=
  idx ← gets (fun r => m_index (r_file r));
  foreach_segments read_zero read_data idx
    (mkSegment (u50 (u64 (off / ALIGNMENT))) (u14 (u32 (count / ALIGNMENT)))).

(** The recursive call for one part. *)
Definition pread_call (count off : Z) : M reading Z :=
  if negb (is_aligned (Z.lor count off)) then mret (-1)
  else ret ← pread_part count off; mret (if 0 <=? ret then count else ret).

(** The loop that reads parts of [MAX_IO_SIZE]: an error, or what is left. *)
Fixpoint pread_loop (fuel : nat) (count off : Z) : M reading (option (Z * Z)) :=
  match fuel with
  | O => bug
  | S fuel =>
    max ← gets (fun r => MAX_IO_SIZE (r_file r));
    if max <? count then
      ret ← pread_call max off;
      if ret <? max then mret None
      else pread_loop fuel (count - max) (off + max)
    else mret (Some (count, off))
  end.

(** Every round takes [MAX_IO_SIZE] bytes, which is not zero. *)
Definition pread (count off : Z) : M reading Z :=
  if negb (is_aligned (Z.lor count off)) then mret (-1)
  else
    r ← pread_loop (S (Z.to_nat count)) count off;
    match r with
    | None => mret (-1)
    | Some (count', off') =>
      ret ← pread_part count' off';
      mret (if 0 <=? ret then count else ret)
    end.

End file.
#[global] Arguments reading : clear implicits.
#[global] Arguments mkReading {_ _}.
#[global] Arguments r_file {_ _}.
#[global] Arguments r_buf {_ _}.
#[global] Arguments r_pos {_ _}.

(** ** The bytes of a mapping *)

(** The packed structure: [offset : 50], [length : 14], [moffset : 55],
    [zeroed : 1], [tag]. *)
Definition mapping_bytes (m : SegmentMapping) : list Z :=
  le_bytes 8 (offset m + 2 ^ 50 * seg_length m) ++
  le_bytes 8 (moffset m + 2 ^ 55 * (if zeroed m then 1 else 0) + 2 ^ 56 * tag m).
Definition mappings_bytes (l : list SegmentMapping) : list Z := l ≫= mapping_bytes.

Definition parse_mapping (l : list Z) : SegmentMapping :=
  let w0 := le_value (take 8 l) in
  let w1 := le_value (take 8 (drop 8 l)) in
  mkMapping (mkSegment (w0 mod 2 ^ 50) (w0 / 2 ^ 50)) (w1 mod 2 ^ 55)
    (negb ((w1 / 2 ^ 55) mod 2 =? 0)) (w1 / 2 ^ 56).

(** An array of [n] mappings. *)
Fixpoint parse_mappings (n : nat) (l : list Z) : list SegmentMapping :=
  match n with
  | O => []
  | S n => parse_mapping (take 16 l) :: parse_mappings n (drop 16 l)
  end.

(** ** Writing *)

Section writing.
Context {I W : Type} `{IFiles W, MemoryIndex I, MemoryIndex0 I}.
Abbreviation F := (lsmt_file I W).

(** [append]: the offset, or 0 when the write fails. *)
Definition append (file : Z) (buf : list Z) : M F Z :=
  pos ← on_world (f_lseek_end file);
  ret ← on_world (f_write file buf);
  if ret <? len buf then mret 0 else mret pos.

(** [do_group_commit_mappings]: fill the buffer with invalid mappings and append
    it to the index file. *)
Definition do_group_commit_mappings : M F Z :=
  s ← gets (fun s : F => s);
  if 0 <? nmapping s then
    let stacked := take (Z.to_nat (nmapping s)) (m_stacked_mappings s) ++
      replicate (length (m_stacked_mappings s) - Z.to_nat (nmapping s)) invalid_mapping in
    let n := Z.max (nmapping s) (Z.of_nat (length (m_stacked_mappings s))) in
    modify (set_stacked stacked n);;
    if Z.of_nat (length stacked) <? n then bug
    else
      findex ← lift (m_findex s);
      ret ← append findex (mappings_bytes stacked);
      if ret =? 0 then mret (-1)
      else modify (set_stacked stacked 0);; mret 0
  else mret 0.

(** [append_index]; the results of the appends are not used, and a store behind
    the end of the buffer would corrupt memory. *)
Definition append_index (m : SegmentMapping) : M F unit :=
  s ← gets (fun s : F => s);
  match m_findex s with
  | None => mret tt
  | Some findex =>
    match m_stacked_mappings s with
    | [] => append findex (mapping_bytes m);; mret tt
    | stacked =>
      if Z.of_nat (length stacked) <=? nmapping s then bug
      else
        modify (set_stacked (<[Z.to_nat (nmapping s) := m]> stacked) (nmapping s + 1));;
        if nmapping s + 1 =? Z.of_nat (length stacked) then do_group_commit_mappings;; mret tt
        else mret tt
    end
  end.

(** [vioctl(Index_Group_Commit, buffer_size)]; new elements of the buffer are not
    used before they are stored. *)
Definition resize_stack (n : Z) (s : F) : F := set_stacked
  (take (Z.to_nat n) (m_stacked_mappings s) ++
   replicate (Z.to_nat n - length (m_stacked_mappings s)) (mkMapping (mkSegment 0 0) 0 false 0)) (nmapping s) s.

Definition set_index_group_commit (buffer_size : Z) : M F Z :=
  let n := buffer_size / sizeof_SegmentMapping in
  s ← gets (fun s : F => s);
  (if nmapping s <=? n then mret tt else do_group_commit_mappings;; mret tt);;
  modify (resize_stack n);;
  mret 0.

Definition insert_index (m : SegmentMapping) : M F unit :=
  s ← gets (fun s : F => s);
  i ← lift (insert_ m (m_index s));
  modify (set_index i).

Definition rw_file : M F Z :=
  s ← gets (fun s : F => s);
  lift (m_files s !! Z.to_nat (m_rw_tag s)).

(** The part of [pwrite] after the loop. *)
Definition pwrite_part (buf : list Z) (off : Z) : M F Z :=
  file ← rw_file;
  moff ← append file buf;
  if moff =? 0 then mret (-1)
  else
    let count := len buf in
    modify (fun s : F => set_vsize (Z.max (m_vsize s) (count + off)) s);;
    m ← lift (SegmentMapping_new (u64 off / ALIGNMENT) (u32 count / ALIGNMENT) (u64 moff / ALIGNMENT) 0);
    s ← gets (fun s : F => s);
    let m := with_tag (u8 (m_rw_tag s)) m in
    BUG_ON (seg_length m <=? 0);;
    modify (set_data_offset (mend m));;
    insert_index m;;
    append_index m;;
    mret 0.

Definition pwrite_call (buf : list Z) (off : Z) : M F Z :=
  if negb (is_aligned (Z.lor (len buf) off)) then mret (-1)
  else ret ← pwrite_part buf off; mret (if ret =? 0 then len buf else ret).

Fixpoint pwrite_loop (fuel : nat) (buf : list Z) (off : Z) : M F (option (list Z * Z)) :=
  match fuel with
  | O => bug
  | S fuel =>
    max ← gets (fun s : F => MAX_IO_SIZE s);
    if max <? len buf then
      ret ← pwrite_call (take (Z.to_nat max) buf) off;
      if ret <? max then mret None
      else pwrite_loop fuel (drop (Z.to_nat max) buf) (off + max)
    else mret (Some (buf, off))
  end.

Definition pwrite (buf : list Z) (off : Z) : M F Z :=
  if negb (is_aligned (Z.lor (len buf) off)) then mret (-1)
  else
    r ← pwrite_loop (S (length buf)) buf off;
    match r with
    | None => mret (-1)
    | Some (buf', off') =>
      ret ← pwrite_part buf' off';
      mret (if ret =? 0 then len buf else ret)
    end.

(** [discard] *)
Definition discard_mapping (m : SegmentMapping) : M F Z :=
  file ← rw_file;
  pos ← on_world (f_lseek_end file);
  s ← gets (fun s : F => s);
  let m := with_tag (u8 (m_rw_tag s)) (with_moffset (u55 (u64 (pos / ALIGNMENT))) m) in
  insert_index m;;
  append_index m;;
  mret 0.

Definition FALLOC_FL_KEEP_SIZE : Z := 1.
Definition FALLOC_FL_PUNCH_HOLE : Z := 2.
Definition max_length_bytes : Z := u32 (MAX_LENGTH * ALIGNMENT).

Definition fallocate_part (mode off length : Z) : M F Z :=
  if (Z.land mode FALLOC_FL_PUNCH_HOLE =? 0) || (Z.land mode FALLOC_FL_KEEP_SIZE =? 0) then mret (-1)
  else if negb (is_aligned (Z.lor length off)) then mret (-1)
  else
    m ← lift (SegmentMapping_new (u64 off / ALIGNMENT) (u32 length / ALIGNMENT) 0 0);
    discard_mapping (discard m).

(** The loop of [fallocate] over pieces of the maximal length, and the rest. *)
Fixpoint fallocate_loop (fuel : nat) (mode off length : Z) : M F Z :=
  match fuel with
  | O => bug
  | S fuel =>
    if max_length_bytes <? length then
      ret ← fallocate_part mode off max_length_bytes;
      if negb (ret =? 0) then mret (-1)
      else fallocate_loop fuel mode (off + max_length_bytes) (length - max_length_bytes)
    else fallocate_part mode off length
  end.
Definition fallocate (mode off length : Z) : M F Z :=
  fallocate_loop (S (Z.to_nat length)) mode off length.

(** [fsync] commits the buffered mappings; flushing the files is not modelled. *)
Definition fsync : M F Z := do_group_commit_mappings.

(** [seek_data]: the mapped segments of a range, looked up 128 at a time. *)
Fixpoint seek_loop (fuel : nat) (begin end' : Z) (segs : list SegmentMapping) : M F (list SegmentMapping) :=
  match fuel with
  | O => bug
  | S fuel =>
    if begin <? end' then
      let length := if end' - begin <? MAX_LENGTH then end' - begin else MAX_LENGTH in
      s ← gets (fun s : F => s);
      pm ← lift (lookup_ (m_index s) (mkSegment (u50 (u64 begin)) (u14 (u32 length))) 128);
      match last pm with
      | None => seek_loop fuel (begin + length) end' segs
      | Some m => seek_loop fuel (end_ (seg m)) end' (segs ++ pm)
      end
    else mret segs
  end.
Definition seek_data (begin end' : Z) : M F (list SegmentMapping) :=
  let b := begin / ALIGNMENT in let e := end' / ALIGNMENT in
  seek_loop (S (Z.to_nat (e - b))) b e [].
End writing.

(** ** The virtual disk *)

Section disk.
Context {W : Type} `{IFilesLaws W}.

(** What a logical block holds: zeros, or 512 bytes of a file. *)
Definition block_bytes (w : W) (files : list Z) (b : option block) : list Z :=
  match b with
  | Some (Data t a) =>
    match files !! Z.to_nat t with
    | Some f => bytes_at (contents w f) (a * ALIGNMENT) ALIGNMENT
    | None => zeros ALIGNMENT
    end
  | _ => zeros ALIGNMENT
  end.

Definition disk_range (w : W) (files : list Z) (D : Z -> option block) (a b : Z) : list Z :=
  mjoin ((fun x => block_bytes w files (D x)) <$> seqZ a (b - a)).

Lemma len_block w files b : len (block_bytes w files b) = ALIGNMENT.
Proof.
  unfold block_bytes. destruct b as [[t|t a]|]; [by apply len_zeros| |by apply len_zeros].
  destruct (files !! Z.to_nat t); [by apply len_bytes_at|by apply len_zeros].
Qed.

Lemma disk_range_nil w files D a : disk_range w files D a a = [].
Proof. unfold disk_range. by rewrite Z.sub_diag. Qed.

Lemma disk_range_app w files D a b c : a <= b -> b <= c ->
  disk_range w files D a c = disk_range w files D a b ++ disk_range w files D b c.
Proof.
  intros Hab Hbc. unfold disk_range. replace (c - a) with ((b - a) + (c - b)) by lia.
  rewrite seqZ_app, fmap_app, join_app by lia. replace (a + (b - a)) with b by lia. done.
Qed.

Lemma disk_range_ext w files D D' a b : (forall x, a <= x < b -> D x = D' x) -> disk_range w files D a b = disk_range w files D' a b.
Proof.
  intros HD. unfold disk_range. f_equal. apply list_fmap_ext. intros i x [-> Hi]%lookup_seqZ. by rewrite HD by lia.
Qed.

Lemma disk_range_ind w files D a b (f : Z -> list Z) : a <= b -> f a = [] ->
  (forall x, a <= x < b -> f (x + 1) = f x ++ block_bytes w files (D x)) -> disk_range w files D a b = f b.
Proof.
  intros Hab Hf Hs. assert (forall n, (n <= Z.to_nat (b - a))%nat -> disk_range w files D a (a + Z.of_nat n) = f (a + Z.of_nat n)) as Hn.
  { induction n as [|n IH]; intros Hle.
    - rewrite Z.add_0_r. by rewrite disk_range_nil.
    - replace (a + Z.of_nat (S n)) with (a + Z.of_nat n + 1) by lia. rewrite Hs by lia. rewrite <- IH by lia.
      rewrite (disk_range_app _ _ _ a (a + Z.of_nat n)) by lia. f_equal. unfold disk_range.
      replace (a + Z.of_nat n + 1 - (a + Z.of_nat n)) with 1 by lia. rewrite seqZ_cons by lia. cbn. by rewrite app_nil_r. }
  specialize (Hn (Z.to_nat (b - a)) ltac:(lia)). by replace (a + Z.of_nat (Z.to_nat (b - a))) with b in Hn by lia.
Qed.

Lemma len_disk_range w files D a b : a <= b -> len (disk_range w files D a b) = (b - a) * ALIGNMENT.
Proof.
  intros Hab. unfold disk_range. rewrite <- (Z2Nat.id (b - a)) at 1 2 by lia. generalize (Z.to_nat (b - a)) as n. clear Hab b.
  intros n. revert a. induction n as [|n IH]; intros a; [done|]. rewrite seqZ_cons by lia.
  rewrite fmap_cons. cbn [mjoin list_join]. rewrite len_app, len_block.
  replace (Z.pred (Z.of_nat (S n))) with (Z.of_nat n) by lia. rewrite IH. lia.
Qed.

(** A range without data, and a range that is contiguous in a file. *)
Lemma disk_range_zeros w files D a b : a <= b ->
  (forall x, a <= x < b -> D x = None \/ exists t, D x = Some (Zeros t)) ->
  disk_range w files D a b = zeros ((b - a) * ALIGNMENT).
Proof.
  intros Hab HD. apply (disk_range_ind _ _ _ _ _ (fun x => zeros ((x - a) * ALIGNMENT))); [done|by rewrite Z.sub_diag|].
  intros x Hx. replace ((x + 1 - a) * ALIGNMENT) with ((x - a) * ALIGNMENT + ALIGNMENT) by lia.
  rewrite zeros_app by (unfold ALIGNMENT; lia). f_equal. by destruct (HD x Hx) as [->|(t & ->)].
Qed.

Lemma disk_range_data w files D a b t f mo : a <= b -> 0 <= mo -> files !! Z.to_nat t = Some f ->
  (forall x, a <= x < b -> D x = Some (Data t (mo + (x - a)))) ->
  disk_range w files D a b = bytes_at (contents w f) (mo * ALIGNMENT) ((b - a) * ALIGNMENT).
Proof.
  intros Hab Hmo Hf HD. apply (disk_range_ind _ _ _ _ _ (fun x => bytes_at (contents w f) (mo * ALIGNMENT) ((x - a) * ALIGNMENT)));
    [done|by rewrite Z.sub_diag|].
  intros x Hx. replace ((x + 1 - a) * ALIGNMENT) with ((x - a) * ALIGNMENT + ALIGNMENT) by lia.
  rewrite bytes_at_app by (unfold ALIGNMENT; lia). f_equal. rewrite (HD x Hx). simpl. rewrite Hf. f_equal. lia.
Qed.
End disk.

(** ** Reading *)

Lemma den_elem lo l hi (m : SegmentMapping) x : chain lo l hi -> m ∈ l -> offset m <= x < end_ m -> den l x = Some (block_at m x).
Proof.
  revert lo. induction l as [|m' l IH]; intros lo Hc Hm Hx; [by apply elem_of_nil in Hm|].
  simpl in Hc. destruct Hc as (H1 & H2 & H3). simpl. apply elem_of_cons in Hm as [->|Hm].
  - by assert (in_seg m' x = true) as -> by (by apply in_seg_true).
  - destruct (chain_elem _ _ _ _ H3 Hm) as (_ & Hge & _).
    assert (in_seg m' x = false) as -> by (apply in_seg_false; lia). by apply (IH _ H3).
Qed.

Lemma aligned_or a b : is_aligned (Z.lor a b) = true <-> a mod ALIGNMENT = 0 /\ b mod ALIGNMENT = 0.
Proof.
  unfold is_aligned. rewrite Z.eqb_eq, Z.land_lor_distr_l, Z.lor_eq_0_iff.
  change (ALIGNMENT - 1) with (Z.ones 9). by rewrite !Z.land_ones by lia.
Qed.

Section read.
Context {I W : Type} `{IFilesLaws W, MemoryIndexLaws I}.
Abbreviation F := (lsmt_file I W).
Abbreviation R := (reading I W).

(** Every mapped block is inside its file. *)
Definition blocks_in (D : Z -> option block) (files : list Z) (w : W) : Prop :=
  forall x t a, D x = Some (Data t a) ->
    exists f, files !! Z.to_nat t = Some f /\ 0 <= a /\ (a + 1) * ALIGNMENT <= len (contents w f).

Definition disk_of (s : F) (x : Z) : list Z := block_bytes (world s) (m_files s) (den (view (m_index s)) x).

Lemma set_io_id (f : F) : set_io (lsmt_io_cnt f) (lsmt_io_size f) f = f.
Proof. by destruct f. Qed.
Lemma set_io_twice (f : F) a b c d : set_io a b (set_io c d f) = set_io a b f.
Proof. done. Qed.

Lemma store_run at_ data (r : R) : 0 <= at_ -> at_ + len data <= len (r_buf r) ->
  store at_ data r = Some (tt, mkReading (r_file r) (splice at_ data (r_buf r)) (r_pos r)).
Proof. intros Ha Hl. unfold store. zcases. Qed.

Lemma read_zero_run m (r : R) : 0 <= seg_length m <= MAX_LENGTH -> 0 <= r_pos r ->
  r_pos r + seg_length m * ALIGNMENT <= len (r_buf r) ->
  read_zero m r = Some (0, mkReading (r_file r) (splice (r_pos r) (zeros (seg_length m * ALIGNMENT)) (r_buf r))
    (r_pos r + seg_length m * ALIGNMENT)).
Proof.
  intros Hm Hp Hb. unfold read_zero. unfold ALIGNMENT, MAX_LENGTH in *. rewrite u32_small by lia.
  rewrite !bind_run. unfold gets. rewrite !bind_run. rewrite store_run by (rewrite ?len_zeros; lia). done.
Qed.

Lemma read_into_run file count off at_ (r : R) : 0 <= count -> 0 <= off -> 0 <= at_ -> at_ + count <= len (r_buf r) ->
  let data := take (Z.to_nat count) (drop (Z.to_nat off) (contents (world (r_file r)) file)) in
  read_into file count off at_ r = Some (len data, mkReading (r_file r) (splice at_ data (r_buf r)) (r_pos r)).
Proof.
  intros Hc Ho Ha Hb data. unfold read_into. rewrite bind_run.
  destruct (pread_law (world (r_file r)) file count off Hc Ho) as (data' & Hd & Hrun). fold data in Hd. subst data'.
  unfold on_file, on_world, zoom. rewrite Hrun. cbn beta iota.
  assert (mkReading (set_world (world (r_file r)) (r_file r)) (r_buf r) (r_pos r) = r) as -> by (by destruct r as [[] ? ?]).
  rewrite bind_run, store_run; [done|done|]. unfold data, len in *. rewrite length_take. lia.
Qed.

Lemma read_data_run m f (r : R) : wf m -> zeroed m = false -> m_files (r_file r) !! Z.to_nat (tag m) = Some f ->
  mend m * ALIGNMENT <= len (contents (world (r_file r)) f) -> 0 <= r_pos r ->
  r_pos r + seg_length m * ALIGNMENT <= len (r_buf r) ->
  exists cnt size, read_data m r = Some (0, mkReading (set_io cnt size (r_file r))
    (splice (r_pos r) (bytes_at (contents (world (r_file r)) f) (moffset m * ALIGNMENT) (seg_length m * ALIGNMENT)) (r_buf r))
    (r_pos r + seg_length m * ALIGNMENT)).
Proof.
  intros Hw Hz Hf Hend Hp Hb. set (c := contents (world (r_file r)) f) in *.
  pose proof (contents_size (world (r_file r)) f) as Hsz. fold c in Hsz. unfold wf, mend, MAX_LENGTH in *. rewrite Hz in *.
  set (size := seg_length m * ALIGNMENT) in *. set (off := moffset m * ALIGNMENT) in *.
  assert (0 <= off /\ off + size < 2 ^ 63 /\ 0 <= size < 2 ^ 32) as (Ho & Hos & Hs) by (unfold off, size, ALIGNMENT in *; lia).
  unfold read_data. rewrite bind_run. cbn [gets]. rewrite bind_run. unfold lift at 1. rewrite Hf. cbn [fmap option_fmap option_map].
  rewrite bind_run. cbn [gets]. fold size off. rewrite u32_small, u64_small, s64_small by lia.
  rewrite bind_run, read_into_run by lia. fold c. cbv zeta.
  assert (len (take (Z.to_nat size) (drop (Z.to_nat off) c)) = size) as Hlen.
  { apply len_take. rewrite len_drop; unfold off, size, ALIGNMENT in *; lia. }
  pose proof (padded_read c off size Ho (proj1 Hs)) as Hpad. cbv zeta in Hpad. rewrite Hlen, Z.sub_diag in Hpad.
  unfold zeros in Hpad. simpl in Hpad. rewrite app_nil_r in Hpad. rewrite Hlen, Hpad, Z.ltb_irrefl.
  eexists _, _. reflexivity.
Qed.

(** [r'] is [r] after [data] was stored at its position. *)
Definition reads (r : R) (data : list Z) (r' : R) : Prop :=
  exists cnt size, r' = mkReading (set_io cnt size (r_file r)) (splice (r_pos r) data (r_buf r)) (r_pos r + len data).
Definition room (r : R) (n : Z) : Prop := 0 <= r_pos r /\ r_pos r + n <= len (r_buf r).

Lemma reads_nil r : room r 0 -> reads r [] r.
Proof.
  intros [Hp Hb]. exists (lsmt_io_cnt (r_file r)), (lsmt_io_size (r_file r)).
  rewrite set_io_id, splice_nil by lia. destruct r as [f b p]. unfold len. simpl. by rewrite Z.add_0_r.
Qed.

Lemma reads_room r d r' n : reads r d r' -> 0 <= n -> room r (len d + n) -> room r' n.
Proof.
  intros (cnt & size & ->) Hn [Hp Hb]. pose proof (len_nonneg d). unfold room. simpl. rewrite len_splice by lia. lia.
Qed.

Lemma reads_trans r d1 r1 d2 r2 : reads r d1 r1 -> reads r1 d2 r2 -> room r (len d1 + len d2) -> reads r (d1 ++ d2) r2.
Proof.
  intros (c1 & s1 & ->) (c2 & s2 & ->) [Hp Hb]. exists c2, s2. simpl. rewrite set_io_twice, splice_app, len_app by lia.
  f_equal. lia.
Qed.

Lemma reads_file r d r' : reads r d r' -> exists cnt size, r_file r' = set_io cnt size (r_file r).
Proof. intros (cnt & size & ->). eauto. Qed.

(** What a piece stores, and the condition that it can be read. *)
Definition piece_data (w : W) (files : list Z) (p : Segment + SegmentMapping) : list Z :=
  match p with
  | inl s => zeros (seg_length s * ALIGNMENT)
  | inr m => disk_range w files (fun x => Some (block_at m x)) (offset m) (end_ m)
  end.
Definition piece_ok (w : W) (files : list Z) (p : Segment + SegmentMapping) : Prop :=
  match p with
  | inl s => 0 <= seg_length s <= MAX_LENGTH
  | inr m => wf m /\ (zeroed m = false -> exists f, files !! Z.to_nat (tag m) = Some f /\ mend m * ALIGNMENT <= len (contents w f))
  end.

Lemma zeroed_data w files (m : SegmentMapping) : wf m -> zeroed m = true ->
  disk_range w files (fun x => Some (block_at m x)) (offset m) (end_ m) = zeros (seg_length m * ALIGNMENT).
Proof.
  intros Hw Hz. pose proof (wf_bounds _ Hw). rewrite disk_range_zeros; [|lia|].
  - do 2 f_equal. lia.
  - intros x _. right. unfold block_at. rewrite Hz. eauto.
Qed.

Lemma call_piece_read p r : let w := world (r_file r) in let files := m_files (r_file r) in
  piece_ok w files p -> room r (len (piece_data w files p)) ->
  exists r', call_piece read_zero read_data p r = Some (0, r') /\ reads r (piece_data w files p) r'.
Proof.
  intros w files Hok [Hp Hb]. destruct p as [s|m]; simpl in *.
  - rewrite len_zeros in Hb by (unfold ALIGNMENT; lia). rewrite read_zero_run by done. eexists. split; [done|].
    exists (lsmt_io_cnt (r_file r)), (lsmt_io_size (r_file r)). rewrite set_io_id, len_zeros by (unfold ALIGNMENT; lia). done.
  - destruct Hok as [Hw Hok]. pose proof (wf_bounds _ Hw) as Hm. rewrite len_disk_range in Hb by lia.
    replace (end_ m - offset m) with (seg_length m) in Hb by lia. destruct (zeroed m) eqn:Hz.
    + rewrite zeroed_data by done. rewrite read_zero_run by (unfold wf in Hw; lia). eexists. split; [done|].
      exists (lsmt_io_cnt (r_file r)), (lsmt_io_size (r_file r)). rewrite set_io_id, len_zeros by (unfold ALIGNMENT; lia). done.
    + destruct (Hok eq_refl) as (f & Hf & Hend). destruct (read_data_run m f r Hw Hz Hf Hend Hp Hb) as (cnt & size & Hrun).
      eexists. split; [exact Hrun|]. exists cnt, size. rewrite len_disk_range by lia.
      rewrite (disk_range_data _ _ _ _ _ (tag m) f (moffset m)); [|lia|unfold wf in Hw; lia|exact Hf|].
      * replace (end_ m - offset m) with (seg_length m) by lia. done.
      * intros x Hx. unfold block_at. by rewrite Hz.
Qed.


Lemma run_pieces_read ps r (k : M R Z) : let w := world (r_file r) in let files := m_files (r_file r) in
  Forall (piece_ok w files) ps -> room r (len (mjoin (piece_data w files <$> ps))) ->
  exists r', run_pieces read_zero read_data ps k r = k r' /\ reads r (mjoin (piece_data w files <$> ps)) r'.
Proof.
  intros w files Hps. revert r w files Hps. induction ps as [|p ps IH]; intros r w files Hps Hr.
  - exists r. split; [done|]. by apply reads_nil.
  - apply Forall_cons in Hps as [Hp Hps]. rewrite fmap_cons in *. rewrite len_mjoin_cons in Hr.
    pose proof (len_nonneg (piece_data w files p)). pose proof (len_nonneg (mjoin (piece_data w files <$> ps))).
    destruct (call_piece_read p r Hp) as (r1 & Hcall & Hr1); [fold w files; unfold room in *; lia|].
    destruct (reads_file _ _ _ Hr1) as (cnt & size & Hf).
    destruct (IH r1) as (r2 & Hrun & Hr2); rewrite ?Hf; [done|by eapply reads_room|].
    rewrite Hf in Hr2. exists r2. cbn [run_pieces]. rewrite bind_run, Hcall. split; [exact Hrun|].
    eapply reads_trans; [exact Hr1|exact Hr2|exact Hr].
Qed.

(** The data of the pieces is what the blocks hold. *)
Lemma pieces_data w files l from to_ : chain from l to_ ->
  mjoin (piece_data w files <$> pieces from l) ++ zeros ((to_ - end_of from l) * ALIGNMENT) = disk_range w files (den l) from to_.
Proof.
  revert from. induction l as [|m l IH]; intros from Hc.
  - simpl in Hc. simpl. unfold end_of. simpl. symmetry. apply disk_range_zeros; [done|by left].
  - pose proof Hc as Hfull. simpl in Hc. destruct Hc as (Hc1 & Hc2 & Hc3). pose proof (wf_bounds _ Hc2).
    pose proof (chain_le _ _ _ Hc3). cbn [pieces]. unfold end_of. cbn [foldl]. fold (end_of (end_ m) l).
    rewrite fmap_app, join_app, fmap_cons, mjoin_cons, <- !app_assoc, (IH _ Hc3).
    rewrite (disk_range_app _ _ _ from (offset m)), (disk_range_app _ _ _ (offset m) (end_ m)) by lia. f_equal; [|f_equal].
    + rewrite disk_range_zeros; [|lia|].
      * destruct (Z.ltb_spec from (offset m)); simpl; [by rewrite app_nil_r|]. unfold zeros. by rewrite Z2Nat.nonpos by (unfold ALIGNMENT; lia).
      * intros x Hx. left. cbn [den]. assert (in_seg m x = false) as -> by (apply in_seg_false; lia).
        apply (den_outside _ _ _ x Hc3). lia.
    + apply disk_range_ext. intros x Hx. symmetry. eapply den_elem; [exact Hfull|by left|done].
    + apply disk_range_ext. intros x Hx. cbn [den]. by assert (in_seg m x = false) as -> by (apply in_seg_false; lia).
Qed.

Lemma pieces_ok w files D l from to_ : chain from l to_ -> 0 <= from -> to_ - from <= MAX_LENGTH -> blocks_in D files w ->
  (forall x, from <= x < to_ -> D x = den l x) -> Forall (piece_ok w files) (pieces from l).
Proof.
  intros Hc H0' Hmax Hin HD. assert (forall m, m ∈ l -> piece_ok w files (inr m)) as Hl.
  { intros m Hm. destruct (chain_elem _ _ _ _ Hc Hm) as (Hw & Hlo & Hhi). pose proof (wf_bounds _ Hw). split; [done|]. intros Hz.
    destruct (Hin (end_ m - 1) (tag m) (mend m - 1)) as (f & Hf & _ & Hend).
    - rewrite HD, (den_elem _ _ _ m _ Hc Hm) by lia. unfold block_at, mend. rewrite Hz. do 2 f_equal. lia.
    - exists f. split; [done|]. lia. }
  clear Hin HD. revert from Hc H0' Hmax. induction l as [|m l IH]; intros from Hc H0' Hmax; [constructor|].
  simpl in Hc. destruct Hc as (Hc1 & Hc2 & Hc3). pose proof (wf_bounds _ Hc2). pose proof (chain_le _ _ _ Hc3).
  cbn [pieces]. apply Forall_app. split.
  - destruct (from <? offset m); [|constructor]. constructor; [simpl; lia|constructor].
  - constructor; [apply Hl; by left|]. apply IH; [intros; apply Hl; by right|done|lia|lia].
Qed.

Lemma visit_read l from to_ D (r : R) : let w := world (r_file r) in let files := m_files (r_file r) in
  chain from l to_ -> 0 <= from -> to_ - from <= MAX_LENGTH -> blocks_in D files w ->
  (forall x, from <= x < to_ -> D x = den l x) -> room r ((to_ - from) * ALIGNMENT) ->
  exists r', visit_range read_zero read_data from to_ l r = Some (0, r') /\ reads r (disk_range w files D from to_) r'.
Proof.
  intros w files Hc H0' Hmax Hin HD Hr. pose proof (pieces_ok w files D l from to_ Hc H0' Hmax Hin HD) as Hok.
  pose proof (chain_le _ _ _ Hc) as Hle.
  rewrite (disk_range_ext _ _ _ _ _ _ HD). pose proof (pieces_data w files l from to_ Hc) as Hd.
  pose proof (len_disk_range w files (den l) from to_ Hle) as Hlen. rewrite <- Hd in Hlen |- *.
  destruct (end_of_chain _ _ _ Hc) as [_ He]. rewrite len_app, len_zeros in Hlen by (unfold ALIGNMENT; lia).
  destruct (run_pieces_read (pieces from l) r (last_hole read_zero (end_of from l) to_) Hok) as (r1 & Hrun & Hr1).
  { unfold room, ALIGNMENT in *. fold w files. lia. }
  unfold visit_range. rewrite Hrun. fold w files in Hr1. unfold last_hole. rewrite bind_run.
  assert (room r1 ((to_ - end_of from l) * ALIGNMENT)) as Hroom.
  { eapply reads_room; [exact Hr1|unfold ALIGNMENT; lia|]. unfold room in *. lia. }
  destruct (Z.ltb_spec (end_of from l) to_).
  - destruct (call_piece_read (inl (mkSegment (end_of from l) (to_ - end_of from l))) r1) as (r2 & Hcall & Hr2).
    + simpl. lia.
    + simpl. rewrite len_zeros; [done|unfold ALIGNMENT; lia].
    + simpl in Hcall, Hr2. rewrite Hcall. exists r2. split; [done|]. eapply reads_trans; [exact Hr1|exact Hr2|].
      rewrite len_zeros by (unfold ALIGNMENT; lia). unfold room in *. lia.
  - exists r1. split; [done|]. unfold zeros. rewrite Z2Nat.nonpos by (unfold ALIGNMENT; lia). by rewrite app_nil_r.
Qed.

(** A file whose index and parameters allow every read. *)
Definition readable (f : F) : Prop :=
  valid_index (m_index f) /\ blocks_in (den (view (m_index f))) (m_files f) (world f) /\
  0 < MAX_IO_SIZE f <= MAX_LENGTH * ALIGNMENT /\ MAX_IO_SIZE f mod ALIGNMENT = 0.

(** What the blocks of a byte range hold. *)
Definition disk_bytes (f : F) (off count : Z) : list Z :=
  disk_range (world f) (m_files f) (den (view (m_index f))) (off / ALIGNMENT) ((off + count) / ALIGNMENT).

Definition range_ok (off count : Z) : Prop :=
  0 <= off /\ 0 <= count /\ off mod ALIGNMENT = 0 /\ count mod ALIGNMENT = 0 /\ off + count <= MAX_OFFSET * ALIGNMENT.

Lemma len_disk_bytes f off count : range_ok off count -> len (disk_bytes f off count) = count.
Proof.
  unfold range_ok, disk_bytes, ALIGNMENT. intros Hr. rewrite len_disk_range by dlia. unfold ALIGNMENT. dlia.
Qed.

Lemma disk_bytes_app f off c1 c2 : range_ok off (c1 + c2) -> 0 <= c1 -> 0 <= c2 -> c1 mod ALIGNMENT = 0 ->
  disk_bytes f off (c1 + c2) = disk_bytes f off c1 ++ disk_bytes f (off + c1) c2.
Proof.
  unfold range_ok, disk_bytes, ALIGNMENT. intros Hr Hc1 Hc2 Hc. rewrite (disk_range_app _ _ _ _ ((off + c1) / 512)) by dlia.
  by replace (off + (c1 + c2)) with (off + c1 + c2) by lia.
Qed.

Lemma pread_part_run count off r : readable (r_file r) -> range_ok off count -> count <= MAX_LENGTH * ALIGNMENT ->
  room r count -> exists r', pread_part count off r = Some (0, r') /\ reads r (disk_bytes (r_file r) off count) r'.
Proof.
  intros (Hv & Hin & _) Hr Hmax Hroom. pose proof Hr as (Ho & Hc & Hoa & Hca & Hend). unfold ALIGNMENT, MAX_OFFSET, MAX_LENGTH in *.
  unfold pread_part. rewrite bind_run. cbn [gets]. change ALIGNMENT with 512.
  rewrite u64_small, u50_small, u32_small, u14_small by dlia. set (s := mkSegment (off / 512) (count / 512)).
  assert (end_ s = (off + count) / 512) as He by (unfold end_, s; simpl; dlia).
  assert (seg_ok s) as Hs by (unfold seg_ok, MAX_LENGTH, MAX_OFFSET; rewrite He; unfold s; simpl; dlia).
  assert (foreach_segments read_zero read_data (m_index (r_file r)) s r = visit_range read_zero read_data (offset s) (end_ s)
    (clip (offset s) (end_ s) (view (m_index (r_file r)))) r) as ->.
  { apply foreach_loop_run; [done|done|unfold s; simpl; dlia]. }
  destruct (visit_read (clip (offset s) (end_ s) (view (m_index (r_file r)))) (offset s) (end_ s) (den (view (m_index (r_file r)))) r)
    as (r' & Hrun & Hreads).
  - eapply clip_chain; [by apply view_chain|]. rewrite He. unfold s. simpl. dlia.
  - unfold s. simpl. dlia.
  - rewrite He. unfold s, MAX_LENGTH. simpl. dlia.
  - done.
  - intros x Hx. rewrite den_clip. zcases.
  - replace ((end_ s - offset s) * ALIGNMENT) with count; [done|]. rewrite He. unfold s, ALIGNMENT. simpl. dlia.
  - exists r'. split; [exact Hrun|]. rewrite He in Hreads. exact Hreads.
Qed.

Lemma pread_call_run count off r : readable (r_file r) -> range_ok off count -> count <= MAX_LENGTH * ALIGNMENT ->
  room r count -> exists r', pread_call count off r = Some (count, r') /\ reads r (disk_bytes (r_file r) off count) r'.
Proof.
  intros Hf Hr Hmax Hroom. destruct (pread_part_run _ _ _ Hf Hr Hmax Hroom) as (r' & Hrun & Hreads). exists r'. split; [|done].
  unfold pread_call. assert (is_aligned (Z.lor count off) = true) as -> by (apply aligned_or; unfold range_ok in Hr; tauto).
  simpl. by rewrite bind_run, Hrun.
Qed.

Lemma pread_loop_run fuel count off r : readable (r_file r) -> range_ok off count -> room r count -> count < Z.of_nat fuel ->
  exists count' r', pread_loop fuel count off r = Some (Some (count', off + (count - count')), r') /\
    reads r (disk_bytes (r_file r) off (count - count')) r' /\ 0 <= count' <= count /\
    range_ok (off + (count - count')) count' /\ (count - count') mod ALIGNMENT = 0 /\ count' <= MAX_IO_SIZE (r_file r).
Proof.
  revert count off r. induction fuel as [|fuel IH]; intros count off r Hf Hr Hroom Hfuel; [unfold range_ok in Hr; lia|].
  pose proof Hf as (_ & _ & Hmax & Hma). cbn [pread_loop]. rewrite bind_run. cbn [gets].
  set (max := MAX_IO_SIZE (r_file r)) in *. destruct (Z.ltb_spec max count) as [Hlt|Hge].
  - assert (range_ok off max) as Hr1 by (unfold range_ok in *; lia).
    destruct (pread_call_run max off r Hf Hr1) as (r1 & Hrun & Hr1'); [lia|unfold room in *; lia|].
    rewrite bind_run, Hrun, Z.ltb_irrefl. destruct (reads_file _ _ _ Hr1') as (cnt & size & Hf1).
    assert (room r1 (count - max)) as Hroom1.
    { eapply reads_room; [exact Hr1'|lia|]. rewrite len_disk_bytes by done. by replace (max + (count - max)) with count by lia. }
    destruct (IH (count - max) (off + max) r1) as (c' & r2 & Hrun2 & Hr2 & Hc' & Hr' & Hal & Hmax');
      [by rewrite Hf1|unfold range_ok, ALIGNMENT in *; dlia|exact Hroom1|lia|].
    rewrite Hf1 in Hr2, Hmax'. exists c', r2. split; [|split_and!; [|lia|lia| | |exact Hmax']].
    + rewrite Hrun2. by replace (off + (count - c')) with (off + max + (count - max - c')) by lia.
    + replace (count - c') with (max + (count - max - c')) by lia. rewrite disk_bytes_app; [|unfold range_ok, ALIGNMENT in *; dlia|lia|lia|done].
      eapply reads_trans; [exact Hr1'|exact Hr2|]. change (disk_bytes (set_io cnt size (r_file r))) with (disk_bytes (r_file r)).
      rewrite !len_disk_bytes by (done || (unfold range_ok, ALIGNMENT in *; dlia)). unfold room in *. lia.
    + by replace (off + (count - c')) with (off + max + (count - max - c')) by lia.
    + unfold range_ok, ALIGNMENT in *. dlia.
  - exists count, r. rewrite Z.sub_diag, Z.add_0_r. split; [done|]. unfold disk_bytes. rewrite Z.add_0_r, disk_range_nil.
    split_and!; [apply reads_nil; unfold room, range_ok in *; lia|unfold range_ok in Hr; lia|lia|done|done|done].
Qed.

Lemma pread_run count off f buf : readable f -> range_ok off count -> len buf = count ->
  exists f' cnt size, pread count off (mkReading f buf 0) = Some (count, mkReading f' (disk_bytes f off count) count) /\
    f' = set_io cnt size f.
Proof.
  intros Hf Hr Hl. set (r := mkReading f buf 0).
  assert (room r count) as Hroom by (unfold room, r, range_ok in *; simpl; lia).
  destruct (pread_loop_run (S (Z.to_nat count)) count off r Hf Hr Hroom) as (c' & r1 & Hrun & Hr1 & Hc' & Hr' & Hal & Hmax);
    [unfold range_ok in Hr; lia|].
  destruct (reads_file _ _ _ Hr1) as (cnt & size & Hf1). pose proof Hf as (_ & _ & Hio & _).
  assert (range_ok off (count - c')) as Hrc by (unfold range_ok in *; lia).
  destruct (pread_part_run c' (off + (count - c')) r1) as (r2 & Hrun2 & Hr2);
    [by rewrite Hf1|exact Hr'|unfold r in Hmax; simpl in Hmax; lia| |].
  { eapply reads_room; [exact Hr1|lia|]. rewrite len_disk_bytes by done. by replace (count - c' + c') with count by lia. }
  rewrite Hf1 in Hr2. change (disk_bytes (set_io cnt size (r_file r))) with (disk_bytes f) in Hr2.
  assert (reads r (disk_bytes f off count) r2) as (cnt' & size' & Hfin).
  { replace count with (count - c' + c') at 1 by lia. rewrite disk_bytes_app; [|by replace (count - c' + c') with count by lia|lia|lia|done].
    eapply reads_trans; [exact Hr1|exact Hr2|]. change (r_file r) with f. rewrite !len_disk_bytes by done. unfold room in *. lia. }
  exists (set_io cnt' size' f), cnt', size'. split; [|done]. unfold pread.
  assert (is_aligned (Z.lor count off) = true) as -> by (apply aligned_or; unfold range_ok in Hr; tauto).
  cbn [negb]. rewrite bind_run. fold r. rewrite Hrun. rewrite bind_run, Hrun2. simpl. rewrite Hfin. unfold r. simpl.
  rewrite len_disk_bytes by done. do 3 f_equal. rewrite splice_in by (rewrite ?len_disk_bytes by done; lia).
  rewrite len_disk_bytes by done. simpl. rewrite drop_ge by (unfold len in Hl; lia). by rewrite app_nil_r.
Qed.
End read.
(** ** Bytes of mappings *)

(** Every field is in the range of its bit field. *)
Definition fields_ok (m : SegmentMapping) : Prop :=
  0 <= offset m < 2 ^ 50 /\ 0 <= seg_length m < 2 ^ 14 /\ 0 <= moffset m < 2 ^ 55 /\ 0 <= tag m < 2 ^ 8.

Lemma wf_fields m : wf m -> fields_ok m.
Proof. unfold wf, fields_ok, mend, end_, MAX_LENGTH, MAX_OFFSET. destruct (zeroed m); lia. Qed.
Lemma invalid_fields : fields_ok invalid_mapping.
Proof. unfold fields_ok. simpl. unfold INVALID_OFFSET, MAX_OFFSET. lia. Qed.

Lemma length_mapping_bytes m : length (mapping_bytes m) = 16%nat.
Proof. unfold mapping_bytes. by rewrite length_app, !length_le_bytes. Qed.

Lemma parse_bytes m : fields_ok m -> parse_mapping (mapping_bytes m) = m.
Proof.
  intros (Ho & Hl & Hmo & Ht). unfold parse_mapping, mapping_bytes.
  set (w0 := offset m + 2 ^ 50 * seg_length m). set (z := if zeroed m then 1 else 0).
  set (w1 := moffset m + 2 ^ 55 * z + 2 ^ 56 * tag m).
  assert (0 <= z <= 1) as Hz by (unfold z; destruct (zeroed m); lia).
  rewrite (take_app_length' _ _ 8), (drop_app_length' _ _ 8) by (by rewrite length_le_bytes).
  rewrite (take_ge (le_bytes 8 w1)) by (by rewrite length_le_bytes).
  rewrite !le_value_bytes by (unfold w0, w1; lia). change (8 * Z.of_nat 8) with 64.
  rewrite (Z.mod_small w0 (2 ^ 64)), (Z.mod_small w1 (2 ^ 64)) by (unfold w0, w1; lia).
  assert (w0 mod 2 ^ 50 = offset m) as -> by (unfold w0; dlia).
  assert (w0 / 2 ^ 50 = seg_length m) as -> by (unfold w0; dlia).
  assert (w1 mod 2 ^ 55 = moffset m) as -> by (unfold w1; dlia).
  assert (w1 / 2 ^ 56 = tag m) as -> by (unfold w1; dlia).
  assert ((w1 / 2 ^ 55) mod 2 = z) as -> by (unfold w1; dlia).
  destruct m as [[o l] mo zr t]. unfold z. simpl. by destruct zr.
Qed.

Lemma mappings_bytes_cons m l : mappings_bytes (m :: l) = mapping_bytes m ++ mappings_bytes l.
Proof. done. Qed.
Lemma mappings_bytes_app a b : mappings_bytes (a ++ b) = mappings_bytes a ++ mappings_bytes b.
Proof. unfold mappings_bytes. apply bind_app. Qed.
Lemma len_mappings_bytes l : len (mappings_bytes l) = 16 * Z.of_nat (length l).
Proof.
  induction l as [|m l IH]; [done|]. rewrite mappings_bytes_cons, len_app, IH. unfold len. rewrite length_mapping_bytes.
  simpl length. lia.
Qed.

Lemma parse_mappings_bytes l rest : Forall fields_ok l -> parse_mappings (length l) (mappings_bytes l ++ rest) = l.
Proof.
  intros Hl. revert rest. induction Hl as [|m l Hm Hl IH]; intros rest; [done|]. cbn [length parse_mappings].
  rewrite mappings_bytes_cons, <- app_assoc.
  rewrite (take_app_length' _ _ 16), (drop_app_length' _ _ 16) by (by rewrite length_mapping_bytes).
  by rewrite parse_bytes, IH.
Qed.

(** ** Writing *)

(** The records of an index file that are mappings, and what they amount to. *)
Definition real (l : list SegmentMapping) : list SegmentMapping := filter (fun m : SegmentMapping => offset m <> INVALID_OFFSET) l.

Lemma real_app a b : real (a ++ b) = real a ++ real b.
Proof. apply filter_app. Qed.
Lemma real_invalid n : real (replicate n invalid_mapping) = [].
Proof. induction n as [|n IH]; [done|]. simpl. unfold real in *. rewrite filter_cons_False; [done|]. simpl. auto. Qed.
Lemma real_wf m : wf m -> real [m] = [m].
Proof. intros Hm%wf_bounds. unfold real. rewrite filter_cons_True; [done|]. unfold INVALID_OFFSET. lia. Qed.

Section write.
Context {I W : Type} `{IFilesLaws W, MemoryIndex0Laws I}.
Abbreviation F := (lsmt_file I W).

Definition pending (s : F) : list SegmentMapping := take (Z.to_nat (nmapping s)) (m_stacked_mappings s).
Definition batch (s : F) : Z := Z.max 1 (Z.of_nat (length (m_stacked_mappings s))).

(** The index file [fi] of [s] holds [recs] after [c0]. *)
Definition index_log (fi : Z) (c0 : list Z) (s : F) (recs : list SegmentMapping) : Prop :=
  m_findex s = Some fi /\ contents (world s) fi = c0 ++ mappings_bytes recs.

(** The buffer of mappings is not overrun. *)
Definition stack_ok (s : F) : Prop :=
  m_stacked_mappings s = [] /\ nmapping s = 0 \/ 0 <= nmapping s < Z.of_nat (length (m_stacked_mappings s)).

(** [s'] is [s] with another buffer of mappings and other contents of [fi]. *)
Record same_but_log (fi : Z) (s s' : F) : Prop := {
  sl_index : m_index s' = m_index s;
  sl_files : m_files s' = m_files s;
  sl_findex : m_findex s' = m_findex s;
  sl_tag : m_rw_tag s' = m_rw_tag s;
  sl_vsize : m_vsize s' = m_vsize s;
  sl_io : MAX_IO_SIZE s' = MAX_IO_SIZE s;
  sl_stack : length (m_stacked_mappings s') = length (m_stacked_mappings s);
  sl_contents g : g <> fi -> contents (world s') g = contents (world s) g
}.

Lemma append_run file buf (s : F) : len (contents (world s) file) + len buf < 2 ^ 63 ->
  exists w', append file buf s = Some (len (contents (world s) file), set_world w' s) /\
    contents w' file = contents (world s) file ++ buf /\ forall g, g <> file -> contents w' g = contents (world s) g.
Proof.
  intros Hl. destruct (append_law (world s) file buf Hl) as (w1 & w2 & Hseek & Hsame & Hwrite & Hc & Ho).
  exists w2. split; [|done]. unfold append, on_world, zoom. rewrite !bind_run. rewrite Hseek. rewrite bind_run.
  change (world (set_world w1 s)) with w1. rewrite Hwrite, Z.ltb_irrefl. done.
Qed.

Lemma group_commit_run fi c0 (s : F) recs : index_log fi c0 s recs -> 0 < len c0 -> 0 < nmapping s ->
  nmapping s <= Z.of_nat (length (m_stacked_mappings s)) -> len (contents (world s) fi) + 16 * batch s < 2 ^ 63 ->
  exists s' recs', do_group_commit_mappings s = Some (0, s') /\ same_but_log fi s s' /\ index_log fi c0 s' recs' /\
    real recs' = real (recs ++ pending s) /\ nmapping s' = 0 /\
    (Forall fields_ok (recs ++ pending s) -> Forall fields_ok recs') /\
    len (contents (world s') fi) <= len (contents (world s) fi) + 16 * batch s.
Proof.
  intros [Hfi Hlog] Hc0 Hn Hnl Hsz. unfold do_group_commit_mappings. rewrite bind_run. cbn [gets].
  destruct (Z.ltb_spec 0 (nmapping s)); [|lia]. rewrite Z.max_r by lia.
  set (stacked := take (Z.to_nat (nmapping s)) (m_stacked_mappings s) ++ _).
  assert (length stacked = length (m_stacked_mappings s)) as Hls.
  { unfold stacked. rewrite length_app, length_take, length_replicate. lia. }
  rewrite bind_run. cbn [modify]. rewrite Hls, Z.ltb_irrefl, bind_run. cbn [set_stacked m_findex]. unfold lift at 1. rewrite Hfi.
  cbn [fmap option_fmap option_map]. set (s1 := set_stacked stacked (Z.of_nat (length (m_stacked_mappings s))) s).
  destruct (append_run fi (mappings_bytes stacked) s1) as (w' & Hrun & Hc & Ho).
  { change (world s1) with (world s). rewrite len_mappings_bytes, Hls. unfold batch in Hsz. lia. }
  rewrite bind_run, Hrun. change (world s1) with (world s) in *.
  assert (0 < len (contents (world s) fi)) as Hpos.
  { rewrite Hlog, len_app. pose proof (len_nonneg (mappings_bytes recs)). lia. }
  destruct (Z.eqb_spec (len (contents (world s) fi)) 0); [lia|].
  eexists _, (recs ++ stacked). split; [reflexivity|]. split_and!.
  - by split.
  - split; [done|]. simpl. by rewrite Hc, Hlog, mappings_bytes_app, app_assoc.
  - unfold stacked, pending. by rewrite !real_app, real_invalid, app_nil_r.
  - done.
  - intros [Hr Hp]%Forall_app. apply Forall_app. split; [done|]. apply Forall_app. split; [done|].
    apply Forall_replicate, invalid_fields.
  - simpl. rewrite Hc, len_app, len_mappings_bytes, Hls. unfold batch. lia.
Qed.

Lemma append_index_run fi c0 (s : F) recs m : index_log fi c0 s recs -> 0 < len c0 -> stack_ok s -> wf m ->
  len (contents (world s) fi) + 16 * batch s < 2 ^ 63 ->
  exists s' recs', append_index m s = Some (tt, s') /\ same_but_log fi s s' /\ index_log fi c0 s' recs' /\
    real (recs' ++ pending s') = real (recs ++ pending s) ++ [m] /\ stack_ok s' /\
    (Forall fields_ok (recs ++ pending s) -> Forall fields_ok (recs' ++ pending s')) /\
    len (contents (world s') fi) <= len (contents (world s) fi) + 16 * batch s.
Proof.
  intros Hil Hc0 Hst Hm Hsz. pose proof Hil as [Hfi Hlog]. unfold append_index. rewrite bind_run. cbn [gets]. rewrite Hfi.
  destruct (m_stacked_mappings s) as [|x st] eqn:Hs.
  - destruct Hst as [[_ Hn]|Hst]; [|rewrite Hs in Hst; simpl in Hst; lia].
    destruct (append_run fi (mapping_bytes m) s) as (w' & Hrun & Hc & Ho).
    { unfold batch in Hsz. rewrite Hs in Hsz. unfold len at 2. rewrite length_mapping_bytes. simpl in Hsz. lia. }
    rewrite bind_run, Hrun. eexists _, (recs ++ [m]). split; [reflexivity|].
    assert (forall s' : F, m_stacked_mappings s' = [] -> pending s' = []) as Hnil by (intros s' Hs'; unfold pending; by rewrite Hs', take_nil).
    split_and!.
    + by split.
    + split; [done|]. cbn [world set_world]. rewrite Hc, Hlog, mappings_bytes_app, app_assoc, (mappings_bytes_cons m []).
      change (mappings_bytes []) with (@nil Z). by rewrite (app_nil_r (mapping_bytes m)).
    + by rewrite !Hnil, !app_nil_r, real_app, real_wf.
    + by left.
    + rewrite !Hnil, !app_nil_r by done. intros Hr. apply Forall_app. split; [done|]. by constructor; [apply wf_fields|].
    + simpl. rewrite Hc, len_app. unfold len at 2, batch. rewrite length_mapping_bytes. lia.
  - destruct Hst as [[Hs' _]|Hst]; [congruence|]. rewrite Hs in Hst. set (n := nmapping s) in *.
    destruct (Z.leb_spec (Z.of_nat (length (x :: st))) n); [lia|]. rewrite bind_run. cbn [modify].
    set (s1 := set_stacked (<[Z.to_nat n := m]> (x :: st)) (n + 1) s).
    assert (length (m_stacked_mappings s1) = length (x :: st)) as Hl1 by (unfold s1; simpl m_stacked_mappings; by rewrite length_insert).
    assert (batch s1 = batch s) as Hb1 by (unfold batch; by rewrite Hl1, Hs).
    assert (pending s1 = pending s ++ [m]) as Hp1.
    { unfold pending. rewrite Hs. unfold s1. cbn [nmapping m_stacked_mappings set_stacked]. fold n.
      replace (Z.to_nat (n + 1)) with (S (Z.to_nat n)) by lia.
      rewrite (take_S_r _ _ m) by (apply list_lookup_insert_eq; lia). by rewrite take_insert_ge by lia. }
    assert (Forall fields_ok (recs ++ pending s) -> Forall fields_ok (recs ++ pending s1)) as Hfo.
    { rewrite Hp1, app_assoc. intros Hr. apply Forall_app. split; [done|]. by constructor; [apply wf_fields|]. }
    assert (real (recs ++ pending s1) = real (recs ++ pending s) ++ [m]) as Hreal.
    { rewrite Hp1, app_assoc, real_app, real_wf by done. done. }
    destruct (Z.eqb_spec (n + 1) (Z.of_nat (length (x :: st)))) as [Hfull|Hfull].
    + destruct (group_commit_run fi c0 s1 recs) as (s2 & recs2 & Hrun & Hsame & Hlog2 & Hr2 & Hn2 & Hf2 & Hsz2);
        [done|done|unfold s1; cbn [nmapping set_stacked]; lia|rewrite Hl1; unfold s1; cbn [nmapping set_stacked]; lia|rewrite Hb1; exact Hsz|].
      rewrite bind_run, Hrun. exists s2, recs2. split; [done|].
      assert (pending s2 = []) as Hp2 by (unfold pending; by rewrite Hn2). rewrite Hp2, !app_nil_r.
      destruct Hsame as [E1 E2 E3 E4 E5 E6 E7 E8]. split_and!.
      * split; [done..|by rewrite E7, Hl1, Hs|done].
      * done.
      * by rewrite Hr2.
      * right. rewrite Hn2, E7, Hl1. simpl. lia.
      * auto.
      * rewrite <- Hb1. exact Hsz2.
    + exists s1, recs. split; [done|]. split_and!; [|done|done| |done|unfold batch; unfold s1; simpl world; lia].
      * split; [done..|by rewrite Hl1, Hs|done].
      * right. rewrite Hl1. unfold s1. cbn [nmapping set_stacked]. lia.
Qed.
Definition rw_len (s : F) : Z :=
  match m_files s !! Z.to_nat (m_rw_tag s) with Some f => len (contents (world s) f) | None => 0 end.

(** A record refers to the data area of the top layer. *)
Definition placed (s : F) (m : SegmentMapping) : Prop :=
  wf m /\ tag m = m_rw_tag s /\ SPACE <= moffset m * ALIGNMENT /\ mend m * ALIGNMENT <= rw_len s.

Lemma placed_grow (s s' : F) l : m_rw_tag s' = m_rw_tag s -> rw_len s <= rw_len s' -> Forall (placed s) l -> Forall (placed s') l.
Proof. intros Ht Hl Hf. apply (Forall_impl _ _ _ Hf). intros m (Hw & Htag & Hlo & Hhi). unfold placed. rewrite Ht. split_and!; [done|done|done|lia]. Qed.

(** The invariant of a writable file whose index file [fi] started as [c0]; the
    index is what the records of the index file and of the buffer amount to, over
    what [base] holds. *)
Record rw_inv (fi : Z) (c0 : list Z) (base : Z -> option block) (s : F) : Prop := {
  ri_index : valid_index (m_index s);
  ri_blocks : blocks_in (den (view (m_index s))) (m_files s) (world s);
  ri_io : 0 < MAX_IO_SIZE s <= MAX_LENGTH * ALIGNMENT /\ MAX_IO_SIZE s mod ALIGNMENT = 0;
  ri_tag : 0 <= m_rw_tag s < 256;
  ri_rw : exists f, m_files s !! Z.to_nat (m_rw_tag s) = Some f /\
    SPACE <= len (contents (world s) f) /\ len (contents (world s) f) mod ALIGNMENT = 0;
  ri_findex : (fi ∉ m_files s) /\ 0 < len c0;
  ri_stack : stack_ok s;
  ri_log : exists recs, index_log fi c0 s recs /\ Forall fields_ok (recs ++ pending s) /\ Forall (placed s) (real (recs ++ pending s)) /\
    forall x, den (view (m_index s)) x =
      match den (reverse (real (recs ++ pending s))) x with Some b => Some b | None => base x end
}.

(** What stays the same, and how much the files may grow. *)
Record same_setup (s s' : F) : Prop := {
  ss_files : m_files s' = m_files s;
  ss_tag : m_rw_tag s' = m_rw_tag s;
  ss_io : MAX_IO_SIZE s' = MAX_IO_SIZE s;
  ss_batch : batch s' = batch s;
  ss_grow g : g ∈ m_files s -> exists ext, contents (world s') g = contents (world s) g ++ ext
}.

Lemma same_setup_trans (s1 s2 s3 : F) : same_setup s1 s2 -> same_setup s2 s3 -> same_setup s1 s3.
Proof.
  intros [A1 A2 A3 A4 A5] [B1 B2 B3 B4 B5]. split; [congruence|congruence|congruence|congruence|]. intros g Hg.
  destruct (A5 g Hg) as (e1 & E1). destruct (B5 g) as (e2 & E2); [by rewrite A1|]. exists (e1 ++ e2).
  by rewrite E2, E1, app_assoc.
Qed.

(** A state with the same contents of its files. *)
Lemma same_setup_same (s s' : F) : m_files s' = m_files s -> m_rw_tag s' = m_rw_tag s -> MAX_IO_SIZE s' = MAX_IO_SIZE s ->
  batch s' = batch s -> (forall g, g ∈ m_files s -> contents (world s') g = contents (world s) g) -> same_setup s s'.
Proof. intros E1 E2 E3 E4 Hc. split; [done|done|done|done|]. intros g Hg. exists []. rewrite app_nil_r. auto. Qed.
Definition fi_len (fi : Z) (s : F) : Z := len (contents (world s) fi).
Definition space (fi : Z) (s : F) (bytes records : Z) : Prop :=
  rw_len s + bytes < 2 ^ 63 /\ fi_len fi s + records * (16 * batch s) < 2 ^ 63.

(** A block whose file only grows holds the same bytes. *)
Lemma block_grow (D : Z -> option block) files (w w' : W) x : blocks_in D files w ->
  (forall f, f ∈ files -> exists ext, contents w' f = contents w f ++ ext) ->
  block_bytes w' files (D x) = block_bytes w files (D x).
Proof.
  intros Hin Hg. destruct (D x) as [[t|t a]|] eqn:Hx; [done| |done]. simpl.
  destruct (Hin x t a Hx) as (f & Hf & Ha & Hl). rewrite Hf.
  destruct (Hg f) as (ext & ->); [by apply list_elem_of_lookup_2 in Hf|]. apply bytes_at_prefix; unfold ALIGNMENT in *; lia.
Qed.

Lemma blocks_grow (D : Z -> option block) files (w w' : W) : blocks_in D files w ->
  (forall f, f ∈ files -> exists ext, contents w' f = contents w f ++ ext) -> blocks_in D files w'.
Proof.
  intros Hin Hg x t a Hx. destruct (Hin x t a Hx) as (f & Hf & Ha & Hl). exists f. split; [done|]. split; [done|].
  destruct (Hg f) as (ext & ->); [by apply list_elem_of_lookup_2 in Hf|]. rewrite len_app. pose proof (len_nonneg ext). lia.
Qed.

Lemma den_reverse_snoc l m x : den (reverse (l ++ [m])) x = if in_seg m x then Some (block_at m x) else den (reverse l) x.
Proof. rewrite reverse_app. simpl. by destruct (in_seg m x). Qed.

(** Inserting a mapping and recording it. *)
Lemma record_run fi c0 base s m : rw_inv fi c0 base s -> wf m -> placed s m -> space fi s 0 1 ->
  (zeroed m = false -> exists f, m_files s !! Z.to_nat (tag m) = Some f /\ mend m * ALIGNMENT <= len (contents (world s) f)) ->
  exists s1 s', insert_index m s = Some (tt, s1) /\ append_index m s1 = Some (tt, s') /\ rw_inv fi c0 base s' /\
    same_setup s s' /\ (forall x, den (view (m_index s')) x = if in_seg m x then Some (block_at m x) else den (view (m_index s)) x) /\
    m_vsize s' = m_vsize s /\ (forall g, g <> fi -> contents (world s') g = contents (world s) g) /\
    fi_len fi s' <= fi_len fi s + 16 * batch s.
Proof.
  intros [Hv Hin Hio Htag Hrw [Hni Hc0] Hst (recs & Hlog & Hfo & Hpl & Hden)] Hm Hplm [_ Hsp] Hdata.
  destruct (insert_law m (m_index s) Hv Hm) as (i' & Hins & Hv' & Hden').
  set (s1 := set_index i' s).
  destruct (append_index_run fi c0 s1 recs m Hlog Hc0 Hst Hm) as (s' & recs' & Hrun & Hsame & Hlog' & Hreal & Hst' & Hfo' & Hsz).
  { change (batch s1) with (batch s). change (world s1) with (world s). unfold fi_len in Hsp. lia. }
  destruct Hsame as [E1 E2 E3 E4 E5 E6 E7 E8]. exists s1, s'.
  assert (forall x, den (view (m_index s')) x = if in_seg m x then Some (block_at m x) else den (view (m_index s)) x) as Hview.
  { intros x. rewrite E1. apply Hden'. }
  assert (forall f, f ∈ m_files s -> contents (world s') f = contents (world s) f) as Hc.
  { intros f Hf. apply E8. intros ->. done. }
  split_and!; [|exact Hrun| | |exact Hview|exact E5|exact E8|exact Hsz].
  - unfold insert_index. rewrite bind_run. cbn [gets]. rewrite bind_run. unfold lift. rewrite Hins. done.
  - split.
    + by rewrite E1.
    + rewrite E2. intros x t a Hx. rewrite Hview in Hx. destruct (in_seg m x) eqn:Hx'.
      * apply in_seg_true in Hx'. unfold block_at in Hx. destruct (zeroed m) eqn:Hz; [done|]. injection Hx as <- <-.
        destruct (Hdata eq_refl) as (f & Hf & Hend). exists f. split; [done|]. rewrite Hc by (by apply list_elem_of_lookup_2 in Hf).
        unfold wf, mend, end_ in *. rewrite Hz in *. unfold ALIGNMENT in *. lia.
      * destruct (Hin x t a Hx) as (f & Hf & Ha & Hl). exists f. rewrite Hc by (by apply list_elem_of_lookup_2 in Hf). done.
    + by rewrite E6.
    + by rewrite E4.
    + rewrite E2, E4. destruct Hrw as (f & Hf & Hl). exists f. rewrite Hc by (by apply list_elem_of_lookup_2 in Hf). done.
    + by rewrite E2.
    + exact Hst'.
    + exists recs'. split; [done|]. split; [by apply Hfo'|]. split.
      { rewrite Hreal. apply (placed_grow s); [done| |by apply Forall_app; split; [|apply Forall_singleton]].
        unfold rw_len. rewrite E2, E4. destruct Hrw as (f & Hf & _). cbn [m_files m_rw_tag set_index s1].
        rewrite Hf. by rewrite Hc by (by apply list_elem_of_lookup_2 in Hf). }
      intros x. rewrite Hview, Hreal, den_reverse_snoc.
      destruct (in_seg m x); [done|]. apply Hden.
  - apply same_setup_same; [done|done|done| |done]. unfold batch. by rewrite E7.
Qed.

(** The disk after a write of [data] at byte [off]. *)
Definition overwrite (d : Z -> list Z) (off : Z) (data : list Z) (x : Z) : list Z :=
  if (off / ALIGNMENT <=? x) && (x <? (off + len data) / ALIGNMENT)
  then take (Z.to_nat ALIGNMENT) (drop (Z.to_nat ((x - off / ALIGNMENT) * ALIGNMENT)) data) else d x.

(** What a step that writes [data] at [off] establishes. *)
Record written (fi : Z) (c0 : list Z) (base : Z -> option block) (s s' : F) (off : Z) (data : list Z) (grow records : Z) : Prop := {
  wr_inv : rw_inv fi c0 base s';
  wr_setup : same_setup s s';
  wr_disk x : disk_of s' x = overwrite (disk_of s) off data x;
  wr_rw : rw_len s' = rw_len s + grow;
  wr_fi : fi_len fi s' <= fi_len fi s + records * (16 * batch s)
}.

Lemma append_data fi c0 base s f buf w' : rw_inv fi c0 base s -> m_files s !! Z.to_nat (m_rw_tag s) = Some f ->
  len buf mod ALIGNMENT = 0 -> contents w' f = contents (world s) f ++ buf ->
  (forall g, g <> f -> contents w' g = contents (world s) g) ->
  rw_inv fi c0 base (set_world w' s) /\ forall x, disk_of (set_world w' s) x = disk_of s x.
Proof.
  intros [Hv Hin Hio Htag (f' & Hf' & Hpos & Hal) [Hni Hc0] Hst (recs & [Hfi Hlog] & Hfo & Hpl & Hden)] Hf Hbuf Hc Ho.
  assert (f' = f) as -> by congruence.
  assert (forall g, exists ext, contents w' g = contents (world s) g ++ ext) as Hext.
  { intros g. destruct (decide (g = f)) as [->|]; [by exists buf|]. exists []. rewrite app_nil_r. by apply Ho. }
  split; [|intros x; apply (block_grow _ _ _ _ _ Hin); auto]. split; try done.
  - apply (blocks_grow _ _ _ _ Hin). auto.
  - exists f. split; [done|]. cbn [world set_world]. rewrite Hc, len_app. pose proof (len_nonneg buf). unfold ALIGNMENT in *. split; [lia|dlia].
  - exists recs. split; [|split; [done|split; [|done]]].
    + split; [done|]. cbn [world set_world]. rewrite Ho; [done|]. intros ->. apply Hni. by apply list_elem_of_lookup_2 in Hf.
    + apply (placed_grow s); [done| |done]. unfold rw_len. cbn [m_files m_rw_tag world set_world]. rewrite Hf, Hc, len_app.
      pose proof (len_nonneg buf). lia.
Qed.

Lemma rw_inv_fields fi c0 base s v d : rw_inv fi c0 base s -> rw_inv fi c0 base (set_data_offset d (set_vsize v s)).
Proof. intros [? ? ? ? ? ? ? ?]. by split. Qed.

(** The mapping of a write of [n] bytes at [off], stored at [pos] of the data file. *)
Definition write_map (s : F) (off n pos : Z) : SegmentMapping :=
  mkMapping (mkSegment (off / ALIGNMENT) (n / ALIGNMENT)) (pos / ALIGNMENT) false (m_rw_tag s).

Lemma write_map_ok s off n pos : range_ok off n -> 0 < n <= MAX_LENGTH * ALIGNMENT -> 0 <= pos -> pos + n < 2 ^ 63 ->
  pos mod ALIGNMENT = 0 -> 0 <= m_rw_tag s < 256 ->
  let m := write_map s off n pos in
  wf m /\ end_ m = (off + n) / ALIGNMENT /\ mend m * ALIGNMENT = pos + n /\ with_tag (u8 (m_rw_tag s)) (with_tag 0 m) = m /\
  SegmentMapping_new (u64 off / ALIGNMENT) (u32 n / ALIGNMENT) (u64 pos / ALIGNMENT) 0 = Some (with_tag 0 m).
Proof.
  intros (Ho & Hc & Hoa & Hca & Hend) Hl Hp Hpn Hpa Ht m. unfold m, write_map, wf, mend, end_. simpl.
  unfold ALIGNMENT, MAX_LENGTH, MAX_OFFSET in *. split; [dlia|]. split; [dlia|]. split; [dlia|]. split.
  - unfold with_tag. simpl. f_equal. by apply Z.mod_small.
  - unfold SegmentMapping_new, MAX_LENGTH. rewrite !u64_small, (u32_small n) by lia. rewrite u32_small by dlia.
    destruct (Z.ltb_spec (2 ^ 14 - 1) (n / 512)); [dlia|]. rewrite u50_small, u14_small, u55_small by dlia. done.
Qed.

(** A block of appended data. *)
Lemma appended_block c buf k : len c mod ALIGNMENT = 0 -> 0 <= k -> (k + 1) * ALIGNMENT <= len buf ->
  bytes_at (c ++ buf) ((len c / ALIGNMENT + k) * ALIGNMENT) ALIGNMENT =
  take (Z.to_nat ALIGNMENT) (drop (Z.to_nat (k * ALIGNMENT)) buf).
Proof.
  unfold ALIGNMENT. intros Hc Hk Hl. symmetry. apply bytes_at_eq.
  - apply len_take. rewrite len_drop; lia.
  - intros i Hi. rewrite !nth_lookup, lookup_take, lookup_drop.
    destruct (decide (Z.to_nat i < Z.to_nat 512)%nat); [|lia].
    rewrite lookup_app_r by (unfold len in *; dlia). do 2 f_equal. unfold len in *. dlia.
Qed.

Lemma rw_not_log fi c0 base s f : rw_inv fi c0 base s -> m_files s !! Z.to_nat (m_rw_tag s) = Some f -> f <> fi.
Proof. intros Hinv Hf ->. destruct (ri_findex _ _ _ _ Hinv) as [Hni _]. apply Hni. by apply list_elem_of_lookup_2 in Hf. Qed.

(** The steps of [pwrite_part], given the append and the record. *)
Lemma pwrite_part_steps s f buf off pos w' m s3 s' :
  m_files s !! Z.to_nat (m_rw_tag s) = Some f -> append f buf s = Some (pos, set_world w' s) -> pos <> 0 ->
  SegmentMapping_new (u64 off / ALIGNMENT) (u32 (len buf) / ALIGNMENT) (u64 pos / ALIGNMENT) 0 = Some (with_tag 0 m) ->
  with_tag (u8 (m_rw_tag s)) (with_tag 0 m) = m -> 0 < seg_length m ->
  insert_index m (set_data_offset (mend m) (set_vsize (Z.max (m_vsize s) (len buf + off)) (set_world w' s))) = Some (tt, s3) ->
  append_index m s3 = Some (tt, s') -> pwrite_part buf off s = Some (0, s').
Proof.
  intros Hf Hrun Hpos Hnew Htag Hlen Hins Happ.
  unfold pwrite_part, rw_file, mbind, M_bind, gets, modify, lift. rewrite Hf. cbn [fmap option_fmap option_map].
  rewrite Hrun. destruct (Z.eqb_spec pos 0); [done|].
  rewrite Hnew. cbn [fmap option_fmap option_map]. change (m_rw_tag (set_vsize _ _)) with (m_rw_tag s). rewrite Htag.
  unfold BUG_ON. destruct (Z.leb_spec (seg_length m) 0); [lia|]. cbn [mret M_ret].
  change (m_vsize (set_world w' s)) with (m_vsize s). rewrite Hins, Happ. done.
Qed.

Lemma pwrite_part_run fi c0 base s buf off : rw_inv fi c0 base s -> range_ok off (len buf) -> 0 < len buf <= MAX_LENGTH * ALIGNMENT ->
  space fi s (len buf) 1 ->
  exists s', pwrite_part buf off s = Some (0, s') /\ written fi c0 base s s' off buf (len buf) 1.
Proof.
  intros Hinv Hr Hl [Hsp1 Hsp2]. pose proof (ri_rw _ _ _ _ Hinv) as (f & Hf & Hpos & Hal). unfold SPACE in Hpos.
  pose proof (rw_not_log _ _ _ _ _ Hinv Hf) as Hnfi.
  assert (rw_len s = len (contents (world s) f)) as Hrwl by (unfold rw_len; by rewrite Hf).
  destruct (append_run f buf s ltac:(lia)) as (w' & Hrun & Hcf & Hoth).
  destruct (append_data _ _ _ _ _ _ _ Hinv Hf (proj1 (proj2 (proj2 (proj2 Hr)))) Hcf Hoth) as [Hinv1 Hdisk1].
  set (pos := len (contents (world s) f)) in *. set (m := write_map s off (len buf) pos).
  destruct (write_map_ok s off (len buf) pos Hr Hl ltac:(lia) ltac:(lia) Hal (ri_tag _ _ _ _ Hinv)) as (Hm & Hend & Hmend & Htag & Hnew).
  fold m in Hm, Hend, Hmend, Htag, Hnew. set (v := Z.max (m_vsize s) (len buf + off)).
  set (s2 := set_data_offset (mend m) (set_vsize v (set_world w' s))).
  assert (rw_inv fi c0 base s2) as Hinv2 by (by apply rw_inv_fields).
  assert (fi_len fi s2 = fi_len fi s) as Hfi2 by (unfold fi_len; by rewrite <- (Hoth fi) by congruence).
  assert (rw_len s2 = len (contents (world s) f) + len buf) as Hrw2 by (unfold rw_len, s2; simpl; by rewrite Hf, Hcf, len_app).
  assert (placed s2 m) as Hpl.
  { split; [done|]. split; [done|]. rewrite Hmend, Hrw2. split; [|unfold pos; lia]. unfold m, write_map. simpl. fold pos in Hal. unfold SPACE, ALIGNMENT in *. dlia. }
  destruct (record_run fi c0 base s2 m Hinv2 Hm Hpl) as (s3 & s' & Hins & Happ & Hinv' & Hsetup & Hview & Hvs & Hcont & Hfl).
  { split; [rewrite Hrw2; lia|]. rewrite Hfi2. exact Hsp2. }
  { intros _. exists f. split; [done|]. change (world s2) with w'. rewrite Hcf, len_app, Hmend. unfold pos. lia. }
  assert (contents (world s') f = contents (world s) f ++ buf) as Hcf' by (by rewrite Hcont).
  exists s'. split; [|split].
  - eapply pwrite_part_steps; [exact Hf|exact Hrun|lia|exact Hnew|exact Htag|unfold wf in Hm; lia|exact Hins|exact Happ].
  - exact Hinv'.
  - apply same_setup_trans with (s2 := s2); [|exact Hsetup]. split; [done|done|done|done|]. intros g _. unfold s2. simpl.
    destruct (decide (g = f)) as [->|]; [by exists buf|]. exists []. rewrite app_nil_r. by apply Hoth.
  - intros x. unfold overwrite. unfold disk_of at 1. rewrite Hview, (ss_files _ _ Hsetup), <- Hend.
    change ((off / ALIGNMENT <=? x) && (x <? end_ m)) with (in_seg m x). destruct (in_seg m x) eqn:Hx.
    + apply in_seg_true in Hx. change (offset m) with (off / ALIGNMENT) in Hx.
      simpl. change (m_files s2) with (m_files s). rewrite Hf, Hcf'. apply appended_block; [done|lia|].
      destruct Hr as (Ho & Hc & Hoa & Hca & He). unfold ALIGNMENT in *. dlia.
    + rewrite <- Hdisk1. apply (block_grow _ _ _ _ _ (ri_blocks _ _ _ _ Hinv1)). intros g Hg. exists []. rewrite app_nil_r.
      apply Hcont. intros ->. destruct (ri_findex _ _ _ _ Hinv) as [Hni _]. done.
  - unfold rw_len. rewrite (ss_files _ _ Hsetup), (ss_tag _ _ Hsetup). change (m_files s2) with (m_files s).
    change (m_rw_tag s2) with (m_rw_tag s). by rewrite Hf, Hcf', len_app.
  - change (batch s2) with (batch s) in Hfl. lia.
Qed.

Lemma space_less fi s a b a' b' : space fi s a b -> a' <= a -> b' <= b -> space fi s a' b'.
Proof. unfold space, batch. intros [H1' H2'] Ha Hb. split; [lia|nia]. Qed.

Lemma space_next fi c0 base s s' off data a b a' b' : written fi c0 base s s' off data a b -> space fi s (a + a') (b + b') -> 0 <= b' ->
  space fi s' a' b'.
Proof.
  intros [_ Hs _ Hrw Hfi] [Hsp1 Hsp2] Hb. unfold space. rewrite (ss_batch _ _ Hs). split; [lia|]. nia.
Qed.

(** Two writes in a row, and writing nothing. *)
Lemma overwrite_app d off d1 d2 x : off mod ALIGNMENT = 0 -> len d1 mod ALIGNMENT = 0 -> len d2 mod ALIGNMENT = 0 ->
  overwrite (overwrite d off d1) (off + len d1) d2 x = overwrite d off (d1 ++ d2) x.
Proof.
  unfold overwrite, ALIGNMENT. intros Ho H1' H2'. rewrite len_app. pose proof (len_nonneg d1). pose proof (len_nonneg d2).
  assert ((off + len d1) / 512 = off / 512 + len d1 / 512) as -> by dlia.
  assert ((off + len d1 + len d2) / 512 = off / 512 + len d1 / 512 + len d2 / 512) as -> by dlia.
  assert ((off + (len d1 + len d2)) / 512 = off / 512 + len d1 / 512 + len d2 / 512) as -> by dlia.
  assert (len d1 = len d1 / 512 * 512) as Hd1 by dlia. set (o := off / 512) in *. set (k1 := len d1 / 512) in *.
  set (k2 := len d2 / 512) in *. assert (0 <= k1 /\ 0 <= k2) as [] by (unfold k1, k2; dlia). unfold len in Hd1.
  destruct (Z.leb_spec o x), (Z.leb_spec (o + k1) x), (Z.ltb_spec x (o + k1)), (Z.ltb_spec x (o + k1 + k2)); try lia; try done; simpl.
  - f_equal. rewrite drop_app, (drop_ge d1) by lia. simpl. f_equal. lia.
  - rewrite drop_app_le by lia. rewrite take_app_le by (rewrite length_drop; lia). done.
Qed.

Lemma overwrite_ext d d' off data x : (forall x, d x = d' x) -> overwrite d off data x = overwrite d' off data x.
Proof. intros Hd. unfold overwrite. destruct (_ && _); [done|apply Hd]. Qed.

Lemma written_trans fi c0 base s1 s2 s3 off d1 d2 a b a' b' : off mod ALIGNMENT = 0 -> len d1 mod ALIGNMENT = 0 -> len d2 mod ALIGNMENT = 0 ->
  written fi c0 base s1 s2 off d1 a b -> written fi c0 base s2 s3 (off + len d1) d2 a' b' ->
  written fi c0 base s1 s3 off (d1 ++ d2) (a + a') (b + b').
Proof.
  intros Ho Hd1 Hd2 [I1 S1 D1 R1 L1] [I2 S2 D2 R2 L2]. split.
  - done.
  - by eapply same_setup_trans.
  - intros x. rewrite D2, (overwrite_ext _ _ _ _ _ D1). by apply overwrite_app.
  - lia.
  - rewrite (ss_batch _ _ S1) in L2. lia.
Qed.

Lemma pwrite_loop_run fi c0 base fuel s buf off : rw_inv fi c0 base s -> range_ok off (len buf) -> 0 < len buf ->
  space fi s (len buf) (len buf) -> (length buf < fuel)%nat ->
  exists d1 d2 s', pwrite_loop fuel buf off s = Some (Some (d2, off + len d1), s') /\ buf = d1 ++ d2 /\
    (d1 = [] /\ s' = s \/ written fi c0 base s s' off d1 (len d1) (len d1)) /\ 0 < len d2 <= MAX_IO_SIZE s /\
    len d1 mod ALIGNMENT = 0 /\ rw_inv fi c0 base s' /\ space fi s' (len d2) (len d2).
Proof.
  revert s buf off. induction fuel as [|fuel IH]; intros s buf off Hinv Hr Hpos Hsp Hf; [lia|].
  pose proof (ri_io _ _ _ _ Hinv) as [Hio Hioa]. cbn [pwrite_loop]. rewrite bind_run. cbn [gets].
  set (max := MAX_IO_SIZE s) in *. destruct (Z.ltb_spec max (len buf)) as [Hlt|Hge].
  - set (b1 := take (Z.to_nat max) buf). set (b2 := drop (Z.to_nat max) buf).
    assert (len b1 = max) as Hl1 by (apply len_take; lia). assert (len b2 = len buf - max) as Hl2 by (apply len_drop; lia).
    assert (buf = b1 ++ b2) as Hbuf by (unfold b1, b2; by rewrite take_drop).
    destruct Hr as (Ho & Hc & Hoa & Hca & Hend).
    assert (range_ok off (len b1)) as Hr1 by (unfold range_ok; rewrite Hl1; lia).
    destruct (pwrite_part_run fi c0 base s b1 off Hinv Hr1) as (s1 & Hrun & Hw); [lia|eapply space_less; [exact Hsp|lia|lia]|].
    assert (written fi c0 base s s1 off b1 (len b1) (len b1)) as Hw1.
    { destruct Hw. split; try done. unfold batch in *. nia. }
    rewrite bind_run. unfold pwrite_call.
    assert (is_aligned (Z.lor (len b1) off) = true) as -> by (apply aligned_or; by rewrite Hl1).
    cbn [negb]. rewrite bind_run, Hrun. cbn [mret M_ret]. rewrite Z.eqb_refl, Hl1, Z.ltb_irrefl.
    assert (space fi s1 (len b2) (len b2)) as Hsp1.
    { eapply space_next; [exact Hw1| |lia]. rewrite Hl1, Hl2. by replace (max + (len buf - max)) with (len buf) by lia. }
    destruct (IH s1 b2 (off + max) (wr_inv _ _ _ _ _ _ _ _ _ Hw1)) as (d1 & d2 & s2 & Hrun2 & Heq & Hd1 & Hd2 & Ha & Hi2 & Hsp2);
      [unfold range_ok, ALIGNMENT in *; rewrite Hl2; dlia|lia|exact Hsp1|unfold b2, len in *; rewrite length_drop; lia|].
    exists (b1 ++ d1), d2, s2. rewrite len_app, Hl1. split_and!; [|by rewrite Hbuf, Heq, app_assoc| |lia| | |done|done].
    + rewrite Hrun2. by replace (off + (max + len d1)) with (off + max + len d1) by lia.
    + right. destruct Hd1 as [[-> ->]|Hw2]; [rewrite app_nil_r; change (len []) with 0; rewrite Z.add_0_r, <- Hl1; exact Hw1|].
      rewrite <- Hl1. eapply written_trans; [done|by rewrite Hl1|done|exact Hw1|]. by rewrite Hl1.
    + rewrite (ss_io _ _ (wr_setup _ _ _ _ _ _ _ _ _ Hw1)) in Hd2. unfold max. lia.
    + unfold ALIGNMENT in *. dlia.
  - exists [], buf, s. change (len []) with 0. rewrite Z.add_0_r. split_and!; [done|done|by left|lia|lia|done|done|done].
Qed.

Lemma pwrite_run fi c0 base s buf off : rw_inv fi c0 base s -> range_ok off (len buf) -> 0 < len buf ->
  space fi s (len buf) (len buf) ->
  exists s', pwrite buf off s = Some (len buf, s') /\ written fi c0 base s s' off buf (len buf) (len buf).
Proof.
  intros Hinv Hr Hpos Hsp. pose proof Hr as (Ho & Hc & Hoa & Hca & Hend).
  destruct (pwrite_loop_run fi c0 base (S (length buf)) s buf off Hinv Hr Hpos Hsp ltac:(lia))
    as (d1 & d2 & s1 & Hrun & Hbuf & Hd1 & Hd2 & Ha & Hi & Hsp1).
  pose proof (ri_io _ _ _ _ Hinv) as [Hio _]. rewrite Hbuf, len_app in Hend, Hca. pose proof (len_nonneg d1).
  assert (len d2 mod ALIGNMENT = 0) as Ha2 by (unfold ALIGNMENT in *; dlia).
  destruct (pwrite_part_run fi c0 base s1 d2 (off + len d1) Hi) as (s2 & Hrun2 & Hw2);
    [unfold range_ok, ALIGNMENT in *; dlia|lia|eapply space_less; [exact Hsp1|lia|lia]|].
  assert (written fi c0 base s1 s2 (off + len d1) d2 (len d2) (len d2)) as Hw2'.
  { destruct Hw2. split; try done. unfold batch in *. nia. }
  exists s2. split.
  - unfold pwrite. assert (is_aligned (Z.lor (len buf) off) = true) as -> by (apply aligned_or; unfold range_ok in Hr; tauto).
    cbn [negb]. rewrite bind_run, Hrun, bind_run, Hrun2. done.
  - rewrite Hbuf, len_app. destruct Hd1 as [[-> ->]|Hw1].
    + change (len []) with 0 in *. rewrite Z.add_0_r in Hw2'. simpl. exact Hw2'.
    + by apply written_trans with (s2 := s1).
Qed.
(** ** Punching holes *)

Lemma zeros_block n k : 0 <= k -> (k + 1) * ALIGNMENT <= n ->
  take (Z.to_nat ALIGNMENT) (drop (Z.to_nat (k * ALIGNMENT)) (zeros n)) = zeros ALIGNMENT.
Proof.
  unfold ALIGNMENT, zeros. intros Hk Hn. rewrite drop_replicate, take_replicate. f_equal. lia.
Qed.

Definition punch_map (s : F) (off n pos : Z) : SegmentMapping :=
  mkMapping (mkSegment (off / ALIGNMENT) (n / ALIGNMENT)) (pos / ALIGNMENT) true (m_rw_tag s).

Lemma punch_map_ok s off n pos : range_ok off n -> 0 < n <= MAX_LENGTH * ALIGNMENT -> 0 <= pos < 2 ^ 63 -> 0 <= m_rw_tag s < 256 ->
  let m := punch_map s off n pos in
  wf m /\ end_ m = (off + n) / ALIGNMENT /\
  exists m0, SegmentMapping_new (u64 off / ALIGNMENT) (u32 n / ALIGNMENT) 0 0 = Some m0 /\
    with_tag (u8 (m_rw_tag s)) (with_moffset (u55 (u64 (pos / ALIGNMENT))) (discard m0)) = m.
Proof.
  intros (Ho & Hc & Hoa & Hca & Hend) Hl Hp Ht m. unfold m, punch_map, wf, mend, end_. simpl.
  unfold ALIGNMENT, MAX_LENGTH, MAX_OFFSET in *. split; [dlia|]. split; [dlia|].
  unfold SegmentMapping_new, MAX_LENGTH. rewrite !u64_small, (u32_small n) by dlia. rewrite u32_small by dlia.
  destruct (Z.ltb_spec (2 ^ 14 - 1) (n / 512)); [dlia|]. eexists. split; [done|].
  unfold with_tag, with_moffset, discard. simpl. rewrite u50_small, u14_small, u55_small by dlia. f_equal. by apply Z.mod_small.
Qed.

(** Nothing changes when only the position of a file moves. *)
Lemma rw_inv_seek fi c0 base s w1 : rw_inv fi c0 base s -> (forall g, contents w1 g = contents (world s) g) ->
  rw_inv fi c0 base (set_world w1 s) /\ forall x, disk_of (set_world w1 s) x = disk_of s x.
Proof.
  intros [Hv Hin Hio Htag (f & Hf & Hl) Hfi Hst (recs & [Hfi2 Hlog] & Hfo & Hpl & Hden)] Hw.
  assert (forall f, f ∈ m_files s -> exists ext, contents w1 f = contents (world s) f ++ ext) as Hext.
  { intros g _. exists []. by rewrite app_nil_r. }
  split; [|intros x; by apply (block_grow _ _ _ _ _ Hin)]. split; try done.
  - by apply (blocks_grow _ _ _ _ Hin).
  - exists f. cbn [world set_world]. by rewrite Hw.
  - exists recs. split; [|split; [done|split; [|done]]].
    + split; [done|]. cbn [world set_world]. by rewrite Hw.
    + apply (placed_grow s); [done| |done]. unfold rw_len. cbn [m_files m_rw_tag world set_world]. rewrite Hf, Hw. lia.
Qed.

Definition punch_mode (mode : Z) : Prop := Z.land mode FALLOC_FL_PUNCH_HOLE <> 0 /\ Z.land mode FALLOC_FL_KEEP_SIZE <> 0.

Lemma fallocate_part_run fi c0 base s mode off n : rw_inv fi c0 base s -> punch_mode mode -> range_ok off n ->
  0 < n <= MAX_LENGTH * ALIGNMENT -> space fi s 0 1 ->
  exists s', fallocate_part mode off n s = Some (0, s') /\ written fi c0 base s s' off (zeros n) 0 1.
Proof.
  intros Hinv [Hm1 Hm2] Hr Hl Hsp. pose proof (ri_rw _ _ _ _ Hinv) as (f & Hf & Hpos & Hal). unfold SPACE in Hpos.
  destruct (lseek_law (world s) f) as (w1 & Hseek & Hw1 & _). destruct (rw_inv_seek _ _ _ _ _ Hinv Hw1) as [Hinv1 Hdisk1].
  pose proof (contents_size (world s) f) as Hsz. set (pos := len (contents (world s) f)) in *.
  set (m := punch_map s off n pos).
  destruct (punch_map_ok s off n pos Hr Hl ltac:(lia) (ri_tag _ _ _ _ Hinv)) as (Hm & Hend & m0 & Hnew & Htag). fold m in Hm, Hend, Htag.
  assert (space fi (set_world w1 s) 0 1) as Hsp1.
  { unfold space, rw_len, fi_len in *. cbn [m_files m_rw_tag world set_world] in *. rewrite Hf, !Hw1 in *. exact Hsp. }
  assert (placed (set_world w1 s) m) as Hpl.
  { split; [done|]. split; [done|]. unfold rw_len. cbn [m_files m_rw_tag world set_world]. rewrite Hf, Hw1. fold pos.
    unfold m, punch_map, mend. simpl. fold pos in Hal, Hpos. unfold SPACE, ALIGNMENT in *. dlia. }
  destruct (record_run fi c0 base (set_world w1 s) m Hinv1 Hm Hpl Hsp1) as (s3 & s' & Hins & Happ & Hinv' & Hsetup & Hview & Hvs & Hcont & Hfl);
    [done|].
  assert (len (zeros n) = n) as Hz by (apply len_zeros; lia).
  exists s'. split; [|split].
  - unfold fallocate_part. destruct (Z.eqb_spec (Z.land mode FALLOC_FL_PUNCH_HOLE) 0), (Z.eqb_spec (Z.land mode FALLOC_FL_KEEP_SIZE) 0); try done.
    assert (is_aligned (Z.lor n off) = true) as -> by (apply aligned_or; unfold range_ok in Hr; tauto). cbn [orb negb].
    unfold discard_mapping, rw_file, on_world, zoom, mbind, M_bind, gets, lift. rewrite Hnew. cbn [fmap option_fmap option_map].
    rewrite Hf. cbn [fmap option_fmap option_map]. rewrite Hseek. fold pos. change (m_rw_tag (set_world w1 s)) with (m_rw_tag s).
    rewrite Htag, Hins, Happ. done.
  - exact Hinv'.
  - apply same_setup_trans with (s2 := set_world w1 s); [|exact Hsetup]. by apply same_setup_same.
  - intros x. unfold overwrite. unfold disk_of at 1. rewrite Hview, (ss_files _ _ Hsetup), Hz, <- Hend.
    change ((off / ALIGNMENT <=? x) && (x <? end_ m)) with (in_seg m x). destruct (in_seg m x) eqn:Hx.
    + apply in_seg_true in Hx. change (offset m) with (off / ALIGNMENT) in Hx. simpl. symmetry. apply zeros_block; [lia|].
      destruct Hr as (Ho & Hc & Hoa & Hca & He). unfold ALIGNMENT in *. dlia.
    + rewrite <- Hdisk1. apply (block_grow _ _ _ _ _ (ri_blocks _ _ _ _ Hinv1)). intros g Hg. exists []. rewrite app_nil_r.
      apply Hcont. intros ->. destruct (ri_findex _ _ _ _ Hinv) as [Hni _]. done.
  - unfold rw_len. rewrite (ss_files _ _ Hsetup), (ss_tag _ _ Hsetup). cbn [m_files m_rw_tag set_world].
    rewrite Hf, Hcont, Z.add_0_r; [cbn [world set_world]; by rewrite Hw1|]. exact (rw_not_log _ _ _ _ _ Hinv Hf).
  - change (batch (set_world w1 s)) with (batch s) in Hfl. unfold fi_len in *. cbn [world set_world] in Hfl. rewrite Hw1 in Hfl. lia.
Qed.

Lemma fallocate_run fi c0 base fuel s mode off n : rw_inv fi c0 base s -> punch_mode mode -> range_ok off n -> 0 < n ->
  space fi s 0 n -> n < Z.of_nat fuel ->
  exists s', fallocate_loop fuel mode off n s = Some (0, s') /\ written fi c0 base s s' off (zeros n) 0 n.
Proof.
  revert s off n. induction fuel as [|fuel IH]; intros s off n Hinv Hmode Hr Hn Hsp Hf; [lia|].
  cbn [fallocate_loop]. assert (max_length_bytes = MAX_LENGTH * ALIGNMENT) as Hmax by reflexivity.
  assert (0 < max_length_bytes /\ max_length_bytes mod ALIGNMENT = 0) as [Hmp Hma] by (by rewrite Hmax).
  destruct Hr as (Ho & Hc & Hoa & Hca & Hend). destruct (Z.ltb_spec max_length_bytes n) as [Hlt|Hge].
  - assert (range_ok off max_length_bytes) as Hr1 by (unfold range_ok; lia).
    destruct (fallocate_part_run fi c0 base s mode off max_length_bytes Hinv Hmode Hr1) as (s1 & Hrun & Hw);
      [lia|eapply space_less; [exact Hsp|lia|lia]|].
    assert (written fi c0 base s s1 off (zeros max_length_bytes) 0 max_length_bytes) as Hw1.
    { destruct Hw. split; try done. unfold batch in *. nia. }
    rewrite bind_run, Hrun. cbn [Z.eqb negb].
    destruct (IH s1 (off + max_length_bytes) (n - max_length_bytes) (wr_inv _ _ _ _ _ _ _ _ _ Hw1) Hmode) as (s2 & Hrun2 & Hw2).
    + unfold range_ok, ALIGNMENT in *. dlia.
    + lia.
    + eapply space_next; [exact Hw1| |lia]. rewrite Z.add_0_r. by replace (max_length_bytes + (n - max_length_bytes)) with n by lia.
    + lia.
    + exists s2. split; [exact Hrun2|]. replace n with (max_length_bytes + (n - max_length_bytes)) at 1 2 by lia.
      rewrite zeros_app by lia. rewrite <- (Z.add_0_l 0) at 1. apply written_trans with (s2 := s1).
      * done.
      * by rewrite len_zeros by lia.
      * rewrite len_zeros by lia. unfold ALIGNMENT in *. dlia.
      * done.
      * by rewrite len_zeros by lia.
  - destruct (fallocate_part_run fi c0 base s mode off n Hinv Hmode) as (s1 & Hrun & Hw);
      [done|lia|eapply space_less; [exact Hsp|lia|lia]|].
    exists s1. split; [done|]. destruct Hw. split; try done. unfold batch in *. nia.
Qed.

Lemma fsync_run fi c0 base s : rw_inv fi c0 base s -> space fi s 0 1 ->
  exists s' recs, fsync s = Some (0, s') /\ rw_inv fi c0 base s' /\ same_setup s s' /\ (forall x, disk_of s' x = disk_of s x) /\
    rw_len s' = rw_len s /\ fi_len fi s' <= fi_len fi s + 16 * batch s /\
    nmapping s' = 0 /\ contents (world s') fi = c0 ++ mappings_bytes recs /\ Forall fields_ok recs /\ Forall (placed s') (real recs) /\
    forall x, den (view (m_index s')) x = match den (reverse (real recs)) x with Some b => Some b | None => base x end.
Proof.
  intros [Hv Hin Hio Htag (f & Hf & Hl) [Hni Hc0] Hst (recs & [Hfi Hlog] & Hfo & Hpl & Hden)] [_ Hsp]. unfold fsync, fi_len in *.
  destruct (decide (0 < nmapping s)) as [Hn|Hn].
  - destruct Hst as [[_ Hn0]|Hst]; [lia|].
    destruct (group_commit_run fi c0 s recs) as (s' & recs' & Hrun & Hsame & Hlog' & Hreal & Hn' & Hfo' & Hsz);
      [done|done|done|lia|lia|]. destruct Hsame as [E1 E2 E3 E4 E5 E6 E7 E8].
    assert (pending s' = []) as Hp by (unfold pending; by rewrite Hn').
    assert (forall g, g ∈ m_files s -> contents (world s') g = contents (world s) g) as Hc by (intros g Hg; apply E8; by intros ->).
    assert (forall g, g ∈ m_files s -> exists ext, contents (world s') g = contents (world s) g ++ ext) as Hext.
    { intros g Hg. exists []. rewrite app_nil_r. auto. }
    assert (forall x, den (view (m_index s')) x = match den (reverse (real recs')) x with Some b => Some b | None => base x end) as Hden'.
    { intros x. rewrite E1, Hreal. apply Hden. }
    assert (rw_len s' = rw_len s) as Hrwl by (unfold rw_len; rewrite E2, E4, Hf; by rewrite Hc by (by apply list_elem_of_lookup_2 in Hf)).
    assert (Forall (placed s') (real recs')) as Hpl' by (rewrite Hreal; by apply (placed_grow s); [| rewrite Hrwl |]).
    exists s', recs'. split; [exact Hrun|]. split; [split|].
    + by rewrite E1.
    + rewrite E1, E2. by apply (blocks_grow _ _ _ _ Hin).
    + by rewrite E6.
    + by rewrite E4.
    + rewrite E2, E4. exists f. by rewrite Hc by (by apply list_elem_of_lookup_2 in Hf).
    + by rewrite E2.
    + right. rewrite Hn', E7. lia.
    + exists recs'. rewrite Hp, app_nil_r. split; [exact Hlog'|]. auto.
    + split; [apply same_setup_same; [done|done|done|unfold batch; by rewrite E7|done]|]. split.
      { intros x. unfold disk_of. rewrite E1, E2. by apply block_grow. }
      split; [done|]. split; [lia|]. split; [done|]. split; [apply Hlog'|]. auto.
  - assert (pending s = []) as Hp by (unfold pending; by rewrite Z2Nat.nonpos by lia). rewrite Hp, app_nil_r in *.
    exists s, recs. unfold do_group_commit_mappings. rewrite bind_run. cbn [gets]. destruct (Z.ltb_spec 0 (nmapping s)); [lia|].
    split; [done|]. split; [split; eauto|]. { exists recs. rewrite Hp, app_nil_r. done. }
    split; [by apply same_setup_same|]. split; [done|]. split; [done|]. split; [unfold batch; lia|].
    split; [destruct Hst as [[_ ?]|?]; lia|]. done.
Qed.

(** ** Sequences of operations *)

Inductive disk_op := Write (buf : list Z) (off : Z) | Punch (mode off n : Z) | Sync.

Definition op_result (o : disk_op) : Z := match o with Write buf _ => len buf | _ => 0 end.
Definition op_ok (o : disk_op) : Prop :=
  match o with
  | Write buf off => range_ok off (len buf) /\ 0 < len buf
  | Punch mode off n => punch_mode mode /\ range_ok off n /\ 0 < n
  | Sync => True
  end.
(** How many bytes of data an operation writes, and at most how many records. *)
Definition op_bytes (o : disk_op) : Z := match o with Write buf _ => len buf | _ => 0 end.
Definition op_records (o : disk_op) : Z := match o with Write buf _ => len buf | Punch _ _ n => n | Sync => 1 end.
Definition total (f : disk_op -> Z) (os : list disk_op) : Z := foldr (fun o n => f o + n) 0 os.

Definition run_disk_op (o : disk_op) : M F Z :=
  match o with
  | Write buf off => pwrite buf off
  | Punch mode off n => fallocate mode off n
  | Sync => fsync
  end.
Fixpoint run_disk_ops (os : list disk_op) : M F (list Z) :=
  match os with
  | [] => mret []
  | o :: os => r ← run_disk_op o; rs ← run_disk_ops os; mret (r :: rs)
  end.

(** The operations on an abstract disk of blocks. *)
Definition spec_disk_op (d : Z -> list Z) (o : disk_op) : Z -> list Z :=
  match o with
  | Write buf off => overwrite d off buf
  | Punch _ off n => overwrite d off (zeros n)
  | Sync => d
  end.

Lemma run_disk_op_spec fi c0 base s o : rw_inv fi c0 base s -> op_ok o -> space fi s (op_bytes o) (op_records o) ->
  exists s', run_disk_op o s = Some (op_result o, s') /\ rw_inv fi c0 base s' /\ same_setup s s' /\
    (forall x, disk_of s' x = spec_disk_op (disk_of s) o x) /\ rw_len s' = rw_len s + op_bytes o /\
    fi_len fi s' <= fi_len fi s + op_records o * (16 * batch s).
Proof.
  intros Hinv Hok Hsp. destruct o as [buf off|mode off n|]; simpl in *.
  - destruct Hok as [Hr Hp]. destruct (pwrite_run fi c0 base s buf off Hinv Hr Hp Hsp) as (s' & Hrun & [? ? ? ? ?]). by exists s'.
  - destruct Hok as (Hm & Hr & Hp).
    destruct (fallocate_run fi c0 base (S (Z.to_nat n)) s mode off n Hinv Hm Hr Hp Hsp ltac:(lia)) as (s' & Hrun & [? ? ? ? ?]). by exists s'.
  - destruct (fsync_run fi c0 base s Hinv Hsp) as (s' & recs & Hrun & Hinv' & Hsetup & Hd & Hrw & Hfi & _).
    exists s'. split_and!; [done|done|done|done|lia|lia].
Qed.

Lemma spec_op_ext d d' o x : (forall x, d x = d' x) -> spec_disk_op d o x = spec_disk_op d' o x.
Proof. intros Hd. destruct o; simpl; [by apply overwrite_ext|by apply overwrite_ext|apply Hd]. Qed.
Lemma spec_ops_ext os d d' x : (forall x, d x = d' x) -> foldl spec_disk_op d os x = foldl spec_disk_op d' os x.
Proof.
  revert d d'. induction os as [|o os IH]; intros d d' Hd; simpl; [apply Hd|]. apply IH. intros y. by apply spec_op_ext.
Qed.

Lemma total_nonneg os : 0 <= total op_bytes os /\ (Forall op_ok os -> 0 <= total op_records os).
Proof.
  split.
  - induction os as [|o os IH]; simpl; [done|]. destruct o; simpl; unfold len; lia.
  - induction 1 as [|o os Ho _ IH]; simpl; [done|]. destruct o; simpl in *; unfold len; lia.
Qed.

Lemma run_disk_ops_spec fi c0 base os s : rw_inv fi c0 base s -> Forall op_ok os -> space fi s (total op_bytes os) (total op_records os) ->
  exists s', run_disk_ops os s = Some (op_result <$> os, s') /\ rw_inv fi c0 base s' /\ same_setup s s' /\
    (forall x, disk_of s' x = foldl spec_disk_op (disk_of s) os x) /\ rw_len s' = rw_len s + total op_bytes os /\
    fi_len fi s' <= fi_len fi s + total op_records os * (16 * batch s).
Proof.
  revert s. induction os as [|o os IH]; intros s Hinv Hok Hsp; simpl in *.
  - exists s. split_and!; [done|done|by apply same_setup_same|done|lia|lia].
  - apply Forall_cons in Hok as [Ho Hos]. destruct (total_nonneg os) as [Hb Hr]. specialize (Hr Hos).
    destruct (run_disk_op_spec fi c0 base s o Hinv Ho) as (s1 & Hrun & Hinv1 & Hs1 & Hd1 & Hrw1 & Hfi1);
      [eapply space_less; [exact Hsp|lia|lia]|].
    destruct (IH s1 Hinv1 Hos) as (s2 & Hrun2 & Hinv2 & Hs2 & Hd2 & Hrw2 & Hfi2).
    { destruct Hsp as [Hsp1 Hsp2]. unfold space. rewrite (ss_batch _ _ Hs1). split; [lia|]. unfold batch in *. nia. }
    exists s2. rewrite !bind_run, Hrun, bind_run, Hrun2. split; [done|]. split; [done|]. split; [by eapply same_setup_trans|].
    split; [intros x; rewrite Hd2; by apply spec_ops_ext|]. rewrite (ss_batch _ _ Hs1) in Hfi2. split; lia.
Qed.

(** ** Reading the disk back *)

(** The bytes of a range of an abstract disk of blocks. *)
Definition read_blocks (d : Z -> list Z) (off count : Z) : list Z :=
  mjoin (d <$> seqZ (off / ALIGNMENT) ((off + count) / ALIGNMENT - off / ALIGNMENT)).

Lemma read_blocks_ext d d' off count : (forall x, d x = d' x) -> read_blocks d off count = read_blocks d' off count.
Proof. intros Hd. unfold read_blocks. f_equal. apply list_fmap_ext. auto. Qed.

Lemma rw_readable fi c0 base s : rw_inv fi c0 base s -> readable s.
Proof. intros Hi. split; [apply (ri_index _ _ _ _ Hi)|]. split; [apply (ri_blocks _ _ _ _ Hi)|apply (ri_io _ _ _ _ Hi)]. Qed.

(** A file reads as an abstract disk. *)
Definition reads_as (s : F) (d : Z -> list Z) : Prop :=
  forall off count buf, range_ok off count -> len buf = count ->
    exists s', pread count off (mkReading s buf 0) = Some (count, mkReading s' (read_blocks d off count) count).

Lemma reads_as_disk s d : readable s -> (forall x, disk_of s x = d x) -> reads_as s d.
Proof.
  intros Hs Hd off count buf Hr Hl. destruct (pread_run count off s buf Hs Hr Hl) as (s' & cnt & size & Hrun & _).
  exists s'. rewrite Hrun. do 3 f_equal. unfold disk_bytes, disk_range. symmetry. apply read_blocks_ext. intros x. symmetry. apply Hd.
Qed.

(** ** Resizing the buffer of mappings *)

Lemma length_resized n s : length (m_stacked_mappings (resize_stack n s : F)) = Z.to_nat n.
Proof. simpl. rewrite length_app, length_take, length_replicate. lia. Qed.

Lemma resize_inv fi c0 base n s : rw_inv fi c0 base s -> nmapping s < n \/ nmapping s = 0 /\ n = 0 -> rw_inv fi c0 base (resize_stack n s).
Proof.
  intros [Hv Hin Hio Htag Hrw Hfi Hst Hlog] Hn.
  assert (pending (resize_stack n s) = pending s) as Hp.
  { unfold pending. change (nmapping (resize_stack n s)) with (nmapping s). cbn [m_stacked_mappings resize_stack set_stacked].
    destruct Hst as [[-> ->]|Hst]; [simpl; by rewrite !take_0|]. rewrite take_app_le by (rewrite length_take; lia).
    rewrite take_take. f_equal. lia. }
  split; try done.
  - unfold stack_ok. rewrite length_resized. change (nmapping (resize_stack n s)) with (nmapping s).
    destruct Hn as [Hn|[-> ->]]; [right|left].
    + destruct Hst as [[_ Hst]|Hst]; lia.
    + split; [|done]. apply length_zero_iff_nil. by rewrite length_resized.
  - destruct Hlog as (recs & Hlog). exists recs. by rewrite Hp.
Qed.

(** A file whose index and files fit together, with nothing recorded yet. *)
Lemma rw_inv_initial fi (s : F) : valid_index (m_index s) -> blocks_in (den (view (m_index s))) (m_files s) (world s) ->
  0 < MAX_IO_SIZE s <= MAX_LENGTH * ALIGNMENT -> MAX_IO_SIZE s mod ALIGNMENT = 0 -> 0 <= m_rw_tag s < 256 ->
  (exists f, m_files s !! Z.to_nat (m_rw_tag s) = Some f /\
    SPACE <= len (contents (world s) f) /\ len (contents (world s) f) mod ALIGNMENT = 0) ->
  fi ∉ m_files s -> m_findex s = Some fi -> 0 < len (contents (world s) fi) -> m_stacked_mappings s = [] -> nmapping s = 0 ->
  rw_inv fi (contents (world s) fi) (den (view (m_index s))) s.
Proof.
  intros Hv Hin Hio Hioa Ht Hrw Hni Hfi Hc0 Hst Hn. split; try done; [by left|]. exists [].
  assert (pending s = []) as -> by (unfold pending; by rewrite Hst, take_nil).
  split; [|split; [apply Forall_nil_2|split; [apply Forall_nil_2|done]]]. split; [done|]. symmetry. apply app_nil_r.
Qed.
End write.


(** ** Theorems *)

Section theorems.
Context {I W : Type} `{IFilesLaws W, MemoryIndex0Laws I}.

(** C5: A writable image is a disk: any sequence of aligned writes, punched holes
    and syncs succeeds, within the space of the files, and every later read of any
    aligned range returns the bytes last written, and what was there before for
    the other blocks; the records of the index file and of the commit buffer
    amount to the index at all times.  Requests larger than the limit of one
    operation are split. *)
Theorem lsmt_refines_disk fi c0 base os (s : lsmt_file I W) : rw_inv fi c0 base s -> Forall op_ok os ->
  space fi s (total op_bytes os) (total op_records os) ->
  exists s', run_disk_ops os s = Some (op_result <$> os, s') /\ rw_inv fi c0 base s' /\
    reads_as s' (foldl spec_disk_op (disk_of s) os).
Proof.
  intros Hinv Hok Hsp. destruct (run_disk_ops_spec fi c0 base os s Hinv Hok Hsp) as (s' & Hrun & Hinv' & _ & Hd & _).
  exists s'. split; [done|]. split; [done|]. apply reads_as_disk; [by eapply rw_readable|done].
Qed.

(** A write whose append to the data file is short returns -1 and changes
    neither the index nor the records: the old data stays visible. *)
Theorem pwrite_append_fails buf off f pos ret w1 w2 (s : lsmt_file I W) : m_files s !! Z.to_nat (m_rw_tag s) = Some f ->
  len buf <= MAX_IO_SIZE s -> is_aligned (Z.lor (len buf) off) = true ->
  f_lseek_end f (world s) = Some (pos, w1) -> f_write f buf w1 = Some (ret, w2) -> ret < len buf ->
  pwrite buf off s = Some (-1, set_world w2 s).
Proof.
  intros Hf Hio Hal Hs Hw Hret. unfold pwrite. rewrite Hal. cbn [negb pwrite_loop]. rewrite bind_run, bind_run. cbn [gets].
  destruct (Z.ltb_spec (MAX_IO_SIZE s) (len buf)); [lia|]. cbn [mret M_ret]. rewrite bind_run.
  unfold pwrite_part, rw_file, append, on_world, zoom, mbind, M_bind, gets, lift. rewrite Hf. cbn [fmap option_fmap option_map].
  rewrite Hs. cbn [world set_world]. rewrite Hw. destruct (Z.ltb_spec ret (len buf)); [|lia]. done.
Qed.

(** Resizing the commit buffer keeps the image, but when the new size is the
    number of mappings that wait, the next record is stored behind the buffer. *)
Theorem group_commit_resize fi c0 base b (s : lsmt_file I W) : rw_inv fi c0 base s -> 0 <= b -> space fi s 0 1 ->
  let n := b / sizeof_SegmentMapping in
  exists s', set_index_group_commit b s = Some (0, s') /\
    (n <> nmapping s \/ n = 0 -> rw_inv fi c0 base s' /\ (forall x, disk_of s' x = disk_of s x) /\
       length (m_stacked_mappings s') = Z.to_nat n) /\
    (n = nmapping s -> 0 < n -> forall m, append_index m s' = None).
Proof.
  intros Hinv Hb Hsp n. assert (0 <= n) as Hn by (unfold n, sizeof_SegmentMapping; dlia).
  pose proof (ri_stack _ _ _ _ Hinv) as Hst. unfold set_index_group_commit. fold n. rewrite bind_run. cbn [gets].
  destruct (Z.leb_spec (nmapping s) n) as [Hle|Hlt].
  - exists (resize_stack n s). split; [done|]. split.
    + intros Hne. split; [apply resize_inv; [done|]; destruct Hst as [[_ ?]|?]; lia|]. split; [done|apply length_resized].
    + intros Hnn Hpos m. unfold append_index. rewrite bind_run. cbn [gets].
      destruct (ri_log _ _ _ _ Hinv) as (recs & [Hfi _] & _). change (m_findex (resize_stack n s)) with (m_findex s). rewrite Hfi.
      pose proof (length_resized n s) as Hlen. destruct (m_stacked_mappings (resize_stack n s)) as [|x l]; [simpl in Hlen; lia|].
      change (nmapping (resize_stack n s)) with (nmapping s). rewrite Hlen, Z2Nat.id, Hnn, Z.leb_refl by lia. done.
  - destruct (fsync_run fi c0 base s Hinv Hsp) as (s1 & recs & Hrun & Hinv1 & _ & Hd & _ & _ & Hn0 & _). unfold fsync in Hrun.
    exists (resize_stack n s1). rewrite !bind_run, Hrun. split; [done|]. split; [|lia].
    intros _. split; [apply resize_inv; [done|lia]|]. split; [done|apply length_resized].
Qed.

End theorems.

(** The array of mappings of an index file reads back as it was written. *)
Theorem mapping_records_roundtrip l rest : Forall wf (real l) -> Forall (fun m : SegmentMapping => m = invalid_mapping \/ offset m <> INVALID_OFFSET) l ->
  len (mappings_bytes l) = sizeof_SegmentMapping * Z.of_nat (length l) /\
  parse_mappings (length l) (mappings_bytes l ++ rest) = l.
Proof.
  intros Hw Hl. split; [apply len_mappings_bytes|]. apply parse_mappings_bytes. apply Forall_forall. intros m Hm.
  rewrite Forall_forall in Hl. destruct (Hl m Hm) as [->|Hoff]; [apply invalid_fields|]. apply wf_fields.
  rewrite Forall_forall in Hw. apply Hw. unfold real. by apply list_elem_of_filter.
Qed.

(** ** Witnesses *)

(** A data file and an index file with blank headers. *)
Definition wit_world : mem_files := <[1 := (zeros SPACE, SPACE)]> (<[2 := (zeros SPACE, SPACE)]> ∅).
Definition wit_file : lsmt_file Index0 mem_files := mkFile Index0_empty [1] (Some 2) 0 0 4096 8 [] 0 0 0 wit_world.

Lemma wit_rw_inv : rw_inv 2 (contents (world wit_file) 2) (den (view (m_index wit_file))) wit_file.
Proof.
  apply (rw_inv_initial (I := Index0) (W := mem_files) 2 wit_file); [split; [vm_compute; done|done]|done|vm_compute; done|done|done| |set_solver|done|vm_compute; done|done|done].
  exists 1. vm_compute. done.
Qed.

(** A write of two pieces, a hole in it, and another write. *)
Definition wit_ops : list disk_op :=
  [Write (replicate (Z.to_nat 5120) 7) 512; Punch 3 1024 512; Sync; Write (replicate 512 9) 8192].

Lemma wit_ops_ok : Forall op_ok wit_ops /\ space 2 wit_file (total op_bytes wit_ops) (total op_records wit_ops).
Proof. split; [repeat constructor; vm_compute; done|]. vm_compute. done. Qed.

Lemma lsmt_refines_disk_witness : exists s', run_disk_ops wit_ops wit_file = Some ([5120; 0; 0; 512], s') /\
  rw_inv 2 (contents (world wit_file) 2) (den (view (m_index wit_file))) s' /\ reads_as s' (foldl spec_disk_op (disk_of wit_file) wit_ops).
Proof.
  destruct (lsmt_refines_disk 2 (contents (world wit_file) 2) (den (view (m_index wit_file))) wit_ops wit_file wit_rw_inv (proj1 wit_ops_ok) (proj2 wit_ops_ok))
    as (s' & Hrun & Hinv & Hd).
  exists s'. split; [exact Hrun|]. by split.
Defined.

(** Files on a full disk. *)
Definition full_disk : IFiles mem_files := {|
  f_pread := f_pread; f_pwrite := fun f data off => mret 0; f_write := fun f data => mret 0;
  f_lseek_end := f_lseek_end; f_fstat := f_fstat |}.

Lemma pwrite_append_fails_witness : exists w, pwrite (H := full_disk) (replicate 512 7) 0 wit_file = Some (-1, set_world w wit_file).
Proof.
  eexists. apply (pwrite_append_fails (H := full_disk)) with (f := 1) (pos := 4096) (ret := 0)
    (w1 := mem_update 1 (zeros SPACE) 4096 wit_world); [done|done|done|vm_compute; reflexivity|reflexivity|done].
Defined.

Lemma group_commit_resize_witness :
  (exists s', set_index_group_commit 64 wit_file = Some (0, s') /\ length (m_stacked_mappings s') = 4%nat) /\
  space 2 wit_file 0 1.
Proof.
  assert (space 2 wit_file 0 1) as Hsp by (vm_compute; done). split; [|exact Hsp].
  destruct (group_commit_resize 2 (contents (world wit_file) 2) (den (view (m_index wit_file))) 64 wit_file wit_rw_inv ltac:(done) Hsp) as (s' & Hrun & Hok & _).
  exists s'. split; [exact Hrun|]. by destruct (Hok ltac:(by left)) as (_ & _ & Hl).
Defined.

Lemma mapping_records_roundtrip_witness :
  let l := [mkMapping (mkSegment 3 4) 8 false 1; invalid_mapping] in
  len (mappings_bytes l) = 32 /\ parse_mappings 2 (mappings_bytes l ++ [1; 2]) = l.
Proof.
  apply (mapping_records_roundtrip [mkMapping (mkSegment 3 4) 8 false 1; invalid_mapping] [1; 2]).
  - repeat constructor; vm_compute; done.
  - constructor; [right; vm_compute; done|]. constructor; [by left|constructor].
Defined.
