(* ===== verification/LsmtOpen.v ===== *)
(** Headers, loading an index, and opening and stacking images: lsmt/file.cpp.

    A data file starts with a header of 4096 bytes, an index file too; a sealed
    file ends with its index and a trailer of the same format.  Opening reads the
    mappings of the index, drops the padding of group commits, checks them and
    builds the index in memory.

    UUIDs are a library of photon, which is not part of the sources: [UUIDs] has
    the conversions with their strings.  Seeking for data and holes, truncating
    and trimming are the operations of [ISparseFiles] (Files). *)

From S2P Require Import Prelude Files LsmtSegment LsmtIndex LsmtFile.

(** A UUID is 16 bytes, its string 37. *)
Class UUIDs := {
  uuid_string : list Z -> list Z;
  uuid_parse : list Z -> option (list Z);
  uuid_is_valid : list Z -> bool
}.
Definition uuid_null : list Z := replicate 16 0.

Class UUIDsLaws `{UUIDs} := {
  uuid_string_length u : length (uuid_string u) = 37%nat;
  uuid_parse_string u : length u = 16%nat -> uuid_parse (uuid_string u) = Some u
}.

(** ** [HeaderTrailer] *)

Definition MAGIC0 : Z := 0x020100544D534C.
Definition MAGIC1 : list Z :=
  [0x65; 0x7E; 0x63; 0xD2; 0x94; 0x44; 0x08; 0x4C; 0xA2; 0xD2; 0xC8; 0xEC; 0x4F; 0xCF; 0xAE; 0x8A].
Definition TAG_SIZE : Z := 256.
Definition sizeof_HeaderTrailer : Z := 390.

Record HeaderTrailer := mkHT {
  magic0 : Z;
  magic1 : list Z;
  ht_size : Z;
  flags : Z;
  index_offset : Z;
  index_size : Z;
  ht_virtual_size : Z;
  uuid : list Z;
  parent_uuid : list Z;
  reserved : Z;
  version : Z;
  sub_version : Z;
  user_tag : list Z
}.

Definition verify_magic (h : HeaderTrailer) : bool := (magic0 h =? MAGIC0) && bool_decide (magic1 h = MAGIC1).

Definition FLAG_SHIFT_HEADER : Z := 0.
Definition FLAG_SHIFT_TYPE : Z := 1.
Definition FLAG_SHIFT_SEALED : Z := 2.
Definition FLAG_SPARSE_RW : Z := 4.

Definition get_flag_bit (shift : Z) (h : HeaderTrailer) : Z := Z.land (flags h) (Z.shiftl 1 shift).
Definition with_flags (f : Z) (h : HeaderTrailer) : HeaderTrailer :=
  mkHT (magic0 h) (magic1 h) (ht_size h) f (index_offset h) (index_size h) (ht_virtual_size h) (uuid h)
    (parent_uuid h) (reserved h) (version h) (sub_version h) (user_tag h).
Definition set_flag_bit (shift : Z) (h : HeaderTrailer) : HeaderTrailer := with_flags (Z.lor (flags h) (Z.shiftl 1 shift)) h.
Definition clr_flag_bit (shift : Z) (h : HeaderTrailer) : HeaderTrailer :=
  with_flags (Z.land (flags h) (u32 (Z.lnot (Z.shiftl 1 shift)))) h.

Definition is_header (h : HeaderTrailer) : bool := negb (get_flag_bit FLAG_SHIFT_HEADER h =? 0).
Definition is_trailer (h : HeaderTrailer) : bool := negb (is_header h).
Definition is_data_file (h : HeaderTrailer) : bool := negb (get_flag_bit FLAG_SHIFT_TYPE h =? 0).
Definition is_index_file (h : HeaderTrailer) : bool := negb (is_data_file h).
Definition is_sealed (h : HeaderTrailer) : bool := negb (get_flag_bit FLAG_SHIFT_SEALED h =? 0).
Definition is_sparse_rw (h : HeaderTrailer) : bool := negb (get_flag_bit FLAG_SPARSE_RW h =? 0).

Definition set_header := set_flag_bit FLAG_SHIFT_HEADER.
Definition set_trailer := clr_flag_bit FLAG_SHIFT_HEADER.
Definition set_data_file := set_flag_bit FLAG_SHIFT_TYPE.
Definition set_index_file := clr_flag_bit FLAG_SHIFT_TYPE.
Definition set_sealed := set_flag_bit FLAG_SHIFT_SEALED.
Definition clr_sealed := clr_flag_bit FLAG_SHIFT_SEALED.
Definition set_sparse_rw := set_flag_bit FLAG_SPARSE_RW.
Definition clr_sparse_rw := clr_flag_bit FLAG_SPARSE_RW.

Definition with_user_tag (t : list Z) (h : HeaderTrailer) : HeaderTrailer :=
  mkHT (magic0 h) (magic1 h) (ht_size h) (flags h) (index_offset h) (index_size h) (ht_virtual_size h) (uuid h)
    (parent_uuid h) (reserved h) (version h) (sub_version h) t.
Definition with_index_size (n : Z) (h : HeaderTrailer) : HeaderTrailer :=
  mkHT (magic0 h) (magic1 h) (ht_size h) (flags h) (index_offset h) n (ht_virtual_size h) (uuid h)
    (parent_uuid h) (reserved h) (version h) (sub_version h) (user_tag h).
Definition with_virtual_size (v : Z) (h : HeaderTrailer) : HeaderTrailer :=
  mkHT (magic0 h) (magic1 h) (ht_size h) (flags h) (index_offset h) (index_size h) v (uuid h)
    (parent_uuid h) (reserved h) (version h) (sub_version h) (user_tag h).

(** [set_tag]; a copy of less than 256 bytes keeps what follows. *)
Definition set_tag (buf : list Z) (h : HeaderTrailer) : HeaderTrailer * Z :=
  if TAG_SIZE <? len buf then (h, -1)
  else if len buf =? 0 then (with_user_tag (zeros TAG_SIZE) h, 0)
  else (with_user_tag (buf ++ drop (length buf) (user_tag h)) h, 0).

(** The packed structure, and reading it back field by field. *)
Definition ht_bytes (h : HeaderTrailer) : list Z :=
  le_bytes 8 (magic0 h) ++ magic1 h ++ le_bytes 4 (ht_size h) ++ le_bytes 4 (flags h) ++
  le_bytes 8 (index_offset h) ++ le_bytes 8 (index_size h) ++ le_bytes 8 (ht_virtual_size h) ++
  uuid h ++ parent_uuid h ++ le_bytes 2 (reserved h) ++ le_bytes 1 (version h) ++ le_bytes 1 (sub_version h) ++
  user_tag h.

Definition get_ht : M (list Z) HeaderTrailer :=
  m0 ← get_le 8; m1 ← get_bytes 16; sz ← get_le 4; fl ← get_le 4;
  io ← get_le 8; isz ← get_le 8; vs ← get_le 8;
  uu ← get_bytes 37; pu ← get_bytes 37; rs ← get_le 2; ve ← get_le 1; sv ← get_le 1;
  ut ← get_bytes 256;
  mret (mkHT m0 m1 sz fl io isz vs uu pu rs ve sv ut).
Definition parse_ht (l : list Z) : HeaderTrailer :=
  match get_ht l with
  | Some (h, _) => h
  | None => mkHT 0 [] 0 0 0 0 0 [] [] 0 0 0 []
  end.

(** The fields have their widths. *)
Record ht_ok (h : HeaderTrailer) : Prop := {
  ho_magic0 : 0 <= magic0 h < 2 ^ 64;
  ho_magic1 : length (magic1 h) = 16%nat;
  ho_size : 0 <= ht_size h < 2 ^ 32;
  ho_flags : 0 <= flags h < 2 ^ 32;
  ho_index_offset : 0 <= index_offset h < 2 ^ 64;
  ho_index_size : 0 <= index_size h < 2 ^ 64;
  ho_virtual_size : 0 <= ht_virtual_size h < 2 ^ 64;
  ho_uuid : length (uuid h) = 37%nat;
  ho_parent_uuid : length (parent_uuid h) = 37%nat;
  ho_reserved : 0 <= reserved h < 2 ^ 16;
  ho_version : 0 <= version h < 2 ^ 8;
  ho_sub_version : 0 <= sub_version h < 2 ^ 8;
  ho_user_tag : length (user_tag h) = 256%nat
}.

(** ** Writing and checking headers *)

Record LayerInfo := mkLayer {
  li_virtual_size : Z;
  li_uuid : list Z;
  li_parent_uuid : list Z;
  li_user_tag : list Z;
  li_sparse_rw : bool
}.

(** The header that [write_header_trailer] fills; [None] when the tag is too
    long. *)
Definition make_header `{UUIDs} (is_header is_sealed is_data_file : bool) (index_offset index_size : Z)
    (args : LayerInfo) : option HeaderTrailer :=
  let h := mkHT MAGIC0 MAGIC1 sizeof_HeaderTrailer 0 (u64 index_offset) (u64 index_size) (u64 (li_virtual_size args))
    (uuid_string (li_uuid args)) (uuid_string (li_parent_uuid args)) 0 1 1 (zeros TAG_SIZE) in
  let h := (if is_header then set_header else set_trailer) h in
  let h := (if is_sealed then set_sealed else clr_sealed) h in
  let h := (if is_data_file then set_data_file else set_index_file) h in
  let h := (if li_sparse_rw args then set_sparse_rw else clr_sparse_rw) h in
  let '(h, ret) := set_tag (li_user_tag args) h in
  if ret =? 0 then Some h else None.

Definition header_block (h : HeaderTrailer) : list Z := ht_bytes h ++ zeros (SPACE - sizeof_HeaderTrailer).

Section headers.
Context {W : Type} `{IFiles W, UUIDs}.

Definition write_header_trailer (file : Z) (is_header is_sealed is_data_file : bool) (index_offset index_size : Z)
    (args : LayerInfo) : M W Z :=
  match make_header is_header is_sealed is_data_file index_offset index_size args with
  | None => mret (-1)
  | Some h => ret ← f_write file (header_block h); mret (s32 ret)
  end.

(** [verify_ht]; [None] is the null pointer.  [st_size] is -1 when the caller does
    not know it. *)
Definition verify_ht (file : Z) (trailer : bool) (st_size : Z) : M W (option HeaderTrailer) :=
  if negb trailer then
    '(ret, buf) ← f_pread file SPACE 0;
    if ret <? SPACE then mret None
    else
      let pht := parse_ht buf in
      mret (if negb (verify_magic pht) || negb (is_header pht) then None else Some pht)
  else
    st_size ← (if st_size =? -1 then '(_, size) ← f_fstat file; mret size else mret st_size);
    '(ret, buf) ← f_pread file SPACE (st_size - SPACE);
    if ret <? SPACE then mret None
    else
      let pht := parse_ht buf in
      mret (if negb (verify_magic pht) || negb (is_trailer pht) || negb (is_data_file pht) || negb (is_sealed pht)
            then None else Some pht).

(** [is_lsmt]: 0 yes, 1 no, -1 when the file cannot be read. *)
Definition is_lsmt (file : Z) : M W Z :=
  '(ret, buf) ← f_pread file SPACE 0;
  if ret <? SPACE then mret (-1)
  else
    let pht := parse_ht buf in
    mret (if negb (verify_magic pht) || negb (is_header pht) then 1 else 0).

(** ** Loading an index *)

Inductive SegmentType := fsMeta | remoteData.
Definition SegmentType_value (t : SegmentType) : Z := match t with fsMeta => 0 | remoteData => 1 end.

(** Drop the padding, and set the tag to 0 in a file that is not a warp file. *)
Definition compact_index (warp_file_tag : Z) (l : list SegmentMapping) : list SegmentMapping :=
  (fun m => with_tag (if warp_file_tag =? 0 then 0 else tag m) m) <$>
  filter (fun m : SegmentMapping => offset m <> INVALID_OFFSET) l.

Definition rebuild_tags (warp_file_tag : Z) (l : list SegmentMapping) : list SegmentMapping :=
  let min_tag := foldl (fun t (m : SegmentMapping) => if tag m <? t then tag m else t) 255 l in
  (fun m =>
     let m := if warp_file_tag =? 1 then with_tag (SegmentType_value fsMeta) m else m in
     let m := if warp_file_tag =? 2 then with_tag (SegmentType_value remoteData) m else m in
     if warp_file_tag =? 3 then with_tag (u8 (tag m - min_tag)) m else m) <$> l.

(** [do_load_index]: the header or trailer with the number of mappings, and the
    mappings.  The buffer has [index_size] mappings; reading more bytes than that
    would corrupt memory. *)
Definition do_load_index (file : Z) (trailer : bool) (warp_file_tag : Z) : M W (option (HeaderTrailer * list SegmentMapping)) :=
  pht ← verify_ht file false (-1);
  match pht with
  | None => mret None
  | Some pht =>
    '(ret, st_size) ← f_fstat file;
    if ret <? 0 then mret None
    else
      BUG_ON (is_sparse_rw pht);;
      where_ ← (if trailer then
          if negb (is_data_file pht) then mret None
          else
            pht ← verify_ht file true st_size;
            match pht with
            | None => mret None
            | Some pht =>
              let trailer_offset := st_size - SPACE in
              let index_bytes := u64 (index_size pht * sizeof_SegmentMapping) in
              mret (if u64 (trailer_offset - index_offset pht) <? index_bytes then None else Some (pht, index_bytes))
            end
        else
          if negb (is_index_file pht) || is_sealed pht then mret None
          else if negb (index_offset pht =? SPACE) then mret None
          else
            let index_bytes := u64 (st_size - SPACE) in
            mret (Some (with_index_size (index_bytes / sizeof_SegmentMapping) pht, index_bytes)));
      match where_ with
      | None => mret None
      | Some (pht, index_bytes) =>
        let buffer := u64 (index_size pht * sizeof_SegmentMapping) in
        '(ret, ibuf) ← f_pread file index_bytes (s64 (index_offset pht));
        BUG_ON (buffer <? len ibuf);;
        if s32 ret <? s64 index_bytes then mret None
        else
          BUG_ON (len ibuf <? index_size pht * sizeof_SegmentMapping);;
          let l := compact_index warp_file_tag (parse_mappings (Z.to_nat (index_size pht)) ibuf) in
          let l := if warp_file_tag =? 0 then l else rebuild_tags warp_file_tag l in
          mret (Some (with_index_size (Z.of_nat (length l)) pht, l))
      end
  end.

(** ** Opening *)

Inductive LSMTFileType := RO | RW | SparseRW | WarpFileRO | WarpFile.

(** An open image: the fields of a file that opening sets. *)
Record opened (I : Type) := mkOpened {
  o_type : LSMTFileType;
  o_index : I;
  o_files : list Z;
  o_findex : option Z;
  o_uuid : list (option (list Z));
  o_vsize : Z;
  o_rw_tag : Z
}.
#[global] Arguments mkOpened {_}.
#[global] Arguments o_type {_}.
#[global] Arguments o_index {_}.
#[global] Arguments o_files {_}.
#[global] Arguments o_findex {_}.
#[global] Arguments o_uuid {_}.
#[global] Arguments o_vsize {_}.
#[global] Arguments o_rw_tag {_}.

(** The state of a fresh file object. *)
Definition as_file {I} (o : opened I) (w : W) : lsmt_file I W :=
  mkFile (o_index o) (o_files o) (o_findex o) (o_rw_tag o) (o_vsize o) (4 * 1024 * 1024) (SPACE / ALIGNMENT) [] 0 0 0 w.

Definition open_file_ro (file : Z) : M W (option (opened Index)) :=
  p ← do_load_index file true 0;
  match p with
  | None => mret None
  | Some (ht, p) =>
    match create_memory_index p (SPACE / ALIGNMENT) (index_offset ht / ALIGNMENT) 0 with
    | None => mret None
    | Some pi => mret (Some (mkOpened RO pi [file] None [uuid_parse (uuid ht)] (ht_virtual_size ht) 0))
    end
  end.

Definition open_file_index (file : Z) : M W (option Index) :=
  p ← do_load_index file true 0;
  match p with
  | None => mret None
  | Some (ht, p) => mret (create_memory_index p (SPACE / ALIGNMENT) (index_offset ht / ALIGNMENT) (ht_virtual_size ht))
  end.

Definition open_files_with_merged_index (src_files : list Z) (index : Index) : opened Index :=
  mkOpened RO index src_files None (replicate (length src_files) None) (virtual_size index) 0.

Definition open_warpfile_ro (warpfile target_file : option Z) : M W (option (opened Index)) :=
  match warpfile, target_file with
  | Some warpfile, Some target_file =>
    p ← do_load_index warpfile true 3;
    match p with
    | None => mret None
    | Some (ht, p) =>
      match create_memory_index p 0 (u64 (-1)) 0 with
      | None => mret None
      | Some pi =>
        mret (Some (mkOpened WarpFileRO pi [warpfile; target_file] None [uuid_parse (uuid ht)] (ht_virtual_size ht) 0))
      end
    end
  | _, _ => mret None
  end.

(** The segments of at most the maximal length for one extent of data. *)
Fixpoint extent_mappings (fuel : nat) (prev_offset total_length prev_moffset : Z) : option (list SegmentMapping) :=
  match fuel with
  | O => None
  | S fuel =>
    if MAX_LENGTH <? total_length then
      m ← SegmentMapping_new prev_offset MAX_LENGTH prev_moffset 0;
      l ← extent_mappings fuel (prev_offset + MAX_LENGTH) (total_length - MAX_LENGTH) (prev_moffset + MAX_LENGTH);
      Some (m :: l)
    else
      m ← SegmentMapping_new prev_offset (u32 total_length) prev_moffset 0;
      Some [m]
  end.
End headers.

Section sparse.
Context {W : Type} `{IFiles W, ISparseFiles W, UUIDs}.

(** [LSMTSparseFile::create_mappings]: the extents of data from [moffset] on.
    [None] is the result -1; every round begins behind the round before, in the
    file. *)
Fixpoint create_mappings_loop (fuel : nat) (file moffset base : Z) (mappings : list SegmentMapping) :
    M W (option (list SegmentMapping)) :=
  match fuel with
  | O => bug
  | S fuel =>
    let stop errno := mret (if negb (errno =? ENXIO) then None else Some mappings) in
    '(begin, errno) ← f_seek_data file moffset;
    if begin =? -1 then stop errno
    else
      '(end', errno) ← f_seek_hole file begin;
      if end' =? -1 then stop errno
      else
        let total_length := u64 ((end' - begin) / ALIGNMENT) in
        l ← lift (extent_mappings (S (Z.to_nat total_length)) (u64 (begin - base) / ALIGNMENT) total_length (u64 (begin / ALIGNMENT)));
        create_mappings_loop fuel file end' base (mappings ++ l)
  end.
Definition create_mappings (size file base : Z) : M W (option (list SegmentMapping)) :=
  create_mappings_loop (S (Z.to_nat size)) file base base [].

(** [open_file_rw]: the header that tells the kind of the file is the one of the
    data file for a sparse file, the one of the index file otherwise. *)
Definition open_file_rw (fdata : Z) (findex : option Z) : M W (option (opened Index0)) :=
  pht ← verify_ht fdata false (-1);
  match pht with
  | None => mret None
  | Some pht =>
    match is_sparse_rw pht, findex with
    | false, None => mret None
    | sparse, _ =>
      '(ret, st_size) ← f_fstat fdata;
      if ret <? 0 then mret None
      else
        loaded ← (if negb sparse then
            findex ← lift findex;
            p ← do_load_index findex false 0;
            match p with
            | None => mret None
            | Some (ht, p) =>
              pi ← lift (create_memory_index0 p (SPACE / ALIGNMENT) (st_size / ALIGNMENT));
              mret ((fun pi => (ht, pi)) <$> pi)
            end
          else
            mappings ← create_mappings st_size fdata SPACE;
            match mappings with
            | None => mret None
            | Some mappings =>
              pi ← lift (create_memory_index0 mappings (SPACE / ALIGNMENT) (st_size / ALIGNMENT));
              mret ((fun pi => (pht, pi)) <$> pi)
            end);
        match loaded with
        | None => mret None
        | Some (pht, pi) =>
          mret (Some (mkOpened (if is_sparse_rw pht then SparseRW else RW) pi [fdata] findex
            [uuid_parse (uuid pht)] (ht_virtual_size pht) 0))
        end
    end
  end.

(** [create_file_rw]; the results of the writes are not used. *)
Definition create_file_rw (fdata findex : option Z) (args : LayerInfo) : M W (option (opened Index0)) :=
  match li_sparse_rw args, fdata, findex with
  | false, None, _ | false, _, None => mret None
  | sparse, _, _ =>
    pi ← lift (create_memory_index0 [] 0 0);
    index ← lift pi;
    fd ← lift fdata;
    write_header_trailer fd true false true 0 0 args;;
    (if sparse then mret 0
     else fi ← lift findex; write_header_trailer fi true false false SPACE 0 args);;
    (if sparse then f_ftruncate fd (li_virtual_size args + SPACE) else mret 0);;
    mret (Some (mkOpened (if sparse then SparseRW else RW) index [fd] findex [Some (li_uuid args)] (li_virtual_size args) 0))
  end.

(** ** Warp files *)

Definition create_warpfile (findex fsmeta target_file : Z) (args : LayerInfo) : M W (option (opened Index0)) :=
  write_header_trailer findex true false false SPACE 0 args;;
  pi ← lift (create_memory_index0 [] 0 0);
  index ← lift pi;
  f_ftruncate fsmeta (li_virtual_size args);;
  mret (Some (mkOpened WarpFile index [fsmeta; target_file] (Some findex) [Some (li_uuid args)] (li_virtual_size args) 0)).

(** [open_warpfile_rw] does not look at the result of loading the index: with a
    null pointer it goes on with a header that has no values. *)
Definition open_warpfile_rw (findex fsmeta_file target_file : Z) : M W (option (opened Index0)) :=
  p ← do_load_index findex false 3;
  '(ht, p) ← lift p;
  pi ← lift (create_memory_index0 p 0 (u64 (-1)));
  match pi with
  | None => mret None
  | Some pi =>
    mret (Some (mkOpened WarpFile pi [fsmeta_file; target_file] (Some findex) [uuid_parse (uuid ht)] (ht_virtual_size ht) 0))
  end.

(** ** Layers *)

(** What [do_parallel_load_index] finds about a file that is itself an open image
    ([copy_lsmt_index]): the mappings of its index, its size and its UUID. *)
Record nested := mkNested { n_mappings : list SegmentMapping; n_size : Z; n_uuid : list Z }.

(** One job: the index of a layer with the virtual size and the UUID. *)
Definition load_layer (as_lsmt : Z -> option nested) (file : Z) : M W (option (Index * Z * option (list Z))) :=
  match as_lsmt file with
  | Some n =>
    let p := (fun m : SegmentMapping => with_moffset (u55 (offset m)) (with_tag 0 m)) <$> n_mappings n in
    mret ((fun pi => (pi, n_size n, uuid_parse (uuid_string (n_uuid n)))) <$>
      create_memory_index p 0 (u64 (-1) / ALIGNMENT) 0)
  | None =>
    p ← do_load_index file true 0;
    match p with
    | None => mret None
    | Some (ht, p) =>
      mret ((fun pi => (pi, ht_virtual_size ht, uuid_parse (uuid ht))) <$>
        create_memory_index p (SPACE / ALIGNMENT) (index_offset ht / ALIGNMENT) 0)
    end
  end.

(** The jobs; an error of one of them is an error of all. *)
Fixpoint load_layers (as_lsmt : Z -> option nested) (files : list Z) : M W (option (list (Index * Z * option (list Z)))) :=
  match files with
  | [] => mret (Some [])
  | f :: files =>
    r ← load_layer as_lsmt f;
    match r with
    | None => mret None
    | Some x => rs ← load_layers as_lsmt files; mret (cons x <$> rs)
    end
  end.

(** [load_merge_index]: from the top layer down the first virtual size that is not
    zero; [vsize] is not written when there is none. *)
Definition load_merge_index (as_lsmt : Z -> option nested) (files : list Z) (vsize : Z) :
    M W (option (Index * list Z * list (option (list Z)) * Z)) :=
  jobs ← load_layers as_lsmt files;
  match jobs with
  | None => mret None
  | Some jobs =>
    let jobs := reverse jobs in
    let vsize := default vsize (head (filter (fun v => 0 < v) ((fun j => snd (fst j)) <$> jobs))) in
    pmi ← lift (merge_memory_indexes ((fun j => fst (fst j)) <$> jobs));
    match pmi with
    | None => mret None
    | Some pmi => mret (Some (pmi, reverse files, snd <$> jobs, vsize))
    end
  end.

Definition open_files_ro (as_lsmt : Z -> option nested) (files : list Z) (vsize : Z) : M W (option (opened Index)) :=
  if MAX_STACK_LAYERS <? Z.of_nat (length files) then mret None
  else if (length files =? 0)%nat then mret None
  else
    r ← load_merge_index as_lsmt files vsize;
    match r with
    | None => mret None
    | Some (pmi, m_files, m_uuid, vsize) => mret (Some (mkOpened RO pmi m_files None m_uuid vsize 0))
    end.

(** ** Stacking *)

(** The field [virtual_size] is at byte 48. *)
Definition update_header_vsize (file vsize : Z) : M W Z :=
  '(ret, buf) ← f_pread file SPACE 0;
  if negb (ret =? SPACE) then mret (-1)
  else
    ret ← f_pwrite file (splice 48 (le_bytes 8 (u64 vsize)) buf) 0;
    if negb (ret =? SPACE) then mret (-1) else mret 0.

(** [update_vsize] of the three kinds of writable files. *)
Definition update_vsize (o : opened Index0) (vsize : Z) : M W Z :=
  file ← lift (o_files o !! Z.to_nat (o_rw_tag o));
  r ← update_header_vsize file vsize;
  if r <? 0 then mret (-1)
  else
    match o_type o with
    | SparseRW => f_ftruncate file (vsize + SPACE);; mret 0
    | _ =>
      findex ← lift (o_findex o);
      r ← update_header_vsize findex vsize;
      mret (if r <? 0 then -1 else 0)
    end.

(** [load_layer_info] for one file: the parent, when its string is a UUID. *)
Definition load_parent_uuid (file : Z) : M W (option (list Z)) :=
  '(ret, buf) ← f_pread file SPACE 0;
  if negb (ret =? SPACE) then mret None
  else mret (Some (default uuid_null (uuid_parse (parent_uuid (parse_ht buf))))).

(** [verify_order] from a layer on; [parent] is what the layer above names.  The
    UUID of a layer whose string is not one has no value. *)
Definition layer_differs (u : option (list Z)) (parent : list Z) : M W bool :=
  if bool_decide (parent = uuid_null) then mret false
  else u ← lift u; mret (bool_decide (u <> parent)).
Fixpoint verify_order_loop (layers : list Z) (uuids : list (option (list Z))) (parent : list Z) : M W bool :=
  match layers, uuids with
  | f :: layers, u :: uuids =>
    p ← load_parent_uuid f;
    match p with
    | None => mret false
    | Some p =>
      differs ← layer_differs u parent;
      if (differs : bool) then mret false
      else verify_order_loop layers uuids
        (match layers with [] => parent | _ => default parent (uuid_parse (uuid_string p)) end)
    end
  | _, _ => mret true
  end.
Definition verify_order (layers : list Z) (uuids : list (option (list Z))) (start_layer : nat) : M W bool :=
  verify_order_loop (drop start_layer layers) (drop start_layer uuids) uuid_null.

(** [stack_files]: a writable image over read-only layers. *)
Definition stack_files (u : opened Index0) (l : opened Index) (check_order : bool) : M W (option (opened ComboIndex)) :=
  let warp := match o_type u with WarpFile => true | _ => false end in
  kind ← (if warp then mret (Some (WarpFile, o_vsize u))
    else
      file ← lift (o_files u !! O);
      pht ← verify_ht file false (-1);
      match pht with
      | None => mret None
      | Some pht =>
        r ← (if o_vsize u =? 0 then update_vsize u (o_vsize l) else mret 0);
        if r <? 0 then mret None
        else mret (Some (if is_sparse_rw pht then SparseRW else RW, if o_vsize u =? 0 then o_vsize l else o_vsize u))
      end);
  match kind with
  | None => mret None
  | Some (type, vsize) =>
    idx ← lift (create_combo_index (Some (o_index u)) (Some (o_index l)) (Z.of_nat (length (o_files l))));
    let files := o_files l in let uuids := o_uuid l in
    ok ← (if check_order then verify_order files uuids 1 else mret true);
    if negb ok then mret None
    else
      f0 ← lift (o_files u !! O);
      f1 ← (if warp then f ← lift (o_files u !! 1%nat); mret [f] else mret []);
      u0 ← lift (o_uuid u !! O);
      let files := files ++ f0 :: f1 in
      mret (Some (mkOpened type idx files (o_findex u) (uuids ++ [u0]) vsize
        (u8 (Z.of_nat (length files) - (if warp then 2 else 1)))))
  end.
End sparse.

(** ** Headers *)

Lemma parse_ht_bytes h rest : ht_ok h -> parse_ht (ht_bytes h ++ rest) = h.
Proof.
  intros []. unfold parse_ht, get_ht, ht_bytes. rewrite <- !app_assoc.
  do 13 (rewrite bind_run; first [rewrite get_le_run by assumption | rewrite get_bytes_run by assumption]).
  by destruct h.
Qed.

Lemma length_ht_bytes h : ht_ok h -> length (ht_bytes h) = 390%nat.
Proof.
  intros []. unfold ht_bytes. rewrite !length_app, !length_le_bytes.
  repeat match goal with E : length _ = _ |- _ => rewrite E; clear E end. reflexivity.
Qed.

Lemma len_header_block h : ht_ok h -> len (header_block h) = SPACE.
Proof.
  intros Hh. unfold header_block. rewrite len_app, len_zeros by done. unfold len. by rewrite length_ht_bytes.
Qed.

(** The fields of a layer that fit into a header. *)
Definition layer_ok (args : LayerInfo) : Prop :=
  0 <= li_virtual_size args < 2 ^ 64 /\ len (li_user_tag args) <= TAG_SIZE.

Record header_for `{UUIDs} (is_header' is_sealed' is_data_file' : bool) (io isz : Z) (args : LayerInfo) (h : HeaderTrailer) : Prop := {
  hf_ok : ht_ok h;
  hf_magic : verify_magic h = true;
  hf_header : is_header h = is_header';
  hf_sealed : is_sealed h = is_sealed';
  hf_data : is_data_file h = is_data_file';
  hf_sparse : is_sparse_rw h = li_sparse_rw args;
  hf_offset : index_offset h = io;
  hf_index_size : index_size h = isz;
  hf_vsize : ht_virtual_size h = li_virtual_size args;
  hf_uuid : uuid h = uuid_string (li_uuid args);
  hf_parent : parent_uuid h = uuid_string (li_parent_uuid args)
}.

Lemma header_flags `{UUIDs} (a b c d : bool) h : flags h = 0 ->
  let h1 := (if a then set_header else set_trailer) h in
  let h2 := (if b then set_sealed else clr_sealed) h1 in
  let h3 := (if c then set_data_file else set_index_file) h2 in
  let h4 := (if d then set_sparse_rw else clr_sparse_rw) h3 in
  is_header h4 = a /\ is_sealed h4 = b /\ is_data_file h4 = c /\ is_sparse_rw h4 = d /\ 0 <= flags h4 < 2 ^ 32 /\
  h4 = with_flags (flags h4) h.
Proof. intros Hf. destruct h; simpl in Hf; subst. destruct a, b, c, d; vm_compute; split_and!; done. Qed.

Lemma make_header_run `{UUIDsLaws} a b c io isz args : layer_ok args -> 0 <= io < 2 ^ 64 -> 0 <= isz < 2 ^ 64 ->
  exists h, make_header a b c io isz args = Some h /\ header_for a b c io isz args h.
Proof.
  intros (Hv & Ht) Hio Hisz. unfold make_header.
  set (h0 := mkHT MAGIC0 _ _ _ _ _ _ _ _ _ _ _ _). destruct (header_flags a b c (li_sparse_rw args) h0 eq_refl) as (Ha & Hb & Hc & Hd & Hfl & Heq).
  set (h4 := (if li_sparse_rw args then _ else _) _) in *. clearbody h4. unfold set_tag.
  destruct (Z.ltb_spec TAG_SIZE (len (li_user_tag args))); [lia|].
  assert (forall t, length t = 256%nat -> header_for a b c io isz args (with_user_tag t h4)) as Hfor.
  { intros t Hlt. rewrite Heq in *. split; try done; simpl; try by rewrite u64_small by lia.
    split; simpl; try done; try (rewrite u64_small by lia; lia); apply uuid_string_length. }
  destruct (Z.eqb_spec (len (li_user_tag args)) 0); cbn [Z.eqb]; eexists; (split; [done|]); apply Hfor.
  - done.
  - rewrite Heq. change (user_tag (with_flags _ h0)) with (zeros TAG_SIZE). unfold zeros.
    rewrite length_app, length_drop, length_replicate. unfold len, TAG_SIZE in *. lia.
Qed.

(** ** Creating and opening files *)

Section opening.
Context {W : Type} `{IFilesLaws W, ISparseFiles W, UUIDsLaws}.

(** A file that was just created. *)
Definition fresh (w : W) (f : Z) : Prop := contents w f = [] /\ position w f = 0.

Lemma splice_empty data : splice 0 data [] = data.
Proof. unfold splice. simpl. rewrite drop_nil. apply app_nil_r. Qed.

Lemma write_header_run w f a b c io isz args h : fresh w f -> make_header a b c io isz args = Some h -> ht_ok h ->
  exists w', write_header_trailer f a b c io isz args w = Some (SPACE, w') /\ contents w' f = header_block h /\
    forall g, g <> f -> contents w' g = contents w g /\ position w' g = position w g.
Proof.
  intros [Hc Hp] Hh Hok. pose proof (len_header_block h Hok) as Hl. unfold SPACE in Hl.
  destruct (write_law w f (header_block h)) as (w' & Hrun & Hcont & _ & Ho); [rewrite Hc, Hp; done|rewrite Hp; lia|].
  exists w'. rewrite Hc, Hp, splice_empty in Hcont. split; [|done].
  unfold write_header_trailer. rewrite Hh, bind_run, Hrun, Hl. done.
Qed.

(** Reading the header of a file that starts with it. *)
Lemma read_header w f h rest : ht_ok h -> contents w f = header_block h ++ rest ->
  exists buf, f_pread f SPACE 0 w = Some ((SPACE, buf), w) /\ parse_ht buf = h.
Proof.
  intros Hok Hc. pose proof (len_header_block h Hok) as Hl.
  destruct (pread_law w f SPACE 0) as (buf & -> & Hrun); [done|done|]. exists (header_block h).
  change (Z.to_nat 0) with O in Hrun. rewrite Hc, drop_0 in Hrun. rewrite take_app_le in Hrun by (unfold len in Hl; lia).
  rewrite take_ge in Hrun by (unfold len in Hl; lia). rewrite Hl in Hrun. split; [exact Hrun|].
  unfold header_block. by apply parse_ht_bytes.
Qed.

Lemma verify_header_run w f h rest : ht_ok h -> verify_magic h = true -> is_header h = true ->
  contents w f = header_block h ++ rest -> verify_ht f false (-1) w = Some (Some h, w).
Proof.
  intros Hok Hm Hh Hc. destruct (read_header w f h rest Hok Hc) as (buf & Hrun & Hp).
  unfold verify_ht. cbn [negb]. rewrite bind_run, Hrun. cbn [fst snd]. rewrite Z.ltb_irrefl, Hp, Hm, Hh. done.
Qed.

(** The mappings that loading makes of the records of an index file. *)
Definition loaded (recs : list SegmentMapping) : list SegmentMapping := with_tag 0 <$> real recs.

(** The header of an index file. *)
Definition index_header (h : HeaderTrailer) : Prop :=
  ht_ok h /\ verify_magic h = true /\ is_header h = true /\ is_sealed h = false /\ is_data_file h = false /\
  is_sparse_rw h = false /\ index_offset h = SPACE.

(** An index file with [recs] after its header. *)
Lemma load_index_run w f h recs : index_header h -> contents w f = header_block h ++ mappings_bytes recs ->
  Forall fields_ok recs -> 16 * Z.of_nat (length recs) < 2 ^ 31 ->
  do_load_index f false 0 w =
  Some (Some (with_index_size (Z.of_nat (length (loaded recs))) (with_index_size (Z.of_nat (length recs)) h), loaded recs), w).
Proof.
  intros (Hok & Hm & Hh & Hs & Hd & Hsp & Hio) Hc Hfo Hn. pose proof (len_header_block h Hok) as Hl.
  pose proof (len_mappings_bytes recs) as Hlm. set (n := Z.of_nat (length recs)) in *.
  unfold do_load_index. rewrite bind_run, (verify_header_run w f h _ Hok Hm Hh Hc).
  rewrite bind_run, fstat_law. cbn iota beta. change (0 <? 0) with false. cbn iota.
  assert (len (contents w f) = SPACE + 16 * n) as Hsz by (rewrite Hc, len_app; lia).
  rewrite bind_run, Hsp. unfold BUG_ON at 1. cbn [mret M_ret]. rewrite bind_run.
  unfold is_index_file. rewrite Hd, Hs, Hio. cbn [negb orb]. rewrite Z.eqb_refl. cbn [negb mret M_ret].
  rewrite Hsz. replace (SPACE + 16 * n - SPACE) with (16 * n) by lia. rewrite u64_small by lia.
  replace (16 * n / sizeof_SegmentMapping) with n by (unfold sizeof_SegmentMapping; dlia).
  cbn [index_size with_index_size index_offset]. rewrite Hio. change (s64 SPACE) with SPACE.
  unfold sizeof_SegmentMapping. rewrite (u64_small (n * 16)), (s64_small (16 * n)) by lia.
  destruct (pread_law w f (16 * n) SPACE) as (buf & Hbuf & Hrun); [lia|done|].
  assert (buf = mappings_bytes recs) as ->.
  { rewrite Hbuf, Hc, drop_app_length' by (unfold len in Hl; lia). apply take_ge. unfold len in *. lia. }
  rewrite bind_run, Hrun. cbn iota beta. rewrite Hlm, bind_run. unfold BUG_ON.
  destruct (Z.ltb_spec (n * 16) (16 * n)); [lia|]. cbn [mret M_ret]. rewrite s32_small by lia. rewrite Z.ltb_irrefl.
  rewrite bind_run. destruct (Z.ltb_spec (16 * n) (n * 16)); [lia|]. cbn [mret M_ret]. change (0 =? 0) with true. cbn iota.
  unfold n. rewrite Nat2Z.id. rewrite <- (app_nil_r (mappings_bytes recs)), parse_mappings_bytes by done. done.
Qed.

Definition data_header (h : HeaderTrailer) : Prop :=
  ht_ok h /\ verify_magic h = true /\ is_header h = true /\ is_sparse_rw h = false.

Lemma create_run w fd fi args : fresh w fd -> fresh w fi -> fd <> fi -> layer_ok args -> li_sparse_rw args = false ->
  exists hd hi w', create_file_rw (Some fd) (Some fi) args w =
    Some (Some (mkOpened RW Index0_empty [fd] (Some fi) [Some (li_uuid args)] (li_virtual_size args) 0), w') /\
    data_header hd /\ index_header hi /\ ht_virtual_size hi = li_virtual_size args /\ uuid hi = uuid_string (li_uuid args) /\
    contents w' fd = header_block hd /\ contents w' fi = header_block hi.
Proof.
  intros Hfd [Hfc Hfp] Hne Hl Hsp.
  destruct (make_header_run true false true 0 0 args Hl) as (hd & Hmd & Hd); [done|done|].
  destruct (make_header_run true false false SPACE 0 args Hl) as (hi & Hmi & Hi); [done|done|].
  destruct (write_header_run w fd _ _ _ _ _ _ _ Hfd Hmd (hf_ok _ _ _ _ _ _ _ Hd)) as (w1 & Hrun1 & Hc1 & Ho1).
  destruct (Ho1 fi) as [Hci Hpi]; [done|].
  destruct (write_header_run w1 fi _ _ _ _ _ _ _ (conj (eq_trans Hci Hfc) (eq_trans Hpi Hfp)) Hmi (hf_ok _ _ _ _ _ _ _ Hi))
    as (w2 & Hrun2 & Hc2 & Ho2).
  destruct (Ho2 fd Hne) as [Hcd _]. exists hd, hi, w2. destruct Hd, Hi. split.
  - unfold create_file_rw. rewrite Hsp. unfold lift, mbind, M_bind. cbn. rewrite Hrun1, Hrun2. done.
  - unfold data_header, index_header. split_and!; done || congruence.
Qed.

Lemma loaded_wf recs : Forall wf (real recs) -> Forall wf (loaded recs).
Proof.
  intros Hf. unfold loaded. apply Forall_fmap. apply (Forall_impl _ _ _ Hf). intros m Hm. unfold wf, mend, end_ in *. simpl. lia.
Qed.

Lemma reopen_run w fd fi hd hi ext recs : data_header hd -> index_header hi ->
  contents w fd = header_block hd ++ ext -> contents w fi = header_block hi ++ mappings_bytes recs ->
  Forall fields_ok recs -> 16 * Z.of_nat (length recs) < 2 ^ 31 ->
  Forall (fun m => wf m /\ SPACE <= moffset m * ALIGNMENT /\ mend m * ALIGNMENT <= len (contents w fd)) (real recs) ->
  exists i, open_file_rw fd (Some fi) w =
    Some (Some (mkOpened RW i [fd] (Some fi) [uuid_parse (uuid hi)] (ht_virtual_size hi) 0), w) /\
    index0_valid i /\ forall x, den (mapping0 i) x = den (reverse (loaded recs)) x.
Proof.
  intros (Hok & Hm & Hh & Hsp) Hi Hcd Hci Hfo Hn Hpl.
  destruct (insert_all_valid (loaded recs) Index0_empty) as (i & Hins & Hvi & Hden); [done|apply loaded_wf; apply (Forall_impl _ _ _ Hpl); tauto|].
  exists i. split; [|split; [done|intros x; rewrite Hden; by destruct (den (reverse (loaded recs)) x)]].
  assert (create_memory_index0 (loaded recs) (SPACE / ALIGNMENT) (len (contents w fd) / ALIGNMENT) = Some (Some i)) as Hcreate.
  { unfold create_memory_index0, Index0_new. rewrite Hins.
    assert (verify_mapping_moffset (loaded recs) (SPACE / ALIGNMENT) (len (contents w fd) / ALIGNMENT) = true) as ->; [|done].
    apply forallb_forall. intros m Hin%list_elem_of_In. unfold loaded in Hin. apply list_elem_of_fmap in Hin as (m0 & -> & Hin).
    rewrite Forall_forall in Hpl. destruct (Hpl m0 Hin) as (Hw & Hlo & Hhi). unfold wf, within, mend, end_ in *. simpl.
    unfold SPACE, ALIGNMENT in *. destruct (zeroed m0); rewrite !andb_true_iff, !Z.leb_le, ?Z.ltb_lt; dlia. }
  unfold open_file_rw, mbind, M_bind, lift. rewrite (verify_header_run w fd hd _ Hok Hm Hh Hcd), Hsp.
  rewrite fstat_law. cbn [negb Z.ltb Z.compare fmap option_fmap option_map].
  rewrite (load_index_run w fi hi recs Hi Hci Hfo Hn), Hcreate. cbn [fmap option_fmap option_map mret M_ret].
  destruct Hi as (_ & _ & _ & _ & _ & Hspi & _). change (is_sparse_rw (with_index_size _ (with_index_size _ hi))) with (is_sparse_rw hi).
  rewrite Hspi. done.
Qed.

(** A created file is a writable image that reads as zeros. *)
Lemma created_file w fd fi args h hi : let o := mkOpened RW Index0_empty [fd] (Some fi) [Some (li_uuid args)] (li_virtual_size args) 0 in
  fd <> fi -> ht_ok h -> ht_ok hi -> contents w fd = header_block h -> contents w fi = header_block hi ->
  rw_inv fi (header_block hi) (den []) (as_file o w) /\ rw_len (as_file o w) = SPACE /\ fi_len fi (as_file o w) = SPACE /\
  forall x, disk_of (as_file o w) x = zeros ALIGNMENT.
Proof.
  intros o Hne Hh Hhi Hcd Hci. pose proof (len_header_block h Hh) as Hl. pose proof (len_header_block hi Hhi) as Hli.
  split; [|split; [unfold rw_len; simpl; by rewrite Hcd|split; [unfold fi_len; simpl; by rewrite Hci|done]]].
  pose proof (rw_inv_initial (I := Index0) (W := W) fi (as_file o w)) as Hinit.
  cbn [as_file m_index o o_index world m_files m_rw_tag MAX_IO_SIZE m_findex o_files o_findex o_rw_tag m_stacked_mappings nmapping] in Hinit.
  rewrite Hci in Hinit. apply Hinit; try done.
  - exists fd. rewrite Hcd, Hl. done.
  - apply not_elem_of_cons. split; [congruence|apply not_elem_of_nil].
Qed.
End opening.

(** ** Theorems *)

Section theorems.
Context {W : Type} `{IFilesLaws W, ISparseFiles W, UUIDsLaws}.

Lemma with_tag_id (m : SegmentMapping) : with_tag (tag m) m = m.
Proof. by destruct m. Qed.

Lemma loaded_top (s : lsmt_file Index0 W) recs : m_rw_tag s = 0 -> Forall (placed s) (real recs) -> loaded recs = real recs.
Proof.
  intros Ht Hf. unfold loaded. rewrite <- (list_fmap_id (real recs)) at 2. apply Forall_fmap_ext_1.
  apply (Forall_impl _ _ _ Hf). intros m (_ & Htag & _). rewrite <- (with_tag_id m) at 2. by rewrite Htag, Ht.
Qed.

(** What was synced is found again: the index of the reopened file denotes what
    the index in memory did. *)
Lemma reopen_synced fi fd hd hi (s : lsmt_file Index0 W) ext recs : data_header hd -> index_header hi ->
  rw_inv fi (header_block hi) (den []) s -> m_files s = [fd] -> m_rw_tag s = 0 ->
  contents (world s) fd = header_block hd ++ ext -> contents (world s) fi = header_block hi ++ mappings_bytes recs ->
  Forall fields_ok recs -> Forall (placed s) (real recs) -> fi_len fi s < 2 ^ 31 ->
  (forall x, den (view (m_index s)) x = match den (reverse (real recs)) x with Some b => Some b | None => None end) ->
  exists o, open_file_rw fd (Some fi) (world s) = Some (Some o, world s) /\ readable (as_file o (world s)) /\
    (forall x, disk_of (as_file o (world s)) x = disk_of s x) /\ o_vsize o = ht_virtual_size hi /\ o_uuid o = [uuid_parse (uuid hi)].
Proof.
  intros Hd Hi Hinv Hfiles Ht Hcd Hci Hfo Hpl Hsz Hden.
  assert (rw_len s = len (contents (world s) fd)) as Hrwl by (unfold rw_len; by rewrite Hfiles, Ht).
  destruct (reopen_run (world s) fd fi hd hi ext recs Hd Hi Hcd Hci Hfo) as (i & Hrun & Hvi & Hdeni).
  - unfold fi_len in Hsz. rewrite Hci, len_app, len_mappings_bytes in Hsz. pose proof (len_nonneg (header_block hi)). lia.
  - apply (Forall_impl _ _ _ Hpl). intros m (Hw & _ & Hlo & Hhi). by rewrite <- Hrwl.
  - assert (forall x, den (mapping0 i) x = den (view (m_index s)) x) as Hsame.
    { intros x. rewrite Hdeni, (loaded_top s) by done. rewrite Hden. by destruct (den (reverse (real recs)) x). }
    eexists. split; [exact Hrun|]. split; [|split; [|done]].
    + split; [exact Hvi|]. split; [|done]. intros x t a Hx. simpl in Hx. rewrite Hsame in Hx. simpl. rewrite <- Hfiles.
      by apply (ri_blocks _ _ _ _ Hinv x).
    + intros x. unfold disk_of. simpl. by rewrite Hsame, Hfiles.
Qed.

(** C2: A file that is created, set to any size of the commit buffer, written and
    punched in any way, and synced, is found again with the same contents when
    the data file and the index file are opened anew, without what was in memory:
    every range reads as what was written last, and zeros elsewhere. *)
Theorem create_write_reopen w fd fi args b os : fresh w fd -> fresh w fi -> fd <> fi ->
  layer_ok args -> length (li_uuid args) = 16%nat -> li_sparse_rw args = false -> 0 <= b -> Forall op_ok os ->
  SPACE + total op_bytes os < 2 ^ 63 ->
  SPACE + (total op_records os + 1) * (16 * Z.max 1 (b / sizeof_SegmentMapping)) < 2 ^ 31 ->
  exists o w1 s1 s2 s3 o', create_file_rw (Some fd) (Some fi) args w = Some (Some o, w1) /\
    set_index_group_commit b (as_file o w1) = Some (0, s1) /\
    run_disk_ops os s1 = Some (op_result <$> os, s2) /\ fsync s2 = Some (0, s3) /\
    open_file_rw fd (Some fi) (world s3) = Some (Some o', world s3) /\
    o_vsize o' = li_virtual_size args /\ o_uuid o' = [Some (li_uuid args)] /\
    reads_as (as_file o' (world s3)) (foldl spec_disk_op (fun _ => zeros ALIGNMENT) os).
Proof.
  intros Hfd Hfi Hne Hl Hu16 Hsp Hb Hok Hs1 Hs2.
  destruct (create_run w fd fi args Hfd Hfi Hne Hl Hsp) as (hd & hi & w1 & Hcreate & Hd & Hi & Hvs & Huu & Hcd & Hci).
  destruct (created_file w1 fd fi args hd hi Hne) as (Hinv0 & Hrw0 & Hfi0 & Hdisk0); [apply Hd|apply Hi|done|done|].
  set (o := mkOpened _ _ _ _ _ _ _) in *. set (s0 := as_file o w1) in *. set (n := b / sizeof_SegmentMapping) in *.
  assert (0 <= n) as Hn by (unfold n, sizeof_SegmentMapping; dlia).
  assert (rw_inv fi (header_block hi) (den []) (resize_stack n s0)) as Hinv1.
  { apply resize_inv; [done|]. change (nmapping s0) with 0. lia. }
  assert (batch (resize_stack n s0) = Z.max 1 n) as Hba by (unfold batch; rewrite length_resized, Z2Nat.id by lia; done).
  destruct (total_nonneg os) as [Hbytes Hrecs]. specialize (Hrecs Hok).
  destruct (run_disk_ops_spec fi _ _ os (resize_stack n s0) Hinv1 Hok) as (s2 & Hrun & Hinv2 & Hset2 & Hd2 & Hrw2 & Hfi2).
  { split; [change (rw_len (resize_stack n s0)) with (rw_len s0); lia|]. rewrite Hba.
    change (fi_len fi (resize_stack n s0)) with (fi_len fi s0). lia. }
  change (fi_len fi (resize_stack n s0)) with (fi_len fi s0) in Hfi2. rewrite Hba in Hfi2.
  destruct (fsync_run fi _ _ s2 Hinv2) as (s3 & recs & Hsync & Hinv3 & Hset3 & Hd3 & Hrw3 & Hfi3 & _ & Hlog & Hfo & Hpl & Hden).
  { split; [rewrite Hrw2; change (rw_len (resize_stack n s0)) with (rw_len s0); lia|]. rewrite (ss_batch _ _ Hset2), Hba. lia. }
  rewrite (ss_batch _ _ Hset2), Hba in Hfi3. pose proof (same_setup_trans _ _ _ Hset2 Hset3) as [Hf Ht _ _ Hg].
  destruct (Hg fd ltac:(by left)) as (ext & Hext). change (contents (world (resize_stack n s0)) fd) with (contents w1 fd) in Hext.
  rewrite Hcd in Hext.
  destruct (reopen_synced fi fd hd hi s3 ext recs Hd Hi Hinv3 Hf Ht Hext Hlog Hfo Hpl ltac:(lia) Hden) as (o' & Hopen & Hread & Hsame & Hv' & Hu').
  exists o, w1, (resize_stack n s0), s2, s3, o'. split; [exact Hcreate|]. split.
  { unfold set_index_group_commit. fold n. rewrite bind_run. cbn [gets]. change (nmapping (as_file o w1)) with 0. rewrite (proj2 (Z.leb_le 0 n) Hn). done. }
  split; [done|]. split; [done|]. split; [done|]. split; [rewrite Hv'; exact Hvs|]. split; [rewrite Hu', Huu, uuid_parse_string; [done|done]|].
  apply reads_as_disk; [exact Hread|]. intros x. rewrite Hsame, Hd3, Hd2. apply spec_ops_ext. exact Hdisk0.
Qed.
End theorems.

(** ** Torn index files *)

Section torn.
Context {W : Type} `{IFilesLaws W}.

(** The buffer for the records of an index file has room for whole records
    only, but all bytes after the header are read into it: when the file ends in
    the middle of a record, as after a crash during an append, loading writes
    behind the buffer. *)
Theorem torn_index_overflows w f h tail : index_header h -> contents w f = header_block h ++ tail ->
  len tail mod sizeof_SegmentMapping <> 0 -> do_load_index f false 0 w = None.
Proof.
  intros (Hok & Hm & Hh & Hs & Hd & Hsp & Hio) Hc Hn. pose proof (len_header_block h Hok) as Hl.
  pose proof (len_nonneg tail). pose proof (contents_size w f) as Hsize.
  unfold do_load_index. rewrite bind_run, (verify_header_run w f h _ Hok Hm Hh Hc).
  rewrite bind_run, fstat_law. cbn iota beta. change (0 <? 0) with false. cbn iota.
  assert (len (contents w f) = SPACE + len tail) as Hsz by (rewrite Hc, len_app; lia).
  rewrite bind_run, Hsp. unfold BUG_ON at 1. cbn [mret M_ret]. rewrite bind_run.
  unfold is_index_file. rewrite Hd, Hs, Hio. cbn [negb orb]. rewrite Z.eqb_refl. cbn [negb mret M_ret].
  rewrite Hsz in *. replace (SPACE + len tail - SPACE) with (len tail) by lia. unfold SPACE in Hsize, Hl.
  rewrite u64_small by lia. cbn [index_size with_index_size index_offset]. rewrite Hio. change (s64 SPACE) with SPACE.
  unfold sizeof_SegmentMapping in *. rewrite u64_small by dlia.
  destruct (pread_law w f (len tail) SPACE) as (buf & Hbuf & Hrun); [lia|done|].
  assert (buf = tail) as ->.
  { rewrite Hbuf, Hc, drop_app_length' by (unfold len, SPACE in *; lia). apply take_ge. unfold len in *. lia. }
  rewrite bind_run, Hrun. cbn iota beta. rewrite bind_run. unfold BUG_ON.
  destruct (Z.ltb_spec (len tail / 16 * 16) (len tail)); [done|dlia].
Qed.
End torn.

(** ** Stacking *)

Section stacking.
Context {W : Type} `{IFilesLaws W, ISparseFiles W, UUIDsLaws}.

(** A read-only image that can be read. *)
Definition ro_ok (o : opened Index) (w : W) : Prop :=
  index_valid (o_index o) /\ blocks_in (den (mapping (o_index o))) (o_files o) w.

(** The upper layer of an image, over what [d] holds. *)
Definition over_disk (w : W) (u : opened Index0) (d : Z -> list Z) (x : Z) : list Z :=
  match den (mapping0 (o_index u)) x with Some b => block_bytes w (o_files u) (Some b) | None => d x end.

Lemma den_shift_tags n l x : den ((fun m => with_tag (u8 (tag m + n)) m) <$> l) x =
  match den l x with
  | Some (Zeros t) => Some (Zeros (u8 (t + n)))
  | Some (Data t a) => Some (Data (u8 (t + n)) a)
  | None => None
  end.
Proof.
  induction l as [|m l IH]; [done|]. rewrite fmap_cons. cbn [den].
  change (in_seg (with_tag (u8 (tag m + n)) m) x) with (in_seg m x). destruct (in_seg m x); [|exact IH].
  unfold block_at. simpl. by destruct (zeroed m).
Qed.

Lemma shift_chain n lo l hi : chain lo l hi -> chain lo ((fun m => with_tag (u8 (tag m + n)) m) <$> l) hi.
Proof.
  revert lo. induction l as [|m l IH]; intros lo; [done|]. intros (Hlo & Hw & Hc). rewrite fmap_cons. split; [exact Hlo|].
  split; [|by apply IH]. unfold wf, mend, end_ in *. simpl. unfold u8. pose proof (Z.mod_pos_bound (tag m + n) (2 ^ 8)). lia.
Qed.

(** The combined index of [stack_files]. *)
Lemma stacked_index u l n : index0_valid u -> index_valid l -> 0 <= n < 256 ->
  exists c, create_combo_index (Some u) (Some l) n = Some c /\ combo_valid c /\ forall x, den (combo_view c) x =
    match den ((fun m => with_tag (u8 (tag m + n)) m) <$> mapping0 u) x with Some b => Some b | None => den (mapping l) x end.
Proof.
  intros [Hu _] Hl Hn. pose proof (shift_chain n _ _ _ Hu) as Hc. exists (ComboIndex_new u l n). split.
  { unfold create_combo_index. cbn [mbind option_bind]. do 2 f_equal. by apply Z.mod_small. }
  split; [split; [exact Hc|split; [done|intros b [= <-]; exact Hl]]|]. intros x. unfold combo_view, ComboIndex_new.
  cbn [m_backing_index front mapping0]. by apply den_over.
Qed.

Lemma den_inv l x b : den l x = Some b -> exists m : SegmentMapping, m ∈ l /\ b = block_at m x /\ in_seg m x = true.
Proof.
  induction l as [|m l IH]; [done|]. cbn [den]. destruct (in_seg m x) eqn:Hx.
  - intros [= <-]. exists m. split; [by left|done].
  - intros Hb. destruct (IH Hb) as (m' & Hin & Hb'). exists m'. split; [by right|done].
Qed.

(** The blocks of the upper layer, behind the files of the lower ones. *)
Lemma stacked_block w i fd lower x : index0_valid i -> blocks_in (den (mapping0 i)) [fd] w -> (length lower < 256)%nat ->
  match den ((fun m => with_tag (u8 (tag m + Z.of_nat (length lower))) m) <$> mapping0 i) x with
  | None => den (mapping0 i) x = None
  | Some b => exists b', den (mapping0 i) x = Some b' /\ block_bytes w (lower ++ [fd]) (Some b) = block_bytes w [fd] (Some b') /\
      forall t a, b = Data t a -> (lower ++ [fd]) !! Z.to_nat t = Some fd /\ 0 <= a /\ (a + 1) * ALIGNMENT <= len (contents w fd)
  end.
Proof.
  intros [Hc _] Hin Hn. rewrite den_shift_tags. destruct (den (mapping0 i) x) as [[t|t a]|] eqn:Hx; [| |done].
  - exists (Zeros t). done.
  - destruct (den_inv _ _ _ Hx) as (m & Hm & Hb & _). destruct (chain_elem _ _ _ _ Hc Hm) as [Hw _].
    assert (0 <= t) as Ht by (unfold block_at in Hb; unfold wf in Hw; destruct (zeroed m); [done|injection Hb as -> ->; lia]).
    destruct (Hin x t a Hx) as (f & Hf & Ha & Hl). apply list_lookup_singleton_Some in Hf as [Ht0 <-].
    assert (t = 0) as -> by lia. assert ((lower ++ [fd]) !! Z.to_nat (u8 (0 + Z.of_nat (length lower))) = Some fd) as Hlk.
    { unfold u8. rewrite Z.mod_small by lia. by rewrite Z.add_0_l, Nat2Z.id, lookup_app_r, Nat.sub_diag. }
    exists (Data 0 a). split; [done|]. split; [simpl; by rewrite Hlk|]. intros t' a' [= <- <-]. done.
Qed.

Lemma lower_block w (D : Z -> option block) lower fd x : blocks_in D lower w ->
  block_bytes w (lower ++ [fd]) (D x) = block_bytes w lower (D x) /\
  forall t a, D x = Some (Data t a) -> exists f, (lower ++ [fd]) !! Z.to_nat t = Some f /\ 0 <= a /\ (a + 1) * ALIGNMENT <= len (contents w f).
Proof.
  intros Hin. destruct (D x) as [[t|t a]|] eqn:Hx; [done| |done]. destruct (Hin x t a Hx) as (f & Hf & Ha & Hl).
  assert ((lower ++ [fd]) !! Z.to_nat t = Some f) as Hlk by (by apply lookup_app_l_Some). split; [simpl; by rewrite Hlk, Hf|].
  intros t' a' [= <- <-]. by exists f.
Qed.

(** C13: Stacking a writable file over read-only layers gives a writable image: it
    satisfies the invariant of the write path, with the lower layers below what
    the index file holds, and it reads the upper layer where that has a mapping
    and the lower layers elsewhere. *)
Theorem stack_files_overlay w u l fd fi hd check_order : o_type u = RW -> o_files u = [fd] -> o_findex u = Some fi ->
  o_uuid u <> [] -> o_vsize u <> 0 -> index0_valid (o_index u) -> blocks_in (den (mapping0 (o_index u))) [fd] w -> ro_ok l w ->
  (length (o_files l) < 256)%nat -> data_header hd -> (exists ext, contents w fd = header_block hd ++ ext /\ len ext mod ALIGNMENT = 0) ->
  fi ∉ o_files l ++ [fd] -> 0 < len (contents w fi) -> (check_order = true -> verify_order (o_files l) (o_uuid l) 1 w = Some (true, w)) ->
  exists o, stack_files u l check_order w = Some (Some o, w) /\ o_vsize o = o_vsize u /\
    rw_inv fi (contents w fi) (den (combo_view (o_index o))) (as_file o w) /\
    reads_as (as_file o w) (over_disk w u (fun x => block_bytes w (o_files l) (den (mapping (o_index l)) x))).
Proof.
  intros Ht Hfs Hfi Huu Hvs Hiu Hbu [Hil Hbl] Hn (Hok & Hm & Hh & Hsp) (ext & Hcd & Hext) Hni Hci Hord.
  destruct (stacked_index (o_index u) (o_index l) (Z.of_nat (length (o_files l))) Hiu Hil ltac:(lia)) as (c & Hcombo & Hvc & Hden).
  destruct (o_uuid u) as [|u0 us] eqn:Hu0; [done|]. set (n := Z.of_nat (length (o_files l))) in *.
  set (o := mkOpened RW c (o_files l ++ [fd]) (Some fi) (o_uuid l ++ [u0]) (o_vsize u) n).
  assert (forall x, block_bytes w (o_files l ++ [fd]) (den (combo_view c) x) =
    over_disk w u (fun x => block_bytes w (o_files l) (den (mapping (o_index l)) x)) x /\
    forall t a, den (combo_view c) x = Some (Data t a) -> exists f, (o_files l ++ [fd]) !! Z.to_nat t = Some f /\
      0 <= a /\ (a + 1) * ALIGNMENT <= len (contents w f)) as Hblocks.
  { intros x. rewrite Hden. pose proof (stacked_block w (o_index u) fd (o_files l) x Hiu Hbu Hn) as Hup. fold n in Hup. unfold over_disk.
    rewrite Hfs. destruct (den (_ <$> mapping0 (o_index u)) x) as [b|].
    - destruct Hup as (b' & -> & Hb & Hd). split; [exact Hb|]. intros t a [= ->]. exists fd. by apply Hd.
    - rewrite Hup. by apply (lower_block w (den (mapping (o_index l)))). }
  pose proof (rw_inv_initial (I := ComboIndex) (W := W) fi (as_file o w)) as Hinv.
  assert (rw_inv fi (contents w fi) (den (combo_view c)) (as_file o w)) as Hinv'.
  { pose proof (len_header_block hd Hok). pose proof (len_nonneg ext). assert ((o_files l ++ [fd]) !! Z.to_nat n = Some fd) as Hlk.
    { unfold n. by rewrite Nat2Z.id, lookup_app_r, Nat.sub_diag. }
    apply Hinv; try done.
    - intros x t a Hx. by apply (Hblocks x).
    - simpl. unfold n. lia.
    - exists fd. split; [done|]. cbn [world as_file]. rewrite Hcd, len_app. unfold SPACE, ALIGNMENT in *. split; [lia|dlia]. }
  exists o. split; [|split; [done|split; [exact Hinv'|]]].
  - unfold stack_files, mbind, M_bind, lift. rewrite Ht, Hfs. cbn [lookup list_lookup fmap option_fmap option_map].
    rewrite (verify_header_run w fd hd ext Hok Hm Hh Hcd). destruct (Z.eqb_spec (o_vsize u) 0); [done|]. cbn [mret M_ret Z.ltb Z.compare].
    rewrite Hsp. fold n. rewrite Hcombo. cbn [fmap option_fmap option_map].
    assert ((if check_order then verify_order (o_files l) (o_uuid l) 1 else mret true) w = Some (true, w)) as ->.
    { destruct check_order; [by apply Hord|done]. }
    cbn [negb]. rewrite Hu0, Hfi. cbn. unfold mret, M_ret, o. do 4 f_equal.
    rewrite length_app. simpl. unfold n, u8. rewrite Z.mod_small; lia.
  - apply reads_as_disk; [by eapply rw_readable|]. intros x. apply (Hblocks x).
Qed.
End stacking.

(** ** Sealed files *)

Section sealed.
Context {W : Type} `{IFilesLaws W, ISparseFiles W, UUIDsLaws}.

Definition sealed_header (h : HeaderTrailer) : Prop := data_header h /\ is_data_file h = true.
Definition trailer_ok (t : HeaderTrailer) : Prop :=
  ht_ok t /\ verify_magic t = true /\ is_trailer t = true /\ is_data_file t = true /\ is_sealed t = true.

(** Header, data, index and trailer; the index loads as [l]. *)
Record sealed_file (w : W) (f : Z) (t : HeaderTrailer) (l : list SegmentMapping) : Prop := {
  sf_layout : exists h body recs pad, sealed_header h /\ loaded recs = l /\ Forall fields_ok recs /\
    contents w f = header_block h ++ body ++ mappings_bytes recs ++ pad ++ header_block t /\
    index_offset t = SPACE + len body /\ index_size t = Z.of_nat (length recs) /\ 16 * Z.of_nat (length recs) < 2 ^ 31;
  sf_trailer : trailer_ok t;
  sf_index : chain 0 l MAX_OFFSET;
  sf_placed : Forall (fun m => SPACE <= moffset m * ALIGNMENT /\ mend m * ALIGNMENT <= index_offset t) l
}.

Lemma verify_trailer_run w f before t : trailer_ok t -> contents w f = before ++ header_block t ->
  verify_ht f true (len (contents w f)) w = Some (Some t, w).
Proof.
  intros (Hok & Hm & Ht & Hd & Hs) Hc. pose proof (len_header_block t Hok) as Hl. pose proof (len_nonneg before).
  assert (len (contents w f) = len before + SPACE) as Hsz by (by rewrite Hc, len_app, Hl).
  unfold verify_ht. cbn [negb]. rewrite bind_run. destruct (Z.eqb_spec (len (contents w f)) (-1)); [unfold SPACE in *; lia|].
  cbn [mret M_ret]. destruct (pread_law w f SPACE (len (contents w f) - SPACE)) as (buf & Hbuf & Hrun); [done|lia|].
  assert (buf = header_block t) as ->.
  { rewrite Hbuf, Hsz, Hc, drop_app_length' by (unfold len, SPACE in *; lia). apply take_ge. unfold len, SPACE in *. lia. }
  rewrite bind_run, Hrun. cbn iota beta. rewrite Hl, Z.ltb_irrefl. unfold header_block. rewrite parse_ht_bytes by done.
  by rewrite Hm, Ht, Hd, Hs.
Qed.

Lemma load_sealed_run w f t l : sealed_file w f t l ->
  do_load_index f true 0 w = Some (Some (with_index_size (Z.of_nat (length l)) t, l), w).
Proof.
  intros [(h & body & recs & pad & [(Hok & Hm & Hh & Hsp) Hdf] & <- & Hfo & Hc & Hio & His & Hn) Ht _ _].
  pose proof (len_header_block h Hok) as Hl. pose proof (len_header_block t (proj1 Ht)) as Hlt.
  pose proof (len_mappings_bytes recs) as Hlm. pose proof (len_nonneg body) as Hb. pose proof (len_nonneg pad) as Hpad. pose proof (contents_size w f) as Hsize.
  set (n := Z.of_nat (length recs)) in *.
  assert (len (contents w f) = SPACE + len body + 16 * n + len pad + SPACE) as Hsz by (rewrite Hc, !len_app; lia).
  unfold do_load_index. rewrite bind_run, (verify_header_run w f h _ Hok Hm Hh Hc).
  rewrite bind_run, fstat_law. cbn iota beta. change (0 <? 0) with false. cbn iota.
  rewrite bind_run, Hsp. unfold BUG_ON at 1. cbn [mret M_ret]. rewrite !bind_run, Hdf. cbn [negb].
  rewrite bind_run, (verify_trailer_run w f (header_block h ++ body ++ mappings_bytes recs ++ pad) t Ht) by (by rewrite Hc, !app_assoc).
  cbn [mret M_ret]. rewrite Hsz, Hio, His. unfold sizeof_SegmentMapping, SPACE in *. rewrite (u64_small (n * 16)), u64_small by lia.
  destruct (Z.ltb_spec (4096 + len body + 16 * n + len pad + 4096 - 4096 - (4096 + len body)) (n * 16)); [lia|].
  rewrite His, Hio, (s64_small (4096 + len body)), (s64_small (n * 16)) by lia.
  destruct (pread_law w f (n * 16) (4096 + len body)) as (buf & Hbuf & Hrun); [lia|lia|].
  assert (buf = mappings_bytes recs) as ->.
  { rewrite Hbuf, Hc, app_assoc, drop_app_length' by (rewrite length_app; unfold len in *; lia).
    rewrite take_app_length' by (unfold len in *; lia). done. }
  rewrite bind_run, Hrun. cbn iota beta. rewrite Hlm, bind_run. unfold BUG_ON. rewrite (u64_small (n * 16)) by lia.
  destruct (Z.ltb_spec (n * 16) (16 * n)); [lia|]. cbn [mret M_ret]. rewrite s32_small by lia.
  destruct (Z.ltb_spec (16 * n) (n * 16)); [lia|]. rewrite bind_run.
  destruct (Z.ltb_spec (16 * n) (n * 16)); [lia|]. cbn [mret M_ret]. change (0 =? 0) with true. cbn iota.
  unfold n. rewrite Nat2Z.id. rewrite <- (app_nil_r (mappings_bytes recs)), parse_mappings_bytes by done. done.
Qed.

Lemma chain_wf lo l hi : chain lo l hi -> Forall wf l.
Proof. revert lo. induction l as [|m l IH]; intros lo; [constructor|]. intros (_ & Hw & Hc). constructor; [done|by eapply IH]. Qed.

Definition between (lo hi : Z) (m : SegmentMapping) : Prop := lo <= moffset m /\ mend m <= hi.

Lemma create_index_run l lo hi v : chain 0 l MAX_OFFSET -> Forall (between lo hi) l -> create_memory_index l lo hi v = Some (Index_over l v).
Proof.
  intros Hc Hp. unfold create_memory_index. pose proof (chain_wf _ _ _ Hc) as Hw.
  rewrite (proj2 (order_chain l Hw) Hc). cbn [andb]. assert (verify_mapping_moffset l lo hi = true) as ->; [|done].
  apply forallb_forall. intros m Hin%list_elem_of_In. rewrite Forall_forall in Hw, Hp.
  destruct (Hp m Hin) as [Hlo Hhi]. specialize (Hw m Hin). unfold wf, within, mend, end_ in *.
  destruct (zeroed m); rewrite !andb_true_iff, !Z.leb_le, ?Z.ltb_lt; lia.
Qed.

Lemma create_sealed_index w f t l v : sealed_file w f t l ->
  create_memory_index l (SPACE / ALIGNMENT) (index_offset (with_index_size (Z.of_nat (length l)) t) / ALIGNMENT) v = Some (Index_over l v).
Proof.
  intros [_ _ Hc Hp]. apply create_index_run; [done|]. apply (Forall_impl _ _ _ Hp). intros m [Hlo Hhi].
  unfold between, SPACE, ALIGNMENT in *. cbn [index_offset with_index_size]. dlia.
Qed.

Lemma open_file_ro_run w f t l : sealed_file w f t l ->
  open_file_ro f w = Some (Some (mkOpened RO (Index_over l 0) [f] None [uuid_parse (uuid t)] (ht_virtual_size t) 0), w).
Proof.
  intros Hf. unfold open_file_ro. rewrite bind_run, (load_sealed_run w f t l Hf), (create_sealed_index w f t l 0 Hf). done.
Qed.

Lemma load_layers_run w layers : Forall (fun '(f, t, l) => sealed_file w f t l) layers ->
  load_layers (fun _ => None) ((fun y => fst (fst y)) <$> layers) w =
  Some (Some ((fun '(f, t, l) => (Index_over l 0, ht_virtual_size t, uuid_parse (uuid t))) <$> layers), w).
Proof.
  induction 1 as [|[[f t] l] layers Hf Hls IH]; [done|]. rewrite !fmap_cons. cbn [load_layers fst].
  rewrite bind_run. unfold load_layer. rewrite bind_run, (load_sealed_run w f t l Hf), (create_sealed_index w f t l 0 Hf).
  cbn [fmap option_fmap option_map mret M_ret]. rewrite bind_run, IH. done.
Qed.

(** The block [x] of layers from the top: the first one that maps it. *)
Fixpoint layers_disk (w : W) (layers : list (Z * list SegmentMapping)) (x : Z) : list Z :=
  match layers with
  | [] => zeros ALIGNMENT
  | (f, l) :: layers =>
    match den l x with
    | Some (Data _ a) => bytes_at (contents w f) (a * ALIGNMENT) ALIGNMENT
    | Some (Zeros _) => zeros ALIGNMENT
    | None => layers_disk w layers x
    end
  end.

Lemma topmost_disk w (layers : list (Z * list SegmentMapping)) files level x :
  (forall i f l, layers !! i = Some (f, l) -> files !! Z.to_nat (level + Z.of_nat i) = Some f) -> 0 <= level ->
  block_bytes w files (topmost level ((fun y => Index_over (snd y) 0) <$> layers) x) = layers_disk w layers x.
Proof.
  revert level. induction layers as [|[f l] layers IH]; intros level Hf Hl; [done|]. rewrite fmap_cons. cbn [topmost layers_disk snd].
  change (mapping (Index_over l 0)) with l. destruct (den l x) as [[t|t a]|]; [done| |].
  - cbn [retag_block block_bytes]. specialize (Hf O f l eq_refl). rewrite Z.add_0_r in Hf. by rewrite Hf.
  - apply IH; [|lia]. intros i f' l' Hi. specialize (Hf (S i) f' l' Hi). by replace (level + 1 + Z.of_nat i) with (level + Z.of_nat (S i)) by lia.
Qed.

Lemma sealed_blocks w f t l x tg a : sealed_file w f t l -> den l x = Some (Data tg a) ->
  0 <= a /\ (a + 1) * ALIGNMENT <= len (contents w f).
Proof.
  intros [(h & body & recs & pad & [(Hok & _) _] & _ & _ & Hc & Hio & _) _ Hch Hp] Hx.
  destruct (den_inv _ _ _ Hx) as (m & Hm & Hb & Hin). apply in_seg_true in Hin.
  destruct (chain_elem _ _ _ _ Hch Hm) as [Hw _]. rewrite Forall_forall in Hp. destruct (Hp m Hm) as [_ Hhi].
  pose proof (len_header_block h Hok) as Hl. pose proof (len_nonneg (mappings_bytes recs ++ pad ++ header_block t)).
  rewrite Hc, (len_app (header_block h)), (len_app body), Hl. unfold block_at in Hb. unfold wf, mend, end_ in *.
  destruct (zeroed m); [done|]. injection Hb as -> ->. unfold ALIGNMENT, SPACE in *. lia.
Qed.

Lemma topmost_blocks w (layers : list (Z * HeaderTrailer * list SegmentMapping)) files level :
  Forall (fun '(f, t, l) => sealed_file w f t l) layers -> 0 <= level ->
  (forall i f t l, layers !! i = Some (f, t, l) -> files !! Z.to_nat (level + Z.of_nat i) = Some f) ->
  blocks_in (topmost level ((fun y => Index_over (snd y) 0) <$> layers)) files w.
Proof.
  intros Hs. revert level. induction Hs as [|[[f t] l] layers Hf Hs IH]; intros level Hl Hfiles x tg a; [done|].
  rewrite fmap_cons. cbn [topmost snd]. change (mapping (Index_over l 0)) with l. destruct (den l x) as [[t'|t' a']|] eqn:Hx; [done| |].
  - cbn [retag_block]. intros [= <- <-]. exists f. specialize (Hfiles O f t l eq_refl). rewrite Z.add_0_r in Hfiles.
    split; [done|]. by eapply sealed_blocks.
  - apply IH; [lia|]. intros i f' t'' l' Hi. specialize (Hfiles (S i) f' t'' l' Hi).
    by replace (level + 1 + Z.of_nat i) with (level + Z.of_nat (S i)) by lia.
Qed.

Definition layer_files (layers : list (Z * HeaderTrailer * list SegmentMapping)) : list Z := (fun y => fst (fst y)) <$> layers.
Definition layer_indexes (layers : list (Z * HeaderTrailer * list SegmentMapping)) : list (Z * list SegmentMapping) :=
  (fun y => (fst (fst y), snd y)) <$> layers.

(** The merged index and what is found about the layers, from the top. *)
Definition merged_layers (layers : list (Z * HeaderTrailer * list SegmentMapping)) : list Index :=
  (fun y => Index_over (snd y) 0) <$> reverse layers.
Definition top_vsize (vsize : Z) (layers : list (Z * HeaderTrailer * list SegmentMapping)) : Z :=
  default vsize (head (filter (fun v => 0 < v) (reverse ((fun y => ht_virtual_size (snd (fst y))) <$> layers)))).
Definition top_uuids (layers : list (Z * HeaderTrailer * list SegmentMapping)) : list (option (list Z)) :=
  (fun y => uuid_parse (uuid (snd (fst y)))) <$> reverse layers.

Lemma load_merge_run w layers vsize pmi : Forall (fun '(f, t, l) => sealed_file w f t l) layers ->
  merge_memory_indexes (merged_layers layers) = Some (Some pmi) ->
  load_merge_index (fun _ => None) (layer_files layers) vsize w =
  Some (Some (pmi, reverse (layer_files layers), top_uuids layers, top_vsize vsize layers), w).
Proof.
  intros Hs Hmerge. unfold load_merge_index. rewrite bind_run. unfold layer_files at 1. rewrite (load_layers_run w layers Hs). cbn iota beta.
  rewrite <- (fmap_reverse (fun '(f, t, l) => (Index_over l 0, ht_virtual_size t, uuid_parse (uuid t)))).
  rewrite bind_run. unfold lift. rewrite <- !list_fmap_compose.
  rewrite (list_fmap_ext _ (fun y => Index_over (snd y) 0) (reverse layers)) by (by intros i [[f t] l] _).
  fold (merged_layers layers). rewrite Hmerge. cbn [fmap option_fmap option_map mret M_ret].
  assert ((snd ∘ (fun '(f, t, l) => (Index_over l 0, ht_virtual_size t, uuid_parse (uuid t)))) <$> reverse layers = top_uuids layers) as ->
    by (apply list_fmap_ext; by intros i [[f t] l] _).
  unfold top_vsize. assert (reverse ((fun y => ht_virtual_size (snd (fst y))) <$> layers) =
    ((fun j : Index * Z * option (list Z) => snd (fst j)) ∘ (fun '(f, t, l) => (Index_over l 0, ht_virtual_size t, uuid_parse (uuid t)))) <$> reverse layers) as ->.
  { rewrite <- fmap_reverse. apply list_fmap_ext. by intros i [[f t] l] _. }
  done.
Qed.

Lemma merged_image w layers : Forall (fun '(f, t, l) => sealed_file w f t l) layers -> (1 <= length layers <= 255)%nat ->
  exists i, merge_memory_indexes (merged_layers layers) = Some (Some i) /\ index_valid i /\
    blocks_in (den (mapping i)) (reverse (layer_files layers)) w /\
    forall x, block_bytes w (reverse (layer_files layers)) (den (mapping i) x) = layers_disk w (reverse (layer_indexes layers)) x.
Proof.
  intros Hs Hn. assert (Forall (fun '(f, t, l) => sealed_file w f t l) (reverse layers)) as Hsr by (by apply Forall_reverse).
  destruct (merge_run (merged_layers layers)) as (i & Hmerge & Hvi & _ & Hden).
  { unfold merged_layers. apply Forall_fmap. apply (Forall_impl _ _ _ Hsr). intros [[f t] l] Hf. by apply (sf_index _ _ _ _ Hf). }
  { unfold merged_layers. rewrite length_fmap, length_reverse. lia. }
  set (files := reverse (layer_files layers)).
  assert (forall i f t l, reverse layers !! i = Some (f, t, l) -> files !! Z.to_nat (0 + Z.of_nat i) = Some f) as Hfiles.
  { intros k f t l Hi. unfold files, layer_files. rewrite <- fmap_reverse, list_lookup_fmap, Z.add_0_l, Nat2Z.id, Hi. done. }
  exists i. split; [done|]. split; [done|]. split.
  - intros x t a Hx. rewrite Hden in Hx. by apply (topmost_blocks w (reverse layers) files 0 Hsr) in Hx.
  - intros x. rewrite Hden. unfold layer_indexes. rewrite <- fmap_reverse, <- (topmost_disk w _ files 0).
    + rewrite <- list_fmap_compose. done.
    + intros k f l Hi. apply list_lookup_fmap_Some in Hi as ([[f' t] l'] & [= -> ->] & Hi). by eapply Hfiles.
    + done.
Qed.

Lemma open_files_run w layers vsize : Forall (fun '(f, t, l) => sealed_file w f t l) layers -> (1 <= length layers <= 255)%nat ->
  exists o, open_files_ro (fun _ => None) (layer_files layers) vsize w = Some (Some o, w) /\ ro_ok o w /\
    o_files o = reverse (layer_files layers) /\
    o_vsize o = top_vsize vsize layers /\
    reads_as (as_file o w) (layers_disk w (reverse (layer_indexes layers))).
Proof.
  intros Hs Hn. destruct (merged_image w layers Hs Hn) as (pmi & Hmerge & Hvi & Hin & Hdisk).
  exists (mkOpened RO pmi (reverse (layer_files layers)) None (top_uuids layers) (top_vsize vsize layers) 0).
  split; [|split; [by split|split; [done|split; [done|]]]].
  - unfold open_files_ro. assert (length (layer_files layers) = length layers) as -> by apply length_fmap. unfold MAX_STACK_LAYERS.
    destruct (Z.ltb_spec 255 (Z.of_nat (length layers))); [lia|]. destruct (Nat.eqb_spec (length layers) 0); [lia|].
    by rewrite bind_run, (load_merge_run w layers vsize pmi Hs Hmerge).
  - apply reads_as_disk; [by split|exact Hdisk].
Qed.

(** C25: Opening up to 255 sealed files, the lowest first, loads and checks the
    index of each and merges them: the image reads, for every range, the topmost
    file that maps a block, and zeros where none does; its size is the first one
    from the top that is not zero. *)
Theorem open_files_ro_reads w layers vsize : Forall (fun '(f, t, l) => sealed_file w f t l) layers -> (1 <= length layers <= 255)%nat ->
  exists o, open_files_ro (fun _ => None) (layer_files layers) vsize w = Some (Some o, w) /\ ro_ok o w /\
    o_files o = reverse (layer_files layers) /\
    o_vsize o = top_vsize vsize layers /\
    reads_as (as_file o w) (layers_disk w (reverse (layer_indexes layers))).
Proof. apply open_files_run. Qed.
End sealed.

(** ** Witnesses *)

(** UUIDs whose strings are padded with zeros, and files without holes. *)
#[export] Instance plain_UUIDs : UUIDs := {|
  uuid_string u := take 37 (u ++ replicate 37 0);
  uuid_parse s := Some (take 16 s);
  uuid_is_valid s := negb (length s =? 0)%nat |}.
#[export] Instance plain_UUIDsLaws : UUIDsLaws.
Proof.
  split.
  - intros u. simpl. rewrite length_take, length_app. cbn [length replicate]. lia.
  - intros u Hu. cbn [uuid_parse uuid_string plain_UUIDs]. f_equal. rewrite take_take, take_app_le by lia. apply take_ge. lia.
Defined.

Definition wit_layer : LayerInfo := mkLayer (2 ^ 20) (replicate 16 1) (replicate 16 2) [65] false.

Lemma create_write_reopen_witness : exists o w1 s1 s2 s3 o',
  create_file_rw (Some 1) (Some 2) wit_layer (∅ : mem_files) = Some (Some o, w1) /\
  set_index_group_commit 64 (as_file o w1) = Some (0, s1) /\
  run_disk_ops wit_ops s1 = Some (op_result <$> wit_ops, s2) /\ fsync s2 = Some (0, s3) /\
  open_file_rw 1 (Some 2) (world s3) = Some (Some o', world s3) /\
  o_vsize o' = 2 ^ 20 /\ o_uuid o' = [Some (replicate 16 1)] /\
  reads_as (as_file o' (world s3)) (foldl spec_disk_op (fun _ => zeros ALIGNMENT) wit_ops).
Proof.
  apply (create_write_reopen (∅ : mem_files) 1 2 wit_layer 64 wit_ops).
  - done.
  - done.
  - done.
  - vm_compute. done.
  - done.
  - done.
  - done.
  - exact (proj1 wit_ops_ok).
  - vm_compute. done.
  - vm_compute. done.
Defined.

(** The headers of a data file, an index file and a sealed file. *)
Definition wit_header (sealed data : bool) : HeaderTrailer := default (mkHT 0 [] 0 0 0 0 0 [] [] 0 0 0 [])
  (make_header true sealed data (if data then 0 else SPACE) 0 wit_layer).
Definition wit_trailer (io isz : Z) : HeaderTrailer := default (mkHT 0 [] 0 0 0 0 0 [] [] 0 0 0 [])
  (make_header false true true io isz wit_layer).

Lemma wit_header_ok sealed data : ht_ok (wit_header sealed data).
Proof. destruct sealed, data; split; vm_compute; done. Qed.

Definition wit_torn : mem_files := <[2 := (header_block (wit_header false false) ++ replicate 24 7, 0)]> ∅.

Lemma torn_index_overflows_witness : do_load_index 2 false 0 wit_torn = None.
Proof.
  apply (torn_index_overflows wit_torn 2 (wit_header false false) (replicate 24 7)).
  - split; [apply wit_header_ok|]. vm_compute. done.
  - vm_compute. reflexivity.
  - vm_compute. done.
Defined.

(** A sealed file with one block of data at logical block 3. *)
Definition wit_map : SegmentMapping := mkMapping (mkSegment 3 1) 8 false 0.
Definition wit_sealed_bytes : list Z :=
  header_block (wit_header true true) ++ replicate 512 7 ++ mappings_bytes [wit_map; invalid_mapping] ++ [] ++
  header_block (wit_trailer 4608 2).
Definition wit_sealed_world : mem_files := <[3 := (wit_sealed_bytes, 0)]> (<[2 := (zeros SPACE, 0)]>
  (<[1 := (header_block (wit_header false true), 0)]> ∅)).

Lemma wit_sealed : sealed_file wit_sealed_world 3 (wit_trailer 4608 2) [wit_map].
Proof.
  split.
  - exists (wit_header true true), (replicate 512 7), [wit_map; invalid_mapping], [].
    split; [split; [split; [apply wit_header_ok|vm_compute; done]|vm_compute; done]|].
    split; [reflexivity|]. split; [repeat constructor; vm_compute; done|]. split; [vm_compute; reflexivity|]. vm_compute. done.
  - split; [split; vm_compute; done|]. vm_compute. done.
  - vm_compute. done.
  - repeat constructor; vm_compute; done.
Qed.

Lemma open_files_ro_reads_witness : exists o,
  open_files_ro (fun _ => None) [3] 0 wit_sealed_world = Some (Some o, wit_sealed_world) /\
  reads_as (as_file o wit_sealed_world) (layers_disk wit_sealed_world [(3, [wit_map])]).
Proof.
  destruct (open_files_ro_reads wit_sealed_world [(3, wit_trailer 4608 2, [wit_map])] 0) as (o & Hrun & _ & _ & _ & Hr).
  - apply Forall_singleton. exact wit_sealed.
  - simpl. lia.
  - exists o. split; [exact Hrun|exact Hr].
Defined.

(** An empty writable file over the sealed one. *)
Definition wit_upper : opened Index0 := mkOpened RW Index0_empty [1] (Some 2) [None] (2 ^ 20) 0.
Definition wit_lower : opened Index := mkOpened RO (Index_over [wit_map] 0) [3] None [None] (2 ^ 20) 0.

Lemma stack_files_overlay_witness : exists o, stack_files wit_upper wit_lower false wit_sealed_world = Some (Some o, wit_sealed_world) /\
  reads_as (as_file o wit_sealed_world)
    (over_disk wit_sealed_world wit_upper (fun x => block_bytes wit_sealed_world [3] (den [wit_map] x))).
Proof.
  destruct (stack_files_overlay wit_sealed_world wit_upper wit_lower 1 2 (wit_header false true) false) as (o & Hrun & _ & _ & Hr).
  - done.
  - done.
  - done.
  - done.
  - done.
  - by split.
  - done.
  - split; [vm_compute; done|]. intros x t a Hx. exists 3. cbn [wit_lower o_index mapping Index_over den] in Hx.
    destruct (in_seg wit_map x) eqn:Hin; [|done]. apply in_seg_true in Hin. injection Hx as <- <-.
    unfold wit_map, end_ in *. simpl in *. assert (x = 3) as -> by lia. vm_compute. done.
  - simpl. lia.
  - split; [apply wit_header_ok|]. vm_compute. done.
  - exists []. vm_compute. done.
  - set_solver.
  - vm_compute. done.
  - done.
  - exists o. split; [exact Hrun|exact Hr].
Defined.
