(* ===== verification/LsmtCommit.v ===== *)
(** Sealing, committing and merging images: [compact], [close_seal], [commit] and
    [merge_files_ro] of lsmt/file.cpp.

    Compaction copies the blocks an index maps, and nothing else, to a new file
    with its own index and trailer. *)

From S2P Require Import Prelude Files LsmtSegment LsmtIndex LsmtFile LsmtOpen.

(** ** Copying the data of a segment *)

(** [is_zero_block] returns 1 before it looks at the block. *)
Definition is_zero_block (buf : list Z) : Z := 1.

(** The buffers of [pcopy] while it goes through 32 KiB that were read: [data]
    with [data_length], [prev_end], the segment [s] and the new index. *)
Record copying := mkCopying {
  cp_data : list Z;
  prev_end : Z;
  cp_s : SegmentMapping;
  cp_index : list SegmentMapping
}.

Definition with_segment (s : Segment) (m : SegmentMapping) : SegmentMapping := mkMapping s (moffset m) (zeroed m) (tag m).

(** [push_segment] *)
Definition push_segment (buf : list Z) (zero_detect : Z) (c : copying) : copying :=
  let s := cp_s c in
  let s' := if zero_detect =? 1 then discard s else s in
  let data := if zero_detect =? 1 then cp_data c
    else cp_data c ++ take (Z.to_nat (seg_length s * ALIGNMENT)) (drop (Z.to_nat (prev_end c * ALIGNMENT)) buf) in
  mkCopying data (prev_end c + seg_length s)
    (mkMapping (mkSegment (u50 (end_ s')) 0) (u55 (mend s')) false (tag s')) (cp_index c ++ [s']).

(** [s.length++] *)
Definition lengthen (c : copying) : copying :=
  mkCopying (cp_data c) (prev_end c) (with_segment (mkSegment (offset (cp_s c)) (u14 (seg_length (cp_s c) + 1))) (cp_s c)) (cp_index c).

(** The loop over [n] blocks from block [i] on, with [zero_detected]. *)
Fixpoint copy_blocks (n : nat) (i : Z) (buf : list Z) (zero_detected : Z) (c : copying) : Z * copying :=
  match n with
  | O => (zero_detected, c)
  | S n =>
    if is_zero_block (take (Z.to_nat ALIGNMENT) (drop (Z.to_nat (i * ALIGNMENT)) buf)) =? 0 then
      let c := if (zero_detected =? 0) && negb (seg_length (cp_s c) =? 0) then push_segment buf zero_detected c else c in
      copy_blocks n (i + 1) buf 1 (lengthen c)
    else
      let c := if zero_detected =? 1 then push_segment buf zero_detected c else c in
      copy_blocks n (i + 1) buf 0 (lengthen c)
  end.

Definition BUFFER_SIZE : Z := 32 * 1024.

Section compaction.
Context {W : Type} `{IFiles W, UUIDs}.

(** The rounds of [pcopy]; [None] is the result -1. *)
Fixpoint pcopy_loop (fuel : nat) (src as_ : Z) (offset count bytes : Z) (s : SegmentMapping) (index : list SegmentMapping) :
    M W (option (Z * list SegmentMapping)) :=
  match fuel with
  | O => bug
  | S fuel =>
    if 0 <? count then
      let step := Z.min count BUFFER_SIZE in
      '(ret, buf) ← f_pread src step (s64 offset);
      if ret <? step then mret None
      else
        let '(zero_detected, c) := copy_blocks (Z.to_nat ((step + ALIGNMENT - 1) / ALIGNMENT)) 0 buf (-1) (mkCopying [] 0 s index) in
        let c := if seg_length (cp_s c) =? 0 then c else push_segment buf zero_detected c in
        let data_length := len (cp_data c) in
        ret ← (if data_length =? 0 then mret data_length else f_write as_ (cp_data c));
        if ret <? data_length then mret None
        else pcopy_loop fuel src as_ (offset + step) (count - step) (bytes + data_length) (cp_s c) (cp_index c)
    else mret (Some (bytes / ALIGNMENT, index))
  end.

(** [pcopy]: the number of blocks that were written. *)
Definition pcopy (src_files : list Z) (as_ : Z) (m : SegmentMapping) (moffset_ : Z) (index : list SegmentMapping) :
    M W (option (Z * list SegmentMapping)) :=
  src ← lift (src_files !! Z.to_nat (tag m));
  s ← lift (SegmentMapping_new (offset m) 0 moffset_ (tag m));
  let count := u32 (seg_length m * ALIGNMENT) in
  pcopy_loop (S (Z.to_nat count)) src as_ (u64 (moffset m * ALIGNMENT)) count 0 s index.

(** ** [load_layer_info] *)

(** [layer] is the information before; an error is [None]. *)
Definition load_layer_info (src_files : list Z) (layer : LayerInfo) (oper_seal : bool) : M W (option LayerInfo) :=
  top ← lift (head src_files);
  '(ret, buf_top) ← f_pread top SPACE 0;
  if negb (ret =? SPACE) then mret None
  else
    let pht := parse_ht buf_top in
    let vsize := ht_virtual_size pht in let sparse := is_sparse_rw pht in
    pht ← (if negb (length src_files =? 1)%nat then
        bottom ← lift (last src_files);
        '(ret, buf_bottom) ← f_pread bottom SPACE 0;
        mret (if negb (ret =? SPACE) then None else Some (parse_ht buf_bottom))
      else mret (Some pht));
    match pht with
    | None => mret None
    | Some pht =>
      mret (Some (mkLayer vsize
        (if oper_seal then default (li_uuid layer) (uuid_parse (uuid pht)) else li_uuid layer)
        (default (li_parent_uuid layer) (uuid_parse (parent_uuid pht))) (li_user_tag layer) sparse))
    end.

(** ** [compact] *)

Record CommitArgs := mkCommit {
  ca_as : Z;
  ca_user_tag : list Z;
  ca_uuid : list Z;
  ca_parent_uuid : list Z
}.

(** The information for the new file, from what was loaded. *)
Definition commit_layer (args : CommitArgs) (layer : LayerInfo) : LayerInfo :=
  mkLayer (li_virtual_size layer)
    (if uuid_is_valid (ca_uuid args) then default uuid_null (uuid_parse (ca_uuid args)) else uuid_null)
    (if uuid_is_valid (ca_parent_uuid args) then default (li_parent_uuid layer) (uuid_parse (ca_parent_uuid args))
     else li_parent_uuid layer)
    (ca_user_tag args) false.

(** The loop over the raw index. *)
Fixpoint compact_loop (src_files : list Z) (as_ : Z) (raw_index : list SegmentMapping) (moffset_ : Z) (index : list SegmentMapping) :
    M W (option (Z * list SegmentMapping)) :=
  match raw_index with
  | [] => mret (Some (moffset_, index))
  | m :: raw_index =>
    if zeroed m then compact_loop src_files as_ raw_index moffset_ (index ++ [with_moffset (u55 moffset_) m])
    else
      r ← pcopy src_files as_ m moffset_ index;
      match r with
      | None => mret None
      | Some (ret, index) => compact_loop src_files as_ raw_index (moffset_ + ret) index
      end
  end.

(** The mappings in a page, and an index filled up to whole pages. *)
Definition N_page : Z := ALIGNMENT4K / sizeof_SegmentMapping.
Definition pad_index (index : list SegmentMapping) : list SegmentMapping :=
  let padding := N_page - Z.of_nat (length index) mod N_page in
  if padding <? N_page then index ++ replicate (Z.to_nat padding) invalid_mapping else index.

(** Write the index page by page. *)
Fixpoint write_pages (fuel : nat) (file : Z) (index : list SegmentMapping) : M W unit :=
  match fuel with
  | O => bug
  | S fuel =>
    match index with
    | [] => mret tt
    | _ =>
      let page := take (Z.to_nat N_page) index in
      BUG_ON (Z.of_nat (length page) <? N_page);;
      ret ← f_write file (mappings_bytes page);
      BUG_ON (negb (ret =? ALIGNMENT4K));;
      write_pages fuel file (drop (Z.to_nat N_page) index)
    end
  end.

Definition compact (src_files : list Z) (raw_index : list SegmentMapping) (args : CommitArgs) (fresh_uuid : list Z) : M W Z :=
  layer ← load_layer_info src_files (mkLayer 0 fresh_uuid uuid_null [] false) false;
  match layer with
  | None => mret (-1)
  | Some layer =>
    let layer := commit_layer args layer in
    let dest := ca_as args in
    ret ← write_header_trailer dest true true true 0 0 layer;
    if ret <? 0 then mret (-1)
    else
      r ← compact_loop src_files dest raw_index (SPACE / ALIGNMENT) [];
      match r with
      | None => mret (-1)
      | Some (moffset, compact_index) =>
        let index_offset := u64 (moffset * ALIGNMENT) in
        let compact_index := pad_index (compress_raw_index compact_index) in
        write_pages (S (length compact_index)) dest compact_index;;
        f_lseek_end dest;;
        ret ← write_header_trailer dest false true true index_offset (Z.of_nat (length compact_index)) layer;
        mret (if ret <? 0 then -1 else 0)
      end
  end.

(** [LSMTFile::commit]: a file that is not stacked; its index as an array. *)
Definition commit_rw (s : lsmt_file Index0 W) (args : CommitArgs) (fresh_uuid : list Z) : M W Z :=
  if (1 <? length (m_files s))%nat then mret (-1)
  else compact (m_files s) (mapping0 (m_index s)) args fresh_uuid.

(** [LSMTReadOnlyFile::commit]: the trailer must be that of a sealed file.  The
    offsets of zeroed mappings that [compact] sets in the array are those of the
    open index; nothing reads them. *)
Definition commit_ro (o : opened Index) (args : CommitArgs) (fresh_uuid : list Z) : M W Z :=
  if (1 <? length (o_files o))%nat then mret (-1)
  else
    f ← lift (head (o_files o));
    pht ← verify_ht f true (-1);
    pht ← lift pht;
    if negb (is_sealed pht) then mret (-1)
    else compact (o_files o) (mapping (o_index o)) args fresh_uuid.

(** [flatten] of a stacked writable file. *)
Definition flatten_rw (s : lsmt_file ComboIndex W) (as_ : Z) (fresh_uuid : list Z) : M W Z :=
  i ← lift (ComboIndex_make_read_only_index (m_index s));
  compact (m_files s) (mapping i) (mkCommit as_ [] [] []) fresh_uuid.

(** [merge_files_ro] of files, the lowest first. *)
Definition merge_files_ro `{ISparseFiles W} (as_lsmt : Z -> option nested) (src_files : list Z) (args : CommitArgs) (fresh_uuid : list Z) : M W Z :=
  if (length src_files =? 0)%nat then mret (-1)
  else
    r ← load_merge_index as_lsmt src_files 0;
    match r with
    | None => mret (-1)
    | Some (pmi, files, _, vsize) => compact files (mapping pmi) args fresh_uuid
    end.

(** ** [close_seal] *)

(** Append the index and a trailer to the data file, and open the result if
    [reopen]; [padding] is what the array holds behind the mappings, which is not
    initialised. *)
Definition close_seal (padding : list Z) (fresh_uuid : list Z) (reopen : bool) : M (lsmt_file Index0 W) (Z * option (opened Index)) :=
  s ← gets (fun s => s);
  file ← lift (m_files s !! Z.to_nat (m_rw_tag s));
  index_offset ← on_world (f_lseek_end file);
  let l := mapping0 (m_index s) in
  let index_bytes := (Z.of_nat (length l) * sizeof_SegmentMapping + ALIGNMENT - 1) / ALIGNMENT * ALIGNMENT in
  ret ← on_world (f_write file (take (Z.to_nat index_bytes) (mappings_bytes l ++ padding)));
  if ret <? index_bytes then mret (-1, None)
  else
    layer ← on_world (load_layer_info [file] (mkLayer 0 fresh_uuid uuid_null [] false) true);
    match layer with
    | None => mret (-1, None)
    | Some layer =>
      ret ← on_world (write_header_trailer file false true true index_offset (Z.of_nat (length l)) layer);
      if ret <? 0 then mret (-1, None)
      else
        back ← lift (last (m_files s));
        let reopened := if reopen then
            (fun i => mkOpened RO i [back] None [] (m_vsize s) 0) <$>
            create_memory_index l (SPACE / ALIGNMENT) (index_offset / ALIGNMENT) 0
          else None in
        do_group_commit_mappings;;
        mret (0, reopened)
    end.
End compaction.

(** ** Copying *)

Lemma copy_blocks_run n i buf zd c : zd <> 1 -> 0 <= seg_length (cp_s c) -> seg_length (cp_s c) + Z.of_nat n <= MAX_LENGTH ->
  copy_blocks n i buf zd c = (if (n =? 0)%nat then zd else 0,
    mkCopying (cp_data c) (prev_end c)
      (with_segment (mkSegment (offset (cp_s c)) (seg_length (cp_s c) + Z.of_nat n)) (cp_s c)) (cp_index c)).
Proof.
  revert i zd c. induction n as [|n IH]; intros i zd c Hzd Hp Hl.
  - destruct c as [d p [[o l] mo z t] idx]. unfold with_segment. simpl. by rewrite Z.add_0_r.
  - cbn [copy_blocks]. change (is_zero_block _ =? 0) with false. cbn iota. destruct (Z.eqb_spec zd 1); [done|].
    unfold MAX_LENGTH in Hl. rewrite IH; [|done|simpl; rewrite u14_small by lia; lia|simpl; rewrite u14_small by lia; unfold MAX_LENGTH; lia].
    unfold lengthen, with_segment. simpl. rewrite u14_small by lia.
    replace (seg_length (cp_s c) + 1 + Z.of_nat n) with (seg_length (cp_s c) + Z.of_nat (S n)) by lia. by destruct n.
Qed.

(** What a step that appends [data] to the file [f] leaves. *)
Section copying.
Context {W : Type} `{IFilesLaws W}.

Record appended (w w' : W) (f : Z) (data : list Z) : Prop := {
  ap_contents : contents w' f = contents w f ++ data;
  ap_position : position w' f = len (contents w' f);
  ap_other g : g <> f -> contents w' g = contents w g /\ position w' g = position w g
}.

Lemma appended_nil w f : position w f = len (contents w f) -> appended w w f [].
Proof. intros Hp. split; [by rewrite app_nil_r|done|done]. Qed.

Lemma appended_trans w1 w2 w3 f a b : appended w1 w2 f a -> appended w2 w3 f b -> appended w1 w3 f (a ++ b).
Proof.
  intros [A1 A2 A3] [B1 B2 B3]. split; [by rewrite B1, A1, app_assoc|done|]. intros g Hg.
  destruct (A3 g Hg), (B3 g Hg). split; congruence.
Qed.

Lemma write_end_run w f data : position w f = len (contents w f) -> len (contents w f) + len data < 2 ^ 63 ->
  exists w', f_write f data w = Some (len data, w') /\ appended w w' f data.
Proof.
  intros Hp Hl. destruct (write_law w f data) as (w' & Hrun & Hc & Hpos & Ho); [rewrite Hp; pose proof (len_nonneg (contents w f)); lia|lia|].
  exists w'. split; [done|].
  assert (contents w' f = contents w f ++ data) as Hc'.
  { rewrite Hc, Hp. unfold splice, zeros, len. rewrite Z.sub_diag. simpl. rewrite app_nil_r, take_ge by lia.
    rewrite (drop_ge _ (Z.to_nat _)) by lia. by rewrite app_nil_r. }
  split; [done|by rewrite Hpos, Hp, Hc', len_app|exact Ho].
Qed.

(** One round: 32 KiB or what is left. *)
Lemma copy_round buf lo mo t idx k : len buf = k * ALIGNMENT -> 0 < k <= MAX_LENGTH -> 0 <= lo -> lo + k <= MAX_OFFSET ->
  0 <= mo -> mo + k < 2 ^ 55 ->
  let '(zd, c) := copy_blocks (Z.to_nat ((k * ALIGNMENT + ALIGNMENT - 1) / ALIGNMENT)) 0 buf (-1)
    (mkCopying [] 0 (mkMapping (mkSegment lo 0) mo false t) idx) in
  seg_length (cp_s c) <> 0 /\
  push_segment buf zd c = mkCopying buf k (mkMapping (mkSegment (lo + k) 0) (mo + k) false t)
    (idx ++ [mkMapping (mkSegment lo k) mo false t]).
Proof.
  intros Hl Hk Hlo Hhi Hmo Hme. unfold ALIGNMENT, MAX_LENGTH, MAX_OFFSET in *.
  replace ((k * 512 + 512 - 1) / 512) with k by dlia.
  rewrite copy_blocks_run; [|done|simpl; lia|cbn [cp_s seg seg_length]; unfold MAX_LENGTH; lia]. rewrite Z2Nat.id by lia. simpl.
  destruct (Nat.eqb_spec (Z.to_nat k) 0); [lia|]. split; [lia|]. unfold push_segment, with_segment, mend, end_. simpl.
  rewrite drop_0, take_ge by (unfold len, ALIGNMENT in *; lia). unfold u50, u55. by rewrite !Z.mod_small by lia.
Qed.

Lemma pcopy_loop_run fuel w src dest offset k bytes lo mo t idx : src <> dest -> 0 <= k <= MAX_LENGTH ->
  k * ALIGNMENT < Z.of_nat fuel -> 0 <= lo -> lo + k <= MAX_OFFSET -> 0 <= mo -> mo + k < 2 ^ 55 -> 0 <= t < 256 ->
  0 <= offset -> offset + k * ALIGNMENT <= len (contents w src) ->
  position w dest = len (contents w dest) -> len (contents w dest) + k * ALIGNMENT < 2 ^ 63 ->
  exists segs w', pcopy_loop fuel src dest offset (k * ALIGNMENT) bytes (mkMapping (mkSegment lo 0) mo false t) idx w =
      Some (Some ((bytes + k * ALIGNMENT) / ALIGNMENT, idx ++ segs), w') /\
    chain lo segs (lo + k) /\ (forall x, den segs x = den [mkMapping (mkSegment lo k) mo false t] x) /\
    Forall (fun m => mo <= moffset m /\ mend m <= mo + k) segs /\ 64 * Z.of_nat (length segs) <= k + 63 /\
    appended w w' dest (bytes_at (contents w src) offset (k * ALIGNMENT)).
Proof.
  intros Hne. revert w offset k bytes lo mo idx.
  induction fuel as [|fuel IH]; intros w offset k bytes lo mo idx Hk Hf Hlo Hhi Hmo Hme Ht Ho Hsrc Hpos Hsz; [unfold ALIGNMENT in *; lia|].
  cbn [pcopy_loop]. destruct (Z.ltb_spec 0 (k * ALIGNMENT)) as [Hp|Hz].
  - set (j := Z.min k 64). assert (0 < j <= MAX_LENGTH /\ j <= k) as [Hj Hjk] by (unfold j, ALIGNMENT, MAX_LENGTH in *; lia).
    replace (Z.min (k * ALIGNMENT) BUFFER_SIZE) with (j * ALIGNMENT) by (unfold j, ALIGNMENT, BUFFER_SIZE; lia).
    rewrite s64_small by (pose proof (contents_size w src); unfold ALIGNMENT in *; lia).
    destruct (pread_law w src (j * ALIGNMENT) offset) as (buf & Hbuf & Hread); [unfold ALIGNMENT; lia|done|].
    assert (len buf = j * ALIGNMENT) as Hl.
    { rewrite Hbuf. apply len_take. rewrite len_drop by (unfold ALIGNMENT in *; lia). unfold ALIGNMENT in *. lia. }
    assert (buf = bytes_at (contents w src) offset (j * ALIGNMENT)) as Hbytes.
    { pose proof (padded_read (contents w src) offset (j * ALIGNMENT) Ho ltac:(unfold ALIGNMENT; lia)) as Hpad. cbv zeta in Hpad.
      rewrite <- Hbuf, Hl, Z.sub_diag in Hpad. simpl in Hpad. by rewrite app_nil_r in Hpad. }
    rewrite bind_run, Hread. cbn iota beta. rewrite Hl, Z.ltb_irrefl.
    pose proof (copy_round buf lo mo t idx j Hl Hj Hlo ltac:(lia) Hmo ltac:(lia)) as Hround.
    destruct (copy_blocks _ 0 buf (-1) _) as [zd c]. destruct Hround as [Hnz Hpush].
    destruct (Z.eqb_spec (seg_length (cp_s c)) 0); [done|]. rewrite Hpush. cbn [cp_data cp_s cp_index]. rewrite Hl.
    destruct (Z.eqb_spec (j * ALIGNMENT) 0); [unfold ALIGNMENT in *; lia|].
    destruct (write_end_run w dest buf Hpos) as (w1 & Hw & Hap); [rewrite Hl; unfold ALIGNMENT in *; lia|].
    rewrite bind_run, Hw, Hl, Z.ltb_irrefl. replace (k * ALIGNMENT - j * ALIGNMENT) with ((k - j) * ALIGNMENT) by lia.
    pose proof (ap_other _ _ _ _ Hap src Hne) as [Hcs _]. pose proof (ap_contents _ _ _ _ Hap) as Hcd.
    destruct (IH w1 (offset + j * ALIGNMENT) (k - j) (bytes + j * ALIGNMENT) (lo + j) (mo + j) (idx ++ [mkMapping (mkSegment lo j) mo false t]))
      as (segs & w2 & Hrun & Hch & Hden & Hpl & Hls & Hap2); try lia; try (unfold ALIGNMENT in *; lia).
    + rewrite Hcs. lia.
    + apply (ap_position _ _ _ _ Hap).
    + rewrite Hcd, len_app, Hl. unfold ALIGNMENT in *. lia.
    + exists (mkMapping (mkSegment lo j) mo false t :: segs), w2. split; [|split; [|split; [|split; [|split]]]].
      * rewrite Hrun, <- app_assoc. by replace (bytes + j * ALIGNMENT + (k - j) * ALIGNMENT) with (bytes + k * ALIGNMENT) by lia.
      * split; [done|]. split; [unfold wf, mend, end_, MAX_LENGTH, MAX_OFFSET in *; simpl; lia|]. unfold end_. simpl.
        by replace (lo + k) with (lo + j + (k - j)) by lia.
      * intros x. cbn [den]. rewrite Hden. cbn [den]. unfold in_seg, block_at, end_. simpl.
        destruct (Z.leb_spec lo x), (Z.ltb_spec x (lo + j)), (Z.leb_spec (lo + j) x), (Z.ltb_spec x (lo + j + (k - j))), (Z.ltb_spec x (lo + k));
          try lia; simpl; try done. do 2 f_equal. lia.
      * constructor; [unfold mend; simpl; lia|]. apply (Forall_impl _ _ _ Hpl). intros m ?. lia.
      * cbn [length]. unfold j in *. lia.
      * replace (k * ALIGNMENT) with (j * ALIGNMENT + (k - j) * ALIGNMENT) by lia.
        rewrite bytes_at_app by (unfold ALIGNMENT; lia). rewrite <- Hbytes. eapply appended_trans; [exact Hap|]. by rewrite Hcs in Hap2.
  - assert (k = 0) as -> by (unfold ALIGNMENT in *; lia). exists [], w. rewrite !Z.add_0_r, app_nil_r. split; [done|]. split; [simpl; lia|].
    split; [intros x; cbn [den]; unfold in_seg, end_; simpl; by destruct (Z.leb_spec lo x), (Z.ltb_spec x (lo + 0)); try lia|].
    split; [constructor|]. split; [simpl; lia|]. by apply appended_nil.
Qed.
End copying.

Lemma nth_bytes_at c off n i : 0 <= i < n -> nth (Z.to_nat i) (bytes_at c off n) 0 = nth (Z.to_nat (off + i)) c 0.
Proof. intros Hi. apply nth_lookup_Some. by apply bytes_at_lookup. Qed.

(** Copied bytes are found where they were appended. *)
Lemma bytes_at_copied c s a n o q : 0 <= o -> 0 <= q -> o + q <= n ->
  bytes_at (c ++ bytes_at s a n) (len c + o) q = bytes_at s (a + o) q.
Proof.
  intros Ho Hq Hn. symmetry. apply bytes_at_eq; [by apply len_bytes_at|]. intros i Hi.
  rewrite nth_bytes_at by lia. rewrite app_nth2 by (unfold len; lia).
  replace (Z.to_nat (len c + o + i) - length c)%nat with (Z.to_nat (o + i)) by (unfold len; lia).
  rewrite nth_bytes_at by lia. do 2 f_equal. lia.
Qed.

Section compacting.
Context {W : Type} `{IFilesLaws W, ISparseFiles W, UUIDsLaws}.

(** What a block of the single file [f] holds. *)
Definition block_in (w : W) (f : Z) (b : option block) : list Z :=
  match b with Some (Data _ a) => bytes_at (contents w f) (a * ALIGNMENT) ALIGNMENT | _ => zeros ALIGNMENT end.

(** The files of an index are there, and none is [dest]. *)
Definition sources_ok (w : W) (files : list Z) (dest : Z) (l : list SegmentMapping) : Prop :=
  Forall (fun m : SegmentMapping => zeroed m = false -> exists f, files !! Z.to_nat (tag m) = Some f /\ f <> dest /\
    mend m * ALIGNMENT <= len (contents w f)) l.

(** The index [out], with its data in [dest], holds what [l] holds in [files]. *)
Definition same_blocks (w : W) (files : list Z) (l : list SegmentMapping) (w' : W) (dest : Z) (out : list SegmentMapping) : Prop :=
  forall x, (den out x = None <-> den l x = None) /\ block_in w' dest (den out x) = block_bytes w files (den l x).

(** The state of compaction between two mappings. *)
Record at_end (w : W) (dest mo : Z) : Prop := {
  ae_position : position w dest = len (contents w dest);
  ae_length : len (contents w dest) = mo * ALIGNMENT
}.

Lemma appended_other w w' dest d g : appended w w' dest d -> g <> dest -> contents w' g = contents w g.
Proof. intros Ha Hg. by destruct (ap_other _ _ _ _ Ha g Hg). Qed.

Lemma sources_kept w w' files dest d l : appended w w' dest d -> sources_ok w files dest l -> sources_ok w' files dest l.
Proof.
  intros Ha Hs. apply (Forall_impl _ _ _ Hs). intros m Hm Hz. destruct (Hm Hz) as (f & Hf & Hne & Hl). exists f.
  by rewrite (appended_other _ _ _ _ _ Ha Hne).
Qed.

Lemma source_blocks w w' files dest d l b : appended w w' dest d -> sources_ok w files dest l ->
  (forall x, b = den l x -> block_bytes w' files b = block_bytes w files b).
Proof.
  intros Ha Hs x ->. destruct (den l x) as [[t|t a]|] eqn:Hx; [done| |done].
  destruct (den_inv _ _ _ Hx) as (m & Hm & Hb & _). unfold sources_ok in Hs. rewrite Forall_forall in Hs.
  unfold block_at in Hb. destruct (zeroed m) eqn:Hz; [done|]. injection Hb as -> ->.
  destruct (Hs m Hm Hz) as (f & Hf & Hne & _). simpl. rewrite Hf. by rewrite (appended_other _ _ _ _ _ Ha Hne).
Qed.

(** One mapping that is not zeroed. *)
Lemma pcopy_run w files dest (m : SegmentMapping) mo idx f : wf m -> zeroed m = false -> files !! Z.to_nat (tag m) = Some f ->
  f <> dest -> mend m * ALIGNMENT <= len (contents w f) -> at_end w dest mo -> 0 <= mo -> mo + seg_length m < 2 ^ 54 ->
  exists segs w', pcopy files dest m mo idx w = Some (Some (seg_length m, idx ++ segs), w') /\
    chain (offset m) segs (end_ m) /\ (forall x, den segs x = den [with_moffset mo m] x) /\
    Forall (fun m' => mo <= moffset m' /\ mend m' <= mo + seg_length m) segs /\ 64 * Z.of_nat (length segs) <= seg_length m + 63 /\
    appended w w' dest (bytes_at (contents w f) (moffset m * ALIGNMENT) (seg_length m * ALIGNMENT)) /\ at_end w' dest (mo + seg_length m).
Proof.
  intros Hw Hz Hf Hne Hsrc [Hpos Hlen] Hmo Hme. unfold wf, mend in Hw, Hsrc. rewrite Hz in Hw, Hsrc. destruct Hw as (Hlo & Hl & Hend & Hmm & Hmend & Ht).
  unfold pcopy. rewrite bind_run. unfold lift at 1. rewrite Hf. cbn [fmap option_fmap option_map].
  assert (SegmentMapping_new (offset m) 0 mo (tag m) = Some (mkMapping (mkSegment (offset m) 0) mo false (tag m))) as Hnew.
  { unfold SegmentMapping_new. simpl. unfold end_, MAX_OFFSET in *. rewrite u50_small, u55_small by lia. unfold u8. by rewrite Z.mod_small. }
  rewrite bind_run. unfold lift. rewrite Hnew. cbn [fmap option_fmap option_map].
  rewrite u32_small by (unfold MAX_LENGTH, ALIGNMENT in *; lia). pose proof (contents_size w f).
  rewrite u64_small by (unfold ALIGNMENT in *; lia).
  destruct (pcopy_loop_run (S (Z.to_nat (seg_length m * ALIGNMENT))) w f dest (moffset m * ALIGNMENT) (seg_length m) 0 (offset m) mo (tag m) idx)
    as (segs & w' & Hrun & Hch & Hden & Hpl & Hls & Hap); try (unfold end_, ALIGNMENT in *; lia).
  exists segs, w'. split; [rewrite Hrun; do 3 f_equal; f_equal; unfold ALIGNMENT; dlia|]. split; [done|]. split; [|split; [done|split; [done|split; [done|]]]].
  - intros x. rewrite Hden. cbn [den]. unfold in_seg, block_at, with_moffset, end_. simpl. by rewrite Hz.
  - split; [apply (ap_position _ _ _ _ Hap)|]. rewrite (ap_contents _ _ _ _ Hap), len_app, Hlen, len_bytes_at by (unfold ALIGNMENT; lia). lia.
Qed.

(** A mapping that was copied, before the rest of the index. *)
Lemma same_blocks_app w files dest (m : SegmentMapping) mo f segs w1 w' data l out : wf m -> zeroed m = false ->
  files !! Z.to_nat (tag m) = Some f -> f <> dest -> at_end w dest mo -> (forall x, den segs x = den [with_moffset mo m] x) ->
  appended w w1 dest (bytes_at (contents w f) (moffset m * ALIGNMENT) (seg_length m * ALIGNMENT)) -> appended w1 w' dest data ->
  sources_ok w files dest l -> same_blocks w1 files l w' dest out -> same_blocks w files (m :: l) w' dest (segs ++ out).
Proof.
  intros Hw Hz Hf Hne [_ Hlen] Hden Hap1 Hap Hs Hsame x. rewrite den_app, Hden. cbn [den].
  change (in_seg (with_moffset mo m) x) with (in_seg m x). destruct (in_seg m x) eqn:Hin.
  - split; [done|]. apply in_seg_true in Hin. unfold block_at. simpl. rewrite Hz. simpl. rewrite Hf.
    rewrite (ap_contents _ _ _ _ Hap), (ap_contents _ _ _ _ Hap1).
    replace ((mo + (x - offset m)) * ALIGNMENT) with (len (contents w dest) + (x - offset m) * ALIGNMENT) by lia.
    replace ((moffset m + (x - offset m)) * ALIGNMENT) with (moffset m * ALIGNMENT + (x - offset m) * ALIGNMENT) by lia.
    unfold wf, end_, mend in *. rewrite Hz in Hw. pose proof (len_nonneg (contents w dest)). unfold ALIGNMENT in *.
    rewrite bytes_at_prefix by (rewrite ?len_app, ?len_bytes_at by lia; lia). by rewrite bytes_at_copied by lia.
  - destruct (Hsame x) as [Hn Hb]. split; [exact Hn|]. rewrite Hb. by eapply source_blocks.
Qed.

Lemma compact_loop_run w files dest l lo hi mo idx : chain lo l hi -> hi <= MAX_OFFSET -> sources_ok w files dest l ->
  at_end w dest mo -> 0 <= mo -> mo + data_blocks l < 2 ^ 54 ->
  exists out w' data, compact_loop files dest l mo idx w = Some (Some (mo + data_blocks l, idx ++ out), w') /\
    chain lo out hi /\ appended w w' dest data /\ at_end w' dest (mo + data_blocks l) /\
    same_blocks w files l w' dest out /\ Forall (fun m => mo <= moffset m /\ mend m <= mo + data_blocks l) out /\
    64 * Z.of_nat (length out) <= data_blocks l + 64 * Z.of_nat (length l).
Proof.
  revert w lo mo idx. induction l as [|m l IH]; intros w lo mo idx Hc Hhi Hs He Hmo Hsz.
  - exists [], w, []. cbn [compact_loop data_blocks] in *. rewrite Z.add_0_r, app_nil_r.
    split_and!; [done|done|apply appended_nil, He|done|intros x; done|constructor|simpl; lia].
  - destruct Hc as (Hlo & Hw & Hc). apply Forall_cons in Hs as [Hsm Hs]. cbn [compact_loop data_blocks] in *.
    pose proof (data_blocks_range _ _ _ Hc) as Hd. unfold data_blocks1 in *. destruct (zeroed m) eqn:Hz.
    + rewrite Z.add_0_l in *. rewrite u55_small by lia.
      destruct (IH w (end_ m) mo (idx ++ [with_moffset mo m]) Hc Hhi Hs He Hmo Hsz) as (out & w' & data & Hrun & Hch & Hap & He' & Hsame & Hpl & Hls).
      exists (with_moffset mo m :: out), w', data. split; [by rewrite Hrun, <- app_assoc|].
      split; [split; [done|split; [unfold wf, mend, end_ in *; simpl; rewrite Hz in *; lia|done]]|].
      split; [done|]. split; [done|]. split; [|split; [constructor; [unfold mend; simpl; rewrite Hz; lia|done]|cbn [length]; lia]].
      intros x. cbn [den]. change (in_seg (with_moffset mo m) x) with (in_seg m x). destruct (in_seg m x); [|apply Hsame].
      unfold block_at. simpl. by rewrite Hz.
    + destruct (Hsm eq_refl) as (f & Hf & Hne & Hsrc).
      destruct (pcopy_run w files dest m mo idx f Hw Hz Hf Hne Hsrc He Hmo) as (segs & w1 & Hrun1 & Hch1 & Hden1 & Hpl1 & Hls1 & Hap1 & He1); [lia|].
      destruct (IH w1 (end_ m) (mo + seg_length m) (idx ++ segs) Hc Hhi) as (out & w' & data & Hrun & Hch & Hap & He' & Hsame & Hpl & Hls);
        [by eapply sources_kept|done|unfold wf in Hw; lia|lia|].
      exists (segs ++ out), w', (bytes_at (contents w f) (moffset m * ALIGNMENT) (seg_length m * ALIGNMENT) ++ data).
      replace (mo + (seg_length m + data_blocks l)) with (mo + seg_length m + data_blocks l) by lia.
      split; [by rewrite bind_run, Hrun1, Hrun, app_assoc|]. split; [apply chain_app; exists (end_ m); split; [|done]|].
      { eapply chain_weaken; [exact Hch1|done|done]. }
      split; [by eapply appended_trans|]. split; [done|].
      split; [by eapply same_blocks_app|]. split; [|rewrite length_app; cbn [length]; lia]. apply Forall_app. split; [apply (Forall_impl _ _ _ Hpl1)|apply (Forall_impl _ _ _ Hpl)]; intros m'; unfold wf in Hw; lia.
Qed.

(** The index in whole pages. *)
Lemma pad_index_spec l : exists n, pad_index l = l ++ replicate n invalid_mapping /\
  Z.of_nat (length (pad_index l)) mod N_page = 0 /\ Z.of_nat n < N_page.
Proof.
  unfold pad_index. assert (N_page = 256) as -> by reflexivity. set (p := 256 - Z.of_nat (length l) mod 256).
  assert (0 < p <= 256) as Hp by (unfold p; dlia). destruct (Z.ltb_spec p 256).
  - exists (Z.to_nat p). split; [done|]. rewrite length_app, length_replicate. split; [unfold p; dlia|lia].
  - exists O. rewrite app_nil_r. split; [done|]. unfold p in *. split; [dlia|lia].
Qed.

Lemma write_pages_run fuel w f l : position w f = len (contents w f) -> Z.of_nat (length l) mod N_page = 0 ->
  (length l < fuel)%nat -> len (contents w f) + len (mappings_bytes l) < 2 ^ 63 ->
  exists w', write_pages fuel f l w = Some (tt, w') /\ appended w w' f (mappings_bytes l).
Proof.
  assert (N_page = 256) as HN by reflexivity. rewrite HN. revert w l.
  induction fuel as [|fuel IH]; intros w l Hp Hm Hf Hs; [lia|]. cbn [write_pages]. destruct l as [|m l].
  - exists w. split; [done|]. by apply appended_nil.
  - set (l' := m :: l) in *. assert (256 <= Z.of_nat (length l')) as Hl by (unfold l' in *; cbn [length] in *; dlia).
    rewrite HN. set (page := take (Z.to_nat 256) l'). set (rest := drop (Z.to_nat 256) l').
    assert (l' = page ++ rest) as Hl' by (symmetry; apply take_drop).
    assert (Z.of_nat (length page) = 256) as Hpage by (unfold page; rewrite length_take; lia).
    assert (len (mappings_bytes page) = 4096) as Hlp by (rewrite len_mappings_bytes; lia).
    rewrite Hl', mappings_bytes_app, len_app in Hs. pose proof (len_nonneg (mappings_bytes rest)).
    destruct (write_end_run w f (mappings_bytes page) Hp) as (w1 & Hw & Hap); [lia|].
    rewrite bind_run. unfold BUG_ON. rewrite Hpage. cbn [Z.ltb Z.compare Pos.compare Pos.compare_cont mret M_ret].
    rewrite bind_run, Hw, Hlp, bind_run. cbn [Z.eqb Pos.eqb negb ALIGNMENT4K mret M_ret].
    destruct (IH w1 rest) as (w2 & Hrun & Hap2).
    + apply (ap_position _ _ _ _ Hap).
    + unfold rest. rewrite length_drop. dlia.
    + unfold rest. rewrite length_drop. lia.
    + rewrite (ap_contents _ _ _ _ Hap), len_app. lia.
    + exists w2. split; [exact Hrun|]. rewrite Hl', mappings_bytes_app. by eapply appended_trans.
Qed.

(** The layer information of files that start with headers. *)
Lemma load_layer_info_run w files layer f0 h0 r0 fl hl rl : head files = Some f0 -> last files = Some fl ->
  ht_ok h0 -> contents w f0 = header_block h0 ++ r0 -> ht_ok hl -> contents w fl = header_block hl ++ rl ->
  exists p, load_layer_info files layer false w =
    Some (Some (mkLayer (ht_virtual_size h0) (li_uuid layer) p (li_user_tag layer) (is_sparse_rw h0)), w).
Proof.
  intros Hf0 Hfl Hok0 Hc0 Hokl Hcl. destruct (read_header w f0 h0 r0 Hok0 Hc0) as (b0 & Hr0 & Hp0).
  destruct (read_header w fl hl rl Hokl Hcl) as (bl & Hrl & Hpl).
  unfold load_layer_info, mbind, M_bind, lift. rewrite Hf0. cbn [fmap option_fmap option_map]. rewrite Hr0, Z.eqb_refl. cbn [negb].
  rewrite Hp0. destruct (negb (length files =? 1)%nat); [|by eexists].
  rewrite Hfl. cbn [fmap option_fmap option_map]. rewrite Hrl, Z.eqb_refl. cbn [negb mret M_ret]. rewrite Hpl. by eexists.
Qed.

(** The mappings of a padded index load without the padding. *)
Lemma loaded_padded lo l hi n : chain lo l hi -> hi <= MAX_OFFSET -> loaded (l ++ replicate n invalid_mapping) = with_tag 0 <$> l.
Proof.
  intros Hc Hh. unfold loaded. rewrite real_app, real_invalid, app_nil_r. f_equal.
  revert lo Hc. induction l as [|m l IH]; intros lo; [done|]. intros (_ & Hw & Hc). pose proof (chain_le _ _ _ Hc).
  change (m :: l) with ([m] ++ l). rewrite real_app, (IH _ Hc). by rewrite real_wf.
Qed.

Lemma fields_padded lo l hi n : chain lo l hi -> Forall fields_ok (l ++ replicate n invalid_mapping).
Proof.
  intros Hc. apply Forall_app. split; [|apply Forall_forall; intros m [-> _]%elem_of_replicate; apply invalid_fields].
  apply (Forall_impl _ _ _ (chain_wf _ _ _ Hc)). apply wf_fields.
Qed.

(** Compression keeps the mappings between [lo] and [hi]. *)
Lemma append_placed lo hi a b : wf a -> wf b -> can_append a b = true ->
  lo <= moffset a /\ mend a <= hi -> lo <= moffset b /\ mend b <= hi ->
  lo <= moffset (append_seg a b) /\ mend (append_seg a b) <= hi.
Proof.
  intros Ha Hb Hap Hpa Hpb. unfold can_append in Hap. rewrite !andb_true_iff in Hap. destruct Hap as [[[[He Hm] Hz] Ht] Hl].
  apply Z.eqb_eq in He, Hm. apply Z.ltb_lt in Hl. apply eqb_prop in Hz. unfold wf, mend, MAX_LENGTH in *. simpl in *.
  rewrite <- Hz in *. rewrite u14_small by lia. destruct (zeroed a); lia.
Qed.

Lemma write_header_end w f a b c io isz args h : position w f = len (contents w f) -> make_header a b c io isz args = Some h ->
  ht_ok h -> len (contents w f) + SPACE < 2 ^ 63 ->
  exists w', write_header_trailer f a b c io isz args w = Some (SPACE, w') /\ appended w w' f (header_block h).
Proof.
  intros Hp Hh Hok Hs. pose proof (len_header_block h Hok) as Hl.
  destruct (write_end_run w f (header_block h) Hp) as (w' & Hrun & Hap); [lia|]. exists w'. split; [|done].
  unfold write_header_trailer. rewrite Hh, bind_run, Hrun, Hl. done.
Qed.
End compacting.

Section compact.
Context {W : Type} `{IFilesLaws W, ISparseFiles W, UUIDsLaws}.

Lemma compress_placed lo hi l : Forall wf l -> Forall (between lo hi) l -> Forall (between lo hi) (compress_raw_index l).
Proof.
  destruct l as [|cur [|m rest]]; [done|done|]. unfold compress_raw_index. generalize (m :: rest) as l. clear m rest.
  intros l. revert cur. induction l as [|m l IH]; intros cur Hw Hp; [done|]. cbn [compress_loop].
  apply Forall_cons in Hw as [Hwc Hw]. apply Forall_cons in Hp as [Hpc Hp].
  apply Forall_cons in Hw as [Hwm Hw]. apply Forall_cons in Hp as [Hpm Hp].
  destruct (can_append cur m) eqn:Hap.
  - destruct (append_wf _ _ Hwc Hwm Hap) as [Hwa _]. apply IH; (constructor; [|done]); [done|by apply append_placed].
  - constructor; [done|]. apply IH; by constructor.
Qed.

(** What [compact] writes after the header. *)
Lemma compact_body_run w files dest l : chain 0 l MAX_OFFSET -> sources_ok w files dest l -> at_end w dest (SPACE / ALIGNMENT) ->
  16 * (data_blocks l / 64 + Z.of_nat (length l) + N_page) < 2 ^ 31 ->
  exists out data w' n, compact_loop files dest l (SPACE / ALIGNMENT) [] w = Some (Some (SPACE / ALIGNMENT + data_blocks l, out), w') /\
    let l' := compress_raw_index out in
    pad_index l' = l' ++ replicate n invalid_mapping /\ Z.of_nat (length (pad_index l')) mod N_page = 0 /\
    16 * Z.of_nat (length (pad_index l')) < 2 ^ 31 /\ chain 0 l' MAX_OFFSET /\ appended w w' dest data /\ len data = data_blocks l * ALIGNMENT /\
    same_blocks w files l w' dest l' /\ Forall (between (SPACE / ALIGNMENT) (SPACE / ALIGNMENT + data_blocks l)) l'.
Proof.
  intros Hc Hs He Hsize. pose proof (data_blocks_range _ _ _ Hc) as Hdb. unfold MAX_OFFSET in Hdb.
  assert (SPACE / ALIGNMENT = 8) as H8 by reflexivity. rewrite H8 in *.
  destruct (compact_loop_run w files dest l 0 MAX_OFFSET 8 [] Hc) as (out & w' & data & Hrun & Hch & Hap & He' & Hsame & Hpl & Hlen); [done|done|done|done|lia|].
  destruct (compress_run out Hch) as [Hch' Hden' _ Hlen']. destruct (pad_index_spec (compress_raw_index out)) as (n & Hpad & Hmod & Hn).
  exists out, data, w', n. split; [exact Hrun|]. split; [done|]. split; [done|]. assert (N_page = 256) as HN by reflexivity. rewrite HN in *.
  split; [rewrite Hpad, length_app, length_replicate; dlia|]. split; [done|]. split; [done|]. split.
  - pose proof (ae_length _ _ _ He') as E1. pose proof (ae_length _ _ _ He) as E2. rewrite (ap_contents _ _ _ _ Hap), len_app in E1. lia.
  - split; [intros x; rewrite Hden'; apply Hsame|]. apply compress_placed; [by eapply chain_wf|exact Hpl].
Qed.

Lemma den_untag t l x : (den (with_tag t <$> l) x = None <-> den l x = None) /\
  forall w f, block_in w f (den (with_tag t <$> l) x) = block_in w f (den l x).
Proof. rewrite den_with_tag. by destruct (den l x) as [[?|? ?]|]. Qed.

(** The parts that [compact] wrote make a sealed file. *)
Lemma sealed_made w dest hd body padded n l' io t : sealed_header hd -> trailer_ok t ->
  contents w dest = header_block hd ++ body ++ mappings_bytes padded ++ header_block t ->
  padded = l' ++ replicate n invalid_mapping -> 16 * Z.of_nat (length padded) < 2 ^ 31 -> chain 0 l' MAX_OFFSET ->
  index_offset t = io -> io = SPACE + len body -> index_size t = Z.of_nat (length padded) ->
  Forall (between (SPACE / ALIGNMENT) (io / ALIGNMENT)) l' -> io mod ALIGNMENT = 0 -> sealed_file w dest t (with_tag 0 <$> l').
Proof.
  intros Hh Ht Hc Hpad Hlen Hch Hio Hbody His Hpl Hal. split; [|done| |].
  - exists hd, body, padded, []. split; [done|]. split; [rewrite Hpad; by eapply loaded_padded|].
    split; [rewrite Hpad; by eapply fields_padded|]. split_and!; [done|congruence|done|done].
  - apply retag_chain_tag; [lia|done].
  - apply Forall_fmap. apply (Forall_impl _ _ _ Hpl). intros m [Hlo Hhi]. unfold mend in *. simpl. rewrite Hio.
    unfold SPACE, ALIGNMENT in *. dlia.
Qed.

(** The file after all the appends. *)
Lemma compact_assemble w w2 w3 w4 w5 dest b c d : appended w w2 dest b -> appended w2 w3 dest c ->
  (forall g, contents w4 g = contents w3 g) -> appended w4 w5 dest d ->
  contents w5 dest = contents w dest ++ b ++ c ++ d /\ forall g, g <> dest -> contents w5 g = contents w g.
Proof.
  intros H2' H3' H4' H5'. split.
  - by rewrite (ap_contents _ _ _ _ H5'), H4', (ap_contents _ _ _ _ H3'), (ap_contents _ _ _ _ H2'), <- !app_assoc.
  - intros g Hg. rewrite (appended_other _ _ _ _ _ H5' Hg), H4', (appended_other _ _ _ _ _ H3' Hg). by apply (appended_other _ _ _ _ _ H2' Hg).
Qed.

(** Appending changes nothing that is mapped. *)
Lemma block_in_grow w w' f l lo hi ext x : chain 0 l MAX_OFFSET -> Forall (between lo hi) l -> hi * ALIGNMENT <= len (contents w f) ->
  contents w' f = contents w f ++ ext -> block_in w' f (den l x) = block_in w f (den l x).
Proof.
  intros Hch Hpl Hhi Hc. unfold block_in. destruct (den l x) as [[t|t a]|] eqn:Hx; [done| |done]. rewrite Hc.
  destruct (den_inv _ _ _ Hx) as (m & Hm & Hbm & Hin). apply in_seg_true in Hin. destruct (chain_elem _ _ _ _ Hch Hm) as [Hw _].
  rewrite Forall_forall in Hpl. destruct (Hpl m Hm) as [_ Hme]. unfold block_at in Hbm. unfold wf, mend, end_ in *.
  destruct (zeroed m); [done|]. injection Hbm as -> ->. apply bytes_at_prefix; unfold ALIGNMENT in *; lia.
Qed.

Lemma same_blocks_grow w w2 w' files dest l l' lo hi ext : same_blocks w files l w2 dest l' -> chain 0 l' MAX_OFFSET ->
  Forall (between lo hi) l' -> hi * ALIGNMENT <= len (contents w2 dest) ->
  contents w' dest = contents w2 dest ++ ext -> same_blocks w files l w' dest l'.
Proof.
  intros Hsame Hch Hpl Hhi Hc x. destruct (Hsame x) as [Hn Hb]. split; [done|]. rewrite <- Hb. by eapply block_in_grow.
Qed.

(** An index without tags is over a single file. *)
Lemma single_block w f l x : Forall (fun m => tag m = 0) l -> block_bytes w [f] (den l x) = block_in w f (den l x).
Proof.
  intros Ht. destruct (den l x) as [[t|t a]|] eqn:Hx; [done| |done]. destruct (den_inv _ _ _ Hx) as (m & Hm & Hb & _).
  rewrite Forall_forall in Ht. specialize (Ht m Hm). unfold block_at in Hb. destruct (zeroed m); [done|]. injection Hb as -> ->. by rewrite Ht.
Qed.

Lemma single_blocks_in w f t l : sealed_file w f t l -> Forall (fun m => tag m = 0) l -> blocks_in (den l) [f] w.
Proof.
  intros Hs Ht x t' a Hx. destruct (sealed_blocks w f t l x t' a Hs Hx) as [Ha Hl]. exists f.
  destruct (den_inv _ _ _ Hx) as (m & Hm & Hb & _). rewrite Forall_forall in Ht. specialize (Ht m Hm).
  unfold block_at in Hb. destruct (zeroed m); [done|]. injection Hb as -> ->. by rewrite Ht.
Qed.

(** Files whose first and last start with a header. *)
Definition with_headers (w : W) (files : list Z) (vsize : Z) : Prop :=
  exists f0 h0 r0 fl hl rl, head files = Some f0 /\ last files = Some fl /\ ht_ok h0 /\ ht_virtual_size h0 = vsize /\
    contents w f0 = header_block h0 ++ r0 /\ ht_ok hl /\ contents w fl = header_block hl ++ rl.

Lemma header_trailer_ok io isz args t : header_for false true true io isz args t -> trailer_ok t.
Proof. intros Ht. unfold trailer_ok, is_trailer. rewrite (hf_header _ _ _ _ _ _ _ Ht). destruct Ht. done. Qed.

(** What [compact] leaves in the new file, and the states it goes through. *)
Record compacted (w : W) (files : list Z) (dest : Z) (l : list SegmentMapping) (vsize : Z) (w' : W)
    (t : HeaderTrailer) (l' : list SegmentMapping) : Prop := {
  cm_layout : exists hd body n, sealed_header hd /\ trailer_ok t /\ ht_virtual_size t = vsize /\
    contents w' dest = header_block hd ++ body ++ mappings_bytes (l' ++ replicate n invalid_mapping) ++ header_block t /\
    16 * Z.of_nat (length (l' ++ replicate n invalid_mapping)) < 2 ^ 31 /\
    len body = data_blocks l * ALIGNMENT /\ index_offset t = SPACE + len body /\
    index_size t = Z.of_nat (length (l' ++ replicate n invalid_mapping));
  cm_index : chain 0 l' MAX_OFFSET;
  cm_placed : Forall (between (SPACE / ALIGNMENT) (SPACE / ALIGNMENT + data_blocks l)) l';
  cm_other g : g <> dest -> contents w' g = contents w g;
  cm_same : same_blocks w files l w' dest l'
}.

Lemma compacted_sealed w files dest l vsize w' t l' : compacted w files dest l vsize w' t l' ->
  sealed_file w' dest t (with_tag 0 <$> l') /\ same_blocks w files l w' dest (with_tag 0 <$> l') /\ ht_virtual_size t = vsize.
Proof.
  intros [(hd & body & n & Hh & Ht & Hv & Hc & Hlen & Hb & Hio & His) Hch Hpl _ Hsame]. split; [|split; [|done]].
  - eapply (sealed_made w' dest hd body _ n l' (SPACE + len body) t); try done.
    + replace ((SPACE + len body) / ALIGNMENT) with (SPACE / ALIGNMENT + data_blocks l); [done|]. rewrite Hb. unfold SPACE, ALIGNMENT. dlia.
    + rewrite Hb. unfold SPACE, ALIGNMENT. dlia.
  - intros x. destruct (den_untag 0 l' x) as [Hn Hbl]. rewrite Hn, Hbl. apply Hsame.
Qed.

(** The header and the body. *)
Lemma compact_first w files l args layer : fresh w (ca_as args) -> layer_ok layer -> li_sparse_rw layer = false -> chain 0 l MAX_OFFSET ->
  sources_ok w files (ca_as args) l -> 16 * (data_blocks l / 64 + Z.of_nat (length l) + N_page) < 2 ^ 31 ->
  exists hd w1 out w2 n data, write_header_trailer (ca_as args) true true true 0 0 layer w = Some (SPACE, w1) /\
    compact_loop files (ca_as args) l (SPACE / ALIGNMENT) [] w1 = Some (Some (SPACE / ALIGNMENT + data_blocks l, out), w2) /\
    let l' := compress_raw_index out in
    pad_index l' = l' ++ replicate n invalid_mapping /\ Z.of_nat (length (pad_index l')) mod N_page = 0 /\
    16 * Z.of_nat (length (pad_index l')) < 2 ^ 31 /\ chain 0 l' MAX_OFFSET /\ sealed_header hd /\
    appended w w2 (ca_as args) (header_block hd ++ data) /\ len (header_block hd) = SPACE /\ len data = data_blocks l * ALIGNMENT /\
    same_blocks w files l w2 (ca_as args) l' /\ Forall (between (SPACE / ALIGNMENT) (SPACE / ALIGNMENT + data_blocks l)) l'.
Proof.
  intros [Hfc Hfp] Hlayer Hsp Hc Hs Hsize. set (dest := ca_as args) in *.
  destruct (make_header_run true true true 0 0 layer Hlayer) as (hd & Hmd & Hhd); [done|done|].
  destruct (write_header_end w dest _ _ _ _ _ _ hd ltac:(by rewrite Hfc, Hfp) Hmd (hf_ok _ _ _ _ _ _ _ Hhd)) as (w1 & Hw1 & Hap1); [by rewrite Hfc|].
  pose proof (len_header_block hd (hf_ok _ _ _ _ _ _ _ Hhd)) as Hlh.
  assert (contents w1 dest = header_block hd) as Hc1 by (by rewrite (ap_contents _ _ _ _ Hap1), Hfc).
  assert (at_end w1 dest (SPACE / ALIGNMENT)) as He1 by (split; [apply (ap_position _ _ _ _ Hap1)|by rewrite Hc1]).
  destruct (compact_body_run w1 files dest l Hc (sources_kept _ _ _ _ _ _ Hap1 Hs) He1 Hsize)
    as (out & data & w2 & n & Hrun & Hpad & Hmod & Hlen & Hch & Hap2 & Hld & Hsame & Hpl).
  exists hd, w1, out, w2, n, data. split; [done|]. split; [done|]. split; [done|]. split; [done|]. split; [done|]. split; [done|].
  split; [destruct Hhd; unfold sealed_header, data_header; rewrite Hsp in *; done|]. split; [by eapply appended_trans|]. split; [done|]. split; [done|]. split; [|done].
  intros x. destruct (Hsame x) as [Hn Hb]. split; [done|]. rewrite Hb. by apply (source_blocks w w1 files dest _ l _ Hap1 Hs x).
Qed.

Lemma compact_run w files l args u vsize : with_headers w files vsize -> fresh w (ca_as args) ->
  len (ca_user_tag args) <= TAG_SIZE -> chain 0 l MAX_OFFSET -> sources_ok w files (ca_as args) l ->
  16 * (data_blocks l / 64 + Z.of_nat (length l) + N_page) < 2 ^ 31 ->
  exists w' t l', compact files l args u w = Some (0, w') /\ compacted w files (ca_as args) l vsize w' t l'.
Proof.
  intros (f0 & h0 & r0 & fl & hl & rl & Hf0 & Hfl & Hok0 & Hv0 & Hc0 & Hokl & Hcl) Hfresh Htag Hc Hs Hsize.
  set (dest := ca_as args) in *. destruct (load_layer_info_run w files (mkLayer 0 u uuid_null [] false) f0 h0 r0 fl hl rl) as (p & Hload); [done..|].
  cbn [li_uuid li_user_tag] in Hload. set (layer := commit_layer args (mkLayer (ht_virtual_size h0) u p [] (is_sparse_rw h0))).
  assert (layer_ok layer) as Hlayer by (split; [apply (ho_virtual_size _ Hok0)|exact Htag]).
  destruct (compact_first w files l args layer Hfresh Hlayer eq_refl Hc Hs Hsize)
    as (hd & w1 & out & w2 & n & data & Hw1 & Hrun & Hpad & Hmod & Hlen & Hch & Hhd & Hap2 & Hlh & Hld & Hsame & Hpl). fold dest in Hw1, Hrun, Hap2, Hsame.
  set (l' := compress_raw_index out) in *. set (padded := pad_index l') in *. pose proof (len_mappings_bytes padded) as Hlm.
  pose proof (data_blocks_range _ _ _ Hc) as Hdb. unfold MAX_OFFSET in Hdb.
  pose proof (ap_contents _ _ _ _ Hap2) as Hc2. rewrite (proj1 Hfresh), app_nil_l in Hc2.
  destruct (write_pages_run (S (length padded)) w2 dest padded) as (w3 & Hw3 & Hap3);
    [apply (ap_position _ _ _ _ Hap2)|exact Hmod|lia|rewrite Hc2, len_app; unfold SPACE, ALIGNMENT in *; lia|].
  pose proof (ap_contents _ _ _ _ Hap3) as Hc3. rewrite Hc2 in Hc3. destruct (lseek_law w3 dest) as (w4 & Hw4 & Hk4 & Hp4 & Ho4).
  set (io := u64 ((SPACE / ALIGNMENT + data_blocks l) * ALIGNMENT)).
  assert (io = SPACE + len data) as Hio by (unfold io; rewrite u64_small; unfold SPACE, ALIGNMENT in *; dlia).
  destruct (make_header_run false true true io (Z.of_nat (length padded)) layer Hlayer) as (t & Hmt & Ht); [unfold io, u64; apply Z.mod_pos_bound; lia|lia|].
  destruct (write_header_end w4 dest _ _ _ _ _ _ t ltac:(by rewrite Hp4, Hk4) Hmt (hf_ok _ _ _ _ _ _ _ Ht)) as (w5 & Hw5 & Hap5);
    [rewrite Hk4, Hc3, !len_app; unfold SPACE, ALIGNMENT in *; lia|].
  destruct (compact_assemble w w2 w3 w4 w5 dest _ _ _ Hap2 Hap3 Hk4 Hap5) as [Hfin Hoth]. rewrite (proj1 Hfresh), app_nil_l, <- app_assoc in Hfin.
  exists w5, t, l'. split.
  - unfold compact. rewrite bind_run, Hload. cbv beta iota zeta. fold layer. fold dest. rewrite bind_run, Hw1. change (SPACE <? 0) with false. cbn iota.
    rewrite bind_run, Hrun. fold l' padded. rewrite bind_run, Hw3, bind_run, Hw4. fold io. rewrite bind_run, Hw5. done.
  - split; [|done|done|done|].
    + exists hd, data, n. rewrite <- Hpad. split_and!; try done; [by eapply header_trailer_ok|by rewrite (hf_vsize _ _ _ _ _ _ _ Ht)| |].
      * rewrite <- Hio. apply (hf_offset _ _ _ _ _ _ _ Ht).
      * apply (hf_index_size _ _ _ _ _ _ _ Ht).
    + eapply same_blocks_grow; [exact Hsame|exact Hch|exact Hpl| |].
      * rewrite Hc2, len_app, Hlh, Hld. unfold SPACE, ALIGNMENT. dlia.
      * rewrite Hc2, Hfin. rewrite <- app_assoc. reflexivity.
Qed.
End compact.

(** ** Theorems *)

Section theorems.
Context {W : Type} `{IFilesLaws W, ISparseFiles W, UUIDsLaws}.

(** A sealed file alone is an image. *)
Lemma open_sealed w f t l v : sealed_file w f t l -> exists o, open_files_ro (fun _ => None) [f] v w = Some (Some o, w) /\
  o_vsize o = (if 0 <? ht_virtual_size t then ht_virtual_size t else v) /\ ro_ok o w /\
  reads_as (as_file o w) (fun x => block_in w f (den l x)).
Proof.
  intros Hs. destruct (open_files_run w [(f, t, l)] v) as (o & Hrun & Hok & _ & Hv & Hr); [by apply Forall_singleton|simpl; lia|].
  exists o. split; [exact Hrun|]. split; [|split; [done|]].
  - rewrite Hv. unfold top_vsize. cbn. unfold filter. simpl. case_decide as Hd; destruct (Z.ltb_spec 0 (ht_virtual_size t)); try lia; done.
  - exact Hr.
Qed.

(** Compaction gives a file that opens and holds what the source did. *)
Lemma compact_reads w files l args u vsize v : with_headers w files vsize -> fresh w (ca_as args) ->
  len (ca_user_tag args) <= TAG_SIZE -> chain 0 l MAX_OFFSET -> sources_ok w files (ca_as args) l ->
  16 * (data_blocks l / 64 + Z.of_nat (length l) + N_page) < 2 ^ 31 ->
  exists w' t o, compact files l args u w = Some (0, w') /\ (forall g, g <> ca_as args -> contents w' g = contents w g) /\
    index_offset t = SPACE + data_blocks l * ALIGNMENT /\
    (exists hd body index, contents w' (ca_as args) = header_block hd ++ body ++ index ++ header_block t /\ len body = data_blocks l * ALIGNMENT) /\
    open_files_ro (fun _ => None) [ca_as args] v w' = Some (Some o, w') /\ o_vsize o = (if 0 <? vsize then vsize else v) /\
    reads_as (as_file o w') (fun x => block_bytes w files (den l x)).
Proof.
  intros Hh Hf Ht Hc Hs Hsize. destruct (compact_run w files l args u vsize Hh Hf Ht Hc Hs Hsize) as (w' & t & l' & Hrun & Hm).
  destruct (compacted_sealed _ _ _ _ _ _ _ _ Hm) as (Hsealed & Hsame & Hv).
  destruct (open_sealed w' (ca_as args) t _ v Hsealed) as (o & Hopen & Hvo & _ & Hr). exists w', t, o.
  destruct (cm_layout _ _ _ _ _ _ _ _ Hm) as (hd & body & n & _ & _ & _ & Hlay & _ & Hb & Hio & _).
  split; [done|]. split; [apply (cm_other _ _ _ _ _ _ _ _ Hm)|]. split; [by rewrite Hio, Hb|]. split; [by exists hd, body, (mappings_bytes (l' ++ replicate n invalid_mapping))|].
  split; [done|]. split; [by rewrite Hvo, Hv|]. intros off count buf Hrange Hl. destruct (Hr off count buf Hrange Hl) as (s' & Hread).
  exists s'. rewrite Hread. do 3 f_equal. apply read_blocks_ext. intros x. apply Hsame.
Qed.

Lemma sources_of_blocks w files dest l : chain 0 l MAX_OFFSET -> blocks_in (den l) files w -> dest ∉ files -> sources_ok w files dest l.
Proof.
  intros Hc Hin Hd. apply Forall_forall. intros m Hm Hz. destruct (chain_elem _ _ _ _ Hc Hm) as [Hw _]. unfold wf, end_ in Hw.
  destruct (Hin (end_ m - 1) (tag m) (moffset m + (end_ m - 1 - offset m))) as (f & Hf & _ & Hl).
  { rewrite (den_elem 0 l MAX_OFFSET m) by (done || (unfold end_; lia)). unfold block_at. by rewrite Hz. }
  exists f. split; [done|]. split; [intros ->; apply Hd; by apply list_elem_of_lookup_2 in Hf|]. unfold mend, end_ in *. rewrite Hz.
  unfold ALIGNMENT in *. lia.
Qed.

(** C10: Committing a writable file copies exactly the blocks that are mapped into
    a new file, with an index and a trailer, and leaves the source alone; opened
    as a layer, the new file reads as the source did. *)
Theorem commit_preserves_disk fi c0 base args u vsize v (s : lsmt_file Index0 W) : rw_inv fi c0 base s -> length (m_files s) = 1%nat ->
  with_headers (world s) (m_files s) vsize -> fresh (world s) (ca_as args) -> ca_as args ∉ m_files s ->
  len (ca_user_tag args) <= TAG_SIZE ->
  let l := mapping0 (m_index s) in 16 * (data_blocks l / 64 + Z.of_nat (length l) + N_page) < 2 ^ 31 ->
  exists w' t o, commit_rw s args u (world s) = Some (0, w') /\ (forall g, g <> ca_as args -> contents w' g = contents (world s) g) /\
    index_offset t = SPACE + data_blocks l * ALIGNMENT /\
    (exists hd body index, contents w' (ca_as args) = header_block hd ++ body ++ index ++ header_block t /\ len body = data_blocks l * ALIGNMENT) /\
    open_files_ro (fun _ => None) [ca_as args] v w' = Some (Some o, w') /\ o_vsize o = (if 0 <? vsize then vsize else v) /\
    reads_as (as_file o w') (disk_of s).
Proof.
  intros Hinv Hone Hh Hf Hni Ht l Hsize. destruct (ri_index _ _ _ _ Hinv) as [Hc _]. unfold commit_rw. rewrite Hone. cbn [Nat.ltb Nat.leb].
  apply (compact_reads (world s) (m_files s) l args u vsize v); try done.
  apply sources_of_blocks; [done|apply (ri_blocks _ _ _ _ Hinv)|done].
Qed.

(** C34: Flattening a writable image over its layers gives one file that reads as
    the whole image did. *)
Theorem flatten_preserves_disk fi c0 base as_ u vsize v (s : lsmt_file ComboIndex W) : rw_inv fi c0 base s ->
  with_headers (world s) (m_files s) vsize -> fresh (world s) as_ -> as_ ∉ m_files s ->
  let l := combo_view (m_index s) in 16 * (data_blocks l / 64 + Z.of_nat (length l) + N_page) < 2 ^ 31 ->
  exists w' o, flatten_rw s as_ u (world s) = Some (0, w') /\
    open_files_ro (fun _ => None) [as_] v w' = Some (Some o, w') /\ reads_as (as_file o w') (disk_of s).
Proof.
  intros Hinv Hh Hf Hni l Hsize. pose proof (ri_index _ _ _ _ Hinv) as Hvc.
  pose proof (view_chain (I := ComboIndex) (m_index s) Hvc) as Hch.
  destruct (combo_read_only (m_index s) Hvc) as (i & Hi & Hmap & _).
  destruct (compact_reads (world s) (m_files s) l (mkCommit as_ [] [] []) u vsize v) as (w' & t & o & Hrun & _ & _ & _ & Hopen & _ & Hr); try done.
  { apply sources_of_blocks; [exact Hch|apply (ri_blocks _ _ _ _ Hinv)|done]. }
  exists w', o. split; [|by split]. unfold flatten_rw. rewrite bind_run. unfold lift. rewrite Hi. cbn [fmap option_fmap option_map]. rewrite Hmap. exact Hrun.
Qed.

Lemma merge_run_image w layers args u vsize v : Forall (fun '(f, t, l) => sealed_file w f t l) layers ->
  (1 <= length layers <= 255)%nat -> with_headers w (reverse (layer_files layers)) vsize -> fresh w (ca_as args) ->
  ca_as args ∉ layer_files layers -> len (ca_user_tag args) <= TAG_SIZE ->
  (forall i, merge_memory_indexes (merged_layers layers) = Some (Some i) ->
    16 * (data_blocks (mapping i) / 64 + Z.of_nat (length (mapping i)) + N_page) < 2 ^ 31) ->
  exists w' o, merge_files_ro (fun _ => None) (layer_files layers) args u w = Some (0, w') /\
    open_files_ro (fun _ => None) [ca_as args] v w' = Some (Some o, w') /\ o_vsize o = (if 0 <? vsize then vsize else v) /\
    reads_as (as_file o w') (layers_disk w (reverse (layer_indexes layers))).
Proof.
  intros Hs Hn Hh Hf Hni Ht Hsize.
  destruct (merged_image w layers Hs Hn) as (i & Hmerge & Hvi & Hin & Hdisk).
  destruct (compact_reads w (reverse (layer_files layers)) (mapping i) args u vsize v) as (w' & t & o & Hrun & _ & _ & _ & Hopen & Hv & Hr); try done.
  { apply sources_of_blocks; [done|done|]. intros Hin'. by apply Hni, elem_of_reverse. }
  { by apply Hsize. }
  exists w', o. split; [|split; [done|split; [done|]]].
  - unfold merge_files_ro. assert (length (layer_files layers) = length layers) as -> by apply length_fmap.
    destruct (Nat.eqb_spec (length layers) 0); [lia|]. rewrite bind_run, (load_merge_run w layers 0 i Hs Hmerge). exact Hrun.
  - intros off count buf Hrange Hl. destruct (Hr off count buf Hrange Hl) as (s' & Hread). exists s'. rewrite Hread. do 3 f_equal.
    apply read_blocks_ext. exact Hdisk.
Qed.

(** C9: Merging sealed layers gives one sealed file that reads as the stack of the
    layers did.  Its virtual size is the one in the header of the top layer. *)
Theorem merge_preserves_image w layers args u vsize v : Forall (fun '(f, t, l) => sealed_file w f t l) layers ->
  (1 <= length layers <= 255)%nat -> with_headers w (reverse (layer_files layers)) vsize -> fresh w (ca_as args) ->
  ca_as args ∉ layer_files layers -> len (ca_user_tag args) <= TAG_SIZE ->
  (forall i, merge_memory_indexes (merged_layers layers) = Some (Some i) ->
    16 * (data_blocks (mapping i) / 64 + Z.of_nat (length (mapping i)) + N_page) < 2 ^ 31) ->
  exists w' o, merge_files_ro (fun _ => None) (layer_files layers) args u w = Some (0, w') /\
    open_files_ro (fun _ => None) [ca_as args] v w' = Some (Some o, w') /\ o_vsize o = (if 0 <? vsize then vsize else v) /\
    reads_as (as_file o w') (layers_disk w (reverse (layer_indexes layers))).
Proof. apply merge_run_image. Qed.

(** The virtual size that merging works out, the first one from the top that is
    not zero, is not used: when the header of the top layer has the size zero, the
    merged file has none, and opening it gives the value of a variable that was
    not initialised, while the stack of the layers has a size. *)
Theorem merge_forgets_size w layers args u : Forall (fun '(f, t, l) => sealed_file w f t l) layers ->
  (1 <= length layers <= 255)%nat -> with_headers w (reverse (layer_files layers)) 0 -> fresh w (ca_as args) ->
  ca_as args ∉ layer_files layers -> len (ca_user_tag args) <= TAG_SIZE ->
  (forall i, merge_memory_indexes (merged_layers layers) = Some (Some i) ->
    16 * (data_blocks (mapping i) / 64 + Z.of_nat (length (mapping i)) + N_page) < 2 ^ 31) ->
  Exists (fun y => 0 < ht_virtual_size (snd (fst y))) layers ->
  exists w', merge_files_ro (fun _ => None) (layer_files layers) args u w = Some (0, w') /\
    forall v, exists o o', open_files_ro (fun _ => None) (layer_files layers) v w = Some (Some o, w) /\ 0 < o_vsize o /\
      open_files_ro (fun _ => None) [ca_as args] v w' = Some (Some o', w') /\ o_vsize o' = v.
Proof.
  intros Hs Hn Hh Hf Hni Ht Hsize Hex.
  destruct (merge_run_image w layers args u 0 0 Hs Hn Hh Hf Hni Ht Hsize) as (w' & _ & Hrun & _).
  exists w'. split; [done|]. intros v.
  destruct (merge_run_image w layers args u 0 v Hs Hn Hh Hf Hni Ht Hsize) as (w2 & o' & Hrun2 & Hopen & Hv & _).
  assert (w2 = w') as -> by congruence. destruct (open_files_run w layers v Hs Hn) as (o & Hopen2 & _ & _ & Hv2 & _).
  exists o, o'. split; [done|]. split; [|by split]. rewrite Hv2. unfold top_vsize.
  set (l := filter _ _). assert (Forall (fun v => 0 < v) l) as Hl by (apply Forall_forall; intros x [Hx _]%list_elem_of_filter; exact Hx).
  destruct l as [|x l'] eqn:Hfl; [|apply Forall_cons in Hl as [Hx _]; exact Hx]. exfalso.
  apply Exists_exists in Hex as (y & Hy & Hpos). assert (ht_virtual_size (snd (fst y)) ∈ l) as Hin.
  { unfold l. apply list_elem_of_filter. split; [done|]. apply elem_of_reverse. by apply (list_elem_of_fmap_2 (fun y => ht_virtual_size (snd (fst y)))). }
  rewrite Hfl in Hin. by apply elem_of_nil in Hin.
Qed.

(** The records of an index without invalid mappings. *)
Lemma real_chain lo l hi : chain lo l hi -> hi <= MAX_OFFSET -> real l = l.
Proof.
  revert lo. induction l as [|m l IH]; intros lo; [done|]. intros (_ & Hw & Hc) Hh. pose proof (chain_le _ _ _ Hc).
  change (m :: l) with ([m] ++ l). rewrite real_app, (IH _ Hc) by done. by rewrite real_wf.
Qed.

(** The index and the trailer of [close_seal]. *)
Lemma seal_writes w fd hd ext padding l u : sealed_header hd -> contents w fd = header_block hd ++ ext -> chain 0 l MAX_OFFSET ->
  let io := len (contents w fd) in let bytes := (Z.of_nat (length l) * sizeof_SegmentMapping + ALIGNMENT - 1) / ALIGNMENT * ALIGNMENT in
  len padding = bytes - Z.of_nat (length l) * sizeof_SegmentMapping -> io + bytes + SPACE < 2 ^ 63 ->
  exists w1 w2 w3 layer t, f_lseek_end fd w = Some (io, w1) /\
    f_write fd (take (Z.to_nat bytes) (mappings_bytes l ++ padding)) w1 = Some (bytes, w2) /\
    load_layer_info [fd] (mkLayer 0 u uuid_null [] false) true w2 = Some (Some layer, w2) /\
    write_header_trailer fd false true true io (Z.of_nat (length l)) layer w2 = Some (SPACE, w3) /\
    header_for false true true io (Z.of_nat (length l)) layer t /\ li_virtual_size layer = ht_virtual_size hd /\
    contents w3 fd = header_block hd ++ ext ++ mappings_bytes l ++ padding ++ header_block t /\
    (forall g, g <> fd -> contents w3 g = contents w g).
Proof.
  intros [(Hok & Hm & Hh & Hsp) Hdf] Hc Hch io bytes Hpad Hs. pose proof (len_header_block hd Hok) as Hl. pose proof (len_nonneg ext).
  assert (Z.of_nat (length l) < 2 ^ 60) as Hn.
  { unfold io, bytes, sizeof_SegmentMapping, ALIGNMENT, SPACE in *. pose proof (len_nonneg (contents w fd)). dlia. }
  assert (len (mappings_bytes l ++ padding) = bytes) as Hb by (rewrite len_app, len_mappings_bytes, Hpad; unfold sizeof_SegmentMapping; lia).
  rewrite (take_ge (mappings_bytes l ++ padding)) by (unfold len in Hb; lia). pose proof (len_nonneg (mappings_bytes l ++ padding)) as Hb0.
  destruct (lseek_law w fd) as (w1 & Hseek & Hk1 & Hp1 & Ho1).
  destruct (write_end_run w1 fd (mappings_bytes l ++ padding)) as (w2 & Hw2 & Hap2); [by rewrite Hp1, Hk1|rewrite Hk1; fold io; unfold SPACE in *; lia|].
  pose proof (ap_contents _ _ _ _ Hap2) as Hc2. rewrite Hk1, Hc, <- app_assoc in Hc2.
  destruct (read_header w2 fd hd _ Hok Hc2) as (b0 & Hr0 & Hp0).
  set (layer := mkLayer (ht_virtual_size hd) (default u (uuid_parse (uuid hd))) (default uuid_null (uuid_parse (parent_uuid hd))) [] (is_sparse_rw hd)).
  assert (layer_ok layer) as Hlayer by (split; [apply (ho_virtual_size _ Hok)|vm_compute; done]).
  destruct (make_header_run false true true io (Z.of_nat (length l)) layer Hlayer) as (t & Hmt & Ht); [unfold io, SPACE in *; rewrite Hc, len_app in *; lia|lia|].
  destruct (write_header_end w2 fd _ _ _ _ _ _ t ltac:(apply (ap_position _ _ _ _ Hap2)) Hmt (hf_ok _ _ _ _ _ _ _ Ht)) as (w3 & Hw3 & Hap3).
  { rewrite (ap_contents _ _ _ _ Hap2), Hk1, len_app. fold io. lia. }
  exists w1, w2, w3, layer, t. split; [done|]. split; [by rewrite Hw2, Hb|]. split; [|split; [done|split; [done|split; [done|split]]]].
  - unfold load_layer_info, mbind, M_bind, lift. cbn [head fmap option_fmap option_map]. rewrite Hr0, Z.eqb_refl. cbn [negb length Nat.eqb mret M_ret].
    by rewrite Hp0.
  - by rewrite (ap_contents _ _ _ _ Hap3), Hc2, <- !app_assoc.
  - intros g Hg. rewrite (appended_other _ _ _ _ _ Hap3 Hg), (appended_other _ _ _ _ _ Hap2 Hg). apply Hk1.
Qed.

(** C26: Sealing a writable file that is not stacked on layers and has no records
    waiting for a group commit appends its index and a trailer to the data file; the
    file, reopened directly or opened later as a layer, reads as before. *)
Theorem close_seal_preserves_disk fd hd ext padding u v (s : lsmt_file Index0 W) : m_files s = [fd] -> m_rw_tag s = 0 -> nmapping s = 0 ->
  sealed_header hd -> contents (world s) fd = header_block hd ++ ext -> len ext mod ALIGNMENT = 0 -> index0_valid (m_index s) ->
  let l := mapping0 (m_index s) in let io := len (contents (world s) fd) in
  Forall (between (SPACE / ALIGNMENT) (io / ALIGNMENT)) l -> Forall (fun m => tag m = 0) l ->
  let bytes := (Z.of_nat (length l) * sizeof_SegmentMapping + ALIGNMENT - 1) / ALIGNMENT * ALIGNMENT in
  len padding = bytes - Z.of_nat (length l) * sizeof_SegmentMapping -> io + bytes + SPACE < 2 ^ 63 -> 16 * Z.of_nat (length l) < 2 ^ 31 ->
  exists s' o o', close_seal padding u true s = Some ((0, Some o), s') /\ o_vsize o = m_vsize s /\ reads_as (as_file o (world s')) (disk_of s) /\
    open_files_ro (fun _ => None) [fd] v (world s') = Some (Some o', world s') /\ reads_as (as_file o' (world s')) (disk_of s).
Proof.
  intros Hfs Ht Hnm Hh Hc Hal [Hch _] l io Hpl Htag bytes Hpad Hs Hn.
  destruct (seal_writes (world s) fd hd ext padding l u Hh Hc Hch Hpad Hs) as (w1 & w2 & w3 & layer & t & Hseek & Hw2 & Hload & Hw3 & Htr & Hv & Hc3 & Ho3).
  fold io in Hseek, Hw3, Htr. fold bytes in Hw2.
  assert (with_tag 0 <$> l = l) as Hl0.
  { rewrite <- (list_fmap_id l) at 2. apply Forall_fmap_ext_1. apply (Forall_impl _ _ _ Htag). intros m Hm. rewrite <- Hm. by destruct m. }
  pose proof (len_header_block hd (proj1 (proj1 Hh))) as Hlh.
  assert (sealed_file w3 fd t l) as Hsealed.
  { split; [|by eapply header_trailer_ok|done|].
    - exists hd, ext, l, padding. split; [done|]. split; [unfold loaded; by rewrite (real_chain 0 l MAX_OFFSET)|].
      split; [apply (Forall_impl _ _ _ (chain_wf _ _ _ Hch)), wf_fields|]. split; [exact Hc3|].
      rewrite (hf_offset _ _ _ _ _ _ _ Htr), (hf_index_size _ _ _ _ _ _ _ Htr). unfold io. rewrite Hc, len_app, Hlh. done.
    - apply (Forall_impl _ _ _ Hpl). intros m [Hlo Hhi]. rewrite (hf_offset _ _ _ _ _ _ _ Htr). unfold SPACE, ALIGNMENT in *. dlia. }
  assert (forall x, block_in w3 fd (den l x) = disk_of s x) as Hdisk.
  { intros x. unfold disk_of. rewrite Hfs. cbn [view Index0_laws]. fold l. rewrite single_block by done.
    apply (block_in_grow (world s) w3 fd l _ _ (mappings_bytes l ++ padding ++ header_block t) x Hch Hpl); [fold io; unfold ALIGNMENT; dlia|].
    by rewrite Hc3, Hc, <- !app_assoc. }
  set (o := mkOpened RO (Index_over l 0) [fd] None [] (m_vsize s) 0).
  destruct (open_sealed w3 fd t l v Hsealed) as (o' & Hopen & _ & _ & Hr').
  exists (set_world w3 s), o, o'. split; [|split; [done|split; [|split; [done|]]]].
  - unfold close_seal, on_world, zoom, mbind, M_bind, gets, lift. rewrite Hfs, Ht. change ([fd] !! Z.to_nat 0) with (Some fd). cbn [fmap option_fmap option_map].
    rewrite Hseek. cbn [world set_world m_index]. fold l bytes. rewrite Hw2, Z.ltb_irrefl. cbn [world set_world]. rewrite Hload.
    cbn [world set_world]. rewrite Hw3. change (SPACE <? 0) with false. cbn iota.
    rewrite (create_index_run l _ _ 0 Hch Hpl). change (last [fd]) with (Some fd). cbn [fmap option_fmap option_map].
    unfold do_group_commit_mappings, mbind, M_bind, gets. cbn [nmapping set_world]. rewrite Hnm. done.
  - apply reads_as_disk; [split; [exact Hch|split; [by eapply single_blocks_in|done]]|].
    intros x. rewrite <- Hdisk. by apply single_block.
  - intros off count buf Hrange Hlb. destruct (Hr' off count buf Hrange Hlb) as (s' & Hread). exists s'. cbn [world set_world]. rewrite Hread.
    do 3 f_equal. by apply read_blocks_ext.
Qed.
End theorems.

(** ** Witnesses *)

(** A writable file with one block of data, and an empty index file. *)
Definition wit_rw_world : mem_files := <[1 := (header_block (wit_header false true) ++ replicate 512 7, 0)]>
  (<[2 := (zeros SPACE, 0)]> ∅).
Definition wit_rw : lsmt_file Index0 mem_files :=
  mkFile (mkIndex0 [wit_map] 1) [1] (Some 2) 0 (2 ^ 20) 4096 8 [] 0 0 0 wit_rw_world.

Lemma wit_map_blocks (w : mem_files) x t a (files : list Z) f : files !! O = Some f -> 4608 <= len (contents w f) -> den [wit_map] x = Some (Data t a) ->
  exists f, files !! Z.to_nat t = Some f /\ 0 <= a /\ (a + 1) * ALIGNMENT <= len (contents w f).
Proof.
  intros Hf Hl Hx. cbn [den] in Hx. destruct (in_seg wit_map x) eqn:Hin; [|done]. apply in_seg_true in Hin.
  injection Hx as <- <-. exists f. split; [done|]. unfold wit_map, end_, ALIGNMENT in *. simpl in *. lia.
Qed.

Lemma wit_rw_ok : rw_inv 2 (contents (world wit_rw) 2) (den (view (m_index wit_rw))) wit_rw.
Proof.
  apply (rw_inv_initial (I := Index0) (W := mem_files) 2 wit_rw); [| |vm_compute; done|done|done| | |done|vm_compute; done|done|done].
  - split; vm_compute; done.
  - intros x t a Hx. apply (wit_map_blocks _ x t a _ 1); [done|vm_compute; done|exact Hx].
  - exists 1. vm_compute. done.
  - apply not_elem_of_cons. split; [done|apply not_elem_of_nil].
Qed.

Definition wit_args (dest : Z) : CommitArgs := mkCommit dest [65] [] [].

Lemma commit_preserves_disk_witness : exists w' o, commit_rw wit_rw (wit_args 3) [] wit_rw_world = Some (0, w') /\
  open_files_ro (fun _ => None) [3] 0 w' = Some (Some o, w') /\ o_vsize o = 2 ^ 20 /\ reads_as (as_file o w') (disk_of wit_rw).
Proof.
  destruct (commit_preserves_disk 2 (contents (world wit_rw) 2) (den (view (m_index wit_rw))) (wit_args 3) [] (2 ^ 20) 0 wit_rw wit_rw_ok)
    as (w' & t & o & Hrun & _ & _ & _ & Hopen & Hv & Hr); [reflexivity| |split; vm_compute; reflexivity| |vm_compute; done|vm_compute; done|].
  - exists 1, (wit_header false true), (replicate 512 7), 1, (wit_header false true), (replicate 512 7).
    do 2 (split; [reflexivity|]). split; [apply wit_header_ok|]. do 2 (split; [vm_compute; reflexivity|]).
    split; [apply wit_header_ok|]. vm_compute. reflexivity.
  - apply not_elem_of_cons. split; [done|apply not_elem_of_nil].
  - exists w', o. split; [exact Hrun|]. split; [exact Hopen|]. split; [exact Hv|exact Hr].
Defined.

(** An empty writable file over the sealed one. *)
Definition wit_stacked : lsmt_file ComboIndex mem_files :=
  mkFile (ComboIndex_new Index0_empty (Index_over [wit_map] 0) 1) [3; 1] (Some 2) 1 (2 ^ 20) 4096 8 [] 0 0 0 wit_sealed_world.

Lemma wit_stacked_ok : rw_inv 2 (contents (world wit_stacked) 2) (den (view (m_index wit_stacked))) wit_stacked.
Proof.
  apply (rw_inv_initial (I := ComboIndex) (W := mem_files) 2 wit_stacked); [| |vm_compute; done|done|done| | |done|vm_compute; done|done|done].
  - split; [vm_compute; done|]. split; [done|]. intros b [= <-]. vm_compute. done.
  - intros x t a Hx. apply (wit_map_blocks _ x t a _ 3); [done|vm_compute; done|exact Hx].
  - exists 1. vm_compute. done.
  - repeat (apply not_elem_of_cons; split; [done|]). apply not_elem_of_nil.
Qed.

Lemma flatten_preserves_disk_witness : exists w' o, flatten_rw wit_stacked 4 [] wit_sealed_world = Some (0, w') /\
  open_files_ro (fun _ => None) [4] 0 w' = Some (Some o, w') /\ reads_as (as_file o w') (disk_of wit_stacked).
Proof.
  apply (flatten_preserves_disk 2 (contents (world wit_stacked) 2) (den (view (m_index wit_stacked))) 4 [] (2 ^ 20) 0 wit_stacked wit_stacked_ok).
  - exists 3, (wit_header true true), (replicate 512 7 ++ mappings_bytes [wit_map; invalid_mapping] ++ [] ++ header_block (wit_trailer 4608 2)),
      1, (wit_header false true), [].
    do 2 (split; [reflexivity|]). split; [apply wit_header_ok|]. do 2 (split; [vm_compute; reflexivity|]).
    split; [apply wit_header_ok|]. vm_compute. reflexivity.
  - split; vm_compute; reflexivity.
  - repeat (apply not_elem_of_cons; split; [done|]). apply not_elem_of_nil.
  - vm_compute. done.
Defined.

(** A layer of size zero, without data, over the sealed one. *)
Definition wit_layer0 : LayerInfo := mkLayer 0 (replicate 16 1) (replicate 16 2) [] false.
Definition wit_header0 : HeaderTrailer := default (wit_header true true) (make_header true true true 0 0 wit_layer0).
Definition wit_trailer0 : HeaderTrailer := default (wit_header true true) (make_header false true true SPACE 0 wit_layer0).
Definition wit_merge_world : mem_files := <[5 := (header_block wit_header0 ++ [] ++ mappings_bytes [] ++ [] ++ header_block wit_trailer0, 0)]> wit_sealed_world.

Lemma wit_header0_ok : ht_ok wit_header0 /\ ht_ok wit_trailer0.
Proof. split; split; vm_compute; done. Qed.

Lemma wit_merge_sealed : Forall (fun '(f, t, l) => sealed_file wit_merge_world f t l) [(3, wit_trailer 4608 2, [wit_map]); (5, wit_trailer0, [])].
Proof.
  constructor; [|constructor; [|constructor]].
  - destruct wit_sealed as [Hlay Ht Hi Hp]. split; [|done|done|done]. destruct Hlay as (h & b & r & p & A & B & C & D & E). exists h, b, r, p.
    split; [done|]. split; [done|]. split; [done|]. split; [|done]. rewrite <- D. vm_compute. reflexivity.
  - destruct wit_header0_ok as [Hh0 Ht0]. split.
    + exists wit_header0, [], [], []. split; [split; [split; [done|vm_compute; done]|vm_compute; done]|].
      split; [done|]. split; [constructor|]. split; [vm_compute; reflexivity|]. vm_compute. done.
    + split; [done|]. vm_compute. done.
    + vm_compute. done.
    + constructor.
Qed.

Lemma wit_merge_headers : with_headers wit_merge_world [5; 3] 0.
Proof.
  exists 5, wit_header0, (header_block wit_trailer0), 3, (wit_header true true),
    (replicate 512 7 ++ mappings_bytes [wit_map; invalid_mapping] ++ [] ++ header_block (wit_trailer 4608 2)).
  do 2 (split; [reflexivity|]). split; [apply wit_header0_ok|]. do 2 (split; [vm_compute; reflexivity|]).
    split; [apply wit_header_ok|]. vm_compute. reflexivity.
Qed.

Lemma wit_merge_size i : merge_memory_indexes (merged_layers [(3, wit_trailer 4608 2, [wit_map]); (5, wit_trailer0, [])]) = Some (Some i) ->
  16 * (data_blocks (mapping i) / 64 + Z.of_nat (length (mapping i)) + N_page) < 2 ^ 31.
Proof. intros H. vm_compute in H. injection H as <-. vm_compute. reflexivity. Qed.

Lemma merge_preserves_image_witness : exists w' o, merge_files_ro (fun _ => None) [3; 5] (wit_args 6) [] wit_merge_world = Some (0, w') /\
  open_files_ro (fun _ => None) [6] 0 w' = Some (Some o, w') /\
  reads_as (as_file o w') (layers_disk wit_merge_world [(5, []); (3, [wit_map])]).
Proof.
  destruct (merge_preserves_image wit_merge_world [(3, wit_trailer 4608 2, [wit_map]); (5, wit_trailer0, [])] (wit_args 6) [] 0 0
    wit_merge_sealed) as (w' & o & Hrun & Hopen & _ & Hr); [simpl; lia|exact wit_merge_headers|split; vm_compute; reflexivity| |vm_compute; done|exact wit_merge_size|].
  - repeat (apply not_elem_of_cons; split; [done|]). apply not_elem_of_nil.
  - exists w', o. split; [exact Hrun|]. split; [exact Hopen|exact Hr].
Defined.

Lemma merge_forgets_size_witness : exists w', merge_files_ro (fun _ => None) [3; 5] (wit_args 6) [] wit_merge_world = Some (0, w') /\
  forall v, exists o o', open_files_ro (fun _ => None) [3; 5] v wit_merge_world = Some (Some o, wit_merge_world) /\ 0 < o_vsize o /\
    open_files_ro (fun _ => None) [6] v w' = Some (Some o', w') /\ o_vsize o' = v.
Proof.
  apply (merge_forgets_size wit_merge_world [(3, wit_trailer 4608 2, [wit_map]); (5, wit_trailer0, [])] (wit_args 6) [] wit_merge_sealed);
    [simpl; lia|exact wit_merge_headers|split; vm_compute; reflexivity| |vm_compute; done|exact wit_merge_size|].
  - repeat (apply not_elem_of_cons; split; [done|]). apply not_elem_of_nil.
  - apply Exists_cons_hd. vm_compute. done.
Defined.

Lemma close_seal_preserves_disk_witness : exists s' o, close_seal (zeros 496) [] true wit_rw = Some ((0, Some o), s') /\
  reads_as (as_file o (world s')) (disk_of wit_rw).
Proof.
  destruct (close_seal_preserves_disk 1 (wit_header false true) (replicate 512 7) (zeros 496) [] 0 wit_rw) as (s' & o & o' & Hrun & _ & Hr & _).
  - done.
  - done.
  - done.
  - split; [split; [apply wit_header_ok|vm_compute; done]|vm_compute; done].
  - vm_compute. reflexivity.
  - done.
  - split; vm_compute; done.
  - repeat constructor; vm_compute; done.
  - repeat constructor.
  - vm_compute. done.
  - vm_compute. done.
  - vm_compute. done.
  - exists s', o. split; [exact Hrun|exact Hr].
Defined.
